(* ===== verification/_CoqProject ===== *)
-Q . S2P
Prelude.v
LogDedupe.v
Store.v
StoreIndex.v
StoreLookup.v
StoreRefine.v
StoreIP.v
StoreSweep.v
StoreServe.v
Tailer.v
TailerLedger.v
TailerSteps.v
TailerSafe.v
Wire.v
Budget.v
Clip.v
Order.v
Ring.v
Edge.v
EdgeSafe.v
Number.v
Float.v
Text.v
Pdata.v
TraceHash.v
Promparse.v
PromSpec.v
PromSafe.v
PromText.v
PromBounds.v
Hist.v
CumAgg.v
CumAggRun.v
EdgeMetrics.v
CumAggSafe.v
EdgeMetricsSafe.v
SpanMetrics.v
SpanMetricsSafe.v
TailSample.v
TailCompile.v
TailInv.v
TailSampleSafe.v
TailValidate.v
TailCache.v
Payload.v
TailBuffer.v
TailBufferInv.v
TailBufferPush.v
TailBufferSafe.v
TailBilling.v
TailConfig.v
TailBufferExamples.v
TraceSample.v
TraceSampleSafe.v
OtlpSplit.v
OtlpSplitInv.v
OtlpSplitMetrics.v
OtlpSplitSafe.v
KubeMeta.v
KubeMetaSafe.v
KubeMetaNote.v
Owners.v
OwnersSafe.v
Services.v
ServicesSafe.v
ServicesConc.v
Targets.v
Collide.v
Merge.v
Dedup.v
DedupSafe.v
NodeTargets.v
NodeTargetsPod.v
NodeTargetsSafe.v
NodeMonitors.v
TargetsExamples.v
