(* ===== verification/Prelude.v ===== *)
(** * kubescrape: a verification library

    kubescrape is a metadata service and a node agent for Kubernetes telemetry.
    The service keeps an in-memory view of the cluster's pods, Services,
    monitors and owners; it answers lookups, some of which wait for a pod to
    appear, and derives from that view what each node's agent should scrape.
    The agent tails container logs, scrapes Prometheus endpoints, receives
    OTLP, samples traces and derives metrics from them.  This library models
    the parts of both that hold state or decide something, from the Go sources,
    and proves what they promise.

    ** Conventions

    A Go integer is a [Z], with its wrap-around written out where the code can
    reach it ([u64], [u32], [int_of_u64] below); a length is a [nat].  Counters
    that would have to move 2^63 times to wrap are plain [Z]: the change tokens
    of the indexes, the sequence numbers of the decision cache, the bytes of a
    [byteBudget].  A time is a [Z] of nanoseconds, [0] the zero value, and
    [time_sub] saturates as [Time.Sub] does.  A byte string is a [list Z]
    ([bytes], in [Clip]) or, where only its identity matters, a [string].  A
    [float64] is [spec_float] at 53 bits ([Number], [Float]).  A map is a
    [gmap]; where Go's iteration order can be seen, the order is an argument of
    the step.  Pointers that are shared or compared are addresses in a heap, or
    a field of the record they point to.  Code that other goroutines can
    interrupt is a step relation whose steps are the holds of its lock or its
    atomic operations, and the theorems are about every interleaving ([star],
    [star_inv] below).  A property's theorem carries its number, [C]n; its
    example at concrete input is the lemma of the same name ending in
    [_witness].

    ** The metadata service

    - Log throttling, [internal/logdedupe/logdedupe.go]: [LogDedupe].  [Throttle]
      with its compare-and-swap races, [Outage], and the bounded [Table].
    - The pod and container store, [internal/store/] ([store.go], [lookup.go],
      [podip.go], [sweep.go], [waiters.go]): [Store] has every operation,
      [StoreIndex] what each can change, [StoreLookup] the blocking lookup of a
      container as a state machine beside informer events, sweeps and the
      shutdown drain, [StoreRefine] the refinement of a map from UID to live
      pod and the node change tokens, [StoreIP] the pod-IP index, [StoreSweep]
      tombstones and the sweep, [StoreServe] what is served by UID and by name,
      deleted pods included.
    - What every served document carries: [KubeMeta] is the filter, the
      ceilings and the note on annotations and labels
      ([pkg/kubemeta/annotations.go]), [KubeMetaSafe] and [KubeMetaNote] its
      properties; [Owners] is the resolution of owner chains
      ([internal/owners/owners.go]), a run over caches that may change between
      two reads, [OwnersSafe] its properties.
    - The index of Services, [internal/services/services.go]: [Services] is the
      index and its readers, [ServicesSafe] what it holds, [ServicesConc] the
      readers among the writers.
    - What is scraped, [internal/scrape/]: [Targets] derives targets from a pod,
      a Service and a monitor's endpoint ([targets.go]), [Collide] finds the
      targets of one exported identity ([instance.go]), [Merge] folds a
      monitor into the target of its URL ([merge.go], [docsize.go],
      [internal/promdur]).
    - The targets of a pod and of a node, [internal/server/]: [Dedup] is the
      accumulator every door offers to ([targetdedup.go], [monitoroffers.go]),
      [DedupSafe] what it promises for any sequence of offers; [NodeTargets]
      assembles a node's list ([nodetargets.go], [targetwarn.go]),
      [NodeTargetsPod] and [NodeTargetsSafe] relate the list to the offers of
      its pods, [NodeMonitors] is the index of monitors
      ([internal/servicemonitors/index.go]) and the two memos over it among
      their writers; [TargetsExamples] evaluates all of it on one cluster.
      [Targets] and [Merge] are called by [Dedup], [Dedup] by [NodeTargets],
      which asks the store and the indexes through its parameters.

    ** The agent

    - The log tailer's ledger, [internal/agent/tailer/] ([ledger.go],
      [pipeline.go], [flush.go], [rotate.go], [replay.go], [observed.go],
      [checkpoint.go], [file.go], [discover.go]): [Tailer] has the operations,
      [TailerLedger] the system of reads, emissions, flushes, rotations and
      restarts with its invariant, [TailerSteps] the commit, rewind and rotation
      steps, [TailerSafe] the guarantees and line splitting.  The CRI and
      multi-line aggregators are a third-party package: they are the
      environment, which may emit what it holds at any time.
    - Wire-shape admission, [internal/agent/otlpingest/depth.go] and
      [decodedsize.go]: [Wire].  The receivers' byte budget, [admit.go]:
      [Budget], with an add and its undo as separate steps.
    - Splitting by encoded size, [pkg/otlpsplit/otlpsplit.go]: [OtlpSplit];
      [OtlpSplitInv], [OtlpSplitMetrics] and [OtlpSplitSafe] prove it.
    - Cuts on a rune boundary, [internal/clip/clip.go] and
      [internal/agent/cumagg/render.go]: [Clip].  The order of strings:
      [Order].
    - The service graph, [internal/agent/servicegraph/]: [Ring] is the shard
      ring ([ring.go]); [Edge] the pairing store ([store.go]), a map, an
      intrusive expiry list and a free list in one heap, [EdgeSafe] its
      refinement of a queue; [EdgeMetrics] the registry ([metrics.go]), an
      instance of [Aggregate], and [EdgeMetricsSafe] the registry under the
      pairing store, whose sink it is.
    - The Prometheus text parser, [pkg/promparse/parser.go]: [Promparse] is the
      whole parser in a state monad, [Number] the numbers it reads, [PromSpec] a
      reference parser with no tables, caches or memo, [PromSafe], [PromText]
      and [PromBounds] the properties.
    - Cumulative series, [internal/agent/cumagg/]: [Hist] has the keys,
      histograms, exemplars, snapshots and points ([hist.go], [render.go],
      [config.go]); [CumAgg] the series map, the delivery gate, the chunked
      render and the export transaction ([cumagg.go], [snapshot.go]) over the
      class [Aggregate], what an aggregator plugs in, with its laws
      [AggregateLaws]; [CumAggRun] every hold and one export from start to
      finish, [CumAggSafe] the properties.
    - Span metrics, [internal/agent/spanmetrics/spanmetrics.go]: [SpanMetrics]
      is the second instance of [Aggregate], [SpanMetricsSafe] its properties
      and the generator behind its tap under concurrent pushes.
    - What the samplers share: [Float] is arithmetic on [float64], [Text] the
      error monad of configuration and [internal/config/duration.go], [Pdata]
      the OTLP messages, [TraceHash] the hash threshold and the token bucket
      ([internal/agent/tracehash/]), [Payload] the copying of spans into a
      payload under their resource and scope.
    - Tail-sampling policies, [internal/agent/tailsample/] ([tailsample.go],
      [policy.go]): [TailSample] is the evaluation of a compiled list,
      [TailCompile] its compilation and every refusal, [TailInv] what a
      decision reads and spends, [TailSampleSafe] and [TailValidate] the
      properties.  The script policy is a parameter with a state of its own;
      composite policies recurse on the list they hold.
    - The trace tail buffer, [internal/agent/tailbuffer/]: [TailCache] is the
      decision cache ([cache.go]), [TailBuffer] the operations ([tailbuffer.go],
      [early.go]), a function for each hold of the lock, [TailBufferInv] the
      queue of assembling traces and the invariant, [TailBufferPush] what a
      push's hold does, [TailBufferSafe] pushes, sweeps and the flush
      interleaving at their holds with sends between them, [TailBilling] the
      buffer above the policy engine through the class [SpendsOnce],
      [TailConfig] the settings and the memory budget ([config.go],
      [memory.go]), [TailBufferExamples] a run evaluated.
    - The head sampler, [internal/agent/tracesample/]: [TraceSample] and
      [TraceSampleSafe].

    ** Fuel

    No answer is the fuel's.  The loops of [Wire], [Promparse], [KubeMeta]
    (cutting the note) and [Merge] (reading a duration) take the length of the
    bytes they read, and each turn consumes one ([parse_total]); the merged
    port chains of [Targets] take the number of ports, following a cycle in
    [NodeTargets] the number of positions, and [node_targets_exact] has the
    list as a result; emptying the tail buffer takes one more than the number
    of traces, and a turn removes one.  An export's holds are bounded by
    [rank], and [export_completes] says it ends.  A chunk of a sweep decides at
    most 128 traces and a send is tried three times, both as in the code.

    ** What the theorems show

    - Nothing is lost: no tailed line is skipped or forgotten by a checkpoint,
      and the file that [initFile] makes of one reads again whatever was not
      delivered ([no_line_skipped], [failed_flush_rereads],
      [exported_never_forgotten], [committed_sound]); no waiting lookup misses
      its wake-up ([no_lost_wakeup]); no observation is evicted before the
      collector has it ([no_observation_lost], [export_exact]); every completed
      edge is counted once ([edges_counted]) and every forwarded span
      ([spans_counted]); every span pushed to the tail buffer is buffered, sent,
      dropped by a verdict or handed back, once, and after the flush nothing is
      buffered ([spans_conserved], [flush_latches]); a head-sampled payload is
      what it forwards and what it counts as dropped ([export_accounts]); the
      parts of a split payload are the payload ([split_lossless]); a body cut
      short yields its whole lines ([cut_short]).
    - Detailed structures implement simple ones: the store a map of live pods
      and, while the clock does not go back, an abstract store of live and
      deleted ones ([store_refines], [GetPodByIP_exact], [sweep_exact],
      [deleted_resolvable_until_ttl]), the index of Services the last delivery
      of each name ([index_last_delivery]) read atomically per namespace
      ([inNamespaces_linear]), the pairing store a queue
      ([edgeStore_refines], [expiry_exact], [pairing_order_free]), the text
      parser a memoryless one ([warm_parse_exact], [print_parse]), chunked line
      splitting a byte at a time ([chunks_split_alike]), the pruned nesting walk
      the full one ([checkNesting_exact]), the ring the least token at or after
      the key ([owner_exact]), a series key its label set
      ([series_labels_exact], [span_labels_exact]), a policy decision its
      memoryless reading ([decide_reference]), the decision cache a bounded
      queue of verdicts with a TTL ([cache_refines]), the head sampler's walk a
      filter ([sampled_filters]).
    - What is served is a function of the cluster: annotations do not depend
      on the order of a map ([annotations_order_free]) and the note reads back
      ([omission_reads_back]); an owner chain is bounded and only ever cut
      ([owner_chain_bounded], [owner_chain_prefix]); a Service's ports are the
      ones its annotation names ([service_ports_exact]); a node's list is the
      sorted union of its pods' offers ([node_targets_exact]) and a URL's
      target a closed form of the offers of it ([served_per_url]); merging
      honours a monitor or reports ([merge_honoured]) and takes the finest
      interval ([merged_finest]); the memos over the monitors are no older than
      what the caller has seen ([monitored_current]); collisions are all found
      ([collisions_exact]).
    - Sampling decides as configured: a budget pays a trace once, and the mask
      says which paid ([budget_exact], [no_double_billing]); a sweep decides the
      due traces and no other ([sweep_decides_due]); the two samplers keep
      nested sets of traces ([sampling_nests]); a partial trace never looks
      slower than the whole ([duration_lower_bound]); what the dry run accepts
      starts ([validate_predicts_new]); accepted settings are in range
      ([settings_sound]), though a span ceiling of 2^53 wraps the estimate of
      its size below zero and passes the memory check ([budget_wraps]).
    - Bounds hold under concurrency and for hostile input:
      [budget_never_exceeded], [blocked_lookups_bounded], [decoded_size_linear],
      [tables_bounded], [edgeStore_bounded], [scratch_bounded],
      [buffer_bounded], [pod_targets_bounded], [split_report_exact],
      [split_cost_bounded].
    - What is emitted is well formed ([emitted_wellformed],
      [points_wellformed]), what is sent only grows ([payloads_cumulative]), and
      what runs ends ([parse_total], [export_completes],
      [idle_series_released]).

    ** Not modelled

    Transports, file systems, the Kubernetes API, journald, Kafka and the script
    engine are input and output: where a modelled part meets them, their answers
    are arguments or the environment's choice.  Values of third-party packages
    (the OTLP data model, the line aggregators, label selectors, the trace
    hash) are parameters, with what is relied on as hypotheses.  Allocation is
    modelled only where the code bounds it (the pairing store's entries, the
    render scratch).  [Number] reads decimal numbers as [strconv] does, but
    underscores and hexadecimal, which the text parser refuses before it asks,
    are left out.  The warnings and counters that nothing reads back are left
    out, except where a count is part of the contract.

    Of the tailer, descriptors, inodes, fingerprints, archives and directory
    scans are left out, and with them the paths that only a descriptor can
    take: a file found replaced when it is opened again ([ensureOpen]), and the
    last reads of one that is gone.  The rate limiter's answers are the
    environment's.  Of the tail buffer, [Run]'s ticker, the deadlines of a send's context, the log lines
    and the reading of the memory limit from the file system are left out: a
    sweep may happen at any time, a send may fail at any time, and the limit is
    an argument.  The head sampler's concurrent calls meet only at its bucket,
    whose methods are one step each; here they follow one another.

    The rest of the program is left out because it decides little of its own:
    HTTP and gRPC handlers, command lines and configuration around the parts
    above; transformations of the OTLP data model by user scripts, rules and
    regular expressions; the assembly of attributes; decoders of third-party
    formats (the protobuf exposition, unstructured monitors, diagnostics
    records); and the log-derived metrics of [internal/metrics], whose series
    resemble the cumulative ones over expressions of a third-party engine. *)

From stdpp Require Export base gmap strings list fin_maps sorting.
From Stdlib Require Export ZArith Lia.

(** ** Go integers *)

Definition min_int64 : Z := (- 2 ^ 63)%Z.
Definition max_int64 : Z := (2 ^ 63 - 1)%Z.

(** Unsigned machine arithmetic keeps the low bits of the exact result. *)
Definition u64 (z : Z) : Z := (z mod 2 ^ 64)%Z.
Definition u32 (z : Z) : Z := (z mod 2 ^ 32)%Z.

(** The conversion [int(x)] of a 64-bit unsigned value: two's complement. *)
Definition int_of_u64 (z : Z) : Z :=
  if decide (z < 2 ^ 63)%Z then z else (z - 2 ^ 64)%Z.

(** ** Go time

    A [time.Time] is a number of nanoseconds; [0] is the zero value the code
    tests with [IsZero], every clock reading is positive.  A [time.Duration]
    is an [int64]. *)
Definition is_zero (t : Z) : bool := bool_decide (t = 0)%Z.

(** [t.Sub(u)] saturates at the bounds of [time.Duration]. *)
Definition time_sub (t u : Z) : Z := (min_int64 `max` (max_int64 `min` (t - u)))%Z.

Definition is_duration (d : Z) : Prop := (min_int64 <= d <= max_int64)%Z.

Create HintDb kube.

Lemma time_sub_ge t u d :
  (min_int64 < d <= max_int64)%Z -> (d <= time_sub t u <-> d <= t - u)%Z.
Proof. unfold is_duration, time_sub, min_int64, max_int64. lia. Qed.

Lemma time_sub_lt t u d :
  (min_int64 < d <= max_int64)%Z -> (time_sub t u < d <-> t - u < d)%Z.
Proof. unfold is_duration, time_sub, min_int64, max_int64. lia. Qed.

Lemma time_sub_exact t u :
  is_duration (t - u)%Z -> time_sub t u = (t - u)%Z.
Proof. unfold is_duration, time_sub, min_int64, max_int64. lia. Qed.

Lemma u64_range z : (0 <= u64 z < 2 ^ 64)%Z.
Proof. apply Z.mod_pos_bound. lia. Qed.

Lemma u32_range z : (0 <= u32 z < 2 ^ 32)%Z.
Proof. apply Z.mod_pos_bound. lia. Qed.

#[export] Hint Resolve u64_range u32_range : kube.

(** ** Reachability

    Every concurrent component is a step relation; its invariants are proved
    once per step and lifted by [star_inv]. *)
Section Reach.
Context {A : Type} (R : A -> A -> Prop).

Inductive star : A -> A -> Prop :=
| star_refl a : star a a
| star_step a b c : star a b -> R b c -> star a c.

Lemma star_inv (P : A -> Prop) :
  (forall a b, P a -> R a b -> P b) -> forall a b, star a b -> P a -> P b.
Proof. intros HP a b H. induction H; eauto. Qed.

Lemma star_trans a b c : star a b -> star b c -> star a c.
Proof. intros Hab Hbc. induction Hbc; eauto using star. Qed.

End Reach.

(** ** Lists *)

Definition sumZ (l : list Z) : Z := foldr Z.add 0%Z l.

Lemma sumZ_cons x l : sumZ (x :: l) = (x + sumZ l)%Z.
Proof. done. Qed.

Lemma sumZ_app a b : sumZ (a ++ b) = (sumZ a + sumZ b)%Z.
Proof. unfold sumZ. induction a as [|x a IH]; cbn; lia. Qed.

Lemma sumZ_perm a b : a ≡ₚ b -> sumZ a = sumZ b.
Proof. induction 1; rewrite ?sumZ_cons; lia. Qed.

Lemma sumZ_nonneg {A} (f : A -> Z) l : (forall x, 0 <= f x)%Z -> (0 <= sumZ (f <$> l))%Z.
Proof. intros Hf. unfold sumZ. induction l as [|x l IH]; cbn; [done|]. specialize (Hf x). lia. Qed.

Lemma sumZ_le {A} (f g : A -> Z) l : (forall x, f x <= g x)%Z -> (sumZ (f <$> l) <= sumZ (g <$> l))%Z.
Proof. intros Hf. unfold sumZ. induction l as [|x l IH]; cbn; [done|]. specialize (Hf x). lia. Qed.

Lemma alter_last {A} (f : A -> A) l x : alter f (length l) (l ++ [x]) = l ++ [f x].
Proof. induction l as [|y l IH]; cbn; [done|]. by rewrite IH. Qed.

Lemma filter_same {A} (P Q : A -> Prop) `{!forall x, Decision (P x), !forall x, Decision (Q x)} (l : list A) :
  (forall x, x ∈ l -> P x <-> Q x) -> filter P l = filter Q l.
Proof.
  induction l as [|x l IH]; intros E; [done|]. rewrite !filter_cons, IH by (intros; apply E; set_solver).
  pose proof (E x ltac:(set_solver)). repeat case_decide; tauto.
Qed.

Lemma filter_all {A} (P : A -> Prop) `{!forall x, Decision (P x)} (l : list A) : Forall P l -> filter P l = l.
Proof. induction 1 as [|x l Px _ IH]; [done|]. by rewrite filter_cons_True, IH. Qed.

Lemma filter_fst {A B} (P : A -> Prop) (Q : A * B -> Prop) `{!forall x, Decision (P x), !forall kv, Decision (Q kv)} (l : list (A * B)) :
  (forall kv, Q kv <-> P kv.1) -> (filter Q l).*1 = filter P l.*1.
Proof.
  intros E. induction l as [|[a b] l IH]; [done|]. rewrite fmap_cons, !filter_cons. cbn [fst]. pose proof (E (a, b)).
  repeat case_decide; try tauto; by rewrite ?fmap_cons, IH.
Qed.

Lemma foldl_inv {A B} (P : A -> Prop) (f : A -> B -> A) : (forall a b, P a -> P (f a b)) -> forall l a, P a -> P (foldl f a l).
Proof. intros Hf l. induction l as [|b l IH]; intros a Ha; [done|]. cbn. apply IH, Hf, Ha. Qed.

Lemma sumZ_bound {A} (f : A -> Z) c l : Forall (fun x => f x <= c)%Z l -> (sumZ (f <$> l) <= Z.of_nat (length l) * c)%Z.
Proof. induction 1 as [|x l Hx _ IH]; [done|]. rewrite fmap_cons, sumZ_cons. cbn [length]. lia. Qed.

Lemma foldl_reverse {A B} (f : A -> B -> A) (l : list B) a : foldl f a (reverse l) = foldr (fun x acc => f acc x) a l.
Proof. induction l as [|x l IH]; [done|]. rewrite reverse_cons, foldl_app, IH. done. Qed.

(** What a separator parts is determined when it occurs in neither head. *)
Lemma app_sep_inj {A} (c : A) x : forall y a b, c ∉ x -> c ∉ y -> x ++ c :: a = y ++ c :: b -> x = y /\ a = b.
Proof.
  induction x as [|d x IH]; intros [|e y] a b Hx Hy E; cbn in E.
  - by injection E.
  - injection E as <- _. destruct Hy. by left.
  - injection E as -> _. destruct Hx. by left.
  - injection E as -> E. apply not_elem_of_cons in Hx as [_ Hx], Hy as [_ Hy]. by destruct (IH y a b Hx Hy E) as [-> ->].
Qed.

(** ** Tactics *)

(** Turn the boolean guards the source writes into propositions. *)
Ltac bool_norm :=
  repeat match goal with
  | H : context [bool_decide _ = true] |- _ => rewrite bool_decide_eq_true in H
  | H : context [bool_decide _ = false] |- _ => rewrite bool_decide_eq_false in H
  | H : (_ && _)%bool = true |- _ => apply andb_true_iff in H; destruct H
  | H : (_ || _)%bool = false |- _ => apply orb_false_iff in H; destruct H
  | H : negb _ = true |- _ => apply negb_true_iff in H
  | H : negb _ = false |- _ => apply negb_false_iff in H
  | H : (_ <? _)%Z = true |- _ => apply Z.ltb_lt in H
  | H : (_ <? _)%Z = false |- _ => apply Z.ltb_ge in H
  | H : (_ <=? _)%Z = true |- _ => apply Z.leb_le in H
  | H : (_ <=? _)%Z = false |- _ => apply Z.leb_gt in H
  | H : (_ =? _)%Z = true |- _ => apply Z.eqb_eq in H
  | H : (_ =? _)%Z = false |- _ => apply Z.eqb_neq in H
  end.

(** Case analysis on the scrutinee of a [match] or [if] of the goal. *)
Ltac break_match :=
  match goal with
  | |- context [match ?x with _ => _ end] =>
      lazymatch x with
      | context [match _ with _ => _ end] => fail
      | _ => destruct x eqn:?
      end
  end.

(** The same in a hypothesis. *)
Ltac break_match_hyp :=
  match goal with
  | H : context [match ?x with _ => _ end] |- _ =>
      lazymatch x with
      | context [match _ with _ => _ end] => fail
      | _ => destruct x eqn:?
      end
  end.
