(* ===== verification/LogDedupe.v ===== *)
(** * Log throttling ([internal/logdedupe/logdedupe.go])

    [Throttle] (one keyless condition, lock free), [Outage] (a run of
    failures) and [Table] (a bounded per-key throttle).  A value of each
    Record is the state the Go struct holds; every method is a function from
    the state, and a method that reads the clock takes the reading. *)

From S2P Require Import Prelude.
Local Open Scope Z_scope.

(** ** Throttle *)
Module Throttle.

(** [last] is the claiming call's offset from the process epoch, plus one;
    zero means "never fired". *)
Record t := mk { last : Z }.

(** The zero value is ready. *)
Definition zero : t := mk 0.

(** The guard of [claim]: a never-fired throttle is always due. *)
Definition due (last now interval : Z) : bool :=
  negb (negb (bool_decide (last = 0)) && bool_decide (now - last < interval)).

(** [CompareAndSwap]: one atomic instruction. *)
Definition cas (th : t) (old new : Z) : t * bool :=
  if decide (last th = old) then (mk new, true) else (th, false).

(** [claim]: the rule, given the value of [last] the caller loaded. *)
Definition claim (th : t) (loaded now interval : Z) : t * bool :=
  if due loaded now interval then cas th loaded now else (th, false).

(** [AllowAt]: load, then claim.  [off] is the offset of the caller's clock
    reading from the epoch. *)
Definition AllowAt (th : t) (off interval : Z) : t * bool :=
  claim th (last th) (off + 1) interval.

(** [stampAt] overwrites the slot. *)
Definition stampAt (th : t) (off : Z) : t := mk (off + 1).

(** *** Concurrent callers

    [Allow] reads the clock, loads [last] and swaps: other callers run
    between the load and the swap.  [waiting] are the callers between the two
    ([(loaded, now)]), [fires] the stamps of the calls that returned true,
    newest first. *)
Record sys := mkSys { th : t; waiting : list (Z * Z); fires : list Z }.

Inductive step (interval : Z) : sys -> sys -> Prop :=
| step_load s now :
    0 < now ->
    step interval s (mkSys (th s) ((last (th s), now) :: waiting s) (fires s))
| step_claim s l1 l2 loaded now :
    waiting s = l1 ++ (loaded, now) :: l2 ->
    step interval s
      (let '(th', ok) := claim (th s) loaded now interval in
       mkSys th' (l1 ++ l2) (if ok then now :: fires s else fires s)).

Definition init : sys := mkSys zero [] [].

(** Consecutive stamps are at least [d] apart. *)
Fixpoint spaced (d : Z) (l : list Z) : Prop :=
  match l with
  | a :: ((b :: _) as l') => d <= a - b /\ spaced d l'
  | _ => True
  end.

End Throttle.

(** ** Outage *)
Module Outage.

Record t := mk { failures : Z; since : Z; warn : Throttle.t }.

Definition zero : t := mk 0 0 Throttle.zero.

(** [Fail] notes a failure at [now]: [(first, loud)]. *)
Definition Fail (epoch : Z) (o : t) (now every : Z) : t * (bool * bool) :=
  let n := failures o + 1 in
  if decide (n = 1) then
    (mk n now (Throttle.stampAt (warn o) (time_sub now epoch)), (true, true))
  else
    let '(w, ok) := Throttle.AllowAt (warn o) (time_sub now epoch) every in
    (mk n (since o) w, (false, ok)).

Definition Failing (o : t) : bool := bool_decide (0 < failures o).
Definition Failures (o : t) : Z := failures o.

(** [Duration.Round(time.Second)]: halves away from zero. *)
Definition round_second (d : Z) : Z :=
  let m := 1000000000 in
  let r := Z.rem d m in
  if decide (d < 0) then
    let r := - r in
    if decide (r + r < m) then d + r else Z.max min_int64 (d - m + r)
  else
    if decide (r + r < m) then d - r else Z.min max_int64 (d + m - r).

Definition Lasted (o : t) (now : Z) : Z :=
  if decide (failures o = 0) then 0 else round_second (time_sub now (since o)).

(** [Recover] ends a run: [(failures, lasted, ok)]. *)
Definition Recover (o : t) (now : Z) : t * (Z * Z * bool) :=
  if decide (failures o = 0) then (o, (0, 0, false))
  else (mk 0 0 (warn o), (failures o, Lasted o now, true)).

(** A run of failures at the given instants; [acc] collects the instants whose
    failure was reported loud, newest first. *)
Fixpoint fail_run (epoch every : Z) (o : t) (nows acc : list Z) : t * list Z :=
  match nows with
  | [] => (o, acc)
  | now :: nows =>
      let '(o', (_, loud)) := Fail epoch o now every in
      fail_run epoch every o' nows (if loud then now :: acc else acc)
  end.

End Outage.

(** ** Table *)
Module Table.

Record t := mk {
  seen : gmap string Z;
  saturated : bool;
  reclaimAt : Z;
  sweeps : Z;
  limit : Z;
  window : Z }.

Definition New (lim win : Z) : t := mk ∅ false 0 0 (if decide (lim < 1) then 1 else lim) win.

Definition len (tb : t) : Z := Z.of_nat (size (seen tb)).

(** The loop body's test: an entry past its window. *)
Definition past (tb : t) (now at_ : Z) : Prop := window tb <= time_sub now at_.
#[global] Instance past_dec tb now at_ : Decision (past tb now at_) := decide_rel Z.le _ _.

(** The running minimum [oldest]; zero while no survivor was met. *)
Definition older (_ : string) (at_ oldest : Z) : Z :=
  if is_zero oldest || bool_decide (at_ < oldest) then at_ else oldest.

(** [reclaimLocked] deletes every entry past its window and records when the
    oldest survivor will be. *)
Definition reclaimLocked (tb : t) (now : Z) : t :=
  let rest := filter (fun kv => ~ past tb now kv.2) (seen tb) in
  let oldest := map_fold older 0 rest in
  mk rest (saturated tb) (if is_zero oldest then 0 else oldest + window tb)
     (sweeps tb + 1) (limit tb) (window tb).

Definition with_seen (tb : t) (m : gmap string Z) : t :=
  mk m (saturated tb) (reclaimAt tb) (sweeps tb) (limit tb) (window tb).

(** The arm of [Allow] for a key the table does not hold; [sweep] says whether
    a full table is swept first. *)
Definition admit_new (sweep : t -> bool) (tb : t) (key : string) (now : Z)
  : t * (bool * bool) :=
  let tb :=
    if decide (limit tb <= len tb)
    then (if sweep tb then reclaimLocked tb now else tb) else tb in
  if decide (limit tb <= len tb) then
    (mk (seen tb) true (reclaimAt tb) (sweeps tb) (limit tb) (window tb),
     (false, negb (saturated tb)))
  else (with_seen tb (<[key := now]> (seen tb)), (true, false)).

Definition allow_with (sweep : t -> bool) (tb : t) (key : string) (now : Z)
  : t * (bool * bool) :=
  match seen tb !! key with
  | Some last =>
      if bool_decide (window tb <= 0) || bool_decide (time_sub now last < window tb)
      then (tb, (false, false))
      else (with_seen tb (<[key := now]> (seen tb)), (true, false))
  | None => admit_new sweep tb key now
  end.

(** [Allow]: a full table is swept only with a window, and only once
    [reclaimAt] is reached.  The answer is [(allow, saturated)]. *)
Definition Allow (tb : t) (key : string) (now : Z) : t * (bool * bool) :=
  allow_with (fun tb => bool_decide (0 < window tb) && negb (bool_decide (now < reclaimAt tb)))
    tb key now.

(** The rule without the [reclaimAt] shortcut: a full table with a window is
    always swept. *)
Definition Allow_always (tb : t) (key : string) (now : Z) : t * (bool * bool) :=
  allow_with (fun tb => bool_decide (0 < window tb)) tb key now.

Fixpoint run (allow : t -> string -> Z -> t * (bool * bool)) (tb : t)
    (calls : list (string * Z)) : t * list (bool * bool) :=
  match calls with
  | [] => (tb, [])
  | (key, now) :: calls =>
      let '(tb', a) := allow tb key now in
      let '(tb'', l) := run allow tb' calls in
      (tb'', a :: l)
  end.

(** The lock orders clock readings: stamps are positive and non-decreasing. *)
Fixpoint clocked (from : Z) (calls : list (string * Z)) : Prop :=
  match calls with
  | [] => True
  | (_, now) :: calls => from <= now /\ clocked now calls
  end.

(** The instants at which [key] was allowed, newest first. *)
Fixpoint allowed (key : string) (calls : list (string * Z)) (answers : list (bool * bool))
    (acc : list Z) : list Z :=
  match calls, answers with
  | (k, now) :: calls, (ok, _) :: answers =>
      allowed key calls answers (if bool_decide (k = key) && ok then now :: acc else acc)
  | _, _ => acc
  end.

(** How many calls reported the table full. *)
Definition notices (answers : list (bool * bool)) : nat :=
  length (filter (fun a => a.2 = true) answers).

End Table.

(** * Theorems *)

(** ** Throttle *)

Lemma due_ge loaded now interval :
  Throttle.due loaded now interval = true ->
  loaded = 0 \/ interval <= now - loaded.
Proof.
  unfold Throttle.due. rewrite negb_true_iff, andb_false_iff, negb_false_iff,
    bool_decide_eq_true, bool_decide_eq_false. lia.
Qed.

Lemma due_never now interval : Throttle.due 0 now interval = true.
Proof. reflexivity. Qed.

(** The state of the concurrent throttle: the slot holds the newest stamp, the
    stamps are spaced, every clock reading is positive. *)
Definition throttle_inv (d : Z) (s : Throttle.sys) : Prop :=
  Throttle.last (Throttle.th s) = hd 0 (Throttle.fires s) /\
  Throttle.spaced d (Throttle.fires s) /\
  Forall (fun n => 0 < n) (Throttle.fires s) /\
  Forall (fun w => 0 < w.2) (Throttle.waiting s).

Lemma spaced_cons d a l :
  Throttle.spaced d l -> (l = [] \/ d <= a - hd 0 l) -> Throttle.spaced d (a :: l).
Proof. destruct l; simpl; [done|]. intros ? [?|?]; [done|split; done]. Qed.

Lemma throttle_inv_step d s s' :
  throttle_inv d s -> Throttle.step d s s' -> throttle_inv d s'.
Proof.
  intros (Hl & Hs & Hf & Hw) Hstep. destruct Hstep as [s now Hnow|s l1 l2 loaded now Hws].
  - repeat split; simpl; auto.
  - rewrite Hws in Hw. apply Forall_app in Hw as [Hw1 Hw2].
    apply Forall_cons in Hw2 as [Hnow Hw2]. simpl in Hnow.
    assert (Forall (fun w => 0 < w.2) (l1 ++ l2)) by (apply Forall_app; done).
    unfold Throttle.claim, Throttle.cas.
    destruct (Throttle.due loaded now d) eqn:Hdue; [|repeat split; done].
    case_decide as Hcas; [|repeat split; done].
    repeat split; simpl; auto. apply spaced_cons; [done|].
    apply due_ge in Hdue. rewrite <- Hl, Hcas. destruct Hdue as [H0|?]; [left|by right].
    rewrite Hl in Hcas. destruct (Throttle.fires s) as [|f fs]; [done|].
    apply Forall_cons in Hf as [? _]. simpl in Hcas. lia.
Qed.

(** ** Table *)

Lemma older_fold (m : gmap string Z) :
  map_Forall (fun _ at_ => 0 < at_) m ->
  0 <= map_fold Table.older 0 m /\
  (map_fold Table.older 0 m = 0 -> m = ∅) /\
  map_Forall (fun _ at_ => map_fold Table.older 0 m <= at_) m.
Proof.
  apply (map_fold_weak_ind (fun o m => map_Forall (fun _ at_ => 0 < at_) m ->
    0 <= o /\ (o = 0 -> m = ∅) /\ map_Forall (fun _ at_ => o <= at_) m)).
  - intros _. repeat split; try done; try lia; apply map_Forall_empty.
  - intros k v m' o Hk IH Hpos.
    apply map_Forall_insert in Hpos as [Hv Hpos]; [|done].
    destruct (IH Hpos) as (Ho & Hz & Hall). unfold Table.older, is_zero.
    destruct (decide (o = 0)) as [->|Hne]; rewrite ?bool_decide_true, ?(bool_decide_false (o = 0)) by done; simpl.
    + rewrite (Hz eq_refl) in *. split; [lia|split; [intros; exfalso; lia|]].
      apply map_Forall_insert; [done|]. split; [lia|apply map_Forall_empty].
    + case_bool_decide; (split; [lia|split; [intros; exfalso; lia|]]); apply map_Forall_insert; try done; split; try lia; [|done].
      eapply map_Forall_impl; [exact Hall|]. intros ? ? ?; simpl in *; lia.
Qed.

(** The table's invariant at clock [now]: bounded, positive limit, every stamp
    is a past reading, and [reclaimAt] is never later than a survivor's
    expiry. *)
Record table_inv (now : Z) (tb : Table.t) : Prop := {
  ti_limit : 1 <= Table.limit tb;
  ti_size : Table.len tb <= Table.limit tb;
  ti_stamps : map_Forall (fun _ at_ => 0 < at_ <= now) (Table.seen tb);
  ti_reclaim : Table.reclaimAt tb <> 0 ->
    map_Forall (fun _ at_ => Table.reclaimAt tb <= at_ + Table.window tb) (Table.seen tb);
  ti_late : Table.reclaimAt tb <> 0 -> Table.reclaimAt tb <= now + Table.window tb }.

Lemma table_inv_New lim win now : table_inv now (Table.New lim win).
Proof.
  split; simpl.
  - case_decide; lia.
  - unfold Table.len, Table.New; cbn [Table.seen]. rewrite map_size_empty. case_decide; lia.
  - apply map_Forall_empty.
  - done.
  - done.
Qed.

Lemma table_inv_later now now' tb : now <= now' -> table_inv now tb -> table_inv now' tb.
Proof.
  intros Hle [? ? Hs ? ?]. split; auto.
  - eapply map_Forall_impl; [exact Hs|]. simpl; lia.
  - lia.
Qed.

Lemma len_insert_le tb key now :
  Table.len (Table.with_seen tb (<[key := now]> (Table.seen tb))) <= Table.len tb + 1.
Proof.
  unfold Table.len; simpl. destruct (Table.seen tb !! key) eqn:E.
  - rewrite map_size_insert_Some by eauto. lia.
  - rewrite map_size_insert_None by done. lia.
Qed.

Lemma len_reclaim tb now : Table.len (Table.reclaimLocked tb now) <= Table.len tb.
Proof. unfold Table.len; simpl. apply inj_le, map_size_filter. Qed.

Lemma reclaim_seen tb now :
  Table.seen (Table.reclaimLocked tb now) =
  filter (fun kv => ~ Table.past tb now kv.2) (Table.seen tb).
Proof. done. Qed.

(** A sweep before [reclaimAt] frees nothing. *)
Lemma reclaim_early_noop tb now :
  table_inv now tb -> 0 < Table.window tb <= max_int64 ->
  now < Table.reclaimAt tb -> 0 < now ->
  Table.seen (Table.reclaimLocked tb now) = Table.seen tb.
Proof.
  intros Hinv Hw Hearly Hnow. rewrite reclaim_seen. apply map_filter_id.
  intros k at_ Hk. simpl. unfold Table.past.
  pose proof (ti_reclaim _ _ Hinv ltac:(lia) k at_ Hk) as Hr. simpl in Hr.
  rewrite time_sub_ge by (unfold min_int64, max_int64 in *; lia). lia.
Qed.

Lemma table_inv_reclaim tb now :
  table_inv now tb -> table_inv now (Table.reclaimLocked tb now).
Proof.
  intros [Hl Hs Ht Hr _].
  assert (map_Forall (fun _ at_ => 0 < at_ <= now)
            (filter (fun kv => ~ Table.past tb now kv.2) (Table.seen tb))) as Hrest.
  { intros k v [Hk _]%map_lookup_filter_Some. exact (Ht k v Hk). }
  split; [done| | exact Hrest | | ].
  - pose proof (len_reclaim tb now). simpl. lia.
  - simpl. destruct (older_fold (filter (fun kv => ~ Table.past tb now kv.2) (Table.seen tb)))
      as (Ho & _ & Hall); [eapply map_Forall_impl; [exact Hrest|simpl; lia]|].
    unfold is_zero. case_bool_decide; [done|]. intros _.
    eapply map_Forall_impl; [exact Hall|]. simpl; lia.
  - simpl. unfold is_zero. case_bool_decide as H0; [done|]. intros _.
    destruct (older_fold (filter (fun kv => ~ Table.past tb now kv.2) (Table.seen tb)))
      as (Ho & _ & Hall); [eapply map_Forall_impl; [exact Hrest|simpl; lia]|].
    destruct (decide (filter (fun kv => ~ Table.past tb now kv.2) (Table.seen tb) = ∅)) as [He|He].
    { rewrite He, map_fold_empty in H0. done. }
    apply map_choose in He as (k & v & Hk).
    pose proof (Hall k v Hk); pose proof (Hrest k v Hk). simpl in *. lia.
Qed.

Lemma table_inv_insert tb key now :
  table_inv now tb -> 0 < now ->
  (is_Some (Table.seen tb !! key) \/ Table.len tb < Table.limit tb) ->
  table_inv now (Table.with_seen tb (<[key := now]> (Table.seen tb))).
Proof.
  intros [Hl Hs Ht Hr Hlate] Hnow Hroom. split; simpl; auto.
  - destruct Hroom as [Hsome|?].
    + unfold Table.len in *; simpl. rewrite map_size_insert_Some by done. done.
    + pose proof (len_insert_le tb key now). lia.
  - apply map_Forall_insert_2; [lia|done].
  - intros H0. apply map_Forall_insert_2; [auto|]. exact (Hr H0).
Qed.

Lemma table_inv_allow sweep tb key now :
  table_inv now tb -> 0 < now -> table_inv now (Table.allow_with sweep tb key now).1.
Proof.
  intros Hinv Hnow. unfold Table.allow_with. destruct (Table.seen tb !! key) as [last|] eqn:Hk.
  { destruct (_ || _); simpl; [done|]. apply table_inv_insert; eauto. }
  unfold Table.admit_new.
  set (tb1 := if decide _ then _ else tb).
  assert (table_inv now tb1) as Hinv1.
  { unfold tb1. case_decide; [|done]. destruct (sweep tb); [by apply table_inv_reclaim|done]. }
  case_decide; simpl; [|apply table_inv_insert; auto; right; lia].
  destruct Hinv1; split; auto.
Qed.

(** Two tables that differ only in their reclaim bookkeeping. *)
Definition same_table (a b : Table.t) : Prop :=
  Table.seen a = Table.seen b /\ Table.saturated a = Table.saturated b /\
  Table.limit a = Table.limit b /\ Table.window a = Table.window b.

Lemma same_table_reclaim a b now :
  same_table a b -> same_table (Table.reclaimLocked a now) (Table.reclaimLocked b now).
Proof.
  intros (Hs & Hsat & Hl & Hw). repeat split; simpl; auto. rewrite Hs.
  apply map_filter_ext. intros k v Hk. unfold Table.past. by rewrite Hw.
Qed.

(** One call: the shortcut answers like the rule that always sweeps. *)
Lemma allow_same a b key now :
  table_inv now a -> 0 < now -> Table.window a <= max_int64 -> same_table a b ->
  (Table.Allow a key now).2 = (Table.Allow_always b key now).2 /\
  same_table (Table.Allow a key now).1 (Table.Allow_always b key now).1.
Proof.
  intros Hinv Hnow Hwin Hab. pose proof Hab as (Hs & Hsat & Hl & Hw).
  unfold Table.Allow, Table.Allow_always, Table.allow_with. rewrite <- Hs, <- Hw.
  destruct (Table.seen a !! key) as [last|].
  { destruct (_ || _); repeat split; simpl; congruence. }
  unfold Table.admit_new. cbv zeta.
  set (a1 := if decide (Table.limit a <= Table.len a) then _ else a).
  set (b1 := if decide (Table.limit b <= Table.len b) then _ else b).
  assert (same_table a1 b1) as (Hs1 & Hsat1 & Hl1 & Hw1).
  { unfold a1, b1, Table.len. rewrite <- Hs, <- Hl, <- Hw. case_decide; [|done].
    case_bool_decide as Hpos; simpl; [|done].
    case_bool_decide as Hearly; simpl; [|by apply same_table_reclaim].
    destruct (same_table_reclaim a b now Hab) as (Hs2 & ? & ? & ?).
    rewrite reclaim_early_noop in Hs2 by (auto; lia). repeat split; simpl in *; auto. }
  unfold Table.len. rewrite <- Hs1, <- Hl1. case_decide; repeat split; simpl; congruence.
Qed.

Lemma allow_window sweep tb key now :
  Table.window (Table.allow_with sweep tb key now).1 = Table.window tb.
Proof.
  unfold Table.allow_with, Table.admit_new.
  repeat first [case_decide|case_match|destruct (_ || _)]; done.
Qed.

(** What the answers given so far mean for [key]: its stamps are spaced, and
    the newest one is still in the table unless its window has elapsed. *)
Definition key_inv (key : string) (now : Z) (tb : Table.t) (acc : list Z) : Prop :=
  if decide (0 < Table.window tb)
  then Throttle.spaced (Table.window tb) acc /\
       (forall t, head acc = Some t ->
          Table.seen tb !! key = Some t \/ t + Table.window tb <= now)
  else (length acc <= 1)%nat /\ (acc <> [] -> is_Some (Table.seen tb !! key)).

Lemma key_inv_later key now now' tb acc :
  now <= now' -> key_inv key now tb acc -> key_inv key now' tb acc.
Proof.
  unfold key_inv. intros Hle. case_decide; [|done]. intros [? Hh]. split; [done|].
  intros t Ht. destruct (Hh t Ht); [by left|right; lia].
Qed.

Lemma key_inv_reclaim key now tb acc :
  Table.window tb <= max_int64 -> 0 < Table.window tb ->
  key_inv key now tb acc -> key_inv key now (Table.reclaimLocked tb now) acc.
Proof.
  unfold key_inv. intros Hmax Hpos. simpl. rewrite !decide_True by done.
  intros [? Hh]. split; [done|]. intros t Ht. destruct (Hh t Ht) as [Hk|?]; [|by right].
  destruct (decide (Table.past tb now t)) as [Hp|Hp].
  - right. unfold Table.past in Hp.
    rewrite time_sub_ge in Hp by (unfold min_int64, max_int64 in *; lia). lia.
  - left. by apply map_lookup_filter_Some.
Qed.

(** A state whose entry for [key] is the newest allowed stamp. *)
Lemma key_inv_insert key now tb acc :
  key_inv key now tb acc ->
  (0 < Table.window tb -> Throttle.spaced (Table.window tb) (now :: acc)) ->
  (Table.window tb <= 0 -> acc = []) ->
  key_inv key now (Table.with_seen tb (<[key := now]> (Table.seen tb))) (now :: acc).
Proof.
  unfold key_inv; simpl. intros _ Hpos Hneg. case_decide.
  - split; [by apply Hpos|]. intros t [= <-]. left. apply lookup_insert_eq.
  - rewrite Hneg by lia. split; [simpl; lia|]. rewrite lookup_insert_eq. eauto.
Qed.

Lemma key_inv_other key k now tb acc :
  k <> key -> key_inv key now tb acc ->
  key_inv key now (Table.with_seen tb (<[k := now]> (Table.seen tb))) acc.
Proof. unfold key_inv; simpl. intros Hne. by rewrite lookup_insert_ne. Qed.

(** An absent key's last stamp is a window old. *)
Lemma key_inv_absent key now tb acc :
  key_inv key now tb acc -> Table.seen tb !! key = None ->
  (0 < Table.window tb -> Throttle.spaced (Table.window tb) (now :: acc)) /\
  (Table.window tb <= 0 -> acc = []).
Proof.
  unfold key_inv. intros Hk Habs. case_decide as Hw.
  - destruct Hk as [Hs Hh]. split; [|lia]. intros _. apply spaced_cons; [done|].
    destruct acc as [|t acc]; [by left|right]. simpl.
    destruct (Hh t eq_refl) as [?|?]; [congruence|lia].
  - destruct Hk as [_ Hne]. split; [lia|]. intros _. destruct acc; [done|].
    destruct (Hne ltac:(done)). congruence.
Qed.

Lemma key_inv_allow key k now tb acc :
  Table.window tb <= max_int64 -> key_inv key now tb acc ->
  key_inv key now (Table.Allow tb k now).1
    (if bool_decide (k = key) && (Table.Allow tb k now).2.1 then now :: acc else acc).
Proof.
  intros Hmax Hinv. unfold Table.Allow, Table.allow_with.
  destruct (Table.seen tb !! k) as [last|] eqn:Hk.
  - destruct (_ || _) eqn:Hsup; simpl; [by rewrite andb_false_r|]. bool_norm.
    rewrite andb_true_r. case_bool_decide as Heq; [subst|by apply key_inv_other].
    apply key_inv_insert; [done| |lia]. intros Hpos.
    unfold key_inv in Hinv. rewrite decide_True in Hinv by done. destruct Hinv as [Hs Hh].
    apply spaced_cons; [done|]. destruct acc as [|t acc]; [by left|right]. simpl.
    destruct (Hh t eq_refl) as [Ht|?]; [|lia]. simplify_eq.
    match goal with H : ~ (time_sub _ _ < _) |- _ =>
      rewrite time_sub_lt in H by (unfold min_int64, max_int64 in *; lia) end. lia.
  - unfold Table.admit_new. cbv zeta.
    set (tb1 := if decide _ then _ else tb).
    assert (key_inv key now tb1 acc /\ Table.seen tb1 !! k = None) as [Hinv1 Hk1].
    { unfold tb1. case_decide; [|done]. case_bool_decide as Hpos; simpl; [|done].
      destruct (negb _); [|done]. split; [by apply key_inv_reclaim|].
      rewrite reclaim_seen. apply map_lookup_filter_None. by left. }
    case_decide; simpl; [by rewrite andb_false_r|]. rewrite andb_true_r.
    case_bool_decide as Heq; [subst|by apply key_inv_other].
    destruct (key_inv_absent _ _ _ _ Hinv1 Hk1). by apply key_inv_insert.
Qed.

Lemma run_key_inv key calls : forall tb acc from,
  Table.clocked from calls -> Table.window tb <= max_int64 -> key_inv key from tb acc ->
  exists last, key_inv key last (Table.run Table.Allow tb calls).1
    (Table.allowed key calls (Table.run Table.Allow tb calls).2 acc).
Proof.
  induction calls as [|[k now] calls IH]; intros tb acc from Hclk Hmax Hinv; simpl; [eauto|].
  destruct Hclk as [Hle Hclk].
  pose proof (key_inv_allow key k now tb acc Hmax (key_inv_later _ _ _ _ _ Hle Hinv)) as Hstep.
  pose proof (allow_window (fun tb => bool_decide (0 < Table.window tb) &&
    negb (bool_decide (now < Table.reclaimAt tb))) tb k now) as Hwin.
  fold (Table.Allow tb k now) in Hwin.
  destruct (Table.Allow tb k now) as [tb' [ok sat]]; simpl in *.
  destruct (IH tb' _ now Hclk ltac:(lia) Hstep) as [last Hlast].
  destruct (Table.run Table.Allow tb' calls). eauto.
Qed.

Lemma run_window calls : forall tb,
  Table.window (Table.run Table.Allow tb calls).1 = Table.window tb.
Proof.
  induction calls as [|[k now] calls IH]; intros tb; simpl; [done|].
  pose proof (allow_window (fun tb => bool_decide (0 < Table.window tb) &&
    negb (bool_decide (now < Table.reclaimAt tb))) tb k now) as Hwin.
  fold (Table.Allow tb k now) in Hwin.
  destruct (Table.Allow tb k now) as [tb' a]; simpl in *. specialize (IH tb').
  destruct (Table.run Table.Allow tb' calls); simpl in *. congruence.
Qed.

Lemma run_same calls : forall a b from,
  Table.clocked from calls -> 0 < from -> table_inv from a ->
  Table.window a <= max_int64 -> same_table a b ->
  (Table.run Table.Allow a calls).2 = (Table.run Table.Allow_always b calls).2.
Proof.
  induction calls as [|[k now] calls IH]; intros a b from Hclk Hpos Hinv Hmax Hab; simpl; [done|].
  destruct Hclk as [Hle Hclk].
  pose proof (table_inv_later _ _ _ Hle Hinv) as Hinv1.
  destruct (allow_same a b k now Hinv1 ltac:(lia) Hmax Hab) as [Hans Hsame].
  pose proof (table_inv_allow (fun tb => bool_decide (0 < Table.window tb) &&
    negb (bool_decide (now < Table.reclaimAt tb))) a k now Hinv1 ltac:(lia)) as Hinv2.
  pose proof (allow_window (fun tb => bool_decide (0 < Table.window tb) &&
    negb (bool_decide (now < Table.reclaimAt tb))) a k now) as Hwin.
  fold (Table.Allow a k now) in Hinv2, Hwin.
  destruct (Table.Allow a k now) as [a' ansa], (Table.Allow_always b k now) as [b' ansb].
  simpl in *. specialize (IH a' b' now Hclk ltac:(lia) Hinv2 ltac:(lia) Hsame).
  destruct (Table.run Table.Allow a' calls), (Table.run Table.Allow_always b' calls).
  simpl in *. congruence.
Qed.

(** ** Outage *)

(** An instant whose offset from the epoch does not saturate. *)
Definition in_epoch (epoch now : Z) : Prop := epoch <= now <= epoch + max_int64.

Lemma in_epoch_sub epoch now : in_epoch epoch now -> time_sub now epoch = now - epoch.
Proof. unfold in_epoch, time_sub, min_int64, max_int64. lia. Qed.

Lemma fail_first epoch every since w now :
  in_epoch epoch now ->
  Outage.Fail epoch (Outage.mk 0 since w) now every =
  (Outage.mk 1 now (Throttle.stampAt w (now - epoch)), (true, true)).
Proof. intros H. unfold Outage.Fail. simpl. by rewrite (in_epoch_sub _ _ H). Qed.

(** The repeats of a run: every loud line is an interval after the last. *)
Lemma fail_run_spaced epoch every nows : forall o acc prev first,
  1 <= Outage.failures o -> Throttle.last (Outage.warn o) = prev - epoch + 1 -> epoch <= prev ->
  head acc = Some prev -> last acc = Some first -> Throttle.spaced every acc ->
  Forall (in_epoch epoch) nows ->
  let loud := (Outage.fail_run epoch every o nows acc).2 in
  Throttle.spaced every loud /\ last loud = Some first.
Proof.
  induction nows as [|now nows IH]; intros o acc prev first Hf Hl Hp Hh Hla Hs Hall; simpl; [done|].
  apply Forall_cons in Hall as [Hnow Hall].
  unfold Outage.Fail. cbv zeta. rewrite decide_False by lia.
  unfold Throttle.AllowAt, Throttle.claim, Throttle.cas.
  rewrite (in_epoch_sub _ _ Hnow), Hl, (decide_True _ _ eq_refl).
  destruct (Throttle.due _ _ every) eqn:Hdue; simpl.
  - apply due_ge in Hdue. apply (IH _ _ now first); simpl; auto; try lia; [apply Hnow| |].
    + by destruct acc.
    + apply spaced_cons; [done|]. right. destruct acc as [|a acc]; [done|].
      simpl in Hh. simplify_eq. simpl. lia.
  - apply (IH _ _ prev first); simpl; auto; lia.
Qed.

(** * Properties *)

(** [Throttle] gates a keyless warning to at most once per interval across
    concurrent callers: in every interleaving of loads and swaps, the stamps
    of the calls that were allowed are at least the interval apart. *)
Theorem throttle_once_per_interval interval s :
  star (Throttle.step interval) Throttle.init s ->
  Throttle.spaced interval (Throttle.fires s).
Proof.
  intros H. apply (star_inv _ (throttle_inv interval) (throttle_inv_step interval) _ _ H).
  repeat split; simpl; auto.
Qed.

(** Skipping the sweep of a full table until [reclaimAt] is invisible: on
    every sequence of calls under a non-decreasing clock [Allow] answers as
    the rule that sweeps on every refused new key. *)
Theorem table_reclaim_shortcut lim win calls :
  Table.clocked 1 calls -> win <= max_int64 ->
  (Table.run Table.Allow (Table.New lim win) calls).2 =
  (Table.run Table.Allow_always (Table.New lim win) calls).2.
Proof.
  intros Hclk Hwin. apply run_same with (from := 1); auto; [lia|apply table_inv_New|].
  by repeat split.
Qed.

(** A key logs at most once per window, and at most once ever when the
    window is not positive, however full the table is and whatever it swept. *)
Theorem table_key_once_per_window key lim win calls :
  Table.clocked 1 calls -> win <= max_int64 ->
  let stamps := Table.allowed key calls (Table.run Table.Allow (Table.New lim win) calls).2 [] in
  if decide (0 < win) then Throttle.spaced win stamps else (length stamps <= 1)%nat.
Proof.
  intros Hclk Hwin. simpl.
  destruct (run_key_inv key calls (Table.New lim win) [] 1) as [last Hlast]; auto.
  { unfold key_inv. case_decide; split; done || (simpl; lia). }
  unfold key_inv in Hlast. rewrite run_window in Hlast. simpl in Hlast.
  case_decide; apply Hlast.
Qed.

(** An outage is reported loud at its first failure, whatever earlier run
    last used the throttle, and restated at most once per interval. *)
Theorem outage_first_loud_then_spaced epoch every since w now nows :
  Forall (in_epoch epoch) (now :: nows) ->
  let loud := (Outage.fail_run epoch every (Outage.mk 0 since w) (now :: nows) []).2 in
  last loud = Some now /\ Throttle.spaced every loud.
Proof.
  intros [Hnow Hall]%Forall_cons. cbn [Outage.fail_run]. rewrite fail_first by done.
  apply and_comm. apply (fail_run_spaced epoch every nows
    (Outage.mk 1 now (Throttle.stampAt w (now - epoch))) [now] now now); simpl; auto; try lia.
  apply Hnow.
Qed.

(** ** Witnesses *)

(** Two callers load the slot together: one swap wins, the loser is silent. *)
Lemma throttle_once_per_interval_witness :
  let s := Throttle.mkSys (Throttle.mk 25) [] [25; 10] in
  Throttle.spaced 15 (Throttle.fires s).
Proof.
  apply (throttle_once_per_interval 15).
  pose (s1 := Throttle.mkSys (Throttle.mk 0) [(0, 10)] []).
  pose (s2 := Throttle.mkSys (Throttle.mk 10) [] [10]).
  pose (s3 := Throttle.mkSys (Throttle.mk 10) [(10, 25)] [10]).
  pose (s4 := Throttle.mkSys (Throttle.mk 10) [(10, 26); (10, 25)] [10]).
  pose (s5 := Throttle.mkSys (Throttle.mk 25) [(10, 26)] [25; 10]).
  apply (star_step _ _ s5); [|exact (Throttle.step_claim 15 s5 [] [] 10 26 eq_refl)].
  apply (star_step _ _ s4); [|exact (Throttle.step_claim 15 s4 [(10, 26)] [] 10 25 eq_refl)].
  apply (star_step _ _ s3); [|exact (Throttle.step_load 15 s3 26 eq_refl)].
  apply (star_step _ _ s2); [|exact (Throttle.step_load 15 s2 25 eq_refl)].
  apply (star_step _ _ s1); [|exact (Throttle.step_claim 15 s1 [] [] 0 10 eq_refl)].
  apply (star_step _ _ Throttle.init); [|exact (Throttle.step_load 15 Throttle.init 10 eq_refl)].
  apply star_refl.
Defined.

Definition sample_calls : list (string * Z) :=
  [("a", 1); ("b", 2); ("c", 3); ("a", 4); ("c", 11); ("a", 12)]%string.

Lemma table_reclaim_shortcut_witness :
  (Table.run Table.Allow (Table.New 2 10) sample_calls).2 =
  (Table.run Table.Allow_always (Table.New 2 10) sample_calls).2.
Proof.
  apply table_reclaim_shortcut; [simpl; lia|unfold max_int64; lia].
Defined.

Lemma table_key_once_per_window_witness :
  Table.allowed "a" sample_calls (Table.run Table.Allow (Table.New 2 10) sample_calls).2 [] = [12; 1] /\
  Throttle.spaced 10 [12; 1].
Proof.
  split; [reflexivity|].
  exact (table_key_once_per_window "a" 2 10 sample_calls ltac:(simpl; lia) ltac:(unfold max_int64; lia)).
Defined.

Lemma outage_first_loud_then_spaced_witness :
  let loud := (Outage.fail_run 100 30 (Outage.mk 0 0 (Throttle.mk 5)) [110; 120; 150; 160] []).2 in
  loud = [150; 110] /\ Throttle.spaced 30 loud.
Proof.
  split; [reflexivity|].
  apply (outage_first_loud_then_spaced 100 30 0 (Throttle.mk 5) 110 [120; 150; 160]).
  repeat (apply Forall_cons; split; [unfold in_epoch, max_int64; lia|]). apply Forall_nil; done.
Defined.
