(* ===== verification/Store.v ===== *)
(** * The pod and container store ([internal/store])

    The metadata service's in-memory view of the cluster: pod records keyed by
    UID, indexed by container ID, node, namespace/name and pod IP, with TTL
    tombstones, per-node change tokens and the waiter table of blocked
    lookups.

    A Go [*record] is shared by four indexes and compared by identity, so a
    record lives in a heap [recs] and the indexes hold its address; a Go
    channel is a number, and [closed] the set of channels that were closed.
    [containerEntry] values are reached through [byContainer] alone.  Every
    operation that reads [s.now] takes one clock reading. *)

From S2P Require Import Prelude.
Local Open Scope Z_scope.

(** ** Data *)

(** [kubemeta.Pod]: the fields the store reads; [Document] stands for the
    rest of the served document, which the store only copies. *)
Record Pod := mkPod {
  UID : string; Namespace : string; Name : string; NodeName : string;
  PodIP : string; PodIPs : list string; HostIP : string; HostNetwork : bool;
  Phase : string; DeletionTimestamp : option Z; DeletedAt : option Z;
  Document : string }.

(** [kubemeta.Container] and [metav1.OwnerReference]: copied, never read. *)
Record Container := mkContainer { containerDoc : string }.
Record OwnerReference := mkOwnerReference { ownerDoc : string }.

Definition zeroPod : Pod := mkPod "" "" "" "" "" [] "" false "" None None "".

Definition with_DeletedAt (t : Z) (p : Pod) : Pod :=
  mkPod (UID p) (Namespace p) (Name p) (NodeName p) (PodIP p) (PodIPs p) (HostIP p)
    (HostNetwork p) (Phase p) (DeletionTimestamp p) (Some t) (Document p).

(** [expireAt = 0] is the live marker. *)
Record record := mkRecord {
  pod : Pod; ownerRefs : list OwnerReference; resourceVersion : string;
  containerIDs : gset string; expireAt : Z; terminating : bool; recSeq : Z }.

Definition zeroRecord : record := mkRecord zeroPod [] "" ∅ 0 false 0.

Record containerEntry := mkEntry {
  podUID : string; container : Container; entryExpireAt : Z }.

(** A stamped tombstone: a hint, the truth is the stamp on the entry. *)
Record pendingExpiry := mkPending { when_ : Z; p_uid : string; p_id : string; isPod : bool }.

Record Store := mkStore {
  ttl : Z;
  maxWaiters : Z;
  recs : gmap nat record;
  nextRec : nat;
  pods : gmap string nat;
  byContainer : gmap string containerEntry;
  byNode : gmap string (gmap string nat);
  byPodName : gmap string nat;
  byPodIP : gmap string nat;
  ipClaimants : gmap string (gmap string nat);
  ipSeq : Z;
  pending : list pendingExpiry;
  waiters : gmap string (list nat);
  closed : gset nat;
  nextChan : nat;
  nWaiters : Z;
  nExternal : Z;
  draining : bool;
  shed : Z;
  drained : Z;
  nameReused : Z;
  ipContested : Z;
  gen : Z;
  nodeGen : gmap string Z }.

(** Field updates. *)
Definition set_recs (v : gmap nat record) (s : Store) : Store := mkStore (ttl s) (maxWaiters s)
  v (nextRec s) (pods s) (byContainer s) (byNode s) (byPodName s) (byPodIP s) (ipClaimants s)
  (ipSeq s) (pending s) (waiters s) (closed s) (nextChan s) (nWaiters s) (nExternal s) (draining
  s) (shed s) (drained s) (nameReused s) (ipContested s) (gen s) (nodeGen s).
Definition set_nextRec (v : nat) (s : Store) : Store := mkStore (ttl s) (maxWaiters s) (recs s)
  v (pods s) (byContainer s) (byNode s) (byPodName s) (byPodIP s) (ipClaimants s) (ipSeq s)
  (pending s) (waiters s) (closed s) (nextChan s) (nWaiters s) (nExternal s) (draining s) (shed
  s) (drained s) (nameReused s) (ipContested s) (gen s) (nodeGen s).
Definition set_pods (v : gmap string nat) (s : Store) : Store := mkStore (ttl s) (maxWaiters s)
  (recs s) (nextRec s) v (byContainer s) (byNode s) (byPodName s) (byPodIP s) (ipClaimants s)
  (ipSeq s) (pending s) (waiters s) (closed s) (nextChan s) (nWaiters s) (nExternal s) (draining
  s) (shed s) (drained s) (nameReused s) (ipContested s) (gen s) (nodeGen s).
Definition set_byContainer (v : gmap string containerEntry) (s : Store) : Store := mkStore (ttl
  s) (maxWaiters s) (recs s) (nextRec s) (pods s) v (byNode s) (byPodName s) (byPodIP s)
  (ipClaimants s) (ipSeq s) (pending s) (waiters s) (closed s) (nextChan s) (nWaiters s)
  (nExternal s) (draining s) (shed s) (drained s) (nameReused s) (ipContested s) (gen s)
  (nodeGen s).
Definition set_byNode (v : gmap string (gmap string nat)) (s : Store) : Store := mkStore (ttl s)
  (maxWaiters s) (recs s) (nextRec s) (pods s) (byContainer s) v (byPodName s) (byPodIP s)
  (ipClaimants s) (ipSeq s) (pending s) (waiters s) (closed s) (nextChan s) (nWaiters s)
  (nExternal s) (draining s) (shed s) (drained s) (nameReused s) (ipContested s) (gen s)
  (nodeGen s).
Definition set_byPodName (v : gmap string nat) (s : Store) : Store := mkStore (ttl s)
  (maxWaiters s) (recs s) (nextRec s) (pods s) (byContainer s) (byNode s) v (byPodIP s)
  (ipClaimants s) (ipSeq s) (pending s) (waiters s) (closed s) (nextChan s) (nWaiters s)
  (nExternal s) (draining s) (shed s) (drained s) (nameReused s) (ipContested s) (gen s)
  (nodeGen s).
Definition set_byPodIP (v : gmap string nat) (s : Store) : Store := mkStore (ttl s) (maxWaiters
  s) (recs s) (nextRec s) (pods s) (byContainer s) (byNode s) (byPodName s) v (ipClaimants s)
  (ipSeq s) (pending s) (waiters s) (closed s) (nextChan s) (nWaiters s) (nExternal s) (draining
  s) (shed s) (drained s) (nameReused s) (ipContested s) (gen s) (nodeGen s).
Definition set_ipClaimants (v : gmap string (gmap string nat)) (s : Store) : Store := mkStore
  (ttl s) (maxWaiters s) (recs s) (nextRec s) (pods s) (byContainer s) (byNode s) (byPodName s)
  (byPodIP s) v (ipSeq s) (pending s) (waiters s) (closed s) (nextChan s) (nWaiters s)
  (nExternal s) (draining s) (shed s) (drained s) (nameReused s) (ipContested s) (gen s)
  (nodeGen s).
Definition set_ipSeq (v : Z) (s : Store) : Store := mkStore (ttl s) (maxWaiters s) (recs s)
  (nextRec s) (pods s) (byContainer s) (byNode s) (byPodName s) (byPodIP s) (ipClaimants s) v
  (pending s) (waiters s) (closed s) (nextChan s) (nWaiters s) (nExternal s) (draining s) (shed
  s) (drained s) (nameReused s) (ipContested s) (gen s) (nodeGen s).
Definition set_pending (v : list pendingExpiry) (s : Store) : Store := mkStore (ttl s)
  (maxWaiters s) (recs s) (nextRec s) (pods s) (byContainer s) (byNode s) (byPodName s) (byPodIP
  s) (ipClaimants s) (ipSeq s) v (waiters s) (closed s) (nextChan s) (nWaiters s) (nExternal s)
  (draining s) (shed s) (drained s) (nameReused s) (ipContested s) (gen s) (nodeGen s).
Definition set_waiters (v : gmap string (list nat)) (s : Store) : Store := mkStore (ttl s)
  (maxWaiters s) (recs s) (nextRec s) (pods s) (byContainer s) (byNode s) (byPodName s) (byPodIP
  s) (ipClaimants s) (ipSeq s) (pending s) v (closed s) (nextChan s) (nWaiters s) (nExternal s)
  (draining s) (shed s) (drained s) (nameReused s) (ipContested s) (gen s) (nodeGen s).
Definition set_closed (v : gset nat) (s : Store) : Store := mkStore (ttl s) (maxWaiters s) (recs
  s) (nextRec s) (pods s) (byContainer s) (byNode s) (byPodName s) (byPodIP s) (ipClaimants s)
  (ipSeq s) (pending s) (waiters s) v (nextChan s) (nWaiters s) (nExternal s) (draining s) (shed
  s) (drained s) (nameReused s) (ipContested s) (gen s) (nodeGen s).
Definition set_nextChan (v : nat) (s : Store) : Store := mkStore (ttl s) (maxWaiters s) (recs s)
  (nextRec s) (pods s) (byContainer s) (byNode s) (byPodName s) (byPodIP s) (ipClaimants s)
  (ipSeq s) (pending s) (waiters s) (closed s) v (nWaiters s) (nExternal s) (draining s) (shed
  s) (drained s) (nameReused s) (ipContested s) (gen s) (nodeGen s).
Definition set_nWaiters (v : Z) (s : Store) : Store := mkStore (ttl s) (maxWaiters s) (recs s)
  (nextRec s) (pods s) (byContainer s) (byNode s) (byPodName s) (byPodIP s) (ipClaimants s)
  (ipSeq s) (pending s) (waiters s) (closed s) (nextChan s) v (nExternal s) (draining s) (shed
  s) (drained s) (nameReused s) (ipContested s) (gen s) (nodeGen s).
Definition set_nExternal (v : Z) (s : Store) : Store := mkStore (ttl s) (maxWaiters s) (recs s)
  (nextRec s) (pods s) (byContainer s) (byNode s) (byPodName s) (byPodIP s) (ipClaimants s)
  (ipSeq s) (pending s) (waiters s) (closed s) (nextChan s) (nWaiters s) v (draining s) (shed s)
  (drained s) (nameReused s) (ipContested s) (gen s) (nodeGen s).
Definition set_draining (v : bool) (s : Store) : Store := mkStore (ttl s) (maxWaiters s) (recs
  s) (nextRec s) (pods s) (byContainer s) (byNode s) (byPodName s) (byPodIP s) (ipClaimants s)
  (ipSeq s) (pending s) (waiters s) (closed s) (nextChan s) (nWaiters s) (nExternal s) v (shed
  s) (drained s) (nameReused s) (ipContested s) (gen s) (nodeGen s).
Definition set_shed (v : Z) (s : Store) : Store := mkStore (ttl s) (maxWaiters s) (recs s)
  (nextRec s) (pods s) (byContainer s) (byNode s) (byPodName s) (byPodIP s) (ipClaimants s)
  (ipSeq s) (pending s) (waiters s) (closed s) (nextChan s) (nWaiters s) (nExternal s) (draining
  s) v (drained s) (nameReused s) (ipContested s) (gen s) (nodeGen s).
Definition set_drained (v : Z) (s : Store) : Store := mkStore (ttl s) (maxWaiters s) (recs s)
  (nextRec s) (pods s) (byContainer s) (byNode s) (byPodName s) (byPodIP s) (ipClaimants s)
  (ipSeq s) (pending s) (waiters s) (closed s) (nextChan s) (nWaiters s) (nExternal s) (draining
  s) (shed s) v (nameReused s) (ipContested s) (gen s) (nodeGen s).
Definition set_nameReused (v : Z) (s : Store) : Store := mkStore (ttl s) (maxWaiters s) (recs s)
  (nextRec s) (pods s) (byContainer s) (byNode s) (byPodName s) (byPodIP s) (ipClaimants s)
  (ipSeq s) (pending s) (waiters s) (closed s) (nextChan s) (nWaiters s) (nExternal s) (draining
  s) (shed s) (drained s) v (ipContested s) (gen s) (nodeGen s).
Definition set_ipContested (v : Z) (s : Store) : Store := mkStore (ttl s) (maxWaiters s) (recs
  s) (nextRec s) (pods s) (byContainer s) (byNode s) (byPodName s) (byPodIP s) (ipClaimants s)
  (ipSeq s) (pending s) (waiters s) (closed s) (nextChan s) (nWaiters s) (nExternal s) (draining
  s) (shed s) (drained s) (nameReused s) v (gen s) (nodeGen s).
Definition set_gen (v : Z) (s : Store) : Store := mkStore (ttl s) (maxWaiters s) (recs s)
  (nextRec s) (pods s) (byContainer s) (byNode s) (byPodName s) (byPodIP s) (ipClaimants s)
  (ipSeq s) (pending s) (waiters s) (closed s) (nextChan s) (nWaiters s) (nExternal s) (draining
  s) (shed s) (drained s) (nameReused s) (ipContested s) v (nodeGen s).
Definition set_nodeGen (v : gmap string Z) (s : Store) : Store := mkStore (ttl s) (maxWaiters s)
  (recs s) (nextRec s) (pods s) (byContainer s) (byNode s) (byPodName s) (byPodIP s)
  (ipClaimants s) (ipSeq s) (pending s) (waiters s) (closed s) (nextChan s) (nWaiters s)
  (nExternal s) (draining s) (shed s) (drained s) (nameReused s) (ipContested s) (gen s) v.

Definition upd_rec (r : nat) (f : record -> record) (s : Store) : Store :=
  set_recs (alter f r (recs s)) s.

Definition New (ttl maxWaiters : Z) : Store :=
  mkStore ttl maxWaiters ∅ 0 ∅ ∅ ∅ ∅ ∅ ∅ 0 [] ∅ ∅ 0 0 0 false 0 0 0 0 0 ∅.

(** What [UpsertPod] is handed: the converted pod and containers
    ([kubeconvert.FromPod]) with the object's version and owner references. *)
Record PodEvent := mkPodEvent {
  ev_pod : Pod; ev_resourceVersion : string; ev_ownerRefs : list OwnerReference;
  ev_containers : gmap string Container }.

(** The form the pod-IP index is keyed by ([peerip.Canonical]). *)
Class AddrForm := Canonical : string -> string.

Section Ops.
Context `{AddrForm}.

(** The record at an address; every address an index holds is allocated. *)
Definition rec_at (s : Store) (r : nat) : record := default zeroRecord (recs s !! r).

Definition finishedPhase (phase : string) : bool :=
  bool_decide (phase = "Succeeded"%string) || bool_decide (phase = "Failed"%string).

(** ** Tombstones *)

Definition expired (expireAt now : Z) : bool :=
  negb (is_zero expireAt) && bool_decide (expireAt < now).

Definition stampLocked (p : pendingExpiry) (s : Store) : Store :=
  set_pending (pending s ++ [p]) s.

Definition expireEntryLocked (now : Z) (id : string) (e : containerEntry) (s : Store) : Store :=
  if decide (ttl s <= 0) then set_byContainer (delete id (byContainer s)) s
  else
    let t := now + ttl s in
    stampLocked (mkPending t "" id false)
      (set_byContainer (<[id := mkEntry (podUID e) (container e) t]> (byContainer s)) s).

(** ** Waiters *)

(** [wakeLocked] closes every channel parked on one ID, once. *)
Definition wakeLocked (id : string) (s : Store) : Store * Z :=
  match waiters s !! id with
  | None | Some [] => (s, 0)
  | Some ws =>
      let n := Z.of_nat (length ws) in
      (set_waiters (delete id (waiters s))
         (set_nWaiters (nWaiters s - n) (set_closed (closed s ∪ list_to_set ws) s)), n)
  end.

(** [slices.Delete] of the first occurrence. *)
Fixpoint remove_first (ch : nat) (ws : list nat) : list nat :=
  match ws with
  | [] => []
  | c :: ws => if decide (c = ch) then ws else c :: remove_first ch ws
  end.

Definition removeWaiter (id : string) (ch : nat) (s : Store) : Store :=
  let ws := default [] (waiters s !! id) in
  let s :=
    if decide (ch ∈ ws) then
      set_waiters (<[id := remove_first ch ws]> (waiters s)) (set_nWaiters (nWaiters s - 1) s)
    else s in
  if decide (default [] (waiters s !! id) = []) then set_waiters (delete id (waiters s)) s else s.

Definition Drain (s : Store) : Store * Z :=
  if draining s then (s, 0)
  else
    foldr (fun id acc => let '(s, n) := acc in let '(s', k) := wakeLocked id s in (s', n + k))
      (set_draining true s, 0) (elements (dom (waiters s))).

Definition TryPark (s : Store) : Store * bool :=
  if decide (maxWaiters s <= nWaiters s + nExternal s)
  then (set_shed (shed s + 1) s, false)
  else (set_nExternal (nExternal s + 1) s, true).

Definition Unpark (s : Store) : Store :=
  if decide (0 < nExternal s) then set_nExternal (nExternal s - 1) s else s.

Definition BlockedLookups (s : Store) : Z := nWaiters s + nExternal s.

(** ** The container index *)

Definition index_one (uid : string) (id : string) (c : Container) (s : Store) : Store :=
  (wakeLocked id (set_byContainer (<[id := mkEntry uid c 0]> (byContainer s)) s)).1.

Definition expire_old (now : Z) (uid : string) (ids : gset string) (id : string) (s : Store) : Store :=
  if decide (id ∈ ids) then s
  else match byContainer s !! id with
  | Some e =>
      if bool_decide (podUID e = uid) && is_zero (entryExpireAt e)
      then expireEntryLocked now id e s else s
  | None => s
  end.

Definition indexContainersLocked (now : Z) (r : nat) (uid : string)
    (containers : gmap string Container) (oldIDs : gset string) (s : Store) : Store :=
  let s := foldr (fun kc s => index_one uid kc.1 kc.2 s) s (map_to_list containers) in
  let ids := dom containers in
  let s := upd_rec r (fun rec => mkRecord (pod rec) (ownerRefs rec) (resourceVersion rec) ids
                        (expireAt rec) (terminating rec) (recSeq rec)) s in
  foldr (expire_old now uid ids) s (elements oldIDs).

(** ** The node index and the change tokens *)

Definition removeFromNodeLocked (node uid : string) (s : Store) : Store :=
  if decide (node = ""%string) then s
  else match byNode s !! node with
  | None => s
  | Some m =>
      let m := delete uid m in
      if decide (m = ∅) then set_byNode (delete node (byNode s)) s
      else set_byNode (<[node := m]> (byNode s)) s
  end.

Definition addToNode (node uid : string) (r : nat) (s : Store) : Store :=
  if decide (node = ""%string) then s
  else set_byNode (<[node := <[uid := r]> (default ∅ (byNode s !! node))]> (byNode s)) s.

Definition stamp_node (g : Z) (s : Store) (n : string) : Store :=
  if decide (n = ""%string) then s
  else if decide (is_Some (byNode s !! n)) then set_nodeGen (<[n := g]> (nodeGen s)) s
  else set_nodeGen (delete n (nodeGen s)) s.

Definition bumpLocked (nodes : list string) (s : Store) : Store :=
  let g := gen s + 1 in
  foldl (stamp_node g) (set_gen g s) nodes.

Definition NodeGeneration (s : Store) (node : string) : Z :=
  default (gen s) (nodeGen s !! node).

(** ** The pod-IP index *)

Definition rawIPs (p : Pod) : list string :=
  let ips := match PodIPs p with
             | [] => if decide (PodIP p = ""%string) then [] else [PodIP p]
             | ips => ips
             end in
  Canonical <$> ips.

Definition podAddresses (p : Pod) : list string :=
  if HostNetwork p || finishedPhase (Phase p) then []
  else
    let host := Canonical (HostIP p) in
    filter (fun ip => ip <> ""%string /\ ip <> host) (rawIPs p).

Definition recordAddresses (s : Store) (r : nat) : list string := rawIPs (pod (rec_at s r)).

Definition beatsClaimant (s : Store) (cur candidate : nat) : bool :=
  bool_decide (recSeq (rec_at s cur) < recSeq (rec_at s candidate)).

Definition addClaimantLocked (ip : string) (r : nat) (s : Store) : Store :=
  set_ipClaimants
    (<[ip := <[UID (pod (rec_at s r)) := r]> (default ∅ (ipClaimants s !! ip))]> (ipClaimants s)) s.

Definition dropClaimantLocked (ip : string) (r : nat) (s : Store) : Store :=
  match ipClaimants s !! ip with
  | None => s
  | Some m =>
      let uid := UID (pod (rec_at s r)) in
      let m := if decide (m !! uid = Some r) then delete uid m else m in
      if decide (m = ∅) then set_ipClaimants (delete ip (ipClaimants s)) s
      else set_ipClaimants (<[ip := m]> (ipClaimants s)) s
  end.

Definition noteContested (r cur : nat) (s : Store) : Store :=
  if terminating (rec_at s r) || terminating (rec_at s cur) then s
  else set_ipContested (ipContested s + 1) s.

(** The eligibility test of one claimant in the promotion scan. *)
Definition eligible (s : Store) (ip : string) (skip r : nat) : bool :=
  negb (bool_decide (r = skip)) && is_zero (expireAt (rec_at s r)) &&
  bool_decide (ip ∈ podAddresses (pod (rec_at s r))).

(** The scan keeps the first claimant no later one beats; [order] is the map's
    iteration order. *)
Definition pick (s : Store) (ip : string) (skip : nat) (order : list nat) : option nat :=
  foldl (fun best r =>
    if eligible s ip skip r then
      match best with
      | None => Some r
      | Some b => if beatsClaimant s b r then Some r else best
      end
    else best) None order.

Definition promoteIPClaimantLocked (ip : string) (skip : nat) (s : Store) : Store :=
  match pick s ip skip (snd <$> map_to_list (default ∅ (ipClaimants s !! ip))) with
  | Some r => set_byPodIP (<[ip := r]> (byPodIP s)) s
  | None => s
  end.

Definition releaseIPLocked (r : nat) (ip : string) (s : Store) : Store :=
  let s := dropClaimantLocked ip r s in
  if decide (byPodIP s !! ip = Some r)
  then promoteIPClaimantLocked ip r (set_byPodIP (delete ip (byPodIP s)) s)
  else s.

Definition set_recSeq (q : Z) (rec : record) : record :=
  mkRecord (pod rec) (ownerRefs rec) (resourceVersion rec) (containerIDs rec)
    (expireAt rec) (terminating rec) q.

Definition claimOneIPLocked (r : nat) (oldIPs : list string) (noEvidence : bool)
    (s : Store) (ip : string) : Store :=
  let s := addClaimantLocked ip r s in
  let s :=
    if negb noEvidence && negb (bool_decide (ip ∈ oldIPs))
    then upd_rec r (set_recSeq (ipSeq s + 1)) (set_ipSeq (ipSeq s + 1) s) else s in
  match byPodIP s !! ip with
  | None => set_byPodIP (<[ip := r]> (byPodIP s)) s
  | Some cur =>
      if decide (cur = r) then set_byPodIP (<[ip := r]> (byPodIP s)) s
      else if beatsClaimant s cur r
      then let s := noteContested r cur s in set_byPodIP (<[ip := r]> (byPodIP s)) s
      else noteContested r cur s
  end.

Definition claimPodIPLocked (r : nat) (p : Pod) (oldIPs : list string) (noEvidence : bool)
    (s : Store) : Store :=
  let addrs := podAddresses p in
  let s := foldl (claimOneIPLocked r oldIPs noEvidence) s addrs in
  foldl (fun s old =>
    if decide (old = ""%string \/ old ∈ addrs) then s else releaseIPLocked r old s) s oldIPs.

(** ** Removal *)

Definition nameKey (p : Pod) : string := (Namespace p +:+ "/" +:+ Name p)%string.

Definition dropNameIndexLocked (r : nat) (s : Store) : Store :=
  let key := nameKey (pod (rec_at s r)) in
  if decide (byPodName s !! key = Some r) then set_byPodName (delete key (byPodName s)) s else s.

Definition drop_entry (uid : string) (id : string) (s : Store) : Store :=
  match byContainer s !! id with
  | Some e => if decide (podUID e = uid) then set_byContainer (delete id (byContainer s)) s else s
  | None => s
  end.

Definition removeRecordLocked (r : nat) (uid : string) (s : Store) : Store :=
  let s := dropNameIndexLocked r s in
  let s := foldr (drop_entry uid) s (elements (containerIDs (rec_at s r))) in
  set_pods (delete uid (pods s)) s.

Definition tombstone_entry (uid : string) (t : Z) (id : string) (s : Store) : Store :=
  match byContainer s !! id with
  | Some e =>
      if bool_decide (podUID e = uid) && is_zero (entryExpireAt e)
      then stampLocked (mkPending t "" id false)
             (set_byContainer (<[id := mkEntry (podUID e) (container e) t]> (byContainer s)) s)
      else s
  | None => s
  end.

Definition deletePodLocked (now : Z) (uid : string) (s : Store) : Store :=
  match pods s !! uid with
  | None => s
  | Some r =>
      let node := NodeName (pod (rec_at s r)) in
      let s := removeFromNodeLocked node uid s in
      let s := foldl (fun s ip => releaseIPLocked r ip s) s (recordAddresses s r) in
      let s :=
        if decide (ttl s <= 0) then removeRecordLocked r uid s
        else
          let t := now + ttl s in
          let s := upd_rec r (fun rec => mkRecord (with_DeletedAt now (pod rec)) (ownerRefs rec)
                     (resourceVersion rec) (containerIDs rec) t (terminating rec) (recSeq rec)) s in
          let s := stampLocked (mkPending t uid "" true) s in
          foldr (tombstone_entry uid t) s (elements (containerIDs (rec_at s r))) in
      bumpLocked [node] s
  end.

Definition DeletePod := deletePodLocked.

(** ** Upsert *)

Definition unchangedLocked (s : Store) (p : PodEvent) : bool :=
  match pods s !! UID (ev_pod p) with
  | None => false
  | Some r =>
      is_zero (expireAt (rec_at s r)) &&
      negb (bool_decide (ev_resourceVersion p = ""%string)) &&
      bool_decide (resourceVersion (rec_at s r) = ev_resourceVersion p)
  end.

Definition resyncNoOp (s : Store) (p : PodEvent) : bool := unchangedLocked s p.

(** The record an upsert writes to: found, or freshly allocated. *)
Definition find_or_new (uid : string) (s : Store) : Store * nat :=
  match pods s !! uid with
  | Some r => (s, r)
  | None =>
      let r := nextRec s in
      (set_nextRec (S r) (set_pods (<[uid := r]> (pods s))
         (set_recs (<[r := zeroRecord]> (recs s)) s)), r)
  end.

(** The name index: a live predecessor under the same name is tombstoned. *)
Definition claimName (now : Z) (p : Pod) (r : nat) (s : Store) : Store :=
  let s :=
    match byPodName s !! nameKey p with
    | Some prev =>
        if bool_decide (prev <> r) && is_zero (expireAt (rec_at s prev))
        then deletePodLocked now (UID (pod (rec_at s prev))) (set_nameReused (nameReused s + 1) s)
        else s
    | None => s
    end in
  set_byPodName (<[nameKey p := r]> (byPodName s)) s.

(** The part of [UpsertPod] under the write lock, with the nodes it touched. *)
Definition upsert_body (now : Z) (p : PodEvent) (s : Store) : Store * list string :=
  let np := ev_pod p in
  let uid := UID np in
  let firstSighting := bool_decide (pods s !! uid = None) in
  let '(s, r) := find_or_new uid s in
  let old := rec_at s r in
  let oldNode := if firstSighting then ""%string else NodeName (pod old) in
  let oldIPs := if firstSighting then [] else podAddresses (pod old) in
  let oldIDs := if firstSighting then ∅ else containerIDs old in
  let term := bool_decide (is_Some (DeletionTimestamp np)) in
  let s := upd_rec r (fun rec => mkRecord np (ev_ownerRefs p) (ev_resourceVersion p)
                        (containerIDs rec) 0 term (recSeq rec)) s in
  let s := indexContainersLocked now r uid (ev_containers p) oldIDs s in
  let s := if decide (oldNode = NodeName np) then s else removeFromNodeLocked oldNode uid s in
  let s := addToNode (NodeName np) uid r s in
  let s := claimName now np r s in
  (claimPodIPLocked r np oldIPs (firstSighting && term) s, [oldNode; NodeName np]).

Definition upsertLocked (now : Z) (p : PodEvent) (s : Store) : Store :=
  if unchangedLocked s p then bumpLocked [""; ""]%string s
  else let '(s, touched) := upsert_body now p s in bumpLocked touched s.

Definition UpsertPod (now : Z) (p : PodEvent) (s : Store) : Store :=
  if resyncNoOp s p then s else upsertLocked now p s.

(** ** Sweep *)

Definition sweepContainerLocked (now : Z) (id : string) (s : Store) : Store :=
  match byContainer s !! id with
  | Some e => if expired (entryExpireAt e) now then set_byContainer (delete id (byContainer s)) s else s
  | None => s
  end.

Definition sweepPodLocked (now : Z) (uid : string) (s : Store) : Store :=
  match pods s !! uid with
  | None => s
  | Some r =>
      if expired (expireAt (rec_at s r)) now then
        let s := foldl (fun s ip => dropClaimantLocked ip r s) s (recordAddresses s r) in
        removeRecordLocked r uid s
      else s
  end.

Definition sweep_one (now : Z) (s : Store) (p : pendingExpiry) : Store :=
  if isPod p then sweepPodLocked now (p_uid p) s else sweepContainerLocked now (p_id p) s.

(** The due prefix of the pending list. *)
Fixpoint due_prefix (now : Z) (l : list pendingExpiry) : list pendingExpiry :=
  match l with
  | p :: l => if expired (when_ p) now then p :: due_prefix now l else []
  | [] => []
  end.

Definition sweep (now : Z) (s : Store) : Store :=
  let due := due_prefix now (pending s) in
  match due with
  | [] => s
  | _ =>
      let s := foldl (sweep_one now) s due in
      bumpLocked [] (set_pending (drop (length due) (pending s)) s)
  end.

(** ** Lookups *)

Record ContainerResult := mkContainerResult {
  resContainer : Container; resPod : Pod; resOwnerRefs : list OwnerReference }.
Record NodePod := mkNodePod { npPod : Pod; npOwnerRefs : list OwnerReference }.

Inductive lookup := Found (r : ContainerResult) | Gone | Unknown.

Definition lookupLocked (now : Z) (s : Store) (id : string) : lookup :=
  match byContainer s !! id with
  | None => Unknown
  | Some e =>
      if expired (entryExpireAt e) now then Gone
      else match pods s !! podUID e with
      | None => Gone
      | Some r =>
          let rec := rec_at s r in
          if expired (expireAt rec) now then Gone
          else Found (mkContainerResult (container e) (pod rec) (ownerRefs rec))
      end
  end.

Definition node_pod (s : Store) (r : nat) : NodePod :=
  mkNodePod (pod (rec_at s r)) (ownerRefs (rec_at s r)).

Definition GetPodByName (now : Z) (s : Store) (namespace name : string) : option NodePod :=
  match byPodName s !! (namespace +:+ "/" +:+ name)%string with
  | Some r => if expired (expireAt (rec_at s r)) now then None else Some (node_pod s r)
  | None => None
  end.

Definition GetPodByUID (now : Z) (s : Store) (uid : string) : option NodePod :=
  match pods s !! uid with
  | Some r => if expired (expireAt (rec_at s r)) now then None else Some (node_pod s r)
  | None => None
  end.

Definition GetPodByIP (s : Store) (ip : string) : option NodePod :=
  match byPodIP s !! Canonical ip with
  | Some r =>
      let p := pod (rec_at s r) in
      if bool_decide (is_Some (DeletedAt p)) || finishedPhase (Phase p) then None
      else Some (node_pod s r)
  | None => None
  end.

Definition PodsOnNode (s : Store) (node : string) : list NodePod :=
  (fun kr => node_pod s kr.2) <$> map_to_list (default ∅ (byNode s !! node)).

End Ops.

(** Addresses already in canonical form, for concrete runs. *)
Definition no_canonical : AddrForm := fun s => s.
