(* ===== verification/StoreIndex.v ===== *)
(** * What each store operation leaves alone

    Frame lemmas for [Store]: the waiter part is changed by the waiter
    operations and by a wake, and only an upsert indexes a container ID. *)

From S2P Require Import Prelude Store.
Local Open Scope Z_scope.

(** The waiter part of the store. *)
Definition wpart (s : Store) :=
  (waiters s, closed s, nextChan s, nWaiters s, nExternal s, draining s, maxWaiters s).

(** [f] leaves the waiter part alone and indexes no new container. *)
Definition quiet (f : Store -> Store) : Prop :=
  forall s, wpart (f s) = wpart s /\ dom (byContainer (f s)) ⊆ dom (byContainer s).

Lemma quiet_id : quiet (fun s => s).
Proof. done. Qed.

Lemma quiet_comp f g : quiet f -> quiet g -> quiet (fun s => f (g s)).
Proof.
  intros Hf Hg s. destruct (Hf (g s)) as [Hf1 Hf2], (Hg s) as [Hg1 Hg2].
  split; [congruence|set_solver].
Qed.

Lemma quiet_foldl {A} (f : Store -> A -> Store) l :
  (forall a, quiet (fun s => f s a)) -> quiet (fun s => foldl f s l).
Proof.
  intros Hf s. revert s. induction l as [|a l IH]; intros s; simpl; [done|].
  destruct (Hf a s), (IH (f s a)). split; [congruence|set_solver].
Qed.

Lemma quiet_foldr {A} (f : A -> Store -> Store) l :
  (forall a, quiet (f a)) -> quiet (fun s => foldr f s l).
Proof.
  intros Hf s. induction l as [|a l IH]; simpl; [done|].
  destruct (Hf a (foldr f s l)), IH. split; [congruence|set_solver].
Qed.

(** Unfold the guards of an operation and leave one goal per branch. *)
Ltac op_cases :=
  repeat first
    [ progress simpl
    | case_decide
    | match goal with |- context [match ?x with _ => _ end] =>
        lazymatch x with context [match _ with _ => _ end] => fail | _ => destruct x eqn:? end end ].

Ltac quiet_tac :=
  let s := fresh "s" in intros s; op_cases; (split; [done|simpl; try set_solver]).

Section Frame.
Context `{AddrForm}.

Lemma quiet_upd_rec r f : quiet (upd_rec r f).
Proof. intros s; unfold upd_rec. split; [done|set_solver]. Qed.

Lemma quiet_stamp p : quiet (stampLocked p).
Proof. intros s; unfold stampLocked; split; [done|set_solver]. Qed.

Lemma quiet_expireEntry now id e s :
  byContainer s !! id = Some e ->
  wpart (expireEntryLocked now id e s) = wpart s /\
  dom (byContainer (expireEntryLocked now id e s)) ⊆ dom (byContainer s).
Proof.
  intros He. apply elem_of_dom_2 in He. unfold expireEntryLocked, stampLocked.
  case_decide; simpl; (split; [done|]).
  - rewrite dom_delete. set_solver.
  - rewrite dom_insert. set_solver.
Qed.

Lemma quiet_expire_old now uid ids id : quiet (expire_old now uid ids id).
Proof.
  intros s. unfold expire_old. case_decide; [done|].
  destruct (byContainer s !! id) eqn:E; [|done]. destruct (_ && _); [|done].
  by apply quiet_expireEntry.
Qed.

Lemma quiet_removeFromNode node uid : quiet (removeFromNodeLocked node uid).
Proof. unfold removeFromNodeLocked. quiet_tac. Qed.

Lemma quiet_addToNode node uid r : quiet (addToNode node uid r).
Proof. unfold addToNode. quiet_tac. Qed.

Lemma quiet_bump nodes : quiet (bumpLocked nodes).
Proof.
  intros s. unfold bumpLocked. generalize (gen s + 1) as g. intros g.
  assert (forall n, quiet (fun s => stamp_node g s n)) as Hn.
  { intros n. unfold stamp_node. quiet_tac. }
  exact (quiet_foldl (stamp_node g) nodes Hn (set_gen g s)).
Qed.

Lemma quiet_addClaimant ip r : quiet (addClaimantLocked ip r).
Proof. unfold addClaimantLocked. quiet_tac. Qed.

Lemma quiet_dropClaimant ip r : quiet (dropClaimantLocked ip r).
Proof. unfold dropClaimantLocked. quiet_tac. Qed.

Lemma quiet_promote ip skip : quiet (promoteIPClaimantLocked ip skip).
Proof. unfold promoteIPClaimantLocked. quiet_tac. Qed.

Lemma quiet_releaseIP r ip : quiet (releaseIPLocked r ip).
Proof.
  intros s. unfold releaseIPLocked.
  destruct (quiet_dropClaimant ip r s) as [Hd1 Hd2].
  case_decide; [|done].
  set (s1 := set_byPodIP _ _). destruct (quiet_promote ip r s1) as [Hp1 Hp2].
  split; [by rewrite Hp1|]. etrans; [exact Hp2|exact Hd2].
Qed.

Lemma quiet_noteContested r cur : quiet (noteContested r cur).
Proof. unfold noteContested. quiet_tac. Qed.

Lemma quiet_claimOne r old ne ip : quiet (fun s => claimOneIPLocked r old ne s ip).
Proof. unfold claimOneIPLocked, noteContested, addClaimantLocked, upd_rec. quiet_tac. Qed.

Lemma quiet_claimPodIP r p old ne : quiet (claimPodIPLocked r p old ne).
Proof.
  unfold claimPodIPLocked.
  apply (quiet_comp (fun s => foldl _ s old) (fun s => foldl _ s (podAddresses p))).
  - apply quiet_foldl. intros a s. case_decide; [done|apply quiet_releaseIP].
  - apply quiet_foldl. intros ip. apply quiet_claimOne.
Qed.

Lemma quiet_drop_entry uid id : quiet (drop_entry uid id).
Proof. unfold drop_entry. intros s. op_cases; (split; [done|]); simpl; set_solver. Qed.

Lemma quiet_tombstone_entry uid t id : quiet (tombstone_entry uid t id).
Proof.
  intros s. unfold tombstone_entry, stampLocked.
  destruct (byContainer s !! id) eqn:E; [|done]. apply elem_of_dom_2 in E.
  destruct (_ && _); (split; [done|]); simpl; [rewrite dom_insert|]; set_solver.
Qed.

Lemma quiet_removeRecord r uid : quiet (removeRecordLocked r uid).
Proof.
  intros s. unfold removeRecordLocked.
  set (s1 := dropNameIndexLocked r s).
  assert (wpart s1 = wpart s /\ dom (byContainer s1) ⊆ dom (byContainer s)) as [H1 H2].
  { unfold s1, dropNameIndexLocked. case_decide; done. }
  destruct (quiet_foldr (drop_entry uid) (elements (containerIDs (rec_at s1 r)))
    (quiet_drop_entry uid) s1) as [H3 H4].
  split; [etrans; [exact H3|exact H1]|etrans; [exact H4|exact H2]].
Qed.

Lemma quiet_deletePod now uid : quiet (deletePodLocked now uid).
Proof.
  intros s. unfold deletePodLocked. destruct (pods s !! uid) as [r|]; [|done]. cbv zeta.
  set (node := NodeName _). set (s1 := removeFromNodeLocked node uid s).
  set (s2 := foldl _ s1 _).
  set (s3 := if decide _ then _ else _).
  destruct (quiet_bump [node] s3) as [Hb1 Hb2].
  assert (wpart s2 = wpart s /\ dom (byContainer s2) ⊆ dom (byContainer s)) as [H1 H2].
  { destruct (quiet_removeFromNode node uid s) as [Ha Hb].
    destruct (quiet_foldl (fun s ip => releaseIPLocked r ip s) (recordAddresses s1 r)
      (fun ip => quiet_releaseIP r ip) s1) as [Hc Hd].
    split; [unfold s2; rewrite Hc; exact Ha|]. etrans; [exact Hd|exact Hb]. }
  assert (wpart s3 = wpart s2 /\ dom (byContainer s3) ⊆ dom (byContainer s2)) as [H3 H4].
  { unfold s3. case_decide; [apply quiet_removeRecord|].
    set (s4 := stampLocked _ _).
    destruct (quiet_foldr (tombstone_entry uid (now + ttl s2)) (elements (containerIDs (rec_at s4 r)))
      (quiet_tombstone_entry uid _) s4) as [Hc Hd].
    split; [rewrite Hc; done|]. etrans; [exact Hd|done]. }
  split; [congruence|]. etrans; [exact Hb2|]. etrans; [exact H4|exact H2].
Qed.

Lemma quiet_claimName now p r : quiet (claimName now p r).
Proof.
  intros s. unfold claimName. destruct (byPodName s !! nameKey p) as [prev|]; [|done].
  destruct (_ && _); [|done].
  destruct (quiet_deletePod now (UID (pod (rec_at s prev))) (set_nameReused (nameReused s + 1) s)) as [Ha Hb].
  split; [etrans; [|exact Ha]; done|etrans; [|exact Hb]; done].
Qed.

Lemma quiet_sweep now : quiet (sweep now).
Proof.
  intros s. unfold sweep. destruct (due_prefix now (pending s)) as [|p l] eqn:E; [done|].
  set (s1 := foldl _ s _). set (s2 := set_pending _ _). destruct (quiet_bump [] s2) as [Ha Hb].
  assert (wpart s1 = wpart s /\ dom (byContainer s1) ⊆ dom (byContainer s)) as [H1 H2].
  { apply (quiet_foldl (sweep_one now)). clear. intros p s. unfold sweep_one.
    destruct (isPod p).
    - unfold sweepPodLocked. destruct (pods s !! p_uid p) as [r|]; [|done].
      destruct (expired _ _); [|done]. cbv zeta.
      set (s1 := foldl _ s _). destruct (quiet_removeRecord r (p_uid p) s1) as [Hc Hd].
      destruct (quiet_foldl (fun s ip => dropClaimantLocked ip r s) (recordAddresses s r)
        (fun ip => quiet_dropClaimant ip r) s) as [He Hf].
      split; [rewrite Hc; exact He|]. etrans; [exact Hd|exact Hf].
    - unfold sweepContainerLocked. destruct (byContainer s !! p_id p) eqn:E; [|done].
      destruct (expired _ _); [|done]. split; [done|]. simpl. rewrite dom_delete. set_solver. }
  split; [etrans; [exact Ha|exact H1]|etrans; [exact Hb|exact H2]].
Qed.

End Frame.

(** * The store's indexes: what each operation writes, and their invariant

    Part one states, operation by operation, which fields an operation can
    change at all (equality up to a cleared group of fields).  Part two defines
    [live], the live pods a store holds, and the invariant that ties the node,
    name and container indexes to it.  [StoreRefine] uses both to prove that
    the store implements a plain map of live pods. *)


(** ** Equality up to a group of fields *)

Definition clear_ip (s : Store) : Store := set_ipClaimants ∅ (set_byPodIP ∅ (set_ipContested 0 s)).
Definition clear_cont (s : Store) : Store :=
  set_byContainer ∅ (set_pending [] (set_waiters ∅ (set_closed ∅ (set_nWaiters 0 s)))).
Definition clear_gen (s : Store) : Store := set_gen 0 (set_nodeGen ∅ s).
Definition clear_node (s : Store) : Store := set_byNode ∅ s.

(** [f] writes only what [p] erases. *)
Definition only (p : Store -> Store) (f : Store -> Store) : Prop := forall s, p (f s) = p s.

Lemma only_id p : only p (fun s => s).
Proof. done. Qed.

Lemma only_comp p f g : only p f -> only p g -> only p (fun s => f (g s)).
Proof. intros Hf Hg s. by rewrite Hf, Hg. Qed.

Lemma only_foldl {A} p (f : Store -> A -> Store) l :
  (forall a, only p (fun s => f s a)) -> only p (fun s => foldl f s l).
Proof.
  intros Hf s. revert s. induction l as [|a l IH]; intros s; simpl; [done|].
  rewrite IH. apply (Hf a).
Qed.

Lemma only_foldr {A} p (f : A -> Store -> Store) l :
  (forall a, only p (f a)) -> only p (fun s => foldr f s l).
Proof. intros Hf s. induction l as [|a l IH]; simpl; [done|]. rewrite (Hf a). apply IH. Qed.

Ltac only_tac := let s := fresh "s" in intros s; op_cases; reflexivity.

Section Only.
Context `{AddrForm}.

Lemma only_wake id : only clear_cont (fun s => (wakeLocked id s).1).
Proof. intros s. unfold wakeLocked. destruct (waiters s !! id) as [[|c ws]|]; done. Qed.

Lemma only_index_one uid id c : only clear_cont (index_one uid id c).
Proof. intros s. unfold index_one. by rewrite only_wake. Qed.

Lemma only_expireEntry now id e : only clear_cont (expireEntryLocked now id e).
Proof. unfold expireEntryLocked, stampLocked. only_tac. Qed.

Lemma only_expire_old now uid ids id : only clear_cont (expire_old now uid ids id).
Proof.
  intros s. unfold expire_old. case_decide; [done|]. destruct (byContainer s !! id); [|done].
  destruct (_ && _); [apply only_expireEntry|done].
Qed.

Lemma only_drop_entry uid id : only clear_cont (drop_entry uid id).
Proof. unfold drop_entry. only_tac. Qed.

Lemma only_tombstone_entry uid t id : only clear_cont (tombstone_entry uid t id).
Proof.
  intros s. unfold tombstone_entry, stampLocked. destruct (byContainer s !! id); [|done].
  by destruct (_ && _).
Qed.

Lemma only_sweepContainer now id : only clear_cont (sweepContainerLocked now id).
Proof.
  intros s. unfold sweepContainerLocked. destruct (byContainer s !! id); [|done].
  by destruct (expired _ _).
Qed.

Lemma only_addClaimant ip r : only clear_ip (addClaimantLocked ip r).
Proof. done. Qed.

Lemma only_dropClaimant ip r : only clear_ip (dropClaimantLocked ip r).
Proof.
  intros s. unfold dropClaimantLocked. destruct (ipClaimants s !! ip); [|done]. by repeat case_decide.
Qed.

Lemma only_promote ip skip : only clear_ip (promoteIPClaimantLocked ip skip).
Proof. intros s. unfold promoteIPClaimantLocked. by destruct (pick _ _ _ _). Qed.

Lemma only_releaseIP r ip : only clear_ip (releaseIPLocked r ip).
Proof.
  intros s. unfold releaseIPLocked. case_decide; [|apply only_dropClaimant].
  rewrite only_promote. transitivity (clear_ip (dropClaimantLocked ip r s)); [done|].
  apply only_dropClaimant.
Qed.

Lemma only_noteContested r cur : only clear_ip (noteContested r cur).
Proof. intros s. unfold noteContested. by destruct (_ || _). Qed.

Lemma only_removeFromNode node uid : only clear_node (removeFromNodeLocked node uid).
Proof.
  intros s. unfold removeFromNodeLocked. case_decide; [done|].
  destruct (byNode s !! node); [|done]. by case_decide.
Qed.

Lemma only_addToNode node uid r : only clear_node (addToNode node uid r).
Proof. intros s. unfold addToNode. by case_decide. Qed.

Lemma only_stamp_node g n : only clear_gen (fun s => stamp_node g s n).
Proof. intros s. unfold stamp_node. case_decide; [done|]. by case_decide. Qed.

Lemma only_bump nodes : only clear_gen (bumpLocked nodes).
Proof.
  intros s. unfold bumpLocked. etrans; [apply (only_foldl clear_gen (stamp_node _)); intros n; apply only_stamp_node|].
  done.
Qed.

Lemma gen_bump nodes s : gen (bumpLocked nodes s) = gen s + 1.
Proof.
  unfold bumpLocked. transitivity (gen (set_gen (gen s + 1) s)); [|done].
  generalize (set_gen (gen s + 1) s) as s'. generalize (gen s + 1) as g. intros g.
  induction nodes as [|n l IH]; intros s'; simpl; [done|]. rewrite IH. unfold stamp_node.
  case_decide; [done|]. by case_decide.
Qed.

(** ** Live pods *)

Record LivePod := mkLive { lp_pod : Pod; lp_owners : list OwnerReference; lp_rv : string }.

Definition live_rec (rec : record) : option LivePod :=
  if is_zero (expireAt rec) then Some (mkLive (pod rec) (ownerRefs rec) (resourceVersion rec)) else None.

Definition live_of (rs : gmap nat record) (ps : gmap string nat) : gmap string LivePod :=
  omap (fun r => rs !! r ≫= live_rec) ps.

Definition live (s : Store) : gmap string LivePod := live_of (recs s) (pods s).

Lemma lookup_live s uid : live s !! uid = pods s !! uid ≫= fun r => recs s !! r ≫= live_rec.
Proof. apply lookup_omap. Qed.

Lemma live_rec_Some rec lp :
  live_rec rec = Some lp <->
  expireAt rec = 0 /\ lp = mkLive (pod rec) (ownerRefs rec) (resourceVersion rec).
Proof.
  unfold live_rec, is_zero. case_bool_decide; split; [intros [= <-]|intros [? ->]|intros|intros [? ?]]; done.
Qed.

Lemma lookup_live_Some s uid lp :
  live s !! uid = Some lp <->
  exists r rec, pods s !! uid = Some r /\ recs s !! r = Some rec /\ live_rec rec = Some lp.
Proof.
  rewrite lookup_live. split.
  - intros (r & Hr & (rec & Hrec & Hl)%bind_Some)%bind_Some. eauto.
  - intros (r & rec & Hr & Hrec & Hl). by rewrite Hr; simpl; rewrite Hrec.
Qed.

(** ** The invariant *)

Definition at_node (s : Store) (n uid : string) : option nat := byNode s !! n ≫= (.!! uid).

(** Every record address an index holds is allocated to the UID it stands for. *)
Record uid_inv (s : Store) : Prop := {
  ui_rec : forall uid r, pods s !! uid = Some r ->
    exists rec, recs s !! r = Some rec /\ UID (pod rec) = uid;
  ui_alloc : forall r rec, recs s !! r = Some rec -> (r < nextRec s)%nat }.

(** The node index holds exactly the live pods that have a node. *)
Record node_inv (s : Store) : Prop := {
  ni_exact : forall n uid r, at_node s n uid = Some r <->
    n <> ""%string /\ pods s !! uid = Some r /\
    exists lp, live s !! uid = Some lp /\ NodeName (lp_pod lp) = n;
  ni_nonempty : forall n, byNode s !! n <> Some ∅ }.

(** The name index holds every live pod, and nothing under a foreign name. *)
Definition name_sound (s : Store) : Prop :=
  forall k r, byPodName s !! k = Some r ->
    exists uid rec, pods s !! uid = Some r /\ recs s !! r = Some rec /\ nameKey (pod rec) = k.

Definition name_complete (exempt : option string) (s : Store) : Prop :=
  forall uid lp, exempt <> Some uid -> live s !! uid = Some lp ->
    byPodName s !! nameKey (lp_pod lp) = pods s !! uid.

(** A live container entry belongs to a live pod that lists it. *)
Definition cont_inv (s : Store) : Prop :=
  forall id e, byContainer s !! id = Some e -> entryExpireAt e = 0 ->
    exists r rec, pods s !! podUID e = Some r /\ recs s !! r = Some rec /\
      expireAt rec = 0 /\ id ∈ containerIDs rec.

End Only.
