(* ===== verification/StoreLookup.v ===== *)
(** * Blocked container lookups ([internal/store/lookup.go], [waiters.go])

    [GetContainer] releases the store's lock between its steps, so a lookup is
    a small state machine and the store a system of concurrent lookups,
    informer events, sweeps, readiness parks and the shutdown drain.  The
    theorems are about every interleaving. *)

From S2P Require Import Prelude Store StoreIndex.
Local Open Scope Z_scope.

Section Lookup.
Context `{AddrForm}.

Definition maxWaiterIDLen : nat := 256.

Inductive outcome :=
| OFound (r : ContainerResult)
| OMiss
| OTooManyWaiters
| OShuttingDown.

(** Where a [GetContainer] call stands; every state holds the normalized ID. *)
Inductive client :=
| AtStart (id : string)
| AtProbe (id : string)
| AtRegister (id : string)
| Parked (id : string) (ch : nat)
| Removed (id : string)
| Answered (o : outcome).

(** The read-locked fast path. *)
Definition start_step (now : Z) (s : Store) (id : string) : client :=
  if decide (id = ""%string) then Answered OMiss
  else match lookupLocked now s id with
  | Found r => Answered (OFound r)
  | Gone => Answered OMiss
  | Unknown => if decide (maxWaiterIDLen < String.length id)%nat then Answered OMiss else AtProbe id
  end.

(** The top of the loop: the second read-locked probe, then [ctx.Err]. *)
Definition probe_step (now : Z) (ctxDone : bool) (s : Store) (id : string) : client :=
  match lookupLocked now s id with
  | Found r => Answered (OFound r)
  | Gone => Answered OMiss
  | Unknown => if ctxDone then Answered OMiss else AtRegister id
  end.

(** The write-locked part: look up again, refuse or register a waiter. *)
Definition register_step (now : Z) (s : Store) (id : string) : Store * client :=
  match lookupLocked now s id with
  | Found r => (s, Answered (OFound r))
  | Gone => (s, Answered OMiss)
  | Unknown =>
      if draining s then (set_drained (drained s + 1) s, Answered OShuttingDown)
      else if decide (maxWaiters s <= nWaiters s + nExternal s)
      then (set_shed (shed s + 1) s, Answered OTooManyWaiters)
      else
        let ch := nextChan s in
        (set_nWaiters (nWaiters s + 1)
           (set_waiters (<[id := default [] (waiters s !! id) ++ [ch]]> (waiters s))
              (set_nextChan (S ch) s)), Parked id ch)
  end.

(** After a cancelled wait: one last read-locked look. *)
Definition final_step (now : Z) (s : Store) (id : string) : client :=
  match lookupLocked now s id with
  | Found r => Answered (OFound r)
  | _ => Answered OMiss
  end.

(** ** The system *)

Record sys := mkSys { st : Store; clock : Z; clients : gmap nat client }.

Definition with_client (k : nat) (c : client) (y : sys) : sys :=
  mkSys (st y) (clock y) (<[k := c]> (clients y)).

Definition with_store (s : Store) (y : sys) : sys := mkSys s (clock y) (clients y).

Inductive step : sys -> sys -> Prop :=
| step_clock y now : clock y <= now -> step y (mkSys (st y) now (clients y))
| step_upsert y p : step y (with_store (upsertLocked (clock y) p (st y)) y)
| step_delete y uid : step y (with_store (DeletePod (clock y) uid (st y)) y)
| step_sweep y : step y (with_store (sweep (clock y) (st y)) y)
| step_drain y : step y (with_store (Drain (st y)).1 y)
| step_trypark y : step y (with_store (TryPark (st y)).1 y)
| step_unpark y : step y (with_store (Unpark (st y)) y)
| step_call y k id : clients y !! k = None -> step y (with_client k (AtStart id) y)
| step_start y k id :
    clients y !! k = Some (AtStart id) ->
    step y (with_client k (start_step (clock y) (st y) id) y)
| step_probe y k id ctxDone :
    clients y !! k = Some (AtProbe id) ->
    step y (with_client k (probe_step (clock y) ctxDone (st y) id) y)
| step_register y k id :
    clients y !! k = Some (AtRegister id) ->
    step y (let '(s, c) := register_step (clock y) (st y) id in with_client k c (with_store s y))
| step_cancel y k id ch :
    clients y !! k = Some (Parked id ch) ->
    step y (with_client k (Removed id) (with_store (removeWaiter id ch (st y)) y))
| step_wake y k id ch :
    clients y !! k = Some (Parked id ch) -> ch ∈ closed (st y) ->
    step y (with_client k (AtProbe id) y)
| step_final y k id :
    clients y !! k = Some (Removed id) ->
    step y (with_client k (final_step (clock y) (st y) id) y).

Definition init (ttl maxWaiters now : Z) : sys := mkSys (New ttl maxWaiters) now ∅.

(** The channels registered in the waiter table. *)
Definition parked_count (m : gmap string (list nat)) : nat :=
  map_fold (fun _ ws n => (length ws + n)%nat) 0%nat m.

End Lookup.

(** * Theorems *)
Section Facts.
Context `{AddrForm}.

(** The waiter table: every registered channel is open, allocated, registered
    once and waits for an ID that is not indexed; the count is exact and within
    the cap; a draining store holds none. *)
Record waiters_inv (s : Store) : Prop := {
  wi_nonempty : forall id ws, waiters s !! id = Some ws -> ws <> [] /\ NoDup ws;
  wi_open : forall id ws ch, waiters s !! id = Some ws -> ch ∈ ws ->
    ch ∉ closed s /\ (ch < nextChan s)%nat;
  wi_once : forall id1 id2 ws1 ws2 ch, waiters s !! id1 = Some ws1 -> waiters s !! id2 = Some ws2 ->
    ch ∈ ws1 -> ch ∈ ws2 -> id1 = id2;
  wi_closed : forall ch, ch ∈ closed s -> (ch < nextChan s)%nat;
  wi_absent : forall id, is_Some (waiters s !! id) -> byContainer s !! id = None;
  wi_count : nWaiters s = Z.of_nat (parked_count (waiters s));
  wi_external : 0 <= nExternal s;
  wi_cap : nWaiters s + nExternal s <= 0 `max` maxWaiters s;
  wi_drain : draining s = true -> waiters s = ∅ }.

Lemma parked_count_insert m id ws :
  m !! id = None -> parked_count (<[id := ws]> m) = (length ws + parked_count m)%nat.
Proof. intros Hm. unfold parked_count. rewrite map_fold_insert_L; [done|intros; lia|done]. Qed.

Lemma parked_count_delete m id ws :
  m !! id = Some ws -> parked_count m = (length ws + parked_count (delete id m))%nat.
Proof.
  intros Hm. rewrite <- (insert_delete_id m id ws Hm) at 1.
  rewrite parked_count_insert; [done|apply lookup_delete_eq].
Qed.

Lemma waiters_inv_New ttl max : waiters_inv (New ttl max).
Proof.
  split; simpl; intros; try (rewrite ?lookup_empty in *; done); try set_solver; try lia.
Qed.

(** The invariant reads the waiter part and which IDs are indexed. *)
Lemma waiters_inv_ext s s' :
  wpart s' = wpart s -> dom (byContainer s') ⊆ dom (byContainer s) ->
  waiters_inv s -> waiters_inv s'.
Proof.
  unfold wpart. intros [= E1 E2 E3 E4 E5 E6 E7] Hd Hinv.
  split; rewrite ?E1, ?E2, ?E3, ?E4, ?E5, ?E6, ?E7; try apply Hinv.
  intros id Hid. apply not_elem_of_dom. intros Hin. apply Hd, elem_of_dom in Hin.
  rewrite (wi_absent _ Hinv id Hid) in Hin. by destruct Hin.
Qed.

Lemma waiters_inv_quiet f s : quiet f -> waiters_inv s -> waiters_inv (f s).
Proof. intros Hq. destruct (Hq s). by apply waiters_inv_ext. Qed.

Lemma lookup_delete_some {V} (m : gmap string V) i j x :
  delete i m !! j = Some x -> i <> j /\ m !! j = Some x.
Proof. rewrite lookup_delete_Some. done. Qed.

(** A wake moves the channels of one ID from the table to the closed set. *)
Lemma waiters_inv_wake id s :
  (forall id', id' <> id -> is_Some (waiters s !! id') -> byContainer s !! id' = None) ->
  (forall s0, wpart s0 = wpart s -> byContainer s0 = ∅ -> waiters_inv s0) ->
  waiters_inv (wakeLocked id s).1 /\ waiters (wakeLocked id s).1 !! id = None.
Proof.
  intros Habs Hany.
  assert (waiters_inv (set_byContainer ∅ s)) as Hinv by (apply Hany; done).
  unfold wakeLocked. destruct (waiters s !! id) as [ws|] eqn:Hws.
  2: { split; [|done]. split; try apply Hinv. intros id' Hid'. apply Habs; [|done].
       intros Heq. subst id'. cbn in Hid'. rewrite Hws in Hid'. by destruct Hid'. }
  destruct ws as [|c ws]; [by destruct (wi_nonempty _ Hinv id [] Hws)|].
  set (l := c :: ws) in *. clearbody l. cbn [fst]. split; [|apply lookup_delete_eq].
  split; cbn.
  - intros id' ws' [_ Hw]%lookup_delete_some. by apply (wi_nonempty _ Hinv id').
  - intros id' ws' ch [Hne Hw]%lookup_delete_some Hch.
    destruct (wi_open _ Hinv id' ws' ch Hw Hch) as [? ?]. split; [|done].
    rewrite elem_of_union, elem_of_list_to_set. intros [?|Hl]; [done|].
    by destruct (Hne (wi_once _ Hinv _ _ _ _ _ Hws Hw Hl Hch)).
  - intros id1 id2 ws1 ws2 ch [_ H1]%lookup_delete_some [_ H2]%lookup_delete_some.
    by apply (wi_once _ Hinv).
  - intros ch. rewrite elem_of_union, elem_of_list_to_set. intros [Hc|Hl].
    + by apply (wi_closed _ Hinv).
    + by apply (wi_open _ Hinv id l).
  - intros id' [ws' [Hne Hw]%lookup_delete_some]. apply Habs; [congruence|by rewrite Hw].
  - pose proof (wi_count _ Hinv) as Hn. cbn in Hn.
    rewrite (parked_count_delete _ _ _ Hws) in Hn. lia.
  - apply (wi_external _ Hinv).
  - pose proof (wi_cap _ Hinv) as Hc. cbn in Hc. lia.
  - intros Hd. pose proof (wi_drain _ Hinv Hd) as He. cbn in He. rewrite He in Hws. done.
Qed.

Lemma waiters_inv_index_one uid id c s :
  waiters_inv s -> waiters_inv (index_one uid id c s).
Proof.
  intros Hinv. unfold index_one. apply waiters_inv_wake.
  - intros id' Hne Hid'. cbn in *. rewrite lookup_insert_ne by done. by apply (wi_absent _ Hinv).
  - intros s0 Hw Hb. apply (waiters_inv_ext s); [exact Hw|rewrite Hb; set_solver|done].
Qed.

Lemma foldr_inv {A} (P : Store -> Prop) (f : A -> Store -> Store) s l :
  (forall a s, P s -> P (f a s)) -> P s -> P (foldr f s l).
Proof. intros Hf Hs. induction l; simpl; auto. Qed.

Lemma waiters_inv_upsert now p s : waiters_inv s -> waiters_inv (upsertLocked now p s).
Proof.
  intros Hinv. unfold upsertLocked.
  destruct (unchangedLocked s p); [by apply waiters_inv_quiet; [apply quiet_bump|]|].
  unfold upsert_body. set (uid := UID (ev_pod p)).
  destruct (find_or_new uid s) as [s1 r] eqn:Hf.
  assert (waiters_inv s1) as H1.
  { unfold find_or_new in Hf. destruct (pods s !! uid); simplify_eq; [done|].
    by apply (waiters_inv_ext s). }
  cbv zeta. apply waiters_inv_quiet; [apply quiet_bump|].
  apply waiters_inv_quiet; [apply quiet_claimPodIP|].
  apply waiters_inv_quiet; [apply quiet_claimName|].
  apply waiters_inv_quiet; [apply quiet_addToNode|].
  set (s2 := indexContainersLocked _ _ _ _ _ _).
  assert (waiters_inv s2) as H2; [|case_decide; [done|by apply waiters_inv_quiet; [apply quiet_removeFromNode|]]].
  unfold s2, indexContainersLocked. apply foldr_inv.
  { intros id s' Hs'. by apply waiters_inv_quiet; [apply quiet_expire_old|]. }
  apply waiters_inv_quiet; [apply quiet_upd_rec|]. apply foldr_inv.
  { intros [id c] s' Hs'. by apply waiters_inv_index_one. }
  by apply waiters_inv_quiet; [apply quiet_upd_rec|].
Qed.

Lemma waiters_inv_wake' id s :
  waiters_inv s -> waiters_inv (wakeLocked id s).1 /\ waiters (wakeLocked id s).1 !! id = None.
Proof.
  intros Hinv. apply waiters_inv_wake.
  - intros id' _ Hid'. by apply (wi_absent _ Hinv).
  - intros s0 Hw Hb. apply (waiters_inv_ext s); [done|rewrite Hb; set_solver|done].
Qed.

Lemma wake_none id id' s :
  waiters s !! id' = None -> waiters (wakeLocked id s).1 !! id' = None.
Proof.
  intros Hn. unfold wakeLocked. destruct (waiters s !! id) as [[|c ws]|]; simpl; try done.
  rewrite lookup_delete_None. by right.
Qed.

Lemma wake_draining b id s :
  (wakeLocked id (set_draining b s)).1 = set_draining b (wakeLocked id s).1.
Proof. unfold wakeLocked; simpl. by destruct (waiters s !! id) as [[|c ws]|]. Qed.

(** The drain loop, one ID at a time. *)
Definition drain_loop (s : Store) (l : list string) : Store * Z :=
  foldr (fun id acc => let '(s, n) := acc in let '(s', k) := wakeLocked id s in (s', n + k)) (s, 0) l.

Lemma drain_loop_cons s id l : (drain_loop s (id :: l)).1 = (wakeLocked id (drain_loop s l).1).1.
Proof.
  unfold drain_loop. cbn [foldr]. destruct (foldr _ (s, 0) l) as [s' n]. cbn [fst].
  destruct (wakeLocked id s'). reflexivity.
Qed.

Lemma drain_loop_inv s l :
  draining s = false -> waiters_inv s ->
  let s' := (drain_loop (set_draining true s) l).1 in
  draining s' = true /\ waiters_inv (set_draining false s') /\
  (forall id, id ∈ l \/ waiters s !! id = None -> waiters s' !! id = None).
Proof.
  intros Hd Hinv. cbv zeta. induction l as [|id l (IHd & IHi & IHn)].
  - simpl. split; [done|split].
    + apply (waiters_inv_ext s); [unfold wpart; simpl; by rewrite Hd|done|done].
    + intros id [Hin|?]; [by apply not_elem_of_nil in Hin|done].
  - rewrite drain_loop_cons. set (s' := (drain_loop _ l).1) in *.
    destruct (waiters_inv_wake' id _ IHi) as [Hi Hn]. rewrite wake_draining in Hi, Hn.
    split; [|split; [done|]].
    + unfold wakeLocked. by destruct (waiters s' !! id) as [[|c ws]|].
    + intros id' [[->|Hin]%elem_of_cons|Hnone]; [done| |]; apply wake_none, IHn; auto.
Qed.

Lemma waiters_inv_Drain s : waiters_inv s -> waiters_inv (Drain s).1.
Proof.
  intros Hinv. unfold Drain. destruct (draining s) eqn:Hd; [done|].
  destruct (drain_loop_inv s (elements (dom (waiters s))) Hd Hinv) as (Hd' & Hi & Hn).
  change (foldr _ _ _) with (drain_loop (set_draining true s) (elements (dom (waiters s)))).
  set (s' := (drain_loop _ _).1) in *.
  assert (waiters s' = ∅) as He.
  { apply map_empty. intros id. apply Hn. destruct (waiters s !! id) eqn:E; [left|by right].
    apply elem_of_elements, elem_of_dom. eauto. }
  destruct Hi. split; auto.
Qed.

Lemma remove_first_subset ch ws : remove_first ch ws ⊆ ws.
Proof.
  induction ws as [|c ws IH]; simpl; [done|]. case_decide; set_solver.
Qed.

Lemma remove_first_NoDup ch ws : NoDup ws -> NoDup (remove_first ch ws).
Proof.
  induction 1 as [|c ws Hc Hnd IH]; simpl; [constructor|]. case_decide; [done|].
  constructor; [|done]. intros Hin. by apply Hc, (remove_first_subset ch).
Qed.

Lemma remove_first_length ch ws : ch ∈ ws -> length ws = S (length (remove_first ch ws)).
Proof.
  induction ws as [|c ws IH]; [by intros ?%not_elem_of_nil|]. simpl. case_decide; [done|].
  intros [->|Hin]%elem_of_cons; [done|]. simpl. by rewrite IH.
Qed.

Lemma remove_first_other ch c ws : c <> ch -> c ∈ ws -> c ∈ remove_first ch ws.
Proof.
  intros Hne. induction ws as [|d ws IH]; simpl; [done|].
  intros [->|Hin]%elem_of_cons; case_decide; set_solver.
Qed.

(** Cancelling a wait takes one channel out and keeps every other. *)
Lemma waiters_removeWaiter id ch s id' :
  waiters_inv s ->
  waiters (removeWaiter id ch s) !! id' =
    if decide (id' = id) then
      match remove_first ch (default [] (waiters s !! id)) with
      | [] => None
      | ws => Some ws
      end
    else waiters s !! id'.
Proof.
  intros Hinv. unfold removeWaiter.
  destruct (waiters s !! id) as [ws|] eqn:Hws; simpl.
  2: { destruct (decide (ch ∈ [])) as [Hb|_]; [by apply not_elem_of_nil in Hb|]. rewrite Hws. simpl.
       destruct (decide (id' = id)) as [->|]; [apply lookup_delete_eq|by rewrite lookup_delete_ne]. }
  destruct (wi_nonempty _ Hinv id ws Hws) as [Hne Hnd].
  destruct (decide (ch ∈ ws)) as [Hin|Hin]; simpl.
  - rewrite lookup_insert_eq. simpl. destruct (decide (remove_first ch ws = [])) as [He|He]; simpl.
    + rewrite He. simpl. destruct (decide (id' = id)) as [->|Hn]; [apply lookup_delete_eq|].
      by rewrite lookup_delete_ne, lookup_insert_ne.
    + destruct (decide (id' = id)) as [->|]; [|by rewrite lookup_insert_ne].
      rewrite lookup_insert_eq. by destruct (remove_first ch ws).
  - assert (remove_first ch ws = ws) as ->.
    { clear -Hin. induction ws as [|c ws IH]; simpl; [done|].
      rewrite decide_False by set_solver. f_equal. apply IH. set_solver. }
    rewrite Hws. simpl. rewrite decide_False by done.
    destruct (decide (id' = id)) as [->|]; [|done]. rewrite Hws. by destruct ws.
Qed.

Lemma parked_count_split m id :
  parked_count m = (length (default [] (m !! id)) + parked_count (delete id m))%nat.
Proof.
  destruct (m !! id) as [ws|] eqn:E; simpl; [by apply parked_count_delete|].
  by rewrite delete_id.
Qed.

Lemma waiters_inv_removeWaiter id ch s :
  waiters_inv s -> waiters_inv (removeWaiter id ch s).
Proof.
  intros Hinv. pose proof (fun id' => waiters_removeWaiter id ch s id' Hinv) as Hlook.
  set (s' := removeWaiter id ch s) in *.
  assert (forall id' ws', waiters s' !! id' = Some ws' ->
    ws' <> [] /\ exists ws, waiters s !! id' = Some ws /\ ws' ⊆ ws /\ (NoDup ws -> NoDup ws')) as Hsub.
  { intros id' ws' Hw. rewrite Hlook in Hw. destruct (decide (id' = id)) as [->|].
    - destruct (waiters s !! id) as [ws|] eqn:E; simpl in Hw; [|done].
      destruct (remove_first ch ws) as [|c l] eqn:Er; [done|]. simplify_eq. split; [done|].
      exists ws. rewrite <- Er. split; [done|]. split; [apply remove_first_subset|apply remove_first_NoDup].
    - split; [apply (wi_nonempty _ Hinv id' ws' Hw)|]. eauto. }
  assert (closed s' = closed s /\ nextChan s' = nextChan s /\ nExternal s' = nExternal s /\
    draining s' = draining s /\ maxWaiters s' = maxWaiters s /\ byContainer s' = byContainer s /\
    nWaiters s' = nWaiters s - (if decide (ch ∈ default [] (waiters s !! id)) then 1 else 0))
    as (E1 & E2 & E3 & E4 & E5 & E6 & E7).
  { unfold s', removeWaiter. repeat case_decide; simpl; repeat split; lia. }
  assert (nWaiters s' = Z.of_nat (parked_count (waiters s'))) as Hcount.
  { rewrite E7, (wi_count _ Hinv), (parked_count_split (waiters s) id), (parked_count_split (waiters s') id).
    assert (delete id (waiters s') = delete id (waiters s)) as ->.
    { apply map_eq. intros j. destruct (decide (id = j)) as [->|];
        [by rewrite !lookup_delete_eq|rewrite !lookup_delete_ne by done].
      rewrite Hlook, decide_False by congruence. done. }
    rewrite Hlook, (decide_True (P := id = id)) by done.
    destruct (decide (ch ∈ _)) as [Hin|Hin].
    - rewrite (remove_first_length _ _ Hin). destruct (remove_first _ _); simpl; lia.
    - assert (remove_first ch (default [] (waiters s !! id)) = default [] (waiters s !! id)) as ->.
      { clear -Hin. induction (default [] (waiters s !! id)) as [|c ws IH]; simpl; [done|].
        rewrite decide_False by set_solver. f_equal. apply IH. set_solver. }
      destruct (default [] _); simpl; lia. }
  split; rewrite ?E1, ?E2, ?E3, ?E4, ?E5, ?E6; try apply Hinv; auto.
  - intros id' ws' Hw. destruct (Hsub _ _ Hw) as (? & ws & Hws & _ & Hnd). split; [done|].
    apply Hnd, (wi_nonempty _ Hinv id' ws Hws).
  - intros id' ws' c Hw Hc. destruct (Hsub _ _ Hw) as (_ & ws & Hws & Hss & _).
    apply (wi_open _ Hinv id' ws c Hws). set_solver.
  - intros id1 id2 ws1 ws2 c H1 H2 Hc1 Hc2.
    destruct (Hsub _ _ H1) as (_ & v1 & Hv1 & ? & _), (Hsub _ _ H2) as (_ & v2 & Hv2 & ? & _).
    apply (wi_once _ Hinv id1 id2 v1 v2 c); auto.
  - intros id' [ws' Hw]. destruct (Hsub _ _ Hw) as (_ & ws & Hws & _).
    apply (wi_absent _ Hinv). eauto.
  - pose proof (wi_cap _ Hinv). rewrite E7. case_decide; lia.
  - intros Hd. apply map_empty. intros id'. destruct (waiters s' !! id') eqn:E; [|done].
    destruct (Hsub _ _ E) as (_ & ws & Hws & _). rewrite (wi_drain _ Hinv Hd) in Hws. done.
Qed.

Lemma waiters_inv_register now s id :
  waiters_inv s -> waiters_inv (register_step now s id).1.
Proof.
  intros Hinv. unfold register_step. destruct (lookupLocked now s id) eqn:Hl; try done.
  destruct (draining s) eqn:Hd; [by apply (waiters_inv_ext s); [unfold wpart; simpl; rewrite ?Hd| |]|].
  case_decide as Hcap; [by apply (waiters_inv_ext s)|]. cbn [fst].
  assert (byContainer s !! id = None) as Habs.
  { unfold lookupLocked in Hl. destruct (byContainer s !! id); [|done].
    repeat (case_match; try done). }
  assert (forall i ws, waiters s !! i = Some ws -> nextChan s ∉ ws) as Hfresh.
  { intros i ws Hws Hin. destruct (wi_open _ Hinv i ws _ Hws Hin). lia. }
  split; cbn.
  - intros i ws. destruct (decide (i = id)) as [->|]; [rewrite lookup_insert_eq|rewrite lookup_insert_ne by done].
    + intros [= <-]. split; [by destruct (default _ _)|]. apply NoDup_app. split; [|split].
      * destruct (waiters s !! id) as [ws|] eqn:E; simpl; [|constructor]. by apply (wi_nonempty _ Hinv id).
      * intros c Hc ->%list_elem_of_singleton. destruct (waiters s !! id) eqn:E; simpl in Hc; [|set_solver].
        by apply (Hfresh id l).
      * apply NoDup_singleton.
    + apply (wi_nonempty _ Hinv).
  - intros i ws c. destruct (decide (i = id)) as [->|]; [rewrite lookup_insert_eq|rewrite lookup_insert_ne by done].
    + intros [= <-]. rewrite elem_of_app, list_elem_of_singleton. intros [Hc| ->].
      * destruct (waiters s !! id) as [ws|] eqn:E; simpl in Hc; [|set_solver].
        destruct (wi_open _ Hinv id ws c E Hc). split; [done|lia].
      * split; [|lia]. intros Hc%(wi_closed _ Hinv). lia.
    + intros Hw Hc. destruct (wi_open _ Hinv i ws c Hw Hc). split; [done|lia].
  - assert (forall i ws c, <[id := default [] (waiters s !! id) ++ [nextChan s]]> (waiters s) !! i = Some ws ->
      c ∈ ws -> (c = nextChan s /\ i = id) \/ exists ws', waiters s !! i = Some ws' /\ c ∈ ws') as Hback.
    { intros i ws c. rewrite lookup_insert. case_decide; [subst|by eauto].
      intros [= <-]. rewrite elem_of_app, list_elem_of_singleton. intros [Hc| ->]; [right|by left].
      destruct (waiters s !! i) eqn:E; simpl in Hc; [eauto|set_solver]. }
    intros i1 i2 w1 w2 c H1 H2 Hc1 Hc2.
    destruct (Hback _ _ _ H1 Hc1) as [[-> ->]|(v1 & Hv1 & Hd1)], (Hback _ _ _ H2 Hc2) as [[Ec ->]|(v2 & Hv2 & Hd2)].
    + done.
    + by destruct (Hfresh _ _ Hv2).
    + subst. by destruct (Hfresh _ _ Hv1).
    + by apply (wi_once _ Hinv i1 i2 v1 v2 c).
  - intros c Hc%(wi_closed _ Hinv). lia.
  - intros i. destruct (decide (i = id)) as [->|]; [done|]. rewrite lookup_insert_ne by done.
    apply (wi_absent _ Hinv).
  - rewrite (wi_count _ Hinv), (parked_count_split (waiters s) id),
      (parked_count_split (<[id := _]> (waiters s)) id), lookup_insert_eq, delete_insert_eq.
    simpl. rewrite length_app. simpl. lia.
  - apply (wi_external _ Hinv).
  - pose proof (wi_cap _ Hinv). lia.
  - congruence.
Qed.

(** ** The system invariant *)

(** No registered channel disappears unclosed. *)
Definition keeps (s s' : Store) : Prop :=
  closed s ⊆ closed s' /\ (nextChan s <= nextChan s')%nat /\
  forall id ws ch, waiters s !! id = Some ws -> ch ∈ ws ->
    ch ∈ closed s' \/ exists ws', waiters s' !! id = Some ws' /\ ch ∈ ws'.

Lemma keeps_same s s' :
  waiters s' = waiters s -> closed s' = closed s -> nextChan s' = nextChan s -> keeps s s'.
Proof. intros E1 E2 E3. unfold keeps. rewrite E1, E2, E3. split; [done|]. eauto. Qed.

Lemma keeps_trans s1 s2 s3 : keeps s1 s2 -> keeps s2 s3 -> keeps s1 s3.
Proof.
  intros (Hc1 & Hn1 & Hk1) (Hc2 & Hn2 & Hk2). split; [set_solver|]. split; [lia|].
  intros id ws ch Hw Hch. destruct (Hk1 _ _ _ Hw Hch) as [?|(ws' & Hw' & Hch')]; [set_solver|]. eauto.
Qed.

Lemma keeps_quiet f s : quiet f -> keeps s (f s).
Proof. intros Hq. destruct (Hq s) as [Hw _]. unfold wpart in Hw. by simplify_eq; apply keeps_same. Qed.

Lemma keeps_wake id s : keeps s (wakeLocked id s).1.
Proof.
  unfold wakeLocked. destruct (waiters s !! id) as [[|c ws]|] eqn:E; try (by apply keeps_same).
  set (l := c :: ws) in *. clearbody l. split; [cbn; set_solver|]. split; [done|]. cbn.
  intros i ws' ch Hw Hch. destruct (decide (id = i)) as [<-|].
  - simplify_eq. left. apply elem_of_union_r, elem_of_list_to_set, Hch.
  - right. exists ws'. by rewrite lookup_delete_ne.
Qed.

Lemma keeps_foldr {A} (f : A -> Store -> Store) s l :
  (forall a s, keeps s (f a s)) -> keeps s (foldr f s l).
Proof.
  intros Hf. induction l as [|a l IH]; simpl; [by apply keeps_same|].
  eapply keeps_trans; [exact IH|apply Hf].
Qed.

Lemma keeps_upsert now p s : keeps s (upsertLocked now p s).
Proof.
  unfold upsertLocked. destruct (unchangedLocked s p); [apply (keeps_quiet _ s), quiet_bump|].
  unfold upsert_body. destruct (find_or_new (UID (ev_pod p)) s) as [s1 r] eqn:Hf. cbv zeta.
  assert (keeps s s1) as H1.
  { unfold find_or_new in Hf. destruct (pods s !! _); simplify_eq; by apply keeps_same. }
  eapply keeps_trans; [exact H1|].
  eapply keeps_trans; [|apply (keeps_quiet (bumpLocked _)), quiet_bump].
  eapply keeps_trans; [|apply (keeps_quiet (claimPodIPLocked _ _ _ _)), quiet_claimPodIP].
  eapply keeps_trans; [|apply (keeps_quiet (claimName _ _ _)), quiet_claimName].
  eapply keeps_trans; [|apply (keeps_quiet (addToNode _ _ _)), quiet_addToNode].
  set (s2 := indexContainersLocked _ _ _ _ _ _).
  assert (keeps s1 s2) as H2.
  { unfold s2, indexContainersLocked.
    eapply keeps_trans; [|apply keeps_foldr; intros id s'; apply (keeps_quiet (expire_old _ _ _ _)), quiet_expire_old].
    eapply keeps_trans; [|apply (keeps_quiet (upd_rec _ _)), quiet_upd_rec].
    eapply keeps_trans; [|apply keeps_foldr; intros [id c] s'; unfold index_one;
      eapply keeps_trans; [|apply keeps_wake]; by apply keeps_same].
    apply (keeps_quiet (upd_rec _ _)), quiet_upd_rec. }
  case_decide; [done|]. eapply keeps_trans; [exact H2|]. apply (keeps_quiet _ _), quiet_removeFromNode.
Qed.

Lemma keeps_Drain s : keeps s (Drain s).1.
Proof.
  unfold Drain. destruct (draining s); [by apply keeps_same|].
  change (foldr _ _ _) with (drain_loop (set_draining true s) (elements (dom (waiters s)))).
  generalize (elements (dom (waiters s))) as l. induction l as [|id l IH]; [by apply keeps_same|].
  rewrite drain_loop_cons. eapply keeps_trans; [exact IH|apply keeps_wake].
Qed.

Definition client_ok (s : Store) (c : client) : Prop :=
  match c with
  | Parked id ch =>
      (ch < nextChan s)%nat /\
      (ch ∈ closed s \/ exists ws, waiters s !! id = Some ws /\ ch ∈ ws)
  | _ => True
  end.

Lemma client_ok_keeps s s' c : keeps s s' -> client_ok s c -> client_ok s' c.
Proof.
  intros (Hc & Hn & Hk). destruct c; try done. simpl. intros [? [?|(ws & Hw & Hch)]]; (split; [lia|]).
  - left; set_solver.
  - by apply (Hk _ ws).
Qed.

Record sys_inv (y : sys) : Prop := {
  si_store : waiters_inv (st y);
  si_client : map_Forall (fun _ c => client_ok (st y) c) (clients y);
  si_unique : forall k1 k2 id1 id2 ch, clients y !! k1 = Some (Parked id1 ch) ->
    clients y !! k2 = Some (Parked id2 ch) -> k1 = k2 }.

(** A step of the store alone. *)
Lemma sys_inv_store s' y :
  sys_inv y -> waiters_inv s' -> keeps (st y) s' -> sys_inv (with_store s' y).
Proof.
  intros [Hs Hc Hu] Hs' Hk. split; [done| |done].
  eapply map_Forall_impl; [exact Hc|]. intros k c. by apply client_ok_keeps.
Qed.

(** A client moves to a state that parks on nothing. *)
Lemma sys_inv_client k c y :
  sys_inv y -> (forall id ch, c <> Parked id ch) -> sys_inv (with_client k c y).
Proof.
  intros [Hs Hc Hu] Hnp. split; [done| |].
  - apply map_Forall_insert_2; [|done]. destruct c; try done. by destruct (Hnp id ch).
  - cbn. intros k1 k2 id1 id2 ch [[_ He]|[_ H1]]%lookup_insert_Some [[_ He']|[_ H2]]%lookup_insert_Some;
      try (by destruct (Hnp _ _ He)); try (by destruct (Hnp _ _ He')). by apply (Hu _ _ _ _ _ H1 H2).
Qed.

Lemma sys_inv_init ttl max now : sys_inv (init ttl max now).
Proof. split; [apply waiters_inv_New|apply map_Forall_empty|done]. Qed.

Lemma sys_inv_register y k id :
  sys_inv y -> clients y !! k = Some (AtRegister id) ->
  sys_inv (let '(s, c) := register_step (clock y) (st y) id in with_client k c (with_store s y)).
Proof.
  intros Hinv Hk. pose proof (waiters_inv_register (clock y) (st y) id (si_store _ Hinv)) as Hs.
  unfold register_step in *. destruct (lookupLocked _ _ id); simpl in Hs;
    try (apply sys_inv_client; [by apply sys_inv_store; [| |apply keeps_same]|done]).
  destruct (draining (st y)); [apply sys_inv_client; [by apply sys_inv_store; [| |apply keeps_same]|done]|].
  case_decide; [apply sys_inv_client; [by apply sys_inv_store; [| |apply keeps_same]|done]|].
  simpl in Hs. set (s' := set_nWaiters _ _) in *. set (ch := nextChan (st y)).
  assert (keeps (st y) s') as Hkeep.
  { split; [done|]. split; [cbn; lia|]. intros i ws c Hw Hc. right. cbn.
    rewrite lookup_insert. case_decide; [subst|by eauto]. rewrite Hw. simpl.
    eexists; split; [done|]. apply elem_of_app. by left. }
  assert (forall k' i c, clients y !! k' = Some (Parked i c) -> (c < ch)%nat) as Hold.
  { intros k' i c Hp. by destruct (si_client _ Hinv _ _ Hp). }
  split; [done| |].
  - apply map_Forall_insert_2.
    + cbn. split; [lia|]. right. rewrite lookup_insert_eq. eexists; split; [done|].
      apply elem_of_app. right. apply list_elem_of_singleton. done.
    + eapply map_Forall_impl; [apply (si_client _ Hinv)|]. intros k' c. by apply client_ok_keeps.
  - cbn. intros k1 k2 id1 id2 c [[<- H1]|[_ H1]]%lookup_insert_Some [[<- H2]|[_ H2]]%lookup_insert_Some;
      simplify_eq; try done.
    + apply Hold in H2. lia.
    + apply Hold in H1. lia.
    + by apply (si_unique _ Hinv _ _ _ _ _ H1 H2).
Qed.

Lemma sys_inv_cancel y k id ch :
  sys_inv y -> clients y !! k = Some (Parked id ch) ->
  sys_inv (with_client k (Removed id) (with_store (removeWaiter id ch (st y)) y)).
Proof.
  intros Hinv Hk. pose proof (waiters_inv_removeWaiter id ch _ (si_store _ Hinv)) as Hs.
  split; [done| |].
  - cbn. intros k' c. rewrite lookup_insert_Some. intros [[<- <-]|[Hne Hc]]; [done|].
    pose proof (si_client _ Hinv _ _ Hc) as Hok. destruct c as [| | |i c| |]; try done.
    destruct Hok as [Hlt Hin]. assert (c <> ch) as Hcc.
    { intros ->. by apply Hne, (si_unique _ Hinv k k' id i ch). }
    assert (closed (removeWaiter id ch (st y)) = closed (st y) /\
            nextChan (removeWaiter id ch (st y)) = nextChan (st y)) as [E1 E2].
    { unfold removeWaiter. repeat case_decide; done. }
    simpl. rewrite E1, E2. split; [done|]. destruct Hin as [?|(ws & Hw & Hin)]; [by left|right].
    rewrite waiters_removeWaiter by apply Hinv. destruct (decide (i = id)) as [->|]; [|by eauto].
    rewrite Hw. simpl. pose proof (remove_first_other ch c ws Hcc Hin) as Hin'.
    destruct (remove_first ch ws) eqn:Er; [by apply not_elem_of_nil in Hin'|]. rewrite <- Er in *. eauto.
  - cbn. intros k1 k2 id1 id2 c [[<- ?]|[_ H1]]%lookup_insert_Some [[<- ?]|[_ H2]]%lookup_insert_Some;
      try done. by apply (si_unique _ Hinv _ _ _ _ _ H1 H2).
Qed.

Ltac not_parked := intros ? ?; unfold start_step, probe_step, final_step;
  repeat (case_match; try done); done.

Lemma sys_inv_step y y' : sys_inv y -> step y y' -> sys_inv y'.
Proof.
  intros Hinv Hstep. pose proof (si_store _ Hinv) as Hs. destruct Hstep.
  - destruct Hinv; by split.
  - apply sys_inv_store; [done|by apply waiters_inv_upsert|apply keeps_upsert].
  - apply sys_inv_store; [done|apply (waiters_inv_quiet _ _ (quiet_deletePod _ _) Hs)|].
    apply (keeps_quiet (deletePodLocked _ _)), quiet_deletePod.
  - apply sys_inv_store; [done|apply (waiters_inv_quiet _ _ (quiet_sweep _) Hs)|].
    apply (keeps_quiet (sweep _)), quiet_sweep.
  - apply sys_inv_store; [done|by apply waiters_inv_Drain|apply keeps_Drain].
  - apply sys_inv_store; [done| |]; unfold TryPark; case_decide; try (by apply keeps_same); cbn.
    + by apply (waiters_inv_ext (st y)).
    + destruct Hs. split; cbn; auto; lia.
  - apply sys_inv_store; [done| |]; unfold Unpark; case_decide; try (by apply keeps_same); cbn; try done.
    destruct Hs. split; cbn; auto; lia.
  - by apply sys_inv_client.
  - apply sys_inv_client; [done|not_parked].
  - apply sys_inv_client; [done|not_parked].
  - by apply sys_inv_register.
  - by apply sys_inv_cancel.
  - by apply sys_inv_client.
  - apply sys_inv_client; [done|not_parked].
Qed.

Lemma sys_inv_reachable ttl max now y : star step (init ttl max now) y -> sys_inv y.
Proof.
  intros H'. exact (star_inv step sys_inv sys_inv_step _ _ H' (sys_inv_init ttl max now)).
Qed.

(** ** Properties *)

(** C2: no wake-up is lost: in every interleaving, a lookup still blocked on an
    open channel waits for a container ID the store has not indexed, and the
    store is not draining. *)
Theorem no_lost_wakeup ttl max now y k id ch :
  star step (init ttl max now) y ->
  clients y !! k = Some (Parked id ch) -> ch ∉ closed (st y) ->
  byContainer (st y) !! id = None /\ draining (st y) = false.
Proof.
  intros Hr%sys_inv_reachable Hk Hopen.
  destruct (si_client _ Hr _ _ Hk) as [_ [?|(ws & Hw & Hch)]]; [done|]. split.
  - apply (wi_absent _ (si_store _ Hr)). eauto.
  - destruct (draining (st y)) eqn:Hd; [|done].
    rewrite (wi_drain _ (si_store _ Hr) Hd) in Hw. done.
Qed.

(** The lookups blocked in the store and in the readiness parks together
    never exceed the cap, the waiter count is the number of registered
    channels, and no registered channel has been closed, so none is closed
    twice. *)
Theorem blocked_lookups_bounded ttl max now y :
  star step (init ttl max now) y ->
  0 <= BlockedLookups (st y) <= 0 `max` maxWaiters (st y) /\
  nWaiters (st y) = Z.of_nat (parked_count (waiters (st y))) /\
  (forall id ws ch, waiters (st y) !! id = Some ws -> ch ∈ ws -> ch ∉ closed (st y)).
Proof.
  intros Hr%sys_inv_reachable. pose proof (si_store _ Hr) as Hs. unfold BlockedLookups.
  pose proof (wi_cap _ Hs). pose proof (wi_external _ Hs). pose proof (wi_count _ Hs).
  split; [lia|]. split; [done|]. intros id ws ch Hw Hch. by apply (wi_open _ Hs id ws).
Qed.

End Facts.

(** ** Witnesses: a lookup of an unknown ID parks on an empty store *)

Definition parked_sys : sys :=
  with_client 0 (Parked "a" 0)
    (with_store
      (set_nWaiters 1 (set_waiters {["a"%string := [0%nat]]} (set_nextChan 1 (New 10 2))))
      (init 10 2 100)).

Lemma parked_sys_reachable : star (@step no_canonical) (init 10 2 100) parked_sys.
Proof.
  set (y1 := with_client 0 (AtStart "a") (init 10 2 100)).
  set (y2 := with_client 0 (AtProbe "a") y1).
  set (y3 := with_client 0 (AtRegister "a") y2).
  apply (star_step _ _ y3); [apply (star_step _ _ y2); [apply (star_step _ _ y1);
    [apply (star_step _ _ (init 10 2 100))|]|]|].
  - apply star_refl.
  - by apply step_call.
  - exact (@step_start no_canonical y1 0 "a" eq_refl).
  - exact (@step_probe no_canonical y2 0 "a" false eq_refl).
  - pose proof (@step_register no_canonical y3 0 "a" eq_refl) as Hs.
    replace parked_sys with
      (let '(s, c) := register_step (clock y3) (st y3) "a" in with_client 0 c (with_store s y3));
      [exact Hs|]. unfold parked_sys, with_client, with_store. cbn. f_equal; vm_compute; reflexivity.
Qed.

Lemma no_lost_wakeup_witness :
  byContainer (st parked_sys) !! "a"%string = None /\ draining (st parked_sys) = false.
Proof.
  apply (@no_lost_wakeup no_canonical 10 2 100 parked_sys 0 "a" 0).
  - exact parked_sys_reachable.
  - vm_compute. reflexivity.
  - apply not_elem_of_empty.
Defined.

Lemma blocked_lookups_bounded_witness : 0 <= BlockedLookups (st parked_sys) <= 2.
Proof.
  exact (proj1 (@blocked_lookups_bounded no_canonical 10 2 100 parked_sys parked_sys_reachable)).
Defined.
