(* ===== verification/StoreRefine.v ===== *)
(** * The store implements a map of live pods

    An abstract store is a map from UID to the live pod: an upsert puts the
    pod and evicts the live pods of its name, a delete removes it, a sweep does
    nothing.  [Store] refines it: [live] commutes with every operation, and the
    node and name indexes answer as the map would. *)

From S2P Require Import Prelude Store StoreIndex.
Local Open Scope Z_scope.

(** ** The abstract store *)

Notation spec := (gmap string LivePod).

Section Spec.
Context `{AddrForm}.

Definition live_event (p : PodEvent) : LivePod :=
  mkLive (ev_pod p) (ev_ownerRefs p) (ev_resourceVersion p).

Definition spec_put (p : PodEvent) (m : spec) : spec :=
  <[UID (ev_pod p) := live_event p]>
    (filter (fun kv => nameKey (lp_pod kv.2) <> nameKey (ev_pod p)) m).

Definition spec_upsert (p : PodEvent) (m : spec) : spec :=
  match m !! UID (ev_pod p) with
  | Some lp =>
      if negb (bool_decide (ev_resourceVersion p = ""%string)) &&
         bool_decide (lp_rv lp = ev_resourceVersion p)
      then m else spec_put p m
  | None => spec_put p m
  end.

Definition spec_delete (uid : string) (m : spec) : spec := delete uid m.

(** What the store serves of a live pod. *)
Definition served (lp : LivePod) : NodePod := mkNodePod (lp_pod lp) (lp_owners lp).

Definition spec_on_node (n : string) (m : spec) : gmap string NodePod :=
  served <$> filter (fun kv => NodeName (lp_pod kv.2) = n) m.

#[export] Instance Pod_eq_dec : EqDecision Pod.
Proof. solve_decision. Defined.
#[export] Instance OwnerReference_eq_dec : EqDecision OwnerReference.
Proof. solve_decision. Defined.
#[export] Instance NodePod_eq_dec : EqDecision NodePod.
Proof. solve_decision. Defined.

(** The node's pods as the store holds them, keyed by UID. *)
Definition node_view (s : Store) (n : string) : gmap string NodePod :=
  node_pod s <$> default ∅ (byNode s !! n).

End Spec.

(** ** Field extraction *)

Lemma clear_ip_fields s s' : clear_ip s' = clear_ip s ->
  recs s' = recs s /\ nextRec s' = nextRec s /\ pods s' = pods s /\ ttl s' = ttl s /\
  byContainer s' = byContainer s /\ byNode s' = byNode s /\ byPodName s' = byPodName s /\
  pending s' = pending s /\ gen s' = gen s /\ nodeGen s' = nodeGen s.
Proof.
  intros E. repeat split; first [exact (f_equal recs E)|exact (f_equal nextRec E)|exact (f_equal pods E)
    |exact (f_equal ttl E)|exact (f_equal byContainer E)|exact (f_equal byNode E)
    |exact (f_equal byPodName E)|exact (f_equal pending E)|exact (f_equal gen E)|exact (f_equal nodeGen E)].
Qed.

Lemma clear_cont_fields s s' : clear_cont s' = clear_cont s ->
  recs s' = recs s /\ nextRec s' = nextRec s /\ pods s' = pods s /\ ttl s' = ttl s /\
  byNode s' = byNode s /\ byPodName s' = byPodName s /\ byPodIP s' = byPodIP s /\
  ipClaimants s' = ipClaimants s /\ gen s' = gen s /\ nodeGen s' = nodeGen s.
Proof.
  intros E. repeat split; first [exact (f_equal recs E)|exact (f_equal nextRec E)|exact (f_equal pods E)
    |exact (f_equal ttl E)|exact (f_equal byNode E)|exact (f_equal byPodName E)|exact (f_equal byPodIP E)
    |exact (f_equal ipClaimants E)|exact (f_equal gen E)|exact (f_equal nodeGen E)].
Qed.

Lemma clear_node_fields s s' : clear_node s' = clear_node s ->
  recs s' = recs s /\ nextRec s' = nextRec s /\ pods s' = pods s /\ ttl s' = ttl s /\
  byContainer s' = byContainer s /\ byPodName s' = byPodName s /\ byPodIP s' = byPodIP s /\
  ipClaimants s' = ipClaimants s /\ pending s' = pending s /\ gen s' = gen s /\ nodeGen s' = nodeGen s.
Proof.
  intros E. repeat split; first [exact (f_equal recs E)|exact (f_equal nextRec E)|exact (f_equal pods E)
    |exact (f_equal ttl E)|exact (f_equal byContainer E)|exact (f_equal byPodName E)|exact (f_equal byPodIP E)
    |exact (f_equal ipClaimants E)|exact (f_equal pending E)|exact (f_equal gen E)|exact (f_equal nodeGen E)].
Qed.

Lemma clear_gen_fields s s' : clear_gen s' = clear_gen s ->
  recs s' = recs s /\ nextRec s' = nextRec s /\ pods s' = pods s /\ ttl s' = ttl s /\
  byContainer s' = byContainer s /\ byNode s' = byNode s /\ byPodName s' = byPodName s /\
  byPodIP s' = byPodIP s /\ ipClaimants s' = ipClaimants s /\ pending s' = pending s.
Proof.
  intros E. repeat split; first [exact (f_equal recs E)|exact (f_equal nextRec E)|exact (f_equal pods E)
    |exact (f_equal ttl E)|exact (f_equal byContainer E)|exact (f_equal byNode E)|exact (f_equal byPodName E)
    |exact (f_equal byPodIP E)|exact (f_equal ipClaimants E)|exact (f_equal pending E)].
Qed.

Section Effects.
Context `{AddrForm}.

(** ** What a removal and a delete write *)

Lemma removeRecord_fields r uid s :
  let s' := removeRecordLocked r uid s in
  recs s' = recs s /\ nextRec s' = nextRec s /\ pods s' = delete uid (pods s) /\ ttl s' = ttl s /\
  byNode s' = byNode s /\ byPodName s' = byPodName (dropNameIndexLocked r s) /\
  byPodIP s' = byPodIP s /\ ipClaimants s' = ipClaimants s /\ gen s' = gen s /\ nodeGen s' = nodeGen s.
Proof.
  unfold removeRecordLocked. cbv zeta. set (s1 := dropNameIndexLocked r s).
  set (s2 := foldr _ s1 _).
  assert (clear_cont s2 = clear_cont s1) as Hc.
  { apply (only_foldr clear_cont (drop_entry uid)). apply only_drop_entry. }
  destruct (clear_cont_fields _ _ Hc) as (E1&E2&E3&E4&E5&E6&E7&E8&E9&E10).
  cbn. rewrite E1, E2, E3, E4, E5, E6, E7, E8, E9, E10.
  unfold s1, dropNameIndexLocked. case_decide; done.
Qed.

Definition tombstoned (now t : Z) (rec : record) : record :=
  mkRecord (with_DeletedAt now (pod rec)) (ownerRefs rec) (resourceVersion rec)
    (containerIDs rec) t (terminating rec) (recSeq rec).

Lemma deletePod_fields now uid r s :
  pods s !! uid = Some r ->
  let s' := deletePodLocked now uid s in
  recs s' = (if decide (ttl s <= 0) then recs s else alter (tombstoned now (now + ttl s)) r (recs s)) /\
  nextRec s' = nextRec s /\
  pods s' = (if decide (ttl s <= 0) then delete uid (pods s) else pods s) /\
  byNode s' = byNode (removeFromNodeLocked (NodeName (pod (rec_at s r))) uid s) /\
  byPodName s' = byPodName (if decide (ttl s <= 0) then dropNameIndexLocked r s else s) /\
  ttl s' = ttl s /\ gen s' = gen s + 1.
Proof.
  intros Hr. unfold deletePodLocked. rewrite Hr. cbv zeta.
  set (node := NodeName _). set (s1 := removeFromNodeLocked node uid s).
  set (s2 := foldl _ s1 _). set (s3 := if decide (ttl s2 <= 0) then _ else _).
  destruct (clear_node_fields s s1) as (A1&A2&A3&A4&A5&A6&A7&A8&A9&A10&A11);
    [apply only_removeFromNode|].
  destruct (clear_ip_fields s1 s2) as (B1&B2&B3&B4&B5&B6&B7&B8&B9&B10).
  { apply (only_foldl clear_ip (fun s ip => releaseIPLocked r ip s)). intros ip. apply only_releaseIP. }
  destruct (clear_gen_fields s3 (bumpLocked [node] s3)) as (C1&C2&C3&C4&C5&C6&C7&C8&C9&C10);
    [apply only_bump|].
  rewrite C1, C2, C3, C4, C6, C7, gen_bump. clear C1 C2 C3 C4 C5 C6 C7 C8 C9 C10.
  assert (ttl s2 = ttl s) as Et by congruence.
  unfold s3. rewrite Et. destruct (decide (ttl s <= 0)) as [Hle|Hgt].
  - destruct (removeRecord_fields r uid s2) as (D1&D2&D3&D4&D5&D6&D7&D8&D9&D10).
    cbv zeta in D1, D2, D3, D4, D5, D6, D9.
    rewrite D1, D2, D3, D4, D5, D6, D9, B1, B2, B3, B4, B6, B9, A1, A2, A3, A4, A10.
    repeat split; try done. unfold dropNameIndexLocked, rec_at. rewrite B1, A1, B7, A6.
    case_decide; simpl; congruence.
  - set (s4 := stampLocked _ _). set (s5 := foldr _ s4 _).
    destruct (clear_cont_fields s4 s5) as (D1&D2&D3&D4&D5&D6&D7&D8&D9&D10).
    { apply (only_foldr clear_cont (tombstone_entry uid _)). apply only_tombstone_entry. }
    rewrite D1, D2, D3, D4, D5, D6, D9. unfold s4, stampLocked, upd_rec. cbn.
    rewrite B1, B2, B3, B4, B6, B7, B9, A1, A2, A3, A4, A6, A10. done.
Qed.

Lemma deletePod_absent now uid s : pods s !! uid = None -> deletePodLocked now uid s = s.
Proof. intros Hr. unfold deletePodLocked. by rewrite Hr. Qed.

(** ** What an upsert writes *)

Definition relisted (ids : gset string) (rec : record) : record :=
  mkRecord (pod rec) (ownerRefs rec) (resourceVersion rec) ids (expireAt rec) (terminating rec) (recSeq rec).

Lemma indexContainers_fields now r uid cs oldIDs s :
  let s' := indexContainersLocked now r uid cs oldIDs s in
  recs s' = alter (relisted (dom cs)) r (recs s) /\
  clear_cont (set_recs ∅ s') = clear_cont (set_recs ∅ s).
Proof.
  unfold indexContainersLocked. cbv zeta. set (s1 := foldr _ s _).
  set (s2 := upd_rec _ _ s1). set (s3 := foldr _ s2 _).
  assert (clear_cont s1 = clear_cont s) as H1.
  { apply (only_foldr clear_cont (fun kc => index_one uid kc.1 kc.2)). intros [id c]. apply only_index_one. }
  assert (clear_cont s3 = clear_cont s2) as H3.
  { apply (only_foldr clear_cont (expire_old now uid (dom cs))). intros id. apply only_expire_old. }
  split.
  - transitivity (recs s2); [exact (f_equal recs H3)|]. unfold s2, upd_rec. cbn.
    f_equal. exact (f_equal recs H1).
  - transitivity (clear_cont (set_recs ∅ s2)); [exact (f_equal (set_recs ∅) H3)|].
    exact (f_equal (set_recs ∅) H1).
Qed.

Lemma claimOne_fields r old ne s ip :
  let s' := claimOneIPLocked r old ne s ip in
  (exists q, recs s' = alter (set_recSeq q) r (recs s)) /\
  clear_ip (set_ipSeq 0 (set_recs ∅ s')) = clear_ip (set_ipSeq 0 (set_recs ∅ s)).
Proof.
  unfold claimOneIPLocked. cbv zeta. set (s1 := addClaimantLocked ip r s).
  set (s2 := if negb ne && _ then _ else s1).
  assert ((exists q, recs s2 = alter (set_recSeq q) r (recs s)) /\
    clear_ip (set_ipSeq 0 (set_recs ∅ s2)) = clear_ip (set_ipSeq 0 (set_recs ∅ s))) as Hs2.
  { unfold s2. destruct (negb ne && _); cbn; [split; [by eexists|done]|]. split; [|done].
    exists (recSeq (rec_at s r)). symmetry. apply alter_id. unfold rec_at.
    intros rec Hrec. rewrite Hrec. by destruct rec. }
  clearbody s2. destruct Hs2 as [Hr Hc].
  destruct (byPodIP s2 !! ip); [case_decide; [by split|]|by split].
  destruct (beatsClaimant _ _ _); unfold noteContested; by destruct (_ || _).
Qed.

Lemma alter_recSeq_twice q1 q2 r (m : gmap nat record) :
  alter (set_recSeq q1) r (alter (set_recSeq q2) r m) = alter (set_recSeq q1) r m.
Proof.
  apply map_eq. intros i. destruct (decide (i = r)) as [->|]; [|by rewrite !lookup_alter_ne].
  rewrite !lookup_alter_eq.
  by destruct (m !! r) as [[]|].
Qed.

Lemma claimPodIP_fields r p old ne s :
  let s' := claimPodIPLocked r p old ne s in
  (exists q, recs s' = alter (set_recSeq q) r (recs s)) /\
  clear_ip (set_ipSeq 0 (set_recs ∅ s')) = clear_ip (set_ipSeq 0 (set_recs ∅ s)).
Proof.
  unfold claimPodIPLocked. cbv zeta. set (s1 := foldl _ s (podAddresses p)). set (s2 := foldl _ s1 old).
  assert (clear_ip s2 = clear_ip s1) as H2.
  { apply (only_foldl clear_ip (fun s o => if decide (o = "" \/ o ∈ podAddresses p)%string
      then s else releaseIPLocked r o s)).
    intros ip s'. case_decide; [done|apply only_releaseIP]. }
  assert ((exists q, recs s1 = alter (set_recSeq q) r (recs s)) /\
    clear_ip (set_ipSeq 0 (set_recs ∅ s1)) = clear_ip (set_ipSeq 0 (set_recs ∅ s))) as [[q Hr] Hc].
  { unfold s1. clear. generalize (podAddresses p) as l. intros l. revert s.
    induction l as [|ip l IH]; intros s; simpl.
    - split; [|done]. exists (recSeq (rec_at s r)). symmetry. apply alter_id. unfold rec_at.
      intros rec Hrec. rewrite Hrec. by destruct rec.
    - destruct (claimOne_fields r old ne s ip) as [[q Hq] Hc]. cbv zeta in Hq, Hc.
      destruct (IH (claimOneIPLocked r old ne s ip)) as [[q' Hq'] Hc']. split; [|congruence].
      exists q'. by rewrite Hq', Hq, alter_recSeq_twice. }
  split.
  - exists q. rewrite <- Hr. exact (f_equal recs H2).
  - rewrite <- Hc. exact (f_equal (fun s => set_ipSeq 0 (set_recs ∅ s)) H2).
Qed.

End Effects.

(** ** The node index *)

Section Node.
Context `{AddrForm}.

Lemma at_node_remove node uid s n u :
  at_node (removeFromNodeLocked node uid s) n u =
  if decide (node = n /\ n <> ""%string /\ u = uid) then None else at_node s n u.
Proof.
  unfold removeFromNodeLocked, at_node. destruct (decide (node = "")%string) as [->|Hne].
  { destruct (decide _) as [(<- & [] & _)|]; done. }
  destruct (byNode s !! node) as [m|] eqn:Em.
  2:{ destruct (decide _) as [(<- & _ & ->)|]; [by rewrite Em|done]. }
  destruct (decide (node = n)) as [<-|Hn].
  - rewrite Em. simpl. destruct (decide (delete uid m = ∅)) as [He|He]; simpl.
    + rewrite lookup_delete_eq. simpl. destruct (decide _) as [|Hd]; [done|].
      assert (delete uid m !! u = None) as Hu by (rewrite He; apply lookup_empty).
      rewrite lookup_delete_ne in Hu; [done|]. intros ->. by apply Hd.
    + rewrite lookup_insert_eq. simpl. destruct (decide _) as [(_ & _ & ->)|Hd].
      * apply lookup_delete_eq.
      * rewrite lookup_delete_ne; [done|]. intros ->. by apply Hd.
  - rewrite (decide_False (P := node = n /\ _)) by tauto.
    destruct (decide (delete uid m = ∅)); simpl; [by rewrite lookup_delete_ne|by rewrite lookup_insert_ne].
Qed.

Lemma at_node_add node uid r s n u :
  at_node (addToNode node uid r s) n u =
  if decide (node = n /\ n <> ""%string /\ u = uid) then Some r else at_node s n u.
Proof.
  unfold addToNode, at_node. destruct (decide (node = "")%string) as [->|Hne].
  { destruct (decide _) as [(<- & [] & _)|]; done. }
  simpl. destruct (decide (node = n)) as [<-|Hn].
  - rewrite lookup_insert_eq. simpl. destruct (decide _) as [(_ & _ & ->)|Hd].
    + by rewrite lookup_insert_eq.
    + rewrite lookup_insert_ne by (intros <-; by apply Hd). by destruct (byNode s !! node).
  - rewrite lookup_insert_ne by done. by rewrite (decide_False (P := node = n /\ _)) by tauto.
Qed.

Lemma remove_nonempty node uid s :
  (forall n, byNode s !! n <> Some ∅) -> forall n, byNode (removeFromNodeLocked node uid s) !! n <> Some ∅.
Proof.
  intros Hs n. unfold removeFromNodeLocked. case_decide; [done|].
  destruct (byNode s !! node); [|done]. case_decide; cbn.
  - rewrite lookup_delete. by case_decide.
  - rewrite lookup_insert. case_decide; [congruence|done].
Qed.

Lemma add_nonempty node uid r s :
  (forall n, byNode s !! n <> Some ∅) -> forall n, byNode (addToNode node uid r s) !! n <> Some ∅.
Proof.
  intros Hs n. unfold addToNode. case_decide; [done|]. cbn. rewrite lookup_insert. case_decide; [|done].
  intros [=E]. by apply (insert_non_empty (default ∅ (byNode s !! node)) uid r).
Qed.

End Node.

(** ** The invariant *)

Section Inv.
Context `{AddrForm}.
(** Kubernetes never renames a pod: its UID fixes its namespace and name. *)
Variable name_of : string -> string.

(** What the informer hands the store: a converted pod carries no deletion
    stamp of the store's. *)
Definition event_ok (p : PodEvent) : Prop :=
  DeletedAt (ev_pod p) = None /\ nameKey (ev_pod p) = name_of (UID (ev_pod p)).

Record store_inv (exempt : option string) (s : Store) : Prop := {
  si_uid : uid_inv s;
  si_named : forall uid r rec, pods s !! uid = Some r -> recs s !! r = Some rec ->
    nameKey (pod rec) = name_of uid;
  si_deleted : forall uid lp, live s !! uid = Some lp -> DeletedAt (lp_pod lp) = None;
  si_node : node_inv s;
  si_sound : name_sound s;
  si_complete : name_complete exempt s }.

Lemma uid_inj s u1 u2 r : uid_inv s -> pods s !! u1 = Some r -> pods s !! u2 = Some r -> u1 = u2.
Proof.
  intros Hs H1 H2. destruct (ui_rec _ Hs _ _ H1) as (rec & E & <-), (ui_rec _ Hs _ _ H2) as (rec' & E' & <-).
  congruence.
Qed.

Lemma store_inv_New t m : store_inv None (New t m).
Proof.
  split.
  - by split.
  - done.
  - intros uid lp Hl. by rewrite lookup_live in Hl.
  - split; [|done]. intros n uid r. split; [done|]. by intros (_ & ? & _).
  - done.
  - intros uid lp _ Hl. by rewrite lookup_live in Hl.
Qed.

(** ** Delete *)

Lemma live_deletePod now uid s :
  0 < now -> uid_inv s -> live (deletePodLocked now uid s) = delete uid (live s).
Proof.
  intros Hnow Hs. destruct (pods s !! uid) as [r|] eqn:Hr.
  2:{ rewrite deletePod_absent by done. symmetry. apply delete_id. by rewrite lookup_live, Hr. }
  destruct (deletePod_fields now uid r s Hr) as (E1&_&E3&_).
  unfold live. rewrite E1, E3. destruct (decide (ttl s <= 0)) as [Hle|Hgt].
  { unfold live_of. apply omap_delete. }
  apply map_eq. intros u. unfold live_of. rewrite lookup_omap.
  destruct (decide (uid = u)) as [<-|Hu].
  - rewrite lookup_delete_eq, Hr. simpl. rewrite lookup_alter_eq.
    destruct (recs s !! r) as [rec|]; simpl; [|done].
    unfold live_rec, is_zero, tombstoned. simpl. case_bool_decide; [lia|done].
  - rewrite lookup_delete_ne, lookup_omap by done. destruct (pods s !! u) as [r'|] eqn:Hu'; simpl; [|done].
    rewrite lookup_alter_ne; [done|]. intros ->. by apply Hu, (uid_inj s uid u r').
Qed.

Lemma store_inv_deletePod now uid ex s :
  0 < now -> store_inv ex s -> store_inv ex (deletePodLocked now uid s).
Proof.
  intros Hnow [Hu Hn Hd Hno Hs Hc]. pose proof (live_deletePod now uid s Hnow Hu) as Hlive.
  destruct (pods s !! uid) as [r|] eqn:Hr; [|by rewrite deletePod_absent].
  destruct (deletePod_fields now uid r s Hr) as (E1&E2&E3&E4&E5&E6&E7).
  set (s' := deletePodLocked now uid s) in *.
  assert (forall u r', pods s' !! u = Some r' -> pods s !! u = Some r') as Hpods.
  { intros u r'. rewrite E3. case_decide; [|done]. rewrite lookup_delete_Some. tauto. }
  assert (forall r' rec', recs s' !! r' = Some rec' -> exists rec, recs s !! r' = Some rec /\
    UID (pod rec) = UID (pod rec') /\ nameKey (pod rec) = nameKey (pod rec')) as Hrecs.
  { intros r' rec'. rewrite E1. case_decide; [by eauto|]. rewrite lookup_alter.
    destruct (decide (r = r')) as [->|]; [|by eauto]. destruct (recs s !! r') as [rec|] eqn:Er; [|done].
    intros [= <-]. eauto. }
  assert (forall r' rec, recs s !! r' = Some rec -> exists rec', recs s' !! r' = Some rec' /\
    UID (pod rec') = UID (pod rec) /\ nameKey (pod rec') = nameKey (pod rec)) as Hrecs'.
  { intros r' rec Hrec. rewrite E1. case_decide; [by eauto|].
    destruct (decide (r = r')) as [->|]; [rewrite lookup_alter_eq, Hrec; simpl; by eauto|].
    rewrite lookup_alter_ne by done. eauto. }
  assert (forall u, u <> uid -> pods s' !! u = pods s !! u) as Hpods'.
  { intros u Hne. rewrite E3. case_decide; [by rewrite lookup_delete_ne|done]. }
  split.
  - split.
    + intros u r' Hp%Hpods. destruct (ui_rec _ Hu _ _ Hp) as (rec & Hrec & <-).
      destruct (Hrecs' _ _ Hrec) as (rec' & ? & ? & _). eauto.
    + intros r' rec' Hrec. destruct (Hrecs _ _ Hrec) as (rec & Hrec' & _). rewrite E2. by apply (ui_alloc _ Hu _ rec).
  - intros u r' rec' Hp%Hpods Hrec. destruct (Hrecs _ _ Hrec) as (rec & Hrec' & _ & <-). by apply (Hn _ r').
  - intros u lp. rewrite Hlive, lookup_delete_Some. intros [_ Hl]. by apply (Hd u).
  - split; [|rewrite E4; apply remove_nonempty, Hno].
    intros n u r'. unfold at_node. rewrite E4. fold (at_node (removeFromNodeLocked (NodeName (pod (rec_at s r))) uid s) n u).
    rewrite at_node_remove, Hlive. destruct (decide (u = uid)) as [->|Hne].
    + rewrite lookup_delete_eq. split; [|naive_solver].
      destruct (decide (NodeName (pod (rec_at s r)) = n /\ n <> ""%string /\ uid = uid)) as [|Hdec]; [done|].
      rewrite (ni_exact _ Hno). intros (Hn0 & Hp & lp & Hl & Hnode). destruct Hdec.
      apply lookup_live_Some in Hl as (r2 & rec & Hr2 & Hrec & [_ ->]%live_rec_Some). simplify_eq.
      unfold rec_at. by rewrite Hrec.
    + rewrite decide_False by tauto. rewrite lookup_delete_ne, Hpods' by done. apply Hno.
  - intros k r' Hk. rewrite E5 in Hk. destruct (decide (ttl s <= 0)) as [Hle|Hgt].
    + assert (byPodName s !! k = Some r' /\ (r' = r -> False)) as [Hk' Hner].
      { unfold dropNameIndexLocked in Hk. case_decide as Hdrop; cbn in Hk.
        - apply lookup_delete_Some in Hk as [Hne Hk]. split; [done|]. intros ->.
          destruct (Hs _ _ Hk) as (u & rec & _ & Hrec & <-). unfold rec_at in Hne. by rewrite Hrec in Hne.
        - split; [done|]. intros ->. destruct (Hs _ _ Hk) as (u & rec & _ & Hrec & <-).
          unfold rec_at in Hdrop. by rewrite Hrec in Hdrop. }
      destruct (Hs _ _ Hk') as (u & rec & Hp & Hrec & Hkey). exists u, rec.
      rewrite E3, E1, lookup_delete_ne; [done|]. intros ->. apply Hner. congruence.
    + destruct (Hs _ _ Hk) as (u & rec & Hp & Hrec & Hkey). destruct (Hrecs' _ _ Hrec) as (rec' & Hrec' & _ & Hk').
      exists u, rec'. rewrite E3. rewrite Hk'. done.
  - intros u lp Hex. rewrite Hlive, lookup_delete_Some. intros [Hne Hl].
    pose proof (Hc u lp Hex Hl) as Hnm. rewrite Hpods' by done. rewrite <- Hnm, E5.
    case_decide; [|done]. unfold dropNameIndexLocked. case_decide as Hdrop; [|done]. cbn.
    apply lookup_delete_ne. intros Heq. rewrite <- Heq, Hdrop in Hnm. by apply Hne, (uid_inj s uid u r).
Qed.

(** ** Upsert, up to the node index *)

(** The state of [upsert_body] once containers and node are indexed, with the
    record's address, the pod's previous addresses and the first-sighting flag. *)
Definition upsert_indexed (now : Z) (p : PodEvent) (s : Store) : Store * nat :=
  let np := ev_pod p in
  let uid := UID np in
  let firstSighting := bool_decide (pods s !! uid = None) in
  let '(s, r) := find_or_new uid s in
  let old := rec_at s r in
  let oldNode := if firstSighting then ""%string else NodeName (pod old) in
  let oldIDs := if firstSighting then ∅ else containerIDs old in
  let s := upd_rec r (fun rec => mkRecord np (ev_ownerRefs p) (ev_resourceVersion p)
             (containerIDs rec) 0 (bool_decide (is_Some (DeletionTimestamp np))) (recSeq rec)) s in
  let s := indexContainersLocked now r uid (ev_containers p) oldIDs s in
  let s := if decide (oldNode = NodeName np) then s else removeFromNodeLocked oldNode uid s in
  (addToNode (NodeName np) uid r s, r).

Definition old_ips (p : PodEvent) (s : Store) : list string :=
  match pods s !! UID (ev_pod p) with Some r => podAddresses (pod (rec_at s r)) | None => [] end.

Definition old_node (p : PodEvent) (s : Store) : string :=
  match pods s !! UID (ev_pod p) with Some r => NodeName (pod (rec_at s r)) | None => "" end.

Definition first_term (p : PodEvent) (s : Store) : bool :=
  bool_decide (pods s !! UID (ev_pod p) = None) && bool_decide (is_Some (DeletionTimestamp (ev_pod p))).

Lemma upsert_body_eq now p s :
  upsert_body now p s =
  let '(s1, r) := upsert_indexed now p s in
  (claimPodIPLocked r (ev_pod p) (old_ips p s) (first_term p s) (claimName now (ev_pod p) r s1),
   [old_node p s; NodeName (ev_pod p)]).
Proof.
  unfold upsert_body, upsert_indexed, find_or_new, old_ips, old_node, first_term.
  destruct (pods s !! UID (ev_pod p)) as [r|] eqn:Hr; cbv zeta.
  - rewrite bool_decide_eq_false_2 by done. done.
  - rewrite bool_decide_eq_true_2 by done. done.
Qed.

(** The record an upsert leaves. *)
Definition written (p : PodEvent) (rec : record) : Prop :=
  live_rec rec = Some (live_event p) /\ containerIDs rec = dom (ev_containers p) /\
  terminating rec = bool_decide (is_Some (DeletionTimestamp (ev_pod p))).

Lemma upsert_indexed_fields now p s s1 r :
  uid_inv s -> upsert_indexed now p s = (s1, r) ->
  (exists rec, recs s1 !! r = Some rec /\ written p rec) /\
  (forall r', r' <> r -> recs s1 !! r' = recs s !! r') /\
  pods s1 = <[UID (ev_pod p) := r]> (pods s) /\
  (forall u, pods s !! u = Some r -> u = UID (ev_pod p)) /\
  (r < nextRec s1)%nat /\ (nextRec s <= nextRec s1)%nat /\
  byPodName s1 = byPodName s /\ ttl s1 = ttl s /\ gen s1 = gen s /\ nodeGen s1 = nodeGen s /\
  byPodIP s1 = byPodIP s /\ ipClaimants s1 = ipClaimants s /\
  byNode s1 = byNode (addToNode (NodeName (ev_pod p)) (UID (ev_pod p)) r
    (if decide (old_node p s = NodeName (ev_pod p)) then s
     else removeFromNodeLocked (old_node p s) (UID (ev_pod p)) s)).
Proof.
  intros Hs. unfold upsert_indexed. destruct (find_or_new (UID (ev_pod p)) s) as [s0 r0] eqn:Hf.
  set (fresh := bool_decide (pods s !! UID (ev_pod p) = None)). cbv zeta.
  set (onode := if fresh then _ else _). set (oids := if fresh then _ else _).
  set (s2 := upd_rec r0 _ s0). set (s3 := indexContainersLocked _ _ _ _ _ _).
  set (s4 := if decide (onode = NodeName (ev_pod p)) then s3 else _). intros [= <- <-].
  assert (exists rec0, recs s0 !! r0 = Some rec0 /\ (forall r', r' <> r0 -> recs s0 !! r' = recs s !! r') /\
    pods s0 = <[UID (ev_pod p) := r0]> (pods s) /\ (forall u, pods s !! u = Some r0 -> u = UID (ev_pod p)) /\
    (r0 < nextRec s0)%nat /\ (nextRec s <= nextRec s0)%nat /\ onode = old_node p s /\
    set_recs ∅ (set_pods ∅ (set_nextRec 0 s0)) = set_recs ∅ (set_pods ∅ (set_nextRec 0 s)))
    as (rec0 & A1 & A2 & A3 & A4 & A5 & A6 & A7 & A8).
  { unfold onode, fresh, old_node, find_or_new in *. destruct (pods s !! UID (ev_pod p)) as [r|] eqn:Hr; simplify_eq.
    - rewrite bool_decide_eq_false_2 by done. destruct (ui_rec _ Hs _ _ Hr) as (rec & Hrec & Hu).
      exists rec. rewrite insert_id by done. repeat split; try done.
      + intros u Hu'. by apply (uid_inj _ u _ _ Hs Hu').
      + by apply (ui_alloc _ Hs _ rec Hrec).
    - rewrite bool_decide_eq_true_2 by done. exists zeroRecord. cbn. rewrite lookup_insert_eq.
      split; [done|]. split; [intros r' Hne; by rewrite lookup_insert_ne|]. split; [done|].
      repeat split; [|lia|lia]. intros u Hu. destruct (ui_rec _ Hs _ _ Hu) as (rec & Hrec & _).
      apply (ui_alloc _ Hs) in Hrec. lia. }
  destruct (indexContainers_fields now r0 (UID (ev_pod p)) (ev_containers p) oids s2) as [B1 B2].
  fold s3 in B1, B2. cbv zeta in B1, B2.
  destruct (clear_cont_fields _ _ B2) as (_&C2&C3&C4&C5&C6&C7&C8&C9&C10). cbn in C2, C3, C4, C5, C6, C7, C8, C9, C10.
  assert (clear_node s4 = clear_node s3) as Hs4.
  { unfold s4. case_decide; [done|apply only_removeFromNode]. }
  destruct (clear_node_fields s3 (addToNode (NodeName (ev_pod p)) (UID (ev_pod p)) r0 s4))
    as (D1&D2&D3&D4&D5&D6&D7&D8&D9&D10&D11); [by rewrite only_addToNode|].
  pose proof (f_equal byPodName A8) as E1. pose proof (f_equal ttl A8) as E2. pose proof (f_equal gen A8) as E3.
  pose proof (f_equal nodeGen A8) as E4. pose proof (f_equal byPodIP A8) as E5.
  pose proof (f_equal ipClaimants A8) as E6. pose proof (f_equal byNode A8) as E7. cbn in E1,E2,E3,E4,E5,E6,E7.
  rewrite D1, D2, D3, D4, D6, D7, D8, D10, D11, B1, C2, C3, C4, C6, C7, C8, C9, C10, A3, E1, E2, E3, E4, E5, E6.
  split.
  { eexists. split; [rewrite lookup_alter_eq; unfold s2, upd_rec; cbn; rewrite lookup_alter_eq, A1; done|]. by split. }
  split.
  { intros r' Hne. rewrite lookup_alter_ne by done. unfold s2, upd_rec. cbn.
    rewrite lookup_alter_ne by done. by apply A2. }
  repeat split; try done. rewrite <- A7. unfold s4.
  assert (byNode s3 = byNode s) as E8 by (by rewrite C5, <- E7).
  clear -E8. unfold addToNode, removeFromNodeLocked. cbn.
  repeat (case_decide; cbn; rewrite ?E8; try done); destruct (byNode s !! onode); cbn; rewrite ?E8; try done;
    case_decide; cbn; by rewrite ?E8.
Qed.

Lemma live_upsert_indexed now p s s1 r :
  uid_inv s -> upsert_indexed now p s = (s1, r) ->
  live s1 = <[UID (ev_pod p) := live_event p]> (live s).
Proof.
  intros Hs He. destruct (upsert_indexed_fields _ _ _ _ _ Hs He) as ((rec & Hrec & Hw & _) & Hr & Hp & Hu & _).
  apply map_eq. intros u. rewrite lookup_live, Hp. destruct (decide (u = UID (ev_pod p))) as [->|Hne].
  - rewrite !lookup_insert_eq. simpl. rewrite Hrec. done.
  - rewrite !lookup_insert_ne, lookup_live by done. destruct (pods s !! u) as [r'|] eqn:Er; simpl; [|done].
    rewrite Hr; [done|]. intros ->. by apply Hne, Hu.
Qed.

Lemma store_inv_upsert_indexed now p s s1 r :
  event_ok p -> store_inv None s -> upsert_indexed now p s = (s1, r) ->
  store_inv (Some (UID (ev_pod p))) s1.
Proof.
  intros [Hev1 Hev2] [Hu Hn Hd Hno Hs Hc] He. pose proof (live_upsert_indexed _ _ _ _ _ Hu He) as Hlive.
  destruct (upsert_indexed_fields _ _ _ _ _ Hu He) as
    ((rec & Hrec & Hw & _) & Hr & Hp & Hinj & Hlt & Hle & Hnm & _ & _ & _ & _ & _ & Hnode).
  apply live_rec_Some in Hw as [Hexp Hw]. injection Hw as Hpod _ _.
  set (uid := UID (ev_pod p)) in *.
  assert (forall u r', u <> uid -> pods s !! u = Some r' -> r' <> r) as Hother.
  { intros u r' Hne Hpu ->. by apply Hne, Hinj. }
  split.
  - split.
    + intros u r'. rewrite Hp, lookup_insert_Some. intros [[<- <-]|[Hne Hpu]].
      * exists rec. split; [done|]. by rewrite <- Hpod.
      * rewrite Hr by (by apply (Hother u)). by apply Hu.
    + intros r' rec' Hrec'. destruct (decide (r' = r)) as [->|Hne]; [done|]. rewrite Hr in Hrec' by done.
      apply (ui_alloc _ Hu) in Hrec'. lia.
  - intros u r' rec'. rewrite Hp, lookup_insert_Some. intros [[<- <-]|[Hne Hpu]].
    + intros. simplify_eq. by rewrite <- Hpod.
    + rewrite Hr by (by apply (Hother u)). by apply Hn.
  - intros u lp. rewrite Hlive, lookup_insert_Some. intros [[_ <-]|[_ Hl]]; [done|by apply (Hd u)].
  - split.
    2:{ rewrite Hnode. apply add_nonempty. case_decide; [apply Hno|apply remove_nonempty, Hno]. }
    intros n u r'. unfold at_node. rewrite Hnode. match goal with |- context [byNode ?x] => fold (at_node x n u) end.
    rewrite at_node_add, Hp, Hlive. destruct (decide (u = uid)) as [->|Hne].
    2:{ rewrite decide_False by tauto. rewrite !lookup_insert_ne by done. rewrite <- (ni_exact _ Hno).
        case_decide; [done|]. rewrite at_node_remove, decide_False by tauto. done. }
    rewrite !lookup_insert_eq. destruct (decide (NodeName (ev_pod p) = n /\ n <> ""%string /\ uid = uid)) as [(En & Hn0 & _)|Hdec].
    { split; [intros [= <-]; by eauto 6|]. by intros (_ & [= ->] & _). }
    split; [|intros (Hn0 & _ & lp & [= <-] & En); by destruct Hdec].
    intros Hat. exfalso. assert (at_node s n uid = Some r' /\ (old_node p s = n -> old_node p s = NodeName (ev_pod p)))
      as [Hat' Hon].
    { case_decide; [done|]. rewrite at_node_remove in Hat. case_decide as Hd2; [done|]. split; [done|].
      intros E. destruct Hd2. split; [done|]. split; [|done]. intros E0.
      apply (ni_exact _ Hno) in Hat as [? _]. done. }
    apply (ni_exact _ Hno) in Hat' as (Hn0 & Hpu & lp & Hl & En).
    apply lookup_live_Some in Hl as (r2 & rec2 & Hr2 & Hrec2 & [_ ->]%live_rec_Some).
    assert (old_node p s = n) as Ho.
    { unfold old_node. fold uid. rewrite Hr2. unfold rec_at. by rewrite Hrec2. }
    apply Hdec. split; [|done]. by rewrite <- Hon.
  - intros k r'. rewrite Hnm. intros (u & rec' & Hpu & Hrec' & Hk)%Hs. rewrite Hp.
    destruct (decide (u = uid)) as [->|Hne].
    + exists uid. pose proof (Hn _ _ _ Hpu Hrec') as E.
      destruct (decide (r' = r)) as [->|Hne].
      * exists rec. rewrite lookup_insert_eq. repeat split; try done. rewrite <- Hpod. congruence.
      * exfalso. unfold upsert_indexed in He. destruct (find_or_new _ s) as [s0 r0] eqn:Hf.
        injection He as _ <-. unfold find_or_new in Hf. fold uid in Hf. rewrite Hpu in Hf. congruence.
    + exists u, rec'. rewrite lookup_insert_ne by done. rewrite Hr by (by apply (Hother u)). done.
  - intros u lp Hne. rewrite Hlive, Hp, Hnm. rewrite !lookup_insert_ne by congruence.
    intros Hl. by apply Hc.
Qed.

(** ** Upsert, the name index *)

Lemma claimName_spec now p r s :
  let uid := UID (ev_pod p) in
  0 < now -> event_ok p -> store_inv (Some uid) s -> pods s !! uid = Some r ->
  store_inv None (claimName now (ev_pod p) r s) /\
  live (claimName now (ev_pod p) r s) =
    filter (fun kv => kv.1 = uid \/ nameKey (lp_pod kv.2) <> nameKey (ev_pod p)) (live s).
Proof.
  intros uid Hnow [Hev1 Hev2] Hinv Hr. set (k := nameKey (ev_pod p)) in *. pose proof Hinv as [Hu Hn Hd Hno Hs Hc].
  assert (forall u lp, live s !! u = Some lp -> exists r', pods s !! u = Some r') as Hlp.
  { intros u lp (r' & _ & ? & _)%lookup_live_Some. eauto. }
  assert (forall s2, store_inv (Some uid) s2 -> pods s2 !! uid = Some r ->
    (forall u lp, u <> uid -> live s2 !! u = Some lp -> nameKey (lp_pod lp) <> k) ->
    store_inv None (set_byPodName (<[k := r]> (byPodName s2)) s2)) as Hset.
  { intros s2 [Hu2 Hn2 Hd2 Hno2 Hs2 Hc2] Hr2 Hfree. split; [by destruct Hu2|done|done|by destruct Hno2| |].
    - intros k' r'. cbn. rewrite lookup_insert_Some. intros [[<- <-]|[_ Hk']]; [|by apply Hs2].
      destruct (ui_rec _ Hu2 _ _ Hr2) as (rec & Hrec & _). exists uid, rec. split; [done|]. split; [done|].
      rewrite (Hn2 _ _ _ Hr2 Hrec). done.
    - intros u lp _ Hl. cbn. change (live s2 !! u = Some lp) in Hl. destruct (decide (u = uid)) as [->|Hne].
      + assert (nameKey (lp_pod lp) = k) as ->; [|by rewrite lookup_insert_eq].
        apply lookup_live_Some in Hl as (r2 & rec & Hr2' & Hrec & [_ ->]%live_rec_Some). cbn.
        rewrite (Hn2 _ _ _ Hr2' Hrec). done.
      + rewrite lookup_insert_ne by (intros E; by apply (Hfree u lp)). apply Hc2; congruence. }
  unfold claimName. fold k.
  assert (forall u lp, u <> uid -> live s !! u = Some lp -> nameKey (lp_pod lp) = k ->
    byPodName s !! k = pods s !! u) as Hk by (intros u lp Hne Hl <-; apply Hc; congruence).
  assert ((forall u lp, u <> uid -> live s !! u = Some lp -> nameKey (lp_pod lp) <> k) ->
    filter (fun kv => kv.1 = uid \/ nameKey (lp_pod kv.2) <> k) (live s) = live s) as Hid.
  { intros Hf. apply map_filter_id. intros u lp Hl. simpl. destruct (decide (u = uid)); [by left|right]. eauto. }
  destruct (byPodName s !! k) as [prev|] eqn:Hprev.
  2:{ assert (forall u lp, u <> uid -> live s !! u = Some lp -> nameKey (lp_pod lp) <> k) as Hf.
      { intros u lp Hne Hl E. destruct (Hlp _ _ Hl) as [r' Hr']. pose proof (Hk u lp Hne Hl E). congruence. }
      split; [by apply Hset|]. by rewrite Hid. }
  destruct (Hs _ _ Hprev) as (pu & prec & Hpu & Hprec & Hpk).
  destruct (ui_rec _ Hu _ _ Hpu) as (prec' & Hprec' & Hpuid). simplify_eq.
  unfold rec_at. rewrite Hprec. simpl.
  destruct (bool_decide (prev <> r) && is_zero (expireAt prec)) eqn:Hg.
  - apply andb_true_iff in Hg as [Hne%bool_decide_eq_true Hlv%bool_decide_eq_true].
    set (pu := UID (pod prec)) in *. set (s0 := set_nameReused _ s).
    assert (store_inv (Some uid) s0) as Hinv0 by (split; [by destruct Hu|done|done|by destruct Hno|done|done]).
    pose proof (store_inv_deletePod now pu _ s0 Hnow Hinv0) as Hinv2.
    assert (live (deletePodLocked now pu s0) = delete pu (live s)) as Hl2
      by exact (live_deletePod now pu s0 Hnow (si_uid _ _ Hinv0)).
    assert (pu <> uid) as Hpne by congruence.
    assert (pods (deletePodLocked now pu s0) !! uid = Some r) as Hr2.
    { destruct (deletePod_fields now pu prev s0 Hpu) as (_&_&E3&_). rewrite E3.
      case_decide; [rewrite lookup_delete_ne by done|]; exact Hr. }
    split.
    + apply Hset; [done|done|]. intros u lp Hne'. rewrite Hl2, lookup_delete_Some. intros [Hne2 Hl] E.
      pose proof (Hk u lp Hne' Hl E) as Hpe. apply Hne2. symmetry. by apply (uid_inj s u pu prev).
    + change (live (set_byPodName ?a ?b)) with (live b). rewrite Hl2. apply map_eq. intros u. rewrite map_lookup_filter.
      destruct (decide (u = pu)) as [->|Hne2].
      * rewrite lookup_delete_eq. destruct (live s !! pu) as [lp|] eqn:El; [|done]. simpl.
        rewrite option_guard_False; [done|]. simpl. intros [?|Hnk]; [done|]. apply Hnk.
        apply lookup_live_Some in El as (r2 & rec & Hr2' & Hrec & [_ ->]%live_rec_Some). cbn. congruence.
      * rewrite lookup_delete_ne by done. destruct (live s !! u) as [lp|] eqn:El; [|done]. simpl.
        rewrite option_guard_True; [done|]. simpl. destruct (decide (u = uid)) as [|Hne3]; [by left|right].
        intros E. pose proof (Hk u lp Hne3 El E) as Hpe. apply Hne2. by apply (uid_inj s u pu prev).
  - assert (forall u lp, u <> uid -> live s !! u = Some lp -> nameKey (lp_pod lp) <> nameKey (ev_pod p)) as Hf.
    { intros u lp Hne Hl E. pose proof (Hk u lp Hne Hl E) as Hpe. apply andb_false_iff in Hg as [Hg|Hg].
      - apply bool_decide_eq_false, dec_stable in Hg as ->. by apply Hne, (uid_inj s u uid r).
      - apply lookup_live_Some in Hl as (r2 & rec & Hr2' & Hrec & [He _]%live_rec_Some). rewrite Hr2' in Hpe. simplify_eq.
        unfold is_zero in Hg. rewrite He in Hg. by rewrite bool_decide_eq_true_2 in Hg. }
    split; [by apply Hset|]. by rewrite Hid.
Qed.

(** ** The rest of an upsert, and the sweep *)

Lemma store_inv_ext ex s s' :
  recs s' = recs s -> nextRec s' = nextRec s -> pods s' = pods s -> byNode s' = byNode s ->
  byPodName s' = byPodName s -> store_inv ex s -> store_inv ex s' /\ live s' = live s.
Proof.
  intros E1 E2 E3 E4 E5 [Hu Hn Hd Hno Hs Hc]. assert (live s' = live s) as El by (unfold live; congruence).
  split; [|done]. split; rewrite ?El, ?E1, ?E3; try done.
  - split; rewrite ?E1, ?E2, ?E3; apply Hu.
  - split; unfold at_node; rewrite ?E3, ?E4, ?El; apply Hno.
  - unfold name_sound. rewrite E1, E3, E5. apply Hs.
  - unfold name_complete. rewrite El, E3, E5. apply Hc.
Qed.

Lemma store_inv_recSeq ex s q r :
  let s' := set_recs (alter (set_recSeq q) r (recs s)) s in
  store_inv ex s -> store_inv ex s' /\ live s' = live s.
Proof.
  intros s' [Hu Hn Hd Hno Hs Hc].
  assert (forall r' rec, recs s !! r' = Some rec -> exists rec', recs s' !! r' = Some rec' /\ pod rec' = pod rec /\
    live_rec rec' = live_rec rec) as Hf.
  { intros r' rec Hrec. cbn. destruct (decide (r = r')) as [->|]; [rewrite lookup_alter_eq, Hrec; simpl; by eauto|].
    rewrite lookup_alter_ne by done. eauto. }
  assert (forall r' rec', recs s' !! r' = Some rec' -> exists rec, recs s !! r' = Some rec /\ pod rec = pod rec') as Hb.
  { intros r' rec'. cbn. destruct (decide (r = r')) as [->|]; [|rewrite lookup_alter_ne by done; eauto].
    rewrite lookup_alter_eq. destruct (recs s !! r') as [rec|]; [|done]. intros [= <-]. eauto. }
  assert (live s' = live s) as El.
  { apply map_eq. intros u. rewrite !lookup_live. destruct (pods s !! u) as [r'|] eqn:Er; cbn -[recs].
    2:{ change (pods s') with (pods s). by rewrite Er. }
    change (pods s') with (pods s). rewrite Er. cbn -[s'].
    destruct (ui_rec _ Hu _ _ Er) as (rec & Hrec & _). destruct (Hf _ _ Hrec) as (rec' & Hrec' & _ & E).
    by rewrite Hrec, Hrec'. }
  split; [|done]. split.
  - split.
    + intros u r' Hp. destruct (ui_rec _ Hu _ _ Hp) as (rec & Hrec & <-).
      destruct (Hf _ _ Hrec) as (rec' & ? & <- & _). eauto.
    + intros r' rec' (rec & Hrec & _)%Hb. by apply (ui_alloc _ Hu _ rec).
  - intros u r' rec' Hp (rec & Hrec & <-)%Hb. by apply (Hn _ r').
  - rewrite El. apply Hd.
  - split; [|apply Hno]. intros n u r'. rewrite El. apply Hno.
  - intros k r' (u & rec & Hp & Hrec & <-)%Hs. destruct (Hf _ _ Hrec) as (rec' & ? & <- & _). eauto.
  - intros u lp. rewrite El. apply Hc.
Qed.

Lemma store_inv_claimPodIP ex r p old ne s :
  store_inv ex s ->
  store_inv ex (claimPodIPLocked r p old ne s) /\ live (claimPodIPLocked r p old ne s) = live s.
Proof.
  intros Hinv. destruct (claimPodIP_fields r p old ne s) as [[q Hq] Hc]. cbv zeta in Hq, Hc.
  destruct (clear_ip_fields _ _ Hc) as (_&E2&E3&E4&E5&E6&E7&_). cbn in E2, E3, E4, E5, E6, E7.
  destruct (store_inv_recSeq ex s q r Hinv) as [Hi El].
  destruct (store_inv_ext ex (set_recs (alter (set_recSeq q) r (recs s)) s)
    (claimPodIPLocked r p old ne s) Hq E2 E3 E6 E7 Hi) as [Hi' El'].
  split; [done|]. congruence.
Qed.

Lemma store_inv_bump ex l s :
  store_inv ex s -> store_inv ex (bumpLocked l s) /\ live (bumpLocked l s) = live s.
Proof.
  destruct (clear_gen_fields s (bumpLocked l s) (only_bump l s)) as (E1&E2&E3&E4&E5&E6&E7&E8&E9&E10).
  by apply store_inv_ext.
Qed.

Lemma store_inv_removeRecord r uid s :
  pods s !! uid = Some r -> live s !! uid = None -> store_inv None s ->
  store_inv None (removeRecordLocked r uid s) /\ live (removeRecordLocked r uid s) = live s.
Proof.
  intros Hr Hdead [Hu Hn Hd Hno Hs Hc].
  destruct (removeRecord_fields r uid s) as (E1&E2&E3&E4&E5&E6&E7&E8&E9&E10).
  set (s' := removeRecordLocked r uid s) in *. cbv zeta in *.
  assert (live s' = live s) as El.
  { unfold live, live_of. rewrite E1, E3, omap_delete. by apply delete_id. }
  assert (forall u r', pods s' !! u = Some r' <-> u <> uid /\ pods s !! u = Some r') as Hp.
  { intros u r'. rewrite E3, lookup_delete_Some. naive_solver. }
  assert (forall k, k <> nameKey (pod (rec_at s r)) \/ byPodName s !! k <> Some r -> byPodName s' !! k = byPodName s !! k) as Hnk.
  { intros k Hk. rewrite E6. unfold dropNameIndexLocked. case_decide as Hd'; [|done]. cbn.
    apply lookup_delete_ne. intros <-. by destruct Hk. }
  destruct (ui_rec _ Hu _ _ Hr) as (rec & Hrec & Hru).
  split; [|done]. split; rewrite ?El; try done.
  - split; [intros u r' [_ Hp']%Hp; rewrite E1; by apply Hu|intros r' rec'; rewrite E1, E2; apply Hu].
  - intros u r' rec' [_ Hp']%Hp. rewrite E1. by apply Hn.
  - split; [|rewrite E5; apply Hno]. intros n u r'. unfold at_node. rewrite E5, El. rewrite Hp.
    rewrite (ni_exact _ Hno n u r'). split; [|naive_solver].
    intros (? & ? & lp & Hl & ?). repeat split; try done; [congruence|by eauto].
  - intros k r' Hk. assert (byPodName s !! k = Some r' /\ r' <> r) as [Hk' Hne].
    { rewrite E6 in Hk. unfold dropNameIndexLocked in Hk. case_decide as Hd'; cbn in Hk.
      - apply lookup_delete_Some in Hk as [Hne Hk]. split; [done|]. intros ->.
        destruct (Hs _ _ Hk) as (u & rec' & _ & Hrec' & <-). unfold rec_at in Hne. by rewrite Hrec' in Hne.
      - split; [done|]. intros ->. destruct (Hs _ _ Hk) as (u & rec' & _ & Hrec' & <-).
        unfold rec_at in Hd'. by rewrite Hrec' in Hd'. }
    destruct (Hs _ _ Hk') as (u & rec' & Hpu & Hrec' & Hkey). exists u, rec'. rewrite Hp, E1.
    repeat split; try done. intros ->. congruence.
  - intros u lp Hne Hl. rewrite El in Hl. rewrite Hnk; [rewrite E3, lookup_delete_ne by congruence; by apply Hc|].
    right. rewrite (Hc u lp Hne Hl). intros Hpu. assert (u = uid) as -> by (by apply (uid_inj s _ _ r)). congruence.
Qed.

Lemma store_inv_sweep_one now s d :
  store_inv None s -> store_inv None (sweep_one now s d) /\ live (sweep_one now s d) = live s.
Proof.
  intros Hinv. unfold sweep_one. destruct (isPod d).
  2:{ destruct (clear_cont_fields s (sweepContainerLocked now (p_id d) s)) as (E1&E2&E3&E4&E5&E6&_);
        [apply only_sweepContainer|]. by apply store_inv_ext. }
  unfold sweepPodLocked. destruct (pods s !! p_uid d) as [r|] eqn:Hr; [|done].
  destruct (expired _ _) eqn:He; [|done]. cbv zeta. set (s1 := foldl _ s _).
  destruct (clear_ip_fields s s1) as (E1&E2&E3&E4&E5&E6&E7&_).
  { apply (only_foldl clear_ip (fun s ip => dropClaimantLocked ip r s)). intros ip. apply only_dropClaimant. }
  destruct (store_inv_ext None s s1 E1 E2 E3 E6 E7 Hinv) as [Hi El].
  destruct (store_inv_removeRecord r (p_uid d) s1) as [Hi' El']; [congruence| |done|split; [done|congruence]].
  rewrite El, lookup_live, Hr. simpl. unfold rec_at in He. destruct (recs s !! r) as [rec|]; [|done].
  simpl in *. unfold live_rec. apply andb_true_iff in He as [He%negb_true_iff _]. by rewrite He.
Qed.

Lemma store_inv_sweep now s :
  store_inv None s -> store_inv None (sweep now s) /\ live (sweep now s) = live s.
Proof.
  intros Hinv. unfold sweep. destruct (due_prefix now (pending s)) as [|d l]; [done|].
  set (dl := d :: l). clearbody dl.
  assert (store_inv None (foldl (sweep_one now) s dl) /\ live (foldl (sweep_one now) s dl) = live s) as [Hi El].
  { revert s Hinv. induction dl as [|a dl IH]; intros s Hinv; simpl; [done|].
    destruct (store_inv_sweep_one now s a Hinv) as [Hi El]. rewrite <- El. by apply IH. }
  set (s2 := foldl (sweep_one now) s dl) in *. set (pe := drop _ _).
  destruct (store_inv_ext None s2 (set_pending pe s2)) as [Hi2 El2]; try done.
  destruct (store_inv_bump None [] _ Hi2) as [Hi3 El3]. split; [done|]. congruence.
Qed.

(** ** The refinement *)

Lemma spec_put_eq p s s1 :
  live s1 = <[UID (ev_pod p) := live_event p]> (live s) ->
  filter (fun kv => kv.1 = UID (ev_pod p) \/ nameKey (lp_pod kv.2) <> nameKey (ev_pod p)) (live s1)
  = spec_put p (live s).
Proof.
  intros ->. unfold spec_put. apply map_eq. intros u. rewrite map_lookup_filter.
  destruct (decide (u = UID (ev_pod p))) as [->|Hne].
  - rewrite lookup_insert_eq. transitivity (Some (live_event p)); [|symmetry; apply lookup_insert_eq].
    simpl. rewrite option_guard_True; [done|]. by left.
  - rewrite lookup_insert_ne by done. rewrite lookup_insert_ne, map_lookup_filter by done.
    destruct (live s !! u); simpl; [|done].
    apply option_guard_iff. simpl. tauto.
Qed.

Lemma unchanged_spec p s : uid_inv s ->
  (if unchangedLocked s p then live s else spec_put p (live s)) = spec_upsert p (live s).
Proof.
  intros Hu. unfold unchangedLocked, spec_upsert. rewrite lookup_live.
  destruct (pods s !! UID (ev_pod p)) as [r|] eqn:Hr; [|done].
  destruct (ui_rec _ Hu _ _ Hr) as (rec & Hrec & _). unfold rec_at. rewrite Hrec. simpl. rewrite Hrec. simpl.
  unfold live_rec. destruct (is_zero (expireAt rec)); [|done]. simpl. done.
Qed.

Lemma upsert_refines now p s :
  0 < now -> event_ok p -> store_inv None s ->
  store_inv None (upsertLocked now p s) /\ live (upsertLocked now p s) = spec_upsert p (live s).
Proof.
  intros Hnow Hev Hinv. rewrite <- (unchanged_spec p s) by apply Hinv. unfold upsertLocked.
  destruct (unchangedLocked s p); [by apply store_inv_bump|]. rewrite upsert_body_eq.
  destruct (upsert_indexed now p s) as [s1 r] eqn:He.
  pose proof (store_inv_upsert_indexed now p s s1 r Hev Hinv He) as Hi1.
  pose proof (live_upsert_indexed now p s s1 r (si_uid _ _ Hinv) He) as El1.
  destruct (upsert_indexed_fields now p s s1 r (si_uid _ _ Hinv) He) as (_&_&Hp&_).
  destruct (claimName_spec now p r s1 Hnow Hev Hi1) as [Hi2 El2]; [by rewrite Hp, lookup_insert_eq|].
  destruct (store_inv_claimPodIP None r (ev_pod p) (old_ips p s) (first_term p s) _ Hi2) as [Hi3 El3].
  destruct (store_inv_bump None [old_node p s; NodeName (ev_pod p)] _ Hi3) as [Hi4 El4].
  split; [exact Hi4|]. rewrite El4, El3, El2. by apply spec_put_eq.
Qed.

(** ** Runs of the public operations *)

Inductive op :=
| OpUpsert (p : PodEvent)
| OpDelete (uid : string)
| OpSweep
| OpDrain
| OpTryPark
| OpUnpark.

Definition apply_op (s : Store) (t : Z * op) : Store :=
  match t.2 with
  | OpUpsert p => UpsertPod t.1 p s
  | OpDelete uid => DeletePod t.1 uid s
  | OpSweep => sweep t.1 s
  | OpDrain => (Drain s).1
  | OpTryPark => (TryPark s).1
  | OpUnpark => Unpark s
  end.

Definition spec_op (m : spec) (t : Z * op) : spec :=
  match t.2 with
  | OpUpsert p => spec_upsert p m
  | OpDelete uid => spec_delete uid m
  | _ => m
  end.

(** The clock reads after the epoch; events are the informer's. *)
Definition op_ok (t : Z * op) : Prop :=
  0 < t.1 /\ match t.2 with OpUpsert p => event_ok p | _ => True end.

Definition run (s : Store) (ops : list (Z * op)) : Store := foldl apply_op s ops.

Lemma op_refines s t : op_ok t -> store_inv None s ->
  store_inv None (apply_op s t) /\ live (apply_op s t) = spec_op (live s) t.
Proof.
  destruct t as [now [p|uid| | | |]]; intros [Hnow Hev] Hinv; cbn [fst snd] in *; unfold apply_op, spec_op; cbn [fst snd].
  - unfold UpsertPod, resyncNoOp. destruct (unchangedLocked s p) eqn:Hun; [|by apply upsert_refines].
    split; [done|]. rewrite <- (unchanged_spec p s) by apply Hinv. by rewrite Hun.
  - split; [by apply store_inv_deletePod|]. apply live_deletePod; [done|apply Hinv].
  - by apply store_inv_sweep.
  - unfold Drain. destruct (draining s); [done|]. set (l := elements _). set (s0 := set_draining true s).
    destruct (store_inv_ext None s s0) as [Hi0 El0]; try done. rewrite <- El0. clearbody s0 l. clear Hinv El0 s.
    generalize 0. intros z. revert Hi0.
    assert (clear_cont (foldr (fun id acc => let '(s, n) := acc in let '(s', k) := wakeLocked id s in (s', n + k)) (s0, z) l).1
      = clear_cont s0) as Hc.
    { induction l as [|id l IH]; simpl; [done|]. destruct (foldr _ _ _) as [s1 n1]. simpl in IH.
      pose proof (only_wake id s1) as Hw. cbv beta in Hw. destruct (wakeLocked id s1) as [s2 n2]. simpl in *. congruence. }
    destruct (clear_cont_fields _ _ Hc) as (E1&E2&E3&E4&E5&E6&_). by apply store_inv_ext.
  - unfold TryPark. case_decide; by apply store_inv_ext.
  - unfold Unpark. case_decide; [by apply store_inv_ext|done].
Qed.

Lemma run_inv t m ops : Forall op_ok ops ->
  store_inv None (run (New t m) ops) /\ live (run (New t m) ops) = foldl spec_op ∅ ops.
Proof.
  intros Hok. unfold run. pose proof (store_inv_New t m) as H0.
  assert (live (New t m) = ∅) as <- by done. revert H0. generalize (New t m) as s.
  induction Hok as [|o ops Ho Hok IH]; intros s Hs; simpl; [done|].
  destruct (op_refines s o Ho Hs) as [Hi El]. rewrite <- El. by apply IH.
Qed.

(** ** The change tokens *)

Lemma node_view_spec s n : store_inv None s -> n <> ""%string -> node_view s n = spec_on_node n (live s).
Proof.
  intros Hinv Hn. apply map_eq. intros u. unfold node_view, spec_on_node. rewrite !lookup_fmap, map_lookup_filter.
  assert (default ∅ (byNode s !! n) !! u = at_node s n u) as -> by (unfold at_node; by destruct (byNode s !! n)).
  destruct (at_node s n u) as [r|] eqn:Hat.
  - apply (ni_exact _ (si_node _ _ Hinv)) in Hat as (_ & Hp & lp & Hl & Hnode). rewrite Hl. simpl.
    rewrite option_guard_True by done. simpl.
    apply lookup_live_Some in Hl as (r' & rec & Hr' & Hrec & [_ ->]%live_rec_Some). simplify_eq.
    unfold node_pod, rec_at. by rewrite Hrec.
  - destruct (live s !! u) as [lp|] eqn:Hl; [|done]. simpl.
    destruct (decide (NodeName (lp_pod lp) = n)) as [Hnode|Hnode]; [|by rewrite option_guard_False].
    pose proof Hl as (r & _ & Hp & _)%lookup_live_Some. assert (at_node s n u = Some r) as Hat'; [|congruence].
    apply (ni_exact _ (si_node _ _ Hinv)). eauto.
Qed.

Definition gen_ok (s : Store) : Prop := forall n g, nodeGen s !! n = Some g -> g <= gen s.

Lemma NodeGeneration_le s n : gen_ok s -> NodeGeneration s n <= gen s.
Proof. intros Hg. unfold NodeGeneration. destruct (nodeGen s !! n) eqn:E; simpl; [by apply (Hg n)|lia]. Qed.

Lemma bump_token l s :
  gen_ok s -> gen_ok (bumpLocked l s) /\
  forall n, NodeGeneration s n <= NodeGeneration (bumpLocked l s) n /\
    (n <> ""%string -> n ∈ l -> NodeGeneration s n < NodeGeneration (bumpLocked l s) n).
Proof.
  intros Hg. set (g := gen s + 1).
  assert (gen (bumpLocked l s) = g /\ forall n,
    (nodeGen (bumpLocked l s) !! n = nodeGen s !! n /\ (n = ""%string \/ n ∉ l)) \/
    nodeGen (bumpLocked l s) !! n = Some g \/ nodeGen (bumpLocked l s) !! n = None) as [Hgen Hn].
  { split; [apply gen_bump|]. unfold bumpLocked. fold g. change (nodeGen s) with (nodeGen (set_gen g s)).
    generalize (set_gen g s). clear. induction l as [|m l IH]; intros s' n; simpl.
    { left. split; [done|]. right. apply not_elem_of_nil. }
    destruct (IH (stamp_node g s' m) n) as [[E Hnot]|?]; [|by right]. rewrite E. unfold stamp_node.
    destruct (decide (m = "")%string) as [->|Hm].
    { left. split; [done|]. rewrite not_elem_of_cons. destruct (decide (n = ""%string)); tauto. }
    destruct (decide (n = m)) as [->|Hne].
    - right. case_decide; cbn; [left; apply lookup_insert_eq|right; apply lookup_delete_eq].
    - left. split; [|rewrite not_elem_of_cons; tauto]. case_decide; cbn; [by rewrite lookup_insert_ne|by rewrite lookup_delete_ne]. }
  assert (forall n, NodeGeneration s n < g) as Hlt.
  { intros n. pose proof (NodeGeneration_le s n Hg). lia. }
  split.
  - intros n g'. rewrite Hgen. destruct (Hn n) as [[-> _]|[->| ->]]; [|intros [= <-]; lia|done].
    intros E. specialize (Hg n g' E). lia.
  - intros n. specialize (Hlt n). unfold NodeGeneration at 2 4. rewrite Hgen.
    destruct (Hn n) as [[E Hnot]|[->| ->]]; simpl; [|by split; intros; lia..].
    rewrite E. split; [|tauto]. unfold NodeGeneration. destruct (nodeGen s !! n) eqn:Eg; simpl; [lia|].
    unfold NodeGeneration in Hlt. rewrite Eg in Hlt. simpl in Hlt. lia.
Qed.

(** From [s] to [s'] no token goes back, and the token of every node whose
    served pods differ has grown. *)
Definition token_step (s s' : Store) : Prop :=
  gen_ok s' /\ forall n, NodeGeneration s n <= NodeGeneration s' n /\
    (n <> ""%string -> spec_on_node n (live s') <> spec_on_node n (live s) ->
     NodeGeneration s n < NodeGeneration s' n).

Lemma token_same s s' : gen_ok s -> gen s' = gen s -> nodeGen s' = nodeGen s -> live s' = live s -> token_step s s'.
Proof.
  intros Hg E1 E2 El. split; [intros n g; rewrite E1, E2; apply Hg|]. intros n. unfold NodeGeneration.
  rewrite E1, E2, El. split; [lia|done].
Qed.

Lemma spec_on_node_insert n uid lp m :
  NodeName (lp_pod lp) <> n -> (forall lp', m !! uid = Some lp' -> NodeName (lp_pod lp') <> n) ->
  spec_on_node n (<[uid := lp]> m) = spec_on_node n m.
Proof.
  intros H1 H2. unfold spec_on_node. f_equal. rewrite map_filter_insert_False by done.
  apply map_eq. intros u. rewrite !map_lookup_filter. destruct (decide (u = uid)) as [->|].
  - rewrite lookup_delete_eq. destruct (m !! uid) eqn:E; [|done]. simpl. rewrite option_guard_False; [done|]. eauto.
  - by rewrite lookup_delete_ne.
Qed.

Lemma spec_on_node_delete n uid m :
  (forall lp, m !! uid = Some lp -> NodeName (lp_pod lp) <> n) ->
  spec_on_node n (delete uid m) = spec_on_node n m.
Proof.
  intros H1. unfold spec_on_node. f_equal.
  apply map_eq. intros u. rewrite !map_lookup_filter. destruct (decide (u = uid)) as [->|].
  - rewrite lookup_delete_eq. destruct (m !! uid) eqn:E; [|done]. simpl. rewrite option_guard_False; [done|]. eauto.
  - by rewrite lookup_delete_ne.
Qed.

Lemma deletePod_bump now uid r s : pods s !! uid = Some r ->
  exists s3, gen s3 = gen s /\ nodeGen s3 = nodeGen s /\
    deletePodLocked now uid s = bumpLocked [NodeName (pod (rec_at s r))] s3.
Proof.
  intros Hr. unfold deletePodLocked. rewrite Hr. cbv zeta. set (node := NodeName _).
  set (s1 := removeFromNodeLocked node uid s). set (s2 := foldl _ s1 _). set (s3 := if decide (ttl s2 <= 0) then _ else _).
  destruct (clear_node_fields s s1) as (_&_&_&_&_&_&_&_&_&A10&A11); [apply only_removeFromNode|].
  destruct (clear_ip_fields s1 s2) as (_&_&_&_&_&_&_&_&B9&B10).
  { apply (only_foldl clear_ip (fun s ip => releaseIPLocked r ip s)). intros ip. apply only_releaseIP. }
  exists s3. split; [|split; [|done]]; unfold s3; case_decide.
  - destruct (removeRecord_fields r uid s2) as (_&_&_&_&_&_&_&_&E&_). cbv zeta in E. congruence.
  - set (s4 := stampLocked _ _). destruct (clear_cont_fields s4 (foldr (tombstone_entry uid (now + ttl s2)) s4
      (elements (containerIDs (rec_at s4 r))))) as (_&_&_&_&_&_&_&_&E&_);
      [apply (only_foldr clear_cont (tombstone_entry uid _)), only_tombstone_entry|].
    rewrite E. unfold s4. cbn. congruence.
  - destruct (removeRecord_fields r uid s2) as (_&_&_&_&_&_&_&_&_&E). cbv zeta in E. congruence.
  - set (s4 := stampLocked _ _). destruct (clear_cont_fields s4 (foldr (tombstone_entry uid (now + ttl s2)) s4
      (elements (containerIDs (rec_at s4 r))))) as (_&_&_&_&_&_&_&_&_&E);
      [apply (only_foldr clear_cont (tombstone_entry uid _)), only_tombstone_entry|].
    rewrite E. unfold s4. cbn. congruence.
Qed.

Lemma token_bump l s s' : gen_ok s -> gen s' = gen s -> nodeGen s' = nodeGen s ->
  (forall n, n <> ""%string -> n ∉ l -> spec_on_node n (live s') = spec_on_node n (live s)) ->
  token_step s (bumpLocked l s').
Proof.
  intros Hg E1 E2 Hsame.
  assert (gen_ok s') as Hg' by (intros n g; rewrite E1, E2; apply Hg).
  destruct (bump_token l s' Hg') as [Hgb Hb]. split; [done|]. intros n. destruct (Hb n) as [Hle Hlt].
  assert (NodeGeneration s' n = NodeGeneration s n) as <- by (unfold NodeGeneration; by rewrite E1, E2).
  split; [done|]. intros Hn Hneq. apply Hlt; [done|].
  assert (live (bumpLocked l s') = live s') as El.
  { destruct (clear_gen_fields s' _ (only_bump l s')) as (F1&_&F3&_). unfold live. congruence. }
  destruct (decide (n ∈ l)); [done|]. destruct Hneq. rewrite El. by apply Hsame.
Qed.

Lemma token_deletePod now uid s :
  0 < now -> uid_inv s -> gen_ok s -> token_step s (deletePodLocked now uid s).
Proof.
  intros Hnow Hu Hg. destruct (pods s !! uid) as [r|] eqn:Hr.
  2:{ rewrite deletePod_absent by done. by apply token_same. }
  destruct (deletePod_bump now uid r s Hr) as (s3 & E1 & E2 & E). rewrite E. apply token_bump; try done.
  intros n Hn Hnot. assert (live s3 = delete uid (live s)) as ->.
  { rewrite <- (live_deletePod now uid s Hnow Hu), E.
    destruct (clear_gen_fields s3 _ (only_bump [NodeName (pod (rec_at s r))] s3)) as (F1&_&F3&_).
    unfold live. congruence. }
  apply spec_on_node_delete. intros lp (r' & rec & Hr' & Hrec & [_ ->]%live_rec_Some)%lookup_live_Some.
  simplify_eq. unfold rec_at in Hnot. rewrite Hrec in Hnot. set_solver.
Qed.

Lemma token_claimName now p r s :
  0 < now -> uid_inv s -> gen_ok s -> token_step s (claimName now p r s).
Proof.
  intros Hnow Hu Hg. unfold claimName. destruct (byPodName s !! nameKey p) as [prev|]; [|by apply token_same].
  destruct (_ && _); [|by apply token_same].
  set (s0 := set_nameReused _ s). assert (uid_inv s0) as Hu0 by (by destruct Hu).
  destruct (token_deletePod now (UID (pod (rec_at s prev))) s0 Hnow Hu0 Hg) as [Ha Hb]. by split.
Qed.

Lemma token_upsert now p s :
  0 < now -> event_ok p -> store_inv None s -> gen_ok s -> token_step s (upsertLocked now p s).
Proof.
  intros Hnow Hev Hinv Hg. unfold upsertLocked. destruct (unchangedLocked s p); [by apply token_bump|].
  rewrite upsert_body_eq. destruct (upsert_indexed now p s) as [s1 r] eqn:He.
  pose proof (store_inv_upsert_indexed now p s s1 r Hev Hinv He) as Hi1.
  pose proof (live_upsert_indexed now p s s1 r (si_uid _ _ Hinv) He) as El1.
  destruct (upsert_indexed_fields now p s s1 r (si_uid _ _ Hinv) He) as (_&_&Hp&_&_&_&_&_&Eg1&Eg2&_).
  assert (gen_ok s1) as Hg1 by (intros n g; rewrite Eg1, Eg2; apply Hg).
  destruct (token_claimName now (ev_pod p) r s1 Hnow (si_uid _ _ Hi1) Hg1) as [Hg2 Ht2].
  destruct (claimName_spec now p r s1 Hnow Hev Hi1) as [Hi2 El2]; [by rewrite Hp, lookup_insert_eq|].
  set (s2 := claimName now (ev_pod p) r s1) in *.
  destruct (claimPodIP_fields r (ev_pod p) (old_ips p s) (first_term p s) s2) as [_ Hc].
  cbv zeta in Hc. set (s3 := claimPodIPLocked _ _ _ _ s2) in *.
  destruct (clear_ip_fields _ _ Hc) as (_&_&_&_&_&_&_&_&Eg3&Eg4). cbn in Eg3, Eg4.
  destruct (store_inv_claimPodIP None r (ev_pod p) (old_ips p s) (first_term p s) s2 Hi2) as [_ El3]. fold s3 in El3.
  assert (gen_ok s3) as Hg3 by (intros n g; rewrite Eg3, Eg4; apply Hg2).
  destruct (bump_token [old_node p s; NodeName (ev_pod p)] s3 Hg3) as [Hg4 Hb].
  split; [done|]. intros n. destruct (Hb n) as [Hle3 Hlt3], (Ht2 n) as [Hle2 Hlt2].
  assert (NodeGeneration s3 n = NodeGeneration s2 n) as E32 by (unfold NodeGeneration; by rewrite Eg3, Eg4).
  assert (NodeGeneration s1 n = NodeGeneration s n) as E10 by (unfold NodeGeneration; by rewrite Eg1, Eg2).
  split; [lia|]. intros Hn Hneq.
  destruct (decide (n ∈ [old_node p s; NodeName (ev_pod p)])) as [Hin|Hout].
  { specialize (Hlt3 Hn Hin). lia. }
  assert (NodeGeneration s1 n < NodeGeneration s2 n) as Hl; [|lia]. apply Hlt2; [done|]. intros E. apply Hneq.
  destruct (store_inv_bump None [old_node p s; NodeName (ev_pod p)] s3) as [_ El4].
  { by apply store_inv_claimPodIP. }
  rewrite El4, El3, E, El1. apply spec_on_node_insert; [cbn; set_solver|].
  intros lp (r' & rec & Hr' & Hrec & [_ ->]%live_rec_Some)%lookup_live_Some. cbn. intros <-. apply Hout.
  unfold old_node. rewrite Hr'. unfold rec_at. rewrite Hrec. set_solver.
Qed.

Lemma token_op s t : op_ok t -> store_inv None s -> gen_ok s -> token_step s (apply_op s t).
Proof.
  intros Hok Hinv Hg. pose proof (op_refines s t Hok Hinv) as [_ El]. revert El.
  destruct t as [now [p|uid| | | |]]; destruct Hok as [Hnow Hev]; unfold apply_op, spec_op; cbn [fst snd] in *; intros El.
  - unfold UpsertPod. destruct (resyncNoOp s p); [by apply token_same|by apply token_upsert].
  - by apply token_deletePod; [|apply Hinv|].
  - revert El. unfold sweep. destruct (due_prefix now (pending s)) as [|d l]; [by intros; apply token_same|].
    set (dl := d :: l). clearbody dl. set (s2 := set_pending _ _). intros El.
    assert (live s2 = live s) as El2.
    { rewrite <- El. destruct (clear_gen_fields s2 _ (only_bump [] s2)) as (F1&_&F3&_). unfold live. congruence. }
    assert (gen s2 = gen s /\ nodeGen s2 = nodeGen s) as [E1 E2].
    { cbn. clear. revert s. induction dl as [|a dl IH]; intros s; simpl; [done|].
      destruct (IH (sweep_one now s a)) as [-> ->]. unfold sweep_one. destruct (isPod a).
      - unfold sweepPodLocked. destruct (pods s !! p_uid a) as [r|]; [|done]. destruct (expired _ _); [|done].
        cbv zeta. set (s1 := foldl _ s _). destruct (clear_ip_fields s s1) as (_&_&_&_&_&_&_&_&E9&E10).
        { apply (only_foldl clear_ip (fun s ip => dropClaimantLocked ip r s)). intros ip. apply only_dropClaimant. }
        destruct (removeRecord_fields r (p_uid a) s1) as (_&_&_&_&_&_&_&_&F9&F10). cbv zeta in F9, F10. split; congruence.
      - destruct (clear_cont_fields s (sweepContainerLocked now (p_id a) s)) as (_&_&_&_&_&_&_&_&E9&E10);
          [apply only_sweepContainer|done]. }
    apply token_bump; try done. intros. by rewrite El2.
  - apply token_same; [done| | |done]; unfold Drain; destruct (draining s); try done; set (l := elements _);
      set (s0 := set_draining true s); generalize 0; intros z.
    all: assert (clear_cont (foldr (fun id acc => let '(s, n) := acc in let '(s', k) := wakeLocked id s in (s', n + k)) (s0, z) l).1
      = clear_cont s0) as Hc by (induction l as [|id l IH]; simpl; [done|]; destruct (foldr _ _ _) as [s1 n1]; simpl in IH;
        pose proof (only_wake id s1) as Hw; cbv beta in Hw; destruct (wakeLocked id s1) as [s2 n2]; simpl in *; congruence).
    + exact (f_equal gen Hc).
    + exact (f_equal nodeGen Hc).
  - unfold TryPark in *. case_decide; by apply token_same.
  - unfold Unpark in *. case_decide; by apply token_same.
Qed.

Lemma run_gen_ok t m ops : Forall op_ok ops -> gen_ok (run (New t m) ops).
Proof.
  intros Hok. unfold run. pose proof (store_inv_New t m) as Hi.
  assert (gen_ok (New t m)) as Hg by done.
  revert Hi Hg. generalize (New t m) as s.
  induction Hok as [|o ops Ho Hok IH]; intros s Hi Hg; simpl; [done|].
  apply IH; [by apply op_refines|by apply (token_op s o)].
Qed.

Lemma token_run s ops : Forall op_ok ops -> store_inv None s -> gen_ok s -> token_step s (run s ops).
Proof.
  intros Hok. revert s. induction Hok as [|o ops Ho Hok IH]; intros s Hi Hg; unfold run; simpl; [by apply token_same|].
  destruct (token_op s o Ho Hi Hg) as [Hg1 H1]. destruct (op_refines s o Ho Hi) as [Hi1 _].
  destruct (IH (apply_op s o) Hi1 Hg1) as [Hg2 H2]. split; [done|]. fold (run (apply_op s o) ops).
  intros n. destruct (H1 n) as [Hl1 Hs1], (H2 n) as [Hl2 Hs2]. split; [unfold run in *; lia|]. intros Hn Hneq.
  destruct (decide (spec_on_node n (live (apply_op s o)) = spec_on_node n (live s))) as [E|E].
  - specialize (Hs2 Hn). unfold run in *. rewrite E in Hs2. specialize (Hs2 Hneq). lia.
  - specialize (Hs1 Hn E). unfold run in *. lia.
Qed.

(** ** Properties *)

(** The change token of a node is sound: along any run it never goes back,
    and if it is unchanged then [PodsOnNode] serves the same pods. *)
Theorem node_generation_sound t m ops1 ops2 n :
  Forall op_ok ops1 -> Forall op_ok ops2 -> n <> ""%string ->
  let s1 := run (New t m) ops1 in
  let s2 := run s1 ops2 in
  NodeGeneration s1 n <= NodeGeneration s2 n /\
  (NodeGeneration s1 n = NodeGeneration s2 n -> PodsOnNode s2 n = PodsOnNode s1 n).
Proof.
  intros Hok1 Hok2 Hn s1 s2. destruct (run_inv t m ops1 Hok1) as [Hi1 _]. pose proof (run_gen_ok t m ops1 Hok1) as Hg1.
  fold s1 in Hi1, Hg1. destruct (token_run s1 ops2 Hok2 Hi1 Hg1) as [_ Ht]. destruct (Ht n) as [Hle Hlt].
  split; [done|]. intros E.
  assert (store_inv None s2) as Hi2.
  { pose proof (run_inv t m (ops1 ++ ops2)) as Hr. unfold run in Hr. rewrite foldl_app in Hr.
    apply Hr. by apply Forall_app. }
  assert (node_view s2 n = node_view s1 n) as Hv.
  { rewrite !node_view_spec by done. apply dec_stable. intros Hne. specialize (Hlt Hn Hne).
    fold s2 in Hlt. lia. }
  assert (forall s, PodsOnNode s n = (map_to_list (node_view s n)).*2) as Hp; [|by rewrite !Hp, Hv].
  intros s. unfold PodsOnNode, node_view. by rewrite map_to_list_fmap, <- !list_fmap_compose.
Qed.

End Inv.

(** ** Witnesses: one pod is seen *)

Definition demo_name : string -> string := fun _ => "ns/p"%string.
Definition demo_pod : Pod :=
  mkPod "u" "ns" "p" "n1" "10.0.0.1" [] "192.168.0.1" false "Running" None None "doc".
Definition demo_event : PodEvent :=
  mkPodEvent demo_pod "1" [] {["c"%string := mkContainer "img"]}.
Definition demo_ops : list (Z * op) := [(100, OpUpsert demo_event)].

Lemma demo_ops_ok : Forall (@op_ok demo_name) demo_ops.
Proof. apply Forall_singleton. split; [done|]. split; reflexivity. Qed.

Lemma node_generation_sound_witness :
  NodeGeneration (run (H := no_canonical) (New 10 2) demo_ops) "n1" <=
  NodeGeneration (run (H := no_canonical) (run (H := no_canonical) (New 10 2) demo_ops) [(200, OpSweep)]) "n1".
Proof.
  apply (@node_generation_sound no_canonical demo_name 10 2 demo_ops [(200, OpSweep)] "n1").
  - exact demo_ops_ok.
  - apply Forall_singleton. split; [done|exact I].
  - discriminate.
Defined.
