(* ===== verification/StoreIP.v ===== *)
(** * The pod-IP index ([internal/store/podip.go])

    [ipClaimants] holds exactly the live pods that report an address and
    [byPodIP] one of them, so a lookup by address never answers with a pod that
    is gone or has moved, and always answers when some live pod reports it. *)

From S2P Require Import Prelude Store StoreIndex StoreRefine.
Local Open Scope Z_scope.

Section IP.
Context `{AddrForm}.
Variable name_of : string -> string.

Definition claim (s : Store) (ip uid : string) : option nat := ipClaimants s !! ip ≫= (.!! uid).

(** A claimant the promotion scan may pick. *)
Definition holds_addr (s : Store) (ip : string) (r : nat) : Prop :=
  expireAt (rec_at s r) = 0 /\ ip ∈ podAddresses (pod (rec_at s r)).

(** The index with [C uid] the addresses claimed by a pod. *)
Record ip_inv (C : string -> list string) (s : Store) : Prop := {
  ii_claims : forall ip uid r, claim s ip uid = Some r <-> pods s !! uid = Some r /\ ip ∈ C uid;
  ii_held : forall ip r, byPodIP s !! ip = Some r -> exists uid, claim s ip uid = Some r;
  ii_full : forall ip uid r, claim s ip uid = Some r -> holds_addr s ip r -> is_Some (byPodIP s !! ip) }.

(** The claims of a settled store: what the live pods report. *)
Definition reported (s : Store) (uid : string) : list string :=
  match live s !! uid with Some lp => podAddresses (lp_pod lp) | None => [] end.

Lemma ip_inv_C C C' s : (forall uid ip, is_Some (pods s !! uid) -> ip ∈ C uid <-> ip ∈ C' uid) ->
  ip_inv C s -> ip_inv C' s.
Proof.
  intros HC [Hc Hh Hf]. split; [|done|done]. intros ip uid r. rewrite Hc. split; intros [Hp Hi]; (split; [done|]).
  - apply (HC uid ip); [by eexists|done].
  - apply (HC uid ip); [by eexists|done].
Qed.

Lemma ip_inv_ext C s s' :
  pods s' = pods s -> ipClaimants s' = ipClaimants s -> byPodIP s' = byPodIP s ->
  (forall ip uid r, claim s ip uid = Some r -> holds_addr s' ip r -> holds_addr s ip r) ->
  ip_inv C s -> ip_inv C s'.
Proof.
  intros E1 E2 E3 Hha [Hc Hh Hf]. split.
  - intros ip uid r. unfold claim. rewrite E1, E2. apply Hc.
  - intros ip r. rewrite E3. unfold claim. rewrite E2. apply Hh.
  - intros ip uid r Hcl Ha. unfold claim in Hcl. rewrite E2 in Hcl. rewrite E3. eauto.
Qed.

Lemma ip_inv_same C s s' :
  pods s' = pods s -> ipClaimants s' = ipClaimants s -> byPodIP s' = byPodIP s -> recs s' = recs s ->
  ip_inv C s -> ip_inv C s'.
Proof.
  intros E1 E2 E3 E4. apply ip_inv_ext; [done..|]. intros ip uid r _. unfold holds_addr, rec_at. by rewrite E4.
Qed.

(** ** The primitive operations *)

Lemma claim_add s ip r i u :
  claim (addClaimantLocked ip r s) i u =
  if decide (i = ip /\ u = UID (pod (rec_at s r))) then Some r else claim s i u.
Proof.
  unfold claim, addClaimantLocked. cbn. destruct (decide (i = ip)) as [->|Hne].
  - rewrite lookup_insert_eq. cbn. destruct (decide (_ /\ _)) as [[_ ->]|Hd].
    + by rewrite lookup_insert_eq.
    + rewrite lookup_insert_ne by naive_solver. by destruct (ipClaimants s !! ip).
  - rewrite lookup_insert_ne by done. by rewrite decide_False by tauto.
Qed.

Lemma claim_drop s ip r i u :
  claim (dropClaimantLocked ip r s) i u =
  if decide (i = ip /\ u = UID (pod (rec_at s r)) /\ claim s ip u = Some r) then None else claim s i u.
Proof.
  unfold dropClaimantLocked, claim. destruct (ipClaimants s !! ip) as [m|] eqn:Em.
  2:{ destruct (decide _) as [(-> & _ & ?)|]; done. }
  cbn [option_bind mbind]. set (uid := UID _). destruct (decide (m !! uid = Some r)) as [Hm|Hm].
  - destruct (decide (i = ip)) as [->|Hne].
    + rewrite Em. cbn. case_decide as He; cbn.
      * rewrite lookup_delete_eq. cbn. destruct (decide (_ /\ _)) as [|Hd]; [done|].
        assert (delete uid m !! u = None) as E by (rewrite He; apply lookup_empty).
        rewrite lookup_delete_ne in E; [done|]. intros <-. by apply Hd.
      * rewrite lookup_insert_eq. cbn. destruct (decide (_ /\ _)) as [(_ & -> & _)|Hd]; [apply lookup_delete_eq|].
        rewrite lookup_delete_ne; [done|]. intros <-. by apply Hd.
    + rewrite (decide_False (P := i = ip /\ _)) by tauto. case_decide; cbn; [by rewrite lookup_delete_ne|by rewrite lookup_insert_ne].
  - rewrite (decide_False (P := i = ip /\ _)) by naive_solver. case_decide as He; cbn.
    + rewrite lookup_delete. case_decide; [subst|done]. rewrite Em. cbn. by rewrite lookup_empty.
    + rewrite lookup_insert. case_decide; [subst|done]. by rewrite Em.
Qed.

Lemma pick_claimed s ip skip order r :
  pick s ip skip order = Some r -> r ∈ order /\ eligible s ip skip r = true.
Proof.
  unfold pick.
  cut (forall l best, foldl (fun best r => if eligible s ip skip r then
      match best with None => Some r | Some b => if beatsClaimant s b r then Some r else best end else best) best l = Some r ->
      best = Some r \/ (r ∈ l /\ eligible s ip skip r = true)).
  { intros Hgen Hp. destruct (Hgen order None Hp) as [?|?]; done. }
  induction l as [|a l IH]; intros best; cbn; [by left|]. intros Hf. destruct (IH _ Hf) as [Hb|[? ?]]; [|right; set_solver].
  destruct (eligible s ip skip a) eqn:Ea; [|by left]. destruct best as [b|].
  - destruct (beatsClaimant s b a); [|by left]. simplify_eq. right. set_solver.
  - simplify_eq. right. set_solver.
Qed.

Lemma pick_total s ip skip order r :
  r ∈ order -> eligible s ip skip r = true -> is_Some (pick s ip skip order).
Proof.
  unfold pick. cut (forall l best, is_Some best \/ (r ∈ l /\ eligible s ip skip r = true) ->
    is_Some (foldl (fun best r => if eligible s ip skip r then
      match best with None => Some r | Some b => if beatsClaimant s b r then Some r else best end else best) best l)).
  { intros Hgen Hin He. apply Hgen. by right. }
  induction l as [|a l IH]; intros best; cbn; [intros [?|[?%not_elem_of_nil _]]; done|].
  intros Hor. apply IH. destruct Hor as [[b ->]|[[->|Hin]%elem_of_cons He]].
  - left. destruct (eligible s ip skip a); [destruct (beatsClaimant s b a)|]; by eexists.
  - left. rewrite He. destruct best; [destruct (beatsClaimant _ _ _)|]; by eexists.
  - right. done.
Qed.

Lemma elem_claimants s ip r :
  r ∈ (map_to_list (default ∅ (ipClaimants s !! ip))).*2 <-> exists uid, claim s ip uid = Some r.
Proof.
  rewrite list_elem_of_fmap. unfold claim. split.
  - intros ([uid r'] & -> & Hin%elem_of_map_to_list). exists uid. by destruct (ipClaimants s !! ip).
  - intros [uid Hc]. exists (uid, r). split; [done|]. apply elem_of_map_to_list. by destruct (ipClaimants s !! ip).
Qed.

Lemma holds_addr_eligible s ip skip r :
  r <> skip -> holds_addr s ip r -> eligible s ip skip r = true.
Proof.
  intros Hne [He Ha]. unfold eligible, is_zero. rewrite He. rewrite bool_decide_eq_false_2 by done.
  rewrite !bool_decide_eq_true_2 by done. done.
Qed.

Definition without (uid ip : string) (C : string -> list string) : string -> list string :=
  fun u => if decide (u = uid) then filter (fun i => i <> ip) (C u) else C u.

Definition with_addr (uid ip : string) (C : string -> list string) : string -> list string :=
  fun u => if decide (u = uid) then ip :: C u else C u.

Lemma ip_inv_release C s r ip :
  pods s !! UID (pod (rec_at s r)) = Some r -> uid_inv s -> ip_inv C s ->
  ip_inv (without (UID (pod (rec_at s r))) ip C) (releaseIPLocked r ip s).
Proof.
  set (uid := UID (pod (rec_at s r))). intros Hr Hu [Hc Hh Hf].
  set (s1 := dropClaimantLocked ip r s).
  destruct (clear_ip_fields s s1 (only_dropClaimant ip r s)) as (E1&_&E3&_).
  assert (byPodIP s1 = byPodIP s) as E4.
  { unfold s1, dropClaimantLocked. destruct (ipClaimants s !! ip); [|done]. by repeat case_decide. }
  assert (forall i u r', claim s1 i u = Some r' <-> pods s !! u = Some r' /\ i ∈ without uid ip C u) as Hc1.
  { intros i u r'. unfold s1. rewrite claim_drop. unfold without. fold uid. destruct (decide (u = uid)) as [->|Hne].
    - rewrite list_elem_of_filter. destruct (decide (i = ip)) as [->|Hne2].
      + destruct (decide (ip = ip /\ uid = uid /\ claim s ip uid = Some r)) as [|Hd]; [split; [done|tauto]|].
        split; [|tauto]. intros Hcl. exfalso. apply Hd. pose proof Hcl as [Hp _]%Hc. split; [done|]. split; [done|]. congruence.
      + rewrite decide_False by tauto. rewrite Hc. tauto.
    - rewrite decide_False by tauto. apply Hc. }
  assert (forall i r', byPodIP s !! i = Some r' -> ~ (i = ip /\ r' = r) -> exists u, claim s1 i u = Some r') as Hh1.
  { intros i r' Hi Hn. destruct (Hh _ _ Hi) as [u Hcl]. exists u. unfold s1. rewrite claim_drop.
    rewrite decide_False; [done|]. intros (-> & _ & Hx). apply Hn. split; [done|]. congruence. }
  assert (forall i u r', claim s1 i u = Some r' -> claim s i u = Some r' /\ ~ (i = ip /\ r' = r)) as Hback.
  { intros i u r' Hcl. pose proof Hcl as [Hp Hw]%Hc1. split.
    - apply Hc. split; [done|]. unfold without in Hw. case_decide; [|done]. by apply list_elem_of_filter in Hw as [_ ?].
    - intros [-> ->]. assert (u = uid) as -> by (by apply (uid_inj s u uid r)). unfold without in Hw.
      rewrite decide_True in Hw by done. by apply list_elem_of_filter in Hw as [? _]. }
  unfold releaseIPLocked. fold s1. rewrite E4. destruct (decide (byPodIP s !! ip = Some r)) as [Hheld|Hnot].
  - unfold promoteIPClaimantLocked. set (s2 := set_byPodIP (delete ip (byPodIP s)) s1).
    destruct (pick s2 ip r _) as [r2|] eqn:Hp.
    + apply pick_claimed in Hp as [Hin Hel]. change (ipClaimants s2) with (ipClaimants s1) in Hin.
      apply elem_claimants in Hin as [u2 Hu2]. split.
      * intros i u r'. change (pods _) with (pods s1). rewrite E3. apply Hc1.
      * intros i r'. cbn. rewrite lookup_insert_Some. intros [[<- <-]|[Hne Hi]]; [by exists u2|].
        rewrite lookup_delete_ne in Hi by done. apply Hh1; [done|naive_solver].
      * intros i u r' Hcl Ha. cbn. destruct (decide (i = ip)) as [->|Hne]; [rewrite lookup_insert_eq; by eexists|].
        rewrite lookup_insert_ne, lookup_delete_ne by done. apply Hback in Hcl as [Hcl _]. apply (Hf i u r' Hcl).
        unfold holds_addr, rec_at in *. cbn in Ha. by rewrite E1 in Ha.
    + split.
      * intros i u r'. change (pods _) with (pods s1). rewrite E3. apply Hc1.
      * intros i r'. cbn. rewrite lookup_delete_Some. intros [Hne Hi]. apply Hh1; [done|naive_solver].
      * intros i u r' Hcl Ha. pose proof Hcl as Hcl1. apply Hback in Hcl as [Hcl Hnr]. cbn.
        destruct (decide (i = ip)) as [->|Hne].
        -- exfalso. assert (is_Some (pick s2 ip r ((map_to_list (default ∅ (ipClaimants s2 !! ip))).*2))) as [? Hs];
             [|change (ipClaimants s2) with (ipClaimants s1) in *; congruence].
           apply (pick_total s2 ip r _ r'); [apply elem_claimants; by exists u|].
           apply holds_addr_eligible; [naive_solver|done].
        -- rewrite lookup_delete_ne by done. apply (Hf i u r' Hcl).
           unfold holds_addr, rec_at in *. cbn in Ha. by rewrite E1 in Ha.
  - split.
    + intros i u r'. rewrite E3. apply Hc1.
    + intros i r'. rewrite E4. intros Hi. apply Hh1; [done|]. intros [-> ->]. done.
    + intros i u r' Hcl Ha. rewrite E4. apply Hback in Hcl as [Hcl _]. apply (Hf i u r' Hcl).
      unfold holds_addr, rec_at in *. by rewrite E1 in Ha.
Qed.

(** ** Claims and releases in sequence *)

Lemma uid_inv_alter s s' f r :
  (forall rec, UID (pod (f rec)) = UID (pod rec)) -> recs s' = alter f r (recs s) ->
  nextRec s' = nextRec s -> pods s' = pods s -> uid_inv s -> uid_inv s'.
Proof.
  intros Hf E1 E2 E3 [Hr Ha]. split.
  - intros uid r'. rewrite E1, E3. intros Hp. destruct (Hr _ _ Hp) as (rec & Hrec & <-).
    destruct (decide (r = r')) as [->|].
    + rewrite lookup_alter_eq, Hrec. eexists; split; [done|]. apply Hf.
    + rewrite lookup_alter_ne by done. eauto.
  - intros r' rec'. rewrite E1, E2. destruct (decide (r = r')) as [->|]; [|rewrite lookup_alter_ne by done; apply Ha].
    rewrite lookup_alter_eq. destruct (recs s !! r') as [rec|] eqn:E; [|done]. intros _. by apply (Ha _ rec).
Qed.

Lemma rec_at_alter s s' f r r' : recs s' = alter f r (recs s) -> is_Some (recs s !! r) ->
  rec_at s' r' = if decide (r' = r) then f (rec_at s r) else rec_at s r'.
Proof.
  intros E [rec Hrec]. unfold rec_at. rewrite E. destruct (decide (r' = r)) as [->|].
  - by rewrite lookup_alter_eq, Hrec.
  - by rewrite lookup_alter_ne.
Qed.

Lemma holds_addr_recSeq s s' q r ip r' :
  recs s' = alter (set_recSeq q) r (recs s) -> holds_addr s' ip r' <-> holds_addr s ip r'.
Proof.
  intros E. unfold holds_addr, rec_at. rewrite E. destruct (decide (r = r')) as [->|].
  - rewrite lookup_alter_eq. by destruct (recs s !! r').
  - by rewrite lookup_alter_ne.
Qed.

Lemma ip_inv_claimOne C s r uid old ne ip :
  uid_inv s -> pods s !! uid = Some r -> ip_inv C s ->
  ip_inv (with_addr uid ip C) (claimOneIPLocked r old ne s ip).
Proof.
  intros Hu Hr [Hc Hh Hf]. destruct (ui_rec _ Hu _ _ Hr) as (rec & Hrec & Hru).
  unfold claimOneIPLocked. set (s1 := addClaimantLocked ip r s). set (s2 := if negb ne && _ then _ else s1).
  assert (exists q, recs s2 = alter (set_recSeq q) r (recs s)) as [q Hq].
  { unfold s2. destruct (negb ne && _); cbn; [by eexists|]. exists (recSeq (rec_at s r)). symmetry. apply alter_id.
    unfold rec_at. intros rec' ->. by destruct rec'. }
  assert (forall i u, claim s2 i u = if decide (i = ip /\ u = uid) then Some r else claim s i u) as Hcl.
  { intros i u. transitivity (claim s1 i u); [unfold s2; by destruct (negb ne && _)|].
    unfold s1. rewrite claim_add. unfold rec_at. rewrite Hrec. simpl. by rewrite Hru. }
  assert (pods s2 = pods s /\ byPodIP s2 = byPodIP s) as [E1 E2] by (unfold s2; by destruct (negb ne && _)).
  clearbody s2. clear s1.
  assert (forall s3, pods s3 = pods s2 -> ipClaimants s3 = ipClaimants s2 -> recs s3 = recs s2 ->
    (forall i r', byPodIP s3 !! i = Some r' -> byPodIP s !! i = Some r' \/ (i = ip /\ r' = r)) ->
    (forall i, is_Some (byPodIP s !! i) \/ i = ip -> is_Some (byPodIP s3 !! i)) ->
    ip_inv (with_addr uid ip C) s3) as Hfin.
  { intros s3 F1 F2 F3 Hb Hf3.
    assert (forall i u, claim s3 i u = if decide (i = ip /\ u = uid) then Some r else claim s i u) as Hcl3.
    { intros i u. rewrite <- Hcl. unfold claim. by rewrite F2. }
    split.
    - intros i u r'. rewrite Hcl3, F1, E1. unfold with_addr. destruct (decide (u = uid)) as [->|Hne].
      + destruct (decide (i = ip)) as [->|Hne2].
        * rewrite decide_True by done. split; [intros [= <-]; set_solver|]. intros [? _]. congruence.
        * rewrite decide_False by tauto. rewrite Hc. set_solver.
      + rewrite decide_False by tauto. apply Hc.
    - intros i r' [Hi|[-> ->]]%Hb.
      + destruct (Hh _ _ Hi) as [u Hu']. exists u. rewrite Hcl3. case_decide as Hd; [|done].
        destruct Hd as [-> ->]. apply Hc in Hu' as [? _]. congruence.
      + exists uid. rewrite Hcl3. by rewrite decide_True.
    - intros i u r' Hcl' Ha. apply Hf3. rewrite Hcl3 in Hcl'. case_decide as Hd; [right; tauto|left].
      apply (Hf i u r' Hcl'). apply (holds_addr_recSeq s s3 q r i r'); [congruence|done]. }
  assert (forall s3, pods s3 = pods s2 -> ipClaimants s3 = ipClaimants s2 -> recs s3 = recs s2 ->
    byPodIP s3 = <[ip := r]> (byPodIP s2) -> ip_inv (with_addr uid ip C) s3) as Hset.
  { intros s3 F1 F2 F3 F4. apply Hfin; try done.
    - intros i r'. rewrite F4, E2, lookup_insert_Some. naive_solver.
    - intros i. rewrite F4, E2, lookup_insert. case_decide; naive_solver. }
  destruct (byPodIP s2 !! ip) as [cur|] eqn:Hcur; [|by apply Hset].
  destruct (decide (cur = r)); [by apply Hset|].
  assert (clear_ip (noteContested r cur s2) = clear_ip s2) as Hnc by apply only_noteContested.
  destruct (clear_ip_fields _ _ Hnc) as (G1&_&G3&_).
  assert (ipClaimants (noteContested r cur s2) = ipClaimants s2 /\ byPodIP (noteContested r cur s2) = byPodIP s2)
    as [G4 G5] by (unfold noteContested; by destruct (_ || _)).
  destruct (beatsClaimant s2 cur r); [apply Hset; cbn; congruence|].
  apply Hfin; try done.
  - intros i r'. rewrite G5, E2. by left.
  - intros i. rewrite G5, E2. intros [?| ->]; [done|]. rewrite <- E2, Hcur. by eexists.
Qed.

Lemma ip_inv_claims C s r uid old ne addrs :
  uid_inv s -> pods s !! uid = Some r -> ip_inv C s ->
  exists C', ip_inv C' (foldl (claimOneIPLocked r old ne) s addrs) /\
    (forall u i, i ∈ C' u <-> i ∈ C u \/ (u = uid /\ i ∈ addrs)).
Proof.
  revert C s. induction addrs as [|a l IH]; intros C s Hu Hr Hi; cbn.
  - exists C. split; [done|]. set_solver.
  - destruct (claimOne_fields r old ne s a) as [[q Hq] Hc]. cbv zeta in Hq, Hc.
    destruct (clear_ip_fields _ _ Hc) as (_&E2&E3&_). cbn in E2, E3.
    destruct (IH (with_addr uid a C) (claimOneIPLocked r old ne s a)) as (C' & Hi' & HC').
    + by apply (uid_inv_alter s _ (set_recSeq q) r).
    + by rewrite E3.
    + by apply ip_inv_claimOne.
    + exists C'. split; [done|]. intros u i. rewrite HC'. unfold with_addr. case_decide; set_solver.
Qed.

Lemma releaseIP_env s r ip :
  recs (releaseIPLocked r ip s) = recs s /\ pods (releaseIPLocked r ip s) = pods s /\
  nextRec (releaseIPLocked r ip s) = nextRec s.
Proof. destruct (clear_ip_fields _ _ (only_releaseIP r ip s)) as (?&?&?&_). done. Qed.

Lemma uid_inv_same s s' : recs s' = recs s -> pods s' = pods s -> nextRec s' = nextRec s -> uid_inv s -> uid_inv s'.
Proof. intros E1 E2 E3 [Hr Ha]. split; rewrite ?E1, ?E2, ?E3; done. Qed.

(** Releasing every address of a list that [keep] does not hold back. *)
Lemma ip_inv_releases C s r uid (keep : string -> Prop) `{forall ip, Decision (keep ip)} addrs :
  uid_inv s -> pods s !! uid = Some r -> ip_inv C s ->
  exists C', ip_inv C' (foldl (fun s ip => if decide (keep ip) then s else releaseIPLocked r ip s) s addrs) /\
    (forall u i, i ∈ C' u <-> i ∈ C u /\ ~ (u = uid /\ i ∈ addrs /\ ~ keep i)).
Proof.
  revert C s. induction addrs as [|a l IH]; intros C s Hu Hr Hi; cbn.
  - exists C. split; [done|]. set_solver.
  - assert (UID (pod (rec_at s r)) = uid) as Huid.
    { destruct (ui_rec _ Hu _ _ Hr) as (rec & Hrec & <-). unfold rec_at. by rewrite Hrec. }
    case_decide as Hk.
    + destruct (IH C s Hu Hr Hi) as (C' & Hi' & HC'). exists C'. split; [done|]. intros u i. rewrite HC'.
      set_unfold. naive_solver.
    + destruct (releaseIP_env s r a) as (E1 & E2 & E3).
      destruct (IH (without uid a C) (releaseIPLocked r a s)) as (C' & Hi' & HC').
      * by apply (uid_inv_same s).
      * by rewrite E2.
      * rewrite <- Huid. apply ip_inv_release; [by rewrite Huid|done|done].
      * exists C'. split; [done|]. intros u i. rewrite HC'. unfold without. case_decide; [|set_unfold; naive_solver].
        rewrite list_elem_of_filter. subst u. set_unfold. destruct (decide (i = a)); naive_solver.
Qed.

(** ** The public operations *)

Definition drop_pod (uid : string) (C : string -> list string) : string -> list string :=
  fun u => if decide (u = uid) then [] else C u.

Lemma pods_lost C s s' uid :
  pods s' = delete uid (pods s) -> C uid = [] -> ip_inv C s ->
  ipClaimants s' = ipClaimants s -> byPodIP s' = byPodIP s -> recs s' = recs s -> ip_inv C s'.
Proof.
  intros E1 Hnil [Hc Hh Hf] E2 E3 E4.
  assert (forall i u, claim s' i u = claim s i u) as Hcl by (intros; unfold claim; by rewrite E2).
  split.
  - intros i u r. rewrite Hcl, Hc, E1, lookup_delete_Some. split; [|tauto]. intros [Hp Hi].
    repeat split; try done. intros ->. rewrite Hnil in Hi. by apply not_elem_of_nil in Hi.
  - intros i r. rewrite E3. intros [u Hu]%Hh. exists u. by rewrite Hcl.
  - intros i u r. rewrite Hcl, E3. unfold holds_addr, rec_at. rewrite E4. apply Hf.
Qed.

Lemma ip_inv_deletePod C now uid s :
  0 < now -> uid_inv s -> ip_inv C s ->
  (forall r ip, pods s !! uid = Some r -> ip ∈ C uid -> ip ∈ recordAddresses s r) ->
  ip_inv (drop_pod uid C) (deletePodLocked now uid s).
Proof.
  intros Hnow Hu Hi Hsub. destruct (pods s !! uid) as [r|] eqn:Hr.
  2:{ rewrite deletePod_absent by done. apply (ip_inv_C C); [|done]. intros u ip [r Hr'].
      unfold drop_pod. case_decide; [congruence|done]. }
  specialize (Hsub r). unfold deletePodLocked. rewrite Hr. cbv zeta. set (node := NodeName _).
  set (s1 := removeFromNodeLocked node uid s). set (s2 := foldl _ s1 _).
  set (s3 := if decide (ttl s2 <= 0) then _ else _).
  destruct (clear_node_fields s s1) as (A1&A2&A3&A4&A5&A6&A7&A8&A9&A10&A11); [apply only_removeFromNode|].
  assert (uid_inv s1) as Hu1 by (by apply (uid_inv_same s)).
  assert (ip_inv C s1) as Hi1 by (by apply (ip_inv_same C s)).
  destruct (ip_inv_releases C s1 r uid (fun _ => False) (recordAddresses s1 r)) as (C' & Hi2 & HC'); [done|by rewrite A3|done|].
  assert (ip_inv C' s2) as Hi2'.
  { unfold s2. revert Hi2. clear. generalize (recordAddresses s1 r) as l. generalize s1. clear.
    intros s l. assert (foldl (fun s ip => if decide False then s else releaseIPLocked r ip s) s l =
      foldl (fun s ip => releaseIPLocked r ip s) s l) as ->; [|done].
    revert s. induction l as [|a l IH]; intros s; cbn; [done|]. apply IH. }
  clear Hi2. destruct (clear_ip_fields s1 s2) as (B1&B2&B3&B4&_).
  { apply (only_foldl clear_ip (fun s ip => releaseIPLocked r ip s)). intros ip. apply only_releaseIP. }
  assert (recordAddresses s1 r = recordAddresses s r) as Era by (unfold recordAddresses, rec_at; by rewrite A1).
  assert (ip_inv (drop_pod uid C) s2) as Hi3.
  { apply (ip_inv_C C'); [|done]. intros u ip _. rewrite HC', Era. unfold drop_pod. case_decide; [subst|naive_solver].
    split; [|by intros ?%not_elem_of_nil]. intros [Hin Hno]. destruct Hno. split; [done|]. split; [by apply Hsub|tauto]. }
  destruct (clear_gen_fields s3 (bumpLocked [node] s3)) as (C1&_&C3&_&_&_&_&C8&C9&_); [apply only_bump|].
  apply (ip_inv_same _ s3); [done..|]. unfold s3. case_decide.
  - destruct (removeRecord_fields r uid s2) as (D1&D2&D3&D4&D5&D6&D7&D8&_). cbv zeta in *.
    apply (pods_lost _ s2 _ uid); try done. unfold drop_pod. by rewrite decide_True.
  - set (s4 := stampLocked _ _). set (s5 := foldr _ s4 _).
    destruct (clear_cont_fields s4 s5) as (D1&_&D3&_&_&_&D7&D8&_).
    { apply (only_foldr clear_cont (tombstone_entry uid _)). apply only_tombstone_entry. }
    apply (ip_inv_ext _ s2); [by rewrite D3|by rewrite D8|by rewrite D7| |done].
    intros ip u r' Hcl. unfold holds_addr, rec_at. rewrite D1. cbn.
    assert (r' <> r) as Hne.
    { intros ->. apply (ii_claims _ _ Hi3) in Hcl as [Hp Hin]. assert (u = uid) as ->.
      { apply (uid_inj s u uid r Hu); congruence. }
      unfold drop_pod in Hin. rewrite decide_True in Hin by done. by apply not_elem_of_nil in Hin. }
    by rewrite lookup_alter_ne.
Qed.

Lemma reported_live s uid r rec :
  pods s !! uid = Some r -> recs s !! r = Some rec ->
  reported s uid = if is_zero (expireAt rec) then podAddresses (pod rec) else [].
Proof.
  intros Hr Hrec. unfold reported. rewrite lookup_live, Hr. cbn. rewrite Hrec. cbn. unfold live_rec.
  by destruct (is_zero _).
Qed.

Lemma podAddresses_raw p ip : ip ∈ podAddresses p -> ip ∈ rawIPs p /\ ip <> ""%string.
Proof.
  unfold podAddresses. destruct (_ || _); [by intros ?%not_elem_of_nil|].
  intros [[? _] ?]%list_elem_of_filter. done.
Qed.

(** A settled store. *)
Definition ip_ok (s : Store) : Prop := ip_inv (reported s) s.

Lemma ip_ok_held s ip uid r : store_inv name_of None s -> ip_ok s ->
  claim s ip uid = Some r -> is_Some (byPodIP s !! ip).
Proof.
  intros Hinv Hi Hcl. apply (ii_full _ _ Hi ip uid r Hcl). apply (ii_claims _ _ Hi) in Hcl as [Hp Hin].
  destruct (ui_rec _ (si_uid _ _ _ Hinv) _ _ Hp) as (rec & Hrec & _).
  rewrite (reported_live s uid r rec Hp Hrec) in Hin. unfold holds_addr, rec_at. rewrite Hrec. cbn.
  unfold is_zero in Hin. case_bool_decide; [done|by apply not_elem_of_nil in Hin].
Qed.

Lemma ip_ok_ext s s' : live s' = live s -> pods s' = pods s ->
  ipClaimants s' = ipClaimants s -> byPodIP s' = byPodIP s -> recs s' = recs s -> ip_ok s -> ip_ok s'.
Proof.
  intros El E1 E2 E3 E4 Hi. unfold ip_ok. apply (ip_inv_C (reported s)).
  - intros u ip _. unfold reported. by rewrite El.
  - by apply (ip_inv_same _ s).
Qed.

Lemma ip_ok_delete now uid s : 0 < now -> store_inv name_of None s -> ip_ok s -> ip_ok (deletePodLocked now uid s).
Proof.
  intros Hnow Hinv Hi. pose proof (live_deletePod now uid s Hnow (si_uid _ _ _ Hinv)) as El.
  apply (ip_inv_C (drop_pod uid (reported s))).
  - intros u ip _. unfold drop_pod, reported. rewrite El. case_decide as Hd.
    + subst. by rewrite lookup_delete_eq.
    + by rewrite lookup_delete_ne.
  - apply ip_inv_deletePod; [done|apply Hinv|done|]. intros r ip Hr Hin.
    destruct (ui_rec _ (si_uid _ _ _ Hinv) _ _ Hr) as (rec & Hrec & _).
    rewrite (reported_live s uid r rec Hr Hrec) in Hin. destruct (is_zero _); [|by apply not_elem_of_nil in Hin].
    unfold recordAddresses, rec_at. rewrite Hrec. by apply podAddresses_raw.
Qed.

(** *** Upsert: the index half, the name claim, the address claims *)

Lemma ip_upsert_indexed now p s s1 r :
  event_ok name_of p -> store_inv name_of None s -> ip_ok s -> upsert_indexed now p s = (s1, r) ->
  ip_inv (reported s) s1 /\ (forall u, u <> UID (ev_pod p) -> reported s u = reported s1 u).
Proof.
  intros Hev Hinv Hi He. set (uid := UID (ev_pod p)) in *.
  destruct (upsert_indexed_fields now p s s1 r (si_uid _ _ _ Hinv) He) as
    (_ & Hother & Hp & Hinj & _ & _ & _ & _ & _ & _ & Ebyip & Eclaim & _). fold uid in Hp.
  split.
  2:{ intros u Hne. unfold reported. rewrite (live_upsert_indexed now p s s1 r (si_uid _ _ _ Hinv) He).
      fold uid. by rewrite lookup_insert_ne. }
  assert (forall i u, claim s1 i u = claim s i u) as Hcl by (intros; unfold claim; by rewrite Eclaim).
  split.
  - intros i u r'. rewrite Hcl, (ii_claims _ _ Hi), Hp.
    destruct (decide (u = uid)) as [->|Hne]; [|by rewrite lookup_insert_ne].
    rewrite lookup_insert_eq. unfold reported. destruct (live s !! uid) as [lp|] eqn:El;
      [|split; intros [_ ?%not_elem_of_nil]; done].
    pose proof El as (r2 & rec2 & Hr2 & _ & _)%lookup_live_Some. rewrite Hr2.
    assert (r2 = r) as ->; [|done]. unfold upsert_indexed in He.
    destruct (find_or_new _ s) as [s0 r0] eqn:Hf. injection He as _ <-. unfold find_or_new in Hf.
    fold uid in Hf. rewrite Hr2 in Hf. by injection Hf.
  - intros i r'. rewrite Ebyip. intros [u Hu]%(ii_held _ _ Hi). exists u. by rewrite Hcl.
  - intros i u r'. rewrite Hcl, Ebyip. intros Hc _. by apply (ip_ok_held s i u r').
Qed.

Lemma claimName_cases now p r s :
  claimName now p r s = set_byPodName (<[nameKey p := r]> (byPodName s)) s \/
  exists prev, byPodName s !! nameKey p = Some prev /\ prev <> r /\
    let s' := deletePodLocked now (UID (pod (rec_at s prev))) (set_nameReused (nameReused s + 1) s) in
    claimName now p r s = set_byPodName (<[nameKey p := r]> (byPodName s')) s'.
Proof.
  unfold claimName. destruct (byPodName s !! nameKey p) as [prev|]; [|by left].
  destruct (bool_decide (prev <> r)) eqn:Hd; cbn; [|by left]. apply bool_decide_eq_true in Hd.
  destruct (is_zero _); [right; by exists prev|by left].
Qed.

(** The evicted record is a pod of its own. *)
Lemma name_holder ex s k prev : store_inv name_of ex s -> byPodName s !! k = Some prev ->
  pods s !! UID (pod (rec_at s prev)) = Some prev /\ is_Some (recs s !! prev).
Proof.
  intros Hinv Hprev. destruct (si_sound _ _ _ Hinv _ _ Hprev) as (pu & prec & Hpu & Hprec & _).
  destruct (ui_rec _ (si_uid _ _ _ Hinv) _ _ Hpu) as (prec' & Hprec' & <-).
  unfold rec_at. rewrite Hprec in *. simplify_eq. cbn. eauto.
Qed.

Lemma pods_claimName ex now p r s uid :
  store_inv name_of ex s -> pods s !! uid = Some r -> pods (claimName now p r s) !! uid = Some r.
Proof.
  intros Hinv Hr. destruct (claimName_cases now p r s) as [->|(prev & Hprev & Hne & ->)]; [done|].
  destruct (name_holder ex s _ _ Hinv Hprev) as [Hpu _]. set (pu := UID _) in *.
  destruct (deletePod_fields now pu prev (set_nameReused (nameReused s + 1) s) Hpu) as (_&_&E3&_).
  change (pods (set_byPodName ?a ?b)) with (pods b). rewrite E3. case_decide; [|done].
  rewrite lookup_delete_ne; [done|]. intros Epu. apply Hne. rewrite Epu in Hpu.
  change (pods (set_nameReused _ s)) with (pods s) in *. congruence.
Qed.

Lemma ip_claimName C ex now p r s uid :
  0 < now -> store_inv name_of ex s -> pods s !! uid = Some r -> ip_inv C s ->
  (forall u, u <> uid -> C u = reported s u) ->
  exists C', ip_inv C' (claimName now p r s) /\ C' uid = C uid /\
    (forall u, u <> uid -> C' u = reported (claimName now p r s) u).
Proof.
  intros Hnow Hinv Hr Hi HC. destruct (claimName_cases now p r s) as [->|(prev & Hprev & Hne & ->)].
  { exists C. split; [by apply (ip_inv_same _ s)|done]. }
  destruct (name_holder ex s _ _ Hinv Hprev) as [Hpu [prec Hprec]]. set (pu := UID _) in *.
  set (s0 := set_nameReused _ s). assert (uid_inv s0) as Hu0 by (by destruct (si_uid _ _ _ Hinv)).
  assert (pu <> uid) as Hpne by (intros E; rewrite E in Hpu; congruence).
  exists (drop_pod pu C). split.
  { apply (ip_inv_same _ (deletePodLocked now pu s0)); try done.
    apply ip_inv_deletePod; [done|done|by apply (ip_inv_same _ s)|]. intros r' ip Hr' Hin.
    change (pods s0) with (pods s) in Hr'. rewrite Hpu in Hr'. injection Hr' as <-. rewrite HC in Hin by done.
    rewrite (reported_live s pu prev prec Hpu Hprec) in Hin. destruct (is_zero _); [|by apply not_elem_of_nil in Hin].
    unfold recordAddresses, rec_at. cbn. rewrite Hprec. by apply podAddresses_raw. }
  unfold drop_pod. split; [by rewrite decide_False|]. intros u Hne'. unfold reported.
  change (live (set_byPodName ?a ?b)) with (live b). rewrite (live_deletePod now pu s0 Hnow Hu0).
  change (live s0) with (live s). case_decide as Hd; [subst; by rewrite lookup_delete_eq|].
  rewrite lookup_delete_ne by done. by rewrite HC.
Qed.

Lemma ip_claimPodIP C r uid p old ne s :
  uid_inv s -> pods s !! uid = Some r -> ip_inv C s -> (forall ip, ip ∈ C uid -> ip ∈ old /\ ip <> ""%string) ->
  exists C', ip_inv C' (claimPodIPLocked r p old ne s) /\
    (forall ip, ip ∈ C' uid <-> ip ∈ podAddresses p) /\ (forall u ip, u <> uid -> ip ∈ C' u <-> ip ∈ C u).
Proof.
  intros Hu Hr Hi Hold. unfold claimPodIPLocked. cbv zeta. set (addrs := podAddresses p).
  destruct (ip_inv_claims C s r uid old ne addrs Hu Hr Hi) as (C1 & Hi1 & HC1).
  set (s1 := foldl (claimOneIPLocked r old ne) s addrs) in *.
  assert ((exists q, recs s1 = alter (set_recSeq q) r (recs s)) /\ pods s1 = pods s /\ nextRec s1 = nextRec s) as ([q Hq] & E2 & E3).
  { destruct (claimPodIP_fields r p [] ne s) as [[q Hq] Hc]. unfold s1, addrs. clear -s.
    generalize (podAddresses p) as l. intros l. revert s. induction l as [|a l IH]; intros s; cbn.
    - split; [|done]. exists (recSeq (rec_at s r)). symmetry. apply alter_id. unfold rec_at.
      intros rec ->. by destruct rec.
    - destruct (claimOne_fields r old ne s a) as [[q Hq] Hc]. cbv zeta in Hq, Hc.
      destruct (clear_ip_fields _ _ Hc) as (_&E2&E3&_). cbn in E2, E3.
      destruct (IH (claimOneIPLocked r old ne s a)) as ([q' Hq'] & F2 & F3).
      split; [exists q'; by rewrite Hq', Hq, alter_recSeq_twice|]. split; congruence. }
  assert (uid_inv s1) as Hu1 by (by apply (uid_inv_alter s s1 (set_recSeq q) r)).
  destruct (ip_inv_releases C1 s1 r uid (fun ip => ip = ""%string \/ ip ∈ addrs) old Hu1) as (C2 & Hi2 & HC2);
    [by rewrite E2|done|].
  exists C2. split; [exact Hi2|]. split.
  - intros ip. rewrite HC2, HC1. split.
    + intros [[Hin|[_ ?]] Hno]; [|done]. destruct (decide (ip ∈ addrs)) as [|Hna]; [done|].
      destruct Hno. destruct (Hold ip Hin). split; [done|]. split; [done|]. tauto.
    + intros Hin. split; [by right|]. intros (_ & _ & Hk). apply Hk. by right.
  - intros u ip Hne. rewrite HC2, HC1. naive_solver.
Qed.

Lemma ip_ok_upsert now p s :
  0 < now -> event_ok name_of p -> store_inv name_of None s -> ip_ok s -> ip_ok (upsertLocked now p s).
Proof.
  intros Hnow Hev Hinv Hi. unfold upsertLocked. destruct (unchangedLocked s p).
  { destruct (clear_gen_fields s _ (only_bump [""; ""]%string s)) as (E1&_&E3&_&_&_&_&E8&E9&_).
    apply (ip_ok_ext s); done. }
  rewrite upsert_body_eq. destruct (upsert_indexed now p s) as [s1 r] eqn:He.
  set (uid := UID (ev_pod p)) in *.
  pose proof (store_inv_upsert_indexed name_of now p s s1 r Hev Hinv He) as Hinv1.
  destruct (upsert_indexed_fields now p s s1 r (si_uid _ _ _ Hinv) He) as (_ & _ & Hp & _).
  fold uid in Hp. assert (pods s1 !! uid = Some r) as Hr1 by (by rewrite Hp, lookup_insert_eq).
  destruct (ip_upsert_indexed now p s s1 r Hev Hinv Hi He) as [Hi1 Hrep].
  destruct (ip_claimName (reported s) _ now (ev_pod p) r s1 uid Hnow Hinv1 Hr1 Hi1 Hrep) as (C & HiC & HCu & HCo).
  pose proof (pods_claimName _ now (ev_pod p) r s1 uid Hinv1 Hr1) as Hr2.
  destruct (claimName_spec name_of now p r s1 Hnow Hev Hinv1 Hr1) as [Hinv2 El2].
  set (s2 := claimName now (ev_pod p) r s1) in *.
  assert (live s2 !! uid = Some (live_event p)) as Hlp.
  { rewrite El2, map_lookup_filter. rewrite (live_upsert_indexed now p s s1 r (si_uid _ _ _ Hinv) He).
    fold uid. rewrite lookup_insert_eq. cbn. rewrite option_guard_True; [done|]. by left. }
  destruct (ip_claimPodIP C r uid (ev_pod p) (old_ips p s) (first_term p s) s2) as (C' & HiC' & HCu' & HCo');
    [apply Hinv2|done|done| |].
  { intros ip. rewrite HCu. unfold old_ips. fold uid. unfold reported.
    destruct (live s !! uid) as [lp|] eqn:El; [|by intros ?%not_elem_of_nil].
    apply lookup_live_Some in El as (r' & rec & Hr' & Hrec & [_ ->]%live_rec_Some). rewrite Hr'.
    unfold rec_at. rewrite Hrec. cbn. intros Hin. split; [done|]. exact (proj2 (podAddresses_raw _ _ Hin)). }
  destruct (store_inv_claimPodIP name_of None r (ev_pod p) (old_ips p s) (first_term p s) s2 Hinv2) as [Hinv3 El3].
  set (s3 := claimPodIPLocked _ _ _ _ s2) in *.
  assert (ip_ok s3) as Hi3.
  { apply (ip_inv_C C'); [|done]. intros u ip _. unfold reported. rewrite El3.
    destruct (decide (u = uid)) as [->|Hne]; [by rewrite Hlp|]. rewrite HCo' by done. rewrite HCo by done. done. }
  destruct (clear_gen_fields s3 _ (only_bump [old_node p s; NodeName (ev_pod p)] s3)) as (E1&_&E3&_&_&_&_&E8&E9&_).
  apply (ip_ok_ext s3); try done. unfold live. congruence.
Qed.

(** *** Sweep and the waiter operations *)

Lemma dropClaimant_absent ip r s :
  claim s ip (UID (pod (rec_at s r))) <> Some r ->
  (forall i u, claim (dropClaimantLocked ip r s) i u = claim s i u) /\
  byPodIP (dropClaimantLocked ip r s) = byPodIP s.
Proof.
  intros Hno. split.
  - intros i u. rewrite claim_drop. rewrite decide_False; [done|]. by intros (-> & -> & ?).
  - unfold dropClaimantLocked. destruct (ipClaimants s !! ip); [|done]. by repeat case_decide.
Qed.

Lemma ip_ok_sweepPod now uid s : store_inv name_of None s -> ip_ok s -> ip_ok (sweepPodLocked now uid s).
Proof.
  intros Hinv Hi. unfold sweepPodLocked. destruct (pods s !! uid) as [r|] eqn:Hr; [|done].
  destruct (expired _ _) eqn:He; [|done]. cbv zeta. set (l := recordAddresses s r).
  destruct (ui_rec _ (si_uid _ _ _ Hinv) _ _ Hr) as (rec & Hrec & Hru).
  assert (live s !! uid = None) as Hdead.
  { rewrite lookup_live, Hr. cbn. rewrite Hrec. cbn. unfold rec_at in He. rewrite Hrec in He. cbn in He.
    unfold live_rec. apply andb_true_iff in He as [He%negb_true_iff _]. by rewrite He. }
  assert (forall s0, recs s0 = recs s -> (forall i u, claim s0 i u = claim s i u) -> byPodIP s0 = byPodIP s ->
    let s1 := foldl (fun s ip => dropClaimantLocked ip r s) s0 l in
    (forall i u, claim s1 i u = claim s i u) /\ byPodIP s1 = byPodIP s) as Hfold.
  { induction l as [|a l IH]; intros s0 F1 F2 F3; cbn; [done|].
    assert (claim s0 a (UID (pod (rec_at s0 r))) <> Some r) as Hno.
    { rewrite F2. unfold rec_at. rewrite F1, Hrec. cbn. rewrite Hru. intros [_ Hin]%(ii_claims _ _ Hi).
      unfold reported in Hin. rewrite Hdead in Hin. by apply not_elem_of_nil in Hin. }
    destruct (dropClaimant_absent a r s0 Hno) as [G1 G2]. apply IH.
    - destruct (clear_ip_fields _ _ (only_dropClaimant a r s0)) as (E&_). congruence.
    - intros i u. by rewrite G1.
    - congruence. }
  destruct (Hfold s eq_refl (fun _ _ => eq_refl) eq_refl) as [Hcl Hby]. clear Hfold.
  set (s1 := foldl _ s l) in *.
  destruct (clear_ip_fields s s1) as (E1&E2&E3&_).
  { apply (only_foldl clear_ip (fun s ip => dropClaimantLocked ip r s)). intros ip. apply only_dropClaimant. }
  assert (ip_inv (reported s) s1) as Hi1.
  { destruct Hi as [Hc Hh Hf]. split.
    - intros i u r'. rewrite Hcl, E3. apply Hc.
    - intros i r'. rewrite Hby. intros [u Hu]%Hh. exists u. by rewrite Hcl.
    - intros i u r'. rewrite Hcl, Hby. unfold holds_addr, rec_at. rewrite E1. apply Hf. }
  destruct (removeRecord_fields r uid s1) as (D1&_&D3&_&_&_&D7&D8&_). cbv zeta in *.
  assert (live (removeRecordLocked r uid s1) = live s) as El.
  { unfold live, live_of. rewrite D1, D3, E1, E3, omap_delete. by apply delete_id. }
  apply (ip_inv_C (reported s)); [intros u ip _; unfold reported; by rewrite El|].
  apply (pods_lost _ s1 _ uid); try done. unfold reported. by rewrite Hdead.
Qed.

Lemma ip_ok_sweep now s : store_inv name_of None s -> ip_ok s -> ip_ok (sweep now s).
Proof.
  intros Hinv Hi. unfold sweep. destruct (due_prefix now (pending s)) as [|d l]; [done|].
  set (dl := d :: l). clearbody dl.
  assert (ip_ok (foldl (sweep_one now) s dl)) as Hi2.
  { revert s Hinv Hi. induction dl as [|a dl IH]; intros s Hinv Hi; cbn; [done|].
    assert (store_inv name_of None (sweep_one now s a) /\ ip_ok (sweep_one now s a)) as [? ?]; [|by apply IH].
    split.
    - by apply (store_inv_sweep_one name_of now s a).
    - unfold sweep_one. destruct (isPod a); [by apply ip_ok_sweepPod|].
      destruct (clear_cont_fields s (sweepContainerLocked now (p_id a) s)) as (E1&E2&E3&E4&E5&E6&E7&E8&_);
        [apply only_sweepContainer|]. apply (ip_ok_ext s); try done. unfold live. congruence. }
  set (s2 := foldl (sweep_one now) s dl) in *. set (s3 := set_pending _ _).
  destruct (clear_gen_fields s3 _ (only_bump [] s3)) as (E1&_&E3&_&_&_&_&E8&E9&_).
  by apply (ip_ok_ext s2).
Qed.

Lemma ip_ok_op s t : op_ok name_of t -> store_inv name_of None s -> ip_ok s -> ip_ok (apply_op s t).
Proof.
  destruct t as [now [p|uid| | | |]]; intros [Hnow Hev] Hinv Hi; cbn [fst snd] in *; unfold apply_op; cbn [fst snd].
  - unfold UpsertPod. destruct (resyncNoOp s p); [done|by apply ip_ok_upsert].
  - by apply ip_ok_delete.
  - by apply ip_ok_sweep.
  - unfold Drain. destruct (draining s); [done|]. set (l := elements _). set (s0 := set_draining true s).
    assert (ip_ok s0) as Hi0 by (by apply (ip_ok_ext s)). clearbody s0 l. generalize 0. intros z. revert Hi0. clear Hinv Hi.
    assert (clear_cont (foldr (fun id acc => let '(s, n) := acc in let '(s', k) := wakeLocked id s in (s', n + k)) (s0, z) l).1
      = clear_cont s0) as Hc.
    { induction l as [|id l IH]; simpl; [done|]. destruct (foldr _ _ _) as [s1 n1]. simpl in IH.
      pose proof (only_wake id s1) as Hw. cbv beta in Hw. destruct (wakeLocked id s1) as [s2 n2]. simpl in *. congruence. }
    destruct (clear_cont_fields _ _ Hc) as (E1&_&E3&_&_&_&E7&E8&_). apply ip_ok_ext; try done. unfold live. congruence.
  - unfold TryPark. case_decide; by apply (ip_ok_ext s).
  - unfold Unpark. case_decide; [by apply (ip_ok_ext s)|done].
Qed.

Lemma run_ip_ok t m ops : Forall (op_ok name_of) ops -> ip_ok (run (New t m) ops).
Proof.
  intros Hok. pose proof (store_inv_New name_of t m) as Hinv. unfold run.
  assert (ip_ok (New t m)) as Hi.
  { split; [|done|done]. intros ip uid r. split; [done|]. by intros [? _]. }
  revert Hinv Hi. generalize (New t m) as s. induction Hok as [|o ops Ho Hok IH]; intros s Hinv Hi; simpl; [done|].
  apply IH; [by apply op_refines|by apply ip_ok_op].
Qed.

(** C28: a lookup by pod IP is exact: [GetPodByIP] answers only with a live pod
    that reports the address now, and answers whenever some live pod reports
    it, whatever adds, moves, deletes, name reuses and sweeps came before. *)
Theorem GetPodByIP_exact t m ops ip :
  Forall (op_ok name_of) ops ->
  let s := run (New t m) ops in
  (forall np, GetPodByIP s ip = Some np ->
     exists uid lp, live s !! uid = Some lp /\ np = served lp /\ Canonical ip ∈ podAddresses (lp_pod lp)) /\
  (forall uid lp, live s !! uid = Some lp -> Canonical ip ∈ podAddresses (lp_pod lp) ->
     is_Some (GetPodByIP s ip)).
Proof.
  intros Hok s. destruct (run_inv name_of t m ops Hok) as [Hinv _]. pose proof (run_ip_ok t m ops Hok) as Hi.
  fold s in Hinv, Hi.
  assert (forall r, byPodIP s !! Canonical ip = Some r -> exists uid rec, recs s !! r = Some rec /\
    live s !! uid = Some (mkLive (pod rec) (ownerRefs rec) (resourceVersion rec)) /\
    Canonical ip ∈ podAddresses (pod rec)) as Hheld.
  { intros r [uid [Hp Hin]%(ii_claims _ _ Hi)]%(ii_held _ _ Hi).
    destruct (ui_rec _ (si_uid _ _ _ Hinv) _ _ Hp) as (rec & Hrec & _). exists uid, rec.
    rewrite (reported_live s uid r rec Hp Hrec) in Hin. unfold is_zero in Hin.
    case_bool_decide as Hz; [|by apply not_elem_of_nil in Hin]. split; [done|]. split; [|done].
    rewrite lookup_live, Hp. cbn. rewrite Hrec. cbn. unfold live_rec, is_zero. by rewrite bool_decide_eq_true_2. }
  assert (forall r, byPodIP s !! Canonical ip = Some r -> exists uid lp, live s !! uid = Some lp /\
    GetPodByIP s ip = Some (served lp) /\ Canonical ip ∈ podAddresses (lp_pod lp)) as Hget.
  { intros r Hr. destruct (Hheld r Hr) as (uid & rec & Hrec & Hl & Hin). exists uid. eexists. split; [exact Hl|].
    split; [|done]. unfold GetPodByIP, node_pod, rec_at. rewrite Hr, Hrec. cbn.
    pose proof (si_deleted _ _ _ Hinv _ _ Hl) as Hd. cbn in Hd. rewrite Hd.
    rewrite bool_decide_eq_false_2 by (by intros [? ?]). cbn.
    destruct (finishedPhase (Phase (pod rec))) eqn:Hph; [|done].
    unfold podAddresses in Hin. rewrite Hph, orb_true_r in Hin. by apply not_elem_of_nil in Hin. }
  split.
  - intros np Hnp. assert (exists r, byPodIP s !! Canonical ip = Some r) as [r Hr].
    { unfold GetPodByIP in Hnp. destruct (byPodIP s !! Canonical ip); [by eexists|done]. }
    destruct (Hget r Hr) as (uid & lp & Hl & Hg & Hin). exists uid, lp. split; [done|]. split; [congruence|done].
  - intros uid lp Hl Hin. pose proof Hl as (r & _ & Hp & _)%lookup_live_Some.
    assert (claim s (Canonical ip) uid = Some r) as Hcl.
    { apply (ii_claims _ _ Hi). split; [done|]. unfold reported. by rewrite Hl. }
    destruct (ip_ok_held s (Canonical ip) uid r Hinv Hi Hcl) as [r' Hr'].
    destruct (Hget r' Hr') as (? & ? & _ & -> & _). by eexists.
Qed.

End IP.

(** ** Witness: the one pod seen answers for its address *)

Lemma GetPodByIP_exact_witness :
  is_Some (@GetPodByIP no_canonical (run (H := no_canonical) (New 10 2) demo_ops) "10.0.0.1").
Proof.
  apply (proj2 (@GetPodByIP_exact no_canonical demo_name 10 2 demo_ops "10.0.0.1" demo_ops_ok)
    "u"%string (live_event demo_event)).
  - vm_compute. reflexivity.
  - apply list_elem_of_singleton. reflexivity.
Defined.
