(* ===== verification/StoreSweep.v ===== *)
(** * Tombstones and the sweep ([store.go] deletePodLocked, [sweep.go])

    The pending list is a queue of hints ordered by expiry; the stamps on the
    records and entries are the truth.  The sweep pops the due prefix, and the
    theorems say that this misses nothing and takes nothing that is live or
    still within its TTL. *)

From S2P Require Import Prelude Store StoreIndex StoreRefine.
Local Open Scope Z_scope.

Section Sweep.
Context `{AddrForm}.

(** ** Stamps *)

(** From [s] to [s'], stamps are appended at [now + ttl], each with its hint. *)
Record stamps (now : Z) (s s' : Store) : Prop := {
  sp_ttl : ttl s' = ttl s;
  sp_ext : exists l, pending s' = pending s ++ l /\ Forall (fun p => when_ p = now + ttl s /\ 0 < ttl s) l;
  sp_cont : forall id e, byContainer s' !! id = Some e -> entryExpireAt e <> 0 ->
    mkPending (entryExpireAt e) "" id false ∈ pending s' \/
    (exists e0, byContainer s !! id = Some e0 /\ entryExpireAt e0 = entryExpireAt e);
  sp_pod : forall uid r, pods s' !! uid = Some r -> expireAt (rec_at s' r) <> 0 ->
    mkPending (expireAt (rec_at s' r)) uid "" true ∈ pending s' \/
    (pods s !! uid = Some r /\ expireAt (rec_at s r) = expireAt (rec_at s' r)) }.

Lemma stamps_refl now s : stamps now s s.
Proof. split; [done|exists []; by rewrite app_nil_r|eauto|eauto]. Qed.

Lemma stamps_trans now s1 s2 s3 : stamps now s1 s2 -> stamps now s2 s3 -> stamps now s1 s3.
Proof.
  intros [T1 (l1 & E1 & F1) C1 P1] [T2 (l2 & E2 & F2) C2 P2]. split.
  - congruence.
  - exists (l1 ++ l2). rewrite E2, E1, app_assoc. split; [done|]. apply Forall_app. by rewrite T1 in F2.
  - intros id e He Hz. destruct (C2 id e He Hz) as [?|(e0 & He0 & Ez)]; [by left|].
    destruct (C1 id e0 He0) as [Hin|(e1 & He1 & Ez1)]; [congruence| |right; exists e1; split; [done|congruence]].
    left. rewrite E2, <- Ez. apply elem_of_app. by left.
  - intros uid r Hr Hz. destruct (P2 uid r Hr Hz) as [?|[Hr0 Ez]]; [by left|].
    destruct (P1 uid r Hr0) as [Hin|[Hr1 Ez1]]; [congruence| |right; split; [done|congruence]].
    left. rewrite E2, <- Ez. apply elem_of_app. by left.
Qed.

(** A step that stamps nothing. *)
Lemma stamps_quiet now s s' : ttl s' = ttl s -> pending s' = pending s ->
  (forall id e, byContainer s' !! id = Some e -> entryExpireAt e <> 0 -> byContainer s !! id = Some e) ->
  (forall uid r, pods s' !! uid = Some r -> expireAt (rec_at s' r) <> 0 ->
     pods s !! uid = Some r /\ expireAt (rec_at s r) = expireAt (rec_at s' r)) ->
  stamps now s s'.
Proof.
  intros E1 E2 Hc Hp. split; [done|exists []; by rewrite E2, app_nil_r|eauto|eauto].
Qed.

Lemma stamps_same now s s' : ttl s' = ttl s -> pending s' = pending s -> byContainer s' = byContainer s ->
  recs s' = recs s -> pods s' = pods s -> stamps now s s'.
Proof.
  intros E1 E2 E3 E4 E5. apply stamps_quiet; [done|done| |].
  - intros id e. by rewrite E3.
  - intros uid r. unfold rec_at. by rewrite E4, E5.
Qed.

Lemma stamps_clear_ip now s s' : clear_ip s' = clear_ip s -> stamps now s s'.
Proof. intros (?&?&?&?&?&?&?&?&_)%clear_ip_fields. by apply stamps_same. Qed.
Lemma stamps_clear_node now s s' : clear_node s' = clear_node s -> stamps now s s'.
Proof. intros (?&?&?&?&?&?&?&?&?&_)%clear_node_fields. by apply stamps_same. Qed.
Lemma stamps_clear_gen now s s' : clear_gen s' = clear_gen s -> stamps now s s'.
Proof. intros (?&?&?&?&?&?&?&?&?&?)%clear_gen_fields. by apply stamps_same. Qed.

Lemma stamps_foldr now {A} (f : A -> Store -> Store) l s :
  (forall a s, stamps now s (f a s)) -> stamps now s (foldr f s l).
Proof.
  intros Hf. induction l as [|a l IH]; cbn; [apply stamps_refl|].
  eapply stamps_trans; [exact IH|apply Hf].
Qed.

(** Writing a record whose stamp does not change or is cleared. *)
Lemma stamps_alter now s s' f r :
  recs s' = alter f r (recs s) -> pods s' = pods s -> byContainer s' = byContainer s ->
  pending s' = pending s -> ttl s' = ttl s ->
  (forall rec, expireAt (f rec) = expireAt rec \/ expireAt (f rec) = 0) -> stamps now s s'.
Proof.
  intros E1 E2 E3 E4 E5 Hf. apply stamps_quiet; [done|done|intros id e; by rewrite E3|].
  intros uid r'. rewrite E2. unfold rec_at. rewrite E1. destruct (decide (r = r')) as [->|];
    [|by rewrite lookup_alter_ne].
  rewrite lookup_alter_eq. destruct (recs s !! r') as [rec|]; cbn; [|done].
  intros Hp Hz. split; [done|]. by destruct (Hf rec) as [->|?].
Qed.

Lemma stamps_entry now id e s : byContainer s !! id = Some e -> stamps now s (expireEntryLocked now id e s).
Proof.
  intros He. unfold expireEntryLocked. case_decide as Ht.
  - apply stamps_quiet; try done. intros i e'. cbn. rewrite lookup_delete_Some. tauto.
  - split; [done| | |by right].
    + eexists [_]. split; [done|]. apply Forall_singleton; cbn; lia.
    + intros i e'. cbn. rewrite lookup_insert_Some. intros [[<- <-]|[_ Hi]] _; [left|right; eauto].
      apply elem_of_app. right. by apply list_elem_of_singleton.
Qed.

Lemma stamps_expire_old now uid ids id s : stamps now s (expire_old now uid ids id s).
Proof.
  unfold expire_old. case_decide; [apply stamps_refl|]. destruct (byContainer s !! id) eqn:E; [|apply stamps_refl].
  destruct (_ && _); [by apply stamps_entry|apply stamps_refl].
Qed.

Lemma stamps_index_one now uid id c s : stamps now s (index_one uid id c s).
Proof.
  unfold index_one. set (s1 := set_byContainer _ s). eapply (stamps_trans _ _ s1).
  - apply stamps_quiet; try done. intros i e. cbn. rewrite lookup_insert_Some. by intros [[_ <-]|[_ ?]].
  - unfold wakeLocked. destruct (waiters s1 !! id) as [[|c' ws]|]; by apply stamps_same.
Qed.

Lemma stamps_drop_entry now uid id s : stamps now s (drop_entry uid id s).
Proof.
  unfold drop_entry. destruct (byContainer s !! id); [|apply stamps_refl]. case_decide; [|apply stamps_refl].
  apply stamps_quiet; try done. intros i e. cbn. rewrite lookup_delete_Some. tauto.
Qed.

Lemma stamps_tombstone_entry now uid id s : 0 < ttl s ->
  stamps now s (tombstone_entry uid (now + ttl s) id s).
Proof.
  intros Ht. unfold tombstone_entry. destruct (byContainer s !! id) as [e|]; [|apply stamps_refl].
  destruct (_ && _); [|apply stamps_refl]. split; [done| | |by right].
  - eexists [_]. split; [done|]. apply Forall_singleton; cbn; lia.
  - intros i e'. cbn. rewrite lookup_insert_Some. intros [[<- <-]|[_ Hi]] _; [left|right; eauto].
    apply elem_of_app. right. by apply list_elem_of_singleton.
Qed.

Lemma stamps_indexContainers now r uid cs old s : stamps now s (indexContainersLocked now r uid cs old s).
Proof.
  unfold indexContainersLocked. cbv zeta.
  eapply stamps_trans; [|apply stamps_foldr; intros; apply stamps_expire_old].
  eapply stamps_trans; [|eapply (stamps_alter _ _ _ _ r); [reflexivity..|by left]].
  apply stamps_foldr. intros [id c] s'. apply stamps_index_one.
Qed.

Lemma stamps_removeRecord now r uid s : stamps now s (removeRecordLocked r uid s).
Proof.
  unfold removeRecordLocked. set (s1 := dropNameIndexLocked r s). cbv zeta.
  apply (stamps_trans _ _ s1). { unfold s1, dropNameIndexLocked. case_decide; by apply stamps_same. }
  set (s2 := foldr _ s1 _). apply (stamps_trans _ _ s2).
  - unfold s2. apply stamps_foldr. intros; apply stamps_drop_entry.
  - apply stamps_quiet; try done. intros u r'. cbn. rewrite lookup_delete_Some. tauto.
Qed.

Lemma stamps_tombstones now uid t ids s : t = now + ttl s -> 0 < ttl s ->
  stamps now s (foldr (tombstone_entry uid t) s ids).
Proof.
  intros -> Ht. induction ids as [|id ids IH]; cbn; [apply stamps_refl|].
  eapply stamps_trans; [exact IH|]. pose proof (sp_ttl _ _ _ IH) as E.
  set (s1 := foldr _ s ids) in *. rewrite <- E. apply stamps_tombstone_entry. by rewrite E.
Qed.

Lemma stamps_deletePod now uid s : uid_inv s -> stamps now s (deletePodLocked now uid s).
Proof.
  intros Hu. unfold deletePodLocked. destruct (pods s !! uid) as [r|] eqn:Hr; [|apply stamps_refl]. cbv zeta.
  set (node := NodeName _). set (s1 := removeFromNodeLocked node uid s). set (s2 := foldl _ s1 _).
  assert (clear_node s1 = clear_node s) as Hs1 by apply only_removeFromNode.
  assert (clear_ip s2 = clear_ip s1) as Hs2.
  { apply (only_foldl clear_ip (fun s ip => releaseIPLocked r ip s)). intros ip. apply only_releaseIP. }
  eapply stamps_trans; [|apply stamps_clear_gen, only_bump].
  eapply (stamps_trans _ _ s1); [by apply stamps_clear_node|].
  eapply (stamps_trans _ _ s2); [by apply stamps_clear_ip|].
  assert (forall u r', pods s2 !! u = Some r' -> r' = r -> u = uid) as Hinj.
  { destruct (clear_node_fields _ _ Hs1) as (_&_&E&_). destruct (clear_ip_fields _ _ Hs2) as (_&_&E'&_).
    intros u r'. rewrite E', E. intros Hp ->. by apply (uid_inj s u uid r). }
  clearbody s2. case_decide as Ht; [apply stamps_removeRecord|].
  set (f := fun rec => _). set (s3 := stampLocked _ _).
  apply (stamps_trans _ _ s3); [|apply stamps_tombstones; cbn; lia].
  split; [done| |by right; eauto|].
  - eexists [_]. split; [done|]. apply Forall_singleton; cbn; lia.
  - intros u r' Hp Hz. unfold rec_at in *. cbn in *. destruct (decide (r = r')) as [<-|Hne].
    + rewrite (Hinj u r Hp eq_refl) in *. rewrite lookup_alter_eq in *. destruct (recs s2 !! r) as [rec|]; cbn in *; [|by right].
      left. apply elem_of_app. right. by apply list_elem_of_singleton.
    + rewrite lookup_alter_ne in * by done. by right.
Qed.

Lemma stamps_upsert_indexed now p s s1 r :
  upsert_indexed now p s = (s1, r) -> uid_inv s -> stamps now s s1.
Proof.
  unfold upsert_indexed. destruct (find_or_new (UID (ev_pod p)) s) as [s0 r0] eqn:Hf. cbv zeta.
  set (onode := if bool_decide _ then _ else _). set (oids := if bool_decide _ then _ else _).
  intros [= <- <-] Hu. eapply stamps_trans; [|apply stamps_clear_node, only_addToNode].
  set (s3 := indexContainersLocked _ _ _ _ _ _). apply (stamps_trans _ _ s3).
  2:{ case_decide; [apply stamps_refl|apply stamps_clear_node, only_removeFromNode]. }
  eapply stamps_trans; [|apply stamps_indexContainers].
  eapply stamps_trans; [|eapply (stamps_alter _ _ _ _ r0); [reflexivity..|by right]].
  unfold find_or_new in Hf. destruct (pods s !! UID (ev_pod p)) as [r|] eqn:Hr; simplify_eq; [apply stamps_refl|].
  apply stamps_quiet; try done. intros u r' Hp Hz. unfold rec_at in *. cbn in *.
  destruct (decide (nextRec s = r')) as [<-|Hne]; [by rewrite lookup_insert_eq in Hz|].
  rewrite lookup_insert_ne in * by done. destruct (decide (UID (ev_pod p) = u)) as [<-|];
    [rewrite lookup_insert_eq in Hp; congruence|by rewrite lookup_insert_ne in Hp].
Qed.

Lemma stamps_claimPodIP now r p old ne s : stamps now s (claimPodIPLocked r p old ne s).
Proof.
  destruct (claimPodIP_fields r p old ne s) as [[q Hq] Hc]. cbv zeta in Hq, Hc.
  destruct (clear_ip_fields _ _ Hc) as (_&_&E3&E4&E5&_&_&E8&_). cbn in E3, E4, E5, E8.
  eapply (stamps_alter now _ _ _ r); [exact Hq|done..|by left].
Qed.

Lemma stamps_claimName now p r s : uid_inv s -> stamps now s (claimName now p r s).
Proof.
  intros Hu. unfold claimName. destruct (byPodName s !! nameKey p) as [prev|]; [|by apply stamps_same].
  destruct (_ && _); [|by apply stamps_same]. set (s0 := set_nameReused _ s).
  assert (uid_inv s0) as Hu0 by (by destruct Hu).
  apply (stamps_trans _ _ s0); [by apply stamps_same|].
  eapply stamps_trans; [by apply stamps_deletePod|]. by apply stamps_same.
Qed.

Lemma stamps_upsert name_of now p s :
  event_ok name_of p -> store_inv name_of None s -> stamps now s (upsertLocked now p s).
Proof.
  intros Hev Hinv. unfold upsertLocked. destruct (unchangedLocked s p); [apply stamps_clear_gen, only_bump|].
  rewrite upsert_body_eq. destruct (upsert_indexed now p s) as [s1 r] eqn:He.
  pose proof (store_inv_upsert_indexed name_of now p s s1 r Hev Hinv He) as Hinv1.
  eapply stamps_trans; [|apply stamps_clear_gen, only_bump].
  eapply stamps_trans; [|apply stamps_claimPodIP].
  eapply stamps_trans; [|apply stamps_claimName, Hinv1]. by apply (stamps_upsert_indexed now p s s1 r), Hinv.
Qed.

(** ** The queue invariant *)

(** Every stamp has its hint, hints are in order and within one TTL of the
    last clock reading. *)
Record pend_inv (now : Z) (s : Store) : Prop := {
  pe_sorted : StronglySorted (fun p q => when_ p <= when_ q) (pending s);
  pe_bound : Forall (fun p => 0 < when_ p <= now + ttl s) (pending s);
  pe_cont : forall id e, byContainer s !! id = Some e -> entryExpireAt e <> 0 ->
    mkPending (entryExpireAt e) "" id false ∈ pending s;
  pe_pod : forall uid r, pods s !! uid = Some r -> expireAt (rec_at s r) <> 0 ->
    mkPending (expireAt (rec_at s r)) uid "" true ∈ pending s }.

Lemma StronglySorted_const {A} (f : A -> Z) c l :
  Forall (fun a => f a = c) l -> StronglySorted (fun a b => f a <= f b) l.
Proof.
  induction 1 as [|a l Ha Hl IH]; constructor; [done|]. eapply Forall_impl; [exact Hl|]. cbn. lia.
Qed.

Lemma pend_inv_stamps now now' s s' : 0 < now <= now' -> stamps now' s s' -> pend_inv now s -> pend_inv now' s'.
Proof.
  intros Hle [T (l & E & F) C P] [Hs Hb Hc Hp]. split.
  - rewrite E. apply StronglySorted_app_2; [|done|].
    2:{ apply (StronglySorted_const _ (now' + ttl s)). eapply Forall_impl; [exact F|]. by intros ? [? _]. }
    intros a b Ha Hb'. rewrite Forall_forall in Hb, F. specialize (Hb a Ha). specialize (F b Hb'). lia.
  - rewrite E, T. apply Forall_app. split; (eapply Forall_impl; [eassumption|]); cbn; lia.
  - intros id e He Hz. destruct (C id e He Hz) as [?|(e0 & He0 & Ez)]; [done|].
    rewrite <- Ez, E. apply elem_of_app. left. apply Hc; [done|congruence].
  - intros uid r Hr Hz. destruct (P uid r Hr Hz) as [?|[Hr0 Ez]]; [done|].
    rewrite <- Ez, E. apply elem_of_app. left. apply Hp; [done|congruence].
Qed.

(** ** The sweep *)

Lemma due_prefix_split now l : exists rest, l = due_prefix now l ++ rest /\ drop (length (due_prefix now l)) l = rest.
Proof.
  induction l as [|p l (rest & E & Hd)]; cbn; [by exists []|]. destruct (expired _ _); cbn.
  - exists rest. split; [by f_equal|done].
  - by exists (p :: l).
Qed.

(** In an ordered queue the due prefix is every due entry. *)
Lemma due_prefix_all now l p : StronglySorted (fun p q => when_ p <= when_ q) l ->
  0 < when_ p -> (forall q, q ∈ l -> 0 < when_ q) ->
  p ∈ l -> expired (when_ p) now = true -> p ∈ due_prefix now l.
Proof.
  intros Hs Hp Hpos Hin Hdue. induction Hs as [|a l Hs IH Hall]; cbn; [done|].
  assert (expired (when_ a) now = true) as ->.
  { unfold expired, is_zero in *. apply andb_true_iff in Hdue as [_ Hlt%bool_decide_eq_true].
    assert (0 < when_ a) by (apply Hpos; by left). rewrite bool_decide_eq_false_2 by lia. cbn.
    apply bool_decide_eq_true. apply elem_of_cons in Hin as [->|Hin]; [done|].
    rewrite Forall_forall in Hall. specialize (Hall p Hin). cbn in Hall. lia. }
  apply elem_of_cons in Hin as [->|Hin]; [by left|]. right. apply IH; [|done]. intros q Hq. apply Hpos. by right.
Qed.

(** One due hint only ever removes. *)
Record shrinks (s s' : Store) : Prop := {
  sk_ttl : ttl s' = ttl s; sk_recs : recs s' = recs s; sk_pending : pending s' = pending s;
  sk_cont : byContainer s' ⊆ byContainer s; sk_pods : pods s' ⊆ pods s }.

Lemma shrinks_trans s1 s2 s3 : shrinks s1 s2 -> shrinks s2 s3 -> shrinks s1 s3.
Proof. intros [] []. split; try congruence; by etrans. Qed.

Lemma drop_entries_fields uid ids s :
  byContainer (foldr (drop_entry uid) s ids) ⊆ byContainer s /\ pending (foldr (drop_entry uid) s ids) = pending s /\
  (forall id e, byContainer s !! id = Some e -> podUID e <> uid \/ id ∉ ids ->
     byContainer (foldr (drop_entry uid) s ids) !! id = Some e).
Proof.
  induction ids as [|a ids (IH1 & IH2 & IH3)]; cbn; [done|]. unfold drop_entry at 1 3 5.
  set (s1 := foldr (drop_entry uid) s ids) in *. destruct (byContainer s1 !! a) as [e1|] eqn:Ha.
  - case_decide as Hd; cbn; (split; [|split; [done|]]).
    + etrans; [apply delete_subseteq|exact IH1].
    + intros id e He Hor. rewrite lookup_delete_ne; [apply IH3; [done|set_solver]|]. intros ->.
      assert (byContainer s !! id = Some e1) by (by apply (lookup_weaken _ _ _ _ Ha)). destruct Hor as [Hne|Hni].
      * congruence.
      * apply Hni. by left.
    + done.
    + intros id e He Hor. apply IH3; [done|set_solver].
  - split; [done|split; [done|]]. intros id e He Hor. apply IH3; [done|set_solver].
Qed.

Lemma removeRecord_shrinks r uid s : shrinks s (removeRecordLocked r uid s) /\
  (forall id e, byContainer s !! id = Some e -> podUID e <> uid \/ id ∉ containerIDs (rec_at s r) ->
     byContainer (removeRecordLocked r uid s) !! id = Some e).
Proof.
  destruct (removeRecord_fields r uid s) as (D1&_&D3&D4&_). cbv zeta in D1, D3, D4.
  unfold removeRecordLocked in *. cbv zeta in *. set (s1 := dropNameIndexLocked r s) in *.
  assert (byContainer s1 = byContainer s /\ pending s1 = pending s /\ recs s1 = recs s) as (E1 & E2 & E3).
  { unfold s1, dropNameIndexLocked. by case_decide. }
  destruct (drop_entries_fields uid (elements (containerIDs (rec_at s1 r))) s1) as (F1 & F2 & F3).
  split.
  - split; [done|done|by rewrite <- E2| |rewrite D3; apply delete_subseteq]. by rewrite <- E1.
  - intros id e He Hor. cbn. apply F3; [by rewrite E1|]. rewrite elem_of_elements. unfold rec_at in *. by rewrite E3.
Qed.

Lemma sweep_one_shrinks now d s : shrinks s (sweep_one now s d).
Proof.
  unfold sweep_one, sweepPodLocked, sweepContainerLocked. destruct (isPod d).
  - destruct (pods s !! p_uid d) as [r|]; [|by split]. destruct (expired _ _); [|by split]. cbv zeta.
    set (s1 := foldl _ s _). assert (clear_ip s1 = clear_ip s) as Hs1.
    { apply (only_foldl clear_ip (fun s ip => dropClaimantLocked ip r s)). intros ip. apply only_dropClaimant. }
    destruct (clear_ip_fields _ _ Hs1) as (E1&_&E3&E4&E5&_&_&E8&_).
    eapply (shrinks_trans _ s1); [split; by rewrite ?E1, ?E3, ?E4, ?E5, ?E8|]. apply removeRecord_shrinks.
  - destruct (byContainer s !! p_id d); [|by split]. destruct (expired _ _); [|by split].
    split; try done. apply delete_subseteq.
Qed.

Lemma sweep_all_shrinks now l s : shrinks s (foldl (sweep_one now) s l).
Proof.
  revert s. induction l as [|d l IH]; intros s; cbn; [by split|].
  eapply shrinks_trans; [apply (sweep_one_shrinks now d)|apply IH].
Qed.

(** A processed hint leaves no expired entry behind. *)
Lemma sweep_all_cont now l s id e : mkPending (entryExpireAt e) "" id false ∈ l ->
  byContainer (foldl (sweep_one now) s l) !! id = Some e -> expired (entryExpireAt e) now = false.
Proof.
  revert s. induction l as [|d l IH]; intros s; [by intros ?%not_elem_of_nil|].
  intros [<-|Hin]%elem_of_cons Hl; [|by apply (IH (sweep_one now s d))]. cbn in Hl.
  assert (byContainer (sweep_one now s (mkPending (entryExpireAt e) "" id false)) !! id = Some e) as H1.
  { apply (lookup_weaken _ _ _ _ Hl), (sk_cont _ _ (sweep_all_shrinks now l _)). }
  unfold sweep_one, sweepContainerLocked in H1. cbn in H1. destruct (byContainer s !! id) as [e0|] eqn:E0; [|congruence].
  destruct (expired (entryExpireAt e0) now) eqn:Ex; [cbn in H1; by rewrite lookup_delete_eq in H1|congruence].
Qed.

Lemma sweep_all_pod now l s uid r : mkPending (expireAt (rec_at s r)) uid "" true ∈ l ->
  pods (foldl (sweep_one now) s l) !! uid = Some r -> expired (expireAt (rec_at s r)) now = false.
Proof.
  revert s. induction l as [|d l IH]; intros s; [by intros ?%not_elem_of_nil|]. intros Hin Hl. cbn in Hl.
  assert (rec_at (sweep_one now s d) r = rec_at s r) as Er.
  { unfold rec_at. by rewrite (sk_recs _ _ (sweep_one_shrinks now d s)). }
  apply elem_of_cons in Hin as [<-|Hin]; [|rewrite <- Er in *; by apply (IH (sweep_one now s d))].
  assert (pods (sweep_one now s (mkPending (expireAt (rec_at s r)) uid "" true)) !! uid = Some r) as H1.
  { apply (lookup_weaken _ _ _ _ Hl), (sk_pods _ _ (sweep_all_shrinks now l _)). }
  unfold sweep_one, sweepPodLocked in H1. cbn in H1. destruct (pods s !! uid) as [r0|] eqn:E0; [|congruence].
  destruct (expired (expireAt (rec_at s r0)) now) eqn:Ex; [|congruence]. exfalso. cbv zeta in H1.
  destruct (removeRecord_fields r0 uid (foldl (fun s ip => dropClaimantLocked ip r0 s) s (recordAddresses s r0)))
    as (_&_&D3&_). cbv zeta in D3. rewrite D3 in H1. by rewrite lookup_delete_eq in H1.
Qed.

Lemma pend_inv_sweep now s : pend_inv now s -> pend_inv now (sweep now s) /\
  (forall id e, byContainer (sweep now s) !! id = Some e -> expired (entryExpireAt e) now = false) /\
  (forall uid r, pods (sweep now s) !! uid = Some r -> expired (expireAt (rec_at (sweep now s) r)) now = false).
Proof.
  intros [Hs Hb Hc Hp]. unfold sweep. destruct (due_prefix_split now (pending s)) as (rest & E & Hd).
  set (dl := due_prefix now (pending s)) in *.
  assert (forall p, p ∈ pending s -> expired (when_ p) now = true -> p ∈ dl) as Hall.
  { intros p Hin Hex. rewrite Forall_forall in Hb. apply due_prefix_all; try done; [by apply Hb|].
    intros q Hq. by apply Hb. }
  set (s2 := foldl (sweep_one now) s dl).
  pose proof (sweep_all_shrinks now dl s) as [T R P C Po]. fold s2 in T, R, P, C, Po.
  assert (forall id e, byContainer s2 !! id = Some e -> expired (entryExpireAt e) now = false) as Hxc.
  { intros id e He. destruct (expired _ _) eqn:Hex; [|done]. assert (entryExpireAt e <> 0) as Hz.
    { unfold expired, is_zero in Hex. intros Hz. rewrite bool_decide_eq_true_2 in Hex; done. }
    rewrite <- Hex. apply (sweep_all_cont now dl s id e); [|done]. apply Hall; [|done].
    apply Hc; [|done]. by apply (lookup_weaken _ _ _ _ He). }
  assert (forall r, rec_at s2 r = rec_at s r) as Er by (intros; unfold rec_at; by rewrite R).
  assert (forall uid r, pods s2 !! uid = Some r -> expired (expireAt (rec_at s2 r)) now = false) as Hxp.
  { intros uid r Hr. rewrite Er. destruct (expired _ _) eqn:Hex; [|done]. assert (expireAt (rec_at s r) <> 0) as Hz.
    { unfold expired, is_zero in Hex. intros Hz. rewrite bool_decide_eq_true_2 in Hex; done. }
    rewrite <- Hex. apply (sweep_all_pod now dl s uid r); [|done]. apply Hall; [|done].
    apply Hp; [|done]. by apply (lookup_weaken _ _ _ _ Hr). }
  assert (pend_inv now (set_pending (drop (length dl) (pending s2)) s2)) as Hi.
  { assert (pending s2 = dl ++ rest) as E2 by congruence.
    assert (drop (length dl) (pending s2) = rest) as E3 by congruence.
    assert (forall p, p ∈ pending s -> expired (when_ p) now = false -> p ∈ rest) as Hrest.
    { intros p Hin Hex. rewrite E in Hin. apply elem_of_app in Hin as [Hin|?]; [|done]. exfalso.
      assert (forall l, p ∈ due_prefix now l -> expired (when_ p) now = true) as Hdp.
      { induction l as [|a l IH]; cbn; [by intros ?%not_elem_of_nil|]. destruct (expired (when_ a) now) eqn:Ea;
          [|by intros ?%not_elem_of_nil]. intros [->|?]%elem_of_cons; [done|by apply IH]. }
      rewrite (Hdp _ Hin) in Hex. done. }
    split; cbn [pending byContainer pods ttl set_pending]; rewrite ?E3.
    - rewrite E in Hs. by apply StronglySorted_app_1_r in Hs.
    - rewrite E in Hb. rewrite T. by apply Forall_app in Hb as [_ ?].
    - intros id e He Hz. apply Hrest; [|by apply (Hxc id)]. apply Hc; [|done]. by apply (lookup_weaken _ _ _ _ He).
    - intros uid r Hr Hz. change (rec_at (set_pending _ s2) r) with (rec_at s2 r) in *.
      pose proof (Hxp uid r Hr) as Hx. rewrite Er in *. apply Hrest; [|done]. apply Hp; [|done].
      by apply (lookup_weaken _ _ _ _ Hr). }
  assert (dl = [] -> s2 = s) as Hnil by (unfold s2; by intros ->).
  clearbody s2 dl. destruct dl as [|d dl].
  { rewrite Hnil in * by done. by split. }
  set (s3 := set_pending _ _) in *. destruct (clear_gen_fields s3 _ (only_bump [] s3)) as (F1&_&F3&F4&F5&_&_&_&_&F10).
  split.
  - destruct Hi. split; rewrite ?F3, ?F4, ?F5, ?F10; try done.
  - rewrite F3, F5. unfold rec_at in *. rewrite F1. done.
Qed.

Lemma stamps_Drain now s : stamps now s (Drain s).1.
Proof.
  unfold Drain. destruct (draining s); [apply stamps_refl|]. set (l := elements _). set (s0 := set_draining true s).
  apply (stamps_trans _ _ s0); [by apply stamps_same|]. clearbody s0 l. generalize 0. intros z.
  induction l as [|id l IH]; simpl; [apply stamps_refl|]. destruct (foldr _ _ _) as [s1 n1]. simpl in IH.
  apply (stamps_trans _ _ s1 _ IH). unfold wakeLocked.
  destruct (waiters s1 !! id) as [[|c ws]|]; simpl; by apply stamps_same.
Qed.

(** ** Timed runs: the clock never goes back *)

Inductive reach (name_of : string -> string) (t m : Z) : Z -> Store -> Prop :=
| reach_init now : 0 < now -> reach name_of t m now (New t m)
| reach_op now now' o s : reach name_of t m now s -> now <= now' -> op_ok name_of (now', o) ->
    reach name_of t m now' (apply_op s (now', o)).

Lemma reach_inv name_of t m now s : reach name_of t m now s ->
  0 < now /\ store_inv name_of None s /\ pend_inv now s.
Proof.
  induction 1 as [now Hnow|now now' o s Hr (Hnow & Hi & Hp) Hle Hok].
  - split; [done|]. split; [apply store_inv_New|]. split; try done; constructor.
  - split; [lia|]. split; [by apply op_refines|].
    assert (forall s', stamps now' s s' -> pend_inv now' s') as Hst by (intros s' Hs; apply (pend_inv_stamps now now' s s'); [lia|done|done]).
    destruct o as [p|uid| | | |]; destruct Hok as [Hnow' Hev]; cbn [fst snd] in *; unfold apply_op; cbn [fst snd].
    + apply Hst. unfold UpsertPod. destruct (resyncNoOp s p); [apply stamps_refl|by apply (stamps_upsert name_of)].
    + apply Hst. apply stamps_deletePod, Hi.
    + apply pend_inv_sweep, Hst, stamps_refl.
    + apply Hst, stamps_Drain.
    + apply Hst. unfold TryPark. case_decide; by apply stamps_same.
    + apply Hst. unfold Unpark. case_decide; by apply stamps_same.
Qed.

(** A sweep misses nothing and takes nothing it should not: after it no
    expired container entry and no expired pod record is left, and the live
    pods are the same, so popping the due prefix of the hint queue is as good as
    scanning every entry. *)
Theorem sweep_exact name_of t m now now' s :
  reach name_of t m now s -> now <= now' ->
  (forall id e, byContainer (sweep now' s) !! id = Some e -> expired (entryExpireAt e) now' = false) /\
  (forall uid r, pods (sweep now' s) !! uid = Some r -> expired (expireAt (rec_at (sweep now' s) r)) now' = false) /\
  live (sweep now' s) = live s.
Proof.
  intros Hr Hle. destruct (reach_inv _ _ _ _ _ Hr) as (Hnow & Hi & Hp).
  assert (pend_inv now' s) as Hp' by (apply (pend_inv_stamps now now' s s); [lia|apply stamps_refl|done]).
  destruct (pend_inv_sweep now' s Hp') as (_ & Hc & Hpo). split; [done|]. split; [done|].
  by apply (store_inv_sweep name_of).
Qed.

End Sweep.

(** ** Witness: one pod seen, deleted, swept after its TTL *)

Definition demo_seen : Store := apply_op (H := no_canonical) (New 10 2) (100, OpUpsert demo_event).

Lemma demo_reach : reach (H := no_canonical) demo_name 10 2 100 demo_seen.
Proof.
  apply reach_op with (now := 50); [by apply reach_init|done|]. split; [done|]. split; reflexivity.
Qed.

Lemma sweep_exact_witness :
  live (sweep (H := no_canonical) 300 (DeletePod (H := no_canonical) 101 "u" demo_seen)) =
  live (DeletePod (H := no_canonical) 101 "u" demo_seen).
Proof.
  apply (@sweep_exact no_canonical demo_name 10 2 101 300 (DeletePod (H := no_canonical) 101 "u" demo_seen)).
  - apply (reach_op (H := no_canonical) demo_name 10 2 100 101 (OpDelete "u") demo_seen demo_reach); [done|by split].
  - done.
Defined.

(** * Deleted containers stay resolvable for the TTL

    The container index and its tombstones: which entries are live, and what a
    lookup of a deleted pod's container answers before and after the TTL. *)


Section Tomb.
Context `{AddrForm}.

(** ** The entry maps of the container operations *)

Definition is_live_of (uid : string) (e : containerEntry) : bool :=
  bool_decide (podUID e = uid) && is_zero (entryExpireAt e).

Definition stamped (t : Z) (e : containerEntry) : containerEntry := mkEntry (podUID e) (container e) t.

Lemma is_live_of_spec uid e : is_live_of uid e = true <-> podUID e = uid /\ entryExpireAt e = 0.
Proof. unfold is_live_of, is_zero. by rewrite andb_true_iff, !bool_decide_eq_true. Qed.

Lemma tombstones_lookup uid t s ids id : t <> 0 ->
  byContainer (foldr (tombstone_entry uid t) s ids) !! id =
  (fun e => if is_live_of uid e && bool_decide (id ∈ ids) then stamped t e else e) <$> byContainer s !! id.
Proof.
  intros Ht. induction ids as [|a ids IH]; cbn [foldr].
  { destruct (byContainer s !! id); [|done]. cbn. by rewrite bool_decide_eq_false_2, andb_false_r by apply not_elem_of_nil. }
  set (s1 := foldr _ s ids) in *. unfold tombstone_entry.
  assert (forall x, (if is_live_of uid x && bool_decide (id ∈ a :: ids) then stamped t x else x) =
    (let y := if is_live_of uid x && bool_decide (id ∈ ids) then stamped t x else x in
     if is_live_of uid y && bool_decide (id = a) then stamped t y else y)) as Hstep.
  { intros x. cbv zeta. destruct (is_live_of uid x) eqn:Hx; cbn [andb]; [|by rewrite Hx].
    destruct (decide (id ∈ ids)) as [Hin|Hin].
    - rewrite !bool_decide_eq_true_2 by set_solver. replace (is_live_of uid (stamped t x)) with false; [done|].
      symmetry. unfold is_live_of, is_zero. cbn. by rewrite (bool_decide_eq_false_2 (t = 0)), andb_false_r.
    - rewrite (bool_decide_eq_false_2 (id ∈ ids)) by done. rewrite Hx. cbn [andb].
      destruct (decide (id = a)) as [->|Hne]; [by rewrite !bool_decide_eq_true_2 by set_solver|].
      by rewrite !bool_decide_eq_false_2 by set_solver. }
  destruct (byContainer s !! id) as [x|] eqn:Ex; cbn [fmap option_fmap option_map] in *; [rewrite Hstep|].
  - set (y := if is_live_of uid x && bool_decide (id ∈ ids) then stamped t x else x) in *. cbv zeta.
    destruct (decide (id = a)) as [->|Hne].
    + rewrite IH, (bool_decide_eq_true_2 (a = a)), andb_true_r by done. fold (is_live_of uid y).
      destruct (is_live_of uid y) eqn:Hy; cbn; [by rewrite lookup_insert_eq|done].
    + rewrite (bool_decide_eq_false_2 (id = a)), andb_false_r by done.
      destruct (byContainer s1 !! a) as [z|]; [|exact IH]. destruct (bool_decide (podUID z = uid) && _); [|exact IH].
      cbn. rewrite lookup_insert_ne by done. exact IH.
  - destruct (byContainer s1 !! a) as [z|] eqn:Ez; [|exact IH]. destruct (bool_decide (podUID z = uid) && _); [|exact IH].
    cbn. rewrite lookup_insert_ne; [exact IH|]. congruence.
Qed.

Lemma expire_olds_live now uid ids s old id e : 0 < now ->
  byContainer (foldr (expire_old now uid ids) s old) !! id = Some e -> entryExpireAt e = 0 ->
  byContainer s !! id = Some e /\ (podUID e = uid -> id ∈ old -> id ∈ ids).
Proof.
  intros Hnow. revert e. induction old as [|a old IH]; intros e; cbn [foldr].
  { intros He _. split; [done|]. by intros _ ?%not_elem_of_nil. }
  set (s1 := foldr _ s old) in *. unfold expire_old.
  destruct (decide (a ∈ ids)) as [Ha|Ha].
  { intros He Hz. destruct (IH e He Hz) as [? Hi]. split; [done|]. intros Hu [->|?]%elem_of_cons; [done|by apply Hi]. }
  destruct (byContainer s1 !! a) as [x|] eqn:Ex.
  2:{ intros He Hz. destruct (IH e He Hz) as [? Hi]. split; [done|]. intros Hu [->|?]%elem_of_cons; [congruence|by apply Hi]. }
  fold (is_live_of uid x). destruct (is_live_of uid x) eqn:Hx.
  - intros He Hz. assert (id <> a) as Hne.
    { intros ->. unfold expireEntryLocked in He. case_decide; cbn in He.
      - by rewrite lookup_delete_eq in He.
      - rewrite lookup_insert_eq in He. simplify_eq. cbn in Hz. lia. }
    assert (byContainer s1 !! id = Some e) as He1.
    { unfold expireEntryLocked in He. case_decide; cbn in He;
        [by rewrite lookup_delete_ne in He|by rewrite lookup_insert_ne in He]. }
    destruct (IH e He1 Hz) as [? Hi]. split; [done|]. intros Hu [->|?]%elem_of_cons; [done|by apply Hi].
  - intros He Hz. destruct (IH e He Hz) as [? Hi]. split; [done|]. intros Hu [->|?]%elem_of_cons; [|by apply Hi].
    exfalso. assert (x = e) as -> by congruence. assert (is_live_of uid e = true); [by apply is_live_of_spec|congruence].
Qed.

Lemma index_all_lookup uid l s id e :
  byContainer (foldr (fun kc s => index_one uid kc.1 kc.2 s) s l) !! id = Some e ->
  (exists c, (id, c) ∈ l /\ podUID e = uid) \/ (byContainer s !! id = Some e /\ id ∉ l.*1).
Proof.
  induction l as [|[a c] l IH]; cbn [foldr]; [intros; right; split; [done|apply not_elem_of_nil]|].
  set (s1 := foldr _ s l) in *. unfold index_one. cbn [fst snd].
  assert (byContainer (wakeLocked a (set_byContainer (<[a:=mkEntry uid c 0]> (byContainer s1)) s1)).1 =
    <[a:=mkEntry uid c 0]> (byContainer s1)) as ->.
  { unfold wakeLocked. set (s2 := set_byContainer _ s1). by destruct (waiters s2 !! a) as [[|c' ws]|]. }
  cbn [fst snd fmap list_fmap]. rewrite lookup_insert_Some. intros [[<- <-]|[Hne He]].
  - left. exists c. split; [by left|done].
  - destruct (IH He) as [(c' & Hin & Hu)|[He' Hn]]; [left; exists c'; split; [by right|done]|right].
    split; [done|]. by apply not_elem_of_cons.
Qed.

(** ** The container index invariant *)

Lemma cont_inv_same s s' : byContainer s' = byContainer s -> pods s' = pods s ->
  (forall r rec, recs s !! r = Some rec -> exists rec', recs s' !! r = Some rec' /\
     expireAt rec' = expireAt rec /\ containerIDs rec' = containerIDs rec) ->
  cont_inv s -> cont_inv s'.
Proof.
  intros E1 E2 Hr Hc id e. rewrite E1, E2. intros He Hz. destruct (Hc id e He Hz) as (r & rec & Hp & Hrec & Ez & Hin).
  destruct (Hr r rec Hrec) as (rec' & Hrec' & E3 & E4). exists r, rec'. rewrite E3, E4. done.
Qed.

Lemma cont_inv_eq s s' : byContainer s' = byContainer s -> pods s' = pods s -> recs s' = recs s ->
  cont_inv s -> cont_inv s'.
Proof. intros E1 E2 E3. apply cont_inv_same; [done|done|]. intros r rec. rewrite E3. eauto. Qed.

Lemma deletePod_entries now uid r s : 0 < now -> pods s !! uid = Some r ->
  (0 < ttl s -> forall id, byContainer (deletePodLocked now uid s) !! id =
     (fun e => if is_live_of uid e && bool_decide (id ∈ containerIDs (rec_at s r)) then stamped (now + ttl s) e else e)
       <$> byContainer s !! id) /\
  (ttl s <= 0 -> forall id e, byContainer (deletePodLocked now uid s) !! id = Some e ->
     byContainer s !! id = Some e /\ (podUID e = uid -> id ∉ containerIDs (rec_at s r))).
Proof.
  intros Hnow Hr. unfold deletePodLocked. rewrite Hr. cbv zeta.
  set (node := NodeName _). set (s1 := removeFromNodeLocked node uid s). set (s2 := foldl _ s1 _).
  destruct (clear_node_fields s s1) as (A1&_&A3&A4&A5&_); [apply only_removeFromNode|].
  destruct (clear_ip_fields s1 s2) as (B1&_&B3&B4&B5&_).
  { apply (only_foldl clear_ip (fun s ip => releaseIPLocked r ip s)). intros ip. apply only_releaseIP. }
  assert (ttl s2 = ttl s) as Et by congruence. assert (byContainer s2 = byContainer s) as Eb by congruence.
  assert (rec_at s2 r = rec_at s r) as Er by (unfold rec_at; congruence).
  set (s3 := if decide (ttl s2 <= 0) then _ else _).
  assert (byContainer (bumpLocked [node] s3) = byContainer s3) as ->.
  { by destruct (clear_gen_fields s3 _ (only_bump [node] s3)) as (_&_&_&_&?&_). }
  unfold s3. split; intros Ht.
  - rewrite decide_False by lia. intros id. set (s4 := stampLocked _ _).
    assert (containerIDs (rec_at s4 r) = containerIDs (rec_at s r)) as ->.
    { rewrite <- Er. unfold rec_at, s4. cbn. rewrite lookup_alter_eq. by destruct (recs s2 !! r). }
    rewrite tombstones_lookup by lia. unfold s4. cbn. rewrite Eb, Et.
    destruct (byContainer s !! id); [|done]. cbn. by rewrite (bool_decide_ext _ _ (elem_of_elements _ _)).
  - rewrite decide_True by lia. intros id e He. unfold removeRecordLocked in He. cbv zeta in He.
    set (s4 := dropNameIndexLocked r s2) in *.
    assert (byContainer s4 = byContainer s /\ rec_at s4 r = rec_at s r) as [E4 E5].
    { unfold s4, dropNameIndexLocked. case_decide; done. }
    cbn in He. rewrite E5 in He. rewrite <- E4. revert e He. clear -H.
    setoid_rewrite <- elem_of_elements. generalize (elements (containerIDs (rec_at s r))) as ids.
    induction ids as [|a ids IH]; intros e; cbn; [intros; split; [done|intros; apply not_elem_of_nil]|].
    unfold drop_entry at 1. set (s5 := foldr _ s4 ids) in *. destruct (byContainer s5 !! a) as [x|] eqn:Ex.
    + case_decide as Hd; cbn.
      * rewrite lookup_delete_Some. intros [Hne He]. destruct (IH e He) as [? Hn]. split; [done|].
        intros Hu. apply not_elem_of_cons. split; [done|by apply Hn].
      * intros He. destruct (IH e He) as [? Hn]. split; [done|]. intros Hu. apply not_elem_of_cons.
        split; [|by apply Hn]. intros ->. congruence.
    + intros He. destruct (IH e He) as [? Hn]. split; [done|]. intros Hu. apply not_elem_of_cons.
      split; [|by apply Hn]. intros ->. congruence.
Qed.

Lemma cont_inv_deletePod now uid s : 0 < now -> uid_inv s -> cont_inv s -> cont_inv (deletePodLocked now uid s).
Proof.
  intros Hnow Hu Hc. destruct (pods s !! uid) as [r|] eqn:Hr; [|by rewrite deletePod_absent].
  destruct (deletePod_entries now uid r s Hnow Hr) as [Hpos Hneg].
  destruct (deletePod_fields now uid r s Hr) as (E1&_&E3&_).
  intros id e He Hz.
  assert (byContainer s !! id = Some e /\ (podUID e = uid -> id ∉ containerIDs (rec_at s r))) as [He0 Hn].
  { destruct (decide (ttl s <= 0)) as [Ht|Ht]; [by apply Hneg|]. rewrite Hpos in He by lia.
    destruct (byContainer s !! id) as [e0|]; [|done]. cbn in He. injection He as He.
    destruct (is_live_of uid e0 && bool_decide (id ∈ containerIDs (rec_at s r))) eqn:Hb.
    - subst e. cbn in Hz. lia.
    - subst e0. split; [done|]. intros Hpu Hin. rewrite (bool_decide_eq_true_2 _ Hin), andb_true_r in Hb.
      assert (is_live_of uid e = true); [by apply is_live_of_spec|congruence]. }
  destruct (Hc id e He0 Hz) as (r0 & rec & Hp & Hrec & Hez & Hin). exists r0, rec.
  assert (podUID e <> uid) as Hne.
  { intros E. rewrite E in Hp. assert (r0 = r) as -> by congruence. apply (Hn E). unfold rec_at. by rewrite Hrec. }
  rewrite E1, E3. assert (r0 <> r) by (intros ->; by apply Hne, (uid_inj s _ _ r)).
  split; [case_decide; [by rewrite lookup_delete_ne|done]|]. split; [|done].
  case_decide; [done|]. by rewrite lookup_alter_ne.
Qed.

Lemma cont_inv_upsert_indexed now p s s1 r :
  0 < now -> uid_inv s -> cont_inv s -> upsert_indexed now p s = (s1, r) -> cont_inv s1.
Proof.
  intros Hnow Hu Hc He. pose proof (upsert_indexed_fields _ _ _ _ _ Hu He) as
    ((rec & Hrec & Hw & Hids & _) & Hother & Hp & Hinj & _). set (uid := UID (ev_pod p)) in *.
  apply live_rec_Some in Hw as [Hez _].
  assert (forall id e, byContainer s1 !! id = Some e -> entryExpireAt e = 0 ->
    (podUID e = uid /\ id ∈ dom (ev_containers p)) \/
    (byContainer s !! id = Some e /\ podUID e <> uid)) as Hent.
  { unfold upsert_indexed in He. destruct (find_or_new (UID (ev_pod p)) s) as [s0 r0] eqn:Hf. cbv zeta in He.
    set (onode := if bool_decide _ then _ else _) in He. set (oids := if bool_decide _ then _ else _) in He.
    set (s3 := indexContainersLocked _ _ _ _ _ _) in He.
    assert (byContainer s1 = byContainer s3) as ->.
    { injection He as <- _. set (s4 := if decide _ then s3 else _).
      destruct (clear_node_fields s4 _ (only_addToNode (NodeName (ev_pod p)) (UID (ev_pod p)) r0 s4)) as (_&_&_&_&->&_).
      unfold s4. case_decide; [done|].
      by destruct (clear_node_fields s3 _ (only_removeFromNode onode (UID (ev_pod p)) s3)) as (_&_&_&_&->&_). }
    intros id e Hi Hz. unfold s3, indexContainersLocked in Hi.
    apply expire_olds_live in Hi as [Hi Hold]; [|done|done]. change (byContainer (upd_rec ?a ?b ?c)) with (byContainer c) in Hi.
    apply index_all_lookup in Hi as [(c & Hin & Hpu)|[Hi Hni]].
    { left. split; [done|]. apply elem_of_map_to_list in Hin. by apply elem_of_dom_2 in Hin. }
    right. assert (byContainer s !! id = Some e) as Hi'.
    { revert Hi. unfold upd_rec, find_or_new in *. destruct (pods s !! UID (ev_pod p)); simplify_eq; done. }
    split; [done|]. intros Hpu. apply Hni. apply list_elem_of_fmap.
    assert (id ∈ dom (ev_containers p)) as [c Hin]%elem_of_dom; [|exists (id, c); split; [done|by apply elem_of_map_to_list]].
    apply Hold; [done|]. apply elem_of_elements. destruct (Hc id e Hi' Hz) as (r2 & rec2 & Hr2 & Hrec2 & _ & Hin).
    rewrite Hpu in Hr2. unfold oids. unfold uid in Hr2. rewrite Hr2. rewrite bool_decide_eq_false_2 by done.
    unfold find_or_new in Hf. rewrite Hr2 in Hf. injection Hf as <- <-. unfold rec_at. by rewrite Hrec2. }
  intros id e Hi Hz. destruct (Hent id e Hi Hz) as [[Hpu Hin]|[Hi0 Hne]].
  - exists r, rec. rewrite Hp, Hpu, lookup_insert_eq, Hids. done.
  - destruct (Hc id e Hi0 Hz) as (r2 & rec2 & Hr2 & Hrec2 & ? & ?). exists r2, rec2.
    rewrite Hp, lookup_insert_ne by done. rewrite Hother; [done|]. intros ->. by apply Hne, Hinj.
Qed.

Lemma cont_inv_upsert name_of now p s :
  0 < now -> event_ok name_of p -> store_inv name_of None s -> cont_inv s -> cont_inv (upsertLocked now p s).
Proof.
  intros Hnow Hev Hinv Hc. unfold upsertLocked.
  assert (forall l s, cont_inv s -> cont_inv (bumpLocked l s)) as Hbump.
  { intros l s'. destruct (clear_gen_fields s' _ (only_bump l s')) as (E1&_&E3&_&E5&_). by apply cont_inv_eq. }
  destruct (unchangedLocked s p); [by apply Hbump|]. rewrite upsert_body_eq.
  destruct (upsert_indexed now p s) as [s1 r] eqn:He.
  pose proof (cont_inv_upsert_indexed now p s s1 r Hnow (si_uid _ _ _ Hinv) Hc He) as Hc1.
  pose proof (store_inv_upsert_indexed name_of now p s s1 r Hev Hinv He) as Hinv1.
  apply Hbump. set (s2 := claimName now (ev_pod p) r s1).
  assert (cont_inv s2) as Hc2.
  { unfold s2, claimName. destruct (byPodName s1 !! _) as [prev|]; [|by apply (cont_inv_eq s1)].
    destruct (_ && _); [|by apply (cont_inv_eq s1)]. set (s0 := set_nameReused _ s1).
    assert (uid_inv s0) as Hu0 by (by destruct (si_uid _ _ _ Hinv1)).
    apply (cont_inv_eq (deletePodLocked now (UID (pod (rec_at s1 prev))) s0)); try done.
    apply cont_inv_deletePod; [done|done|]. by apply (cont_inv_eq s1). }
  destruct (claimPodIP_fields r (ev_pod p) (old_ips p s) (first_term p s) s2) as [[q Hq] Hcl]. cbv zeta in Hq, Hcl.
  destruct (clear_ip_fields _ _ Hcl) as (_&_&E3&_&E5&_). cbn in E3, E5.
  apply (cont_inv_same s2); [done|done| |done]. intros r' rec Hrec. rewrite Hq.
  destruct (decide (r = r')) as [->|]; [rewrite lookup_alter_eq, Hrec; cbn; by eauto|].
  rewrite lookup_alter_ne by done. eauto.
Qed.

(** One due hint leaves every unexpired record and entry alone. *)
Lemma sweep_one_keeps now d s :
  (forall uid r, pods s !! uid = Some r -> expired (expireAt (rec_at s r)) now = false ->
     pods (sweep_one now s d) !! uid = Some r) /\
  (forall id e r, byContainer s !! id = Some e -> expired (entryExpireAt e) now = false ->
     pods s !! podUID e = Some r -> expired (expireAt (rec_at s r)) now = false ->
     byContainer (sweep_one now s d) !! id = Some e).
Proof.
  unfold sweep_one, sweepPodLocked, sweepContainerLocked. destruct (isPod d).
  - destruct (pods s !! p_uid d) as [r0|] eqn:Hr0; [|done]. destruct (expired (expireAt (rec_at s r0)) now) eqn:Hx; [|done]. cbv zeta.
    set (s1 := foldl _ s _). assert (clear_ip s1 = clear_ip s) as Hs1.
    { apply (only_foldl clear_ip (fun s ip => dropClaimantLocked ip r0 s)). intros ip. apply only_dropClaimant. }
    destruct (clear_ip_fields _ _ Hs1) as (E1&_&E3&_&E5&_).
    destruct (removeRecord_fields r0 (p_uid d) s1) as (_&_&D3&_). cbv zeta in D3.
    destruct (removeRecord_shrinks r0 (p_uid d) s1) as [_ Hk]. split.
    + intros uid r Hp He. rewrite D3, E3, lookup_delete_ne; [done|]. intros <-. congruence.
    + intros id e r Hi He Hp Her. apply Hk; [by rewrite E5|]. left. intros E. rewrite E in Hp. congruence.
  - destruct (byContainer s !! p_id d) as [e0|] eqn:He0; [|done]. destruct (expired (entryExpireAt e0) now) eqn:Hx; [|done].
    split; [done|]. intros id e r Hi He _ _. cbn. rewrite lookup_delete_ne; [done|]. intros <-. congruence.
Qed.

Lemma sweep_keeps now s :
  (forall uid r, pods s !! uid = Some r -> expired (expireAt (rec_at s r)) now = false ->
     pods (sweep now s) !! uid = Some r) /\
  (forall id e r, byContainer s !! id = Some e -> expired (entryExpireAt e) now = false ->
     pods s !! podUID e = Some r -> expired (expireAt (rec_at s r)) now = false ->
     byContainer (sweep now s) !! id = Some e) /\
  recs (sweep now s) = recs s.
Proof.
  unfold sweep. destruct (due_prefix now (pending s)) as [|d l]; [done|]. set (dl := d :: l). clearbody dl.
  set (s2 := foldl (sweep_one now) s dl). set (s3 := set_pending _ _).
  destruct (clear_gen_fields s3 _ (only_bump [] s3)) as (E1&_&E3&_&E5&_). rewrite E1, E3, E5.
  assert ((forall uid r, pods s !! uid = Some r -> expired (expireAt (rec_at s r)) now = false -> pods s2 !! uid = Some r) /\
    (forall id e r, byContainer s !! id = Some e -> expired (entryExpireAt e) now = false ->
     pods s !! podUID e = Some r -> expired (expireAt (rec_at s r)) now = false -> byContainer s2 !! id = Some e)) as [Hp Hb].
  { unfold s2. clear. revert s. induction dl as [|a dl IH]; intros s; cbn; [done|].
    destruct (sweep_one_keeps now a s) as [Hp Hb], (IH (sweep_one now s a)) as [Hp' Hb'].
    assert (forall r, rec_at (sweep_one now s a) r = rec_at s r) as Er.
    { intros r. unfold rec_at. by rewrite (sk_recs _ _ (sweep_one_shrinks now a s)). }
    split.
    - intros uid r Hr He. apply Hp'; [by apply Hp|by rewrite Er].
    - intros id e r Hi He Hr Her. apply (Hb' id e r); [by apply (Hb id e r)|done|by apply Hp|by rewrite Er]. }
  split; [done|]. split; [done|]. apply (sk_recs _ _ (sweep_all_shrinks now dl s)).
Qed.

Lemma cont_inv_sweep now s : cont_inv s -> cont_inv (sweep now s).
Proof.
  intros Hc. destruct (sweep_keeps now s) as (Hp & _ & Hr). intros id e He Hz.
  assert (byContainer s !! id = Some e) as He0.
  { unfold sweep in He. destruct (due_prefix now (pending s)) as [|d l]; [done|]. set (dl := d :: l) in *.
    set (s3 := set_pending _ _) in He. destruct (clear_gen_fields s3 _ (only_bump [] s3)) as (_&_&_&_&E5&_).
    rewrite E5 in He. apply (lookup_weaken _ _ _ _ He), (sk_cont _ _ (sweep_all_shrinks now dl s)). }
  destruct (Hc id e He0 Hz) as (r & rec & Hpu & Hrec & Ez & Hin). exists r, rec. rewrite Hr.
  split; [|done]. apply Hp; [done|]. unfold rec_at. rewrite Hrec. cbn. rewrite Ez. done.
Qed.

Lemma reach_cont name_of t m now s : reach name_of t m now s -> cont_inv s /\ ttl s = t.
Proof.
  induction 1 as [now Hnow|now now' o s Hr [Hc Ht] Hle Hok]; [done|].
  destruct (reach_inv _ _ _ _ _ Hr) as (Hnow & Hinv & _).
  assert (forall s', stamps now' s s' -> ttl s' = t) as Hst by (intros s' Hs; by rewrite (sp_ttl _ _ _ Hs)).
  destruct o as [p|uid| | | |]; destruct Hok as [Hnow' Hev]; cbn [fst snd] in *; unfold apply_op; cbn [fst snd].
  - unfold UpsertPod. destruct (resyncNoOp s p); [done|]. split; [by apply (cont_inv_upsert name_of)|].
    by apply Hst, (stamps_upsert name_of).
  - split; [by apply cont_inv_deletePod; [lia|apply Hinv|]|]. apply Hst, stamps_deletePod, Hinv.
  - split; [by apply cont_inv_sweep|]. unfold sweep. destruct (due_prefix now' (pending s)) as [|d l]; [done|].
    set (dl := d :: l). set (s3 := set_pending _ _). destruct (clear_gen_fields s3 _ (only_bump [] s3)) as (_&_&_&->&_).
    transitivity (ttl (foldl (sweep_one now') s dl)); [done|]. by rewrite (sk_ttl _ _ (sweep_all_shrinks now' dl s)).
  - pose proof (stamps_Drain now' s) as Hs. split; [|by apply Hst]. unfold Drain. destruct (draining s); [done|].
    set (l := elements _). set (s0 := set_draining true s). assert (cont_inv s0) as Hc0 by (by apply (cont_inv_eq s)).
    clearbody s0 l. generalize 0. intros z. induction l as [|id l IH]; simpl; [done|].
    destruct (foldr _ _ _) as [s1 n1]. simpl in IH. unfold wakeLocked.
    destruct (waiters s1 !! id) as [[|c ws]|]; simpl; by apply (cont_inv_eq s1).
  - unfold TryPark. case_decide; (split; [by apply (cont_inv_eq s)|done]).
  - unfold Unpark. case_decide; (split; [by apply (cont_inv_eq s)|done]).
Qed.

Definition sweeps (s : Store) (ts : list Z) : Store := foldl (fun s t => sweep t s) s ts.

Lemma sweeps_keep ts s id e r : byContainer s !! id = Some e -> pods s !! podUID e = Some r ->
  Forall (fun t => expired (entryExpireAt e) t = false /\ expired (expireAt (rec_at s r)) t = false) ts ->
  byContainer (sweeps s ts) !! id = Some e /\ pods (sweeps s ts) !! podUID e = Some r /\
  rec_at (sweeps s ts) r = rec_at s r.
Proof.
  intros Hb Hp Hts. revert s Hb Hp Hts. induction ts as [|t ts IH]; intros s Hb Hp Hts; cbn; [done|].
  apply Forall_cons in Hts as [[H1 H2] Hts]. destruct (sweep_keeps t s) as (Hkp & Hkb & Hkr).
  assert (rec_at (sweep t s) r = rec_at s r) as Er by (unfold rec_at; by rewrite Hkr).
  rewrite <- Er. apply IH; [by apply (Hkb id e r)|by apply Hkp|by rewrite Er].
Qed.

(** A deleted pod's containers stay resolvable for the TTL: whatever
    sweeps run meanwhile, a lookup up to [ttl] after the delete answers with the
    container and the pod stamped deleted, and one after it answers gone. *)
Theorem deleted_resolvable_until_ttl name_of t m now0 now s uid r rec id e ts now2 :
  reach name_of t m now0 s -> now0 <= now -> 0 < t ->
  pods s !! uid = Some r -> recs s !! r = Some rec -> expireAt rec = 0 ->
  byContainer s !! id = Some e -> podUID e = uid -> entryExpireAt e = 0 ->
  Forall (fun u => u <= now + t) ts ->
  let s' := sweeps (DeletePod now uid s) ts in
  (now2 <= now + t -> lookupLocked now2 s' id =
     Found (mkContainerResult (container e) (with_DeletedAt now (pod rec)) (ownerRefs rec))) /\
  (now + t < now2 -> lookupLocked now2 s' id = Gone).
Proof.
  intros Hr Hle Ht Hp Hrec Hez He Hpu Hz Hts s'.
  destruct (reach_inv _ _ _ _ _ Hr) as (Hnow & Hinv & _). destruct (reach_cont _ _ _ _ _ Hr) as [Hc Httl].
  assert (0 < now) as Hnow1 by lia.
  destruct (deletePod_entries now uid r s Hnow1 Hp) as [Hent _]. specialize (Hent ltac:(lia) id).
  destruct (deletePod_fields now uid r s Hp) as (E1&_&E3&_). rewrite decide_False in E1 by lia.
  rewrite decide_False in E3 by lia.
  destruct (Hc id e He Hz) as (r' & rec' & Hp' & Hrec' & _ & Hin). rewrite Hpu in Hp'. simplify_eq.
  assert (byContainer (DeletePod now (podUID e) s) !! id = Some (stamped (now + ttl s) e)) as Hb.
  { unfold DeletePod. rewrite Hent, He. cbn. rewrite (proj2 (is_live_of_spec (podUID e) e)) by done.
    rewrite bool_decide_eq_true_2; [done|]. unfold rec_at. by rewrite Hrec. }
  assert (rec_at (DeletePod now (podUID e) s) r = tombstoned now (now + ttl s) rec) as Ha.
  { unfold rec_at, DeletePod. by rewrite E1, lookup_alter_eq, Hrec. }
  destruct (sweeps_keep ts (DeletePod now (podUID e) s) id (stamped (now + ttl s) e) r Hb) as (F1 & F2 & F3).
  { unfold DeletePod. by rewrite E3. }
  { eapply Forall_impl; [exact Hts|]. cbn. intros u Hu. rewrite Ha. cbn. unfold expired.
    by rewrite bool_decide_eq_false_2, andb_false_r by lia. }
  fold s' in F1, F2, F3. unfold lookupLocked. rewrite F1. cbn in F2 |- *. rewrite F2, F3, Ha. cbn.
  unfold expired, is_zero. rewrite (bool_decide_eq_false_2 (now + ttl s = 0)) by lia. cbn. split; intros Hn.
  - by rewrite bool_decide_eq_false_2 by lia.
  - by rewrite bool_decide_eq_true_2 by lia.
Qed.

End Tomb.

(** ** Witness: the one pod seen is deleted and its container looked up *)

Lemma deleted_resolvable_until_ttl_witness :
  lookupLocked 110 (sweeps (H := no_canonical) (DeletePod (H := no_canonical) 101 "u" demo_seen) [105]) "c" =
    Found (mkContainerResult (mkContainer "img") (with_DeletedAt 101 demo_pod) []).
Proof.
  apply (@deleted_resolvable_until_ttl no_canonical demo_name 10 2 100 101 demo_seen "u" 0
    (mkRecord demo_pod [] "1" {["c"%string]} 0 false 1) "c" (mkEntry "u" (mkContainer "img") 0) [105] 110 demo_reach).
  all: try reflexivity; try lia.
  apply Forall_singleton. lia.
Defined.
