(* ===== verification/StoreServe.v ===== *)
(** * What the store serves, deleted pods included ([internal/store])

    The abstract store keeps every pod it has not forgotten, live or deleted,
    with the instant its tombstone expires at, and which pod each name was last
    seen on.  [Store] refines it when the clock does not go back: both lookups
    answer from the abstract map, whether the pod is live, deleted, expired or
    unknown. *)

From S2P Require Import Prelude Store StoreIndex StoreRefine StoreSweep.
Local Open Scope Z_scope.

(** ** The abstract store *)

Record kept := mkKept { k_pod : Pod; k_owners : list OwnerReference; k_rv : string; k_expires : Z }.
Record view := mkView { v_pods : gmap string kept; v_names : gmap string string }.

Definition view_empty : view := mkView ∅ ∅.

(** Forget a pod; no name is left pointing at it. *)
Definition forget (uid : string) (v : view) : view := mkView (delete uid (v_pods v)) (filter (fun ku => ku.2 <> uid) (v_names v)).

Definition bury (now ttl : Z) (k : kept) : kept := mkKept (with_DeletedAt now (k_pod k)) (k_owners k) (k_rv k) (now + ttl).

Definition view_delete (ttl now : Z) (uid : string) (v : view) : view :=
  if decide (ttl <= 0) then forget uid v else mkView (alter (bury now ttl) uid (v_pods v)) (v_names v).

Definition kept_event (p : PodEvent) : kept := mkKept (ev_pod p) (ev_ownerRefs p) (ev_resourceVersion p) 0.

(** A new pod buries the live pod of its name, and takes the name. *)
Definition view_put (ttl now : Z) (p : PodEvent) (v : view) : view :=
  let uid := UID (ev_pod p) in
  let key := nameKey (ev_pod p) in
  let v := mkView (<[uid := kept_event p]> (v_pods v)) (v_names v) in
  let v := match v_names v !! key with
           | Some prev => if decide (prev <> uid /\ (k_expires <$> v_pods v !! prev) = Some 0) then view_delete ttl now prev v else v
           | None => v
           end in
  mkView (v_pods v) (<[key := uid]> (v_names v)).

Definition view_upsert (ttl now : Z) (p : PodEvent) (v : view) : view :=
  match v_pods v !! UID (ev_pod p) with
  | Some k => if is_zero (k_expires k) && negb (bool_decide (ev_resourceVersion p = ""%string)) && bool_decide (k_rv k = ev_resourceVersion p) then v else view_put ttl now p v
  | None => view_put ttl now p v
  end.

(** Every expired tombstone is forgotten, and its name. *)
Local Notation unexpired now k := (expired (k_expires k) now = false).
Definition view_sweep (now : Z) (v : view) : view :=
  let pods := filter (fun uk => unexpired now uk.2) (v_pods v) in
  mkView pods (filter (fun ku => is_Some (pods !! ku.2)) (v_names v)).

Definition view_op (ttl : Z) (v : view) (t : Z * op) : view :=
  match t.2 with
  | OpUpsert p => view_upsert ttl t.1 p v
  | OpDelete uid => view_delete ttl t.1 uid v
  | OpSweep => view_sweep t.1 v
  | _ => v
  end.

(** An expired tombstone is not served, swept or not. *)
Definition serve (now : Z) (k : kept) : option NodePod := if expired (k_expires k) now then None else Some (mkNodePod (k_pod k) (k_owners k)).

(** ** The store's view *)

Definition kept_of (rec : record) : kept := mkKept (pod rec) (ownerRefs rec) (resourceVersion rec) (expireAt rec).
Definition view_of (s : Store) : view :=
  mkView (omap (fun r => kept_of <$> recs s !! r) (pods s)) (omap (fun r => (fun rec => UID (pod rec)) <$> recs s !! r) (byPodName s)).

Lemma lookup_kept s uid : v_pods (view_of s) !! uid = pods s !! uid ≫= fun r => kept_of <$> recs s !! r.
Proof. apply lookup_omap. Qed.
Lemma lookup_named s k : v_names (view_of s) !! k = byPodName s !! k ≫= fun r => (fun rec => UID (pod rec)) <$> recs s !! r.
Proof. apply lookup_omap. Qed.

Lemma view_eq v v' : (forall u, v_pods v !! u = v_pods v' !! u) -> (forall k, v_names v !! k = v_names v' !! k) -> v = v'.
Proof. destruct v, v'. cbn. intros P N. f_equal; by apply map_eq. Qed.

Lemma view_same s s' : recs s' = recs s -> pods s' = pods s -> byPodName s' = byPodName s -> view_of s' = view_of s.
Proof. unfold view_of. by intros -> -> ->. Qed.

Section Serve.
Context `{AddrForm}.

Lemma view_bump l s : view_of (bumpLocked l s) = view_of s.
Proof. destruct (clear_gen_fields s (bumpLocked l s) (only_bump l s)) as (E1&_&E3&_&_&_&E7&_). by apply view_same. Qed.

(** Names and records stand for each other. *)
Lemma named_uid s k r : uid_inv s -> name_sound s -> byPodName s !! k = Some r ->
  exists uid rec, pods s !! uid = Some r /\ recs s !! r = Some rec /\ UID (pod rec) = uid /\ nameKey (pod rec) = k.
Proof.
  intros Hu Hs Hk. destruct (Hs _ _ Hk) as (uid & rec & Hp & Hr & E). destruct (ui_rec _ Hu _ _ Hp) as (rec' & Hr' & U). simplify_eq. by exists (UID (pod rec)), rec.
Qed.

(** *** Delete *)

Lemma view_deletePod now uid s : uid_inv s -> name_sound s -> view_of (deletePodLocked now uid s) = view_delete (ttl s) now uid (view_of s).
Proof.
  intros Hu Hs. destruct (pods s !! uid) as [r|] eqn:Hr.
  2:{ rewrite deletePod_absent by done. unfold view_delete, forget. apply view_eq; intros x; case_decide; cbn [v_pods v_names]; try done.
      - rewrite lookup_delete, lookup_kept. case_decide; [subst; by rewrite Hr|done].
      - rewrite lookup_alter, !lookup_kept. case_decide; [subst; by rewrite Hr|done].
      - rewrite map_lookup_filter, lookup_named. destruct (byPodName s !! x) as [r'|] eqn:Hx; [|done]. destruct (named_uid s x r' Hu Hs Hx) as (u & rec & Hp & Hrec & U & _).
        cbn. rewrite Hrec. cbn. rewrite option_guard_True; [done|]. cbn. congruence. }
  destruct (deletePod_fields now uid r s Hr) as (E1&_&E3&_&E5&_). destruct (ui_rec _ Hu _ _ Hr) as (rec & Hrec & U).
  unfold view_delete. destruct (decide (ttl s <= 0)) as [Ht|Ht].
  - apply view_eq; intros x; cbn [forget v_pods v_names].
    + rewrite lookup_kept, E1, E3, !lookup_delete. case_decide; [done|]. by rewrite lookup_kept.
    + rewrite lookup_named, E1, E5, map_lookup_filter, lookup_named. unfold dropNameIndexLocked. destruct (byPodName s !! x) as [r'|] eqn:Hx.
      * destruct (named_uid s x r' Hu Hs Hx) as (u & rec' & Hp & Hrec' & U' & K). destruct (decide (r' = r)) as [->|Hne].
        -- assert (rec' = rec) as -> by congruence. unfold rec_at. rewrite Hrec. change (default zeroRecord (Some rec)) with rec. rewrite K, decide_True by done. cbn. rewrite lookup_delete_eq, Hrec. cbn.
           rewrite option_guard_False; [done|]. cbn. naive_solver.
        -- assert (byPodName (if decide (byPodName s !! nameKey (pod (rec_at s r)) = Some r) then set_byPodName (delete (nameKey (pod (rec_at s r))) (byPodName s)) s else s) !! x = Some r') as ->.
           { case_decide as Hd; [|done]. cbn. rewrite lookup_delete_ne; [done|]. intros <-. congruence. }
           cbn. rewrite Hrec'. cbn. rewrite option_guard_True; [done|]. cbn. intros E. apply Hne. congruence.
      * assert (byPodName (if decide (byPodName s !! nameKey (pod (rec_at s r)) = Some r) then set_byPodName (delete (nameKey (pod (rec_at s r))) (byPodName s)) s else s) !! x = None) as ->; [|done].
        case_decide; [|done]. cbn. rewrite lookup_delete. by case_decide.
  - assert (forall r', recs (deletePodLocked now uid s) !! r' = if decide (r = r') then Some (tombstoned now (now + ttl s) rec) else recs s !! r') as Hrecs.
    { intros r'. rewrite E1, lookup_alter. case_decide; [subst; by rewrite Hrec|done]. }
    apply view_eq; intros x; cbn [v_pods v_names].
    + rewrite lookup_kept, E3, lookup_alter, lookup_kept. destruct (decide (uid = x)) as [<-|Hne].
      * rewrite Hr. cbn. rewrite Hrecs, decide_True, Hrec by done. done.
      * rewrite lookup_kept. destruct (pods s !! x) as [r'|] eqn:Hx; [|done]. cbn. rewrite Hrecs, decide_False; [done|]. intros <-. by apply Hne, (uid_inj s uid x r).
    + rewrite !lookup_named, E5. destruct (byPodName s !! x) as [r'|]; [|done]. cbn. rewrite Hrecs. case_decide; [subst; by rewrite Hrec|done].
Qed.

(** *** Upsert *)

Lemma view_upsert_indexed now p s s1 r : uid_inv s -> name_sound s -> upsert_indexed now p s = (s1, r) ->
  view_of s1 = mkView (<[UID (ev_pod p) := kept_event p]> (v_pods (view_of s))) (v_names (view_of s)).
Proof.
  intros Hu Hs E. destruct (upsert_indexed_fields _ _ _ _ _ Hu E) as ((rec & Hrec & W & _) & Hother & Hp & Hinj & _ & _ & Hn & _).
  apply live_rec_Some in W as [Hz W]. injection W as Ep Eo Er. assert (kept_of rec = kept_event p) as Ek by (unfold kept_of, kept_event; congruence).
  apply view_eq; intros x; cbn [v_pods v_names].
  - rewrite lookup_kept, Hp, !lookup_insert, lookup_kept. case_decide as Hd; [cbn; by rewrite Hrec; cbn; rewrite Ek|]. destruct (pods s !! x) as [r'|] eqn:Hx; [|done]. cbn.
    rewrite Hother; [done|]. intros ->. by apply Hd; symmetry; apply Hinj.
  - rewrite !lookup_named, Hn. destruct (byPodName s !! x) as [r'|] eqn:Hx; [|done]. cbn. destruct (decide (r' = r)) as [->|]; [|by rewrite Hother].
    destruct (named_uid s x r Hu Hs Hx) as (u & rec' & Hpu & Hrec' & U & _). rewrite Hrec, Hrec'. cbn. rewrite U, <- Ep. by rewrite (Hinj u Hpu).
Qed.

Lemma view_claimName now p r s : uid_inv s -> name_sound s -> pods s !! UID p = Some r ->
  view_of (claimName now p r s) =
  let v := match v_names (view_of s) !! nameKey p with
           | Some prev => if decide (prev <> UID p /\ (k_expires <$> v_pods (view_of s) !! prev) = Some 0) then view_delete (ttl s) now prev (view_of s) else view_of s
           | None => view_of s
           end in
  mkView (v_pods v) (<[nameKey p := UID p]> (v_names v)).
Proof.
  intros Hu Hs Hr. destruct (ui_rec _ Hu _ _ Hr) as (rec & Hrec & U). unfold claimName. cbv zeta. rewrite lookup_named.
  assert (forall s' v, view_of s' = v -> (exists rec', recs s' !! r = Some rec' /\ UID (pod rec') = UID p) ->
    view_of (set_byPodName (<[nameKey p := r]> (byPodName s')) s') = mkView (v_pods v) (<[nameKey p := UID p]> (v_names v))) as Hset.
  { intros s' v <- (rec' & Hrec' & U'). apply view_eq; intros x; [done|]. rewrite lookup_named. cbn -[view_of]. rewrite !lookup_insert. case_decide; [cbn; by rewrite Hrec'; cbn; rewrite U'|]. by rewrite lookup_named. }
  destruct (byPodName s !! nameKey p) as [prev|] eqn:Hprev; cbn [mbind option_bind]; [|by apply Hset; [|exists rec]].
  destruct (named_uid s _ prev Hu Hs Hprev) as (pu & prec & Hpu & Hprec & U' & _). rewrite Hprec. cbn [fmap option_fmap option_map]. rewrite U', lookup_kept, Hpu. cbn [mbind option_bind]. rewrite Hprec. cbn [fmap option_fmap option_map].
  unfold rec_at. rewrite Hprec. change (default zeroRecord (Some prec)) with prec. rewrite U'. unfold is_zero.
  assert ((bool_decide (prev <> r) && bool_decide (expireAt prec = 0) = true) <-> pu <> UID p /\ Some (k_expires (kept_of prec)) = Some 0) as Hiff.
  { rewrite andb_true_iff, !bool_decide_eq_true. cbn. split; intros [A B]; (split; [|congruence]); intros E; apply A.
    - subst pu. rewrite E in Hpu. congruence.
    - subst prev. by apply (uid_inj s _ _ r). }
  destruct (bool_decide (prev <> r) && _) eqn:Hg.
  - rewrite decide_True by (by apply Hiff). set (s0 := set_nameReused _ s). destruct (proj1 Hiff eq_refl) as [Hne _]. apply Hset.
    + change (view_of s) with (view_of s0). change (ttl s) with (ttl s0). apply view_deletePod; [by destruct Hu|exact Hs].
    + destruct (deletePod_fields now pu prev s0 Hpu) as (E1&_). rewrite E1. case_decide; [by exists rec|]. exists rec. rewrite lookup_alter_ne; [done|]. intros ->. by apply Hne, (uid_inj s _ _ r).
  - rewrite decide_False by (intros Hx; apply Hiff in Hx; congruence). apply Hset; [done|by exists rec].
Qed.

Lemma view_claimPodIP r p old ne s : view_of (claimPodIPLocked r p old ne s) = view_of s.
Proof.
  destruct (claimPodIP_fields r p old ne s) as [[q Hq] Hc]. cbv zeta in Hq, Hc. destruct (clear_ip_fields _ _ Hc) as (_&_&E3&_&_&_&E7&_). cbn in E3, E7.
  assert (forall r', kept_of <$> alter (set_recSeq q) r (recs s) !! r' = kept_of <$> recs s !! r' /\
    (fun rec => UID (pod rec)) <$> alter (set_recSeq q) r (recs s) !! r' = (fun rec => UID (pod rec)) <$> recs s !! r') as Hf.
  { intros r'. rewrite lookup_alter. case_decide; [subst|done]. by destruct (recs s !! r'). }
  apply view_eq; intros x; rewrite ?lookup_kept, ?lookup_named, ?Hq, ?E3, ?E7.
  - destruct (pods s !! x) as [r'|]; [|done]. cbn. apply Hf.
  - destruct (byPodName s !! x) as [r'|]; [|done]. cbn. apply Hf.
Qed.

Lemma unchanged_kept p s : uid_inv s -> unchangedLocked s p = match v_pods (view_of s) !! UID (ev_pod p) with
  | Some k => is_zero (k_expires k) && negb (bool_decide (ev_resourceVersion p = ""%string)) && bool_decide (k_rv k = ev_resourceVersion p) | None => false end.
Proof.
  intros Hu. unfold unchangedLocked. rewrite lookup_kept. destruct (pods s !! UID (ev_pod p)) as [r|] eqn:Hr; [|done].
  destruct (ui_rec _ Hu _ _ Hr) as (rec & Hrec & _). cbn. unfold rec_at. by rewrite Hrec.
Qed.

Lemma view_UpsertPod name_of now p s : 0 < now -> event_ok name_of p -> store_inv name_of None s ->
  view_of (UpsertPod now p s) = view_upsert (ttl s) now p (view_of s).
Proof.
  intros Hnow Hev Hi. pose proof (si_uid _ _ _ Hi) as Hu. pose proof (si_sound _ _ _ Hi) as Hs.
  assert (view_of (UpsertPod now p s) = if unchangedLocked s p then view_of s else view_put (ttl s) now p (view_of s)) as ->.
  2:{ rewrite unchanged_kept by done. unfold view_upsert. by destruct (v_pods (view_of s) !! UID (ev_pod p)). }
  unfold UpsertPod, resyncNoOp, upsertLocked. destruct (unchangedLocked s p); [done|]. rewrite upsert_body_eq. destruct (upsert_indexed now p s) as [s1 r] eqn:He.
  rewrite view_bump, view_claimPodIP. pose proof (store_inv_upsert_indexed name_of now p s s1 r Hev Hi He) as Hi1. pose proof (upsert_indexed_fields _ _ _ _ _ Hu He) as (_&_&Hp&_&_&_&_&Ht&_).
  rewrite view_claimName; [|by apply Hi1|by apply Hi1|by rewrite Hp, lookup_insert_eq].
  rewrite (view_upsert_indexed now p s s1 r Hu Hs He), Ht. done.
Qed.

(** *** Sweep *)

(** A name is dropped only with its pod. *)
Definition names_follow (s s' : Store) : Prop := byPodName s' ⊆ byPodName s /\
  forall k r, byPodName s !! k = Some r -> byPodName s' !! k = Some r \/ exists uid, pods s !! uid = Some r /\ pods s' !! uid = None.

Lemma names_follow_one now d s : uid_inv s -> names_follow s (sweep_one now s d).
Proof.
  intros Hu. unfold sweep_one, sweepPodLocked, sweepContainerLocked. destruct (isPod d).
  2:{ destruct (byContainer s !! p_id d); [destruct (expired _ _)|]; (split; [done|by left]). }
  destruct (pods s !! p_uid d) as [r|] eqn:Hr; [|split; [done|by left]]. destruct (expired _ _); [|split; [done|by left]]. cbv zeta. set (s1 := foldl _ s _).
  destruct (clear_ip_fields s s1) as (E1&_&E3&_&_&_&E7&_). { apply (only_foldl clear_ip (fun s ip => dropClaimantLocked ip r s)). intros ip. apply only_dropClaimant. }
  destruct (removeRecord_fields r (p_uid d) s1) as (_&_&D3&_&_&D6&_). cbv zeta in D3, D6. unfold names_follow. rewrite D3, D6, E3. unfold dropNameIndexLocked.
  case_decide as Hd; cbn; rewrite E7 in *; (split; [|]); try done.
  - apply delete_subseteq.
  - intros k r' Hk. destruct (decide (nameKey (pod (rec_at s1 r)) = k)) as [<-|Hne]; [|left; by rewrite lookup_delete_ne]. right. exists (p_uid d). rewrite lookup_delete_eq. split; [congruence|done].
  - intros k r' Hk. by left.
Qed.

Lemma names_follow_all now l : forall s, uid_inv s -> names_follow s (foldl (sweep_one now) s l).
Proof.
  induction l as [|d l IH]; intros s Hu; [split; [done|by left]|]. cbn [foldl]. destruct (names_follow_one now d s Hu) as [A1 A2].
  pose proof (sweep_one_shrinks now d s) as Sh. assert (uid_inv (sweep_one now s d)) as Hu1.
  { split; rewrite (sk_recs _ _ Sh); [intros u r Hp; apply (ui_rec _ Hu); by apply (lookup_weaken _ _ _ _ Hp), (sk_pods _ _ Sh)|].
    intros r rec Hrec. assert (nextRec (sweep_one now s d) = nextRec s) as ->; [|by apply (ui_alloc _ Hu _ rec)]. clear. unfold sweep_one, sweepPodLocked, sweepContainerLocked.
    destruct (isPod d); [destruct (pods s !! _) as [r|]|destruct (byContainer s !! _)]; try done; destruct (expired _ _); try done. cbv zeta. set (s1 := foldl _ s _).
    destruct (clear_ip_fields s s1) as (_&E2&_). { apply (only_foldl clear_ip (fun s ip => dropClaimantLocked ip r s)). intros ip. apply only_dropClaimant. }
    destruct (removeRecord_fields r (p_uid d) s1) as (_&D2&_). cbv zeta in D2. congruence. }
  destruct (IH _ Hu1) as [B1 B2]. split; [by etrans|]. intros k r Hk. destruct (A2 k r Hk) as [Hk1|(uid & Hp & Hp1)].
  - destruct (B2 k r Hk1) as [|(uid & Hp & Hp')]; [by left|right]. exists uid. split; [|done]. by apply (lookup_weaken _ _ _ _ Hp), (sk_pods _ _ Sh).
  - right. exists uid. split; [done|]. pose proof (sk_pods _ _ (sweep_all_shrinks now l (sweep_one now s d))) as Ss. by eapply lookup_weaken_None.
Qed.

Lemma view_of_sweep name_of now s : store_inv name_of None s -> pend_inv now s -> view_of (sweep now s) = view_sweep now (view_of s).
Proof.
  intros Hi Hp. pose proof (si_uid _ _ _ Hi) as Hu. destruct (pend_inv_sweep now s Hp) as (_ & _ & Gone_). destruct (sweep_keeps now s) as (Keep & _ & Er).
  destruct (store_inv_sweep name_of now s Hi) as [Hi' _].
  assert (names_follow s (sweep now s) /\ pods (sweep now s) ⊆ pods s) as [[N1 N2] Sub].
  { unfold sweep. destruct (due_prefix now (pending s)) as [|d l]; [split; [split; [done|by left]|done]|]. set (dl := d :: l). clearbody dl. set (s3 := set_pending _ _).
    destruct (clear_gen_fields s3 _ (only_bump [] s3)) as (_&_&E3&_&_&_&E7&_). unfold names_follow. rewrite E3, E7. split; [by apply names_follow_all|apply (sk_pods _ _ (sweep_all_shrinks now dl s))]. }
  assert (forall u, v_pods (view_of (sweep now s)) !! u = filter (fun uk => unexpired now uk.2) (v_pods (view_of s)) !! u) as HP.
  { intros u. rewrite map_lookup_filter, !lookup_kept, Er. destruct (pods s !! u) as [r|] eqn:Hr; cbn [mbind option_bind].
    - destruct (ui_rec _ Hu _ _ Hr) as (rec & Hrec & _). rewrite Hrec. cbn [fmap option_fmap option_map mbind option_bind]. destruct (expired (expireAt rec) now) eqn:Hx.
      + rewrite option_guard_False by (cbn; congruence). destruct (pods (sweep now s) !! u) as [r'|] eqn:Hr'; [|done]. exfalso.
        assert (r' = r) as -> by (apply (lookup_weaken _ _ _ _ Hr') in Sub; congruence). pose proof (Gone_ u r Hr') as G. unfold rec_at in G. rewrite Er, Hrec in G. cbn in G. congruence.
      + rewrite option_guard_True by done. rewrite (Keep u r Hr); [cbn; by rewrite Hrec|]. unfold rec_at. by rewrite Hrec.
    - rewrite (lookup_weaken_None _ _ _ Hr Sub). done. }
  apply view_eq; intros x; [exact (HP x)|]. unfold view_sweep. cbn [v_names]. rewrite map_lookup_filter, !lookup_named, Er. destruct (byPodName s !! x) as [r|] eqn:Hx; cbn [mbind option_bind].
  - destruct (named_uid s x r Hu (si_sound _ _ _ Hi) Hx) as (u & rec & Hpu & Hrec & U & _). rewrite Hrec. cbn [fmap option_fmap option_map mbind option_bind]. rewrite U.
    destruct (N2 x r Hx) as [Hx'|(u' & Hu' & Hnone)].
    + rewrite Hx'. cbn [mbind option_bind]. rewrite Hrec. cbn. rewrite option_guard_True; [by rewrite U|]. cbn [snd]. rewrite <- HP, lookup_kept, Er.
      destruct (named_uid _ x r (si_uid _ _ _ Hi') (si_sound _ _ _ Hi') Hx') as (u2 & rec2 & Hp2 & Hrec2 & U2 & _). rewrite Er in Hrec2. assert (u2 = u) as -> by congruence. rewrite Hp2. cbn. by rewrite Hrec.
    + assert (u' = u) as -> by (by apply (uid_inj s _ _ r)). rewrite option_guard_False.
      * destruct (byPodName (sweep now s) !! x) as [r'|] eqn:Hx'; [|done]. exfalso. assert (r' = r) as -> by (apply (lookup_weaken _ _ _ _ Hx') in N1; congruence).
        destruct (named_uid _ x r (si_uid _ _ _ Hi') (si_sound _ _ _ Hi') Hx') as (u2 & rec2 & Hp2 & Hrec2 & U2 & _). rewrite Er in Hrec2. congruence.
      * cbn [snd]. rewrite <- HP, lookup_kept, Hnone. by intros [? ?].
  - rewrite (lookup_weaken_None _ _ _ Hx N1). done.
Qed.

(** *** Any operation *)

Lemma wakes_records l : forall s n, let s' := (foldr (fun id acc => let '(s, n) := acc in let '(s', k) := wakeLocked id s in (s', n + k)) (s, n) l).1 in
  recs s' = recs s /\ pods s' = pods s /\ byPodName s' = byPodName s.
Proof.
  induction l as [|id l IH]; intros s n; [done|]. cbn. specialize (IH s n). destruct (foldr _ _ _) as [s1 n1]. cbn in IH. unfold wakeLocked.
  by destruct (waiters s1 !! id) as [[|c ws]|].
Qed.

Lemma view_apply name_of t now s o : store_inv name_of None s -> pend_inv o.1 s -> op_ok name_of o -> ttl s = t -> now <= o.1 -> view_of (apply_op s o) = view_op t (view_of s) o.
Proof.
  intros Hi Hp [Ho Hev] Ht _. destruct o as [at_ [p|uid| | | |]]; unfold apply_op, view_op; cbn [fst snd] in *; subst t.
  - by apply (view_UpsertPod name_of).
  - apply view_deletePod; apply Hi.
  - by apply (view_of_sweep name_of).
  - unfold Drain. destruct (draining s); [done|]. set (s0 := set_draining true s). destruct (wakes_records (elements (dom (waiters s0))) s0 0) as (E1 & E2 & E3). by apply view_same.
  - unfold TryPark. by case_decide.
  - unfold Unpark. by case_decide.
Qed.

(** The clock of a run does not go back from [now]. *)
Fixpoint forward (now : Z) (ops : list (Z * op)) : Prop := match ops with [] => True | o :: ops => now <= o.1 /\ forward o.1 ops end.

Lemma view_run name_of t m ops : forall now s, reach name_of t m now s -> Forall (op_ok name_of) ops -> forward now ops ->
  view_of (run s ops) = foldl (view_op t) (view_of s) ops.
Proof.
  induction ops as [|o ops IH]; intros now s R F Fw; [done|]. apply Forall_cons in F as [Ho F]. destruct Fw as [Hle Fw]. destruct (reach_inv _ _ _ _ _ R) as (Hnow & Hi & Hp).
  destruct (reach_cont _ _ _ _ _ R) as [_ Ht]. assert (pend_inv o.1 s) as Hp' by (apply (pend_inv_stamps now o.1 s s); [lia|apply stamps_refl|done]).
  cbn [run foldl]. change (foldl apply_op (apply_op s o) ops) with (run (apply_op s o) ops). rewrite <- (view_apply name_of t now s o Hi Hp' Ho Ht Hle). apply (IH o.1); [|done|done].
  destruct o as [now' o]. by apply reach_op with (now := now).
Qed.

(** ** Lookups *)

Lemma by_uid now s uid : uid_inv s -> GetPodByUID now s uid = v_pods (view_of s) !! uid ≫= serve now.
Proof.
  intros Hu. unfold GetPodByUID. rewrite lookup_kept. destruct (pods s !! uid) as [r|] eqn:Hr; [|done]. destruct (ui_rec _ Hu _ _ Hr) as (rec & Hrec & _).
  cbn. unfold node_pod, rec_at. by rewrite Hrec.
Qed.

Lemma by_name now s ns name : uid_inv s -> name_sound s -> GetPodByName now s ns name =
  v_names (view_of s) !! (ns +:+ "/" +:+ name)%string ≫= fun uid => v_pods (view_of s) !! uid ≫= serve now.
Proof.
  intros Hu Hs. unfold GetPodByName. rewrite lookup_named. destruct (byPodName s !! _) as [r|] eqn:Hr; [|done]. destruct (named_uid s _ r Hu Hs Hr) as (uid & rec & Hp & Hrec & U & _).
  cbn [mbind option_bind]. rewrite Hrec. cbn [fmap option_fmap option_map mbind option_bind]. rewrite U, lookup_kept, Hp. cbn [mbind option_bind]. rewrite Hrec. cbn. unfold node_pod, rec_at. by rewrite Hrec.
Qed.

(** C12: the store implements an abstract one.  Every run of upserts, deletes,
    sweeps and waiter operations leaves exactly the live pods the map of live
    pods holds, and [PodsOnNode] answers as that map would.  When the clock of
    the run does not go back, the store further keeps exactly the pods, live and
    deleted, that the abstract store keeps, each with its expiry, and
    [GetPodByUID] and [GetPodByName] answer what it answers at any later or
    earlier instant: a live pod as it was last seen, a deleted one with its
    deletion stamp until its tombstone expires, swept or not, by name the pod
    that took the name last, and nothing for a pod that is unknown. *)
Theorem store_refines name_of t m ops :
  Forall (op_ok name_of) ops ->
  let s := run (New t m) ops in
  let spec := foldl spec_op ∅ ops in
  let v := foldl (view_op t) view_empty ops in
  live s = spec /\
  (forall n, n <> ""%string -> PodsOnNode s n = (map_to_list (spec_on_node n spec)).*2) /\
  (forall now uid lp, spec !! uid = Some lp ->
     GetPodByUID now s uid = Some (served lp) /\ GetPodByName now s (Namespace (lp_pod lp)) (Name (lp_pod lp)) = Some (served lp)) /\
  (forward 1 ops ->
     view_of s = v /\
     (forall now uid, GetPodByUID now s uid = v_pods v !! uid ≫= serve now) /\
     (forall now ns name, GetPodByName now s ns name = v_names v !! (ns +:+ "/" +:+ name)%string ≫= fun uid => v_pods v !! uid ≫= serve now)).
Proof.
  intros Hok s sp v. destruct (run_inv name_of t m ops Hok) as [Hi El]. fold s in Hi, El. fold sp in El. split; [done|]. split; [|split].
  - intros n Hn. rewrite <- El, <- (node_view_spec name_of) by done. unfold PodsOnNode, node_view. by rewrite map_to_list_fmap, <- !list_fmap_compose.
  - intros now uid lp Hl. rewrite <- El in Hl. pose proof (si_complete _ _ _ Hi uid lp) as Hn. pose proof Hl as (r & rec & Hr & Hrec & [He Hlp]%live_rec_Some)%lookup_live_Some.
    unfold GetPodByUID, GetPodByName. fold (nameKey (lp_pod lp)). rewrite (Hn ltac:(done) Hl), Hr. unfold node_pod, rec_at. rewrite Hrec. simpl. rewrite Hlp. unfold expired, is_zero. by rewrite He.
  - intros Fw. assert (view_of s = v) as Ev by (apply (view_run name_of t m ops 1 (New t m)); [by apply reach_init|done|done]). rewrite <- Ev. split; [done|].
    split; [intros now uid; apply by_uid, Hi|intros now ns name; apply by_name; apply Hi].
Qed.

End Serve.

(** ** Witness: a pod is seen and deleted *)

Definition demo_life : list (Z * op) := [(100, OpUpsert demo_event); (101, OpDelete "u")].

Lemma store_refines_witness :
  GetPodByUID 111 (run (H := no_canonical) (New 10 2) demo_life) "u" = Some (mkNodePod (with_DeletedAt 101 demo_pod) []) /\
  GetPodByUID 112 (run (H := no_canonical) (New 10 2) demo_life) "u" = None /\
  GetPodByName 111 (run (H := no_canonical) (New 10 2) demo_life) "ns" "p" = Some (mkNodePod (with_DeletedAt 101 demo_pod) []).
Proof.
  assert (F : Forall (op_ok demo_name) demo_life) by (apply Forall_cons; split; [split; [done|split; reflexivity]|apply Forall_singleton; split; [done|exact I]]).
  destruct (@store_refines no_canonical demo_name 10 2 demo_life F) as (_ & _ & _ & L). destruct L as (_ & U & N); [cbn; lia|].
  rewrite !U, N. vm_compute. done.
Defined.
