(* ===== verification/Tailer.v ===== *)
(** * The log tailer's ledger ([internal/agent/tailer])

    What a tailed file remembers about the bytes it has read, fed, buffered,
    exported and committed: the per-stream ledger ([ledger.go]), line splitting
    ([pipeline.go]), the batch commit ([flush.go]), rotation and rewind
    ([rotate.go]) and the replay of rotated segments ([replay.go]).

    The CRI and multi-line aggregators are a third-party package: they are the
    environment, which may emit a stream's open run or any number of its
    buffered lines at any time; the operations here are the callbacks the
    tailer hands them.  Descriptors, inodes and fingerprints are I/O and left
    out; a file is one value, so the shared batch is the part of it that
    belongs to the file. *)

From S2P Require Import Prelude.
From Stdlib Require Import Ascii.
Local Open Scope Z_scope.

(** ** Data *)

Record pos := mkPos { seg : nat; off : Z }.
Record logItem := mkItem { istart : pos; iend : pos }.

#[export] Instance pos_eq_dec : EqDecision pos.
Proof. solve_decision. Defined.

(** Identity of an entry: its range and the hash of its body. *)
Record obsKey := mkObsKey { ok_startSeg : nat; ok_endSeg : nat; ok_start : Z; ok_end : Z; ok_body : Z }.

#[export] Instance obsKey_eq_dec : EqDecision obsKey.
Proof. solve_decision. Defined.
#[export] Instance obsKey_countable : Countable obsKey.
Proof.
  apply (inj_countable' (fun k => (ok_startSeg k, ok_endSeg k, ok_start k, ok_end k, ok_body k))
    (fun '(a, b, c, d, e) => mkObsKey a b c d e)). by intros [].
Defined.

(** [fifo] and [fifoHead] are the code's compacting queue; [live] reads it. *)
Record streamState := mkStream {
  key : string;
  stream : string;
  lastEnd : pos;
  runStart : pos;
  hasRun : bool;
  runBytes : Z;
  fifo : list logItem;
  fifoHead : nat }.

(** A rotated-away incarnation; [to = -1] is an open-ended one. *)
Record segment := mkSegment {
  id : nat;
  fed : bool;
  segCommitted : Z;
  to : Z;
  fedTo : Z;
  skipTo : Z;
  segDiscarding : bool }.

Record file := mkFile {
  containerd : bool;
  multiline : bool;
  containerID : string;
  readPos : Z;
  lineStart : Z;
  committed : Z;
  skipEnd : Z;
  pending : list Z;
  streams : list streamState;
  segSeq : nat;
  tail : nat;
  segments : list segment;
  segmentsFed : bool;
  feeding : nat;
  oversized : Z;
  limited : bool;
  rewindGen : Z;
  exportedHighs : gmap nat Z;
  observed : gset obsKey;
  discarding : bool }.

(** [Config] as the ledger reads it. *)
Record config := mkConfig { BatchSize : nat; MaxEntryBytes : Z; RateDrop : bool }.

Record entry := mkEntry {
  e_stream : string; e_body : list Z; e_truncated : bool; e_start : pos; e_end : pos }.

(** Field updates. *)
Definition st_key (v : string) (x : streamState) : streamState := mkStream v (stream x) (lastEnd x)
  (runStart x) (hasRun x) (runBytes x) (fifo x) (fifoHead x).
Definition st_stream (v : string) (x : streamState) : streamState := mkStream (key x) v (lastEnd x)
  (runStart x) (hasRun x) (runBytes x) (fifo x) (fifoHead x).
Definition st_lastEnd (v : pos) (x : streamState) : streamState := mkStream (key x) (stream x) v
  (runStart x) (hasRun x) (runBytes x) (fifo x) (fifoHead x).
Definition st_runStart (v : pos) (x : streamState) : streamState := mkStream (key x) (stream x)
  (lastEnd x) v (hasRun x) (runBytes x) (fifo x) (fifoHead x).
Definition st_hasRun (v : bool) (x : streamState) : streamState := mkStream (key x) (stream x)
  (lastEnd x) (runStart x) v (runBytes x) (fifo x) (fifoHead x).
Definition st_runBytes (v : Z) (x : streamState) : streamState := mkStream (key x) (stream x)
  (lastEnd x) (runStart x) (hasRun x) v (fifo x) (fifoHead x).
Definition st_fifo (v : list logItem) (x : streamState) : streamState := mkStream (key x) (stream x)
  (lastEnd x) (runStart x) (hasRun x) (runBytes x) v (fifoHead x).
Definition st_fifoHead (v : nat) (x : streamState) : streamState := mkStream (key x) (stream x)
  (lastEnd x) (runStart x) (hasRun x) (runBytes x) (fifo x) v.
Definition sg_id (v : nat) (x : segment) : segment := mkSegment v (fed x) (segCommitted x) (to x)
  (fedTo x) (skipTo x) (segDiscarding x).
Definition sg_fed (v : bool) (x : segment) : segment := mkSegment (id x) v (segCommitted x) (to x)
  (fedTo x) (skipTo x) (segDiscarding x).
Definition sg_segCommitted (v : Z) (x : segment) : segment := mkSegment (id x) (fed x) v (to x)
  (fedTo x) (skipTo x) (segDiscarding x).
Definition sg_to (v : Z) (x : segment) : segment := mkSegment (id x) (fed x) (segCommitted x) v
  (fedTo x) (skipTo x) (segDiscarding x).
Definition sg_fedTo (v : Z) (x : segment) : segment := mkSegment (id x) (fed x) (segCommitted x) (to
  x) v (skipTo x) (segDiscarding x).
Definition sg_skipTo (v : Z) (x : segment) : segment := mkSegment (id x) (fed x) (segCommitted x)
  (to x) (fedTo x) v (segDiscarding x).
Definition sg_segDiscarding (v : bool) (x : segment) : segment := mkSegment (id x) (fed x)
  (segCommitted x) (to x) (fedTo x) (skipTo x) v.
Definition set_containerd (v : bool) (x : file) : file := mkFile v (multiline x) (containerID x)
  (readPos x) (lineStart x) (committed x) (skipEnd x) (pending x) (streams x) (segSeq x) (tail x)
  (segments x) (segmentsFed x) (feeding x) (oversized x) (limited x) (rewindGen x) (exportedHighs x)
  (observed x) (discarding x).
Definition set_multiline (v : bool) (x : file) : file := mkFile (containerd x) v (containerID x)
  (readPos x) (lineStart x) (committed x) (skipEnd x) (pending x) (streams x) (segSeq x) (tail x)
  (segments x) (segmentsFed x) (feeding x) (oversized x) (limited x) (rewindGen x) (exportedHighs x)
  (observed x) (discarding x).
Definition set_containerID (v : string) (x : file) : file := mkFile (containerd x) (multiline x) v
  (readPos x) (lineStart x) (committed x) (skipEnd x) (pending x) (streams x) (segSeq x) (tail x)
  (segments x) (segmentsFed x) (feeding x) (oversized x) (limited x) (rewindGen x) (exportedHighs x)
  (observed x) (discarding x).
Definition set_readPos (v : Z) (x : file) : file := mkFile (containerd x) (multiline x) (containerID
  x) v (lineStart x) (committed x) (skipEnd x) (pending x) (streams x) (segSeq x) (tail x) (segments
  x) (segmentsFed x) (feeding x) (oversized x) (limited x) (rewindGen x) (exportedHighs x) (observed
  x) (discarding x).
Definition set_lineStart (v : Z) (x : file) : file := mkFile (containerd x) (multiline x)
  (containerID x) (readPos x) v (committed x) (skipEnd x) (pending x) (streams x) (segSeq x) (tail
  x) (segments x) (segmentsFed x) (feeding x) (oversized x) (limited x) (rewindGen x) (exportedHighs
  x) (observed x) (discarding x).
Definition set_committed (v : Z) (x : file) : file := mkFile (containerd x) (multiline x)
  (containerID x) (readPos x) (lineStart x) v (skipEnd x) (pending x) (streams x) (segSeq x) (tail
  x) (segments x) (segmentsFed x) (feeding x) (oversized x) (limited x) (rewindGen x) (exportedHighs
  x) (observed x) (discarding x).
Definition set_skipEnd (v : Z) (x : file) : file := mkFile (containerd x) (multiline x) (containerID
  x) (readPos x) (lineStart x) (committed x) v (pending x) (streams x) (segSeq x) (tail x) (segments
  x) (segmentsFed x) (feeding x) (oversized x) (limited x) (rewindGen x) (exportedHighs x) (observed
  x) (discarding x).
Definition set_pending (v : list Z) (x : file) : file := mkFile (containerd x) (multiline x)
  (containerID x) (readPos x) (lineStart x) (committed x) (skipEnd x) v (streams x) (segSeq x) (tail
  x) (segments x) (segmentsFed x) (feeding x) (oversized x) (limited x) (rewindGen x) (exportedHighs
  x) (observed x) (discarding x).
Definition set_streams (v : list streamState) (x : file) : file := mkFile (containerd x) (multiline
  x) (containerID x) (readPos x) (lineStart x) (committed x) (skipEnd x) (pending x) v (segSeq x)
  (tail x) (segments x) (segmentsFed x) (feeding x) (oversized x) (limited x) (rewindGen x)
  (exportedHighs x) (observed x) (discarding x).
Definition set_segSeq (v : nat) (x : file) : file := mkFile (containerd x) (multiline x)
  (containerID x) (readPos x) (lineStart x) (committed x) (skipEnd x) (pending x) (streams x) v
  (tail x) (segments x) (segmentsFed x) (feeding x) (oversized x) (limited x) (rewindGen x)
  (exportedHighs x) (observed x) (discarding x).
Definition set_tail (v : nat) (x : file) : file := mkFile (containerd x) (multiline x) (containerID
  x) (readPos x) (lineStart x) (committed x) (skipEnd x) (pending x) (streams x) (segSeq x) v
  (segments x) (segmentsFed x) (feeding x) (oversized x) (limited x) (rewindGen x) (exportedHighs x)
  (observed x) (discarding x).
Definition set_segments (v : list segment) (x : file) : file := mkFile (containerd x) (multiline x)
  (containerID x) (readPos x) (lineStart x) (committed x) (skipEnd x) (pending x) (streams x)
  (segSeq x) (tail x) v (segmentsFed x) (feeding x) (oversized x) (limited x) (rewindGen x)
  (exportedHighs x) (observed x) (discarding x).
Definition set_segmentsFed (v : bool) (x : file) : file := mkFile (containerd x) (multiline x)
  (containerID x) (readPos x) (lineStart x) (committed x) (skipEnd x) (pending x) (streams x)
  (segSeq x) (tail x) (segments x) v (feeding x) (oversized x) (limited x) (rewindGen x)
  (exportedHighs x) (observed x) (discarding x).
Definition set_feeding (v : nat) (x : file) : file := mkFile (containerd x) (multiline x)
  (containerID x) (readPos x) (lineStart x) (committed x) (skipEnd x) (pending x) (streams x)
  (segSeq x) (tail x) (segments x) (segmentsFed x) v (oversized x) (limited x) (rewindGen x)
  (exportedHighs x) (observed x) (discarding x).
Definition set_oversized (v : Z) (x : file) : file := mkFile (containerd x) (multiline x)
  (containerID x) (readPos x) (lineStart x) (committed x) (skipEnd x) (pending x) (streams x)
  (segSeq x) (tail x) (segments x) (segmentsFed x) (feeding x) v (limited x) (rewindGen x)
  (exportedHighs x) (observed x) (discarding x).
Definition set_limited (v : bool) (x : file) : file := mkFile (containerd x) (multiline x)
  (containerID x) (readPos x) (lineStart x) (committed x) (skipEnd x) (pending x) (streams x)
  (segSeq x) (tail x) (segments x) (segmentsFed x) (feeding x) (oversized x) v (rewindGen x)
  (exportedHighs x) (observed x) (discarding x).
Definition set_rewindGen (v : Z) (x : file) : file := mkFile (containerd x) (multiline x)
  (containerID x) (readPos x) (lineStart x) (committed x) (skipEnd x) (pending x) (streams x)
  (segSeq x) (tail x) (segments x) (segmentsFed x) (feeding x) (oversized x) (limited x) v
  (exportedHighs x) (observed x) (discarding x).
Definition set_exportedHighs (v : gmap nat Z) (x : file) : file := mkFile (containerd x) (multiline
  x) (containerID x) (readPos x) (lineStart x) (committed x) (skipEnd x) (pending x) (streams x)
  (segSeq x) (tail x) (segments x) (segmentsFed x) (feeding x) (oversized x) (limited x) (rewindGen
  x) v (observed x) (discarding x).
Definition set_observed (v : gset obsKey) (x : file) : file := mkFile (containerd x) (multiline x)
  (containerID x) (readPos x) (lineStart x) (committed x) (skipEnd x) (pending x) (streams x)
  (segSeq x) (tail x) (segments x) (segmentsFed x) (feeding x) (oversized x) (limited x) (rewindGen
  x) (exportedHighs x) v (discarding x).
Definition set_discarding (v : bool) (x : file) : file := mkFile (containerd x) (multiline x)
  (containerID x) (readPos x) (lineStart x) (committed x) (skipEnd x) (pending x) (streams x)
  (segSeq x) (tail x) (segments x) (segmentsFed x) (feeding x) (oversized x) (limited x) (rewindGen
  x) (exportedHighs x) (observed x) v.

(** ** Positions and stream queues ([ledger.go]) *)

Definition less (p q : pos) : bool :=
  bool_decide (seg p < seg q)%nat || (bool_decide (seg p = seg q) && bool_decide (off p < off q)).

Definition pos0 : pos := mkPos 0 0.

Definition live (st : streamState) : list logItem := drop (fifoHead st) (fifo st).

Definition push (it : logItem) (st : streamState) : streamState := st_fifo (fifo st ++ [it]) st.

Definition pop (n : nat) (st : streamState) : streamState :=
  let h := (fifoHead st + n)%nat in
  if decide (length (fifo st) <= h)%nat then st_fifo [] (st_fifoHead 0 st) else st_fifoHead h st.

(** [strings.CutLast(key, "/")]: the part after the last slash, "" without one. *)
Fixpoint after_slash (s : string) : option string :=
  match s with
  | EmptyString => None
  | String c s =>
      match after_slash s with
      | Some r => Some r
      | None => if Ascii.eqb c "/"%char then Some s else None
      end
  end.

Definition streamOf (key : string) : string := default ""%string (after_slash key).

Definition newStream (k : string) : streamState := mkStream k (streamOf k) pos0 pos0 false 0 [] 0.

Definition find_stream (k : string) (l : list streamState) : option streamState :=
  head (filter (fun st => key st = k) l).

(** [state] finds a stream or appends a fresh one. *)
Definition state (k : string) (f : file) : file * streamState :=
  match find_stream k (streams f) with
  | Some st => (f, st)
  | None => (set_streams (streams f ++ [newStream k]) f, newStream k)
  end.

(** A stream state is updated through its pointer. *)
Definition put_stream (st : streamState) (f : file) : file :=
  set_streams ((fun s => if decide (key s = key st) then st else s) <$> streams f) f.

Definition resetStreams (f : file) : file := set_streams [] f.

Definition purgeSegmentFeeds (f : file) : file :=
  set_segments ((fun sg => sg_fed false (sg_fedTo 0 (sg_skipTo 0 (sg_segDiscarding false sg)))) <$> segments f)
    (set_segmentsFed false f).

Definition newTail (f : file) : file := set_tail (S (segSeq f)) (set_segSeq (S (segSeq f)) f).

Definition curSeg (f : file) : nat := if decide (feeding f = 0%nat) then tail f else feeding f.

Definition segmentByID (i : nat) (f : file) : option segment :=
  head (filter (fun sg => id sg = i) (segments f)).

Definition committedIn (f : file) (i : nat) : option Z :=
  if decide (i = tail f) then Some (committed f) else segCommitted <$> segmentByID i f.

(** [retire] drops the segment; ids are unique, so by id. *)
Definition retire (i : nat) (f : file) : file :=
  set_segments (filter (fun sg => id sg <> i) (segments f)) f.

Definition fedEnd (f : file) : Z :=
  foldl (fun e st => if bool_decide (seg (lastEnd st) = tail f) && bool_decide (e < off (lastEnd st))
                     then off (lastEnd st) else e) (committed f) (streams f).

Definition absorbSkipped (f : file) : file :=
  if bool_decide (committed f < skipEnd f) && bool_decide (fedEnd f = committed f)
  then set_committed (skipEnd f) f else f.

Definition lower (wm : option pos) (v : pos) : option pos :=
  match wm with
  | None => Some v
  | Some w => if less v w then Some v else wm
  end.

(** The lowest position still buffered. *)
Definition watermark (f : file) : option pos :=
  foldl (fun wm st =>
    let wm := if hasRun st then lower wm (runStart st) else wm in
    match live st with
    | it :: _ => lower wm (istart it)
    | [] => wm
    end) None (streams f).

(** ** Restarts ([file.go]) and the pipeline ([pipeline.go]) *)

Definition restartAt (o : Z) (f : file) : file :=
  set_skipEnd 0 (set_discarding false (set_limited false (set_pending []
    (set_lineStart o (set_readPos o f))))).

Definition beginIncarnation (o : Z) (f : file) : file := restartAt o (set_committed o (newTail f)).

Definition keyStdout (f : file) : string := (containerID f +:+ "/stdout")%string.
Definition keyStderr (f : file) : string := (containerID f +:+ "/stderr")%string.
Definition plainKey : string := "line".

Definition rebuildPipeline (f : file) : file :=
  let f := if decide (tail f = 0%nat) then newTail f else f in
  let f := resetStreams f in
  if containerd f then (state (containerID f) (state (keyStderr f) (state (keyStdout f) f).1).1).1
  else (state plainKey f).1.

Definition newPipeline (f : file) : file := rebuildPipeline (purgeSegmentFeeds f).

Definition rewind (f : file) : file :=
  newPipeline (restartAt (committed f) (set_exportedHighs ∅ (set_rewindGen (rewindGen f + 1) f))).

(** *** The aggregators' callbacks *)

(** Stage 1 emits: the open run, or the raw fragment's start, up to the last
    line fed; straight to the batch without stage 2, else into its queue. *)
Definition criEmit (k : string) (line : list Z) (rawStart : pos) (f : file) : file * option entry :=
  let '(f, st) := state k f in
  let start := if hasRun st then runStart st else rawStart in
  let st := st_hasRun false st in
  if multiline f then (put_stream (push (mkItem start (lastEnd st)) st) f, None)
  else (put_stream st f, Some (mkEntry (stream st) line false start (lastEnd st))).

(** Stage 2 emits an entry joined from [lines] queued lines. *)
Definition traceEmit (k : string) (lines : nat) (text : list Z) (truncated : bool) (f : file)
    : file * option entry :=
  let '(f, st) := state k f in
  let items := live st in
  let n := Nat.min lines (length items) in
  match items, last (take n items) with
  | it :: _, Some l => (put_stream (pop n st) f, Some (mkEntry (stream st) text truncated (istart it) (iend l)))
  | _, _ => (f, None)
  end.

(** *** Feeding one line *)

(** [forceFinal] turns the CRI tag [P] of a fragment into [F]. *)
Fixpoint index_byte (b : Z) (l : list Z) : option nat :=
  match l with
  | [] => None
  | x :: l => if decide (x = b) then Some 0%nat else S <$> index_byte b l
  end.

Definition forceFinal (raw : list Z) : list Z :=
  match index_byte 32 raw with
  | None => raw
  | Some i =>
      match index_byte 32 (drop (S i) raw) with
      | None => raw
      | Some j =>
          let k := (S i + S j)%nat in
          if decide (raw !! k = Some 80) then <[k := 70]> raw else raw
      end
  end.

(** What the CRI parser reports of a line: its stream and whether it is a
    fragment; [None] is a line that is not CRI. *)
Definition cri_line : Type := option (string * bool).

Definition feed_key (f : file) (l : cri_line) : string :=
  match l with
  | None => containerID f
  | Some (s, _) => (containerID f +:+ "/" +:+ s)%string
  end.

(** [feedLine] on a containerd file: the stream's run grows by the line.  The
    line handed to stage 1 is the fragment, forced final once the run is twice
    the entry cap. *)
Definition feedLine_cri (cfg : config) (l : cri_line) (raw : list Z) (start end_ : Z) (f : file)
    : file * list Z :=
  let '(f, st) := state (feed_key f l) f in
  let sg := curSeg f in
  let st := st_lastEnd (mkPos sg end_) st in
  let st := if hasRun st then st else st_runBytes 0 (st_runStart (mkPos sg start) (st_hasRun true st)) in
  let st := st_runBytes (runBytes st + (end_ - start)) st in
  let partial := match l with Some (_, p) => p | None => false end in
  let raw := if partial && bool_decide (2 * MaxEntryBytes cfg <= runBytes st) then forceFinal raw else raw in
  (put_stream st f, raw).

Definition feedPlainLine (raw : list Z) (start end_ : Z) (f : file) : file * option entry :=
  let '(f, st) := state plainKey f in
  let sg := curSeg f in
  let st := st_lastEnd (mkPos sg end_) st in
  if multiline f then (put_stream (push (mkItem (mkPos sg start) (mkPos sg end_)) st) f, None)
  else (put_stream st f, Some (mkEntry ""%string raw false (mkPos sg start) (mkPos sg end_))).

Definition feedLine (cfg : config) (l : cri_line) (raw : list Z) (start end_ : Z) (f : file)
    : file * option entry :=
  if containerd f then ((feedLine_cri cfg l raw start end_ f).1, None)
  else feedPlainLine raw start end_ f.

(** *** Splitting the pending bytes into lines *)

Definition oversizeSlack : Z := 4096.
Definition overCap (cfg : config) (n : nat) : bool :=
  bool_decide (MaxEntryBytes cfg + oversizeSlack < Z.of_nat n).

Definition noteOversized (f : file) : file := set_oversized (oversized f + 1) f.

(** [ingestChunk] before it consumes. *)
Definition appendPending (chunk : list Z) (f : file) : file := set_pending (pending f ++ chunk) f.
Definition ingest (chunk : list Z) (f : file) : file :=
  set_readPos (readPos f + Z.of_nat (length chunk)) (appendPending chunk f).

Inductive verdict :=
| NeedMore                                    (** no whole line pending *)
| Paused                                      (** the rate limiter holds the file *)
| Skipped                                     (** consumed, nothing fed *)
| Line (raw : list Z) (start end_ : Z).       (** a line to feed *)

(** Consume [n] pending bytes. *)
Definition advance (n : nat) (f : file) : file :=
  set_lineStart (lineStart f + Z.of_nat n) (set_pending (drop n (pending f)) f).

Definition note_skip (f : file) : file := set_skipEnd (lineStart f) f.

(** One turn of [consume]'s loop; [allow] is [allowLine]'s token-bucket answer
    (floating point), read only when not draining. *)
Definition consume1 (cfg : config) (draining allow : bool) (f : file) : file * verdict :=
  match index_byte 10 (pending f) with
  | None =>
      if overCap cfg (length (pending f)) then
        let f' := advance (length (pending f)) f in
        (set_discarding true (if discarding f then f' else noteOversized f'), NeedMore)
      else (f, NeedMore)
  | Some i =>
      if discarding f then (note_skip (set_discarding false (advance (S i) f)), Skipped)
      else if decide (i = 0%nat) then (note_skip (advance 1 (set_limited false f)), Skipped)
      else if negb draining && negb allow then
        if RateDrop cfg then (note_skip (advance (S i) f), Skipped)
        else (set_limited true f, Paused)
      else
        let f := set_limited false f in
        let start := lineStart f in
        let line := take i (pending f) in
        let f := advance (S i) f in
        (f, Line line start (lineStart f))
  end.

(** [consume] while draining: no limiter, no flush; the lines fed, in order.
    Each turn but the last takes a byte, so the pending length is fuel enough. *)
Fixpoint drain_loop (fuel : nat) (cfg : config) (f : file) : file * list (list Z * Z * Z) :=
  match fuel with
  | 0%nat => (f, [])
  | S fuel =>
      match consume1 cfg true true f with
      | (f, Line raw s e) => let '(f, ls) := drain_loop fuel cfg f in (f, (raw, s, e) :: ls)
      | (f, Skipped) => drain_loop fuel cfg f
      | (f, _) => (f, [])
      end
  end.

Definition consume_draining (cfg : config) (f : file) : file * list (list Z * Z * Z) :=
  drain_loop (S (length (pending f))) cfg f.

(** ** Flush ([flush.go]) *)

Definition get (c : gmap nat Z) (i : nat) : Z := default 0 (c !! i).

Definition raise (i : nat) (o : Z) (c : gmap nat Z) : gmap nat Z :=
  if decide (get c i < o) then <[i := o]> c else c.

(** [proposeCandidates] for the one file. *)
Definition proposeCandidates (f : file) (c : gmap nat Z) (e : entry) : gmap nat Z :=
  let c := raise (seg (e_end e)) (off (e_end e)) c in
  if decide (seg (e_start e) = seg (e_end e)) then c
  else foldl (fun c sg =>
    if bool_decide (seg (e_start e) <= id sg)%nat && bool_decide (id sg < seg (e_end e))%nat && fed sg
    then raise (id sg) (to sg) c else c) c (segments f).

(** The earlier batches' withheld highs are offered again. *)
Definition reoffer (f : file) (c : gmap nat Z) : gmap nat Z :=
  map_fold raise c (exportedHighs f).

(** The clamp to the watermark. *)
Definition clamp_one (wm : pos) (i : nat) (o : Z) : option Z :=
  if decide (seg wm < i)%nat then None
  else if decide (seg wm = i /\ off wm < o) then Some (off wm)
  else Some o.

Definition clamp (wm : option pos) (c : gmap nat Z) : gmap nat Z :=
  match wm with
  | None => c
  | Some w => map_imap (clamp_one w) c
  end.

(** The batch's commit candidates, before and after the clamp. *)
Definition highs (f : file) (batch : list entry) : gmap nat Z :=
  reoffer f (foldl (proposeCandidates f) ∅ batch).
Definition cands (f : file) (batch : list entry) : gmap nat Z := clamp (watermark f) (highs f batch).

(** One candidate of [advanceBatch]. *)
Definition advance_one (i : nat) (o : Z) (f : file) : file :=
  if decide (i = tail f) then (if decide (committed f < o) then set_committed o f else f)
  else match segmentByID i f with
  | Some s =>
      if decide (segCommitted s < o) then
        let f := set_segments ((fun sg => if decide (id sg = i) then sg_segCommitted o sg else sg) <$> segments f) f in
        if bool_decide (0 <= to s) && bool_decide (to s <= o) then retire i f else f
      else f
  | None => f
  end.

(** The highs still above their commit frontier, kept for the next flush. *)
Definition withheld (f : file) (h : gmap nat Z) : gmap nat Z :=
  map_imap (fun i o => match committedIn f i with
                       | Some c => if decide (c < o) then Some o else None
                       | None => None
                       end) h.

Definition advanceBatch (c h : gmap nat Z) (f : file) : file :=
  let f := map_fold advance_one f c in
  absorbSkipped (set_exportedHighs (withheld f h) f).

(** The end of a flush: the batch was accepted (or permanently rejected, which
    advances the same way), or the export failed and the file rewinds. *)
Definition flush (accepted : bool) (batch : list entry) (f : file) : file :=
  match batch with
  | [] => f
  | _ => if accepted then advanceBatch (cands f batch) (highs f batch) f else rewind f
  end.

(** ** What was already observed ([observed.go]) *)

Definition maxObservedEntries : nat := 8192.

Section Observed.
Variable hash : list Z -> Z.

Definition obs_key (e : entry) : obsKey :=
  mkObsKey (seg (e_start e)) (seg (e_end e)) (off (e_start e)) (off (e_end e)) (hash (e_body e)).

Definition reReadable (f : file) (k : obsKey) : bool :=
  match committedIn f (ok_endSeg k) with
  | Some c => bool_decide (c < ok_end k)
  | None => false
  end.

Definition alreadyObserved (f : file) (e : entry) : bool := bool_decide (obs_key e ∈ observed f).

Definition observe (f : file) (e : entry) : file :=
  if negb (reReadable f (obs_key e)) || bool_decide (maxObservedEntries <= size (observed f))%nat then f
  else set_observed ({[obs_key e]} ∪ observed f) f.

Definition pruneObserved (f : file) : file :=
  set_observed (filter (fun k => reReadable f k = true) (observed f)) f.

(** The bookkeeping at the end of every flush of the file. *)
Definition observe_batch (batch : list entry) (f : file) : file := foldl observe (pruneObserved f) batch.

End Observed.

(** ** Rotation ([rotate.go]) *)

Definition buffered (f : file) : bool := bool_decide (is_Some (watermark f)).

(** The state [reopen] captures before it records the hop. *)
Definition prevFed (f : file) : bool := segmentsFed f || bool_decide (segments f = []).
Definition aborted (renamed drained : bool) : bool := renamed && negb drained.
Definition wasFed (renamed drained : bool) (f : file) : bool := prevFed f && negb (aborted renamed drained).
Definition carry (renamed drained : bool) (f : file) : bool :=
  renamed && buffered f && wasFed renamed drained f.

(** The segment the rotation records. *)
Definition hop (renamed drained : bool) (f : file) : option segment :=
  if aborted renamed drained then Some (mkSegment (tail f) false (committed f) (-1) (fedEnd f) 0 false)
  else if renamed && bool_decide (committed f < fedEnd f)
  then Some (mkSegment (tail f) true (committed f) (fedEnd f) 0 0 false)
  else None.

Definition restore_fed (was prev ab : bool) (old : bool) (sg : segment) : segment :=
  let sg := sg_fed was sg in
  if prev && ab && old then
    let sg := sg_fed true sg in
    if decide (0 <= to sg) then sg_fedTo (fedTo sg `max` to sg) sg else sg
  else sg.

(** [reopen], after its consume.  [f0] is the file when the hop is recorded;
    [f1] the file after [stopPipeline] has emitted what the stages held (the
    same file when the pipeline is carried). *)
Definition reopen (renamed drained : bool) (f0 f1 : file) : file :=
  let was := wasFed renamed drained f0 in
  let ab := aborted renamed drained in
  let f := if carry renamed drained f0 then f1 else rebuildPipeline f1 in
  let segs := (restore_fed was (prevFed f0) ab true <$> segments f0) ++
              (restore_fed was (prevFed f0) ab false <$> option_list (hop renamed drained f0)) in
  beginIncarnation 0 (set_segmentsFed was (set_segments segs f)).

(** ** Replaying a rotated segment ([replay.go]) *)

Definition replay_from (p : segment) : Z := segCommitted p `max` fedTo p `max` skipTo p.

Definition upd_segment (i : nat) (g : segment -> segment) (f : file) : file :=
  set_segments ((fun sg => if decide (id sg = i) then g sg else sg) <$> segments f) f.

(** A whole line [start, end_) of segment [i] is fed under its id. *)
Definition replay_line (cfg : config) (i : nat) (l : cri_line) (raw : list Z) (start end_ : Z) (f : file)
    : file * option entry :=
  let '(f, e) := feedLine cfg l raw start end_ (set_feeding i f) in
  (upd_segment i (sg_fedTo end_) (set_feeding 0 f), e).

(** An oversized line's prefix, or its tail up to the newline, is skipped. *)
Definition replay_skip (i : nat) (cur : Z) (mid : bool) (f : file) : file :=
  upd_segment i (fun p => sg_skipTo cur (sg_segDiscarding mid p)) f.

(** The read reached the owed end, or the end of the source. *)
Definition replay_finish (i : nat) (short : bool) (f : file) : file :=
  match segmentByID i f with
  | None => f
  | Some p =>
      let fedv := segCommitted p `max` fedTo p in
      if decide (to p < 0) then
        if decide (segCommitted p < fedv) then upd_segment i (fun p => sg_fed true (sg_to fedv p)) f
        else retire i f
      else if short then
        if decide (segCommitted p < fedv) then upd_segment i (fun p => sg_fed true (sg_to fedv p)) f
        else retire i f
      else upd_segment i (sg_fed true) f
  end.

(** The end of a pass over all segments; [allDone] when every one was replayed. *)
Definition replay_done (allDone : bool) (f : file) : file := set_segmentsFed allDone (set_feeding 0 f).

(** ** Restart from a checkpoint ([discover.go]) *)

(** A stored position: the tail's offset and the owed ranges of the rotated
    files, oldest first. *)
Record checkpoint := mkCheckpoint { cp_offset : Z; cp_pending : list (Z * Z) }.

Definition freshFile (isCri ml : bool) (cid : string) : file :=
  newPipeline (mkFile isCri ml cid 0 0 0 0 [] [] 0 0 [] false 0 0 false 0 ∅ ∅ false).

Definition add_segment (from to_ : Z) (f : file) : file :=
  let n := S (segSeq f) in
  set_segments (segments f ++ [mkSegment n false from to_ 0 0 false]) (set_segSeq n f).

(** [initFile] on a stored position, then the open at the committed offset.
    [rotated]: the path now names another incarnation, so the checkpointed
    one is owed as an open-ended segment and the tail starts over. *)
Definition initFile (cp : checkpoint) (rotated : bool) (f : file) : file :=
  let f := set_committed (cp_offset cp) f in
  let f := foldl (fun f pp => add_segment pp.1 pp.2 f) f (cp_pending cp) in
  let f := if rotated then set_committed 0 (add_segment (committed f) (-1) f) else f in
  let f := newTail f in
  restartAt (committed f) f.

(** [saveCheckpoints]: what is stored of a file. *)
Definition checkpointOf (f : file) : checkpoint :=
  mkCheckpoint (committed f) ((fun sg => (segCommitted sg, to sg)) <$> segments f).
