(* ===== verification/TailerLedger.v ===== *)
(** * No tailed line is ever skipped

    The tailer as a system: reads, line splitting, the two aggregator stages
    emitting when they please, flushes that succeed or fail, rotations,
    truncations and segment replays, in any order.  The ledger invariant says
    that the commit frontier of every incarnation stays below every line that
    was fed and not yet delivered, so a restart from the checkpoint re-reads
    it. *)

From S2P Require Import Prelude Tailer.
From Stdlib Require Import Ascii.
Local Open Scope Z_scope.

(** ** Order on positions *)

Definition ple (p q : pos) : Prop := (seg p < seg q)%nat \/ (seg p = seg q /\ off p <= off q).

Lemma ple_refl p : ple p p.
Proof. right. split; [done|lia]. Qed.
Lemma ple_trans p q r : ple p q -> ple q r -> ple p r.
Proof. unfold ple. lia. Qed.
Lemma less_false p q : less p q = false <-> ple q p.
Proof. unfold less, ple. rewrite orb_false_iff, andb_false_iff, !bool_decide_eq_false. lia. Qed.
Lemma less_true p q : less p q = true -> ple p q.
Proof. unfold less, ple. rewrite orb_true_iff, andb_true_iff, !bool_decide_eq_true. lia. Qed.

#[export] Hint Resolve ple_refl : kube.

(** ** Streams *)

(** Apply [g] to the stream of key [k], creating it if needed. *)
Definition with_stream (k : string) (g : streamState -> streamState) (f : file) : file :=
  let '(f', st) := state k f in put_stream (g st) f'.

Lemma find_stream_Some k l st : find_stream k l = Some st -> st ∈ l /\ key st = k.
Proof.
  unfold find_stream. intros Hh. assert (st ∈ filter (fun s => key s = k) l) as Hin.
  { destruct (filter _ l) as [|a l']; [done|]. injection Hh as ->. by left. }
  apply list_elem_of_filter in Hin. tauto.
Qed.

Lemma find_stream_None k l : find_stream k l = None -> forall st, st ∈ l -> key st <> k.
Proof.
  unfold find_stream. intros Hh st Hin Hk. assert (st ∈ filter (fun s => key s = k) l) as Hf.
  { by apply list_elem_of_filter. }
  destruct (filter _ l); [by apply not_elem_of_nil in Hf|done].
Qed.

Lemma state_spec k f :
  let '(f', st) := state k f in
  key st = k /\ st ∈ streams f' /\ f' = set_streams (streams f') f /\
  ((f' = f) \/ (st = newStream k /\ streams f' = streams f ++ [newStream k] /\ forall s, s ∈ streams f -> key s <> k)).
Proof.
  unfold state. destruct (find_stream k (streams f)) as [st|] eqn:E.
  - apply find_stream_Some in E as [Hin Hk]. split; [done|]. split; [done|]. split; [by destruct f|by left].
  - split; [done|]. split; [apply elem_of_app; right; by apply list_elem_of_singleton|]. split; [done|].
    right. split; [done|]. split; [done|]. by apply find_stream_None.
Qed.

Lemma with_stream_spec k g f :
  (forall st, key (g st) = key st) -> NoDup (key <$> streams f) ->
  exists st, key st = k /\ (st ∈ streams f \/ (st = newStream k /\ forall s, s ∈ streams f -> key s <> k)) /\
    g st ∈ streams (with_stream k g f) /\
    (forall s, s ∈ streams (with_stream k g f) <-> s = g st \/ (s ∈ streams f /\ key s <> k)) /\
    NoDup (key <$> streams (with_stream k g f)) /\
    with_stream k g f = set_streams (streams (with_stream k g f)) f.
Proof.
  intros Hg Hnd. unfold with_stream. pose proof (state_spec k f) as Hs. destruct (state k f) as [f' st].
  destruct Hs as (Hk & Hin & Hf & Hor). exists st. split; [done|].
  assert (NoDup (key <$> streams f')) as Hnd'.
  { destruct Hor as [->|(_ & -> & Hne)]; [done|]. rewrite fmap_app. apply NoDup_app. split; [done|]. split.
    - intros x Hx ->%list_elem_of_singleton. apply list_elem_of_fmap in Hx as (s & Hks & Hs). by apply (Hne s Hs).
    - apply NoDup_singleton. }
  assert (forall s, s ∈ streams f' <-> s = st \/ (s ∈ streams f /\ key s <> k)) as Hel.
  { intros s. destruct Hor as [->|(-> & -> & Hne)].
    - split; [|intros [->|[? _]]; done]. intros Hs. destruct (decide (key s = k)) as [Hks|]; [left|by right].
      assert (forall l, NoDup (key <$> l) -> s ∈ l -> st ∈ l -> s = st) as Huniq; [|by apply (Huniq (streams f))].
      clear -Hks Hk. induction l as [|a l IH]; [by intros _ ?%not_elem_of_nil|]. cbn. intros [Hna Hnd]%NoDup_cons.
      intros [->|H1]%elem_of_cons [->|H2]%elem_of_cons; [done| | |by apply IH].
      + destruct Hna. apply list_elem_of_fmap. exists st. split; [congruence|done].
      + destruct Hna. apply list_elem_of_fmap. exists s. split; [congruence|done].
    - rewrite elem_of_app, list_elem_of_singleton. split; [intros [Hs| ->]; [right; split; [done|by apply Hne]|by left]|].
      intros [->|[? _]]; [by right|by left]. }
  split; [destruct Hor as [->|(-> & _ & Hne)]; [by left|right; by split]|].
  assert (forall s, s ∈ streams (put_stream (g st) f') <-> s = g st \/ (s ∈ streams f /\ key s <> k)) as Hput.
  { intros s. unfold put_stream. cbn. rewrite list_elem_of_fmap. split.
    - intros (s0 & -> & Hs0). case_decide as Hd; [by left|]. rewrite Hg, Hk in Hd. right.
      apply Hel in Hs0 as [->|?]; [congruence|done].
    - intros [->|[Hs Hne]].
      + exists st. split; [by rewrite decide_True by (by rewrite Hg)|done].
      + exists s. split; [by rewrite decide_False by (rewrite Hg, Hk; done)|]. apply Hel. by right. }
  split; [apply Hput; by left|]. split; [exact Hput|]. split.
  - unfold put_stream. cbn. rewrite <- list_fmap_compose.
    rewrite (list_fmap_ext _ key (streams f')); [done|]. intros i s _. cbn. case_decide as Hd; [|done].
    by rewrite Hd.
  - rewrite Hf. done.
Qed.

Lemma live_push it st : (fifoHead st <= length (fifo st))%nat -> live (push it st) = live st ++ [it].
Proof. intros Hle. unfold live, push. cbn. by rewrite drop_app_le. Qed.

Lemma live_pop n st : live (pop n st) = drop n (live st).
Proof.
  unfold pop, live. case_decide as Hd; cbn.
  - rewrite drop_drop. symmetry. apply drop_ge. lia.
  - by rewrite drop_drop.
Qed.

(** ** Lines, coverage, buffering *)

(** A physical line that was fed. *)
Record fline := mkLine { ln_key : string; ln_seg : nat; ln_start : Z; ln_end : Z }.

Definition lstart (l : fline) : pos := mkPos (ln_seg l) (ln_start l).
Definition lend (l : fline) : pos := mkPos (ln_seg l) (ln_end l).

(** An entry of the line's stream spans it. *)
Definition covers (e : entry) (l : fline) : Prop :=
  e_stream e = streamOf (ln_key l) /\ ple (e_start e) (lstart l) /\ ple (lend l) (e_end e).

Definition covered (es : list entry) (l : fline) : Prop := exists e, e ∈ es /\ covers e l.

(** A stream state that buffers the line, in its open run or its queue. *)
Definition holds (st : streamState) (l : fline) : Prop :=
  key st = ln_key l /\
  ((hasRun st = true /\ ple (runStart st) (lstart l) /\ ple (lend l) (lastEnd st)) \/
   exists it, it ∈ live st /\ ple (istart it) (lstart l) /\ ple (lend l) (iend it)).

Definition buf (ss : list streamState) (l : fline) : Prop := exists st, st ∈ ss /\ holds st l.

Definition item_le (a b : logItem) : Prop := ple (istart a) (istart b) /\ ple (iend a) (iend b).

(** A well-formed stream, nothing of which lies past [lim]. *)
Record stream_ok (lim : pos) (st : streamState) : Prop := {
  so_stream : stream st = streamOf (key st);
  so_head : (fifoHead st <= length (fifo st))%nat;
  so_items : forall it, it ∈ live st -> ple (istart it) (iend it) /\ ple (iend it) (lastEnd st);
  so_sorted : StronglySorted item_le (live st);
  so_run : hasRun st = true -> ple (runStart st) (lastEnd st) /\
    forall it, it ∈ live st -> ple (istart it) (runStart st);
  so_last : ple (lastEnd st) lim }.

Lemma stream_ok_new lim k : (0 < seg lim)%nat -> stream_ok lim (newStream k).
Proof.
  intros Hl. split; try done.
  - intros it Hit. by apply not_elem_of_nil in Hit.
  - constructor.
  - left. done.
Qed.

Lemma stream_ok_lim lim lim' st : ple lim lim' -> stream_ok lim st -> stream_ok lim' st.
Proof. intros Hl []. split; try done. by eapply ple_trans. Qed.

(** *** The watermark is below everything buffered *)

Lemma lower_spec wm v w : lower wm v = Some w -> ple w v /\ (forall u, wm = Some u -> ple w u).
Proof.
  unfold lower. destruct wm as [u|]; [|intros [= <-]; split; [apply ple_refl|done]].
  destruct (less v u) eqn:E; intros [= <-].
  - split; [apply ple_refl|]. intros ? [= <-]. by apply less_true.
  - split; [by apply less_false|]. intros ? [= <-]. apply ple_refl.
Qed.

Lemma lower_Some wm v : is_Some (lower wm v).
Proof. unfold lower. destruct wm; [destruct (less _ _)|]; by eexists. Qed.

Definition wm_step (wm : option pos) (st : streamState) : option pos :=
  let wm := if hasRun st then lower wm (runStart st) else wm in
  match live st with
  | it :: _ => lower wm (istart it)
  | [] => wm
  end.

Lemma wm_step_mono wm st w : wm_step wm st = Some w -> forall u, wm = Some u -> ple w u.
Proof.
  unfold wm_step. intros Hw u ->.
  assert (forall x, (if hasRun st then lower (Some u) (runStart st) else Some u) = Some x -> ple x u) as H1.
  { intros x. destruct (hasRun st); [intros [_ Hx]%lower_spec; by apply Hx|intros [= <-]; apply ple_refl]. }
  destruct (live st) as [|it l]; [by apply H1|]. apply lower_spec in Hw as [_ Hx].
  destruct (hasRun st); [|by apply Hx].
  destruct (lower_Some (Some u) (runStart st)) as [y Hy]. eapply ple_trans; [by apply Hx|by apply H1].
Qed.

Lemma wm_step_keeps wm st : is_Some wm -> is_Some (wm_step wm st).
Proof.
  intros [u ->]. unfold wm_step. destruct (hasRun st), (live st); try apply lower_Some; by eexists.
Qed.

Lemma wm_step_holds wm st l : StronglySorted item_le (live st) -> holds st l ->
  exists w, wm_step wm st = Some w /\ ple w (lstart l).
Proof.
  intros Hs [_ [(Hr & Hle & _)|(it & Hin & Hle & _)]]; unfold wm_step.
  - rewrite Hr. destruct (lower_Some wm (runStart st)) as [x Hx]. rewrite Hx.
    apply lower_spec in Hx as [Hx _]. destruct (live st) as [|i l'].
    + exists x. split; [done|]. by eapply ple_trans.
    + destruct (lower_Some (Some x) (istart i)) as [y Hy]. exists y. split; [done|].
      apply lower_spec in Hy as [_ Hy]. eapply ple_trans; [by apply Hy|]. by eapply ple_trans.
  - destruct (live st) as [|i l']; [by apply not_elem_of_nil in Hin|].
    destruct (lower_Some (if hasRun st then lower wm (runStart st) else wm) (istart i)) as [y Hy].
    exists y. split; [done|]. apply lower_spec in Hy as [Hy _]. eapply ple_trans; [exact Hy|].
    apply elem_of_cons in Hin as [->|Hin]; [done|]. inversion Hs as [|? ? _ Hall]; subst.
    rewrite Forall_forall in Hall. eapply ple_trans; [apply (Hall it Hin)|done].
Qed.

Lemma watermark_le f l : (forall st, st ∈ streams f -> StronglySorted item_le (live st)) ->
  buf (streams f) l -> exists w, watermark f = Some w /\ ple w (lstart l).
Proof.
  intros Hs (st & Hin & Hh). unfold watermark. change (fun wm st => _) with wm_step.
  revert Hs Hin. generalize (streams f) as ss. generalize (@None pos) as wm.
  assert (forall ss wm, is_Some wm -> exists w, foldl wm_step wm ss = Some w /\ forall u, wm = Some u -> ple w u) as Hkeep.
  { induction ss as [|a ss IH]; intros wm [u ->]; cbn; [exists u; split; [done|]; intros ? [= <-]; apply ple_refl|].
    destruct (wm_step_keeps (Some u) a) as [v Hv]; [by eexists|].
    destruct (IH (wm_step (Some u) a)) as (w & Hw & Hle); [by eexists|]. exists w. split; [done|]. intros ? [= <-].
    eapply ple_trans; [by apply Hle|]. by eapply wm_step_mono. }
  intros wm ss. revert wm. induction ss as [|a ss IH]; intros wm Hs Hin; [by apply not_elem_of_nil in Hin|].
  cbn. apply elem_of_cons in Hin as [<-|Hin].
  - destruct (wm_step_holds wm st l) as (w & Hw & Hle); [apply Hs; by left|done|].
    destruct (Hkeep ss (wm_step wm st)) as (w' & Hw' & Hle'); [by eexists|]. exists w'. split; [done|].
    eapply ple_trans; [by apply Hle'|done].
  - apply IH; [|done]. intros s Hsin. apply Hs. by right.
Qed.

(** *** The fed end is above every stream's end *)

Lemma fedEnd_ge f st : st ∈ streams f -> seg (lastEnd st) = tail f -> off (lastEnd st) <= fedEnd f.
Proof.
  unfold fedEnd. intros Hin Hseg. generalize (committed f) as c. revert Hin. generalize (streams f) as ss.
  assert (forall ss c, c <= foldl (fun e st => if bool_decide (seg (lastEnd st) = tail f) && bool_decide (e < off (lastEnd st))
                     then off (lastEnd st) else e) c ss) as Hmono.
  { induction ss as [|a ss IH]; intros c; cbn; [lia|]. etrans; [|apply IH].
    destruct (bool_decide (seg (lastEnd a) = tail f)), (bool_decide (c < off (lastEnd a))) eqn:E; cbn; try lia.
    apply bool_decide_eq_true in E. lia. }
  induction ss as [|a ss IH]; intros Hin c; [by apply not_elem_of_nil in Hin|]. cbn.
  apply elem_of_cons in Hin as [<-|Hin]; [|by apply IH]. etrans; [|apply Hmono].
  rewrite bool_decide_eq_true_2 by done. cbn. case_bool_decide; lia.
Qed.

Lemma fedEnd_committed f : committed f <= fedEnd f.
Proof.
  unfold fedEnd. generalize (committed f) as c. generalize (streams f) as ss.
  induction ss as [|a ss IH]; intros c; cbn; [lia|]. etrans; [|apply IH].
  destruct (bool_decide (seg (lastEnd a) = tail f)), (bool_decide (c < off (lastEnd a))) eqn:E; cbn; try lia.
  apply bool_decide_eq_true in E. lia.
Qed.

Lemma fedEnd_le f B : committed f <= B ->
  (forall st, st ∈ streams f -> seg (lastEnd st) = tail f -> off (lastEnd st) <= B) -> fedEnd f <= B.
Proof.
  unfold fedEnd. generalize (committed f) as c. generalize (streams f) as ss.
  induction ss as [|a ss IH]; intros c Hc Hs; cbn; [lia|]. apply IH; [|intros; apply Hs; [by right|done]].
  destruct (bool_decide (seg (lastEnd a) = tail f)) eqn:E, (bool_decide (c < off (lastEnd a))); cbn; try lia.
  apply bool_decide_eq_true in E. apply Hs; [by left|done].
Qed.

(** ** The system *)

(** [fl] is the file, [batch] its part of the unflushed batch; the rest is
    what has happened: the entries delivered (accepted, or rejected for good),
    the lines fed since the last rewind or delivered before it, the
    incarnations truncated away or given up on, and how far each incarnation
    has been consumed.  [ahead] is set while a rotated-away tail is drained
    although older segments are owed a replay again: a flush failed while the
    tail was read, and the same pass handles its rotation. *)
Record sys := mkSys {
  fl : file; batch : list entry; delivered : list entry; log : list fline;
  gone : gset nat; front : gmap nat Z; ahead : bool }.

Definition put (f : file) (y : sys) : sys := mkSys f (batch y) (delivered y) (log y) (gone y) (front y) (ahead y).
Definition add (e : option entry) (y : sys) : sys :=
  mkSys (fl y) (batch y ++ option_list e) (delivered y) (log y) (gone y) (front y) (ahead y).
Definition fed_line (l : fline) (y : sys) : sys :=
  mkSys (fl y) (batch y) (delivered y) (log y ++ [l]) (gone y) (front y) (ahead y).
Definition reach_front (i : nat) (o : Z) (y : sys) : sys :=
  mkSys (fl y) (batch y) (delivered y) (log y) (gone y) (raise i o (front y)) (ahead y).
Definition lose (i : nat) (y : sys) : sys :=
  mkSys (fl y) (batch y) (delivered y) (log y) ({[i]} ∪ gone y) (front y) (ahead y).
Definition set_ahead (b : bool) (y : sys) : sys :=
  mkSys (fl y) (batch y) (delivered y) (log y) (gone y) (front y) b.

#[export] Instance ple_dec p q : Decision (ple p q).
Proof. unfold ple. apply _. Defined.
#[export] Instance covered_dec es l : Decision (covered es l).
Proof.
  destruct (decide (Exists (fun e => covers e l) es)) as [Hd|Hd].
  - left. apply Exists_exists in Hd. exact Hd.
  - right. intros Hc. apply Hd. apply Exists_exists. exact Hc.
Defined.

Section System.
Variable cfg : config.
(** [cri.Parse], third-party: the line's stream and whether it is a fragment. *)
Variable criParse : list Z -> cri_line.

(** Which stream a line is fed under. *)
Definition line_key (f : file) (raw : list Z) : string :=
  if containerd f then feed_key f (criParse raw) else plainKey.

(** The live tail is gated while rotated segments are still owed a replay. *)
Definition gated (f : file) : bool := negb (bool_decide (segments f = [])) && negb (segmentsFed f).

(** The stages emit. *)
Inductive emits : sys -> sys -> Prop :=
| emit_cri (y : sys) (k : string) (line : list Z) rawStart f e :
    containerd (fl y) = true ->
    (* a fragment's start is not before what the stream has queued *)
    (let st := (state k (fl y)).2 in hasRun st = false ->
       ple rawStart (lastEnd st) /\ forall it, it ∈ live st -> ple (istart it) rawStart) ->
    criEmit k line rawStart (fl y) = (f, e) -> emits y (add e (put f y))
| emit_trace (y : sys) k n text truncated f e :
    traceEmit k n text truncated (fl y) = (f, e) -> emits y (add e (put f y)).

(** The first segment the replay still owes lines of. *)
Definition next_owed (f : file) : option segment := head (filter (fun sg => fed sg = false) (segments f)).

(** One step: bytes are read ([ingestChunk]); one turn of [consume], a line fed
    or not; skipped bytes committed; a stage emits; [flush] ends well or fails;
    [reopen] after [handleRotation], or before a read; and [replaySegment] with
    [feedSegments]: a line, skipped bytes, a segment's end, the pass's end, and
    a source [chargeStall] gives up on.  The tail is not read while segments are
    owed ([readFile]'s gate), but for one drain: a flush that fails in the read
    loop purges the segments, and the same pass still drains a tail that was
    renamed away ([step_ahead]), until [reopen], or the next failed flush. *)
Inductive step : sys -> sys -> Prop :=
| step_read y chunk : step y (put (ingest chunk (fl y)) y)
| step_ahead y :
    (* the pass that failed to flush has just rewound the file *)
    gated (fl y) = true -> batch y = [] -> (forall st, st ∈ streams (fl y) -> st = newStream (key st)) ->
    step y (set_ahead true y)
| step_consume y draining allow f v :
    gated (fl y) = false \/ ahead y = true /\ draining = true -> consume1 cfg draining allow (fl y) = (f, v) ->
    (forall raw s e, v <> Line raw s e) ->
    step y (reach_front (tail f) (lineStart f) (put f y))
| step_feed y draining allow f raw s e f' en :
    gated (fl y) = false \/ ahead y = true /\ draining = true -> consume1 cfg draining allow (fl y) = (f, Line raw s e) ->
    feedLine cfg (criParse raw) raw s e f = (f', en) ->
    step y (reach_front (tail f) e (fed_line (mkLine (line_key f raw) (tail f) s e) (add en (put f' y))))
| step_absorb y : step y (put (absorbSkipped (fl y)) y)
| step_emit y y' : emits y y' -> step y y'
| step_accept y : batch y <> [] ->
    step y (mkSys (flush true (batch y) (fl y)) [] (delivered y ++ batch y) (log y) (gone y) (front y) (ahead y))
| step_fail y : batch y <> [] ->
    step y (mkSys (flush false (batch y) (fl y)) [] (delivered y)
              (filter (covered (delivered y)) (log y)) (gone y) (front y) false)
| step_reopen y y1 (renamed drained : bool) :
    (* [stopPipeline] empties the stages, unless the pipeline is carried *)
    (if carry renamed drained (fl y) then y1 = y else star emits y y1 /\ watermark (fl y1) = None) ->
    step y (let y2 := set_ahead false (put (reopen renamed drained (fl y) (fl y1)) y1) in
            if renamed then y2 else lose (tail (fl y)) y2)
| step_replay_line y p raw s e f en :
    gated (fl y) = true -> ahead y = false -> next_owed (fl y) = Some p ->
    replay_from p <= s -> s < e -> (0 <= to p -> e <= to p) ->
    replay_line cfg (id p) (criParse raw) raw s e (fl y) = (f, en) ->
    step y (reach_front (id p) e (fed_line (mkLine (line_key (fl y) raw) (id p) s e) (add en (put f y))))
| step_replay_skip y p cur mid :
    gated (fl y) = true -> ahead y = false -> next_owed (fl y) = Some p -> replay_from p <= cur ->
    step y (reach_front (id p) cur (put (replay_skip (id p) cur mid (fl y)) y))
| step_replay_finish y p (short : bool) :
    gated (fl y) = true -> ahead y = false -> next_owed (fl y) = Some p -> (short = true -> 0 <= to p) ->
    step y (let y' := reach_front (id p) (if short then 0 else to p) (put (replay_finish (id p) short (fl y)) y) in
            (* a source that ends early has lost its missing tail *)
            if short then lose (id p) y' else y')
| step_replay_done y allDone :
    gated (fl y) = true -> ahead y = false -> (allDone = true -> next_owed (fl y) = None) ->
    step y (put (replay_done allDone (fl y)) y)
| step_give_up y p : gated (fl y) = true -> ahead y = false -> p ∈ segments (fl y) -> step y (lose (id p) (put (retire (id p) (fl y)) y)).

(** A file restored from a stored position. *)
Definition start (isCri ml : bool) (cid : string) (cp : checkpoint) (rotated : bool) : sys :=
  let f := initFile cp rotated (freshFile isCri ml cid) in
  mkSys f [] [] [] ∅
    (foldr (fun sg m => raise (id sg) (segCommitted sg) m) {[tail f := committed f]} (segments f)) false.

End System.

(** ** The ledger invariant *)

(** An undelivered line is still owed: its incarnation was truncated or given
    up on, or its frontier and its owed range still take the line in. *)
Definition owed (y : sys) (l : fline) : Prop :=
  ln_seg l ∈ gone y \/
  (ln_seg l = tail (fl y) /\ committed (fl y) <= ln_start l /\
   exists st, st ∈ streams (fl y) /\ key st = ln_key l /\ ple (lend l) (lastEnd st)) \/
  exists p, p ∈ segments (fl y) /\ id p = ln_seg l /\ segCommitted p <= ln_start l /\
    (0 <= to p -> ln_end l <= to p) /\ (to p < 0 -> ln_end l <= fedTo p).

Definition line_ok (y : sys) (l : fline) : Prop :=
  (0 <= ln_start l < ln_end l /\ (0 < ln_seg l <= tail (fl y))%nat) /\
  (covered (delivered y) l \/ ((covered (batch y) l \/ buf (streams (fl y)) l) /\ owed y l)).

(** The end of what the current pass has consumed of the live incarnation. *)
Definition lim (f : file) : pos := mkPos (tail f) (lineStart f).

(** Nothing named lies past what was consumed. *)
Definition pos_front (fr : gmap nat Z) (p : pos) : Prop := off p <= get fr (seg p).

Definition stream_front (fr : gmap nat Z) (st : streamState) : Prop :=
  pos_front fr (lastEnd st) /\ forall it, it ∈ live st -> pos_front fr (iend it).

Definition seg_front (fr : gmap nat Z) (p : segment) : Prop :=
  0 <= segCommitted p <= get fr (id p) /\ fedTo p <= get fr (id p) /\
  (fed p = true -> to p <= get fr (id p)).

Record file_front (fr : gmap nat Z) (f : file) : Prop := {
  ff_pos : forall i, 0 <= get fr i;
  ff_tail : 0 <= committed f <= lineStart f /\ lineStart f <= get fr (tail f) /\ skipEnd f <= lineStart f;
  ff_segs : forall p, p ∈ segments f -> seg_front fr p;
  ff_streams : forall st, st ∈ streams f -> stream_front fr st;
  ff_highs : forall i o, exportedHighs f !! i = Some o -> o <= get fr i /\ ple (mkPos i o) (lim f) }.

Record shape (f : file) : Prop := {
  sh_keys : NoDup (key <$> streams f);
  sh_streams : forall st, st ∈ streams f -> stream_ok (lim f) st;
  sh_plain : containerd f = false -> forall st, st ∈ streams f -> hasRun st = false;
  sh_ids : StronglySorted lt (id <$> segments f);
  sh_below : forall p, p ∈ segments f -> (0 < id p < tail f)%nat;
  sh_tail : tail f = segSeq f /\ (0 < tail f)%nat /\ feeding f = 0%nat;
  sh_fed : segmentsFed f = true -> forall p, p ∈ segments f -> fed p = true }.

Record inv (y : sys) : Prop := {
  v_shape : shape (fl y);
  v_lines : forall l, l ∈ log y -> line_ok y l;
  v_front : file_front (front y) (fl y);
  v_batch : forall e, e ∈ batch y -> pos_front (front y) (e_end e) /\ ple (e_end e) (lim (fl y));
  (* while segments are replayed, nothing is fed past what they still owe *)
  v_gated : gated (fl y) = true -> ahead y = false -> forall st p, st ∈ streams (fl y) -> p ∈ segments (fl y) ->
    fed p = false -> ple (lastEnd st) (mkPos (id p) (fedTo p)) }.

(** *** Stream updates *)

Lemma key_unique ss s t : NoDup (key <$> ss) -> s ∈ ss -> t ∈ ss -> key s = key t -> s = t.
Proof.
  induction ss as [|a l IH]; [by intros _ ?%not_elem_of_nil|]. cbn. intros [Hna Hnd]%NoDup_cons.
  intros [->|H1]%elem_of_cons [->|H2]%elem_of_cons Hk; [done| | |by apply IH].
  - destruct Hna. apply list_elem_of_fmap. by exists t.
  - destruct Hna. apply list_elem_of_fmap. by exists s.
Qed.

Lemma covered_app es es' l : covered (es ++ es') l <-> covered es l \/ covered es' l.
Proof.
  unfold covered. split.
  - intros (e & [Hin|Hin]%elem_of_app & Hc); [left|right]; eauto.
  - intros [(e & Hin & Hc)|(e & Hin & Hc)]; exists e; rewrite elem_of_app; tauto.
Qed.

(** What an update of one stream has to respect. *)
Record good_update (y : sys) (k : string) (g : streamState -> streamState) (en : option entry)
    (new : option fline) : Prop := {
  gu_key : forall st, key (g st) = key st;
  gu_st : forall st, key st = k -> stream_ok (lim (fl y)) st ->
    stream_front (front y) st ->
    (st ∈ streams (fl y) \/ (st = newStream k /\ forall s, s ∈ streams (fl y) -> key s <> k)) ->
    stream_ok (lim (fl y)) (g st) /\ stream_front (front y) (g st) /\
    (containerd (fl y) = false -> hasRun (g st) = false) /\
    (forall l, holds st l -> holds (g st) l \/ covered (option_list en) l) /\
    ple (lastEnd st) (lastEnd (g st)) /\
    (gated (fl y) = true -> ahead y = false -> forall p, p ∈ segments (fl y) -> fed p = false ->
       ple (lastEnd (g st)) (mkPos (id p) (fedTo p))) /\
    (forall l, new = Some l ->
       (0 <= ln_start l < ln_end l /\ (0 < ln_seg l <= tail (fl y))%nat) /\
       (covered (option_list en) l \/ holds (g st) l) /\
       ((ln_seg l = tail (fl y) /\ committed (fl y) <= ln_start l /\ ln_key l = k /\ ple (lend l) (lastEnd (g st))) \/
        exists p, p ∈ segments (fl y) /\ id p = ln_seg l /\ segCommitted p <= ln_start l /\
          (0 <= to p -> ln_end l <= to p) /\ (to p < 0 -> ln_end l <= fedTo p)));
  gu_entry : forall e, en = Some e -> pos_front (front y) (e_end e) /\ ple (e_end e) (lim (fl y)) }.

Definition updated (y : sys) (k : string) (g : streamState -> streamState) (en : option entry)
    (new : option fline) : sys :=
  mkSys (with_stream k g (fl y)) (batch y ++ option_list en) (delivered y) (log y ++ option_list new)
    (gone y) (front y) (ahead y).

Lemma inv_update y k g en new : inv y -> good_update y k g en new -> inv (updated y k g en new).
Proof.
  intros [Hsh Hl Hf Hb Hgt] [Hg Hgst Hen].
  destruct (with_stream_spec k g (fl y) Hg (sh_keys _ Hsh)) as (st & Hk & Hst & Hgin & Hel & Hnd & Heq).
  set (f' := with_stream k g (fl y)) in *.
  assert (stream_ok (lim (fl y)) st /\ stream_front (front y) st) as [Hok Hfr].
  { destruct Hst as [Hin|[-> _]].
    - split; [by apply Hsh|by apply Hf].
    - split; [apply stream_ok_new; apply Hsh|]. split; [apply Hf|]. intros it Hit. by apply not_elem_of_nil in Hit. }
  destruct (Hgst st Hk Hok Hfr Hst) as (G1 & G2 & G3 & G4 & G5 & G6 & G7).
  assert (tail f' = tail (fl y) /\ lineStart f' = lineStart (fl y) /\ segments f' = segments (fl y) /\
    committed f' = committed (fl y) /\ containerd f' = containerd (fl y) /\ segSeq f' = segSeq (fl y) /\
    feeding f' = feeding (fl y) /\ segmentsFed f' = segmentsFed (fl y) /\ skipEnd f' = skipEnd (fl y) /\
    exportedHighs f' = exportedHighs (fl y)) as (E1&E2&E3&E4&E5&E6&E7&E8&E9&E10) by (rewrite Heq; done).
  assert (gated f' = gated (fl y)) as E11 by (unfold gated; by rewrite E3, E8).
  assert (lim f' = lim (fl y)) as E12 by (unfold lim; by rewrite E1, E2).
  assert (forall l, buf (streams (fl y)) l -> buf (streams f') l \/ covered (option_list en) l) as Hbuf.
  { intros l (s & Hs & Hh). destruct (decide (key s = k)) as [Hks|Hks].
    - assert (s = st) as ->.
      { destruct Hst as [Hin|[_ Hne]]; [|by destruct (Hne s Hs)].
        apply (key_unique (streams (fl y))); try done; [apply Hsh|congruence]. }
      destruct (G4 l Hh) as [Hh'|?]; [left; by exists (g st)|by right].
    - left. exists s. split; [|done]. apply Hel. by right. }
  assert (forall s, s ∈ streams (fl y) -> exists s', s' ∈ streams f' /\ key s' = key s /\ ple (lastEnd s) (lastEnd s')) as Hlast.
  { intros s Hs. destruct (decide (key s = k)) as [Hks|Hks].
    - exists (g st). split; [done|]. split; [by rewrite Hg, Hk|]. destruct Hst as [Hin|[_ Hne]]; [|by destruct (Hne s Hs)].
      assert (s = st) as ->; [|done].
      apply (key_unique (streams (fl y))); try done; [apply Hsh|congruence].
    - exists s. split; [apply Hel; by right|]. split; [done|apply ple_refl]. }
  assert (forall l, owed y l -> owed (updated y k g en new) l) as Howed.
  { intros l [?|[(Hs & Hc & s & Hin & Hks & Hle)|(p & Hp & Hi & Hr)]]; [by left|right; left|right; right].
    - cbn. fold f'. rewrite E1, E4. split; [done|]. split; [done|]. destruct (Hlast s Hin) as (s' & ? & ? & ?).
      exists s'. split; [done|]. split; [congruence|]. by eapply ple_trans.
    - exists p. cbn. fold f'. by rewrite E3. }
  split; cbn; fold f'.
  - split; rewrite ?E12, ?E1, ?E2, ?E3, ?E5, ?E6, ?E7, ?E8; try apply Hsh; try done.
    + intros s [->|[Hs _]]%Hel; [done|by apply Hsh].
    + intros Hc s [->|[Hs _]]%Hel; [by apply G3|by apply (sh_plain _ Hsh)].
  - intros l [Hin|Hin]%elem_of_app.
    + destruct (Hl l Hin) as [Hb1 [?|[Hor Ho]]]; (split; [by cbn; fold f'; rewrite E1|]); [by left|right].
      split; [|by apply Howed]. cbn. rewrite covered_app. fold f'. destruct Hor as [?|Hbf]; [tauto|].
      destruct (Hbuf l Hbf); tauto.
    + destruct new as [l'|]; [|by apply not_elem_of_nil in Hin]. apply list_elem_of_singleton in Hin as ->.
      destruct (G7 l' eq_refl) as (N1 & N2 & N3). split; [by cbn; fold f'; rewrite E1|]. right. split.
      * cbn. rewrite covered_app. fold f'. destruct N2 as [?|?]; [tauto|]. right. by exists (g st).
      * destruct N3 as [(Hs & Hc & Hlk & Hle)|(p & Hp & Hr)].
        -- right. left. cbn. fold f'. rewrite E1, E4. split; [done|]. split; [done|]. exists (g st).
           split; [done|]. split; [by rewrite Hg, Hk|done].
        -- right. right. exists p. cbn. fold f'. by rewrite E3.
  - destruct Hf. split; rewrite ?E12, ?E1, ?E2, ?E3, ?E4, ?E9, ?E10; try done.
    intros s [->|[Hs _]]%Hel; [done|by apply ff_streams0].
  - rewrite E12. intros e [Hin|Hin]%elem_of_app; [by apply Hb|]. destruct en as [e'|]; [|by apply not_elem_of_nil in Hin].
    apply list_elem_of_singleton in Hin as ->. by apply Hen.
  - rewrite E11, E3. intros Hga Ha s p [->|[Hs _]]%Hel Hp Hfd; [by apply G6|by apply Hgt].
Qed.

Lemma state_unique k f st : NoDup (key <$> streams f) -> key st = k ->
  (st ∈ streams f \/ (st = newStream k /\ forall s, s ∈ streams f -> key s <> k)) -> (state k f).2 = st.
Proof.
  intros Hnd Hk Hor. unfold state. destruct (find_stream k (streams f)) as [s|] eqn:E; cbn.
  - apply find_stream_Some in E as [Hin Hks]. destruct Hor as [Hst|[_ Hne]]; [|by destruct (Hne s Hin)].
    apply (key_unique (streams f)); try done. congruence.
  - destruct Hor as [Hst|[-> _]]; [|done]. by destruct (find_stream_None _ _ E st Hst).
Qed.

(** *** The stages emit *)

Definition cri_g (ml : bool) (rawStart : pos) (st : streamState) : streamState :=
  let st' := st_hasRun false st in
  if ml then push (mkItem (if hasRun st then runStart st else rawStart) (lastEnd st)) st' else st'.

Lemma criEmit_eq k line rawStart f f' e : criEmit k line rawStart f = (f', e) ->
  f' = with_stream k (cri_g (multiline f) rawStart) f /\
  e = (if multiline f then None else
    let st := (state k f).2 in
    Some (mkEntry (stream st) line false (if hasRun st then runStart st else rawStart) (lastEnd st))).
Proof.
  unfold criEmit, with_stream, cri_g. pose proof (state_spec k f) as Hs. destruct (state k f) as [f0 st]. cbn.
  destruct Hs as (_ & _ & -> & _). cbn. destruct (multiline f); intros [= <- <-]; done.
Qed.

Lemma sorted_snoc (l : list logItem) it : StronglySorted item_le l ->
  (forall i, i ∈ l -> item_le i it) -> StronglySorted item_le (l ++ [it]).
Proof.
  intros Hs Hall. apply StronglySorted_app. split; [|split; [done|by repeat constructor]].
  intros a b Ha ->%list_elem_of_singleton. by apply Hall.
Qed.

Lemma sorted_head (it x : logItem) l : StronglySorted item_le (it :: l) -> x ∈ it :: l -> ple (istart it) (istart x).
Proof.
  intros Hs [->|Hin]%elem_of_cons; [apply ple_refl|]. inversion Hs as [|? ? _ Hall]; subst.
  rewrite Forall_forall in Hall. by apply Hall.
Qed.

Lemma sorted_last (it x : logItem) l : StronglySorted item_le l -> last l = Some it -> x ∈ l -> ple (iend x) (iend it).
Proof.
  induction 1 as [|a l Hs IH Hall]; [done|]. intros Hl Hin. destruct l as [|b l].
  - cbn in Hl. simplify_eq. apply list_elem_of_singleton in Hin as ->. apply ple_refl.
  - change (last (b :: l) = Some it) in Hl. apply elem_of_cons in Hin as [->|Hin]; [|by apply IH].
    rewrite Forall_forall in Hall. apply Hall. by apply last_Some_elem_of.
Qed.

Lemma inv_cri y k line rawStart f e : inv y -> containerd (fl y) = true ->
  (let st := (state k (fl y)).2 in hasRun st = false ->
     ple rawStart (lastEnd st) /\ forall it, it ∈ live st -> ple (istart it) rawStart) ->
  criEmit k line rawStart (fl y) = (f, e) -> inv (add e (put f y)).
Proof.
  intros Hinv Hcri Hraw He. apply criEmit_eq in He as [-> Hen].
  assert (good_update y k (cri_g (multiline (fl y)) rawStart) e None) as Hgood.
  { split.
    - intros st. unfold cri_g. by destruct (multiline (fl y)).
    - intros st Hk Hok Hfr Hst. rewrite (state_unique k (fl y) st (sh_keys _ (v_shape _ Hinv)) Hk Hst) in Hraw, Hen.
      cbv zeta in Hraw. set (start := if hasRun st then runStart st else rawStart) in *.
      assert (ple start (lastEnd st) /\ forall it, it ∈ live st -> ple (istart it) start) as [Hs1 Hs2].
      { unfold start. destruct (hasRun st) eqn:Hr; [by apply (so_run _ _ Hok)|by apply Hraw]. }
      unfold cri_g. change (if hasRun st then runStart st else rawStart) with start. destruct (multiline (fl y)).
      + assert (live (push (mkItem start (lastEnd st)) (st_hasRun false st)) = live st ++ [mkItem start (lastEnd st)]) as El.
        { rewrite live_push; [done|apply Hok]. }
        split; [|split; [|split; [done|split; [|split; [apply ple_refl|split; [|done]]]]]].
        * destruct Hok. split; try done.
          -- cbn. rewrite length_app. cbn. lia.
          -- rewrite El. intros it [?| ->%list_elem_of_singleton]%elem_of_app; [by apply so_items0|split; [done|apply ple_refl]].
          -- rewrite El. apply sorted_snoc; [done|]. intros i Hi. split; [by apply Hs2|by apply so_items0].
        * destruct Hfr as [Hf1 Hf2]. split; [done|]. rewrite El.
          intros it [?| ->%list_elem_of_singleton]%elem_of_app; [by apply Hf2|done].
        * intros l [Hlk Hh]. left. split; [done|]. right. rewrite El. destruct Hh as [(Hr & H1 & H2)|(it & Hit & ?)].
          -- eexists. split; [apply elem_of_app; right; by apply list_elem_of_singleton|]. cbn. split; [|done].
             unfold start. by rewrite Hr.
          -- exists it. split; [by apply elem_of_app; left|done].
        * intros Hga Ha p Hp Hfd. cbn. destruct Hst as [Hin|[-> _]]; [by apply (v_gated _ Hinv)|].
          left. cbn. by apply (sh_below _ (v_shape _ Hinv)).
      + split; [|split; [|split; [done|split; [|split; [apply ple_refl|split; [|done]]]]]].
        * destruct Hok. split; try done.
        * done.
        * intros l [Hlk Hh]. destruct Hh as [(Hr & H1 & H2)|Hit]; [right|left; split; [done|by right]].
          rewrite Hen. eexists. split; [by apply list_elem_of_singleton|]. unfold start in *. rewrite Hr in *.
          split; [|done]. cbn. rewrite <- Hlk. apply Hok.
        * intros Hga Ha p Hp Hfd. cbn. destruct Hst as [Hin|[-> _]]; [by apply (v_gated _ Hinv)|].
          left. cbn. by apply (sh_below _ (v_shape _ Hinv)).
    - intros e0 ->. destruct (multiline (fl y)); [done|]. injection Hen as ->. cbn.
      pose proof (state_spec k (fl y)) as Hs. destruct (state k (fl y)) as [f0 st]. cbn.
      destruct Hs as (_ & Hin & Hf0 & [->|(-> & _)]).
      + split; [by apply (ff_streams _ _ (v_front _ Hinv))|by apply (sh_streams _ (v_shape _ Hinv))].
      + split; [unfold pos_front; cbn; apply (v_front _ Hinv)|left; apply (v_shape _ Hinv)]. }
  pose proof (inv_update y k _ e None Hinv Hgood) as Hi. unfold updated in Hi.
  cbn in Hi. by rewrite app_nil_r in Hi.
Qed.

Lemma put_same st f : NoDup (key <$> streams f) -> st ∈ streams f -> put_stream st f = f.
Proof.
  intros Hnd Hin. assert ((fun s => if decide (key s = key st) then st else s) <$> streams f = streams f) as E.
  { rewrite <- (list_fmap_id (streams f)) at 2. apply list_fmap_ext. intros i s Hs. case_decide as Hk; [|done].
    apply (key_unique (streams f)); try done. by eapply list_elem_of_lookup_2. }
  unfold put_stream. rewrite E. by destruct f.
Qed.

Lemma state_nodup k f : NoDup (key <$> streams f) -> NoDup (key <$> streams (state k f).1).
Proof.
  intros Hnd. unfold state. destruct (find_stream k (streams f)) eqn:E; cbn; [done|].
  rewrite fmap_app. apply NoDup_app. split; [done|]. split; [|apply NoDup_singleton].
  intros x Hx ->%list_elem_of_singleton. apply list_elem_of_fmap in Hx as (s & Hks & Hs).
  by apply (find_stream_None _ _ E s).
Qed.

Lemma traceEmit_cases k n text truncated f f' e : NoDup (key <$> streams f) ->
  traceEmit k n text truncated f = (f', e) ->
  (f' = with_stream k (fun st => st) f /\ e = None) \/
  exists m it l, let st := (state k f).2 in
    f' = with_stream k (pop m) f /\ head (live st) = Some it /\ last (take m (live st)) = Some l /\
    e = Some (mkEntry (stream st) text truncated (istart it) (iend l)).
Proof.
  intros Hnd. unfold traceEmit, with_stream. pose proof (state_spec k f) as Hs. pose proof (state_nodup k f Hnd) as Hnd0.
  destruct (state k f) as [f0 st]. destruct Hs as (Hk & Hin & Hf0 & _). cbn [fst snd] in *.
  destruct (live st) as [|it l0] eqn:El.
  - intros [= <- <-]. left. split; [|done]. by rewrite put_same.
  - destruct (last (take _ (it :: l0))) as [l|] eqn:Hlast; intros [= <- <-].
    + right. exists (Nat.min n (length (it :: l0))), it, l. cbn. repeat split; done.
    + left. split; [|done]. by rewrite put_same.
Qed.

Lemma good_update_id y k : inv y -> good_update y k (fun st => st) None None.
Proof.
  intros Hinv. split; [done| |done]. intros st Hk Hok Hfr Hst.
  split; [done|]. split; [done|]. split.
  - destruct Hst as [Hin|[-> _]]; [|done]. intros Hc. by apply (sh_plain _ (v_shape _ Hinv)).
  - split; [by left|]. split; [apply ple_refl|]. split; [|done].
    intros Hga Ha p Hp Hfd. destruct Hst as [Hin|[-> _]]; [by apply (v_gated _ Hinv)|].
    left. cbn. by apply (sh_below _ (v_shape _ Hinv)).
Qed.

Lemma add_None y : add None y = y.
Proof. destruct y. unfold add. cbn. by rewrite app_nil_r. Qed.

Lemma updated_eq y k g en : updated y k g en None = add en (put (with_stream k g (fl y)) y).
Proof. unfold updated. cbn. by rewrite app_nil_r. Qed.

Lemma inv_trace y k n text truncated f e : inv y ->
  traceEmit k n text truncated (fl y) = (f, e) -> inv (add e (put f y)).
Proof.
  intros Hinv He. apply traceEmit_cases in He as [[-> ->]|(m & it & l & -> & Hh & Hl & ->)];
    [rewrite <- updated_eq; apply inv_update; [done|by apply good_update_id]| |apply Hinv].
  rewrite <- updated_eq. apply inv_update; [done|]. split.
  - intros st. unfold pop. by case_decide.
  - intros st Hk Hok Hfr Hst. rewrite (state_unique k (fl y) st (sh_keys _ (v_shape _ Hinv)) Hk Hst) in *.
    assert (lastEnd (pop m st) = lastEnd st /\ hasRun (pop m st) = hasRun st /\ runStart (pop m st) = runStart st /\
      stream (pop m st) = stream st /\ key (pop m st) = key st) as (E1 & E2 & E3 & E4 & E5) by (unfold pop; by case_decide).
    assert (forall x, x ∈ drop m (live st) -> x ∈ live st) as Hsub.
    { intros x Hx. rewrite <- (take_drop m (live st)). apply elem_of_app. by right. }
    split; [|split; [|split; [|split; [|split; [rewrite E1; apply ple_refl|split; [|done]]]]]].
    + destruct Hok. split; rewrite ?E1, ?E2, ?E3, ?E4, ?E5, ?live_pop; try done.
      * unfold pop. case_decide; cbn; lia.
      * intros x Hx. by apply so_items0, Hsub.
      * rewrite <- (take_drop m (live st)) in so_sorted0. by apply StronglySorted_app_1_r in so_sorted0.
      * intros Hr. destruct (so_run0 Hr) as [? Hall]. split; [done|]. intros x Hx. by apply Hall, Hsub.
    + destruct Hfr as [Hf1 Hf2]. split; rewrite ?E1, ?live_pop; [done|]. intros x Hx. by apply Hf2, Hsub.
    + rewrite E2. destruct Hst as [Hin|[-> _]]; [|done]. intros Hc. by apply (sh_plain _ (v_shape _ Hinv)).
    + intros ln [Hlk Hhd]. destruct Hhd as [Hrun|(x & Hx & H1 & H2)].
      * left. split; [by rewrite E5|]. left. by rewrite E1, E2, E3.
      * rewrite <- (take_drop m (live st)) in Hx. apply elem_of_app in Hx as [Hx|Hx].
        -- right. eexists. split; [by apply list_elem_of_singleton|]. split; cbn.
           ++ rewrite <- Hlk. apply Hok.
           ++ split.
              ** eapply ple_trans; [|exact H1]. destruct (live st) as [|i0 l0] eqn:El; [done|].
                 cbn in Hh. injection Hh as ->. apply (sorted_head it x l0); [rewrite <- El; apply Hok|].
                 rewrite <- (take_drop m (it :: l0)). apply elem_of_app. by left.
              ** eapply ple_trans; [exact H2|]. apply (sorted_last l x (take m (live st))); [|done|done].
                 pose proof (so_sorted _ _ Hok) as Hs. rewrite <- (take_drop m (live st)) in Hs.
                 by apply StronglySorted_app_1_l in Hs.
        -- left. split; [by rewrite E5|]. right. exists x. by rewrite live_pop.
    + intros Hga Ha p Hp Hfd. rewrite E1. destruct Hst as [Hin|[-> _]]; [by apply (v_gated _ Hinv)|].
      left. cbn. by apply (sh_below _ (v_shape _ Hinv)).
  - intros e [= <-]. cbn. pose proof (state_spec k (fl y)) as Hs. destruct (state k (fl y)) as [f0 st]. cbn in *.
    assert (l ∈ live st) as Hin.
    { rewrite <- (take_drop m (live st)). apply elem_of_app. left. by apply last_Some_elem_of. }
    destruct Hs as (_ & Hst & Hf0 & [->|(-> & _)]); [|by apply not_elem_of_nil in Hin].
    split; [by apply (ff_streams _ _ (v_front _ Hinv) st Hst)|].
    destruct (sh_streams _ (v_shape _ Hinv) st Hst) as [_ _ Hit _ _ Hle]. destruct (Hit l Hin) as [_ ?].
    by eapply ple_trans.
Qed.

Lemma inv_emits y y' : inv y -> emits y y' -> inv y'.
Proof. intros Hinv He. destruct He; [by eapply inv_cri|by eapply inv_trace]. Qed.

(** *** Reading and splitting *)

Lemma get_raise i o m j : get m j <= get (raise i o m) j.
Proof.
  unfold raise. case_decide; [|lia]. unfold get in *. destruct (decide (i = j)) as [->|];
    [rewrite lookup_insert_eq; cbn; lia|by rewrite lookup_insert_ne].
Qed.

Lemma get_raise_eq i o m : o <= get (raise i o m) i.
Proof. unfold raise. case_decide; [unfold get; rewrite lookup_insert_eq; cbn; lia|lia]. Qed.

Lemma get_raise_ne i o m j : i <> j -> get (raise i o m) j = get m j.
Proof. intros. unfold raise, get. case_decide; [by rewrite lookup_insert_ne|done]. Qed.

(** The fields line splitting leaves alone. *)
Definition core (f : file) :=
  (containerd f, multiline f, containerID f, committed f, streams f, segSeq f, tail f, segments f,
   segmentsFed f, feeding f, exportedHighs f).

Lemma consume1_core cfg d a f f' v : consume1 cfg d a f = (f', v) ->
  core f' = core f /\ lineStart f <= lineStart f' /\ (skipEnd f <= lineStart f -> skipEnd f' <= lineStart f') /\
  (forall raw s e, v = Line raw s e -> s = lineStart f /\ e = lineStart f' /\ s < e).
Proof.
  unfold consume1. destruct (index_byte 10 (pending f)) as [i|].
  - destruct (discarding f); [|case_decide as Hi; [|destruct (negb d && negb a); [destruct (RateDrop cfg)|]]];
      intros [= <- <-]; cbn; (split; [done|split; [lia|split; [lia|]]]); try done.
    intros raw s e [= _ <- <-]. lia.
  - destruct (overCap _ _); intros [= <- <-]; [|by split; [done|split; [lia|done]]].
    destruct (discarding f); cbn; (split; [done|split; [lia|split; [lia|done]]]).
Qed.

Lemma core_fields f f' : core f' = core f ->
  containerd f' = containerd f /\ committed f' = committed f /\ streams f' = streams f /\ segSeq f' = segSeq f /\
  tail f' = tail f /\ segments f' = segments f /\ segmentsFed f' = segmentsFed f /\ feeding f' = feeding f /\
  exportedHighs f' = exportedHighs f.
Proof. unfold core. intros E. by simplify_eq. Qed.

Lemma inv_core y f' fr : inv y -> core f' = core (fl y) -> lineStart (fl y) <= lineStart f' ->
  skipEnd f' <= lineStart f' -> (forall i, get (front y) i <= get fr i) -> lineStart f' <= get fr (tail (fl y)) ->
  inv (mkSys f' (batch y) (delivered y) (log y) (gone y) fr (ahead y)).
Proof.
  intros [Hsh Hl Hf Hb Hgt] Hc Hls Hsk Hfr Hlf. apply core_fields in Hc as (E1&E2&E3&E4&E5&E6&E7&E8&E9).
  assert (gated f' = gated (fl y)) as E10 by (unfold gated; by rewrite E6, E7).
  assert (forall p, pos_front (front y) p -> pos_front fr p) as Hpf.
  { unfold pos_front. intros p. specialize (Hfr (seg p)). lia. }
  assert (ple (lim (fl y)) (lim f')) as Hlim by (right; cbn; split; [done|lia]).
  split; cbn.
  - split; rewrite ?E1, ?E3, ?E4, ?E5, ?E6, ?E7, ?E8; try apply Hsh.
    intros st Hst. eapply stream_ok_lim; [exact Hlim|by apply Hsh].
  - intros l Hin. destruct (Hl l Hin) as [Hb1 Hor]. split; [by cbn; rewrite E5|]. cbn. rewrite E3.
    destruct Hor as [?|[? Ho]]; [by left|right]. split; [done|].
    destruct Ho as [?|[(? & ? & ?)|(p & ? & ?)]]; [by left|right; left|right; right; exists p]; cbn;
      rewrite ?E2, ?E3, ?E5, ?E6; done.
  - destruct Hf as [F1 F2 F3 F4 F5]. split; rewrite ?E2, ?E5.
    + intros i. specialize (F1 i). specialize (Hfr i). lia.
    + specialize (Hfr (tail (fl y))). lia.
    + rewrite E6. intros p Hp. destruct (F3 p Hp) as (? & ? & Hfd). pose proof (Hfr (id p)).
      split; [lia|]. split; [lia|]. intros Hx. specialize (Hfd Hx). lia.
    + rewrite E3. intros st Hst. destruct (F4 st Hst) as [? Hit]. split; [by apply Hpf|]. intros it Hin.
      by apply Hpf, Hit.
    + rewrite E9. intros i o Hio. destruct (F5 i o Hio). pose proof (Hfr i). split; [lia|by eapply ple_trans].
  - intros e He. destruct (Hb e He). split; [by apply Hpf|by eapply ple_trans].
  - rewrite E10, E3, E6. exact Hgt.
Qed.

(** *** Feeding a line *)

Definition cri_feed_g (cfg : config) (sg : nat) (start end_ : Z) (st : streamState) : streamState :=
  let st := st_lastEnd (mkPos sg end_) st in
  let st := if hasRun st then st else st_runBytes 0 (st_runStart (mkPos sg start) (st_hasRun true st)) in
  st_runBytes (runBytes st + (end_ - start)) st.

Definition plain_feed_g (ml : bool) (sg : nat) (start end_ : Z) (st : streamState) : streamState :=
  let st := st_lastEnd (mkPos sg end_) st in
  if ml then push (mkItem (mkPos sg start) (mkPos sg end_)) st else st.

Definition feed_g (cfg : config) (cri ml : bool) (sg : nat) (start end_ : Z) : streamState -> streamState :=
  if cri then cri_feed_g cfg sg start end_ else plain_feed_g ml sg start end_.

Definition feed_stream (f : file) (l : cri_line) : string := if containerd f then feed_key f l else plainKey.

Lemma feedLine_eq cfg l raw start end_ f f' e : feedLine cfg l raw start end_ f = (f', e) ->
  f' = with_stream (feed_stream f l) (feed_g cfg (containerd f) (multiline f) (curSeg f) start end_) f /\
  e = (if containerd f || multiline f then None
       else Some (mkEntry "" raw false (mkPos (curSeg f) start) (mkPos (curSeg f) end_))).
Proof.
  unfold feedLine, feedLine_cri, feedPlainLine, with_stream, feed_stream, feed_g.
  destruct (containerd f) eqn:Hc.
  - pose proof (state_spec (feed_key f l) f) as Hs. destruct (state (feed_key f l) f) as [f0 st].
    destruct Hs as (_ & _ & -> & _). cbn. intros [= <- <-]. done.
  - pose proof (state_spec plainKey f) as Hs. destruct (state plainKey f) as [f0 st].
    destruct Hs as (_ & _ & -> & _). cbn. destruct (multiline f); intros [= <- <-]; done.
Qed.

(** A line fed after everything its stream has seen: the update is good. *)
Lemma good_feed cfg y l raw s e sg en : inv y ->
  (forall st, st ∈ streams (fl y) -> ple (lastEnd st) (mkPos sg s)) -> (0 < sg)%nat -> 0 <= s < e ->
  ple (mkPos sg e) (lim (fl y)) -> (sg <= tail (fl y))%nat -> e <= get (front y) sg ->
  en = (if containerd (fl y) || multiline (fl y) then None
        else Some (mkEntry "" raw false (mkPos sg s) (mkPos sg e))) ->
  (gated (fl y) = true -> ahead y = false -> forall p, p ∈ segments (fl y) -> fed p = false -> ple (mkPos sg e) (mkPos (id p) (fedTo p))) ->
  ((sg = tail (fl y) /\ committed (fl y) <= s) \/
   exists p, p ∈ segments (fl y) /\ id p = sg /\ segCommitted p <= s /\ (0 <= to p -> e <= to p) /\ (to p < 0 -> e <= fedTo p)) ->
  good_update y (feed_stream (fl y) l) (feed_g cfg (containerd (fl y)) (multiline (fl y)) sg s e) en
    (Some (mkLine (feed_stream (fl y) l) sg s e)).
Proof.
  intros Hinv Hbefore Hsg0 Hse Hlim Hsgt Hfront Hen Hga Howe. split.
  - intros st. unfold feed_g, cri_feed_g, plain_feed_g. destruct (containerd (fl y)), (multiline (fl y)), st; cbn; try done;
      by destruct hasRun.
  - intros st Hk Hok Hfr Hst.
    assert (ple (lastEnd st) (mkPos sg s)) as Hb.
    { destruct Hst as [Hin|[-> _]]; [by apply Hbefore|]. left. done. }
    assert (ple (lastEnd st) (mkPos sg e)) as Hb'.
    { eapply ple_trans; [exact Hb|]. right. cbn. split; [done|lia]. }
    assert (hasRun st = true -> containerd (fl y) = true) as Hrun.
    { intros Hr. destruct (containerd (fl y)) eqn:Hc; [done|]. destruct Hst as [Hin|[-> _]]; [|done].
      by rewrite (sh_plain _ (v_shape _ Hinv) Hc st Hin) in Hr. }
    assert (forall ln, Some (mkLine (feed_stream (fl y) l) sg s e) = Some ln ->
      (0 <= ln_start ln < ln_end ln /\ (0 < ln_seg ln <= tail (fl y))%nat) /\ lstart ln = mkPos sg s /\
      lend ln = mkPos sg e /\ ln_key ln = feed_stream (fl y) l /\ ln_seg ln = sg /\ ln_start ln = s /\ ln_end ln = e) as Hln.
    { intros ln [= <-]. done. }
    unfold feed_g. destruct (containerd (fl y)) eqn:Hc; cbn [orb] in Hen; subst en.
    + set (g := cri_feed_g cfg sg s e st).
      assert (lastEnd g = mkPos sg e /\ hasRun g = true /\ live g = live st /\ key g = key st /\ stream g = stream st /\
        fifo g = fifo st /\ fifoHead g = fifoHead st /\ (hasRun st = true -> runStart g = runStart st) /\
        (hasRun st = false -> runStart g = mkPos sg s)) as (G1&G2&G3&G4&G5&G6&G7&G8&G9).
      { unfold g, cri_feed_g, live. destruct st as [? ? ? ? [] ? ? ?]; cbn; done. }
      clearbody g. split; [|split; [|split; [done|split; [|split; [by rewrite G1|split]]]]].
      * destruct Hok. split; rewrite ?G1, ?G3, ?G4, ?G5, ?G6, ?G7; try done.
        -- intros it Hit. destruct (so_items0 it Hit). split; [done|by eapply ple_trans].
        -- intros _. destruct (hasRun st) eqn:Hr.
           ++ rewrite (G8 eq_refl). destruct (so_run0 eq_refl) as [? ?]. split; [by eapply ple_trans|done].
           ++ rewrite (G9 eq_refl). split; [right; cbn; split; [done|lia]|]. intros it Hit.
              eapply ple_trans; [|exact Hb]. destruct (so_items0 it Hit). by eapply ple_trans.
      * split; rewrite ?G1, ?G3; [done|apply Hfr].
      * intros ln [Hlk Hh]. left. split; [congruence|]. destruct Hh as [(Hr & H1 & H2)|(it & Hit & H1 & H2)].
        -- left. split; [done|]. rewrite (G8 Hr), G1. split; [done|by eapply ple_trans].
        -- right. exists it. by rewrite G3.
      * rewrite G1. done.
      * intros ln Hl. destruct (Hln ln Hl) as (L1 & L2 & L3 & L4 & L5 & L6 & L7). split; [done|]. split.
        -- right. split; [congruence|]. left. split; [done|]. rewrite G1, L2, L3. split; [|apply ple_refl].
           destruct (hasRun st) eqn:Hr; [rewrite (G8 eq_refl)|rewrite (G9 eq_refl); apply ple_refl].
           eapply ple_trans; [by apply (so_run _ _ Hok)|done].
        -- rewrite L3, L4, L5, L6, L7, G1. destruct Howe as [[-> ?]|?]; [left|right; done].
           split; [done|]. split; [done|]. split; [done|apply ple_refl].
    + destruct (multiline (fl y)); cbn [negb option_list].
      * set (g := plain_feed_g true sg s e st).
        assert (lastEnd g = mkPos sg e /\ hasRun g = hasRun st /\ live g = live st ++ [mkItem (mkPos sg s) (mkPos sg e)] /\
          key g = key st /\ stream g = stream st /\ length (fifo g) = S (length (fifo st)) /\ fifoHead g = fifoHead st /\
          runStart g = runStart st) as (G1&G2&G3&G4&G5&G6&G7&G8).
        { unfold g, plain_feed_g. repeat split; try done; [|by cbn; rewrite length_app; cbn; lia].
          rewrite live_push; [done|apply Hok]. }
        clearbody g. assert (hasRun st = false) as Hnr.
        { destruct (hasRun st) eqn:Hr; [|done]. by specialize (Hrun eq_refl). }
        split; [|split; [|split; [by rewrite G2|split; [|split; [by rewrite G1|split]]]]].
        -- destruct Hok. split; rewrite ?G1, ?G3, ?G4, ?G5, ?G6, ?G7; try done; try lia.
           ++ intros it [Hit| ->%list_elem_of_singleton]%elem_of_app.
              ** destruct (so_items0 it Hit). split; [done|by eapply ple_trans].
              ** split; [right; cbn; split; [done|lia]|apply ple_refl].
           ++ apply sorted_snoc; [done|]. intros i Hi. destruct (so_items0 i Hi). split; cbn.
              ** eapply ple_trans; [|exact Hb]. by eapply ple_trans.
              ** by eapply ple_trans.
           ++ rewrite G2, Hnr. done.
        -- destruct Hfr as [_ Hf2]. split; rewrite ?G1, ?G3; [done|].
           intros it [Hit| ->%list_elem_of_singleton]%elem_of_app; [by apply Hf2|done].
        -- intros ln [Hlk Hh]. left. split; [congruence|]. destruct Hh as [(Hr & _)|(it & Hit & H1)]; [congruence|].
           right. exists it. rewrite G3. split; [by apply elem_of_app; left|done].
        -- rewrite G1. done.
        -- intros ln Hl. destruct (Hln ln Hl) as (L1 & L2 & L3 & L4 & L5 & L6 & L7). split; [done|]. split.
           ++ right. split; [congruence|]. right. eexists. rewrite G3, L2, L3.
              split; [apply elem_of_app; right; by apply list_elem_of_singleton|]. split; apply ple_refl.
           ++ rewrite L3, L4, L5, L6, L7, G1. destruct Howe as [[-> ?]|?]; [left|right; done].
              split; [done|]. split; [done|]. split; [done|apply ple_refl].
      * set (g := plain_feed_g false sg s e st).
        assert (lastEnd g = mkPos sg e /\ hasRun g = hasRun st /\ live g = live st /\ key g = key st /\
          stream g = stream st /\ fifo g = fifo st /\ fifoHead g = fifoHead st /\ runStart g = runStart st)
          as (G1&G2&G3&G4&G5&G6&G7&G8) by done.
        clearbody g. assert (hasRun st = false) as Hnr.
        { destruct (hasRun st) eqn:Hr; [|done]. by specialize (Hrun eq_refl). }
        split; [|split; [|split; [by rewrite G2|split; [|split; [by rewrite G1|split]]]]].
        -- destruct Hok. split; rewrite ?G1, ?G2, ?G3, ?G4, ?G5, ?G6, ?G7; try done; [|by rewrite Hnr].
           intros it Hit. destruct (so_items0 it Hit). split; [done|by eapply ple_trans].
        -- destruct Hfr as [_ Hf2]. split; rewrite ?G1, ?G3; done.
        -- intros ln [Hlk Hh]. left. split; [congruence|]. destruct Hh as [(Hr & _)|(it & Hit & H1)]; [congruence|].
           right. exists it. by rewrite G3.
        -- rewrite G1. done.
        -- intros ln Hl. destruct (Hln ln Hl) as (L1 & L2 & L3 & L4 & L5 & L6 & L7). split; [done|]. split.
           ++ left. eexists. split; [by apply list_elem_of_singleton|]. split; cbn.
              ** rewrite L4. unfold feed_stream. by rewrite Hc.
              ** rewrite L2, L3. split; apply ple_refl.
           ++ rewrite L3, L4, L5, L6, L7, G1. destruct Howe as [[-> ?]|?]; [left|right; done].
              split; [done|]. split; [done|]. split; [done|apply ple_refl].
  - intros e0 ->. destruct (containerd (fl y) || multiline (fl y)); [done|]. injection Hen as ->. by split.
Qed.


Lemma inv_feed cfg criParse y draining allow f raw s e f' en : inv y -> gated (fl y) = false \/ ahead y = true /\ draining = true ->
  consume1 cfg draining allow (fl y) = (f, Line raw s e) -> feedLine cfg (criParse raw) raw s e f = (f', en) ->
  inv (reach_front (tail f) e (fed_line (mkLine (line_key criParse f raw) (tail f) s e) (add en (put f' y)))).
Proof.
  intros Hinv Hga Hc Hf. destruct (consume1_core _ _ _ _ _ _ Hc) as (Hcore & Hls & Hsk & Hline).
  destruct (Hline raw s e eq_refl) as (-> & -> & Hlt). pose proof (v_front _ Hinv) as [F1 F2 F3 F4 F5].
  destruct (core_fields _ _ Hcore) as (E1&E2&E3&E4&E5&E6&E7&E8&E9).
  set (fr := raise (tail f) (lineStart f) (front y)).
  assert (inv (mkSys f (batch y) (delivered y) (log y) (gone y) fr (ahead y))) as Hmid.
  { apply inv_core; try done; [apply Hsk, F2|intros i; apply get_raise|]. rewrite <- E5. apply get_raise_eq. }
  apply feedLine_eq in Hf as [-> Hen].
  assert (curSeg f = tail f) as Ecs.
  { unfold curSeg. rewrite E8. destruct (sh_tail _ (v_shape _ Hinv)) as (_ & _ & ->). done. }
  rewrite Ecs in *. pose proof (v_shape _ Hmid) as Hsh. cbn in Hsh.
  refine (inv_update _ _ _ _ _ Hmid (good_feed cfg _ (criParse raw) raw (lineStart (fl y)) (lineStart f) (tail f) en
    Hmid _ _ _ _ _ _ Hen _ _)); cbn.
  - intros st Hst. rewrite E3 in Hst. rewrite E5. apply (so_last _ _ (sh_streams _ (v_shape _ Hinv) st Hst)).
  - apply Hsh.
  - lia.
  - apply ple_refl.
  - lia.
  - apply get_raise_eq.
  - unfold gated in *. rewrite E6, E7. intros Hx Ha. destruct Hga as [?|[? _]]; congruence.
  - left. split; [done|]. rewrite E2. lia.
Qed.

(** *** Skipped bytes *)

Lemma lines_weaken y f' : streams f' = streams (fl y) -> tail f' = tail (fl y) ->
  (forall l, l ∈ log y -> ~ covered (delivered y) l -> owed y l -> owed (put f' y) l) ->
  (forall l, l ∈ log y -> line_ok y l) -> forall l, l ∈ log y -> line_ok (put f' y) l.
Proof.
  intros E1 E2 Ho Hl l Hin. destruct (Hl l Hin) as [Hb Hor]. split; [by cbn; rewrite E2|]. cbn. rewrite E1.
  destruct (decide (covered (delivered y) l)) as [|Hn]; [by left|right].
  destruct Hor as [?|[? ?]]; [done|]. split; [done|by apply Ho].
Qed.

Lemma inv_absorb y : inv y -> inv (put (absorbSkipped (fl y)) y).
Proof.
  intros Hinv. pose proof Hinv as [Hsh Hl Hf Hb Hgt]. unfold absorbSkipped.
  destruct (bool_decide (committed (fl y) < skipEnd (fl y)) && _) eqn:Hg; [|by destruct y].
  apply andb_true_iff in Hg as [Hlt%bool_decide_eq_true Hfe%bool_decide_eq_true].
  set (f' := set_committed (skipEnd (fl y)) (fl y)). split.
  - by destruct Hsh.
  - apply (lines_weaken y f'); [done|done| |done]. intros l Hin Hn [?|[(Hs & Hc & st & Hst & Hk & Hle)|Hp]]; [by left| |by right; right].
    exfalso. destruct (Hl l Hin) as [[Hse _] _].
    assert (seg (lastEnd st) = tail (fl y)) as Hseg.
    { destruct (sh_streams _ Hsh st Hst) as [_ _ _ _ _ Hlast]. unfold ple, lim, lend in *. cbn in *. lia. }
    pose proof (fedEnd_ge (fl y) st Hst Hseg). unfold ple, lend in Hle. cbn in Hle. lia.
  - destruct Hf as [F1 F2 F3 F4 F5]. split; cbn; try done. lia.
  - done.
  - exact Hgt.
Qed.

(** *** Restarting the pipeline *)

Lemma streams_state_nil k f : (forall st, st ∈ streams f -> st = newStream (key st)) ->
  forall st, st ∈ streams (state k f).1 -> st = newStream (key st).
Proof.
  intros Hs st. unfold state. destruct (find_stream k (streams f)); cbn; [apply Hs|].
  intros [?| ->%list_elem_of_singleton]%elem_of_app; [by apply Hs|done].
Qed.

Lemma rebuild_spec f : (0 < tail f)%nat ->
  (forall st, st ∈ streams (rebuildPipeline f) -> st = newStream (key st)) /\
  NoDup (key <$> streams (rebuildPipeline f)) /\
  rebuildPipeline f = set_streams (streams (rebuildPipeline f)) f.
Proof.
  intros Ht. unfold rebuildPipeline. rewrite decide_False by lia. set (f0 := resetStreams f).
  assert (forall st, st ∈ streams f0 -> st = newStream (key st)) as H0 by (intros st ?%not_elem_of_nil; done).
  assert (NoDup (key <$> streams f0)) as Hn0 by constructor.
  assert (forall k g, g = set_streams (streams g) f -> (state k g).1 = set_streams (streams (state k g).1) f) as Hst.
  { intros k g Hg. unfold state. destruct (find_stream k (streams g)); cbn; [done|].
    transitivity (set_streams (streams g ++ [newStream k]) (set_streams (streams g) f)); [|done]. by f_equal. }
  destruct (containerd f0); (split; [|split]).
  - by do 3 apply streams_state_nil.
  - by do 3 apply state_nodup.
  - by do 3 apply Hst.
  - by apply streams_state_nil.
  - by apply state_nodup.
  - by apply Hst.
Qed.

Lemma fresh_stream_ok fr lm st : st = newStream (key st) -> (0 < seg lm)%nat -> (forall i, 0 <= get fr i) ->
  stream_ok lm st /\ stream_front fr st /\ hasRun st = false /\ lastEnd st = pos0.
Proof.
  intros -> Hl Hfr. split; [by apply stream_ok_new|]. split; [|done].
  split; [apply Hfr|]. intros it Hit. by apply not_elem_of_nil in Hit.
Qed.

(** The file a rewind or a rotation restarts: fresh streams, and segments whose
    frontiers were kept. *)
Lemma inv_fresh y f' es ds ls gn fr ah : (forall i, get (front y) i <= get fr i) -> inv y ->
  (forall st, st ∈ streams f' -> st = newStream (key st)) -> NoDup (key <$> streams f') ->
  StronglySorted lt (id <$> segments f') -> (forall p, p ∈ segments f' -> (0 < id p < tail f')%nat) ->
  tail f' = segSeq f' -> (tail (fl y) <= tail f')%nat -> feeding f' = 0%nat ->
  (segmentsFed f' = true -> forall p, p ∈ segments f' -> fed p = true) ->
  0 <= committed f' <= lineStart f' -> lineStart f' <= get fr (tail f') -> skipEnd f' <= lineStart f' ->
  (forall p, p ∈ segments f' -> seg_front fr p) ->
  (forall i o, exportedHighs f' !! i = Some o -> o <= get fr i /\ ple (mkPos i o) (lim f')) ->
  (forall e, e ∈ es -> pos_front fr (e_end e) /\ ple (e_end e) (lim f')) ->
  (forall l, l ∈ ls -> line_ok (mkSys f' es ds ls gn fr ah) l) ->
  inv (mkSys f' es ds ls gn fr ah).
Proof.
  intros Hfr Hinv Hst Hnd Hids Hbelow Ht Hle Hfd Hsf Hc Hl Hsk Hsegs Hh Hes Hls.
  assert (0 < tail f')%nat as Hpos by (destruct (sh_tail _ (v_shape _ Hinv)) as (_ & ? & _); lia).
  assert (forall i, 0 <= get fr i) as Hfp.
  { intros i. pose proof (ff_pos _ _ (v_front _ Hinv) i). specialize (Hfr i). lia. }
  split; cbn; try done.
  - split; try done.
    + intros st Hin. by apply (fresh_stream_ok fr (lim f') st (Hst st Hin)).
    + intros _ st Hin. by apply (fresh_stream_ok fr (lim f') st (Hst st Hin)).
  - split; try done. intros st Hin. by apply (fresh_stream_ok fr (lim f') st (Hst st Hin)).
  - intros _ _ st p Hin Hp _. destruct (fresh_stream_ok fr (lim f') st (Hst st Hin) Hpos Hfp) as (_ & _ & _ & ->).
    left. cbn. by apply Hbelow.
Qed.
