(* ===== verification/TailerSteps.v ===== *)
(** * The ledger invariant across commits, rewinds and rotations

    The steps of the tailer that move the commit frontier or change
    incarnation: an accepted batch, a failed one, a rotation, the replay of the
    rotated segments and the restart from a checkpoint.  Each preserves the
    invariant of [TailerLedger]. *)

From S2P Require Import Prelude Tailer TailerLedger.
Local Open Scope Z_scope.

(** *** An accepted batch *)

Definition upd1 (i : nat) (o : Z) (sg : segment) : option segment :=
  if decide (id sg = i) then
    if decide (segCommitted sg < o) then
      if bool_decide (0 <= to sg) && bool_decide (to sg <= o) then None else Some (sg_segCommitted o sg)
    else Some sg
  else Some sg.

Definition adv_seg (c : gmap nat Z) (sg : segment) : option segment :=
  match c !! id sg with Some o => upd1 (id sg) o sg | None => Some sg end.

Lemma upd1_id i o sg sg' : upd1 i o sg = Some sg' ->
  id sg' = id sg /\ to sg' = to sg /\ fedTo sg' = fedTo sg /\ fed sg' = fed sg /\
  (segCommitted sg' = segCommitted sg \/ (id sg = i /\ segCommitted sg' = o /\ segCommitted sg < o)).
Proof.
  unfold upd1. case_decide; [case_decide; [destruct (_ && _)|]|]; intros [= <-]; cbn; tauto.
Qed.

Lemma adv_seg_id c sg sg' : adv_seg c sg = Some sg' ->
  id sg' = id sg /\ to sg' = to sg /\ fedTo sg' = fedTo sg /\ fed sg' = fed sg /\
  (segCommitted sg' = segCommitted sg \/ (c !! id sg = Some (segCommitted sg') /\ segCommitted sg < segCommitted sg')).
Proof.
  unfold adv_seg. destruct (c !! id sg) as [o|] eqn:E; [|intros [= <-]; tauto].
  intros Hu. apply upd1_id in Hu. destruct Hu as (? & ? & ? & ? & [?|(? & -> & ?)]); tauto.
Qed.

Lemma omap_sublist_id (g : segment -> option segment) l : (forall sg sg', g sg = Some sg' -> id sg' = id sg) ->
  sublist (id <$> omap g l) (id <$> l).
Proof.
  intros Hg. induction l as [|a l IH]; cbn; [constructor|]. destruct (g a) as [b|] eqn:E; cbn.
  - rewrite (Hg _ _ E). by constructor.
  - by constructor.
Qed.

Lemma sorted_sublist (l1 l2 : list nat) : sublist l1 l2 -> StronglySorted lt l2 -> StronglySorted lt l1.
Proof.
  induction 1 as [|x l1 l2 Hsub IH|x l1 l2 Hsub IH]; intros Hs; [constructor| |]; inversion Hs as [|? ? Hs' Hall]; subst.
  - constructor; [by apply IH|]. rewrite Forall_forall in *. intros y Hy. apply Hall.
    by apply (sublist_subseteq _ _ Hsub).
  - by apply IH.
Qed.

Lemma sorted_NoDup (l : list nat) : StronglySorted lt l -> NoDup l.
Proof.
  induction 1 as [|a l Hs IH Hall]; constructor; [|done]. intros Hin. rewrite Forall_forall in Hall.
  specialize (Hall a Hin). lia.
Qed.

Lemma id_unique (l : list segment) s t : NoDup (id <$> l) -> s ∈ l -> t ∈ l -> id s = id t -> s = t.
Proof.
  induction l as [|a l IH]; [by intros _ ?%not_elem_of_nil|]. cbn. intros [Hna Hnd]%NoDup_cons.
  intros [->|H1]%elem_of_cons [->|H2]%elem_of_cons Hk; [done| | |by apply IH].
  - destruct Hna. apply list_elem_of_fmap. by exists t.
  - destruct Hna. apply list_elem_of_fmap. by exists s.
Qed.

Lemma segmentByID_Some i f s : segmentByID i f = Some s -> s ∈ segments f /\ id s = i.
Proof.
  unfold segmentByID. intros Hh. assert (s ∈ filter (fun sg => id sg = i) (segments f)) as Hin.
  { destruct (filter _ _) as [|a l']; [done|]. injection Hh as ->. by left. }
  apply list_elem_of_filter in Hin. tauto.
Qed.

Lemma segmentByID_None i f : segmentByID i f = None -> forall s, s ∈ segments f -> id s <> i.
Proof.
  unfold segmentByID. intros Hh s Hin Hk. assert (s ∈ filter (fun sg => id sg = i) (segments f)) as Hf.
  { by apply list_elem_of_filter. }
  destruct (filter _ _); [by apply not_elem_of_nil in Hf|done].
Qed.

Lemma segmentByID_eq f s : NoDup (id <$> segments f) -> s ∈ segments f -> segmentByID (id s) f = Some s.
Proof.
  intros Hnd Hin. destruct (segmentByID (id s) f) as [t|] eqn:E.
  - apply segmentByID_Some in E as [Ht Hi]. f_equal. by apply (id_unique (segments f)).
  - by destruct (segmentByID_None _ _ E s Hin).
Qed.

Lemma set_segments_same f : set_segments (segments f) f = f.
Proof. by destruct f. Qed.

Lemma omap_in {A B} (g h : A -> option B) (l : list A) : (forall x, x ∈ l -> g x = h x) -> omap g l = omap h l.
Proof.
  induction l as [|a l IH]; intros Hgh; [done|]. cbn. rewrite (Hgh a) by by left.
  assert (omap g l = omap h l) as E by (apply IH; intros; apply Hgh; by right).
  cbn in E. by rewrite E.
Qed.

Lemma omap_same {A} (g : A -> option A) (l : list A) : (forall x, x ∈ l -> g x = Some x) -> omap g l = l.
Proof.
  induction l as [|a l IH]; intros Hg; [done|]. cbn. rewrite (Hg a) by by left. f_equal.
  apply IH. intros; apply Hg; by right.
Qed.

Lemma omap_omap {A B C} (g : B -> option C) (h : A -> option B) (l : list A) : omap g (omap h l) = omap (fun x => h x ≫= g) l.
Proof.
  induction l as [|a l IH]; [done|]. cbn. destruct (h a) as [b|]; cbn; [|done]. cbn in IH. by rewrite IH.
Qed.

Lemma filter_fmap_omap {A B} (P : B -> Prop) `{!forall x, Decision (P x)} (g : A -> B) (l : list A) :
  filter P (g <$> l) = omap (fun x => if decide (P (g x)) then Some (g x) else None) l.
Proof.
  induction l as [|a l IH]; [done|]. rewrite fmap_cons. cbn -[filter]. destruct (decide (P (g a))).
  - rewrite filter_cons_True by done. f_equal. exact IH.
  - by rewrite filter_cons_False.
Qed.

Lemma fmap_omap {A B} (g : A -> B) (l : list A) : g <$> l = omap (fun x => Some (g x)) l.
Proof. induction l as [|a l IH]; [done|]. cbn in *. by rewrite IH. Qed.

Lemma advance_one_segs i o f : NoDup (id <$> segments f) -> i <> tail f ->
  advance_one i o f = set_segments (omap (upd1 i o) (segments f)) f.
Proof.
  intros Hnd Hi. unfold advance_one. rewrite decide_False by done.
  destruct (segmentByID i f) as [s|] eqn:Es.
  2:{ rewrite omap_same; [by rewrite set_segments_same|]. intros sg Hsg. unfold upd1.
      rewrite decide_False; [done|]. by apply (segmentByID_None i f Es). }
  apply segmentByID_Some in Es as [Hs Hsi].
  assert (forall sg, sg ∈ segments f -> id sg = i -> sg = s) as Huniq.
  { intros sg Hsg Hk. apply (id_unique (segments f)); try done. congruence. }
  destruct (decide (segCommitted s < o)) as [Hlt|Hge].
  2:{ rewrite omap_same; [by rewrite set_segments_same|]. intros sg Hsg. unfold upd1.
      destruct (decide (id sg = i)) as [Ha|Ha]; [|done]. by rewrite (Huniq sg Hsg Ha), decide_False. }
  set (g := fun sg => if decide (id sg = i) then sg_segCommitted o sg else sg).
  assert (forall sg, id (g sg) = id sg) as Hgi by (intros sg; unfold g; by destruct (decide (id sg = i))).
  destruct (bool_decide (0 <= to s) && bool_decide (to s <= o)) eqn:Hdone.
  - unfold retire. cbn [segments set_segments]. rewrite filter_fmap_omap.
    rewrite (omap_in _ (upd1 i o)); [done|]. intros sg Hsg. rewrite Hgi. unfold upd1, g.
    destruct (decide (id sg = i)) as [Ha|Ha].
    + rewrite (decide_False (P := id sg <> i)) by tauto. rewrite (Huniq sg Hsg Ha).
      by rewrite (decide_True (P := segCommitted s < o)), Hdone.
    + by rewrite (decide_True (P := id sg <> i)).
  - rewrite fmap_omap. rewrite (omap_in _ (upd1 i o)); [done|]. intros sg Hsg. unfold upd1, g.
    destruct (decide (id sg = i)) as [Ha|Ha]; [|done]. rewrite (Huniq sg Hsg Ha).
    by rewrite (decide_True (P := segCommitted s < o)), Hdone.
Qed.

Definition adv_tail (c : gmap nat Z) (f : file) : Z :=
  match c !! tail f with Some o => committed f `max` o | None => committed f end.

Lemma advance_fold c f : NoDup (id <$> segments f) -> (forall p, p ∈ segments f -> id p <> tail f) ->
  map_fold advance_one f c = set_segments (omap (adv_seg c) (segments f)) (set_committed (adv_tail c f) f).
Proof.
  intros Hnd Hne. apply (map_fold_weak_ind (fun r c => r =
    set_segments (omap (adv_seg c) (segments f)) (set_committed (adv_tail c f) f))).
  - rewrite omap_same by (intros; unfold adv_seg; by rewrite lookup_empty).
    unfold adv_tail. rewrite lookup_empty. by destruct f.
  - intros i o m r Hi ->. set (fm := set_segments _ _).
    destruct (decide (i = tail f)) as [->|Hit].
    + unfold advance_one. change (tail fm) with (tail f). rewrite decide_True by done.
      rewrite (omap_in (adv_seg (<[tail f := o]> m)) (adv_seg m)).
      2:{ intros p Hp. unfold adv_seg. rewrite lookup_insert_ne; [done|]. intros E. by apply (Hne p). }
      unfold adv_tail. rewrite lookup_insert_eq. change (committed fm) with (adv_tail m f). unfold adv_tail. rewrite Hi.
      destruct (decide (committed f < o)); unfold fm, adv_tail; rewrite Hi;
        unfold set_segments, set_committed; cbn; f_equal; lia.
    + rewrite advance_one_segs; [| |done].
      * unfold fm. cbn [segments set_segments set_committed]. rewrite omap_omap.
        rewrite (omap_in _ (adv_seg (<[i := o]> m))); [unfold adv_tail; by rewrite lookup_insert_ne|].
        intros p Hp. unfold adv_seg. destruct (decide (id p = i)) as [Ha|Ha].
        -- by rewrite Ha, Hi, lookup_insert_eq.
        -- rewrite lookup_insert_ne by congruence. destruct (m !! id p) as [o'|] eqn:Em; cbn.
           ++ destruct (upd1 (id p) o' p) as [b|] eqn:Eb; cbn; [|done].
              apply upd1_id in Eb as (Hb & _). unfold upd1. rewrite decide_False by congruence. done.
           ++ unfold upd1. by rewrite decide_False.
      * cbn. eapply sublist_NoDup; [exact Hnd|]. apply omap_sublist_id.
        intros sg sg' E. by apply adv_seg_id in E as (? & _).
Qed.

(** Every candidate comes from an entry, an older withheld high or the end of
    a segment it spans. *)
Lemma get_Some c i o : c !! i = Some o -> get c i = o.
Proof. unfold get. by intros ->. Qed.

Lemma raise_P (P : nat -> Z -> Prop) i o c : P i o -> (forall j x, c !! j = Some x -> P j x) ->
  forall j x, raise i o c !! j = Some x -> P j x.
Proof.
  intros Hp Hc j x. unfold raise. case_decide; [|apply Hc].
  intros [(<- & <-)|(_ & ?)]%lookup_insert_Some; [done|by apply Hc].
Qed.

Lemma highs_P (P : nat -> Z -> Prop) f b :
  (forall e, e ∈ b -> P (seg (e_end e)) (off (e_end e))) ->
  (forall i o, exportedHighs f !! i = Some o -> P i o) ->
  (forall p, p ∈ segments f -> fed p = true -> P (id p) (to p)) ->
  forall i o, highs f b !! i = Some o -> P i o.
Proof.
  intros He Hx Hs. unfold highs, reoffer.
  assert (forall i o, foldl (proposeCandidates f) ∅ b !! i = Some o -> P i o) as Hb.
  { assert (forall c, (forall i o, c !! i = Some o -> P i o) ->
      forall i o, foldl (proposeCandidates f) c b !! i = Some o -> P i o) as Hgen; [|by apply Hgen].
    induction b as [|e b IH]; intros c Hc; [exact Hc|]. cbn. apply IH; [intros; apply He; by right|].
    unfold proposeCandidates.
    assert (forall i o, raise (seg (e_end e)) (off (e_end e)) c !! i = Some o -> P i o) as H1
      by (apply raise_P; [apply He; by left|done]).
    destruct (decide _); [exact H1|]. revert H1. generalize (raise (seg (e_end e)) (off (e_end e)) c).
    revert Hs. generalize (segments f) as l. induction l as [|p l IHl]; intros Hs c0 Hc0; [exact Hc0|].
    cbn. apply IHl; [intros; apply Hs; [by right|done]|].
    destruct (_ && _) eqn:E; [|exact Hc0]. apply raise_P; [|exact Hc0]. apply andb_true_iff in E as [_ E].
    apply Hs; [by left|done]. }
  revert Hb. generalize (foldl (proposeCandidates f) ∅ b) as c. intros c Hc.
  apply (map_fold_weak_ind (fun r m => (forall i o, m !! i = Some o -> P i o) -> forall i o, r !! i = Some o -> P i o)
    raise c (fun _ => Hc)); [|exact Hx].
  intros i o m r Hi IH Hm. apply raise_P; [apply Hm; by rewrite lookup_insert_eq|]. apply IH.
  intros j x Hj. apply Hm. rewrite lookup_insert_ne; [done|]. congruence.
Qed.

Lemma clamp_lookup w c i o : clamp (Some w) c !! i = Some o ->
  exists o0, c !! i = Some o0 /\ o <= o0 /\ (i <= seg w)%nat /\ (i = seg w -> o <= off w).
Proof.
  unfold clamp. rewrite map_lookup_imap. destruct (c !! i) as [o0|]; [|done]. cbn. unfold clamp_one.
  case_decide; [done|]. case_decide as H2; intros [= <-]; exists o0; (split; [done|]); lia.
Qed.

Lemma cands_le f b i o : cands f b !! i = Some o -> exists o0, highs f b !! i = Some o0 /\ o <= o0.
Proof.
  unfold cands. destruct (watermark f) as [w|]; [|by exists o].
  intros (o0 & ? & ? & _)%clamp_lookup. by exists o0.
Qed.

Lemma withheld_sub f h i o : withheld f h !! i = Some o -> h !! i = Some o.
Proof.
  unfold withheld. rewrite map_lookup_imap. destruct (h !! i) as [x|]; [|done]. cbn.
  destruct (committedIn f i); [|done]. case_decide; [|done]. by intros [= <-].
Qed.

(** Everything still buffered is above the batch's candidates. *)
Lemma cands_below f b l i o : (forall st, st ∈ streams f -> StronglySorted item_le (live st)) ->
  buf (streams f) l -> cands f b !! i = Some o -> i = ln_seg l -> o <= ln_start l.
Proof.
  intros Hs Hb Hc ->. destruct (watermark_le f l Hs Hb) as (w & Hw & Hle). unfold cands in Hc. rewrite Hw in Hc.
  apply clamp_lookup in Hc as (o0 & _ & _ & H1 & H2). unfold ple, lstart in Hle. cbn in Hle.
  destruct Hle as [?|[E ?]]; [lia|]. specialize (H2 (eq_sym E)). lia.
Qed.

Lemma inv_accept y : inv y ->
  inv (mkSys (advanceBatch (cands (fl y) (batch y)) (highs (fl y) (batch y)) (fl y)) [] (delivered y ++ batch y)
         (log y) (gone y) (front y) (ahead y)).
Proof.
  intros Hinv. pose proof Hinv as [Hsh Hl Hf Hb Hgt]. pose proof Hf as [F1 F2 F3 F4 F5].
  set (f := fl y) in *. set (c := cands f (batch y)). set (h := highs f (batch y)).
  assert (NoDup (id <$> segments f)) as Hnd by apply sorted_NoDup, Hsh.
  assert (forall i o, h !! i = Some o -> o <= get (front y) i /\ ple (mkPos i o) (lim f)) as Hh.
  { apply (highs_P (fun i o => o <= get (front y) i /\ ple (mkPos i o) (lim f))); [| |].
    - intros e He. destruct (Hb e He) as [? ?]. by destruct (e_end e).
    - apply F5.
    - intros p Hp Hfd. split; [by apply (F3 p Hp)|]. left. by apply (sh_below _ Hsh). }
  assert (forall i o, c !! i = Some o -> o <= get (front y) i /\ ple (mkPos i o) (lim f)) as Hc.
  { intros i o (o0 & H0 & Hle)%cands_le. destruct (Hh i o0 H0) as [? Hp]. split; [lia|].
    unfold ple in *. cbn in *. lia. }
  unfold advanceBatch. rewrite advance_fold; [|exact Hnd|intros p Hp; pose proof (sh_below _ Hsh p Hp); lia].
  set (f1 := set_segments (omap (adv_seg c) (segments f)) (set_committed (adv_tail c f) f)).
  set (y1 := mkSys (set_exportedHighs (withheld f1 h) f1) [] (delivered y ++ batch y) (log y) (gone y) (front y) (ahead y)).
  change (inv (put (absorbSkipped (fl y1)) y1)). apply inv_absorb.
  assert (forall q, q ∈ segments f1 -> exists p, p ∈ segments f /\ adv_seg c p = Some q) as Hsub.
  { intros q Hq. by apply list_elem_of_omap in Hq. }
  assert (committed f <= adv_tail c f) as Htl by (unfold adv_tail; destruct (c !! tail f); lia).
  assert (gated f1 = true -> gated f = true) as Hga.
  { unfold gated. rewrite !andb_true_iff, !negb_true_iff, !bool_decide_eq_false. intros [H1 H2]. split; [|done].
    intros E. apply H1. cbn. by rewrite E. }
  split; cbn.
  - split; cbn; try apply Hsh.
    + eapply sorted_sublist; [|apply (sh_ids _ Hsh)]. apply omap_sublist_id.
      intros sg sg' E. by apply adv_seg_id in E as (? & _).
    + intros q (p & Hp & E)%Hsub. apply adv_seg_id in E as (-> & _). by apply (sh_below _ Hsh).
    + intros Hx q (p & Hp & E)%Hsub. apply adv_seg_id in E as (_ & _ & _ & -> & _). by apply (sh_fed _ Hsh).
  - intros l Hin. destruct (Hl l Hin) as [Hrange Hor]. split; [exact Hrange|]. cbn.
    destruct (decide (covered (delivered y ++ batch y) l)) as [|Hn]; [by left|right].
    rewrite covered_app in Hn. destruct Hor as [?|[[?|Hbuf] Ho]]; [tauto|tauto|]. split; [by right|].
    assert (forall o, c !! ln_seg l = Some o -> o <= ln_start l) as Hbelow.
    { intros o Hco. eapply (cands_below f); [|exact Hbuf|exact Hco|done]. intros st Hst. by apply Hsh. }
    destruct Ho as [?|[(Hs & Hcm & Hst)|(p & Hp & Hi & Hcm & Hto)]]; [by left|right; left|right; right].
    + split; [done|]. split; [|exact Hst]. cbn. unfold adv_tail. fold f in Hs. destruct (c !! tail f) as [o|] eqn:E; [|done].
      rewrite <- Hs in E. specialize (Hbelow o E). fold f in Hcm. lia.
    + fold f in Hp. destruct (adv_seg c p) as [q|] eqn:E.
      * exists q. split; [apply list_elem_of_omap; by exists p|].
        apply adv_seg_id in E as (E1 & E2 & E3 & E4 & E5). rewrite E1, E2, E3. split; [done|]. split; [|done].
        destruct E5 as [->|(E5 & _)]; [done|]. rewrite Hi in E5. by apply Hbelow.
      * exfalso. unfold adv_seg in E. rewrite Hi in E. destruct (c !! ln_seg l) as [o|] eqn:Eo; [|done].
        specialize (Hbelow o eq_refl). unfold upd1 in E. case_decide; [|done]. case_decide; [|done].
        destruct (bool_decide (0 <= to p)) eqn:E1; [|done]. destruct (bool_decide (to p <= o)) eqn:E2; [|done].
        apply bool_decide_eq_true in E1, E2. destruct Hto as [Hto _]. specialize (Hto E1). lia.
  - split; cbn; try done.
    + split; [|by apply F2]. unfold adv_tail. destruct (c !! tail f) as [o|] eqn:E; [|apply F2].
      destruct (Hc _ _ E) as [_ Hp]. unfold ple, lim in Hp. cbn in Hp. lia.
    + intros q (p & Hp & E)%Hsub. apply adv_seg_id in E as (E1 & E2 & E3 & E4 & E5). destruct (F3 p Hp) as (S1 & S2 & S3).
      unfold seg_front. rewrite E1, E2, E3, E4. split; [|done].
      destruct E5 as [->|(E5 & ?)]; [done|]. destruct (Hc _ _ E5). lia.
    + intros i o Hi. apply (Hh i o). by eapply withheld_sub.
  - intros e He. by apply not_elem_of_nil in He.
  - intros Hg Ha st q Hst (p & Hp & E)%Hsub Hfd. apply adv_seg_id in E as (Ei & _ & Ef & Efd & _).
    rewrite Ei, Ef. apply (Hgt (Hga Hg) Ha); [done|done|congruence].
Qed.

(** *** A failed batch *)

Lemma rewind_spec f : (0 < tail f)%nat ->
  exists ss, (forall st, st ∈ ss -> st = newStream (key st)) /\ NoDup (key <$> ss) /\
    rewind f = set_streams ss (purgeSegmentFeeds (restartAt (committed f)
      (set_exportedHighs ∅ (set_rewindGen (rewindGen f + 1) f)))).
Proof.
  intros Ht. unfold rewind, newPipeline. set (g := purgeSegmentFeeds _).
  destruct (rebuild_spec g) as (H1 & H2 & H3); [done|]. by exists (streams (rebuildPipeline g)).
Qed.

Lemma inv_fail y : inv y ->
  inv (mkSys (rewind (fl y)) [] (delivered y) (filter (covered (delivered y)) (log y)) (gone y) (front y) false).
Proof.
  intros Hinv. pose proof (v_shape _ Hinv) as Hsh. pose proof (v_front _ Hinv) as [F1 F2 F3 F4 F5].
  destruct (rewind_spec (fl y)) as (ss & Hss & Hnd & E); [apply Hsh|]. rewrite E. clear E.
  apply (inv_fresh y); cbn; try done; try lia.
  - rewrite <- list_fmap_compose. apply (sh_ids _ Hsh).
  - intros q (p & -> & Hp)%list_elem_of_fmap. cbn. by apply (sh_below _ Hsh).
  - apply Hsh.
  - apply Hsh.
  - intros q (p & -> & Hp)%list_elem_of_fmap. destruct (F3 p Hp) as (S1 & S2 & _). split; [done|]. cbn.
    split; [apply F1|done].
  - intros e He. by apply not_elem_of_nil in He.
  - intros l [Hc Hin]%list_elem_of_filter. destruct (v_lines _ Hinv l Hin) as [Hr _]. split; [exact Hr|by left].
Qed.

Lemma inv_lose y i : inv y -> inv (lose i y).
Proof.
  intros [Hsh Hl Hf Hb Hgt]. split; try done. intros l Hin. destruct (Hl l Hin) as [Hr Hor]. split; [exact Hr|].
  destruct Hor as [?|[? Ho]]; [by left|right]. split; [done|]. destruct Ho as [Hg|Ho]; [left|right; exact Ho].
  cbn. set_solver.
Qed.

(** A drain ahead of the owed segments begins. *)
Lemma inv_ahead y : inv y -> inv (set_ahead true y).
Proof. intros [Hsh Hl Hf Hb _]. by split. Qed.

(** *** A rotation *)

(** What the emitting stages leave alone. *)
Definition still (f : file) :=
  (containerd f, committed f, segSeq f, tail f, segments f, segmentsFed f, feeding f, exportedHighs f, lineStart f,
   skipEnd f).

Lemma emits_still y y' : emits y y' ->
  still (fl y') = still (fl y) /\ log y' = log y /\ delivered y' = delivered y /\ gone y' = gone y /\ front y' = front y.
Proof.
  assert (forall k st f, still (put_stream st (state k f).1) = still f) as Hp.
  { intros k st f. unfold put_stream. pose proof (state_spec k f) as Hs. destruct (state k f) as [f0 s].
    destruct Hs as (_ & _ & -> & _). done. }
  assert (forall k f, still (state k f).1 = still f) as Hp0.
  { intros k f. pose proof (state_spec k f) as Hs. destruct (state k f) as [f0 s]. by destruct Hs as (_ & _ & -> & _). }
  destruct 1 as [y k line rs f e _ _ He|y k n text tr f e He]; cbn; (split; [|done]).
  - unfold criEmit in He. destruct (state k (fl y)) as [f0 st] eqn:E. cbv zeta in He. destruct (multiline (fl y)), (multiline f0);
      injection He as <- _; change f0 with ((f0, st).1); rewrite <- E; apply Hp.
  - unfold traceEmit in He. destruct (state k (fl y)) as [f0 st] eqn:E.
    destruct (live st); [|destruct (last _)]; injection He as <- _; change f0 with ((f0, st).1); rewrite <- E; auto.
Qed.

Lemma star_emits_still y y' : star emits y y' -> inv y ->
  inv y' /\ still (fl y') = still (fl y) /\ log y' = log y /\ delivered y' = delivered y /\ gone y' = gone y /\ front y' = front y.
Proof.
  induction 1 as [|y z w _ IH Hzw]; intros Hinv; [done|]. destruct (IH Hinv) as (H1 & H2 & H3 & H4 & H5 & H6).
  pose proof (emits_still _ _ Hzw) as (E1 & E2 & E3 & E4 & E5).
  split; [by eapply inv_emits|]. repeat split; congruence.
Qed.

Lemma still_fields f f' : still f' = still f ->
  containerd f' = containerd f /\ committed f' = committed f /\ segSeq f' = segSeq f /\ tail f' = tail f /\
  segments f' = segments f /\ segmentsFed f' = segmentsFed f /\ feeding f' = feeding f /\
  exportedHighs f' = exportedHighs f /\ lineStart f' = lineStart f.
Proof. unfold still. intros E. by simplify_eq. Qed.

(** The segments after a rotation. *)
Definition reopen_segs (renamed drained : bool) (f : file) : list segment :=
  (restore_fed (wasFed renamed drained f) (prevFed f) (aborted renamed drained) true <$> segments f) ++
  (restore_fed (wasFed renamed drained f) (prevFed f) (aborted renamed drained) false <$> option_list (hop renamed drained f)).

Lemma restore_fed_spec was prev ab old p : let q := restore_fed was prev ab old p in
  id q = id p /\ segCommitted q = segCommitted p /\ to q = to p /\ fedTo p <= fedTo q /\
  fed q = was || (prev && ab && old) /\
  (fedTo q = fedTo p \/ (prev && ab && old = true /\ fedTo q = fedTo p `max` to p)).
Proof.
  unfold restore_fed. destruct (prev && ab && old) eqn:E; [destruct (decide _)|]; cbn; rewrite ?orb_true_r, ?orb_false_r;
    repeat split; try lia; auto.
Qed.

Lemma reopen_ids renamed drained f : shape f ->
  StronglySorted lt (id <$> reopen_segs renamed drained f) /\
  forall q, q ∈ reopen_segs renamed drained f -> (0 < id q <= tail f)%nat.
Proof.
  intros Hsh. unfold reopen_segs.
  assert (forall b (l : list segment), id <$> (restore_fed (wasFed renamed drained f) (prevFed f) (aborted renamed drained) b <$> l) = id <$> l) as Hid.
  { intros b l. rewrite <- list_fmap_compose. apply list_fmap_ext. intros i p _. cbn. apply restore_fed_spec. }
  assert (forall h, hop renamed drained f = Some h -> id h = tail f) as Hh.
  { unfold hop. intros h. destruct (aborted _ _); [|destruct (_ && _)]; by intros [= <-]. }
  pose proof (sh_tail _ Hsh) as (_ & Ht & _). split.
  - rewrite fmap_app, !Hid. apply StronglySorted_app. split; [|split; [apply Hsh|]].
    + intros a b Ha Hb. apply list_elem_of_fmap in Ha as (p & -> & Hp). pose proof (sh_below _ Hsh p Hp).
      apply list_elem_of_fmap in Hb as (h & -> & Hb). destruct (hop _ _ _) as [h'|]; [|by apply not_elem_of_nil in Hb].
      apply list_elem_of_singleton in Hb as ->. rewrite (Hh h' eq_refl). lia.
    + destruct (hop _ _ _); cbn; repeat constructor.
  - intros q [Hq|Hq]%elem_of_app; apply list_elem_of_fmap in Hq as (p & -> & Hp);
      destruct (restore_fed_spec (wasFed renamed drained f) (prevFed f) (aborted renamed drained) true p) as (E & _);
      destruct (restore_fed_spec (wasFed renamed drained f) (prevFed f) (aborted renamed drained) false p) as (E' & _);
      rewrite ?E, ?E'.
    + pose proof (sh_below _ Hsh p Hp). lia.
    + destruct (hop _ _ _) as [h|]; [|by apply not_elem_of_nil in Hp]. apply list_elem_of_singleton in Hp as ->.
      rewrite (Hh h eq_refl). lia.
Qed.

Lemma prevFed_fed f p : shape f -> prevFed f = true -> p ∈ segments f -> fed p = true.
Proof.
  intros Hsh. unfold prevFed. rewrite orb_true_iff, bool_decide_eq_true.
  intros [Hs|E] Hp; [by apply (sh_fed _ Hsh)|]. rewrite E in Hp. by apply not_elem_of_nil in Hp.
Qed.

Lemma fedEnd_line fr f : shape f -> file_front fr f -> fedEnd f <= lineStart f.
Proof.
  intros Hsh Hf. apply fedEnd_le; [apply Hf|]. intros st Hst Hseg. pose proof (so_last _ _ (sh_streams _ Hsh st Hst)) as Hl.
  unfold ple, lim in Hl. cbn in Hl. lia.
Qed.

Lemma hop_front fr renamed drained f h : shape f -> file_front fr f -> hop renamed drained f = Some h -> seg_front fr h.
Proof.
  intros Hsh Hf. pose proof (fedEnd_line fr f Hsh Hf). pose proof (ff_tail _ _ Hf) as (Hc & Hl & _).
  unfold hop. destruct (aborted _ _); [|destruct (_ && _)]; intros [= <-]; unfold seg_front; cbn; repeat split; try lia; done.
Qed.

Lemma reopen_front fr renamed drained f : shape f -> file_front fr f ->
  forall q, q ∈ reopen_segs renamed drained f -> seg_front fr q.
Proof.
  intros Hsh Hf q. unfold reopen_segs. set (was := wasFed _ _ _). set (prev := prevFed f). set (ab := aborted _ _).
  assert (was = true -> prev = true) as Hwp by (unfold was, wasFed; fold prev; by destruct prev).
  intros [Hq|Hq]%elem_of_app; apply list_elem_of_fmap in Hq as (p & -> & Hp).
  - destruct (restore_fed_spec was prev ab true p) as (E1 & E2 & E3 & _ & E4 & E5).
    destruct (ff_segs _ _ Hf p Hp) as (S1 & S2 & S3). unfold seg_front. rewrite E1, E2, E3, E4.
    assert (prev = true -> to p <= get fr (id p)) as Hto by (intros Hpr; apply S3; by apply (prevFed_fed f)).
    split; [done|]. split.
    + destruct E5 as [->|(Hx & ->)]; [done|]. apply andb_true_iff in Hx as [[? _]%andb_true_iff _]. specialize (Hto H). lia.
    + rewrite orb_true_iff, !andb_true_iff. intros [?|[[? _] _]]; auto.
  - destruct (hop renamed drained f) as [h|] eqn:Eh; [|by apply not_elem_of_nil in Hp]. apply list_elem_of_singleton in Hp as ->.
    destruct (restore_fed_spec was prev ab false h) as (E1 & E2 & E3 & _ & E4 & E5).
    destruct (hop_front fr renamed drained f h Hsh Hf Eh) as (S1 & S2 & S3). unfold seg_front. rewrite E1, E2, E3, E4.
    split; [done|]. split; [destruct E5 as [->|(Hx & _)]; [done|]; by rewrite andb_false_r in Hx|].
    rewrite andb_false_r, orb_false_r. intros Hw. unfold hop in Eh.
    destruct (aborted renamed drained) eqn:Ea; [unfold was, wasFed in Hw; by rewrite Ea, andb_false_r in Hw|].
    apply S3. destruct (renamed && _); [|done]. by injection Eh as <-.
Qed.

Lemma reopen_fed renamed drained f : shape f -> wasFed renamed drained f = true ->
  forall q, q ∈ reopen_segs renamed drained f -> fed q = true.
Proof.
  intros Hsh Hw q. unfold reopen_segs. rewrite Hw.
  intros [Hq|Hq]%elem_of_app; apply list_elem_of_fmap in Hq as (p & -> & Hp);
    by destruct (restore_fed_spec true (prevFed f) (aborted renamed drained) true p) as (_ & _ & _ & _ & -> & _)
    || by destruct (restore_fed_spec true (prevFed f) (aborted renamed drained) false p) as (_ & _ & _ & _ & -> & _).
Qed.

(** What was owed before the rotation is owed after it. *)
Definition owed_in (segs : list segment) (l : fline) : Prop :=
  exists p, p ∈ segs /\ id p = ln_seg l /\ segCommitted p <= ln_start l /\
    (0 <= to p -> ln_end l <= to p) /\ (to p < 0 -> ln_end l <= fedTo p).

Lemma reopen_owed renamed drained y l : shape (fl y) -> 0 <= ln_start l < ln_end l -> owed y l ->
  ln_seg l ∈ gone y \/ (renamed = false /\ ln_seg l = tail (fl y)) \/
  owed_in (reopen_segs renamed drained (fl y)) l.
Proof.
  intros Hsh Hr [?|[(Hs & Hc & st & Hst & Hk & Hle)|(p & Hp & Hi & Hc & H1 & H2)]]; [by left|right..].
  - destruct renamed; [right|by left].
    assert (seg (lastEnd st) = tail (fl y)) as Hseg.
    { pose proof (so_last _ _ (sh_streams _ Hsh st Hst)) as Hl. unfold ple, lim, lend in *. cbn in *. lia. }
    pose proof (fedEnd_ge (fl y) st Hst Hseg) as Hfe.
    assert (ln_end l <= fedEnd (fl y)) as Hend by (unfold ple, lend in Hle; cbn in Hle; lia).
    unfold owed_in, reopen_segs, hop. destruct (aborted true drained) eqn:Ea.
    + eexists. split; [apply elem_of_app; right; cbn; by apply list_elem_of_singleton|].
      set (h := mkSegment _ _ _ _ _ _ _).
      destruct (restore_fed_spec (wasFed true drained (fl y)) (prevFed (fl y)) true false h) as (-> & -> & -> & Hf & _).
      cbn in *. split; [done|]. split; [done|]. split; lia.
    + rewrite (bool_decide_eq_true_2 (committed (fl y) < fedEnd (fl y))) by lia. cbn [andb].
      eexists. split; [apply elem_of_app; right; cbn; by apply list_elem_of_singleton|].
      set (h := mkSegment _ _ _ _ _ _ _).
      destruct (restore_fed_spec (wasFed true drained (fl y)) (prevFed (fl y)) false false h) as (-> & -> & -> & Hf & _).
      cbn in *. pose proof (fedEnd_committed (fl y)). repeat split; try done; lia.
  - right. exists (restore_fed (wasFed renamed drained (fl y)) (prevFed (fl y)) (aborted renamed drained) true p).
    destruct (restore_fed_spec (wasFed renamed drained (fl y)) (prevFed (fl y)) (aborted renamed drained) true p)
      as (E1 & E2 & E3 & Hf & _). split; [apply elem_of_app; left; apply list_elem_of_fmap; by exists p|].
    rewrite E1, E2, E3. split; [done|]. split; [done|]. split; [done|]. intros Hx. specialize (H2 Hx). lia.
Qed.

Lemma reopen_eq renamed drained f0 f1 : reopen renamed drained f0 f1 =
  beginIncarnation 0 (set_segmentsFed (wasFed renamed drained f0) (set_segments (reopen_segs renamed drained f0)
    (if carry renamed drained f0 then f1 else rebuildPipeline f1))).
Proof. done. Qed.

Lemma line_ok_reopened y y1 f' es ds ls gn fr ah renamed drained l : shape (fl y) -> line_ok y l ->
  ls = log y -> delivered y = ds -> tail f' = S (tail (fl y)) -> segments f' = reopen_segs renamed drained (fl y) ->
  (gn = if renamed then gone y else {[tail (fl y)]} ∪ gone y) -> line_ok y1 l -> delivered y1 = ds ->
  (covered (batch y1) l \/ buf (streams (fl y1)) l -> covered es l \/ buf (streams f') l) ->
  line_ok (mkSys f' es ds ls gn fr ah) l.
Proof.
  intros Hsh [[H1 H2] Ho] -> <- Et Es -> [_ Ho1] Ed1 Hb. split; [split; [exact H1|cbn; lia]|]. cbn.
  destruct (decide (covered (delivered y) l)) as [|Hn]; [by left|right].
  destruct Ho as [?|[_ Ho]]; [done|]. rewrite Ed1 in Ho1. destruct Ho1 as [?|[Hb1 _]]; [done|]. split; [by apply Hb|].
  destruct (reopen_owed renamed drained y l Hsh H1 Ho) as [Hg|[(-> & Hs)|Hin]].
  - left. cbn. destruct renamed; [done|set_solver].
  - left. cbn. set_solver.
  - right. right. cbn. rewrite Es. exact Hin.
Qed.

Lemma inv_reopen y y1 renamed drained : inv y ->
  (if carry renamed drained (fl y) then y1 = y else star emits y y1 /\ watermark (fl y1) = None) ->
  inv (let y2 := set_ahead false (put (reopen renamed drained (fl y) (fl y1)) y1) in
       if renamed then y2 else lose (tail (fl y)) y2).
Proof.
  intros Hinv Hor. pose proof (v_shape _ Hinv) as Hsh. pose proof (v_front _ Hinv) as Hf.
  set (f' := reopen renamed drained (fl y) (fl y1)).
  assert (inv (mkSys f' (batch y1) (delivered y1) (log y1) (if renamed then gone y1 else {[tail (fl y)]} ∪ gone y1) (front y1) false))
    as Hgoal; [|cbv zeta; unfold set_ahead, put, lose in *; destruct renamed; exact Hgoal].
  destruct (reopen_ids renamed drained (fl y) Hsh) as [Hids Hbelow].
  assert (0 <= get (front y) (S (tail (fl y)))) as Hf0 by apply (ff_pos _ _ Hf).
  destruct (carry renamed drained (fl y)) eqn:Hcarry.
  - subst y1. assert (f' = beginIncarnation 0 (set_segmentsFed (wasFed renamed drained (fl y))
      (set_segments (reopen_segs renamed drained (fl y)) (fl y)))) as E by (unfold f'; by rewrite reopen_eq, Hcarry).
    unfold carry in Hcarry. apply andb_true_iff in Hcarry as [[Hr Hbf]%andb_true_iff Hw].
    assert (ple (lim (fl y)) (lim f')) as Hlim.
    { rewrite E. left. cbn. pose proof (sh_tail _ Hsh). lia. }
    rewrite E in *. clear f' E. pose proof (sh_tail _ Hsh) as (Ht1 & Ht2 & Ht3). split; cbn [fl batch delivered log gone front].
    + split; cbn; rewrite <- ?Ht1; try apply Hsh; try done.
      * intros st Hst. eapply stream_ok_lim; [exact Hlim|]. by apply Hsh.
      * intros q Hq. specialize (Hbelow q Hq). lia.
      * split; [done|]. split; [lia|done].
      * intros _. by apply reopen_fed.
    + intros l Hl. apply (line_ok_reopened y y) with renamed drained; try done; try (cbn; congruence);
        by apply (v_lines _ Hinv).
    + destruct Hf as [F1 F2 F3 F4 F5]. split; cbn; rewrite <- ?Ht1; try done.
      * intros q Hq. eapply reopen_front; [exact Hsh|by split|exact Hq].
      * intros i o Hio. destruct (F5 i o Hio). split; [done|]. by eapply ple_trans.
    + intros e He. destruct (v_batch _ Hinv e He). split; [done|]. by eapply ple_trans.
    + unfold gated. cbn. rewrite Hw. rewrite andb_false_r. done.
  - destruct Hor as [Hst Hwm]. destruct (star_emits_still _ _ Hst Hinv) as (Hinv1 & Est & El & Ed & Eg & Efr).
    apply still_fields in Est as (E1&E2&E3&E4&E5&E6&E7&E8&E9). pose proof (sh_tail _ Hsh) as (Ht1 & Ht2 & Ht3).
    destruct (rebuild_spec (fl y1)) as (R1 & R2 & R3); [by rewrite E4|].
    assert (f' = beginIncarnation 0 (set_segmentsFed (wasFed renamed drained (fl y))
      (set_segments (reopen_segs renamed drained (fl y)) (rebuildPipeline (fl y1))))) as E
      by (unfold f'; by rewrite reopen_eq, Hcarry).
    rewrite R3 in E. set (ss := streams (rebuildPipeline (fl y1))) in *.
    assert (tail f' = S (tail (fl y)) /\ segments f' = reopen_segs renamed drained (fl y) /\ streams f' = ss)
      as (T1 & T2 & T3) by (rewrite E; cbn; rewrite E3, Ht1; done).
    clearbody f'. rewrite Eg, Efr. apply (inv_fresh y1); rewrite ?E4, ?T1, ?T2, ?T3; try done; try lia.
    + by rewrite Efr.
    + intros q Hq. specialize (Hbelow q Hq). lia.
    + rewrite E. cbn. by rewrite E3, Ht1.
    + rewrite E. cbn. by rewrite E7.
    + rewrite E. cbn. by apply reopen_fed.
    + rewrite E. cbn. lia.
    + rewrite E. cbn. exact Hf0.
    + rewrite E. cbn. lia.
    + intros q Hq. by eapply reopen_front.
    + rewrite E. cbn. rewrite E8. intros i o Hio. destruct (ff_highs _ _ Hf i o Hio). split; [done|].
      eapply ple_trans; [eassumption|]. left. cbn. lia.
    + intros e He. destruct (v_batch _ Hinv1 e He) as [V1 V2]. rewrite Efr in V1. split; [done|].
      eapply ple_trans; [exact V2|]. left. cbn. rewrite T1, E4. lia.
    + intros l Hl. rewrite El in Hl. apply (line_ok_reopened y y1) with renamed drained; try done.
      * by apply (v_lines _ Hinv).
      * apply (v_lines _ Hinv1). by rewrite El.
      * intros [?|Hb]; [by left|]. exfalso. destruct (watermark_le (fl y1) l) as (w & Hw & _); [|exact Hb|congruence].
        intros st Hs. apply (sh_streams _ (v_shape _ Hinv1) st Hs).
Qed.

(** *** Replaying rotated segments *)

Lemma inv_segments y segs b gn fr : inv y -> (forall i, get (front y) i <= get fr i) -> gone y ⊆ gn ->
  sublist (id <$> segs) (id <$> segments (fl y)) ->
  (forall q, q ∈ segs -> seg_front fr q) ->
  (b = true -> forall q, q ∈ segs -> fed q = true) ->
  gated (fl y) = true ->
  (forall q, q ∈ segs -> fed q = false ->
     exists p, p ∈ segments (fl y) /\ id p = id q /\ fed p = false /\ fedTo p <= fedTo q) ->
  (forall l, 0 <= ln_start l < ln_end l -> owed_in (segments (fl y)) l -> ln_seg l ∈ gn \/ owed_in segs l) ->
  inv (mkSys (set_segments segs (set_segmentsFed b (fl y))) (batch y) (delivered y) (log y) gn fr (ahead y)).
Proof.
  intros [Hsh Hl Hf Hb Hgt] Hfr Hgn Hsub Hsf Hfed Hga Hun How.
  assert (forall p, pos_front (front y) p -> pos_front fr p) as Hpf.
  { unfold pos_front. intros p. specialize (Hfr (seg p)). lia. }
  split; cbn.
  - split; cbn; try apply Hsh; try done.
    + eapply sorted_sublist; [exact Hsub|apply Hsh].
    + intros q Hq. assert (id q ∈ id <$> segments (fl y)) as Hin.
      { apply (sublist_subseteq _ _ Hsub). apply list_elem_of_fmap. by exists q. }
      apply list_elem_of_fmap in Hin as (p & -> & Hp). by apply (sh_below _ Hsh).
  - intros l Hin. destruct (Hl l Hin) as [Hr Hor]. split; [exact Hr|]. cbn. destruct Hor as [?|[? Ho]]; [by left|right].
    split; [done|]. destruct Ho as [?|[Ho|Ho]]; [left; cbn; set_solver|by right; left|].
    destruct (How l (proj1 Hr) Ho) as [?|Ho']; [by left|right; right; exact Ho'].
  - destruct Hf as [F1 F2 F3 F4 F5]. split; cbn; try done.
    + intros i. specialize (F1 i). specialize (Hfr i). lia.
    + specialize (Hfr (tail (fl y))). lia.
    + intros st Hst. destruct (F4 st Hst) as [? Hit]. split; [by apply Hpf|]. intros it Hi. by apply Hpf, Hit.
    + intros i o Hio. destruct (F5 i o Hio). pose proof (Hfr i). split; [lia|done].
  - intros e He. destruct (Hb e He). split; [by apply Hpf|done].
  - intros _ Ha st q Hst Hq Hq0. destruct (Hun q Hq Hq0) as (p & Hp & E & Ef & Hle).
    eapply ple_trans; [by apply (Hgt Hga Ha st p)|]. right. cbn. split; [done|lia].
Qed.

Lemma next_owed_spec f p : shape f -> next_owed f = Some p ->
  p ∈ segments f /\ fed p = false /\ forall q, q ∈ segments f -> fed q = false -> q = p \/ (id p < id q)%nat.
Proof.
  intros Hsh. unfold next_owed. pose proof (sh_ids _ Hsh) as Hs. revert Hs. generalize (segments f) as l.
  induction l as [|a l IH]; [done|]. intros Hs. inversion Hs as [|? ? Hs' Hall]; subst. rewrite Forall_forall in Hall.
  destruct (fed a) eqn:Ea.
  - rewrite filter_cons_False by congruence. intros Hh. destruct (IH Hs' Hh) as (H1 & H2 & H3).
    split; [by right|]. split; [done|]. intros q [->|Hq]%elem_of_cons Hf; [congruence|by apply H3].
  - rewrite filter_cons_True by done. intros [= <-]. split; [by left|]. split; [done|].
    intros q [->|Hq]%elem_of_cons Hf; [by left|right]. apply Hall. apply list_elem_of_fmap. by exists q.
Qed.

Lemma next_owed_None f : next_owed f = None -> forall q, q ∈ segments f -> fed q = true.
Proof.
  unfold next_owed. intros Hh q Hq. destruct (fed q) eqn:E; [done|].
  assert (q ∈ filter (fun sg => fed sg = false) (segments f)) as Hin by by apply list_elem_of_filter.
  destruct (filter _ _); [by apply not_elem_of_nil in Hin|done].
Qed.

Definition upd_segs (i : nat) (g : segment -> segment) (segs : list segment) : list segment :=
  (fun sg => if decide (id sg = i) then g sg else sg) <$> segs.

Lemma upd_segs_ids i g segs : (forall p, id (g p) = id p) -> id <$> upd_segs i g segs = id <$> segs.
Proof.
  intros Hg. unfold upd_segs. rewrite <- list_fmap_compose. apply list_fmap_ext. intros j p _. cbn.
  by destruct (decide (id p = i)).
Qed.

Lemma in_upd_segs i g segs q : q ∈ upd_segs i g segs ->
  exists p, p ∈ segs /\ ((id p = i /\ q = g p) \/ (id p <> i /\ q = p)).
Proof.
  intros (p & -> & Hp)%list_elem_of_fmap. exists p. split; [done|]. destruct (decide (id p = i)); tauto.
Qed.

Lemma upd_segs_in i g segs p : p ∈ segs -> (if decide (id p = i) then g p else p) ∈ upd_segs i g segs.
Proof. intros Hp. apply list_elem_of_fmap. by exists p. Qed.

Lemma seg_front_mono fr fr' p : (forall i, get fr i <= get fr' i) -> seg_front fr p -> seg_front fr' p.
Proof. intros Hle (H1 & H2 & H3). pose proof (Hle (id p)). unfold seg_front. repeat split; try lia. intros Hx. specialize (H3 Hx). lia. Qed.

(** One segment updated in place. *)
Lemma inv_upd_segment y i g gn fr : inv y -> gated (fl y) = true ->
  (forall j, get (front y) j <= get fr j) -> gone y ⊆ gn -> (forall p, id (g p) = id p) ->
  (forall p, p ∈ segments (fl y) -> id p = i ->
     seg_front fr (g p) /\ (fed p = true -> fed (g p) = true) /\ fedTo p <= fedTo (g p) /\
     (i ∈ gn \/ forall l, 0 <= ln_start l < ln_end l -> owed_in [p] l -> owed_in [g p] l)) ->
  inv (mkSys (upd_segment i g (fl y)) (batch y) (delivered y) (log y) gn fr (ahead y)).
Proof.
  intros Hinv Hga Hfr Hgn Hg Hup. pose proof (v_shape _ Hinv) as Hsh.
  assert (upd_segment i g (fl y) = set_segments (upd_segs i g (segments (fl y))) (set_segmentsFed false (fl y))) as ->.
  { unfold upd_segment. fold (upd_segs i g (segments (fl y))). unfold gated in Hga. apply andb_true_iff in Hga as [_ Hga].
    apply negb_true_iff in Hga. destruct (fl y); cbn in *. by subst. }
  apply inv_segments; try done.
  - by rewrite upd_segs_ids.
  - intros q (p & Hp & [[Hi ->]|[_ ->]])%in_upd_segs; [by apply Hup|].
    eapply seg_front_mono; [exact Hfr|]. by apply (ff_segs _ _ (v_front _ Hinv)).
  - intros q (p & Hp & [[Hi ->]|[_ ->]])%in_upd_segs Hq; [|exists p; split; [done|]; split; [done|]; split; [done|lia]].
    destruct (Hup p Hp Hi) as (_ & Hx & Hle & _). exists p. split; [done|]. split; [by rewrite Hg|]. split; [|done].
    destruct (fed p); [by rewrite Hx in Hq|done].
  - intros l Hr (p & Hp & Hi & Ho). destruct (decide (id p = i)) as [Hpi|Hpi].
    + destruct (Hup p Hp Hpi) as (_ & _ & _ & [Hgo|How]); [left; by rewrite <- Hi, Hpi|right].
      destruct (How l Hr) as (q & ->%list_elem_of_singleton & Hq); [by exists p; split; [apply list_elem_of_singleton|]|].
      exists (g p). split; [|done]. pose proof (upd_segs_in i g _ p Hp) as H. by rewrite decide_True in H.
    + right. exists p. split; [|done]. pose proof (upd_segs_in i g _ p Hp) as H. by rewrite decide_False in H.
Qed.

Lemma inv_retire y i gn fr : inv y -> gated (fl y) = true ->
  (forall j, get (front y) j <= get fr j) -> gone y ⊆ gn ->
  (forall p, p ∈ segments (fl y) -> id p = i ->
     i ∈ gn \/ forall l, 0 <= ln_start l < ln_end l -> ~ owed_in [p] l) ->
  inv (mkSys (retire i (fl y)) (batch y) (delivered y) (log y) gn fr (ahead y)).
Proof.
  intros Hinv Hga Hfr Hgn Hup. pose proof (v_shape _ Hinv) as Hsh.
  assert (retire i (fl y) = set_segments (filter (fun sg => id sg <> i) (segments (fl y))) (set_segmentsFed false (fl y))) as ->.
  { unfold retire. unfold gated in Hga. apply andb_true_iff in Hga as [_ Hga].
    apply negb_true_iff in Hga. destruct (fl y); cbn in *. by subst. }
  apply inv_segments; try done.
  - apply fmap_sublist. apply sublist_filter.
  - intros q [_ Hq]%list_elem_of_filter. eapply seg_front_mono; [exact Hfr|]. by apply (ff_segs _ _ (v_front _ Hinv)).
  - intros q [_ Hq]%list_elem_of_filter Hf. exists q. done.
  - intros l Hr (p & Hp & Hi & Ho). destruct (decide (id p = i)) as [Hpi|Hpi].
    + destruct (Hup p Hp Hpi) as [Hgo|Hno]; [left; by rewrite <- Hi, Hpi|]. exfalso. apply (Hno l Hr).
      exists p. split; [by apply list_elem_of_singleton|done].
    + right. exists p. split; [by apply list_elem_of_filter|done].
Qed.

Lemma owed_in_same p q l : id q = id p -> segCommitted q = segCommitted p -> to q = to p -> fedTo q = fedTo p ->
  owed_in [p] l -> owed_in [q] l.
Proof.
  intros E1 E2 E3 E4 (q' & ->%list_elem_of_singleton & H). exists q. rewrite E1, E2, E3, E4.
  split; [by apply list_elem_of_singleton|exact H].
Qed.

Lemma inv_skip y p cur mid : inv y -> gated (fl y) = true -> replay_from p <= cur ->
  inv (reach_front (id p) cur (put (replay_skip (id p) cur mid (fl y)) y)).
Proof.
  intros Hinv Hga Hle. apply (inv_upd_segment y); try done; [intros j; apply get_raise|].
  intros q Hq Hi. split; [|split; [done|split; [cbn; lia|right; intros l _; apply owed_in_same; done]]].
  apply (seg_front_mono (front y)); [intros j; apply get_raise|]. exact (ff_segs _ _ (v_front _ Hinv) q Hq).
Qed.

Lemma inv_give_up y p : inv y -> gated (fl y) = true -> inv (lose (id p) (put (retire (id p) (fl y)) y)).
Proof.
  intros Hinv Hga. apply (inv_retire y); try done; [set_solver|]. intros q Hq Hi. left. set_solver.
Qed.

Lemma inv_replay_done y allDone : inv y -> gated (fl y) = true -> (allDone = true -> next_owed (fl y) = None) ->
  inv (put (replay_done allDone (fl y)) y).
Proof.
  intros Hinv Hga Hdone. unfold replay_done.
  assert (set_segmentsFed allDone (set_feeding 0 (fl y)) = set_segments (segments (fl y)) (set_segmentsFed allDone (fl y))) as ->.
  { destruct (sh_tail _ (v_shape _ Hinv)) as (_ & _ & E). destruct (fl y). cbn in *. by subst. }
  apply inv_segments; try done.
  - apply (ff_segs _ _ (v_front _ Hinv)).
  - intros Hd. apply next_owed_None. by apply Hdone.
  - intros q Hq Hf. by exists q.
  - intros l _ Ho. by right.
Qed.

Lemma inv_replay_finish y p (short : bool) : inv y -> gated (fl y) = true -> next_owed (fl y) = Some p ->
  (short = true -> 0 <= to p) ->
  inv (let y' := reach_front (id p) (if short then 0 else to p) (put (replay_finish (id p) short (fl y)) y) in
       if short then lose (id p) y' else y').
Proof.
  intros Hinv Hga Hnext Hs. pose proof (v_shape _ Hinv) as Hsh. destruct (next_owed_spec _ _ Hsh Hnext) as (Hp & Hpf & _).
  set (fr := raise (id p) (if short then 0 else to p) (front y)).
  set (gn := if short then {[id p]} ∪ gone y else gone y).
  assert (inv (mkSys (replay_finish (id p) short (fl y)) (batch y) (delivered y) (log y) gn fr (ahead y))) as Hg;
    [|unfold gn in Hg; by destruct short].
  assert (segmentByID (id p) (fl y) = Some p) as Hid by (apply segmentByID_eq; [apply sorted_NoDup, Hsh|done]).
  assert (forall q, q ∈ segments (fl y) -> id q = id p -> q = p) as Hu.
  { intros q Hq Hi. apply (id_unique (segments (fl y))); try done. apply sorted_NoDup, Hsh. }
  assert (forall j, get (front y) j <= get fr j) as Hfr by (intros j; apply get_raise).
  assert (gone y ⊆ gn) as Hgn by (unfold gn; destruct short; set_solver).
  destruct (ff_segs _ _ (v_front _ Hinv) p Hp) as (S1 & S2 & S3). pose proof (Hfr (id p)) as Hfp.
  unfold replay_finish. rewrite Hid. cbv zeta.
  assert (forall v, v = segCommitted p `max` fedTo p -> (to p < 0 \/ short = true) -> segCommitted p < v ->
    inv (mkSys (upd_segment (id p) (fun p => sg_fed true (sg_to v p)) (fl y)) (batch y) (delivered y) (log y) gn fr (ahead y))) as Hpin.
  { intros v Hv Hor Hlt. apply inv_upd_segment; try done. intros q Hq Hi. rewrite (Hu q Hq Hi). split; [|split; [done|split; [done|]]].
    - unfold seg_front. cbn. repeat split; lia.
    - destruct short; [left; unfold gn; set_solver|right]. destruct Hor as [Hto|]; [|done].
      intros l Hr (q' & ->%list_elem_of_singleton & E1 & E2 & E3 & E4). specialize (E4 Hto).
      eexists. split; [by apply list_elem_of_singleton|]. cbn. repeat split; try done; lia. }
  assert ((to p < 0 \/ short = true) -> ~ segCommitted p < segCommitted p `max` fedTo p ->
    inv (mkSys (retire (id p) (fl y)) (batch y) (delivered y) (log y) gn fr (ahead y))) as Hret.
  { intros Hor Hge. apply inv_retire; try done. intros q Hq Hi. rewrite (Hu q Hq Hi).
    destruct short; [left; unfold gn; set_solver|right]. destruct Hor as [Hto|]; [|done].
    intros l Hr (q' & ->%list_elem_of_singleton & E1 & E2 & E3 & E4). specialize (E4 Hto). lia. }
  destruct (decide (to p < 0)) as [Hto|Hto]; [destruct (decide _) as [Hlt|Hge]; [apply Hpin|apply Hret]; auto|].
  destruct short; [destruct (decide _) as [Hlt|Hge]; [apply Hpin|apply Hret]; auto|].
  apply inv_upd_segment; try done. intros q Hq Hi. rewrite (Hu q Hq Hi). split; [|split; [done|split; [cbn; lia|right; intros l _; apply owed_in_same; done]]].
  unfold seg_front. cbn. pose proof (get_raise_eq (id p) (to p) (front y)) as Hr. fold fr in Hr. repeat split; lia.
Qed.

Lemma with_stream_upd k g i h f : (forall st, key (g st) = key st) ->
  upd_segment i h (set_feeding 0 (with_stream k g (set_feeding i f))) =
  with_stream k g (upd_segment i h (set_feeding 0 f)).
Proof.
  intros Hg. unfold with_stream, state. cbn. by destruct (find_stream k (streams f)).
Qed.

Lemma inv_replay_line cfg criParse y p raw s e f en : inv y -> gated (fl y) = true -> ahead y = false -> next_owed (fl y) = Some p ->
  replay_from p <= s -> s < e -> (0 <= to p -> e <= to p) ->
  replay_line cfg (id p) (criParse raw) raw s e (fl y) = (f, en) ->
  inv (reach_front (id p) e (fed_line (mkLine (line_key criParse (fl y) raw) (id p) s e) (add en (put f y)))).
Proof.
  intros Hinv Hga Hah Hnext Hfrom Hse Hto Hrep. pose proof (v_shape _ Hinv) as Hsh.
  destruct (next_owed_spec _ _ Hsh Hnext) as (Hp & Hpf & Hfirst). unfold replay_from in Hfrom.
  pose proof (sh_below _ Hsh p Hp) as Hid. pose proof (sh_tail _ Hsh) as (_ & _ & Hfeed).
  set (fr := raise (id p) e (front y)). set (fm := upd_segment (id p) (sg_fedTo e) (fl y)).
  assert (inv (mkSys fm (batch y) (delivered y) (log y) (gone y) fr (ahead y))) as Hmid.
  { apply inv_upd_segment; try done; [intros j; apply get_raise|]. intros q Hq Hi.
    assert (q = p) as -> by (apply (id_unique (segments (fl y))); [apply sorted_NoDup, Hsh|done..]).
    pose proof (ff_segs _ _ (v_front _ Hinv) p Hp) as (S1 & S2 & S3).
    pose proof (get_raise (id p) e (front y) (id p)) as R1. pose proof (get_raise_eq (id p) e (front y)) as R2.
    fold fr in R1, R2. split; [unfold seg_front; cbn; repeat split; try lia; congruence|]. split; [done|]. split; [cbn; lia|].
    right. intros l Hr (q' & ->%list_elem_of_singleton & E1 & E2 & E3 & E4).
    eexists. split; [by apply list_elem_of_singleton|]. cbn. repeat split; try done. lia. }
  unfold replay_line in Hrep. destruct (feedLine cfg (criParse raw) raw s e (set_feeding (id p) (fl y))) as [f1 en1] eqn:Ef.
  injection Hrep as <- <-. apply feedLine_eq in Ef as [-> Hen]. cbn in Hen.
  assert (curSeg (set_feeding (id p) (fl y)) = id p) as Ecs.
  { unfold curSeg. cbn. by rewrite decide_False by lia. }
  rewrite Ecs in *. cbn [containerd multiline set_feeding].
  change (feed_stream (set_feeding (id p) (fl y)) (criParse raw)) with (feed_stream (fl y) (criParse raw)).
  rewrite with_stream_upd.
  2:{ intros st. unfold feed_g, cri_feed_g, plain_feed_g. destruct (containerd (fl y)), (multiline (fl y)), st; cbn; try done;
      by destruct hasRun. }
  assert (set_feeding 0 (fl y) = fl y) as E0 by (destruct (fl y); cbn in *; by subst). rewrite E0. fold fm.
  assert (gated fm = true) as Hgm.
  { unfold gated in *. cbn. apply andb_true_iff in Hga as [H1 H2]. rewrite H2, andb_true_r.
    apply negb_true_iff. apply bool_decide_eq_false. intros E. apply fmap_nil_inv in E. rewrite E in Hp. by apply not_elem_of_nil in Hp. }
  assert (forall q, q ∈ segments fm -> fed q = false -> q = sg_fedTo e p \/ (q ∈ segments (fl y) /\ (id p < id q)%nat)) as Hq.
  { intros q (p' & Hp' & [[Hi ->]|[Hi ->]])%in_upd_segs Hqf.
    - left. f_equal. apply (id_unique (segments (fl y))); [apply sorted_NoDup, Hsh|done..].
    - right. split; [done|]. destruct (Hfirst p' Hp' Hqf) as [->|?]; [done|done]. }
  refine (inv_update _ _ _ _ _ Hmid (good_feed cfg (mkSys fm _ _ _ _ fr _) (criParse raw) raw s e (id p) _ Hmid _ _ _ _ _ _ Hen _ _)); cbn [fl front].
  - intros st Hst. eapply ple_trans; [by apply (v_gated _ Hinv Hga Hah st p)|]. right. cbn. split; [done|lia].
  - lia.
  - pose proof (ff_segs _ _ (v_front _ Hinv) p Hp) as (S1 & S2 & S3). lia.
  - left. cbn. lia.
  - cbn. lia.
  - apply get_raise_eq.
  - intros _ _ q Hin Hqf. destruct (Hq q Hin Hqf) as [->|[_ ?]]; [right; cbn; split; [done|lia]|left; cbn; lia].
  - right. exists (sg_fedTo e p). split; [|cbn; repeat split; try done; lia].
    pose proof (upd_segs_in (id p) (sg_fedTo e) _ p Hp) as H. by rewrite decide_True in H.
Qed.

(** *** Restart *)

Record booting (f : file) : Prop := {
  bt_streams : forall st, st ∈ streams f -> st = newStream (key st);
  bt_keys : NoDup (key <$> streams f);
  bt_ids : StronglySorted lt (id <$> segments f);
  bt_segs : forall p, p ∈ segments f -> (0 < id p <= segSeq f)%nat /\ 0 <= segCommitted p /\ fed p = false /\ fedTo p = 0;
  bt_flags : segmentsFed f = false /\ feeding f = 0%nat /\ exportedHighs f = ∅ /\ 0 <= committed f }.

Lemma booting_add from t f : booting f -> 0 <= from -> booting (add_segment from t f).
Proof.
  intros [B1 B2 B3 B4 B5] Hfr. split; try done; cbn.
  - rewrite fmap_app. apply StronglySorted_app. split; [|split; [done|cbn; by repeat constructor]].
    intros a b Ha ->%list_elem_of_singleton. apply list_elem_of_fmap in Ha as (p & -> & Hp).
    destruct (B4 p Hp) as (? & _). cbn. lia.
  - intros p [Hp| ->%list_elem_of_singleton]%elem_of_app.
    + destruct (B4 p Hp) as (? & ?). split; [lia|done].
    + cbn. split; [lia|done].
Qed.

Definition cp_ok (cp : checkpoint) : Prop := 0 <= cp_offset cp /\ Forall (fun pp => 0 <= pp.1) (cp_pending cp).

Lemma booting_init cp isCri ml cid :
  cp_ok cp -> booting (foldl (fun f pp => add_segment pp.1 pp.2 f) (set_committed (cp_offset cp) (freshFile isCri ml cid)) (cp_pending cp)).
Proof.
  intros [Ho Hp]. assert (booting (set_committed (cp_offset cp) (freshFile isCri ml cid))) as H0.
  { set (f0 := purgeSegmentFeeds (mkFile isCri ml cid 0 0 0 0 [] [] 0 0 [] false 0 0 false 0 ∅ ∅ false)).
    assert (freshFile isCri ml cid = rebuildPipeline (newTail f0)) as -> by done.
    destruct (rebuild_spec (newTail f0)) as (R1 & R2 & R3); [cbn; lia|]. rewrite R3.
    split; cbn; [exact R1|exact R2|constructor| |done]. intros p Hx. by apply not_elem_of_nil in Hx. }
  revert H0 Hp. generalize (set_committed (cp_offset cp) (freshFile isCri ml cid)). induction (cp_pending cp) as [|pp l IH];
    intros f Hf Hall; [exact Hf|]. apply Forall_cons in Hall as [Hpp Hall]. cbn. apply IH; [by apply booting_add|done].
Qed.

Lemma get_foldr_raise segs m i : get m i <= get (foldr (fun sg m => raise (id sg) (segCommitted sg) m) m segs) i /\
  forall p, p ∈ segs -> segCommitted p <= get (foldr (fun sg m => raise (id sg) (segCommitted sg) m) m segs) (id p).
Proof.
  induction segs as [|a l [IH1 IH2]]; [split; [done|]; intros p Hp; by apply not_elem_of_nil in Hp|]. cbn.
  set (r := foldr _ m l) in *. pose proof (get_raise (id a) (segCommitted a) r) as Hr. split; [specialize (Hr i); lia|].
  intros p [->|Hp]%elem_of_cons; [apply get_raise_eq|]. specialize (IH2 p Hp). specialize (Hr (id p)). lia.
Qed.

Lemma inv_start isCri ml cid cp rotated : cp_ok cp -> inv (start isCri ml cid cp rotated).
Proof.
  intros Hcp. pose proof (booting_init cp isCri ml cid Hcp) as Hb. unfold start, initFile.
  set (f1 := foldl _ _ _) in *.
  assert (booting (if rotated then set_committed 0 (add_segment (committed f1) (-1) f1) else f1)) as Hb2.
  { destruct rotated; [|done]. destruct (booting_add (committed f1) (-1) f1 Hb) as [B1 B2 B3 B4 B5]; [apply Hb|].
    split; [exact B1|exact B2|exact B3|exact B4|]. destruct B5 as (? & ? & ? & _). by repeat split. }
  revert Hb2. generalize (if rotated then set_committed 0 (add_segment (committed f1) (-1) f1) else f1).
  clear. intros f [B1 B2 B3 B4 (B5 & B6 & B7 & B8)]. cbv zeta. cbn [committed newTail set_tail set_segSeq].
  set (f' := restartAt (committed f) (newTail f)). change (committed f') with (committed f).
  change (tail f') with (S (segSeq f)). change (segments f') with (segments f).
  set (fr := foldr _ _ _). set (m := {[S (segSeq f) := committed f]} : gmap nat Z) in *.
  assert (forall i, get m i <= get fr i) as Hm by (intros i; apply get_foldr_raise).
  assert (forall p, p ∈ segments f -> segCommitted p <= get fr (id p)) as Hs by (apply get_foldr_raise; exact 0%nat).
  assert (forall i, 0 <= get m i) as Hm0.
  { intros i. unfold get, m. destruct (decide (S (segSeq f) = i)) as [<-|Hne]; [by rewrite lookup_singleton_eq|].
    by rewrite lookup_singleton_ne. }
  assert (forall i, 0 <= get fr i) as H0 by (intros i; specialize (Hm i); specialize (Hm0 i); lia).
  assert (get m (S (segSeq f)) = committed f) as Hmt by (unfold get, m; by rewrite lookup_singleton_eq).
  assert (forall st, st ∈ streams f' -> stream_ok (lim f') st /\ stream_front fr st /\ hasRun st = false /\ lastEnd st = pos0) as Hst.
  { intros st Hin. apply fresh_stream_ok; [by apply B1|cbn; lia|done]. }
  split; cbn [fl batch delivered log gone front].
  - split; try done; try (intros; by apply Hst).
    + intros p Hp. destruct (B4 p Hp) as ([? ?] & _). cbn. lia.
    + split; [done|]. split; [cbn; lia|done].
    + cbn. rewrite B5. done.
  - intros l Hl. by apply not_elem_of_nil in Hl.
  - split; try done; try (intros; by apply Hst).
    + cbn. specialize (Hm (S (segSeq f))). lia.
    + intros p Hp. destruct (B4 p Hp) as (? & ? & Hf & Hft). unfold seg_front. rewrite Hft, Hf. split; [|split; [apply H0|done]].
      split; [done|by apply Hs].
    + cbn. rewrite B7. done.
  - intros e He. by apply not_elem_of_nil in He.
  - intros _ _ st p Hin Hp _. destruct (Hst st Hin) as (_ & _ & _ & ->). left. cbn. by destruct (B4 p Hp) as ([? ?] & _).
Qed.
