(* ===== verification/TailerSafe.v ===== *)
(** * What the tailer guarantees

    The properties of the ledger: no fed line is skipped by a checkpoint, a
    failed export reads everything undelivered again, an exported position is
    never forgotten and catches up once nothing is buffered below it, and the
    commit frontiers only move forward, never past what was consumed. *)

From S2P Require Import Prelude Tailer TailerLedger TailerSteps.
Local Open Scope Z_scope.

Section Reachable.
Context (cfg : config) (criParse : list Z -> cri_line).

Lemma inv_step y y' : inv y -> step cfg criParse y y' -> inv y'.
Proof.
  intros Hinv Hstep. destruct Hstep as [y chunk|y Hg Hb Hfs|y d a f v Hg Hc _|y d a f raw s e f' en Hg Hc Hf|y|y y' He|y Hne|y Hne
    |y y1 r d Hor|y p raw s e f en Hg Ha Hn Hfr Hse Hto Hr|y p cur mid Hg Ha Hn Hle|y p short Hg Ha Hn Hs|y all Hg Ha Hd|y p Hg Ha Hp].
  - apply (inv_core y); try done; try apply Hinv; lia.
  - by apply inv_ahead.
  - destruct (consume1_core _ _ _ _ _ _ Hc) as (Hcore & Hls & Hsk & _). pose proof (v_front _ Hinv) as Hf.
    destruct (core_fields _ _ Hcore) as (_&_&_&_&E5&_). apply (inv_core y); try done; [by apply Hsk, Hf|intros i; apply get_raise|].
    rewrite <- E5. apply get_raise_eq.
  - by eapply inv_feed.
  - by apply inv_absorb.
  - by eapply inv_emits.
  - assert (flush true (batch y) (fl y) = advanceBatch (cands (fl y) (batch y)) (highs (fl y) (batch y)) (fl y)) as ->
      by (unfold flush; by destruct (batch y)). by apply inv_accept.
  - assert (flush false (batch y) (fl y) = rewind (fl y)) as -> by (unfold flush; by destruct (batch y)). by apply inv_fail.
  - by apply inv_reopen.
  - by eapply inv_replay_line.
  - by apply inv_skip.
  - by apply inv_replay_finish.
  - by apply inv_replay_done.
  - by apply inv_give_up.
Qed.

Definition reachable (y : sys) : Prop :=
  exists isCri ml cid cp rotated, cp_ok cp /\ star (step cfg criParse) (start isCri ml cid cp rotated) y.

Lemma reachable_inv y : reachable y -> inv y.
Proof.
  intros (isCri & ml & cid & cp & rotated & Hcp & Hs). apply (star_inv _ inv) in Hs; [done| |by apply inv_start].
  intros a b. apply inv_step.
Qed.

(** *** Restarts *)

(** The file as [initFile] makes it from what is stored of [f]; [rotated]: its
    path names another incarnation by then. *)
Definition restarted (rotated : bool) (f : file) : file := initFile (checkpointOf f) rotated (freshFile (containerd f) (multiline f) (containerID f)).

(** The incarnations of a file, oldest first. *)
Definition incarnations (f : file) : list nat := (id <$> segments f) ++ [tail f].

(** The restarted file reads the line again: its incarnation, found at the same
    place, is a segment replayed over a range that takes the line in, before
    the tail is read; or is the tail, read from no later than the line. *)
Definition rereads (rotated : bool) (f : file) (l : fline) : Prop :=
  let g := restarted rotated f in
  exists k, incarnations f !! k = Some (ln_seg l) /\
    ((exists q, segments g !! k = Some q /\ incarnations g !! k = Some (id q) /\ gated g = true /\ fed q = false /\ segDiscarding q = false /\
        replay_from q <= ln_start l /\ (0 <= to q -> ln_end l <= to q)) \/
     (rotated = false /\ incarnations g !! k = Some (tail g) /\ readPos g = committed g /\ lineStart g = readPos g /\ pending g = [] /\ discarding g = false /\
        readPos g <= ln_start l)).

Lemma add_segments_spec l : forall f, let g := foldl (fun f pp => add_segment pp.1 pp.2 f) f l in
  segments g = segments f ++ imap (fun i pp => mkSegment (S (segSeq f + i)) false pp.1 pp.2 0 0 false) l /\
  committed g = committed f /\ segmentsFed g = segmentsFed f.
Proof.
  induction l as [|pp l IH]; intros f; cbn; [by rewrite app_nil_r|]. destruct (IH (add_segment pp.1 pp.2 f)) as (E1 & E2 & E3). cbn in E1, E2, E3.
  rewrite E1, E2, E3. split; [|done]. rewrite <- app_assoc. cbn. rewrite Nat.add_0_r. do 2 f_equal. apply imap_ext. intros i x _. cbn. f_equal. lia.
Qed.

Lemma fresh_blank isCri ml cid : segments (freshFile isCri ml cid) = [] /\ segmentsFed (freshFile isCri ml cid) = false.
Proof.
  set (f0 := purgeSegmentFeeds (mkFile isCri ml cid 0 0 0 0 [] [] 0 0 [] false 0 0 false 0 ∅ ∅ false)).
  assert (freshFile isCri ml cid = rebuildPipeline (newTail f0)) as -> by done. destruct (rebuild_spec (newTail f0)) as (_ & _ & ->); [cbn; lia|]. done.
Qed.

(** What [initFile] makes: the owed ranges in order, and the tail's offset. *)
Lemma init_spec rotated f h : segments h = [] -> segmentsFed h = false -> let g := initFile (checkpointOf f) rotated h in exists id_of,
  segments g = imap (fun i p => mkSegment (id_of i) false (segCommitted p) (to p) 0 0 false) (segments f) ++
    (if rotated then [mkSegment (id_of (length (segments f))) false (committed f) (-1) 0 0 false] else []) /\
  committed g = (if rotated then 0 else committed f) /\ readPos g = committed g /\ lineStart g = readPos g /\ pending g = [] /\ discarding g = false /\ segmentsFed g = false.
Proof.
  intros B1 B2. unfold initFile, checkpointOf. cbn [cp_offset cp_pending]. remember (set_committed (committed f) h) as f0 eqn:Ef0.
  assert (segments f0 = [] /\ segmentsFed f0 = false /\ committed f0 = committed f) as (C1 & C2 & C3) by (by subst f0). clear Ef0 B1 B2 h.
  destruct (add_segments_spec ((fun sg => (segCommitted sg, to sg)) <$> segments f) f0) as (E1 & E2 & E3). rewrite C1 in E1. rewrite C2 in E3. rewrite C3 in E2. cbn [app] in E1.
  remember (foldl _ f0 _) as f1 eqn:Ef1. clear Ef1. rewrite imap_fmap in E1. exists (fun i => if decide (i = length (segments f)) then S (segSeq f1) else S (segSeq f0 + i)).
  assert (E5 : segments f1 = imap (fun i p => mkSegment (if decide (i = length (segments f)) then S (segSeq f1) else S (segSeq f0 + i)) false (segCommitted p) (to p) 0 0 false) (segments f)).
  { rewrite E1. apply imap_ext. intros i p Hp. cbn. apply lookup_lt_Some in Hp. by rewrite decide_False by lia. }
  clear E1. rewrite decide_True by done. destruct rotated; cbn; rewrite ?E3, ?E2, ?E5, ?app_nil_r; by split_and!.
Qed.

Lemma restarted_spec rotated f : let g := restarted rotated f in exists id_of,
  segments g = imap (fun i p => mkSegment (id_of i) false (segCommitted p) (to p) 0 0 false) (segments f) ++
    (if rotated then [mkSegment (id_of (length (segments f))) false (committed f) (-1) 0 0 false] else []) /\
  committed g = (if rotated then 0 else committed f) /\ readPos g = committed g /\ lineStart g = readPos g /\ pending g = [] /\ discarding g = false /\ segmentsFed g = false.
Proof. destruct (fresh_blank (containerd f) (multiline f) (containerID f)) as [B1 B2]. exact (init_spec rotated f _ B1 B2). Qed.

Lemma owed_rereads rotated y l : inv y -> owed y l -> ln_seg l ∈ gone y \/ rereads rotated (fl y) l.
Proof.
  intros Hinv [?|Ho]; [by left|right]. unfold rereads. destruct (restarted_spec rotated (fl y)) as (id_of & Es & Ec & Er & El & Ep & Ed & Ef). set (g := restarted rotated (fl y)) in *.
  set (segs := imap (fun i p => mkSegment (id_of i) false (segCommitted p) (to p) 0 0 false) (segments (fl y))) in *.
  assert (Hlen : length segs = length (segments (fl y))) by apply length_imap.
  assert (Hseg : forall k q, segments g !! k = Some q -> incarnations g !! k = Some (id q) /\ gated g = true).
  { intros k q Hq. split.
    - unfold incarnations. rewrite lookup_app_l; [by rewrite list_lookup_fmap, Hq|]. rewrite length_fmap. by apply lookup_lt_Some in Hq.
    - unfold gated. rewrite Ef, andb_true_r. apply negb_true_iff, bool_decide_eq_false. intros E. by rewrite E in Hq. }
  destruct Ho as [(Hs & Hc & _)|(p & Hp & Hi & Hc & Hto & _)].
  - exists (length (segments (fl y))). split; [unfold incarnations; rewrite lookup_app_r by (rewrite length_fmap; lia); rewrite length_fmap, Nat.sub_diag, Hs; done|]. destruct rotated; [left|right].
    + eexists. split; [rewrite Es, lookup_app_r by lia; rewrite Hlen, Nat.sub_diag; reflexivity|]. cbn [id]. destruct (Hseg (length (segments (fl y))) (mkSegment (id_of (length (segments (fl y)))) false (committed (fl y)) (-1) 0 0 false)) as [A B].
      { rewrite Es, lookup_app_r by lia. by rewrite Hlen, Nat.sub_diag. }
      split_and!; try done. unfold replay_from. cbn. pose proof (ff_tail _ _ (v_front _ Hinv)). lia.
    + split; [done|]. split; [unfold incarnations; rewrite lookup_app_r; rewrite length_fmap, Es, app_nil_r, Hlen; [by rewrite Nat.sub_diag|lia]|]. split_and!; try done. rewrite Er, Ec. done.
  - apply list_elem_of_lookup in Hp as [k Hk]. exists k. split; [unfold incarnations; rewrite lookup_app_l; [by rewrite list_lookup_fmap, Hk, <- Hi|]; rewrite length_fmap; by apply lookup_lt_Some in Hk|]. left.
    assert (Hq : segments g !! k = Some (mkSegment (id_of k) false (segCommitted p) (to p) 0 0 false)).
    { rewrite Es. rewrite lookup_app_l by (rewrite Hlen; by apply lookup_lt_Some in Hk). unfold segs. by rewrite list_lookup_imap, Hk. }
    eexists. split; [exact Hq|]. destruct (Hseg _ _ Hq) as [A B]. split_and!; try done. unfold replay_from. cbn.
    destruct (ff_segs _ _ (v_front _ Hinv) p) as ([? _] & _); [by eapply list_elem_of_lookup_2|]. lia.
Qed.

(** *** Commit frontiers *)

Definition frontier (f : file) (i : nat) (a : Z) : Prop :=
  (i = tail f /\ a = committed f) \/ exists p, p ∈ segments f /\ id p = i /\ a = segCommitted p.

Lemma committedIn_frontier f i a : shape f -> committedIn f i = Some a <-> frontier f i a.
Proof.
  intros Hsh. unfold committedIn, frontier. case_decide as Hi.
  - split; [intros [= <-]; by left|]. intros [[_ ->]|(p & Hp & Hpi & _)]; [done|].
    pose proof (sh_below _ Hsh p Hp). lia.
  - split.
    + intros (p & Hp & ->)%fmap_Some. apply segmentByID_Some in Hp as [? ?]. right. by exists p.
    + intros [[? _]|(p & Hp & <- & ->)]; [done|]. rewrite segmentByID_eq; [done|apply sorted_NoDup, Hsh|done].
Qed.

(** A step whose frontiers either come from the old ones, not lowered, or
    belong to a new incarnation. *)
Definition raises (f f' : file) : Prop :=
  forall i b, frontier f' i b -> (exists a, frontier f i a /\ a <= b) \/ (tail f < i)%nat.

Lemma raises_mono f f' i a b : shape f -> shape f' -> raises f f' ->
  committedIn f i = Some a -> committedIn f' i = Some b -> a <= b.
Proof.
  intros Hs Hs' Hr Ha Hb. apply committedIn_frontier in Hb; [|done].
  destruct (Hr i b Hb) as [(a' & Ha' & Hle)|Hlt].
  - apply committedIn_frontier in Ha'; [|done]. rewrite Ha in Ha'. by injection Ha' as ->.
  - apply committedIn_frontier in Ha; [|done]. destruct Ha as [[-> _]|(p & Hp & <- & _)]; [lia|].
    pose proof (sh_below _ Hs p Hp). lia.
Qed.

Lemma raises_refl f f' : tail f' = tail f -> committed f <= committed f' ->
  (forall q, q ∈ segments f' -> exists p, p ∈ segments f /\ id p = id q /\ segCommitted p <= segCommitted q) -> raises f f'.
Proof.
  intros Et Ec Hs i b [[-> ->]|(q & Hq & <- & ->)]; left.
  - exists (committed f). split; [left; by rewrite Et|done].
  - destruct (Hs q Hq) as (p & Hp & Hi & Hle). exists (segCommitted p). split; [right; by exists p|done].
Qed.

Lemma raises_same f f' : tail f' = tail f -> committed f' = committed f -> segments f' = segments f -> raises f f'.
Proof. intros Et Ec Es. apply raises_refl; [done|lia|]. rewrite Es. intros q Hq. by exists q. Qed.

Lemma absorb_raises f : tail (absorbSkipped f) = tail f /\ committed f <= committed (absorbSkipped f) /\
  segments (absorbSkipped f) = segments f.
Proof.
  unfold absorbSkipped. destruct (bool_decide (committed f < skipEnd f)) eqn:E; cbn; [|done].
  apply bool_decide_eq_true in E. destruct (bool_decide _); cbn; repeat split; lia.
Qed.

Lemma accept_raises y : inv y -> raises (fl y)
  (advanceBatch (cands (fl y) (batch y)) (highs (fl y) (batch y)) (fl y)).
Proof.
  intros Hinv. pose proof (v_shape _ Hinv) as Hsh. unfold advanceBatch.
  rewrite advance_fold; [|apply sorted_NoDup, Hsh|intros p Hp; pose proof (sh_below _ Hsh p Hp); lia].
  match goal with |- raises _ (absorbSkipped ?g) => destruct (absorb_raises g) as (E1 & E2 & E3); set (g0 := g) in * end.
  apply raises_refl; [by rewrite E1|etrans; [|exact E2]; cbn; unfold adv_tail; destruct (_ !! _); lia|].
  rewrite E3. cbn. intros q (p & Hp & E)%list_elem_of_omap. exists p. split; [done|].
  apply adv_seg_id in E as (-> & _ & _ & _ & [->|[_ ?]]); split; try done; lia.
Qed.

Lemma replay_line_raises i l raw s e f f' en : replay_line cfg i l raw s e f = (f', en) -> raises f f'.
Proof.
  unfold replay_line. destruct (feedLine _ _ _ _ _ _) as [f1 e1] eqn:E. intros [= <- _].
  apply feedLine_eq in E as [-> _]. unfold with_stream. pose proof (state_spec (feed_stream (set_feeding i f) l) (set_feeding i f)) as Hs.
  destruct (state _ _) as [f0 st]. destruct Hs as (_ & _ & -> & _). apply raises_refl; [done|cbn; lia|].
  cbn. intros q (p & -> & Hp)%list_elem_of_fmap. exists p. split; [done|]. destruct (decide _); cbn; split; try done; lia.
Qed.

Lemma upd_raises i g f : (forall p, id (g p) = id p /\ segCommitted (g p) = segCommitted p) -> raises f (upd_segment i g f).
Proof.
  intros Hg. apply raises_refl; [done|cbn; lia|]. intros q (p & Hp & [[_ ->]|[_ ->]])%in_upd_segs; exists p;
    (split; [done|]); [destruct (Hg p) as [-> ->]|]; split; try done; lia.
Qed.

Lemma retire_raises i f : raises f (retire i f).
Proof. apply raises_refl; [done|cbn; lia|]. intros q [_ Hq]%list_elem_of_filter. exists q. split; [done|split; [done|lia]]. Qed.

Lemma emits_raises y y' : emits y y' -> raises (fl y) (fl y').
Proof. intros (E & _)%emits_still. apply still_fields in E as (_&?&_&?&?&_). by apply raises_same. Qed.

Lemma reopen_raises r d f0 f1 : shape f0 -> still f1 = still f0 -> raises f0 (reopen r d f0 f1).
Proof.
  intros Hsh Est. apply still_fields in Est as (_&_&E3&E4&_). pose proof (sh_tail _ Hsh) as (Ht1 & Ht2 & _).
  rewrite reopen_eq. set (f2 := if carry r d f0 then f1 else _).
  assert (segSeq f2 = segSeq f0) as E.
  { unfold f2. destruct (carry r d f0); [done|]. destruct (rebuild_spec f1) as (_ & _ & ->); [by rewrite E4|]. done. }
  intros i b [[-> _]|(q & Hq & <- & ->)]; [right; cbn; rewrite E; lia|left].
  cbn in Hq. unfold reopen_segs in Hq. apply elem_of_app in Hq as [Hq|Hq]; apply list_elem_of_fmap in Hq as (p & -> & Hp).
  - destruct (restore_fed_spec (wasFed r d f0) (prevFed f0) (aborted r d) true p) as (-> & -> & _).
    exists (segCommitted p). split; [right; by exists p|done].
  - destruct (restore_fed_spec (wasFed r d f0) (prevFed f0) (aborted r d) false p) as (-> & -> & _).
    exists (committed f0). unfold hop in Hp. destruct (aborted r d); [|destruct (r && _)]; cbn in Hp;
      try (by apply not_elem_of_nil in Hp); apply list_elem_of_singleton in Hp as ->; cbn; (split; [by left|lia]).
Qed.

Lemma step_raises y y' : inv y -> step cfg criParse y y' -> raises (fl y) (fl y').
Proof.
  intros Hinv Hstep. destruct Hstep as [y chunk|y Hg Hb Hfs|y d a f v Hg Hc _|y d a f raw s e f' en Hg Hc Hf|y|y y' He|y Hne|y Hne
    |y y1 r d Hor|y p raw s e f en Hg Ha Hn Hfr Hse Hto Hr|y p cur mid Hg Ha Hn Hle|y p short Hg Ha Hn Hs|y all Hg Ha Hd|y p Hg Ha Hp]; cbn [fl put lose reach_front fed_line add set_ahead].
  - by apply raises_same.
  - by apply raises_same.
  - destruct (consume1_core _ _ _ _ _ _ Hc) as (Hcore & _). apply core_fields in Hcore as (_&?&_&_&?&?&_). by apply raises_same.
  - destruct (consume1_core _ _ _ _ _ _ Hc) as (Hcore & _). apply core_fields in Hcore as (_&?&_&_&?&?&_).
    apply feedLine_eq in Hf as [-> _]. unfold with_stream. pose proof (state_spec (feed_stream f (criParse raw)) f) as Hs.
    destruct (state _ _) as [f0 st]. destruct Hs as (_ & _ & -> & _). by apply raises_same.
  - destruct (absorb_raises (fl y)) as (? & ? & E). apply raises_refl; try done. rewrite E. intros q Hq. by exists q.
  - by apply emits_raises.
  - assert (flush true (batch y) (fl y) = advanceBatch (cands (fl y) (batch y)) (highs (fl y) (batch y)) (fl y)) as ->
      by (unfold flush; by destruct (batch y)). by apply accept_raises.
  - assert (flush false (batch y) (fl y) = rewind (fl y)) as -> by (unfold flush; by destruct (batch y)).
    destruct (rewind_spec (fl y)) as (ss & _ & _ & ->); [apply Hinv|]. apply raises_refl; [done|cbn; lia|].
    cbn. intros q (p & -> & Hp)%list_elem_of_fmap. exists p. cbn. split; [done|split; [done|lia]].
  - assert (still (fl y1) = still (fl y)) as E.
    { destruct (carry r d (fl y)); [by subst|]. destruct Hor as [Hs _]. by apply star_emits_still in Hs as (_ & ? & _). }
    pose proof (reopen_raises r d (fl y) (fl y1) (v_shape _ Hinv) E). by destruct r.
  - by eapply replay_line_raises.
  - by apply upd_raises.
  - assert (raises (fl y) (replay_finish (id p) short (fl y))) as Hgoal; [|by destruct short].
    unfold replay_finish. destruct (segmentByID _ _) as [q|]; [|by apply raises_same]. cbv zeta.
    repeat (destruct (decide _)); try apply retire_raises; try (by apply upd_raises).
    + destruct short; [apply upd_raises|apply upd_raises]; done.
    + destruct short; [apply retire_raises|by apply upd_raises].
  - by apply raises_same.
  - apply retire_raises.
Qed.

(** Commit frontiers are sound.  In every reachable state no incarnation is
    committed past what was consumed of it, and no step lowers a frontier that
    is still tracked. *)
Theorem committed_sound y i a : reachable y -> committedIn (fl y) i = Some a ->
  0 <= a <= get (front y) i /\
  forall y' b, step cfg criParse y y' -> committedIn (fl y') i = Some b -> a <= b.
Proof.
  intros Hr Ha. pose proof (reachable_inv y Hr) as Hinv. pose proof (v_front _ Hinv) as Hf. split.
  - apply committedIn_frontier in Ha; [|apply Hinv]. destruct Ha as [[-> ->]|(p & Hp & <- & ->)].
    + pose proof (ff_tail _ _ Hf). lia.
    + by apply (ff_segs _ _ Hf).
  - intros y' b Hs Hb. pose proof (inv_step _ _ Hinv Hs) as Hinv'.
    eapply raises_mono; [apply Hinv|apply Hinv'|by eapply step_raises|exact Ha|exact Hb].
Qed.

(** C1: a stored position never skips a line.  In every reachable state each
    line fed since the last rewind, or delivered before it, was delivered, or
    its file was truncated or given up on, or it is still in the batch or a
    stage's buffer and a restart from the checkpoint reads it again: the file
    that [initFile] makes of the stored position replays the line's incarnation
    over a range that takes the line in, or reads the tail from no later than
    the line, also when the path names another file by then. *)
Theorem no_line_skipped y l : reachable y -> l ∈ log y ->
  covered (delivered y) l \/ ln_seg l ∈ gone y \/
  ((covered (batch y) l \/ buf (streams (fl y)) l) /\ forall rotated, rereads rotated (fl y) l).
Proof.
  intros Hr Hl. pose proof (reachable_inv y Hr) as Hinv. destruct (v_lines _ Hinv l Hl) as [_ [?|[Hb Ho]]]; [by left|right].
  destruct (decide (ln_seg l ∈ gone y)) as [?|Hn]; [by left|right]. split; [done|]. intros rotated. by destruct (owed_rereads rotated y l Hinv Ho).
Qed.

(** C13: a failed export loses nothing.  Right after the rewind every line that
    was fed and is not delivered, and whose file is still there, lies past the
    offset the live file is read from again, or within the range a rotated
    segment is replayed over before the live file is read on. *)
Theorem failed_flush_rereads y l : reachable y -> batch y <> [] -> l ∈ log y -> ~ covered (delivered y) l ->
  ln_seg l ∉ gone y ->
  let f := flush false (batch y) (fl y) in
  (ln_seg l = tail f /\ readPos f <= ln_start l /\ lineStart f = readPos f) \/
  exists p, p ∈ segments f /\ id p = ln_seg l /\ replay_from p <= ln_start l /\
    (0 <= to p -> ln_end l <= to p) /\ fed p = false /\ gated f = true.
Proof.
  intros Hr Hb Hl Hn Hg f. assert (f = rewind (fl y)) as E by (unfold f, flush; by destruct (batch y)).
  clearbody f. subst f.
  pose proof (reachable_inv y Hr) as Hinv. destruct (rewind_spec (fl y)) as (ss & _ & _ & ->); [apply Hinv|].
  destruct (v_lines _ Hinv l Hl) as [Hrange [?|[_ Ho]]]; [done|].
  destruct Ho as [?|[(Hs & Hc & _)|(p & Hp & Hi & Hc & Hto & _)]]; [done|left|right].
  - by split; [|split].
  - exists (sg_fed false (sg_fedTo 0 (sg_skipTo 0 (sg_segDiscarding false p)))).
    split; [cbn; apply list_elem_of_fmap; by exists p|]. split; [done|]. split; [unfold replay_from; cbn; lia|].
    split; [done|]. split; [done|]. unfold gated. cbn. rewrite andb_true_r. apply negb_true_iff, bool_decide_eq_false.
    intros E. apply fmap_nil_inv in E. rewrite E in Hp. by apply not_elem_of_nil in Hp.
Qed.

(** *** Exported positions *)

Lemma get_highs f b e : e ∈ b -> off (e_end e) <= get (highs f b) (seg (e_end e)).
Proof.
  intros He. unfold highs, reoffer.
  assert (forall m c i, get c i <= get (map_fold raise c m) i) as Hmono.
  { intros m c i. apply (map_fold_weak_ind (fun r _ => get c i <= get r i)); [lia|].
    intros j o m' r _ IH. pose proof (get_raise j o r i). lia. }
  etrans; [|apply Hmono]. clear Hmono.
  assert (forall c i e', get c i <= get (proposeCandidates f c e') i) as Hp.
  { intros c i e'. unfold proposeCandidates. etrans; [apply (get_raise (seg (e_end e')) (off (e_end e')))|].
    destruct (decide _); [lia|]. generalize (raise (seg (e_end e')) (off (e_end e')) c).
    induction (segments f) as [|p l IH]; intros c0; cbn; [lia|]. etrans; [|apply IH].
    destruct (_ && _); [apply get_raise|lia]. }
  assert (forall b c i, get c i <= get (foldl (proposeCandidates f) c b) i) as Hf.
  { induction b0 as [|x b0 IH]; intros c i; cbn; [lia|]. etrans; [|apply IH]. apply Hp. }
  generalize (∅ : gmap nat Z). induction b as [|x b IH]; intros c; [by apply not_elem_of_nil in He|].
  cbn. apply elem_of_cons in He as [<-|He]; [|by apply IH]. etrans; [|apply Hf]. unfold proposeCandidates.
  etrans; [apply (get_raise_eq (seg (e_end e)) (off (e_end e)) c)|].
  destruct (decide _); [lia|]. generalize (raise (seg (e_end e)) (off (e_end e)) c).
  induction (segments f) as [|p l IHl]; intros c0; cbn; [lia|]. etrans; [|apply IHl].
  destruct (_ && _); [apply get_raise|lia].
Qed.

Definition advanced (c : gmap nat Z) (f : file) : file :=
  set_segments (omap (adv_seg c) (segments f)) (set_committed (adv_tail c f) f).

Lemma advanced_shape c f : shape f -> NoDup (id <$> segments (advanced c f)) /\
  forall q, q ∈ segments (advanced c f) -> id q <> tail f.
Proof.
  intros Hsh. split.
  - eapply sublist_NoDup; [apply sorted_NoDup, (sh_ids _ Hsh)|]. apply omap_sublist_id.
    intros sg sg' E. by apply adv_seg_id in E as (? & _).
  - cbn. intros q (p & Hp & E)%list_elem_of_omap. apply adv_seg_id in E as (-> & _).
    pose proof (sh_below _ Hsh p Hp). lia.
Qed.

Lemma advanced_reaches c f i o a : shape f -> c !! i = Some o -> committedIn (advanced c f) i = Some a -> o <= a.
Proof.
  intros Hsh Hc. unfold committedIn. case_decide as Hi.
  - intros [= <-]. cbn in *. subst i. unfold adv_tail. rewrite Hc. lia.
  - intros (q & Hq & ->)%fmap_Some. apply segmentByID_Some in Hq as [Hq Hqi].
    cbn in Hq. apply list_elem_of_omap in Hq as (p & Hp & E). pose proof E as (Ei & _)%adv_seg_id.
    unfold adv_seg in E. rewrite <- Ei, Hqi, Hc in E. unfold upd1 in E.
    rewrite decide_True in E by congruence. case_decide; [destruct (_ && _)|]; simplify_eq; cbn; lia.
Qed.

Lemma absorb_committedIn f i a : committedIn (absorbSkipped f) i = Some a -> exists b, committedIn f i = Some b /\ b <= a.
Proof.
  unfold committedIn. destruct (absorb_raises f) as (-> & Hle & E). unfold segmentByID. rewrite E.
  case_decide; [intros [= <-]; by eexists|intros ?; by exists a].
Qed.

(** An exported position is never forgotten, and catches up.  After an
    accepted batch, where an entry's file is still tracked, its end is committed
    or kept as a withheld high for the next flush; when nothing is buffered it
    is committed at once and nothing is withheld. *)
Theorem exported_never_forgotten y : reachable y -> batch y <> [] ->
  let f := flush true (batch y) (fl y) in
  (forall e a, e ∈ batch y -> committedIn f (seg (e_end e)) = Some a ->
     off (e_end e) <= a \/ exists o, exportedHighs f !! seg (e_end e) = Some o /\ off (e_end e) <= o) /\
  (watermark (fl y) = None ->
     exportedHighs f = ∅ /\
     forall e a, e ∈ batch y -> committedIn f (seg (e_end e)) = Some a -> off (e_end e) <= a).
Proof.
  intros Hr Hb f. pose proof (reachable_inv y Hr) as Hinv. pose proof (v_shape _ Hinv) as Hsh.
  set (h := highs (fl y) (batch y)). set (c := cands (fl y) (batch y)). set (f1 := advanced c (fl y)).
  assert (f = absorbSkipped (set_exportedHighs (withheld f1 h) f1)) as Ef.
  { assert (f = advanceBatch c h (fl y)) as -> by (unfold f, c, h, flush; by destruct (batch y)). unfold advanceBatch.
    rewrite advance_fold; [unfold f1, advanced; reflexivity|apply sorted_NoDup, Hsh|]. intros p Hp. pose proof (sh_below _ Hsh p Hp). lia. }
  assert (exportedHighs f = withheld f1 h) as Eh.
  { rewrite Ef. unfold absorbSkipped. by destruct (_ && _). }
  assert (forall i a, committedIn f i = Some a -> exists b, committedIn f1 i = Some b /\ b <= a) as Hci.
  { intros i a. rewrite Ef. intros (b & Hx & ?)%absorb_committedIn. exists b. split; [exact Hx|done]. }
  assert (forall i a, committedIn f1 i = Some a -> 0 <= a) as Hpos.
  { intros i a Ha. assert (exists a0, committedIn (fl y) i = Some a0 /\ a0 <= a) as (a0 & H0 & Hle).
    { unfold committedIn in *. change (tail f1) with (tail (fl y)) in Ha. case_decide.
      - injection Ha as <-. exists (committed (fl y)). split; [done|]. cbn. unfold adv_tail. destruct (c !! _); lia.
      - apply fmap_Some in Ha as (q & Hq & ->). apply segmentByID_Some in Hq as [Hq <-].
        cbn in Hq. apply list_elem_of_omap in Hq as (p & Hp & E). apply adv_seg_id in E as (Ei & _ & _ & _ & E).
        rewrite Ei, segmentByID_eq; [|apply sorted_NoDup, Hsh|done]. eexists. split; [done|].
        destruct E as [->|[_ ?]]; lia. }
    pose proof (committed_sound y i a0 Hr H0) as [? _]. lia. }
  assert (forall i o, h !! i = Some o -> forall a, committedIn f1 i = Some a -> o <= a \/ withheld f1 h !! i = Some o) as Hw.
  { intros i o Hi a Ha. unfold withheld. rewrite map_lookup_imap, Hi. cbn. rewrite Ha. case_decide; [by right|left; lia]. }
  split.
  - intros e a He Ha. destruct (Hci _ _ Ha) as (b & Hbb & Hle). pose proof (get_highs (fl y) (batch y) e He) as Hg.
    fold h in Hg. unfold get in Hg. destruct (h !! seg (e_end e)) as [o|] eqn:Eo.
    + cbn in Hg. destruct (Hw _ _ Eo b Hbb) as [?|?]; [left; lia|right]. exists o. by rewrite Eh.
    + cbn in Hg. left. pose proof (Hpos _ _ Hbb). lia.
  - intros Hwm. assert (c = h) as Ec by (unfold c, h, cands; by rewrite Hwm).
    assert (withheld f1 h = ∅) as Hempty.
    { apply map_empty. intros i. unfold withheld. rewrite map_lookup_imap. destruct (h !! i) as [o|] eqn:Eo; [|done]. cbn.
      destruct (committedIn f1 i) as [a|] eqn:Ea; [|done]. rewrite decide_False; [done|].
      pose proof (advanced_reaches c (fl y) i o a Hsh) as Hx. rewrite Ec in Hx. specialize (Hx Eo).
      unfold f1 in Ea. rewrite Ec in Ea. specialize (Hx Ea). lia. }
    split; [by rewrite Eh|]. intros e a He Ha. destruct (Hci _ _ Ha) as (b & Hbb & Hle).
    pose proof (get_highs (fl y) (batch y) e He) as Hg. fold h in Hg. unfold get in Hg.
    destruct (h !! seg (e_end e)) as [o|] eqn:Eo; cbn in Hg.
    + destruct (Hw _ _ Eo b Hbb) as [?|Hx]; [lia|]. by rewrite Hempty in Hx.
    + pose proof (Hpos _ _ Hbb). lia.
Qed.

End Reachable.

(** ** A concrete run: one line read, fed and batched *)

Definition ex_cfg : config := mkConfig 10 100 false.
Definition ex_parse (raw : list Z) : cri_line := None.
Definition ex0 : sys := start false false "c" (mkCheckpoint 0 []) false.
Definition ex1 : sys := put (ingest [97; 98; 10] (fl ex0)) ex0.
Definition ex_split : file := (consume1 ex_cfg true true (fl ex1)).1.
Definition ex_fed : file * option entry := feedLine ex_cfg (ex_parse [97; 98]) [97; 98] 0 3 ex_split.
Definition ex_line : fline := mkLine (line_key ex_parse ex_split [97; 98]) (tail ex_split) 0 3.
Definition ex2 : sys := reach_front (tail ex_split) 3 (fed_line ex_line (add ex_fed.2 (put ex_fed.1 ex1))).

Lemma ex2_reachable : reachable ex_cfg ex_parse ex2.
Proof.
  exists false, false, "c"%string, (mkCheckpoint 0 []), false. split; [split; [cbn; lia|constructor]|].
  eapply star_step; [eapply star_step; [apply star_refl|apply (step_read _ _ ex0 [97; 98; 10])]|].
  refine (step_feed ex_cfg ex_parse ex1 true true ex_split [97; 98] 0 3 ex_fed.1 ex_fed.2 _ _ _).
  - left. vm_compute. reflexivity.
  - vm_compute. reflexivity.
  - apply surjective_pairing.
Defined.

(** The file is rotated, a flush fails while the new one is read, and the pass
    that read it drains it although the old one is owed again. *)
Definition ex3 : sys := set_ahead false (put (reopen true true (fl ex2) (fl ex2)) ex2).
Definition ex4 : sys := mkSys (flush false (batch ex3) (fl ex3)) [] (delivered ex3) (filter (covered (delivered ex3)) (log ex3)) (gone ex3) (front ex3) false.
Definition ex5 : sys := put (ingest [99; 10] (fl (set_ahead true ex4))) (set_ahead true ex4).
Definition ex5_split : file := (consume1 ex_cfg true true (fl ex5)).1.
Definition ex5_fed : file * option entry := feedLine ex_cfg (ex_parse [99]) [99] 0 2 ex5_split.
Definition ex6 : sys := reach_front (tail ex5_split) 2 (fed_line (mkLine (line_key ex_parse ex5_split [99]) (tail ex5_split) 0 2) (add ex5_fed.2 (put ex5_fed.1 ex5))).

Example ahead_reached : reachable ex_cfg ex_parse ex6 /\ gated (fl ex6) = true /\ ahead ex6 = true /\ ln_seg <$> log ex6 = [tail (fl ex6)] /\ id <$> segments (fl ex6) = [tail (fl ex2)].
Proof.
  split; [|split; [vm_compute; reflexivity|split; [vm_compute; reflexivity|split; vm_compute; reflexivity]]]. destruct ex2_reachable as (isCri & ml & cid & cp & rotated & Hcp & R). exists isCri, ml, cid, cp, rotated. split; [done|].
  apply star_step with ex5; [apply star_step with (set_ahead true ex4); [apply star_step with ex4; [apply star_step with ex3; [apply star_step with ex2; [exact R|]|]|]|]|].
  - refine (step_reopen ex_cfg ex_parse ex2 ex2 true true _). assert (carry true true (fl ex2) = false) as -> by (vm_compute; reflexivity). split; [apply star_refl|vm_compute; reflexivity].
  - exact (step_fail ex_cfg ex_parse ex3 ltac:(vm_compute; done)).
  - apply (step_ahead ex_cfg ex_parse ex4); [vm_compute; reflexivity|reflexivity|]. intros st Hst. vm_compute in Hst. apply list_elem_of_singleton in Hst as ->. reflexivity.
  - exact (step_read ex_cfg ex_parse (set_ahead true ex4) [99; 10]).
  - refine (step_feed ex_cfg ex_parse ex5 true true ex5_split [99] 0 2 ex5_fed.1 ex5_fed.2 _ _ _); [by right|vm_compute; reflexivity|apply surjective_pairing].
Qed.

Lemma no_line_skipped_witness : ex_line ∈ log ex2 /\
  (covered (delivered ex2) ex_line \/ ln_seg ex_line ∈ gone ex2 \/
   ((covered (batch ex2) ex_line \/ buf (streams (fl ex2)) ex_line) /\
    forall rotated, rereads rotated (fl ex2) ex_line)).
Proof.
  split; [by left|]. apply (no_line_skipped ex_cfg ex_parse ex2 ex_line ex2_reachable). by left.
Defined.

Lemma failed_flush_rereads_witness : let f := flush false (batch ex2) (fl ex2) in
  (ln_seg ex_line = tail f /\ readPos f <= ln_start ex_line /\ lineStart f = readPos f) \/
  exists p, p ∈ segments f /\ id p = ln_seg ex_line /\ replay_from p <= ln_start ex_line /\
    (0 <= to p -> ln_end ex_line <= to p) /\ fed p = false /\ gated f = true.
Proof.
  apply (failed_flush_rereads ex_cfg ex_parse ex2 ex_line ex2_reachable).
  - vm_compute. done.
  - by left.
  - intros (e & He & _). by apply not_elem_of_nil in He.
  - apply not_elem_of_empty.
Defined.

Lemma committed_sound_witness : committedIn (fl ex2) 2 = Some 0 /\
  (0 <= 0 <= get (front ex2) 2 /\
   forall y' b, step ex_cfg ex_parse ex2 y' -> committedIn (fl y') 2 = Some b -> 0 <= b).
Proof.
  split; [vm_compute; reflexivity|]. apply (committed_sound ex_cfg ex_parse ex2 2 0 ex2_reachable). vm_compute. reflexivity.
Defined.

Lemma exported_never_forgotten_witness : let f := flush true (batch ex2) (fl ex2) in
  (forall e a, e ∈ batch ex2 -> committedIn f (seg (e_end e)) = Some a ->
     off (e_end e) <= a \/ exists o, exportedHighs f !! seg (e_end e) = Some o /\ off (e_end e) <= o) /\
  (watermark (fl ex2) = None ->
     exportedHighs f = ∅ /\
     forall e a, e ∈ batch ex2 -> committedIn f (seg (e_end e)) = Some a -> off (e_end e) <= a).
Proof.
  apply (exported_never_forgotten ex_cfg ex_parse ex2 ex2_reachable). vm_compute. done.
Defined.

(** * Line splitting and the observed set

    [consume] against a byte-at-a-time reference: however the reads cut the
    bytes into chunks, the same lines are fed at the same offsets.  And the set
    of entries already counted by the metric observers, bounded and holding
    only what a rewind could deliver again. *)


(** ** The reference *)

(** The lines of [bs], [cur] being the open line that starts at [start]: the
    non-empty lines with their offsets, then where the rest starts and the rest. *)
Fixpoint split_lines (start : Z) (cur bs : list Z) : list (list Z * Z * Z) * Z * list Z :=
  match bs with
  | [] => ([], start, cur)
  | b :: bs =>
      if decide (b = 10) then
        let e := start + Z.of_nat (length cur) + 1 in
        let '(ls, s, r) := split_lines e [] bs in
        (match cur with [] => ls | _ => (cur, start, e) :: ls end, s, r)
      else split_lines start (cur ++ [b]) bs
  end.

Lemma split_lines_run start cur a bs : 10 ∉ a -> split_lines start cur (a ++ bs) = split_lines start (cur ++ a) bs.
Proof.
  revert cur. induction a as [|x a IH]; intros cur Hn; [by rewrite app_nil_r|]. cbn.
  rewrite decide_False by (intros ->; apply Hn; by left). rewrite IH by (intros ?; apply Hn; by right).
  by rewrite <- app_assoc.
Qed.

Lemma split_lines_app start cur a b :
  split_lines start cur (a ++ b) =
  let '(l1, s1, r1) := split_lines start cur a in
  let '(l2, s2, r2) := split_lines s1 r1 b in (l1 ++ l2, s2, r2).
Proof.
  revert start cur. induction a as [|x a IH]; intros start cur; cbn.
  - by destruct (split_lines start cur b) as [[? ?] ?].
  - case_decide; [|apply IH]. rewrite IH. destruct (split_lines _ [] a) as [[l1 s1] r1].
    destruct (split_lines s1 r1 b) as [[l2 s2] r2]. by destruct cur.
Qed.

Lemma split_lines_rest start cur bs ls s r : 10 ∉ cur -> split_lines start cur bs = (ls, s, r) ->
  10 ∉ r /\ exists pre, cur ++ bs = pre ++ r.
Proof.
  revert start cur ls s. induction bs as [|b bs IH]; intros start cur ls s Hn; cbn.
  - intros [= <- <- <-]. split; [done|]. exists []. by rewrite app_nil_r.
  - case_decide as Hb.
    + destruct (split_lines _ [] bs) as [[l1 s1] r1] eqn:E. intros [= _ _ <-].
      apply IH in E as [Hr [pre Hp]]; [|apply not_elem_of_nil]. split; [done|].
      exists (cur ++ b :: pre). cbn in Hp. rewrite Hp. by rewrite <- app_assoc.
    + intros E. apply IH in E as [Hr [pre Hp]]; [|rewrite elem_of_app, list_elem_of_singleton; intros [?|?]; congruence].
      split; [done|]. exists pre. by rewrite <- Hp, <- app_assoc.
Qed.

Lemma index_byte_Some b l i : index_byte b l = Some i ->
  l = take i l ++ b :: drop (S i) l /\ b ∉ take i l /\ (i < length l)%nat /\ length (take i l) = i.
Proof.
  revert i. induction l as [|x l IH]; intros i; cbn; [done|]. case_decide as Hx.
  - intros [= <-]. subst. split; [done|]. split; [apply not_elem_of_nil|]. split; [lia|done].
  - destruct (index_byte b l) as [j|]; [|done]. intros [= <-]. destruct (IH j eq_refl) as (H1 & H2 & H3 & H4). cbn.
    split; [by rewrite <- H1|]. split; [|split; [lia|by rewrite H4]].
    intros [?|?]%elem_of_cons; [congruence|done].
Qed.

Lemma index_byte_None b l : index_byte b l = None -> b ∉ l.
Proof.
  induction l as [|x l IH]; cbn; [intros _; apply not_elem_of_nil|]. case_decide as Hx; [done|].
  destruct (index_byte b l); [done|]. intros _ [?|?]%elem_of_cons; [congruence|by apply IH].
Qed.

(** ** [consume] *)

Definition unfinished_ok (cfg : config) (r : list Z) : Prop := Z.of_nat (length r) <= MaxEntryBytes cfg + oversizeSlack.

Lemma drain_loop_spec cfg fuel : forall f, (length (pending f) < fuel)%nat -> discarding f = false ->
  (forall ls s r, split_lines (lineStart f) [] (pending f) = (ls, s, r) -> unfinished_ok cfg r) ->
  exists f' ls, drain_loop fuel cfg f = (f', ls) /\
    split_lines (lineStart f) [] (pending f) = (ls, lineStart f', pending f') /\ discarding f' = false.
Proof.
  induction fuel as [|fuel IH]; intros f Hf Hd Hok; [lia|]. cbn. unfold consume1.
  destruct (index_byte 10 (pending f)) as [i|] eqn:Ei.
  - apply index_byte_Some in Ei as (E & Hn & Hlt & Hlen). rewrite Hd. cbn [negb andb].
    remember (take i (pending f)) as line eqn:El. remember (drop (S i) (pending f)) as rest eqn:Er.
    assert (split_lines (lineStart f) [] (pending f) =
      let '(ls, s, r) := split_lines (lineStart f + Z.of_nat (S i)) [] rest in
      (match line with [] => ls | _ => (line, lineStart f, lineStart f + Z.of_nat (S i)) :: ls end, s, r)) as Es.
    { rewrite E, split_lines_run by done. cbn. rewrite Hlen.
      replace (lineStart f + Z.of_nat i + 1) with (lineStart f + Z.of_nat (S i)) by lia. done. }
    assert (forall g, pending g = rest -> lineStart g = lineStart f + Z.of_nat (S i) -> discarding g = false ->
      exists f' ls, drain_loop fuel cfg g = (f', ls) /\
        split_lines (lineStart f + Z.of_nat (S i)) [] rest = (ls, lineStart f', pending f') /\ discarding f' = false) as Hrec.
    { intros g Hg1 Hg2 Hg3. destruct (IH g) as (f' & ls & H1 & H2 & H3).
      - rewrite Hg1, Er, length_drop. lia.
      - done.
      - rewrite Hg1, Hg2. intros ls s r Hs. eapply Hok. rewrite Es, Hs. reflexivity.
      - exists f', ls. by rewrite <- Hg2, <- Hg1. }
    rewrite Es. destruct (decide (i = 0%nat)) as [Hi|Hi].
    + assert (line = []) as -> by (destruct line; [done|cbn in Hlen; lia]).
      destruct (Hrec (note_skip (advance 1 (set_limited false f)))) as (f' & ls & H1 & H2 & H3);
        [cbn; by rewrite Er, Hi|cbn; lia|done|].
      exists f', ls. by rewrite H1, H2.
    + destruct line as [|x line]; [cbn in Hlen; lia|].
      destruct (Hrec (advance (S i) (set_limited false f))) as (f' & ls & H1 & H2 & H3); [by rewrite Er|done|done|].
      rewrite H1. cbn [pending set_limited lineStart advance set_lineStart set_pending]. rewrite <- El.
      eexists f', _. split; [reflexivity|]. by rewrite H2.
  - apply index_byte_None in Ei. assert (split_lines (lineStart f) [] (pending f) = ([], lineStart f, pending f)) as Es.
    { pose proof (split_lines_run (lineStart f) [] (pending f) [] Ei) as H. rewrite app_nil_r in H. by rewrite H. }
    unfold overCap. rewrite bool_decide_eq_false_2; [by exists f, []|].
    specialize (Hok _ _ _ Es). unfold unfinished_ok in Hok. lia.
Qed.

(** Reads arriving one chunk at a time, each consumed as it arrives. *)
Fixpoint consume_chunks (cfg : config) (chunks : list (list Z)) (f : file) : file * list (list Z * Z * Z) :=
  match chunks with
  | [] => (f, [])
  | c :: cs =>
      let '(f, ls) := consume_draining cfg (ingest c f) in
      let '(f, ls') := consume_chunks cfg cs f in (f, ls ++ ls')
  end.

(** No line is longer than the entry cap and its slack. *)
Definition short_lines (cfg : config) (bs : list Z) : Prop :=
  forall pre run post, bs = pre ++ run ++ post -> 10 ∉ run -> unfinished_ok cfg run.

Lemma consume_chunks_spec cfg chunks : forall f, discarding f = false -> 10 ∉ pending f ->
  short_lines cfg (pending f ++ concat chunks) ->
  exists f' ls, consume_chunks cfg chunks f = (f', ls) /\
    split_lines (lineStart f) (pending f) (concat chunks) = (ls, lineStart f', pending f').
Proof.
  induction chunks as [|c cs IH]; intros f Hd Hn Hs; [by exists f, []|]. cbn [consume_chunks concat].
  assert (split_lines (lineStart f) [] (pending f ++ c) = split_lines (lineStart f) (pending f) c) as Ec
    by (by rewrite split_lines_run).
  destruct (drain_loop_spec cfg (S (length (pending (ingest c f)))) (ingest c f)) as (f1 & l1 & H1 & H2 & H3); [lia|done| |].
  - intros ls s r E. cbn in E. rewrite Ec in E.
    apply split_lines_rest in E as [Hr [pre Hp]]; [|done]. apply (Hs pre r (concat cs)); [|done].
    cbn. by rewrite app_assoc, Hp, <- app_assoc.
  - unfold consume_draining. rewrite H1. cbn [lineStart pending ingest set_readPos appendPending set_pending] in H2.
    rewrite Ec in H2. destruct (split_lines_rest _ _ _ _ _ _ Hn H2) as [Hr [pre Hp]].
    destruct (IH f1 H3 Hr) as (f' & l2 & H4 & H5).
    { intros p r q E. apply (Hs (pre ++ p) r q). cbn. by rewrite app_assoc, Hp, <- !app_assoc, E. }
    rewrite H4. eexists f', _. split; [reflexivity|]. rewrite split_lines_app, H2, H5. done.
Qed.

(** Chunk boundaries do not matter.  Bytes read in any chunks, each consumed
    as it arrives, feed exactly the non-empty lines of the whole stream, each
    with the offsets of its bytes, and leave exactly its unterminated rest,
    as long as no line outgrows the cap. *)
Theorem chunks_split_alike cfg chunks f : discarding f = false -> pending f = [] -> short_lines cfg (concat chunks) ->
  exists f', consume_chunks cfg chunks f = (f', (split_lines (lineStart f) [] (concat chunks)).1.1) /\
    lineStart f' = (split_lines (lineStart f) [] (concat chunks)).1.2 /\
    pending f' = (split_lines (lineStart f) [] (concat chunks)).2.
Proof.
  intros Hd Hp Hs. destruct (consume_chunks_spec cfg chunks f Hd) as (f' & ls & H1 & H2); rewrite ?Hp; [apply not_elem_of_nil|done|].
  exists f'. rewrite Hp in H2. by rewrite H1, H2.
Qed.

Definition ex_file : file := freshFile false false "c".

Lemma chunks_split_alike_witness :
  exists f', consume_chunks (mkConfig 10 100 false) [[97]; [98; 10; 10]; [99]] ex_file = (f', [([97; 98], 0, 3)]) /\
    lineStart f' = 4 /\ pending f' = [99].
Proof.
  apply (chunks_split_alike (mkConfig 10 100 false) [[97]; [98; 10; 10]; [99]] ex_file); [done|done|].
  intros pre run post E _. unfold unfinished_ok. assert (length (pre ++ run ++ post) = 5%nat) as H by (by rewrite <- E).
  rewrite !length_app in H. cbn. unfold oversizeSlack. lia.
Defined.

(** ** Already observed *)

Section Obs.
Variable hash : list Z -> Z.

Lemma observe_size f e : (size (observed f) <= maxObservedEntries)%nat ->
  (size (observed (observe hash f e)) <= maxObservedEntries)%nat.
Proof.
  intros Hs. unfold observe. destruct (negb _); [done|]. cbn [orb]. case_bool_decide as Hb; [done|]. cbn [observed set_observed].
  destruct (decide (obs_key hash e ∈ observed f)) as [Hin|Hn].
  - replace ({[obs_key hash e]} ∪ observed f) with (observed f) by set_solver. done.
  - rewrite size_union, size_singleton by set_solver. lia.
Qed.

(** The fields [reReadable] reads. *)
Lemma observe_committedIn f e i : committedIn (observe hash f e) i = committedIn f i.
Proof. unfold observe. by destruct (_ || _). Qed.

Lemma observe_reReadable f e k : reReadable (observe hash f e) k = reReadable f k.
Proof. unfold reReadable. by rewrite observe_committedIn. Qed.

Lemma observe_in f e k : k ∈ observed (observe hash f e) <->
  k ∈ observed f \/ (k = obs_key hash e /\ reReadable f k = true /\ (size (observed f) < maxObservedEntries)%nat).
Proof.
  unfold observe. destruct (reReadable f (obs_key hash e)) eqn:E; cbn [negb orb].
  - case_bool_decide as Hb; cbn [observed set_observed].
    + split; [by left|]. intros [?|(-> & _ & ?)]; [done|lia].
    + rewrite elem_of_union, elem_of_singleton. split; [intros [->|?]; [right; split; [done|split; [done|lia]]|by left]|].
      intros [?|(-> & _)]; [by right|by left].
  - split; [by left|]. intros [?|(-> & ? & _)]; [done|congruence].
Qed.

Lemma observe_batch_size f es : (size (observed f) <= maxObservedEntries)%nat ->
  (size (observed (foldl (observe hash) f es)) <= maxObservedEntries)%nat.
Proof. revert f. induction es as [|e es IH]; intros f Hs; [done|]. cbn. by apply IH, observe_size. Qed.

Lemma observe_fold f es k : k ∈ observed (foldl (observe hash) f es) ->
  k ∈ observed f \/ (exists e, e ∈ es /\ k = obs_key hash e /\ reReadable f k = true).
Proof.
  revert f. induction es as [|e es IH]; intros f Hk; [by left|]. cbn in Hk. apply IH in Hk as [Hk|(x & Hx & -> & Hr)].
  - apply observe_in in Hk as [?|(-> & ? & _)]; [by left|right]. exists e. split; [by left|done].
  - rewrite observe_reReadable in Hr. right. exists x. split; [by right|done].
Qed.

Lemma observe_fold_in f es k : (size (observed f) + length es <= maxObservedEntries)%nat ->
  (k ∈ observed f \/ exists e, e ∈ es /\ k = obs_key hash e /\ reReadable f k = true) ->
  k ∈ observed (foldl (observe hash) f es).
Proof.
  revert f. induction es as [|e es IH]; intros f Hs Hk; cbn [foldl length] in *.
  - destruct Hk as [?|(x & Hx & _)]; [done|by apply not_elem_of_nil in Hx].
  - apply IH.
    + assert (size (observed (observe hash f e)) <= S (size (observed f)))%nat; [|lia]. unfold observe.
      destruct (_ || _); cbn; [lia|]. rewrite size_union_alt, size_singleton.
      assert (size (observed f ∖ {[obs_key hash e]}) <= size (observed f))%nat; [apply subseteq_size; set_solver|lia].
    + destruct Hk as [Hk|(x & [->|Hx]%elem_of_cons & -> & Hr)].
      * left. apply observe_in. by left.
      * left. apply observe_in. right. split; [done|]. split; [done|]. lia.
      * right. exists x. by rewrite observe_reReadable.
Qed.

Lemma size_pruned f : (size (observed (pruneObserved f)) <= size (observed f))%nat.
Proof. apply subseteq_size. unfold pruneObserved. cbn. set_solver. Qed.

(** The observed set is bounded, holds only entries a rewind could deliver
    again, and with room for the batch holds every such entry of it, so a
    re-delivered entry is not counted twice. *)
Theorem observed_exact f es k : (size (observed f) <= maxObservedEntries)%nat ->
  let f' := observe_batch hash es f in
  (size (observed f') <= maxObservedEntries)%nat /\
  (k ∈ observed f' -> reReadable f' k = true) /\
  ((size (observed f) + length es <= maxObservedEntries)%nat ->
     (k ∈ observed f' <-> reReadable f' k = true /\ (k ∈ observed f \/ exists e, e ∈ es /\ k = obs_key hash e))).
Proof.
  intros Hs f'. pose proof (size_pruned f) as Hp. assert (forall k, reReadable f' k = reReadable f k) as Hr.
  { intros x. unfold f', observe_batch. transitivity (reReadable (pruneObserved f) x); [|done].
    generalize (pruneObserved f). clear. induction es as [|e es IH]; intros f; [done|]. cbn. by rewrite IH, observe_reReadable. }
  assert (forall k, k ∈ observed (pruneObserved f) <-> k ∈ observed f /\ reReadable f k = true) as Hin.
  { intros x. unfold pruneObserved. cbn. set_solver. }
  rewrite Hr. split; [apply observe_batch_size; lia|]. split.
  - intros [Hk|(e & _ & _ & Hk)]%observe_fold; [by apply Hin in Hk as [_ ?]|done].
  - intros Hroom. split.
    + intros [Hk|(e & He & -> & Hk)]%observe_fold; [apply Hin in Hk as [? ?]; auto|]. split; [done|right; by exists e].
    + intros [Hrr Hk]. apply observe_fold_in; [lia|]. destruct Hk as [Hk|(e & He & ->)].
      * left. by apply Hin.
      * right. exists e. done.
Qed.

End Obs.

Lemma observed_exact_witness : let f' := observe_batch (fun _ => 7) [mkEntry "" [97] false (mkPos 1 0) (mkPos 1 2)] ex_file in
  let k := mkObsKey 1 1 0 2 7 in
  (size (observed f') <= maxObservedEntries)%nat /\
  (k ∈ observed f' -> reReadable f' k = true) /\
  ((size (observed ex_file) + 1 <= maxObservedEntries)%nat ->
     (k ∈ observed f' <-> reReadable f' k = true /\
       (k ∈ observed ex_file \/ exists e, e ∈ [mkEntry "" [97] false (mkPos 1 0) (mkPos 1 2)] /\ k = obs_key (fun _ => 7) e))).
Proof.
  apply (observed_exact (fun _ => 7) ex_file [mkEntry "" [97] false (mkPos 1 0) (mkPos 1 2)] (mkObsKey 1 1 0 2 7)).
  apply Nat.le_0_l.
Defined.
