(* ===== verification/Wire.v ===== *)
(** * Wire-shape admission ([internal/agent/otlpingest], [depth.go] and [decodedsize.go])

    What the OTLP receiver decides about a pushed body before the protobuf
    decoder sees it: how deeply it nests, and how much heap its structure
    decodes into.  Bytes are [Z]; a [uint64] is reduced modulo 2^64 where the
    code can leave its range, and [int(l)] is the two's complement reading. *)

From S2P Require Import Prelude.
Local Open Scope Z_scope.

Definition two64 : Z := 2 ^ 64.

(** ** Varints *)

(** The general loop of [consumeVarint], from its [i]-th iteration. *)
Fixpoint varint_loop (shift num : Z) (i : nat) (b : list Z) : Z * nat :=
  match b with
  | [] => (0, 0%nat)
  | c :: b =>
      if decide (64 <= shift) then (0, 0%nat)
      else
        let num := Z.lor num (Z.shiftl (Z.land c 127) shift mod two64) in
        if decide (c < 128) then (num, S i) else varint_loop (shift + 7) num (S i) b
  end.

(** Value and bytes consumed; 0 bytes when the decoder fails on them too. *)
Definition consumeVarint (b : list Z) : Z * nat :=
  match b with
  | c :: _ => if decide (c < 128) then (c, 1%nat) else varint_loop 0 0 0 b
  | [] => varint_loop 0 0 0 b
  end.

(** [int(l)] of a [uint64] on a 64-bit build. *)
Definition int_of (l : Z) : Z := if decide (l < 2 ^ 63) then l else l - two64.

(** ** Nesting *)

Definition maxNestingDepth : Z := 100.

(** [nestingOver]; every call below is on a strictly shorter slice. *)
Fixpoint nesting_loop (fuel : nat) (b : list Z) (depth limit : Z) : bool :=
  match fuel with
  | 0%nat => false
  | S fuel =>
      match b with
      | [] => false
      | _ =>
          let '(key, n) := consumeVarint b in
          if decide (n = 0%nat) then false
          else
            let b := drop n b in
            match Z.land key 7 with
            | 0 =>
                let '(_, n) := consumeVarint b in
                if decide (n = 0%nat) then false else nesting_loop fuel (drop n b) depth limit
            | 1 => if decide (length b < 8)%nat then false else nesting_loop fuel (drop 8 b) depth limit
            | 5 => if decide (length b < 4)%nat then false else nesting_loop fuel (drop 4 b) depth limit
            | 3 | 4 => nesting_loop fuel b depth limit
            | 2 =>
                let '(l, n) := consumeVarint b in
                if decide (n = 0%nat) then false
                else
                  let b := drop n b in
                  let ln := int_of l in
                  if decide (ln < 0 \/ Z.of_nat (length b) < ln) then false
                  else
                    let sub := take (Z.to_nat ln) b in
                    let b := drop (Z.to_nat ln) b in
                    if decide (limit < depth + 1) then true
                    else if decide (Z.of_nat (length sub) < 2 * (limit - depth))
                    then nesting_loop fuel b depth limit
                    else if nesting_loop fuel sub (depth + 1) limit then true
                    else nesting_loop fuel b depth limit
            | _ => false
            end
      end
  end.

Definition nestingOver (b : list Z) (depth limit : Z) : bool := nesting_loop (S (length b)) b depth limit.

(** [Some tt] admits the body, [None] is [errBodyTooDeep]. *)
Definition checkNesting (b : list Z) : option unit :=
  if nestingOver b 0 maxNestingDepth then None else Some tt.

(** ** Fields *)

Record wireField := mkField { num : Z; typ : Z; data : list Z }.

(** [wireFields.next]: the next field and the bytes after it. *)
Definition next (b : list Z) : option (wireField * list Z) :=
  let '(key, n) := consumeVarint b in
  if decide (n = 0%nat) then None
  else
    let b := drop n b in
    let f := mkField (Z.shiftr key 3) (Z.land key 7) [] in
    match Z.land key 7 with
    | 0 =>
        let '(_, n) := consumeVarint b in
        if decide (n = 0%nat) then None else Some (f, drop n b)
    | 1 => if decide (length b < 8)%nat then None else Some (f, drop 8 b)
    | 5 => if decide (length b < 4)%nat then None else Some (f, drop 4 b)
    | 3 | 4 => Some (f, b)
    | 2 =>
        let '(l, n) := consumeVarint b in
        if decide (n = 0%nat) then None
        else
          let b := drop n b in
          let ln := int_of l in
          if decide (ln < 0 \/ Z.of_nat (length b) < ln) then None
          else Some (mkField (num f) (typ f) (take (Z.to_nat ln) b), drop (Z.to_nat ln) b)
    | _ => None
    end.

(** The iteration [for f, ok := it.next(); ok; ...]; each field takes a byte. *)
Fixpoint fields_loop (fuel : nat) (b : list Z) : list wireField :=
  match fuel with
  | 0%nat => []
  | S fuel => match next b with Some (f, b) => f :: fields_loop fuel b | None => [] end
  end.

Definition fields (b : list Z) : list wireField := fields_loop (S (length b)) b.
#[global] Arguments fields : simpl never.

Definition wireVarint : Z := 0.
Definition wireI64 : Z := 1.
Definition wireLen : Z := 2.

Definition isField (n : Z) (f : wireField) : bool := bool_decide (num f = n) && bool_decide (typ f = wireLen).

(** [n += cost f] over the fields of a message. *)
Definition total (cost : wireField -> Z) (b : list Z) : Z := foldr (fun f n => cost f + n) 0 (fields b).

(** ** Decoded size *)

Definition decodedResourceBytes : Z := 512.
Definition decodedScopeBytes : Z := 256.
Definition decodedItemBytes : Z := 256.
Definition decodedAttrBytes : Z := 64.
Definition decodedValueBytes : Z := 16.
Definition decodedNodeBytes : Z := 48.
Definition decodedElemBytes : Z := 32.
Definition decodedExemplarBytes : Z := 128.
Definition decodedEventBytes : Z := 96.
Definition decodedLinkBytes : Z := 112.
Definition decodedEntityBytes : Z := 112.
Definition decodedQuantileBytes : Z := 32.
Definition decodedKeyStrBytes : Z := 32.
Definition decodedBucketBytes : Z := 16.
Definition decodedSizeSaturated : Z := 2 ^ 40.

(** *** Attributes: four mutually recursive sizes, one wire level per call *)

Fixpoint keyValue_sz (fuel : nat) (b : list Z) (depth : Z) : Z :=
  match fuel with
  | 0%nat => 0
  | S fuel =>
      if decide (maxNestingDepth < depth) then decodedSizeSaturated
      else decodedAttrBytes + total (fun f => if isField 2 f then anyValue_sz fuel (data f) (depth + 1) else 0) b
  end
with anyValue_sz (fuel : nat) (b : list Z) (depth : Z) : Z :=
  match fuel with
  | 0%nat => 0
  | S fuel =>
      if decide (maxNestingDepth < depth) then decodedSizeSaturated
      else total (fun f =>
        match num f with
        | 1 | 7 => if decide (typ f = wireLen) then decodedValueBytes else 0
        | 2 | 3 | 8 => if decide (typ f = wireVarint) then decodedValueBytes else 0
        | 4 => if decide (typ f = wireI64) then decodedValueBytes else 0
        | 5 => if decide (typ f = wireLen) then decodedNodeBytes + arrayValue_sz fuel (data f) (depth + 1) else 0
        | 6 => if decide (typ f = wireLen) then decodedNodeBytes + keyValueList_sz fuel (data f) (depth + 1) else 0
        | _ => 0
        end) b
  end
with arrayValue_sz (fuel : nat) (b : list Z) (depth : Z) : Z :=
  match fuel with
  | 0%nat => 0
  | S fuel => total (fun f => if isField 1 f then decodedElemBytes + anyValue_sz fuel (data f) (depth + 1) else 0) b
  end
with keyValueList_sz (fuel : nat) (b : list Z) (depth : Z) : Z :=
  match fuel with
  | 0%nat => 0
  | S fuel => total (fun f => if isField 1 f then keyValue_sz fuel (data f) (depth + 1) else 0) b
  end.

(** One level per call, and a call past the bound answers at once. *)
Definition levels (depth : Z) : nat := S (Z.to_nat (maxNestingDepth + 2 - depth)).

Definition keyValueSize (b : list Z) (depth : Z) : Z := keyValue_sz (levels depth) b depth.
Definition anyValueSize (b : list Z) (depth : Z) : Z := anyValue_sz (levels depth) b depth.
Definition arrayValueSize (b : list Z) (depth : Z) : Z := arrayValue_sz (levels depth) b depth.
Definition keyValueListSize (b : list Z) (depth : Z) : Z := keyValueList_sz (levels depth) b depth.

(** *** Shared by all three signals *)

Definition entityRefSize (b : list Z) : Z :=
  decodedEntityBytes + total (fun f => if isField 3 f || isField 4 f then decodedKeyStrBytes else 0) b.

Definition resourceSize (b : list Z) (depth : Z) : Z :=
  total (fun f => if isField 1 f then keyValueSize (data f) (depth + 1)
                  else if isField 3 f then entityRefSize (data f) else 0) b.

Definition scopeSize (b : list Z) (depth : Z) : Z :=
  total (fun f => if isField 3 f then keyValueSize (data f) (depth + 1) else 0) b.

(** *** Logs *)

Definition logRecordSize (b : list Z) : Z :=
  decodedItemBytes + total (fun f => if isField 5 f then anyValueSize (data f) 4
                                     else if isField 6 f then keyValueSize (data f) 4 else 0) b.

Definition scopeLogsSize (b : list Z) : Z :=
  decodedScopeBytes + total (fun f => if isField 1 f then scopeSize (data f) 3
                                      else if isField 2 f then logRecordSize (data f) else 0) b.

Definition resourceLogsSize (b : list Z) : Z :=
  decodedResourceBytes + total (fun f => if isField 1 f then resourceSize (data f) 2
                                         else if isField 2 f || isField 1000 f then scopeLogsSize (data f) else 0) b.

Definition decodedLogsSize (b : list Z) : Z :=
  total (fun f => if isField 1 f then resourceLogsSize (data f) else 0) b.

(** *** Metrics *)

Definition exemplarSize (b : list Z) : Z :=
  decodedExemplarBytes + total (fun f => if isField 7 f then keyValueSize (data f) 7 else 0) b.

Definition bucketsSize (b : list Z) : Z :=
  total (fun f =>
    if decide (num f <> 2) then 0
    else if decide (typ f = wireLen) then
      foldr (fun c n => (if decide (c < 128) then decodedBucketBytes else 0) + n) 0 (data f)
    else if decide (typ f = wireVarint) then decodedBucketBytes else 0) b.

Definition numberDataPointSize (b : list Z) : Z :=
  decodedItemBytes + total (fun f => if isField 7 f then keyValueSize (data f) 6
                                     else if isField 5 f then exemplarSize (data f) else 0) b.

Definition histogramDataPointSize (b : list Z) : Z :=
  decodedItemBytes + total (fun f => if isField 9 f then keyValueSize (data f) 6
                                     else if isField 8 f then exemplarSize (data f) else 0) b.

Definition expHistogramDataPointSize (b : list Z) : Z :=
  decodedItemBytes + total (fun f => if isField 1 f then keyValueSize (data f) 6
                                     else if isField 11 f then exemplarSize (data f)
                                     else if isField 8 f || isField 9 f then bucketsSize (data f) else 0) b.

Definition summaryDataPointSize (b : list Z) : Z :=
  decodedItemBytes + total (fun f => if isField 7 f then keyValueSize (data f) 6
                                     else if isField 6 f then decodedQuantileBytes else 0) b.

Definition dataPointsSize (b : list Z) (point : list Z -> Z) : Z :=
  total (fun f => if isField 1 f then point (data f) else 0) b.

Definition metricSize (b : list Z) : Z :=
  decodedItemBytes + total (fun f =>
    if isField 5 f || isField 7 f then decodedNodeBytes + dataPointsSize (data f) numberDataPointSize
    else if isField 9 f then decodedNodeBytes + dataPointsSize (data f) histogramDataPointSize
    else if isField 10 f then decodedNodeBytes + dataPointsSize (data f) expHistogramDataPointSize
    else if isField 11 f then decodedNodeBytes + dataPointsSize (data f) summaryDataPointSize
    else if isField 12 f then keyValueSize (data f) 4 else 0) b.

Definition scopeMetricsSize (b : list Z) : Z :=
  decodedScopeBytes + total (fun f => if isField 1 f then scopeSize (data f) 3
                                      else if isField 2 f then metricSize (data f) else 0) b.

Definition resourceMetricsSize (b : list Z) : Z :=
  decodedResourceBytes + total (fun f => if isField 1 f then resourceSize (data f) 2
                                         else if isField 2 f || isField 1000 f then scopeMetricsSize (data f) else 0) b.

Definition decodedMetricsSize (b : list Z) : Z :=
  total (fun f => if isField 1 f then resourceMetricsSize (data f) else 0) b.

(** *** Traces *)

Definition eventOrLinkSize (b : list Z) (base attrs : Z) : Z :=
  base + total (fun f => if isField attrs f then keyValueSize (data f) 5 else 0) b.

Definition spanSize (b : list Z) : Z :=
  decodedItemBytes + total (fun f => if isField 9 f then keyValueSize (data f) 4
                                     else if isField 11 f then eventOrLinkSize (data f) decodedEventBytes 3
                                     else if isField 13 f then eventOrLinkSize (data f) decodedLinkBytes 4 else 0) b.

Definition scopeSpansSize (b : list Z) : Z :=
  decodedScopeBytes + total (fun f => if isField 1 f then scopeSize (data f) 3
                                      else if isField 2 f then spanSize (data f) else 0) b.

Definition resourceSpansSize (b : list Z) : Z :=
  decodedResourceBytes + total (fun f => if isField 1 f then resourceSize (data f) 2
                                         else if isField 2 f || isField 1000 f then scopeSpansSize (data f) else 0) b.

Definition decodedTracesSize (b : list Z) : Z :=
  total (fun f => if isField 1 f then resourceSpansSize (data f) else 0) b.

(** * What wire-shape admission guarantees

    The walk refuses exactly the bodies that hold a length-delimited chain
    deeper than the bound, its length prune included; varints are read as the
    decoder reads them; and a body that is admitted has a decoded-size estimate
    linear in its length, which cannot overflow. *)


Definition byte (c : Z) : Prop := 0 <= c < 256.

(** ** Varints *)

Lemma varint_loop_len shift num i b v n : varint_loop shift num i b = (v, n) ->
  n = 0%nat \/ (i < n <= i + length b)%nat.
Proof.
  revert shift num i. induction b as [|c b IH]; intros shift num i; cbn; [intros [= <- <-]; by left|].
  case_decide; [intros [= <- <-]; by left|]. case_decide; [intros [= <- <-]; right; lia|].
  intros [?|?]%IH; [by left|right; lia].
Qed.

Lemma consumeVarint_len b v n : consumeVarint b = (v, n) -> (n <= length b)%nat.
Proof.
  unfold consumeVarint. destruct b as [|c b]; [by intros [= <- <-]|].
  case_decide; [intros [= <- <-]; cbn; lia|]. intros Hl. apply varint_loop_len in Hl. cbn in *. lia.
Qed.

Lemma land127_small c : 0 <= c < 128 -> Z.land c 127 = c.
Proof. intros H. change 127 with (Z.ones 7). rewrite Z.land_ones by lia. apply Z.mod_small. lia. Qed.

(** The one-byte fast path is the loop's first iteration. *)
Lemma consumeVarint_loop b : Forall byte b -> consumeVarint b = varint_loop 0 0 0 b.
Proof.
  unfold consumeVarint. destruct b as [|c b]; [done|]. intros [Hc _]%Forall_cons. unfold byte in Hc.
  case_decide as Hlt; [|done]. cbn. rewrite (decide_False (P := 64 <= 0)) by lia. rewrite decide_True by done.
  rewrite land127_small by lia. rewrite Z.shiftl_0_r, Z.lor_0_l, Z.mod_small; [done|]. unfold two64. lia.
Qed.

(** The canonical encoding. *)
Fixpoint encode_varint (fuel : nat) (v : Z) : list Z :=
  match fuel with
  | 0%nat => []
  | S fuel => if decide (v < 128) then [v] else Z.lor (Z.land v 127) 128 :: encode_varint fuel (Z.shiftr v 7)
  end.

Lemma land_lor_128 v : Z.land (Z.lor (Z.land v 127) 128) 127 = Z.land v 127.
Proof.
  apply Z.bits_inj'. intros n Hn. rewrite !Z.land_spec, Z.lor_spec, Z.land_spec.
  change 127 with (Z.ones 7). change 128 with (2 ^ 7). destruct (decide (n < 7)) as [Hl|Hl].
  - rewrite Z.ones_spec_low by lia. rewrite Z.pow2_bits_false by lia. by rewrite orb_false_r, !andb_true_r.
  - rewrite Z.ones_spec_high by lia. by rewrite !andb_false_r.
Qed.

Lemma lor_128_ge v : ~ Z.lor (Z.land v 127) 128 < 128.
Proof.
  intros H. assert (0 <= Z.lor (Z.land v 127) 128) as H0 by (apply Z.lor_nonneg; split; [apply Z.land_nonneg; lia|lia]).
  assert (Z.testbit (Z.lor (Z.land v 127) 128) 7 = true) as Hb by (rewrite Z.lor_spec; apply orb_true_r).
  change 128 with (2 ^ 7) in H at 2.
  rewrite Z.testbit_eqb in Hb by lia. rewrite Z.div_small in Hb by lia. done.
Qed.

(** Each 7 bits are or-ed in above the ones read before. *)
Lemma varint_split shift num v : 0 <= shift -> 0 <= v -> v * 2 ^ shift < two64 ->
  Z.lor (Z.lor num (Z.shiftl (Z.land v 127) shift mod two64)) (Z.shiftl (Z.shiftr v 7) (shift + 7)) =
  Z.lor num (Z.shiftl v shift).
Proof.
  intros Hs Hv Hlt. assert (Z.shiftl (Z.land v 127) shift mod two64 = Z.shiftl (Z.land v 127) shift) as ->.
  { apply Z.mod_small. rewrite Z.shiftl_mul_pow2 by done. change 127 with (Z.ones 7). rewrite Z.land_ones by lia.
    pose proof (Z.mod_pos_bound v (2 ^ 7) ltac:(lia)). assert (v mod 2 ^ 7 <= v) by (apply Z.mod_le; lia).
    split; [apply Z.mul_nonneg_nonneg; [lia|apply Z.pow_nonneg; lia]|].
    eapply Z.le_lt_trans; [|exact Hlt]. apply Z.mul_le_mono_nonneg_r; [apply Z.pow_nonneg; lia|done]. }
  rewrite <- Z.lor_assoc. f_equal. rewrite (Z.add_comm shift 7), <- Z.shiftl_shiftl by lia.
  rewrite <- Z.shiftl_lor. f_equal. apply Z.bits_inj'. intros n Hn. rewrite Z.lor_spec, Z.land_spec.
  change 127 with (Z.ones 7). destruct (decide (n < 7)) as [Hl|Hl].
  - rewrite Z.ones_spec_low, andb_true_r by lia. rewrite Z.shiftl_spec_low by lia. apply orb_false_r.
  - rewrite Z.ones_spec_high, andb_false_r by lia. cbn. rewrite Z.shiftl_spec, Z.shiftr_spec by lia. f_equal. lia.
Qed.

Lemma varint_loop_encode fuel : forall shift num i v rest, 0 <= shift -> 0 <= v -> v * 2 ^ shift < two64 ->
  v < 2 ^ (7 * Z.of_nat fuel) -> (0 < fuel)%nat -> (v = 0 -> shift < 64) ->
  varint_loop shift num i (encode_varint fuel v ++ rest) =
    (Z.lor num (Z.shiftl v shift), (i + length (encode_varint fuel v))%nat).
Proof.
  induction fuel as [|fuel IH]; intros shift num i v rest Hs Hv Hlt Hf Hf0 H0; [lia|].
  assert (shift < 64) as Hs64.
  { destruct (decide (v = 0)) as [Hz|Hz]; [by apply H0|]. destruct (decide (shift < 64)); [done|].
    assert (2 ^ 64 <= 2 ^ shift) by (apply Z.pow_le_mono_r; lia). unfold two64 in Hlt. nia. }
  cbn [encode_varint]. destruct (decide (v < 128)) as [Hsm|Hbig].
  - cbn. rewrite (decide_False (P := 64 <= shift)) by lia. rewrite decide_True by done.
    rewrite land127_small by lia. rewrite Z.mod_small; [f_equal; lia|].
    rewrite Z.shiftl_mul_pow2 by done. split; [apply Z.mul_nonneg_nonneg; [lia|apply Z.pow_nonneg; lia]|done].
  - cbn [app varint_loop]. rewrite (decide_False (P := 64 <= shift)) by lia.
    rewrite (decide_False (P := _ < 128)) by apply lor_128_ge. rewrite land_lor_128.
    assert (Z.shiftr v 7 = v / 128) as Ev by (rewrite Z.shiftr_div_pow2 by lia; done).
    assert (1 <= v / 128) by (apply Z.div_le_lower_bound; lia).
    assert (v / 128 * 128 <= v) by (pose proof (Z.mul_div_le v 128); lia).
    rewrite IH; try lia.
    + rewrite varint_split by done. cbn [length]. f_equal. lia.
    + rewrite Ev. eapply Z.le_lt_trans; [|exact Hlt]. rewrite Z.pow_add_r by lia. change (2 ^ 7) with 128.
      assert (0 < 2 ^ shift) by (apply Z.pow_pos_nonneg; lia). nia.
    + rewrite Ev. apply Z.div_lt_upper_bound; [lia|]. eapply Z.lt_le_trans; [exact Hf|].
      change 128 with (2 ^ 7). rewrite <- Z.pow_add_r by lia. apply Z.pow_le_mono_r; lia.
    + destruct fuel; [|lia]. cbn in Hf. lia.
Qed.

(** The varint reader inverts the canonical encoding of every [uint64],
    whatever follows it, and its one-byte fast path never disagrees with the
    general loop. *)
Theorem varint_roundtrip v rest : 0 <= v < two64 ->
  consumeVarint (encode_varint 10 v ++ rest) = (v, length (encode_varint 10 v)) /\
  forall b, Forall byte b -> consumeVarint b = varint_loop 0 0 0 b.
Proof.
  intros Hv. split; [|apply consumeVarint_loop].
  assert (varint_loop 0 0 0 (encode_varint 10 v ++ rest) = (v, length (encode_varint 10 v))) as E.
  { rewrite varint_loop_encode; try lia; [by rewrite Z.shiftl_0_r, Z.lor_0_l|]. unfold two64 in Hv.
    eapply Z.lt_le_trans; [apply Hv|]. apply Z.pow_le_mono_r; lia. }
  rewrite <- E. cbn [encode_varint]. destruct (decide (v < 128)) as [Hs|Hb].
  - cbn [app]. unfold consumeVarint. rewrite decide_True by done. cbn. rewrite (decide_False (P := 64 <= 0)) by lia.
    rewrite decide_True by done. rewrite land127_small by lia.
    rewrite Z.shiftl_0_r, Z.lor_0_l, Z.mod_small; [done|]. unfold two64. lia.
  - cbn [app]. unfold consumeVarint. by rewrite decide_False by apply lor_128_ge.
Qed.

Lemma varint_roundtrip_witness : 0 <= 300 < two64 /\
  (consumeVarint (encode_varint 10 300 ++ [7]) = (300, length (encode_varint 10 300)) /\
   forall b, Forall byte b -> consumeVarint b = varint_loop 0 0 0 b).
Proof.
  assert (0 <= 300 < two64) as H by (unfold two64; lia). split; [exact H|]. apply (varint_roundtrip 300 [7] H).
Defined.

(** ** Fields *)

(** Bytes a field takes: a tag, then at least one more unless it is a group tag. *)
Definition fsize (f : wireField) : Z :=
  if decide (typ f = 3 \/ typ f = 4) then 1 else 2 + Z.of_nat (length (data f)).

Lemma next_len b f r : next b = Some (f, r) -> Z.of_nat (length r) + fsize f <= Z.of_nat (length b).
Proof.
  unfold next. destruct (consumeVarint b) as [key n] eqn:E1. apply consumeVarint_len in E1.
  case_decide as Hn; [done|]. pose proof (length_drop b n) as Hd. set (b1 := drop n b) in *.
  assert (forall x t d, fsize (mkField x t d) <= 2 + Z.of_nat (length d)) as Hfs.
  { intros x t d. unfold fsize. cbn. case_decide; lia. }
  destruct (Z.land key 7) as [|p|p] eqn:Ek; [| |done].
  - destruct (consumeVarint b1) as [v n1] eqn:E2. apply consumeVarint_len in E2. case_decide; [done|].
    intros [= <- <-]. specialize (Hfs (Z.shiftr key 3) 0 []). cbn in Hfs. rewrite length_drop. lia.
  - destruct p as [p|p|]; [destruct p as [[p|p|]|[p|p|]|]|destruct p as [p|[p|p|]|]|]; try done.
    + case_decide; [done|]. intros [= <- <-]. rewrite length_drop. specialize (Hfs (Z.shiftr key 3) 5 []). cbn in Hfs. lia.
    + intros [= <- <-]. unfold fsize. cbn. rewrite decide_True by tauto. lia.
    + intros [= <- <-]. unfold fsize. cbn. rewrite decide_True by tauto. lia.
    + destruct (consumeVarint b1) as [l n1] eqn:E2. apply consumeVarint_len in E2. case_decide; [done|].
      pose proof (length_drop b1 n1) as Hd1. set (b2 := drop n1 b1) in *. case_decide; [done|].
      intros [= <- <-]. specialize (Hfs (Z.shiftr key 3) 2 (take (Z.to_nat (int_of l)) b2)). cbn in Hfs |- *.
      rewrite length_take in Hfs. rewrite length_drop. lia.
    + case_decide; [done|]. intros [= <- <-]. rewrite length_drop. specialize (Hfs (Z.shiftr key 3) 1 []). cbn in Hfs. lia.
Qed.

Lemma fsize_pos f : 1 <= fsize f.
Proof. unfold fsize. case_decide; lia. Qed.

Lemma next_shorter b f r : next b = Some (f, r) -> (length r < length b)%nat.
Proof. intros H%next_len. pose proof (fsize_pos f). lia. Qed.

Lemma fields_loop_fuel n : forall m b, (length b < n)%nat -> (length b < m)%nat -> fields_loop n b = fields_loop m b.
Proof.
  induction n as [|n IH]; intros [|m] b Hn Hm; try lia. cbn. destruct (next b) as [[f r]|] eqn:E; [|done].
  apply next_shorter in E. f_equal. apply IH; lia.
Qed.

Lemma fields_eq b : fields b = match next b with Some (f, r) => f :: fields r | None => [] end.
Proof.
  unfold fields at 1. cbn [fields_loop]. destruct (next b) as [[f r]|] eqn:E; [|done].
  apply next_shorter in E. f_equal. unfold fields. apply fields_loop_fuel; lia.
Qed.

(** Induction along the field iteration. *)
Lemma fields_ind (P : list Z -> Prop) :
  (forall b, next b = None -> P b) -> (forall b f r, next b = Some (f, r) -> P r -> P b) -> forall b, P b.
Proof.
  intros H0 H1 b. remember (length b) as n eqn:En. revert b En.
  induction (lt_wf n) as [n _ IH]. intros b ->. destruct (next b) as [[f r]|] eqn:E; [|by apply H0].
  eapply H1; [exact E|]. eapply IH; [|reflexivity]. by apply next_shorter in E.
Qed.

Lemma fields_bytes b : foldr (fun f n => fsize f + n) 0 (fields b) <= Z.of_nat (length b).
Proof.
  induction b as [b E|b f r E IH] using fields_ind; rewrite fields_eq, E; cbn; [lia|]. apply next_len in E. lia.
Qed.

Lemma field_bytes b f : f ∈ fields b -> fsize f <= Z.of_nat (length b).
Proof.
  induction b as [b E|b g r E IH] using fields_ind; rewrite fields_eq, E; [by intros ?%not_elem_of_nil|].
  apply next_len in E. pose proof (fsize_pos g). intros [->|Hf]%elem_of_cons; [lia|]. specialize (IH Hf). lia.
Qed.

(** ** Nesting *)

(** [b] holds a chain of [k] nested length-delimited fields, read as the
    decoder reads them. *)
Fixpoint reaches (k : nat) (b : list Z) : Prop :=
  match k with
  | 0%nat => True
  | S k => exists f, f ∈ fields b /\ typ f = wireLen /\ reaches k (data f)
  end.

(** Each level costs a tag and a length: the soundness of the prune. *)
Lemma reaches_length k : forall b, reaches k b -> 2 * Z.of_nat k <= Z.of_nat (length b).
Proof.
  induction k as [|k IH]; intros b; [lia|]. intros (f & Hf & Ht & Hr). apply field_bytes in Hf. specialize (IH _ Hr).
  unfold fsize in Hf. rewrite decide_False in Hf by (rewrite Ht; unfold wireLen; lia). lia.
Qed.

Lemma reaches_cons k b f r : next b = Some (f, r) ->
  reaches (S k) b <-> (typ f = wireLen /\ reaches k (data f)) \/ reaches (S k) r.
Proof.
  intros E. cbn. rewrite fields_eq, E. split.
  - intros (g & [->|Hg]%elem_of_cons & ? & ?); [by left|right; by exists g].
  - intros [[? ?]|(g & Hg & ? & ?)]; [exists f; split; [by left|done]|exists g; split; [by right|done]].
Qed.

Lemma reaches_none k b : next b = None -> ~ reaches (S k) b.
Proof. intros E (f & Hf & _). rewrite fields_eq, E in Hf. by apply not_elem_of_nil in Hf. Qed.

(** One turn of the walk is one [next]. *)
Lemma nesting_step fuel b depth limit : nesting_loop (S fuel) b depth limit =
  match next b with
  | None => false
  | Some (f, r) =>
      if decide (typ f = wireLen) then
        if decide (limit < depth + 1) then true
        else if decide (Z.of_nat (length (data f)) < 2 * (limit - depth)) then nesting_loop fuel r depth limit
        else if nesting_loop fuel (data f) (depth + 1) limit then true else nesting_loop fuel r depth limit
      else nesting_loop fuel r depth limit
  end.
Proof.
  destruct b as [|c b]; [done|]. remember (c :: b) as l eqn:El. cbn [nesting_loop]. rewrite El at 1. cbv iota.
  unfold next. destruct (consumeVarint l) as [key n]. case_decide; [done|].
  destruct (Z.land key 7) as [|p|p] eqn:Ek; [| |done].
  - destruct (consumeVarint (drop n l)) as [v n1]. case_decide; [done|]. cbn [typ]. by rewrite decide_False.
  - destruct p as [p|p|]; [destruct p as [[p|p|]|[p|p|]|]|destruct p as [p|[p|p|]|]|]; try done;
      try (by cbn; rewrite decide_False);
      try (case_decide; [done|]; by cbn; rewrite decide_False).
    destruct (consumeVarint (drop n l)) as [v n1]. case_decide; [done|]. case_decide; [done|].
    cbn [typ data]. by rewrite (decide_True (P := 2 = wireLen)).
Qed.

Lemma nesting_loop_spec fuel : forall b depth limit, (length b < fuel)%nat -> 0 <= depth <= limit ->
  nesting_loop fuel b depth limit = true <-> reaches (S (Z.to_nat (limit - depth))) b.
Proof.
  induction fuel as [|fuel IH]; intros b depth limit Hf Hd; [lia|]. rewrite nesting_step.
  destruct (next b) as [[f r]|] eqn:E; [|split; [done|intros H; by apply reaches_none in H]].
  rewrite (reaches_cons _ _ _ _ E). pose proof (next_shorter _ _ _ E) as Hr. pose proof (next_len _ _ _ E) as Hl.
  assert (nesting_loop fuel r depth limit = true <-> reaches (S (Z.to_nat (limit - depth))) r) as IHr by (apply IH; [lia|done]).
  destruct (decide (typ f = wireLen)) as [Ht|Ht]; [|rewrite IHr; tauto].
  destruct (decide (limit < depth + 1)) as [Hlim|Hlim].
  - replace (Z.to_nat (limit - depth)) with 0%nat by lia. split; [|done]. intros _. left. by split.
  - destruct (decide (Z.of_nat (length (data f)) < 2 * (limit - depth))) as [Hshort|Hlong].
    + rewrite IHr. split; [by right|]. intros [[_ Hx]|?]; [|done]. apply reaches_length in Hx. lia.
    + assert (length (data f) < fuel)%nat as Hdf.
      { unfold fsize in Hl. rewrite decide_False in Hl by (rewrite Ht; unfold wireLen; lia). lia. }
      pose proof (IH (data f) (depth + 1) limit Hdf ltac:(lia)) as IHd.
      replace (S (Z.to_nat (limit - (depth + 1)))) with (Z.to_nat (limit - depth)) in IHd by lia.
      destruct (nesting_loop fuel (data f) (depth + 1) limit); [split; [intros _; left; split; [done|by apply IHd]|done]|].
      rewrite IHr. split; [by right|]. intros [[_ Hx]|?]; [|done]. by apply IHd in Hx.
Qed.

(** C36: the nesting guard refuses a body exactly when it holds a
    length-delimited chain of more than [maxNestingDepth] levels; what the
    length prune and the early exits skip never changes the answer. *)
Theorem checkNesting_exact b : checkNesting b = None <-> reaches (S (Z.to_nat maxNestingDepth)) b.
Proof.
  unfold checkNesting, nestingOver.
  pose proof (nesting_loop_spec (S (length b)) b 0 maxNestingDepth ltac:(lia) ltac:(unfold maxNestingDepth; lia)) as H.
  rewrite Z.sub_0_r in H. destruct (nesting_loop _ _ _ _); [|split; [done|intros Hx; by apply H in Hx]].
  split; [intros _; by apply H|done].
Qed.

(** ** Decoded size *)

Lemma total_ext c1 c2 b : (forall f, f ∈ fields b -> c1 f = c2 f) -> total c1 b = total c2 b.
Proof.
  unfold total. induction (fields b) as [|f l IH]; intros H; [done|]. cbn. rewrite (H f) by by left.
  by rewrite IH by (intros; apply H; by right).
Qed.

(** The level fuel is enough: more of it never changes an answer, so the four
    sizes satisfy the code's recursion. *)
Lemma sizes_fuel n : forall m b depth, (levels depth <= n)%nat -> (levels depth <= m)%nat ->
  keyValue_sz n b depth = keyValue_sz m b depth /\ anyValue_sz n b depth = anyValue_sz m b depth /\
  (depth <= maxNestingDepth + 1 -> arrayValue_sz n b depth = arrayValue_sz m b depth /\
     keyValueList_sz n b depth = keyValueList_sz m b depth).
Proof.
  unfold levels. induction n as [|n IH]; intros [|m] b depth Hn Hm; [lia..|]. cbn.
  assert (forall d b, depth <= maxNestingDepth + 1 -> d = depth + 1 ->
    keyValue_sz n b d = keyValue_sz m b d /\ anyValue_sz n b d = anyValue_sz m b d) as H1.
  { intros d b' Hd ->. destruct (IH m b' (depth + 1)) as (? & ? & _); [lia..|done]. }
  assert (forall d b, depth <= maxNestingDepth -> d = depth + 1 ->
    arrayValue_sz n b d = arrayValue_sz m b d /\ keyValueList_sz n b d = keyValueList_sz m b d) as H2.
  { intros d b' Hd ->. destruct (IH m b' (depth + 1)) as (_ & _ & H); [lia..|]. apply H. lia. }
  split; [|split].
  - case_decide; [done|]. f_equal. apply total_ext. intros f _. destruct (isField 2 f); [|done].
    apply (H1 (depth + 1)); lia.
  - case_decide; [done|]. apply total_ext. intros f _.
    destruct (num f) as [|p|p]; [done| |done]. do 3 (destruct p as [p|p|]; try done); case_decide; try done.
    + f_equal. apply (H2 (depth + 1)); lia.
    + f_equal. apply (H2 (depth + 1)); lia.
  - intros Hd. split; apply total_ext; intros f _; destruct (isField 1 f); try done; [f_equal|]; apply (H1 (depth + 1)); lia.
Qed.

(** The bound, per field and per message: no field costs more than 256 times
    the bytes it takes. *)
Definition per_byte : Z := 256.

Definition within (base : Z) (n : Z) (b : list Z) : Prop := 0 <= n <= base + per_byte * Z.of_nat (length b).

Lemma total_within cost k b : ~ reaches (S k) b ->
  (forall f, typ f = wireLen -> ~ reaches k (data f) -> within 512 (cost f) (data f)) ->
  (forall f, typ f <> wireLen -> 0 <= cost f <= per_byte) -> within 0 (total cost b) b.
Proof.
  intros Hr Hlen Hoth. unfold within, per_byte in *.
  assert (0 <= total cost b <= 256 * foldr (fun f n => fsize f + n) 0 (fields b)) as H.
  { assert (forall f, f ∈ fields b -> typ f = wireLen -> ~ reaches k (data f)) as Hsh.
    { intros f Hf Ht Hx. apply Hr. exists f. done. }
    unfold total. revert Hsh. induction (fields b) as [|f l IH]; intros Hsh; cbn; [lia|].
    destruct IH as [IH1 IH2]; [intros; apply Hsh; [by right|done]|].
    assert (0 <= cost f <= 256 * fsize f); [|lia]. unfold fsize. destruct (decide (typ f = wireLen)) as [Ht|Ht].
    - rewrite decide_False by (rewrite Ht; unfold wireLen; lia). specialize (Hlen f Ht ltac:(by apply Hsh; [by left|])). lia.
    - specialize (Hoth f Ht). case_decide; lia. }
  pose proof (fields_bytes b). lia.
Qed.

Lemma isField_len n f : isField n f = true -> typ f = wireLen.
Proof. unfold isField. rewrite andb_true_iff, !bool_decide_eq_true. tauto. Qed.

Lemma isField_no n f : typ f <> wireLen -> isField n f = false.
Proof. intros H. unfold isField. rewrite andb_false_iff, !bool_decide_eq_false. tauto. Qed.

(** Discharges the two cost conditions of [total_within]. *)
Ltac no_len := intros f Hf; rewrite ?(isField_no _ f Hf); cbn [orb]; unfold per_byte; lia.

Lemma sizes_within n : forall k b depth, depth + Z.of_nat k = maxNestingDepth + 1 -> ~ reaches k b ->
  within decodedAttrBytes (keyValue_sz n b depth) b /\ within 0 (anyValue_sz n b depth) b /\
  within 0 (arrayValue_sz n b depth) b /\ within 0 (keyValueList_sz n b depth) b.
Proof.
  unfold maxNestingDepth. induction n as [|n IH]; intros k b depth Hk Hr;
    [unfold within, decodedAttrBytes, per_byte; cbn; lia|].
  destruct k as [|k]; [by destruct Hr|].
  assert (forall f, ~ reaches k (data f) ->
    within decodedAttrBytes (keyValue_sz n (data f) (depth + 1)) (data f) /\ within 0 (anyValue_sz n (data f) (depth + 1)) (data f) /\
    within 0 (arrayValue_sz n (data f) (depth + 1)) (data f) /\ within 0 (keyValueList_sz n (data f) (depth + 1)) (data f)) as H
    by (intros f Hf; apply (IH k); [lia|done]).
  cbn. unfold maxNestingDepth, decodedAttrBytes, decodedNodeBytes, decodedElemBytes, decodedValueBytes in *.
  rewrite !(decide_False (P := 100 < depth)) by lia.
  split; [|split; [|split]].
  - assert (within 0 (total (fun f => if isField 2 f then anyValue_sz n (data f) (depth + 1) else 0) b) b) as Ht;
      [|unfold within in *; lia].
    apply (total_within _ k); [done| |no_len]. intros f _ Hf. destruct (H f Hf) as (_ & Hx & _).
    destruct (isField 2 f); unfold within, per_byte in *; lia.
  - apply (total_within _ k); [done| |].
    + intros f _ Hf. destruct (H f Hf) as (_ & _ & Hx & Hy).
      destruct (num f) as [|p|p]; [unfold within, per_byte in *; lia| |unfold within, per_byte in *; lia].
      do 4 (destruct p as [p|p|]; try (case_decide; unfold within, per_byte in *; lia); try (unfold within, per_byte in *; lia)).
    + intros f Hf. unfold per_byte. destruct (num f) as [|p|p]; [lia| |lia].
      do 4 (destruct p as [p|p|]; try (case_decide; (done || lia)); try lia).
  - apply (total_within _ k); [done| |no_len]. intros f _ Hf. destruct (H f Hf) as (_ & Hx & _).
    destruct (isField 1 f); unfold within, per_byte in *; lia.
  - apply (total_within _ k); [done| |no_len]. intros f _ Hf. destruct (H f Hf) as (Hx & _).
    destruct (isField 1 f); unfold within, per_byte in *; lia.
Qed.

Lemma keyValueSize_within k b depth : depth + Z.of_nat k = maxNestingDepth + 1 -> ~ reaches k b ->
  within 64 (keyValueSize b depth) b.
Proof. intros Hk Hr. by destruct (sizes_within (levels depth) k b depth Hk Hr). Qed.

Lemma anyValueSize_within k b depth : depth + Z.of_nat k = maxNestingDepth + 1 -> ~ reaches k b ->
  within 0 (anyValueSize b depth) b.
Proof. intros Hk Hr. by destruct (sizes_within (levels depth) k b depth Hk Hr) as (_ & ? & _). Qed.

(** [g] at wire depth [101 - k] is bounded by [base] and 256 per byte. *)
Definition sized (base : Z) (k : nat) (g : list Z -> Z) : Prop := forall b, ~ reaches k b -> within base (g b) b.

Lemma sized_le base base' k g : base <= base' -> sized base k g -> sized base' k g.
Proof. intros Hle Hg b Hb. specialize (Hg b Hb). unfold within in *. lia. Qed.

Lemma sized_message base k cost : 0 <= base <= 512 ->
  (forall f, typ f = wireLen -> ~ reaches k (data f) -> within 512 (cost f) (data f)) ->
  (forall f, typ f <> wireLen -> 0 <= cost f <= per_byte) ->
  sized base (S k) (fun b => base + total cost b).
Proof.
  intros Hb H1 H2 b Hr. pose proof (total_within cost k b Hr H1 H2). unfold within in *. lia.
Qed.

(** One level of a message: every arm's size is bounded one level down. *)
Ltac message k :=
  intros b Hr;
  match goal with
  | |- within ?base (_ + total ?c b) b => apply (sized_message base k c); [lia| |no_len|exact Hr]
  | |- within 0 (total ?c b) b => apply (total_within c k b Hr); [|no_len]
  end;
  let f := fresh "f" in let Hf := fresh "Hf" in
  intros f _ Hf;
  repeat (match goal with
          | |- within _ (if ?c || _ then _ else _) _ => destruct c; cbn [orb]
          | |- within _ (if ?c then _ else _) _ => destruct c
          end; cbv iota);
  try (unfold within, per_byte; lia).

Lemma keyValue_sized k depth : depth + Z.of_nat k = 101 -> sized 512 k (fun b => keyValueSize b depth).
Proof. intros Hk b Hb. pose proof (keyValueSize_within k b depth Hk Hb). unfold within in *. lia. Qed.
Lemma anyValue_sized k depth : depth + Z.of_nat k = 101 -> sized 512 k (fun b => anyValueSize b depth).
Proof. intros Hk b Hb. pose proof (anyValueSize_within k b depth Hk Hb). unfold within in *. lia. Qed.

Lemma entityRef_sized k : sized 512 (S k) entityRefSize.
Proof.
  apply (sized_le decodedEntityBytes); [unfold decodedEntityBytes; lia|]. unfold entityRefSize, decodedEntityBytes, decodedKeyStrBytes.
  message k.
Qed.

Lemma resource_sized : sized 512 99 (fun b => resourceSize b 2).
Proof.
  apply (sized_le 0); [lia|]. unfold resourceSize. message 98%nat.
  - by apply (keyValue_sized 98).
  - by apply (entityRef_sized 97).
Qed.

Lemma scope_sized : sized 512 98 (fun b => scopeSize b 3).
Proof. apply (sized_le 0); [lia|]. unfold scopeSize. message 97%nat. by apply (keyValue_sized 97). Qed.

Lemma logRecord_sized : sized 512 98 logRecordSize.
Proof.
  apply (sized_le decodedItemBytes); [unfold decodedItemBytes; lia|]. unfold logRecordSize, decodedItemBytes. message 97%nat.
  - by apply (anyValue_sized 97).
  - by apply (keyValue_sized 97).
Qed.

Lemma exemplar_sized : sized 512 95 exemplarSize.
Proof.
  apply (sized_le decodedExemplarBytes); [unfold decodedExemplarBytes; lia|]. unfold exemplarSize, decodedExemplarBytes.
  message 94%nat. by apply (keyValue_sized 94).
Qed.

Lemma buckets_sized k : sized 512 (S k) bucketsSize.
Proof.
  apply (sized_le 0); [lia|]. unfold bucketsSize, decodedBucketBytes. intros b Hr. apply (total_within _ k); [done| |].
  - intros f Ht _. case_decide; [unfold within, per_byte; lia|]. rewrite decide_True by done. unfold within, per_byte.
    induction (data f) as [|c l IH]; cbn; [lia|]. cbn in IH. case_decide; lia.
  - intros f Hf. unfold per_byte. case_decide; [lia|]. rewrite decide_False by done. case_decide; lia.
Qed.

Lemma numberDataPoint_sized : sized 512 96 numberDataPointSize.
Proof.
  apply (sized_le decodedItemBytes); [unfold decodedItemBytes; lia|]. unfold numberDataPointSize, decodedItemBytes. message 95%nat.
  - by apply (keyValue_sized 95).
  - by apply exemplar_sized.
Qed.

Lemma histogramDataPoint_sized : sized 512 96 histogramDataPointSize.
Proof.
  apply (sized_le decodedItemBytes); [unfold decodedItemBytes; lia|]. unfold histogramDataPointSize, decodedItemBytes. message 95%nat.
  - by apply (keyValue_sized 95).
  - by apply exemplar_sized.
Qed.

Lemma expHistogramDataPoint_sized : sized 512 96 expHistogramDataPointSize.
Proof.
  apply (sized_le decodedItemBytes); [unfold decodedItemBytes; lia|]. unfold expHistogramDataPointSize, decodedItemBytes. message 95%nat.
  - by apply (keyValue_sized 95).
  - by apply exemplar_sized.
  - by apply (buckets_sized 94).
  - by apply (buckets_sized 94).
Qed.

Lemma summaryDataPoint_sized : sized 512 96 summaryDataPointSize.
Proof.
  apply (sized_le decodedItemBytes); [unfold decodedItemBytes; lia|].
  unfold summaryDataPointSize, decodedItemBytes, decodedQuantileBytes. message 95%nat. by apply (keyValue_sized 95).
Qed.

Lemma dataPoints_sized k point : sized 512 k point -> sized 512 (S k) (fun b => decodedNodeBytes + dataPointsSize b point).
Proof.
  intros Hp. apply (sized_le decodedNodeBytes); [unfold decodedNodeBytes; lia|]. unfold dataPointsSize, decodedNodeBytes.
  message k. by apply Hp.
Qed.

Lemma metric_sized : sized 512 98 metricSize.
Proof.
  apply (sized_le decodedItemBytes); [unfold decodedItemBytes; lia|]. unfold metricSize, decodedItemBytes. message 97%nat.
  - by apply (dataPoints_sized 96 _ numberDataPoint_sized).
  - by apply (dataPoints_sized 96 _ numberDataPoint_sized).
  - by apply (dataPoints_sized 96 _ histogramDataPoint_sized).
  - by apply (dataPoints_sized 96 _ expHistogramDataPoint_sized).
  - by apply (dataPoints_sized 96 _ summaryDataPoint_sized).
  - by apply (keyValue_sized 97).
Qed.

Lemma eventOrLink_sized base attrs : 0 <= base <= 512 -> sized 512 97 (fun b => eventOrLinkSize b base attrs).
Proof. intros Hb. apply (sized_le base); [lia|]. unfold eventOrLinkSize. message 96%nat. by apply (keyValue_sized 96). Qed.

Lemma span_sized : sized 512 98 spanSize.
Proof.
  apply (sized_le decodedItemBytes); [unfold decodedItemBytes; lia|]. unfold spanSize, decodedItemBytes. message 97%nat.
  - by apply (keyValue_sized 97).
  - by apply (eventOrLink_sized decodedEventBytes 3).
  - by apply (eventOrLink_sized decodedLinkBytes 4).
Qed.

Lemma scoped_sized item base : 0 <= base <= 512 -> sized 512 98 item ->
  sized 512 99 (fun b => base + total (fun f => if isField 1 f then scopeSize (data f) 3
                                                else if isField 2 f then item (data f) else 0) b).
Proof.
  intros Hb Hi. apply (sized_le base); [lia|]. message 98%nat; [by apply scope_sized|by apply Hi].
Qed.

Lemma resourced_sized scoped : sized 512 99 scoped ->
  sized 512 100 (fun b => decodedResourceBytes + total (fun f => if isField 1 f then resourceSize (data f) 2
                          else if isField 2 f || isField 1000 f then scoped (data f) else 0) b).
Proof.
  intros Hs. unfold decodedResourceBytes. message 99%nat; [by apply resource_sized|by apply Hs|by apply Hs].
Qed.

Lemma request_sized resourced b : sized 512 100 resourced -> ~ reaches 101 b ->
  within 0 (total (fun f => if isField 1 f then resourced (data f) else 0) b) b.
Proof. intros Hs Hr. revert b Hr. message 100%nat. by apply Hs. Qed.

(** What the nesting guard admits is charged linearly.  The decoded-size
    estimate of an admitted body, for each of the three signals, is never
    negative, never the saturated answer, and at most 256 times the body's
    length, so it fits an [int64] for any body the receiver can read. *)
Theorem decoded_size_linear b : checkNesting b = Some tt ->
  0 <= decodedLogsSize b <= 256 * Z.of_nat (length b) /\
  0 <= decodedMetricsSize b <= 256 * Z.of_nat (length b) /\
  0 <= decodedTracesSize b <= 256 * Z.of_nat (length b).
Proof.
  intros Hc. assert (~ reaches 101 b) as Hr.
  { intros Hr. assert (checkNesting b = None) as E; [|congruence]. unfold checkNesting, nestingOver.
    destruct (nesting_loop_spec (S (length b)) b 0 maxNestingDepth) as [_ H]; [lia|unfold maxNestingDepth; lia|].
    by rewrite H. }
  assert (0 <= decodedScopeBytes <= 512) as Hs by (unfold decodedScopeBytes; lia).
  split; [|split].
  - apply (request_sized resourceLogsSize b (resourced_sized _ (scoped_sized _ _ Hs logRecord_sized)) Hr).
  - apply (request_sized resourceMetricsSize b (resourced_sized _ (scoped_sized _ _ Hs metric_sized)) Hr).
  - apply (request_sized resourceSpansSize b (resourced_sized _ (scoped_sized _ _ Hs span_sized)) Hr).
Qed.

(** One resource holding one scope holding one record. *)
Definition ex_body : list Z := [10; 4; 18; 2; 18; 0].

Lemma decoded_size_linear_witness : decodedLogsSize ex_body = 1024 /\
  (0 <= decodedLogsSize ex_body <= 256 * Z.of_nat (length ex_body) /\
   0 <= decodedMetricsSize ex_body <= 256 * Z.of_nat (length ex_body) /\
   0 <= decodedTracesSize ex_body <= 256 * Z.of_nat (length ex_body)).
Proof. split; [vm_compute; reflexivity|]. apply (decoded_size_linear ex_body). vm_compute. reflexivity. Defined.
