(* ===== verification/Budget.v ===== *)
(** * Byte budgets ([internal/agent/otlpingest/admit.go])

    The receiver-wide byte budget as concurrent callers use it: a reservation
    is an atomic add followed, when the sum is over the limit, by an atomic
    add that takes it back, and other callers run between the two.  Then the
    reader that draws on it in whole granules. *)

From S2P Require Import Prelude.
Local Open Scope Z_scope.

(** [used] is an [atomic.Int64]: its sums stay far from wrapping, which would take
    about 2^63 bytes of reservations under way at once. *)
Record byteBudget := mkBudget { used : Z; limit : Z }.

(** [used.Add(n)] *)
Definition Add (n : Z) (b : byteBudget) : byteBudget := mkBudget (used b + n) (limit b).

(** A caller of [reserve] that has added and seen whether the sum is over, and
    one that still has to take its add back. *)
Inductive verdict := Granted | Overshot.

Definition reserve_add (n : Z) (b : byteBudget) : byteBudget * verdict :=
  let b := Add n b in (b, if decide (limit b < used b) then Overshot else Granted).
Definition reserve_undo (n : Z) (b : byteBudget) : byteBudget := Add (- n) b.

(** [reserve] as one caller sees it, nobody else running. *)
Definition reserve (n : Z) (b : byteBudget) : byteBudget * bool :=
  match reserve_add n b with
  | (b, Granted) => (b, true)
  | (b, Overshot) => (reserve_undo n b, false)
  end.

Definition release (n : Z) (b : byteBudget) : byteBudget := if decide (0 < n) then Add (- n) b else b.

(** ** Concurrent callers *)

(** [granted]: reservations held; [undoing]: refused ones not yet taken back. *)
Record world := mkWorld { budget : byteBudget; granted : list Z; undoing : list Z }.

Inductive step : world -> world -> Prop :=
| step_grant w n b : 0 <= n -> reserve_add n (budget w) = (b, Granted) ->
    step w (mkWorld b (n :: granted w) (undoing w))
| step_overshoot w n b : 0 <= n -> reserve_add n (budget w) = (b, Overshot) ->
    step w (mkWorld b (granted w) (n :: undoing w))
| step_undo w n l1 l2 : undoing w = l1 ++ n :: l2 ->
    step w (mkWorld (reserve_undo n (budget w)) (granted w) (l1 ++ l2))
| step_release w n l1 l2 : granted w = l1 ++ n :: l2 ->
    step w (mkWorld (release n (budget w)) (l1 ++ l2) (undoing w)).

Fixpoint sum (l : list Z) : Z := match l with [] => 0 | x :: l => x + sum l end.

Lemma sum_app l1 l2 : sum (l1 ++ l2) = sum l1 + sum l2.
Proof. induction l1 as [|x l IH]; cbn; [lia|]. rewrite IH. lia. Qed.

Record ok (w : world) : Prop := {
  ok_limit : 0 <= limit (budget w);
  ok_used : used (budget w) = sum (granted w) + sum (undoing w);
  ok_granted : Forall (fun n => 0 <= n) (granted w);
  ok_undoing : Forall (fun n => 0 <= n) (undoing w);
  ok_bound : sum (granted w) <= limit (budget w) }.

Lemma sum_nonneg l : Forall (fun n => 0 <= n) l -> 0 <= sum l.
Proof. induction 1; cbn; lia. Qed.

Lemma reserve_add_eq n b b' v : reserve_add n b = (b', v) ->
  used b' = used b + n /\ limit b' = limit b /\ (v = Granted <-> used b + n <= limit b).
Proof.
  unfold reserve_add. cbn. case_decide; intros [= <- <-]; cbn; (split; [done|split; [done|split; [intros H0|intros H0]]]);
    try done; try lia.
Qed.

Lemma step_ok w w' : ok w -> step w w' -> ok w'.
Proof.
  intros Hok Hst. destruct Hst as [v n b Hn E|v n b Hn E|v n l1 l2 E|v n l1 l2 E];
    destruct Hok as [Hl Hu Hg Hd Hb]; pose proof (sum_nonneg _ Hd).
  - apply reserve_add_eq in E as (E1 & E2 & [E3 _]). specialize (E3 eq_refl).
    split; cbn; rewrite ?E1, ?E2; try done; [lia|by constructor|lia].
  - apply reserve_add_eq in E as (E1 & E2 & _). split; cbn; rewrite ?E1, ?E2; try done; [lia|by constructor].
  - rewrite E in *. rewrite sum_app in *. cbn in *. apply Forall_app in Hd as [Hd1 [Hn Hd2]%Forall_cons].
    split; cbn; rewrite ?sum_app; try done; [lia|by apply Forall_app].
  - rewrite E in *. rewrite sum_app in *. cbn in *. apply Forall_app in Hg as [Hg1 [Hn Hg2]%Forall_cons].
    unfold release. case_decide; split; cbn; rewrite ?sum_app; try done; try lia; by apply Forall_app.
Qed.

Lemma star_ok w w' : ok w -> star step w w' -> ok w'.
Proof. intros Hw Hs. eapply (star_inv step ok); [intros a b; apply step_ok|exact Hs|exact Hw]. Qed.

Definition start (lim : Z) : world := mkWorld (mkBudget 0 lim) [] [].

Lemma start_ok lim : 0 <= lim -> ok (start lim).
Proof. intros H. split; cbn; try done; constructor. Qed.

(** C35: however the callers interleave, the bytes granted at once never exceed
    the limit; and when no refusal is still being taken back the counter is
    exact, so the next reservation is granted if and only if it fits. *)
Theorem budget_never_exceeded lim w : 0 <= lim -> star step (start lim) w ->
  sum (granted w) <= lim /\ sum (granted w) <= used (budget w) /\
  (undoing w = [] -> used (budget w) = sum (granted w) /\
    forall n, snd (reserve n (budget w)) = true <-> sum (granted w) + n <= lim).
Proof.
  intros Hl Hs. destruct (star_ok _ _ (start_ok lim Hl) Hs) as [H1 H2 H3 H4 H5].
  assert (limit (budget w) = lim) as El.
  { clear -Hs. remember (start lim) as s eqn:E. induction Hs as [s|s w w' _ IH Hst]; [by subst|].
    specialize (IH E). destruct Hst as [v n b Hn E1|v n b Hn E1|v n l1 l2 E1|v n l1 l2 E1]; cbn; try done.
    - by apply reserve_add_eq in E1 as (_ & -> & _).
    - by apply reserve_add_eq in E1 as (_ & -> & _).
    - unfold release. by case_decide. }
  pose proof (sum_nonneg _ H4). split; [lia|]. split; [lia|]. intros Hu. rewrite Hu in H2. cbn in H2. split; [lia|].
  intros n. unfold reserve, reserve_add. cbn. rewrite El, H2. case_decide; cbn; split; intros ?; try done; lia.
Qed.

Lemma budget_never_exceeded_witness : let w := mkWorld (mkBudget 7 10) [7] [] in
  sum (granted w) <= 10 /\ sum (granted w) <= used (budget w) /\
  (undoing w = [] -> used (budget w) = sum (granted w) /\
    forall n, snd (reserve n (budget w)) = true <-> sum (granted w) + n <= 10).
Proof.
  intros w. apply (budget_never_exceeded 10 w); [lia|].
  apply (star_step _ _ (mkWorld (mkBudget 12 10) [7] [5])).
  - apply (star_step _ _ (mkWorld (mkBudget 7 10) [7] [])); [|by apply (step_overshoot (mkWorld (mkBudget 7 10) [7] []) 5)].
    apply (star_step _ _ (start 10)); [apply star_refl|by apply (step_grant (start 10) 7)].
  - by apply (step_undo (mkWorld (mkBudget 12 10) [7] [5]) 5 [] []).
Defined.

(** ** The budgeted reader *)

Definition budgetGranule : Z := 64 * 1024.

Record budgetReader := mkReader { held : Z; readUsed : Z }.

(** [budgetReader.Read] after the inner read returned [n] bytes: the reader,
    the budget, and whether the read goes on ([false] is [errBufferBudget]). *)
Definition Read (n : Z) (br : budgetReader) (b : byteBudget) : budgetReader * byteBudget * bool :=
  if decide (0 < n) then
    let br := mkReader (held br) (readUsed br + n) in
    if decide (held br < readUsed br) then
      let want := readUsed br - held br in
      let rem := want mod budgetGranule in
      let want := if decide (rem <> 0) then want + (budgetGranule - rem) else want in
      match reserve want b with
      | (b, true) => (mkReader (held br + want) (readUsed br), b, true)
      | (b, false) => (br, b, false)
      end
    else (br, b, true)
  else (br, b, true).

(** What the reader owes never falls behind what it read, in whole granules,
    by less than one. *)
Definition covered (br : budgetReader) : Prop :=
  0 <= readUsed br <= held br /\ held br < readUsed br + budgetGranule /\ held br mod budgetGranule = 0.

Fixpoint reads (ns : list Z) (br : budgetReader) (b : byteBudget) : budgetReader * byteBudget * bool :=
  match ns with
  | [] => (br, b, true)
  | n :: ns =>
      match Read n br b with
      | (br, b, true) => reads ns br b
      | r => r
      end
  end.

Lemma reserve_spec n b b' r : reserve n b = (b', r) ->
  limit b' = limit b /\ used b' = used b + (if r then n else 0) /\ (r = true <-> used b + n <= limit b).
Proof.
  unfold reserve, reserve_add. cbn. case_decide; intros [= <- <-]; cbn; (split; [done|split; [lia|split; [|]]]); intros; try done; lia.
Qed.

Lemma Read_spec n br b br' b' r : covered br -> Read n br b = (br', b', r) ->
  used b' - held br' = used b - held br /\ limit b' = limit b /\
  (r = true -> covered br' /\ readUsed br' = readUsed br + Z.max 0 n) /\
  (r = false -> held br' = held br /\ limit b < used b + (readUsed br + n - held br) + budgetGranule).
Proof.
  intros (H1 & H2 & H3). unfold Read. assert (0 < budgetGranule) as Hg by (unfold budgetGranule; lia).
  destruct (decide (0 < n)) as [Hn|Hn].
  2:{ intros [= <- <- <-]. split; [lia|]. split; [done|]. split; [|done]. intros _. split; [done|lia]. }
  cbn [held readUsed]. destruct (decide (held br < readUsed br + n)) as [Hh|Hh].
  2:{ intros [= <- <- <-]. cbn. split; [lia|]. split; [done|]. split; [|done]. intros _. split; [|lia]. unfold covered. cbn. lia. }
  set (want0 := readUsed br + n - held br). set (want := if decide _ then _ else want0).
  assert (want0 <= want < want0 + budgetGranule /\ want mod budgetGranule = 0) as [Hw Hwm].
  { unfold want. pose proof (Z.mod_pos_bound want0 budgetGranule Hg) as Hb. case_decide as Hr; [|split; [lia|]].
    - split; [lia|]. replace (want0 + (budgetGranule - want0 mod budgetGranule)) with ((want0 / budgetGranule + 1) * budgetGranule).
      + apply Z.mod_mul. lia.
      + pose proof (Z.div_mod want0 budgetGranule). lia.
    - destruct (decide (want0 mod budgetGranule = 0)); [done|tauto]. }
  destruct (reserve want b) as [b1 [|]] eqn:E; apply reserve_spec in E as (E1 & E2 & E3); intros [= <- <- <-]; cbn.
  - split; [lia|]. split; [done|]. split; [|done]. intros _. split; [|lia]. unfold covered. cbn.
    split; [lia|]. split; [lia|]. rewrite Z.add_mod, H3, Hwm by lia. rewrite Z.add_0_l. apply Z.mod_0_l. lia.
  - split; [lia|]. split; [done|]. split; [done|]. intros _. split; [done|].
    assert (~ used b + want <= limit b) by (intros Hx; apply E3 in Hx; done). lia.
Qed.

(** The bytes a read of [n] adds. *)
Definition delivered (n : Z) : Z := Z.max 0 n.

(** A body is charged before it is kept.  While its reads succeed, the
    reader holds from the budget at least the bytes it has read and less than
    one granule more; a refused read leaves the charge as it was; and at any
    time giving back what the reader holds restores the budget exactly. *)
Theorem budget_reader_covers ns b br' b' r :
  reads ns (mkReader 0 0) b = (br', b', r) ->
  used b' - held br' = used b /\ 0 <= held br' /\
  (r = true -> readUsed br' <= held br' < readUsed br' + budgetGranule /\ readUsed br' = sum (delivered <$> ns)) /\
  (r = false -> limit b < used b + sum (delivered <$> ns) + budgetGranule).
Proof.
  assert (forall ns br b, covered br -> reads ns br b = (br', b', r) ->
    used b' - held br' = used b - held br /\ 0 <= held br' /\
    (r = true -> covered br' /\ readUsed br' = readUsed br + sum (delivered <$> ns)) /\
    (r = false -> limit b < used b - held br + readUsed br + sum (delivered <$> ns) + budgetGranule)) as Hgen.
  { clear. assert (forall l, 0 <= sum (delivered <$> l)) as Hpos.
    { induction l as [|x l IH]; [done|]. change (0 <= delivered x + sum (delivered <$> l)). apply Z.add_nonneg_nonneg; [apply Z.le_max_l|exact IH]. }
    induction ns as [|n ns IH]; intros br b Hc; cbn [reads].
    - intros [= <- <- <-]. split; [lia|]. split; [unfold covered in Hc; lia|]. split; [intros _; split; [done|cbn; lia]|done].
    - destruct (Read n br b) as [[br1 b1] r1] eqn:E. pose proof (Read_spec _ _ _ _ _ _ Hc E) as (R1 & R2 & R3 & R4).
      change (delivered <$> n :: ns) with (Z.max 0 n :: (delivered <$> ns)). cbn [sum].
      destruct r1.
      + destruct (R3 eq_refl) as [Hc1 Hr1]. intros Hreads. destruct (IH br1 b1 Hc1 Hreads) as (I1 & I2 & I3 & I4).
        split; [lia|]. split; [done|]. split.
        * intros Ht. destruct (I3 Ht). split; [done|lia].
        * intros Hf. specialize (I4 Hf). lia.
      + intros [= <- <- <-]. destruct (R4 eq_refl) as [Hh Hlt]. specialize (Hpos ns). unfold covered in Hc.
        split; [lia|]. split; [lia|]. split; [done|]. intros _. lia. }
  intros Hr. assert (covered (mkReader 0 0)) as Hc by (split; [done|split; [done|done]]).
  destruct (Hgen ns (mkReader 0 0) b Hc Hr) as (H1 & H2 & H3 & H4). cbn [held readUsed] in *. split; [lia|]. split; [done|]. split.
  - intros Ht. destruct (H3 Ht) as [(Hc1 & Hc2 & _) E]. split; lia.
  - intros Hf. specialize (H4 Hf). lia.
Qed.

Lemma budget_reader_covers_witness : let r := reads [1000; 70000] (mkReader 0 0) (mkBudget 5 1000000) in
  r = (mkReader 131072 71000, mkBudget 131077 1000000, true) /\
  (131077 - 131072 = 5 /\ 0 <= 131072 /\
   (true = true -> 71000 <= 131072 < 71000 + budgetGranule /\ 71000 = sum (delivered <$> [1000; 70000])) /\
   (true = false -> 1000000 < 5 + sum (delivered <$> [1000; 70000]) + budgetGranule)).
Proof.
  split; [vm_compute; reflexivity|].
  apply (budget_reader_covers [1000; 70000] (mkBudget 5 1000000) (mkReader 131072 71000) (mkBudget 131077 1000000) true).
  vm_compute. reflexivity.
Defined.
