(* ===== verification/Clip.v ===== *)
(** * Cutting strings ([internal/clip] and [internal/agent/cumagg/render.go])

    The byte-bounded cuts on a rune boundary: the cold-path one for log lines,
    and the label cut shared by a series' key and its rendered label.  A string
    is its bytes. *)

From S2P Require Import Prelude.
Local Open Scope Z_scope.

Notation bytes := (list Z).

(** [utf8.RuneStart], and the same test spelled with a mask. *)
Definition RuneStart (b : Z) : bool := negb (bool_decide (Z.land b 0xC0 = 0x80)).

(** [for n > 0 && !RuneStart(s[n]) { n-- }] *)
Fixpoint back_off (s : bytes) (n : nat) : nat :=
  match n with
  | 0%nat => 0%nat
  | S n' => if RuneStart (default 0 (s !! n)) then n else back_off s n'
  end.

Definition Runes (s : bytes) (n : Z) : bytes :=
  if decide (n <= 0) then []
  else if decide (Z.of_nat (length s) <= n) then s
  else take (back_off s (Z.to_nat n)) s.

Definition Marked (s : bytes) (n : Z) (mark : bytes) : bytes :=
  if decide (Z.of_nat (length s) <= n) then s else Runes s n ++ mark.

Definition MaxLabelBytes : nat := 256.

Definition truncLen (v : bytes) : nat :=
  let end_ := back_off v MaxLabelBytes in
  if decide (end_ = 0%nat) then MaxLabelBytes else end_.

Definition Trunc (v : bytes) : bytes :=
  if decide (length v <= MaxLabelBytes)%nat then v else take (truncLen v) v.

(** The copy [Retain] makes has the same bytes. *)
Definition Retain (v : bytes) : bytes :=
  if decide (length v <= MaxLabelBytes)%nat then v else take (truncLen v) v.

(** ** Valid UTF-8 (RFC 3629) *)

Definition cont (b : Z) : Prop := 0x80 <= b <= 0xBF.

Inductive rune : bytes -> Prop :=
| rune1 a : 0 <= a <= 0x7F -> rune [a]
| rune2 a b : 0xC2 <= a <= 0xDF -> cont b -> rune [a; b]
| rune3 a b c : 0xE0 <= a <= 0xEF -> cont b -> cont c -> (a = 0xE0 -> 0xA0 <= b) -> (a = 0xED -> b <= 0x9F) -> rune [a; b; c]
| rune4 a b c d : 0xF0 <= a <= 0xF4 -> cont b -> cont c -> cont d -> (a = 0xF0 -> 0x90 <= b) -> (a = 0xF4 -> b <= 0x8F) ->
    rune [a; b; c; d].

Inductive valid : bytes -> Prop :=
| valid_nil : valid []
| valid_app r s : rune r -> valid s -> valid (r ++ s).

Lemma cont_not_start b : cont b -> RuneStart b = false.
Proof.
  intros Hb. unfold RuneStart. rewrite bool_decide_eq_true_2; [done|]. unfold cont in Hb.
  assert (b = 128 + (b - 128)) as -> by lia. assert (0 <= b - 128 < 64) as Hr by lia. revert Hr. generalize (b - 128).
  intros r Hr. apply Z.bits_inj'. intros n Hn.
  assert (128 + r = Z.lor 128 r) as ->.
  { rewrite <- Z.lxor_lor, Z.add_nocarry_lxor; [done| |]; apply Z.bits_inj'; intros m Hm; rewrite Z.land_spec, Z.bits_0;
      change 128 with (2 ^ 7); (destruct (decide (m = 7)) as [->|Hne];
      [rewrite (Z.testbit_eqb r) by lia; rewrite Z.div_small by lia; apply andb_false_r|rewrite Z.pow2_bits_false by lia; done]). }
  rewrite Z.land_spec, Z.lor_spec. change 0x80 with (2 ^ 7). change 0xC0 with (2 ^ 7 + 2 ^ 6).
  destruct (decide (n = 7)) as [->|H7]; [done|]. rewrite !Z.pow2_bits_false by lia. cbn [orb].
  destruct (decide (n < 6)) as [H6|H6].
  - replace (Z.testbit (2 ^ 7 + 2 ^ 6) n) with false; [apply andb_false_r|].
    assert (n = 0 \/ n = 1 \/ n = 2 \/ n = 3 \/ n = 4 \/ n = 5) as Hc by lia.
    by destruct Hc as [->|[->|[->|[->|[->| ->]]]]].
  - rewrite (Z.testbit_eqb r) by lia. rewrite Z.div_small; [done|]. split; [lia|]. eapply Z.lt_le_trans; [apply Hr|].
    change 64 with (2 ^ 6). apply Z.pow_le_mono_r; lia.
Qed.

(** Inside a rune every byte but the first is a continuation byte. *)
Lemma rune_cont r i b : rune r -> r !! i = Some b -> (0 < i)%nat -> RuneStart b = false.
Proof.
  intros [] Hi Hpos; (destruct i as [|i]; [lia|]); cbn in Hi;
    repeat (destruct i as [|i]; cbn in Hi; [injection Hi as <-; by apply cont_not_start|]); done.
Qed.

Lemma rune_length r : rune r -> (1 <= length r <= 4)%nat.
Proof. intros []; cbn; lia. Qed.

Lemma valid_take s n b : valid s -> s !! n = Some b -> RuneStart b = true -> valid (take n s).
Proof.
  intros Hs. revert n. induction Hs as [|r s Hr Hs IH]; intros n Hn Hb; [done|].
  destruct (decide (length r <= n)%nat) as [Hle|Hlt].
  - rewrite lookup_app_r in Hn by done. rewrite take_app_ge by done. constructor; [done|by apply IH].
  - rewrite lookup_app_l in Hn by lia. destruct n as [|n]; [constructor|].
    by rewrite (rune_cont r (S n) b Hr Hn) in Hb by lia.
Qed.

Lemma back_off_spec s n : (back_off s n <= n)%nat /\ (back_off s n = 0%nat \/ RuneStart (default 0 (s !! back_off s n)) = true) /\
  forall m, (back_off s n < m <= n)%nat -> RuneStart (default 0 (s !! m)) = false.
Proof.
  induction n as [|n (IH1 & IH2 & IH3)]; cbn [back_off]; [split; [lia|split; [by left|lia]]|].
  destruct (RuneStart (default 0 (s !! S n))) eqn:E; [split; [lia|split; [by right|lia]]|].
  split; [lia|]. split; [done|]. intros m Hm. destruct (decide (m = S n)) as [->|]; [done|]. apply IH3. lia.
Qed.

Lemma lead_start a : 0 <= a <= 0x7F \/ 0xC0 <= a <= 0xFF -> RuneStart a = true.
Proof.
  intros Ha. unfold RuneStart. apply negb_true_iff, bool_decide_eq_false. intros E.
  pose proof (f_equal (fun z => Z.testbit z 6) E) as E6. pose proof (f_equal (fun z => Z.testbit z 7) E) as E7.
  cbv beta in E6, E7. rewrite Z.land_spec in E6, E7.
  change (Z.testbit 0xC0 6) with true in E6. change (Z.testbit 0x80 6) with false in E6.
  change (Z.testbit 0xC0 7) with true in E7. change (Z.testbit 0x80 7) with true in E7.
  rewrite andb_true_r in E6, E7. rewrite Z.testbit_eqb in E6, E7 by lia. destruct Ha as [Ha|Ha].
  - rewrite Z.div_small in E7 by lia. done.
  - assert (a / 2 ^ 6 = 3) as Hd by (symmetry; apply (Z.div_unique_pos _ _ _ (a - 192)); lia). by rewrite Hd in E6.
Qed.

(** In a valid string a boundary is at most three bytes back. *)
Lemma valid_boundary s n : valid s -> (n < length s)%nat ->
  exists m b, (n <= m + 3)%nat /\ (m <= n)%nat /\ s !! m = Some b /\ RuneStart b = true.
Proof.
  intros Hs. revert n. induction Hs as [|r s Hr Hs IH]; intros n Hn; [cbn in Hn; lia|].
  pose proof (rune_length r Hr) as Hl. destruct (decide (n < length r)%nat) as [Hlt|Hge].
  - destruct (lookup_lt_is_Some_2 (r ++ s) 0) as [b Hb]; [lia|]. exists 0%nat, b.
    split; [lia|split; [lia|split; [done|]]]. destruct Hr; cbn in Hb; injection Hb as <-; apply lead_start; lia.
  - destruct (IH (n - length r)%nat) as (m & b & H1 & H2 & H3 & H4); [rewrite length_app in Hn; lia|].
    exists (length r + m)%nat, b. split; [lia|split; [lia|split; [|done]]]. rewrite lookup_app_r by lia.
    by replace (length r + m - length r)%nat with m by lia.
Qed.

(** A cut never breaks a rune.  Cutting valid UTF-8 leaves valid UTF-8, a
    prefix within the bound, losing at most three bytes of it; a string within
    the bound is left alone. *)
Theorem Runes_sound s n : valid s ->
  valid (Runes s n) /\ prefix (Runes s n) s /\ Z.of_nat (length (Runes s n)) <= Z.max 0 n /\
  (0 < n < Z.of_nat (length s) -> n - 3 <= Z.of_nat (length (Runes s n))) /\
  (Z.of_nat (length s) <= n -> 0 < n -> Runes s n = s).
Proof.
  intros Hs. unfold Runes. destruct (decide (n <= 0)) as [H0|H0].
  { split; [constructor|]. split; [apply prefix_nil|]. split; [cbn; lia|]. split; lia. }
  destruct (decide (Z.of_nat (length s) <= n)) as [Hle|Hgt]; [split; [done|split; [done|split; [lia|split; [lia|done]]]]|].
  destruct (back_off_spec s (Z.to_nat n)) as (B1 & B2 & B3). set (k := back_off s (Z.to_nat n)) in *.
  assert (length (take k s) = k) as Hk by (apply length_take_le; lia). rewrite Hk.
  split; [|split; [by exists (drop k s); rewrite take_drop|split; [lia|split; [|lia]]]].
  - destruct B2 as [->|Hb]; [constructor|]. destruct (lookup_lt_is_Some_2 s k) as [b Eb]; [lia|].
    rewrite Eb in Hb. by eapply valid_take.
  - intros _. destruct (valid_boundary s (Z.to_nat n) Hs) as (m & b & M1 & M2 & M3 & M4); [lia|].
    destruct (decide (k < m)%nat) as [Hlt|]; [|lia]. specialize (B3 m ltac:(lia)). rewrite M3 in B3. cbn in B3. congruence.
Qed.

Definition ex_str : bytes := [104; 195; 169; 108; 108; 111].  (* "héllo" *)

Lemma Runes_sound_witness : Runes ex_str 2 = [104] /\
  (valid (Runes ex_str 2) /\ prefix (Runes ex_str 2) ex_str /\ Z.of_nat (length (Runes ex_str 2)) <= Z.max 0 2 /\
   (0 < 2 < Z.of_nat (length ex_str) -> 2 - 3 <= Z.of_nat (length (Runes ex_str 2))) /\
   (Z.of_nat (length ex_str) <= 2 -> 0 < 2 -> Runes ex_str 2 = ex_str)).
Proof.
  split; [reflexivity|]. apply (Runes_sound ex_str 2).
  apply (valid_app [104]); [constructor; lia|]. apply (valid_app [195; 169]); [constructor; unfold cont; lia|].
  apply (valid_app [108]); [constructor; lia|]. apply (valid_app [108]); [constructor; lia|].
  apply (valid_app [111]); [constructor; lia|]. constructor.
Defined.

Lemma truncLen_range v : (0 < truncLen v <= MaxLabelBytes)%nat.
Proof.
  unfold truncLen. destruct (back_off_spec v MaxLabelBytes) as (B1 & _). case_decide; unfold MaxLabelBytes in *; lia.
Qed.

Lemma Retain_short v : (length (Retain v) <= MaxLabelBytes)%nat.
Proof. unfold Retain. case_decide; [done|]. rewrite length_take. pose proof (truncLen_range v). lia. Qed.

Lemma Retain_idem v : Retain (Retain v) = Retain v.
Proof. unfold Retain at 1. by rewrite decide_True by apply Retain_short. Qed.

(** The series key and the rendered label are cut alike.  The cut is
    bounded, keeps valid UTF-8 valid, never blanks a label, and cutting what
    was already cut changes nothing, so a kept value and one consumed on the
    spot name the same series. *)
Theorem label_cut v : Trunc v = Retain v /\ (length (Retain v) <= MaxLabelBytes)%nat /\
  Retain (Retain v) = Retain v /\ Trunc (Retain v) = Trunc v /\ (Retain v = [] <-> v = []) /\
  (valid v -> valid (Retain v)).
Proof.
  pose proof (Retain_short v) as Hl.
  split; [done|split; [done|]]. split; [|split; [|split]].
  - apply Retain_idem.
  - unfold Trunc at 1. by rewrite decide_True.
  - unfold Retain. case_decide; [done|]. pose proof (truncLen_range v). split; intros E.
    + apply (f_equal length) in E. rewrite length_take in E. cbn in E. lia.
    + by subst v.
  - intros Hv. unfold Retain. case_decide as Hd; [done|]. unfold truncLen.
    destruct (back_off_spec v MaxLabelBytes) as (B1 & B2 & B3). destruct (valid_boundary v MaxLabelBytes Hv) as (m & b & M1 & M2 & M3 & M4); [lia|].
    assert (m <= back_off v MaxLabelBytes)%nat as Hm.
    { destruct (decide (back_off v MaxLabelBytes < m)%nat) as [Hlt|]; [|lia]. specialize (B3 m ltac:(lia)). rewrite M3 in B3.
      cbn in B3. congruence. }
    rewrite decide_False by (unfold MaxLabelBytes in *; lia). destruct B2 as [E0|Hb]; [unfold MaxLabelBytes in *; lia|].
    destruct (lookup_lt_is_Some_2 v (back_off v MaxLabelBytes)) as [x Ex]; [lia|]. rewrite Ex in Hb. by eapply valid_take.
Qed.
