(* ===== verification/Order.v ===== *)
(** * Strings, ordered as Go orders them

    [<] and [slices.Sort] on strings compare bytes, a prefix first. *)

From S2P Require Import Prelude.
From stdpp Require Import sorting.
Local Open Scope Z_scope.

Notation name := (list Z).

Fixpoint name_leb (a b : name) : bool :=
  match a, b with
  | [], _ => true
  | _, [] => false
  | x :: a, y :: b => if decide (x < y) then true else if decide (x = y) then name_leb a b else false
  end.

Definition name_le (a b : name) : Prop := name_leb a b = true.

#[export] Instance name_le_dec : RelDecision name_le.
Proof. intros a b. unfold name_le. apply _. Defined.

Lemma name_le_total a b : name_le a b \/ name_le b a.
Proof.
  unfold name_le. revert b. induction a as [|x a IH]; intros [|y b]; cbn; auto.
  destruct (decide (x < y)), (decide (y < x)); try lia; auto.
  assert (x = y) as -> by lia. rewrite !decide_True by done. apply IH.
Qed.

Lemma name_le_refl a : name_le a a.
Proof. by destruct (name_le_total a a). Qed.

Lemma name_le_trans a b c : name_le a b -> name_le b c -> name_le a c.
Proof.
  unfold name_le. revert b c. induction a as [|x a IH]; intros [|y b] [|z c]; cbn; try done.
  destruct (decide (x < y)), (decide (y < z)); intros H1 H2; repeat case_decide; try done; try lia; subst; by eapply IH.
Qed.

Lemma name_le_antisym a b : name_le a b -> name_le b a -> a = b.
Proof.
  unfold name_le. revert b. induction a as [|x a IH]; intros [|y b]; cbn; try done.
  intros H1 H2. repeat case_decide; try done; try lia. subst. f_equal. by apply IH.
Qed.

#[export] Instance name_le_Total : Total name_le.
Proof. intros a b. apply name_le_total. Qed.
#[export] Instance name_le_Transitive : Transitive name_le.
Proof. intros a b c. apply name_le_trans. Qed.
#[export] Instance name_le_AntiSymm : AntiSymm eq name_le.
Proof. intros a b. apply name_le_antisym. Qed.

Definition sort_names (l : list name) : list name := merge_sort name_le l.

Lemma sort_names_perm l : sort_names l ≡ₚ l.
Proof. apply merge_sort_Permutation. Qed.

(** There is one sorted arrangement of a set of names. *)
Lemma sort_names_unique l l' : l ≡ₚ l' -> sort_names l = sort_names l'.
Proof.
  intros E. apply (StronglySorted_unique name_le); [apply StronglySorted_merge_sort; apply _..|].
  by rewrite !sort_names_perm.
Qed.
