(* ===== verification/Ring.v ===== *)
(** * The shard ring ([internal/agent/servicegraph/ring.go])

    Which shard owns a trace: virtual tokens derived from the shard names, a
    sorted token table, and a binary search.  [uint32] arithmetic is reduced
    modulo 2^32; a name is its bytes. *)

From stdpp Require Import sorting.
From Stdlib Require Import Ascii.
From S2P Require Import Prelude.
From S2P Require Export Order.
Local Open Scope Z_scope.

Definition two32 : Z := 2 ^ 32.
Definition u32 (z : Z) : Z := z mod two32.

(** ** Hashes *)

Definition fnvOffset32 : Z := 2166136261.
Definition fnvPrime32 : Z := 16777619.

Definition TokenFor (tenant : name) (traceID : list Z) : Z :=
  foldl (fun h c => Z.lxor (u32 (h * fnvPrime32)) c) fnvOffset32 (tenant ++ traceID).

Definition mix32 (z : Z) : Z :=
  let z := Z.lxor z (Z.shiftr z 16) in
  let z := u32 (z * 0x21f0aaad) in
  let z := Z.lxor z (Z.shiftr z 15) in
  let z := u32 (z * 0x735a2d97) in
  Z.lxor z (Z.shiftr z 15).

Definition fnv1a32 (s : name) : Z :=
  foldl (fun h c => u32 (Z.lxor h c * fnvPrime32)) fnvOffset32 s.

(** [shardTokens]: a Weyl sequence through the finalizer. *)
Fixpoint token_stream (state : Z) (n : nat) : list Z :=
  match n with
  | 0%nat => []
  | S n => let state := u32 (state + 0x9e3779b9) in mix32 state :: token_stream state n
  end.

Definition shardTokens (s : name) (n : nat) : list Z := token_stream (fnv1a32 s) n.

(** ** Construction *)

Definition DefaultTokensPerShard : Z := 1024.

Record Ring := mkRing { shards : list name; tokens : list Z; owner : list nat }.

(** [dedupeStrings]; the in-place compaction never overwrites the neighbour it
    compares with. *)
Fixpoint dedupe_from (prev : option name) (sorted : list name) : list name :=
  match sorted with
  | [] => []
  | s :: rest =>
      if bool_decide (s = []) || bool_decide (prev = Some s) then dedupe_from (Some s) rest
      else s :: dedupe_from (Some s) rest
  end.
Definition dedupeStrings (sorted : list name) : list name := dedupe_from None sorted.

Definition entry_le (a b : Z * nat) : Prop := a.1 < b.1 \/ (a.1 = b.1 /\ (a.2 <= b.2)%nat).
#[export] Instance entry_le_dec : RelDecision entry_le.
Proof. intros a b. unfold entry_le. apply _. Defined.

(** Drop an entry whose token is its predecessor's. *)
Fixpoint dedupe_tokens (prev : option Z) (all : list (Z * nat)) : list (Z * nat) :=
  match all with
  | [] => []
  | e :: rest =>
      if decide (prev = Some e.1) then dedupe_tokens (Some e.1) rest
      else e :: dedupe_tokens (Some e.1) rest
  end.

Definition ring_names (ss : list name) : list name := dedupeStrings (merge_sort name_le ss).

Definition entries (names : list name) (n : nat) : list (Z * nat) :=
  concat (imap (fun i s => (fun t => (t, i)) <$> shardTokens s n) names).

Definition per_shard (tokensPerShard : Z) : nat :=
  Z.to_nat (if decide (tokensPerShard <= 0) then DefaultTokensPerShard else tokensPerShard).

Definition NewRing (ss : list name) (tokensPerShard : Z) : Ring :=
  let names := ring_names ss in
  match names with
  | [] => mkRing [] [] []
  | _ =>
      let all := merge_sort entry_le (entries names (per_shard tokensPerShard)) in
      let kept := dedupe_tokens None all in
      mkRing names (kept.*1) (kept.*2)
  end.

(** ** Lookup *)

(** [sort.Search]: the smallest index at which the monotone [f] holds; the
    interval halves, so its length is fuel enough. *)
Fixpoint search_loop (fuel : nat) (i j : nat) (f : nat -> bool) : nat :=
  match fuel with
  | 0%nat => i
  | S fuel =>
      if decide (i < j)%nat then
        let h := Nat.div2 (i + j) in
        if f h then search_loop fuel i h f else search_loop fuel (S h) j f
      else i
  end.
Definition search (n : nat) (f : nat -> bool) : nat := search_loop (S n) 0 n f.

Definition token_at (r : Ring) (i : nat) : Z := default 0 (tokens r !! i).

Definition index (r : Ring) (key : Z) : nat :=
  let n := length (tokens r) in
  let i := search n (fun i => bool_decide (key <= token_at r i)) in
  if decide (i = n) then 0%nat else i.

(** The shard a key hashes to; [[]] is the empty name. *)
Definition owner_of_key (r : Ring) (key : Z) : name :=
  match tokens r with
  | [] => []
  | _ => default [] (o ← owner r !! index r key; shards r !! o)
  end.

Definition OwnerForTenant (r : Ring) (tenant : name) (traceID : list Z) : name :=
  owner_of_key r (TokenFor tenant traceID).
Definition Owner (r : Ring) (traceID : list Z) : name := OwnerForTenant r [] traceID.

(** * What the shard ring guarantees

    A key is owned by the first token at or after it on the circle, the least
    name breaking ties; the ring is a function of the set of names alone; and a
    new shard takes keys from the others without moving any between them. *)


(** ** Names *)

Lemma dedupe_from_spec l : forall prev, StronglySorted name_le l ->
  (forall p, prev = Some p -> forall x, x ∈ l -> name_le p x) ->
  (forall x, x ∈ dedupe_from prev l <-> x ∈ l /\ x <> [] /\ prev <> Some x) /\
  StronglySorted name_le (dedupe_from prev l) /\ NoDup (dedupe_from prev l).
Proof.
  induction l as [|s l IH]; intros prev Hs Hp; cbn.
  - split; [|split; constructor]. intros x. rewrite !elem_of_nil. tauto.
  - inversion Hs as [|? ? Hs' Hall]; subst. rewrite Forall_forall in Hall.
    destruct (IH (Some s)) as (IH1 & IH2 & IH3); [done|intros p [= <-]; apply Hall|].
    assert (forall x, x ∈ dedupe_from (Some s) l -> name_le s x) as Hge.
    { intros x (Hx & _)%IH1. by apply Hall. }
    destruct (bool_decide (s = []) || bool_decide (prev = Some s)) eqn:E.
    + split; [|done]. intros x. rewrite IH1, elem_of_cons.
      apply orb_true_iff in E as [->%bool_decide_eq_true| ->%bool_decide_eq_true].
      * split; [intros (? & ? & _); split; [by right|split; [done|]]|].
        -- intros ->. specialize (Hp x eq_refl [] ltac:(by left)). by destruct x.
        -- intros ([->|?] & ? & ?); [done|]. split; [done|split; [done|]]. intros [= <-]. done.
      * split; [intros (? & ? & ?); split; [by right|done]|]. intros ([->|?] & ? & ?); [done|by split].
    + apply orb_false_iff in E as [E1%bool_decide_eq_false E2%bool_decide_eq_false].
      split; [|split].
      * intros x. rewrite !elem_of_cons, IH1. split.
        -- intros [->|(? & ? & Hne)]; [split; [by left|done]|]. split; [by right|split; [done|]].
           intros ->. apply Hne. f_equal. apply name_le_antisym; [by apply Hall|]. apply (Hp x eq_refl). by left.
        -- intros ([->|?] & ? & ?); [by left|]. destruct (decide (x = s)) as [->|]; [by left|right].
           split; [done|split; [done|congruence]].
      * constructor; [done|]. rewrite Forall_forall. exact Hge.
      * constructor; [|done]. intros (_ & _ & H)%IH1. done.
Qed.

Lemma ring_names_spec ss :
  (forall x, x ∈ ring_names ss <-> x ∈ ss /\ x <> []) /\ StronglySorted name_le (ring_names ss) /\ NoDup (ring_names ss).
Proof.
  unfold ring_names, dedupeStrings.
  destruct (dedupe_from_spec (merge_sort name_le ss) None) as (H1 & H2 & H3); [apply StronglySorted_merge_sort; apply _|done|].
  split; [|done]. intros x. rewrite H1. rewrite (merge_sort_Permutation name_le ss). naive_solver.
Qed.

(** Only the set of non-empty names matters. *)
Lemma ring_names_set s1 s2 : (forall x, x <> [] -> x ∈ s1 <-> x ∈ s2) -> ring_names s1 = ring_names s2.
Proof.
  intros H. destruct (ring_names_spec s1) as (A1 & A2 & A3), (ring_names_spec s2) as (B1 & B2 & B3).
  apply (StronglySorted_unique name_le); [done|done|]. apply NoDup_Permutation; [done|done|].
  intros x. rewrite A1, B1. split; intros [? ?]; (split; [by apply H|done]).
Qed.

(** ** Tokens *)

Lemma lxor_bound a b : 0 <= a < two32 -> 0 <= b < two32 -> 0 <= Z.lxor a b < two32.
Proof.
  intros Ha Hb. assert (Z.lxor a b = Z.land (Z.lxor a b) (Z.ones 32)) as E.
  { apply Z.bits_inj'. intros n Hn. rewrite Z.land_spec, !Z.lxor_spec. destruct (decide (n < 32)) as [Hl|Hl].
    - rewrite Z.ones_spec_low by lia. by rewrite andb_true_r.
    - rewrite Z.ones_spec_high, andb_false_r by lia.
      assert (forall x, 0 <= x < two32 -> Z.testbit x n = false) as Hz.
      { intros x Hx. rewrite Z.testbit_eqb by lia. rewrite Z.div_small; [done|]. unfold two32 in Hx. split; [lia|].
        eapply Z.lt_le_trans; [apply Hx|]. apply Z.pow_le_mono_r; lia. }
      by rewrite !Hz. }
  rewrite E, Z.land_ones by lia. unfold two32. apply Z.mod_pos_bound. lia.
Qed.

Lemma u32_bound z : 0 <= u32 z < two32.
Proof. unfold u32, two32. apply Z.mod_pos_bound. lia. Qed.

Lemma shiftr_bound z k : 0 <= k -> 0 <= z < two32 -> 0 <= Z.shiftr z k < two32.
Proof.
  intros Hk Hz. rewrite Z.shiftr_div_pow2 by done. assert (0 < 2 ^ k) by (apply Z.pow_pos_nonneg; lia).
  split; [apply Z.div_pos; lia|]. eapply Z.le_lt_trans; [|apply Hz]. apply Z.div_le_upper_bound; nia.
Qed.

Lemma mix32_bound z : 0 <= mix32 z < two32.
Proof. unfold mix32. apply lxor_bound; [apply u32_bound|]. apply shiftr_bound; [lia|apply u32_bound]. Qed.

Lemma shardTokens_bound s n t : t ∈ shardTokens s n -> 0 <= t < two32.
Proof.
  unfold shardTokens. generalize (fnv1a32 s). induction n as [|n IH]; intros st; cbn; [by intros ?%not_elem_of_nil|].
  intros [->|Ht]%elem_of_cons; [apply mix32_bound|by eapply IH].
Qed.

Lemma shardTokens_ne s n : (0 < n)%nat -> shardTokens s n <> [].
Proof. unfold shardTokens. by destruct n; [lia|]. Qed.

(** ** The table *)

#[export] Instance entry_le_Total : Total entry_le.
Proof. intros a b. unfold entry_le. lia. Qed.
#[export] Instance entry_le_Transitive : Transitive entry_le.
Proof. intros a b c. unfold entry_le. lia. Qed.

Definition token_lt (a b : Z * nat) : Prop := a.1 < b.1.

Lemma dedupe_tokens_spec l : forall prev, StronglySorted entry_le l ->
  (forall p, prev = Some p -> forall e, e ∈ l -> p <= e.1) ->
  StronglySorted token_lt (dedupe_tokens prev l) /\
  (forall e, e ∈ dedupe_tokens prev l -> e ∈ l /\ prev <> Some e.1) /\
  (forall e, e ∈ l -> prev <> Some e.1 -> exists o, (e.1, o) ∈ dedupe_tokens prev l /\ (o <= e.2)%nat).
Proof.
  induction l as [|s l IH]; intros prev Hs Hp; cbn.
  - split; [constructor|]. split; intros e He; by apply not_elem_of_nil in He.
  - inversion Hs as [|? ? Hs' Hall]; subst. rewrite Forall_forall in Hall.
    destruct (IH (Some s.1)) as (IH1 & IH2 & IH3); [done|intros p [= <-] e He; specialize (Hall e He); unfold entry_le in Hall; lia|].
    destruct (decide (prev = Some s.1)) as [->|Hne].
    + split; [done|]. split.
      * intros e He. destruct (IH2 e He). split; [by right|done].
      * intros e [->|He]%elem_of_cons Hp'; [done|]. by apply IH3.
    + split; [|split].
      * constructor; [done|]. rewrite Forall_forall. intros e He. destruct (IH2 e He) as [He' Hne'].
        specialize (Hall e He'). unfold entry_le, token_lt in *. assert (s.1 <> e.1) by congruence. lia.
      * intros e [->|He]%elem_of_cons; [split; [by left|done]|]. destruct (IH2 e He) as [He' Hne']. split; [by right|].
        intros ->. specialize (Hp e.1 eq_refl s ltac:(by left)). specialize (Hall e He'). unfold entry_le in Hall.
        assert (s.1 <> e.1) by congruence. lia.
      * intros e [->|He]%elem_of_cons Hp'; [exists s.2; split; [rewrite <- surjective_pairing; by left|done]|].
        destruct (decide (s.1 = e.1)) as [E|E].
        -- exists s.2. split; [rewrite <- E, <- surjective_pairing; by left|]. specialize (Hall e He). unfold entry_le in Hall. lia.
        -- destruct (IH3 e He) as (o & Ho & ?); [congruence|]. exists o. split; [by right|done].
Qed.

Lemma entries_spec names n t o : (t, o) ∈ entries names n <-> exists s, names !! o = Some s /\ t ∈ shardTokens s n.
Proof.
  unfold entries.
  split.
  - intros Hin. apply list_elem_of_In, in_concat in Hin as (l & Hl & Hin).
    apply list_elem_of_In in Hl, Hin. apply elem_of_lookup_imap in Hl as (i & s & -> & Hs).
    apply list_elem_of_fmap in Hin as (t' & [= -> ->] & Ht). by exists s.
  - intros (s & Hs & Ht). apply list_elem_of_In, in_concat. exists ((fun t => (t, o)) <$> shardTokens s n).
    split; apply list_elem_of_In; [apply elem_of_lookup_imap; by exists o, s|]. apply list_elem_of_fmap. by exists t.
Qed.

(** ** Binary search *)

Lemma search_loop_spec f n fuel : forall i j, (forall a b, (a <= b)%nat -> f a = true -> f b = true) ->
  (i <= j <= n)%nat -> (j - i < fuel)%nat ->
  (forall a, (a < i)%nat -> f a = false) -> (forall a, (j <= a < n)%nat -> f a = true) ->
  let k := search_loop fuel i j f in
  (k <= n)%nat /\ (forall a, (a < k)%nat -> f a = false) /\ (forall a, (k <= a < n)%nat -> f a = true).
Proof.
  induction fuel as [|fuel IH]; intros i j Hm Hij Hf Hlo Hhi; [lia|]. cbn. destruct (decide (i < j)%nat) as [Hlt|Hge].
  - pose proof (Nat.div2_odd (i + j)) as Hd.
    assert (i <= Nat.div2 (i + j) < j)%nat as Hh.
    { destruct (Nat.odd (i + j)); cbn [Nat.b2n] in Hd; lia. }
    destruct (f (Nat.div2 (i + j))) eqn:E; apply IH; try done; try lia.
    + intros a Ha. destruct (decide (a < j)%nat); [|apply Hhi; lia]. apply (Hm (Nat.div2 (i + j))); [lia|done].
    + intros a Ha. destruct (f a) eqn:Ea; [|done]. rewrite (Hm a (Nat.div2 (i + j))) in E; [done|lia|done].
  - replace j with i in Hhi by lia. split; [lia|done].
Qed.

(** ** Ownership *)

(** How far clockwise from [key] the token [t] is. *)
Definition dist (key t : Z) : Z := (t - key) mod two32.

Lemma dist_eq key t : 0 <= key < two32 -> 0 <= t < two32 ->
  dist key t = if decide (key <= t) then t - key else t - key + two32.
Proof.
  intros Hk Ht. unfold dist. case_decide; [apply Z.mod_small; lia|].
  rewrite <- (Z_mod_plus_full (t - key) 1 two32). apply Z.mod_small. lia.
Qed.

Lemma dist_inj key t t' : 0 <= key < two32 -> 0 <= t < two32 -> 0 <= t' < two32 -> dist key t = dist key t' -> t = t'.
Proof. intros Hk Ht Ht'. rewrite !dist_eq by done. repeat case_decide; lia. Qed.

(** [x] is the shard at the closest token, the least name breaking ties. *)
Definition closest (ss : list name) (n : nat) (key : Z) (x : name) : Prop :=
  x ∈ ss /\ x <> [] /\ exists t, t ∈ shardTokens x n /\
    forall y t', y ∈ ss -> y <> [] -> t' ∈ shardTokens y n ->
      dist key t < dist key t' \/ (t = t' /\ name_le x y).

Lemma closest_unique ss n key x y : closest ss n key x -> closest ss n key y -> x = y.
Proof.
  intros (Hx & Hx0 & t & Ht & Hmin) (Hy & Hy0 & t' & Ht' & Hmin').
  specialize (Hmin y t' Hy Hy0 Ht'). specialize (Hmin' x t Hx Hx0 Ht).
  destruct Hmin as [?|[-> ?]], Hmin' as [?|[? ?]]; try lia; [subst; lia|]. by apply name_le_antisym.
Qed.

Lemma sorted_lookup {A} (R : A -> A -> Prop) (l : list A) i j a b : StronglySorted R l -> l !! i = Some a -> l !! j = Some b ->
  (i < j)%nat -> R a b.
Proof.
  intros Hs. revert i j. induction Hs as [|x l Hs IH Hall]; intros i j Hi Hj Hlt; [done|].
  destruct j as [|j]; [lia|]. cbn in Hj. destruct i as [|i]; cbn in Hi.
  - injection Hi as <-. rewrite Forall_forall in Hall. apply Hall. by eapply list_elem_of_lookup_2.
  - apply (IH i j); [done|done|lia].
Qed.

(** The table entry a key falls on is the closest one. *)
Lemma index_closest names kept key i t o : StronglySorted token_lt kept -> (forall e, e ∈ kept -> 0 <= e.1 < two32) ->
  0 <= key < two32 -> i = index (mkRing names (kept.*1) (kept.*2)) key -> kept !! i = Some (t, o) ->
  forall t' o', (t', o') ∈ kept -> dist key t < dist key t' \/ (t = t' /\ o = o').
Proof.
  intros Hs Hb Hk Hi Hlk t' o' Hin'. apply list_elem_of_lookup in Hin' as [j Hj].
  assert (forall a b ea eb, kept !! a = Some ea -> kept !! b = Some eb -> (a < b)%nat -> ea.1 < eb.1) as Hmono.
  { intros a b ea eb Ha Hbb Hlt. by apply (sorted_lookup token_lt kept a b). }
  set (r := mkRing names (kept.*1) (kept.*2)) in *.
  assert (forall a ea, kept !! a = Some ea -> token_at r a = ea.1) as Hat.
  { intros a ea Ha. unfold token_at. cbn. rewrite list_lookup_fmap, Ha. done. }
  assert (length (tokens r) = length kept) as Hlen by (cbn; by rewrite length_fmap).
  assert (0 <= t < two32 /\ 0 <= t' < two32) as [Ht Ht'].
  { split; [apply (Hb (t, o))|apply (Hb (t', o'))]; by eapply list_elem_of_lookup_2. }
  set (f := fun a => bool_decide (key <= token_at r a) || bool_decide (length kept <= a)%nat).
  assert (search (length (tokens r)) (fun a => bool_decide (key <= token_at r a)) = search (length kept) f) as Esearch.
  { rewrite Hlen. unfold search. assert (forall fuel a b, (b <= length kept)%nat ->
      search_loop fuel a b (fun a => bool_decide (key <= token_at r a)) = search_loop fuel a b f) as Hx; [|by apply Hx].
    induction fuel as [|fuel IH]; intros a b Hbb; cbn; [done|]. destruct (decide (a < b)%nat); [|done].
    pose proof (Nat.div2_odd (a + b)) as Hd.
    assert (Nat.div2 (a + b) < b)%nat by (destruct (Nat.odd (a + b)); cbn [Nat.b2n] in Hd; lia).
    unfold f at 1. rewrite (bool_decide_eq_false_2 (length kept <= _)%nat) by lia. rewrite orb_false_r.
    destruct (bool_decide _); apply IH; lia. }
  destruct (search_loop_spec f (length kept) (S (length kept)) 0 (length kept)) as (K1 & K2 & K3); try lia.
  { unfold f. intros a b Hab. rewrite !orb_true_iff, !bool_decide_eq_true. intros [Hle|Hle]; [|right; lia].
    destruct (decide (length kept <= b)%nat); [by right|left]. destruct (decide (a = b)) as [->|]; [done|].
    destruct (lookup_lt_is_Some_2 kept a) as [ea Ea]; [lia|]. destruct (lookup_lt_is_Some_2 kept b) as [eb Eb]; [lia|].
    rewrite (Hat _ _ Ea) in Hle. rewrite (Hat _ _ Eb). pose proof (Hmono a b ea eb Ea Eb). lia. }
  set (k := search_loop (S (length kept)) 0 (length kept) f) in *.
  assert (i = if decide (k = length kept) then 0%nat else k) as Ei.
  { rewrite Hi. unfold index. rewrite Esearch, Hlen. done. }
  clear Hi.
  assert (forall a ea, kept !! a = Some ea -> (a < k)%nat -> ea.1 < key) as Hbefore.
  { intros a ea Ha Hak. specialize (K2 a Hak). unfold f in K2. apply orb_false_iff in K2 as [K2 _].
    apply bool_decide_eq_false in K2. rewrite (Hat _ _ Ha) in K2. lia. }
  assert (forall a ea, kept !! a = Some ea -> (k <= a)%nat -> key <= ea.1) as Hafter.
  { intros a ea Ha Hak. pose proof (lookup_lt_Some _ _ _ Ha). specialize (K3 a ltac:(lia)). unfold f in K3.
    apply orb_true_iff in K3 as [K3|K3]; apply bool_decide_eq_true in K3; [|lia]. by rewrite (Hat _ _ Ha) in K3. }
  pose proof (lookup_lt_Some _ _ _ Hj) as Hjl. rewrite !dist_eq by done.
  destruct (decide (i = j)) as [->|Hij]; [right; rewrite Hlk in Hj; by simplify_eq|left].
  case_decide as Hk0.
  - subst i. pose proof (Hbefore 0%nat (t, o) Hlk ltac:(lia)) as B1. pose proof (Hbefore j (t', o') Hj ltac:(lia)) as B2.
    cbn in B1, B2. rewrite !decide_False by lia. pose proof (Hmono 0%nat j _ _ Hlk Hj ltac:(lia)) as Hlt. cbn in Hlt. lia.
  - subst i. pose proof (Hafter k (t, o) Hlk ltac:(lia)) as B1. cbn in B1. rewrite decide_True by lia.
    destruct (decide (j < k)%nat).
    + pose proof (Hbefore j (t', o') Hj ltac:(lia)) as B2. cbn in B2. rewrite decide_False by lia. lia.
    + pose proof (Hmono k j _ _ Hlk Hj ltac:(lia)) as Hlt. cbn in Hlt. rewrite decide_True by lia. lia.
Qed.

Lemma per_shard_pos n : (0 < per_shard n)%nat.
Proof. unfold per_shard, DefaultTokensPerShard. case_decide; lia. Qed.

Lemma owner_closest ss n key : 0 <= key < two32 -> (exists x, x ∈ ss /\ x <> []) ->
  closest ss (per_shard n) key (owner_of_key (NewRing ss n) key).
Proof.
  intros Hk (x0 & Hx0 & Hne). destruct (ring_names_spec ss) as (N1 & N2 & N3). unfold NewRing.
  destruct (ring_names ss) as [|nm names'] eqn:En.
  { exfalso. apply (not_elem_of_nil x0). by apply N1. }
  rewrite <- En in *. set (names := ring_names ss) in *. set (m := per_shard n) in *.
  set (all := merge_sort entry_le (entries names m)). set (kept := dedupe_tokens None all).
  destruct (dedupe_tokens_spec all None) as (K1 & K2 & K3); [apply StronglySorted_merge_sort; apply _|done|]. fold kept in K1, K2, K3.
  assert (forall e, e ∈ all <-> e ∈ entries names m) as Hall by (intros e; unfold all; by rewrite merge_sort_Permutation).
  assert (forall t o, (t, o) ∈ kept -> exists s, names !! o = Some s /\ t ∈ shardTokens s m) as Hkept.
  { intros t o Hin. apply K2 in Hin as [Hin _]. apply Hall in Hin. by apply entries_spec in Hin. }
  assert (forall e, e ∈ kept -> 0 <= e.1 < two32) as Hb.
  { intros [t o] Hin. destruct (Hkept t o Hin) as (s & _ & Ht). by eapply shardTokens_bound. }
  assert (forall y t', y ∈ names -> t' ∈ shardTokens y m -> exists oy o, names !! oy = Some y /\ (t', o) ∈ kept /\ (o <= oy)%nat) as Hcover.
  { intros y t' Hy Ht'. apply list_elem_of_lookup in Hy as [oy Hoy].
    destruct (K3 (t', oy)) as (o & Ho & Hle); [apply Hall, entries_spec; by exists y|done|]. by exists oy, o. }
  assert (0 < length kept)%nat as Hpos.
  { destruct (shardTokens x0 m) as [|t0 ts] eqn:E0; [by destruct (shardTokens_ne x0 m (per_shard_pos n))|].
    destruct (Hcover x0 t0) as (oy & o & _ & Hin & _); [by apply N1|rewrite E0; by left|].
    destruct kept; [by apply not_elem_of_nil in Hin|cbn; lia]. }
  set (r := mkRing names (kept.*1) (kept.*2)).
  assert (index r key < length kept)%nat as Hidx.
  { unfold index. cbn [tokens r]. case_decide as Hd; [done|]. unfold r in *. cbn [tokens] in *. rewrite length_fmap in *.
    unfold search in *. set (f := fun i => bool_decide (key <= token_at _ i)) in *.
    assert (forall fuel i j, (i <= j)%nat -> (search_loop fuel i j f <= j)%nat) as Hle.
    { induction fuel as [|fuel IH]; intros i j Hij; cbn; [done|]. case_decide; [|done]. pose proof (Nat.div2_odd (i + j)) as Ho.
      assert (i <= Nat.div2 (i + j) < j)%nat by (destruct (Nat.odd (i + j)); cbn [Nat.b2n] in Ho; lia).
      destruct (f _); [etrans; [apply IH; lia|lia]|apply IH; lia]. }
    specialize (Hle (S (length kept)) 0%nat (length kept) ltac:(lia)). lia. }
  destruct (lookup_lt_is_Some_2 kept (index r key) Hidx) as [[t o] Hlk].
  pose proof (index_closest names kept key (index r key) t o K1 Hb Hk eq_refl Hlk) as Hmin.
  destruct (Hkept t o) as (s & Hs & Ht); [by eapply list_elem_of_lookup_2|].
  assert (owner_of_key r key = s) as ->.
  { unfold owner_of_key. destruct (tokens r) eqn:Et; [cbn in Et; apply fmap_nil_inv in Et; rewrite Et in Hpos; cbn in Hpos; lia|].
    cbn [owner shards r]. rewrite list_lookup_fmap, Hlk. cbn. by rewrite Hs. }
  assert (s ∈ names) as Hsn by (by eapply list_elem_of_lookup_2). apply N1 in Hsn as [? ?].
  split; [done|split; [done|]]. exists t. split; [done|]. intros y t' Hy Hy0 Ht'.
  destruct (Hcover y t') as (oy & o' & Hoy & Hin & Hle); [by apply N1|done|].
  destruct (Hmin t' o' Hin) as [?|[-> ->]]; [by left|right]. split; [done|].
  destruct (decide (o' = oy)) as [->|]; [rewrite Hs in Hoy; injection Hoy as ->; apply name_le_refl|].
  apply (sorted_lookup name_le names o' oy); [done|done|done|lia].
Qed.

Lemma owner_none ss n key : (forall x, x ∈ ss -> x = []) -> owner_of_key (NewRing ss n) key = [].
Proof.
  intros H. unfold NewRing. destruct (ring_names_spec ss) as (N1 & _).
  destruct (ring_names ss) as [|nm l]; [done|]. destruct (N1 nm) as [Hn _]. destruct Hn as [Hin Hne]; [by left|].
  by destruct Hne; apply H.
Qed.

(** Lookup is exact.  On a ring with a shard, every key is owned by the
    shard of the first token clockwise from it, the least shard name breaking
    a tie, which is one shard; with no named shard the owner is empty. *)
Theorem owner_exact ss n key : 0 <= key < two32 ->
  ((exists x, x ∈ ss /\ x <> []) ->
     forall x, owner_of_key (NewRing ss n) key = x <-> closest ss (per_shard n) key x) /\
  ((forall x, x ∈ ss -> x = []) -> owner_of_key (NewRing ss n) key = []).
Proof.
  intros Hk. split; [|apply owner_none]. intros Hex x. pose proof (owner_closest ss n key Hk Hex) as Hc.
  split; [by intros <-|]. intros Hx. by eapply closest_unique.
Qed.

(** Every agent builds the same ring.  Two configurations naming the same
    shards, in any order, with repeats and empty entries, give one ring, tokens
    and owners alike. *)
Theorem NewRing_order_independent s1 s2 n : (forall x, x <> [] -> x ∈ s1 <-> x ∈ s2) -> NewRing s1 n = NewRing s2 n.
Proof. intros H. unfold NewRing. by rewrite (ring_names_set s1 s2 H). Qed.

(** Scaling moves only what it must.  Adding a shard leaves every key with
    its old owner unless the new shard takes it. *)
Theorem NewRing_consistent ss s n key : 0 <= key < two32 -> (exists x, x ∈ ss /\ x <> []) ->
  owner_of_key (NewRing (s :: ss) n) key = s \/
  owner_of_key (NewRing (s :: ss) n) key = owner_of_key (NewRing ss n) key.
Proof.
  intros Hk (x0 & Hx0 & Hne). set (x := owner_of_key (NewRing (s :: ss) n) key).
  assert (closest (s :: ss) (per_shard n) key x) as (Hx & Hx1 & t & Ht & Hmin).
  { apply owner_closest; [done|]. exists x0. split; [by right|done]. }
  apply elem_of_cons in Hx as [?|Hx]; [by left|right].
  apply (closest_unique ss (per_shard n) key).
  - split; [done|split; [done|]]. exists t. split; [done|]. intros y t' Hy. apply Hmin. by right.
  - apply owner_closest; [done|]. by exists x0.
Qed.

(** ** Known answers *)

(** "kubescrape-servicegraph-", then the ordinal. *)
Definition ex_prefix : name :=
  [107; 117; 98; 101; 115; 99; 114; 97; 112; 101; 45; 115; 101; 114; 118; 105; 99; 101; 103; 114; 97; 112; 104; 45].
Definition ex_shard (i : Z) : name := ex_prefix ++ [48 + i].
Definition ex_id (i : Z) : list Z := (fun j => (i * 31 + Z.of_nat j * 7) mod 256) <$> seq 0 16.

(** The derivation the program's own test pins with literals. *)
Example ring_known_tokens : shardTokens (ex_shard 0) 4 = [0x06921e15; 0xfbe3b7df; 0x51aaec8e; 0xf70df6b0].
Proof. vm_compute. reflexivity. Qed.

Example ring_known_owners :
  let r := NewRing [ex_shard 2; ex_shard 0; ex_shard 1] 0 in
  (fun i => Owner r (ex_id (Z.of_nat i))) <$> seq 0 16 =
  ex_shard <$> [1; 1; 2; 0; 1; 0; 0; 0; 2; 1; 0; 1; 0; 0; 2; 2].
Proof. vm_compute. reflexivity. Qed.

Definition ex_shards : list name := [[98]; [97]; []; [98]].

Lemma owner_exact_witness : 0 <= 5 < two32 /\ (exists x, x ∈ ex_shards /\ x <> []) /\
  forall x, owner_of_key (NewRing ex_shards 2) 5 = x <-> closest ex_shards (per_shard 2) 5 x.
Proof.
  assert (0 <= 5 < two32) as H by (unfold two32; lia). split; [exact H|].
  assert (exists x : name, x ∈ ex_shards /\ x <> []) as Hx by (exists [98]; split; [by left|done]).
  split; [exact Hx|]. apply (proj1 (owner_exact ex_shards 2 5 H) Hx).
Defined.

Lemma NewRing_order_independent_witness : NewRing ex_shards 2 = NewRing [[97]; [98]] 2.
Proof.
  apply (NewRing_order_independent ex_shards [[97]; [98]] 2). intros x Hx. unfold ex_shards.
  rewrite !elem_of_cons, !elem_of_nil. naive_solver.
Defined.

Lemma NewRing_consistent_witness : 
  owner_of_key (NewRing ([99] :: ex_shards) 2) 5 = [99] \/
  owner_of_key (NewRing ([99] :: ex_shards) 2) 5 = owner_of_key (NewRing ex_shards 2) 5.
Proof.
  apply (NewRing_consistent ex_shards [99] 2 5).
  - unfold two32. lia.
  - exists [98]. split; [by left|done].
Defined.
