(* ===== verification/Edge.v ===== *)
(** * The service-graph pairing store ([internal/agent/servicegraph/store.go])

    Half-edges waiting for their partner: a map by key, an intrusive
    doubly-linked expiry queue and a free list of recycled entries, all in one
    heap of entries addressed by pointer, as the code threads them.  The sink's
    calls are recorded in order.  A duration in seconds is carried as opaque
    bits; an identifier is a number, 0 the empty one. *)

From S2P Require Import Prelude Clip.
Local Open Scope Z_scope.

Notation ptr := nat.
Notation edgeKey := (Z * Z)%type.

Inductive edgeSide := sideClient | sideServer.
Inductive ConnectionType := ConnectionUnknown | ConnectionMessagingSystem | ConnectionDatabase | ConnectionVirtualNode.

#[export] Instance conn_eq_dec : EqDecision ConnectionType.
Proof. solve_decision. Defined.

Record EdgeDimension := mkDim { dim_name : bytes; dim_value : bytes }.

Record halfSpan := mkHalf {
  h_service : bytes; h_seconds : Z; h_failed : bool; h_connection : ConnectionType; h_peer : bytes;
  h_traceID : Z; h_spanID : Z }.

(** [pendingEdge] without its two links. *)
Record pending := mkPending {
  key : edgeKey;
  clientService : bytes; serverService : bytes;
  clientSeconds : Z; serverSeconds : Z;
  haveClient : bool; haveServer : bool;
  failed : bool;
  connection : ConnectionType;
  peer : bytes;
  traceID : Z; clientSpanID : Z; serverSpanID : Z;
  dims : list EdgeDimension;
  expiresAt : Z }.

(** [prev]/[next] thread the expiry queue while the entry is live, [next] the
    free list once it is retired. *)
Record pendingEdge := mkEdge { body : pending; prev : option ptr; next : option ptr }.

(** What the sink receives. *)
Record Edge := mkOut {
  o_client : bytes; o_server : bytes; o_connection : ConnectionType; o_clientSeconds : Z; o_serverSeconds : Z;
  o_haveClient : bool; o_haveServer : bool; o_failed : bool; o_dims : list EdgeDimension; o_virtual : bytes;
  o_traceID : Z; o_clientSpanID : Z; o_serverSpanID : Z }.

Record Stats := mkStats { Completed : Z; VirtualNode : Z; Unpaired : Z; Dropped : Z; Unkeyable : Z }.

Record edgeStore := mkStore {
  wait : Z; maxItems : nat;
  heap : gmap ptr pendingEdge; brk : ptr;
  items : gmap edgeKey ptr;
  head : option ptr; tail : option ptr;
  free : option ptr;
  counts : Stats;
  sunk : list (Edge * Z) }.

(** The zero value. *)
Definition zeroPending : pending :=
  mkPending (0, 0) [] [] 0 0 false false false ConnectionUnknown [] 0 0 0 [] 0.

(** Field updates. *)
Definition set_wait (v : Z) (x : edgeStore) : edgeStore := mkStore v (maxItems x) (heap x) (brk x)
  (items x) (head x) (tail x) (free x) (counts x) (sunk x).
Definition set_maxItems (v : nat) (x : edgeStore) : edgeStore := mkStore (wait x) v (heap x) (brk x)
  (items x) (head x) (tail x) (free x) (counts x) (sunk x).
Definition set_heap (v : gmap ptr pendingEdge) (x : edgeStore) : edgeStore := mkStore (wait x)
  (maxItems x) v (brk x) (items x) (head x) (tail x) (free x) (counts x) (sunk x).
Definition set_brk (v : ptr) (x : edgeStore) : edgeStore := mkStore (wait x) (maxItems x) (heap x) v
  (items x) (head x) (tail x) (free x) (counts x) (sunk x).
Definition set_items (v : gmap edgeKey ptr) (x : edgeStore) : edgeStore := mkStore (wait x)
  (maxItems x) (heap x) (brk x) v (head x) (tail x) (free x) (counts x) (sunk x).
Definition set_head (v : option ptr) (x : edgeStore) : edgeStore := mkStore (wait x) (maxItems x)
  (heap x) (brk x) (items x) v (tail x) (free x) (counts x) (sunk x).
Definition set_tail (v : option ptr) (x : edgeStore) : edgeStore := mkStore (wait x) (maxItems x)
  (heap x) (brk x) (items x) (head x) v (free x) (counts x) (sunk x).
Definition set_free (v : option ptr) (x : edgeStore) : edgeStore := mkStore (wait x) (maxItems x)
  (heap x) (brk x) (items x) (head x) (tail x) v (counts x) (sunk x).
Definition set_counts (v : Stats) (x : edgeStore) : edgeStore := mkStore (wait x) (maxItems x) (heap
  x) (brk x) (items x) (head x) (tail x) (free x) v (sunk x).
Definition set_sunk (v : list (Edge * Z)) (x : edgeStore) : edgeStore := mkStore (wait x) (maxItems
  x) (heap x) (brk x) (items x) (head x) (tail x) (free x) (counts x) v.
Definition p_key (v : edgeKey) (x : pending) : pending := mkPending v (clientService x)
  (serverService x) (clientSeconds x) (serverSeconds x) (haveClient x) (haveServer x) (failed x)
  (connection x) (peer x) (traceID x) (clientSpanID x) (serverSpanID x) (dims x) (expiresAt x).
Definition p_peer (v : bytes) (x : pending) : pending := mkPending (key x) (clientService x)
  (serverService x) (clientSeconds x) (serverSeconds x) (haveClient x) (haveServer x) (failed x)
  (connection x) v (traceID x) (clientSpanID x) (serverSpanID x) (dims x) (expiresAt x).
Definition p_dims (v : list EdgeDimension) (x : pending) : pending := mkPending (key x)
  (clientService x) (serverService x) (clientSeconds x) (serverSeconds x) (haveClient x) (haveServer
  x) (failed x) (connection x) (peer x) (traceID x) (clientSpanID x) (serverSpanID x) v (expiresAt
  x).
Definition p_expiresAt (v : Z) (x : pending) : pending := mkPending (key x) (clientService x)
  (serverService x) (clientSeconds x) (serverSeconds x) (haveClient x) (haveServer x) (failed x)
  (connection x) (peer x) (traceID x) (clientSpanID x) (serverSpanID x) (dims x) v.
Definition with_next (v : option ptr) (e : pendingEdge) : pendingEdge := mkEdge (body e) (prev e) v.
Definition with_prev (v : option ptr) (e : pendingEdge) : pendingEdge := mkEdge (body e) v (next e).
Definition with_body (v : pending) (e : pendingEdge) : pendingEdge := mkEdge v (prev e) (next e).

(** Write through a pointer. *)
Definition at_ptr (p : ptr) (g : pendingEdge -> pendingEdge) (s : edgeStore) : edgeStore := set_heap (alter g p (heap s)) s.
Definition at_opt (p : option ptr) (g : pendingEdge -> pendingEdge) (s : edgeStore) : edgeStore :=
  match p with Some p => at_ptr p g s | None => s end.

Definition newEdgeStore (maxItems : nat) (wait : Z) : edgeStore :=
  mkStore wait maxItems ∅ 0 ∅ None None None (mkStats 0 0 0 0 0) [].

(** ** One entry *)

Definition merge (side : edgeSide) (h : halfSpan) (e : pending) : pending :=
  let conn := if bool_decide (h_connection h = ConnectionDatabase) || bool_decide (connection e = ConnectionUnknown)
              then h_connection h else connection e in
  let fl := failed e || h_failed h in
  let pr := match peer e with [] => h_peer h | _ => peer e end in
  let tid := if decide (traceID e = 0) then h_traceID h else traceID e in
  match side with
  | sideClient =>
      mkPending (key e) (h_service h) (serverService e) (h_seconds h) (serverSeconds e) true (haveServer e) fl conn pr tid
        (h_spanID h) (serverSpanID e) (dims e) (expiresAt e)
  | sideServer =>
      mkPending (key e) (clientService e) (h_service h) (clientSeconds e) (h_seconds h) (haveClient e) true fl conn pr tid
        (clientSpanID e) (h_spanID h) (dims e) (expiresAt e)
  end.

Definition retainDim (d : EdgeDimension) : EdgeDimension := mkDim (dim_name d) (Retain (dim_value d)).

(** Both lists empty is left alone; anything else is replaced, values cut. *)
Definition setDims (inn : list EdgeDimension) (e : pending) : pending :=
  match inn, dims e with
  | [], [] => e
  | _, _ => p_dims (retainDim <$> inn) e
  end.

(** The store's scratch is refilled from empty on every call. *)
Definition joinDims (side : edgeSide) (held arriving : list EdgeDimension) : list EdgeDimension :=
  match held, arriving with
  | [], [] => []
  | _, _ => match side with sideClient => arriving ++ held | sideServer => held ++ arriving end
  end.

Definition edge (ds : list EdgeDimension) (e : pending) : Edge :=
  mkOut (clientService e) (serverService e) (connection e) (clientSeconds e) (serverSeconds e)
    (haveClient e) (haveServer e) (failed e) ds [] (traceID e) (clientSpanID e) (serverSpanID e).

Definition virtualNodeServer : bytes := [115; 101; 114; 118; 101; 114].
Definition virtualNodeClient : bytes := [99; 108; 105; 101; 110; 116].

Definition promote (e : pending) : option Edge :=
  if bool_decide (peer e = []) || eqb (haveClient e) (haveServer e) then None
  else
    let o := edge (dims e) e in
    let conn := if decide (o_connection o = ConnectionUnknown) then ConnectionVirtualNode else o_connection o in
    Some (if haveClient e
          then mkOut (o_client o) (peer e) conn (o_clientSeconds o) (o_serverSeconds o) (o_haveClient o) (o_haveServer o)
                 (o_failed o) (o_dims o) virtualNodeServer (o_traceID o) (o_clientSpanID o) (o_serverSpanID o)
          else mkOut (peer e) (o_server o) conn (o_clientSeconds o) (o_serverSeconds o) (o_haveClient o) (o_haveServer o)
                 (o_failed o) (o_dims o) virtualNodeClient (o_traceID o) (o_clientSpanID o) (o_serverSpanID o)).

(** ** Entry lifecycle *)

(** A recycled entry was cleared when it was retired. *)
Definition newEntry (s : edgeStore) : edgeStore * ptr :=
  match free s with
  | None => (set_brk (S (brk s)) (set_heap (<[brk s := mkEdge zeroPending None None]> (heap s)) s), brk s)
  | Some p =>
      let nx := next (default (mkEdge zeroPending None None) (heap s !! p)) in
      (at_ptr p (with_next None) (set_free nx s), p)
  end.

Definition pushBack (p : ptr) (s : edgeStore) : edgeStore :=
  let s := at_ptr p (fun e => with_next None (with_prev (tail s) e)) s in
  let s := match tail s with
           | Some t => at_ptr t (with_next (Some p)) s
           | None => set_head (Some p) s
           end in
  set_tail (Some p) s.

Definition retire (p : ptr) (s : edgeStore) : edgeStore :=
  match heap s !! p with
  | None => s
  | Some e =>
      let s := match prev e with
               | Some q => at_ptr q (with_next (next e)) s
               | None => set_head (next e) s
               end in
      let s := match next e with
               | Some q => at_ptr q (with_prev (prev e)) s
               | None => set_tail (prev e) s
               end in
      let s := set_items (delete (key (body e)) (items s)) s in
      set_free (Some p) (set_heap (<[p := mkEdge zeroPending None (free s)]> (heap s)) s)
  end.

(** ** The operations *)

Definition count_completed (c : Stats) : Stats := mkStats (Completed c + 1) (VirtualNode c) (Unpaired c) (Dropped c) (Unkeyable c).
Definition count_virtual (c : Stats) : Stats := mkStats (Completed c) (VirtualNode c + 1) (Unpaired c) (Dropped c) (Unkeyable c).
Definition count_unpaired (c : Stats) : Stats := mkStats (Completed c) (VirtualNode c) (Unpaired c + 1) (Dropped c) (Unkeyable c).
Definition count_dropped (c : Stats) : Stats := mkStats (Completed c) (VirtualNode c) (Unpaired c) (Dropped c + 1) (Unkeyable c).
Definition countUnkeyable (s : edgeStore) : edgeStore :=
  let c := counts s in
  set_counts (mkStats (Completed c) (VirtualNode c) (Unpaired c) (Dropped c) (Unkeyable c + 1)) s.

Definition onEdge (e : Edge) (now : Z) (s : edgeStore) : edgeStore := set_sunk (sunk s ++ [(e, now)]) s.

(** The second half of [insert], on the entry found or made. *)
Definition insert_at (now : Z) (p : ptr) (side : edgeSide) (h : halfSpan) (ds : list EdgeDimension) (s : edgeStore) : edgeStore :=
  let s := at_ptr p (fun e => with_body (merge side h (body e)) e) s in
  match heap s !! p with
  | None => s
  | Some e =>
      if haveClient (body e) && haveServer (body e) then
        let out := edge (joinDims side (dims (body e)) ds) (body e) in
        retire p (onEdge out now (set_counts (count_completed (counts s)) s))
      else at_ptr p (fun e => with_body (setDims ds (p_peer (Retain (peer (body e))) (body e))) e) s
  end.

(** [insert]: the store, and whether the span was refused. *)
Definition insert (now : Z) (k : edgeKey) (side : edgeSide) (h : halfSpan) (ds : list EdgeDimension) (s : edgeStore)
    : edgeStore * bool :=
  match items s !! k with
  | Some p => (insert_at now p side h ds s, false)
  | None =>
      if decide (maxItems s <= size (items s))%nat then (set_counts (count_dropped (counts s)) s, true)
      else
        let '(s, p) := newEntry s in
        let s := at_ptr p (fun e => with_body (p_expiresAt (now + wait s) (p_key k (body e))) e) s in
        let s := set_items (<[k := p]> (items s)) s in
        (insert_at now p side h ds (pushBack p s), false)
  end.

(** [sweep]: at most [budget] due entries, oldest first; how many it took. *)
Fixpoint sweep (now : Z) (budget : nat) (s : edgeStore) : edgeStore * nat :=
  match budget with
  | 0%nat => (s, 0%nat)
  | S budget =>
      match head s with
      | None => (s, 0%nat)
      | Some p =>
          match heap s !! p with
          | None => (s, 0%nat)
          | Some e =>
              if decide (now < expiresAt (body e)) then (s, 0%nat)
              else
                let s := match promote (body e) with
                         | Some o => onEdge o now (set_counts (count_virtual (counts s)) s)
                         | None => set_counts (count_unpaired (counts s)) s
                         end in
                let '(s, n) := sweep now budget (retire p s) in (s, S n)
          end
      end
  end.

Definition expirePerHold : nat := 1024.

(** [expireInPasses]: passes of at most [expirePerHold] until one is short;
    every pass but the last retires, so the store's size is fuel enough. *)
Fixpoint expire_loop (fuel : nat) (perHold : nat) (now : Z) (total : nat) (s : edgeStore) : edgeStore :=
  match fuel with
  | 0%nat => s
  | S fuel =>
      if decide (total = 0%nat) then s
      else
        let n := Nat.min total perHold in
        let '(s, took) := sweep now n s in
        if decide (took < n)%nat then s else expire_loop fuel perHold now (total - n) s
  end.
Definition expireInPasses (now : Z) (total : nat) (s : edgeStore) : edgeStore :=
  expire_loop (S (size (items s))) expirePerHold now total s.
