(* ===== verification/EdgeSafe.v ===== *)
(** * The pairing store implements a queue

    The heap of linked entries, the key index and the free list represent one
    list of waiting half-edges in arrival order, with one entry per key; every
    operation of the store is the list operation, with the same edges reaching
    the sink and the same counters. *)

From S2P Require Import Prelude Clip Edge.
Local Open Scope Z_scope.

(** ** The specification: a list of waiting halves *)

Record queue := mkQueue {
  q_wait : Z; q_max : nat; q_items : list pending; q_counts : Stats; q_sunk : list (Edge * Z) }.

Definition q_find (k : edgeKey) (l : list pending) : option pending := list_find (fun e => key e = k) l ≫= fun x => Some x.2.
Definition q_remove (k : edgeKey) (l : list pending) : list pending := filter (fun e => key e <> k) l.
Definition q_replace (e : pending) (l : list pending) : list pending :=
  (fun x => if decide (key x = key e) then e else x) <$> l.

(** A half arriving at the entry [e], which is in the queue. *)
Definition q_arrive (now : Z) (e : pending) (side : edgeSide) (h : halfSpan) (ds : list EdgeDimension) (l : list pending)
    (a : queue) : queue :=
  let e := merge side h e in
  if haveClient e && haveServer e then
    mkQueue (q_wait a) (q_max a) (q_remove (key e) l) (count_completed (q_counts a))
      (q_sunk a ++ [(edge (joinDims side (dims e) ds) e, now)])
  else mkQueue (q_wait a) (q_max a) (q_replace (setDims ds (p_peer (Retain (peer e)) e)) l) (q_counts a) (q_sunk a).

Definition q_insert (now : Z) (k : edgeKey) (side : edgeSide) (h : halfSpan) (ds : list EdgeDimension) (a : queue) : queue * bool :=
  match q_find k (q_items a) with
  | Some e => (q_arrive now e side h ds (q_items a) a, false)
  | None =>
      if decide (q_max a <= length (q_items a))%nat
      then (mkQueue (q_wait a) (q_max a) (q_items a) (count_dropped (q_counts a)) (q_sunk a), true)
      else
        let e := p_expiresAt (now + q_wait a) (p_key k zeroPending) in
        (q_arrive now e side h ds (q_items a ++ [e]) a, false)
  end.

Fixpoint q_expire (now : Z) (budget : nat) (l : list pending) (c : Stats) (out : list (Edge * Z)) : list pending * Stats * list (Edge * Z) * nat :=
  match budget, l with
  | S budget, e :: l' =>
      if decide (now < expiresAt e) then (l, c, out, 0%nat)
      else
        let '(l, c, out, n) :=
          match promote e with
          | Some o => q_expire now budget l' (count_virtual c) (out ++ [(o, now)])
          | None => q_expire now budget l' (count_unpaired c) out
          end in (l, c, out, S n)
  | _, _ => (l, c, out, 0%nat)
  end.

Definition q_sweep (now : Z) (budget : nat) (a : queue) : queue * nat :=
  let '(l, c, out, n) := q_expire now budget (q_items a) (q_counts a) (q_sunk a) in
  (mkQueue (q_wait a) (q_max a) l c out, n).

(** ** Linked segments *)

Definition first (ps : list ptr) (nxt : option ptr) : option ptr := match ps with p :: _ => Some p | [] => nxt end.
Definition final (prv : option ptr) (ps : list ptr) : option ptr := match last ps with Some p => Some p | None => prv end.

(** The pointers [ps] hold the entries [q], linked in order between [prv] and [nxt]. *)
Fixpoint seg (h : gmap ptr pendingEdge) (prv : option ptr) (ps : list ptr) (nxt : option ptr) (q : list pending) : Prop :=
  match ps, q with
  | [], [] => True
  | p :: ps, e :: q => h !! p = Some (mkEdge e prv (first ps nxt)) /\ seg h (Some p) ps nxt q
  | _, _ => False
  end.

(** Retired entries, cleared and chained by [next]. *)
Fixpoint chain (h : gmap ptr pendingEdge) (fs : list ptr) : Prop :=
  match fs with
  | [] => True
  | p :: fs => h !! p = Some (mkEdge zeroPending None (first fs None)) /\ chain h fs
  end.

Lemma seg_frame h h' prv ps nxt q : (forall p, p ∈ ps -> h' !! p = h !! p) -> seg h prv ps nxt q -> seg h' prv ps nxt q.
Proof.
  revert prv q. induction ps as [|p ps IH]; intros prv [|e q] Hf; cbn; try done. intros [H1 H2].
  split; [rewrite Hf; [done|by left]|]. apply IH; [|done]. intros x Hx. apply Hf. by right.
Qed.

Lemma chain_frame h h' fs : (forall p, p ∈ fs -> h' !! p = h !! p) -> chain h fs -> chain h' fs.
Proof.
  induction fs as [|p fs IH]; intros Hf; cbn; [done|]. intros [H1 H2]. split; [rewrite Hf; [done|by left]|].
  apply IH; [|done]. intros x Hx. apply Hf. by right.
Qed.

Lemma final_cons prv p ps : final prv (p :: ps) = final (Some p) ps.
Proof. unfold final. destruct ps as [|x ps]; [done|]. cbn. by destruct (last (x :: ps)) eqn:E; [|apply last_None in E]. Qed.

Lemma seg_app h prv ps1 ps2 nxt q1 q2 : length ps1 = length q1 ->
  seg h prv (ps1 ++ ps2) nxt (q1 ++ q2) <-> seg h prv ps1 (first ps2 nxt) q1 /\ seg h (final prv ps1) ps2 nxt q2.
Proof.
  revert prv q1. induction ps1 as [|p ps1 IH]; intros prv [|e q1] Hl; try done; cbn.
  - tauto.
  - rewrite final_cons, IH by (cbn in Hl; lia). assert (first (ps1 ++ ps2) nxt = first ps1 (first ps2 nxt)) as -> by (by destruct ps1).
    tauto.
Qed.

Lemma seg_length h prv ps nxt q : seg h prv ps nxt q -> length ps = length q.
Proof. revert prv q. induction ps as [|p ps IH]; intros prv [|e q]; cbn; try done. intros [_ H]. f_equal. by eapply IH. Qed.

(** Relink the end of a segment. *)
Lemma seg_set_next h prv ps nxt nxt' q t : NoDup ps -> last ps = Some t -> seg h prv ps nxt q ->
  seg (alter (with_next nxt') t h) prv ps nxt' q.
Proof.
  intros Hnd Hl. apply last_Some in Hl as [ps0 ->]. apply NoDup_app in Hnd as (_ & Hdis & _). intros Hs.
  pose proof (seg_length _ _ _ _ _ Hs) as Hlen. rewrite length_app in Hlen. cbn in Hlen.
  destruct (exists_last (l := q)) as (q0 & e & ->); [destruct q; [cbn in Hlen; lia|done]|].
  rewrite length_app in Hlen. cbn in Hlen. apply seg_app in Hs as [H1 [H2 _]]; [|lia].
  apply seg_app; [lia|]. split.
  - eapply seg_frame; [|exact H1]. intros p Hp. apply lookup_alter_ne. intros ->. apply (Hdis p Hp). by left.
  - split; [|done]. cbn. rewrite lookup_alter_eq. cbn in H2. by rewrite H2.
Qed.

(** Relink its start. *)
Lemma seg_set_prev h prv prv' p ps nxt q : p ∉ ps -> seg h prv (p :: ps) nxt q -> seg (alter (with_prev prv') p h) prv' (p :: ps) nxt q.
Proof.
  intros Hp. destruct q as [|e q]; [done|]. cbn. intros [H1 H2]. split; [by rewrite lookup_alter_eq, H1|].
  eapply seg_frame; [|exact H2]. intros x Hx. apply lookup_alter_ne. congruence.
Qed.

(** ** Representation *)

Record rep (s : edgeStore) (a : queue) (ps fs : list ptr) : Prop := {
  r_seg : seg (heap s) None ps None (q_items a);
  r_head : head s = first ps None;
  r_tail : tail s = last ps;
  r_chain : chain (heap s) fs;
  r_free : free s = first fs None;
  r_nodup : NoDup (ps ++ fs);
  r_brk : forall p, p ∈ ps ++ fs -> (p < brk s)%nat;
  r_index : items s = list_to_map (zip (key <$> q_items a) ps);
  r_keys : NoDup (key <$> q_items a);
  r_same : q_wait a = wait s /\ q_max a = maxItems s /\ q_counts a = counts s /\ q_sunk a = sunk s;
  r_all : brk s = (length ps + length fs)%nat }.

Definition represents (s : edgeStore) (a : queue) : Prop := exists ps fs, rep s a ps fs.

Lemma represents_new n w : represents (newEdgeStore n w) (mkQueue w n [] (mkStats 0 0 0 0 0) []).
Proof. exists [], []. split; try done; try constructor. intros p Hp. by apply not_elem_of_nil in Hp. Qed.

(** *** The index *)

Lemma zip_app_len {A B} (a1 a2 : list A) (b1 b2 : list B) : length a1 = length b1 -> zip (a1 ++ a2) (b1 ++ b2) = zip a1 b1 ++ zip a2 b2.
Proof. revert b1. induction a1 as [|x a1 IH]; intros [|y b1] Hl; try done. cbn in *. f_equal. apply IH. lia. Qed.

Lemma zip_split {A B} (la : list A) (lb : list B) a b : (a, b) ∈ zip la lb ->
  exists a1 a2 b1 b2, la = a1 ++ a :: a2 /\ lb = b1 ++ b :: b2 /\ length a1 = length b1.
Proof.
  revert lb. induction la as [|x la IH]; intros [|y lb]; try (by intros ?%not_elem_of_nil). cbn.
  intros [[= -> ->]|Hin]%elem_of_cons.
  - by exists [], la, [], lb.
  - destruct (IH lb Hin) as (a1 & a2 & b1 & b2 & -> & -> & Hl). exists (x :: a1), a2, (y :: b1), b2. cbn. by rewrite Hl.
Qed.

Section Index.
Context (q : list pending) (ps : list ptr) (m : gmap edgeKey ptr).
Context (Hlen : length ps = length q) (Hkeys : NoDup (key <$> q)).

Lemma zip_keys : (zip (key <$> q) ps).*1 = key <$> q.
Proof. apply fst_zip. rewrite length_fmap. lia. Qed.

Lemma index_lookup k p : m = list_to_map (zip (key <$> q) ps) -> m !! k = Some p <-> (k, p) ∈ zip (key <$> q) ps.
Proof. intros ->. symmetry. apply elem_of_list_to_map. by rewrite zip_keys. Qed.

Lemma index_intro : (forall k p, m !! k = Some p <-> (k, p) ∈ zip (key <$> q) ps) -> m = list_to_map (zip (key <$> q) ps).
Proof.
  intros H. apply map_eq. intros k. apply option_eq. intros p. rewrite H. apply elem_of_list_to_map. by rewrite zip_keys.
Qed.

Lemma index_size : m = list_to_map (zip (key <$> q) ps) -> size m = length q.
Proof.
  intros ->. rewrite map_size_list_to_map; [|by rewrite zip_keys].
  rewrite length_zip_with, length_fmap. lia.
Qed.
End Index.

Lemma find_split (l : list pending) k e l1 l2 : NoDup (key <$> l) -> l = l1 ++ e :: l2 -> key e = k -> q_find k l = Some e.
Proof.
  intros Hnd -> Hk. unfold q_find.
  induction l1 as [|x l1 IH]; cbn.
  - by rewrite decide_True.
  - cbn in Hnd. apply NoDup_cons in Hnd as [Hx Hnd]. rewrite decide_False.
    + specialize (IH Hnd). destruct (list_find _ (l1 ++ e :: l2)) as [[i y]|]; cbn in *; [exact IH|done].
    + intros E. apply Hx. rewrite fmap_app. apply elem_of_app. right. cbn. apply elem_of_cons. left. congruence.
Qed.

Lemma find_None (l : list pending) k : (forall e, e ∈ l -> key e <> k) -> q_find k l = None.
Proof.
  induction l as [|x l IH]; intros H; [done|]. unfold q_find in *. cbn. rewrite decide_False by (apply H; by left).
  destruct (list_find _ l) as [[i y]|]; cbn in *; [|done]. apply IH. intros e He. apply H. by right.
Qed.

Lemma remove_split l1 e l2 : NoDup (key <$> (l1 ++ e :: l2)) -> q_remove (key e) (l1 ++ e :: l2) = l1 ++ l2.
Proof.
  rewrite fmap_app. cbn. intros (H1 & H2 & H3)%NoDup_app. apply NoDup_cons in H3 as [H3 H4]. unfold q_remove.
  rewrite filter_app, filter_cons_False by tauto. f_equal.
  - clear -H2. induction l1 as [|x l1 IH]; [done|]. rewrite filter_cons_True.
    + f_equal. apply IH. intros k Hk. apply H2. cbn. by right.
    + intros E. apply (H2 (key x)); cbn; [by left|]. rewrite E. by left.
  - clear -H3. induction l2 as [|x l2 IH]; [done|]. rewrite filter_cons_True.
    + f_equal. apply IH. intros Hk. apply H3. cbn. by right.
    + intros E. apply H3. cbn. rewrite E. by left.
Qed.

Lemma replace_split l1 e e' l2 : NoDup (key <$> (l1 ++ e :: l2)) -> key e' = key e -> q_replace e' (l1 ++ e :: l2) = l1 ++ e' :: l2.
Proof.
  rewrite fmap_app. cbn. intros (H1 & H2 & H3)%NoDup_app Hk. apply NoDup_cons in H3 as [H3 H4]. unfold q_replace.
  rewrite fmap_app. cbn. rewrite decide_True by done. f_equal; [|f_equal].
  - clear -H2 Hk. induction l1 as [|x l1 IH]; [done|]. cbn. rewrite decide_False.
    + f_equal. apply IH. intros k Hx. apply H2. cbn. by right.
    + intros E. apply (H2 (key x)); cbn; [by left|]. rewrite E, Hk. by left.
  - clear -H3 Hk. induction l2 as [|x l2 IH]; [done|]. cbn. rewrite decide_False.
    + f_equal. apply IH. intros Hx. apply H3. cbn. by right.
    + intros E. apply H3. cbn. rewrite <- Hk, <- E. by left.
Qed.

(** *** Pointer operations *)

Lemma rep_length s a ps fs : rep s a ps fs -> length ps = length (q_items a).
Proof. intros H. eapply seg_length, H. Qed.

Lemma rep_size s a ps fs : rep s a ps fs -> size (items s) = length (q_items a).
Proof.
  intros H. eapply (index_size (q_items a) ps); [by eapply rep_length|apply H|apply H].
Qed.

(** The entry of a key, in place. *)
Lemma rep_lookup s a ps fs k p : rep s a ps fs -> items s !! k = Some p ->
  exists l r ql e qr, ps = l ++ p :: r /\ q_items a = ql ++ e :: qr /\ length l = length ql /\ key e = k.
Proof.
  intros Hr Hk. pose proof (rep_length _ _ _ _ Hr) as Hl.
  apply (index_lookup _ _ _ Hl (r_keys _ _ _ _ Hr) k p (r_index _ _ _ _ Hr)) in Hk.
  apply zip_split in Hk as (a1 & a2 & b1 & b2 & E1 & -> & Hlen).
  apply fmap_app_inv in E1 as (ql & q' & -> & E2 & ->). symmetry in E2. apply fmap_cons_inv in E2 as (e & qr & -> & -> & ->).
  exists b1, b2, ql, e, qr. rewrite length_fmap in Hlen. done.
Qed.

(** The entry [p] of a represented store: its neighbours and its body. *)
Lemma rep_entry s a l p r fs ql e qr : rep s a (l ++ p :: r) fs -> q_items a = ql ++ e :: qr -> length l = length ql ->
  heap s !! p = Some (mkEdge e (last l) (first r None)) /\ seg (heap s) None l (Some p) ql /\ seg (heap s) (Some p) r None qr /\
  p ∉ l /\ p ∉ r /\ p ∉ fs /\ (forall x, x ∈ l -> x ∉ r) /\ NoDup l /\ NoDup r.
Proof.
  intros Hr Eq Hl. pose proof (r_seg _ _ _ _ Hr) as Hs. rewrite Eq in Hs. apply seg_app in Hs as [H1 H2]; [|done].
  cbn in H2. destruct H2 as [H2 H3]. pose proof (r_nodup _ _ _ _ Hr) as Hnd. rewrite <- app_assoc in Hnd.
  apply NoDup_app in Hnd as (N1 & N2 & N3). cbn in N3. apply NoDup_cons in N3 as [N3 N4].
  rewrite elem_of_app in N3. apply NoDup_app in N4 as (N4 & N5 & _).
  split; [rewrite H2; unfold final; by destruct (last l)|]. split; [exact H1|]. split; [exact H3|].
  split; [intros Hx; apply (N2 p Hx); by left|]. split; [tauto|]. split; [tauto|]. split; [|done].
  intros x Hx Hxr. apply (N2 x Hx). right. apply elem_of_app. by left.
Qed.

Lemma rep_set_body s a l p r fs ql e e' qr : rep s a (l ++ p :: r) fs -> q_items a = ql ++ e :: qr -> length l = length ql ->
  key e' = key e ->
  rep (at_ptr p (with_body e') s) (mkQueue (q_wait a) (q_max a) (ql ++ e' :: qr) (q_counts a) (q_sunk a)) (l ++ p :: r) fs.
Proof.
  intros Hr Eq Hl Hk. destruct (rep_entry _ _ _ _ _ _ _ _ _ Hr Eq Hl) as (E & S1 & S2 & P1 & P2 & P3 & _).
  assert (key <$> ql ++ e' :: qr = key <$> q_items a) as Ekeys by (rewrite Eq, !fmap_app; cbn; by rewrite Hk).
  destruct Hr as [R1 R2 R3 R4 R5 R6 R7 R8 R9 R10 R11]. split; cbn [heap head tail free brk items at_ptr set_heap q_items q_wait q_max q_counts q_sunk];
    rewrite ?Ekeys; try done.
  - apply seg_app; [done|]. split.
    + eapply seg_frame; [|exact S1]. intros x Hx. apply lookup_alter_ne. intros ->. by apply P1.
    + split; [rewrite lookup_alter_eq, E; cbn; unfold final; by destruct (last l)|].
      eapply seg_frame; [|exact S2]. intros x Hx. apply lookup_alter_ne. congruence.
  - eapply chain_frame; [|exact R4]. intros x Hx. apply lookup_alter_ne. congruence.
Qed.

Lemma rep_retire s a l p r fs ql e qr : rep s a (l ++ p :: r) fs -> q_items a = ql ++ e :: qr -> length l = length ql ->
  rep (retire p s) (mkQueue (q_wait a) (q_max a) (ql ++ qr) (q_counts a) (q_sunk a)) (l ++ r) (p :: fs).
Proof.
  intros Hr Eq Hl. destruct (rep_entry _ _ _ _ _ _ _ _ _ Hr Eq Hl) as (E & S1 & S2 & P1 & P2 & P3 & P4 & N1 & N2).
  pose proof (rep_length _ _ _ _ Hr) as Hlen. destruct Hr as [R1 R2 R3 R4 R5 R6 R7 R8 R9 R10 R11].
  assert (length r = length qr) as Hlr by (rewrite Eq, !length_app in Hlen; cbn in Hlen; lia).
  unfold retire. rewrite E. cbn [prev next body].
  (* the neighbours are relinked *)
  set (h1 := match last l with Some q => alter (with_next (first r None)) q (heap s) | None => heap s end).
  set (h2 := match first r None with Some q => alter (with_prev (last l)) q h1 | None => h1 end).
  assert (seg h2 None (l ++ r) None (ql ++ qr)) as Hseg.
  { assert (seg h1 None l (first r None) ql) as S1'.
    { unfold h1. destruct (last l) as [t|] eqn:Et; [by eapply seg_set_next|]. apply last_None in Et as ->. by destruct ql. }
    assert (forall x, x ∈ r -> h1 !! x = heap s !! x) as F1.
    { intros x Hx. unfold h1. destruct (last l) as [t|] eqn:Et; [|done]. apply lookup_alter_ne. intros ->.
      apply (P4 x); [by eapply last_Some_elem_of|done]. }
    assert (seg h1 (Some p) r None qr) as S2' by (eapply seg_frame; [exact F1|exact S2]).
    apply seg_app; [done|]. unfold h2. destruct r as [|y r]; cbn [first].
    - destruct qr; [|done]. split; [exact S1'|done].
    - apply NoDup_cons in N2 as [N2 _]. split.
      + eapply seg_frame; [|exact S1']. intros x Hx. apply lookup_alter_ne. intros ->. apply (P4 x Hx). by left.
      + replace (final None l) with (last l) by (unfold final; by destruct (last l)). by eapply seg_set_prev. }
  assert (forall x, x ∈ l ++ r -> x <> p) as Hnp by (intros x [?|?]%elem_of_app; congruence).
  assert (forall x, x ∈ fs -> x <> p) as Hfp by (intros x Hx ->; done).
  assert (forall x, x ∈ fs -> h2 !! x = heap s !! x) as Hff.
  { intros x Hx. assert (x ∉ l ++ p :: r) as Hx'.
    { intros Hin. apply NoDup_app in R6 as (_ & Hd & _). by apply (Hd x). }
    rewrite elem_of_app, elem_of_cons in Hx'.
    assert (forall t, last l = Some t -> t <> x) as D1 by (intros t Ht ->; apply Hx'; left; by apply last_Some_elem_of).
    assert (forall y, first r None = Some y -> y <> x).
    { intros y Hy ->. apply Hx'. right. right. destruct r; [done|]. injection Hy as ->. by left. }
    unfold h2, h1. destruct (last l) as [t|], (first r None) as [y|]; rewrite ?lookup_alter_ne by auto; done. }
  assert (forall g1 g2, (match last l with Some q => at_ptr q g1 s | None => set_head (first r None) s end) =
    (set_heap (match last l with Some q => alter g1 q (heap s) | None => heap s end)
      (match last l with Some q => s | None => set_head (first r None) s end)) /\
    forall s', (match first r None with Some q => at_ptr q g2 s' | None => set_tail (last l) s' end) =
    (set_heap (match first r None with Some q => alter g2 q (heap s') | None => heap s' end)
      (match first r None with Some q => s' | None => set_tail (last l) s' end))) as Hshape.
  { intros g1 g2. split; [destruct (last l); [done|by destruct s]|]. intros s'. destruct (first r None); [done|by destruct s']. }
  destruct (Hshape (with_next (first r None)) (with_prev (last l))) as [-> Hs2]. rewrite Hs2. clear Hs2 Hshape.
  assert (key <$> q_items a = (key <$> ql) ++ key e :: (key <$> qr)) as Ek by (by rewrite Eq, fmap_app).
  assert (NoDup (key <$> ql ++ qr)) as Hnk.
  { rewrite Ek in R9. rewrite fmap_app. apply NoDup_app in R9 as (A1 & A2 & A3). apply NoDup_cons in A3 as [A3 A4].
    apply NoDup_app. split; [done|split; [|done]]. intros k Hk1 Hk2. apply (A2 k Hk1). by right. }
  assert (length (l ++ r) = length (ql ++ qr)) as Hl2 by (rewrite !length_app; lia).
  split; cbn [q_items q_wait q_max q_counts q_sunk].
  - eapply seg_frame; [|exact Hseg]. intros x Hx. pose proof (Hnp x Hx). unfold h2, h1.
    destruct (last l), r; cbn; rewrite lookup_insert_ne by done; done.
  - unfold first. destruct (last l) as [t|] eqn:Et; [|apply last_None in Et as ->; destruct r; cbn; done].
    destruct l as [|x l]; [done|]. destruct r; cbn; rewrite R2; done.
  - rewrite last_app. destruct r as [|y r]; cbn [first last].
    + destruct (last l); cbn; done.
    + assert (is_Some (last (y :: r))) as [z Ez] by (apply last_is_Some; done).
      assert (tail s = Some z) as Et.
      { rewrite R3, last_app. change (last (p :: y :: r)) with (last (y :: r)). by rewrite Ez. }
      change (last (y :: r)) with (last (y :: r)) in Ez. destruct (last l); cbn [tail at_ptr set_heap set_free set_items set_head]; rewrite Et; cbn in Ez |- *; by rewrite Ez.
  - split.
    + destruct (last l), r; cbn; rewrite lookup_insert_eq, R5; done.
    + eapply chain_frame; [|exact R4]. intros x Hx. pose proof (Hfp x Hx). rewrite <- (Hff x Hx). unfold h2, h1.
      destruct (last l), r; cbn; rewrite lookup_insert_ne by done; done.
  - destruct (last l), r; done.
  - assert ((l ++ r) ++ p :: fs ≡ₚ (l ++ p :: r) ++ fs) as ->; [|exact R6].
    rewrite <- !app_assoc. apply Permutation_app_head. cbn. symmetry. apply Permutation_middle.
  - intros x Hx. destruct (last l), r; cbn; apply R7; rewrite ?elem_of_app, ?elem_of_cons in *; tauto.
  - transitivity (delete (key e) (items s)); [destruct (last l), r; done|]. apply index_intro; [done|done|].
    intros k q. rewrite lookup_delete_Some, (index_lookup _ _ _ Hlen R9 k q R8), Ek, zip_app_len by (by rewrite length_fmap).
    rewrite fmap_app, zip_app_len by (by rewrite length_fmap). cbn [zip zip_with]. rewrite !elem_of_app, elem_of_cons.
    rewrite Ek in R9. apply NoDup_app in R9 as (_ & A2 & A3). apply NoDup_cons in A3 as [A3 _]. split.
    + intros [Hne [?|[[= ? ?]|?]]]; [by left|congruence|by right].
    + intros Hor. split; [|tauto]. intros <-. destruct Hor as [Hin|Hin]; apply elem_of_zip_l in Hin.
      * apply (A2 _ Hin). by left.
      * done.
  - done.
  - destruct (last l), r; done.
  - transitivity (brk s); [destruct (last l), r; done|]. rewrite R11, !length_app. cbn. lia.
Qed.

Lemma newEntry_spec s a ps fs s1 p : rep s a ps fs -> newEntry s = (s1, p) ->
  exists fs', heap s1 !! p = Some (mkEdge zeroPending None None) /\ NoDup (ps ++ p :: fs') /\
    (forall x, x ∈ ps ++ p :: fs' -> (x < brk s1)%nat) /\ chain (heap s1) fs' /\ free s1 = first fs' None /\
    (forall x, x ∈ ps -> heap s1 !! x = heap s !! x) /\
    brk s1 = (length ps + S (length fs'))%nat /\ items s1 = items s /\ head s1 = head s /\ tail s1 = tail s /\ wait s1 = wait s /\ maxItems s1 = maxItems s /\
    counts s1 = counts s /\ sunk s1 = sunk s.
Proof.
  intros [R1 R2 R3 R4 R5 R6 R7 R8 R9 R10 R11]. unfold newEntry. rewrite R5. destruct fs as [|f fs]; cbn [first].
  - intros [= <- <-]. exists []. rewrite app_nil_r in R6, R7. assert (brk s ∉ ps) as Hn.
    { intros Hin. specialize (R7 _ Hin). lia. }
    cbn. rewrite lookup_insert_eq. split; [done|]. split; [|split; [|split; [done|split; [done|split; [|split; [cbn in R11; lia|done]]]]]].
    + apply NoDup_app. split; [done|]. split; [|apply NoDup_singleton]. intros x Hx ->%list_elem_of_singleton. done.
    + intros x [Hx| ->%list_elem_of_singleton]%elem_of_app; [specialize (R7 x Hx); lia|lia].
    + intros x Hx. apply lookup_insert_ne. congruence.
  - cbn in R4. destruct R4 as [R4 R4']. intros [= <- <-]. exists fs.
    assert (f ∉ fs /\ f ∉ ps) as [F1 F2].
    { apply NoDup_app in R6 as (_ & Hd & Hn). apply NoDup_cons in Hn as [Hn _]. split; [done|]. intros Hx. apply (Hd f Hx). by left. }
    cbn. rewrite lookup_alter_eq, R4. cbn. split; [done|]. split; [done|]. split; [done|].
    split; [|split; [done|split; [|split; [cbn in R11; lia|done]]]].
    + eapply chain_frame; [|exact R4']. intros x Hx. apply lookup_alter_ne. congruence.
    + intros x Hx. apply lookup_alter_ne. congruence.
Qed.

Lemma rep_push s a ps fs s1 p k t : rep s a ps fs -> items s !! k = None -> newEntry s = (s1, p) ->
  exists fs', rep
    (pushBack p (set_items (<[k := p]> (items s1)) (at_ptr p (fun e => with_body (p_expiresAt t (p_key k (body e))) e) s1)))
    (mkQueue (q_wait a) (q_max a) (q_items a ++ [p_expiresAt t (p_key k zeroPending)]) (q_counts a) (q_sunk a))
    (ps ++ [p]) fs'.
Proof.
  intros Hr Hk Hnew. pose proof (rep_length _ _ _ _ Hr) as Hlen.
  destruct (newEntry_spec _ _ _ _ _ _ Hr Hnew) as (fs' & N1 & N2 & N3 & N4 & N5 & N6 & Eb & E1 & E2 & E3 & E4 & E5 & E6 & E7).
  destruct Hr as [R1 R2 R3 R4 R5 R6 R7 R8 R9 R10 R11]. exists fs'. set (e := p_expiresAt t (p_key k zeroPending)).
  assert (p ∉ ps /\ p ∉ fs' /\ (forall x, x ∈ ps -> x ∉ fs') /\ NoDup ps) as (P1 & P2 & P3 & P4).
  { apply NoDup_app in N2 as (A1 & A2 & A3). apply NoDup_cons in A3 as [A3 _]. split; [intros Hx; apply (A2 p Hx); by left|].
    split; [done|]. split; [|done]. intros x Hx Hf. apply (A2 x Hx). by right. }
  set (h0 := alter (fun e => with_next None (with_prev (last ps) e)) p (alter (fun e => with_body (p_expiresAt t (p_key k (body e))) e) p (heap s1))).
  assert (h0 !! p = Some (mkEdge e (last ps) None)) as Hp0 by (unfold h0; by rewrite !lookup_alter_eq, N1).
  assert (forall x, x <> p -> h0 !! x = heap s1 !! x) as Hx0 by (intros x Hx; unfold h0; by rewrite !lookup_alter_ne).
  assert (k ∉ (key <$> q_items a)) as Hkn.
  { intros Hin. apply list_elem_of_lookup in Hin as [i Hi]. assert (is_Some (ps !! i)) as [x Hx].
    { apply lookup_lt_is_Some. rewrite Hlen, <- (length_fmap key). by eapply lookup_lt_Some. }
    assert ((k, x) ∈ zip (key <$> q_items a) ps) as Hz.
    { apply list_elem_of_lookup. exists i. rewrite lookup_zip_with, Hi, Hx. done. }
    apply (index_lookup _ _ _ Hlen R9 k x R8) in Hz. congruence. }
  assert (NoDup (key <$> q_items a ++ [e])) as Hnk.
  { rewrite fmap_app. apply NoDup_app. split; [done|]. split; [|apply NoDup_singleton].
    intros y Hy ->%list_elem_of_singleton. done. }
  set (h1 := match last ps with Some q => alter (with_next (Some p)) q h0 | None => h0 end).
  assert (pushBack p (set_items (<[k:=p]> (items s1)) (at_ptr p (fun e => with_body (p_expiresAt t (p_key k (body e))) e) s1)) =
    mkStore (wait s) (maxItems s) h1 (brk s1) (<[k:=p]> (items s)) (match ps with [] => Some p | _ => head s end) (Some p)
      (free s1) (counts s) (sunk s)) as ->.
  { assert (tail s1 = last ps) as E3' by (by rewrite E3). unfold pushBack, h1, h0. clear -E1 E2 E3' E4 E5 E6 E7.
    destruct s1 as [w1 m1 hp1 b1 i1 hd1 tl1 fr1 c1 sk1]. cbn in E1, E2, E3', E4, E5, E6, E7. subst. cbn.
    destruct ps as [|y ps]; [done|].
    assert (is_Some (last (y :: ps))) as [z Ez] by (by apply last_is_Some). cbn [last] in Ez. rewrite Ez. done. }
  split; cbn [heap head tail free brk items wait maxItems counts sunk q_items q_wait q_max q_counts q_sunk]; try done.
  - apply seg_app; [done|]. split.
    + assert (seg h0 None ps None (q_items a)) as Hs.
      { eapply seg_frame; [|exact R1]. intros x Hx. rewrite Hx0 by congruence. by apply N6. }
      unfold h1, first. destruct (last ps) as [z|] eqn:Ez; [by eapply seg_set_next|]. apply last_None in Ez as ->. by destruct (q_items a).
    + split; [|done]. unfold h1, final. destruct (last ps) as [z|] eqn:Ez; [|exact Hp0].
      rewrite lookup_alter_ne; [exact Hp0|]. intros ->. apply P1. by eapply last_Some_elem_of.
  - destruct ps; [done|]. by rewrite R2.
  - rewrite last_snoc. done.
  - eapply chain_frame; [|exact N4]. intros x Hx. unfold h1. assert (x <> p) by congruence.
    destruct (last ps) as [z|] eqn:Ez; [rewrite lookup_alter_ne; [by apply Hx0|]|by apply Hx0].
    intros ->. apply (P3 x); [by eapply last_Some_elem_of|done].
  - by rewrite <- app_assoc.
  - intros x Hx. apply N3. by rewrite <- app_assoc in Hx.
  - apply index_intro; [rewrite !length_app; cbn; lia|done|]. intros j x.
    rewrite fmap_app, zip_app_len by (rewrite length_fmap; lia). cbn [zip zip_with fmap list_fmap]. rewrite elem_of_app, list_elem_of_singleton.
    rewrite lookup_insert_Some, (index_lookup _ _ _ Hlen R9 j x R8). split.
    + intros [[<- <-]|[_ ?]]; [by right|by left].
    + intros [Hin|[= -> ->]]; [right; split; [|done]|by left].
      intros <-. apply elem_of_zip_l in Hin. done.
  - rewrite Eb, length_app. cbn. lia.
Qed.

(** Counters and the sink are carried along. *)
Lemma rep_out s a ps fs c o : rep s a ps fs ->
  rep (set_sunk o (set_counts c s)) (mkQueue (q_wait a) (q_max a) (q_items a) c o) ps fs.
Proof. intros []. split; try done. cbn. destruct r_same0 as (? & ? & ? & ?). done. Qed.

Lemma merge_key side h e : key (merge side h e) = key e.
Proof. by destruct side. Qed.

Lemma setDims_key ds e : key (setDims ds e) = key e.
Proof. unfold setDims. destruct ds, (dims e); done. Qed.

(** The second half of [insert] on the entry of [e]. *)
Lemma rep_arrive s a l p r fs ql e qr now side h ds : rep s a (l ++ p :: r) fs -> q_items a = ql ++ e :: qr -> length l = length ql ->
  represents (insert_at now p side h ds s) (q_arrive now e side h ds (q_items a) a).
Proof.
  intros Hr Eq Hl. set (e1 := merge side h e). assert (key e1 = key e) as Hk by apply merge_key.
  destruct (rep_entry _ _ _ _ _ _ _ _ _ Hr Eq Hl) as (E & _). pose proof (r_keys _ _ _ _ Hr) as Hnk. rewrite Eq in Hnk.
  pose proof (rep_set_body _ _ _ _ _ _ _ _ e1 _ Hr Eq Hl Hk) as Hr1.
  assert (at_ptr p (fun e => with_body (merge side h (body e)) e) s = at_ptr p (with_body e1) s) as E1.
  { unfold at_ptr. f_equal. apply map_eq. intros x. destruct (decide (x = p)) as [->|]; [|by rewrite !lookup_alter_ne].
    by rewrite !lookup_alter_eq, E. }
  unfold insert_at. rewrite E1. set (s1 := at_ptr p (with_body e1) s) in *.
  assert (heap s1 !! p = Some (mkEdge e1 (last l) (first r None))) as Ep by (cbn; by rewrite lookup_alter_eq, E).
  rewrite Ep. cbn [body]. unfold q_arrive. fold e1. rewrite Eq.
  assert (forall e', key e' = key e1 -> q_replace e' (ql ++ e :: qr) = ql ++ e' :: qr) as Hrep.
  { intros e' He'. apply replace_split; [done|congruence]. }
  destruct (haveClient e1 && haveServer e1).
  - rewrite Hk, remove_split by done. exists (l ++ r), (p :: fs).
    pose proof (r_same _ _ _ _ Hr) as (Hw & Hm & Hc & Hs).
    pose proof (rep_out _ _ _ _ (count_completed (counts s1)) (sunk s1 ++ [(edge (joinDims side (dims e1) ds) e1, now)]) Hr1) as Hr2.
    pose proof (rep_retire _ _ _ _ _ _ ql e1 qr Hr2 eq_refl Hl) as Hr3. cbn in Hr3. unfold onEdge. rewrite Hc, Hs. exact Hr3.
  - rewrite Hrep by (by rewrite setDims_key). exists (l ++ p :: r), fs.
    set (e2 := setDims ds (p_peer (Retain (peer e1)) e1)).
    assert (at_ptr p (fun e => with_body (setDims ds (p_peer (Retain (peer (body e))) (body e))) e) s1 = at_ptr p (with_body e2) s1) as ->.
    { unfold at_ptr. f_equal. apply map_eq. intros x. destruct (decide (x = p)) as [->|]; [|by rewrite !lookup_alter_ne].
      rewrite !lookup_alter_eq, Ep. done. }
    apply (rep_set_body _ _ _ _ _ _ ql e1 e2 qr Hr1 eq_refl Hl). unfold e2. by rewrite setDims_key.
Qed.

Lemma rep_canon s a ps fs : rep s a ps fs -> a = mkQueue (wait s) (maxItems s) (q_items a) (counts s) (sunk s).
Proof. intros H. destruct (r_same _ _ _ _ H) as (E1 & E2 & E3 & E4). destruct a. cbn in *. by subst. Qed.

Lemma sunk_same s c : set_sunk (sunk s) (set_counts c s) = set_counts c s.
Proof. by destruct s. Qed.

Lemma insert_refines s a now k side h ds : represents s a ->
  represents (insert now k side h ds s).1 (q_insert now k side h ds a).1 /\
  (insert now k side h ds s).2 = (q_insert now k side h ds a).2.
Proof.
  intros (ps & fs & Hr). rewrite (rep_canon _ _ _ _ Hr) in Hr |- *. set (q := q_items a) in *. clearbody q. clear a.
  pose proof (rep_length _ _ _ _ Hr) as Hlen. cbn [q_items] in Hlen.
  unfold insert, q_insert. cbn [q_items q_wait q_max q_counts q_sunk]. destruct (items s !! k) as [p|] eqn:Ek.
  - destruct (rep_lookup _ _ _ _ _ _ Hr Ek) as (l & r & ql & e & qr & -> & Eq & Hl & Hk). cbn [q_items] in Eq. subst q.
    rewrite (find_split (ql ++ e :: qr) k e ql qr); [|apply (r_keys _ _ _ _ Hr)|done|done]. split; [|done].
    exact (rep_arrive _ _ _ _ _ _ _ _ _ now side h ds Hr eq_refl Hl).
  - assert (q_find k q = None) as ->.
    { apply find_None. intros e He <-. apply list_elem_of_lookup in He as [i Hi].
      assert (is_Some (ps !! i)) as [x Hx]. { apply lookup_lt_is_Some. rewrite Hlen. by eapply lookup_lt_Some. }
      assert ((key e, x) ∈ zip (key <$> q) ps) as Hz.
      { apply list_elem_of_lookup. exists i. by rewrite lookup_zip_with, list_lookup_fmap, Hi, Hx. }
      apply (index_lookup _ _ _ Hlen (r_keys _ _ _ _ Hr) _ x (r_index _ _ _ _ Hr)) in Hz. congruence. }
    rewrite (rep_size _ _ _ _ Hr). cbn [q_items]. destruct (decide (maxItems s <= length q)%nat).
    + split; [|done]. exists ps, fs. pose proof (rep_out _ _ _ _ (count_dropped (counts s)) (sunk s) Hr) as H.
      by rewrite sunk_same in H.
    + destruct (newEntry s) as [s1 p] eqn:En. split; [|done]. cbn [fst].
      assert (wait s1 = wait s) as Ew by (destruct (newEntry_spec _ _ _ _ _ _ Hr En) as (? & _ & _ & _ & _ & _ & _ & _ & _ & _ & _ & ? & _); done).
      destruct (rep_push _ _ _ _ _ _ k (now + wait s1) Hr Ek En) as (fs' & Hr').
      rewrite Ew in Hr' |- *. exact (rep_arrive _ _ ps p [] fs' q _ [] now side h ds Hr' eq_refl Hlen).
Qed.

Lemma sweep_refines now budget : forall s a, represents s a ->
  represents (sweep now budget s).1 (q_sweep now budget a).1 /\ (sweep now budget s).2 = (q_sweep now budget a).2.
Proof.
  induction budget as [|budget IH]; intros s a (ps & fs & Hr); rewrite (rep_canon _ _ _ _ Hr) in Hr |- *;
    set (q := q_items a) in *; clearbody q; clear a; [by split; [exists ps, fs|]|].
  pose proof (rep_length _ _ _ _ Hr) as Hlen. cbn [q_items] in Hlen.
  cbn [sweep]. rewrite (r_head _ _ _ _ Hr). unfold q_sweep. cbn [q_items q_wait q_max q_counts q_sunk].
  destruct ps as [|p ps], q as [|e q]; try done; cbn [first q_expire]; [by split; [exists [], fs|]|].
  destruct (rep_entry s _ [] p ps fs [] e q Hr eq_refl eq_refl) as (E & _). rewrite E. cbn [body].
  destruct (decide (now < expiresAt e)) as [Hlt|Hge]; [by split; [exists (p :: ps), fs|]|].
  assert (forall c o s', rep s' (mkQueue (wait s) (maxItems s) (e :: q) c o) (p :: ps) fs ->
    represents (let '(s, n) := sweep now budget (retire p s') in (s, S n)).1
      (let '(l, c, out, n) := let '(l, c, out, n) := q_expire now budget q c o in (l, c, out, S n) in
       (mkQueue (wait s) (maxItems s) l c out, n)).1 /\
    (let '(s, n) := sweep now budget (retire p s') in (s, S n)).2 =
      (let '(l, c, out, n) := let '(l, c, out, n) := q_expire now budget q c o in (l, c, out, S n) in
       (mkQueue (wait s) (maxItems s) l c out, n)).2) as Hstep.
  { intros c o s' Hr2. pose proof (rep_retire _ _ [] p ps fs [] e q Hr2 eq_refl eq_refl) as Hr3.
    destruct (IH _ _ (ex_intro _ _ (ex_intro _ _ Hr3))) as [IH1 IH2]. unfold q_sweep in IH1, IH2.
    cbn [q_items q_counts q_sunk q_wait q_max app] in IH1, IH2.
    destruct (sweep now budget _) as [s3 n3]. destruct (q_expire _ _ _ _ _) as [[[l c'] out] n]. cbn in *. by subst. }
  destruct (promote e) as [o|]; apply Hstep.
  - exact (rep_out _ _ _ _ (count_virtual (counts s)) (sunk s ++ [(o, now)]) Hr).
  - pose proof (rep_out _ _ _ _ (count_unpaired (counts s)) (sunk s) Hr) as Hr2. by rewrite sunk_same in Hr2.
Qed.

(** *** Passes *)

Fixpoint q_expire_loop (fuel perHold : nat) (now : Z) (total : nat) (a : queue) : queue :=
  match fuel with
  | 0%nat => a
  | S fuel =>
      if decide (total = 0%nat) then a
      else
        let n := Nat.min total perHold in
        let '(a, took) := q_sweep now n a in
        if decide (took < n)%nat then a else q_expire_loop fuel perHold now (total - n) a
  end.

Lemma expire_loop_refines fuel : forall perHold now total s a, represents s a ->
  represents (expire_loop fuel perHold now total s) (q_expire_loop fuel perHold now total a).
Proof.
  induction fuel as [|fuel IH]; intros perHold now total s a Hr; [exact Hr|]. cbn.
  destruct (decide (total = 0%nat)); [done|].
  destruct (sweep_refines now (Nat.min total perHold) s a Hr) as [H1 H2].
  destruct (sweep _ _ s) as [s1 n1], (q_sweep _ _ a) as [a1 m1]. cbn in H1, H2. subst. destruct (decide _); [done|by apply IH].
Qed.

(** *** In the queue a pass is a prefix *)

(** The due entries at the front. *)
Fixpoint q_due (now : Z) (l : list pending) : list pending :=
  match l with
  | e :: l => if decide (now < expiresAt e) then [] else e :: q_due now l
  | [] => []
  end.

Definition count_expired (l : list pending) (c : Stats) : Stats :=
  foldl (fun c e => match promote e with Some _ => count_virtual c | None => count_unpaired c end) c l.
Definition emitted (now : Z) (l : list pending) : list (Edge * Z) := (fun o => (o, now)) <$> omap promote l.

Lemma q_expire_eq now budget l c out : let n := Nat.min budget (length (q_due now l)) in
  q_expire now budget l c out = (drop n l, count_expired (take n l) c, out ++ emitted now (take n l), n).
Proof.
  cbv zeta. revert l c out. induction budget as [|budget IH]; intros [|e l] c out; try (cbn; by rewrite app_nil_r).
  cbn [q_expire q_due]. destruct (decide (now < expiresAt e)) as [Hlt|Hge]; [cbn; by rewrite app_nil_r|].
  cbn [length Nat.min]. unfold emitted, count_expired. cbn [take drop omap foldl]. destruct (promote e) as [o|] eqn:E; rewrite IH.
  - unfold emitted, count_expired. cbn. rewrite E. cbn. by rewrite <- app_assoc.
  - unfold emitted, count_expired. cbn. by rewrite E.
Qed.

Lemma q_due_prefix now l : q_due now l = take (length (q_due now l)) l.
Proof. induction l as [|e l IH]; cbn; [done|]. destruct (decide _); cbn; [done|]. by f_equal. Qed.

Lemma q_due_length now l : (length (q_due now l) <= length l)%nat.
Proof. induction l as [|e l IH]; cbn; [lia|]. destruct (decide _); cbn; lia. Qed.

Lemma q_due_drop now l n : (n <= length (q_due now l))%nat -> length (q_due now (drop n l)) = (length (q_due now l) - n)%nat.
Proof.
  revert l. induction n as [|n IH]; intros l; [rewrite drop_0; lia|]. destruct l as [|e l]; cbn; [done|].
  destruct (decide _); cbn; [lia|]. intros H. rewrite IH; lia.
Qed.

Lemma q_sweep_eq now budget a : let n := Nat.min budget (length (q_due now (q_items a))) in
  q_sweep now budget a = (mkQueue (q_wait a) (q_max a) (drop n (q_items a)) (count_expired (take n (q_items a)) (q_counts a))
    (q_sunk a ++ emitted now (take n (q_items a))), n).
Proof. cbv zeta. unfold q_sweep. by rewrite q_expire_eq. Qed.

(** The passes of [expireInPasses] are one pass. *)
Lemma q_passes fuel perHold now total a : (length (q_items a) < fuel)%nat -> (0 < perHold)%nat ->
  q_expire_loop fuel perHold now total a = (q_sweep now total a).1.
Proof.
  revert total a. induction fuel as [|fuel IH]; intros total a Hf Hp; [lia|]. cbn [q_expire_loop].
  destruct (decide (total = 0%nat)) as [->|Ht].
  { rewrite q_sweep_eq. cbn. rewrite app_nil_r. by destruct a. }
  rewrite !q_sweep_eq. set (D := length (q_due now (q_items a))). set (n := Nat.min total perHold). cbn [fst].
  pose proof (q_due_length now (q_items a)) as HD. fold D in HD.
  destruct (decide (Nat.min n D < n)%nat) as [Hs|Hs].
  - by replace (Nat.min total D) with (Nat.min n D) by lia.
  - replace (Nat.min n D) with n by lia. rewrite IH; [|cbn; rewrite length_drop; lia|done]. rewrite q_sweep_eq. cbn.
    rewrite q_due_drop by lia. fold D. set (m := Nat.min (total - n) (D - n)).
    replace (Nat.min total D) with (n + m)%nat by lia. rewrite drop_drop.
    rewrite <- take_take_drop.
    f_equal; [unfold count_expired; by rewrite foldl_app|]. unfold emitted. by rewrite omap_app, fmap_app, app_assoc.
Qed.

(** * What the pairing store promises

    The store over any sequence of calls: it is the queue, it never outgrows its
    cap or allocates past it, it gives up exactly the halves that are due, and
    the order the two halves of a request arrive in does not show in its edge. *)


(** ** Calls *)

Inductive op :=
| OInsert (now : Z) (k : edgeKey) (side : edgeSide) (h : halfSpan) (ds : list EdgeDimension)
| OExpire (now : Z) (total : nat)
| OUnkeyable.

(** One call: the store after it and whether a span was refused. *)
Definition call (o : op) (s : edgeStore) : edgeStore * bool :=
  match o with
  | OInsert now k side h ds => insert now k side h ds s
  | OExpire now total => (expireInPasses now total s, false)
  | OUnkeyable => (countUnkeyable s, false)
  end.

Definition q_call (o : op) (a : queue) : queue * bool :=
  match o with
  | OInsert now k side h ds => q_insert now k side h ds a
  | OExpire now total => ((q_sweep now total a).1, false)
  | OUnkeyable =>
      let c := q_counts a in
      (mkQueue (q_wait a) (q_max a) (q_items a)
        (mkStats (Completed c) (VirtualNode c) (Unpaired c) (Dropped c) (Unkeyable c + 1)) (q_sunk a), false)
  end.

Fixpoint run {S} (f : op -> S -> S * bool) (ops : list op) (s : S) : S * list bool :=
  match ops with
  | [] => (s, [])
  | o :: ops => let '(s, b) := f o s in let '(s, bs) := run f ops s in (s, b :: bs)
  end.

(** The entry waiting under [k]. *)
Definition waiting (s : edgeStore) (k : edgeKey) : option pending := p ← items s !! k; body <$> heap s !! p.

(** ** The store is the queue *)

Lemma call_refines o s a : represents s a ->
  represents (call o s).1 (q_call o a).1 /\ (call o s).2 = (q_call o a).2.
Proof.
  intros Hr. destruct o as [now k side h ds|now total|]; cbn [call q_call].
  - by apply insert_refines.
  - split; [|done]. cbn [fst]. unfold expireInPasses. destruct Hr as (ps & fs & Hr).
    rewrite <- (q_passes (S (size (items s))) expirePerHold now total a);
      [|rewrite (rep_size _ _ _ _ Hr); lia|unfold expirePerHold; lia].
    apply expire_loop_refines. by exists ps, fs.
  - split; [|done]. destruct Hr as (ps & fs & Hr). exists ps, fs. rewrite (rep_canon _ _ _ _ Hr) in Hr |- *.
    pose proof (rep_out _ _ _ _ (counts (countUnkeyable s)) (sunk s) Hr) as H. rewrite sunk_same in H. exact H.
Qed.

Lemma run_refines ops : forall s a, represents s a ->
  represents (run call ops s).1 (run q_call ops a).1 /\ (run call ops s).2 = (run q_call ops a).2.
Proof.
  induction ops as [|o ops IH]; intros s a Hr; [done|]. cbn [run]. destruct (call_refines o s a Hr) as [H1 H2].
  destruct (call o s) as [s1 b], (q_call o a) as [a1 b']. cbn in H1, H2. subst b'. destruct (IH s1 a1 H1) as [I1 I2].
  destruct (run call ops s1), (run q_call ops a1). cbn in *. by subst.
Qed.

Lemma rep_waiting s a k : represents s a -> waiting s k = q_find k (q_items a).
Proof.
  intros (ps & fs & Hr). unfold waiting. destruct (items s !! k) as [p|] eqn:E; cbn.
  - destruct (rep_lookup _ _ _ _ _ _ Hr E) as (l & r & ql & e & qr & -> & Eq & Hl & Hk).
    destruct (rep_entry _ _ _ _ _ _ _ _ _ Hr Eq Hl) as (H1 & _). rewrite H1. cbn. symmetry.
    apply (find_split _ _ _ ql qr); [apply (r_keys _ _ _ _ Hr)|done|done].
  - symmetry. apply find_None. intros e He <-. pose proof (rep_length _ _ _ _ Hr) as Hlen.
    apply list_elem_of_lookup in He as [i Hi].
    assert (is_Some (ps !! i)) as [x Hx]. { apply lookup_lt_is_Some. rewrite Hlen. by eapply lookup_lt_Some. }
    assert ((key e, x) ∈ zip (key <$> q_items a) ps) as Hz.
    { apply list_elem_of_lookup. exists i. by rewrite lookup_zip_with, list_lookup_fmap, Hi, Hx. }
    apply (index_lookup _ _ _ Hlen (r_keys _ _ _ _ Hr) _ x (r_index _ _ _ _ Hr)) in Hz. congruence.
Qed.

Definition emptyQueue (n : nat) (w : Z) : queue := mkQueue w n [] (mkStats 0 0 0 0 0) [].

Lemma reach_rep n w ops : represents (run call ops (newEdgeStore n w)).1 (run q_call ops (emptyQueue n w)).1.
Proof. apply run_refines, represents_new. Qed.

(** C21: the store's index, linked expiry list and free list are one queue.
    Whatever calls are made, the heap of linked, recycled entries behaves as a
    list of waiting halves in arrival order: the same spans are refused, the
    sink is handed the same edges in the same order, the counters agree, each
    key finds the queue's entry and the passes of an expiry are one pass. *)
Theorem edgeStore_refines n w ops : let s := run call ops (newEdgeStore n w) in let a := run q_call ops (emptyQueue n w) in
  s.2 = a.2 /\ sunk s.1 = q_sunk a.1 /\ counts s.1 = q_counts a.1 /\ size (items s.1) = length (q_items a.1) /\
  (forall k, waiting s.1 k = q_find k (q_items a.1)).
Proof.
  intros s a. destruct (run_refines ops _ _ (represents_new n w)) as [H1 H2]. split; [exact H2|].
  assert (represents s.1 a.1) as Hr by exact H1. clearbody s a. destruct Hr as (ps & fs & Hr).
  destruct (r_same _ _ _ _ Hr) as (_ & _ & Hc & Hs). split; [done|]. split; [done|].
  split; [by eapply rep_size|]. intros k. apply rep_waiting. by exists ps, fs.
Qed.

(** ** Bounds *)

Lemma retire_frame p s : brk (retire p s) = brk s /\ maxItems (retire p s) = maxItems s.
Proof.
  unfold retire. destruct (heap s !! p) as [e|]; [|done]. by destruct (prev e), (next e).
Qed.

Lemma insert_at_frame now p side h ds s : brk (insert_at now p side h ds s) = brk s /\ maxItems (insert_at now p side h ds s) = maxItems s.
Proof.
  unfold insert_at. destruct (heap _ !! p) as [e|]; [|done]. destruct (_ && _); [|done].
  by rewrite !(proj1 (retire_frame _ _)), !(proj2 (retire_frame _ _)).
Qed.

Lemma sweep_frame now budget : forall s, brk (sweep now budget s).1 = brk s /\ maxItems (sweep now budget s).1 = maxItems s.
Proof.
  induction budget as [|budget IH]; intros s; [done|]. cbn [sweep]. destruct (head s) as [p|]; [|done].
  destruct (heap s !! p) as [e|]; [|done]. destruct (decide _); [done|]. set (s1 := match promote _ with Some _ => _ | None => _ end).
  assert (brk s1 = brk s /\ maxItems s1 = maxItems s) as [E1 E2] by (unfold s1; by destruct (promote (body e))).
  destruct (IH (retire p s1)) as [I1 I2]. destruct (retire_frame p s1) as [R1 R2]. destruct (sweep now budget _). cbn in *. by split; congruence.
Qed.

Lemma expire_frame fuel perHold now : forall total s, brk (expire_loop fuel perHold now total s) = brk s /\
  maxItems (expire_loop fuel perHold now total s) = maxItems s.
Proof.
  induction fuel as [|fuel IH]; intros total s; [done|]. cbn [expire_loop]. destruct (decide _); [done|].
  pose proof (sweep_frame now (Nat.min total perHold) s) as [F1 F2]. destruct (sweep _ _ s) as [s1 t]. cbn in F1, F2.
  destruct (decide _); [done|]. destruct (IH (total - Nat.min total perHold)%nat s1). by split; congruence.
Qed.

(** A new entry is allocated only when none is retired, so never past the cap. *)
Lemma call_frame o s a : represents s a -> (brk s <= maxItems s)%nat ->
  (brk (call o s).1 <= maxItems (call o s).1)%nat /\ maxItems (call o s).1 = maxItems s.
Proof.
  intros (ps & fs & Hr) Hb. destruct o as [now k side h ds|now total|]; [|cbn [call fst]; unfold expireInPasses|done].
  2: { destruct (expire_frame (S (size (items s))) expirePerHold now total s) as [-> ->]. done. }
  cbn [call]. unfold insert. destruct (items s !! k) as [p|].
  { cbn [fst]. destruct (insert_at_frame now p side h ds s) as [-> ->]. done. }
  destruct (decide _) as [|Hlt]; [done|]. destruct (newEntry s) as [s1 p] eqn:E. cbn [fst].
  rewrite (proj1 (insert_at_frame _ _ _ _ _ _)), (proj2 (insert_at_frame _ _ _ _ _ _)).
  assert (forall s, brk (pushBack p s) = brk s /\ maxItems (pushBack p s) = maxItems s) as Hp by (intros s'; unfold pushBack; cbn; by destruct (tail s')).
  rewrite (proj1 (Hp _)), (proj2 (Hp _)). cbn [brk maxItems set_items at_ptr set_heap].
  rewrite (rep_size _ _ _ _ Hr), <- (rep_length _ _ _ _ Hr) in Hlt. pose proof (r_all _ _ _ _ Hr) as Hall.
  pose proof (r_free _ _ _ _ Hr) as Hf. unfold newEntry in E. rewrite Hf in E. destruct fs; cbn [first] in E; injection E as <- <-; cbn in *; lia.
Qed.

Lemma run_frame ops : forall s a, represents s a -> (brk s <= maxItems s)%nat ->
  (brk (run call ops s).1 <= maxItems (run call ops s).1)%nat /\ maxItems (run call ops s).1 = maxItems s.
Proof.
  induction ops as [|o ops IH]; intros s a Hr Hb; [done|]. cbn [run].
  pose proof (proj1 (call_refines o s a Hr)) as Hr'. destruct (call_frame o s a Hr Hb) as [F1 F2].
  destruct (call o s) as [s1 b]. cbn in Hr', F1, F2. destruct (IH s1 _ Hr' F1) as [I1 I2].
  destruct (run call ops s1). cbn in *. by split; [|congruence].
Qed.

Definition refusals (bs : list bool) : nat := length (filter (fun b => b = true) bs).

Lemma count_expired_other l : forall c, Completed (count_expired l c) = Completed c /\ Dropped (count_expired l c) = Dropped c /\
  VirtualNode (count_expired l c) = VirtualNode c + Z.of_nat (length (omap promote l)) /\
  Unpaired (count_expired l c) = Unpaired c + Z.of_nat (length l) - Z.of_nat (length (omap promote l)) /\
  Unkeyable (count_expired l c) = Unkeyable c.
Proof.
  unfold count_expired. induction l as [|e l IH]; intros c; cbn [foldl omap list_omap length]; [cbn; lia|].
  cbn. fold (omap promote l). destruct (promote e).
  - destruct (IH (count_virtual c)) as (-> & -> & -> & -> & ->). cbn. fold (omap promote l). lia.
  - destruct (IH (count_unpaired c)) as (-> & -> & -> & -> & ->). cbn. fold (omap promote l). lia.
Qed.

(** What the counters of a queue count. *)
Definition q_sound (a : queue) : Prop :=
  (length (q_items a) <= q_max a)%nat /\
  Z.of_nat (length (q_sunk a)) = Completed (q_counts a) + VirtualNode (q_counts a).

Lemma q_arrive_sound now e side h ds l a : (length l <= q_max a)%nat ->
  Z.of_nat (length (q_sunk a)) = Completed (q_counts a) + VirtualNode (q_counts a) ->
  q_sound (q_arrive now e side h ds l a) /\ q_max (q_arrive now e side h ds l a) = q_max a /\
  Dropped (q_counts (q_arrive now e side h ds l a)) = Dropped (q_counts a).
Proof.
  intros Hl Hs. unfold q_arrive. destruct (_ && _); (split; [split|done]); cbn.
  - unfold q_remove. etransitivity; [apply length_filter|done].
  - rewrite length_app. cbn. lia.
  - unfold q_replace. by rewrite length_fmap.
  - done.
Qed.

Lemma q_call_sound o a : q_sound a -> q_sound (q_call o a).1 /\ q_max (q_call o a).1 = q_max a /\
  Dropped (q_counts (q_call o a).1) = Dropped (q_counts a) + (if (q_call o a).2 then 1 else 0).
Proof.
  intros [Hl Hs]. destruct o as [now k side h ds|now total|]; cbn [q_call].
  - unfold q_insert. destruct (q_find k (q_items a)) as [e|]; cbn [fst snd].
    + destruct (q_arrive_sound now e side h ds (q_items a) a Hl Hs) as (H1 & H2 & H3). split; [done|split; [done|lia]].
    + destruct (decide _) as [|Hlt]; cbn [fst snd]; [done|].
      destruct (q_arrive_sound now (p_expiresAt (now + q_wait a) (p_key k zeroPending)) side h ds (q_items a ++ [p_expiresAt (now + q_wait a) (p_key k zeroPending)]) a)
        as (H1 & H2 & H3); [rewrite length_app; cbn; lia|done|split; [done|split; [done|lia]]].
  - rewrite q_sweep_eq. cbn [fst snd q_counts q_max]. set (n := Nat.min _ _).
    destruct (count_expired_other (take n (q_items a)) (q_counts a)) as (C1 & C2 & C3 & _).
    split; [split; cbn [q_items q_max q_counts q_sunk]|split; [done|lia]].
    + rewrite length_drop. lia.
    + rewrite length_app. unfold emitted. rewrite length_fmap. lia.
  - cbn. split; [done|split; [done|lia]].
Qed.

Lemma q_run_sound ops : forall a, q_sound a -> q_sound (run q_call ops a).1 /\ q_max (run q_call ops a).1 = q_max a /\
  Dropped (q_counts (run q_call ops a).1) = Dropped (q_counts a) + Z.of_nat (refusals (run q_call ops a).2).
Proof.
  induction ops as [|o ops IH]; intros a Ha; [split; [done|split; [done|]]; cbn; unfold refusals; cbn; lia|]. cbn [run]. destruct (q_call_sound o a Ha) as (H1 & H2 & H3).
  destruct (q_call o a) as [a1 b]. cbn in H1, H2, H3. destruct (IH a1 H1) as (I1 & I2 & I3). destruct (run q_call ops a1) as [a2 bs].
  cbn [fst snd] in *. split; [done|]. split; [congruence|]. unfold refusals in *. destruct b.
  - rewrite filter_cons_True by done. cbn. lia.
  - rewrite filter_cons_False by done. lia.
Qed.

Lemma empty_sound n w : q_sound (emptyQueue n w).
Proof. split; cbn; lia. Qed.

Lemma q_insert_refused now k side h ds a : (q_insert now k side h ds a).2 = true <->
  q_find k (q_items a) = None /\ (q_max a <= length (q_items a))%nat.
Proof. unfold q_insert. destruct (q_find k _); cbn; [naive_solver|]. by destruct (decide _); cbn; naive_solver. Qed.

(** The cap holds and refusing is the only loss.  After any calls at most
    [maxItems] halves wait, at most [maxItems] entries were ever allocated (a
    retired one is reused), a span is refused exactly when its key is not
    waiting and the store is full, a refusal changes nothing but its counter,
    and the counters account for every refusal and every edge handed on. *)
Theorem edgeStore_bounded n w ops : let r := run call ops (newEdgeStore n w) in let s := r.1 in
  (size (items s) <= n)%nat /\ (brk s <= n)%nat /\
  Dropped (counts s) = Z.of_nat (refusals r.2) /\
  Z.of_nat (length (sunk s)) = Completed (counts s) + VirtualNode (counts s) /\
  (forall now k side h ds, let '(s', refused) := insert now k side h ds s in
    (refused = true <-> waiting s k = None /\ size (items s) = n) /\
    (refused = true -> s' = set_counts (count_dropped (counts s)) s)).
Proof.
  destruct (run_refines ops _ _ (represents_new n w)) as [H1 H2].
  destruct (q_run_sound ops _ (empty_sound n w)) as ([Q1 Q1'] & Q2 & Q3).
  destruct (run_frame ops _ _ (represents_new n w)) as [F1 F2]; [cbn; lia|]. unfold emptyQueue in *.
  destruct (run call ops (newEdgeStore n w)) as [s bs], (run q_call ops _) as [a bs']. cbn in H1, H2, F1, F2, Q1, Q1', Q2. cbn [fst snd q_counts Dropped] in Q3.
  cbv zeta. cbn [fst snd]. subst bs'. pose proof H1 as (ps & fs & Hr). rewrite (rep_size _ _ _ _ Hr).
  destruct (r_same _ _ _ _ Hr) as (_ & Hm & Hc & Hs). rewrite <- Hc, <- Hs.
  split; [lia|]. split; [lia|]. split; [lia|]. split; [lia|]. intros now k side h ds.
  pose proof (proj2 (insert_refines s a now k side h ds H1)) as Href. pose proof (q_insert_refused now k side h ds a) as Hq.
  rewrite <- Href in Hq. rewrite <- (rep_waiting _ _ k H1) in Hq.
  destruct (insert now k side h ds s) as [s' b] eqn:E. cbn in Hq. split.
  - rewrite Hq, Q2. split; intros [? ?]; split; try done; lia.
  - intros ->. unfold insert in E. destruct (items s !! k); [done|]. destruct (decide _); [rewrite Hc; by injection E as <-|].
    by destruct (newEntry s).
Qed.

(** ** Expiry *)

Definition insert_times (ops : list op) : list Z :=
  omap (fun o => match o with OInsert now _ _ _ _ => Some now | _ => None end) ops.

(** The queue's expiry times are in order, none later than an insert at [t] would be. *)
Definition timely (t : Z) (a : queue) : Prop :=
  StronglySorted Z.le (expiresAt <$> q_items a) /\ Forall (fun x => x <= t + q_wait a) (expiresAt <$> q_items a).

Lemma merge_expires side h e : expiresAt (merge side h e) = expiresAt e.
Proof. by destruct side. Qed.
Lemma setDims_expires ds e : expiresAt (setDims ds e) = expiresAt e.
Proof. unfold setDims. destruct ds, (dims e); done. Qed.

Lemma Forall_sublist (P : Z -> Prop) l1 l2 : sublist l1 l2 -> Forall P l2 -> Forall P l1.
Proof. intros Hs H. apply Forall_forall. intros x Hx. eapply Forall_forall in H; [exact H|]. by eapply elem_of_sublist. Qed.

Lemma sorted_sub (l1 l2 : list Z) : sublist l1 l2 -> StronglySorted Z.le l2 -> StronglySorted Z.le l1.
Proof.
  induction 1 as [|x l1 l2 Hs IH|x l1 l2 Hs IH]; intros H; [done| |].
  - apply StronglySorted_inv in H as [H1 H2]. constructor; [by apply IH|]. by eapply Forall_sublist.
  - apply StronglySorted_inv in H as [H1 _]. by apply IH.
Qed.

Lemma q_find_Some k l e : q_find k l = Some e -> e ∈ l /\ key e = k.
Proof.
  unfold q_find. destruct (list_find _ l) as [[i x]|] eqn:E; cbn; [|done]. intros [= ->].
  apply list_find_Some in E as (H1 & H2 & _). split; [by eapply list_elem_of_lookup_2|done].
Qed.

Lemma q_arrive_timely t now e side h ds l a : StronglySorted Z.le (expiresAt <$> l) -> Forall (fun x => x <= t + q_wait a) (expiresAt <$> l) ->
  NoDup (key <$> l) -> e ∈ l -> timely t (q_arrive now e side h ds l a) /\ q_wait (q_arrive now e side h ds l a) = q_wait a.
Proof.
  intros H1 H2 Hnd He. unfold q_arrive. destruct (_ && _); (split; [|done]); unfold timely; cbn [q_items q_wait].
  - assert (sublist (expiresAt <$> q_remove (key (merge side h e)) l) (expiresAt <$> l)) as Hs.
    { apply fmap_sublist, sublist_filter. }
    split; [by eapply sorted_sub|by eapply Forall_sublist].
  - set (e1 := setDims ds (p_peer (Retain (peer (merge side h e))) (merge side h e))).
    assert (key e1 = key e /\ expiresAt e1 = expiresAt e) as [Ek Ee].
    { unfold e1. rewrite setDims_key, setDims_expires. cbn. by rewrite merge_key, merge_expires. }
    apply list_elem_of_split in He as (l1 & l2 & ->). rewrite (replace_split l1 e e1 l2) by done.
    replace (expiresAt <$> l1 ++ e1 :: l2) with (expiresAt <$> l1 ++ e :: l2) by (rewrite !fmap_app; cbn; by rewrite Ee). done.
Qed.

Lemma zsorted_snoc l x : StronglySorted Z.le l -> Forall (fun y => y <= x) l -> StronglySorted Z.le (l ++ [x]).
Proof.
  induction 1 as [|y l Hs IH Hf]; intros Hx; cbn; [repeat constructor|]. apply Forall_cons in Hx as [Hy Hx].
  constructor; [by apply IH|]. apply Forall_app. split; [done|]. by repeat constructor.
Qed.

Lemma q_call_timely t o a : timely t a -> NoDup (key <$> q_items a) ->
  (forall now k side h ds, o = OInsert now k side h ds -> t <= now) ->
  timely (match o with OInsert now _ _ _ _ => now | _ => t end) (q_call o a).1 /\ q_wait (q_call o a).1 = q_wait a.
Proof.
  intros [H1 H2] Hnd Ht. destruct o as [now k side h ds|now total|]; cbn [q_call].
  - specialize (Ht _ _ _ _ _ eq_refl). assert (Forall (fun x => x <= now + q_wait a) (expiresAt <$> q_items a)) as H2'.
    { eapply Forall_impl; [exact H2|]. cbn. lia. }
    unfold q_insert. destruct (q_find k (q_items a)) as [e|] eqn:Ef; cbn [fst].
    + apply q_find_Some in Ef as [Ef _]. by apply q_arrive_timely.
    + destruct (decide _); cbn [fst]; [done|]. set (e := p_expiresAt _ _). assert (k ∉ (key <$> q_items a)) as Hk.
      { intros Hin. apply list_elem_of_fmap in Hin as (x & -> & Hx). apply list_elem_of_split in Hx as (l1 & l2 & E).
        rewrite (find_split (q_items a) (key x) x l1 l2) in Ef; done. }
      apply q_arrive_timely.
      * rewrite fmap_app. by apply zsorted_snoc.
      * rewrite fmap_app. apply Forall_app. split; [done|]. constructor; [cbn; lia|constructor].
      * rewrite fmap_app. apply NoDup_app. split; [done|split; [|apply NoDup_singleton]]. intros x Hx ->%list_elem_of_singleton. done.
      * apply elem_of_app. right. by left.
  - rewrite q_sweep_eq. unfold timely. cbn [fst q_items q_wait]. split; [|done].
    assert (forall n, sublist (expiresAt <$> drop n (q_items a)) (expiresAt <$> q_items a)) as Hs by (intros; apply fmap_sublist, sublist_drop).
    split; [exact (sorted_sub _ _ (Hs _) H1)|exact (Forall_sublist _ _ _ (Hs _) H2)].
  - done.
Qed.

Lemma q_keys s a : represents s a -> NoDup (key <$> q_items a).
Proof. intros (ps & fs & Hr). apply Hr. Qed.

Lemma run_timely ops : forall t s a, represents s a -> timely t a -> StronglySorted Z.le (t :: insert_times ops) ->
  exists t', timely t' (run q_call ops a).1.
Proof.
  induction ops as [|o ops IH]; intros t s a Hr Ha Hs; [by exists t|]. cbn [run].
  pose proof (proj1 (call_refines o s a Hr)) as Hr'.
  assert (exists t1, timely t1 (q_call o a).1 /\ StronglySorted Z.le (t1 :: insert_times ops)) as (t1 & Ht1 & Hs1).
  { exists (match o with OInsert now _ _ _ _ => now | _ => t end). apply StronglySorted_inv in Hs as [Hs1 Hs2].
    destruct (q_call_timely t o a Ha (q_keys _ _ Hr)) as [H1 H2].
    { intros now k side h ds ->. cbn in Hs2. by apply Forall_cons in Hs2 as [? _]. }
    split; [exact H1|]. destruct o; [exact Hs1|constructor; [exact Hs1|exact Hs2]..]. }
  specialize (IH t1 (call o s).1 (q_call o a).1 Hr' Ht1 Hs1). destruct (q_call o a) as [a1 b]. cbn [fst] in IH.
  by destruct (run q_call ops a1).
Qed.

(** In order, the due front is all that is due. *)
Lemma due_sorted now l : StronglySorted Z.le (expiresAt <$> l) ->
  (forall e, e ∈ q_due now l <-> e ∈ l /\ expiresAt e <= now) /\
  (forall e, e ∈ drop (length (q_due now l)) l <-> e ∈ l /\ now < expiresAt e).
Proof.
  induction l as [|e l IH]; cbn [q_due]; intros H.
  - split; intros e; (split; [intros ?%not_elem_of_nil|intros [?%not_elem_of_nil _]]); done.
  - cbn in H. apply StronglySorted_inv in H as [H1 H2]. destruct (decide (now < expiresAt e)) as [Hlt|Hge]; cbn [length drop].
    + assert (forall x, x ∈ e :: l -> now < expiresAt x) as Hall.
      { intros x [->|Hx]%elem_of_cons; [done|]. rewrite Forall_fmap, Forall_forall in H2. specialize (H2 x Hx). cbn in H2. lia. }
      split; intros x; (split; [|intros [Hx Ht]]).
      * by intros ?%not_elem_of_nil.
      * specialize (Hall x Hx). lia.
      * intros Hx. by split; [|apply Hall].
      * done.
    + destruct (IH H1) as [I1 I2]. split; intros x.
      * rewrite !elem_of_cons, I1. split; [intros [->|?]; [split; [by left|lia]|tauto]|tauto].
      * rewrite elem_of_cons, I2. split; [tauto|]. intros [[->|?] ?]; [lia|tauto].
Qed.

Lemma q_find_elem l k e : NoDup (key <$> l) -> q_find k l = Some e <-> e ∈ l /\ key e = k.
Proof.
  intros Hnd. split; [apply q_find_Some|]. intros [He <-]. apply list_elem_of_split in He as (l1 & l2 & E). by apply (find_split l _ e l1 l2).
Qed.

Lemma q_due_late now l e : e ∈ l -> now < expiresAt e -> e ∈ drop (length (q_due now l)) l.
Proof.
  induction l as [|x l IH]; [done|]. cbn [q_due]. intros [->|Hx]%elem_of_cons Hlt.
  - rewrite decide_True by done. by left.
  - destruct (decide _); cbn [length drop]; [by right|by apply IH].
Qed.

Lemma sublist_keys (l1 l2 : list pending) : sublist l1 l2 -> NoDup (key <$> l2) -> NoDup (key <$> l1).
Proof. intros Hs Hnd. eapply sublist_NoDup; [exact Hnd|]. by apply fmap_sublist. Qed.

(** Expiry takes what is due and nothing else.  Whatever the clock did, a
    half that is not due is never given up; when the inserts' clock readings are
    in order and the budget covers the store, what still waits afterwards is
    exactly what is not due, and every half that was due is either handed on as
    a virtual-node edge or counted unpaired. *)
Theorem expiry_exact n w ops now total : let s := (run call ops (newEdgeStore n w)).1 in let s' := expireInPasses now total s in
  (forall k e, waiting s k = Some e -> now < expiresAt e -> waiting s' k = Some e) /\
  (StronglySorted Z.le (insert_times ops) -> (size (items s) <= total)%nat ->
   (forall k e, waiting s' k = Some e <-> waiting s k = Some e /\ now < expiresAt e) /\
   exists due, NoDup (key <$> due) /\ (forall e, e ∈ due <-> waiting s (key e) = Some e /\ expiresAt e <= now) /\
     sunk s' = sunk s ++ emitted now due /\
     VirtualNode (counts s') = VirtualNode (counts s) + Z.of_nat (length (omap promote due)) /\
     Unpaired (counts s') = Unpaired (counts s) + Z.of_nat (length due) - Z.of_nat (length (omap promote due)) /\
     Completed (counts s') = Completed (counts s) /\ Dropped (counts s') = Dropped (counts s)).
Proof.
  intros s s'. set (a := (run q_call ops (emptyQueue n w)).1). assert (represents s a) as Hr by apply reach_rep.
  pose proof (proj1 (call_refines (OExpire now total) s a Hr)) as Hr'. cbn [call q_call fst] in Hr'. fold s' in Hr'.
  assert (StronglySorted Z.le (insert_times ops) -> StronglySorted Z.le (expiresAt <$> q_items a)) as Hsorted.
  { intros Hs. set (t := match insert_times ops with t :: _ => t | [] => 0 end).
    destruct (run_timely ops t _ _ (represents_new n w)) as (t' & Ht & _); [split; constructor|..|exact Ht].
    unfold t. destruct (insert_times ops) as [|x l] eqn:E; [repeat constructor|]. constructor; [done|].
    apply StronglySorted_inv in Hs as [_ Hs]. constructor; [lia|done]. }
  clearbody s'. pose proof (q_keys _ _ Hr) as Hnd. pose proof (fun k => rep_waiting s _ k Hr) as Hw0. pose proof (fun k => rep_waiting s' _ k Hr') as Hw1.
  rewrite q_sweep_eq in Hr', Hw1. cbn [fst q_items] in Hr', Hw1. pose proof (q_keys _ _ Hr') as Hnd'. cbn [q_items] in Hnd'.
  destruct Hr as (ps & fs & Hr), Hr' as (ps' & fs' & Hr'). set (D := q_due now (q_items a)) in *.
  split.
  - intros k e. rewrite Hw0, Hw1, (q_find_elem _ k e Hnd), (q_find_elem _ k e Hnd'). intros [He <-] Hlt. split; [|done].
    pose proof (q_due_late now _ e He Hlt) as Hin. change (q_due now (q_items a)) with D in Hin.
    set (m := Nat.min total (length D)). replace (length D) with (m + (length D - m))%nat in Hin by lia.
    rewrite <- drop_drop in Hin. eapply elem_of_sublist; [exact Hin|apply sublist_drop].
  - intros Hs Hsz. specialize (Hsorted Hs). rewrite (rep_size _ _ _ _ Hr) in Hsz. pose proof (q_due_length now (q_items a)) as HD. fold D in HD.
    replace (Nat.min total (length D)) with (length D) in * by lia.
    destruct (due_sorted now (q_items a) Hsorted) as [S1 S2]. fold D in S1, S2.
    split; [intros k e; rewrite Hw0, Hw1, (q_find_elem _ k e Hnd), (q_find_elem _ k e Hnd'), S2; tauto|].
    exists D. split; [|split].
    + eapply sublist_keys; [|exact Hnd]. unfold D. rewrite q_due_prefix. apply sublist_take.
    + intros e. rewrite Hw0, (q_find_elem _ _ e Hnd), S1. tauto.
    + assert (take (length D) (q_items a) = D) as ED by (symmetry; apply q_due_prefix). rewrite ED in Hr'.
      destruct (r_same _ _ _ _ Hr') as (_ & _ & Hc' & Hs'). destruct (r_same _ _ _ _ Hr) as (_ & _ & Hc & Hsk).
      cbn [q_counts q_sunk] in Hc', Hs'. rewrite <- Hc', <- Hs', Hsk, Hc.
      destruct (count_expired_other D (counts s)) as (C1 & C2 & C3 & C4 & _). done.
Qed.

(** ** Pairing *)

(** The edge a request makes: what its client half and its server half say. *)
Definition conn_of (c s : ConnectionType) : ConnectionType :=
  if bool_decide (c = ConnectionDatabase) || bool_decide (s = ConnectionDatabase) then ConnectionDatabase
  else if bool_decide (c = ConnectionUnknown) then s else c.

Definition requestEdge (hc hs : halfSpan) (ds : list EdgeDimension) : Edge :=
  mkOut (h_service hc) (h_service hs) (conn_of (h_connection hc) (h_connection hs)) (h_seconds hc) (h_seconds hs)
    true true (h_failed hc || h_failed hs) ds [] (h_traceID hc) (h_spanID hc) (h_spanID hs).

(** A call that has nothing to do with the half under [k]. *)
Definition unrelated (k : edgeKey) (o : op) : Prop :=
  match o with OInsert _ k' _ _ _ => k' <> k | OExpire _ _ => False | OUnkeyable => True end.

Lemma q_find_app k l e : q_find k (l ++ [e]) = match q_find k l with Some x => Some x | None => if decide (key e = k) then Some e else None end.
Proof.
  unfold q_find. induction l as [|x l IH]; cbn.
  - by destruct (decide (key e = k)).
  - destruct (decide (key x = k)); cbn; [done|].
    destruct (list_find _ (l ++ [e])) as [[i y]|], (list_find _ l) as [[j z]|]; cbn in *; exact IH.
Qed.

Lemma q_find_replace k e l : key e <> k -> q_find k (q_replace e l) = q_find k l.
Proof.
  intros Hk. unfold q_find, q_replace. induction l as [|x l IH]; cbn; [done|].
  destruct (decide (key x = key e)) as [E|E]; [rewrite (decide_False _ _ Hk), (decide_False (P := key x = k)) by congruence|
    destruct (decide (key x = k)); cbn; [done|]];
    destruct (list_find _ (_ <$> l)) as [[i y]|], (list_find _ l) as [[j z]|]; cbn in *; exact IH.
Qed.

Lemma q_find_remove k k' l : q_find k (q_remove k' l) = if decide (k = k') then None else q_find k l.
Proof.
  destruct (decide (k = k')) as [->|Hk].
  - apply find_None. intros e [? _]%list_elem_of_filter. done.
  - unfold q_find, q_remove. induction l as [|x l IH]; [done|]. destruct (decide (key x = k')) as [E|E].
    + rewrite filter_cons_False by tauto. cbn. rewrite (decide_False (P := key x = k)) by congruence.
      destruct (list_find _ (filter _ l)) as [[i y]|], (list_find _ l) as [[j z]|]; cbn in *; exact IH.
    + rewrite filter_cons_True by done. cbn. destruct (decide (key x = k)); cbn; [done|].
      destruct (list_find _ (filter _ l)) as [[i y]|], (list_find _ l) as [[j z]|]; cbn in *; exact IH.
Qed.

Lemma q_arrive_other now e side h ds l a k : key e <> k -> q_find k (q_items (q_arrive now e side h ds l a)) = q_find k l.
Proof.
  intros Hk. unfold q_arrive. destruct (_ && _); cbn [q_items].
  - rewrite q_find_remove, merge_key. by rewrite decide_False by congruence.
  - apply q_find_replace. by rewrite setDims_key; cbn; rewrite merge_key.
Qed.

Lemma q_call_unrelated k o a : unrelated k o -> q_find k (q_items (q_call o a).1) = q_find k (q_items a).
Proof.
  destruct o as [now k' side h ds|now total|]; cbn [q_call unrelated]; [|done|done]. intros Hk. unfold q_insert.
  destruct (q_find k' (q_items a)) as [e|] eqn:E; cbn [fst].
  - apply q_find_Some in E as [_ E]. apply q_arrive_other. congruence.
  - destruct (decide _); cbn [fst]; [done|]. rewrite q_arrive_other by (cbn; congruence). rewrite q_find_app. cbn.
    rewrite decide_False by done. by destruct (q_find k _).
Qed.

Lemma q_run_unrelated k ops : forall a, Forall (unrelated k) ops -> q_find k (q_items (run q_call ops a).1) = q_find k (q_items a).
Proof.
  induction ops as [|o ops IH]; intros a; [done|]. intros [Ho Hops]%Forall_cons. cbn [run].
  rewrite <- (q_call_unrelated k o a Ho). destruct (q_call o a) as [a1 b]. cbn [fst]. rewrite <- (IH a1 Hops). by destruct (run q_call ops a1).
Qed.

Lemma run_app {S} (f : op -> S -> S * bool) o1 o2 s : (run f (o1 ++ o2) s).1 = (run f o2 (run f o1 s).1).1.
Proof.
  revert s. induction o1 as [|o o1 IH]; intros s; [done|]. cbn. destruct (f o s) as [s1 b]. specialize (IH s1).
  destruct (run f (o1 ++ o2) s1), (run f o1 s1). exact IH.
Qed.

(** One half, anything unrelated, then the other half. *)
Section Pair.
Context (k : edgeKey) (mid : list op) (t1 t2 : Z) (side1 side2 : edgeSide) (h1 h2 : halfSpan) (d1 d2 : list EdgeDimension) (a : queue).
Context (Hmid : Forall (unrelated k) mid) (Hk : q_find k (q_items a) = None) (Hroom : (length (q_items a) < q_max a)%nat).
Context (Hsides : side1 <> side2).

Definition held : pending :=
  let e := merge side1 h1 (p_expiresAt (t1 + q_wait a) (p_key k zeroPending)) in setDims d1 (p_peer (Retain (peer e)) e).

Lemma half_held : q_find k (q_items (q_call (OInsert t1 k side1 h1 d1) a).1) = Some held.
Proof.
  cbn [q_call]. unfold q_insert. rewrite Hk, decide_False by lia. cbn [fst]. unfold q_arrive.
  set (e := merge side1 h1 _). assert (haveClient e && haveServer e = false) as -> by (by destruct side1). cbn [q_items].
  assert (key e = k) as Ek by (by destruct side1). fold held. change (setDims d1 (p_peer (Retain (peer e)) e)) with held.
  assert (key held = k) as Eh by (unfold held; by rewrite setDims_key).
  unfold q_replace. rewrite fmap_app. cbn [fmap list_fmap].
  rewrite (decide_True (P := key (p_expiresAt (t1 + q_wait a) (p_key k zeroPending)) = key held)) by (cbn; congruence).
  rewrite q_find_app. fold (q_replace held (q_items a)). rewrite (decide_True (P := key held = k)) by done.
  assert (q_find k (q_replace held (q_items a)) = None) as ->; [|done]. apply find_None. intros x Hx.
  apply list_elem_of_fmap in Hx as (y & -> & Hy). assert (key y <> k) as Hy'.
  { intros <-. revert Hk. unfold q_find. destruct (list_find _ (q_items a)) eqn:E; [done|]. intros _.
    apply list_find_None in E. rewrite Forall_forall in E. by apply (E y Hy). }
  destruct (decide (key y = key held)); congruence.
Qed.

Lemma pair_emits : let b := (run q_call (OInsert t1 k side1 h1 d1 :: mid ++ [OInsert t2 k side2 h2 d2]) a).1 in
  last (q_sunk b) = Some (edge (joinDims side2 (dims held) d2) (merge side2 h2 held), t2) /\ q_find k (q_items b) = None.
Proof.
  change (OInsert t1 k side1 h1 d1 :: mid ++ [OInsert t2 k side2 h2 d2]) with ([OInsert t1 k side1 h1 d1] ++ mid ++ [OInsert t2 k side2 h2 d2]).
  rewrite !run_app. assert ((run q_call [OInsert t1 k side1 h1 d1] a).1 = (q_call (OInsert t1 k side1 h1 d1) a).1) as ->.
  { cbn [run]. by destruct (q_call _ a). }
  pose proof half_held as Hh. rewrite <- (q_run_unrelated k mid _ Hmid) in Hh.
  set (c := (run q_call mid _).1) in *. clearbody c. cbn [run q_call]. unfold q_insert. rewrite Hh. unfold q_arrive.
  set (e := merge side2 h2 held). assert (haveClient e && haveServer e = true) as ->.
  { unfold e, held, setDims. destruct side1, side2; try done; by destruct d1. }
  cbn [fst q_sunk q_items]. rewrite last_snoc. split.
  - unfold e, held, setDims. by destruct side2, d1.
  - rewrite q_find_remove. assert (key e = k) as -> by (unfold e, held; rewrite merge_key, setDims_key; by destruct side1).
    by rewrite decide_True.
Qed.
End Pair.

Lemma held_dims k t1 side h d a : dims (held k t1 side h d a) = retainDim <$> d.
Proof. unfold held, setDims. by destruct side, d. Qed.

Lemma pair_edge k t1 side h1 h2 d1 a ds : h_traceID h1 = h_traceID h2 ->
  h_connection h1 <> ConnectionVirtualNode -> h_connection h2 <> ConnectionVirtualNode ->
  edge ds (merge (match side with sideClient => sideServer | sideServer => sideClient end) h2 (held k t1 side h1 d1 a)) =
  match side with sideClient => requestEdge h1 h2 ds | sideServer => requestEdge h2 h1 ds end.
Proof.
  intros Ht Hc1 Hc2. unfold held, setDims, requestEdge, edge, conn_of. destruct h1 as [sv1 se1 f1 c1 p1 ti1 si1], h2 as [sv2 se2 f2 c2 p2 ti2 si2].
  cbn in Ht, Hc1, Hc2. subst ti2.
  destruct side, d1 as [|x d1]; cbn; (destruct (decide (ti1 = 0)) as [->|]; [cbn|cbn; rewrite ?decide_False by done]);
    f_equal; try (destruct c1, c2; done); try (destruct f1, f2; done); done.
Qed.

(** The order a request's halves arrive in does not show.  The two halves
    of a request, with anything but an expiry in between, complete one edge
    that names the client half's and the server half's own values, its client
    dimensions first, whichever came first, and nothing stays waiting; only the
    cut of the held half's dimension values, which every consumer makes again,
    tells the two orders apart. *)
Theorem pairing_order_free n w ops mid k hc hs dc ds t1 t2 : let s := (run call ops (newEdgeStore n w)).1 in
  waiting s k = None -> (size (items s) < n)%nat -> Forall (unrelated k) mid ->
  h_traceID hc = h_traceID hs -> h_connection hc <> ConnectionVirtualNode -> h_connection hs <> ConnectionVirtualNode ->
  let c := (run call (OInsert t1 k sideClient hc dc :: mid ++ [OInsert t2 k sideServer hs ds]) s).1 in
  let r := (run call (OInsert t1 k sideServer hs ds :: mid ++ [OInsert t2 k sideClient hc dc]) s).1 in
  last (sunk c) = Some (requestEdge hc hs ((retainDim <$> dc) ++ ds), t2) /\
  last (sunk r) = Some (requestEdge hc hs (dc ++ (retainDim <$> ds)), t2) /\
  retainDim <$> ((retainDim <$> dc) ++ ds) = retainDim <$> (dc ++ (retainDim <$> ds)) /\
  waiting c k = None /\ waiting r k = None.
Proof.
  intros s Hk Hroom Hmid Ht Hc1 Hc2 c r. pose proof (reach_rep n w ops) as Hr. fold s in Hr.
  destruct (q_run_sound ops _ (empty_sound n w)) as (_ & Hmax & _). set (a := (run q_call ops (emptyQueue n w)).1) in *.
  cbn in Hmax. rewrite (rep_waiting _ _ k Hr) in Hk.
  assert (length (q_items a) < q_max a)%nat as Hroom'.
  { rewrite Hmax. pose proof Hr as (ps & fs & Hr'). by rewrite <- (rep_size _ _ _ _ Hr'). }
  assert (forall o, represents (run call o s).1 (run q_call o a).1) as Hrun by (intros o; by apply run_refines).
  assert (forall s a, represents s a -> sunk s = q_sunk a) as Hsunk.
  { intros s' a' (ps & fs & H). destruct (r_same _ _ _ _ H) as (_ & _ & _ & ?). done. }
  unfold c, r. rewrite !(Hsunk _ _ (Hrun _)), !(rep_waiting _ _ _ (Hrun _)).
  destruct (pair_emits k mid t1 t2 sideClient sideServer hc hs dc ds a Hmid Hk Hroom' ltac:(done)) as [-> ->].
  destruct (pair_emits k mid t1 t2 sideServer sideClient hs hc ds dc a Hmid Hk Hroom' ltac:(done)) as [-> ->].
  rewrite !held_dims. rewrite (pair_edge k t1 sideClient hc hs dc a _ Ht Hc1 Hc2).
  rewrite (pair_edge k t1 sideServer hs hc ds a _ (eq_sym Ht) Hc2 Hc1).
  assert (forall l, joinDims sideServer (retainDim <$> dc) l = (retainDim <$> dc) ++ l) as -> by (intros l; by destruct dc, l).
  assert (joinDims sideClient (retainDim <$> ds) dc = dc ++ (retainDim <$> ds)) as -> by (destruct ds, dc; cbn; by rewrite ?app_nil_r).
  split; [done|split; [done|split; [|done]]]. rewrite !fmap_app.
  assert (forall l : list EdgeDimension, retainDim <$> (retainDim <$> l) = retainDim <$> l) as Hidem; [|by rewrite !Hidem].
  intros l. rewrite <- list_fmap_compose. apply list_fmap_ext. intros i x _. unfold retainDim. cbn. by rewrite Retain_idem.
Qed.

(** ** A run *)

Definition ex_half (svc : Z) (conn : ConnectionType) (pr : bytes) : halfSpan := mkHalf [svc] 5 false conn pr 9 svc.
(** Three halves: one whose peer is named, one that nothing names, one paired. *)
Definition ex_ops : list op :=
  [OInsert 0 (9, 1) sideClient (ex_half 1 ConnectionDatabase [77]) []; OInsert 1 (9, 2) sideServer (ex_half 2 ConnectionUnknown []) [];
   OInsert 2 (9, 3) sideClient (ex_half 3 ConnectionUnknown []) []; OInsert 3 (9, 3) sideServer (ex_half 4 ConnectionUnknown []) [];
   OInsert 50 (9, 4) sideClient (ex_half 5 ConnectionUnknown []) []].

Lemma sorted_dec l : Sorted Z.le l -> StronglySorted Z.le l.
Proof. apply Sorted_StronglySorted. intros x y z. lia. Qed.

Lemma expiry_exact_witness : let s := (run call ex_ops (newEdgeStore 3 10)).1 in
  size (items s) = 3%nat /\ size (items (expireInPasses 20 100 s)) = 1%nat /\
  forall k e, waiting (expireInPasses 20 100 s) k = Some e <-> waiting s k = Some e /\ 20 < expiresAt e.
Proof.
  split; [vm_compute; reflexivity|]. split; [vm_compute; reflexivity|].
  pose proof (expiry_exact 3 10 ex_ops 20 100) as [_ H]. apply H.
  - apply sorted_dec. vm_compute. repeat (first [apply Sorted_nil|apply Sorted_cons|apply HdRel_nil|apply HdRel_cons; discriminate]).
  - vm_compute. repeat constructor.
Defined.

Lemma pairing_order_free_witness : let s := (run call ex_ops (newEdgeStore 4 10)).1 in
  let hc := ex_half 6 ConnectionDatabase [] in let hs := ex_half 7 ConnectionMessagingSystem [] in
  let r := (run call (OInsert 60 (9, 6) sideServer hs [] :: [OUnkeyable] ++ [OInsert 61 (9, 6) sideClient hc []]) s).1 in
  last (sunk r) = Some (requestEdge hc hs [], 61).
Proof.
  cbv zeta.
  refine (proj1 (proj2 (pairing_order_free 4 10 ex_ops [OUnkeyable] (9, 6) (ex_half 6 ConnectionDatabase []) (ex_half 7 ConnectionMessagingSystem [])
    [] [] 60 61 _ _ _ _ _ _))).
  - vm_compute. reflexivity.
  - vm_compute. repeat constructor.
  - repeat constructor.
  - reflexivity.
  - discriminate.
  - discriminate.
Defined.
