(* ===== verification/Number.v ===== *)
(** * Numbers in text ([strconv] as the source uses it)

    [strconv.ParseFloat(s, 64)] and [strconv.ParseInt(s, 10, 64)] of Go's
    standard library, for the tokens that reach them, and the float arithmetic
    of one timestamp conversion.  A [float64] is the standard library's
    [spec_float] at 53 bits: rounding is to nearest, ties to even.  A string is
    its bytes. *)

From Stdlib Require Export SpecFloat.
From S2P Require Import Prelude Clip.
Local Open Scope Z_scope.

Notation float64 := spec_float.

Definition isDigit (b : Z) : bool := (48 <=? b) && (b <=? 57).
Definition lower (b : Z) : Z := if (65 <=? b) && (b <=? 90) then b + 32 else b.

(** The digits at the front and what follows them. *)
Fixpoint span (p : Z -> bool) (s : bytes) : bytes * bytes :=
  match s with
  | c :: t => if p c then let '(a, r) := span p t in (c :: a, r) else ([], s)
  | [] => ([], [])
  end.

Definition digits_value (acc : Z) (s : bytes) : Z := fold_left (fun n c => n * 10 + (c - 48)) s acc.

(** ** [ParseInt] *)

Definition sign_of (s : bytes) : bool * bytes :=
  match s with 43 :: t => (false, t) | 45 :: t => (true, t) | _ => (false, s) end.

Definition ParseInt (s : bytes) : option Z :=
  let '(neg, d) := sign_of s in
  match d with
  | [] => None
  | _ =>
      if forallb isDigit d then
        let n := if neg then - digits_value 0 d else digits_value 0 d in
        if decide (min_int64 <= n <= max_int64) then Some n else None
      else None
  end.

(** ** [ParseFloat] *)

(** "inf", "infinity" with an optional sign and "nan", in any case. *)
Definition special (s : bytes) : option float64 :=
  let l := lower <$> s in
  let '(neg, t) := sign_of l in
  if decide (t = [105; 110; 102] \/ t = [105; 110; 102; 105; 110; 105; 116; 121]) then Some (S754_infinity neg)
  else if decide (l = [110; 97; 110]) then Some S754_nan
  else None.

(** The exponent stops accumulating at 10000. *)
Definition exponent_value (s : bytes) : Z := fold_left (fun e c => if e <? 10000 then e * 10 + (c - 48) else e) s 0.

(** The exponent part: nothing, or [e] with an optional sign and digits. *)
Definition read_exponent (s : bytes) : option Z :=
  match s with
  | [] => Some 0
  | c :: t =>
      if lower c =? 101 then
        let '(neg, d) := sign_of t in
        match d with
        | [] => None
        | _ => if forallb isDigit d then Some (if neg then - exponent_value d else exponent_value d) else None
        end
      else None
  end.

Definition fraction (s : bytes) : bytes * bytes := match s with 46 :: t => span isDigit t | _ => ([], s) end.

(** [readFloat]: sign, digits with an optional point, exponent; the value is
    [mantissa * 10 ^ exponent]. *)
Definition readFloat (s : bytes) : option (bool * bytes * Z) :=
  let '(neg, t) := sign_of s in
  let '(whole, t) := span isDigit t in
  let '(frac, t) := fraction t in
  match whole ++ frac with
  | [] => None
  | ds => e ← read_exponent t; Some (neg, ds, e - Z.of_nat (length frac))
  end.

Definition significant (ds : bytes) : bytes := (span (fun c => c =? 48) ds).2.

(** The float nearest to [m * 10 ^ e]. *)
Definition nearest (neg : bool) (m : positive) (e : Z) : float64 :=
  if 0 <=? e then
    match Z.pos m * 10 ^ e with Zpos n => binary_round 53 1024 neg n 0 | _ => S754_zero neg end
  else
    let '(q, x, l) := SFdiv_core_binary 53 1024 (Z.pos m) 0 (10 ^ (- e)) 0 in binary_round_aux 53 1024 neg q x l.

(** An exponent out of every range is settled without the exact value. *)
Definition round_decimal (neg : bool) (ds : bytes) (e : Z) : float64 :=
  match digits_value 0 ds with
  | Zpos m =>
      let dp := Z.of_nat (length (significant ds)) + e in
      if 310 <? dp then S754_infinity neg else if dp <? -330 then S754_zero neg else nearest neg m e
  | _ => S754_zero neg
  end.

Definition is_inf (f : float64) : bool := match f with S754_infinity _ => true | _ => false end.

Definition ParseFloat (s : bytes) : option float64 :=
  match special s with
  | Some f => Some f
  | None =>
      '(neg, ds, e) ← readFloat s;
      let f := round_decimal neg ds e in
      if is_inf f then None else Some f
  end.

(** ** Float seconds to integer milliseconds *)

Definition f_thousand : float64 := binary_normalize 53 1024 1000 0 false.
Definition f_min : float64 := binary_normalize 53 1024 (- 2 ^ 63) 0 false.
Definition f_max : float64 := binary_normalize 53 1024 (2 ^ 63) 0 false.

Definition trunc (f : float64) : Z :=
  match f with
  | S754_finite s m e => cond_Zopp s (if 0 <=? e then Z.pos m * 2 ^ e else Z.pos m / 2 ^ (- e))
  | _ => 0
  end.

Definition seconds_to_ms (f : float64) : option Z :=
  match f with
  | S754_nan => None
  | _ =>
      let g := SFmul 53 1024 f f_thousand in
      if SFltb g f_min || SFleb f_max g then None else Some (trunc g)
  end.

(** ** Decimal text *)

Fixpoint decimal_digits (fuel : nat) (n : Z) : bytes :=
  match fuel with
  | 0%nat => []
  | S fuel => if n <? 10 then [48 + n] else decimal_digits fuel (n / 10) ++ [48 + n mod 10]
  end.
(** Twenty digits hold any 64-bit magnitude. *)
Definition FormatInt (n : Z) : bytes := if n <? 0 then 45 :: decimal_digits 20 (- n) else decimal_digits 20 n.

Lemma digits_value_snoc s acc c : digits_value acc (s ++ [c]) = digits_value acc s * 10 + (c - 48).
Proof. unfold digits_value. by rewrite fold_left_app. Qed.

Lemma decimal_digits_spec fuel n : 0 <= n < 10 ^ Z.of_nat fuel -> (0 < fuel)%nat ->
  decimal_digits fuel n <> [] /\ Forall (fun c => isDigit c = true) (decimal_digits fuel n) /\ digits_value 0 (decimal_digits fuel n) = n.
Proof.
  revert n. induction fuel as [|fuel IH]; intros n Hn Hf; [lia|]. cbn [decimal_digits]. destruct (n <? 10) eqn:E; bool_norm.
  - split; [done|]. split; [|cbn; lia]. repeat constructor. unfold isDigit. apply andb_true_iff. lia.
  - destruct fuel as [|fuel]; [cbn in Hn; lia|]. assert (0 <= n / 10 < 10 ^ Z.of_nat (S fuel)) as Hq.
    { split; [apply Z.div_pos; lia|]. apply Z.div_lt_upper_bound; [lia|]. rewrite <- Z.pow_succ_r by lia.
      replace (Z.succ (Z.of_nat (S fuel))) with (Z.of_nat (S (S fuel))) by lia. lia. }
    destruct (IH _ Hq) as (I1 & I2 & I3); [lia|]. pose proof (Z.mod_pos_bound n 10). split; [by destruct (decimal_digits _ _)|]. split.
    + apply Forall_app. split; [done|]. repeat constructor. unfold isDigit. apply andb_true_iff. lia.
    + rewrite digits_value_snoc, I3. pose proof (Z.div_mod n 10). lia.
Qed.

Lemma isDigit_range c : isDigit c = true -> 48 <= c <= 57.
Proof. unfold isDigit. intros H. bool_norm. lia. Qed.

(** Reading back what was written. *)
Lemma ParseInt_FormatInt n : min_int64 <= n <= max_int64 -> ParseInt (FormatInt n) = Some n.
Proof.
  intros Hn. unfold ParseInt, FormatInt. assert (Z.abs n < 10 ^ Z.of_nat 20) as Hr by (unfold min_int64, max_int64 in Hn; lia).
  assert (forall l, Forall (fun c => isDigit c = true) l -> forallb isDigit l = true) as Hall.
  { intros l Hl. apply forallb_forall. intros x Hx. eapply Forall_forall in Hl; [exact Hl|]. by apply list_elem_of_In. }
  destruct (n <? 0) eqn:E; bool_norm.
  - destruct (decimal_digits_spec 20 (- n)) as (D1 & D2 & D3); [lia|lia|]. set (l := decimal_digits 20 (- n)) in *. clearbody l.
    cbn [sign_of]. destruct l as [|c l]; [done|]. rewrite (Hall _ D2), D3, decide_True by lia. f_equal. lia.
  - destruct (decimal_digits_spec 20 n) as (D1 & D2 & D3); [lia|lia|]. set (l := decimal_digits 20 n) in *. clearbody l.
    destruct l as [|c l]; [done|]. assert (sign_of (c :: l) = (false, c :: l)) as ->.
    { apply Forall_cons in D2 as [D2 _]. apply isDigit_range in D2. unfold sign_of.
      destruct c as [|p|p]; try lia. do 6 (destruct p as [p|p|]; try lia; try done). }
    by rewrite (Hall _ D2), D3, decide_True by lia.
Qed.

(** Known answers: 0.1, 1e23, the smallest subnormal, the largest finite, overflow. *)
Example float_tenth : ParseFloat [48; 46; 49] = Some (S754_finite false 7205759403792794 (-56)).
Proof. vm_compute. reflexivity. Qed.
Example float_1e23 : ParseFloat [49; 101; 50; 51] = Some (S754_finite false 5960464477539062 24).
Proof. vm_compute. reflexivity. Qed.
Example float_tiny : ParseFloat [53; 101; 45; 51; 50; 52] = Some (S754_finite false 1 (-1074)).
Proof. vm_compute. reflexivity. Qed.
Example float_over : ParseFloat [49; 101; 51; 48; 57] = None.
Proof. vm_compute. reflexivity. Qed.
Example float_neg_inf : ParseFloat [45; 73; 110; 102] = Some (S754_infinity true).
Proof. vm_compute. reflexivity. Qed.
Example ms_of_seconds : (ParseFloat [49; 46; 53] ≫= seconds_to_ms) = Some 1500.
Proof. vm_compute. reflexivity. Qed.
