(* ===== verification/Float.v ===== *)
(** * Float arithmetic

    The operations on [float64] the source uses, as the standard library's
    [SpecFloat] computes them at 53 bits, rounding to nearest even; Go's [min]
    and [max], and the conversions from and to integers. *)

From S2P Require Import Prelude Number.
Local Open Scope Z_scope.

Definition float_le (x y : float64) : bool := match SFcompare x y with Some Lt | Some Eq => true | _ => false end.
Definition float_lt (x y : float64) : bool := match SFcompare x y with Some Lt => true | _ => false end.
Definition float_add (x y : float64) : float64 := SFadd 53 1024 x y.
Definition float_sub (x y : float64) : float64 := SFsub 53 1024 x y.
Definition float_mul (x y : float64) : float64 := SFmul 53 1024 x y.
Definition float_div (x y : float64) : float64 := SFdiv 53 1024 x y.
Definition is_nan (x : float64) : bool := match x with S754_nan => true | _ => false end.
Definition float_zero : float64 := S754_zero false.

(** The conversion of an integer, and of a float to an integer inside its range. *)
Definition of_int (n : Z) : float64 := binary_normalize 53 1024 n 0 false.
Definition to_int (f : float64) : Z := trunc f.

(** The built-in [min] and [max]: a NaN wins, and zeros are ordered by sign. *)
Definition float_min (x y : float64) : float64 :=
  if is_nan x || is_nan y then S754_nan
  else match x, y with
       | S754_zero s, S754_zero t => S754_zero (s || t)
       | _, _ => if float_lt y x then y else x
       end.
Definition float_max (x y : float64) : float64 :=
  if is_nan x || is_nan y then S754_nan
  else match x, y with
       | S754_zero s, S754_zero t => S754_zero (s && t)
       | _, _ => if float_lt x y then y else x
       end.

(** [Duration.Seconds]: whole seconds and the fraction, converted separately. *)
Definition Seconds (d : Z) : float64 :=
  float_add (of_int (Z.quot d 1000000000)) (float_div (of_int (Z.rem d 1000000000)) (of_int 1000000000)).

(** ** The order *)

Lemma SFcompare_refl x : is_nan x = false -> SFcompare x x = Some Eq.
Proof.
  destruct x as [| | |[] m e]; try done; cbn; try by destruct s.
  all: intros _; rewrite Z.compare_refl, (Pos.compare_cont_refl m); done.
Qed.

Lemma SFcompare_antisym x y : SFcompare y x = option_map CompOpp (SFcompare x y).
Proof.
  destruct x as [[]|[]| |[] m e], y as [[]|[]| |[] m' e']; cbn; try done.
  all: rewrite (Z.compare_antisym e e'); destruct (e ?= e'); cbn; try done.
  all: fold (Pos.compare m m'); fold (Pos.compare m' m); rewrite (Pos.compare_antisym m m'); by destruct (m ?= m')%positive.
Qed.

Lemma SFcompare_total x y : is_nan x = false -> is_nan y = false -> is_Some (SFcompare x y).
Proof. destruct x as [[]|[]| |[] m e], y as [[]|[]| |[] m' e']; cbn; try done; intros _ _; by eexists. Qed.

Lemma float_le_refl x : is_nan x = false -> float_le x x = true.
Proof. intros H. unfold float_le. by rewrite (SFcompare_refl x H). Qed.

Lemma not_nan_le x y : float_le x y = true -> is_nan x = false /\ is_nan y = false.
Proof. by destruct x as [[]|[]| |[]], y as [[]|[]| |[]]. Qed.

Lemma float_le_trans x y z : float_le x y = true -> float_le y z = true -> float_le x z = true.
Proof.
  destruct x as [[]|[]| |[] m e], y as [[]|[]| |[] m' e'], z as [[]|[]| |[] m'' e'']; try done; unfold float_le; cbn [SFcompare].
  all: fold (Pos.compare m m'); fold (Pos.compare m' m''); fold (Pos.compare m m'').
  all: destruct (Z.compare_spec e e'), (Z.compare_spec e' e''), (Z.compare_spec e e''); try done; try lia.
  all: destruct (Pos.compare_spec m m'), (Pos.compare_spec m' m''), (Pos.compare_spec m m''); try done; lia.
Qed.

Lemma float_lt_le x y : float_lt x y = true -> float_le x y = true.
Proof. unfold float_lt, float_le. destruct (SFcompare x y) as [[]|]; done. Qed.

Lemma float_not_lt x y : is_nan x = false -> is_nan y = false -> float_lt x y = false -> float_le y x = true.
Proof.
  intros Hx Hy. unfold float_lt, float_le. rewrite (SFcompare_antisym x y).
  destruct (SFcompare_total x y Hx Hy) as [[] ->]; done.
Qed.

Lemma float_min_le x y : is_nan x = false -> is_nan y = false ->
  float_le (float_min x y) x = true /\ float_le (float_min x y) y = true.
Proof.
  intros Hx Hy. unfold float_min. rewrite Hx, Hy. cbn [orb].
  assert (G : float_le (if float_lt y x then y else x) x = true /\ float_le (if float_lt y x then y else x) y = true).
  { destruct (float_lt y x) eqn:E; split; auto using float_le_refl, float_lt_le, float_not_lt. }
  destruct x as [[]| | |], y as [[]| | |]; try exact G; done.
Qed.

(** Where the order decides, [min] is one of its arguments. *)
Lemma float_min_left x y : is_nan x = false -> float_le x y = true -> float_le (float_min x y) x = true /\ float_le x (float_min x y) = true.
Proof.
  intros Hx Hle. assert (Hy : is_nan y = false) by (destruct x as [[]|[]| |[]], y; done).
  unfold float_min. rewrite Hx, Hy. cbn [orb].
  assert (E : float_lt y x = false).
  { unfold float_lt. rewrite (SFcompare_antisym x y). revert Hle. unfold float_le. by destruct (SFcompare x y) as [[]|]. }
  rewrite E. pose proof (float_le_refl x Hx).
  destruct x as [[]| | |], y as [[]| | |]; done.
Qed.
