(* ===== verification/Text.v ===== *)
(** * Text and durations of configuration ([internal/config/duration.go])

    String constants as bytes, the error monad of configuration checks, and the
    one reader of optional durations.  What configuration takes from Go's
    standard library is the class [GoText]. *)

From S2P Require Import Prelude Clip.
From Stdlib Require Import Ascii.
Local Open Scope Z_scope.

(** The bytes of a string constant. *)
Fixpoint text (s : string) : bytes :=
  match s with EmptyString => [] | String c s => Z.of_nat (nat_of_ascii c) :: text s end.

(** [regexp.Compile] and [Regexp.MatchString], [time.ParseDuration],
    [strings.ToUpper] and [strings.TrimSpace]. *)
Class GoText := {
  Regexp : Type;
  Compile : bytes -> option Regexp;
  MatchString : Regexp -> bytes -> bool;
  ParseDuration : bytes -> option Z;
  ToUpper : bytes -> bytes;
  TrimSpace : bytes -> bytes }.

#[export] Instance result_ret E : MRet (sum E) := fun _ a => inr a.
#[export] Instance result_bind E : MBind (sum E) := fun _ _ f m => match m with inl e => inl e | inr a => f a end.

(** The error of a guard that holds. *)
Definition refuse {E} (b : bool) (e : E) : E + unit := if b then inl e else inr tt.

Definition ok {E A} (r : E + A) : bool := match r with inr _ => true | inl _ => false end.

Lemma bind_ok {E A B} (r : E + A) (f : A -> E + B) b : (r ≫= f) = inr b <-> exists a, r = inr a /\ f a = inr b.
Proof. destruct r as [e|a]; cbn; split; [done|by intros (?&?&?)|by exists a|by intros (?&[= <-]&?)]. Qed.

Lemma refuse_ok {E} b (e : E) u : refuse b e = inr u <-> b = false.
Proof. unfold refuse. destruct b, u; split; done. Qed.

Inductive duration_error := Unparseable | NegativeDuration | NotPositive.
Inductive DurationOption := ZeroDisables | Positive.

Definition positive_opt (opts : list DurationOption) : bool :=
  foldl (fun _ o => match o with Positive => true | ZeroDisables => false end) false opts.

Definition Duration `{GoText} (value : bytes) (def : Z) (opts : list DurationOption) : duration_error + Z :=
  d ← (match value with
       | [] => inr def
       | _ => match ParseDuration value with Some d => inr d | None => inl Unparseable end
       end : duration_error + Z);
  refuse (d <? 0) NegativeDuration;;
  refuse (positive_opt opts && (d =? 0)) NotPositive;;
  mret d.

Lemma Duration_nonneg `{GoText} v def opts d : Duration v def opts = inr d -> 0 <= d /\ (positive_opt opts = true -> 0 < d).
Proof.
  unfold Duration. intros E. apply bind_ok in E as (x & _ & E). apply bind_ok in E as ([] & H1 & E).
  apply bind_ok in E as ([] & H2 & [= ->]). apply refuse_ok in H1, H2. apply Z.ltb_ge in H1. split; [done|].
  intros Hp. rewrite Hp in H2. cbn in H2. apply Z.eqb_neq in H2. lia.
Qed.
