(* ===== verification/Pdata.v ===== *)
(** * The OTLP data model, as far as the source reads it

    [go.opentelemetry.io/collector/pdata] is a third-party package; these are
    its message types, a field for each one the code reads or copies.  An
    identifier is the number its bytes spell, least significant first, 0 the
    empty one; a timestamp is an unsigned 64-bit nanosecond.  Its operations on
    maps and values are parameters where they are used. *)

From S2P Require Import Prelude Clip Number.
Local Open Scope Z_scope.

Inductive Value :=
| VEmpty | VStr (s : bytes) | VBytes (b : bytes) | VBool (b : bool) | VInt (n : Z) | VDouble (d : float64)
| VMap (m : list (bytes * Value)) | VSlice (l : list Value).

Notation attrs := (list (bytes * Value)).

(** Events and links with their attributes. *)
Record Span := mkSpan {
  sp_name : bytes; sp_kind : Z; sp_status : Z; sp_attrs : attrs; sp_start : Z; sp_end : Z; sp_trace : Z; sp_id : Z;
  sp_events : list (bytes * attrs); sp_links : list attrs }.

Record Scope := mkScope { sc_name : bytes; sc_version : bytes; sc_attrs : attrs }.
Record ScopeSpans := mkSS { ss_scope : Scope; ss_url : bytes; ss_spans : list Span }.
Record ResourceSpans := mkRS { rs_resource : attrs; rs_url : bytes; rs_scopes : list ScopeSpans }.
Definition Traces := list ResourceSpans.

Definition rs_spans (rs : ResourceSpans) : list Span := rs_scopes rs ≫= ss_spans.
Definition td_spans (td : Traces) : list Span := td ≫= rs_spans.
Definition SpanCount (td : Traces) : Z := Z.of_nat (length (td_spans td)).
