(* ===== verification/TraceHash.v ===== *)
(** * Trace hashing and the token bucket ([internal/agent/tracehash]: [tracehash.go], [bucket.go])

    The arithmetic both samplers share: a keep fraction as a threshold on the
    hash of the trace id, and the bucket of spans per second.  The hash is a
    third-party function of the two halves of an id, a parameter here.  A
    bucket's mutex makes each of its methods one step, so a method is a
    function of the bucket and of the clock reading its caller passes; readings
    of concurrent callers may arrive out of order. *)

From S2P Require Import Prelude Number Float.
Local Open Scope Z_scope.

Definition max_uint64 : Z := 2 ^ 64 - 1.

(** ** Thresholds *)

(** [float64(math.MaxUint64)] rounds to 2^64.  The conversion to [uint64] is
    defined for values inside its range, which a fraction below 1 gives. *)
Definition Threshold (fraction : float64) : Z :=
  if float_le (of_int 1) fraction then max_uint64 else u64 (to_int (float_mul fraction (of_int max_uint64))).

Definition keepHash (h threshold : Z) : bool := (threshold =? max_uint64) || (h <? threshold).

Section Keep.
(** [rapidhash.Sum64Uint128]. *)
Context (Sum64Uint128 : Z -> Z -> Z).

Definition Keep (id threshold : Z) : bool :=
  if threshold =? max_uint64 then true
  else keepHash (Sum64Uint128 (id mod 2 ^ 64) (id / 2 ^ 64)) threshold.
End Keep.

(** ** The bucket *)

Record Bucket := mkBucket { rate : float64; burst : float64; tokens : float64; last : Z }.

Definition NewBucket (r : float64) : Bucket :=
  let burst := float_max (of_int 1) r in mkBucket r burst burst 0.

Definition accruedLocked (now : Z) (b : Bucket) : float64 :=
  if is_zero (last b) then tokens b
  else
    let elapsed := time_sub now (last b) in
    if 0 <? elapsed then float_min (burst b) (float_add (tokens b) (float_mul (rate b) (Seconds elapsed)))
    else tokens b.

Definition refillLocked (now : Z) (b : Bucket) : Bucket :=
  mkBucket (rate b) (burst b) (accruedLocked now b) (if last b <? now then now else last b).

Definition admitsLocked (b : Bucket) (tokens n : float64) : bool := float_le (float_min n (burst b)) tokens.

Definition debit (n : float64) (b : Bucket) : Bucket := mkBucket (rate b) (burst b) (float_sub (tokens b) n) (last b).

Definition TakeExact (n : float64) (now : Z) (b : Bucket) : Bucket * bool :=
  let b := refillLocked now b in
  if float_lt (tokens b) n then (b, false) else (debit n b, true).

Definition AdmitDebt (n : float64) (now : Z) (b : Bucket) : Bucket * bool :=
  let b := refillLocked now b in
  if negb (admitsLocked b (tokens b) n) then (b, false) else (debit n b, true).

Definition Peek (n : float64) (now : Z) (b : Bucket) : bool := admitsLocked b (accruedLocked now b) n.

(** ** Thresholds are floors

    Scaling by 2^64 is exact, so a threshold is the floor of the scaled
    fraction and grows with it. *)

Definition canonical (m : positive) (e : Z) : Prop :=
  -1074 <= e <= 971 /\ Z.pos m < 2 ^ 53 /\ (-1074 < e -> 2 ^ 52 <= Z.pos m).

(** The floats a fraction can be: what [strconv] and IEEE arithmetic produce
    that is neither negative nor a NaN. *)
Definition is_fraction (x : float64) : Prop :=
  match x with
  | S754_zero _ => True
  | S754_finite false m e => canonical m e
  | S754_infinity false => True
  | _ => False
  end.

(** The floor of [m * 2^e]. *)
Definition scaled (m e : Z) : Z := if 0 <=? e then m * 2 ^ e else m / 2 ^ (- e).

Lemma shr_1_double m : 0 <= m -> shr_1 (Build_shr_record (m * 2) false false) = Build_shr_record m false false.
Proof. intros H. rewrite Z.mul_comm. by destruct m. Qed.

Lemma shr_exact p m : 0 <= m ->
  iter_pos shr_1 p (Build_shr_record (m * 2 ^ Z.pos p) false false) = Build_shr_record m false false.
Proof.
  revert m. induction p as [p IH|p IH|]; intros m Hm; cbn [iter_pos]; [| |by apply shr_1_double].
  - replace (m * 2 ^ Z.pos p~1) with (m * 2 ^ Z.pos p * 2 ^ Z.pos p * 2).
    { rewrite shr_1_double by lia. rewrite !IH by lia. done. }
    replace (Z.pos p~1) with (Z.pos p + Z.pos p + 1) by lia. rewrite !Z.pow_add_r by lia. lia.
  - replace (m * 2 ^ Z.pos p~0) with (m * 2 ^ Z.pos p * 2 ^ Z.pos p).
    { rewrite !IH by lia. done. }
    replace (Z.pos p~0) with (Z.pos p + Z.pos p) by lia. rewrite !Z.pow_add_r by lia. lia.
Qed.

Lemma digits2_bounds p : 2 ^ (Z.pos (digits2_pos p) - 1) <= Z.pos p < 2 ^ Z.pos (digits2_pos p).
Proof.
  induction p as [p IH|p IH|]; cbn [digits2_pos]; [| |done].
  all: rewrite Pos2Z.inj_succ; replace (Z.succ (Z.pos (digits2_pos p)) - 1) with (Z.pos (digits2_pos p) - 1 + 1) by lia.
  all: unfold Z.succ; rewrite !Z.pow_add_r by lia; lia.
Qed.

Lemma digits2_unique p d : 0 <= d -> 2 ^ d <= Z.pos p < 2 ^ (d + 1) -> Z.pos (digits2_pos p) = d + 1.
Proof.
  intros Hd [Hl Hu]. destruct (digits2_bounds p) as [Hl' Hu'].
  pose proof (Z.pow_lt_mono_r_iff 2 d (Z.pos (digits2_pos p)) ltac:(lia) ltac:(lia)).
  pose proof (Z.pow_lt_mono_r_iff 2 (Z.pos (digits2_pos p) - 1) (d + 1) ltac:(lia) ltac:(lia)). lia.
Qed.

Lemma two64 : of_int max_uint64 = S754_finite false 4503599627370496 12.
Proof. by vm_compute. Qed.

(** A number with [d] digits and [k >= d - 1] zeros behind them is rounded by
    dropping [d - 1] of the zeros. *)
Lemma shr_fexp_exact m d e : Z.pos (digits2_pos m) = d -> 1 <= d <= 53 -> -1074 <= e ->
  shr_fexp 53 1024 (Z.pos m * 2 ^ 52) (e + 12) loc_Exact = (Build_shr_record (Z.pos m * 2 ^ (53 - d)) false false, e + d + 11).
Proof.
  intros Hd Hr He. unfold shr_fexp. cbn [shr_record_of_loc].
  assert (Hz : Zdigits2 (Z.pos m * 2 ^ 52) = d + 52).
  { change (Z.pos m * 2 ^ 52) with (Z.pos (m * 4503599627370496)). cbn [Zdigits2].
    replace (d + 52) with (d + 51 + 1) by lia. apply digits2_unique; [lia|].
    pose proof (digits2_bounds m) as Hm. rewrite Hd in Hm. rewrite Pos2Z.inj_mul.
    change (Z.pos 4503599627370496) with (2 ^ 52).
    replace (d + 51) with (d - 1 + 52) by lia. replace (d - 1 + 52 + 1) with (d + 52) by lia.
    rewrite !Z.pow_add_r by lia. nia. }
  rewrite Hz. unfold fexp, emin.
  replace (Z.max (d + 52 + (e + 12) - 53) (3 - 1024 - 53) - (e + 12)) with (d - 1) by lia.
  destruct (d - 1) as [|p|p] eqn:E; [| |lia]; cbn [shr].
  - assert (d = 1) as -> by lia. f_equal. lia.
  - f_equal; [|lia].
    replace (Z.pos m * 2 ^ 52) with (Z.pos m * 2 ^ (53 - d) * 2 ^ Z.pos p).
    2:{ rewrite <- Z.mul_assoc, <- Z.pow_add_r by lia. do 2 f_equal. lia. }
    apply shr_exact. nia.
Qed.

Lemma scale_exact m e : canonical m e -> e <= 900 ->
  exists m', float_mul (S754_finite false m e) (of_int max_uint64) = S754_finite false m' (e + Z.pos (digits2_pos m) + 11) /\
             Z.pos m' = Z.pos m * 2 ^ (53 - Z.pos (digits2_pos m)).
Proof.
  intros [He [Hm _]] Hs. rewrite two64. unfold float_mul. cbn [SFmul xorb].
  pose proof (digits2_bounds m) as [Hb _].
  set (d := Z.pos (digits2_pos m)) in *.
  assert (Hd : 1 <= d <= 53).
  { split; [lia|]. pose proof (Z.pow_lt_mono_r_iff 2 (d - 1) 53 ltac:(lia) ltac:(lia)). lia. }
  unfold binary_round_aux. rewrite Pos2Z.inj_mul. change (Z.pos 4503599627370496) with (2 ^ 52).
  rewrite (shr_fexp_exact m d e) by (done || lia). cbn [shr_m loc_of_shr_record round_nearest_even].
  assert (0 < 2 ^ (53 - d)) by (apply Z.pow_pos_nonneg; lia).
  destruct (Z.pos m * 2 ^ (53 - d)) as [|m'|m'] eqn:Em; [nia| |nia].
  assert (Hm' : Z.pos (digits2_pos m') = 53).
  { change 53 with (52 + 1). apply digits2_unique; [lia|]. rewrite <- Em.
    pose proof (digits2_bounds m) as B. fold d in B.
    replace (2 ^ 52) with (2 ^ (d - 1) * 2 ^ (53 - d)) by (rewrite <- Z.pow_add_r by lia; f_equal; lia).
    replace (2 ^ (52 + 1)) with (2 ^ d * 2 ^ (53 - d)) by (rewrite <- Z.pow_add_r by lia; f_equal; lia). nia. }
  unfold shr_fexp. cbn [shr_record_of_loc Zdigits2]. rewrite Hm'. unfold fexp, emin.
  replace (Z.max (53 + (e + d + 11) - 53) (3 - 1024 - 53) - (e + d + 11)) with 0 by lia. cbn [shr shr_m].
  exists m'. split; [|done]. replace (e + d + 11 <=? 1024 - 53) with true; [done|]. symmetry. apply Z.leb_le. lia.
Qed.

Lemma scaled_shift m e k : 0 <= k -> scaled (m * 2 ^ k) e = scaled m (e + k).
Proof.
  intros Hk. unfold scaled.
  destruct (0 <=? e) eqn:E; bool_norm.
  - replace (0 <=? e + k) with true by (symmetry; apply Z.leb_le; lia).
    rewrite <- Z.mul_assoc, <- Z.pow_add_r by lia. do 2 f_equal. lia.
  - destruct (0 <=? e + k) eqn:E'; bool_norm.
    + replace k with ((e + k) + - e) at 1 by lia. rewrite Z.pow_add_r, Z.mul_assoc by lia. apply Z.div_mul. lia.
    + replace (- e) with (k + - (e + k)) by lia. rewrite Z.pow_add_r by lia.
      rewrite <- Z.div_div by lia. rewrite Z.div_mul by lia. done.
Qed.

Lemma scaled_mono_m m n e : 0 <= m <= n -> scaled m e <= scaled n e.
Proof. intros H. unfold scaled. case_match; [nia|]. apply Z.div_le_mono; lia. Qed.

(** [m * 2^e < 2^j]. *)
Lemma scaled_below m e i j : 0 <= m < 2 ^ i -> 0 <= i -> 0 <= j -> i + e <= j -> 0 <= scaled m e < 2 ^ j.
Proof.
  intros Hm Hi Hj Hij. unfold scaled. destruct (0 <=? e) eqn:E; bool_norm.
  - split; [nia|]. apply Z.lt_le_trans with (2 ^ i * 2 ^ e); [apply Z.mul_lt_mono_pos_r; lia|].
    rewrite <- Z.pow_add_r by lia. apply Z.pow_le_mono_r; lia.
  - split; [apply Z.div_pos; lia|]. apply Z.div_lt_upper_bound; [lia|]. rewrite <- Z.pow_add_r by lia.
    apply Z.lt_le_trans with (2 ^ i); [lia|]. apply Z.pow_le_mono_r; lia.
Qed.

Lemma scaled_mono_e m n e f : 0 <= m < 2 ^ 53 -> 2 ^ 52 <= n -> e < f -> scaled m e <= scaled n f.
Proof.
  intros Hm Hn Hef.
  transitivity (scaled (n * 2 ^ (f - e)) e); [|rewrite scaled_shift by lia; replace (e + (f - e)) with f by lia; done].
  apply scaled_mono_m. split; [lia|].
  assert (2 ^ 1 <= 2 ^ (f - e)) by (apply Z.pow_le_mono_r; lia). nia.
Qed.

Lemma canonical_small m e : canonical m e -> float_le (of_int 1) (S754_finite false m e) = false -> e <= -53.
Proof.
  intros [He [Hm Hn]]. change (of_int 1) with (S754_finite false 4503599627370496 (-52)).
  unfold float_le. cbn [SFcompare]. destruct (Z.compare_spec (-52) e) as [<-|Hlt|Hgt]; [| done | lia].
  fold (Pos.compare 4503599627370496 m). destruct (Pos.compare_spec 4503599627370496 m); try done.
  exfalso. apply Pos2Z.pos_lt_pos in H. change (Z.pos 4503599627370496) with (2 ^ 52) in H. specialize (Hn eq_refl). lia.
Qed.

Lemma Threshold_finite m e : canonical m e -> float_le (of_int 1) (S754_finite false m e) = false ->
  Threshold (S754_finite false m e) = scaled (Z.pos m) (e + 64).
Proof.
  intros Hc Hs. pose proof (canonical_small m e Hc Hs) as He. unfold Threshold. rewrite Hs.
  destruct (scale_exact m e Hc ltac:(lia)) as [m' [-> Hm']]. unfold to_int, trunc. cbn [cond_Zopp].
  fold (scaled (Z.pos m') (e + Z.pos (digits2_pos m) + 11)).
  destruct Hc as [_ [Hm _]]. pose proof (digits2_bounds m) as [Hb _].
  assert (Z.pos (digits2_pos m) <= 53).
  { pose proof (Z.pow_lt_mono_r_iff 2 (Z.pos (digits2_pos m) - 1) 53 ltac:(lia) ltac:(lia)). lia. }
  rewrite Hm', scaled_shift by lia.
  replace (e + Z.pos (digits2_pos m) + 11 + (53 - Z.pos (digits2_pos m))) with (e + 64) by lia.
  unfold u64. apply Z.mod_small. apply scaled_below with 53; lia.
Qed.

Lemma Threshold_range x : 0 <= Threshold x <= max_uint64.
Proof.
  assert (H : forall z, 0 <= u64 z <= max_uint64) by (intros z; pose proof (u64_range z); unfold max_uint64; lia).
  unfold Threshold. case_match; [|apply H]. unfold max_uint64. lia.
Qed.

Lemma Threshold_one x : float_le (of_int 1) x = true -> Threshold x = max_uint64.
Proof. intros H. unfold Threshold. by rewrite H. Qed.

Lemma Threshold_zero s : Threshold (S754_zero s) = 0.
Proof. by destruct s; vm_compute. Qed.

Lemma Threshold_mono x y : is_fraction x -> is_fraction y -> float_le x y = true -> Threshold x <= Threshold y.
Proof.
  intros Hx Hy Hle.
  destruct (float_le (of_int 1) y) eqn:Ey; [rewrite (Threshold_one y Ey); apply Threshold_range|].
  destruct x as [s|[]| |[] m e]; try done; [rewrite Threshold_zero; apply Threshold_range| |].
  { destruct y as [|[]| |[]]; done. }
  destruct y as [t|[]| |[] n f]; try done.
  cbn [is_fraction] in Hx, Hy. pose proof (canonical_small _ _ Hy Ey).
  destruct Hx as [Hxe [Hxm Hxn]] eqn:EHx. clear EHx. destruct Hy as [Hye [Hym Hyn]] eqn:EHy. clear EHy.
  assert (Hcase : e < f \/ e = f /\ Z.pos m <= Z.pos n).
  { revert Hle. unfold float_le. cbn [SFcompare]. destruct (Z.compare_spec e f) as [->|?|?]; auto; [|done].
    fold (Pos.compare m n). destruct (Pos.compare_spec m n); try done; right; split; lia. }
  assert (Ex : float_le (of_int 1) (S754_finite false m e) = false).
  { change (of_int 1) with (S754_finite false 4503599627370496 (-52)). unfold float_le. cbn [SFcompare].
    destruct (Z.compare_spec (-52) e); [lia|lia|done]. }
  rewrite !Threshold_finite by done.
  destruct Hcase as [Hlt|[-> Hmn]]; [apply scaled_mono_e; lia|apply scaled_mono_m; lia].
Qed.

(** ** Nesting *)

Lemma Keep_spec hash id t : Keep hash id t = true <-> t = max_uint64 \/ hash (id mod 2 ^ 64) (id / 2 ^ 64) < t.
Proof.
  unfold Keep, keepHash. destruct (t =? max_uint64) eqn:E; [apply Z.eqb_eq in E; tauto|].
  cbn [orb]. apply Z.eqb_neq in E. rewrite Z.ltb_lt. tauto.
Qed.

Lemma Keep_mono hash id s t : s <= t <= max_uint64 -> Keep hash id s = true -> Keep hash id t = true.
Proof. rewrite !Keep_spec. intros Hst [->|H]; [left; lia|right; lia]. Qed.

(** ** What a bucket promises *)

Lemma accrued_late now b : now <= last b -> accruedLocked now b = tokens b.
Proof.
  intros H. unfold accruedLocked. destruct (is_zero (last b)); [done|].
  destruct (0 <? time_sub now (last b)) eqn:E; [|done]. apply Z.ltb_lt in E.
  unfold time_sub, max_int64, min_int64 in E. lia.
Qed.

Lemma refill_late now b : now <= last b -> refillLocked now b = b.
Proof.
  intros H. unfold refillLocked. rewrite (accrued_late now b H).
  destruct (last b <? now) eqn:E; [apply Z.ltb_lt in E; lia|]. by destruct b.
Qed.

Lemma refill_idem now b : refillLocked now (refillLocked now b) = refillLocked now b.
Proof. apply refill_late. unfold refillLocked. cbn [last]. destruct (last b <? now) eqn:E; [lia|]. apply Z.ltb_ge in E. lia. Qed.

Lemma AdmitDebt_eq n now b :
  AdmitDebt n now b = if Peek n now b then (debit n (refillLocked now b), true) else (refillLocked now b, false).
Proof. unfold AdmitDebt, Peek, admitsLocked. cbn [refillLocked tokens burst]. by destruct (float_le _ _). Qed.

(** Once the burst is back, any trace is admitted, however many spans it has. *)
Lemma refilled_admits n now b : is_nan n = false -> is_zero (last b) = false -> last b < now ->
  float_le (burst b) (float_add (tokens b) (float_mul (rate b) (Seconds (time_sub now (last b))))) = true ->
  Peek n now b = true.
Proof.
  intros Hn Hz Hlt Hle. destruct (not_nan_le _ _ Hle) as [Hb _]. unfold Peek, admitsLocked, accruedLocked. rewrite Hz.
  replace (0 <? time_sub now (last b)) with true.
  2:{ symmetry. apply Z.ltb_lt. unfold time_sub, max_int64, min_int64. lia. }
  eapply float_le_trans; [exact (proj2 (float_min_le n (burst b) Hn Hb))|]. exact (proj2 (float_min_left _ _ Hb Hle)).
Qed.
