(* ===== verification/Promparse.v ===== *)
(** * The Prometheus text parser ([pkg/promparse/parser.go])

    The parser as the code has it: one record of per-exposition tables, warm
    intern tables, positional caches and a classification memo, threaded
    through every function; a function that reports [false] stops where it is
    and keeps what it changed.  A byte slice and a string are their bytes, so
    copying and interning show only in the tables they charge.  The reader is
    [bufio.Reader] over a body: its bytes and how it ends. *)

From S2P Require Import Prelude Clip Number.
Local Open Scope Z_scope.

Definition str (s : string) : bytes := (fun a => Z.of_N (Ascii.N_of_ascii a)) <$> String.list_ascii_of_string s.
Definition len {A} (l : list A) : Z := Z.of_nat (length l).

(** ** Data *)

Inductive MetricType := TypeUntyped | TypeCounter | TypeGauge | TypeHistogram | TypeSummary.
Inductive SampleRole := RoleGauge | RoleCounter | RoleHistogramBucket | RoleHistogramSum | RoleHistogramCount
  | RoleSummaryQuantile | RoleSummarySum | RoleSummaryCount.

#[export] Instance type_eq_dec : EqDecision MetricType.
Proof. solve_decision. Defined.

Record Label := mkLabel { l_name : bytes; l_value : bytes }.
Record Exemplar := mkExemplar { x_labels : list Label; x_value : float64; x_ts : Z }.
Record Sample := mkSample {
  s_name : bytes; s_family : bytes; s_role : SampleRole; s_labels : list Label; s_value : float64; s_ts : Z;
  s_exemplar : option Exemplar; s_help : bytes; s_unit : bytes }.

Record familyMeta := mkMeta { help : bytes; unit_ : bytes }.
Record MalformedDetail := mkDetail { OverLongLines : Z; TruncatedLines : Z; DuplicateLabels : Z; TooManyLabels : Z }.
Record classified := mkClass { c_name : bytes; c_family : bytes; c_help : bytes; c_unit : bytes; c_role : SampleRole }.

#[export] Instance meta_eq_dec : EqDecision familyMeta.
Proof. solve_decision. Defined.

Definition MaxTrackedFamilies : Z := 100000.
Definition maxFamilyNameBytes : Z := 1024.
Definition maxTypeBytes : Z := 2 ^ 20.
Definition maxInternedNames : Z := MaxTrackedFamilies.
Definition maxInternedNameLen : Z := 256.
Definition maxInternedNameBytes : Z := 2 ^ 20.
Definition MaxInternedValues : Z := 8192.
Definition maxInternedValueLen : Z := 128.
Definition maxLongCacheBytes : Z := 64 * 2 ^ 10.
Definition MaxLabelsPerSample : Z := 4096.
Definition maxMetaBytes : Z := 2 ^ 20.
Definition MaxExemplarLabelSetRunes : Z := 128.
Definition DefaultMaxLineBytes : Z := 2 ^ 20.
Definition parseBufSize : nat := Z.to_nat (64 * 1024).

Record Parser := mkParser {
  maxLineBytes : Z;
  openMetrics : bool;
  exemplars : bool;
  types : gmap bytes MetricType;
  typeBytes : Z;
  names : gmap bytes bytes;
  nameBytes : Z;
  values : gmap bytes bytes;
  metas : gmap bytes familyMeta;
  metaBytes : Z;
  lastClass : classified;
  lastClassOK : bool;
  lastMetric : bytes;
  lastKV : list (bytes * bytes);
  exLastKV : list (bytes * bytes);
  longCacheBytes : Z;
  eof : bool;
  badExemplars : Z;
  detail : MalformedDetail }.

(** Field updates. *)
Definition set_maxLineBytes (v : Z) (x : Parser) : Parser := mkParser v (openMetrics x) (exemplars
  x) (types x) (typeBytes x) (names x) (nameBytes x) (values x) (metas x) (metaBytes x) (lastClass
  x) (lastClassOK x) (lastMetric x) (lastKV x) (exLastKV x) (longCacheBytes x) (eof x) (badExemplars
  x) (detail x).
Definition set_openMetrics (v : bool) (x : Parser) : Parser := mkParser (maxLineBytes x) v
  (exemplars x) (types x) (typeBytes x) (names x) (nameBytes x) (values x) (metas x) (metaBytes x)
  (lastClass x) (lastClassOK x) (lastMetric x) (lastKV x) (exLastKV x) (longCacheBytes x) (eof x)
  (badExemplars x) (detail x).
Definition set_exemplars (v : bool) (x : Parser) : Parser := mkParser (maxLineBytes x) (openMetrics
  x) v (types x) (typeBytes x) (names x) (nameBytes x) (values x) (metas x) (metaBytes x) (lastClass
  x) (lastClassOK x) (lastMetric x) (lastKV x) (exLastKV x) (longCacheBytes x) (eof x) (badExemplars
  x) (detail x).
Definition set_types (v : gmap bytes MetricType) (x : Parser) : Parser := mkParser (maxLineBytes x)
  (openMetrics x) (exemplars x) v (typeBytes x) (names x) (nameBytes x) (values x) (metas x)
  (metaBytes x) (lastClass x) (lastClassOK x) (lastMetric x) (lastKV x) (exLastKV x) (longCacheBytes
  x) (eof x) (badExemplars x) (detail x).
Definition set_typeBytes (v : Z) (x : Parser) : Parser := mkParser (maxLineBytes x) (openMetrics x)
  (exemplars x) (types x) v (names x) (nameBytes x) (values x) (metas x) (metaBytes x) (lastClass x)
  (lastClassOK x) (lastMetric x) (lastKV x) (exLastKV x) (longCacheBytes x) (eof x) (badExemplars x)
  (detail x).
Definition set_names (v : gmap bytes bytes) (x : Parser) : Parser := mkParser (maxLineBytes x)
  (openMetrics x) (exemplars x) (types x) (typeBytes x) v (nameBytes x) (values x) (metas x)
  (metaBytes x) (lastClass x) (lastClassOK x) (lastMetric x) (lastKV x) (exLastKV x) (longCacheBytes
  x) (eof x) (badExemplars x) (detail x).
Definition set_nameBytes (v : Z) (x : Parser) : Parser := mkParser (maxLineBytes x) (openMetrics x)
  (exemplars x) (types x) (typeBytes x) (names x) v (values x) (metas x) (metaBytes x) (lastClass x)
  (lastClassOK x) (lastMetric x) (lastKV x) (exLastKV x) (longCacheBytes x) (eof x) (badExemplars x)
  (detail x).
Definition set_values (v : gmap bytes bytes) (x : Parser) : Parser := mkParser (maxLineBytes x)
  (openMetrics x) (exemplars x) (types x) (typeBytes x) (names x) (nameBytes x) v (metas x)
  (metaBytes x) (lastClass x) (lastClassOK x) (lastMetric x) (lastKV x) (exLastKV x) (longCacheBytes
  x) (eof x) (badExemplars x) (detail x).
Definition set_metas (v : gmap bytes familyMeta) (x : Parser) : Parser := mkParser (maxLineBytes x)
  (openMetrics x) (exemplars x) (types x) (typeBytes x) (names x) (nameBytes x) (values x) v
  (metaBytes x) (lastClass x) (lastClassOK x) (lastMetric x) (lastKV x) (exLastKV x) (longCacheBytes
  x) (eof x) (badExemplars x) (detail x).
Definition set_metaBytes (v : Z) (x : Parser) : Parser := mkParser (maxLineBytes x) (openMetrics x)
  (exemplars x) (types x) (typeBytes x) (names x) (nameBytes x) (values x) (metas x) v (lastClass x)
  (lastClassOK x) (lastMetric x) (lastKV x) (exLastKV x) (longCacheBytes x) (eof x) (badExemplars x)
  (detail x).
Definition set_lastClass (v : classified) (x : Parser) : Parser := mkParser (maxLineBytes x)
  (openMetrics x) (exemplars x) (types x) (typeBytes x) (names x) (nameBytes x) (values x) (metas x)
  (metaBytes x) v (lastClassOK x) (lastMetric x) (lastKV x) (exLastKV x) (longCacheBytes x) (eof x)
  (badExemplars x) (detail x).
Definition set_lastClassOK (v : bool) (x : Parser) : Parser := mkParser (maxLineBytes x)
  (openMetrics x) (exemplars x) (types x) (typeBytes x) (names x) (nameBytes x) (values x) (metas x)
  (metaBytes x) (lastClass x) v (lastMetric x) (lastKV x) (exLastKV x) (longCacheBytes x) (eof x)
  (badExemplars x) (detail x).
Definition set_lastMetric (v : bytes) (x : Parser) : Parser := mkParser (maxLineBytes x)
  (openMetrics x) (exemplars x) (types x) (typeBytes x) (names x) (nameBytes x) (values x) (metas x)
  (metaBytes x) (lastClass x) (lastClassOK x) v (lastKV x) (exLastKV x) (longCacheBytes x) (eof x)
  (badExemplars x) (detail x).
Definition set_lastKV (v : list (bytes * bytes)) (x : Parser) : Parser := mkParser (maxLineBytes x)
  (openMetrics x) (exemplars x) (types x) (typeBytes x) (names x) (nameBytes x) (values x) (metas x)
  (metaBytes x) (lastClass x) (lastClassOK x) (lastMetric x) v (exLastKV x) (longCacheBytes x) (eof
  x) (badExemplars x) (detail x).
Definition set_exLastKV (v : list (bytes * bytes)) (x : Parser) : Parser := mkParser (maxLineBytes
  x) (openMetrics x) (exemplars x) (types x) (typeBytes x) (names x) (nameBytes x) (values x) (metas
  x) (metaBytes x) (lastClass x) (lastClassOK x) (lastMetric x) (lastKV x) v (longCacheBytes x) (eof
  x) (badExemplars x) (detail x).
Definition set_longCacheBytes (v : Z) (x : Parser) : Parser := mkParser (maxLineBytes x)
  (openMetrics x) (exemplars x) (types x) (typeBytes x) (names x) (nameBytes x) (values x) (metas x)
  (metaBytes x) (lastClass x) (lastClassOK x) (lastMetric x) (lastKV x) (exLastKV x) v (eof x)
  (badExemplars x) (detail x).
Definition set_eof (v : bool) (x : Parser) : Parser := mkParser (maxLineBytes x) (openMetrics x)
  (exemplars x) (types x) (typeBytes x) (names x) (nameBytes x) (values x) (metas x) (metaBytes x)
  (lastClass x) (lastClassOK x) (lastMetric x) (lastKV x) (exLastKV x) (longCacheBytes x) v
  (badExemplars x) (detail x).
Definition set_badExemplars (v : Z) (x : Parser) : Parser := mkParser (maxLineBytes x) (openMetrics
  x) (exemplars x) (types x) (typeBytes x) (names x) (nameBytes x) (values x) (metas x) (metaBytes
  x) (lastClass x) (lastClassOK x) (lastMetric x) (lastKV x) (exLastKV x) (longCacheBytes x) (eof x)
  v (detail x).
Definition set_detail (v : MalformedDetail) (x : Parser) : Parser := mkParser (maxLineBytes x)
  (openMetrics x) (exemplars x) (types x) (typeBytes x) (names x) (nameBytes x) (values x) (metas x)
  (metaBytes x) (lastClass x) (lastClassOK x) (lastMetric x) (lastKV x) (exLastKV x) (longCacheBytes
  x) (eof x) (badExemplars x) v.

Definition noClass : classified := mkClass [] [] [] [] RoleGauge.
Definition noDetail : MalformedDetail := mkDetail 0 0 0 0.
Definition d_overLong (d : MalformedDetail) : MalformedDetail := mkDetail (OverLongLines d + 1) (TruncatedLines d) (DuplicateLabels d) (TooManyLabels d).
Definition d_truncated (d : MalformedDetail) : MalformedDetail := mkDetail (OverLongLines d) (TruncatedLines d + 1) (DuplicateLabels d) (TooManyLabels d).
Definition d_duplicate (d : MalformedDetail) : MalformedDetail := mkDetail (OverLongLines d) (TruncatedLines d) (DuplicateLabels d + 1) (TooManyLabels d).
Definition d_tooMany (d : MalformedDetail) : MalformedDetail := mkDetail (OverLongLines d) (TruncatedLines d) (DuplicateLabels d) (TooManyLabels d + 1).

Record Options := mkOptions { MaxLineBytes : Z; OpenMetrics : bool; Exemplars : bool }.

Definition normLineBytes (n : Z) : Z := if n <=? 0 then DefaultMaxLineBytes else n.

Definition New (o : Options) : Parser :=
  mkParser (normLineBytes (MaxLineBytes o)) (OpenMetrics o) (OpenMetrics o && Exemplars o) ∅ 0 ∅ 0 ∅ ∅ 0 noClass false [] [] [] 0
    false 0 noDetail.

(** ** The pool *)

Definition resetTypes (p : Parser) : Parser := set_typeBytes 0 (set_types ∅ p).
Definition resetMeta (p : Parser) : Parser := set_lastClassOK false (set_lastClass noClass (set_metaBytes 0 (set_metas ∅ p))).
Definition releaseLineRefs (p : Parser) : Parser :=
  set_longCacheBytes 0 (set_exLastKV [] (set_lastKV [] (set_lastClassOK false (set_lastClass noClass (set_lastMetric [] p))))).

Definition reset (o : Options) (p : Parser) : Parser :=
  let p := set_exemplars (OpenMetrics o && Exemplars o) (set_openMetrics (OpenMetrics o) (set_maxLineBytes (normLineBytes (MaxLineBytes o)) p)) in
  let p := releaseLineRefs p in
  let p := if (maxInternedNames / 2 <=? Z.of_nat (size (names p))) || (maxInternedNameBytes / 2 <=? nameBytes p)
           then set_nameBytes 0 (set_names ∅ p) else p in
  if MaxInternedValues / 2 <=? Z.of_nat (size (values p)) then set_values ∅ p else p.

Definition release (p : Parser) : Parser := resetMeta (resetTypes (releaseLineRefs p)).

(** ** State and failure *)

Definition St (A : Type) : Type := Parser -> Parser * option A.
Definition ret {A} (a : A) : St A := fun p => (p, Some a).
Definition reject {A} : St A := fun p => (p, None).
Definition bind {A B} (m : St A) (k : A -> St B) : St B :=
  fun p => match m p with (p, Some a) => k a p | (p, None) => (p, None) end.
Definition modify (f : Parser -> Parser) : St () := fun p => (f p, Some ()).
(** A pure reading of the input. *)
Definition lift {A} (o : option A) : St A := fun p => (p, o).

Declare Scope parse_scope.
Delimit Scope parse_scope with parse.
Notation "x <~ m ; k" := (bind m (fun x => k)) (at level 20, m at level 100, k at level 200) : parse_scope.
Notation "' x <~ m ; k" := (bind m (fun x => k)) (at level 20, x pattern, m at level 100, k at level 200) : parse_scope.
Notation "m ;;; k" := (bind m (fun _ => k)) (at level 100, k at level 200, right associativity) : parse_scope.
Local Open Scope parse_scope.

(** ** Bytes *)

Definition blank (c : Z) : bool := (c =? 32) || (c =? 9).

Fixpoint skipSpaceTab (b : bytes) : bytes :=
  match b with c :: t => if blank c then skipSpaceTab t else b | [] => [] end.

Definition trimSeparator (b : bytes) : bytes :=
  match b with c :: t => if blank c then t else b | [] => [] end.

Definition nextField (b : bytes) : bytes * bytes := span (fun c => negb (blank c)) (skipSpaceTab b).

Definition isEOL (c : Z) : bool := (c =? 10) || (c =? 13).

Fixpoint trimEOL (b : bytes) : bytes :=
  match b with
  | c :: t => match trimEOL t with [] => if isEOL c then [] else [c] | t => c :: t end
  | [] => []
  end.

(** What is before the first [c] and what is after it. *)
Definition cut (c : Z) (b : bytes) : option (bytes * bytes) :=
  match span (fun x => negb (x =? c)) b with
  | (a, _ :: t) => Some (a, t)
  | (_, []) => None
  end.

Definition CutSuffix (s suffix : bytes) : option bytes :=
  let n := (length s - length suffix)%nat in
  if decide (drop n s = suffix) then Some (take n s) else None.

Definition writeUnescaped (c : Z) : bytes :=
  if c =? 110 then [10] else if (c =? 92) || (c =? 34) then [c] else [92; c].

Fixpoint unescapeHelp (b : bytes) : bytes :=
  match b with
  | c :: t => if c =? 92 then match t with d :: t => writeUnescaped d ++ unescapeHelp t | [] => [c] end else c :: unescapeHelp t
  | [] => []
  end.

Fixpoint quoted_slow (acc rest : bytes) : option (bytes * bytes) :=
  match rest with
  | [] => None
  | c :: t =>
      if c =? 34 then Some (acc, t)
      else if c =? 92 then match t with d :: t => quoted_slow (acc ++ writeUnescaped d) t | [] => None end
      else quoted_slow (acc ++ [c]) t
  end.
Definition parseQuotedSlow (rest : bytes) : option (bytes * bytes) := quoted_slow [] rest.

(** [utf8.RuneCountInString]: a byte that starts no rune counts as one. *)
Definition is_cont (lo hi c : Z) : bool := (lo <=? c) && (c <=? hi).
Definition rune_size (s : bytes) : nat :=
  match s with
  | a :: b :: t =>
      if (0xC2 <=? a) && (a <=? 0xDF) then if is_cont 0x80 0xBF b then 2%nat else 1%nat
      else if (0xE0 <=? a) && (a <=? 0xEF) then
        match t with
        | c :: _ => if is_cont (if a =? 0xE0 then 0xA0 else 0x80) (if a =? 0xED then 0x9F else 0xBF) b && is_cont 0x80 0xBF c then 3%nat else 1%nat
        | [] => 1%nat
        end
      else if (0xF0 <=? a) && (a <=? 0xF4) then
        match t with
        | c :: d :: _ =>
            if is_cont (if a =? 0xF0 then 0x90 else 0x80) (if a =? 0xF4 then 0x8F else 0xBF) b && is_cont 0x80 0xBF c && is_cont 0x80 0xBF d
            then 4%nat else 1%nat
        | _ => 1%nat
        end
      else 1%nat
  | _ => 1%nat
  end.
Fixpoint rune_count (inside : nat) (s : bytes) : Z :=
  match s with
  | [] => 0
  | _ :: t => match inside with S k => rune_count k t | 0%nat => 1 + rune_count (rune_size s - 1) t end
  end.
Definition RuneCountInString (s : bytes) : Z := rune_count 0 s.

Fixpoint labels_fit (runes : Z) (l : list Label) : bool :=
  match l with
  | [] => true
  | x :: l =>
      let runes := runes + RuneCountInString (l_name x) + RuneCountInString (l_value x) in
      if MaxExemplarLabelSetRunes <? runes then false else labels_fit runes l
  end.
Definition exemplarLabelsFit (l : list Label) : bool := labels_fit 0 l.

(** ** Interning *)

Definition internName (b : bytes) : St bytes := fun p =>
  if maxInternedNameLen <? len b then (p, Some b)
  else match names p !! b with
       | Some s => (p, Some s)
       | None =>
           if (Z.of_nat (size (names p)) <? maxInternedNames) && (nameBytes p + len b <=? maxInternedNameBytes)
           then (set_nameBytes (nameBytes p + len b) (set_names (<[b := b]> (names p)) p), Some b)
           else (p, Some b)
       end.

Definition internValue (b : bytes) : St bytes := fun p =>
  if maxInternedValueLen <? len b then (p, Some b)
  else match values p !! b with
       | Some s => (p, Some s)
       | None => if Z.of_nat (size (values p)) <? MaxInternedValues then (set_values (<[b := b]> (values p)) p, Some b) else (p, Some b)
       end.

(** The positional caches: one for sample labels, one for exemplar labels. *)
Inductive block := SampleBlock | ExemplarBlock.
Definition cache_of (b : block) (p : Parser) : list (bytes * bytes) := match b with SampleBlock => lastKV p | ExemplarBlock => exLastKV p end.
Definition set_cache (b : block) (c : list (bytes * bytes)) (p : Parser) : Parser :=
  match b with SampleBlock => set_lastKV c p | ExemplarBlock => set_exLastKV c p end.

Inductive field := NameField | ValueField.
Definition field_of (f : field) (kv : bytes * bytes) : bytes := match f with NameField => kv.1 | ValueField => kv.2 end.
Definition put_field (f : field) (s : bytes) (kv : bytes * bytes) : bytes * bytes := match f with NameField => (s, kv.2) | ValueField => (kv.1, s) end.
Definition slot (b : block) (pos : nat) (f : field) (p : Parser) : bytes := field_of f (default ([], []) (cache_of b p !! pos)).

Definition cacheString (b : block) (pos : nat) (f : field) (s : bytes) (internable : Z) (p : Parser) : Parser :=
  let old := slot b pos f p in
  let p := if internable <? len old then set_longCacheBytes (longCacheBytes p - len old) p else p in
  let put s p := set_cache b (alter (put_field f s) pos (cache_of b p)) p in
  if internable <? len s then
    if maxLongCacheBytes <? longCacheBytes p + len s then put [] p
    else put s (set_longCacheBytes (longCacheBytes p + len s) p)
  else put s p.

(** ** Tables *)

Definition metricTypeOf (typ : bytes) : MetricType :=
  if decide (typ = str "counter") then TypeCounter
  else if decide (typ = str "gauge") then TypeGauge
  else if decide (typ = str "histogram") then TypeHistogram
  else if decide (typ = str "summary") then TypeSummary
  else TypeUntyped.

(** The family name and the rest; a bare name and a quoted one are the same bytes. *)
Definition familyToken (rest : bytes) : option (bytes * bytes) :=
  let rest := skipSpaceTab rest in
  match rest with
  | 34 :: t =>
      '(fam, rem) ← parseQuotedSlow t;
      if bool_decide (fam = []) || (maxFamilyNameBytes <? len fam) then None else Some (fam, rem)
  | _ =>
      let '(tok, rem) := nextField rest in
      if bool_decide (tok = []) || (maxFamilyNameBytes <? len tok) then None else Some (tok, rem)
  end.

Definition setMeta (family hlp unt : bytes) (p : Parser) : Parser :=
  if bool_decide (hlp = []) && bool_decide (unt = []) then p
  else
    let seen := metas p !! family in
    let m := default (mkMeta [] []) seen in
    let hlp := if bool_decide (hlp = []) then help m else hlp in
    let unt := if bool_decide (unt = []) then unit_ m else unt in
    let store add :=
      if (0 <? add) && (maxMetaBytes <? metaBytes p + add) then p
      else set_lastClassOK false (set_metas (<[family := mkMeta hlp unt]> (metas p)) (set_metaBytes (metaBytes p + add) p)) in
    let growth := len hlp + len unt - len (help m) - len (unit_ m) in
    match seen with
    | Some _ => if bool_decide (hlp = help m) && bool_decide (unt = unit_ m) then p else store growth
    | None => if MaxTrackedFamilies <=? Z.of_nat (size (metas p)) then p else store (growth + len family)
    end.

Definition declareType (family : bytes) (t : MetricType) (p : Parser) : Parser :=
  let declare p := set_lastClassOK false (set_types (<[family := t]> (types p)) p) in
  match types p !! family with
  | Some old => if decide (old = t) then p else declare p
  | None =>
      if (MaxTrackedFamilies <=? Z.of_nat (size (types p))) || (maxTypeBytes <? typeBytes p + len family) then p
      else declare (set_typeBytes (typeBytes p + len family) p)
  end.

(** An unchanged HELP is recognised before its text is decoded. *)
Definition same_help (bare : bool) (family text : bytes) (p : Parser) : bool :=
  bare && negb (bool_decide (92 ∈ text)) &&
  match metas p !! family with Some m => bool_decide (help m = text) | None => false end.

Definition is_bare (rest : bytes) : bool := match skipSpaceTab rest with 34 :: _ => false | _ => true end.

(** One comment line; [false] for a malformed TYPE. *)
Definition parseComment (line : bytes) (p : Parser) : Parser * bool :=
  let rest := (nextField line).2 in
  let '(directive, rest) := nextField rest in
  if openMetrics p && bool_decide (directive = str "EOF") then
    (if bool_decide (skipSpaceTab rest = []) then set_eof true p else p, true)
  else if bool_decide (directive = str "HELP") then
    match familyToken rest with
    | None => (p, true)
    | Some (family, rem) =>
        let text := trimSeparator rem in
        if bool_decide (text = []) || same_help (is_bare rest) family text p then (p, true)
        else (setMeta family (unescapeHelp text) [] p, true)
    end
  else if bool_decide (directive = str "UNIT") then
    match familyToken rest with
    | None => (p, true)
    | Some (family, rem) =>
        let '(unt, rem) := nextField rem in
        if negb (bool_decide (unt = [])) && bool_decide (skipSpaceTab rem = []) then (setMeta family [] unt p, true) else (p, true)
    end
  else if bool_decide (directive = str "TYPE") then
    match familyToken rest with
    | None => (p, false)
    | Some (family, rem) =>
        let '(typ, rem) := nextField rem in
        if bool_decide (typ = []) || negb (bool_decide (skipSpaceTab rem = [])) then (p, false)
        else (declareType family (metricTypeOf typ) p, true)
    end
  else (p, true).

(** ** Classification *)

Definition typed (t : MetricType) (base : bytes) (ts : gmap bytes MetricType) : bool := bool_decide (default TypeUntyped (ts !! base) = t).

Definition by_suffix (suffix : bytes) (cases : list (MetricType * SampleRole)) (name : bytes) (ts : gmap bytes MetricType) : option (SampleRole * bytes) :=
  match CutSuffix name suffix with
  | Some base => (fun c => (c.2, base)) <$> head (filter (fun c => typed c.1 base ts = true) cases)
  | None => None
  end.

Definition classify (ts : gmap bytes MetricType) (name : bytes) : SampleRole * bytes :=
  match ts !! name with
  | Some TypeCounter => (RoleCounter, name)
  | Some TypeSummary => (RoleSummaryQuantile, name)
  | Some TypeHistogram => (RoleHistogramBucket, name)
  | Some _ => (RoleGauge, name)
  | None =>
      match by_suffix (str "_bucket") [(TypeHistogram, RoleHistogramBucket)] name ts with Some r => r | None =>
      match by_suffix (str "_sum") [(TypeHistogram, RoleHistogramSum); (TypeSummary, RoleSummarySum)] name ts with Some r => r | None =>
      match by_suffix (str "_count") [(TypeHistogram, RoleHistogramCount); (TypeSummary, RoleSummaryCount)] name ts with Some r => r | None =>
      match by_suffix (str "_total") [(TypeCounter, RoleCounter)] name ts with Some r => r | None => (RoleGauge, name)
      end end end end
  end.

Definition classOf (p : Parser) (name : bytes) : classified :=
  let '(role, family) := classify (types p) name in
  let m := default (mkMeta [] []) (metas p !! family) in
  mkClass name family (help m) (unit_ m) role.

Definition classifyCached (name : bytes) (p : Parser) : Parser * classified :=
  if negb (lastClassOK p) || negb (bool_decide (name = c_name (lastClass p)))
  then let c := classOf p name in (set_lastClassOK true (set_lastClass c p), c)
  else (p, lastClass p).

(** ** Labels *)

(** A quoted value or name after its opening quote.  [last] is the positional
    cache entry that may remember it. *)
Definition parseQuoted (last : option (block * nat)) (intern : bool) (rest : bytes) : St (bytes * bytes) := fun p =>
  match cut 34 rest with
  | None => (p, None)
  | Some (v, rem) =>
      if bool_decide (92 ∈ v) then (p, parseQuotedSlow rest)
      else
        match last with
        | Some (b, pos) =>
            if bool_decide (v = slot b pos ValueField p) then (p, Some (v, rem))
            else (w <~ (if intern then internValue v else ret v) ;
                  modify (cacheString b pos ValueField w maxInternedValueLen) ;;; ret (w, rem)) p
        | None => (w <~ (if intern then internValue v else ret v) ; ret (w, rem)) p
        end
  end.

(** The first character that ends a bare label name. *)
Definition name_char (c : Z) : bool := negb ((c =? 61) || blank c).

(** The label name at [rest] and what follows it: quoted, remembered from the
    previous line, or scanned. *)
Definition label_name (b : block) (pos : nat) (rest : bytes) : St (bytes * bytes) := fun p =>
  match rest with
  | 34 :: t =>
      ('(v, rem) <~ parseQuoted None true t ; if bool_decide (v = []) then reject else ret (v, skipSpaceTab rem)) p
  | _ =>
      let lastName := slot b pos NameField p in
      let n := length lastName in
      if bool_decide (lastName <> []) && bool_decide (rest !! n = Some 61) && bool_decide (take n rest = lastName)
      then (p, Some (lastName, skipSpaceTab (drop n rest)))
      else
        let '(tok, rem) := span name_char rest in
        if bool_decide (tok = []) then (p, None)
        else if bool_decide (tok = lastName) then (p, Some (tok, skipSpaceTab rem))
        else (v <~ internName tok ; modify (cacheString b pos NameField v maxInternedNameLen) ;;; ret (v, skipSpaceTab rem)) p
  end.

Definition after_equals (rest : bytes) : option bytes :=
  match rest with
  | 61 :: t => match skipSpaceTab t with 34 :: t => Some t | _ => None end
  | _ => None
  end.

Definition grow (b : block) (pos : nat) (p : Parser) : Parser :=
  if decide (pos = length (cache_of b p)) then set_cache b (cache_of b p ++ [([], [])]) p else p.

(** The exemplar block attributes nothing. *)
Definition attribute (b : block) (f : MalformedDetail -> MalformedDetail) (p : Parser) : Parser :=
  match b with SampleBlock => set_detail (f (detail p)) p | ExemplarBlock => p end.

Definition admit_label (b : block) (dst : list Label) (name value : bytes) : St (list Label) := fun p =>
  if MaxLabelsPerSample <=? len dst then (attribute b d_tooMany p, None)
  else if bool_decide (name ∈ l_name <$> dst) then (attribute b d_duplicate p, None)
  else (p, Some (dst ++ [mkLabel name value])).

Definition skipComma (rest : bytes) : bytes := match rest with 44 :: t => t | _ => rest end.

(** One pair of the block. *)
Definition parse_pair (b : block) (dst : list Label) (rest : bytes) : St (list Label * bytes) :=
  let pos := length dst in
  modify (grow b pos) ;;;
  '(name, rest) <~ label_name b pos rest ;
  rest <~ lift (after_equals rest) ;
  '(value, rem) <~ parseQuoted (Some (b, pos)) (match b with SampleBlock => true | ExemplarBlock => false end) rest ;
  dst <~ admit_label b dst name value ;
  ret (dst, skipComma (skipSpaceTab rem)).

(** The loop; every pair takes at least one byte, so the length is fuel enough. *)
Fixpoint labels_loop (fuel : nat) (b : block) (dst : list Label) (rest : bytes) : St (list Label * bytes) :=
  match fuel with
  | 0%nat => reject
  | S fuel =>
      match skipSpaceTab rest with
      | [] => reject
      | 125 :: t => ret (dst, t)
      | rest => '(dst, rest) <~ parse_pair b dst rest ; labels_loop fuel b dst rest
      end
  end.
Definition parseLabels (b : block) (rest : bytes) : St (list Label * bytes) := labels_loop (S (length rest)) b [] rest.

(** ** One sample *)

Definition goOnlyFloatSyntax (tok : bytes) : bool := existsb (fun c => (c =? 95) || (c =? 120) || (c =? 88)) tok.

Definition parseFloatToken (rest : bytes) : option (float64 * bytes) :=
  let '(tok, rest) := nextField rest in
  if bool_decide (tok = []) || goOnlyFloatSyntax tok then None else v ← ParseFloat tok; Some (v, rest).

Definition parseTimestampToken (om : bool) (rest : bytes) : option (Z * bytes) :=
  let '(raw, rest) := nextField rest in
  if bool_decide (raw = []) || goOnlyFloatSyntax raw then None
  else if om then f ← ParseFloat raw; ts ← seconds_to_ms f; Some (ts, rest)
  else ts ← ParseInt raw; Some (ts, rest).

Definition parseExemplar (rest : bytes) : St Exemplar := fun p =>
  match skipSpaceTab rest with
  | 123 :: t =>
      ('(ls, rest) <~ parseLabels ExemplarBlock t ;
       lift (if exemplarLabelsFit ls then
         '(v, rest) ← parseFloatToken rest;
         match skipSpaceTab rest with
         | [] => Some (mkExemplar ls v 0)
         | rest => '(ts, rest) ← parseTimestampToken (openMetrics p) rest;
                   match skipSpaceTab rest with [] => Some (mkExemplar ls v ts) | _ => None end
         end else None)) p
  | _ => (p, None)
  end.

(** A sample before its line's classification. *)
Definition bare_sample (name : bytes) (ls : list Label) (v : float64) (ts : Z) (x : option Exemplar) : Sample :=
  mkSample name [] RoleGauge ls v ts x [] [].

(** The value and the optional timestamp. *)
Definition value_and_time (om : bool) (rest : bytes) : option (float64 * Z * bytes) :=
  '(v, rest) ← parseFloatToken rest;
  match skipSpaceTab rest with
  | [] => Some (v, 0, [])
  | 35 :: _ => Some (v, 0, skipSpaceTab rest)
  | rest => '(ts, rest) ← parseTimestampToken om rest; Some (v, ts, skipSpaceTab rest)
  end.

Definition finishSample (name : bytes) (ls : list Label) (rest : bytes) : St Sample := fun p =>
  match value_and_time (openMetrics p) rest with
  | None => (p, None)
  | Some (v, ts, []) => (p, Some (bare_sample name ls v ts None))
  | Some (v, ts, 35 :: t) =>
      if negb (openMetrics p) then (p, None)
      else if exemplars p then
        match parseExemplar t p with
        | (p, Some x) => (p, Some (bare_sample name ls v ts (Some x)))
        | (p, None) => (set_badExemplars (badExemplars p + 1) p, Some (bare_sample name ls v ts None))
        end
      else (p, Some (bare_sample name ls v ts None))
  | Some _ => (p, None)
  end.

Definition metric_char (c : Z) : bool := negb ((c =? 123) || blank c).

Definition parseQuotedNameSample (line : bytes) : St Sample :=
  match line with
  | 123 :: t =>
      match skipSpaceTab t with
      | 34 :: t =>
          '(name, rem) <~ parseQuoted None true t ;
          if bool_decide (name = []) then reject
          else
            match skipSpaceTab rem with
            | 61 :: _ => reject
            | rem =>
                '(ls, rem) <~ parseLabels SampleBlock (skipComma rem) ;
                finishSample name ls rem
            end
      | _ => reject
      end
  | _ => reject
  end.

(** What follows a bare name: in the classic format blanks may come before the
    label block. *)
Definition after_name (name rest : bytes) : St Sample := fun p =>
  let rest := if negb (openMetrics p) && negb (bool_decide (head rest = Some 123)) then skipSpaceTab rest else rest in
  match rest with
  | 123 :: t => ('(ls, rest) <~ parseLabels SampleBlock t ; finishSample name ls rest) p
  | _ => finishSample name [] rest p
  end.

(** The metric name is remembered from the previous line, or scanned. *)
Definition parseSample (line : bytes) : St Sample := fun p =>
  let n := length (lastMetric p) in
  if bool_decide (lastMetric p <> []) && (match line !! n with Some c => negb (metric_char c) | None => false end)
     && bool_decide (take n line = lastMetric p)
  then after_name (lastMetric p) (drop n line) p
  else
    let '(tok, rest) := span metric_char line in
    if bool_decide (tok = []) then parseQuotedNameSample line p
    else if bool_decide (tok = lastMetric p) then after_name tok rest p
    else (name <~ internName tok ; modify (set_lastMetric name) ;;; after_name name rest) p.

Definition stamp (c : classified) (s : Sample) : Sample :=
  mkSample (s_name s) (c_family c) (c_role c) (s_labels s) (s_value s) (s_ts s) (s_exemplar s) (c_help c) (c_unit c).

(** ** Lines *)

Inductive verdict := Silent | Malformed | Emit (s : Sample).

(** [parseLine] up to the callback. *)
Definition parseLine (line : bytes) (p : Parser) : Parser * verdict :=
  match skipSpaceTab line with
  | [] => (p, Silent)
  | 35 :: _ => let '(p, ok) := parseComment (skipSpaceTab line) p in (p, if ok then Silent else Malformed)
  | line =>
      match parseSample line p with
      | (p, None) => (p, Malformed)
      | (p, Some s) => let '(p, c) := classifyCached (s_name s) p in (p, Emit (stamp c s))
      end
  end.

(** How a body ends, and what [ReadSlice] reports. *)
Inductive ending := Eof | ReadErr (e : Z).
Inductive read_err := NoErr | BufferFull | Ended (e : ending).

Definition ReadSlice (buf : nat) (e : ending) (rest : bytes) : bytes * read_err * bytes :=
  match cut 10 (take buf rest) with
  | Some (a, _) => (a ++ [10], NoErr, drop (S (length a)) rest)
  | None => if decide (buf <= length rest)%nat then (take buf rest, BufferFull, drop buf rest) else (rest, Ended e, [])
  end.

(** [readLine]: the line, whether it was too long, how the read ended, the rest. *)
Fixpoint readLine_loop (fuel buf : nat) (max : Z) (e : ending) (scratch : bytes) (tooLong : bool) (rest : bytes)
    : option (bytes * bool * option ending * bytes) :=
  match fuel with
  | 0%nat => None
  | S fuel =>
      let '(chunk, rerr, rest) := ReadSlice buf e rest in
      let fresh := negb tooLong && bool_decide (scratch = []) in
      match rerr, fresh with
      | NoErr, true =>
          let line := trimEOL chunk in
          if len line <=? max then Some (line, false, None, rest) else Some ([], true, None, rest)
      | _, _ =>
          let n := match rerr with NoErr => len (trimEOL chunk) | _ => len chunk end in
          let fits := len scratch + n <=? max in
          let scratch := if fits then scratch ++ chunk else scratch in
          let tooLong := tooLong || negb fits in
          match rerr with
          | NoErr => Some (if tooLong then ([], true, None, rest) else (trimEOL scratch, false, None, rest))
          | BufferFull => readLine_loop fuel buf max e scratch tooLong rest
          | Ended e => Some (if tooLong then ([], true, Some e, rest) else (trimEOL scratch, false, Some e, rest))
          end
      end
  end.

Section Parse.
Context {W : Type} (emit : W -> Sample -> W * option Z).

Inductive outcome := Finished | BodyError (e : Z) | EmitError (e : Z).

(** [parseFrom] after its reset. *)
Fixpoint parse_loop (fuel buf : nat) (e : ending) (body : bytes) (malformed : Z) (w : W) (p : Parser)
    : option (Parser * W * Z * outcome) :=
  match fuel with
  | 0%nat => None
  | S fuel =>
      match readLine_loop (S (length body)) buf (maxLineBytes p) e [] false body with None => None | Some (line, tooLong, rerr, rest) =>
      let truncated := match rerr with Some (ReadErr _) => true | _ => false end in
      let next malformed w p :=
        match rerr with
        | None => parse_loop fuel buf e rest malformed w p
        | Some Eof => Some (p, w, malformed, Finished)
        | Some (ReadErr x) => Some (p, w, malformed, BodyError x)
        end in
      if tooLong then next (malformed + 1) w (set_detail (d_overLong (detail p)) p)
      else if truncated && negb (bool_decide (line = [])) then next (malformed + 1) w (set_detail (d_truncated (detail p)) p)
      else if bool_decide (line = []) then next malformed w p
      else
        let '(p, v) := parseLine line p in
        let after malformed w p := if eof p then Some (p, w, malformed, Finished) else next malformed w p in
        match v with
        | Silent => after malformed w p
        | Malformed => after (malformed + 1) w p
        | Emit s =>
            match emit w s with
            | (w, Some x) => Some (p, w, malformed, EmitError x)
            | (w, None) => after malformed w p
            end
        end
      end
  end.

Definition begin_parse (p : Parser) : Parser :=
  set_detail noDetail (set_badExemplars 0 (resetMeta (resetTypes (set_eof false p)))).

Definition parseFrom (e : ending) (body : bytes) (w : W) (p : Parser) : option (Parser * W * Z * outcome) :=
  parse_loop (S (length body)) parseBufSize e body 0 w (begin_parse p).
End Parse.
