(* ===== verification/PromSpec.v ===== *)
(** * A reference parser without memory, and the parser's equality with it

    The reference reads every line from the line alone and the declarations
    made before it: no intern table, no positional cache, no memo, no fast
    path.  The parser as written computes the same answers from any warm state
    its own runs can leave behind. *)

From S2P Require Import Prelude Clip Number Promparse.
Local Open Scope Z_scope.
Local Open Scope parse_scope.

(** ** The reference *)

Inductive refusal := RBad | RDuplicate | RTooMany.

Definition or_bad {A} (o : option A) : A + refusal := match o with Some a => inl a | None => inr RBad end.
Definition try_ {A B} (o : A + refusal) (k : A -> B + refusal) : B + refusal := match o with inl a => k a | inr r => inr r end.

Definition ref_name (rest : bytes) : (bytes * bytes) + refusal :=
  match rest with
  | 34 :: t => try_ (or_bad (parseQuotedSlow t)) (fun '(v, rem) => if bool_decide (v = []) then inr RBad else inl (v, skipSpaceTab rem))
  | _ => let '(tok, rem) := span name_char rest in if bool_decide (tok = []) then inr RBad else inl (tok, skipSpaceTab rem)
  end.

Definition ref_admit (dst : list Label) (name value : bytes) : list Label + refusal :=
  if MaxLabelsPerSample <=? len dst then inr RTooMany
  else if bool_decide (name ∈ l_name <$> dst) then inr RDuplicate
  else inl (dst ++ [mkLabel name value]).

Definition ref_pair (dst : list Label) (rest : bytes) : (list Label * bytes) + refusal :=
  try_ (ref_name rest) (fun '(name, rest) =>
  try_ (or_bad (after_equals rest)) (fun rest =>
  try_ (or_bad (parseQuotedSlow rest)) (fun '(value, rem) =>
  try_ (ref_admit dst name value) (fun dst => inl (dst, skipComma (skipSpaceTab rem)))))).

Fixpoint ref_labels_loop (fuel : nat) (dst : list Label) (rest : bytes) : (list Label * bytes) + refusal :=
  match fuel with
  | 0%nat => inr RBad
  | S fuel =>
      match skipSpaceTab rest with
      | [] => inr RBad
      | 125 :: t => inl (dst, t)
      | rest => try_ (ref_pair dst rest) (fun '(dst, rest) => ref_labels_loop fuel dst rest)
      end
  end.
Definition ref_labels (rest : bytes) : (list Label * bytes) + refusal := ref_labels_loop (S (length rest)) [] rest.

Definition ref_exemplar (om : bool) (rest : bytes) : option Exemplar :=
  match skipSpaceTab rest with
  | 123 :: t =>
      match ref_labels t with
      | inl (ls, rest) =>
         if exemplarLabelsFit ls then
         '(v, rest) ← parseFloatToken rest;
         match skipSpaceTab rest with
         | [] => Some (mkExemplar ls v 0)
         | rest => '(ts, rest) ← parseTimestampToken om rest;
                   match skipSpaceTab rest with [] => Some (mkExemplar ls v ts) | _ => None end
         end else None
      | inr _ => None
      end
  | _ => None
  end.

(** The sample, and whether its exemplar was unusable. *)
Definition ref_finish (om ex : bool) (name : bytes) (ls : list Label) (rest : bytes) : (Sample * bool) + refusal :=
  match value_and_time om rest with
  | None => inr RBad
  | Some (v, ts, []) => inl (bare_sample name ls v ts None, false)
  | Some (v, ts, 35 :: t) =>
      if negb om then inr RBad
      else if ex then
        match ref_exemplar om t with
        | Some x => inl (bare_sample name ls v ts (Some x), false)
        | None => inl (bare_sample name ls v ts None, true)
        end
      else inl (bare_sample name ls v ts None, false)
  | Some _ => inr RBad
  end.

Definition ref_quoted_sample (om ex : bool) (line : bytes) : (Sample * bool) + refusal :=
  match line with
  | 123 :: t =>
      match skipSpaceTab t with
      | 34 :: t =>
          try_ (or_bad (parseQuotedSlow t)) (fun '(name, rem) =>
          if bool_decide (name = []) then inr RBad
          else
            match skipSpaceTab rem with
            | 61 :: _ => inr RBad
            | rem => try_ (ref_labels (skipComma rem)) (fun '(ls, rem) => ref_finish om ex name ls rem)
            end)
      | _ => inr RBad
      end
  | _ => inr RBad
  end.

Definition ref_after_name (om ex : bool) (name rest : bytes) : (Sample * bool) + refusal :=
  let rest := if negb om && negb (bool_decide (head rest = Some 123)) then skipSpaceTab rest else rest in
  match rest with
  | 123 :: t => try_ (ref_labels t) (fun '(ls, rest) => ref_finish om ex name ls rest)
  | _ => ref_finish om ex name [] rest
  end.

Definition ref_sample (om ex : bool) (line : bytes) : (Sample * bool) + refusal :=
  let '(tok, rest) := span metric_char line in
  if bool_decide (tok = []) then ref_quoted_sample om ex line else ref_after_name om ex tok rest.

(** What a refused or an accepted line leaves in the counters. *)
Definition charge (b : block) (r : refusal) (p : Parser) : Parser :=
  match r with RBad => p | RDuplicate => attribute b d_duplicate p | RTooMany => attribute b d_tooMany p end.
Definition count_bad (bad : bool) (p : Parser) : Parser := if bad then set_badExemplars (badExemplars p + 1) p else p.

(** The parser without its memory of names, values and earlier lines. *)
Definition forget (p : Parser) : Parser :=
  mkParser (maxLineBytes p) (openMetrics p) (exemplars p) (types p) (typeBytes p) ∅ 0 ∅ (metas p) (metaBytes p) noClass false [] [] [] 0
    (eof p) (badExemplars p) (detail p).

Definition ref_line (line : bytes) (p : Parser) : Parser * verdict :=
  match skipSpaceTab line with
  | [] => (p, Silent)
  | 35 :: _ => let '(p, ok) := parseComment (skipSpaceTab line) p in (forget p, if ok then Silent else Malformed)
  | line =>
      match ref_sample (openMetrics p) (exemplars p) line with
      | inr r => (charge SampleBlock r p, Malformed)
      | inl (s, bad) => (count_bad bad p, Emit (stamp (classOf p (s_name s)) s))
      end
  end.

#[global] Arguments ref_labels : simpl never.
#[global] Arguments ref_exemplar : simpl never.
#[global] Arguments ref_finish : simpl never.
#[global] Arguments parseLabels : simpl never.
#[global] Arguments parseExemplar : simpl never.

(** ** What the caches may hold *)

Definition all_chars (q : Z -> bool) (s : bytes) : Prop := Forall (fun c => q c = true) s.

Record cache_ok (p : Parser) : Prop := {
  ok_metric : all_chars metric_char (lastMetric p);
  ok_kv : forall b kv, kv ∈ cache_of b p -> all_chars name_char kv.1;
  ok_names : forall b s, names p !! b = Some s -> s = b;
  ok_values : forall b s, values p !! b = Some s -> s = b;
  ok_memo : lastClassOK p = true -> lastClass p = classOf p (c_name (lastClass p)) }.

(** [m] answers [o], whatever the caches hold, and charges only what [o] says. *)
Definition does {A} (b : block) (m : St A) (o : A + refusal) : Prop := forall p, cache_ok p ->
  cache_ok (m p).1 /\ forget (m p).1 = (match o with inl _ => forget p | inr r => charge b r (forget p) end) /\
  (m p).2 = (match o with inl a => Some a | inr _ => None end).

Lemma does_ret {A} b (a : A) : does b (ret a) (inl a).
Proof. by intros p Hp. Qed.

Lemma does_reject {A} b : does b (@reject A) (inr RBad).
Proof. by intros p Hp. Qed.

Lemma does_lift {A} b (o : option A) : does b (lift o) (or_bad o).
Proof. intros p Hp. by destruct o. Qed.

Lemma does_bind {A B} b (m : St A) (k : A -> St B) o (f : A -> B + refusal) :
  does b m o -> (forall a, does b (k a) (f a)) -> does b (bind m k) (try_ o f).
Proof.
  intros Hm Hk p Hp. destruct (Hm p Hp) as (H1 & H2 & H3). unfold bind. destruct (m p) as [q [a|]]; cbn in H1, H2, H3.
  - destruct o as [a'|r]; [|done]. injection H3 as <-. cbn. destruct (Hk a q H1) as (K1 & K2 & K3). rewrite H2 in K2. done.
  - destruct o as [a'|r]; [done|]. done.
Qed.

(** *** Frames *)

Ltac cache_frame := intros [H1 H2 H3 H4 H5]; split; [exact H1|exact H2|exact H3|exact H4|exact H5].

Lemma cache_ok_detail d p : cache_ok p -> cache_ok (set_detail d p).
Proof. by cache_frame. Qed.
Lemma cache_ok_bad n p : cache_ok p -> cache_ok (set_badExemplars n p).
Proof. by cache_frame. Qed.
Lemma cache_ok_eof v p : cache_ok p -> cache_ok (set_eof v p).
Proof. by cache_frame. Qed.
Lemma cache_ok_long n p : cache_ok p -> cache_ok (set_longCacheBytes n p).
Proof. by cache_frame. Qed.

Lemma cache_of_set b b' c p : cache_of b' (set_cache b c p) = (match b, b' with SampleBlock, SampleBlock | ExemplarBlock, ExemplarBlock => c | _, _ => cache_of b' p end).
Proof. by destruct b, b'. Qed.

Lemma cache_ok_set b c p : (forall kv, kv ∈ c -> all_chars name_char kv.1) -> cache_ok p -> cache_ok (set_cache b c p).
Proof.
  intros Hc [H1 H2 H3 H4 H5]. split; try by destruct b.
  intros b' kv. rewrite cache_of_set. destruct b, b'; try exact (Hc kv); [exact (H2 ExemplarBlock kv)|exact (H2 SampleBlock kv)].
Qed.

Lemma forget_cache b c p : forget (set_cache b c p) = forget p.
Proof. by destruct b. Qed.

(** *** Interning *)

Lemma internName_does b s : does b (internName s) (inl s).
Proof.
  intros p Hp. unfold internName. destruct (maxInternedNameLen <? len s); [done|]. destruct (names p !! s) as [t|] eqn:E.
  - by rewrite (ok_names p Hp s t E).
  - destruct (_ && _); [|done]. split; [|done]. destruct Hp as [H1 H2 H3 H4 H5]. split; try done.
    cbn. intros x y [[<- <-]|[_ Hx]]%lookup_insert_Some; [done|by apply H3].
Qed.

Lemma internValue_does b s : does b (internValue s) (inl s).
Proof.
  intros p Hp. unfold internValue. destruct (maxInternedValueLen <? len s); [done|]. destruct (values p !! s) as [t|] eqn:E.
  - by rewrite (ok_values p Hp s t E).
  - destruct (_ <? _); [|done]. split; [|done]. destruct Hp as [H1 H2 H3 H4 H5]. split; try done.
    cbn. intros x y [[<- <-]|[_ Hx]]%lookup_insert_Some; [done|by apply H4].
Qed.

Lemma put_ok b pos f s p : (f = NameField -> all_chars name_char s) -> cache_ok p ->
  cache_ok (set_cache b (alter (put_field f s) pos (cache_of b p)) p).
Proof.
  intros Hs Hp. apply cache_ok_set; [|done]. intros kv Hkv. apply list_elem_of_lookup in Hkv as [i Hi].
  destruct (decide (i = pos)) as [->|Hne].
  - rewrite list_lookup_alter_eq in Hi. apply fmap_Some in Hi as (x & Hx & ->). destruct f; cbn; [by apply Hs|].
    apply (ok_kv p Hp b). by eapply list_elem_of_lookup_2.
  - rewrite list_lookup_alter_ne in Hi by done. apply (ok_kv p Hp b). by eapply list_elem_of_lookup_2.
Qed.

Lemma cacheString_does b b' pos f s n : (f = NameField -> all_chars name_char s) -> does b' (modify (cacheString b pos f s n)) (inl ()).
Proof.
  intros Hs p Hp. unfold modify, cacheString. cbn [fst snd]. set (q := if n <? len _ then _ else p).
  assert (cache_ok q /\ forget q = forget p) as [Hq <-] by (unfold q; destruct (_ <? _); [by split; [apply cache_ok_long|]|done]).
  clearbody q. assert (f = NameField -> all_chars name_char []) as Hnil by (intros _; constructor).
  cbv zeta. destruct (n <? len s); [destruct (maxLongCacheBytes <? _)|]; cbn [fst snd]; (split; [|split; [by destruct b|done]]); apply put_ok; try done.
  by apply cache_ok_long.
Qed.

Lemma grow_does b b' pos : does b' (modify (grow b pos)) (inl ()).
Proof.
  intros p Hp. unfold modify, grow. cbn [fst snd]. destruct (decide _); [|done]. split; [|by rewrite forget_cache].
  apply cache_ok_set; [|done]. intros kv [Hkv|Hkv]%elem_of_app; [by apply (ok_kv p Hp b)|].
  apply list_elem_of_singleton in Hkv as ->. constructor.
Qed.

(** *** Scanning *)

Lemma span_spec q s : let '(a, r) := span q s in s = a ++ r /\ all_chars q a /\ (match r with c :: _ => q c = false | [] => True end).
Proof.
  induction s as [|c s IH]; cbn; [by split; [|split; [constructor|]]|]. destruct (q c) eqn:E; [|by split; [|split; [constructor|]]].
  destruct (span q s) as [a r]. destruct IH as (-> & H1 & H2). split; [done|]. split; [by constructor|done].
Qed.

Lemma span_app q a r : all_chars q a -> (match r with c :: _ => q c = false | [] => True end) -> span q (a ++ r) = (a, r).
Proof.
  induction a as [|c a IH]; intros Ha Hr; cbn.
  - destruct r as [|c r]; [done|]. cbn. by rewrite Hr.
  - apply Forall_cons in Ha as [Hc Ha]. rewrite Hc, IH by done. done.
Qed.

(** The remembered prefix is what the scan would find. *)
Lemma span_prefix q s n c : all_chars q (take n s) -> s !! n = Some c -> q c = false -> span q s = (take n s, drop n s).
Proof.
  intros Ha Hc Hq. rewrite <- (take_drop n s) at 1. apply span_app; [done|]. by rewrite (drop_S s c n Hc).
Qed.

Lemma cut_Some c s a r : cut c s = Some (a, r) -> s = a ++ c :: r /\ c ∉ a.
Proof.
  unfold cut. pose proof (span_spec (fun x => negb (x =? c)) s) as H. destruct (span _ s) as [x [|y t]]; [done|].
  destruct H as (-> & H1 & H2). intros [= <- <-]. bool_norm. subst y. split; [done|]. intros Hin.
  eapply Forall_forall in H1; [|exact Hin]. by rewrite Z.eqb_refl in H1.
Qed.

Lemma cut_None c s : cut c s = None -> c ∉ s.
Proof.
  unfold cut. pose proof (span_spec (fun x => negb (x =? c)) s) as H. destruct (span _ s) as [x [|y t]]; [|done].
  destruct H as (-> & H1 & H2). rewrite app_nil_r. intros _ Hin. eapply Forall_forall in H1; [|exact Hin]. by rewrite Z.eqb_refl in H1.
Qed.

Lemma cut_app c a r : c ∉ a -> cut c (a ++ c :: r) = Some (a, r).
Proof.
  intros Ha. unfold cut. rewrite span_app; [done| |by rewrite Z.eqb_refl]. apply Forall_forall. intros x Hx.
  apply negb_true_iff, Z.eqb_neq. intros ->. done.
Qed.

Lemma quoted_slow_none s : forall acc, 34 ∉ s -> quoted_slow acc s = None.
Proof.
  induction s as [s IH] using (induction_ltof1 _ length). intros acc Hs. destruct s as [|c s]; [done|]. cbn.
  rewrite not_elem_of_cons in Hs. destruct Hs as [Hc Hs]. destruct (c =? 34) eqn:E; bool_norm; [congruence|].
  destruct (c =? 92) eqn:E2.
  - destruct s as [|d s]; [done|]. apply IH; [unfold ltof; cbn; lia|]. rewrite not_elem_of_cons in Hs. tauto.
  - apply IH; [unfold ltof; cbn; lia|done].
Qed.

Lemma quoted_slow_plain a r : forall acc, 34 ∉ a -> 92 ∉ a -> quoted_slow acc (a ++ 34 :: r) = Some (acc ++ a, r).
Proof.
  induction a as [|c a IH]; intros acc H1 H2; cbn; [by rewrite app_nil_r|].
  apply not_elem_of_cons in H1 as [H1 H1'], H2 as [H2 H2'].
  rewrite (proj2 (Z.eqb_neq c 34)) by congruence. rewrite (proj2 (Z.eqb_neq c 92)) by congruence.
  by rewrite IH, <- app_assoc.
Qed.

(** The scan for the closing quote and the escape-aware loop read the same value. *)
Lemma parseQuoted_does b last intern rest : does b (parseQuoted last intern rest) (or_bad (parseQuotedSlow rest)).
Proof.
  intros p Hp. unfold parseQuoted. destruct (cut 34 rest) as [[v rem]|] eqn:E.
  - apply cut_Some in E as [-> Hv]. destruct (bool_decide (92 ∈ v)) eqn:E92; bool_norm.
    + by destruct (parseQuotedSlow (v ++ 34 :: rem)).
    + assert (parseQuotedSlow (v ++ 34 :: rem) = Some (v, rem)) as -> by (unfold parseQuotedSlow; by rewrite quoted_slow_plain).
      assert (does b (if intern then internValue v else ret v) (inl v)) as Hi by (destruct intern; [apply internValue_does|apply does_ret]).
      destruct last as [[b' pos]|].
      * destruct (bool_decide (v = slot b' pos ValueField p)); [done|].
        assert (does b (w <~ (if intern then internValue v else ret v) ; modify (cacheString b' pos ValueField w maxInternedValueLen) ;;; ret (w, rem))
          (try_ (inl v) (fun w => try_ (inl ()) (fun _ => inl (w, rem))))) as H; [|exact (H p Hp)].
        apply does_bind; [exact Hi|]. intros w. apply does_bind; [by apply cacheString_does|]. intros _. apply does_ret.
      * assert (does b (w <~ (if intern then internValue v else ret v) ; ret (w, rem)) (try_ (inl v) (fun w => inl (w, rem)))) as H; [|exact (H p Hp)].
        apply does_bind; [exact Hi|]. intros w. apply does_ret.
  - apply cut_None in E. unfold parseQuotedSlow. by rewrite quoted_slow_none.
Qed.

Lemma slot_name_ok b pos p : cache_ok p -> all_chars name_char (slot b pos NameField p).
Proof.
  intros Hp. unfold slot. destruct (cache_of b p !! pos) as [kv|] eqn:E; cbn; [|constructor].
  apply (ok_kv p Hp b). by eapply list_elem_of_lookup_2.
Qed.

Lemma does_bind_at {A B} b (m : St A) (k : A -> St B) a o : does b m (inl a) -> does b (k a) o -> does b (bind m k) o.
Proof.
  intros Hm Hk p Hp. destruct (Hm p Hp) as (H1 & H2 & H3). unfold bind. destruct (m p) as [q [a'|]]; cbn in H1, H2, H3; [|done].
  injection H3 as ->. destruct (Hk q H1) as (K1 & K2 & K3). rewrite H2 in K2. done.
Qed.

Lemma remember_does b b' pos tok (rem : bytes) : all_chars name_char tok ->
  does b (v <~ internName tok ; modify (cacheString b' pos NameField v maxInternedNameLen) ;;; ret (v, rem)) (inl (tok, rem)).
Proof.
  intros Ht. eapply does_bind_at; [apply internName_does|]. eapply does_bind_at; [by apply cacheString_does|]. apply does_ret.
Qed.

Lemma label_name_does b b' pos rest : does b (label_name b' pos rest) (ref_name rest).
Proof.
  intros p Hp. unfold label_name, ref_name. pose proof (slot_name_ok b' pos p Hp) as Hslot. set (ln := slot b' pos NameField p) in *.
  assert (forall o, (if bool_decide (ln <> []) && bool_decide (rest !! length ln = Some 61) && bool_decide (take (length ln) rest = ln)
      then (p, Some (ln, skipSpaceTab (drop (length ln) rest)))
      else let '(tok, rem) := span name_char rest in
        if bool_decide (tok = []) then (p, None) else if bool_decide (tok = ln) then (p, Some (tok, skipSpaceTab rem))
        else (v <~ internName tok ; modify (cacheString b' pos NameField v maxInternedNameLen) ;;; ret (v, skipSpaceTab rem)) p) = o ->
    cache_ok o.1 /\ forget o.1 = (match (let '(tok, rem) := span name_char rest in if bool_decide (tok = []) then inr RBad else inl (tok, skipSpaceTab rem))
      with inl _ => forget p | inr r => charge b r (forget p) end) /\
    o.2 = (match (let '(tok, rem) := span name_char rest in if bool_decide (tok = []) then inr RBad else inl (tok, skipSpaceTab rem))
      with inl a => Some a | inr _ => None end)) as Hbare.
  { intros o <-. destruct (_ && _ && _) eqn:Eh.
    - apply andb_true_iff in Eh as [[E1 E2]%andb_true_iff E3]. bool_norm.
      rewrite (span_prefix name_char rest (length ln) 61); [|by rewrite E3|done|done]. rewrite E3.
      rewrite bool_decide_eq_false_2 by done. done.
    - pose proof (span_spec name_char rest) as Hs. destruct (span name_char rest) as [tok rem]. destruct Hs as (_ & Ht & _).
      destruct (bool_decide (tok = [])); [done|]. destruct (bool_decide (tok = ln)); [done|].
      exact (remember_does b b' pos tok (skipSpaceTab rem) Ht p Hp). }
  destruct rest as [|c t]; [by apply Hbare|].
  destruct (decide (c = 34)) as [->|Hc].
  - assert (does b ('(v, rem) <~ parseQuoted None true t ; (if bool_decide (v = []) then reject else ret (v, skipSpaceTab rem)))
      (try_ (or_bad (parseQuotedSlow t)) (fun '(v, rem) => if bool_decide (v = []) then inr RBad else inl (v, skipSpaceTab rem)))) as H; [|exact (H p Hp)].
    apply does_bind; [apply parseQuoted_does|]. intros [v rem]. destruct (bool_decide (v = [])); [apply does_reject|apply does_ret].
  - assert (forall A (x y : A), match c with 34 => x | _ => y end = y) as Hm.
    { intros A x y. destruct c as [|q|q]; try done. do 6 (destruct q as [q|q|]; try done). }
    rewrite !Hm. by apply Hbare.
Qed.

Lemma admit_does b dst name value : does b (admit_label b dst name value) (ref_admit dst name value).
Proof.
  intros p Hp. unfold admit_label, ref_admit. destruct (_ <=? _); [|destruct (bool_decide _); [|done]];
    destruct b; (split; [by try apply cache_ok_detail|done]).
Qed.

Lemma parse_pair_does b dst rest : does b (parse_pair b dst rest) (ref_pair dst rest).
Proof.
  unfold parse_pair, ref_pair. eapply does_bind_at; [apply grow_does|].
  apply does_bind; [apply label_name_does|]. intros [name r]. apply does_bind; [apply does_lift|]. intros r2.
  apply does_bind; [apply parseQuoted_does|]. intros [value rem]. apply does_bind; [apply admit_does|]. intros dst'. apply does_ret.
Qed.

Lemma labels_loop_does b fuel : forall dst rest, does b (labels_loop fuel b dst rest) (ref_labels_loop fuel dst rest).
Proof.
  induction fuel as [|fuel IH]; intros dst rest; [apply does_reject|]. cbn [labels_loop ref_labels_loop].
  destruct (skipSpaceTab rest) as [|c t]; [apply does_reject|].
  assert (does b ('(dst, rest) <~ parse_pair b dst (c :: t) ; labels_loop fuel b dst rest)
    (try_ (ref_pair dst (c :: t)) (fun '(dst, rest) => ref_labels_loop fuel dst rest))) as H.
  { apply does_bind; [apply parse_pair_does|]. intros [d r]. apply IH. }
  assert (does b (ret (dst, t)) (inl (dst, t))) as H0 by apply does_ret.
  destruct c as [|q|q]; try exact H. do 7 (destruct q as [q|q|]; try exact H). exact H0.
Qed.

Lemma parseLabels_does b rest : does b (parseLabels b rest) (ref_labels rest).
Proof. apply labels_loop_does. Qed.

(** An exemplar's faults stay its own. *)
Lemma parseExemplar_spec rest p : cache_ok p -> cache_ok (parseExemplar rest p).1 /\ forget (parseExemplar rest p).1 = forget p /\
  (parseExemplar rest p).2 = ref_exemplar (openMetrics p) rest.
Proof.
  intros Hp. unfold parseExemplar, ref_exemplar. destruct (skipSpaceTab rest) as [|c t]; [done|].
  destruct (decide (c = 123)) as [->|Hc].
  - unfold bind. destruct (parseLabels_does ExemplarBlock t p Hp) as (H1 & H2 & H3). destruct (parseLabels ExemplarBlock t p) as [q o].
    cbn in H1, H2, H3. subst o. destruct (ref_labels t) as [[ls r]|[]]; (split; [exact H1|split; [exact H2|reflexivity]]).
  - assert (forall A (x y : A), match c with 123 => x | _ => y end = y) as Hm.
    { intros A x y. destruct c as [|q|q]; try done. do 7 (destruct q as [q|q|]; try done). }
    by rewrite !Hm.
Qed.

(** [m] yields [o]: the sample, the exemplar count, the refusal. *)
Definition yields (om ex : bool) (m : St Sample) (o : (Sample * bool) + refusal) : Prop := forall p, cache_ok p ->
  openMetrics p = om -> exemplars p = ex ->
  cache_ok (m p).1 /\
  forget (m p).1 = (match o with inl (_, bad) => count_bad bad (forget p) | inr r => charge SampleBlock r (forget p) end) /\
  (m p).2 = (match o with inl (s, _) => Some s | inr _ => None end).

Lemma forget_opts p q : forget p = forget q -> openMetrics p = openMetrics q /\ exemplars p = exemplars q.
Proof. intros H. split; [exact (f_equal openMetrics H)|exact (f_equal exemplars H)]. Qed.

Lemma yields_bind {A} om ex (m : St A) (k : A -> St Sample) o f :
  does SampleBlock m o -> (forall a, yields om ex (k a) (f a)) -> yields om ex (bind m k) (try_ o f).
Proof.
  intros Hm Hk p Hp Ho He. destruct (Hm p Hp) as (H1 & H2 & H3). unfold bind. destruct (m p) as [q [a|]]; cbn in H1, H2, H3.
  - destruct o as [a'|r]; [|done]. injection H3 as <-. cbn. destruct (forget_opts _ _ H2) as [E1 E2].
    destruct (Hk a q H1) as (K1 & K2 & K3); [congruence|congruence|]. rewrite H2 in K2. done.
  - destruct o as [a'|r]; [done|]. done.
Qed.

Lemma yields_bind_at {A} om ex (m : St A) (k : A -> St Sample) a o :
  does SampleBlock m (inl a) -> yields om ex (k a) o -> yields om ex (bind m k) o.
Proof.
  intros Hm Hk p Hp Ho He. destruct (Hm p Hp) as (H1 & H2 & H3). unfold bind. destruct (m p) as [q [a'|]]; cbn in H1, H2, H3; [|done].
  injection H3 as ->. destruct (forget_opts _ _ H2) as [E1 E2]. destruct (Hk q H1) as (K1 & K2 & K3); [congruence|congruence|].
  rewrite H2 in K2. done.
Qed.

Lemma yields_reject om ex : yields om ex reject (inr RBad).
Proof. by intros p Hp. Qed.

Lemma finishSample_yields om ex name ls rest : yields om ex (finishSample name ls rest) (ref_finish om ex name ls rest).
Proof.
  intros p Hp Ho He. unfold finishSample, ref_finish. rewrite Ho. destruct (value_and_time om rest) as [[[v ts] [|c t]]|]; [done| |done].
  assert (forall A (x y : A), c <> 35 -> match c with 35 => x | _ => y end = y) as Hm.
  { intros A x y Hc. destruct c as [|q|q]; try done. do 6 (destruct q as [q|q|]; try done). }
  destruct (decide (c = 35)) as [->|Hc]; [|by rewrite !Hm].
  destruct (negb om); [done|]. rewrite He. destruct ex; [|done].
  destruct (parseExemplar_spec t p Hp) as (H1 & H2 & H3). rewrite Ho in H3. destruct (parseExemplar t p) as [q o]. cbn in H1, H2, H3. subst o.
  destruct (ref_exemplar om t) as [x|]; [done|]. split; [by apply cache_ok_bad|]. split; [|done]. cbn [fst count_bad].
  rewrite <- H2. done.
Qed.

Lemma quoted_sample_yields om ex line : yields om ex (parseQuotedNameSample line) (ref_quoted_sample om ex line).
Proof.
  unfold parseQuotedNameSample, ref_quoted_sample. destruct line as [|c t]; [apply yields_reject|].
  destruct c as [|q|q]; try apply yields_reject. do 7 (destruct q as [q|q|]; try apply yields_reject).
  destruct (skipSpaceTab t) as [|c r]; [apply yields_reject|].
  destruct c as [|q|q]; try apply yields_reject. do 6 (destruct q as [q|q|]; try apply yields_reject).
  apply yields_bind; [apply parseQuoted_does|]. intros [name rem]. destruct (bool_decide (name = [])); [apply yields_reject|].
  assert (forall rem, yields om ex ('(ls, rem) <~ parseLabels SampleBlock (skipComma rem) ; finishSample name ls rem)
    (try_ (ref_labels (skipComma rem)) (fun '(ls, rem) => ref_finish om ex name ls rem))) as H.
  { intros r2. apply yields_bind; [apply parseLabels_does|]. intros [ls r3]. apply finishSample_yields. }
  destruct (skipSpaceTab rem) as [|c r2]; [apply H|].
  destruct c as [|q|q]; try apply H. do 6 (destruct q as [q|q|]; try apply H). apply yields_reject.
Qed.

Lemma after_name_yields om ex name rest : yields om ex (after_name name rest) (ref_after_name om ex name rest).
Proof.
  intros p Hp Ho He. unfold after_name, ref_after_name. rewrite Ho. set (r := if negb om && _ then _ else _). clearbody r.
  pose proof (finishSample_yields om ex name [] r p Hp Ho He) as H0. destruct r as [|c t]; [exact H0|].
  assert (yields om ex ('(ls, rest) <~ parseLabels SampleBlock t ; finishSample name ls rest)
    (try_ (ref_labels t) (fun '(ls, rest) => ref_finish om ex name ls rest))) as H.
  { apply yields_bind; [apply parseLabels_does|]. intros [ls r2]. apply finishSample_yields. }
  destruct c as [|q|q]; try exact H0. do 7 (destruct q as [q|q|]; try exact H0). exact (H p Hp Ho He).
Qed.

Lemma set_metric_does s : all_chars metric_char s -> does SampleBlock (modify (set_lastMetric s)) (inl ()).
Proof. intros Hs p [H1 H2 H3 H4 H5]. by repeat split. Qed.

Lemma parseSample_yields om ex line : yields om ex (parseSample line) (ref_sample om ex line).
Proof.
  intros p Hp Ho He. unfold parseSample, ref_sample. pose proof (ok_metric p Hp) as Hm. set (lm := lastMetric p) in *.
  destruct (_ && _ && _) eqn:Eh.
  - apply andb_true_iff in Eh as [[E1 E2]%andb_true_iff E3]. destruct (line !! length lm) as [c|] eqn:Ec; [|done]. bool_norm.
    rewrite (span_prefix metric_char line (length lm) c); [|by rewrite E3|done|done]. rewrite E3, bool_decide_eq_false_2 by done.
    by apply after_name_yields.
  - pose proof (span_spec metric_char line) as Hs. destruct (span metric_char line) as [tok rest]. destruct Hs as (_ & Ht & _).
    destruct (bool_decide (tok = [])); [by apply quoted_sample_yields|].
    destruct (bool_decide (tok = lm)); [by apply after_name_yields|].
    assert (yields om ex (name <~ internName tok ; modify (set_lastMetric name) ;;; after_name name rest) (ref_after_name om ex tok rest)) as H;
      [|by apply H].
    eapply yields_bind_at; [apply internName_does|]. eapply yields_bind_at; [by apply set_metric_does|]. apply after_name_yields.
Qed.

(** * Whole expositions

    A body is a list of items, read without looking at the parser; the
    reference runs over the items.  [parseFrom] ends on every body, and from
    any parser its callers can hold it computes what the reference computes. *)


(** ** The reference run *)

Inductive item := OverLong | Cut | Line (l : bytes).

Definition read_item (line : bytes) (tooLong : bool) (rerr : option ending) : list item :=
  if tooLong then [OverLong]
  else if bool_decide (line = []) then []
  else match rerr with Some (ReadErr _) => [Cut] | _ => [Line line] end.

Fixpoint read_items (fuel buf : nat) (max : Z) (e : ending) (body : bytes) : option (list item) :=
  match fuel with
  | 0%nat => None
  | S fuel =>
      match readLine_loop (S (length body)) buf max e [] false body with
      | None => None
      | Some (line, tooLong, rerr, rest) =>
          match rerr with
          | Some _ => Some (read_item line tooLong rerr)
          | None => (fun l => read_item line tooLong rerr ++ l) <$> read_items fuel buf max e rest
          end
      end
  end.

Definition outcome_of (e : ending) : outcome := match e with Eof => Finished | ReadErr x => BodyError x end.

Section Ref.
Context {W : Type} (emit : W -> Sample -> W * option Z).

Fixpoint ref_items (e : ending) (items : list item) (malformed : Z) (w : W) (p : Parser) : Parser * W * Z * outcome :=
  match items with
  | [] => (p, w, malformed, outcome_of e)
  | OverLong :: items => ref_items e items (malformed + 1) w (set_detail (d_overLong (detail p)) p)
  | Cut :: items => ref_items e items (malformed + 1) w (set_detail (d_truncated (detail p)) p)
  | Line l :: items =>
      let '(p, v) := ref_line l p in
      let after malformed w := if eof p then (p, w, malformed, Finished) else ref_items e items malformed w p in
      match v with
      | Silent => after malformed w
      | Malformed => after (malformed + 1) w
      | Emit s => match emit w s with (w, Some x) => (p, w, malformed, EmitError x) | (w, None) => after malformed w end
      end
  end.

(** The reference for options [o]: a fresh parser without memory. *)
Definition ref_parse (o : Options) (e : ending) (body : bytes) (w : W) : option (Parser * W * Z * outcome) :=
  (fun items => ref_items e items 0 w (New o)) <$> read_items (S (length body)) parseBufSize (normLineBytes (MaxLineBytes o)) e body.
End Ref.

(** ** Lines end *)

Lemma ReadSlice_spec buf e rest : (0 < buf)%nat -> let '(chunk, rerr, rest') := ReadSlice buf e rest in
  rest = chunk ++ rest' /\ (match rerr with Ended x => x = e /\ rest' = [] /\ 10 ∉ chunk | _ => (0 < length chunk)%nat end).
Proof.
  intros Hb. unfold ReadSlice. destruct (cut 10 (take buf rest)) as [[a r]|] eqn:E.
  - apply cut_Some in E as [E _]. assert (length (take buf rest) = S (length a + length r)) as Hl.
    { rewrite E, length_app. cbn. lia. }
    rewrite length_take in Hl. split; [|rewrite length_app; cbn; lia].
    assert (a ++ [10] = take (S (length a)) rest) as ->; [|by rewrite take_drop].
    assert (take (S (length a)) rest = take (S (length a)) (take buf rest)) as -> by (rewrite take_take; f_equal; lia).
    rewrite E. replace (a ++ 10 :: r) with ((a ++ [10]) ++ r) by (by rewrite <- app_assoc).
    by rewrite take_app_length' by (rewrite length_app; cbn; lia).
  - apply cut_None in E. destruct (decide _).
    + split; [by rewrite take_drop|]. rewrite length_take. lia.
    + rewrite app_nil_r. split; [done|]. split; [done|]. split; [done|]. by rewrite take_ge in E by lia.
Qed.

Lemma readLine_total fuel buf max e : (0 < buf)%nat -> forall scratch tooLong rest, (length rest < fuel)%nat ->
  exists line tl rerr rest', readLine_loop fuel buf max e scratch tooLong rest = Some (line, tl, rerr, rest') /\
    (length rest' <= length rest)%nat /\ (match rerr with None => (length rest' < length rest)%nat | Some x => x = e end).
Proof.
  intros Hb. induction fuel as [|fuel IH]; intros scratch tooLong rest Hf; [lia|]. cbn [readLine_loop].
  pose proof (ReadSlice_spec buf e rest Hb) as Hs. destruct (ReadSlice buf e rest) as [[chunk rerr] rest'].
  destruct Hs as [Er Hr]. assert (length rest = length chunk + length rest')%nat as Hl by (rewrite Er; by rewrite length_app).
  destruct rerr as [| |x].
  - repeat break_match; do 4 eexists; (split; [reflexivity|split; lia]).
  - destruct (IH (if len scratch + len chunk <=? max then scratch ++ chunk else scratch) (tooLong || negb (len scratch + len chunk <=? max)) rest')
      as (l & t & r & r' & E & H1 & H2); [lia|].
    exists l, t, r, r'. split; [exact E|]. split; [lia|]. destruct r; [done|lia].
  - destruct Hr as (-> & _ & _). repeat break_match; do 4 eexists; (split; [reflexivity|split; [lia|done]]).
Qed.

Lemma read_items_total buf max e : (0 < buf)%nat -> forall fuel body, (length body < fuel)%nat -> is_Some (read_items fuel buf max e body).
Proof.
  intros Hb fuel. induction fuel as [|fuel IH]; intros body Hf; [lia|]. cbn [read_items].
  destruct (readLine_total (S (length body)) buf max e Hb [] false body) as (l & t & r & rest & -> & H1 & H2); [lia|].
  destruct r; [by eexists|]. destruct (IH rest) as [x ->]; [lia|]. by eexists.
Qed.

(** ** Comments and the memo *)

Lemma setMeta_forget f h u p : forget (setMeta f h u p) = forget (setMeta f h u (forget p)).
Proof.
  unfold setMeta. destruct (_ && _); [done|]. cbn [metas forget metaBytes].
  destruct (metas p !! f) as [m|]; [destruct (_ && _); [done|]|destruct (_ <=? _); [done|]]; by destruct (_ && _).
Qed.

Lemma declareType_forget f t p : forget (declareType f t p) = forget (declareType f t (forget p)).
Proof.
  unfold declareType. cbn [types forget typeBytes]. destruct (types p !! f) as [old|]; [by destruct (decide (old = t))|].
  by destruct (_ || _).
Qed.

Lemma parseComment_forget line p : forget (parseComment line p).1 = forget (parseComment line (forget p)).1 /\
  (parseComment line p).2 = (parseComment line (forget p)).2.
Proof.
  unfold parseComment. destruct (nextField (nextField line).2) as [directive rest]. cbn [openMetrics forget].
  destruct (openMetrics p && _); [by destruct (bool_decide _)|].
  destruct (bool_decide _).
  { destruct (familyToken rest) as [[fam rem]|]; [|done]. unfold same_help. cbn [metas forget].
    destruct (_ || _); [done|]. cbn [fst snd]. split; [apply setMeta_forget|done]. }
  destruct (bool_decide _).
  { destruct (familyToken rest) as [[fam rem]|]; [|done]. destruct (nextField rem). destruct (_ && _); [|done].
    cbn [fst snd]. split; [apply setMeta_forget|done]. }
  destruct (bool_decide _); [|done]. destruct (familyToken rest) as [[fam rem]|]; [|done]. destruct (nextField rem).
  destruct (_ || _); [done|]. cbn [fst snd]. split; [apply declareType_forget|done].
Qed.

Lemma cache_ok_tables f p : cache_ok p -> names (f p) = names p -> values (f p) = values p -> lastMetric (f p) = lastMetric p ->
  lastKV (f p) = lastKV p -> exLastKV (f p) = exLastKV p -> lastClassOK (f p) = false -> cache_ok (f p).
Proof.
  intros [H1 H2 H3 H4 H5] E1 E2 E3 E4 E5 E6. split; rewrite ?E1, ?E2, ?E3; try done; [|by rewrite E6].
  intros [] kv; cbn; rewrite ?E4, ?E5; [apply (H2 SampleBlock)|apply (H2 ExemplarBlock)].
Qed.

Lemma setMeta_ok f h u p : cache_ok p -> cache_ok (setMeta f h u p).
Proof.
  intros Hp. unfold setMeta. destruct (_ && _); [done|].
  destruct (metas p !! f) as [m|]; [destruct (_ && _); [done|]|destruct (_ <=? _); [done|]]; (destruct (_ && _); [done|]);
    (eapply (cache_ok_tables (fun p => set_lastClassOK false (set_metas _ (set_metaBytes _ p))) p); done).
Qed.

Lemma declareType_ok f t p : cache_ok p -> cache_ok (declareType f t p).
Proof.
  intros Hp. unfold declareType. destruct (types p !! f) as [old|]; [destruct (decide (old = t)); [done|]|destruct (_ || _); [done|]].
  - by apply (cache_ok_tables (fun p => set_lastClassOK false (set_types _ p)) p).
  - by apply (cache_ok_tables (fun p => set_lastClassOK false (set_types _ (set_typeBytes _ p))) p).
Qed.

Lemma parseComment_ok line p : cache_ok p -> cache_ok (parseComment line p).1.
Proof.
  intros Hp. unfold parseComment. destruct (nextField (nextField line).2) as [directive rest].
  destruct (openMetrics p && _); [destruct (bool_decide _); [by apply cache_ok_eof|done]|].
  destruct (bool_decide _).
  { destruct (familyToken rest) as [[fam rem]|]; [|done]. destruct (_ || _); [done|]. by apply setMeta_ok. }
  destruct (bool_decide _).
  { destruct (familyToken rest) as [[fam rem]|]; [|done]. destruct (nextField rem). destruct (_ && _); [|done]. by apply setMeta_ok. }
  destruct (bool_decide _); [|done]. destruct (familyToken rest) as [[fam rem]|]; [|done]. destruct (nextField rem).
  destruct (_ || _); [done|]. by apply declareType_ok.
Qed.

Lemma classOf_name p name : c_name (classOf p name) = name.
Proof. unfold classOf. by destruct (classify (types p) name). Qed.

Lemma classifyCached_spec name p : cache_ok p -> cache_ok (classifyCached name p).1 /\ forget (classifyCached name p).1 = forget p /\
  (classifyCached name p).2 = classOf p name.
Proof.
  intros Hp. unfold classifyCached. destruct (negb (lastClassOK p) || _) eqn:E; cbn [fst snd].
  - split; [|done]. destruct Hp as [H1 H2 H3 H4 H5]. split; try done. cbn. intros _. by rewrite classOf_name.
  - bool_norm. split; [done|]. split; [done|]. rewrite (ok_memo p Hp) by done. by subst name.
Qed.

Lemma parseLine_spec line p : cache_ok p -> cache_ok (parseLine line p).1 /\
  ref_line line (forget p) = (forget (parseLine line p).1, (parseLine line p).2).
Proof.
  intros Hp. unfold parseLine, ref_line. destruct (skipSpaceTab line) as [|c t]; [done|].
  assert (forall r, (match parseSample (c :: t) p with (p, None) => (p, Malformed)
      | (p, Some s) => let '(p, cl) := classifyCached (s_name s) p in (p, Emit (stamp cl s)) end) = r ->
    cache_ok r.1 /\ match ref_sample (openMetrics (forget p)) (exemplars (forget p)) (c :: t) with
      | inr rf => (charge SampleBlock rf (forget p), Malformed)
      | inl (s, bad) => (count_bad bad (forget p), Emit (stamp (classOf (forget p) (s_name s)) s)) end = (forget r.1, r.2)) as H.
  { intros r <-. destruct (parseSample_yields (openMetrics p) (exemplars p) (c :: t) p Hp eq_refl eq_refl) as (H1 & H2 & H3).
    cbn [openMetrics exemplars forget] in *. destruct (parseSample (c :: t) p) as [q o]. cbn [fst snd] in H1, H2, H3. subst o.
    destruct (ref_sample _ _ _) as [[s bad]|rf]; [|by rewrite <- H2].
    destruct (classifyCached_spec (s_name s) q H1) as (C1 & C2 & C3). destruct (classifyCached (s_name s) q) as [q' cl].
    cbn [fst snd] in *. subst cl. split; [done|]. rewrite C2, H2. do 3 f_equal. unfold classOf.
    assert (types q = types p /\ metas q = metas p) as [-> ->]; [|done].
    split; [pose proof (f_equal types H2) as E|pose proof (f_equal metas H2) as E]; destruct bad; exact E. }
  assert (forall r, (let '(p, ok) := parseComment (c :: t) p in (p, if ok then Silent else Malformed)) = r ->
    cache_ok r.1 /\ (let '(p, ok) := parseComment (c :: t) (forget p) in (forget p, if ok then Silent else Malformed)) = (forget r.1, r.2)) as H0.
  { intros r <-. pose proof (parseComment_ok (c :: t) p Hp) as H1. destruct (parseComment_forget (c :: t) p) as [H2 H3].
    destruct (parseComment (c :: t) p), (parseComment (c :: t) (forget p)). cbn in *. by rewrite H2, H3. }
  destruct c as [|q|q]; try exact (H _ eq_refl). do 6 (destruct q as [q|q|]; try exact (H _ eq_refl)). exact (H0 _ eq_refl).
Qed.

Lemma parseComment_max line p : maxLineBytes (parseComment line p).1 = maxLineBytes p.
Proof.
  unfold parseComment, setMeta, declareType. repeat (break_match; try done).
Qed.

Lemma ref_line_max line p : maxLineBytes (ref_line line p).1 = maxLineBytes p.
Proof.
  unfold ref_line.
  assert (maxLineBytes (let '(p, ok) := parseComment (skipSpaceTab line) p in (forget p, if ok then Silent else Malformed)).1 = maxLineBytes p) as H0.
  { pose proof (parseComment_max (skipSpaceTab line) p) as H. destruct (parseComment _ p). exact H. }
  assert (forall l, maxLineBytes (match ref_sample (openMetrics p) (exemplars p) l with
      | inr r => (charge SampleBlock r p, Malformed)
      | inl (s, bad) => (count_bad bad p, Emit (stamp (classOf p (s_name s)) s)) end).1 = maxLineBytes p) as H.
  { intros l. destruct (ref_sample _ _ l) as [[s bad]|r]; [by destruct bad|by destruct r]. }
  destruct (skipSpaceTab line) as [|c t]; [done|]. destruct c as [|q|q]; try apply H. do 6 (destruct q as [q|q|]; try apply H). exact H0.
Qed.

(** ** The run *)

Section Run.
Context {W : Type} (emit : W -> Sample -> W * option Z).

Lemma parse_loop_ref buf e : (0 < buf)%nat -> forall fuel body items malformed w p, cache_ok p ->
  read_items fuel buf (maxLineBytes p) e body = Some items ->
  exists q w' m o, parse_loop emit fuel buf e body malformed w p = Some (q, w', m, o) /\ cache_ok q /\
    ref_items emit e items malformed w (forget p) = (forget q, w', m, o).
Proof.
  intros Hb fuel. induction fuel as [|fuel IH]; intros body items malformed w p Hp Hi; [done|].
  cbn [read_items parse_loop] in *.
  destruct (readLine_total (S (length body)) buf (maxLineBytes p) e Hb [] false body) as (line & tl & rerr & rest & El & _ & He); [lia|].
  rewrite El in Hi |- *. clear El.
  set (next := fun (malformed : Z) (w : W) (p : Parser) => match rerr with
    | None => parse_loop emit fuel buf e rest malformed w p | Some Eof => Some (p, w, malformed, Finished)
    | Some (ReadErr x) => Some (p, w, malformed, BodyError x) end).
  assert (exists items', items = read_item line tl rerr ++ items' /\ forall malformed w q, cache_ok q -> maxLineBytes q = maxLineBytes p ->
    exists q' w' m o, next malformed w q = Some (q', w', m, o) /\ cache_ok q' /\
      ref_items emit e items' malformed w (forget q) = (forget q', w', m, o)) as (items' & -> & Hnext).
  { destruct rerr as [x|].
    - exists []. injection Hi as <-. rewrite app_nil_r. split; [done|]. intros m0 w0 q Hq _. unfold next. subst x.
      destruct e; do 4 eexists; done.
    - destruct (read_items fuel buf (maxLineBytes p) e rest) as [l|] eqn:E; [|done]. cbn in Hi. injection Hi as <-.
      exists l. split; [done|]. intros m0 w0 q Hq Hm. apply IH; [done|]. by rewrite Hm. }
  clear Hi He. unfold read_item. destruct tl; [|destruct (bool_decide (line = [])) eqn:Enil].
  - cbn [app ref_items]. apply (Hnext _ _ (set_detail (d_overLong (detail p)) p)); [by apply cache_ok_detail|done].
  - rewrite andb_false_r. cbn [app]. by apply Hnext.
  - rewrite andb_true_r.
    assert (exists q w' m o, (let '(p, v) := parseLine line p in
        let after malformed w p := if eof p then Some (p, w, malformed, Finished) else next malformed w p in
        match v with
        | Silent => after malformed w p
        | Malformed => after (malformed + 1) w p
        | Emit s => match emit w s with (w, Some x) => Some (p, w, malformed, EmitError x) | (w, None) => after malformed w p end
        end) = Some (q, w', m, o) /\ cache_ok q /\ ref_items emit e (Line line :: items') malformed w (forget p) = (forget q, w', m, o)) as Hline.
    { destruct (parseLine_spec line p Hp) as [L1 L2]. cbn [ref_items]. rewrite L2.
      assert (maxLineBytes (parseLine line p).1 = maxLineBytes p) as Hmax by (pose proof (ref_line_max line (forget p)) as E; rewrite L2 in E; exact E).
      destruct (parseLine line p) as [q v]. cbn [fst snd] in *.
      assert (forall m w, exists q' w' m' o, (if eof q then Some (q, w, m, Finished) else next m w q) = Some (q', w', m', o) /\ cache_ok q' /\
        (if eof (forget q) then (forget q, w, m, Finished) else ref_items emit e items' m w (forget q)) = (forget q', w', m', o)) as Hafter.
      { intros m0 w0. change (eof (forget q)) with (eof q). destruct (eof q); [by do 4 eexists|]. by apply Hnext. }
      destruct v as [| |s]; try apply Hafter. destruct (emit w s) as [w1 [x|]]; [by do 4 eexists|]. apply Hafter. }
    destruct rerr as [[|x]|]; try exact Hline. cbn [app ref_items].
    apply (Hnext _ _ (set_detail (d_truncated (detail p)) p)); [by apply cache_ok_detail|done].
Qed.
End Run.
