(* ===== verification/PromSafe.v ===== *)
(** * What the text parser promises

    For every parser its callers can hold: no memory shows, every parse ends,
    the counters account for the lines, what is emitted is well formed, and a
    body that was cut short yields nothing past its last whole line. *)

From S2P Require Import Prelude Clip Number Promparse PromSpec.
Local Open Scope Z_scope.
Local Open Scope parse_scope.

(** ** The parsers callers hold *)

Inductive warm : Options -> Parser -> Prop :=
| warm_new o : warm o (New o)
| warm_reset o o' p : warm o p -> warm o' (reset o' p)
| warm_release o p : warm o p -> warm o (release p)
| warm_parse o p W (emit : W -> Sample -> W * option Z) e body w q w' m out :
    warm o p -> parseFrom emit e body w p = Some (q, w', m, out) -> warm o q.

(** The options a parser runs under. *)
Definition under (o : Options) (p : Parser) : Prop :=
  maxLineBytes p = normLineBytes (MaxLineBytes o) /\ openMetrics p = OpenMetrics o /\ exemplars p = OpenMetrics o && Exemplars o.

Lemma cache_ok_New o : cache_ok (New o).
Proof.
  split; cbn; try done; first [by intros [] kv ?%not_elem_of_nil|constructor|by intros b s].
Qed.

Lemma cache_ok_begin p : cache_ok p -> cache_ok (begin_parse p).
Proof.
  intros [H1 H2 H3 H4 H5]. by split.
Qed.

Lemma forget_begin o p : under o p -> forget (begin_parse p) = New o.
Proof. intros (H1 & H2 & H3). unfold New. rewrite <- H1, <- H3, <- H2. done. Qed.

Lemma ref_items_opts {W} (emit : W -> Sample -> W * option Z) e items : forall m w p,
  let q := (ref_items emit e items m w p).1.1.1 in
  maxLineBytes q = maxLineBytes p /\ openMetrics q = openMetrics p /\ exemplars q = exemplars p.
Proof.
  assert (forall l p, maxLineBytes (ref_line l p).1 = maxLineBytes p /\ openMetrics (ref_line l p).1 = openMetrics p /\ exemplars (ref_line l p).1 = exemplars p) as Hl.
  { intros l p. unfold ref_line.
    assert (forall q, maxLineBytes q = maxLineBytes p /\ openMetrics q = openMetrics p /\ exemplars q = exemplars p ->
      maxLineBytes (forget q) = maxLineBytes p /\ openMetrics (forget q) = openMetrics p /\ exemplars (forget q) = exemplars p) as Hf by done.
    assert (maxLineBytes (parseComment (skipSpaceTab l) p).1 = maxLineBytes p /\ openMetrics (parseComment (skipSpaceTab l) p).1 = openMetrics p /\
      exemplars (parseComment (skipSpaceTab l) p).1 = exemplars p) as Hc by (unfold parseComment, setMeta, declareType; repeat (break_match; try done)).
    assert (forall x, let q := (match ref_sample (openMetrics p) (exemplars p) x with
      | inr r => (charge SampleBlock r p, Malformed)
      | inl (s, bad) => (count_bad bad p, Emit (stamp (classOf p (s_name s)) s)) end).1 in
      maxLineBytes q = maxLineBytes p /\ openMetrics q = openMetrics p /\ exemplars q = exemplars p) as Hs.
    { intros x. destruct (ref_sample _ _ x) as [[s bad]|r]; [by destruct bad|by destruct r]. }
    destruct (skipSpaceTab l) as [|c t]; [done|]. destruct c as [|q|q]; try apply Hs. do 6 (destruct q as [q|q|]; try apply Hs).
    destruct (parseComment _ p). exact Hc. }
  induction items as [|i items IH]; intros m w p; [done|]. cbn [ref_items]. destruct i as [| |l]; [apply (IH _ _ (set_detail _ p))..|].
  specialize (Hl l p). destruct (ref_line l p) as [q v]. cbn [fst] in Hl. destruct Hl as (<- & <- & <-).
  destruct v as [| |s]; [destruct (eof q); [done|apply IH]..|]. destruct (emit w s) as [w1 [x|]]; [done|]. destruct (eof q); [done|apply IH].
Qed.

Lemma parse_buf_pos : (0 < parseBufSize)%nat.
Proof. unfold parseBufSize. lia. Qed.
#[global] Opaque parseBufSize.

(** One exposition from a parser in order. *)
Lemma parse_ref {W} (emit : W -> Sample -> W * option Z) o p e body w : cache_ok p -> under o p ->
  exists q w' m out, parseFrom emit e body w p = Some (q, w', m, out) /\ cache_ok q /\ under o q /\
    ref_parse emit o e body w = Some (forget q, w', m, out).
Proof.
  intros Hp Ho. pose proof (cache_ok_begin p Hp) as Hb. unfold parseFrom, ref_parse.
  destruct (read_items_total parseBufSize (normLineBytes (MaxLineBytes o)) e parse_buf_pos (S (length body)) body) as [items Ei]; [lia|].
  pose proof Ho as (O1 & O2 & O3).
  destruct (parse_loop_ref emit parseBufSize e parse_buf_pos (S (length body)) body items 0 w (begin_parse p) Hb) as (q & w' & m & out & E & Hq & R);
    [change (maxLineBytes (begin_parse p)) with (maxLineBytes p); by rewrite O1|].
  rewrite (forget_begin o p Ho) in R. exists q, w', m, out. split; [done|]. split; [done|]. rewrite Ei. cbn. rewrite R. split; [|done].
  pose proof (ref_items_opts emit e items 0 w (New o)) as (Q1 & Q2 & Q3). rewrite R in Q1, Q2, Q3. done.
Qed.

Lemma release_refs_ok p : cache_ok p -> cache_ok (releaseLineRefs p).
Proof. intros [H1 H2 H3 H4 H5]. split; [constructor|by intros [] kv ?%not_elem_of_nil|exact H3|exact H4|done]. Qed.

Lemma drop_names_ok p : cache_ok p -> cache_ok (set_nameBytes 0 (set_names ∅ p)).
Proof. intros [H1 H2 H3 H4 H5]. split; [exact H1|exact H2|by intros b s|exact H4|exact H5]. Qed.

Lemma drop_values_ok p : cache_ok p -> cache_ok (set_values ∅ p).
Proof. intros [H1 H2 H3 H4 H5]. split; [exact H1|exact H2|exact H3|by intros b s|exact H5]. Qed.

(** What [reset] does, its bounds aside. *)
Definition reset_with (full_names full_values : bool) (o : Options) (p : Parser) : Parser :=
  let p := releaseLineRefs (set_exemplars (OpenMetrics o && Exemplars o) (set_openMetrics (OpenMetrics o) (set_maxLineBytes (normLineBytes (MaxLineBytes o)) p))) in
  let p := if full_names then set_nameBytes 0 (set_names ∅ p) else p in
  if full_values then set_values ∅ p else p.

Lemma reset_eq o p : exists a b, reset o p = reset_with a b o p.
Proof. eexists _, _. reflexivity. Qed.

Lemma set_opts_ok a b c p : cache_ok p -> cache_ok (set_exemplars a (set_openMetrics b (set_maxLineBytes c p))).
Proof. intros [H1 H2 H3 H4 H5]. split; [exact H1|exact H2|exact H3|exact H4|exact H5]. Qed.

Lemma reset_with_ok a b o p : cache_ok p -> cache_ok (reset_with a b o p).
Proof.
  intros Hp. unfold reset_with. assert (cache_ok (releaseLineRefs (set_exemplars (OpenMetrics o && Exemplars o) (set_openMetrics (OpenMetrics o)
    (set_maxLineBytes (normLineBytes (MaxLineBytes o)) p))))) as Hq by (apply release_refs_ok, set_opts_ok, Hp).
  revert Hq. generalize (releaseLineRefs (set_exemplars (OpenMetrics o && Exemplars o) (set_openMetrics (OpenMetrics o)
    (set_maxLineBytes (normLineBytes (MaxLineBytes o)) p)))). intros q Hq.
  destruct a, b; [apply drop_values_ok, drop_names_ok, Hq|apply drop_names_ok, Hq|apply drop_values_ok, Hq|exact Hq].
Qed.

Lemma reset_with_under a b o p : under o (reset_with a b o p).
Proof. unfold under, reset_with. destruct a, b; cbn [maxLineBytes openMetrics exemplars set_values set_nameBytes set_names releaseLineRefs set_longCacheBytes set_exLastKV
  set_lastKV set_lastClassOK set_lastClass set_lastMetric set_exemplars set_openMetrics set_maxLineBytes]; repeat split. Qed.

Lemma reset_ok o p : cache_ok p -> cache_ok (reset o p) /\ under o (reset o p).
Proof.
  intros Hp. destruct (reset_eq o p) as (a & b & ->). split; [by apply reset_with_ok|apply reset_with_under].
Qed.

Lemma warm_ok o p : warm o p -> cache_ok p /\ under o p.
Proof.
  induction 1 as [o|o o' p Hw [IH1 IH2]|o p Hw [IH1 IH2]|o p W emit e body w q w' m out Hw [IH1 IH2] E].
  - split; [apply cache_ok_New|done].
  - by apply reset_ok.
  - split; [|done]. destruct IH1 as [H1 H2 H3 H4 H5]. split; cbn; try done; first [by intros [] kv ?%not_elem_of_nil|constructor|by intros b s].
  - destruct (parse_ref emit o p e body w IH1 IH2) as (q' & w1 & m1 & out1 & E' & Hq & Hu & _). rewrite E in E'. by injection E' as -> _ _ _.
Qed.

(** C11: no memory shows.  A parser that has been through any parses, resets and
    releases, its intern tables and caches in whatever state they left, emits
    for every body exactly the samples the memoryless reference reads from the
    lines and declarations alone, with the same counts and the same ending. *)
Theorem warm_parse_exact {W} (emit : W -> Sample -> W * option Z) o p e body w : warm o p ->
  exists q w' m out, parseFrom emit e body w p = Some (q, w', m, out) /\ ref_parse emit o e body w = Some (forget q, w', m, out).
Proof.
  intros Hw. destruct (warm_ok o p Hw) as [H1 H2]. destruct (parse_ref emit o p e body w H1 H2) as (q & w' & m & out & E & _ & _ & R).
  by exists q, w', m, out.
Qed.

(** ** Well-formed samples *)

Definition labels_ok (l : list Label) : Prop := NoDup (l_name <$> l) /\ len l <= MaxLabelsPerSample.

Lemma labels_ok_snoc dst l : labels_ok dst -> (l_name l ∉ l_name <$> dst) -> len dst < MaxLabelsPerSample -> labels_ok (dst ++ [l]).
Proof.
  intros [D1 D2] Hn Hl. split.
  - rewrite fmap_app. apply NoDup_app. split; [done|]. split; [|apply NoDup_singleton]. by intros x Hx ->%list_elem_of_singleton.
  - unfold len in *. rewrite length_app. cbn. lia.
Qed.

Lemma ref_labels_ok fuel : forall dst rest dst' rest', labels_ok dst -> ref_labels_loop fuel dst rest = inl (dst', rest') -> labels_ok dst'.
Proof.
  induction fuel as [|fuel IH]; intros dst rest dst' rest' Hd; [done|]. cbn [ref_labels_loop].
  destruct (skipSpaceTab rest) as [|c t]; [done|].
  assert (try_ (ref_pair dst (c :: t)) (fun '(dst, rest) => ref_labels_loop fuel dst rest) = inl (dst', rest') -> labels_ok dst') as H.
  { unfold ref_pair, ref_admit. destruct (ref_name (c :: t)) as [[n r]|]; [cbn|done]. destruct (after_equals r) as [r2|]; [cbn|done].
    destruct (parseQuotedSlow r2) as [[v r3]|]; [cbn|done]. destruct (MaxLabelsPerSample <=? len dst) eqn:E1; [done|].
    destruct (bool_decide (n ∈ l_name <$> dst)) eqn:E2; [done|]. cbn. bool_norm. apply IH. by apply labels_ok_snoc. }
  assert (inl (dst, t) = inl (dst', rest') :> _ + refusal -> labels_ok dst') as H0 by (by intros [= -> ->]).
  destruct c as [|q|q]; try exact H. do 7 (destruct q as [q|q|]; try exact H). exact H0.
Qed.

Lemma labels_fit_spec l : forall n, 0 <= n <= MaxExemplarLabelSetRunes -> labels_fit n l = true ->
  n + foldr (fun x a => RuneCountInString (l_name x) + RuneCountInString (l_value x) + a) 0 l <= MaxExemplarLabelSetRunes.
Proof.
  assert (forall s k, 0 <= rune_count k s) as Hr.
  { induction s as [|c s IH]; intros k; cbn [rune_count]; [lia|]. destruct k; [|apply IH]. pose proof (IH (rune_size (c :: s) - 1)%nat). lia. }
  induction l as [|x l IH]; intros n Hn; cbn [labels_fit foldr]; [lia|].
  pose proof (Hr (l_name x) 0%nat : 0 <= RuneCountInString (l_name x)). pose proof (Hr (l_value x) 0%nat : 0 <= RuneCountInString (l_value x)).
  destruct (_ <? _) eqn:E; [done|]. bool_norm. intros Hl. assert (0 <= n + RuneCountInString (l_name x) + RuneCountInString (l_value x) <= MaxExemplarLabelSetRunes) as Hr' by lia.
  specialize (IH _ Hr' Hl). lia.
Qed.

(** Labels of one block and the code points of an exemplar's labels. *)
Definition sample_ok (s : Sample) : Prop := s_name s <> [] /\ labels_ok (s_labels s) /\
  forall x, s_exemplar s = Some x -> labels_ok (x_labels x) /\
    foldr (fun l a => RuneCountInString (l_name l) + RuneCountInString (l_value l) + a) 0 (x_labels x) <= MaxExemplarLabelSetRunes.

Lemma labels_ok_nil : labels_ok [].
Proof. split; [by apply NoDup_nil|]. done. Qed.

Lemma ref_exemplar_ok om rest x : ref_exemplar om rest = Some x -> labels_ok (x_labels x) /\
    foldr (fun l a => RuneCountInString (l_name l) + RuneCountInString (l_value l) + a) 0 (x_labels x) <= MaxExemplarLabelSetRunes.
Proof.
  unfold ref_exemplar. destruct (skipSpaceTab rest) as [|c t]; [done|].
  assert (match ref_labels t with
      | inl (ls, rest) => if exemplarLabelsFit ls then '(v, rest) ← parseFloatToken rest;
         match skipSpaceTab rest with [] => Some (mkExemplar ls v 0)
         | rest => '(ts, rest) ← parseTimestampToken om rest; match skipSpaceTab rest with [] => Some (mkExemplar ls v ts) | _ => None end
         end else None
      | inr _ => None end = Some x -> labels_ok (x_labels x) /\
    foldr (fun l a => RuneCountInString (l_name l) + RuneCountInString (l_value l) + a) 0 (x_labels x) <= MaxExemplarLabelSetRunes) as H.
  { destruct (ref_labels t) as [[ls r]|] eqn:El; [|done]. apply ref_labels_ok in El; [|apply labels_ok_nil].
    unfold exemplarLabelsFit. destruct (labels_fit 0 ls) eqn:Ef; [|done].
    apply labels_fit_spec in Ef; [|unfold MaxExemplarLabelSetRunes; lia].
    destruct (parseFloatToken r) as [[v r2]|]; [cbn|done]. destruct (skipSpaceTab r2) as [|c2 t2]; [by intros [= <-]|].
    destruct (parseTimestampToken om (c2 :: t2)) as [[ts r3]|]; [cbn|done]. destruct (skipSpaceTab r3); [by intros [= <-]|done]. }
  destruct c as [|q|q]; try done. do 7 (destruct q as [q|q|]; try done).
Qed.

Lemma ref_finish_ok om ex name ls rest s bad : name <> [] -> labels_ok ls -> ref_finish om ex name ls rest = inl (s, bad) -> sample_ok s /\ s_name s = name.
Proof.
  intros Hn Hl. assert (forall v ts, sample_ok (bare_sample name ls v ts None)) as H0 by (intros; split; [exact Hn|split; [exact Hl|done]]).
  unfold ref_finish. destruct (value_and_time om rest) as [[[v ts] [|c t]]|]; [by intros [= <- <-]| |done].
  destruct c as [|q|q]; try done. do 6 (destruct q as [q|q|]; try done). destruct (negb om); [done|].
  destruct ex; [|by intros [= <- <-]]. destruct (ref_exemplar om t) as [x|] eqn:E; intros [= <- <-]; [|done]. split; [|done].
  split; [done|]. split; [done|]. cbn. intros y [= <-]. by eapply ref_exemplar_ok.
Qed.

Lemma ref_sample_ok om ex line s bad : ref_sample om ex line = inl (s, bad) -> sample_ok s.
Proof.
  unfold ref_sample, ref_quoted_sample, ref_after_name. destruct (span metric_char line) as [tok rest]. destruct (bool_decide (tok = [])) eqn:E; bool_norm.
  - destruct line as [|c t]; [done|]. destruct c as [|q|q]; try done. do 7 (destruct q as [q|q|]; try done).
    destruct (skipSpaceTab t) as [|c r]; [done|]. destruct c as [|q|q]; try done. do 6 (destruct q as [q|q|]; try done).
    destruct (parseQuotedSlow r) as [[name rem]|]; [cbn|done]. destruct (bool_decide (name = [])) eqn:En; [done|]. bool_norm.
    assert (forall r, try_ (ref_labels r) (fun '(ls, rem) => ref_finish om ex name ls rem) = inl (s, bad) -> sample_ok s) as H.
    { intros r2. destruct (ref_labels r2) as [[ls r3]|] eqn:El; [cbn|done]. apply ref_labels_ok in El; [|apply labels_ok_nil].
      intros Hf. by apply ref_finish_ok in Hf as [? _]. }
    destruct (skipSpaceTab rem) as [|c r2]; [apply H|]. destruct c as [|q|q]; try apply H. do 6 (destruct q as [q|q|]; try apply H). done.
  - set (r := if negb om && _ then _ else _). clearbody r.
    assert (ref_finish om ex tok [] r = inl (s, bad) -> sample_ok s) as H0 by (intros Hf; apply ref_finish_ok in Hf as [? _]; [done..|apply labels_ok_nil]).
    destruct r as [|c t]; [exact H0|].
    assert (try_ (ref_labels t) (fun '(ls, rest) => ref_finish om ex tok ls rest) = inl (s, bad) -> sample_ok s) as H.
    { destruct (ref_labels t) as [[ls r3]|] eqn:El; [cbn|done]. apply ref_labels_ok in El; [|apply labels_ok_nil].
      intros Hf. by apply ref_finish_ok in Hf as [? _]. }
    destruct c as [|q|q]; try exact H0. do 7 (destruct q as [q|q|]; try exact H0). exact H.
Qed.

Lemma classOf_classify q n : (c_role (classOf q n), c_family (classOf q n)) = classify (types q) n.
Proof. unfold classOf. by destruct (classify (types q) n). Qed.

(** Every sample handed to the callback is well formed: it has a name, no
    label name twice, at most [MaxLabelsPerSample] labels, and an exemplar
    within the OpenMetrics bound; its family and role are what the declarations
    of this exposition make of its name. *)
Theorem emitted_wellformed o p line s : warm o p -> (parseLine line p).2 = Emit s ->
  sample_ok s /\ (s_role s, s_family s) = classify (types p) (s_name s).
Proof.
  intros Hw E. destruct (warm_ok o p Hw) as [Hp _]. destruct (parseLine_spec line p Hp) as [_ R]. rewrite E in R. clear E.
  unfold ref_line in R. destruct (skipSpaceTab line) as [|c t]; [done|].
  assert (match ref_sample (openMetrics (forget p)) (exemplars (forget p)) (c :: t) with
      | inr r => (charge SampleBlock r (forget p), Malformed)
      | inl (s, bad) => (count_bad bad (forget p), Emit (stamp (classOf (forget p) (s_name s)) s)) end = (forget (parseLine line p).1, Emit s) ->
    sample_ok s /\ (s_role s, s_family s) = classify (types p) (s_name s)) as H.
  { clear R. destruct (ref_sample _ _ _) as [[s' bad]|] eqn:Es; [|by intros [=]]. intros [= _ <-]. apply ref_sample_ok in Es as (S1 & S2 & S3). split; [exact (conj S1 (conj S2 S3))|].
    exact (classOf_classify (forget p) (s_name s')). }
  destruct c as [|q|q]; try exact (H R). do 6 (destruct q as [q|q|]; try exact (H R)).
  destruct (parseComment (35 :: t) (forget p)) as [q b]. apply (f_equal snd) in R. by destruct b.
Qed.

(** ** Every parse ends *)

Lemma parse_loop_total {W} (emit : W -> Sample -> W * option Z) buf e : (0 < buf)%nat -> forall fuel body m w p, (length body < fuel)%nat ->
  is_Some (parse_loop emit fuel buf e body m w p).
Proof.
  intros Hb fuel. induction fuel as [|fuel IH]; intros body m w p Hf; [lia|]. cbn [parse_loop].
  destruct (readLine_total (S (length body)) buf (maxLineBytes p) e Hb [] false body) as (line & tl & rerr & rest & -> & _ & He); [lia|].
  assert (forall m w p, is_Some (match rerr with None => parse_loop emit fuel buf e rest m w p | Some Eof => Some (p, w, m, Finished)
    | Some (ReadErr x) => Some (p, w, m, BodyError x) end)) as Hn.
  { intros m0 w0 p0. destruct rerr as [[|x]|]; [by eexists..|]. apply IH. lia. }
  destruct tl; [apply Hn|]. destruct (_ && negb _); [apply Hn|]. destruct (bool_decide (line = [])); [apply Hn|].
  destruct (parseLine line p) as [q v]. assert (forall m w, is_Some (if eof q then Some (q, w, m, Finished) else
    match rerr with None => parse_loop emit fuel buf e rest m w q | Some Eof => Some (q, w, m, Finished)
    | Some (ReadErr x) => Some (q, w, m, BodyError x) end)) as Ha by (intros; destruct (eof q); [by eexists|apply Hn]).
  destruct v as [| |s]; [apply Ha..|]. destruct (emit w s) as [w1 [x|]]; [by eexists|apply Ha].
Qed.

(** What reading leaves is no longer than what it was given. *)
Lemma span_len q s : (length (span q s).2 <= length s)%nat.
Proof. pose proof (span_spec q s) as H. destruct (span q s) as [a r]. destruct H as (-> & _). rewrite length_app. cbn. lia. Qed.

Lemma skip_len b : (length (skipSpaceTab b) <= length b)%nat.
Proof. induction b as [|c b IH]; cbn; [lia|]. destruct (blank c); cbn; lia. Qed.

Lemma comma_len b : (length (skipComma b) <= length b)%nat.
Proof.
  unfold skipComma. destruct b as [|c t]; [done|]. destruct c as [|q|q]; try done. do 6 (destruct q as [q|q|]; try done). cbn. lia.
Qed.

Lemma quoted_len s : forall acc v r, quoted_slow acc s = Some (v, r) -> (length r < length s)%nat.
Proof.
  induction s as [s IH] using (induction_ltof1 _ length). intros acc v r. destruct s as [|c s]; [done|]. cbn [quoted_slow].
  destruct (c =? 34); [intros [= <- <-]; cbn; lia|]. destruct (c =? 92).
  - destruct s as [|d s]; [done|]. intros H. apply IH in H; [cbn; lia|unfold ltof; cbn; lia].
  - intros H. apply IH in H; [cbn; lia|unfold ltof; cbn; lia].
Qed.

Lemma ref_name_len rest n r : ref_name rest = inl (n, r) -> (length r <= length rest)%nat.
Proof.
  unfold ref_name.
  assert ((let '(tok, rem) := span name_char rest in if bool_decide (tok = []) then inr RBad else inl (tok, skipSpaceTab rem)) = inl (n, r) ->
    (length r <= length rest)%nat) as H.
  { pose proof (span_len name_char rest) as Hs. destruct (span name_char rest) as [tok rem]. destruct (bool_decide _); [done|].
    intros [= <- <-]. pose proof (skip_len rem). cbn in Hs. lia. }
  destruct rest as [|c t]; [exact H|]. destruct c as [|q|q]; try exact H. do 6 (destruct q as [q|q|]; try exact H).
  destruct (parseQuotedSlow t) as [[v rem]|] eqn:E; [cbn|done]. apply quoted_len in E. destruct (bool_decide _); [done|].
  intros [= <- <-]. pose proof (skip_len rem). lia.
Qed.

Lemma after_equals_len r r2 : after_equals r = Some r2 -> (length r2 < length r)%nat.
Proof.
  unfold after_equals. destruct r as [|c t]; [done|]. destruct c as [|q|q]; try done. do 6 (destruct q as [q|q|]; try done).
  pose proof (skip_len t). destruct (skipSpaceTab t) as [|c s]; [done|]. destruct c as [|q|q]; try done. do 6 (destruct q as [q|q|]; try done).
  intros [= <-]. cbn in *. lia.
Qed.

Lemma ref_pair_len dst rest dst' r : ref_pair dst rest = inl (dst', r) -> (length r < length rest)%nat.
Proof.
  unfold ref_pair. destruct (ref_name rest) as [[n r1]|] eqn:E1; [cbn|done]. apply ref_name_len in E1.
  destruct (after_equals r1) as [r2|] eqn:E2; [cbn|done]. apply after_equals_len in E2.
  destruct (parseQuotedSlow r2) as [[v r3]|] eqn:E3; [cbn|done]. apply quoted_len in E3.
  destruct (ref_admit dst n v); [cbn|done]. intros [= <- <-]. pose proof (comma_len (skipSpaceTab r3)). pose proof (skip_len r3). lia.
Qed.

Lemma ref_labels_fuel f1 f2 : forall dst rest, (length rest < f1)%nat -> (length rest < f2)%nat -> ref_labels_loop f1 dst rest = ref_labels_loop f2 dst rest.
Proof.
  revert f2. induction f1 as [|f1 IH]; intros [|f2] dst rest H1 H2; try lia. cbn [ref_labels_loop].
  pose proof (skip_len rest) as Hs. destruct (skipSpaceTab rest) as [|c t]; [done|].
  assert (try_ (ref_pair dst (c :: t)) (fun '(dst, rest) => ref_labels_loop f1 dst rest) =
    try_ (ref_pair dst (c :: t)) (fun '(dst, rest) => ref_labels_loop f2 dst rest)) as H.
  { destruct (ref_pair dst (c :: t)) as [[d r]|] eqn:E; [cbn|done]. apply ref_pair_len in E. apply IH; lia. }
  destruct c as [|q|q]; try exact H. do 7 (destruct q as [q|q|]; try exact H). done.
Qed.

(** Every parse ends.  The fuel the parser is given is enough on every
    body, from every state and for every callback, and the label loop reads the
    same whatever more it is given, so no answer is the fuel's. *)
Theorem parse_total : (forall W (emit : W -> Sample -> W * option Z) e body w p, is_Some (parseFrom emit e body w p)) /\
  (forall o p b rest more, warm o p -> (labels_loop (S (length rest) + more) b [] rest p).2 = (parseLabels b rest p).2).
Proof.
  split.
  - intros. apply parse_loop_total; [apply parse_buf_pos|lia].
  - intros o p b rest more Hw. apply warm_ok in Hw as [Hp _].
    rewrite (proj2 (proj2 (labels_loop_does b (S (length rest) + more) [] rest p Hp))), (proj2 (proj2 (parseLabels_does b rest p Hp))).
    unfold ref_labels. rewrite (ref_labels_fuel (S (length rest) + more) (S (length rest))) by lia. done.
Qed.

(** ** Counters *)

(** A callback that keeps what it is given and fails when [stop] says. *)
Definition record (stop : list Sample -> option Z) (w : list Sample) (s : Sample) : list Sample * option Z := (w ++ [s], stop (w ++ [s])).

Definition attributed (d : MalformedDetail) : Z := OverLongLines d + TruncatedLines d + DuplicateLabels d + TooManyLabels d.

Lemma parseComment_counts l p : detail (parseComment l p).1 = detail p /\ badExemplars (parseComment l p).1 = badExemplars p.
Proof. unfold parseComment, setMeta, declareType. repeat (break_match; try done). Qed.

Lemma ref_line_counts l p : let '(q, v) := ref_line l p in
  attributed (detail p) <= attributed (detail q) <= attributed (detail p) + (match v with Malformed => 1 | _ => 0 end) /\
  badExemplars p <= badExemplars q <= badExemplars p + (match v with Emit _ => 1 | _ => 0 end).
Proof.
  unfold ref_line.
  assert (let '(q, v) := (let '(q, ok) := parseComment (skipSpaceTab l) p in (forget q, if ok then Silent else Malformed)) in
    attributed (detail p) <= attributed (detail q) <= attributed (detail p) + (match v with Malformed => 1 | _ => 0 end) /\
    badExemplars p <= badExemplars q <= badExemplars p + (match v with Emit _ => 1 | _ => 0 end)) as H0.
  { pose proof (parseComment_counts (skipSpaceTab l) p) as [E1 E2]. destruct (parseComment _ p) as [q b]. cbn in *. rewrite E1, E2. destruct b; lia. }
  assert (forall x, let '(q, v) := (match ref_sample (openMetrics p) (exemplars p) x with
      | inr r => (charge SampleBlock r p, Malformed)
      | inl (s, bad) => (count_bad bad p, Emit (stamp (classOf p (s_name s)) s)) end) in
    attributed (detail p) <= attributed (detail q) <= attributed (detail p) + (match v with Malformed => 1 | _ => 0 end) /\
    badExemplars p <= badExemplars q <= badExemplars p + (match v with Emit _ => 1 | _ => 0 end)) as H.
  { intros x. destruct (ref_sample _ _ x) as [[s []]|[]]; unfold attributed; cbn; lia. }
  destruct (skipSpaceTab l) as [|c t]; [lia|]. destruct c as [|q|q]; try exact (H _). do 6 (destruct q as [q|q|]; try exact (H _)). exact H0.
Qed.

Lemma ref_items_counts stop e items : forall m w p, let '(q, w', m', _) := ref_items (record stop) e items m w p in
  attributed (detail p) <= attributed (detail q) <= attributed (detail p) + (m' - m) /\ badExemplars p <= badExemplars q <= badExemplars p + (len w' - len w).
Proof.
  induction items as [|i items IH]; intros m w p; cbn [ref_items]; [lia|]. destruct i as [| |l].
  - specialize (IH (m + 1) w (set_detail (d_overLong (detail p)) p)). destruct (ref_items _ _ _ _ _ _) as [[[q w'] m'] o].
    unfold attributed in *. cbn in IH. lia.
  - specialize (IH (m + 1) w (set_detail (d_truncated (detail p)) p)). destruct (ref_items _ _ _ _ _ _) as [[[q w'] m'] o].
    unfold attributed in *. cbn in IH. lia.
  - pose proof (ref_line_counts l p) as Hl. destruct (ref_line l p) as [q v]. destruct v as [| |s].
    + destruct (eof q); [lia|]. specialize (IH m w q). destruct (ref_items _ _ _ _ _ _) as [[[r w'] m'] o]. lia.
    + destruct (eof q); [lia|]. specialize (IH (m + 1) w q). destruct (ref_items _ _ _ _ _ _) as [[[r w'] m'] o]. lia.
    + unfold record at 1. assert (len (w ++ [s]) = len w + 1) as Hw by (unfold len; rewrite length_app; cbn; lia).
      destruct (stop (w ++ [s])); [lia|]. destruct (eof q); [lia|]. specialize (IH m (w ++ [s]) q).
      destruct (ref_items _ _ _ _ _ _) as [[[r w'] m'] o]. lia.
Qed.

(** The counters mean what they say.  The lines attributed to a cause never
    exceed the lines counted malformed, and the exemplars counted unusable never
    exceed the samples handed to the callback: a broken exemplar costs no sample. *)
Theorem counts_sound stop o p e body q w m out : warm o p -> parseFrom (record stop) e body [] p = Some (q, w, m, out) ->
  0 <= attributed (detail q) <= m /\ 0 <= badExemplars q <= len w.
Proof.
  intros Hw E. destruct (warm_ok o p Hw) as [H1 H2]. destruct (parse_ref (record stop) o p e body [] H1 H2) as (q' & w' & m' & o' & E' & _ & _ & R).
  rewrite E in E'. injection E' as <- <- <- <-. unfold ref_parse in R. destruct (read_items _ _ _ _ _) as [items|]; [|done].
  cbn [fmap option_fmap option_map] in R. injection R as R. pose proof (ref_items_counts stop e items 0 [] (New o)) as Hc. rewrite R in Hc. 
  change (attributed (detail (New o))) with 0 in Hc. change (badExemplars (New o)) with 0 in Hc. change (len (@nil Sample)) with 0 in Hc.
  change (detail (forget q)) with (detail q) in Hc. change (badExemplars (forget q)) with (badExemplars q) in Hc. lia.
Qed.

(** ** Concrete runs *)

Definition ex_options : Options := mkOptions 0 true true.
(** A parser that has parsed, been released and been taken out again. *)
Definition ex_text : bytes := str "# TYPE a counter" ++ [10] ++ str "a_total{b=" ++ [34] ++ str "x" ++ [34] ++ str "} 2 # {t=" ++ [34; 34] ++ str "} 1" ++ [10] ++ str "junk" ++ [10].
Definition ex_line : bytes := str "a_total{b=" ++ [34] ++ str "x" ++ [34] ++ str "} 2".
Definition ex_used : Parser := reset ex_options (release (New ex_options)).

Lemma ex_used_warm : warm ex_options ex_used.
Proof. apply (warm_reset ex_options). apply warm_release. apply warm_new. Qed.

Lemma warm_parse_exact_witness : exists q w m out, parseFrom (record (fun _ => None)) Eof ex_text [] ex_used = Some (q, w, m, out) /\
  ref_parse (record (fun _ => None)) ex_options Eof ex_text [] = Some (forget q, w, m, out).
Proof. exact (warm_parse_exact (record (fun _ => None)) ex_options ex_used Eof ex_text [] ex_used_warm). Defined.

Lemma emitted_wellformed_witness : exists s, (parseLine ex_line ex_used).2 = Emit s /\ sample_ok s /\ (s_role s, s_family s) = classify (types ex_used) (s_name s).
Proof.
  eexists. split; [vm_compute; reflexivity|]. apply (emitted_wellformed ex_options ex_used ex_line); [exact ex_used_warm|vm_compute; reflexivity].
Defined.

Lemma parse_total_witness : is_Some (parseFrom (record (fun _ => None)) Eof ex_text [] ex_used) /\
  (labels_loop 100 SampleBlock [] (str "x} 1") ex_used).2 = (parseLabels SampleBlock (str "x} 1") ex_used).2.
Proof.
  split; [exact (proj1 parse_total _ (record (fun _ => None)) Eof ex_text [] ex_used)|].
  exact (proj2 parse_total ex_options ex_used SampleBlock (str "x} 1") 95%nat ex_used_warm).
Defined.

Lemma counts_sound_witness : exists q w m out, parseFrom (record (fun _ => None)) Eof ex_text [] ex_used = Some (q, w, m, out) /\
  len w = 1 /\ m = 1 /\ 0 <= attributed (detail q) <= m /\ 0 <= badExemplars q <= len w.
Proof.
  eexists _, _, _, _. split; [vm_compute; reflexivity|]. split; [reflexivity|]. split; [reflexivity|].
  apply (counts_sound (fun _ => None) ex_options ex_used Eof ex_text _ _ _ Finished ex_used_warm). vm_compute. reflexivity.
Defined.
