(* ===== verification/PromText.v ===== *)
(** * Lines, cut bodies and the text form

    How a physical line becomes an item, what a body that ends mid-stream
    yields, and the round trip of the text format: what is written with its
    escapes is read back. *)

From S2P Require Import Prelude Clip Number Promparse PromSpec PromSafe.
Local Open Scope Z_scope.

(** ** Trailing line ends *)

Lemma trimEOL_len s : len (trimEOL s) <= len s.
Proof. unfold len. induction s as [|c s IH]; cbn; [lia|]. destruct (trimEOL s); [destruct (isEOL c)|]; cbn in *; lia. Qed.

Lemma trimEOL_snoc s c : isEOL c = true -> trimEOL (s ++ [c]) = trimEOL s.
Proof. intros Hc. induction s as [|d s IH]; cbn; [by rewrite Hc|]. by rewrite IH. Qed.

Lemma trimEOL_keep s c : isEOL c = false -> trimEOL (s ++ [c]) = s ++ [c].
Proof. intros Hc. induction s as [|d s IH]; cbn; [by rewrite Hc|]. rewrite IH. by destruct s. Qed.

Lemma trimEOL_app_len a b : len (trimEOL (a ++ b)) <= len a + len (trimEOL b).
Proof.
  unfold len. induction a as [|c a IH]; cbn [app trimEOL length]; [lia|].
  destruct (trimEOL (a ++ b)); [destruct (isEOL c)|]; cbn [length] in *; lia.
Qed.

(** ** One physical line *)

Lemma ReadSlice_line buf e l r : 10 ∉ l -> ReadSlice buf e (l ++ 10 :: r) =
  if decide (length l < buf)%nat then (l ++ [10], NoErr, r) else (take buf l, BufferFull, drop buf l ++ 10 :: r).
Proof.
  intros Hl. unfold ReadSlice. destruct (decide (length l < buf)%nat).
  - rewrite take_app. rewrite take_ge by lia. destruct (buf - length l)%nat as [|k] eqn:E; [lia|]. cbn [take].
    rewrite cut_app by done. do 2 f_equal. replace (S (length l)) with (length (l ++ [10])) by (rewrite length_app; cbn; lia).
    change (10 :: r) with ([10] ++ r). rewrite app_assoc. by rewrite drop_app_length.
  - rewrite take_app_le by lia. destruct (cut 10 (take buf l)) as [[a b]|] eqn:E.
    { apply cut_Some in E as [E _]. exfalso. apply Hl. apply (elem_of_sublist (take buf l)); [|apply sublist_take]. rewrite E. apply elem_of_app. right. by left. }
    rewrite decide_True by (rewrite length_app; cbn; lia). by rewrite drop_app_le by lia.
Qed.

Lemma ReadSlice_end buf e l : 10 ∉ l -> ReadSlice buf e l = if decide (length l < buf)%nat then (l, Ended e, []) else (take buf l, BufferFull, drop buf l).
Proof.
  intros Hl. unfold ReadSlice. destruct (cut 10 (take buf l)) as [[a b]|] eqn:E.
  { apply cut_Some in E as [E _]. exfalso. apply Hl. apply (elem_of_sublist (take buf l)); [|apply sublist_take]. rewrite E. apply elem_of_app. right. by left. }
  destruct (decide (buf <= length l)%nat), (decide (length l < buf)%nat); try lia; done.
Qed.

Lemma not_elem_drop n (l : bytes) : 10 ∉ l -> 10 ∉ drop n l.
Proof. intros Hl Hin. apply Hl. apply (elem_of_sublist (drop n l)); [done|apply sublist_drop]. Qed.

(** A terminated line, part of it perhaps in the scratch buffer already. *)
Lemma readLine_line buf max : (0 < buf)%nat -> forall n l scratch tl, (length l < n)%nat -> 10 ∉ l ->
  exists a t, (forall fuel e r, (length l < fuel)%nat -> readLine_loop fuel buf max e scratch tl (l ++ 10 :: r) = Some (a, t, None, r)) /\
    (t = true -> a = []) /\ (t = false -> a = trimEOL (scratch ++ l)) /\ (tl = true -> t = true) /\
    (tl = false -> len (scratch ++ l) <= max -> t = false) /\ (max < len (trimEOL (scratch ++ l)) -> t = true) /\
    (tl = false -> scratch = [] -> (length l < buf)%nat -> len (trimEOL l) <= max -> t = false).
Proof.
  intros Hb n. induction n as [|n IH]; intros l scratch tl Hn Hl; [lia|]. destruct (decide (length l < buf)%nat) as [Hlt|Hge].
  - pose proof (trimEOL_app_len scratch l) as Htr. pose proof (trimEOL_len l) as Htl.
    assert (len (scratch ++ l) = len scratch + len l) as Hlen by (unfold len; rewrite length_app; lia).
    destruct (negb tl && bool_decide (scratch = [])) eqn:Ef.
    + apply andb_true_iff in Ef as [E1 E2]. bool_norm. subst tl scratch. cbn [app] in *.
      exists (if len (trimEOL l) <=? max then trimEOL l else []), (negb (len (trimEOL l) <=? max)). split.
      * intros fuel e r Hf. destruct fuel as [|fuel]; [lia|]. cbn [readLine_loop]. rewrite ReadSlice_line, decide_True by done.
        cbn [negb andb]. rewrite bool_decide_eq_true_2 by done. rewrite trimEOL_snoc by done. by destruct (_ <=? max).
      * destruct (len (trimEOL l) <=? max) eqn:E; bool_norm; cbn; repeat split; try done; try lia.
    + set (fits := len scratch + len (trimEOL l) <=? max).
      exists (if tl || negb fits then [] else trimEOL (scratch ++ l)), (tl || negb fits). split.
      * intros fuel e r Hf. destruct fuel as [|fuel]; [lia|]. cbn [readLine_loop]. rewrite ReadSlice_line, decide_True by done. rewrite Ef.
        rewrite (trimEOL_snoc l 10) by done. fold fits. destruct (tl || negb fits) eqn:Et; [done|].
        apply orb_false_iff in Et as [_ Et]. bool_norm. rewrite Et. by rewrite app_assoc, trimEOL_snoc.
      * unfold fits. destruct tl; cbn [orb].
        { repeat split; try done. }
        destruct (len scratch + len (trimEOL l) <=? max) eqn:E; bool_norm; cbn [negb]; repeat split; try done; try lia.
        intros _ -> . bool_norm. by rewrite bool_decide_eq_true_2 in Ef.
  - assert (length (take buf l) = buf) as Htk by (rewrite length_take; lia).
    set (fits := len scratch + len (take buf l) <=? max).
    destruct (IH (drop buf l) (if fits then scratch ++ take buf l else scratch) (tl || negb fits)) as (a & t & H1 & H2 & H3 & H4 & H5 & H6 & _);
      [rewrite length_drop; lia|by apply not_elem_drop|].
    exists a, t. split; [|split; [done|]].
    + intros fuel e r Hf. destruct fuel as [|fuel]; [lia|]. cbn [readLine_loop]. rewrite ReadSlice_line, decide_False by (done || lia).
      fold fits. apply H1. rewrite length_drop. lia.
    + assert (fits = true -> (scratch ++ take buf l) ++ drop buf l = scratch ++ l) as Ecat by (intros _; rewrite <- app_assoc, take_drop; done).
      assert (len (scratch ++ l) = len scratch + len (take buf l) + len (drop buf l)) as Hlen.
      { rewrite <- (take_drop buf l) at 1. unfold len. rewrite !length_app. lia. }
      assert (0 <= len (drop buf l)) as Hpos by (unfold len; lia).
      destruct fits eqn:E; unfold fits in E; bool_norm.
      * rewrite orb_false_r in *. rewrite Ecat in * by done. repeat split; try done.
      * rewrite orb_true_r in *. specialize (H4 eq_refl). subst t. repeat split; try done; try lia.
Qed.

(** The bytes after the last newline. *)
Lemma readLine_end buf max e : (0 < buf)%nat -> forall n l scratch tl fuel, (length l < n)%nat -> (length l < fuel)%nat -> 10 ∉ l ->
  readLine_loop fuel buf max e scratch tl l =
    Some (if tl || (max <? len (scratch ++ l)) then ([], true, Some e, []) else (trimEOL (scratch ++ l), false, Some e, [])).
Proof.
  intros Hb n. induction n as [|n IH]; intros l scratch tl fuel Hn Hf Hl; [lia|]. destruct fuel as [|fuel]; [lia|].
  assert (forall k, len (scratch ++ k) = len scratch + len k) as Hlen by (intros; unfold len; rewrite length_app; lia).
  cbn [readLine_loop]. rewrite ReadSlice_end by done. destruct (decide (length l < buf)%nat) as [Hlt|Hge].
  - rewrite Hlen. assert ((max <? len scratch + len l) = negb (len scratch + len l <=? max)) as -> by (destruct (_ <=? max) eqn:E; bool_norm; [apply Z.ltb_ge|apply Z.ltb_lt]; lia).
    destruct (tl || negb (len scratch + len l <=? max)) eqn:E; [done|]. apply orb_false_iff in E as [-> E]. bool_norm. by rewrite (proj2 (Z.leb_le _ _) E).
  - assert (length (take buf l) = buf) as Htk by (rewrite length_take; lia).
    rewrite IH; [|rewrite length_drop; lia..|by apply not_elem_drop]. 
    assert (len l = len (take buf l) + len (drop buf l)) as Hll by (unfold len; rewrite length_take, length_drop; lia).
    assert (0 <= len (drop buf l)) as Hpos by (unfold len; lia). rewrite Hlen, Hll.
    destruct (len scratch + len (take buf l) <=? max) eqn:E; bool_norm.
    + rewrite orb_false_r, <- app_assoc, take_drop. rewrite Hlen, Hll. done.
    + rewrite orb_true_r. cbn [orb]. rewrite (proj2 (Z.ltb_lt _ _)) by lia. by rewrite orb_true_r.
Qed.

Definition line_item (buf : nat) (max : Z) (e : ending) (body : bytes) : option (bytes * bool * option ending * bytes) :=
  readLine_loop (S (length body)) buf max e [] false body.

(** The line bound is on the line.  A terminated line is returned whole but
    for its line end when it has at most [maxLineBytes] bytes, and refused when
    it has more even without its line end, wherever the read buffer's edges fall;
    a line that fits the buffer is settled by its length without the line end,
    and an unterminated last line by its length. *)
Theorem line_bound buf max e l rest : (0 < buf)%nat -> 10 ∉ l ->
  (exists line tooLong, line_item buf max e (l ++ 10 :: rest) = Some (line, tooLong, None, rest) /\
    (tooLong = false -> line = trimEOL l) /\ (tooLong = true -> line = []) /\
    (len l <= max -> tooLong = false) /\ (max < len (trimEOL l) -> tooLong = true) /\
    ((length l < buf)%nat -> tooLong = false <-> len (trimEOL l) <= max)) /\
  line_item buf max e l = Some (if max <? len l then ([], true, Some e, []) else (trimEOL l, false, Some e, [])).
Proof.
  intros Hb Hl. split; [|apply (readLine_end buf max e Hb (S (length l))); [lia|lia|done]].
  destruct (readLine_line buf max Hb (S (length l)) l [] false) as (a & t & H1 & H2 & H3 & _ & H5 & H6 & H7); [lia|done|].
  exists a, t. split; [apply H1; rewrite length_app; cbn; lia|]. cbn [app] in *. split; [done|]. split; [done|]. split; [by apply H5|]. split; [done|].
  intros Hlt. split; [|by apply H7]. intros ->. destruct (decide (len (trimEOL l) <= max)) as [|Hgt]; [done|]. by specialize (H6 ltac:(lia)).
Qed.

Lemma line_bound_witness : line_item 4 5 Eof ([97; 98; 99; 100; 101; 13] ++ 10 :: [98]) = Some ([97; 98; 99; 100; 101], false, None, [98]) /\
  line_item 4 5 Eof [97; 98; 99; 100; 101; 102] = Some ([], true, Some Eof, []).
Proof.
  split; [reflexivity|]. refine (proj2 (line_bound 4 5 Eof [97; 98; 99; 100; 101; 102] [] (Nat.lt_0_succ 3) _)).
  apply (bool_decide_unpack _). vm_compute. exact I.
Defined.

(** The exception is real: with a line end of two bytes split by the edge of the
    read buffer, the first of them is charged to the line, so a line of exactly
    the bound is refused there and accepted one byte further along. *)
Example crlf_at_the_edge : let l := repeat 97 4095 ++ [13] in
  (exists r, line_item 4096 4095 Eof (l ++ [10]) = Some ([], true, None, r)) /\
  (exists r, line_item 4097 4095 Eof (l ++ [10]) = Some (repeat 97 4095, false, None, r)).
Proof. split; eexists; vm_compute; reflexivity. Qed.

(** ** Bodies of whole lines *)

Definition unlines (ls : list bytes) : bytes := concat ((fun l => l ++ [10]) <$> ls).

(** Whole lines make the same items whatever follows them and however the body ends. *)
Lemma read_items_lines buf max : (0 < buf)%nat -> forall ls, Forall (fun l => 10 ∉ l) ls -> exists items,
  (forall fuel e rest, (length (unlines ls ++ rest) < fuel)%nat -> exists fuel', (length rest < fuel')%nat /\
    read_items fuel buf max e (unlines ls ++ rest) = (fun l => items ++ l) <$> read_items fuel' buf max e rest) /\
  (Forall (fun l => len l <= max /\ trimEOL l <> []) ls -> items = (fun l => Line (trimEOL l)) <$> ls) /\
  Cut ∉ items.
Proof.
  intros Hb ls. induction ls as [|l ls IH]; intros Hls.
  - exists []. split; [|split; [done|by apply not_elem_of_nil]]. intros fuel e rest Hf. exists fuel. split; [exact Hf|]. cbn.
    by destruct (read_items fuel buf max e rest).
  - apply Forall_cons in Hls as [Hl Hls]. destruct (IH Hls) as (items & I1 & I2 & I3).
    destruct (readLine_line buf max Hb (S (length l)) l [] false) as (a & t & R1 & _ & R2 & _ & R3 & _ & _); [lia|done|]. cbn [app] in *.
    exists (read_item a t None ++ items). split; [|split].
    + intros fuel e rest Hf. assert (unlines (l :: ls) ++ rest = l ++ 10 :: (unlines ls ++ rest)) as E.
      { unfold unlines. cbn. by rewrite <- !app_assoc. }
      rewrite E in Hf |- *. destruct fuel as [|fuel]; [lia|]. cbn [read_items]. rewrite R1 by (rewrite length_app; cbn; lia).
      destruct (I1 fuel e rest) as (fuel' & F1 & ->); [rewrite length_app in Hf; cbn in Hf; lia|]. exists fuel'. split; [done|].
      destruct (read_items fuel' buf max e rest); [|done]. cbn. by rewrite app_assoc.
    + intros [[H1 H2] H3]%Forall_cons. rewrite (I2 H3). specialize (R3 eq_refl H1). subst t. rewrite (R2 eq_refl).
      unfold read_item. by rewrite bool_decide_eq_false_2.
    + rewrite not_elem_of_app. split; [|done]. unfold read_item. destruct t; [|destruct (bool_decide _)];
        rewrite ?list_elem_of_singleton; try done. apply not_elem_of_nil.
Qed.

Section Cut.
Context {W : Type} (emit : W -> Sample -> W * option Z).

Lemma ref_items_app x items tl : forall m w p, eof p = false ->
  ref_items emit (ReadErr x) (items ++ tl) m w p =
  let '(q, w', m', out) := ref_items emit Eof items m w p in
  match out with Finished => if eof q then (q, w', m', out) else ref_items emit (ReadErr x) tl m' w' q | _ => (q, w', m', out) end.
Proof.
  induction items as [|i items IH]; intros m w p Hp; cbn [app ref_items outcome_of]; [by rewrite Hp|].
  destruct i as [| |l]; [by rewrite IH..|]. destruct (ref_line l p) as [q v]. destruct v as [| |s].
  - destruct (eof q) eqn:E; [by rewrite E|by apply IH].
  - destruct (eof q) eqn:E; [by rewrite E|by apply IH].
  - destruct (emit w s) as [w1 [y|]]; [done|]. destruct (eof q) eqn:E; [by rewrite E|by apply IH].
Qed.
End Cut.

Lemma max_pos o : (normLineBytes (MaxLineBytes o) <? len (@nil Z)) = false.
Proof.
  apply Z.ltb_ge. unfold normLineBytes, DefaultMaxLineBytes. destruct (_ <=? 0) eqn:Em; bool_norm; unfold len; cbn [length]; lia.
Qed.

Lemma quad_tail {A B C D} (a a' : A) (b b' : B) (c c' : C) (d d' : D) : (a, b, c, d) = (a', b', c', d') -> b = b' /\ c = c' /\ d = d'.
Proof. by intros [= _ -> -> ->]. Qed.

(** A body cut mid-stream yields what its whole lines yield.  When the read
    fails after some whole lines and part of another, the callback is given
    exactly the samples of the whole lines, the partial line is at most counted
    malformed, and the read error is returned unless the exposition had already
    ended: by its terminator or by the callback's own error. *)
Theorem cut_short {W} (emit : W -> Sample -> W * option Z) o p x ls partial w : warm o p ->
  Forall (fun l => 10 ∉ l) ls -> 10 ∉ partial ->
  exists q w' m out q2 m2, parseFrom emit Eof (unlines ls) w p = Some (q, w', m, out) /\
    parseFrom emit (ReadErr x) (unlines ls ++ partial) w p =
      Some (q2, w', m2, match out with Finished => if eof q then Finished else BodyError x | _ => out end) /\
    m <= m2 <= m + 1.
Proof.
  intros Hw Hls Hpart. destruct (warm_ok o p Hw) as [H1 H2]. set (max := normLineBytes (MaxLineBytes o)).
  destruct (read_items_lines parseBufSize max parse_buf_pos ls Hls) as (items & I1 & _).
  destruct (parse_ref emit o p Eof (unlines ls) w H1 H2) as (q & w' & m & out & E & _ & _ & R).
  destruct (parse_ref emit o p (ReadErr x) (unlines ls ++ partial) w H1 H2) as (q2 & w2 & m2 & out2 & E2 & _ & _ & R2).
  unfold ref_parse in R, R2. fold max in R, R2.
  destruct (I1 (S (length (unlines ls))) Eof []) as (f1 & F1 & G1); [rewrite app_nil_r; lia|]. rewrite app_nil_r in G1. rewrite G1 in R.
  destruct (I1 (S (length (unlines ls ++ partial))) (ReadErr x) partial) as (f2 & F2 & G2); [lia|]. rewrite G2 in R2.
  destruct f1 as [|f1]; [lia|]. destruct f2 as [|f2]; [lia|]. cbn [read_items] in R, R2.
  rewrite (readLine_end parseBufSize max Eof parse_buf_pos 1) in R; [|cbn; lia|cbn; lia|apply not_elem_of_nil].
  rewrite (readLine_end parseBufSize max (ReadErr x) parse_buf_pos (S (length partial))) in R2; [|lia|lia|done].
  cbn [app orb] in R, R2. pose proof (max_pos o) as Hmax. fold max in Hmax.
  rewrite Hmax in R. cbn in R. rewrite app_nil_r in R. injection R as R.
  assert (exists tl, ref_items emit (ReadErr x) (items ++ tl) 0 w (New o) = (forget q2, w2, m2, out2) /\ (tl = [] \/ tl = [Cut] \/ tl = [OverLong])) as (tl & R2' & Htl).
  { destruct (max <? len partial); cbn in R2; injection R2 as R2; [exists [OverLong]; split; [exact R2|tauto]|].
    unfold read_item in R2. destruct (bool_decide (trimEOL partial = [])); [exists []|exists [Cut]]; (split; [exact R2|tauto]). }
  rewrite (ref_items_app emit x items tl 0 w (New o) eq_refl), R in R2'. change (eof (forget q)) with (eof q) in R2'.
  exists q, w', m, out, q2, m2. split; [exact E|]. rewrite E2.
  destruct out as [|y|y]; [destruct (eof q)|..]; try (apply quad_tail in R2' as (<- & <- & <-); split; [done|lia]).
  destruct Htl as [->|[->| ->]]; cbn [ref_items outcome_of] in R2'; apply quad_tail in R2' as (<- & <- & <-); (split; [done|lia]).
Qed.

(** ** Writing the text form *)

Definition escape (v : bytes) : bytes :=
  concat ((fun c => if c =? 10 then [92; 110] else if (c =? 92) || (c =? 34) then [92; c] else [c]) <$> v).

Definition print_label (l : Label) : bytes := l_name l ++ 61 :: 34 :: escape (l_value l) ++ [34].

Fixpoint print_labels (ls : list Label) : bytes :=
  match ls with [] => [] | [l] => print_label l | l :: ls => print_label l ++ 44 :: print_labels ls end.

(** One classic sample line; [tok] is the value's text. *)
Definition print_sample (s : Sample) (tok : bytes) : bytes :=
  s_name s ++ 123 :: print_labels (s_labels s) ++ 125 :: 32 :: tok ++ (if decide (s_ts s = 0) then [] else 32 :: FormatInt (s_ts s)).

Definition plain (c : Z) : bool := negb (blank c) && negb (isEOL c).
Definition starts_with (c : Z) (s : bytes) : Prop := head s = Some c.

(** A label name that needs no quotes. *)
Definition bare_label (n : bytes) : Prop := n <> [] /\ all_chars name_char n /\ 10 ∉ n /\ head n <> Some 34 /\ head n <> Some 125.

(** What the classic format can say of an undeclared family. *)
Record printable (s : Sample) (tok : bytes) : Prop := {
  pr_name : s_name s <> [] /\ all_chars metric_char (s_name s) /\ 10 ∉ s_name s /\ head (s_name s) <> Some 35;
  pr_labels : labels_ok (s_labels s) /\ Forall (fun l => bare_label (l_name l)) (s_labels s);
  pr_value : ParseFloat tok = Some (s_value s) /\ tok <> [] /\ all_chars plain tok /\ goOnlyFloatSyntax tok = false;
  pr_time : min_int64 <= s_ts s <= max_int64;
  pr_rest : s = stamp (mkClass (s_name s) (s_name s) [] [] RoleGauge) (bare_sample (s_name s) (s_labels s) (s_value s) (s_ts s) None) }.

Lemma quoted_escape v r : forall acc, quoted_slow acc (escape v ++ 34 :: r) = Some (acc ++ v, r).
Proof.
  unfold escape. induction v as [|c v IH]; intros acc; [cbn; by rewrite app_nil_r|]. cbn [fmap list_fmap concat]. rewrite <- app_assoc.
  destruct (c =? 10) eqn:E1; bool_norm; [subst c; cbn; rewrite IH; by rewrite <- app_assoc|].
  destruct ((c =? 92) || (c =? 34)) eqn:E2.
  - cbn [app quoted_slow]. change (92 =? 34) with false. change (92 =? 92) with true. cbv iota. rewrite IH.
    assert (writeUnescaped c = [c]) as ->; [|by rewrite <- app_assoc]. apply orb_true_iff in E2 as [E2|E2]; bool_norm; by subst c.
  - apply orb_false_iff in E2 as [E2 E3]. cbn [app quoted_slow]. rewrite E3, E2, IH. by rewrite <- app_assoc.
Qed.

Lemma skip_name q (n : bytes) r : (forall c, q c = true -> blank c = false) -> n <> [] -> all_chars q n -> skipSpaceTab (n ++ r) = n ++ r.
Proof. intros Hq. destruct n as [|c n]; [done|]. intros _ [Hc _]%Forall_cons. cbn. by rewrite (Hq c Hc). Qed.

Lemma name_char_blank c : name_char c = true -> blank c = false.
Proof. unfold name_char. intros H. bool_norm. done. Qed.
Lemma metric_char_blank c : metric_char c = true -> blank c = false.
Proof. unfold metric_char. intros H. bool_norm. done. Qed.

Lemma ref_name_bare n r : bare_label n -> ref_name (n ++ 61 :: r) = inl (n, 61 :: r).
Proof.
  intros (H1 & H2 & _ & H3 & _). unfold ref_name. rewrite (span_app name_char n (61 :: r) H2) by done. rewrite bool_decide_eq_false_2 by done.
  destruct n as [|c n]; [done|]. cbn [app]. destruct c as [|q|q]; try done. do 6 (destruct q as [q|q|]; try done).
Qed.

Lemma ref_pair_print dst l r : bare_label (l_name l) -> (l_name l ∉ l_name <$> dst) -> len dst < MaxLabelsPerSample ->
  ref_pair dst (print_label l ++ r) = inl (dst ++ [l], skipComma (skipSpaceTab r)).
Proof.
  intros Hb Hd Hm. unfold ref_pair, print_label. rewrite <- app_assoc. cbn [app]. rewrite ref_name_bare by done. cbn [try_ after_equals skipSpaceTab].
  change (blank 34) with false. cbv iota. cbn [or_bad try_]. unfold parseQuotedSlow. rewrite <- !app_assoc. cbn [app]. rewrite quoted_escape. cbn [or_bad try_ app].
  unfold ref_admit. rewrite (proj2 (Z.leb_gt _ _)) by done. rewrite bool_decide_eq_false_2 by done. cbn [try_]. by destruct l.
Qed.

Lemma loop_step fuel dst rest : (match skipSpaceTab rest with [] => False | c :: _ => c <> 125 end) ->
  ref_labels_loop (S fuel) dst rest = try_ (ref_pair dst (skipSpaceTab rest)) (fun '(dst, rest) => ref_labels_loop fuel dst rest).
Proof.
  intros H. cbn [ref_labels_loop]. destruct (skipSpaceTab rest) as [|c t]; [done|].
  destruct c as [|q|q]; try done. do 7 (destruct q as [q|q|]; try done).
Qed.

Lemma ref_labels_print ls r : forall fuel dst, Forall (fun l => bare_label (l_name l)) ls -> labels_ok (dst ++ ls) ->
  (length ls < fuel)%nat -> ref_labels_loop fuel dst (print_labels ls ++ 125 :: r) = inl (dst ++ ls, r).
Proof.
  induction ls as [|l ls IH]; intros fuel dst Hb Hok Hf; (destruct fuel as [|fuel]; [cbn in Hf; lia|]); [cbn; by rewrite app_nil_r|].
  apply Forall_cons in Hb as [Hl Hb]. pose proof Hl as (B1 & B2 & _ & _ & B3).
  assert (skipSpaceTab (print_labels (l :: ls) ++ 125 :: r) = print_labels (l :: ls) ++ 125 :: r /\
    (match print_labels (l :: ls) ++ 125 :: r with [] => False | c :: _ => c <> 125 end)) as [Hs Hh].
  { assert (exists t, print_labels (l :: ls) ++ 125 :: r = l_name l ++ t) as [t ->].
    { unfold print_labels. fold print_labels. unfold print_label. destruct ls; rewrite <- ?app_assoc; by eexists. }
    split; [by apply (skip_name name_char); [apply name_char_blank|..]|]. destruct (l_name l) as [|c n]; [done|]. intros ->. done. }
  rewrite loop_step by (by rewrite Hs). rewrite Hs. destruct Hok as [N1 N2].
  assert (l_name l ∉ l_name <$> dst /\ len dst < MaxLabelsPerSample) as [D1 D2].
  { rewrite fmap_app in N1. apply NoDup_app in N1 as (_ & N1 & _). split.
    - intros Hin. apply (N1 _ Hin). by left.
    - unfold len in *. rewrite length_app in N2. cbn in N2. lia. }
  assert (labels_ok ((dst ++ [l]) ++ ls)) as Hok' by (rewrite <- app_assoc; by split).
  cbn in Hf. destruct ls as [|l2 ls].
  - cbn [print_labels]. rewrite ref_pair_print by done. cbn [try_ skipSpaceTab skipComma]. change (blank 125) with false. cbv iota.
    cbn [skipComma]. destruct fuel as [|fuel]; [cbn in Hf; lia|]. done.
  - change (print_labels (l :: l2 :: ls)) with (print_label l ++ 44 :: print_labels (l2 :: ls)). rewrite <- app_assoc, ref_pair_print by done.
    cbn [try_ app skipSpaceTab]. change (blank 44) with false. cbv iota. cbn [skipComma].
    rewrite IH; [by rewrite <- app_assoc|done|done|cbn in *; lia].
Qed.

Lemma digit_plain c : isDigit c = true -> plain c = true.
Proof.
  intros H. apply isDigit_range in H. unfold plain, blank, isEOL. rewrite !(proj2 (Z.eqb_neq _ _)) by lia. done.
Qed.

Lemma FormatInt_plain n : min_int64 <= n <= max_int64 -> FormatInt n <> [] /\ all_chars plain (FormatInt n) /\ goOnlyFloatSyntax (FormatInt n) = false /\
  head (FormatInt n) <> Some 35.
Proof.
  intros Hn. unfold FormatInt. assert (Z.abs n < 10 ^ Z.of_nat 20) as Hr by (unfold min_int64, max_int64 in Hn; lia).
  assert (forall m, 0 <= m < 10 ^ Z.of_nat 20 -> decimal_digits 20 m <> [] /\ all_chars plain (decimal_digits 20 m) /\
    goOnlyFloatSyntax (decimal_digits 20 m) = false /\ head (decimal_digits 20 m) <> Some 35) as Hd.
  { intros m Hm. destruct (decimal_digits_spec 20 m Hm) as (D1 & D2 & _); [lia|]. split; [done|]. split; [|split].
    - eapply Forall_impl; [exact D2|]. apply digit_plain.
    - clear D1. unfold goOnlyFloatSyntax. induction D2 as [|c l Hc _ IH]; [done|]. cbn. apply isDigit_range in Hc.
      rewrite !(proj2 (Z.eqb_neq _ _)) by lia. exact IH.
    - destruct (decimal_digits 20 m) as [|c l]; [done|]. apply Forall_cons in D2 as [D2 _]. apply isDigit_range in D2. intros [= ->]. lia. }
  destruct (n <? 0) eqn:E; bool_norm; [|apply Hd; lia].
  destruct (Hd (- n)) as (D1 & D2 & D3 & D4); [lia|]. split; [done|]. split; [by constructor|]. split; [exact D3|done].
Qed.

Lemma skip_plain t r : t <> [] -> all_chars plain t -> skipSpaceTab (t ++ r) = t ++ r.
Proof. apply (skip_name plain). intros c. unfold plain. intros H. by bool_norm. Qed.

Lemma field_plain t r : t <> [] -> all_chars plain t -> (match r with c :: _ => blank c = true | [] => True end) -> nextField (t ++ r) = (t, r).
Proof.
  intros Ht Ha Hr. unfold nextField. rewrite skip_plain by done. apply span_app.
  - eapply Forall_impl; [exact Ha|]. intros c. unfold plain. intros H. bool_norm. by rewrite H.
  - destruct r; [done|]. by rewrite Hr.
Qed.

Lemma value_print v tok ts : ParseFloat tok = Some v -> tok <> [] -> all_chars plain tok -> goOnlyFloatSyntax tok = false -> min_int64 <= ts <= max_int64 ->
  value_and_time false (32 :: tok ++ (if decide (ts = 0) then [] else 32 :: FormatInt ts)) = Some (v, ts, []).
Proof.
  intros Hv Ht Ha Hg Hts. unfold value_and_time, parseFloatToken.
  assert (forall r, nextField (32 :: r) = nextField r) as Hn by done. rewrite Hn. rewrite field_plain; [|done|done|by destruct (decide _)].
  rewrite bool_decide_eq_false_2, Hg by done. cbn [orb]. rewrite Hv. cbn. destruct (decide (ts = 0)) as [->|Hne]; [done|].
  destruct (FormatInt_plain ts Hts) as (F1 & F2 & F3 & F4). cbn [skipSpaceTab]. change (blank 32) with true. cbv iota.
  rewrite <- (app_nil_r (FormatInt ts)), skip_plain by done.
  assert (parseTimestampToken false (FormatInt ts ++ []) = Some (ts, [])) as Hp.
  { unfold parseTimestampToken. rewrite field_plain by done. rewrite bool_decide_eq_false_2, F3 by done. cbn [orb]. by rewrite ParseInt_FormatInt. }
  destruct (FormatInt ts ++ []) as [|c t] eqn:Ef; [by destruct (FormatInt ts)|].
  assert (c <> 35) as Hc by (destruct (FormatInt ts); [done|]; injection Ef as -> _; intros ->; done).
  assert (('(ts0, rest) ← parseTimestampToken false (c :: t); Some (v, ts0, skipSpaceTab rest)) = Some (v, ts, [])) as H by (by rewrite Hp).
  clear Hp Ef. destruct c as [|q|q]; try exact H. do 6 (destruct q as [q|q|]; try exact H). done.
Qed.

Lemma sample_print s tok : printable s tok -> exists s0, ref_sample false false (print_sample s tok) = inl (s0, false) /\
  s_name s0 = s_name s /\ s = stamp (mkClass (s_name s) (s_name s) [] [] RoleGauge) s0.
Proof.
  intros [(N1 & N2 & N3 & N4) [L1 L2] (V1 & V2 & V3 & V4) T R]. exists (bare_sample (s_name s) (s_labels s) (s_value s) (s_ts s) None).
  split; [|done]. unfold ref_sample, print_sample. rewrite span_app by done. rewrite bool_decide_eq_false_2 by done.
  unfold ref_after_name. cbn [negb andb head]. rewrite bool_decide_eq_true_2 by done. cbn [negb].
  unfold ref_labels. rewrite (ref_labels_print _ _ _ [] L2 L1).
  - cbn [try_ app]. unfold ref_finish. by rewrite (value_print (s_value s)).
  - rewrite length_app. cbn. assert (length (s_labels s) <= length (print_labels (s_labels s)))%nat; [|lia]. clear.
    induction (s_labels s) as [|l ls IH]; [done|]. destruct ls as [|l2 ls].
    + cbn. unfold print_label. rewrite !length_app. cbn. lia.
    + change (print_labels (l :: l2 :: ls)) with (print_label l ++ 44 :: print_labels (l2 :: ls)). rewrite length_app. cbn [length] in *. lia.
Qed.

Lemma classify_undeclared name : classify ∅ name = (RoleGauge, name).
Proof.
  unfold classify. rewrite lookup_empty. unfold by_suffix, typed.
  repeat (destruct (CutSuffix name _); [rewrite lookup_empty; cbn|]); done.
Qed.

Lemma print_line_item s tok : printable s tok -> 10 ∉ print_sample s tok /\ trimEOL (print_sample s tok) = print_sample s tok /\ print_sample s tok <> [].
Proof.
  intros [(N1 & N2 & N3 & N4) [L1 L2] (V1 & V2 & V3 & V4) T R].
  assert (forall t, all_chars plain t -> 10 ∉ t) as Hpl by (intros t Ht Hin; eapply Forall_forall in Ht; [|exact Hin]; done).
  destruct (FormatInt_plain _ T) as (F1 & F2 & _).
  assert (10 ∉ print_labels (s_labels s)) as Hlab.
  { clear -L2. assert (forall l, bare_label (l_name l) -> 10 ∉ print_label l) as Hone.
    { intros l (_ & _ & Hl & _). unfold print_label. rewrite not_elem_of_app, !not_elem_of_cons, not_elem_of_app, list_elem_of_singleton.
      assert (10 ∉ escape (l_value l)); [|by repeat split]. unfold escape. induction (l_value l) as [|c v IH]; [apply not_elem_of_nil|]. cbn.
      rewrite not_elem_of_app. split; [|done]. destruct (c =? 10) eqn:E1; bool_norm; [|destruct (_ || _)]; rewrite ?not_elem_of_cons, ?list_elem_of_singleton; repeat split; try done; try lia; apply not_elem_of_nil. }
    induction L2 as [|l ls Hl Hls IH]; [apply not_elem_of_nil|]. destruct ls as [|l2 ls]; [by apply Hone|].
    change (print_labels (l :: l2 :: ls)) with (print_label l ++ 44 :: print_labels (l2 :: ls)). rewrite not_elem_of_app, not_elem_of_cons. auto. }
  assert (exists a c, print_sample s tok = a ++ [c] /\ isEOL c = false) as (a & c & E & Ec).
  { assert (forall t, t <> [] -> all_chars plain t -> exists a c, t = a ++ [c] /\ isEOL c = false) as Hlast.
    { intros t Ht Ha. destruct (exists_last Ht) as (a & c & ->). exists a, c. split; [done|]. apply Forall_app in Ha as [_ Ha].
      apply Forall_cons in Ha as [Ha _]. unfold plain in Ha. by bool_norm. }
    unfold print_sample. destruct (decide (s_ts s = 0)) as [_|_].
    - destruct (Hlast tok V2 V3) as (a & c & -> & Hc). exists (s_name s ++ 123 :: print_labels (s_labels s) ++ 125 :: 32 :: a), c.
      split; [|done]. rewrite app_nil_r. rewrite <- !app_assoc. cbn. by rewrite <- !app_assoc.
    - destruct (Hlast (FormatInt (s_ts s)) F1 F2) as (a & c & Ef & Hc). exists (s_name s ++ 123 :: print_labels (s_labels s) ++ 125 :: 32 :: tok ++ 32 :: a), c.
      split; [|done]. rewrite Ef. rewrite <- !app_assoc. cbn. rewrite <- !app_assoc. cbn. by rewrite <- !app_assoc. }
  split; [|split].
  - unfold print_sample. rewrite not_elem_of_app, not_elem_of_cons, not_elem_of_app, !not_elem_of_cons, not_elem_of_app.
    split; [done|]. split; [done|]. split; [done|]. split; [done|]. split; [done|]. split; [by apply Hpl|].
    destruct (decide _); [apply not_elem_of_nil|]. rewrite not_elem_of_cons. split; [done|by apply Hpl].
  - by rewrite E, trimEOL_keep.
  - unfold print_sample. by destruct (s_name s).
Qed.

(** C29: what is written is read.  Any samples the classic format can express —
    label values of any bytes, escaped — written one per line, are read back by a
    warm parser as exactly those samples, in order, with nothing malformed. *)
Theorem print_parse o p (l : list (Sample * bytes)) : warm o p -> OpenMetrics o = false ->
  Forall (fun x => printable x.1 x.2 /\ len (print_sample x.1 x.2) <= normLineBytes (MaxLineBytes o)) l ->
  exists q, parseFrom (record (fun _ => None)) Eof (unlines ((fun x => print_sample x.1 x.2) <$> l)) [] p = Some (q, fst <$> l, 0, Finished).
Proof.
  intros Hw Hom Hl. destruct (warm_ok o p Hw) as [H1 H2]. set (ls := (fun x => print_sample x.1 x.2) <$> l).
  destruct (parse_ref (record (fun _ => None)) o p Eof (unlines ls) [] H1 H2) as (q & w' & m & out & E & _ & _ & R).
  exists q. rewrite E. clear E. set (max := normLineBytes (MaxLineBytes o)) in *.
  assert (Forall (fun l => 10 ∉ l) ls) as Hnl.
  { apply Forall_fmap. eapply Forall_impl; [exact Hl|]. intros x [Hx _]. by apply print_line_item. }
  destruct (read_items_lines parseBufSize max parse_buf_pos ls Hnl) as (items & I1 & I2 & _).
  assert (items = (fun x => Line (print_sample x.1 x.2)) <$> l) as ->.
  { rewrite I2.
    - unfold ls. rewrite <- list_fmap_compose. apply list_fmap_ext. intros i x Hx. cbn. eapply Forall_lookup_1 in Hl as [Hx' _]; [|exact Hx].
      by rewrite (proj1 (proj2 (print_line_item _ _ Hx'))).
    - apply Forall_fmap. eapply Forall_impl; [exact Hl|]. intros x [Hx Hm]. cbn. split; [done|].
      destruct (print_line_item _ _ Hx) as (_ & -> & ?). done. }
  unfold ref_parse in R. fold max in R. destruct (I1 (S (length (unlines ls))) Eof []) as (f1 & F1 & G1); [rewrite app_nil_r; lia|].
  rewrite app_nil_r in G1. rewrite G1 in R. destruct f1 as [|f1]; [lia|]. cbn [read_items] in R.
  rewrite (readLine_end parseBufSize max Eof parse_buf_pos 1) in R; [|cbn; lia|cbn; lia|apply not_elem_of_nil].
  cbn [app orb] in R. pose proof (max_pos o) as Hmax. fold max in Hmax. rewrite Hmax in R. cbn in R. rewrite app_nil_r in R. injection R as R.
  assert (forall w, ref_items (record (fun _ => None)) Eof ((fun x => Line (print_sample x.1 x.2)) <$> l) 0 w (New o) = (New o, w ++ (fst <$> l), 0, Finished)) as Hrun.
  { clear -Hl Hom. induction Hl as [|[s tok] l [Hs _] Hl IH]; intros w; [cbn; by rewrite app_nil_r|]. cbn [fmap list_fmap ref_items fst snd].
    assert (ref_line (print_sample s tok) (New o) = (New o, Emit s)) as ->.
    { cbn in Hs. destruct (sample_print s tok Hs) as (s0 & Hp & Hn & Hst). pose proof (pr_name s tok Hs) as (P1 & P2 & _ & P3).
      assert (exists r, print_sample s tok = s_name s ++ r) as [r Er] by (unfold print_sample; by eexists).
      assert ((match ref_sample (openMetrics (New o)) (exemplars (New o)) (print_sample s tok) with
        | inr r => (charge SampleBlock r (New o), Malformed)
        | inl (s, bad) => (count_bad bad (New o), Emit (stamp (classOf (New o) (s_name s)) s)) end) = (New o, Emit s)) as H.
      { cbn [openMetrics exemplars New]. rewrite Hom. cbn [andb]. rewrite Hp. cbn [count_bad].
        assert (classOf (New o) (s_name s0) = mkClass (s_name s) (s_name s) [] [] RoleGauge) as ->; [|by rewrite <- Hst].
        unfold classOf. cbn [types metas New]. rewrite classify_undeclared, lookup_empty, Hn. done. }
      unfold ref_line. rewrite Er in H |- *. rewrite (skip_name metric_char); [|apply metric_char_blank|done|done].
      destruct (s_name s) as [|c n]; [done|]. cbn [app] in *. clear -H P3. destruct c as [|q|q]; try exact H.
      do 6 (destruct q as [q|q|]; try exact H). done. }
    unfold record at 1. change (eof (New o)) with false. cbv iota. rewrite IH. by rewrite <- app_assoc. }
  specialize (Hrun []). rewrite Hrun in R. apply quad_tail in R as (<- & <- & <-). done.
Qed.

Lemma cut_short_witness : exists q w m out q2 m2,
  parseFrom (record (fun _ => None)) Eof (unlines [str "a 1"; str "b 2"]) [] ex_used = Some (q, w, m, out) /\
  parseFrom (record (fun _ => None)) (ReadErr 7) (unlines [str "a 1"; str "b 2"] ++ str "c 3") [] ex_used =
    Some (q2, w, m2, match out with Finished => if eof q then Finished else BodyError 7 | _ => out end) /\ m <= m2 <= m + 1.
Proof.
  apply (cut_short (record (fun _ => None)) ex_options ex_used 7 [str "a 1"; str "b 2"] (str "c 3") []).
  - exact ex_used_warm.
  - repeat constructor; apply (bool_decide_unpack _); vm_compute; exact I.
  - apply (bool_decide_unpack _). vm_compute. exact I.
Defined.

(** A label value that needs every escape. *)
Definition ex_sample : Sample :=
  stamp (mkClass (str "up") (str "up") [] [] RoleGauge)
    (bare_sample (str "up") [mkLabel (str "job") [97; 34; 92; 10; 98]; mkLabel (str "le") (str "1")] (S754_finite false 6755399441055744 (-52)) (-5) None).

Lemma ex_printable : printable ex_sample (str "1.5").
Proof.
  assert (forall q l, forallb q l = true -> all_chars q l) as Hall.
  { intros q l H. apply Forall_forall. intros x Hx. eapply forallb_forall in H; [exact H|]. by apply list_elem_of_In. }
  assert (forall n, forallb name_char n = true -> n <> [] -> bool_decide (10 ∉ n) = true -> head n <> Some 34 -> head n <> Some 125 -> bare_label n) as Hbare.
  { intros n H1 H2 H3 H4 H5. split; [done|]. split; [by apply Hall|]. split; [by apply bool_decide_eq_true in H3|done]. }
  split.
  - split; [done|]. split; [by apply Hall|]. split; [|done]. apply (bool_decide_unpack _). vm_compute. exact I.
  - split; [|repeat constructor; by apply Hbare]. split; [|done]. apply (bool_decide_unpack _). vm_compute. exact I.
  - split; [vm_compute; reflexivity|]. split; [done|]. split; [by apply Hall|done].
  - cbn. unfold min_int64, max_int64. lia.
  - done.
Qed.

Lemma print_parse_witness : exists q, parseFrom (record (fun _ => None)) Eof (unlines [print_sample ex_sample (str "1.5")]) [] (New (mkOptions 0 false false)) =
  Some (q, [ex_sample], 0, Finished).
Proof.
  apply (print_parse (mkOptions 0 false false) (New (mkOptions 0 false false)) [(ex_sample, str "1.5")]); [apply warm_new|reflexivity|].
  constructor; [|constructor]. split; [exact ex_printable|]. apply (bool_decide_unpack _). vm_compute. exact I.
Defined.
