(* ===== verification/PromBounds.v ===== *)
(** * What the text parser may retain

    Every table the parser keeps, per exposition or warm across them, is bounded
    in entries and in bytes, and the byte charges are exactly what the tables
    hold. *)

From S2P Require Import Prelude Clip Number Promparse PromSpec PromSafe.
Local Open Scope Z_scope.
Local Open Scope parse_scope.

(** ** Charges *)

Definition ksum {A} (f : bytes -> A -> Z) (m : gmap bytes A) : Z := map_fold (fun k v n => f k v + n) 0 m.

Lemma ksum_empty {A} (f : bytes -> A -> Z) : ksum f ∅ = 0.
Proof. apply map_fold_empty. Qed.

Lemma ksum_fresh {A} (f : bytes -> A -> Z) m k v : m !! k = None -> ksum f (<[k := v]> m) = f k v + ksum f m.
Proof. intros Hk. unfold ksum. rewrite map_fold_insert_L; [done| |done]. intros. lia. Qed.

Lemma ksum_delete {A} (f : bytes -> A -> Z) m k v : m !! k = Some v -> ksum f m = f k v + ksum f (delete k m).
Proof. intros Hk. rewrite <- (insert_delete_id m k v Hk) at 1. apply ksum_fresh. apply lookup_delete_eq. Qed.

Lemma ksum_replace {A} (f : bytes -> A -> Z) m k v w : m !! k = Some v -> ksum f (<[k := w]> m) = ksum f m - f k v + f k w.
Proof.
  intros Hk. rewrite <- insert_delete_eq, ksum_fresh by apply lookup_delete_eq. rewrite (ksum_delete f m k v Hk). lia.
Qed.

Definition limit (f : field) : Z := match f with NameField => maxInternedNameLen | ValueField => maxInternedValueLen end.
(** What a slot costs the budget of long strings. *)
Definition cost (f : field) (s : bytes) : Z := if limit f <? len s then len s else 0.
Definition slot_cost (kv : bytes * bytes) : Z := cost NameField kv.1 + cost ValueField kv.2.
Definition long_of (c : list (bytes * bytes)) : Z := foldr (fun kv n => slot_cost kv + n) 0 c.

Lemma cost_nonneg f s : 0 <= cost f s.
Proof. unfold cost, len. destruct (_ <? _); lia. Qed.

Lemma long_app a b : long_of (a ++ b) = long_of a + long_of b.
Proof. unfold long_of. induction a as [|x a IH]; cbn [app foldr]; lia. Qed.

Lemma long_alter f s : forall pos c kv, c !! pos = Some kv -> long_of (alter (put_field f s) pos c) = long_of c - cost f (field_of f kv) + cost f s.
Proof.
  induction pos as [|pos IH]; intros [|x c] kv Hc; try done.
  - injection Hc as ->. change (alter (put_field f s) 0%nat (kv :: c)) with (put_field f s kv :: c). destruct kv as [kn kval].
    unfold long_of. cbn [foldr]. set (r := foldr _ 0 c). unfold slot_cost. destruct f; cbn [put_field field_of fst snd]; lia.
  - change (alter (put_field f s) (S pos) (x :: c)) with (x :: alter (put_field f s) pos c).
    specialize (IH c kv Hc). change (long_of (x :: c)) with (slot_cost x + long_of c).
    change (slot_cost x + long_of (alter (put_field f s) pos c) = slot_cost x + long_of c - cost f (field_of f kv) + cost f s). lia.
Qed.

Record bounds (p : Parser) : Prop := {
  b_types : Z.of_nat (size (types p)) <= MaxTrackedFamilies /\ typeBytes p = ksum (fun k _ => len k) (types p) /\ typeBytes p <= maxTypeBytes;
  b_metas : Z.of_nat (size (metas p)) <= MaxTrackedFamilies /\
    metaBytes p = ksum (fun k m => len k + len (help m) + len (unit_ m)) (metas p) /\ metaBytes p <= maxMetaBytes;
  b_names : Z.of_nat (size (names p)) <= maxInternedNames /\ nameBytes p = ksum (fun k _ => len k) (names p) /\ nameBytes p <= maxInternedNameBytes;
  b_name : forall s, is_Some (names p !! s) -> len s <= maxInternedNameLen;
  b_values : Z.of_nat (size (values p)) <= MaxInternedValues /\ (forall s, is_Some (values p !! s) -> len s <= maxInternedValueLen);
  b_long : longCacheBytes p = long_of (lastKV p) + long_of (exLastKV p) /\ longCacheBytes p <= maxLongCacheBytes;
  b_slots : forall b, len (cache_of b p) <= MaxLabelsPerSample + 1 }.

(** [m] keeps the bounds, and the cache of [b] at least [n] long. *)
Definition bounded (b : block) (n : nat) (p : Parser) : Prop := bounds p /\ (n <= length (cache_of b p))%nat.
Definition keeps {A} (b : block) (n : nat) (m : St A) : Prop := forall p, bounded b n p -> bounded b n (m p).1.

Lemma keeps_ret {A} b n (a : A) : keeps b n (ret a).
Proof. by intros p Hp. Qed.
Lemma keeps_reject {A} b n : keeps b n (@reject A).
Proof. by intros p Hp. Qed.
Lemma keeps_lift {A} b n (o : option A) : keeps b n (lift o).
Proof. by intros p Hp. Qed.
Lemma keeps_bind {A B} b n (m : St A) (k : A -> St B) : keeps b n m -> (forall a, keeps b n (k a)) -> keeps b n (bind m k).
Proof.
  intros Hm Hk p Hp. specialize (Hm p Hp). unfold bind. destruct (m p) as [q [a|]]; [by apply Hk|done].
Qed.

Ltac bounds_frame := intros [H1 H2 H3 H4 H5 H6 H7]; split; [exact H1|exact H2|exact H3|exact H4|exact H5|exact H6|exact H7].

Lemma internName_keeps b n s : keeps b n (internName s).
Proof.
  intros p [Hp Hn]. unfold internName. destruct (maxInternedNameLen <? len s) eqn:El; [done|]. destruct (names p !! s) eqn:E; [done|].
  destruct (_ && _) eqn:Ec; [|done]. apply andb_true_iff in Ec as [E1 E2]. bool_norm. split; [|exact Hn].
  destruct Hp as [H1 H2 (H3 & H3' & H3'') H4 H5 H6 H7]. split; [exact H1|exact H2| | |exact H5|exact H6|exact H7]; cbn [fst names nameBytes set_nameBytes set_names].
  - rewrite map_size_insert_None by done. rewrite ksum_fresh by done. split; [lia|]. split; lia.
  - intros x [y Hx]. apply lookup_insert_Some in Hx as [[<- _]|[_ Hx]]; [done|]. apply H4. by exists y.
Qed.

Lemma internValue_keeps b n s : keeps b n (internValue s).
Proof.
  intros p [Hp Hn]. unfold internValue. destruct (maxInternedValueLen <? len s) eqn:El; [done|]. destruct (values p !! s) eqn:E; [done|].
  destruct (_ <? MaxInternedValues) eqn:Ec; [|done]. bool_norm. split; [|exact Hn].
  destruct Hp as [H1 H2 H3 H4 [H5 H5'] H6 H7]. split; [exact H1|exact H2|exact H3|exact H4| |exact H6|exact H7]; cbn [fst values set_values].
  rewrite map_size_insert_None by done. split; [lia|]. intros x [y Hx]. apply lookup_insert_Some in Hx as [[<- _]|[_ Hx]]; [done|]. apply H5'. by exists y.
Qed.

(** Writing a cache slot moves the charge by what the slot gains. *)
Lemma put_bounds b pos f s c p : bounds p -> (pos < length (cache_of b p))%nat ->
  c = longCacheBytes p - cost f (slot b pos f p) + cost f s -> c <= maxLongCacheBytes ->
  bounds (set_longCacheBytes c (set_cache b (alter (put_field f s) pos (cache_of b p)) p)) /\
  length (cache_of b (set_longCacheBytes c (set_cache b (alter (put_field f s) pos (cache_of b p)) p))) = length (cache_of b p).
Proof.
  intros [H1 H2 H3 H4 H5 [H6 H6'] H7] Hpos Hc Hmax. apply lookup_lt_is_Some_2 in Hpos as [kv Hkv].
  unfold slot in Hc. rewrite Hkv in Hc. change (default ([], []) (Some kv)) with kv in Hc. pose proof (long_alter f s pos _ kv Hkv) as Hl.
  split; [|destruct b; cbn; by rewrite length_alter].
  split; [destruct b; exact H1|destruct b; exact H2|destruct b; exact H3|destruct b; exact H4|destruct b; exact H5| |].
  - split; [|done]. destruct b; cbn [longCacheBytes lastKV exLastKV set_longCacheBytes set_cache set_lastKV set_exLastKV cache_of] in *; lia.
  - intros b'. unfold len in *. specialize (H7 b'). destruct b, b'; cbn in *; rewrite ?length_alter; done.
Qed.

Lemma cacheString_keeps b n pos f s : (pos < n)%nat -> keeps b n (modify (cacheString b pos f s (limit f))).
Proof.
  intros Hpos p [Hp Hn]. unfold modify. cbn [fst]. assert (pos < length (cache_of b p))%nat as Hpos' by lia.
  pose proof (b_long p Hp) as [Hlong Hmax].
  assert (forall c q, cacheString b pos f s (limit f) p = set_longCacheBytes c (set_cache b (alter (put_field f q) pos (cache_of b p)) p) ->
    c = longCacheBytes p - cost f (slot b pos f p) + cost f q -> c <= maxLongCacheBytes -> bounded b n (cacheString b pos f s (limit f) p)) as Hput.
  { intros c q -> Hc Hc'. destruct (put_bounds b pos f q c p Hp Hpos' Hc Hc') as [B1 B2]. split; [done|]. by rewrite B2. }
  pose proof (cost_nonneg f (slot b pos f p)) as Hnn. unfold cacheString in *. cbv zeta in *.
  set (c0 := longCacheBytes p - cost f (slot b pos f p)).
  assert ((if limit f <? len (slot b pos f p) then set_longCacheBytes (longCacheBytes p - len (slot b pos f p)) p else p) = set_longCacheBytes c0 p) as E0.
  { unfold c0, cost. destruct (limit f <? len (slot b pos f p)); [done|]. rewrite Z.sub_0_r. by destruct p. }
  rewrite E0 in *. change (longCacheBytes (set_longCacheBytes c0 p)) with c0 in *.
  destruct (limit f <? len s) eqn:Es.
  - destruct (maxLongCacheBytes <? c0 + len s) eqn:Em.
    + apply (Hput c0 []); [by destruct b| |lia]. assert (cost f [] = 0) as -> by (by destruct f). unfold c0. lia.
    + bool_norm. apply (Hput (c0 + len s) s); [by destruct b| |lia]. unfold cost at 2. rewrite (proj2 (Z.ltb_lt _ _) Es). unfold c0. lia.
  - apply (Hput c0 s); [by destruct b| |lia]. unfold cost at 2. rewrite Es. unfold c0. lia.
Qed.

Lemma parseQuoted_keeps b n last intern rest : (match last with Some (b', pos) => b' = b /\ (pos < n)%nat | None => True end) ->
  keeps b n (parseQuoted last intern rest).
Proof.
  intros Hlast p Hp. unfold parseQuoted. destruct (cut 34 rest) as [[v rem]|]; [|done]. destruct (bool_decide _); [done|].
  assert (keeps b n (if intern then internValue v else ret v)) as Hi by (destruct intern; [apply internValue_keeps|apply keeps_ret]).
  destruct last as [[b' pos]|].
  - destruct Hlast as [-> Hpos]. destruct (bool_decide _); [done|]. revert p Hp.
    change (keeps b n (w <~ (if intern then internValue v else ret v) ; modify (cacheString b pos ValueField w maxInternedValueLen) ;;; ret (w, rem))).
    apply keeps_bind; [exact Hi|]. intros w. apply keeps_bind; [by apply (cacheString_keeps b n pos ValueField)|]. intros _. apply keeps_ret.
  - revert p Hp. change (keeps b n (w <~ (if intern then internValue v else ret v) ; ret (w, rem))). apply keeps_bind; [exact Hi|]. intros w. apply keeps_ret.
Qed.

Lemma label_name_keeps b n pos rest : (pos < n)%nat -> keeps b n (label_name b pos rest).
Proof.
  intros Hpos p Hp. unfold label_name.
  assert (bounded b n (if bool_decide (slot b pos NameField p <> []) && bool_decide (rest !! length (slot b pos NameField p) = Some 61) &&
        bool_decide (take (length (slot b pos NameField p)) rest = slot b pos NameField p)
      then (p, Some (slot b pos NameField p, skipSpaceTab (drop (length (slot b pos NameField p)) rest)))
      else let '(tok, rem) := span name_char rest in
        if bool_decide (tok = []) then (p, None) else if bool_decide (tok = slot b pos NameField p) then (p, Some (tok, skipSpaceTab rem))
        else (v <~ internName tok ; modify (cacheString b pos NameField v maxInternedNameLen) ;;; ret (v, skipSpaceTab rem)) p).1) as Hbare.
  { destruct (_ && _ && _); [done|]. destruct (span name_char rest) as [tok rem]. destruct (bool_decide (tok = [])); [done|].
    destruct (bool_decide _); [done|]. revert p Hp.
    change (keeps b n (v <~ internName tok ; modify (cacheString b pos NameField v maxInternedNameLen) ;;; ret (v, skipSpaceTab rem))).
    apply keeps_bind; [apply internName_keeps|]. intros v. apply keeps_bind; [by apply (cacheString_keeps b n pos NameField)|]. intros _. apply keeps_ret. }
  destruct rest as [|c t]; [exact Hbare|]. destruct c as [|q|q]; try exact Hbare. do 6 (destruct q as [q|q|]; try exact Hbare).
  revert p Hp Hbare. intros p Hp _. revert p Hp.
  change (keeps b n ('(v, rem) <~ parseQuoted None true t ; (if bool_decide (v = []) then reject else ret (v, skipSpaceTab rem)))).
  apply keeps_bind; [by apply parseQuoted_keeps|]. intros [v rem]. destruct (bool_decide _); [apply keeps_reject|apply keeps_ret].
Qed.

Lemma admit_keeps b n dst name value : keeps b n (admit_label b dst name value).
Proof.
  intros p [Hp Hn]. unfold admit_label. destruct (_ <=? _); [|destruct (bool_decide _); [|done]];
    (destruct b; [|done]); (split; [|exact Hn]); revert Hp; bounds_frame.
Qed.

Lemma grow_bounds b pos p : bounded b pos p -> len (cache_of b p) <= MaxLabelsPerSample + 1 -> (Z.of_nat pos <= MaxLabelsPerSample) -> bounded b (S pos) (grow b pos p).
Proof.
  intros [Hp Hn] _ Hpos. unfold grow. destruct (decide _) as [->|Hne]; [|split; [done|lia]].
  destruct Hp as [H1 H2 H3 H4 H5 [H6 H6'] H7]. split.
  - split; [destruct b; exact H1|destruct b; exact H2|destruct b; exact H3|destruct b; exact H4|destruct b; exact H5| |].
    + split; [|destruct b; exact H6']. assert (long_of [([], [])] = 0) as E0 by done. destruct b; cbn [longCacheBytes lastKV exLastKV set_cache set_lastKV set_exLastKV cache_of] in *; rewrite long_app, E0; lia.
    + intros b'. specialize (H7 b'). unfold len in *. destruct b, b'; cbn in *; rewrite ?length_app; cbn; lia.
  - destruct b; cbn; rewrite length_app; cbn; lia.
Qed.

Lemma bind_Some {A B} (m : St A) (k : A -> St B) p q b : bind m k p = (q, Some b) -> exists q1 a, m p = (q1, Some a) /\ k a q1 = (q, Some b).
Proof. unfold bind. destruct (m p) as [q1 [a|]]; [|done]. intros E. by exists q1, a. Qed.

Lemma labels_loop_keeps b fuel : forall dst rest p, labels_ok dst -> bounded b (length dst) p -> bounded b 0 (labels_loop fuel b dst rest p).1.
Proof.
  assert (forall n p, bounded b n p -> bounded b 0 p) as Hz by (intros n p [? ?]; split; [done|lia]).
  induction fuel as [|fuel IH]; intros dst rest p Hd Hp; [by eapply Hz|]. cbn [labels_loop].
  destruct (skipSpaceTab rest) as [|c t]; [by eapply Hz|].
  assert (bounded b 0 (('(dst, rest) <~ parse_pair b dst (c :: t) ; labels_loop fuel b dst rest) p).1) as H.
  { assert (bounded b (S (length dst)) (parse_pair b dst (c :: t) p).1) as Hpair.
    { unfold parse_pair. unfold bind at 1. cbn [modify]. destruct Hd as [_ Hd].
      assert (bounded b (S (length dst)) (grow b (length dst) p)) as Hg.
      { apply grow_bounds; [done|apply (b_slots p (proj1 Hp))|exact Hd]. }
      revert Hg. generalize (grow b (length dst) p). intros q Hq. revert q Hq.
      match goal with |- forall q, bounded b ?n q -> bounded b ?n (?m q).1 => change (keeps b n m) end.
      apply keeps_bind; [apply label_name_keeps; lia|]. intros [name r]. apply keeps_bind; [apply keeps_lift|]. intros r2.
      apply keeps_bind; [apply parseQuoted_keeps; split; [done|lia]|]. intros [value rem]. apply keeps_bind; [apply admit_keeps|]. intros d. apply keeps_ret. }
    unfold bind at 1. destruct (parse_pair b dst (c :: t) p) as [q [[d r]|]] eqn:E; cbn [fst] in Hpair; [|by eapply Hz].
    assert (exists l, d = dst ++ [l] /\ labels_ok (dst ++ [l])) as (l & -> & Hd').
    { unfold parse_pair in E. apply bind_Some in E as (q1 & [] & _ & E). apply bind_Some in E as (q2 & [n r2] & _ & E).
      apply bind_Some in E as (q3 & r3 & _ & E). apply bind_Some in E as (q4 & [v r4] & _ & E). apply bind_Some in E as (q5 & d' & Ea & E).
      injection E as _ <- _. unfold admit_label in Ea. destruct (_ <=? _) eqn:E1; [done|]. destruct (bool_decide _) eqn:E2; [done|].
      injection Ea as _ <-. bool_norm. eexists. split; [done|]. by apply labels_ok_snoc. }
    apply IH; [done|]. rewrite length_app. cbn. by rewrite Nat.add_1_r. }
  assert (bounded b 0 (ret (dst, t) p).1) as H0 by (by eapply Hz).
  destruct c as [|q|q]; try exact H. do 7 (destruct q as [q|q|]; try exact H). exact H0.
Qed.

(** ** Samples, declarations, parses *)

Definition safe {A} (m : St A) : Prop := forall p, bounds p -> bounds (m p).1.

Lemma safe_keeps {A} b (m : St A) : keeps b 0 m -> safe m.
Proof. intros Hm p Hp. destruct (Hm p) as [H _]; [split; [done|lia]|done]. Qed.

Lemma safe_bind {A B} (m : St A) (k : A -> St B) : safe m -> (forall a, safe (k a)) -> safe (bind m k).
Proof. intros Hm Hk p Hp. specialize (Hm p Hp). unfold bind. destruct (m p) as [q [a|]]; [by apply Hk|done]. Qed.

Lemma safe_ret {A} (a : A) : safe (ret a).
Proof. by intros p Hp. Qed.
Lemma safe_reject {A} : safe (@reject A).
Proof. by intros p Hp. Qed.
Lemma safe_lift {A} (o : option A) : safe (lift o).
Proof. by intros p Hp. Qed.

Lemma parseLabels_safe b rest : safe (parseLabels b rest).
Proof.
  intros p Hp. destruct (labels_loop_keeps b (S (length rest)) [] rest p labels_ok_nil) as [H _]; [split; [done|cbn; lia]|exact H].
Qed.

Lemma parseQuoted_safe intern rest : safe (parseQuoted None intern rest).
Proof. apply (safe_keeps SampleBlock). by apply parseQuoted_keeps. Qed.

Lemma parseExemplar_safe rest : safe (parseExemplar rest).
Proof.
  intros p Hp. unfold parseExemplar. destruct (skipSpaceTab rest) as [|c t]; [done|].
  destruct c as [|q|q]; try exact Hp. do 7 (destruct q as [q|q|]; try exact Hp). unfold bind.
  pose proof (parseLabels_safe ExemplarBlock t p Hp) as H. destruct (parseLabels ExemplarBlock t p) as [q [[ls r]|]]; exact H.
Qed.

Lemma bad_bounds n p : bounds p -> bounds (set_badExemplars n p).
Proof. bounds_frame. Qed.
Lemma metric_bounds s p : bounds p -> bounds (set_lastMetric s p).
Proof. bounds_frame. Qed.
Lemma detail_bounds d p : bounds p -> bounds (set_detail d p).
Proof. bounds_frame. Qed.
Lemma eof_bounds v p : bounds p -> bounds (set_eof v p).
Proof. bounds_frame. Qed.
Lemma class_bounds ok c p : bounds p -> bounds (set_lastClassOK ok (set_lastClass c p)).
Proof. bounds_frame. Qed.

Lemma finishSample_safe name ls rest : safe (finishSample name ls rest).
Proof.
  intros p Hp. unfold finishSample. destruct (value_and_time (openMetrics p) rest) as [[[v ts] [|c t]]|]; [done| |done].
  destruct c as [|q|q]; try exact Hp. do 6 (destruct q as [q|q|]; try exact Hp). destruct (negb (openMetrics p)); [done|].
  destruct (exemplars p); [|done]. pose proof (parseExemplar_safe t p Hp) as H. destruct (parseExemplar t p) as [q [x|]]; [exact H|].
  by apply bad_bounds.
Qed.

Lemma quoted_sample_safe line : safe (parseQuotedNameSample line).
Proof.
  unfold parseQuotedNameSample. destruct line as [|c t]; [apply safe_reject|].
  destruct c as [|q|q]; try apply safe_reject. do 7 (destruct q as [q|q|]; try apply safe_reject).
  destruct (skipSpaceTab t) as [|c r]; [apply safe_reject|].
  destruct c as [|q|q]; try apply safe_reject. do 6 (destruct q as [q|q|]; try apply safe_reject).
  apply safe_bind; [apply parseQuoted_safe|]. intros [name rem]. destruct (bool_decide (name = [])); [apply safe_reject|].
  assert (forall rem, safe ('(ls, rem) <~ parseLabels SampleBlock (skipComma rem) ; finishSample name ls rem)) as H.
  { intros r2. apply safe_bind; [apply parseLabels_safe|]. intros [ls r3]. apply finishSample_safe. }
  destruct (skipSpaceTab rem) as [|c r2]; [apply H|].
  destruct c as [|q|q]; try apply H. do 6 (destruct q as [q|q|]; try apply H). apply safe_reject.
Qed.

Lemma after_name_safe name rest : safe (after_name name rest).
Proof.
  intros p Hp. unfold after_name. set (r := if negb (openMetrics p) && _ then _ else _). clearbody r.
  pose proof (finishSample_safe name [] r p Hp) as H0. destruct r as [|c t]; [exact H0|].
  assert (safe ('(ls, rest) <~ parseLabels SampleBlock t ; finishSample name ls rest)) as H.
  { apply safe_bind; [apply parseLabels_safe|]. intros [ls r2]. apply finishSample_safe. }
  destruct c as [|q|q]; try exact H0. do 7 (destruct q as [q|q|]; try exact H0). exact (H p Hp).
Qed.

Lemma parseSample_safe line : safe (parseSample line).
Proof.
  intros p Hp. unfold parseSample. destruct (_ && _ && _); [by apply after_name_safe|]. destruct (span metric_char line) as [tok rest].
  destruct (bool_decide _); [by apply quoted_sample_safe|]. destruct (bool_decide _); [by apply after_name_safe|].
  revert p Hp. change (safe (name <~ internName tok ; modify (set_lastMetric name) ;;; after_name name rest)).
  apply safe_bind; [apply (safe_keeps SampleBlock), internName_keeps|]. intros name. apply safe_bind; [|intros _; apply after_name_safe].
  intros p Hp. by apply metric_bounds.
Qed.

Lemma setMeta_bounds f h u p : bounds p -> bounds (setMeta f h u p).
Proof.
  intros [H1 (M1 & M2 & M3) H3 H4 H5 H6 H7]. unfold setMeta. destruct (_ && _); [by split|].
  destruct (metas p !! f) as [m|] eqn:E; cbv zeta;
    [change (default (mkMeta [] []) (Some m)) with m|change (default (mkMeta [] []) None) with (mkMeta [] [])].
  - set (h' := if bool_decide (h = []) then _ else h). set (u' := if bool_decide (u = []) then _ else u).
    destruct (_ && _); [by split|]. destruct (_ && _) eqn:Ec; [by split|].
    split; [exact H1| |exact H3|exact H4|exact H5|exact H6|exact H7]. cbn [metas metaBytes set_metas set_metaBytes set_lastClassOK].
    rewrite map_size_insert_Some by done. rewrite (ksum_replace _ _ _ _ _ E), <- M2. cbn [help unit_]. split; [done|]. split; [lia|].
    apply andb_false_iff in Ec as [Ec|Ec]; bool_norm; lia.
  - destruct (_ <=? _) eqn:Es; [by split|]. bool_norm. destruct (_ && _) eqn:Ec; [by split|].
    split; [exact H1| |exact H3|exact H4|exact H5|exact H6|exact H7]. cbn [metas metaBytes set_metas set_metaBytes set_lastClassOK] in *.
    cbn [help unit_] in *. change (len (@nil Z)) with 0 in *.
    rewrite map_size_insert_None by done. rewrite ksum_fresh, <- M2 by done. cbn [help unit_]. split; [lia|]. split; [lia|].
    apply andb_false_iff in Ec as [Ec|Ec]; bool_norm; lia.
Qed.

Lemma declareType_bounds f t p : bounds p -> bounds (declareType f t p).
Proof.
  intros [(T1 & T2 & T3) H2 H3 H4 H5 H6 H7]. unfold declareType. destruct (types p !! f) as [old|] eqn:E.
  - destruct (decide (old = t)); [by split|]. split; [|exact H2|exact H3|exact H4|exact H5|exact H6|exact H7].
    cbn [types typeBytes set_types set_lastClassOK]. rewrite map_size_insert_Some by done. rewrite (ksum_replace _ _ _ _ _ E), <- T2. lia.
  - destruct (_ || _) eqn:Ec; [by split|]. apply orb_false_iff in Ec as [E1 E2]. bool_norm.
    split; [|exact H2|exact H3|exact H4|exact H5|exact H6|exact H7].
    cbn [types typeBytes set_types set_typeBytes set_lastClassOK]. rewrite map_size_insert_None by done. rewrite ksum_fresh, <- T2 by done. lia.
Qed.

Lemma parseComment_bounds line p : bounds p -> bounds (parseComment line p).1.
Proof.
  intros Hp. unfold parseComment. destruct (nextField (nextField line).2) as [directive rest].
  destruct (openMetrics p && _); [destruct (bool_decide _); [by apply eof_bounds|done]|].
  destruct (bool_decide _).
  { destruct (familyToken rest) as [[fam rem]|]; [|done]. destruct (_ || _); [done|]. by apply setMeta_bounds. }
  destruct (bool_decide _).
  { destruct (familyToken rest) as [[fam rem]|]; [|done]. destruct (nextField rem). destruct (_ && _); [|done]. by apply setMeta_bounds. }
  destruct (bool_decide _); [|done]. destruct (familyToken rest) as [[fam rem]|]; [|done]. destruct (nextField rem).
  destruct (_ || _); [done|]. by apply declareType_bounds.
Qed.

Lemma parseLine_bounds line p : bounds p -> bounds (parseLine line p).1.
Proof.
  intros Hp. unfold parseLine. destruct (skipSpaceTab line) as [|c t]; [done|].
  assert (bounds (match parseSample (c :: t) p with (p, None) => (p, Malformed)
      | (p, Some s) => let '(p, cl) := classifyCached (s_name s) p in (p, Emit (stamp cl s)) end).1) as H.
  { pose proof (parseSample_safe (c :: t) p Hp) as H. destruct (parseSample (c :: t) p) as [q [s|]]; [|exact H]. cbn [fst] in H.
    unfold classifyCached. destruct (_ || _); [|exact H]. cbn. by apply class_bounds. }
  pose proof (parseComment_bounds (c :: t) p Hp) as H0. destruct c as [|q|q]; try exact H. do 6 (destruct q as [q|q|]; try exact H).
  destruct (parseComment (35 :: t) p) as [q []]; exact H0.
Qed.

Lemma parse_loop_bounds {W} (emit : W -> Sample -> W * option Z) buf e : forall fuel body m w p q w' m' out, bounds p ->
  parse_loop emit fuel buf e body m w p = Some (q, w', m', out) -> bounds q.
Proof.
  induction fuel as [|fuel IH]; intros body m w p q w' m' out Hp; [done|]. cbn [parse_loop].
  destruct (readLine_loop _ _ _ _ _ _ _) as [[[[line tl] rerr] rest]|]; [|done].
  assert (forall m w p, bounds p -> (match rerr with None => parse_loop emit fuel buf e rest m w p | Some Eof => Some (p, w, m, Finished)
    | Some (ReadErr x) => Some (p, w, m, BodyError x) end) = Some (q, w', m', out) -> bounds q) as Hn.
  { intros m0 w0 p0 H0. destruct rerr as [[|x]|]; [by intros [= <- _ _ _]..|]. by apply IH. }
  destruct tl; [apply Hn; by apply detail_bounds|]. destruct (_ && negb _); [apply Hn; by apply detail_bounds|].
  destruct (bool_decide (line = [])); [by apply Hn|]. pose proof (parseLine_bounds line p Hp) as Hl. destruct (parseLine line p) as [r v]. cbn [fst] in Hl.
  assert (forall m w, (if eof r then Some (r, w, m, Finished) else match rerr with None => parse_loop emit fuel buf e rest m w r
    | Some Eof => Some (r, w, m, Finished) | Some (ReadErr x) => Some (r, w, m, BodyError x) end) = Some (q, w', m', out) -> bounds q) as Ha.
  { intros m0 w0. destruct (eof r); [by intros [= <- _ _ _]|by apply Hn]. }
  destruct v as [| |s]; [apply Ha..|]. destruct (emit w s) as [w1 [x|]]; [by intros [= <- _ _ _]|apply Ha].
Qed.

Lemma New_bounds o : bounds (New o).
Proof.
  assert (forall A (f : bytes -> A -> Z) b, 0 <= b -> Z.of_nat (size (∅ : gmap bytes A)) <= b /\ 0 = ksum f ∅ /\ 0 <= b) as H.
  { intros A f b Hb. rewrite ksum_empty, map_size_empty. done. }
  split; [by apply (H _ _ (2 ^ 20))|by apply (H _ _ (2 ^ 20))|by apply (H _ _ (2 ^ 20))| | |by split|by intros []].
  - by intros s [x Hx].
  - split; [done|]. by intros s [x Hx].
Qed.

Lemma clear_types_bounds p : bounds p -> bounds (resetTypes p).
Proof. intros [H1 H2 H3 H4 H5 H6 H7]. split; [|exact H2|exact H3|exact H4|exact H5|exact H6|exact H7]. split; [done|]. split; [symmetry; apply ksum_empty|done]. Qed.
Lemma clear_meta_bounds p : bounds p -> bounds (resetMeta p).
Proof. intros [H1 H2 H3 H4 H5 H6 H7]. split; [exact H1| |exact H3|exact H4|exact H5|exact H6|exact H7]. split; [done|]. split; [symmetry; apply ksum_empty|done]. Qed.
Lemma clear_lines_bounds p : bounds p -> bounds (releaseLineRefs p).
Proof. intros [H1 H2 H3 H4 H5 H6 H7]. split; [exact H1|exact H2|exact H3|exact H4|exact H5|by split|by intros []]. Qed.
Lemma clear_names_bounds p : bounds p -> bounds (set_nameBytes 0 (set_names ∅ p)).
Proof.
  intros [H1 H2 H3 H4 H5 H6 H7]. split; [exact H1|exact H2| |by intros s [x Hx]|exact H5|exact H6|exact H7]. split; [done|]. split; [symmetry; apply ksum_empty|done].
Qed.
Lemma clear_values_bounds p : bounds p -> bounds (set_values ∅ p).
Proof. intros [H1 H2 H3 H4 H5 H6 H7]. split; [exact H1|exact H2|exact H3|exact H4| |exact H6|exact H7]. split; [done|]. by intros s [x Hx]. Qed.
Lemma opts_bounds a b c p : bounds p -> bounds (set_exemplars a (set_openMetrics b (set_maxLineBytes c p))).
Proof. bounds_frame. Qed.

Lemma reset_with_bounds a b o p : bounds p -> bounds (reset_with a b o p).
Proof.
  intros Hp. unfold reset_with. pose proof (clear_lines_bounds _ (opts_bounds (OpenMetrics o && Exemplars o) (OpenMetrics o) (normLineBytes (MaxLineBytes o)) p Hp)) as Hq.
  revert Hq. generalize (releaseLineRefs (set_exemplars (OpenMetrics o && Exemplars o) (set_openMetrics (OpenMetrics o)
    (set_maxLineBytes (normLineBytes (MaxLineBytes o)) p)))). intros q Hq.
  destruct a, b; [apply clear_values_bounds, clear_names_bounds, Hq|apply clear_names_bounds, Hq|apply clear_values_bounds, Hq|exact Hq].
Qed.

(** C34: memory is bounded whatever the target sends.  In every parser a caller
    can hold, the declared families, their texts, the interned names and values
    and the cached long strings are each within their bounds in entries and in
    bytes, the charges being exactly what the tables hold; and a parser back in
    the pool keeps nothing of the last exposition but the intern tables. *)
Theorem tables_bounded o p : warm o p -> bounds p /\
  (types (release p) = ∅ /\ metas (release p) = ∅ /\ lastKV (release p) = [] /\ exLastKV (release p) = [] /\ longCacheBytes (release p) = 0).
Proof.
  intros Hw. split; [|done].
  induction Hw as [o|o o' p Hw IH|o p Hw IH|o p W emit e body w q w' m out Hw IH E].
  - apply New_bounds.
  - destruct (reset_eq o' p) as (a & b & ->). by apply reset_with_bounds.
  - by apply clear_meta_bounds, clear_types_bounds, clear_lines_bounds.
  - eapply parse_loop_bounds; [|exact E]. unfold begin_parse. apply detail_bounds, bad_bounds, clear_meta_bounds, clear_types_bounds, eof_bounds, IH.
Qed.

Lemma tables_bounded_witness : bounds ex_used /\ types (release ex_used) = ∅.
Proof. destruct (tables_bounded ex_options ex_used ex_used_warm) as [H1 [H2 _]]. exact (conj H1 H2). Defined.
