(* ===== verification/Hist.v ===== *)
(** * The parts of a cumulative series ([internal/agent/cumagg]: [hist.go], [render.go], [config.go])

    Series keys, latency histograms with one exemplar per bucket, the snapshot
    a render copies them into, the data points it writes, and the rules for
    bounds and label names.  A [float64] is [spec_float]; a time is its Unix
    nanosecond, which is also the timestamp of a point; an identifier is a
    number, 0 the empty one.  A metric is what the code writes through the
    [pmetric] builders: every sum is monotonic and cumulative, every histogram
    cumulative. *)

From S2P Require Import Prelude Clip Number.
From S2P Require Export Float Text.
Local Open Scope Z_scope.

(** ** Keys *)

Definition to_byte (n : Z) : Z := n mod 256.

(** The length prefix; a turn at least halves the length, so the length is
    turns enough. *)
Fixpoint uvarint (fuel : nat) (n : Z) : bytes :=
  match fuel with
  | 0%nat => [to_byte n]
  | S fuel => if 0x80 <=? n then Z.lor (to_byte n) 0x80 :: uvarint fuel (Z.shiftr n 7) else [to_byte n]
  end.

Definition AppendKeyPart (dst v : bytes) : bytes := dst ++ uvarint (length v) (Z.of_nat (length v)) ++ v.

(** ** Histograms *)

Fixpoint BucketIndex (bounds : list float64) (v : float64) : nat :=
  match bounds with
  | [] => 0%nat
  | b :: t => if float_le v b then 0%nat else S (BucketIndex t v)
  end.

Record Exemplar := mkExemplar { Is_set : bool; Value : float64; TS : Z; TraceID : Z; SpanID : Z }.
Definition noExemplar : Exemplar := mkExemplar false (S754_zero false) 0 0 0.

(** [nil] slices are [None]. *)
Record Hist := mkHist { Count : Z; Sum : float64; Buckets : option (list Z); Ex : option (list Exemplar) }.
Definition zeroHist : Hist := mkHist 0 (S754_zero false) None None.

Definition Observe (idx nbuckets : nat) (v : float64) (h : Hist) : Hist :=
  let bs := default (replicate nbuckets 0) (Buckets h) in
  mkHist (u64 (Count h + 1)) (float_add (Sum h) v) (Some (alter (fun n => u64 (n + 1)) idx bs)) (Ex h).

Definition RecordExemplar (ex : option (list Exemplar)) (buckets idx : nat) (v : float64) (ts tid sid : Z) : option (list Exemplar) :=
  if decide (tid = 0) then ex
  else Some (<[idx := mkExemplar true v ts tid sid]> (default (replicate buckets noExemplar) ex)).

Definition SetExemplar (idx nbuckets : nat) (v : float64) (ts tid sid : Z) (h : Hist) : Hist :=
  mkHist (Count h) (Sum h) (Buckets h) (RecordExemplar (Ex h) nbuckets idx v ts tid sid).

Definition unset (e : Exemplar) : Exemplar := mkExemplar false (Value e) (TS e) (TraceID e) (SpanID e).
Definition ClearExemplars (ex : option (list Exemplar)) : option (list Exemplar) := option_map (map unset) ex.
Definition Hist_ClearExemplars (h : Hist) : Hist := mkHist (Count h) (Sum h) (Buckets h) (ClearExemplars (Ex h)).

(** ** A histogram as a render copied it

    The two arrays keep their capacity from one render to the next. *)
Record HistSnap := mkSnap {
  Present : bool; s_Count : Z; s_Sum : float64; s_Buckets : list Z; s_Ex : list Exemplar; s_bcap : nat; s_ecap : nat }.
Definition zeroHistSnap : HistSnap := mkSnap false 0 (S754_zero false) [] [] 0 0.

Definition Fit (nbuckets : nat) (h : HistSnap) : HistSnap :=
  if decide (s_bcap h < nbuckets)%nat then mkSnap (Present h) (s_Count h) (s_Sum h) [] [] nbuckets nbuckets else h.

Section Copy.
(** What [append] grows a slice of this capacity to, to hold so many. *)
Context (grown : nat -> nat -> nat).

Definition append_cap (cap n : nat) : nat := if decide (n <= cap)%nat then cap else grown cap n.

Definition CopyFrom (src : Hist) (h : HistSnap) : HistSnap :=
  let bs := default [] (Buckets src) in
  let ex := filter (fun e => Is_set e = true) (default [] (Ex src)) in
  mkSnap (bool_decide (is_Some (Buckets src))) (Count src) (Sum src) bs ex
    (append_cap (s_bcap h) (length bs)) (append_cap (s_ecap h) (length ex)).
End Copy.

(** A snapshot's contents: its arrays without their spare capacity. *)
Definition contents (h : HistSnap) : HistSnap := mkSnap (Present h) (s_Count h) (s_Sum h) (s_Buckets h) (s_Ex h) 0 0.

(** ** Data points *)

Notation attributes := (list (bytes * bytes)).

Record NumberPoint := mkNumber { n_attrs : attributes; n_start : Z; n_ts : Z; n_int : Z }.
Record HistPoint := mkPoint {
  p_attrs : attributes; p_start : Z; p_ts : Z; p_count : Z; p_sum : float64; p_bounds : list float64; p_buckets : list Z;
  p_exemplars : list (float64 * Z * Z * Z) }.

Inductive MetricData := SumData (pts : list NumberPoint) | HistData (pts : list HistPoint).
Record Metric := mkMetric { m_name : bytes; m_unit : bytes; m_data : MetricData }.

Definition PutExemplar (e : Exemplar) : float64 * Z * Z * Z := (Value e, TS e, TraceID e, SpanID e).

Definition PutHistPoint (attrs : attributes) (h : HistSnap) (bounds : list float64) (start ts : Z) : HistPoint :=
  mkPoint attrs start ts (s_Count h) (s_Sum h) bounds (s_Buckets h) (PutExemplar <$> s_Ex h).

Definition unit_seconds : bytes := [115].
Definition SumMetric (name unit : bytes) (pts : list NumberPoint) : Metric := mkMetric name unit (SumData pts).
Definition HistMetric (name : bytes) (pts : list HistPoint) : Metric := mkMetric name unit_seconds (HistData pts).

Definition DataPointCount (m : Metric) : nat :=
  match m_data m with SumData pts => length pts | HistData pts => length pts end.
Definition noDataPoints (m : Metric) : bool := bool_decide (DataPointCount m = 0%nat).

Definition ClampStart (start ts : Z) : Z := if decide (start > ts) then ts else start.

(** The end and start of a span are 64-bit nanosecond counts. *)
Definition SpanSeconds (start fin : Z) : float64 :=
  if decide (fin <= start) then S754_zero false
  else SFdiv 53 1024 (binary_normalize 53 1024 (fin - start) 0 false) (binary_normalize 53 1024 1000000000 0 false).

(** ** Bounds and label names *)

(** The index and the reason of the first bad bound. *)
Inductive bound_error := NotPositive | NotIncreasing.
Fixpoint bounds_from (i : nat) (prev : float64) (bounds : list float64) : option (nat * bound_error) :=
  match bounds with
  | [] => None
  | b :: t =>
      if float_le b (S754_zero false) then Some (i, NotPositive)
      else if bool_decide (0 < i)%nat && float_le b prev then Some (i, NotIncreasing)
      else bounds_from (S i) b t
  end.
Definition ValidateBuckets (bounds : list float64) : option (nat * bound_error) := bounds_from 0 (S754_zero false) bounds.

Notation Builtins := (gset (list Z)).

Inductive drop_reason := EmptyName | Collides | Repeats.

(** Kept names in order, and one warning per name left out. *)
Fixpoint filter_from (b : Builtins) (i : nat) (seen : Builtins) (names : list bytes) : list bytes * list (nat * bytes * drop_reason) :=
  match names with
  | [] => ([], [])
  | n :: t =>
      let drop why := let '(kept, warns) := filter_from b (S i) seen t in (kept, (i, n, why) :: warns) in
      if decide (n = []) then drop EmptyName
      else if decide (n ∈ b) then drop Collides
      else if decide (n ∈ seen) then drop Repeats
      else let '(kept, warns) := filter_from b (S i) ({[n]} ∪ seen) t in (n :: kept, warns)
  end.
Definition Configure (b : Builtins) (names : list bytes) : list bytes := (filter_from b 0 ∅ names).1.
Definition DimensionWarnings (b : Builtins) (names : list bytes) : list (nat * bytes * drop_reason) := (filter_from b 0 ∅ names).2.

(** * Keys and histograms

    A series key determines its parts, and a histogram's buckets always add up
    to its count with every exemplar in its own bucket. *)


(** ** Keys *)

Lemma marked_byte n : Z.lor (to_byte n) 0x80 = n mod 128 + 128.
Proof.
  assert (H : forallb (fun i => Z.lor (Z.of_nat i) 0x80 =? Z.of_nat i mod 128 + 128) (seq 0 256) = true) by (vm_compute; reflexivity).
  rewrite forallb_forall in H. unfold to_byte. pose proof (Z.mod_pos_bound n 256). specialize (H (Z.to_nat (n mod 256))).
  rewrite Z2Nat.id in H by lia. apply Z.eqb_eq in H.
  - rewrite H. f_equal. change 256 with (128 * 2). by rewrite Znumtheory.Zmod_div_mod with (n := 128) (m := 128 * 2) (a := n); [|lia|lia|exists 2].
  - apply in_seq. lia.
Qed.

Lemma uvarint_step fuel n : 0 <= n <= Z.of_nat fuel ->
  (n < 128 /\ uvarint fuel n = [n]) \/
  (128 <= n /\ exists fuel', fuel = S fuel' /\ 0 <= n / 128 <= Z.of_nat fuel' /\ uvarint fuel n = (n mod 128 + 128) :: uvarint fuel' (n / 128)).
Proof.
  intros Hn. destruct (decide (n < 128)) as [Hlt|Hge].
  - left. split; [done|]. assert (to_byte n = n) as E by (unfold to_byte; rewrite Z.mod_small; lia).
    destruct fuel as [|fuel]; cbn [uvarint]; [by rewrite E|]. destruct (0x80 <=? n) eqn:Eb; bool_norm; [lia|by rewrite E].
  - right. split; [lia|]. destruct fuel as [|fuel]; [lia|]. exists fuel. split; [done|]. cbn [uvarint].
    destruct (0x80 <=? n) eqn:Eb; bool_norm; [|lia]. rewrite marked_byte, Z.shiftr_div_pow2 by lia. change (2 ^ 7) with 128.
    split; [|done]. split; [apply Z.div_pos; lia|]. assert (n / 128 < n); [apply Z.div_lt; lia|lia].
Qed.

(** No length is the start of another. *)
Lemma uvarint_prefix fuel : forall fuel' n m x y, 0 <= n <= Z.of_nat fuel -> 0 <= m <= Z.of_nat fuel' ->
  uvarint fuel n ++ x = uvarint fuel' m ++ y -> n = m /\ x = y.
Proof.
  induction fuel as [|fuel IH]; intros fuel' n m x y Hn Hm E;
    destruct (uvarint_step _ n Hn) as [[N1 N2]|(N1 & f1 & N2 & N3 & N4)]; destruct (uvarint_step _ m Hm) as [[M1 M2]|(M1 & f2 & M2 & M3 & M4)];
    rewrite ?N4, ?N2, ?M4, ?M2 in E; cbn [app] in E; try (injection E as E1 E2); try (by subst);
    pose proof (Z.mod_pos_bound n 128); pose proof (Z.mod_pos_bound m 128); try lia; try discriminate N2.
  - injection N2 as <-.
    destruct (IH f2 (n / 128) (m / 128) x y N3 M3 E2) as [E3 E4]. split; [|done].
    pose proof (Z.div_mod n 128). pose proof (Z.div_mod m 128). lia.
Qed.

Definition part (v : bytes) : bytes := uvarint (length v) (Z.of_nat (length v)) ++ v.

Lemma AppendKeyPart_part dst v : AppendKeyPart dst v = dst ++ part v.
Proof. done. Qed.

Lemma part_prefix v w x y : part v ++ x = part w ++ y -> v = w /\ x = y.
Proof.
  unfold part. rewrite <- !app_assoc. intros E. apply uvarint_prefix in E as [E1 E2]; [|lia|lia].
  apply app_inj_1 in E2; [done|lia].
Qed.

Lemma part_nonempty v : part v <> [].
Proof.
  unfold part. destruct (uvarint_step (length v) (Z.of_nat (length v))) as [[_ ->]|(_ & f & _ & _ & ->)]; [lia|done|done].
Qed.

Lemma parts_inj vs : forall ws, concat (part <$> vs) = concat (part <$> ws) -> vs = ws.
Proof.
  induction vs as [|v vs IH]; intros [|w ws] E; cbn in E; [done| | |].
  - symmetry in E. apply app_eq_nil in E as [E _]. by apply part_nonempty in E.
  - apply app_eq_nil in E as [E _]. by apply part_nonempty in E.
  - apply part_prefix in E as [-> E]. by rewrite (IH ws).
Qed.

(** [PutStr] on a map without the key: the documented insert. *)
Definition puts_new (PutStr : bytes -> bytes -> attributes -> attributes) : Prop :=
  forall k v a, k ∉ a.*1 -> PutStr k v a = a ++ [(k, v)].

Lemma put_distinct PutStr ls : puts_new PutStr -> NoDup ls.*1 -> foldl (fun a l => PutStr l.1 l.2 a) [] ls = ls.
Proof.
  intros Hput. enough (forall a, NoDup (a ++ ls).*1 -> foldl (fun a l => PutStr l.1 l.2 a) a ls = a ++ ls) as H by apply (H []).
  induction ls as [|[k v] ls IH]; intros a Hn; cbn [foldl]; [by rewrite app_nil_r|]. cbn [fst snd].
  rewrite Hput.
  - rewrite IH; [by rewrite <- app_assoc|]. by rewrite <- app_assoc.
  - rewrite fmap_app, fmap_cons in Hn. apply NoDup_app in Hn as (_ & Hn & _). intros Hk. apply (Hn k Hk). by left.
Qed.

(** ** Label names *)

Lemma filter_from_spec b names : forall i seen, let kept := (filter_from b i seen names).1 in
  NoDup kept /\ (forall n, n ∈ kept -> n ∈ names /\ n <> [] /\ n ∉ b /\ n ∉ seen).
Proof.
  induction names as [|n names IH]; intros i seen; cbn [filter_from].
  { split; [constructor|]. by intros n Hn%not_elem_of_nil. }
  assert (Hskip : forall why, let kept := (let '(kept, warns) := filter_from b (S i) seen names in (kept, (i, n, why) :: warns)).1 in
    NoDup kept /\ (forall m, m ∈ kept -> m ∈ n :: names /\ m <> [] /\ m ∉ b /\ m ∉ seen)).
  { intros why. destruct (IH (S i) seen) as [I1 I2]. destruct (filter_from b (S i) seen names) as [kept warns]. cbn in *.
    split; [done|]. intros m Hm. destruct (I2 m Hm) as (? & ? & ? & ?). split; [by right|done]. }
  destruct (decide (n = [])) as [|Hn0]; [apply Hskip|]. destruct (decide (n ∈ b)) as [|Hnb]; [apply Hskip|].
  destruct (decide (n ∈ seen)) as [|Hns]; [apply Hskip|].
  destruct (IH (S i) ({[n]} ∪ seen)) as [I1 I2]. destruct (filter_from b (S i) ({[n]} ∪ seen) names) as [kept warns]. cbn in *. split.
  - constructor; [|done]. intros Hk. destruct (I2 n Hk) as (_ & _ & _ & H). set_solver.
  - intros m [-> | Hm]%elem_of_cons; [split; [by left|done]|]. destruct (I2 m Hm) as (? & ? & ? & ?). split; [by right|]. set_solver.
Qed.

Lemma Configure_spec b names : NoDup (Configure b names) /\ forall n, n ∈ Configure b names -> n ∈ names /\ n <> [] /\ n ∉ b.
Proof. destruct (filter_from_spec b names 0 ∅) as [H1 H2]. split; [done|]. intros n Hn. by destruct (H2 n Hn) as (? & ? & ? & _). Qed.

(** ** Histograms *)

Definition sum_list (l : list Z) : Z := foldr Z.add 0 l.

Lemma u64_mod_l a b : u64 (u64 a + b) = u64 (a + b).
Proof. unfold u64. by rewrite Zplus_mod_idemp_l. Qed.

Lemma sum_alter i l x : l !! i = Some x -> u64 (sum_list (alter (fun n => u64 (n + 1)) i l)) = u64 (sum_list l + 1).
Proof.
  revert i. induction l as [|y l IH]; intros i Hi; [done|]. destruct i as [|i].
  - cbn in Hi. injection Hi as ->. change (u64 (u64 (x + 1) + sum_list l) = u64 (x + sum_list l + 1)). rewrite u64_mod_l. f_equal. lia.
  - specialize (IH i Hi). change (u64 (y + sum_list (alter (fun n => u64 (n + 1)) i l)) = u64 (y + sum_list l + 1)).
    rewrite Z.add_comm, <- u64_mod_l, IH, u64_mod_l. f_equal. lia.
Qed.

Section Sound.
Context (bounds : list float64).

Lemma BucketIndex_bound v : (BucketIndex bounds v <= length bounds)%nat.
Proof. induction bounds as [|b l IH]; cbn; [lia|]. destruct (float_le v b); lia. Qed.

(** Each exemplar is a request of its own bucket, with a trace to look up. *)
Definition exemplars_ok (ex : list Exemplar) : Prop :=
  length ex = S (length bounds) /\
  forall i e, ex !! i = Some e -> Is_set e = true -> BucketIndex bounds (Value e) = i /\ TraceID e <> 0.

Record hist_ok (h : Hist) : Prop := {
  h_count : Count h = u64 (sum_list (default [] (Buckets h)));
  h_len bs : Buckets h = Some bs -> length bs = S (length bounds) /\ Forall (fun n => 0 <= n < 2 ^ 64) bs;
  h_ex ex : Ex h = Some ex -> exemplars_ok ex }.

Lemma zeroHist_ok : hist_ok zeroHist.
Proof. by split. Qed.

Lemma sum_replicate n : sum_list (replicate n 0) = 0.
Proof. induction n; [done|]. cbn. done. Qed.

Lemma Observe_ok v h : hist_ok h -> hist_ok (Observe (BucketIndex bounds v) (S (length bounds)) v h).
Proof.
  intros [Hc Hl He]. unfold Observe. pose proof (BucketIndex_bound v) as Hb.
  set (bs := default (replicate (S (length bounds)) 0) (Buckets h)).
  assert (Hbs : length bs = S (length bounds) /\ Forall (fun n => 0 <= n < 2 ^ 64) bs).
  { unfold bs. destruct (Buckets h) as [l|] eqn:E; [by apply Hl|]. cbn [default]. split; [by rewrite length_replicate|].
    apply Forall_replicate. lia. }
  assert (Hsum : Count h = u64 (sum_list bs)).
  { rewrite Hc. unfold bs. destruct (Buckets h); [done|]. cbn [default]. by rewrite sum_replicate. }
  destruct Hbs as [Hlen Hall]. split; cbn [Count Buckets Ex].
  - destruct (lookup_lt_is_Some_2 bs (BucketIndex bounds v)) as [x Hx]; [lia|].
    change (default [] (Some (alter (fun n => u64 (n + 1)) (BucketIndex bounds v) bs))) with (alter (fun n => u64 (n + 1)) (BucketIndex bounds v) bs).
    by rewrite (sum_alter _ _ _ Hx), Hsum, u64_mod_l.
  - intros l [= <-]. split; [by rewrite length_alter|]. apply Forall_alter; [done|]. intros x _ _. pose proof (u64_range (x + 1)). lia.
  - done.
Qed.

Lemma SetExemplar_ok v ts tid sid h : hist_ok h -> hist_ok (SetExemplar (BucketIndex bounds v) (S (length bounds)) v ts tid sid h).
Proof.
  intros [Hc Hl He]. split; [done|done|]. cbn [Ex SetExemplar]. unfold RecordExemplar. intros ex. case_decide as Ht; [by apply He|].
  intros [= <-]. set (old := default (replicate (S (length bounds)) noExemplar) (Ex h)).
  assert (Hold : exemplars_ok old).
  { unfold old. destruct (Ex h) as [l|] eqn:E; [by apply He|]. cbn [default]. split; [by rewrite length_replicate|].
    intros i e Hi. apply lookup_replicate in Hi as [-> _]. done. }
  destruct Hold as [Ho1 Ho2]. split; [by rewrite length_insert|]. intros i e Hi. apply list_lookup_insert_Some in Hi as [(<- & <- & _)|[_ Hi]]; [|by eauto].
  done.
Qed.

Lemma ClearExemplars_ok h : hist_ok h -> hist_ok (Hist_ClearExemplars h).
Proof.
  intros [Hc Hl He]. split; [done|done|]. cbn [Ex Hist_ClearExemplars ClearExemplars]. unfold ClearExemplars. intros ex. destruct (Ex h) as [l|] eqn:E; [|done].
  intros [= <-]. destruct (He l eq_refl) as [H1 H2]. split; [by rewrite length_map|]. intros i e Hi. change (map unset l) with (unset <$> l) in Hi. rewrite list_lookup_fmap in Hi.
  destruct (l !! i); [|done]. by injection Hi as <-.
Qed.

Lemma set_exemplars_sorted ex : forall off,
  (forall i e, ex !! i = Some e -> Is_set e = true -> BucketIndex bounds (Value e) = (off + i)%nat /\ TraceID e <> 0) ->
  StronglySorted Nat.lt ((fun e => BucketIndex bounds (Value e)) <$> filter (fun e => Is_set e = true) ex) /\
  Forall (fun e => (off <= BucketIndex bounds (Value e))%nat /\ TraceID e <> 0) (filter (fun e => Is_set e = true) ex).
Proof.
  induction ex as [|e ex IH]; intros off H; [by split; constructor|].
  destruct (IH (S off)) as [I1 I2]. { intros i e' Hi He. destruct (H (S i) e' Hi He). split; [lia|done]. }
  rewrite filter_cons. case_decide as Hs.
  - destruct (H 0%nat e eq_refl Hs) as [E1 E2]. rewrite fmap_cons. split; constructor; try done.
    + apply Forall_fmap. eapply Forall_impl; [exact I2|]. cbn. intros a [Ha _]. unfold Nat.lt. lia.
    + split; [lia|done].
    + eapply Forall_impl; [exact I2|]. cbn. intros a [Ha ?]. split; [lia|done].
  - split; [done|]. eapply Forall_impl; [exact I2|]. cbn. intros a [Ha ?]. split; [lia|done].
Qed.

Record point_ok (ts : Z) (p : HistPoint) : Prop := {
  pt_buckets : length (p_buckets p) = S (length bounds) /\ p_bounds p = bounds;
  pt_count : p_count p = u64 (sum_list (p_buckets p));
  pt_times : p_start p <= p_ts p /\ p_ts p = ts;
  pt_exemplars : StronglySorted Nat.lt ((fun e => BucketIndex bounds e.1.1.1) <$> p_exemplars p) /\
    Forall (fun e => e.1.2 <> 0) (p_exemplars p) }.

Definition metric_ok (ts : Z) (m : Metric) : Prop :=
  match m_data m with
  | SumData pts => pts <> [] /\ Forall (fun n => n_start n <= n_ts n /\ n_ts n = ts) pts
  | HistData pts => pts <> [] /\ Forall (point_ok ts) pts
  end.

Lemma ClampStart_le start ts : ClampStart start ts <= ts.
Proof. unfold ClampStart. case_decide; lia. Qed.

Lemma PutHistPoint_ok grown attrs h start ts : hist_ok h -> Present (contents (CopyFrom grown h zeroHistSnap)) = true ->
  point_ok ts (PutHistPoint attrs (contents (CopyFrom grown h zeroHistSnap)) bounds (ClampStart start ts) ts).
Proof.
  intros [Hc Hl He] Hp. cbn [contents CopyFrom Present] in Hp.
  apply bool_decide_eq_true in Hp as [bs Hbs]. rewrite Hbs in Hc. unfold PutHistPoint.
  split; cbn [p_buckets p_count p_start p_ts p_bounds p_exemplars contents CopyFrom s_Buckets s_Count s_Ex]; rewrite ?Hbs; cbn [default].
  - split; [|done]. by apply (Hl bs).
  - exact Hc.
  - split; [apply ClampStart_le|done].
  - rewrite <- list_fmap_compose, Forall_fmap. destruct (Ex h) as [ex|] eqn:Ee; cbn [default]; [|by split; constructor].
    destruct (He ex eq_refl) as [_ H]. destruct (set_exemplars_sorted ex 0) as [S1 S2]; [exact H|]. split; [exact S1|].
    eapply Forall_impl; [exact S2|]. by intros a [_ ?].
Qed.

End Sound.
