(* ===== verification/CumAgg.v ===== *)
(** * Cumulative series ([internal/agent/cumagg]: [cumagg.go], [snapshot.go])

    The series map, the observed/rendered/delivered gate, the chunked snapshot
    and the export transaction, with its locks.  What an aggregator plugs in is
    the class [Aggregate]; its laws are [AggregateLaws].  Series are shared by
    pointer (the map, the render's list and the delivery mark hold the same
    one), so they live in a heap.

    Exports run as threads of a transition system whose steps are the code's
    holds of the series mutex, with observations between any two of them.  The
    system also records what was observed and what was sent; no step reads
    those records. *)

From S2P Require Import Prelude Clip Number Hist.
Local Open Scope Z_scope.

Notation ptr := nat.

Inductive State := Observed | Rendered | Delivered.
Record Meta := mkMeta { Start : Z; LastSeen : Z; state : State }.

#[export] Instance state_eq_dec : EqDecision State.
Proof. solve_decision. Defined.

(** What an aggregator brings: its observations, its series without the shared
    bookkeeping, the snapshot slot a series is copied into, and its payload. *)
Class Aggregate := {
  Obs : Type;
  Series : Type;
  Snap : Type;
  Reading : Type;
  obs_key : Obs -> bytes;
  NewSeries : Series;
  materialize : Obs -> Series -> Series;
  fold_in : Z -> Obs -> Series -> Series;
  ResetExemplars : Series -> Series;
  zeroSnap : Snap;
  FitSlot : Snap -> Snap;
  Release : Snap -> Snap;
  CopyLocked : Meta -> Series -> Snap -> Snap;
  reading : Snap -> Reading;
  build : Z -> list Reading -> list Metric;
}.

(** What the store relies on: a copy is a function of the series, clearing the
    exemplars leaves the cumulative values, and a payload of no series has no
    point. *)
Class AggregateLaws (A : Aggregate) := {
  Values : Type;
  values : Series -> Values;
  reading_of : Meta -> Series -> Reading;
  reading_values : Reading -> Values;
  reading_start : Reading -> Z;
  values_fold now o v w : values v = values w -> values (fold_in now o v) = values (fold_in now o w);
  values_reset v : values (ResetExemplars v) = values v;
  reading_copy m v e : reading (CopyLocked m v e) = reading_of m v;
  values_copy m v : reading_values (reading_of m v) = values v;
  start_copy m v : reading_start (reading_of m v) = Start m;
  build_none ts : filter (fun m => noDataPoints m = false) (build ts []) = [];
  build_some ts r rs : filter (fun m => noDataPoints m = false) (build ts (r :: rs)) <> [];
}.

Section CumAgg.
Context {A : Aggregate}.

Record Store := mkStore {
  MaxCardinality : Z; StaleAfter : Z;
  heap : gmap ptr (Meta * Series); brk : ptr;
  series : gmap bytes ptr;
  rendered : list ptr;
  capRefused : Z; Dropped : Z; Evicted : Z;
  token : bool }.

(** The token starts free. *)
Definition NewStore (maxCardinality staleAfter : Z) : Store :=
  mkStore maxCardinality staleAfter ∅ 0 ∅ [] 0 0 0 true.

Definition set_heap (v : gmap ptr (Meta * Series)) (x : Store) : Store :=
  mkStore (MaxCardinality x) (StaleAfter x) v (brk x) (series x) (rendered x) (capRefused x) (Dropped x) (Evicted x) (token x).
Definition set_series (v : gmap bytes ptr) (x : Store) : Store :=
  mkStore (MaxCardinality x) (StaleAfter x) (heap x) (brk x) v (rendered x) (capRefused x) (Dropped x) (Evicted x) (token x).
Definition set_rendered (v : list ptr) (x : Store) : Store :=
  mkStore (MaxCardinality x) (StaleAfter x) (heap x) (brk x) (series x) v (capRefused x) (Dropped x) (Evicted x) (token x).
Definition set_evicted (v : Z) (x : Store) : Store :=
  mkStore (MaxCardinality x) (StaleAfter x) (heap x) (brk x) (series x) (rendered x) (capRefused x) (Dropped x) v (token x).
Definition set_capRefused (v : Z) (x : Store) : Store :=
  mkStore (MaxCardinality x) (StaleAfter x) (heap x) (brk x) (series x) (rendered x) v (Dropped x) (Evicted x) (token x).
Definition set_token (v : bool) (x : Store) : Store :=
  mkStore (MaxCardinality x) (StaleAfter x) (heap x) (brk x) (series x) (rendered x) (capRefused x) (Dropped x) (Evicted x) v.
Definition at_ptr (p : ptr) (g : Meta * Series -> Meta * Series) (x : Store) : Store := set_heap (alter g p (heap x)) x.

(** ** The steps under the mutex *)

Definition AdmitLocked (key : bytes) (now : Z) (s : Store) : Store * option (ptr * bool) :=
  match series s !! key with
  | Some p => (s, Some (p, false))
  | None =>
      if decide (MaxCardinality s <= Z.of_nat (size (series s))) then
        (mkStore (MaxCardinality s) (StaleAfter s) (heap s) (brk s) (series s) (rendered s) (u64 (capRefused s + 1))
           (Dropped s + 1) (Evicted s) (token s), None)
      else
        (mkStore (MaxCardinality s) (StaleAfter s) (<[brk s := (mkMeta now 0 Observed, NewSeries)]> (heap s)) (S (brk s))
           (<[key := brk s]> (series s)) (rendered s) (capRefused s) (Dropped s) (Evicted s) (token s), Some (brk s, true))
  end.

Definition ObservedLocked (p : ptr) (now : Z) (s : Store) : Store :=
  at_ptr p (fun mv => (mkMeta (Start mv.1) now Observed, mv.2)) s.

Definition MarkRenderedLocked (p : ptr) (s : Store) : Store :=
  set_rendered (rendered s ++ [p]) (at_ptr p (fun mv => (mkMeta (Start mv.1) (LastSeen mv.1) Rendered, mv.2)) s).

Definition stale (staleAfter now : Z) (m : Meta) : bool :=
  (0 <? staleAfter) && bool_decide (state m = Delivered) && (staleAfter <? time_sub now (LastSeen m)).

(** The walk of the map in the order [range] yields its entries. *)
Fixpoint live_walk (order : list (bytes * ptr)) (now : Z) (s : Store) : Store * list ptr :=
  match order with
  | [] => (s, [])
  | (k, p) :: rest =>
      match heap s !! p with
      | None => live_walk rest now s
      | Some (m, _) =>
          if stale (StaleAfter s) now m then live_walk rest now (set_evicted (Evicted s + 1) (set_series (delete k (series s)) s))
          else let '(s, dst) := live_walk rest now s in (s, p :: dst)
      end
  end.
Definition LivePointersLocked (order : list (bytes * ptr)) (now : Z) (s : Store) : Store * list ptr := live_walk order now s.

Definition Len (s : Store) : nat := size (series s).

Definition resetRendered (s : Store) : Store := set_rendered [] s.

Definition markDeliveredLocked (p : ptr) (s : Store) : Store :=
  at_ptr p (fun mv => (if decide (state mv.1 = Rendered) then mkMeta (Start mv.1) (LastSeen mv.1) Delivered else mv.1,
                       ResetExemplars mv.2)) s.

(** ** The render scratch *)

(** [slots] is the whole backing array, [used] the length of the slice. *)
Record Snapshotter := mkSnapshotter { slots : list Snap; used : nat; small : nat }.
Definition newSnapshotter : Snapshotter := mkSnapshotter [] 0 0.

Definition snapShrinkFactor : nat := 4.
Definition snapShrinkRuns : nat := 3.
Definition snapShrinkFloor : nat := 64.

(** The verdict and the run length it keeps. *)
Definition oversized (n : nat) (sn : Snapshotter) : bool * nat :=
  if bool_decide (length (slots sn) <= snapShrinkFloor)%nat || bool_decide (length (slots sn) <= n * snapShrinkFactor)%nat
  then (false, 0%nat)
  else (bool_decide (snapShrinkRuns <= S (small sn))%nat, S (small sn)).

(** Every slot of the length passes [Fit] at the end. *)
Definition fit_used (sn : Snapshotter) : Snapshotter :=
  mkSnapshotter ((FitSlot <$> take (used sn) (slots sn)) ++ drop (used sn) (slots sn)) (used sn) (small sn).

Definition grow (n : nat) (sn : Snapshotter) : Snapshotter :=
  fit_used
    (if decide (length (slots sn) < n)%nat then
       mkSnapshotter (take (used sn) (slots sn) ++ replicate (n - used sn) zeroSnap) n 0
     else
       let '(over, run) := oversized n sn in
       if over then mkSnapshotter (replicate (snapShrinkFloor `max` (2 * n)) zeroSnap) n 0
       else mkSnapshotter (take n (slots sn) ++ (Release <$> drop n (slots sn))) n run).

(** ** Chunks *)

Definition snapChunk : nat := 512.

(** One hold: [f] on the entries of the chunk that starts at [start]. *)
Fixpoint each_from {X} (f : nat -> ptr -> X -> X) (i : nat) (ps : list ptr) (x : X) : X :=
  match ps with
  | [] => x
  | p :: ps => each_from f (S i) ps (f i p x)
  end.
Definition eachChunk {X} (f : nat -> ptr -> X -> X) (start : nat) (ptrs : list ptr) (x : X) : X :=
  each_from f start (take snapChunk (drop start ptrs)) x.

(** The value copy of one series into slot [i]. *)
Definition take_one (i : nat) (p : ptr) (x : Store * Snapshotter) : Store * Snapshotter :=
  let s := MarkRenderedLocked p x.1 in
  match heap s !! p with
  | None => x
  | Some (m, v) => (s, mkSnapshotter (alter (CopyLocked m v) i (slots x.2)) (used x.2) (small x.2))
  end.

Definition mark_one (_ : nat) (p : ptr) (s : Store) : Store := markDeliveredLocked p s.

(** [Render], from the snapshot: the populated metrics. *)
Definition Render (now : Z) (rs : list Reading) : list Metric := filter (fun m => noDataPoints m = false) (build now rs).

(** ** Exports as threads *)

Record payload := mkPayload { y_ts : Z; y_entries : list (ptr * nat * Reading); y_metrics : list Metric }.

(** Where an [Export] call is.  [seen] counts, for each series copied so far,
    the observations it held. *)
Inductive phase :=
| Waiting
| Entered
| Walking (now : Z)
| Copying (now : Z) (ptrs : list ptr) (seen : list nat)
| Sending (y : payload)
| Acked
| Marking (ptrs : list ptr) (start : nat)
| Leaving
| Releasing.

Record sys := mkSys {
  store : Store; snaps : Snapshotter; threads : gmap nat phase; nextThread : nat;
  lines : list Z; reporting : bool;
  taken : gmap ptr (list (Z * Obs)); refused : list Obs; sent : list (payload * bool) }.

Definition init (maxCardinality staleAfter : Z) : sys :=
  mkSys (NewStore maxCardinality staleAfter) newSnapshotter ∅ 0 [] false ∅ [] [].

Definition with_store (v : Store) (x : sys) : sys :=
  mkSys v (snaps x) (threads x) (nextThread x) (lines x) (reporting x) (taken x) (refused x) (sent x).
Definition with_phase (t : nat) (v : phase) (x : sys) : sys :=
  mkSys (store x) (snaps x) (<[t := v]> (threads x)) (nextThread x) (lines x) (reporting x) (taken x) (refused x) (sent x).
Definition with_sent (v : list (payload * bool)) (x : sys) : sys :=
  mkSys (store x) (snaps x) (threads x) (nextThread x) (lines x) (reporting x) (taken x) (refused x) v.

(** One observation: admission, the fold and the mark, in one hold. *)
Definition observe (now : Z) (o : Obs) (s : Store) : Store * option ptr :=
  match AdmitLocked (obs_key o) now s with
  | (s, None) => (s, None)
  | (s, Some (p, fresh)) =>
      let s := at_ptr p (fun mv => (mv.1, fold_in now o (if fresh then materialize o mv.2 else mv.2))) s in
      (ObservedLocked p now s, Some p)
  end.

Definition record (now : Z) (o : Obs) (x : sys) : sys :=
  match observe now o (store x) with
  | (s, Some p) =>
      mkSys s (snaps x) (threads x) (nextThread x) (lines x) (reporting x)
        (<[p := default [] (taken x !! p) ++ [(now, o)]]> (taken x)) (refused x) (sent x)
  | (s, None) =>
      mkSys s (snaps x) (threads x) (nextThread x) (lines x) (reporting x) (taken x) (refused x ++ [o]) (sent x)
  end.

Definition held (x : sys) (p : ptr) : nat := length (default [] (taken x !! p)).

(** The slots of a finished copy. *)
Definition readings (n : nat) (sn : Snapshotter) : list Reading := reading <$> take n (slots sn).

(** The next hold of thread [t]: [now] is a clock reading, [order] the order
    the map yields its entries in, [ok] whether the collector accepts. *)
Definition advance (t : nat) (ph : phase) (now : Z) (order : list (bytes * ptr)) (ok : bool) (x : sys) : option sys :=
  let s := store x in
  match ph with
  | Waiting => if token s then Some (with_phase t Entered (with_store (set_token false s) x)) else None
  | Entered => Some (with_phase t (Walking now) (with_store (resetRendered s) x))
  | Walking now0 =>
      let '(s, ptrs) := LivePointersLocked order now0 s in
      Some (mkSys s (grow (length ptrs) (snaps x)) (<[t := Copying now0 ptrs []]> (threads x)) (nextThread x)
              (lines x) (reporting x) (taken x) (refused x) (sent x))
  | Copying now0 ptrs seen =>
      let start := length seen in
      if decide (start < length ptrs)%nat then
        let '(s, sn) := eachChunk take_one start ptrs (s, snaps x) in
        Some (mkSys s sn (<[t := Copying now0 ptrs (seen ++ (held x <$> take snapChunk (drop start ptrs)))]> (threads x))
                (nextThread x) (lines x) (reporting x) (taken x) (refused x) (sent x))
      else
        let rs := readings (length ptrs) (snaps x) in
        match Render now0 rs with
        | [] => Some (with_phase t Leaving x)
        | md => Some (with_phase t (Sending (mkPayload now0 (zip (zip ptrs seen) rs) md)) x)
        end
  | Sending y => Some (with_phase t (if ok then Acked else Leaving) (with_sent (sent x ++ [(y, ok)]) x))
  | Acked => Some (with_phase t (Marking (rendered s) 0) x)
  | Marking ptrs start =>
      if decide (start < length ptrs)%nat then
        Some (with_phase t (Marking ptrs (start + snapChunk)) (with_store (eachChunk mark_one start ptrs s) x))
      else Some (with_phase t Leaving x)
  | Leaving => Some (with_phase t Releasing (with_store (resetRendered s) x))
  | Releasing =>
      Some (mkSys (set_token true s) (snaps x) (delete t (threads x)) (nextThread x) (lines x) (reporting x) (taken x)
              (refused x) (sent x))
  end.

Definition spawn (x : sys) : sys :=
  mkSys (store x) (snaps x) (<[nextThread x := Waiting]> (threads x)) (S (nextThread x)) (lines x) (reporting x)
    (taken x) (refused x) (sent x).

(** A caller whose context ends while another export holds the gate. *)
Definition abandon (t : nat) (x : sys) : sys :=
  mkSys (store x) (snaps x) (delete t (threads x)) (nextThread x) (lines x) (reporting x) (taken x) (refused x) (sent x).

(** [reportCapPressure]: the test, [allow] being the throttle's answer, and the
    swap that a refusal may come before. *)
Definition report_test (allow : bool) (x : sys) : sys :=
  if bool_decide (capRefused (store x) = 0) || negb allow then x
  else mkSys (store x) (snaps x) (threads x) (nextThread x) (lines x) true (taken x) (refused x) (sent x).
Definition report_swap (x : sys) : sys :=
  mkSys (set_capRefused 0 (store x)) (snaps x) (threads x) (nextThread x) (lines x ++ [capRefused (store x)]) false
    (taken x) (refused x) (sent x).

Inductive step : sys -> sys -> Prop :=
| step_observe now o x : step x (record now o x)
| step_spawn x : step x (spawn x)
| step_abandon t x : threads x !! t = Some Waiting -> step x (abandon t x)
| step_export t ph now order ok x y :
    threads x !! t = Some ph -> order ≡ₚ map_to_list (series (store x)) -> advance t ph now order ok x = Some y -> step x y
| step_report allow x : reporting x = false -> step x (report_test allow x)
| step_swap x : reporting x = true -> step x (report_swap x).

(** ** One export with nothing in between *)

Fixpoint run_export (fuel : nat) (t : nat) (now : Z) (ok : bool) (x : sys) : sys :=
  match fuel, threads x !! t with
  | S fuel, Some ph =>
      match advance t ph now (map_to_list (series (store x))) ok x with
      | Some y => run_export fuel t now ok y
      | None => x
      end
  | _, _ => x
  end.

(** Two chunked passes and nine other holds. *)
Definition export_fuel (x : sys) : nat := 9 + 2 * S (size (series (store x))).
Definition Export (now : Z) (ok : bool) (x : sys) : sys :=
  let t := nextThread x in run_export (export_fuel x) t now ok (spawn x).

End CumAgg.

(** * The invariant of cumulative aggregation

    What holds of the series map, of the values a series carries, of what was
    sent and of the one export that is past the gate, after any interleaving of
    observations, exports and reports. *)


Section Inv.
Context {A : Aggregate} {L : AggregateLaws A}.

Notation history := (gmap ptr (list (Z * Obs))).

(** The series that exactly these observations make. *)
Definition fold_all (l : list (Z * Obs)) : Series :=
  match l with
  | [] => NewSeries
  | (now, o) :: rest => foldl (fun v e => fold_in e.1 e.2 v) (fold_in now o (materialize o NewSeries)) rest
  end.

Lemma fold_all_snoc l now o : l <> [] -> fold_all (l ++ [(now, o)]) = fold_in now o (fold_all l).
Proof. destruct l as [|[t o'] l]; [done|]. intros _. cbn. by rewrite foldl_app. Qed.

Definition log (tk : history) (p : ptr) : list (Z * Obs) := default [] (tk !! p).

(** What folds and delivered exports can have made of a series. *)
Inductive made : Series -> Prop :=
| made_first now o : made (fold_in now o (materialize o NewSeries))
| made_fold now o v : made v -> made (fold_in now o v)
| made_reset v : made v -> made (ResetExemplars v).

(** An entry of a payload says what its series held after its first [k] observations. *)
Record entry_ok (tk : history) (p : ptr) (k : nat) (r : Reading) : Prop := {
  e_count : (1 <= k <= length (log tk p))%nat;
  e_values : reading_values r = values (fold_all (take k (log tk p)));
  e_start : exists o, head (log tk p) = Some (reading_start r, o);
  e_made : exists m v, made v /\ r = reading_of m v }.

(** And what it holds now, while its series is still marked. *)
Definition entry_fresh (s : Store) (tk : history) (p : ptr) (k : nat) : Prop :=
  forall m v, heap s !! p = Some (m, v) -> state m = Rendered -> k = length (log tk p).

Definition delivered_all (tk : history) (ys : list (payload * bool)) (p : ptr) : Prop :=
  exists y r, (y, true) ∈ ys /\ (p, length (log tk p), r) ∈ y_entries y.

(** The key of a series: the one its first observation was admitted under. *)
Definition first_key (tk : history) (p : ptr) : option bytes := (fun e => obs_key e.2) <$> head (log tk p).

Definition payload_ok (tk : history) (y : payload) : Prop :=
  (forall p k r, (p, k, r) ∈ y_entries y -> entry_ok tk p k r) /\ NoDup ((fun e => first_key tk e.1.1) <$> y_entries y) /\
  y_metrics y = Render (y_ts y) (snd <$> y_entries y) /\ y_entries y <> [].

(** What was sent of a series never shrinks. *)
Definition not_before (ys : list (payload * bool)) (p : ptr) (k : nat) : Prop :=
  forall y b k0 r0, (y, b) ∈ ys -> (p, k0, r0) ∈ y_entries y -> (k0 <= k)%nat.

Record core (M : Z) (s : Store) (tk : history) (rf : list Obs) (ys : list (payload * bool)) (ln : list Z) : Prop := {
  c_max : MaxCardinality s = M;
  c_inj k1 k2 p : series s !! k1 = Some p -> series s !! k2 = Some p -> k1 = k2;
  c_live k p : series s !! k = Some p -> (p < brk s)%nat;
  c_heap p : is_Some (heap s !! p) <-> (p < brk s)%nat;
  c_taken p : is_Some (tk !! p) -> (p < brk s)%nat;
  c_keys k p e : series s !! k = Some p -> e ∈ log tk p -> obs_key e.2 = k;
  c_values p m v : heap s !! p = Some (m, v) ->
    exists o rest, log tk p = (Start m, o) :: rest /\ values v = values (fold_all (log tk p));
  c_made p m v : heap s !! p = Some (m, v) -> made v;
  c_done p m v : heap s !! p = Some (m, v) -> (state m = Delivered \/ forall k, series s !! k <> Some p) -> delivered_all tk ys p;
  c_sent y b : (y, b) ∈ ys -> payload_ok tk y;
  c_order i j y1 b1 y2 b2 p k1 r1 k2 r2 : ys !! i = Some (y1, b1) -> ys !! j = Some (y2, b2) -> (i < j)%nat ->
    (p, k1, r1) ∈ y_entries y1 -> (p, k2, r2) ∈ y_entries y2 -> (k1 <= k2)%nat;
  c_cap : Z.of_nat (size (series s)) <= 0 `max` M;
  c_dropped : Dropped s = Z.of_nat (length rf);
  c_lines : u64 (foldr Z.add 0 ln + capRefused s) = u64 (Dropped s) }.

(** The parts of the store the invariant reads. *)
Lemma core_ext M s s' tk rf ys ln :
  MaxCardinality s' = MaxCardinality s -> heap s' = heap s -> brk s' = brk s -> series s' = series s ->
  Dropped s' = Dropped s -> capRefused s' = capRefused s -> core M s tk rf ys ln -> core M s' tk rf ys ln.
Proof. intros E1 E2 E3 E4 E5 E6 []. split; rewrite ?E1, ?E2, ?E3, ?E4, ?E5, ?E6; done. Qed.

(** ** The exports *)

Definition phase_ok (s : Store) (sn : Snapshotter) (tk : history) (ys : list (payload * bool)) (ph : phase) : Prop :=
  match ph with
  | Walking _ => rendered s = []
  | Copying _ ptrs seen =>
      NoDup (first_key tk <$> ptrs) /\ (length seen <= length ptrs <= length (slots sn))%nat /\ rendered s = take (length seen) ptrs /\
      Forall (fun p => (p < brk s)%nat /\ log tk p <> []) ptrs /\
      forall i p k, ptrs !! i = Some p -> seen !! i = Some k ->
        exists e, slots sn !! i = Some e /\ entry_ok tk p k (reading e) /\ entry_fresh s tk p k /\ not_before ys p k
  | Sending y =>
      payload_ok tk y /\ rendered s = (fun e => e.1.1) <$> y_entries y /\
      (forall p k r, (p, k, r) ∈ y_entries y -> entry_fresh s tk p k /\ not_before ys p k)
  | Acked => exists y, (y, true) ∈ ys /\ rendered s = (fun e => e.1.1) <$> y_entries y /\
      (forall p k r, (p, k, r) ∈ y_entries y -> entry_fresh s tk p k)
  | Marking ptrs _ => exists y, (y, true) ∈ ys /\ ptrs = (fun e => e.1.1) <$> y_entries y /\
      (forall p k r, (p, k, r) ∈ y_entries y -> entry_fresh s tk p k)
  | _ => True
  end.

Definition past_gate (ph : phase) : Prop := match ph with Waiting => False | _ => True end.

Record inv (M : Z) (x : sys) : Prop := {
  i_core : core M (store x) (taken x) (refused x) (sent x) (lines x);
  i_phase t ph : threads x !! t = Some ph -> phase_ok (store x) (snaps x) (taken x) (sent x) ph;
  i_gate t ph : threads x !! t = Some ph -> past_gate ph -> token (store x) = false /\
    forall t' ph', threads x !! t' = Some ph' -> past_gate ph' -> t' = t;
  i_free : token (store x) = false -> exists t ph, threads x !! t = Some ph /\ past_gate ph;
  i_next t : is_Some (threads x !! t) -> (t < nextThread x)%nat;
  i_scratch : (used (snaps x) <= length (slots (snaps x)))%nat }.

Lemma inv_init M S : inv M (init M S).
Proof.
  split; unfold init, NewStore; cbn [store snaps taken refused sent lines threads nextThread].
  - split; cbn [MaxCardinality heap brk series Dropped capRefused]; intros; rewrite ?lookup_empty in *; try done.
    + split; [by intros []|lia].
    + by apply not_elem_of_nil in H.
    + rewrite map_size_empty. lia.
  - intros t ph. by rewrite lookup_empty.
  - intros t ph. by rewrite lookup_empty.
  - done.
  - intros t. rewrite lookup_empty. by intros [].
  - done.
Qed.

(** ** Histories that grow *)

Definition grows (tk tk' : history) : Prop := forall p, log tk p `prefix_of` log tk' p.

Lemma grows_refl tk : grows tk tk.
Proof. by intros p. Qed.

Lemma entry_ok_mono tk tk' p k r : grows tk tk' -> entry_ok tk p k r -> entry_ok tk' p k r.
Proof.
  intros Hg [(H1 & H2) H3 (o & H4) H5]. destruct (Hg p) as [l Hl]. split; rewrite ?Hl.
  - rewrite length_app. lia.
  - by rewrite take_app_le by lia.
  - exists o. destruct (log tk p); [done|]. done.
  - done.
Qed.

Lemma first_key_mono tk tk' p : grows tk tk' -> log tk p <> [] -> first_key tk' p = first_key tk p.
Proof. intros Hg Hp. destruct (Hg p) as [l Hl]. unfold first_key. rewrite Hl. by destruct (log tk p). Qed.

Lemma payload_ok_mono tk tk' y : grows tk tk' -> payload_ok tk y -> payload_ok tk' y.
Proof.
  intros Hg (H1 & H2 & H3). split; [|split; [|done]].
  - intros p k r Hp. eapply entry_ok_mono; eauto.
  - erewrite list_fmap_ext; [exact H2|]. intros i [[p k] r] Hi. apply first_key_mono; [done|]. cbn.
    destruct (H1 p k r) as [Hk _ _ _]; [by eapply list_elem_of_lookup_2|]. intros E. rewrite E in Hk. cbn in Hk. lia.
Qed.

(** An entry stays fresh when its series was only unmarked, or not touched. *)
Definition unmarked (s s' : Store) (tk tk' : history) (p : ptr) : Prop :=
  forall m' v', heap s' !! p = Some (m', v') -> state m' = Rendered ->
    log tk' p = log tk p /\ exists m v, heap s !! p = Some (m, v) /\ state m = Rendered.

Lemma entry_fresh_mono s s' tk tk' p k : unmarked s s' tk tk' p -> entry_fresh s tk p k -> entry_fresh s' tk' p k.
Proof. intros Hu Hf m' v' Hp Hs. destruct (Hu m' v' Hp Hs) as (-> & m & v & H1 & H2). eauto. Qed.

Lemma phase_ok_mono s s' sn tk tk' ys ph :
  grows tk tk' -> (forall p, unmarked s s' tk tk' p) -> rendered s' = rendered s -> (brk s <= brk s')%nat ->
  phase_ok s sn tk ys ph -> phase_ok s' sn tk' ys ph.
Proof.
  intros Hg Hu Hr Hb. destruct ph; cbn; try done; rewrite ?Hr; try done.
  - intros (H1 & H2 & H3 & H4 & H5). split; [|split; [done|split; [done|split]]].
    { erewrite list_fmap_ext; [exact H1|]. intros i p Hi. apply first_key_mono; [done|]. by eapply Forall_lookup_1 in H4 as [_ H4]. }
    { eapply Forall_impl; [exact H4|]. cbn. intros p [Hp Hl]. split; [lia|]. destruct (Hg p) as [l ->]. by destruct (log tk p). }
    intros i p k Hi Hk. destruct (H5 i p k Hi Hk) as (e & E1 & E2 & E3 & E4). exists e.
    split; [done|split; [by eapply entry_ok_mono|split; [by eapply entry_fresh_mono|done]]].
  - intros (H1 & H2 & H3). split; [by eapply payload_ok_mono|split; [done|]].
    intros p k r Hp. destruct (H3 p k r Hp). split; [by eapply entry_fresh_mono|done].
  - intros (y & H1 & H2 & H3). exists y. split; [done|split; [done|]]. intros p k r Hp. eapply entry_fresh_mono; eauto.
  - intros (y & H1 & H2 & H3). exists y. split; [done|split; [done|]]. intros p k r Hp. eapply entry_fresh_mono; eauto.
Qed.

End Inv.
