(* ===== verification/CumAggRun.v ===== *)
(** * Every hold of cumulative aggregation preserves the invariant

    One lemma per hold of the series mutex: an observation, and each step of an
    export. *)

From S2P Require Import Prelude Clip Number Hist CumAgg.
Local Open Scope Z_scope.

Section Steps.
Context {A : Aggregate} {L : AggregateLaws A}.

Notation history := (gmap ptr (list (Z * Obs))).
Implicit Types (s : Store) (tk : history) (p q : ptr).

(** ** Observations *)

Lemma log_insert tk p l q : log (<[p := l]> tk) q = if decide (p = q) then l else log tk q.
Proof. unfold log. destruct (decide (p = q)) as [->|]; [by rewrite lookup_insert_eq|by rewrite lookup_insert_ne]. Qed.

Lemma grows_snoc tk p e : grows tk (<[p := log tk p ++ [e]]> tk).
Proof. intros q. rewrite log_insert. case_decide; [subst; by exists [e]|done]. Qed.

(** What one observation does to the store. *)
Record observed (now : Z) (o : Obs) (s s' : Store) (p : ptr) (m : Meta) (v : Series) : Prop := {
  o_heap : heap s' = <[p := (mkMeta (Start m) now Observed, fold_in now o v)]> (heap s);
  o_series : series s' = <[obs_key o := p]> (series s);
  o_max : MaxCardinality s' = MaxCardinality s;
  o_rendered : rendered s' = rendered s;
  o_dropped : Dropped s' = Dropped s /\ capRefused s' = capRefused s /\ token s' = token s;
  o_which : (series s !! obs_key o = Some p /\ heap s !! p = Some (m, v) /\ brk s' = brk s) \/
    (series s !! obs_key o = None /\ Z.of_nat (size (series s)) < MaxCardinality s /\ p = brk s /\ brk s' = S p /\
     Start m = now /\ v = materialize o NewSeries) }.

Lemma observe_spec now o s : (forall k p, series s !! k = Some p -> is_Some (heap s !! p)) ->
  (exists p s' m v, observe now o s = (s', Some p) /\ observed now o s s' p m v) \/
  (series s !! obs_key o = None /\ MaxCardinality s <= Z.of_nat (size (series s)) /\
   observe now o s = (mkStore (MaxCardinality s) (StaleAfter s) (heap s) (brk s) (series s) (rendered s) (u64 (capRefused s + 1))
     (Dropped s + 1) (Evicted s) (token s), None)).
Proof.
  intros Hin. unfold observe, AdmitLocked. destruct (series s !! obs_key o) as [p|] eqn:E.
  - left. destruct (Hin _ _ E) as [[m v] Hp]. do 4 eexists. split; [reflexivity|]. split; cbn; try done; [| |by left].
    + apply map_eq. intros q. destruct (decide (p = q)) as [->|Hne].
      * by rewrite !lookup_alter_eq, lookup_insert_eq, Hp.
      * by rewrite !lookup_alter_ne, lookup_insert_ne by done.
    + by rewrite insert_id.
  - case_decide as Hc; [by right|]. left. do 4 eexists. split; [reflexivity|].
    refine (Build_observed _ _ _ _ _ (mkMeta now 0 Observed) (materialize o NewSeries) _ _ _ _ _ _); cbn; try done.
    + apply map_eq. intros q. destruct (decide (brk s = q)) as [<-|Hne].
      * by rewrite !lookup_alter_eq, !lookup_insert_eq.
      * by rewrite !lookup_alter_ne, !lookup_insert_ne by done.
    + right. repeat split; try done. lia.
Qed.

Lemma delivered_all_mono tk tk' ys ys' p : log tk' p = log tk p -> (forall y, (y, true) ∈ ys -> (y, true) ∈ ys') ->
  delivered_all tk ys p -> delivered_all tk' ys' p.
Proof. intros E Hy (y & r & H1 & H2). exists y, r. rewrite E. eauto. Qed.

Lemma not_before_log M s tk rf ys ln p : core M s tk rf ys ln -> not_before ys p (length (log tk p)).
Proof. intros C y b k r Hy Hp. destruct (c_sent _ _ _ _ _ _ C y b Hy) as [H _]. destruct (H p k r Hp). lia. Qed.

Lemma core_observed M now o s s' p m v tk rf ys ln : observed now o s s' p m v -> core M s tk rf ys ln ->
  core M s' (<[p := log tk p ++ [(now, o)]]> tk) rf ys ln.
Proof.
  intros [Hh Hs Hm Hr (Hd & Hcr & Ht) Hw] C. destruct C as [cM cinj clive cheap ctaken ckeys cvals cmade cdone csent corder ccap cdrop clines].
  assert (Hpk : forall k, series s !! k = Some p -> k = obs_key o).
  { intros k Hk. destruct Hw as [(H1 & _)|(_ & _ & -> & _)]; [eauto|]. apply clive in Hk. lia. }
  assert (Hbrk : (brk s <= brk s')%nat /\ (p < brk s')%nat).
  { destruct Hw as [(H1 & _ & ->)|(_ & _ & -> & -> & _)]; [|lia]. apply clive in H1. lia. }
  assert (Hlog : p = brk s -> log tk p = []).
  { intros ->. unfold log. destruct (tk !! brk s) eqn:E; [|done]. exfalso. assert (brk s < brk s)%nat; [|lia].
    apply ctaken. by rewrite E. }
  split; rewrite ?Hh, ?Hs, ?Hm, ?Hd, ?Hcr; try done.
  - intros k1 k2 q Hk1 Hk2. apply lookup_insert_Some in Hk1 as [[<- <-]|[H1 Hk1]]; apply lookup_insert_Some in Hk2 as [[<- H2]|[H2 Hk2]];
      subst; try done; [|exfalso; eauto using eq_sym|eauto]. symmetry. eauto using eq_sym.
  - intros k q Hk. apply lookup_insert_Some in Hk as [[<- <-]|[_ Hk]]; [lia|]. apply clive in Hk. lia.
  - intros q. destruct (decide (p = q)) as [->|Hne].
    + rewrite lookup_insert_eq. split; [lia|eauto].
    + rewrite lookup_insert_ne, cheap by done. destruct Hw as [(_ & _ & ->)|(_ & _ & -> & -> & _)]; [done|]. lia.
  - intros q. destruct (decide (p = q)) as [->|Hne]; [lia|]. rewrite lookup_insert_ne by done. intros Hq%ctaken. lia.
  - intros k q e Hk. rewrite log_insert. case_decide as Hpq.
    + subst q. assert (k = obs_key o) as -> by (apply lookup_insert_Some in Hk as [[]|[_ Hk]]; [done|auto]).
      rewrite elem_of_app, list_elem_of_singleton. intros [He|He]; [|by rewrite He].
      destruct Hw as [(H1 & _)|(_ & _ & H1 & _)]; [eauto|]. rewrite (Hlog H1) in He. by apply not_elem_of_nil in He.
    + apply lookup_insert_Some in Hk as [[_ Hk]|[_ Hk]]; [done|eauto].
  - intros q m' v' Hq. rewrite log_insert. destruct (decide (p = q)) as [<-|Hne].
    + rewrite lookup_insert_eq in Hq. injection Hq as <- <-. cbn [Start].
      destruct Hw as [(H1 & H2 & _)|(_ & _ & H1 & _ & Hst & ->)].
      * destruct (cvals p m v H2) as (o0 & rest & E & Ev). exists o0, (rest ++ [(now, o)]). split; [by rewrite E|].
        rewrite fold_all_snoc by by rewrite E. by apply values_fold.
      * exists o, []. rewrite (Hlog H1), Hst. done.
    + rewrite lookup_insert_ne in Hq by done. eauto.
  - intros q m' v' Hq. apply lookup_insert_Some in Hq as [[<- [= <- <-]]|[_ Hq]]; [|eauto].
    destruct Hw as [(_ & H2 & _)|(_ & _ & _ & _ & _ & ->)]; [by eapply made_fold, cmade|constructor].
  - intros q m' v' Hq Hst. destruct (decide (p = q)) as [<-|Hne].
    + rewrite lookup_insert_eq in Hq. injection Hq as <- <-. destruct Hst as [Hst|Hst]; [done|]. by destruct (Hst (obs_key o)); rewrite lookup_insert_eq.
    + rewrite lookup_insert_ne in Hq by done. eapply delivered_all_mono; [|done|]; [by rewrite log_insert, decide_False|].
      eapply cdone; [done|]. destruct Hst as [Hst|Hst]; [by left|right]. intros k Hk. apply (Hst k). rewrite lookup_insert_ne; [done|].
      intros <-. destruct Hw as [(H1 & _)|(H1 & _)]; congruence.
  - intros y b Hy. eapply payload_ok_mono; [apply grows_snoc|eauto].
  - destruct Hw as [(H1 & _)|(H1 & H2 & _)]; [by rewrite insert_id|]. rewrite map_size_insert_None by done. lia.
Qed.

Lemma u64_add a b : u64 (a + u64 b) = u64 (a + b).
Proof. unfold u64. by rewrite Zplus_mod_idemp_r. Qed.

Lemma inv_record M now o x : inv M x -> inv M (record now o x).
Proof.
  intros [C Hp Hg Hf Hn Hsc]. unfold record.
  destruct (observe_spec now o (store x)) as [(p & s' & m & v & -> & Ho)|(Hk & Hm & ->)].
  { intros k p Hk. apply (c_heap _ _ _ _ _ _ C). by eapply c_live. }
  - pose proof (o_dropped _ _ _ _ _ _ _ Ho) as (_ & _ & Ht). split; cbn [store snaps threads nextThread lines taken refused sent].
    + by eapply core_observed.
    + intros t ph Hph. specialize (Hp t ph Hph). revert Hp. apply phase_ok_mono.
      * apply grows_snoc.
      * intros q m' v' Hq Hs. rewrite (o_heap _ _ _ _ _ _ _ Ho) in Hq. destruct (decide (p = q)) as [->|Hne].
        { rewrite lookup_insert_eq in Hq. by injection Hq as <- <-. }
        rewrite lookup_insert_ne in Hq by done. split; [|eauto]. fold (log (taken x) p). by rewrite log_insert, decide_False.
      * apply Ho.
      * destruct (o_which _ _ _ _ _ _ _ Ho) as [(_ & _ & ->)|(_ & _ & -> & -> & _)]; lia.
    + by rewrite Ht.
    + by rewrite Ht.
    + done.
    + done.
  - split; cbn [store snaps threads nextThread lines taken refused sent]; try done. destruct C as [cM cinj clive cheap ctaken ckeys cvals cmade cdone csent corder ccap cdrop clines]. split; cbn; try done.
    + rewrite cdrop, length_app. cbn. lia.
    + rewrite u64_add, Z.add_assoc, (Z.add_comm _ 1), <- u64_add, clines, u64_add. f_equal. lia.
Qed.

(** ** The walk of the map *)

Definition is_stale (now : Z) s p : bool :=
  match heap s !! p with Some (m, _) => stale (StaleAfter s) now m | None => false end.

Definition same_but_series (s s' : Store) : Prop :=
  heap s' = heap s /\ brk s' = brk s /\ MaxCardinality s' = MaxCardinality s /\ StaleAfter s' = StaleAfter s /\
  rendered s' = rendered s /\ Dropped s' = Dropped s /\ capRefused s' = capRefused s /\ token s' = token s.

Lemma is_stale_same s s' now p : same_but_series s s' -> is_stale now s' p = is_stale now s p.
Proof. intros (E & _ & _ & E' & _). unfold is_stale. by rewrite E, E'. Qed.

Lemma live_walk_spec now order : forall s, NoDup order.*1 -> (forall k p, (k, p) ∈ order -> is_Some (heap s !! p)) ->
  same_but_series s (live_walk order now s).1 /\
  (live_walk order now s).2 = filter (fun p => is_stale now s p = false) order.*2 /\
  (forall k, series (live_walk order now s).1 !! k =
     if decide (Exists (fun e => e.1 = k /\ is_stale now s e.2 = true) order) then None else series s !! k) /\
  Evicted (live_walk order now s).1 = Evicted s + Z.of_nat (length (filter (fun p => is_stale now s p = true) order.*2)).
Proof.
  induction order as [|[k p] order IH]; intros s Hnd Hin; cbn [live_walk].
  { split; [done|split; [done|split; [done|cbn; lia]]]. }
  rewrite fmap_cons in Hnd. apply NoDup_cons in Hnd as [Hk Hnd]. cbn [fst] in Hk.
  destruct (Hin k p) as [[m v] Hp]; [by left|]. rewrite Hp.
  assert (Hst : is_stale now s p = stale (StaleAfter s) now m) by (unfold is_stale; by rewrite Hp).
  rewrite !fmap_cons. cbn [snd]. rewrite !filter_cons, Hst.
  destruct (stale (StaleAfter s) now m) eqn:E.
  - rewrite (decide_False (P := true = false)), (decide_True (P := true = true)) by done.
    set (s1 := set_evicted _ _) in *. assert (S1 : same_but_series s s1) by done.
    destruct (IH s1 Hnd) as (I1 & I2 & I3 & I4). { intros k' p' H. apply (Hin k' p'). by right. }
    assert (Hf : forall b, filter (fun p0 => is_stale now s1 p0 = b) order.*2 = filter (fun p0 => is_stale now s p0 = b) order.*2) by done.
    rewrite Hf in I2, I4. split; [exact I1|split; [exact I2|split]].
    + intros k'. rewrite I3. destruct (decide (k = k')) as [<-|Hne].
      * rewrite (decide_True (P := Exists _ ((k, p) :: order))) by (by left). case_decide; [done|]. cbn. by rewrite lookup_delete_eq.
      * cbn [series set_evicted set_series s1]. rewrite lookup_delete_ne by done. apply decide_ext. split; [by right|].
        intros H%Exists_cons. destruct H as [[H _]|H]; [done|exact H].
    + rewrite I4. cbn [length Evicted set_evicted set_series s1]. lia.
  - rewrite (decide_True (P := false = false)), (decide_False (P := false = true)) by done.
    destruct (IH s Hnd) as (I1 & I2 & I3 & I4). { intros k' p' H. apply (Hin k' p'). by right. }
    destruct (live_walk order now s) as [s1 dst]. cbn [fst snd] in *. split; [exact I1|split; [by rewrite I2|split; [|exact I4]]].
    intros k'. rewrite I3. apply decide_ext. split; [by right|]. intros H%Exists_cons. destruct H as [[_ H]|H]; [|exact H].
    cbn [snd] in H. congruence.
Qed.

Lemma order_keys s order : order ≡ₚ map_to_list (series s) -> NoDup order.*1 /\ forall k p, (k, p) ∈ order <-> series s !! k = Some p.
Proof.
  intros Ho. split; [rewrite Ho; apply NoDup_fst_map_to_list|]. intros k p. by rewrite Ho, elem_of_map_to_list.
Qed.

Lemma key_of_live M s tk rf ys ln k p : core M s tk rf ys ln -> series s !! k = Some p -> first_key tk p = Some k.
Proof.
  intros C Hk. destruct (proj2 (c_heap _ _ _ _ _ _ C p)) as [[m v] Hm]; [by eapply c_live|].
  destruct (c_values _ _ _ _ _ _ C p m v Hm) as (o & rest & E & _). unfold first_key. rewrite E. cbn. f_equal.
  apply (c_keys _ _ _ _ _ _ C k p (Start m, o) Hk). rewrite E. by left.
Qed.

Lemma core_walk M now order s tk rf ys ln : order ≡ₚ map_to_list (series s) -> core M s tk rf ys ln ->
  let r := LivePointersLocked order now s in
  core M r.1 tk rf ys ln /\ same_but_series s r.1 /\ NoDup (first_key tk <$> r.2) /\
  Forall (fun p => (p < brk s)%nat /\ log tk p <> []) r.2 /\
  (forall p, p ∈ r.2 <-> exists k, series s !! k = Some p /\ is_stale now s p = false) /\
  (forall k p, series r.1 !! k = Some p <-> series s !! k = Some p /\ is_stale now s p = false).
Proof.
  intros Ho C. destruct (order_keys s order Ho) as [Hnd Hin]. unfold LivePointersLocked.
  destruct (live_walk_spec now order s Hnd) as (W1 & W2 & W3 & _).
  { intros k p Hk. apply (c_heap _ _ _ _ _ _ C). eapply c_live; [exact C|]. by apply (Hin k p). }
  destruct (live_walk order now s) as [s' ptrs]. cbn [fst snd] in *.
  assert (Hser : forall k p, series s' !! k = Some p <-> series s !! k = Some p /\ is_stale now s p = false).
  { intros k p. rewrite W3. case_decide as Hd.
    - split; [done|]. intros [Hk Hs]. apply Exists_exists in Hd as ([k' p'] & H1 & H2 & H3). cbn in H2, H3. subst k'.
      apply Hin in H1. congruence.
    - split; [|by intros []]. intros Hk. split; [done|]. destruct (is_stale now s p) eqn:E; [|done]. exfalso. apply Hd.
      apply Exists_exists. exists (k, p). split; [by apply Hin|done]. }
  assert (Hps : forall p, p ∈ ptrs <-> exists k, series s !! k = Some p /\ is_stale now s p = false).
  { intros p. rewrite W2, list_elem_of_filter, list_elem_of_fmap. split.
    - intros (Hs & [k p'] & -> & H). exists k. by rewrite <- Hin.
    - intros (k & Hk & Hs). split; [done|]. exists (k, p). by rewrite Hin. }
  split; [|split; [done|split; [|split; [|split; [done|done]]]]].
  - destruct W1 as (E1 & E2 & E3 & E4 & E5 & E6 & E7 & _).
    destruct C as [cM cinj clive cheap ctaken ckeys cvals cmade cdone csent corder ccap cdrop clines].
    split; rewrite ?E1, ?E2, ?E3, ?E6, ?E7; try done.
    + intros k1 k2 p H1%Hser H2%Hser. naive_solver.
    + intros k p H%Hser. naive_solver.
    + intros k p e H%Hser. naive_solver.
    + intros p m v Hp [Hst|Hst]; [by eapply cdone; [|left]|]. destruct (decide (state m = Delivered)) as [Hd|Hd]; [by eapply cdone; [|left]|].
      eapply cdone; [exact Hp|right]. intros k Hk. apply (Hst k), Hser. split; [done|]. unfold is_stale. rewrite Hp.
      unfold stale. rewrite (bool_decide_eq_false_2 _ Hd). by rewrite andb_false_r.
    + etrans; [|exact ccap]. apply inj_le, map_subseteq_size, map_subseteq_spec. intros k p Hk%Hser. naive_solver.
  - rewrite W2. eapply sublist_NoDup; [|apply fmap_sublist, sublist_filter]. rewrite <- list_fmap_compose.
    apply NoDup_fmap_2_strong; [|by eapply NoDup_fmap_1].
    intros [k1 p1] [k2 p2] H1%Hin H2%Hin E. cbn in E. rewrite (key_of_live _ _ _ _ _ _ _ _ C H1), (key_of_live _ _ _ _ _ _ _ _ C H2) in E.
    injection E as ->. congruence.
  - apply Forall_forall. intros p (k & Hk & _)%Hps. split; [by eapply c_live|]. intros E.
    pose proof (key_of_live _ _ _ _ _ _ _ _ C Hk) as Hf. unfold first_key in Hf. by rewrite E in Hf.
Qed.

(** ** The copy and the mark *)

(** A change of a series' state, and of nothing it counts. *)
Lemma core_state M s s' tk rf ys ln p m v m' v' :
  heap s !! p = Some (m, v) -> heap s' = <[p := (m', v')]> (heap s) -> Start m' = Start m -> values v' = values v -> (made v -> made v') ->
  (state m' = Delivered -> state m = Delivered \/ delivered_all tk ys p) ->
  MaxCardinality s' = MaxCardinality s -> brk s' = brk s -> series s' = series s -> Dropped s' = Dropped s ->
  capRefused s' = capRefused s -> core M s tk rf ys ln -> core M s' tk rf ys ln.
Proof.
  intros Hp Hh Hst Hv Hmd Hdel E1 E2 E3 E4 E5 C. destruct C as [cM cinj clive cheap ctaken ckeys cvals cmade cdone csent corder ccap cdrop clines].
  split; rewrite ?E1, ?E2, ?E3, ?E4, ?E5, ?Hh; try done.
  - intros q. rewrite <- cheap. destruct (decide (p = q)) as [<-|Hne]; [rewrite lookup_insert_eq, Hp; by split|by rewrite lookup_insert_ne].
  - intros q m1 v1 Hq. apply lookup_insert_Some in Hq as [[<- [= <- <-]]|[_ Hq]]; [|by eauto].
    destruct (cvals p m v Hp) as (o & rest & H1 & H2). exists o, rest. by rewrite Hst, Hv.
  - intros q m1 v1 Hq. apply lookup_insert_Some in Hq as [[<- [= <- <-]]|[_ Hq]]; [|by eauto]. by eapply Hmd, cmade.
  - intros q m1 v1 Hq Hd. apply lookup_insert_Some in Hq as [[<- [= <- <-]]|[_ Hq]]; [|by eauto].
    destruct Hd as [Hd|Hd]; [|by eapply cdone; [|right]]. destruct (Hdel Hd); [|done]. by eapply cdone; [|left].
Qed.

Lemma entry_now M s tk rf ys ln p m v : core M s tk rf ys ln -> heap s !! p = Some (m, v) ->
  entry_ok tk p (length (log tk p)) (reading_of m v).
Proof.
  intros C Hp. destruct (c_values _ _ _ _ _ _ C p m v Hp) as (o & rest & E & Ev). split.
  - rewrite E. cbn. lia.
  - by rewrite firstn_all, values_copy.
  - exists o. by rewrite E, start_copy.
  - exists m, v. split; [|done]. by eapply c_made.
Qed.

Lemma take_one_ok M now s sn tk rf ys ln ptrs seen p : ptrs !! length seen = Some p ->
  core M s tk rf ys ln -> phase_ok s sn tk ys (Copying now ptrs seen) ->
  let y := take_one (length seen) p (s, sn) in
  core M y.1 tk rf ys ln /\ phase_ok y.1 y.2 tk ys (Copying now ptrs (seen ++ [length (log tk p)])) /\
  token y.1 = token s /\ used y.2 = used sn /\ length (slots y.2) = length (slots sn).
Proof.
  intros Hp C (Hnd & [Hl Hsl] & Hr & Hb & He).
  assert (Hpb : (p < brk s)%nat) by (eapply Forall_lookup_1 in Hb as [Hb0 _]; [|done]; done).
  pose proof (NoDup_fmap_1 _ _ Hnd) as Hnd'.
  destruct (proj2 (c_heap _ _ _ _ _ _ C p) Hpb) as [[m v] Hm].
  set (m' := mkMeta (Start m) (LastSeen m) Rendered).
  assert (Hh : alter (fun mv : Meta * Series => (mkMeta (Start mv.1) (LastSeen mv.1) Rendered, mv.2)) p (heap s) = <[p := (m', v)]> (heap s)).
  { apply map_eq. intros q. destruct (decide (p = q)) as [<-|Hne]; [by rewrite lookup_alter_eq, lookup_insert_eq, Hm|].
    by rewrite lookup_alter_ne, lookup_insert_ne. }
  assert (C' : core M (MarkRenderedLocked p s) tk rf ys ln).
  { eapply (core_state M s _ tk rf ys ln p m v m' v); try done. }
  cbn [take_one fst snd]. unfold take_one. cbn [fst snd].
  replace (heap (MarkRenderedLocked p s) !! p) with (Some (m', v)) by (cbn; by rewrite Hh, lookup_insert_eq).
  cbn [fst snd slots used]. split; [done|]. split; [|split; [done|split; [done|apply length_alter]]].
  assert (Hlt : (length seen < length ptrs)%nat) by (by apply lookup_lt_Some in Hp).
  cbn [phase_ok slots].
  split; [done|split; [rewrite length_app, length_alter; cbn; lia|split; [|split; [done|]]]].
  { cbn [rendered MarkRenderedLocked set_rendered]. rewrite Hr, length_app. cbn [length]. rewrite Nat.add_1_r.
    by rewrite (take_S_r _ _ p). }
  intros i q k Hi Hk. apply lookup_app_Some in Hk as [Hk|[Hge Hk]].
  - destruct (He i q k Hi Hk) as (e & E1 & E2 & E3 & E4). apply lookup_lt_Some in Hk as Hik.
    exists e. rewrite list_lookup_alter_ne by lia. split; [done|split; [done|split; [|done]]].
    intros m1 v1 Hq. cbn [heap MarkRenderedLocked set_rendered at_ptr set_heap] in Hq. rewrite Hh, lookup_insert_ne in Hq; [by eauto|].
    intros <-. pose proof (NoDup_lookup ptrs i (length seen) p Hnd' Hi Hp). lia.
  - apply list_lookup_singleton_Some in Hk as [Hi0 <-]. assert (i = length seen) as -> by lia. assert (q = p) as -> by congruence.
    destruct (lookup_lt_is_Some_2 (slots sn) (length seen)) as [e0 He0]; [lia|].
    exists (CopyLocked m' v e0). rewrite list_lookup_alter_eq, He0. split; [done|]. rewrite reading_copy. split; [|split].
    + change (reading_of m' v) with (reading_of m' v). eapply (entry_now M (MarkRenderedLocked p s)); [exact C'|]. cbn.
      by rewrite Hh, lookup_insert_eq.
    + by intros m1 v1 _ _.
    + by eapply not_before_log.
Qed.

Lemma take_all_ok M now ptrs tk rf ys ln : forall ps s sn seen rest, drop (length seen) ptrs = ps ++ rest ->
  core M s tk rf ys ln -> phase_ok s sn tk ys (Copying now ptrs seen) ->
  let y := each_from take_one (length seen) ps (s, sn) in
  core M y.1 tk rf ys ln /\ phase_ok y.1 y.2 tk ys (Copying now ptrs (seen ++ ((fun p => length (log tk p)) <$> ps))) /\
  token y.1 = token s /\ used y.2 = used sn /\ length (slots y.2) = length (slots sn).
Proof.
  induction ps as [|p ps IH]; intros s sn seen rest Hd C Hph; cbn [each_from].
  { cbn. rewrite app_nil_r. done. }
  assert (Hp : ptrs !! length seen = Some p).
  { rewrite <- (take_drop (length seen) ptrs), Hd, lookup_app_r; rewrite length_take; [|lia].
    destruct Hph as (_ & ? & _). rewrite Nat.min_l by lia. by rewrite Nat.sub_diag. }
  destruct (take_one_ok M now s sn tk rf ys ln ptrs seen p Hp C Hph) as (T1 & T2 & T3 & T4 & T5).
  destruct (take_one (length seen) p (s, sn)) as [s1 sn1]. cbn [fst snd] in *.
  specialize (IH s1 sn1 (seen ++ [length (log tk p)]) rest). rewrite length_app, Nat.add_1_r in IH. cbn [length] in IH.
  destruct IH as (I1 & I2 & I3 & I4 & I5); [|done|done|].
  { rewrite <- Nat.add_1_r, <- drop_drop, Hd. done. }
  split; [done|]. rewrite fmap_cons. rewrite <- app_assoc in I2. split; [done|]. by rewrite I3, I4, I5.
Qed.

(** A payload that was accepted, while its series are being marked. *)
Definition marking s tk (ys : list (payload * bool)) (y : payload) : Prop :=
  (y, true) ∈ ys /\ forall p k r, (p, k, r) ∈ y_entries y -> entry_fresh s tk p k.

Lemma mark_one_ok M s tk rf ys ln y p i : p ∈ (fun e => e.1.1) <$> y_entries y ->
  core M s tk rf ys ln -> marking s tk ys y ->
  core M (mark_one i p s) tk rf ys ln /\ marking (mark_one i p s) tk ys y /\ token (mark_one i p s) = token s.
Proof.
  intros ([[p' k] r] & -> & Hin)%list_elem_of_fmap C [Hy Hf]. cbn [fst] in *. unfold mark_one, markDeliveredLocked.
  destruct (heap s !! p') as [[m v]|] eqn:Hm.
  - set (m' := if decide (state m = Rendered) then mkMeta (Start m) (LastSeen m) Delivered else m).
    assert (Hh : heap (at_ptr p' (fun mv : Meta * Series => (if decide (state mv.1 = Rendered) then mkMeta (Start mv.1) (LastSeen mv.1) Delivered
        else mv.1, ResetExemplars mv.2)) s) = <[p' := (m', ResetExemplars v)]> (heap s)).
    { cbn. apply map_eq. intros q. destruct (decide (p' = q)) as [<-|Hne]; [by rewrite lookup_alter_eq, lookup_insert_eq, Hm|].
      by rewrite lookup_alter_ne, lookup_insert_ne. }
    split; [|split; [|done]].
    + eapply (core_state M s _ tk rf ys ln p' m v m' (ResetExemplars v)); try done.
      * subst m'. by case_decide.
      * apply values_reset.
      * by constructor.
      * subst m'. case_decide as Hs; [|by left]. intros _. right. exists y, r. split; [done|]. by rewrite <- (Hf p' k r Hin m v Hm Hs).
    + split; [done|]. intros q k' r' Hq m1 v1. rewrite Hh. intros Hl Hs. apply lookup_insert_Some in Hl as [[<- [= <- <-]]|[_ Hl]].
      * exfalso. subst m'. by case_decide.
      * by eapply Hf.
  - assert (Hh : heap (at_ptr p' (fun mv : Meta * Series => (if decide (state mv.1 = Rendered) then mkMeta (Start mv.1) (LastSeen mv.1) Delivered
        else mv.1, ResetExemplars mv.2)) s) = heap s).
    { cbn. apply map_eq. intros q. destruct (decide (p' = q)) as [<-|Hne]; [by rewrite lookup_alter_eq, Hm|]. by rewrite lookup_alter_ne. }
    split; [by eapply core_ext; [..|exact C]|split; [|done]]. split; [done|]. intros q k' r' Hq m1 v1. rewrite Hh. by eapply Hf.
Qed.

Lemma mark_all_ok M tk rf ys ln y : forall ps s i, (forall p, p ∈ ps -> p ∈ (fun e => e.1.1) <$> y_entries y) ->
  core M s tk rf ys ln -> marking s tk ys y ->
  core M (each_from mark_one i ps s) tk rf ys ln /\ marking (each_from mark_one i ps s) tk ys y /\
  token (each_from mark_one i ps s) = token s.
Proof.
  induction ps as [|p ps IH]; intros s i Hin C Hm; cbn [each_from]; [done|].
  destruct (mark_one_ok M s tk rf ys ln y p i) as (M1 & M2 & M3); [apply Hin; by left|done|done|].
  destruct (IH (mark_one i p s) (S i)) as (I1 & I2 & I3); [intros q Hq; apply Hin; by right|done|done|]. by rewrite I3.
Qed.

(** ** The scratch *)

Lemma grow_ok n sn : (used sn <= length (slots sn))%nat ->
  used (grow n sn) = n /\ (n <= length (slots (grow n sn)))%nat.
Proof.
  intros Hu. unfold grow.
  assert (Hfit : forall sn', (used (fit_used sn') = used sn') /\ length (slots (fit_used sn')) = length (slots sn')).
  { intros sn'. split; [done|]. cbn. by rewrite length_app, length_fmap, <- length_app, take_drop. }
  case_decide as Hn.
  - rewrite (proj1 (Hfit _)), (proj2 (Hfit _)). cbn [used slots]. rewrite length_app, length_take, length_replicate. lia.
  - destruct (oversized n sn) as [[] run]; rewrite (proj1 (Hfit _)), (proj2 (Hfit _)); cbn [used slots].
    + rewrite length_replicate. lia.
    + rewrite length_app, length_fmap, <- length_app, take_drop. lia.
Qed.

(** ** Exports *)

Lemma inv_moved M x t ph ph' s' sn' ys' : inv M x -> threads x !! t = Some ph -> past_gate ph -> past_gate ph' ->
  token s' = token (store x) -> core M s' (taken x) (refused x) ys' (lines x) -> phase_ok s' sn' (taken x) ys' ph' ->
  (used sn' <= length (slots sn'))%nat ->
  inv M (mkSys s' sn' (<[t := ph']> (threads x)) (nextThread x) (lines x) (reporting x) (taken x) (refused x) ys').
Proof.
  intros [C Hp Hg Hf Hn Hsc] Ht Hpg Hpg' Htok C' Hph' Hsc'. destruct (Hg t ph Ht Hpg) as [Hoff Honly].
  split; cbn [store snaps threads nextThread lines taken refused sent]; try done.
  - intros t1 ph1 H1. apply lookup_insert_Some in H1 as [[<- <-]|[Hne H1]]; [done|].
    destruct ph1; try done; exfalso; by specialize (Honly t1 _ H1 I).
  - intros t1 ph1 H1 Hpg1. rewrite Htok. split; [done|]. intros t2 ph2 H2 Hpg2.
    assert (t1 = t) as -> by (apply lookup_insert_Some in H1 as [[]|[_ H1]]; [done|by eapply Honly]).
    apply lookup_insert_Some in H2 as [[]|[_ H2]]; [done|by eapply Honly].
  - intros _. exists t, ph'. by rewrite lookup_insert_eq.
  - intros t1 H1. apply Hn. destruct (decide (t = t1)) as [<-|]; [by rewrite Ht|by rewrite lookup_insert_ne in H1].
Qed.

Lemma zip_entries {X Y Z} (a : list X) (b : list Y) (c : list Z) i x y z :
  zip (zip a b) c !! i = Some (x, y, z) <-> a !! i = Some x /\ b !! i = Some y /\ c !! i = Some z.
Proof.
  rewrite lookup_zip_Some. cbn. rewrite lookup_zip_Some. cbn. naive_solver.
Qed.

Lemma fst_zip_full {X Y} (a : list X) (b : list Y) : length a = length b -> (zip a b).*1 = a.
Proof. intros E. apply fst_zip. lia. Qed.

Lemma copied_payload M s sn tk rf ys ln now ptrs seen : core M s tk rf ys ln ->
  phase_ok s sn tk ys (Copying now ptrs seen) -> (length ptrs <= length seen)%nat ->
  let rs := readings (length ptrs) sn in let md := Render now rs in
  md <> [] -> phase_ok s sn tk ys (Sending (mkPayload now (zip (zip ptrs seen) rs) md)).
Proof.
  intros C (Hnd & [Hl Hsl] & Hr & Hb & He) Hfull rs md Hmd. assert (length seen = length ptrs) as Hlen by lia.
  assert (Hrs : length rs = length ptrs) by (unfold rs, readings; rewrite length_fmap, length_take; lia).
  assert (Hz : length (zip ptrs seen) = length ptrs) by (rewrite length_zip_with; lia).
  assert (Hent : forall p k r, (p, k, r) ∈ zip (zip ptrs seen) rs -> exists i, ptrs !! i = Some p /\ seen !! i = Some k /\
    exists e, slots sn !! i = Some e /\ r = reading e).
  { intros p k r [i Hi]%list_elem_of_lookup. apply zip_entries in Hi as (H1 & H2 & H3). exists i. split; [done|split; [done|]].
    unfold rs, readings in H3. rewrite list_lookup_fmap in H3. destruct (take (length ptrs) (slots sn) !! i) as [e|] eqn:E; [|done].
    apply lookup_take_Some in E as [E _]. exists e. by injection H3 as <-. }
  assert (Hfst : (fun e : ptr * nat * Reading => e.1.1) <$> zip (zip ptrs seen) rs = ptrs).
  { transitivity ((zip (zip ptrs seen) rs).*1.*1); [by rewrite <- list_fmap_compose|]. by rewrite !fst_zip_full by lia. }
  cbn [phase_ok y_entries]. split; [|split].
  - split; cbn [y_entries y_metrics y_ts].
    + intros p k r Hin. destruct (Hent p k r Hin) as (i & H1 & H2 & e & H3 & ->). destruct (He i p k H1 H2) as (e' & E1 & E2 & _).
      by replace e with e' by congruence.
    + split; [|split].
      * rewrite <- Hfst, <- list_fmap_compose in Hnd. exact Hnd.
      * unfold md. f_equal. symmetry. by apply snd_zip; lia.
      * intros E. apply Hmd. unfold md, Render. replace rs with (@nil Reading); [apply build_none|].
        symmetry. apply length_zero_iff_nil. rewrite Hrs. apply (f_equal length) in E. rewrite length_zip_with, Hz, Hrs in E. cbn in E. lia.
  - rewrite Hfst, Hr. by rewrite Hlen, firstn_all.
  - intros p k r Hin. destruct (Hent p k r Hin) as (i & H1 & H2 & e & H3 & ->). by destruct (He i p k H1 H2) as (e' & E1 & _ & E3 & E4).
Qed.

Lemma core_sent M s tk rf ys ln y b : core M s tk rf ys ln -> payload_ok tk y ->
  (forall p k r, (p, k, r) ∈ y_entries y -> not_before ys p k) -> core M s tk rf (ys ++ [(y, b)]) ln.
Proof.
  intros C Hy Hnb. destruct C as [cM cinj clive cheap ctaken ckeys cvals cmade cdone csent corder ccap cdrop clines]. split; try done.
  - intros p m v Hp Hd. eapply delivered_all_mono; [done| |by eapply cdone]. intros y' H. apply elem_of_app. by left.
  - intros y' b' [H|[= -> ->]%list_elem_of_singleton]%elem_of_app; [by eapply csent|done].
  - intros i j y1 b1 y2 b2 p k1 r1 k2 r2 H1 H2 Hij H3 H4. apply lookup_app_Some in H2 as [H2|[Hj H2]].
    + apply lookup_lt_Some in H2 as Hj. rewrite lookup_app_l in H1 by lia. by eapply (corder i j).
    + apply list_lookup_singleton_Some in H2 as [Hj' [= -> ->]]. rewrite lookup_app_l in H1 by lia.
      eapply Hnb; [exact H4| |exact H3]. by eapply list_elem_of_lookup_2.
Qed.

Local Ltac sys_norm := unfold with_phase, with_store, with_sent; cbn [store snaps threads nextThread lines reporting taken refused sent].

Lemma inv_advance M x t ph now order ok y : inv M x -> threads x !! t = Some ph -> order ≡ₚ map_to_list (series (store x)) ->
  advance t ph now order ok x = Some y -> inv M y.
Proof.
  intros Hx Ht Ho Hadv. pose proof Hx as [C Hp Hg Hf Hn Hsc]. pose proof (Hp t ph Ht) as Hph. destruct ph; cbn [advance] in Hadv.
  - destruct (token (store x)) eqn:Etok; [|done]. injection Hadv as <-. sys_norm.
    assert (Hnone : forall t' ph', threads x !! t' = Some ph' -> ~ past_gate ph').
    { intros t' ph' H1 H2. destruct (Hg t' ph' H1 H2). congruence. }
    split; cbn [store snaps threads nextThread lines taken refused sent]; try done.
    + by eapply core_ext; [..|exact C].
    + intros t1 ph1 H1. apply lookup_insert_Some in H1 as [[<- <-]|[Hne H1]]; [done|]. specialize (Hnone t1 ph1 H1). by destruct ph1.
    + intros t1 ph1 H1 Hpg. assert (forall t2 ph2, <[t:=Entered]> (threads x) !! t2 = Some ph2 -> past_gate ph2 -> t2 = t) as Honly.
      { intros t2 ph2 H2 Hpg2. apply lookup_insert_Some in H2 as [[]|[_ H2]]; [done|]. by destruct (Hnone t2 ph2 H2). }
      split; [done|]. intros t2 ph2 H2 Hpg2. by rewrite (Honly t1 ph1 H1 Hpg), (Honly t2 ph2 H2 Hpg2).
    + intros _. exists t, Entered. by rewrite lookup_insert_eq.
    + intros t1 H1. apply Hn. destruct (decide (t = t1)) as [<-|]; [by rewrite Ht|by rewrite lookup_insert_ne in H1].
  - injection Hadv as <-. sys_norm. eapply inv_moved; [exact Hx|exact Ht|..]; try done. by eapply core_ext; [..|exact C].
  - destruct (core_walk M now0 order (store x) _ _ _ _ Ho C) as (W1 & (_ & Wb & _ & _ & Wr & _ & _ & Wt) & W3 & W4 & _).
    destruct (LivePointersLocked order now0 (store x)) as [s' ptrs]. cbn [fst snd] in *. injection Hadv as <-. sys_norm.
    destruct (grow_ok (length ptrs) (snaps x) Hsc) as [G1 G2].
    eapply inv_moved; [exact Hx|exact Ht|..]; try done; [|lia]. split; [done|split; [split; [apply Nat.le_0_l|exact G2]|split; [by rewrite Wr, Hph|split]]].
    + by rewrite Wb.
    + done.
  - case_decide as Hlt.
    + destruct (take_all_ok M now0 ptrs (taken x) (refused x) (sent x) (lines x) (take snapChunk (drop (length seen) ptrs))
        (store x) (snaps x) seen (drop snapChunk (drop (length seen) ptrs))) as (T1 & T2 & T3 & T4 & T5); [by rewrite take_drop|done|done|].
      unfold eachChunk in Hadv. destruct (each_from take_one _ _ _) as [s' sn']. cbn [fst snd] in *. injection Hadv as <-. sys_norm.
      eapply inv_moved; [exact Hx|exact Ht|..]; try done. lia.
    + pose proof (copied_payload M _ _ _ _ _ _ now0 ptrs seen C Hph) as Hcp. cbv zeta in Hcp.
      destruct (Render now0 (readings (length ptrs) (snaps x))) as [|md0 md] eqn:E.
      * injection Hadv as <-. sys_norm. by eapply inv_moved; [exact Hx|exact Ht|..].
      * injection Hadv as <-. sys_norm. eapply inv_moved; [exact Hx|exact Ht|..]; try done. apply Hcp; [lia|done].
  - injection Hadv as <-. sys_norm. destruct Hph as (P1 & P2 & P3). sys_norm.
    assert (core M (store x) (taken x) (refused x) (sent x ++ [(y0, ok)]) (lines x)) by (apply core_sent; try done; naive_solver).
    eapply inv_moved; [exact Hx|exact Ht|..]; try done; [by destruct ok|]. destruct ok; [|done]. exists y0.
    split; [apply elem_of_app; right; by apply list_elem_of_singleton|]. split; [done|]. naive_solver.
  - injection Hadv as <-. sys_norm. eapply inv_moved; [exact Hx|exact Ht|..]; try done.
  - case_decide as Hlt; injection Hadv as <-; sys_norm; [|by eapply inv_moved; [exact Hx|exact Ht|..]].
    destruct Hph as (y0 & P1 & P2 & P3).
    destruct (mark_all_ok M (taken x) (refused x) (sent x) (lines x) y0 (take snapChunk (drop start ptrs)) (store x) start) as (M1 & M2 & M3).
    { intros p [i Hi]%list_elem_of_lookup. rewrite <- P2. apply lookup_take_Some in Hi as [Hi _]. rewrite lookup_drop in Hi. by eapply list_elem_of_lookup_2. }
    { done. }
    { done. }
    eapply inv_moved; [exact Hx|exact Ht|..]; try done. exists y0. split; [done|split; [done|]]. apply M2.
  - injection Hadv as <-. sys_norm. eapply inv_moved; [exact Hx|exact Ht|..]; try done. by eapply core_ext; [..|exact C].
  - injection Hadv as <-. sys_norm. destruct (Hg t Releasing Ht I) as [Hoff Honly].
    split; cbn [store snaps threads nextThread lines taken refused sent]; try done.
    + by eapply core_ext; [..|exact C].
    + intros t1 ph1 H1. apply lookup_delete_Some in H1 as [Hne H1]. destruct ph1; try done; exfalso; by apply Hne, eq_sym, (Honly t1 _ H1 I).
    + intros t1 ph1 H1 Hpg1. apply lookup_delete_Some in H1 as [Hne H1]. exfalso. by apply Hne, eq_sym, (Honly t1 _ H1).
    + intros t1 [ph1 H1]. apply lookup_delete_Some in H1 as [_ H1]. apply Hn. eauto.
Qed.

Lemma agg_step M x y : inv M x -> step x y -> inv M y.
Proof.
  intros Hx Hs. pose proof Hx as [C Hp Hg Hf Hn Hsc]. destruct Hs as [now o|x|x t Hw|t ph now order ok x y Ht Ho Hadv|allow x Hrep|x Hrep].
  - by apply inv_record.
  - assert (Hfresh : threads x !! nextThread x = None).
    { apply eq_None_not_Some. intros H%Hn. lia. }
    split; cbn [spawn store snaps threads nextThread lines taken refused sent]; try done.
    + intros t ph H. apply lookup_insert_Some in H as [[<- <-]|[_ H]]; [done|by eapply Hp].
    + intros t ph H Hpg. apply lookup_insert_Some in H as [[<- <-]|[_ H]]; [done|]. destruct (Hg t ph H Hpg) as [H1 H2]. split; [done|].
      intros t' ph' H' Hpg'. apply lookup_insert_Some in H' as [[<- <-]|[_ H']]; [done|by eapply H2].
    + intros (t & ph & H & Hpg)%Hf. exists t, ph. rewrite lookup_insert_ne; [done|]. intros <-. congruence.
    + intros t H. destruct (decide (nextThread x = t)) as [<-|]; [lia|]. rewrite lookup_insert_ne in H by done. apply Hn in H. lia.
  - split; cbn [abandon store snaps threads nextThread lines taken refused sent]; try done.
    + intros t1 ph1 H1. apply lookup_delete_Some in H1 as [_ H1]. by eapply Hp.
    + intros t1 ph1 H1 Hpg. apply lookup_delete_Some in H1 as [_ H1]. destruct (Hg t1 ph1 H1 Hpg) as [E1 E2]. split; [done|].
      intros t2 ph2 H2. apply lookup_delete_Some in H2 as [_ H2]. by eapply E2.
    + intros (t1 & ph1 & H1 & Hpg)%Hf. exists t1, ph1. rewrite lookup_delete_ne; [done|]. intros <-. rewrite Hw in H1. by injection H1 as <-.
    + intros t1 [ph1 H1]. apply lookup_delete_Some in H1 as [_ H1]. apply Hn. eauto.
  - by eapply inv_advance.
  - unfold report_test. case_match; [done|]. by split.
  - split; cbn [report_swap store snaps threads nextThread lines taken refused sent]; try done.
    + destruct C as [cM cinj clive cheap ctaken ckeys cvals cmade cdone csent corder ccap cdrop clines]. split; cbn; try done.
      rewrite foldr_app. cbn. rewrite <- clines. f_equal. rewrite Z.add_0_r. generalize (capRefused (store x)). clear.
      induction (lines x); intros z; cbn; [lia|]. rewrite IHl. lia.
Qed.

Lemma agg_inv M S x : star step (init M S) x -> inv M x.
Proof. intros H. eapply star_inv; [|exact H|apply inv_init]. intros a b Ha Hs. by eapply agg_step. Qed.

(** ** Every observation is counted *)

(** The observations in series, live or evicted. *)
Definition all_taken (x : sys) : list (Z * Obs) := concat (map_to_list (taken x)).*2.

Lemma all_taken_snoc tk p e : concat (map_to_list (<[p := log tk p ++ [e]]> tk)).*2 ≡ₚ concat (map_to_list tk).*2 ++ [e].
Proof.
  unfold log. destruct (tk !! p) as [l|] eqn:E; cbn [default].
  - rewrite <- (insert_delete_id tk p l E) at 2. rewrite <- (insert_delete_eq tk). rewrite !map_to_list_insert by apply lookup_delete_eq.
    rewrite !fmap_cons. cbn [snd concat]. rewrite <- !app_assoc. apply Permutation_app_head. apply Permutation_app_comm.
  - rewrite map_to_list_insert by done. rewrite fmap_cons. cbn [snd concat]. apply Permutation_app_comm.
Qed.

Lemma record_counts M now o x : inv M x ->
  (all_taken (record now o x)).*2 ++ refused (record now o x) ≡ₚ ((all_taken x).*2 ++ refused x) ++ [o].
Proof.
  intros Hi. pose proof (i_core _ _ Hi) as C. unfold record, all_taken.
  destruct (observe_spec now o (store x)) as [(p & s' & m & v & -> & Ho)|(Hk & Hm & ->)].
  - intros k p Hk. apply (c_heap _ _ _ _ _ _ C). by eapply c_live.
  - cbn [taken refused]. fold (log (taken x) p). rewrite all_taken_snoc, fmap_app. cbn [fmap list_fmap snd].
    rewrite <- !app_assoc. apply Permutation_app_head. apply Permutation_app_comm.
  - cbn [taken refused]. by rewrite app_assoc.
Qed.

End Steps.

(** * One export, start to finish

    An export that is past the gate always finishes, and one that runs with
    nothing in between sends exactly the live series and leaves the store as
    its answer says. *)


Section Run.
Context {A : Aggregate} {L : AggregateLaws A}.
Implicit Types (s : Store) (x y : sys) (p q : ptr).

(** ** It finishes *)

(** An upper bound on the holds an export still takes. *)
Definition rank x (ph : phase) : nat :=
  match ph with
  | Waiting => 10 + 2 * size (series (store x))
  | Entered => 9 + 2 * size (series (store x))
  | Walking _ => 8 + 2 * size (series (store x))
  | Copying _ ptrs seen => 7 + (length ptrs - length seen) + length ptrs
  | Sending y => 6 + length (y_entries y)
  | Acked => 5 + length (rendered (store x))
  | Marking ptrs start => 4 + (length ptrs - start)
  | Leaving => 2
  | Releasing => 1
  end.

Definition ended (t : nat) x y : Prop := threads y = delete t (threads x) /\ token (store y) = true.
Definition went_on (t : nat) x ph y : Prop :=
  exists ph', threads y = <[t := ph']> (threads x) /\ past_gate ph' /\ (rank y ph' < rank x ph)%nat.

Lemma live_length M order now s tk rf ys ln : order ≡ₚ map_to_list (series s) -> core M s tk rf ys ln ->
  (length (LivePointersLocked order now s).2 <= size (series s))%nat.
Proof.
  intros Ho C. destruct (order_keys s order Ho) as [Hnd Hin]. unfold LivePointersLocked.
  destruct (live_walk_spec now order s Hnd) as (_ & -> & _).
  { intros k p Hk. apply (c_heap _ _ _ _ _ _ C). eapply c_live; [exact C|]. by apply (Hin k p). }
  etrans; [apply length_filter|]. rewrite length_fmap, Ho. by rewrite length_map_to_list.
Qed.

Lemma advance_goes M x t ph now order ok : inv M x -> threads x !! t = Some ph -> order ≡ₚ map_to_list (series (store x)) ->
  (ph = Waiting -> token (store x) = true) ->
  exists y, advance t ph now order ok x = Some y /\ (ended t x y \/ went_on t x ph y).
Proof.
  intros Hx Ht Ho Hw. pose proof (i_core _ _ Hx) as C. pose proof (i_phase _ _ Hx t ph Ht) as Hph.
  destruct ph; cbn [advance].
  - rewrite Hw by done. eexists. split; [done|right]. exists Entered. split; [done|split; [done|]]. cbn. lia.
  - eexists. split; [done|right]. eexists. split; [done|split; [done|]]. cbn. lia.
  - pose proof (live_length M order now0 (store x) _ _ _ _ Ho C) as Hlen.
    destruct (LivePointersLocked order now0 (store x)) as [s' ptrs]. cbn [snd] in Hlen.
    eexists. split; [done|right]. eexists. split; [done|split; [done|]]. cbn [rank length]. lia.
  - case_decide as Hlt.
    + destruct (eachChunk _ _ _ _) as [s' sn']. eexists. split; [done|right]. eexists. split; [done|split; [done|]].
      cbn [rank]. rewrite length_app, length_fmap, length_take, length_drop. unfold snapChunk. lia.
    + destruct (Render now0 _); eexists; (split; [done|right]); eexists; (split; [done|split; [done|]]); cbn [rank]; [lia|].
      cbn [y_entries]. rewrite !length_zip_with. lia.
  - eexists. split; [done|right]. destruct Hph as (_ & Hr & _). eexists. split; [done|]. destruct ok; (split; [done|]); cbn [rank].
    + cbn. rewrite Hr, length_fmap. lia.
    + lia.
  - eexists. split; [done|right]. eexists. split; [done|split; [done|]]. cbn [rank]. lia.
  - case_decide as Hlt; eexists; (split; [done|right]); eexists; (split; [done|split; [done|]]); cbn [rank].
    + unfold snapChunk. lia.
    + lia.
  - eexists. split; [done|right]. eexists. split; [done|split; [done|]]. cbn. lia.
  - eexists. split; [done|left]. done.
Qed.

Lemma run_finishes M t now ok : forall fuel x ph, inv M x -> threads x !! t = Some ph ->
  (ph = Waiting -> token (store x) = true) -> (rank x ph <= fuel)%nat ->
  let y := run_export fuel t now ok x in
  threads y = delete t (threads x) /\ token (store y) = true /\ star step x y /\ inv M y.
Proof.
  induction fuel as [|fuel IH]; intros x ph Hx Ht Hw Hr; [destruct ph; cbn in Hr; lia|]. cbn [run_export]. rewrite Ht.
  destruct (advance_goes M x t ph now (map_to_list (series (store x))) ok Hx Ht (reflexivity _) Hw) as (z & Hz & Hcase). rewrite Hz.
  assert (Hs : step x z) by (by eapply step_export). assert (Hz' : inv M z) by (by eapply agg_step).
  destruct Hcase as [[E1 E2]|(ph' & E1 & E2 & E3)].
  - assert (Hnone : threads z !! t = None) by (by rewrite E1, lookup_delete_eq).
    assert (run_export fuel t now ok z = z) as -> by (destruct fuel; cbn; by rewrite ?Hnone).
    split; [done|split; [done|split; [|done]]]. eapply star_step; [apply star_refl|done].
  - destruct (IH z ph' Hz') as (I1 & I2 & I3 & I4); [by rewrite E1, lookup_insert_eq|by intros ->|lia|].
    split; [|split; [done|split; [|done]]].
    + rewrite I1, E1. apply map_eq. intros t'. destruct (decide (t = t')) as [<-|Hne]; [by rewrite !lookup_delete_eq|].
      by rewrite !lookup_delete_ne, lookup_insert_ne by done.
    + eapply star_trans; [|exact I3]. eapply star_step; [apply star_refl|done].
Qed.

Lemma Export_finishes M x now ok : inv M x -> token (store x) = true ->
  let y := Export now ok x in threads y = threads x /\ token (store y) = true /\ star step x y /\ inv M y.
Proof.
  intros Hx Htok. assert (Hfresh : threads x !! nextThread x = None).
  { apply eq_None_not_Some. intros H%(i_next _ _ Hx). lia. }
  assert (Hs : step x (spawn x)) by constructor.
  destruct (run_finishes M (nextThread x) now ok (export_fuel x) (spawn x) Waiting) as (R1 & R2 & R3 & R4).
  - by eapply agg_step.
  - cbn. by rewrite lookup_insert_eq.
  - done.
  - unfold export_fuel. cbn. lia.
  - unfold Export. cbv zeta. split; [|split; [done|split; [|done]]].
    + rewrite R1. cbn. by rewrite delete_insert_id.
    + eapply star_trans; [|exact R3]. eapply star_step; [apply star_refl|done].
Qed.

(** ** What it does *)

Definition runs (t : nat) (now : Z) (ok : bool) x y : Prop :=
  exists n, forall fuel, run_export (n + fuel) t now ok x = run_export fuel t now ok y.

Lemma runs_trans t now ok x y z : runs t now ok x y -> runs t now ok y z -> runs t now ok x z.
Proof. intros [n H] [m H']. exists (n + m)%nat. intros fuel. by rewrite <- Nat.add_assoc, H, H'. Qed.

Lemma runs_step t now ok x y ph : threads x !! t = Some ph ->
  advance t ph now (map_to_list (series (store x))) ok x = Some y -> runs t now ok x y.
Proof. intros Ht Ha. exists 1%nat. intros fuel. cbn [run_export Nat.add]. by rewrite Ht, Ha. Qed.

Lemma runs_ended t now ok x y fuel : runs t now ok x y -> threads y !! t = None ->
  threads (run_export fuel t now ok x) !! t = None -> run_export fuel t now ok x = y.
Proof.
  intros [n Hn] Hy Hx.
  assert (Hstop : forall m z, threads z !! t = None -> run_export m t now ok z = z).
  { intros [|m] z Hz; cbn; [done|]. by rewrite Hz. }
  assert (Hmore : forall m k z, threads (run_export m t now ok z) !! t = None -> run_export (m + k) t now ok z = run_export m t now ok z).
  { induction m as [|m IHm]; intros k z Hz; cbn [Nat.add run_export] in *; [by apply Hstop|].
    destruct (threads z !! t) as [ph|]; [|done]. destruct (advance _ _ _ _ _ _); [by apply IHm|done]. }
  rewrite <- (Hmore fuel n x Hx), Nat.add_comm, Hn. by apply Hstop.
Qed.

Lemma each_from_app {X} (f : nat -> ptr -> X -> X) ps qs : forall i z,
  each_from f i (ps ++ qs) z = each_from f (i + length ps) qs (each_from f i ps z).
Proof. induction ps as [|p ps IH]; intros i z; cbn [each_from app length]; [by rewrite Nat.add_0_r|]. rewrite IH. f_equal. lia. Qed.

Definition put x s sn : sys :=
  mkSys s sn (threads x) (nextThread x) (lines x) (reporting x) (taken x) (refused x) (sent x).

(** A chunked pass is one pass. *)
Lemma copying_runs t now ok now0 ptrs : forall n x seen, (length ptrs - length seen <= n)%nat ->
  threads x !! t = Some (Copying now0 ptrs seen) ->
  let r := each_from take_one (length seen) (drop (length seen) ptrs) (store x, snaps x) in
  runs t now ok x (with_phase t (Copying now0 ptrs (seen ++ (held x <$> drop (length seen) ptrs))) (put x r.1 r.2)).
Proof.
  induction n as [|n IH]; intros x seen Hn Ht; cbv zeta.
  - rewrite drop_ge by lia. cbn [each_from fmap list_fmap]. rewrite app_nil_r. exists 0%nat. intros fuel. f_equal.
    unfold with_phase, put. cbn. rewrite insert_id by done. by destruct x.
  - destruct (decide (length seen < length ptrs)%nat) as [Hlt|Hge].
    + set (ps := take snapChunk (drop (length seen) ptrs)). set (qs := drop snapChunk (drop (length seen) ptrs)).
      assert (Hd : drop (length seen) ptrs = ps ++ qs) by (by unfold ps, qs; rewrite take_drop).
      destruct (each_from take_one (length seen) ps (store x, snaps x)) as [s1 sn1] eqn:E1.
      eapply runs_trans.
      * eapply runs_step; [exact Ht|]. cbn [advance]. rewrite decide_True by done. unfold eachChunk. fold ps. by rewrite E1.
      * set (x1 := mkSys _ _ _ _ _ _ _ _ _).
        assert (Hq : drop (length (seen ++ (held x <$> ps))) ptrs = qs).
        { rewrite length_app, length_fmap. unfold qs. rewrite drop_drop. unfold ps. rewrite length_take, length_drop.
          destruct (decide (snapChunk <= length ptrs - length seen)%nat); [by rewrite Nat.min_l by lia|]. by rewrite !drop_ge by lia. }
        assert (Hl : (0 < length ps)%nat) by (unfold ps; rewrite length_take, length_drop; unfold snapChunk; lia).
        specialize (IH x1 (seen ++ (held x <$> ps))). rewrite Hq in IH. cbv zeta in IH.
        replace (drop (length seen) ptrs) with (ps ++ qs). rewrite each_from_app, E1, fmap_app, app_assoc.
        replace (length seen + length ps)%nat with (length (seen ++ (held x <$> ps))) by (by rewrite length_app, length_fmap).
        assert (Hgoal : with_phase t (Copying now0 ptrs ((seen ++ (held x <$> ps)) ++ (held x <$> qs)))
            (put x (each_from take_one (length (seen ++ (held x <$> ps))) qs (s1, sn1)).1 (each_from take_one (length (seen ++ (held x <$> ps))) qs (s1, sn1)).2) =
          with_phase t (Copying now0 ptrs ((seen ++ (held x <$> ps)) ++ (held x1 <$> qs)))
            (put x1 (each_from take_one (length (seen ++ (held x <$> ps))) qs (store x1, snaps x1)).1 (each_from take_one (length (seen ++ (held x <$> ps))) qs (store x1, snaps x1)).2)).
        { unfold with_phase, put, x1. cbn. by rewrite insert_insert_eq. }
        rewrite Hgoal. apply IH; [rewrite length_app, length_fmap; lia|]. cbn. by rewrite lookup_insert_eq.
    + rewrite drop_ge by lia. cbn [each_from fmap list_fmap]. rewrite app_nil_r. exists 0%nat. intros fuel. f_equal.
      unfold with_phase, put. cbn. rewrite insert_id by done. by destruct x.
Qed.

Lemma marking_runs t now ok ptrs : forall n x start, (length ptrs - start <= n)%nat ->
  threads x !! t = Some (Marking ptrs start) ->
  runs t now ok x (with_phase t Leaving (with_store (each_from mark_one start (drop start ptrs) (store x)) x)).
Proof.
  assert (Hend : forall x start, (length ptrs <= start)%nat -> threads x !! t = Some (Marking ptrs start) ->
    runs t now ok x (with_phase t Leaving (with_store (each_from mark_one start (drop start ptrs) (store x)) x))).
  { intros x start Hge Ht. rewrite drop_ge by lia. cbn [each_from]. eapply runs_step; [exact Ht|]. cbn [advance].
    rewrite decide_False by lia. f_equal. }
  induction n as [|n IH]; intros x start Hn Ht; [apply Hend; [lia|done]|].
  destruct (decide (start < length ptrs)%nat) as [Hlt|Hge]; [|apply Hend; [lia|done]].
  eapply runs_trans.
  - eapply runs_step; [exact Ht|]. cbn [advance]. by rewrite decide_True.
  - set (x1 := with_phase _ _ _).
    assert (Hd : each_from mark_one start (drop start ptrs) (store x) =
      each_from mark_one (start + snapChunk) (drop (start + snapChunk) ptrs) (store x1)).
    { rewrite <- (take_drop snapChunk (drop start ptrs)) at 1. rewrite each_from_app, drop_drop. unfold x1, eachChunk. cbn [store with_phase with_store].
      destruct (decide (snapChunk <= length ptrs - start)%nat) as [Hc|Hc].
      - rewrite length_take, length_drop. by rewrite Nat.min_l by lia.
      - by rewrite (drop_ge ptrs (start + snapChunk)) by lia. }
    rewrite Hd. replace (with_phase t Leaving (with_store (each_from mark_one (start + snapChunk) (drop (start + snapChunk) ptrs) (store x1)) x))
      with (with_phase t Leaving (with_store (each_from mark_one (start + snapChunk) (drop (start + snapChunk) ptrs) (store x1)) x1)).
    + apply IH; [unfold snapChunk; lia|]. unfold x1. cbn. by rewrite lookup_insert_eq.
    + unfold with_phase, with_store, x1. cbn [threads store snaps nextThread lines reporting taken refused sent with_phase with_store]. f_equal.
      by rewrite insert_insert_eq.
Qed.

(** ** The two passes *)

Definition as_rendered (mv : Meta * Series) : Meta * Series := (mkMeta (Start mv.1) (LastSeen mv.1) Rendered, mv.2).
Definition as_delivered (mv : Meta * Series) : Meta * Series := (mkMeta (Start mv.1) (LastSeen mv.1) Delivered, ResetExemplars mv.2).

(** All the parts of the store but its heap and the render's list. *)
Definition same_map s s' : Prop :=
  series s' = series s /\ brk s' = brk s /\ MaxCardinality s' = MaxCardinality s /\ StaleAfter s' = StaleAfter s /\
  token s' = token s /\ Evicted s' = Evicted s.

Definition changed (f : Meta * Series -> Meta * Series) (ps : list ptr) s s' : Prop :=
  forall q, heap s' !! q = (if decide (q ∈ ps) then f else id) <$> heap s !! q.

Lemma changed_cons f p ps s s1 s2 : p ∉ ps -> changed f [p] s s1 -> changed f ps s1 s2 -> changed f (p :: ps) s s2.
Proof.
  intros Hp H1 H2 q. rewrite H2, H1. destruct (heap s !! q) as [mv|]; [|done]. cbn [fmap option_fmap option_map]. f_equal.
  destruct (decide (q = p)) as [->|Hne].
  - rewrite (decide_True (P := p ∈ [p])) by (by apply list_elem_of_singleton). rewrite decide_False by done.
    rewrite decide_True; [done|by left].
  - rewrite (decide_False (P := q ∈ [p])) by (by rewrite list_elem_of_singleton). unfold id at 1. cbn.
    destruct (decide (q ∈ ps)) as [Hq|Hq]; [rewrite decide_True; [done|by right]|rewrite decide_False; [done|]].
    by intros [E|E]%elem_of_cons.
Qed.

Lemma changed_one f p s s' : heap s' = alter f p (heap s) -> changed f [p] s s'.
Proof.
  intros E q. rewrite E. destruct (decide (q = p)) as [->|Hne].
  - rewrite lookup_alter_eq, decide_True; [done|by apply list_elem_of_singleton].
  - rewrite lookup_alter_ne, decide_False by (rewrite ?list_elem_of_singleton; done). by destruct (heap s !! q).
Qed.

Lemma take_pass ps : forall i s sn, NoDup ps -> (forall p, p ∈ ps -> is_Some (heap s !! p)) -> (i + length ps <= length (slots sn))%nat ->
  let r := each_from take_one i ps (s, sn) in
  changed as_rendered ps s r.1 /\ rendered r.1 = rendered s ++ ps /\ same_map s r.1 /\
  (forall j, (j < i)%nat -> slots r.2 !! j = slots sn !! j) /\
  (forall j p m v, ps !! j = Some p -> heap s !! p = Some (m, v) -> exists e, slots r.2 !! (i + j)%nat = Some e /\
     reading e = reading_of (as_rendered (m, v)).1 v).
Proof.
  induction ps as [|p ps IH]; intros i s sn Hnd Hin Hlen; cbn [each_from fst snd].
  { split; [|split; [by rewrite app_nil_r|split; [done|split; [done|done]]]]. intros q. rewrite decide_False by apply not_elem_of_nil. by destruct (heap s !! q). }
  apply NoDup_cons in Hnd as [Hp Hnd]. destruct (Hin p) as [[m v] Hm]; [by left|]. cbn [length] in Hlen.
  set (s1 := MarkRenderedLocked p s). set (sn1 := mkSnapshotter (alter (CopyLocked (as_rendered (m, v)).1 v) i (slots sn)) (used sn) (small sn)).
  assert (E1 : take_one i p (s, sn) = (s1, sn1)).
  { unfold take_one. cbn [fst snd]. fold s1. replace (heap s1 !! p) with (Some (as_rendered (m, v))); [done|]. cbn. by rewrite lookup_alter_eq, Hm. }
  rewrite E1. assert (C1 : changed as_rendered [p] s s1) by (by apply changed_one).
  destruct (IH (S i) s1 sn1 Hnd) as (I1 & I2 & I3 & I4 & I5).
  { intros q Hq. rewrite (C1 q). apply fmap_is_Some, Hin. by right. }
  { unfold sn1. cbn [slots]. rewrite length_alter. lia. }
  destruct (each_from take_one (S i) ps (s1, sn1)) as [s2 sn2]. cbn [fst snd] in *.
  split; [by eapply changed_cons|split; [rewrite I2; cbn; by rewrite <- app_assoc|split; [done|split]]].
  - intros j Hj. rewrite I4 by lia. unfold sn1. cbn [slots]. by rewrite list_lookup_alter_ne by lia.
  - intros j q m' v' Hj Hq. destruct j as [|j]; cbn in Hj.
    + injection Hj as <-. rewrite Nat.add_0_r, I4 by lia. assert (E : (m', v') = (m, v)) by congruence. injection E as -> ->.
      destruct (lookup_lt_is_Some_2 (slots sn) i) as [e He]; [lia|]. exists (CopyLocked (as_rendered (m, v)).1 v e).
      unfold sn1. cbn [slots]. rewrite list_lookup_alter_eq, He. split; [done|]. apply reading_copy.
    + replace (i + S j)%nat with (S i + j)%nat by lia. eapply I5; [exact Hj|]. rewrite (C1 q), decide_False; [by rewrite Hq|].
      rewrite list_elem_of_singleton. intros ->. apply Hp. by eapply list_elem_of_lookup_2.
Qed.

Lemma mark_pass ps : forall i s, NoDup ps -> (forall p, p ∈ ps -> exists m v, heap s !! p = Some (m, v) /\ state m = Rendered) ->
  let r := each_from mark_one i ps s in
  changed as_delivered ps s r /\ same_map s r.
Proof.
  induction ps as [|p ps IH]; intros i s Hnd Hin; cbn [each_from].
  { split; [|done]. intros q. rewrite decide_False by apply not_elem_of_nil. by destruct (heap s !! q). }
  apply NoDup_cons in Hnd as [Hp Hnd]. destruct (Hin p) as (m & v & Hm & Hs); [by left|].
  assert (C1 : changed as_delivered [p] s (mark_one i p s)).
  { apply changed_one. unfold mark_one, markDeliveredLocked. cbn. apply map_eq. intros q. destruct (decide (p = q)) as [<-|Hne].
    - rewrite !lookup_alter_eq, Hm. cbn. by rewrite decide_True.
    - by rewrite !lookup_alter_ne. }
  destruct (IH (S i) (mark_one i p s) Hnd) as (I1 & I2).
  { intros q Hq. destruct (Hin q) as (m' & v' & Hm' & Hs'); [by right|]. exists m', v'. split; [|done]. rewrite (C1 q), decide_False; [by rewrite Hm'|].
    rewrite list_elem_of_singleton. by intros ->. }
  split; [by eapply changed_cons|done].
Qed.

(** ** The whole export *)

(** The series a render at [now] keeps, in the order the map yields them. *)
Definition live_order (now : Z) s : list ptr := filter (fun p => is_stale now s p = false) (map_to_list (series s)).*2.

(** What an export makes of a series it sent. *)
Definition settled (ok : bool) (mv : Meta * Series) : Meta * Series := if ok then as_delivered mv else as_rendered mv.

Definition snapshot_of s p (r : Reading) : Prop := exists m v, heap s !! p = Some (m, v) /\ r = reading_of (as_rendered (m, v)).1 v.

(** The record of a send: none when there was nothing to send. *)
Definition send_log (now : Z) (ok : bool) x (live : list ptr) (rs : list Reading) : list (payload * bool) :=
  match Render now rs with [] => [] | md => [(mkPayload now (zip (zip live (held x <$> live)) rs) md, ok)] end.

Record exported (now : Z) (ok : bool) x y : Prop := {
  x_series k p : series (store y) !! k = Some p <-> series (store x) !! k = Some p /\ is_stale now (store x) p = false;
  x_heap : changed (settled ok) (live_order now (store x)) (store x) (store y);
  x_sent : exists rs, Forall2 (snapshot_of (store x)) (live_order now (store x)) rs /\
    sent y = sent x ++ send_log now ok x (live_order now (store x)) rs;
  x_same : StaleAfter (store y) = StaleAfter (store x) /\ MaxCardinality (store y) = MaxCardinality (store x) /\
    taken y = taken x /\ refused y = refused x }.

(** The last two holds. *)
Lemma leaving_runs t now ok x : threads x !! t = Some Leaving ->
  runs t now ok x (mkSys (set_token true (resetRendered (store x))) (snaps x) (delete t (threads x)) (nextThread x) (lines x)
    (reporting x) (taken x) (refused x) (sent x)).
Proof.
  intros Ht. eapply runs_trans; [eapply runs_step; [exact Ht|reflexivity]|].
  set (x1 := with_phase _ _ _). eapply runs_trans; [eapply (runs_step t now ok x1); [unfold x1; cbn; by rewrite lookup_insert_eq|reflexivity]|].
  exists 0%nat. intros fuel. f_equal. unfold x1. cbn. by rewrite delete_insert_eq.
Qed.

Lemma changed_nil f s s' : heap s' = heap s -> changed f [] s s'.
Proof. intros E q. rewrite E, decide_False by apply not_elem_of_nil. by destruct (heap s !! q). Qed.

Lemma changed_trans f g ps s s1 s2 : changed f ps s s1 -> changed g ps s1 s2 -> changed (fun mv => g (f mv)) ps s s2.
Proof. intros H1 H2 q. rewrite H2, H1. destruct (heap s !! q); [|done]. cbn. by destruct (decide (q ∈ ps)). Qed.

Lemma changed_heap f ps s s1 s2 : heap s2 = heap s1 -> changed f ps s s1 -> changed f ps s s2.
Proof. intros E H q. by rewrite E. Qed.

Lemma live_walk_live M now s tk rf ys ln : core M s tk rf ys ln ->
  (LivePointersLocked (map_to_list (series s)) now s).2 = live_order now s.
Proof.
  intros C. destruct (order_keys s _ (reflexivity _)) as [Hnd Hin]. unfold LivePointersLocked.
  destruct (live_walk_spec now (map_to_list (series s)) s Hnd) as (_ & -> & _); [|done].
  intros k p Hk. apply (c_heap _ _ _ _ _ _ C). eapply c_live; [exact C|]. by apply (Hin k p).
Qed.

(** A render of no series writes no metric, and of some series some. *)
Lemma Render_nil now rs : Render now rs = [] <-> rs = [].
Proof. unfold Render. split; [|intros ->; apply build_none]. destruct rs; [done|]. intros E. by destruct (build_some now r rs). Qed.

(** The end of an export, from its finished copy. *)
Lemma finish_runs t now ok x live rs :
  threads x !! t = Some (Copying now live (held x <$> live)) -> readings (length live) (snaps x) = rs -> length rs = length live ->
  rendered (store x) = live -> NoDup live -> (forall p, p ∈ live -> exists m v, heap (store x) !! p = Some (m, v) /\ state m = Rendered) ->
  exists y, runs t now ok x y /\ threads y !! t = None /\ sent y = sent x ++ send_log now ok x live rs /\
    taken y = taken x /\ refused y = refused x /\ series (store y) = series (store x) /\
    StaleAfter (store y) = StaleAfter (store x) /\ MaxCardinality (store y) = MaxCardinality (store x) /\
    changed (if ok then as_delivered else id) live (store x) (store y).
Proof.
  intros Ht Hrs Hlen Hr Hnd Hst. unfold send_log. pose proof (Render_nil now rs) as Hnil.
  destruct (Render now rs) as [|md0 md] eqn:Emd.
  - assert (live = []) as -> by (apply length_zero_iff_nil; rewrite <- Hlen; by rewrite (proj1 Hnil)).
    assert (R1 : runs t now ok x (with_phase t Leaving x)).
    { eapply runs_step; [exact Ht|]. cbn [advance]. rewrite decide_False by (rewrite length_fmap; lia). by rewrite Hrs, Emd. }
    eexists. split; [eapply runs_trans; [exact R1|eapply leaving_runs; cbn; by rewrite lookup_insert_eq]|].
    cbn [threads sent taken refused store with_phase]. rewrite lookup_delete_eq, app_nil_r. split; [done|split; [done|split; [done|split; [done|]]]].
    split; [done|split; [done|split; [done|]]]. by apply changed_nil.
  - set (y := mkPayload now (zip (zip live (held x <$> live)) rs) (md0 :: md)).
    assert (R1 : runs t now ok x (with_phase t (Sending y) x)).
    { eapply runs_step; [exact Ht|]. cbn [advance]. rewrite decide_False by (rewrite length_fmap; lia). by rewrite Hrs, Emd. }
    set (x1 := with_phase t (Sending y) x) in *.
    set (x2 := with_phase t (if ok then Acked else Leaving) (with_sent (sent x ++ [(y, ok)]) x1)).
    assert (R2 : runs t now ok x1 x2) by (eapply runs_step; [unfold x1; cbn; by rewrite lookup_insert_eq|done]).
    destruct ok.
    + set (x3 := with_phase t (Marking live 0) x2).
      assert (R3 : runs t now true x2 x3).
      { eapply runs_step; [unfold x2; cbn; by rewrite lookup_insert_eq|]. cbn [advance]. unfold x3. unfold x2, x1. cbn [store with_phase with_sent]. by rewrite Hr. }
      pose proof (marking_runs t now true live (length live) x3 0) as R4.
      specialize (R4 ltac:(lia)). rewrite drop_0 in R4.
      eexists. split; [eapply runs_trans; [exact R1|eapply runs_trans; [exact R2|eapply runs_trans; [exact R3|eapply runs_trans]]]|].
      * apply R4. unfold x3. cbn. by rewrite lookup_insert_eq.
      * eapply leaving_runs. cbn. by rewrite lookup_insert_eq.
      * destruct (mark_pass live 0 (store x) Hnd Hst) as (M1 & M2 & M3 & M4 & M5 & _).
        cbn [threads sent taken refused store with_phase with_store with_sent]. unfold x3, x2, x1. cbn [threads sent taken refused store with_phase with_store with_sent].
        rewrite lookup_delete_eq. split; [done|split; [done|split; [done|split; [done|split; [exact M2|split; [exact M5|split; [exact M4|]]]]]]].
        eapply changed_heap; [|exact M1]. done.
    + eexists. split; [eapply runs_trans; [exact R1|eapply runs_trans; [exact R2|eapply leaving_runs; unfold x2; cbn; by rewrite lookup_insert_eq]]|].
      cbn [threads sent taken refused store]. unfold x2, x1. cbn [threads sent taken refused store with_phase with_store with_sent].
      rewrite lookup_delete_eq. split; [done|split; [done|split; [done|split; [done|split; [done|split; [done|split; [done|]]]]]]].
      intros q. cbn. destruct (heap (store x) !! q); [|done]. cbn. by case_decide.
Qed.

Lemma exported_now M x now ok : inv M x -> token (store x) = true -> exported now ok x (Export now ok x).
Proof.
  intros Hx Htok. pose proof (i_core _ _ Hx) as C. set (t := nextThread x).
  destruct (Export_finishes M x now ok Hx Htok) as (F1 & _ & _ & _).
  assert (Hfresh : threads x !! t = None). { apply eq_None_not_Some. intros H%(i_next _ _ Hx). unfold t in H. lia. }
  enough (exists y, runs t now ok (spawn x) y /\ threads y !! t = None /\ exported now ok x y) as (y & R & Hy & He).
  { replace (Export now ok x) with y; [done|]. symmetry. unfold Export. eapply runs_ended; [exact R|exact Hy|].
    change (threads (Export now ok x) !! t = None). by rewrite F1. }
  set (s2 := resetRendered (set_token false (store x))).
  set (x2 := mkSys s2 (snaps x) (<[t := Walking now]> (<[t := Entered]> (threads (spawn x)))) (S t) (lines x) (reporting x) (taken x) (refused x) (sent x)).
  assert (R2 : runs t now ok (spawn x) x2).
  { set (x1 := with_phase t Entered (with_store (set_token false (store x)) (spawn x))).
    eapply (runs_trans t now ok _ x1); (eapply runs_step; [cbn; by rewrite lookup_insert_eq|]); [|reflexivity]. cbn. by rewrite Htok. }
  assert (C2 : core M s2 (taken x) (refused x) (sent x) (lines x)) by (by eapply core_ext; [..|exact C]).
  destruct (core_walk M now (map_to_list (series s2)) s2 _ _ _ _ (reflexivity _) C2) as (W1 & W2 & W3 & W4 & W5 & W6).
  pose proof (live_walk_live M now s2 _ _ _ _ C2) as Hlive. change (live_order now s2) with (live_order now (store x)) in Hlive.
  set (live := live_order now (store x)) in *.
  destruct (LivePointersLocked (map_to_list (series s2)) now s2) as [s3 ptrs] eqn:EL. cbn [fst snd] in *. subst ptrs.
  set (sn3 := grow (length live) (snaps x)).
  set (x3 := mkSys s3 sn3 (<[t := Copying now live []]> (threads x2)) (S t) (lines x) (reporting x) (taken x) (refused x) (sent x)).
  assert (R3 : runs t now ok x2 x3).
  { eapply runs_step; [cbn; by rewrite lookup_insert_eq|]. cbn [advance store x2]. rewrite EL. done. }
  pose proof (copying_runs t now ok now live (length live) x3 []) as R4. cbn [length] in R4. rewrite drop_0, Nat.sub_0_r in R4.
  specialize (R4 (le_n _)). specialize (R4 ltac:(unfold x3; cbn; by rewrite lookup_insert_eq)). cbv zeta in R4. rewrite app_nil_l in R4.
  destruct W2 as (V1 & V2 & V3 & V4 & V5 & V6 & V7 & V8).
  pose proof (NoDup_fmap_1 _ _ W3) as Wnd. destruct (take_pass live 0 s3 sn3 Wnd) as (T1 & T2 & (T3 & T4 & T5 & T6 & _) & _ & T7).
  { intros p Hp. rewrite V1. apply (c_heap _ _ _ _ _ _ C2). eapply Forall_forall in W4; [exact (proj1 W4)|done]. }
  { destruct (grow_ok (length live) (snaps x) (i_scratch _ _ Hx)). cbn. done. }
  change (store x3) with s3 in R4. change (snaps x3) with sn3 in R4.
  destruct (each_from take_one 0 live (s3, sn3)) as [s4 sn4] eqn:E4. cbn [fst snd] in *.
  set (x4 := with_phase t _ _) in R4. set (rs := readings (length live) sn4).
  assert (Hsn4 : (length live <= length (slots sn4))%nat).
  { destruct (decide (length live = 0)%nat) as [->|Hne]; [lia|]. destruct (lookup_lt_is_Some_2 live (length live - 1)) as [p Hp]; [lia|].
    destruct (proj2 (c_heap _ _ _ _ _ _ C2 p)) as [[m v] Hm]; [eapply Forall_lookup_1 in W4; [exact (proj1 W4)|exact Hp]|].
    destruct (T7 (length live - 1)%nat p m v Hp) as (e & He & _); [by rewrite V1|]. apply lookup_lt_Some in He. lia. }
  assert (Hlen : length rs = length live) by (unfold rs, readings; rewrite length_fmap, length_take; lia).
  assert (Hrs : Forall2 (snapshot_of (store x)) live rs).
  { apply Forall2_same_length_lookup. split; [done|]. intros j p r Hp Hr. unfold rs, readings in Hr. rewrite list_lookup_fmap in Hr.
    destruct (take (length live) (slots sn4) !! j) as [e|] eqn:E; [|done]. injection Hr as <-. apply lookup_take_Some in E as [E _].
    destruct (proj2 (c_heap _ _ _ _ _ _ C2 p)) as [[m v] Hm]; [eapply Forall_lookup_1 in W4; [exact (proj1 W4)|exact Hp]|].
    exists m, v. split; [done|]. destruct (T7 j p m v Hp) as (e' & He' & <-); [by rewrite V1|]. cbn in He'. congruence. }
  assert (Hheap4 : changed as_rendered live (store x) s4) by (intros q; by rewrite (T1 q), V1).
  destruct (finish_runs t now ok x4 live rs) as (y & R5 & Y1 & Y2 & Y3 & Y4 & Y5 & Y6 & Y7 & Y8).
  { unfold x4. cbn. by rewrite lookup_insert_eq. }
  { done. }
  { done. }
  { unfold x4. cbn. by rewrite T2, V5. }
  { done. }
  { intros p Hp. unfold x4. cbn. destruct (proj2 (c_heap _ _ _ _ _ _ C2 p)) as [[m v] Hm]; [eapply Forall_forall in W4; [exact (proj1 W4)|done]|].
    exists (as_rendered (m, v)).1, v. split; [|done]. rewrite (Hheap4 p), decide_True by done. change (heap s2) with (heap (store x)) in Hm. by rewrite Hm. }
  exists y. split; [eapply runs_trans; [exact R2|eapply runs_trans; [exact R3|eapply runs_trans; [exact R4|exact R5]]]|]. split; [done|].
  split.
  - intros k p. rewrite Y5. unfold x4. cbn [store with_phase put]. rewrite T3. apply W6.
  - pose proof (changed_trans _ _ _ _ _ _ Hheap4 Y8) as H. intros q. rewrite (H q). destruct (heap (store x) !! q) as [mv|]; [|done]. cbn. f_equal.
    fold live. case_decide; [|done]. by destruct ok.
  - exists rs. split; [exact Hrs|]. rewrite Y2. done.
  - unfold x4 in *. cbn [store with_phase put] in *. rewrite Y6, Y7, T6, T5, V3, V4. split; [done|split; [done|]]. by rewrite Y3, Y4.
Qed.

End Run.
