(* ===== verification/EdgeMetrics.v ===== *)
(** * Service-graph metrics ([internal/agent/servicegraph/metrics.go])

    The registry of edge series: how a completed edge is keyed, folded into its
    series, copied by a render and written out.  It is an [Aggregate] of
    [CumAgg], whose store and export transaction it uses.

    The pairing store carries a duration as opaque bits; [seconds] is the float
    they denote, [grown] is what [append] grows a slice to, and [PutStr] is the
    [pcommon.Map] method that writes one attribute. *)

From S2P Require Import Prelude Clip Number Hist CumAgg Edge.
Local Open Scope Z_scope.

Definition metricRequests : bytes := text "traces_service_graph_request_total".
Definition metricFailed : bytes := text "traces_service_graph_request_failed_total".
Definition metricServerSeconds : bytes := text "traces_service_graph_request_server_seconds".
Definition metricClientSeconds : bytes := text "traces_service_graph_request_client_seconds".

Definition labelClient : bytes := text "client".
Definition labelServer : bytes := text "server".
Definition labelConnectionType : bytes := text "connection_type".
Definition labelVirtualNode : bytes := text "virtual_node".

Definition builtinLabels : Builtins := {[labelClient; labelServer; labelConnectionType; labelVirtualNode]}.

Definition connection_name (c : ConnectionType) : bytes :=
  match c with
  | ConnectionUnknown => []
  | ConnectionMessagingSystem => text "messaging_system"
  | ConnectionDatabase => text "database"
  | ConnectionVirtualNode => text "virtual_node"
  end.

Record edgeSeries := mkSeries { labels : attributes; requests : Z; failures : Z; client : Hist; server : Hist }.

Record edgeSnapshot := mkSnapshot {
  s_labels : attributes; s_requests : Z; s_failed : Z; s_start : Z; s_client : HistSnap; s_server : HistSnap }.

Section Registry.
Context (bounds : list float64) (exemplars : bool) (seconds : Z -> float64) (grown : nat -> nat -> nat)
  (PutStr : bytes -> bytes -> attributes -> attributes).

Definition nbuckets : nat := S (length bounds).

(** The dimensions that are not labels of the registry's own. *)
Definition own_dims (e : Edge) : list EdgeDimension := filter (fun d => dim_name d ∉ builtinLabels) (o_dims e).

Definition edge_key (e : Edge) : bytes :=
  let k := AppendKeyPart [] (Trunc (o_client e)) in
  let k := AppendKeyPart k (Trunc (o_server e)) in
  let k := AppendKeyPart k (connection_name (o_connection e)) in
  let k := AppendKeyPart k (o_virtual e) in
  foldl (fun k d => AppendKeyPart (AppendKeyPart k (dim_name d)) (Trunc (dim_value d))) k (own_dims e).

Definition edgeLabels (e : Edge) : attributes :=
  [(labelClient, Retain (o_client e)); (labelServer, Retain (o_server e)); (labelConnectionType, connection_name (o_connection e))] ++
  (match o_virtual e with [] => [] | v => [(labelVirtualNode, v)] end) ++
  ((fun d => (dim_name d, Retain (dim_value d))) <$> own_dims e).

(** One side of an edge, when it arrived. *)
Definition observe_side (ex : bool) (secs : float64) (ts tid sid : Z) (h : Hist) : Hist :=
  let i := BucketIndex bounds secs in
  let h := Observe i nbuckets secs h in
  if ex then SetExemplar i nbuckets secs ts tid sid h else h.

(** An edge and the answer of the exemplar predicate for its trace. *)
Definition edge_obs : Type := Edge * bool.

Definition fold_edge (now : Z) (o : edge_obs) (s : edgeSeries) : edgeSeries :=
  let e := o.1 in
  let ex := exemplars && o.2 in
  mkSeries (labels s) (u64 (requests s + 1)) (if o_failed e then u64 (failures s + 1) else failures s)
    (if o_haveClient e then observe_side ex (seconds (o_clientSeconds e)) now (o_traceID e) (o_clientSpanID e) (client s) else client s)
    (if o_haveServer e then observe_side ex (seconds (o_serverSeconds e)) now (o_traceID e) (o_serverSpanID e) (server s) else server s).

Definition resetExemplars (s : edgeSeries) : edgeSeries :=
  mkSeries (labels s) (requests s) (failures s) (Hist_ClearExemplars (client s)) (Hist_ClearExemplars (server s)).

Definition copyEdgeSeries (m : Meta) (s : edgeSeries) (e : edgeSnapshot) : edgeSnapshot :=
  mkSnapshot (labels s) (requests s) (failures s) (Start m) (CopyFrom grown (client s) (s_client e)) (CopyFrom grown (server s) (s_server e)).

Definition fit_edge (e : edgeSnapshot) : edgeSnapshot :=
  mkSnapshot (s_labels e) (s_requests e) (s_failed e) (s_start e) (Fit nbuckets (s_client e)) (Fit nbuckets (s_server e)).
Definition release_edge (e : edgeSnapshot) : edgeSnapshot :=
  mkSnapshot [] (s_requests e) (s_failed e) (s_start e) (s_client e) (s_server e).

Definition read_edge (e : edgeSnapshot) : edgeSnapshot :=
  mkSnapshot (s_labels e) (s_requests e) (s_failed e) (s_start e) (contents (s_client e)) (contents (s_server e)).

Definition putLabels (ls : attributes) : attributes := foldl (fun a l => PutStr l.1 l.2 a) [] ls.

(** One side's points: none for a side that was never observed. *)
Definition side_points (side : edgeSnapshot -> HistSnap) (ts : Z) (snap : list edgeSnapshot) : list HistPoint :=
  (fun s => PutHistPoint (putLabels (s_labels s)) (side s) bounds (ClampStart (s_start s) ts) ts) <$>
  filter (fun s => Present (side s) = true) snap.

Definition count_points (get : edgeSnapshot -> Z) (ts : Z) (snap : list edgeSnapshot) : list NumberPoint :=
  (fun s => mkNumber (putLabels (s_labels s)) (ClampStart (s_start s) ts) ts (int_of_u64 (get s))) <$> snap.

Definition renderEdges (ts : Z) (snap : list edgeSnapshot) : list Metric :=
  match snap with
  | [] => []
  | _ =>
      let any side := existsb (fun s => Present (side s)) snap in
      [SumMetric metricRequests [] (count_points s_requests ts snap); SumMetric metricFailed [] (count_points s_failed ts snap)] ++
      (if any s_server then [HistMetric metricServerSeconds (side_points s_server ts snap)] else []) ++
      (if any s_client then [HistMetric metricClientSeconds (side_points s_client ts snap)] else [])
  end.

#[export] Instance Registry : Aggregate := {|
  Obs := edge_obs; Series := edgeSeries; Snap := edgeSnapshot; Reading := edgeSnapshot;
  obs_key o := edge_key o.1;
  NewSeries := mkSeries [] 0 0 zeroHist zeroHist;
  materialize o s := mkSeries (edgeLabels o.1) (requests s) (failures s) (client s) (server s);
  fold_in := fold_edge;
  ResetExemplars := resetExemplars;
  zeroSnap := mkSnapshot [] 0 0 0 zeroHistSnap zeroHistSnap;
  FitSlot := fit_edge;
  Release := release_edge;
  CopyLocked := copyEdgeSeries;
  reading := read_edge;
  build := renderEdges |}.

(** [RecordAt], the registry's lock and store being [CumAgg]'s; [keep] is the
    exemplar predicate, if one is installed. *)
Definition RecordAt (keep : option (Z -> bool)) (e : Edge) (now : Z) (x : sys) : sys :=
  record now (e, match keep with None => true | Some f => f (o_traceID e) end) x.

(** ** The laws of the interface *)

Definition hist_values (h : Hist) : Z * float64 * option (list Z) := (Count h, Sum h, Buckets h).
Definition snap_hist_values (h : HistSnap) : Z * float64 * option (list Z) :=
  (s_Count h, s_Sum h, if Present h then Some (s_Buckets h) else None).

Definition edge_values (s : edgeSeries) := (labels s, requests s, failures s, hist_values (client s), hist_values (server s)).
Definition snapshot_values (e : edgeSnapshot) :=
  (s_labels e, s_requests e, s_failed e, snap_hist_values (s_client e), snap_hist_values (s_server e)).

Lemma hist_values_side ex secs ts tid sid h h' : hist_values h = hist_values h' ->
  hist_values (observe_side ex secs ts tid sid h) = hist_values (observe_side ex secs ts tid sid h').
Proof. destruct h, h'. unfold hist_values. cbn. intros [= -> -> ->]. by destruct ex. Qed.

Lemma hist_values_copy h e : snap_hist_values (contents (CopyFrom grown h e)) = hist_values h.
Proof. unfold snap_hist_values, hist_values. cbn. by destruct (Buckets h). Qed.

#[export] Instance RegistryLaws : AggregateLaws Registry.
Proof.
  refine {| values := edge_values : @Series Registry -> _; reading_values := snapshot_values : @Reading Registry -> _;
    reading_start := s_start : @Reading Registry -> Z;
    reading_of := fun m v => read_edge (copyEdgeSeries m v (mkSnapshot [] 0 0 0 zeroHistSnap zeroHistSnap)) |}.
  - intros now [e k] v w H.
    pose proof (f_equal (fun x => x.1.1.1.1) H) as E1. pose proof (f_equal (fun x => x.1.1.1.2) H) as E2.
    pose proof (f_equal (fun x => x.1.1.2) H) as E3. pose proof (f_equal (fun x => x.1.2) H) as E4. pose proof (f_equal snd H) as E5.
    clear H. destruct v as [l r f c s], w as [l' r' f' c' s']. cbn [edge_values labels requests failures client server fst snd] in *.
    subst l' r' f'. unfold edge_values, fold_in, Registry, fold_edge. cbn [labels requests failures client server fst snd].
    f_equal; [f_equal|]; case_match; try done; by apply hist_values_side.
  - intros v. by destruct v as [? ? ? [] []].
  - done.
  - intros m v. unfold snapshot_values. cbn -[contents CopyFrom]. by rewrite !hist_values_copy.
  - done.
  - done.
  - intros ts r rs. cbn. done.
Defined.

End Registry.
