(* ===== verification/CumAggSafe.v ===== *)
(** * What cumulative aggregation promises

    Over every interleaving of observations, exports, abandoned exports and
    reports: nothing observed is destroyed before the collector has it, what is
    sent of a series only grows, the cap holds and every refusal is counted,
    an export always finishes, and idle series give their place back.  The
    examples run the service-graph registry. *)

From S2P Require Import Prelude Clip Number Edge Hist CumAgg CumAggRun EdgeMetrics.
Local Open Scope Z_scope.

Section Safe.
Context {A : Aggregate} {L : AggregateLaws A}.

(** C4: no observation is lost.  Whatever runs beside it, an observation that
    was admitted is either part of the values its live series holds, or part of
    the final values of an evicted series, and a payload the collector accepted
    carried exactly those. *)
Theorem no_observation_lost M S x p e : star step (init M S) x -> e ∈ log (taken x) p ->
  (exists m v, series (store x) !! obs_key e.2 = Some p /\ heap (store x) !! p = Some (m, v) /\
     values v = values (fold_all (log (taken x) p))) \/
  (exists y r, (y, true) ∈ sent x /\ (p, length (log (taken x) p), r) ∈ y_entries y /\
     reading_values r = values (fold_all (log (taken x) p)) /\ y_metrics y = Render (y_ts y) (snd <$> y_entries y)).
Proof.
  intros Hx He. pose proof (i_core _ _ (agg_inv _ _ _ Hx)) as C.
  assert (Hp : is_Some (taken x !! p)). { unfold log in He. destruct (taken x !! p); [done|]. by apply not_elem_of_nil in He. }
  destruct (proj2 (c_heap _ _ _ _ _ _ C p) (c_taken _ _ _ _ _ _ C p Hp)) as [[m v] Hm].
  destruct (decide (series (store x) !! obs_key e.2 = Some p)) as [Hs|Hs].
  - left. exists m, v. split; [done|split; [done|]]. by destruct (c_values _ _ _ _ _ _ C p m v Hm) as (o & rest & _ & ?).
  - right. destruct (c_done _ _ _ _ _ _ C p m v Hm) as (y & r & Hy & Hr).
    { right. intros k Hk. apply Hs. rewrite (c_keys _ _ _ _ _ _ C k p e Hk He). done. }
    exists y, r. destruct (c_sent _ _ _ _ _ _ C y true Hy) as (H1 & _ & H2 & _). destruct (H1 _ _ _ Hr) as [_ Hv _ _].
    rewrite firstn_all in Hv. done.
Qed.

(** What is sent of a series is cumulative.  Payloads carry a series with
    the fold of its first [k] observations, accepted or not, [k] never going
    back, always under the start its first observation gave it; and no payload
    holds two series of one key. *)
Theorem payloads_cumulative M S x i j y1 b1 y2 b2 p k1 r1 k2 r2 : star step (init M S) x ->
  sent x !! i = Some (y1, b1) -> sent x !! j = Some (y2, b2) -> (i < j)%nat ->
  (p, k1, r1) ∈ y_entries y1 -> (p, k2, r2) ∈ y_entries y2 ->
  (1 <= k1 <= k2)%nat /\ (k2 <= length (log (taken x) p))%nat /\ reading_start r1 = reading_start r2 /\
  reading_values r1 = values (fold_all (take k1 (log (taken x) p))) /\
  reading_values r2 = values (fold_all (take k2 (log (taken x) p))) /\
  NoDup ((fun e => first_key (taken x) e.1.1) <$> y_entries y1).
Proof.
  intros Hx H1 H2 Hij E1 E2. pose proof (i_core _ _ (agg_inv _ _ _ Hx)) as C.
  pose proof (c_order _ _ _ _ _ _ C i j _ _ _ _ p k1 r1 k2 r2 H1 H2 Hij E1 E2) as Hk.
  destruct (c_sent _ _ _ _ _ _ C y1 b1) as (P1 & P2 & _); [by eapply list_elem_of_lookup_2|].
  destruct (c_sent _ _ _ _ _ _ C y2 b2) as (Q1 & _); [by eapply list_elem_of_lookup_2|].
  destruct (P1 _ _ _ E1) as [A1 A2 (o1 & A3) _]. destruct (Q1 _ _ _ E2) as [B1 B2 (o2 & B3) _].
  split; [lia|split; [lia|split; [congruence|done]]].
Qed.

(** The cardinality cap.  The map never exceeds it, an observation is
    refused exactly when its key is new and the map full, every refusal is
    counted, and the reported lines and what they have not yet said add up to
    the counter. *)
Theorem cap_exact M S x : star step (init M S) x ->
  Z.of_nat (Len (store x)) <= 0 `max` M /\ Dropped (store x) = Z.of_nat (length (refused x)) /\
  u64 (foldr Z.add 0 (lines x) + capRefused (store x)) = u64 (Dropped (store x)) /\
  forall now o, refused (record now o x) =
    if decide (series (store x) !! obs_key o = None /\ M <= Z.of_nat (Len (store x))) then refused x ++ [o] else refused x.
Proof.
  intros Hx. pose proof (i_core _ _ (agg_inv _ _ _ Hx)) as C. pose proof (c_max _ _ _ _ _ _ C) as HM.
  split; [apply (c_cap _ _ _ _ _ _ C)|]. split; [apply (c_dropped _ _ _ _ _ _ C)|]. split; [apply (c_lines _ _ _ _ _ _ C)|].
  intros now o. unfold record, Len. destruct (observe_spec now o (store x)) as [(p & s' & m & v & -> & Ho)|(Hk & Hm & ->)].
  - intros k p Hk. apply (c_heap _ _ _ _ _ _ C). by eapply c_live.
  - cbn [refused]. rewrite decide_False; [done|]. intros [Hk Hm]. destruct (o_which _ _ _ _ _ _ _ Ho) as [(H1 & _)|(_ & H1 & _)]; [congruence|lia].
  - cbn [refused]. rewrite decide_True; [done|]. split; [done|lia].
Qed.

(** C40: the gate is exclusive and nobody waits for ever.  At most one export is
    past the gate; the one that is, run by itself, ends within a bounded number
    of holds and frees the gate; and with the gate free the next one does. *)
Theorem export_completes M S x t ph now ok : star step (init M S) x -> threads x !! t = Some ph ->
  (ph = Waiting -> token (store x) = true) ->
  (forall t1 t2 ph1 ph2, threads x !! t1 = Some ph1 -> threads x !! t2 = Some ph2 -> past_gate ph1 -> past_gate ph2 -> t1 = t2) /\
  (token (store x) = false <-> exists t' ph', threads x !! t' = Some ph' /\ past_gate ph') /\
  exists fuel, (fuel <= 9 + 2 * length (rendered (store x)) + 2 * Len (store x) + rank x ph)%nat /\
    let y := run_export fuel t now ok x in threads y = delete t (threads x) /\ token (store y) = true /\ star step x y.
Proof.
  intros Hx Ht Hw. pose proof (agg_inv _ _ _ Hx) as Hi. split; [|split].
  - intros t1 t2 ph1 ph2 H1 H2 P1 P2. destruct (i_gate _ _ Hi t2 ph2 H2 P2) as [_ H]. by eapply H.
  - split; [apply (i_free _ _ Hi)|]. intros (t' & ph' & H1 & H2). by destruct (i_gate _ _ Hi t' ph' H1 H2).
  - exists (rank x ph). split; [lia|]. by destruct (run_finishes M t now ok (rank x ph) x ph Hi Ht Hw) as (R1 & R2 & R3 & _).
Qed.

(** One export.  With nothing in between, an export drops exactly the
    series that were delivered and have been idle past [StaleAfter], sends one
    payload of all the others as they stand, or none when there is none, and
    marks a series delivered and clears its exemplars only when the payload was
    accepted: a failed send leaves every value and every exemplar in place. *)
Theorem export_exact M S x now ok : star step (init M S) x -> token (store x) = true ->
  let y := Export now ok x in
  threads y = threads x /\ token (store y) = true /\ star step x y /\ exported now ok x y.
Proof.
  intros Hx Htok. pose proof (agg_inv _ _ _ Hx) as Hi. destruct (Export_finishes M x now ok Hi Htok) as (F1 & F2 & F3 & _).
  split; [done|split; [done|split; [done|]]]. by eapply exported_now.
Qed.

Lemma live_member M S x now p k : star step (init M S) x -> series (store x) !! k = Some p -> is_stale now (store x) p = false ->
  p ∈ live_order now (store x).
Proof.
  intros _ Hk Hs. unfold live_order. apply list_elem_of_filter. split; [done|]. apply list_elem_of_fmap. exists (k, p).
  split; [done|]. by apply elem_of_map_to_list.
Qed.

(** The cap is no one-way latch.  After an accepted export with nothing
    observed since, the next one evicts exactly the series idle past
    [StaleAfter]; when all are, a refused key is admitted again. *)
Theorem idle_series_released M S x now1 now2 ok : star step (init M S) x -> token (store x) = true -> 0 < StaleAfter (store x) ->
  let y := Export now1 true x in let z := Export now2 ok y in
  (forall k p m v, series (store y) !! k = Some p -> heap (store y) !! p = Some (m, v) ->
     series (store z) !! k = if decide (StaleAfter (store x) < time_sub now2 (LastSeen m)) then None else Some p) /\
  (0 < M -> (forall k p m v, series (store y) !! k = Some p -> heap (store y) !! p = Some (m, v) ->
     StaleAfter (store x) < time_sub now2 (LastSeen m)) -> forall now o, refused (record now o z) = refused x).
Proof.
  intros Hx Htok HS y z. pose proof (agg_inv _ _ _ Hx) as Hi.
  destruct (Export_finishes M x now1 true Hi Htok) as (_ & Y2 & Y3 & Y4). fold y in Y2, Y3, Y4.
  pose proof (exported_now M x now1 true Hi Htok) as Ey. fold y in Ey. pose proof (exported_now M y now2 ok Y4 Y2) as Ez. fold z in Ez.
  destruct (Export_finishes M y now2 ok Y4 Y2) as (_ & _ & _ & Z4). fold z in Z4.
  destruct (x_same _ _ _ _ Ey) as (Sy & _ & _ & Ry). destruct (x_same _ _ _ _ Ez) as (_ & _ & _ & Rz).
  assert (Hdel : forall k p m v, series (store y) !! k = Some p -> heap (store y) !! p = Some (m, v) -> state m = Delivered).
  { intros k p m v Hk Hm. apply (x_series _ _ _ _ Ey) in Hk as [Hk Hs]. pose proof (live_member M S x now1 p k Hx Hk Hs) as Hl.
    rewrite (x_heap _ _ _ _ Ey p), decide_True in Hm by done. destruct (heap (store x) !! p) as [[m0 v0]|]; [|done].
    by injection Hm as <- <-. }
  assert (Hgone : forall k p m v, series (store y) !! k = Some p -> heap (store y) !! p = Some (m, v) ->
     series (store z) !! k = if decide (StaleAfter (store x) < time_sub now2 (LastSeen m)) then None else Some p).
  { intros k p m v Hk Hm.
    assert (Hst : is_stale now2 (store y) p = bool_decide (StaleAfter (store x) < time_sub now2 (LastSeen m))).
    { unfold is_stale. rewrite Hm, Sy. unfold stale. rewrite (bool_decide_eq_true_2 _ (Hdel k p m v Hk Hm)).
      destruct (0 <? StaleAfter (store x)) eqn:E; bool_norm; [|lia]. cbn [andb].
      destruct (StaleAfter (store x) <? time_sub now2 (LastSeen m)) eqn:E'; bool_norm; symmetry; [by apply bool_decide_eq_true_2|].
      apply bool_decide_eq_false_2. lia. }
    case_decide as Hd.
    - apply eq_None_not_Some. intros [q Hq]. apply (x_series _ _ _ _ Ez) in Hq as [Hq Hs].
      assert (q = p) as -> by congruence. by rewrite Hst, bool_decide_eq_true_2 in Hs.
    - apply (x_series _ _ _ _ Ez). split; [done|]. by rewrite Hst, bool_decide_eq_false_2. }
  split; [exact Hgone|]. intros HM Hall now o.
  assert (Hempty : series (store z) = ∅).
  { apply map_empty. intros k. apply eq_None_not_Some. intros [p Hk]. pose proof Hk as Hk'. apply (x_series _ _ _ _ Ez) in Hk as [Hk _].
    destruct (proj2 (c_heap _ _ _ _ _ _ (i_core _ _ Y4) p)) as [[m v] Hm]; [by eapply c_live; [exact (i_core _ _ Y4)|]|].
    rewrite (Hgone k p m v Hk Hm), decide_True in Hk' by eauto. done. }
  pose proof (i_core _ _ Z4) as C. unfold record. destruct (observe_spec now o (store z)) as [(p & s' & m & v & -> & Ho)|(Hk & Hm & _)].
  - intros k p Hk. apply (c_heap _ _ _ _ _ _ C). by eapply c_live.
  - cbn [refused]. by rewrite Rz, Ry.
  - exfalso. rewrite (c_max _ _ _ _ _ _ C), Hempty, map_size_empty in Hm. lia.
Qed.

(** ** The render scratch *)

Definition renders (ns : list nat) (sn : Snapshotter) : Snapshotter := foldl (fun sn n => grow n sn) sn ns.

Lemma slots_fit sn : length (slots (fit_used sn)) = length (slots sn) /\ small (fit_used sn) = small sn /\
  drop (used sn) (slots (fit_used sn)) = drop (used sn) (slots sn).
Proof.
  cbn [slots fit_used small]. rewrite length_app, length_fmap, <- length_app, take_drop. split; [done|split; [done|]].
  destruct (decide (used sn <= length (slots sn))%nat) as [Hle|Hgt].
  - rewrite drop_app_ge; rewrite length_fmap, length_take; [|lia]. rewrite Nat.min_l, Nat.sub_diag by lia. done.
  - rewrite !drop_ge; [done|lia|]. rewrite length_app, length_fmap, <- length_app, take_drop. lia.
Qed.

Lemma grow_cases n sn : (used sn <= length (slots sn))%nat ->
  ((length (slots sn) < n)%nat /\ length (slots (grow n sn)) = n /\ small (grow n sn) = 0%nat) \/
  ((n <= length (slots sn))%nat /\ (snapShrinkFloor < length (slots sn))%nat /\ (n * snapShrinkFactor < length (slots sn))%nat /\
    (2 <= small sn)%nat /\ length (slots (grow n sn)) = snapShrinkFloor `max` (2 * n) /\ small (grow n sn) = 0%nat)%nat \/
  ((n <= length (slots sn))%nat /\ (snapShrinkFloor < length (slots sn))%nat /\ (n * snapShrinkFactor < length (slots sn))%nat /\
    (small sn < 2)%nat /\ length (slots (grow n sn)) = length (slots sn) /\ small (grow n sn) = S (small sn)) \/
  ((n <= length (slots sn))%nat /\ (length (slots sn) <= snapShrinkFloor `max` (n * snapShrinkFactor))%nat /\
    length (slots (grow n sn)) = length (slots sn) /\ small (grow n sn) = 0%nat).
Proof.
  intros Hu. unfold grow. case_decide as Hn.
  - left. match goal with |- context [fit_used ?s] => destruct (slots_fit s) as (-> & -> & _) end. cbn [slots small].
    rewrite length_app, length_take, length_replicate. split; [done|]. split; [lia|done].
  - right. unfold oversized.
    destruct (bool_decide (length (slots sn) <= snapShrinkFloor)%nat || bool_decide (length (slots sn) <= n * snapShrinkFactor)%nat) eqn:Eo.
    + right. right. apply orb_true_iff in Eo. rewrite !bool_decide_eq_true in Eo.
      match goal with |- context [fit_used ?s] => destruct (slots_fit s) as (-> & -> & _) end. cbn [slots small].
      rewrite length_app, length_fmap, <- length_app, take_drop. split; [lia|]. split; [lia|done].
    + apply orb_false_iff in Eo. rewrite !bool_decide_eq_false in Eo. destruct Eo as [Eo1 Eo2].
      destruct (bool_decide (snapShrinkRuns <= S (small sn))%nat) eqn:Er; [left|right; left];
        [apply bool_decide_eq_true in Er|apply bool_decide_eq_false in Er];
        match goal with |- context [fit_used ?s] => destruct (slots_fit s) as (-> & -> & _) end; cbn [slots small];
        unfold snapShrinkRuns in Er.
      * rewrite length_replicate. repeat split; lia.
      * rewrite length_app, length_fmap, <- length_app, take_drop. repeat split; lia.
Qed.

Lemma renders_ok ns : forall sn, (used sn <= length (slots sn))%nat -> (used (renders ns sn) <= length (slots (renders ns sn)))%nat.
Proof.
  induction ns as [|n ns IH]; intros sn Hu; [done|]. cbn. apply IH. destruct (grow_ok n sn Hu). lia.
Qed.

(** Slots past a render's length keep nothing of a series. *)
Definition let_go (e : Snap) : Prop := e = zeroSnap \/ exists e0, e = Release e0.

Lemma grow_releases n sn : (used sn <= length (slots sn))%nat -> Forall let_go (drop n (slots (grow n sn))).
Proof.
  intros Hu. unfold grow. case_decide as Hn.
  - match goal with |- context [fit_used ?s] => destruct (slots_fit s) as (_ & _ & E) end. cbn [used] in E. rewrite E. cbn [slots].
    rewrite drop_ge; [constructor|]. rewrite length_app, length_take, length_replicate. lia.
  - destruct (oversized n sn) as [[] run];
      match goal with |- context [fit_used ?s] => destruct (slots_fit s) as (_ & _ & E) end; cbn [used] in E; rewrite E; cbn [slots].
    + rewrite drop_replicate. apply Forall_replicate. by left.
    + rewrite drop_app_ge; rewrite length_take_le by lia; [|done]. rewrite Nat.sub_diag, drop_0. apply Forall_fmap, Forall_true.
      intros e. right. by exists e.
Qed.

(** The render scratch is bounded by what is live.  Whatever bursts came
    before, after three renders of at most [n] series it holds at most four
    times [n] slots, or its floor; and after every render the slots past the
    live ones hold nothing of a series. *)
Theorem scratch_bounded ns n1 n2 n3 n : (n1 <= n)%nat -> (n2 <= n)%nat -> (n3 <= n)%nat ->
  let sn := renders (ns ++ [n1; n2; n3]) newSnapshotter in
  (length (slots sn) <= snapShrinkFloor `max` (snapShrinkFactor * n))%nat /\
  (n3 <= length (slots sn))%nat /\ Forall let_go (drop n3 (slots sn)).
Proof.
  intros H1 H2 H3. cbv zeta.
  replace (renders (ns ++ [n1; n2; n3]) newSnapshotter) with (grow n3 (grow n2 (grow n1 (renders ns newSnapshotter))))
    by (unfold renders; by rewrite foldl_app).
  assert (U0 : (used (renders ns newSnapshotter) <= length (slots (renders ns newSnapshotter)))%nat) by (by apply renders_ok).
  set (s0 := renders ns newSnapshotter) in *. clearbody s0.
  destruct (grow_ok n1 s0 U0) as [G1 G1']. assert (U1 : (used (grow n1 s0) <= length (slots (grow n1 s0)))%nat) by lia.
  pose proof (grow_cases n1 s0 U0) as K1. set (s1 := grow n1 s0) in *.
  destruct (grow_ok n2 s1 U1) as [G2 G2']. assert (U2 : (used (grow n2 s1) <= length (slots (grow n2 s1)))%nat) by lia.
  pose proof (grow_cases n2 s1 U1) as K2. set (s2 := grow n2 s1) in *.
  destruct (grow_ok n3 s2 U2) as [G3 G3']. pose proof (grow_cases n3 s2 U2) as K3. pose proof (grow_releases n3 s2 U2) as R3.
  split; [|split; [done|done]]. clear -K1 K2 K3 H1 H2 H3. unfold snapShrinkFloor, snapShrinkFactor in *. lia.
Qed.

End Safe.

(** ** A run of the service-graph registry with room for one series *)

(** The value of a key already there is replaced, a new key goes last. *)
Fixpoint upsert (k v : bytes) (a : attributes) : attributes :=
  match a with
  | [] => [(k, v)]
  | (k', v') :: t => if decide (k = k') then (k, v) :: t else (k', v') :: upsert k v t
  end.

#[local] Instance ex_reg : Aggregate := Registry [S754_finite false 1 0] true (fun _ => S754_zero false) Nat.max upsert.
#[local] Instance ex_laws : AggregateLaws ex_reg := RegistryLaws [S754_finite false 1 0] true (fun _ => S754_zero false) Nat.max upsert.

Definition ex_edge (c : Z) : Edge := mkOut [c] [98] ConnectionUnknown 0 0 true false false [] [] 7 c 0.
Definition ex_obs (c : Z) : @Obs ex_reg := (ex_edge c, true).

Definition ex_two : sys := record 2 (ex_obs 99) (record 1 (ex_obs 97) (init 1 10)).
Definition ex_sent : sys := Export 5 true ex_two.
Definition ex_failed : sys := Export 8 false (record 6 (ex_obs 97) ex_sent).
Definition ex_resent : sys := Export 9 true ex_failed.
Definition ex_gone : sys := Export 30 true ex_resent.

Lemma reach_record M S x now o : star step (init M S) x -> star step (init M S) (record now o x).
Proof. intros H. eapply star_step; [exact H|constructor]. Qed.

Lemma reach_export M S x now ok : star step (init M S) x -> token (store x) = true -> star step (init M S) (Export now ok x).
Proof.
  intros H Ht. eapply star_trans; [exact H|]. by destruct (Export_finishes M x now ok (agg_inv _ _ _ H) Ht) as (_ & _ & H3 & _).
Qed.

Lemma ex_two_reach : star step (init 1 10) ex_two.
Proof. apply (reach_record 1 10 (record 1 (ex_obs 97) (init 1 10))), (reach_record 1 10 (init 1 10)), star_refl. Qed.
Lemma ex_sent_reach : star step (init 1 10) ex_sent.
Proof. apply (reach_export 1 10 ex_two 5 true); [apply ex_two_reach|vm_compute; reflexivity]. Qed.
Lemma ex_failed_reach : star step (init 1 10) ex_failed.
Proof. apply (reach_export 1 10 (record 6 (ex_obs 97) ex_sent) 8 false); [apply (reach_record 1 10 ex_sent), ex_sent_reach|vm_compute; reflexivity]. Qed.
Lemma ex_resent_reach : star step (init 1 10) ex_resent.
Proof. apply (reach_export 1 10 ex_failed 9 true); [apply ex_failed_reach|vm_compute; reflexivity]. Qed.
Lemma ex_gone_reach : star step (init 1 10) ex_gone.
Proof. apply (reach_export 1 10 ex_resent 30 true); [apply ex_resent_reach|vm_compute; reflexivity]. Qed.

(** Three payloads, the middle one refused; then nothing to send. *)
Example ex_run : ((fun y => (y_ts y.1, (fun e => e.1) <$> y_entries y.1, y.2)) <$> sent ex_gone, size (series (store ex_gone)), refused ex_gone) =
  ([(5, [(0%nat, 1%nat)], true); (8, [(0%nat, 2%nat)], false); (9, [(0%nat, 2%nat)], true)], 0%nat, [ex_obs 99]).
Proof. vm_compute. reflexivity. Qed.

Lemma no_observation_lost_witness : series (store ex_gone) !! obs_key (ex_obs 97) = None /\
  ((exists m v, series (store ex_gone) !! obs_key (ex_obs 97) = Some 0%nat /\ heap (store ex_gone) !! 0%nat = Some (m, v) /\
     values v = values (fold_all (log (taken ex_gone) 0%nat))) \/
   (exists y r, (y, true) ∈ sent ex_gone /\ (0%nat, length (log (taken ex_gone) 0%nat), r) ∈ y_entries y /\
     reading_values r = values (fold_all (log (taken ex_gone) 0%nat)) /\ y_metrics y = Render (y_ts y) (snd <$> y_entries y))).
Proof.
  split; [vm_compute; reflexivity|]. apply (no_observation_lost 1 10 ex_gone 0%nat (6, ex_obs 97) ex_gone_reach).
  apply list_elem_of_lookup. exists 1%nat. vm_compute. reflexivity.
Defined.

Definition ex_payload (i : nat) : payload := match sent ex_gone !! i with Some (y, _) => y | None => mkPayload 0 [] [] end.
Definition ex_reading (i : nat) : Reading := match y_entries (ex_payload i) !! 0%nat with Some (_, _, r) => r | None => reading zeroSnap end.

Lemma ex_payload_sent i b : snd <$> sent ex_gone !! i = Some b -> sent ex_gone !! i = Some (ex_payload i, b).
Proof. unfold ex_payload. destruct (sent ex_gone !! i) as [[y b']|]; [|done]. by intros [= <-]. Qed.

Lemma ex_entry i e : fst <$> y_entries (ex_payload i) !! 0%nat = Some e -> (e, ex_reading i) ∈ y_entries (ex_payload i).
Proof.
  unfold ex_reading. destruct (y_entries (ex_payload i)) as [|[[p k] r] es]; [done|]. intros [= <-]. by left.
Qed.

Lemma ex_first_sent : (ex_payload 0, true) ∈ sent ex_gone.
Proof. apply list_elem_of_lookup. exists 0%nat. apply ex_payload_sent. vm_compute. reflexivity. Qed.

Lemma payloads_cumulative_witness : sent ex_gone !! 0%nat = Some (ex_payload 0, true) /\ sent ex_gone !! 1%nat = Some (ex_payload 1, false) /\
  (1 <= 1 <= 2)%nat /\ (2 <= length (log (taken ex_gone) 0%nat))%nat /\ reading_start (ex_reading 0) = reading_start (ex_reading 1) /\
  reading_values (ex_reading 0) = values (fold_all (take 1 (log (taken ex_gone) 0%nat))) /\
  reading_values (ex_reading 1) = values (fold_all (take 2 (log (taken ex_gone) 0%nat))) /\
  NoDup ((fun e => first_key (taken ex_gone) e.1.1) <$> y_entries (ex_payload 0)).
Proof.
  split; [apply ex_payload_sent; vm_compute; reflexivity|split; [apply ex_payload_sent; vm_compute; reflexivity|]].
  apply (payloads_cumulative 1 10 ex_gone 0 1 (ex_payload 0) true (ex_payload 1) false 0%nat 1 (ex_reading 0) 2 (ex_reading 1) ex_gone_reach);
    [apply ex_payload_sent; vm_compute; reflexivity|apply ex_payload_sent; vm_compute; reflexivity|lia| |]; apply ex_entry; vm_compute; reflexivity.
Defined.

Lemma cap_exact_witness : Z.of_nat (Len (store ex_two)) <= 0 `max` 1 /\ Dropped (store ex_two) = Z.of_nat (length (refused ex_two)) /\
  u64 (foldr Z.add 0 (lines ex_two) + capRefused (store ex_two)) = u64 (Dropped (store ex_two)) /\
  forall now o, refused (record now o ex_two) =
    if decide (series (store ex_two) !! obs_key o = None /\ 1 <= Z.of_nat (Len (store ex_two))) then refused ex_two ++ [o] else refused ex_two.
Proof. apply (cap_exact 1 10 ex_two ex_two_reach). Defined.

Lemma export_completes_witness : let x := spawn ex_two in exists fuel,
  (fuel <= 9 + 2 * length (rendered (store x)) + 2 * Len (store x) + rank x Waiting)%nat /\
  let y := run_export fuel 0 4 true x in threads y = delete 0%nat (threads x) /\ token (store y) = true /\ star step x y.
Proof.
  cbv zeta. apply (export_completes 1 10 (spawn ex_two) 0%nat Waiting 4 true); [|vm_cast_no_check (eq_refl (Some (@Waiting ex_reg)))|intros _; vm_compute; reflexivity].
  eapply star_step; [apply ex_two_reach|constructor].
Defined.

Lemma export_exact_witness : let x := record 6 (ex_obs 97) ex_sent in token (store x) = true /\
  threads ex_failed = threads x /\ token (store ex_failed) = true /\ star step x ex_failed /\ exported 8 false x ex_failed.
Proof.
  cbv zeta. split; [vm_compute; reflexivity|]. apply (export_exact 1 10 (record 6 (ex_obs 97) ex_sent) 8 false);
    [apply (reach_record 1 10 ex_sent), ex_sent_reach|vm_compute; reflexivity].
Defined.

Lemma idle_series_released_witness : let y := Export 9 true ex_failed in let z := Export 30 true y in
  0 < StaleAfter (store ex_failed) /\
  (forall k p m v, series (store y) !! k = Some p -> heap (store y) !! p = Some (m, v) ->
     series (store z) !! k = if decide (StaleAfter (store ex_failed) < time_sub 30 (LastSeen m)) then None else Some p) /\
  (0 < 1 -> (forall k p m v, series (store y) !! k = Some p -> heap (store y) !! p = Some (m, v) ->
     StaleAfter (store ex_failed) < time_sub 30 (LastSeen m)) -> forall now o, refused (record now o z) = refused ex_failed).
Proof.
  cbv zeta. split; [vm_compute; reflexivity|].
  apply (idle_series_released 1 10 ex_failed 9 30 true ex_failed_reach); vm_compute; reflexivity.
Defined.

Lemma scratch_bounded_witness : let sn := renders ([300%nat] ++ [1; 1; 1]%nat) newSnapshotter in length (slots sn) = 64%nat /\
  (length (slots sn) <= snapShrinkFloor `max` (snapShrinkFactor * 1))%nat /\ (1 <= length (slots sn))%nat /\ Forall let_go (drop 1 (slots sn)).
Proof.
  cbv zeta. split; [vm_compute; reflexivity|]. apply (scratch_bounded [300%nat] 1 1 1 1); lia.
Defined.
