(* ===== verification/EdgeMetricsSafe.v ===== *)
(** * What the service-graph registry promises

    Two edges share a series exactly when they carry the same labels, the
    points of every payload are well formed, and over the pairing store and the
    registry together every edge the store completes is counted once. *)

From S2P Require Import Prelude Clip Number Edge EdgeSafe Hist CumAgg CumAggRun EdgeMetrics CumAggSafe.
Local Open Scope Z_scope.

(** ** Keys and labels *)

Definition dim_parts (d : EdgeDimension) : list bytes := [dim_name d; Trunc (dim_value d)].

Definition key_parts (e : Edge) : list bytes :=
  [Trunc (o_client e); Trunc (o_server e); connection_name (o_connection e); o_virtual e] ++ concat (dim_parts <$> own_dims e).

Lemma fold_dims ds : forall k, foldl (fun k d => AppendKeyPart (AppendKeyPart k (dim_name d)) (Trunc (dim_value d))) k ds =
  k ++ concat (part <$> concat (dim_parts <$> ds)).
Proof.
  induction ds as [|d ds IH]; intros k; cbn [foldl]; [by rewrite app_nil_r|].
  rewrite IH, !AppendKeyPart_part. rewrite fmap_cons, concat_cons, fmap_app, concat_app. cbn. by rewrite !app_nil_r, <- !app_assoc.
Qed.

Lemma edge_key_parts e : edge_key e = concat (part <$> key_parts e).
Proof.
  unfold edge_key, key_parts. rewrite fold_dims, fmap_app, concat_app. f_equal. rewrite !AppendKeyPart_part. cbn.
  by rewrite app_nil_r, <- !app_assoc.
Qed.

Lemma dim_parts_inj ds : forall ds', concat (dim_parts <$> ds) = concat (dim_parts <$> ds') ->
  ((fun d => (dim_name d, Retain (dim_value d))) <$> ds) = ((fun d => (dim_name d, Retain (dim_value d))) <$> ds').
Proof.
  induction ds as [|d ds IH]; intros [|d' ds'] E; cbn in E; try done. injection E as E1 E2 E3. rewrite !fmap_cons.
  f_equal; [by rewrite E1; change Retain with Trunc; rewrite E2|by apply IH].
Qed.

Lemma dim_labels_inj ds : forall ds', ((fun d => (dim_name d, Retain (dim_value d))) <$> ds) = ((fun d => (dim_name d, Retain (dim_value d))) <$> ds') ->
  concat (dim_parts <$> ds) = concat (dim_parts <$> ds').
Proof.
  induction ds as [|d ds IH]; intros [|d' ds'] E; cbn in E; try done. injection E as E1 E2 E3. rewrite !fmap_cons, !concat_cons.
  f_equal; [unfold dim_parts; rewrite E1; change Trunc with Retain; by rewrite E2|by apply IH].
Qed.

(** No dimension of the edge's own is called as a label of the registry. *)
Lemma own_dims_clear e v rest : ((fun d => (dim_name d, Retain (dim_value d))) <$> own_dims e) <> (labelVirtualNode, v) :: rest.
Proof.
  intros E. destruct (own_dims e) as [|d ds] eqn:Ed; [done|]. cbn in E. injection E as E1 _ _.
  assert (Hd : d ∈ own_dims e) by (rewrite Ed; by left). unfold own_dims in Hd. apply list_elem_of_filter in Hd as [Hd _].
  apply Hd. rewrite E1. unfold builtinLabels. set_solver.
Qed.

Lemma key_labels e1 e2 : edge_key e1 = edge_key e2 <-> edgeLabels e1 = edgeLabels e2.
Proof.
  rewrite !edge_key_parts. split.
  - intros E%parts_inj. unfold key_parts in E. cbn [app] in E. injection E as E1 E2 E3 E4 E5.
    unfold edgeLabels. change Retain with Trunc. rewrite E1, E2, E3, E4. change Trunc with Retain. by rewrite (dim_parts_inj _ _ E5).
  - unfold edgeLabels. cbn [app]. intros E. injection E as E1 E2 E3 E4. unfold key_parts. change Trunc with Retain. rewrite E1, E2, E3. f_equal. f_equal.
    cbn [app]. do 3 f_equal.
    destruct (o_virtual e1) as [|v1 w1] eqn:V1, (o_virtual e2) as [|v2 w2] eqn:V2; cbn [app] in E4.
    + by rewrite (dim_labels_inj _ _ E4).
    + by apply own_dims_clear in E4.
    + symmetry in E4. by apply own_dims_clear in E4.
    + injection E4 as -> -> E4. by rewrite (dim_labels_inj _ _ E4).
Qed.

Lemma upsert_new : puts_new upsert.
Proof.
  intros k v a. induction a as [|[k' v'] a IH]; [done|]. cbn. intros Hk. apply not_elem_of_cons in Hk as [Hne Hk].
  rewrite decide_False by done. by rewrite IH.
Qed.

Lemma putLabels_distinct PutStr ls : puts_new PutStr -> NoDup ls.*1 -> putLabels PutStr ls = ls.
Proof. apply put_distinct. Qed.

Lemma label_names e : NoDup (dim_name <$> o_dims e) -> NoDup (edgeLabels e).*1.
Proof.
  intros Hn.
  assert (Hown : NoDup (dim_name <$> own_dims e)) by (eapply sublist_NoDup; [exact Hn|apply fmap_sublist, sublist_filter]).
  assert (Hd : forall d, d ∈ own_dims e -> dim_name d ∉ builtinLabels).
  { intros d H. by apply list_elem_of_filter in H as [H _]. }
  assert (Hout : forall k, k ∈ dim_name <$> own_dims e -> k ∉ builtinLabels).
  { intros k (d & -> & H)%list_elem_of_fmap. by apply Hd. }
  unfold edgeLabels. rewrite !fmap_app, <- list_fmap_compose.
  change (fst ∘ (fun d => (dim_name d, Retain (dim_value d)))) with dim_name.
  assert (Hbase : forall l, l = [] \/ l = [labelVirtualNode] -> NoDup ([labelClient; labelServer; labelConnectionType] ++ l ++ (dim_name <$> own_dims e))).
  { intros l Hl. rewrite app_assoc. apply NoDup_app. split; [|split; [|done]].
    - destruct Hl as [-> | ->]; apply (bool_decide_unpack _); vm_compute; exact I.
    - intros k Hk Hk2. apply (Hout k Hk2). unfold builtinLabels. destruct Hl as [-> | ->]; cbn [app] in Hk; set_solver. }
  destruct (o_virtual e); apply (Hbase []) || apply (Hbase [labelVirtualNode]); auto.
Qed.

Section Registry.
Context (bounds : list float64) (exemplars : bool) (seconds : Z -> float64) (grown : nat -> nat -> nat)
  (PutStr : bytes -> bytes -> attributes -> attributes).
Notation R := (Registry bounds exemplars seconds grown PutStr).
Notation RL := (RegistryLaws bounds exemplars seconds grown PutStr).
Notation edge_series := (@Series R).

(** ** What a series holds *)

Definition series_ok (s : edgeSeries) : Prop := hist_ok bounds (client s) /\ hist_ok bounds (server s).

Lemma observe_side_ok ex secs ts tid sid h : hist_ok bounds h -> hist_ok bounds (observe_side bounds ex secs ts tid sid h).
Proof. intros H. unfold observe_side. pose proof (Observe_ok bounds secs h H). destruct ex; [by apply SetExemplar_ok|done]. Qed.

Lemma fold_edge_ok now o s : series_ok s -> series_ok (fold_edge bounds exemplars seconds now o s).
Proof.
  intros [H1 H2]. split; cbn [fold_edge client server].
  - destruct (o_haveClient o.1); [by apply observe_side_ok|done].
  - destruct (o_haveServer o.1); [by apply observe_side_ok|done].
Qed.

Lemma made_ok (v : edge_series) : made (A := R) v -> series_ok v.
Proof.
  induction 1 as [now o|now o v _ IH|v _ [H1 H2]].
  - apply fold_edge_ok. split; apply zeroHist_ok.
  - by apply fold_edge_ok.
  - split; by apply ClearExemplars_ok.
Qed.

(** The labels of a series are its first edge's. *)
Lemma fold_all_labels l : l <> [] -> exists e, hd_error l = Some e /\ labels (fold_all (A := R) l) = edgeLabels e.2.1.
Proof.
  destruct l as [|[t o] l]; [done|]. intros _. exists (t, o). split; [done|]. cbn [fold_all snd].
  assert (forall v : edge_series, labels (foldl (fun v e => fold_in (Aggregate := R) e.1 e.2 v) v l) = labels v) as ->; [|done].
  induction l as [|e l IH]; intros v; [done|]. cbn [foldl]. by rewrite IH.
Qed.

Lemma NoDup_finer {X Y Z} (f : X -> Y) (g : X -> Z) l : (forall a b, a ∈ l -> b ∈ l -> g a = g b -> f a = f b) ->
  NoDup (f <$> l) -> NoDup (g <$> l).
Proof.
  intros Hfg Hn. apply NoDup_alt. intros i j z Hi Hj. rewrite list_lookup_fmap in Hi, Hj.
  destruct (l !! i) as [a|] eqn:Ea; [|done]. destruct (l !! j) as [b|] eqn:Eb; [|done]. injection Hi as Hi. injection Hj as Hj.
  eapply NoDup_lookup; [exact Hn| |]; rewrite list_lookup_fmap; [by rewrite Ea|]. rewrite Eb. cbn. f_equal. symmetry.
  apply Hfg; [by eapply list_elem_of_lookup_2|by eapply list_elem_of_lookup_2|congruence].
Qed.

Lemma entry_labels tk p k (r : @Reading R) : entry_ok (L := RL) tk p k r -> exists e, hd_error (log tk p) = Some e /\ s_labels r = edgeLabels e.2.1.
Proof.
  intros [Hk Hv _ _]. destruct (fold_all_labels (take k (log tk p))) as (e & He & Hl).
  { destruct (log tk p); [cbn in Hk; lia|]. by destruct k; [lia|]. }
  exists e. split.
  - destruct (log tk p); [cbn in Hk; lia|]. destruct k; [lia|]. exact He.
  - rewrite <- Hl. exact (f_equal (fun x => x.1.1.1.1) Hv).
Qed.

(** C39: a series is its labels.  Two edges are keyed alike exactly when the
    label sets they would render are the same, what is rendered is that set
    when no two dimensions share a name, and no payload holds two points of one
    label set. *)
Theorem series_labels_exact M S x : puts_new PutStr -> star (step (A := R)) (init M S) x ->
  (forall e1 e2, edge_key e1 = edge_key e2 <-> edgeLabels e1 = edgeLabels e2) /\
  (forall e, NoDup (dim_name <$> o_dims e) -> putLabels PutStr (edgeLabels e) = edgeLabels e) /\
  (forall y b, (y, b) ∈ sent x -> NoDup ((fun e => s_labels e.2) <$> y_entries y)).
Proof.
  intros Hput Hx. split; [intros; apply key_labels|split; [intros e He; by apply putLabels_distinct, label_names|]].
  intros y b Hy. pose proof (i_core _ _ (agg_inv (L := RL) _ _ _ Hx)) as C. destruct (c_sent _ _ _ _ _ _ C y b Hy) as (P1 & P2 & _).
  eapply NoDup_finer; [|exact P2]. intros [[p1 k1] r1] [[p2 k2] r2] H1 H2 E. cbn [fst snd] in *.
  destruct (entry_labels _ _ _ _ (P1 _ _ _ H1)) as (e1 & E1 & L1). destruct (entry_labels _ _ _ _ (P1 _ _ _ H2)) as (e2 & E2 & L2).
  unfold first_key.
  rewrite E1, E2. cbn. f_equal. apply key_labels. exact (eq_trans (eq_sym L1) (eq_trans E L2)).
Qed.

(** ** Points *)

Lemma side_points_ok (side : edgeSnapshot -> HistSnap) (get : edgeSeries -> Hist) ts snap :
  Forall (fun s => exists v, hist_ok bounds (get v) /\ side s = contents (CopyFrom grown (get v) zeroHistSnap)) snap ->
  Forall (point_ok bounds ts) (side_points bounds PutStr side ts snap).
Proof.
  intros Hs. unfold side_points. apply Forall_fmap, Forall_forall. intros s [Hp Hin]%list_elem_of_filter.
  eapply Forall_forall in Hs as (v & Hv & E); [|exact Hin]. cbn. rewrite E in Hp |- *. by apply PutHistPoint_ok.
Qed.

(** Every payload is well formed.  No metric is empty, every point ends at
    the payload's time and starts no later, a histogram has one bucket per
    bound and one more, its count is the sum of its buckets, and it carries at
    most one exemplar per bucket, in bucket order, a measurement of that very
    bucket with a trace to look up. *)
Theorem points_wellformed M S x y b : star (step (A := R)) (init M S) x -> (y, b) ∈ sent x ->
  y_metrics y <> [] /\ Forall (metric_ok bounds (y_ts y)) (y_metrics y).
Proof.
  intros Hx Hy. pose proof (i_core _ _ (agg_inv (L := RL) _ _ _ Hx)) as C. destruct (c_sent _ _ _ _ _ _ C y b Hy) as (P1 & _ & P3 & P4).
  set (rs := snd <$> y_entries y) in *. rewrite P3. split.
  { unfold Render. unfold rs. destruct (y_entries y) as [|e es]; [done|]. apply (build_some (AggregateLaws := RL)). }
  assert (Hrs : Forall (fun r : edgeSnapshot => exists v, series_ok v /\ s_client r = contents (CopyFrom grown (client v) zeroHistSnap) /\
      s_server r = contents (CopyFrom grown (server v) zeroHistSnap)) rs).
  { apply Forall_forall. intros r ([[p k] r'] & -> & Hin)%list_elem_of_fmap. destruct (P1 _ _ _ Hin) as [_ _ _ (m & v & Hm & ->)].
    exists v. split; [by apply made_ok|done]. }
  unfold Render. apply Forall_forall. intros m [Hm Hin]%list_elem_of_filter. unfold noDataPoints, DataPointCount in Hm.
  apply bool_decide_eq_false in Hm. change (m ∈ renderEdges bounds PutStr (y_ts y) rs) in Hin. unfold metric_ok.
  assert (Hsum : forall get, Forall (fun n => n_start n <= n_ts n /\ n_ts n = y_ts y) (count_points PutStr get (y_ts y) rs)).
  { intros get. apply Forall_fmap, Forall_true. intros r. cbn. split; [apply ClampStart_le|done]. }
  assert (Hcl : Forall (point_ok bounds (y_ts y)) (side_points bounds PutStr s_client (y_ts y) rs)).
  { apply (side_points_ok s_client client). eapply Forall_impl; [exact Hrs|]. intros r (v & [H1 H2] & H3 & H4). eauto. }
  assert (Hse : Forall (point_ok bounds (y_ts y)) (side_points bounds PutStr s_server (y_ts y) rs)).
  { apply (side_points_ok s_server server). eapply Forall_impl; [exact Hrs|]. intros r (v & [H1 H2] & H3 & H4). eauto. }
  clearbody rs. unfold renderEdges in Hin. destruct rs as [|r0 rs0] eqn:Ers; [by apply not_elem_of_nil in Hin|]. rewrite <- Ers in *. clear Ers.
  assert (Hcases : m = SumMetric metricRequests [] (count_points PutStr s_requests (y_ts y) rs) \/ m = SumMetric metricFailed [] (count_points PutStr s_failed (y_ts y) rs) \/
    m = HistMetric metricServerSeconds (side_points bounds PutStr s_server (y_ts y) rs) \/ m = HistMetric metricClientSeconds (side_points bounds PutStr s_client (y_ts y) rs)).
  { apply elem_of_app in Hin as [Hin|Hin]; [apply elem_of_cons in Hin as [Hin|Hin]; [auto|apply list_elem_of_singleton in Hin; auto]|].
    apply elem_of_app in Hin as [Hin|Hin]; case_match; try (by apply not_elem_of_nil in Hin); apply list_elem_of_singleton in Hin; auto. }
  destruct Hcases as [-> | [-> | [-> | ->]]]; cbn [m_data SumMetric HistMetric] in *; (split; [|auto]); intros E; by rewrite E in Hm.
Qed.

End Registry.

(** ** The pairing store and its registry

    The store hands each edge to [RecordAt] in the order it completes them,
    inside its own mutex: the next call of the store comes after the last edge
    of the one before, while exports and reports run between any two. *)

Section Counted.
Context (bounds : list float64) (exemplars : bool) (seconds : Z -> float64) (grown : nat -> nat -> nat)
  (PutStr : bytes -> bytes -> attributes -> attributes).
Context (keep : option (Z -> bool)).
Notation R := (Registry bounds exemplars seconds grown PutStr).

Definition recorded_as (e : Edge) : @Obs R := (e, match keep with None => true | Some f => f (o_traceID e) end).

Record graph := mkGraph { pairs : edgeStore; handed : nat; metrics : sys (A := R) }.

Inductive graph_step : graph -> graph -> Prop :=
| g_call o g : handed g = length (sunk (pairs g)) ->
    graph_step g (mkGraph (call o (pairs g)).1 (handed g) (metrics g))
| g_record e now g : sunk (pairs g) !! handed g = Some (e, now) ->
    graph_step g (mkGraph (pairs g) (S (handed g)) (RecordAt bounds exemplars seconds grown PutStr keep e now (metrics g)))
| g_metrics x g : step (metrics g) x -> taken x = taken (metrics g) -> refused x = refused (metrics g) ->
    graph_step g (mkGraph (pairs g) (handed g) x).

Definition graph_init (n : nat) (w M S : Z) : graph := mkGraph (newEdgeStore n w) 0 (init (A := R) M S).

Lemma call_sunk o s a : represents s a -> q_sound a -> prefix (sunk s) (sunk (call o s).1).
Proof.
  intros Hr Hq. destruct (call_refines o s a Hr) as [(ps & fs & Hr') _]. destruct Hr as (ps0 & fs0 & Hr).
  destruct (r_same _ _ _ _ Hr') as (_ & _ & _ & <-). destruct (r_same _ _ _ _ Hr) as (_ & _ & _ & <-).
  destruct o as [now k side h ds|now total|]; cbn [q_call].
  - unfold q_insert. destruct (q_find k (q_items a)); [|destruct (decide _)]; cbn [fst]; try done; unfold q_arrive; destruct (_ && _); cbn; try done;
      by eexists.
  - rewrite q_sweep_eq. cbn. by eexists.
  - done.
Qed.

(** C27: every edge is counted once.  However calls of the pairing store, the
    recording of its edges and exports interleave, the observations held by
    series, live or evicted, together with those refused at the cardinality
    cap, are exactly the edges handed over so far, and the store has handed
    over or is about to hand over each edge its counters say it completed. *)
Theorem edges_counted n w M S g : star graph_step (graph_init n w M S) g ->
  (all_taken (metrics g)).*2 ++ refused (metrics g) ≡ₚ recorded_as <$> (take (handed g) (sunk (pairs g))).*1 /\
  Dropped (store (metrics g)) = Z.of_nat (length (refused (metrics g))) /\
  (handed g <= length (sunk (pairs g)))%nat /\
  Z.of_nat (length (sunk (pairs g))) = Completed (counts (pairs g)) + VirtualNode (counts (pairs g)) /\
  star step (init (A := R) M S) (metrics g).
Proof.
  intros Hg.
  enough (H : star step (init (A := R) M S) (metrics g) /\ (exists a, represents (pairs g) a /\ q_sound a) /\
    (handed g <= length (sunk (pairs g)))%nat /\
    (all_taken (metrics g)).*2 ++ refused (metrics g) ≡ₚ recorded_as <$> (take (handed g) (sunk (pairs g))).*1).
  { destruct H as (H1 & (a & H2 & [_ H3]) & H4 & H5). split; [done|]. split; [|split; [done|split; [|done]]].
    - apply (c_dropped _ _ _ _ _ _ (i_core _ _ (agg_inv (L := RegistryLaws bounds exemplars seconds grown PutStr) _ _ _ H1))).
    - destruct H2 as (ps & fs & Hr). destruct (r_same _ _ _ _ Hr) as (_ & _ & <- & <-). done. }
  eapply (star_inv graph_step (fun g => star step (init (A := R) M S) (metrics g) /\ (exists a, represents (pairs g) a /\ q_sound a) /\
    (handed g <= length (sunk (pairs g)))%nat /\
    (all_taken (metrics g)).*2 ++ refused (metrics g) ≡ₚ recorded_as <$> (take (handed g) (sunk (pairs g))).*1)); [|exact Hg|].
  2: { split; [apply star_refl|]. split; [exists (emptyQueue n w); split; [apply represents_new|apply empty_sound]|]. split; [cbn; lia|]. reflexivity. }
  clear g Hg. intros g1 g2 IH Hs.
  destruct IH as (H1 & (a & H2 & H3) & H4 & H5). destruct Hs as [o g Hh|e now g He|x g Hst Ht Hr]; cbn [pairs handed metrics].
  - split; [done|]. destruct (call_sunk o (pairs g) a H2 H3) as [l Hl]. split; [|split].
    + exists (q_call o a).1. split; [by apply call_refines|by apply q_call_sound].
    + rewrite Hl, length_app. lia.
    + rewrite Hl, take_app_le by lia. done.
  - unfold RecordAt. split; [eapply star_step; [exact H1|constructor]|]. split; [by exists a|]. split; [apply lookup_lt_Some in He; lia|].
    rewrite (record_counts (L := RegistryLaws bounds exemplars seconds grown PutStr) M) by (by eapply agg_inv). rewrite H5, (take_S_r _ _ _ He), !fmap_app. done.
  - split; [by eapply star_step|]. split; [by exists a|]. split; [done|]. unfold all_taken. rewrite Ht, Hr. exact H5.
Qed.

End Counted.

(** ** The example run, and a pair of halves that meet *)

Lemma series_labels_exact_witness : star (step (A := ex_reg)) (init 1 10) ex_gone /\
  (forall e1 e2, edge_key e1 = edge_key e2 <-> edgeLabels e1 = edgeLabels e2) /\
  (forall e, NoDup (dim_name <$> o_dims e) -> putLabels upsert (edgeLabels e) = edgeLabels e) /\
  (forall y b, (y, b) ∈ sent ex_gone -> NoDup ((fun e => s_labels e.2) <$> y_entries y)).
Proof.
  split; [apply ex_gone_reach|].
  apply (series_labels_exact [S754_finite false 1 0] true (fun _ => S754_zero false) Nat.max upsert 1 10 ex_gone upsert_new ex_gone_reach).
Defined.

Lemma points_wellformed_witness : y_metrics (ex_payload 0) <> [] /\
  Forall (metric_ok [S754_finite false 1 0] (y_ts (ex_payload 0))) (y_metrics (ex_payload 0)).
Proof.
  apply (points_wellformed [S754_finite false 1 0] true (fun _ => S754_zero false) Nat.max upsert 1 10 ex_gone (ex_payload 0) true ex_gone_reach).
  exact ex_first_sent.
Defined.

Notation ex_graph_step := (graph_step [S754_finite false 1 0] true (fun _ => S754_zero false) Nat.max upsert None).

Definition ex_pairs : edgeStore :=
  (call (OInsert 2 (1, 2) sideServer (ex_half 98 ConnectionUnknown []) [])
    (call (OInsert 1 (1, 2) sideClient (ex_half 97 ConnectionUnknown []) []) (newEdgeStore 4 10)).1).1.

Definition ex_paired : Edge := match sunk ex_pairs with (e, _) :: _ => e | [] => ex_edge 0 end.

Definition ex_graph := mkGraph [S754_finite false 1 0] true (fun _ => S754_zero false) Nat.max upsert ex_pairs 1
  (RecordAt [S754_finite false 1 0] true (fun _ => S754_zero false) Nat.max upsert None ex_paired 2 (init (A := ex_reg) 1 10)).

Lemma ex_graph_reach : star ex_graph_step (graph_init [S754_finite false 1 0] true (fun _ => S754_zero false) Nat.max upsert 4 10 1 10) ex_graph.
Proof.
  eapply star_step; [eapply star_step; [eapply star_step; [apply star_refl|]|]|].
  - apply (g_call _ _ _ _ _ _ (OInsert 1 (1, 2) sideClient (ex_half 97 ConnectionUnknown []) [])). reflexivity.
  - apply (g_call _ _ _ _ _ _ (OInsert 2 (1, 2) sideServer (ex_half 98 ConnectionUnknown []) [])). vm_compute. reflexivity.
  - apply (g_record _ _ _ _ _ None ex_paired 2 (mkGraph [S754_finite false 1 0] true (fun _ => S754_zero false) Nat.max upsert ex_pairs 0 (init (A := ex_reg) 1 10))).
    vm_compute. reflexivity.
Qed.

Lemma edges_counted_witness : handed _ _ _ _ _ ex_graph = 1%nat /\
  ((all_taken (metrics _ _ _ _ _ ex_graph)).*2 ++ refused (metrics _ _ _ _ _ ex_graph) ≡ₚ
     recorded_as [S754_finite false 1 0] true (fun _ => S754_zero false) Nat.max upsert None <$> (take (handed _ _ _ _ _ ex_graph) (sunk (pairs _ _ _ _ _ ex_graph))).*1 /\
   Dropped (store (metrics _ _ _ _ _ ex_graph)) = Z.of_nat (length (refused (metrics _ _ _ _ _ ex_graph))) /\
   (handed _ _ _ _ _ ex_graph <= length (sunk (pairs _ _ _ _ _ ex_graph)))%nat /\
   Z.of_nat (length (sunk (pairs _ _ _ _ _ ex_graph))) = Completed (counts (pairs _ _ _ _ _ ex_graph)) + VirtualNode (counts (pairs _ _ _ _ _ ex_graph)) /\
   star step (init (A := ex_reg) 1 10) (metrics _ _ _ _ _ ex_graph)).
Proof.
  split; [reflexivity|].
  apply (edges_counted [S754_finite false 1 0] true (fun _ => S754_zero false) Nat.max upsert None 4 10 1 10 ex_graph ex_graph_reach).
Defined.
