(* ===== verification/SpanMetrics.v ===== *)
(** * Span metrics ([internal/agent/spanmetrics/spanmetrics.go], and the attribute rendering of [cumagg/render.go])

    The generator of calls, size and duration per dimension tuple: how an
    attribute value becomes a key part and a label, how a span is keyed, folded,
    copied and written out.  It is the second [Aggregate] of [CumAgg].

    A value is the OTLP one; [AsString] is the data model's rendering of it and
    [Get] its map lookup. *)

From S2P Require Import Prelude Clip Number Hist CumAgg.
From S2P Require Export Pdata.
Local Open Scope Z_scope.

(** ** Attribute values *)

Definition smallInts : Z := 1000.
Definition smallIntStrs : list bytes := FormatInt <$> seqZ 0 smallInts.

Section Rendering.
Context (AsString : Value -> bytes) (Get : attrs -> bytes -> option Value).

Definition ValueStr (v : Value) : bytes :=
  match v with
  | VStr s => s
  | VInt n => if (0 <=? n) && (n <? smallInts) then default [] (smallIntStrs !! Z.to_nat n) else AsString v
  | _ => AsString v
  end.

Definition rendersEmpty (v : Value) : bool :=
  match v with
  | VEmpty => true
  | VStr s => bool_decide (s = [])
  | VBytes b => bool_decide (b = [])
  | _ => false
  end.

Definition AttrStr (m : attrs) (key : bytes) : bytes := match Get m key with Some v => ValueStr v | None => [] end.

Definition DimValue (spanAttrs resAttrs : attrs) (key : bytes) : option Value :=
  match Get spanAttrs key with
  | Some v => if rendersEmpty v then Get resAttrs key else Some v
  | None => Get resAttrs key
  end.

Definition DimStr (spanAttrs resAttrs : attrs) (key : bytes) : bytes :=
  match DimValue spanAttrs resAttrs key with Some v => ValueStr v | None => [] end.

(** An integer's digits are behind a length byte. *)
Definition AppendValueKeyPart (dst : bytes) (v : Value) : bytes :=
  match v with
  | VStr s => AppendKeyPart dst (Trunc s)
  | VInt n => dst ++ [to_byte (Z.of_nat (length (FormatInt n)))] ++ FormatInt n
  | _ => AppendKeyPart dst (Trunc (ValueStr v))
  end.
End Rendering.

(** ** Sizes *)

(** [int64] addition. *)
Definition i64_add (a b : Z) : Z := int_of_u64 (u64 (a + b)).

(** Contents for a slice or a map, a flat eight for a scalar. *)
Fixpoint valueSize (v : Value) : Z :=
  match v with
  | VStr s => Z.of_nat (length s)
  | VBytes b => Z.of_nat (length b)
  | VBool _ => 1
  | VSlice l => (fix slice_size l := match l with [] => 0 | v :: t => valueSize v + slice_size t end) l
  | VMap m => (fix map_size m := match m with [] => 0 | (k, v) :: t => Z.of_nat (length k) + valueSize v + map_size t end) m
  | VEmpty | VInt _ | VDouble _ => 8
  end.
Fixpoint attrsSize (m : attrs) : Z :=
  match m with [] => 0 | (k, v) :: t => Z.of_nat (length k) + valueSize v + attrsSize t end.

Definition spanSize (s : Span) : Z :=
  let n := Z.of_nat (length (sp_name s)) + 24 + attrsSize (sp_attrs s) in
  let n := foldl (fun n e => n + Z.of_nat (length e.1) + attrsSize e.2) n (sp_events s) in
  foldl (fun n l => n + 24 + attrsSize l) n (sp_links s).

(** ** Dimensions *)

Definition dimService : bytes := text "service.name".
Definition dimSpan : bytes := text "span.name".
Definition dimKind : bytes := text "span.kind".
Definition dimStatus : bytes := text "status.code".
Definition builtinDims : list bytes := [dimService; dimSpan; dimKind; dimStatus].
Definition builtins : Builtins := list_to_set (builtinDims ++ [text "le"]).

Definition kindNames : list bytes :=
  [text "SPAN_KIND_UNSPECIFIED"; text "SPAN_KIND_INTERNAL"; text "SPAN_KIND_SERVER"; text "SPAN_KIND_CLIENT";
   text "SPAN_KIND_PRODUCER"; text "SPAN_KIND_CONSUMER"].
Definition statusNames : list bytes := [text "STATUS_CODE_UNSET"; text "STATUS_CODE_OK"; text "STATUS_CODE_ERROR"].

Definition name_of (names : list bytes) (k : Z) : bytes :=
  if u32 k <? Z.of_nat (length names) then default [] (names !! Z.to_nat (u32 k)) else [].
Definition kindStr (k : Z) : bytes := name_of kindNames k.
Definition statusStr (c : Z) : bytes := name_of statusNames c.

Definition names_of (dims : list bytes) : list bytes := builtinDims ++ Configure builtins dims.

#[export] Instance float_le_dec : RelDecision (fun x y => float_le x y = true).
Proof. intros x y. apply bool_eq_dec. Defined.

Definition defaultBuckets : list float64 :=
  omap ParseFloat [text "0.002"; text "0.004"; text "0.006"; text "0.008"; text "0.01"; text "0.05"; text "0.1"; text "0.2"; text "0.4";
    text "0.8"; text "1"; text "1.4"; text "2"; text "5"; text "10"; text "15"].
Definition boundsOrDefault (b : list float64) : list float64 :=
  merge_sort (fun x y => float_le x y = true) (match b with [] => defaultBuckets | _ => b end).

(** ** Series *)

Record spanSeries := mkSpanSeries { dims : list bytes; calls : Z; size_ : Z; dur : Hist }.
Record spanSnapshot := mkSpanSnapshot { d_dims : list bytes; d_calls : Z; d_size : Z; d_start : Z; d_dur : HistSnap }.

(** A span with its resource's attributes and service name, and the answer of
    the exemplar predicate. *)
Record span_obs := mkSpanObs { ob_span : Span; ob_res : attrs; ob_svc : bytes; ob_keep : bool }.

Section Generator.
Context (AsString : Value -> bytes) (Get : attrs -> bytes -> option Value).
Context (prefix : bytes) (extra : list bytes) (bounds : list float64) (exemplars : bool).
Context (exemplarKeep : option (Span -> bool)) (grown : nat -> nat -> nat).
Context (PutStr : bytes -> bytes -> attributes -> attributes).

Definition span_key (o : span_obs) : bytes :=
  let s := ob_span o in
  let k := AppendKeyPart [] (Trunc (ob_svc o)) in
  let k := AppendKeyPart k (Trunc (sp_name s)) in
  let k := AppendKeyPart k (kindStr (sp_kind s)) in
  let k := AppendKeyPart k (statusStr (sp_status s)) in
  foldl (fun k d => match DimValue Get (sp_attrs s) (ob_res o) d with
                    | Some v => AppendValueKeyPart AsString k v
                    | None => AppendKeyPart k []
                    end) k extra.

Definition span_dims (o : span_obs) : list bytes :=
  let s := ob_span o in
  [Retain (ob_svc o); Retain (sp_name s); kindStr (sp_kind s); statusStr (sp_status s)] ++
  ((fun d => Retain (DimStr AsString Get (sp_attrs s) (ob_res o) d)) <$> extra).

Definition fold_span (_ : Z) (o : span_obs) (x : spanSeries) : spanSeries :=
  let s := ob_span o in
  let d := SpanSeconds (sp_start s) (sp_end s) in
  let idx := BucketIndex bounds d in
  let nb := S (length bounds) in
  let h := Observe idx nb d (dur x) in
  mkSpanSeries (dims x) (u64 (calls x + 1)) (i64_add (size_ x) (spanSize s))
    (if ob_keep o then SetExemplar idx nb d (sp_end s) (sp_trace s) (sp_id s) h else h).

Definition copySpanSeries (m : Meta) (x : spanSeries) (e : spanSnapshot) : spanSnapshot :=
  mkSpanSnapshot (dims x) (calls x) (size_ x) (Start m) (CopyFrom grown (dur x) (d_dur e)).

Definition read_span (e : spanSnapshot) : spanSnapshot :=
  mkSpanSnapshot (d_dims e) (d_calls e) (d_size e) (d_start e) (contents (d_dur e)).

(** Names without a value are left out. *)
Definition putDims (names vals : list bytes) : attributes := foldl (fun a nv => PutStr nv.1 nv.2 a) [] (zip names vals).

Definition names : list bytes := builtinDims ++ extra.

Definition int_points (get : spanSnapshot -> Z) (ts : Z) (snap : list spanSnapshot) : list NumberPoint :=
  (fun s => mkNumber (putDims names (d_dims s)) (ClampStart (d_start s) ts) ts (get s)) <$> snap.

Definition renderRED (ts : Z) (snap : list spanSnapshot) : list Metric :=
  match snap with
  | [] => []
  | _ =>
      [SumMetric (prefix ++ text ".calls") [] (int_points (fun s => int_of_u64 (d_calls s)) ts snap);
       SumMetric (prefix ++ text ".size") (text "By") (int_points d_size ts snap);
       HistMetric (prefix ++ text ".duration")
         ((fun s => PutHistPoint (putDims names (d_dims s)) (d_dur s) bounds (ClampStart (d_start s) ts) ts) <$> snap)]
  end.

#[export] Instance Generator : Aggregate := {|
  Obs := span_obs; Series := spanSeries; Snap := spanSnapshot; Reading := spanSnapshot;
  obs_key := span_key;
  NewSeries := mkSpanSeries [] 0 0 zeroHist;
  materialize o x := mkSpanSeries (span_dims o) (calls x) (size_ x) (dur x);
  fold_in := fold_span;
  ResetExemplars x := mkSpanSeries (dims x) (calls x) (size_ x) (Hist_ClearExemplars (dur x));
  zeroSnap := mkSpanSnapshot [] 0 0 0 zeroHistSnap;
  FitSlot e := mkSpanSnapshot (d_dims e) (d_calls e) (d_size e) (d_start e) (Fit (S (length bounds)) (d_dur e));
  Release e := mkSpanSnapshot [] (d_calls e) (d_size e) (d_start e) (d_dur e);
  CopyLocked := copySpanSeries;
  reading := read_span;
  build := renderRED |}.

(** ** Batches *)

(** Resource attributes, then the spans of each scope. *)
Definition batch : Type := list (attrs * list (list Span)).

Definition keeps (s : Span) : bool := exemplars && match exemplarKeep with None => true | Some f => f s end.

Definition spans_of (td : batch) : list span_obs :=
  td ≫= fun rs => let svc := AttrStr AsString Get rs.1 dimService in
                  concat rs.2 ≫= fun s => [mkSpanObs s rs.1 svc (keeps s)].

(** [Consume], when nothing runs between its spans. *)
Definition Consume (now : Z) (td : batch) (x : sys) : sys := foldl (fun x o => record now o x) x (spans_of td).

(** The tap: forwarded first, aggregated when that succeeded. *)
Definition ExportTraces (now : Z) (forwarded : bool) (td : batch) (x : sys) : sys * bool :=
  if forwarded then (Consume now td x, true) else (x, false).

(** ** The laws of the interface *)

Definition span_values (x : spanSeries) := (dims x, calls x, size_ x, (Count (dur x), Sum (dur x), Buckets (dur x))).
Definition span_snapshot_values (e : spanSnapshot) :=
  (d_dims e, d_calls e, d_size e, (s_Count (d_dur e), s_Sum (d_dur e), if Present (d_dur e) then Some (s_Buckets (d_dur e)) else None)).

#[export] Instance GeneratorLaws : AggregateLaws Generator.
Proof.
  refine {| values := span_values : @Series Generator -> _; reading_values := span_snapshot_values : @Reading Generator -> _;
    reading_start := d_start : @Reading Generator -> Z;
    reading_of := fun m v => read_span (copySpanSeries m v (mkSpanSnapshot [] 0 0 0 zeroHistSnap)) |}.
  - intros now o v w H.
    pose proof (f_equal (fun x => x.1.1.1) H) as E1. pose proof (f_equal (fun x => x.1.1.2) H) as E2.
    pose proof (f_equal (fun x => x.1.2) H) as E3. pose proof (f_equal (fun x => x.2.1.1) H) as E4.
    pose proof (f_equal (fun x => x.2.1.2) H) as E5. pose proof (f_equal (fun x => x.2.2) H) as E6. clear H.
    destruct v as [? ? ? []], w as [? ? ? []]. cbn in *. subst. unfold span_values. cbn. by destruct (ob_keep o).
  - intros v. by destruct v as [? ? ? []].
  - done.
  - intros m [d c s [? ? bs ?]]. unfold span_snapshot_values, span_values. by destruct bs.
  - done.
  - done.
  - intros ts r rs. cbn. done.
Defined.

End Generator.
