(* ===== verification/SpanMetricsSafe.v ===== *)
(** * What the span-metrics generator promises

    Two spans share a series exactly when they carry the same dimension values,
    under names that are distinct whatever was configured; and every span of
    every batch that was forwarded, and of no other, is counted once. *)

From S2P Require Import Prelude Clip Number Hist CumAgg CumAggRun CumAggSafe EdgeMetricsSafe SpanMetrics.
Local Open Scope Z_scope.

(** ** Keys and dimensions *)

Lemma decimal_length fuel n : (length (decimal_digits fuel n) <= fuel)%nat.
Proof. revert n. induction fuel as [|fuel IH]; intros n; cbn; [lia|]. destruct (n <? 10); [cbn; lia|]. rewrite length_app. specialize (IH (n / 10)). cbn. lia. Qed.

Lemma FormatInt_length n : (length (FormatInt n) <= 21)%nat.
Proof. unfold FormatInt. destruct (n <? 0); [pose proof (decimal_length 20 (- n))|pose proof (decimal_length 20 n)]; cbn [length]; lia. Qed.

(** How the data model writes an integer. *)
Definition int_text (AsString : Value -> bytes) : Prop := forall n, AsString (VInt n) = FormatInt n.

Lemma smallIntStrs_lookup n : 0 <= n < smallInts -> smallIntStrs !! Z.to_nat n = Some (FormatInt n).
Proof.
  intros Hn. unfold smallIntStrs. rewrite list_lookup_fmap. rewrite lookup_seqZ_lt; [|unfold smallInts in *; lia].
  cbn. f_equal. f_equal. lia.
Qed.

Lemma ValueStr_int AsString n : int_text AsString -> ValueStr AsString (VInt n) = FormatInt n.
Proof.
  intros Hi. unfold ValueStr. destruct ((0 <=? n) && (n <? smallInts)) eqn:E; [|apply Hi]. bool_norm.
  by rewrite smallIntStrs_lookup by lia.
Qed.

(** Appending the value is appending the label it renders. *)
Lemma AppendValueKeyPart_label AsString dst v : int_text AsString ->
  AppendValueKeyPart AsString dst v = AppendKeyPart dst (Trunc (ValueStr AsString v)).
Proof.
  intros Hi. destruct v; try done. rewrite ValueStr_int by done. cbn [AppendValueKeyPart]. unfold AppendKeyPart.
  pose proof (FormatInt_length n) as Hl. assert (Trunc (FormatInt n) = FormatInt n) as ->.
  { unfold Trunc. rewrite decide_True; [done|]. unfold MaxLabelBytes. lia. }
  destruct (uvarint_step (length (FormatInt n)) (Z.of_nat (length (FormatInt n)))) as [[_ ->]|(H & _)]; [lia| |lia].
  unfold to_byte. rewrite Z.mod_small by lia. done.
Qed.

Section Keys.
Context (AsString : Value -> bytes) (Get : attrs -> bytes -> option Value) (extra : list bytes).
Context (Htext : int_text AsString).

Definition span_parts (o : span_obs) : list bytes :=
  let s := ob_span o in
  [Trunc (ob_svc o); Trunc (sp_name s); kindStr (sp_kind s); statusStr (sp_status s)] ++
  ((fun d => Trunc (DimStr AsString Get (sp_attrs s) (ob_res o) d)) <$> extra).

Lemma span_key_parts o : span_key AsString Get extra o = concat (part <$> span_parts o).
Proof.
  unfold span_key, span_parts. rewrite fmap_app, concat_app. rewrite !AppendKeyPart_part.
  assert (Hf : forall ds k, foldl (fun k d => match DimValue Get (sp_attrs (ob_span o)) (ob_res o) d with
      | Some v => AppendValueKeyPart AsString k v | None => AppendKeyPart k [] end) k ds =
    k ++ concat (part <$> ((fun d => Trunc (DimStr AsString Get (sp_attrs (ob_span o)) (ob_res o) d)) <$> ds))).
  { induction ds as [|d ds IH]; intros k; cbn [foldl]; [by rewrite app_nil_r|]. rewrite IH, !fmap_cons, concat_cons, app_assoc. f_equal.
    unfold DimStr. destruct (DimValue _ _ _ _); [by rewrite AppendValueKeyPart_label|done]. }
  rewrite Hf. f_equal. cbn. by rewrite app_nil_r, <- !app_assoc.
Qed.

Lemma span_key_dims o1 o2 : span_key AsString Get extra o1 = span_key AsString Get extra o2 <->
  span_dims AsString Get extra o1 = span_dims AsString Get extra o2.
Proof.
  rewrite !span_key_parts. change span_parts with (span_dims AsString Get extra). split; [apply parts_inj|by intros ->].
Qed.
End Keys.

(** A span series is its labels, under names that never collide.  Whatever
    dimensions were configured, the names in use are distinct, not empty and not
    the bucket label; two spans are keyed alike exactly when they render the
    same values, integers formatted into the key included; and what is rendered
    is one attribute per name. *)
Theorem span_labels_exact AsString Get PutStr cfg : int_text AsString -> puts_new PutStr ->
  let extra := Configure builtins cfg in
  NoDup (names extra) /\ [] ∉ names extra /\ text "le" ∉ names extra /\
  (forall o1 o2, span_key AsString Get extra o1 = span_key AsString Get extra o2 <-> span_dims AsString Get extra o1 = span_dims AsString Get extra o2) /\
  (forall o, putDims PutStr (names extra) (span_dims AsString Get extra o) = zip (names extra) (span_dims AsString Get extra o)).
Proof.
  intros Htext Hput extra. destruct (Configure_spec builtins cfg) as [C1 C2]. fold extra in C1, C2.
  assert (Hb : forall n, n ∈ builtinDims ++ [text "le"] -> n ∈ builtins) by (intros n Hn; unfold builtins; by apply elem_of_list_to_set).
  assert (Hnd : NoDup (names extra)).
  { unfold names. apply NoDup_app. split; [apply (bool_decide_unpack _); vm_compute; exact I|split; [|done]].
    intros n H1 H2. apply C2 in H2 as (_ & _ & H2). apply H2, Hb, elem_of_app. by left. }
  split; [done|]. split; [|split; [|split]].
  - unfold names. intros [H|H]%elem_of_app; [|by apply C2 in H as (_ & ? & _)].
    revert H. apply (bool_decide_unpack _). vm_compute. exact I.
  - unfold names. intros [H|H]%elem_of_app; [revert H; apply (bool_decide_unpack _); vm_compute; exact I|].
    apply C2 in H as (_ & _ & H). apply H, Hb, elem_of_app. right. by apply list_elem_of_singleton.
  - intros. by apply span_key_dims.
  - intros o. unfold putDims. rewrite put_distinct; [done|done|]. rewrite fst_zip; [done|].
    unfold names, span_dims, builtinDims. rewrite !length_app, length_fmap. cbn. lia.
Qed.

(** ** The generator behind its tap *)

Section Tier.
Context (AsString : Value -> bytes) (Get : attrs -> bytes -> option Value).
Context (prefix : bytes) (extra : list bytes) (bounds : list float64) (exemplars : bool).
Context (exemplarKeep : option (Span -> bool)) (grown : nat -> nat -> nat).
Context (PutStr : bytes -> bytes -> attributes -> attributes).
Notation G := (Generator AsString Get prefix extra bounds grown PutStr).
Notation GL := (GeneratorLaws AsString Get prefix extra bounds grown PutStr).
Notation spans td := (spans_of AsString Get exemplars exemplarKeep td).

(** Concurrent pushes: each forwarded batch is consumed span by span, at the
    one clock reading its [Consume] took, between the others. *)
Record tier := mkTier { consuming : gmap nat (Z * list span_obs); nextPush : nat; forwarded : list span_obs; gen : sys (A := G) }.

Inductive tier_step : tier -> tier -> Prop :=
| t_push now ok td r :
    tier_step r (if ok : bool then mkTier (<[nextPush r := (now, spans td)]> (consuming r)) (S (nextPush r)) (forwarded r ++ spans td) (gen r)
                 else r)
| t_span i now o os r : consuming r !! i = Some (now, o :: os) ->
    tier_step r (mkTier (<[i := (now, os)]> (consuming r)) (nextPush r) (forwarded r) (record now (o : @Obs G) (gen r)))
| t_metrics x r : step (gen r) x -> taken x = taken (gen r) -> refused x = refused (gen r) ->
    tier_step r (mkTier (consuming r) (nextPush r) (forwarded r) x).

Definition tier_init (M S : Z) : tier := mkTier ∅ 0 [] (init (A := G) M S).

(** The spans whose batch is still being consumed. *)
Definition in_flight (r : tier) : list span_obs := concat (snd <$> (map_to_list (consuming r)).*2).

Lemma in_flight_insert (m : gmap nat (Z * list span_obs)) i now os : m !! i = None ->
  concat (snd <$> (map_to_list (<[i := (now, os)]> m)).*2) ≡ₚ os ++ concat (snd <$> (map_to_list m).*2).
Proof. intros Hi. rewrite map_to_list_insert by done. by rewrite !fmap_cons. Qed.

Lemma in_flight_pop (m : gmap nat (Z * list span_obs)) i now o os : m !! i = Some (now, o :: os) ->
  concat (snd <$> (map_to_list m).*2) ≡ₚ o :: concat (snd <$> (map_to_list (<[i := (now, os)]> m)).*2).
Proof.
  intros Hi. rewrite <- (insert_delete_id m i _ Hi) at 1. rewrite <- (insert_delete_eq m).
  rewrite !in_flight_insert by apply lookup_delete_eq. done.
Qed.

(** Every forwarded span is counted once.  Over any interleaving of
    concurrent pushes and exports, the spans held by series, live or evicted,
    those refused at the cap and those of batches still being consumed are
    exactly the spans of the batches that were forwarded: a push that fails,
    and will be retried, adds nothing. *)
Theorem spans_counted M S r : star tier_step (tier_init M S) r ->
  (all_taken (gen r)).*2 ++ refused (gen r) ++ in_flight r ≡ₚ forwarded r /\
  Dropped (store (gen r)) = Z.of_nat (length (refused (gen r))) /\ star step (init (A := G) M S) (gen r).
Proof.
  intros Hr.
  enough (H : star step (init (A := G) M S) (gen r) /\ (forall i, is_Some (consuming r !! i) -> (i < nextPush r)%nat) /\
    (all_taken (gen r)).*2 ++ refused (gen r) ++ in_flight r ≡ₚ forwarded r).
  { destruct H as (H1 & _ & H2). split; [done|split; [|done]].
    apply (c_dropped _ _ _ _ _ _ (i_core _ _ (agg_inv (L := GL) _ _ _ H1))). }
  eapply (star_inv tier_step (fun r => star step (init (A := G) M S) (gen r) /\ (forall i, is_Some (consuming r !! i) -> (i < nextPush r)%nat) /\
    (all_taken (gen r)).*2 ++ refused (gen r) ++ in_flight r ≡ₚ forwarded r)); [|exact Hr|].
  2: { split; [apply star_refl|]. split; [|reflexivity]. intros i. cbn. rewrite lookup_empty. by intros []. }
  clear r Hr. intros r1 r2 (H1 & H2 & H3) Hs. destruct Hs as [now ok td r|i now o os r Hi|x r Hst Ht Hrf].
  - destruct ok; [|done]. cbn [gen consuming nextPush forwarded]. split; [done|split].
    + intros i Hi. destruct (decide (nextPush r = i)) as [<-|Hne]; [lia|]. rewrite lookup_insert_ne in Hi by done. apply H2 in Hi. lia.
    + unfold in_flight. cbn [consuming]. rewrite in_flight_insert by (apply eq_None_not_Some; intros Hi%H2; lia).
      rewrite (Permutation_app_comm (spans td)), !app_assoc. apply Permutation_app_tail. rewrite <- app_assoc. exact H3.
  - cbn [gen consuming nextPush forwarded]. split; [by eapply star_step; [|constructor]|split].
    + intros j Hj. apply H2. destruct (decide (i = j)) as [<-|Hne]; [by eexists|by rewrite lookup_insert_ne in Hj].
    + etrans; [|exact H3]. rewrite !app_assoc. pose proof (record_counts (L := GL) M now (o : @Obs G) (gen r)) as Hc.
      rewrite Hc by (by eapply agg_inv). unfold in_flight. cbn [consuming]. rewrite (in_flight_pop _ _ _ _ _ Hi).
      rewrite <- app_assoc. done.
  - cbn [gen consuming nextPush forwarded]. split; [by eapply star_step|split; [done|]]. unfold in_flight, all_taken in *. cbn [consuming]. by rewrite Ht, Hrf.
Qed.

End Tier.

(** ** An example generator, with one configured dimension *)

Definition ex_as_string (v : Value) : bytes := match v with VStr s => s | VInt n => FormatInt n | _ => [] end.
Definition ex_get (m : attrs) (k : bytes) : option Value :=
  match list_find (fun e => e.1 = k) m with Some (_, (_, v)) => Some v | None => None end.
Definition ex_cfg : list bytes := [text "code"; text "span.name"; []; text "code"].

Lemma span_labels_exact_witness : Configure builtins ex_cfg = [text "code"] /\
  (let extra := Configure builtins ex_cfg in
   NoDup (names extra) /\ [] ∉ names extra /\ text "le" ∉ names extra /\
   (forall o1 o2, span_key ex_as_string ex_get extra o1 = span_key ex_as_string ex_get extra o2 <->
      span_dims ex_as_string ex_get extra o1 = span_dims ex_as_string ex_get extra o2) /\
   (forall o, putDims upsert (names extra) (span_dims ex_as_string ex_get extra o) = zip (names extra) (span_dims ex_as_string ex_get extra o))).
Proof.
  split; [vm_compute; reflexivity|]. apply (span_labels_exact ex_as_string ex_get upsert ex_cfg); [|apply upsert_new]. intros n. reflexivity.
Defined.

Definition ex_span (code : Z) : Span := mkSpan [111; 112] 2 0 [(text "code", VInt code)] 1000000000 3000000000 5 6 [] [].
Definition ex_batch : batch := [([(dimService, VStr [115])], [[ex_span 200; ex_span 404]])].

Notation ex_tier_step := (tier_step ex_as_string ex_get [112] [text "code"] [] true None Nat.max upsert).
Notation ex_tier_gen := (Generator ex_as_string ex_get [112] [text "code"] [] Nat.max upsert).
Notation ex_spans := (spans_of ex_as_string ex_get true None ex_batch).

Definition ex_first : span_obs := mkSpanObs (ex_span 200) [(dimService, VStr [115])] [115] true.

(** One batch forwarded, its first span consumed, a second push failed. *)
Definition ex_tier := mkTier ex_as_string ex_get [112] [text "code"] [] Nat.max upsert
  (<[0%nat := (9, tail ex_spans)]> (<[0%nat := (9, ex_spans)]> ∅)) 1 ex_spans (record 9 (ex_first : @Obs ex_tier_gen) (init 1 10)).

Lemma ex_tier_reach : star ex_tier_step (tier_init ex_as_string ex_get [112] [text "code"] [] Nat.max upsert 1 10) ex_tier.
Proof.
  eapply star_step; [eapply star_step; [eapply star_step; [apply star_refl|]|]|].
  - apply (t_push _ _ _ _ _ _ _ _ _ 9 true ex_batch).
  - apply (t_push _ _ _ _ _ _ _ _ _ 9 false ex_batch).
  - cbn [tier_init consuming nextPush forwarded gen]. apply (t_span _ _ _ _ _ _ _ _ _ 0%nat 9 ex_first (tail ex_spans)). reflexivity.
Qed.

Lemma spans_counted_witness : length (forwarded _ _ _ _ _ _ _ ex_tier) = 2%nat /\
  ((all_taken (gen _ _ _ _ _ _ _ ex_tier)).*2 ++ refused (gen _ _ _ _ _ _ _ ex_tier) ++ in_flight _ _ _ _ _ _ _ ex_tier ≡ₚ forwarded _ _ _ _ _ _ _ ex_tier /\
   Dropped (store (gen _ _ _ _ _ _ _ ex_tier)) = Z.of_nat (length (refused (gen _ _ _ _ _ _ _ ex_tier))) /\
   star step (init (A := ex_tier_gen) 1 10) (gen _ _ _ _ _ _ _ ex_tier)).
Proof.
  split; [reflexivity|].
  apply (spans_counted ex_as_string ex_get [112] [text "code"] [] true None Nat.max upsert 1 10 ex_tier ex_tier_reach).
Defined.
