(* ===== verification/TailSample.v ===== *)
(** * Tail-sampling policies ([internal/agent/tailsample]: [tailsample.go], [policy.go])

    The policy engine: a configured list is compiled once, refused or turned
    into policies that hold token buckets and regular-expression caches, and
    [Decide] evaluates it on the spans of a trace present, first opinion wins.

    Buckets and caches are shared through pointers; a pointer is an index into
    the [world].  A resource map is a handle with what it holds.  An error of
    compilation is the policy it names and its cause; the wording is left out. *)

From S2P Require Import Prelude Clip Number Float Text Pdata TraceHash.
Local Open Scope Z_scope.

Definition TypeAlwaysSample : bytes := text "alwaysSample".
Definition TypeLatency : bytes := text "latency".
Definition TypeStatusCode : bytes := text "statusCode".
Definition TypeStringAttribute : bytes := text "stringAttribute".
Definition TypeNumericAttribute : bytes := text "numericAttribute".
Definition TypeBooleanAttribute : bytes := text "booleanAttribute".
Definition TypeProbabilistic : bytes := text "probabilistic".
Definition TypeRateLimiting : bytes := text "rateLimiting".
Definition TypeAnd : bytes := text "and".
Definition TypeComposite : bytes := text "composite".
Definition TypeScript : bytes := text "script".
Definition NoPolicyLabel : bytes := text "none".

(** ** Traces and decisions *)

(** A span with the handle of the resource attributes it arrived under; [None]
    is the map that was never initialised. *)
Record TSpan := mkTSpan { t_span : Span; t_res : option (nat * attrs) }.
Record Trace := mkTrace { t_id : Z; t_spans : list TSpan; t_charged : Z }.
Record Decision := mkDecision { Sampled : bool; Policy : bytes; d_charged : Z }.

Inductive verdict := Abstain | Sample | Veto.

(** ** Configuration *)

Record LatencyConfig := mkLatency { l_threshold : bytes; l_upper : bytes }.
Record StringAttributeConfig := mkStringAttr {
  sa_key : bytes; sa_values : list bytes; sa_regex : bool; sa_cache : Z; sa_invert : bool }.
Record NumericAttributeConfig := mkNumeric { na_key : bytes; na_min : option Z; na_max : option Z }.
Record BooleanAttributeConfig := mkBoolean { ba_key : bytes; ba_value : option bool }.
Record CompositeConfig (P : Type) := mkCompositeConfig {
  MaxTotalSpansPerSecond : float64; PolicyOrder : list bytes; SubPolicies : list P; RateAllocation : list (bytes * float64) }.
Arguments mkCompositeConfig {P}.
Arguments MaxTotalSpansPerSecond {P}.
Arguments PolicyOrder {P}.
Arguments SubPolicies {P}.
Arguments RateAllocation {P}.

Inductive PolicyConfig := mkPolicy {
  pc_name : bytes; pc_type : bytes;
  Latency : option LatencyConfig; StatusCode : option (list bytes); StringAttribute : option StringAttributeConfig;
  NumericAttribute : option NumericAttributeConfig; BooleanAttribute : option BooleanAttributeConfig;
  Probabilistic : option float64; RateLimiting : option float64;
  And : option (list PolicyConfig); Composite : option (CompositeConfig PolicyConfig) }.

Record Config := mkConfig { Policies : list PolicyConfig; Script : option (Trace -> bool * bool) }.
Definition Enabled (c : option Config) : bool := match c with Some c => bool_decide (Policies c <> []) | None => false end.

Fixpoint uses_script (pc : PolicyConfig) : bool :=
  bool_decide (pc_type pc = TypeScript) ||
  match And pc with Some subs => existsb uses_script subs | None => false end ||
  match Composite pc with Some c => existsb uses_script (SubPolicies c) | None => false end.
Definition UsesScript (c : option Config) : bool := match c with Some c => existsb uses_script (Policies c) | None => false end.

(** ** What the policies share *)

Record regexCache := mkRegexCache { rc_max : Z; rc_m : gmap bytes bool }.
Definition newRegexCache (limit : Z) : regexCache := mkRegexCache limit ∅.
Definition defaultRegexCacheSize : Z := 1000.
Definition maxRegexCacheKeyBytes : Z := 256.

Definition rc_get (s : bytes) (c : regexCache) : option bool := rc_m c !! s.
Definition rc_put (s : bytes) (v : bool) (c : regexCache) : regexCache :=
  if maxRegexCacheKeyBytes <? Z.of_nat (length s) then c
  else
    let m := if rc_max c <=? Z.of_nat (size (rc_m c)) then ∅ else rc_m c in
    mkRegexCache (rc_max c) (<[s := v]> m).

Record world := mkWorld { buckets : list Bucket; caches : list regexCache }.
Definition set_buckets (v : list Bucket) (w : world) : world := mkWorld v (caches w).
Definition set_caches (v : list regexCache) (w : world) : world := mkWorld (buckets w) v.

Record compositeSub (P : Type) := mkSub { cs_name : bytes; cs_p : P; cs_b : nat; cs_bit : Z }.
Arguments mkSub {P}.
Arguments cs_name {P}.
Arguments cs_p {P}.
Arguments cs_b {P}.
Arguments cs_bit {P}.

(** ** Reading a trace *)

Definition max_duration : Z := 2 ^ 63 - 1.

(** The earliest start, the latest end and whether there is one, so far. *)
Definition widen (acc : Z * Z * bool) (s : TSpan) : Z * Z * bool :=
  let '(minStart, maxEnd, found) := acc in
  let start := sp_start (t_span s) in
  if start =? 0 then acc
  else
    let end_ := Z.max (sp_end (t_span s)) start in
    if max_duration <? u64 (end_ - start) then acc
    else (if negb found || (start <? minStart) then start else minStart,
          if negb found || (maxEnd <? end_) then end_ else maxEnd, true).

Definition traceDuration (t : Trace) : option Z :=
  let '(minStart, maxEnd, found) := foldl widen (0, 0, false) (t_spans t) in
  if negb found then None
  else let d := u64 (maxEnd - minStart) in Some (if d <=? max_duration then d else max_duration).

Section Engine.
(** [pcommon.Map.Get] and the hash of a trace id are third-party functions. *)
Context `{GoText} (Get : attrs -> bytes -> option Value) (Sum64Uint128 : Z -> Z -> Z).

Section Matching.
(** A test of a value may have a state. *)
Context {S : Type} (matchValue : Value -> S -> bool * S).

Definition resourceMatches (res : option (nat * attrs)) (key : bytes) (s : S) : bool * S :=
  match res with
  | None => (false, s)
  | Some (_, m) => match Get m key with Some v => matchValue v s | None => (false, s) end
  end.

(** [noMatch] is the handle of the last resource evaluated, which did not match. *)
Fixpoint any_from (spans : list TSpan) (key : bytes) (noMatch : option (option nat)) (s : S) : bool * S :=
  match spans with
  | [] => (false, s)
  | sp :: rest =>
      match Get (sp_attrs (t_span sp)) key with
      | Some v => let '(m, s) := matchValue v s in if m then (true, s) else any_from rest key noMatch s
      | None =>
          if decide (noMatch = Some (fst <$> t_res sp)) then any_from rest key noMatch s
          else
            let '(m, s) := resourceMatches (t_res sp) key s in
            if m then (true, s) else any_from rest key (Some (fst <$> t_res sp)) s
      end
  end.

Definition anySpanMatches (t : Trace) (key : bytes) (s : S) : bool * S := any_from (t_spans t) key None s.
End Matching.

(** ** Policies *)

Inductive policy :=
| alwaysPolicy
| latencyPolicy (min max : Z)
| statusPolicy (mask : Z)
| stringAttrPolicy (key : bytes) (exact : option (gset bytes)) (res : list Regexp) (cache : nat) (invert : bool)
| numericPolicy (key : bytes) (min max : Z) (minF maxF : float64)
| boolPolicy (key : bytes) (want : bool)
| probPolicy (threshold : Z)
| ratePolicy (b : nat) (bit : Z)
| scriptPolicy (fn : Trace -> bool * bool)
| andPolicy (subs : list policy)
| compositePolicy (subs : list (compositeSub policy)).

(** The status bit in the [uint8] mask: a code past its width has none. *)
Definition status_bit (code : Z) : Z := if u64 code <? 8 then Z.shiftl 1 (u64 code) else 0.

(** [match] of a string policy: the cached answer, or the expressions in order. *)
Definition string_match (exact : option (gset bytes)) (res : list Regexp) (cache : nat) (s : bytes) (w : world) : bool * world :=
  match exact with
  | Some e => (bool_decide (s ∈ e), w)
  | None =>
      match caches w !! cache ≫= rc_get s with
      | Some v => (v, w)
      | None =>
          let m := existsb (fun re => MatchString re s) res in
          (m, set_caches (alter (rc_put s m) cache (caches w)) w)
      end
  end.

Definition string_value exact res cache (v : Value) (w : world) : bool * world :=
  match v with VStr s => string_match exact res cache s w | _ => (false, w) end.

Definition numeric_value (min max : Z) (minF maxF : float64) (v : Value) (w : world) : bool * world :=
  (match v with
   | VInt n => (min <=? n) && (n <=? max)
   | VDouble d => float_le minF d && float_le d maxF
   | _ => false
   end, w).

Definition bool_value (want : bool) (v : Value) (w : world) : bool * world :=
  (match v with VBool b => eqb b want | _ => false end, w).

(** One admission of [n] spans: a bucket this trace has paid is only peeked at. *)
Definition charge (b : nat) (bit : Z) (n : float64) (now already : Z) (w : world) : bool * Z * world :=
  match buckets w !! b with
  | None => (false, 0, w)
  | Some bk =>
      if Z.land already bit =? 0 then
        let '(bk, admitted) := AdmitDebt n now bk in
        (admitted, if admitted then bit else 0, set_buckets (<[b := bk]> (buckets w)) w)
      else (Peek n now bk, 0, w)
  end.

Definition span_count (t : Trace) : float64 := of_int (Z.of_nat (length (t_spans t))).

(** The verdict, the sub-policy that gave it, and the bits of the buckets spent. *)
Definition outcome : Type := verdict * bytes * Z.

Definition sample_if (m : bool) : outcome := (if m then Sample else Abstain, [], 0).

(** Every sub-policy must sample; a bucket one of them spent stays spent. *)
Definition and_loop {P} (ev : P -> world -> outcome * world) : list P -> Z -> world -> outcome * world :=
  fix go subs spent w :=
    match subs with
    | [] => ((Sample, [], spent), w)
    | sub :: rest =>
        let '((v, _, s), w) := ev sub w in
        let spent := Z.lor spent s in
        match v with
        | Veto => ((Veto, [], spent), w)
        | Abstain => ((Abstain, [], spent), w)
        | Sample => go rest spent w
        end
    end.

(** The first sub-policy that samples and whose share admits the trace. *)
Definition composite_loop {P} (ev : P -> world -> outcome * world) (t : Trace) (now : Z) :
    list (compositeSub P) -> Z -> world -> outcome * world :=
  fix go subs spent w :=
    match subs with
    | [] => ((Abstain, [], spent), w)
    | mkSub name p b bit :: rest =>
        let '((v, _, s), w) := ev p w in
        let spent := Z.lor spent s in
        match v with
        | Veto => ((Veto, name, spent), w)
        | Sample =>
            let '(admitted, s, w) := charge b bit (span_count t) now (t_charged t) w in
            let spent := Z.lor spent s in
            if admitted then ((Sample, name, spent), w) else go rest spent w
        | Abstain => go rest spent w
        end
    end.

Fixpoint eval (p : policy) (t : Trace) (now : Z) (w : world) {struct p} : outcome * world :=
  match p with
  | alwaysPolicy => ((Sample, [], 0), w)
  | latencyPolicy min max =>
      (match traceDuration t with
       | None => (Abstain, [], 0)
       | Some d => sample_if ((min <=? d) && (d <=? max))
       end, w)
  | statusPolicy mask =>
      (sample_if (existsb (fun s => negb (Z.land mask (status_bit (sp_status (t_span s))) =? 0)) (t_spans t)), w)
  | stringAttrPolicy key exact res cache invert =>
      let '(m, w) := anySpanMatches (string_value exact res cache) t key w in
      (if negb m then (Abstain, [], 0) else if invert then (Veto, [], 0) else (Sample, [], 0), w)
  | numericPolicy key min max minF maxF =>
      let '(m, w) := anySpanMatches (numeric_value min max minF maxF) t key w in (sample_if m, w)
  | boolPolicy key want => let '(m, w) := anySpanMatches (bool_value want) t key w in (sample_if m, w)
  | probPolicy threshold => (sample_if (Keep Sum64Uint128 (t_id t) threshold), w)
  | ratePolicy b bit =>
      let '(admitted, spent, w) := charge b bit (span_count t) now (t_charged t) w in
      ((if admitted then Sample else Abstain, [], spent), w)
  | scriptPolicy fn =>
      let '(s, abstain) := fn t in ((if abstain then Abstain else if s then Sample else Veto, [], 0), w)
  | andPolicy subs => and_loop (fun p w => eval p t now w) subs 0 w
  | compositePolicy subs => composite_loop (fun p w => eval p t now w) t now subs 0 w
  end.

(** ** The evaluator *)

Record namedPolicy := mkNamed { np_name : bytes; np_p : policy }.

Definition np_names (n : namedPolicy) : list bytes :=
  match np_p n with compositePolicy subs => cs_name <$> subs | _ => [np_name n] end.

(** The policies are fixed; their buckets and caches change.  [clock i] is what
    the [i]-th reading of the evaluator's clock will be. *)
Record Evaluator := mkEvaluator {
  policies : list namedPolicy; needClock : bool; ev_world : world; clock : nat -> Z; ticks : nat }.

Fixpoint decide_from (ps : list namedPolicy) (t : Trace) (now spent : Z) (w : world) : Decision * world :=
  match ps with
  | [] => (mkDecision false [] spent, w)
  | p :: rest =>
      let '((v, sub, s), w) := eval (np_p p) t now w in
      let spent := Z.lor spent s in
      match v with
      | Abstain => decide_from rest t now spent w
      | _ => (mkDecision (match v with Sample => true | _ => false end)
                (match sub with [] => np_name p | _ => sub end) spent, w)
      end
  end.

Definition Decide (t : Trace) (e : Evaluator) : Decision * Evaluator :=
  let '(now, n) := if needClock e then (clock e (ticks e), S (ticks e)) else (0, ticks e) in
  let '(d, w) := decide_from (policies e) t now 0 (ev_world e) in
  (d, mkEvaluator (policies e) (needClock e) w (clock e) n).

Definition Names (e : Evaluator) : list bytes := policies e ≫= np_names.
End Engine.
