(* ===== verification/TailCompile.v ===== *)
(** * Compiling a policy list ([internal/agent/tailsample/policy.go], [New] and [Validate] of [tailsample.go])

    Every check that can fail happens here, in the code's order; what comes out
    are the policies of [TailSample], and the buckets and caches they point to. *)

From S2P Require Import Prelude Clip Number Float Text Pdata TraceHash TailSample.
Local Open Scope Z_scope.

(** ** Errors: which policy, and why *)

Inductive cause :=
| NameRequired | NameReserved | NameSlash | NameDuplicate | TypeRequired | TypeUnknown | BodyMismatch | BodyMissing
| ScriptMissing | LatencyDuration (e : duration_error) | LatencyEmpty | StatusEmpty | StatusUnknown | StringKeyRequired
| StringNoValues | CacheNegative | CacheWithoutRegex | BadRegex | NumericKeyRequired | NumericUnbounded | NumericEmpty
| BoolKeyRequired | BoolValueRequired | PercentRange | RateNotPositive | NestedPolicy | AndEmpty | CompositeRate
| CompositeEmpty | OrderUnknown | OrderDuplicate | OrderOmits | ShareUnknown | ShareDuplicate | ShareRange | ShareTotal
| ShareLeftover.

(** [policyWhere]: in a sub-list or not, the position, the name. *)
Record where_ := mkWhere { wh_sub : bool; wh_index : nat; wh_name : bytes }.
Inductive error := NoPolicies | PolicyError (w : where_) (c : cause).

Section Compile.
Context `{GoText}.
Notation policy := (@policy _).
Notation namedPolicy := (@namedPolicy _).

(** ** Buckets

    [bits] counts the buckets handed out; the buckets and caches made so far
    are kept with it, a pointer being a position in their list. *)
Record bucketAlloc := mkAlloc { bits : nat; script : option (Trace -> bool * bool); made : world }.

Definition next (a : bucketAlloc) : Z * bucketAlloc :=
  (Z.shiftl 1 (if decide (63 < bits a)%nat then 63 else Z.of_nat (bits a)), mkAlloc (S (bits a)) (script a) (made a)).

Definition new_bucket (b : Bucket) (a : bucketAlloc) : nat * bucketAlloc :=
  (length (buckets (made a)), mkAlloc (bits a) (script a) (set_buckets (buckets (made a) ++ [b]) (made a))).

Definition new_cache (c : regexCache) (a : bucketAlloc) : nat * bucketAlloc :=
  (length (caches (made a)), mkAlloc (bits a) (script a) (set_caches (caches (made a) ++ [c]) (made a))).

(** ** The checks of a body *)

Definition allTypes : list bytes :=
  [TypeAlwaysSample; TypeLatency; TypeStatusCode; TypeStringAttribute; TypeNumericAttribute; TypeBooleanAttribute;
   TypeProbabilistic; TypeRateLimiting; TypeAnd; TypeComposite; TypeScript].
Definition knownType (t : bytes) : bool := bool_decide (t ∈ allTypes).

Definition is_set {A} (o : option A) : bool := match o with Some _ => true | None => false end.

Definition bodies (pc : PolicyConfig) : list (bytes * bool) :=
  [(TypeLatency, is_set (Latency pc)); (TypeStatusCode, is_set (StatusCode pc)); (TypeStringAttribute, is_set (StringAttribute pc));
   (TypeNumericAttribute, is_set (NumericAttribute pc)); (TypeBooleanAttribute, is_set (BooleanAttribute pc));
   (TypeProbabilistic, is_set (Probabilistic pc)); (TypeRateLimiting, is_set (RateLimiting pc)); (TypeAnd, is_set (And pc));
   (TypeComposite, is_set (Composite pc))].

Fixpoint check_bodies (ty : bytes) (bs : list (bytes * bool)) (own : bool) : cause + bool :=
  match bs with
  | [] => inr own
  | (typ, present) :: rest =>
      if decide (typ = ty) then check_bodies ty rest present
      else if present then inl BodyMismatch else check_bodies ty rest own
  end.

Definition checkBody (pc : PolicyConfig) : cause + unit :=
  own ← check_bodies (pc_type pc) (bodies pc) false;
  if decide (pc_type pc = TypeAlwaysSample \/ pc_type pc = TypeScript) then mret tt else refuse (negb own) BodyMissing.

(** ** The leaf policies *)

Definition latency_duration (v : bytes) : cause + Z :=
  match Duration v 0 [ZeroDisables] with inl e => inl (LatencyDuration e) | inr d => inr d end.

Definition compileLatency (cfg : LatencyConfig) : cause + policy :=
  lower ← latency_duration (l_threshold cfg);
  upper ← latency_duration (l_upper cfg);
  refuse ((0 <? upper) && (upper <? lower)) LatencyEmpty;;
  mret (latencyPolicy lower (if 0 <? upper then upper else max_int64)).

Definition StatusCodeUnset : Z := 0.
Definition StatusCodeOk : Z := 1.
Definition StatusCodeError : Z := 2.

Definition parseStatusCode (s : bytes) : option Z :=
  let u := ToUpper (TrimSpace s) in
  if decide (u = text "UNSET") then Some StatusCodeUnset
  else if decide (u = text "OK") then Some StatusCodeOk
  else if decide (u = text "ERROR") then Some StatusCodeError
  else None.

Fixpoint status_mask (codes : list bytes) (mask : Z) : cause + Z :=
  match codes with
  | [] => inr mask
  | s :: rest => match parseStatusCode s with None => inl StatusUnknown | Some c => status_mask rest (Z.lor mask (status_bit c)) end
  end.

Definition compileStatusCode (codes : list bytes) : cause + policy :=
  refuse (bool_decide (codes = [])) StatusEmpty;;
  mask ← status_mask codes 0;
  mret (statusPolicy mask).

Fixpoint compile_all (vs : list bytes) : cause + list Regexp :=
  match vs with
  | [] => inr []
  | v :: rest =>
      match Compile v with
      | None => inl BadRegex
      | Some re => res ← compile_all rest; mret (re :: res)
      end
  end.

Definition compileStringAttribute (cfg : StringAttributeConfig) (a : bucketAlloc) : cause + (policy * bucketAlloc) :=
  refuse (bool_decide (sa_key cfg = [])) StringKeyRequired;;
  refuse (bool_decide (sa_values cfg = [])) StringNoValues;;
  refuse (sa_cache cfg <? 0) CacheNegative;;
  refuse (negb (sa_regex cfg) && (0 <? sa_cache cfg)) CacheWithoutRegex;;
  if sa_regex cfg then
    res ← compile_all (sa_values cfg);
    let '(c, a) := new_cache (newRegexCache (if sa_cache cfg =? 0 then defaultRegexCacheSize else sa_cache cfg)) a in
    mret (stringAttrPolicy (sa_key cfg) None res c (sa_invert cfg), a)
  else mret (stringAttrPolicy (sa_key cfg) (Some (list_to_set (sa_values cfg))) [] 0 (sa_invert cfg), a).

Definition compileNumericAttribute (cfg : NumericAttributeConfig) : cause + policy :=
  refuse (bool_decide (na_key cfg = [])) NumericKeyRequired;;
  refuse (bool_decide (na_min cfg = None /\ na_max cfg = None)) NumericUnbounded;;
  let min := default min_int64 (na_min cfg) in
  let max := default max_int64 (na_max cfg) in
  refuse (max <? min) NumericEmpty;;
  mret (numericPolicy (na_key cfg) min max
          (from_option of_int (S754_infinity true) (na_min cfg)) (from_option of_int (S754_infinity false) (na_max cfg))).

Definition compileBooleanAttribute (cfg : BooleanAttributeConfig) : cause + policy :=
  refuse (bool_decide (ba_key cfg = [])) BoolKeyRequired;;
  match ba_value cfg with None => inl BoolValueRequired | Some v => mret (boolPolicy (ba_key cfg) v) end.

Definition compileProbabilistic (pct : float64) : cause + policy :=
  refuse (float_lt pct float_zero || float_lt (of_int 100) pct) PercentRange;;
  mret (probPolicy (Threshold (float_div pct (of_int 100)))).

Definition compileRateLimiting (perSecond : float64) (a : bucketAlloc) : cause + (policy * bucketAlloc) :=
  refuse (float_le perSecond float_zero) RateNotPositive;;
  let '(b, a) := new_bucket (NewBucket perSecond) a in
  let '(bit, a) := next a in
  mret (ratePolicy b bit, a).

(** ** Composite: order and shares *)

Definition index_of (n : bytes) (names : list bytes) : option nat := fst <$> list_find (fun m => n = m) names.

Fixpoint order_from (order : list bytes) (names : list bytes) (used : gset bytes) : cause + list nat :=
  match order with
  | [] => inr []
  | n :: rest =>
      match index_of n names with
      | None => inl OrderUnknown
      | Some i =>
          refuse (bool_decide (n ∈ used)) OrderDuplicate;;
          l ← order_from rest names ({[n]} ∪ used);
          mret (i :: l)
      end
  end.

Definition compositeOrder (order names : list bytes) : cause + list nat :=
  match order with
  | [] => mret (seq 0 (length names))
  | _ =>
      l ← order_from order names ∅;
      refuse (negb (bool_decide (length l = length names))) OrderOmits;;
      mret l
  end.

(** [100+1e-9], rounded once. *)
Definition share_limit : float64 := default float_zero (Number.ParseFloat (text "100.000000001")).

Fixpoint allocate (ras : list (bytes * float64)) (names : list bytes) (shares : gmap bytes float64) (total : float64) :
    cause + (gmap bytes float64 * float64) :=
  match ras with
  | [] => inr (shares, total)
  | (p, pct) :: rest =>
      refuse (bool_decide (p ∉ names)) ShareUnknown;;
      refuse (bool_decide (is_Some (shares !! p))) ShareDuplicate;;
      refuse (float_le pct float_zero || float_lt (of_int 100) pct) ShareRange;;
      allocate rest names (<[p := pct]> shares) (float_add total pct)
  end.

Definition fill_shares (each : float64) (names : list bytes) (shares : gmap bytes float64) : gmap bytes float64 :=
  foldl (fun sh n => match sh !! n with Some _ => sh | None => <[n := each]> sh end) shares names.

Definition compositeShares (ras : list (bytes * float64)) (names : list bytes) : cause + gmap bytes float64 :=
  '(shares, total) ← allocate ras names ∅ float_zero;
  refuse (float_lt share_limit total) ShareTotal;;
  let rest := Z.of_nat (length names) - Z.of_nat (size shares) in
  if rest =? 0 then mret shares
  else
    let leftover := float_sub (of_int 100) total in
    refuse (float_le leftover float_zero) ShareLeftover;;
    mret (fill_shares (float_div leftover (of_int rest)) names shares).

Fixpoint composite_subs (name : bytes) (max : float64) (shares : gmap bytes float64) (subs : list namedPolicy) (order : list nat)
    (a : bucketAlloc) : list (compositeSub policy) * bucketAlloc :=
  match order with
  | [] => ([], a)
  | idx :: rest =>
      match subs !! idx with
      | None => ([], a)
      | Some s =>
          let rate := float_div (float_mul max (default float_zero (shares !! np_name s))) (of_int 100) in
          let '(b, a) := new_bucket (NewBucket rate) a in
          let '(bit, a) := next a in
          let '(out, a) := composite_subs name max shares subs rest a in
          (mkSub (name ++ [47] ++ np_name s) (np_p s) b bit :: out, a)
      end
  end.

(** ** A list of policies

    An error of a nested list is reported as it is, every other one with the
    policy it names. *)
Definition at_ {A} (w : where_) (r : cause + A) : error + A := match r with inl c => inl (PolicyError w c) | inr a => inr a end.

Definition no_clock (r : error + policy) (a : bucketAlloc) : error + (policy * bool * bucketAlloc) := p ← r; mret (p, false, a).

Section Policy.
(** How a nested list is compiled. *)
Context (compileSubs : list PolicyConfig -> bucketAlloc -> error + (list namedPolicy * bool * bucketAlloc)).

Definition compileAnd (w : where_) (subs : list PolicyConfig) (a : bucketAlloc) : error + (policy * bool * bucketAlloc) :=
  at_ w (refuse (bool_decide (subs = [])) AndEmpty);;
  '(ps, clock, a) ← compileSubs subs a;
  mret (andPolicy (np_p <$> ps), clock, a).

Definition compileComposite (name : bytes) (w : where_) (cfg : CompositeConfig PolicyConfig) (a : bucketAlloc) :
    error + (policy * bool * bucketAlloc) :=
  at_ w (refuse (float_le (MaxTotalSpansPerSecond cfg) float_zero) CompositeRate);;
  at_ w (refuse (bool_decide (SubPolicies cfg = [])) CompositeEmpty);;
  '(subs, _, a) ← compileSubs (SubPolicies cfg) a;
  order ← at_ w (compositeOrder (PolicyOrder cfg) (np_name <$> subs));
  shares ← at_ w (compositeShares (RateAllocation cfg) (np_name <$> subs));
  let '(out, a) := composite_subs name (MaxTotalSpansPerSecond cfg) shares subs order a in
  mret (compositePolicy out, true, a).

(** The body of the type is there when [checkBody] has passed. *)
Definition with_body {A} (w : where_) (b : option A) (k : A -> error + (policy * bool * bucketAlloc)) : error + (policy * bool * bucketAlloc) :=
  match b with Some x => k x | None => inl (PolicyError w BodyMissing) end.

Definition compilePolicy (pc : PolicyConfig) (w : where_) (sub : bool) (a : bucketAlloc) : error + (policy * bool * bucketAlloc) :=
  let ty := pc_type pc in
  at_ w (refuse (bool_decide (ty = [])) TypeRequired);;
  at_ w (refuse (negb (knownType ty)) TypeUnknown);;
  at_ w (checkBody pc);;
  if decide (ty = TypeAlwaysSample) then mret (alwaysPolicy, false, a)
  else if decide (ty = TypeScript) then
    match script a with None => inl (PolicyError w ScriptMissing) | Some fn => mret (scriptPolicy fn, false, a) end
  else if decide (ty = TypeLatency) then with_body w (Latency pc) (fun c => no_clock (at_ w (compileLatency c)) a)
  else if decide (ty = TypeStatusCode) then with_body w (StatusCode pc) (fun c => no_clock (at_ w (compileStatusCode c)) a)
  else if decide (ty = TypeStringAttribute) then
    with_body w (StringAttribute pc) (fun c => '(p, a) ← at_ w (compileStringAttribute c a); mret (p, false, a))
  else if decide (ty = TypeNumericAttribute) then
    with_body w (NumericAttribute pc) (fun c => no_clock (at_ w (compileNumericAttribute c)) a)
  else if decide (ty = TypeBooleanAttribute) then
    with_body w (BooleanAttribute pc) (fun c => no_clock (at_ w (compileBooleanAttribute c)) a)
  else if decide (ty = TypeProbabilistic) then
    with_body w (Probabilistic pc) (fun c => no_clock (at_ w (compileProbabilistic c)) a)
  else if decide (ty = TypeRateLimiting) then
    with_body w (RateLimiting pc) (fun c => '(p, a) ← at_ w (compileRateLimiting c a); mret (p, true, a))
  else if decide (ty = TypeAnd) then
    at_ w (refuse sub NestedPolicy);; with_body w (And pc) (fun c => compileAnd w c a)
  else
    at_ w (refuse sub NestedPolicy);; with_body w (Composite pc) (fun c => compileComposite (pc_name pc) w c a).

Fixpoint policies_from (i : nat) (sub : bool) (l : list PolicyConfig) (seen : gset bytes) (a : bucketAlloc) :
    error + (list namedPolicy * bool * bucketAlloc) :=
  match l with
  | [] => mret ([], false, a)
  | pc :: rest =>
      let w := mkWhere sub i (pc_name pc) in
      at_ w (refuse (bool_decide (pc_name pc = [])) NameRequired);;
      at_ w (refuse (bool_decide (pc_name pc = NoPolicyLabel)) NameReserved);;
      at_ w (refuse (bool_decide (47 ∈ pc_name pc)) NameSlash);;
      at_ w (refuse (bool_decide (pc_name pc ∈ seen)) NameDuplicate);;
      '(p, clock, a) ← compilePolicy pc w sub a;
      '(out, needClock, a) ← policies_from (S i) sub rest ({[pc_name pc]} ∪ seen) a;
      mret (mkNamed (pc_name pc) p :: out, clock || needClock, a)
  end.
End Policy.

(** A nested list has no nested lists: its own are refused before they are
    compiled. *)
Definition compileSubs (l : list PolicyConfig) (a : bucketAlloc) : error + (list namedPolicy * bool * bucketAlloc) :=
  policies_from (fun _ _ => inl NoPolicies) 0 true l ∅ a.

Definition compilePolicies (l : list PolicyConfig) (a : bucketAlloc) : error + (list namedPolicy * bool * bucketAlloc) :=
  policies_from compileSubs 0 false l ∅ a.

Definition alloc0 (fn : option (Trace -> bool * bool)) : bucketAlloc := mkAlloc 0 fn (mkWorld [] []).

Definition Validate (c : option Config) : error + unit :=
  match c with
  | Some c =>
      if Enabled (Some c) then _ ← compilePolicies (Policies c) (alloc0 (Some (fun _ => (false, true)))); mret tt else mret tt
  | None => mret tt
  end.

Definition New (cfg : Config) (clock : nat -> Z) : error + Evaluator :=
  match Policies cfg with
  | [] => inl NoPolicies
  | l =>
      '(ps, needClock, a) ← compilePolicies l (alloc0 (Script cfg));
      mret (mkEvaluator ps needClock (made a) clock 0)
  end.
End Compile.
