(* ===== verification/TailInv.v ===== *)
(** * Evaluating policies: what a decision reads and what it spends

    The buckets and caches a policy points to, the reference semantics without
    caches or remembered resources, and the two facts about [eval] everything
    else uses: it answers as the reference does, and it moves exactly the
    buckets it reports. *)

From S2P Require Import Prelude Clip Number Float Text Pdata TraceHash TailSample TailCompile.
Local Open Scope Z_scope.

Section Inv.
Context `{GoText} (Get : attrs -> bytes -> option Value) (Sum64Uint128 : Z -> Z -> Z).
Notation policy := (@policy _).
Notation namedPolicy := (@namedPolicy _).
Notation eval := (eval Get Sum64Uint128).

(** ** Induction on policies *)

Section Ind.
Context (P : policy -> Prop).
Context (HA : forall subs, Forall P subs -> P (andPolicy subs)).
Context (HC : forall subs, Forall (fun s => P (cs_p s)) subs -> P (compositePolicy subs)).
Context (HL : forall p, match p with andPolicy _ | compositePolicy _ => True | _ => P p end).

Fixpoint policy_rect' (p : policy) : P p :=
  match p return P p with
  | andPolicy subs =>
      HA subs ((fix go l : Forall P l :=
                  match l with [] => Forall_nil_2 _ | x :: l => Forall_cons_2 _ _ _ (policy_rect' x) (go l) end) subs)
  | compositePolicy subs =>
      HC subs ((fix go l : Forall (fun s => P (cs_p s)) l :=
                  match l with [] => Forall_nil_2 _ | x :: l => Forall_cons_2 _ _ _ (policy_rect' (cs_p x)) (go l) end) subs)
  | p => HL p
  end.
End Ind.

(** ** Pointers *)

(** A bucket's bit is its position, the last bit being shared past the width. *)
Definition bit_index (i : nat) : Z := Z.min 63 (Z.of_nat i).
Definition bit_of (i : nat) : Z := Z.shiftl 1 (bit_index i).

Fixpoint bucket_ids (p : policy) : list (nat * Z) :=
  match p with
  | ratePolicy b bit => [(b, bit)]
  | andPolicy subs => concat (map bucket_ids subs)
  | compositePolicy subs => concat (map (fun s => bucket_ids (cs_p s) ++ [(cs_b s, cs_bit s)]) subs)
  | _ => []
  end.

Fixpoint cache_ids (p : policy) : list (nat * list Regexp) :=
  match p with
  | stringAttrPolicy _ None res c _ => [(c, res)]
  | andPolicy subs => concat (map cache_ids subs)
  | compositePolicy subs => concat (map (fun s => cache_ids (cs_p s)) subs)
  | _ => []
  end.

(** What a cache may hold: answers of the expressions it belongs to, no more
    entries than its bound, no key past the length bound. *)
Definition matches (res : list Regexp) (s : bytes) : bool := existsb (fun re => MatchString re s) res.

Record cache_ok (res : list Regexp) (c : regexCache) : Prop := {
  co_sound : forall s v, rc_m c !! s = Some v -> v = matches res s;
  co_bound : Z.of_nat (size (rc_m c)) <= rc_max c;
  co_keys : forall s, is_Some (rc_m c !! s) -> Z.of_nat (length s) <= maxRegexCacheKeyBytes;
  co_max : 1 <= rc_max c }.

Definition caches_ok (ids : list (nat * list Regexp)) (w : world) : Prop :=
  forall i res, (i, res) ∈ ids -> exists c, caches w !! i = Some c /\ cache_ok res c.

Lemma rc_put_ok res s c : cache_ok res c -> cache_ok res (rc_put s (matches res s) c).
Proof.
  intros [Hs Hb Hk Hm]. unfold rc_put. case_match eqn:E; [done|]. apply Z.ltb_ge in E.
  assert (G : forall m : gmap bytes bool, (forall s v, m !! s = Some v -> v = matches res s) ->
    (forall s, is_Some (m !! s) -> Z.of_nat (length s) <= maxRegexCacheKeyBytes) ->
    Z.of_nat (size m) + 1 <= rc_max c -> cache_ok res (mkRegexCache (rc_max c) (<[s := matches res s]> m))).
  { intros m G1 G2 G3. split; cbn [rc_m rc_max]; [| | |done].
    - intros s' v. destruct (decide (s = s')) as [<-|]; [rewrite lookup_insert_eq; congruence|rewrite lookup_insert_ne by done; auto].
    - rewrite map_size_insert. unfold id. case_match; lia.
    - intros s'. destruct (decide (s = s')) as [<-|]; [done|]. rewrite lookup_insert_ne by done. apply G2. }
  destruct (rc_max c <=? Z.of_nat (size (rc_m c))) eqn:E2; bool_norm; apply G; auto; try lia.
  - intros ??. by rewrite lookup_empty.
  - intros ?. rewrite lookup_empty. by intros [].
Qed.

(** ** The reference *)

(** What a span says about a key: its own value, or its resource's. *)
Definition span_value (s : TSpan) (key : bytes) : option Value :=
  match Get (sp_attrs (t_span s)) key with
  | Some v => Some v
  | None => t_res s ≫= fun r => Get r.2 key
  end.

Definition some_span (test : Value -> bool) (t : Trace) (key : bytes) : bool :=
  existsb (fun s => match span_value s key with Some v => test v | None => false end) (t_spans t).

Definition str_test (exact : option (gset bytes)) (res : list Regexp) (v : Value) : bool :=
  match v with VStr s => match exact with Some e => bool_decide (s ∈ e) | None => matches res s end | _ => false end.
Definition num_test (min max : Z) (minF maxF : float64) (v : Value) : bool :=
  match v with VInt n => (min <=? n) && (n <=? max) | VDouble d => float_le minF d && float_le d maxF | _ => false end.
Definition bool_test (want : bool) (v : Value) : bool := match v with VBool b => eqb b want | _ => false end.

(** The reference: attribute policies look at every span, nothing is cached;
    only buckets have a state. *)
Fixpoint ref_eval (p : policy) (t : Trace) (now : Z) (w : world) {struct p} : outcome * world :=
  match p with
  | stringAttrPolicy key exact res _ invert =>
      (if negb (some_span (str_test exact res) t key) then (Abstain, [], 0)
       else if invert then (Veto, [], 0) else (Sample, [], 0), w)
  | numericPolicy key min max minF maxF => (sample_if (some_span (num_test min max minF maxF) t key), w)
  | boolPolicy key want => (sample_if (some_span (bool_test want) t key), w)
  | andPolicy subs => and_loop (fun p w => ref_eval p t now w) subs 0 w
  | compositePolicy subs => composite_loop (fun p w => ref_eval p t now w) t now subs 0 w
  | _ => eval p t now w
  end.

(** Equal handles are the same map. *)
Definition coherent (t : Trace) : Prop :=
  forall s1 s2 h m1 m2, s1 ∈ t_spans t -> s2 ∈ t_spans t -> t_res s1 = Some (h, m1) -> t_res s2 = Some (h, m2) -> m1 = m2.

(** ** Attribute policies look at every span *)

Section Matching.
Context {S : Type} (matchValue : Value -> S -> bool * S) (test : Value -> bool) (I : S -> Prop).
Context (Hmatch : forall v s, I s -> (matchValue v s).1 = test v /\ I (matchValue v s).2).

Lemma any_from_ref spans key noMatch s :
  I s ->
  (forall s1 s2 h m1 m2, s1 ∈ spans -> s2 ∈ spans -> t_res s1 = Some (h, m1) -> t_res s2 = Some (h, m2) -> m1 = m2) ->
  (forall h, noMatch = Some h -> forall sp, sp ∈ spans -> fst <$> t_res sp = h ->
     match t_res sp ≫= fun r => Get r.2 key with Some v => test v | None => false end = false) ->
  (any_from Get matchValue spans key noMatch s).1 =
    existsb (fun s => match span_value s key with Some v => test v | None => false end) spans /\
  I (any_from Get matchValue spans key noMatch s).2.
Proof.
  revert noMatch s. induction spans as [|sp rest IH]; intros noMatch s HI Hc Hn; cbn [any_from existsb]; [done|].
  assert (Hc' : forall s1 s2 h m1 m2, s1 ∈ rest -> s2 ∈ rest -> t_res s1 = Some (h, m1) -> t_res s2 = Some (h, m2) -> m1 = m2)
    by (intros s1 s2 h m1 m2 H1 H2; apply (Hc s1 s2 h); by apply list_elem_of_further).
  assert (Hn' : forall h, noMatch = Some h -> forall sp, sp ∈ rest -> fst <$> t_res sp = h ->
     match t_res sp ≫= fun r => Get r.2 key with Some v => test v | None => false end = false)
    by (intros h Hh sp' Hsp; apply (Hn h Hh sp'); by apply list_elem_of_further).
  unfold span_value at 1. destruct (Get (sp_attrs (t_span sp)) key) as [v|].
  { destruct (Hmatch v s HI) as [Hv HI']. destruct (matchValue v s) as [m s']. cbn [fst snd] in *. subst m.
    destruct (test v); cbn [orb]; auto. }
  case_decide as Hh.
  { rewrite (Hn _ Hh sp (list_elem_of_here _ _) eq_refl). cbn [orb]. auto. }
  assert (Hr : (resourceMatches Get matchValue (t_res sp) key s).1 =
      match t_res sp ≫= fun r => Get r.2 key with Some v => test v | None => false end /\
      I (resourceMatches Get matchValue (t_res sp) key s).2).
  { unfold resourceMatches. destruct (t_res sp) as [[h m]|]; cbn [mbind option_bind snd]; [|done]. destruct (Get m key); auto. }
  destruct Hr as [Hr HI']. destruct (resourceMatches Get matchValue (t_res sp) key s) as [m s']. cbn [fst snd] in *. subst m.
  destruct (match t_res sp ≫= fun r => Get r.2 key with Some v => test v | None => false end) eqn:Et; cbn [orb]; [done|].
  apply IH; [done|done|]. intros h [= <-] sp' Hsp' Hh'.
  destruct (t_res sp) as [[h m]|] eqn:E1, (t_res sp') as [[h' m']|] eqn:E2; cbn in Hh'; try done.
  injection Hh' as ->. by rewrite <- (Hc sp sp' h m m' (list_elem_of_here _ _) (list_elem_of_further _ _ _ Hsp') E1 E2).
Qed.

Lemma anySpanMatches_ref t key s : I s -> coherent t ->
  (anySpanMatches Get matchValue t key s).1 = some_span test t key /\ I (anySpanMatches Get matchValue t key s).2.
Proof. intros HI Hc. apply any_from_ref; [done|exact Hc|done]. Qed.
End Matching.

(** ** Evaluation answers as the reference does *)

Definition same_buckets (ids : list (nat * list Regexp)) (w w' : world) : Prop := buckets w = buckets w' /\ caches_ok ids w.

Lemma charge_same ids b bit n now already w w' : same_buckets ids w w' ->
  (charge b bit n now already w).1 = (charge b bit n now already w').1 /\
  same_buckets ids (charge b bit n now already w).2 (charge b bit n now already w').2.
Proof.
  intros [Hb Hc]. unfold charge. rewrite <- Hb. destruct (buckets w !! b) as [bk|]; [|done].
  case_match; [|done]. destruct (AdmitDebt n now bk) as [bk' []]; cbn; done.
Qed.

Lemma string_match_same ids exact res cache s w :
  NoDup ids.*1 -> (exact = None -> (cache, res) ∈ ids) -> caches_ok ids w ->
  (string_match exact res cache s w).1 = match exact with Some e => bool_decide (s ∈ e) | None => matches res s end /\
  caches_ok ids (string_match exact res cache s w).2 /\ buckets (string_match exact res cache s w).2 = buckets w.
Proof.
  intros Hnd Hin Hc. unfold string_match. destruct exact as [e|]; [done|]. specialize (Hin eq_refl).
  destruct (Hc _ _ Hin) as (c & Hcc & Hok). rewrite Hcc. cbn [mbind option_bind].
  destruct (rc_get s c) as [v|] eqn:E; [split; [by apply (co_sound res c Hok)|done]|].
  split; [done|]. split; [|done]. cbn [snd]. intros i res' Hi. cbn [set_caches caches].
  destruct (decide (cache = i)) as [<-|Hne].
  - assert (res' = res) as ->.
    { apply list_elem_of_lookup in Hin as [j Hj], Hi as [k Hk].
      assert (j = k) as ->.
      { eapply NoDup_lookup; [exact Hnd| |]; rewrite list_lookup_fmap; [rewrite Hj|rewrite Hk]; done. }
      congruence. }
    rewrite list_lookup_alter_eq, Hcc. cbn. eexists. split; [done|]. by apply rc_put_ok.
  - rewrite list_lookup_alter_ne by done. by apply Hc.
Qed.

Lemma same_intro {A} ids (o o' : A) (w w' x : world) : o = o' -> buckets w = buckets x -> buckets x = buckets w' -> caches_ok ids w ->
  o = o' /\ same_buckets ids w w'.
Proof. intros. repeat split; [done|congruence|done]. Qed.

Section Loops.
Context (ids : list (nat * list Regexp)) (ev ev' : policy -> world -> outcome * world).
Definition agree (p : policy) : Prop := forall w w', same_buckets ids w w' ->
  (ev p w).1 = (ev' p w').1 /\ same_buckets ids (ev p w).2 (ev' p w').2.

Lemma and_loop_same subs : Forall agree subs -> forall spent w w', same_buckets ids w w' ->
  (and_loop ev subs spent w).1 = (and_loop ev' subs spent w').1 /\
  same_buckets ids (and_loop ev subs spent w).2 (and_loop ev' subs spent w').2.
Proof.
  induction 1 as [|p rest Hp _ IH]; intros spent w w' Hw; cbn [and_loop]; [done|].
  destruct (Hp w w' Hw) as [E Hw']. destruct (ev p w) as [[[v sub] s] x], (ev' p w') as [[[v' sub'] s'] x'].
  cbn [fst snd] in E, Hw'. injection E as <- <- <-. destruct v; auto.
Qed.

Lemma composite_loop_same t now subs : Forall (fun s => agree (cs_p s)) subs -> forall spent w w', same_buckets ids w w' ->
  (composite_loop ev t now subs spent w).1 = (composite_loop ev' t now subs spent w').1 /\
  same_buckets ids (composite_loop ev t now subs spent w).2 (composite_loop ev' t now subs spent w').2.
Proof.
  induction 1 as [|[name p b bit] rest Hp _ IH]; intros spent w w' Hw; cbn [composite_loop]; [done|]. cbn [cs_p] in Hp.
  destruct (Hp w w' Hw) as [E Hw']. destruct (ev p w) as [[[v sub] s] x], (ev' p w') as [[[v' sub'] s'] x'].
  cbn [fst snd] in E, Hw'. injection E as <- <- <-. destruct v; auto.
  destruct (charge_same ids b bit (span_count t) now (t_charged t) x x' Hw') as [E Hw2].
  destruct (charge b bit (span_count t) now (t_charged t) x) as [[ad s1] y], (charge b bit (span_count t) now (t_charged t) x') as [[ad' s1'] y'].
  cbn [fst snd] in E, Hw2. injection E as <- <-. destruct ad; auto.
Qed.
End Loops.

Lemma eval_ref ids t now p : NoDup ids.*1 -> coherent t -> cache_ids p ⊆ ids ->
  agree ids (fun p w => eval p t now w) (fun p w => ref_eval p t now w) p.
Proof.
  intros Hnd Hco. revert p. refine (policy_rect' _ _ _ _); [intros subs IH|intros subs IH|intros p].
  - cbn [cache_ids]. intros Hin w w' Hw. cbn [TailSample.eval ref_eval]. apply and_loop_same; [|done].
    apply Forall_forall. intros p Hp. rewrite Forall_forall in IH. apply IH; [done|].
    intros x Hx. apply Hin. apply list_elem_of_In, in_concat. exists (cache_ids p).
    split; [apply in_map, list_elem_of_In, Hp|by apply list_elem_of_In].
  - cbn [cache_ids]. intros Hin w w' Hw. cbn [TailSample.eval ref_eval]. apply composite_loop_same; [|done].
    apply Forall_forall. intros s Hs. rewrite Forall_forall in IH. apply IH; [done|].
    intros x Hx. apply Hin. apply list_elem_of_In, in_concat. exists (cache_ids (cs_p s)).
    split; [apply (in_map (fun s => cache_ids (cs_p s))), list_elem_of_In, Hs|by apply list_elem_of_In].
  - destruct p as [| | |key exact res c inv|key mn mx mnF mxF|key want| |b bit|fn| |]; try done.
    all: intros Hin w w' [Hb Hc]; cbn [TailSample.eval ref_eval].
    all: try (by apply same_intro with w).
    + pose proof (anySpanMatches_ref (string_value exact res c) (str_test exact res)
        (fun x => caches_ok ids x /\ buckets x = buckets w)) as G.
      specialize (G ltac:(intros v x [Hx1 Hx2]; destruct v; cbn; try done;
        destruct (string_match_same ids exact res c s x Hnd) as (G1 & G2 & G3); [intros ->; apply Hin; set_solver|done|];
        split; [by rewrite G1; destruct exact|split; [done|congruence]]) t key w (conj Hc eq_refl) Hco).
      destruct G as [G1 [G2 G3]].
      destruct (anySpanMatches Get (string_value exact res c) t key w) as [m x]. cbn [fst snd] in G1, G2, G3 |- *. subst m.
      by apply same_intro with w.
    + pose proof (anySpanMatches_ref (numeric_value mn mx mnF mxF) (num_test mn mx mnF mxF)
        (fun x => x = w) ltac:(by intros v x ->) t key w eq_refl Hco) as [G1 G2].
      destruct (anySpanMatches Get (numeric_value mn mx mnF mxF) t key w) as [m x]. cbn [fst snd] in G1, G2 |- *. subst.
      by apply same_intro with w.
    + pose proof (anySpanMatches_ref (bool_value want) (bool_test want)
        (fun x => x = w) ltac:(by intros v x ->) t key w eq_refl Hco) as [G1 G2].
      destruct (anySpanMatches Get (bool_value want) t key w) as [m x]. cbn [fst snd] in G1, G2 |- *. subst.
      by apply same_intro with w.
    + destruct (charge_same ids b bit (span_count t) now (t_charged t) w w' (conj Hb Hc)) as [E Hw].
      destruct (charge b bit (span_count t) now (t_charged t) w) as [[ad s] x], (charge b bit (span_count t) now (t_charged t) w') as [[ad' s'] x'].
      cbn [fst snd] in E, Hw |- *. injection E as <- <-. done.
    + destruct (fn t) as [sm ab]. by apply same_intro with w.
Qed.
End Inv.

(** * What a decision spends ([charge], and the evaluation order of [policy.go])

    Evaluating a policy moves the buckets it points to and no other; the mask it
    returns names exactly the buckets that paid, and a bucket the trace has paid
    before is left as it was. *)


Definition mask (spent : list nat) : Z := foldr (fun i m => Z.lor (bit_of i) m) 0 spent.

Lemma bit_of_testbit i k : 0 <= k -> Z.testbit (bit_of i) k = bool_decide (bit_index i = k).
Proof.
  intros Hk. unfold bit_of. rewrite Z.shiftl_1_l. unfold bit_index.
  rewrite Z.pow2_bits_eqb by lia. apply eq_true_iff_eq. by rewrite Z.eqb_eq, bool_decide_eq_true.
Qed.

Lemma bit_of_land_zero c i : Z.land c (bit_of i) =? 0 = negb (Z.testbit c (bit_index i)).
Proof.
  assert (E : Z.testbit (bit_of i) (bit_index i) = true) by (rewrite bit_of_testbit by (unfold bit_index; lia); by apply bool_decide_eq_true).
  destruct (Z.testbit c (bit_index i)) eqn:Ec; cbn.
  - apply Z.eqb_neq. intros E0. apply (f_equal (fun x => Z.testbit x (bit_index i))) in E0.
    rewrite Z.land_spec, Ec, E, Z.bits_0 in E0. done.
  - apply Z.eqb_eq. apply Z.bits_inj'. intros k Hk. rewrite Z.land_spec, Z.bits_0, bit_of_testbit by done.
    destruct (bool_decide _) eqn:Eb; [|apply andb_false_r]. apply bool_decide_eq_true in Eb as <-. by rewrite Ec.
Qed.

Lemma mask_testbit spent k : 0 <= k -> Z.testbit (mask spent) k = true <-> exists i, i ∈ spent /\ bit_index i = k.
Proof.
  intros Hk. induction spent as [|i l IH]; cbn [mask foldr].
  - rewrite Z.bits_0. split; [done|]. intros (i & Hi & _). set_solver.
  - rewrite Z.lor_spec, orb_true_iff, bit_of_testbit, bool_decide_eq_true by done. fold (mask l). rewrite IH.
    setoid_rewrite elem_of_cons. naive_solver.
Qed.

Lemma mask_app l1 l2 : mask (l1 ++ l2) = Z.lor (mask l1) (mask l2).
Proof. induction l1 as [|i l IH]; cbn [mask foldr app]; [by rewrite Z.lor_0_l|]. fold (mask (l ++ l2)) (mask l). by rewrite IH, Z.lor_assoc. Qed.

Section Spend.
Context `{GoText} (Get : attrs -> bytes -> option Value) (Sum64Uint128 : Z -> Z -> Z).
Context (t : Trace) (now : Z).
Notation policy := (@policy _).
Notation namedPolicy := (@namedPolicy _).
Notation eval := (eval Get Sum64Uint128).

(** The trace was billed to this bucket by an earlier decision. *)
Definition paid (i : nat) : bool := Z.testbit (t_charged t) (bit_index i).

(** What one evaluation does to one bucket: pay, be refused, or nothing. *)
Inductive moved (i : nat) (b : Bucket) : bool -> Bucket -> Prop :=
| moved_paid : paid i = false -> Peek (span_count t) now b = true ->
    moved i b true (debit (span_count t) (refillLocked now b))
| moved_refused : paid i = false -> Peek (span_count t) now b = false -> moved i b false (refillLocked now b)
| moved_not : moved i b false b.

(** From [w] to [w'] only buckets of [ids] moved, and those of [spent] paid. *)
Record moves (ids spent : list nat) (w w' : world) : Prop := {
  mv_len : length (buckets w') = length (buckets w);
  mv_sub : spent ⊆ ids;
  mv_one : forall i b, buckets w !! i = Some b ->
    exists b', buckets w' !! i = Some b' /\ moved i b (bool_decide (i ∈ spent)) b' /\ (i ∉ ids -> b' = b) }.

(** ** Composition *)

Lemma moves_refl ids w : moves ids [] w w.
Proof. split; [done|set_solver|]. intros i b Hb. exists b. split; [done|]. split; [apply moved_not|done]. Qed.

Lemma moves_weaken ids ids' spent w w' : ids ⊆ ids' -> moves ids spent w w' -> moves ids' spent w w'.
Proof.
  intros Hs [Hl Hsub Ho]. split; [done|set_solver|]. intros i b Hb. destruct (Ho i b Hb) as (b' & H1 & H2 & H3).
  exists b'. split; [done|]. split; [done|]. set_solver.
Qed.

Lemma moves_trans ids1 ids2 s1 s2 w w1 w2 : ids1 ## ids2 ->
  moves ids1 s1 w w1 -> moves ids2 s2 w1 w2 -> moves (ids1 ++ ids2) (s1 ++ s2) w w2.
Proof.
  intros Hd [Hl1 Hs1 Ho1] [Hl2 Hs2 Ho2]. split; [lia|set_solver|]. intros i b Hb.
  destruct (Ho1 i b Hb) as (b1 & Hb1 & Hm1 & Hu1). destruct (Ho2 i b1 Hb1) as (b2 & Hb2 & Hm2 & Hu2).
  exists b2. split; [done|]. destruct (decide (i ∈ ids1)) as [Hi|Hi].
  - assert (i ∉ ids2) by set_solver. rewrite (Hu2 ltac:(done)). split; [|set_solver].
    replace (bool_decide (i ∈ s1 ++ s2)) with (bool_decide (i ∈ s1)); [done|]. apply bool_decide_ext. set_solver.
  - rewrite (Hu1 Hi) in *. split; [|set_solver].
    replace (bool_decide (i ∈ s1 ++ s2)) with (bool_decide (i ∈ s2)); [done|]. apply bool_decide_ext. set_solver.
Qed.

(** Buckets are where they are said to be, each with its own bit. *)
Definition ids_ok (ids : list (nat * Z)) : Prop := NoDup ids.*1 /\ forall b bit, (b, bit) ∈ ids -> bit = bit_of b.

Lemma ids_ok_app l1 l2 : ids_ok (l1 ++ l2) -> ids_ok l1 /\ ids_ok l2 /\ l1.*1 ## l2.*1.
Proof.
  intros [Hn Hb]. rewrite fmap_app in Hn. apply NoDup_app in Hn as (H1 & H2 & H3).
  split_and!; [split; [done|]; intros; apply Hb, elem_of_app; auto|split; [done|]; intros; apply Hb, elem_of_app; auto|].
  intros i Hi Hj. exact (H2 i Hi Hj).
Qed.

Lemma charge_moves b w : exists spent,
  (charge b (bit_of b) (span_count t) now (t_charged t) w).1.2 = mask spent /\
  moves [b] spent w (charge b (bit_of b) (span_count t) now (t_charged t) w).2.
Proof.
  unfold charge. destruct (buckets w !! b) as [bk|] eqn:Eb; [|exists []; split; [done|apply moves_refl]].
  rewrite bit_of_land_zero. fold (paid b). destruct (paid b) eqn:Ep; cbn [negb]; [exists []; split; [done|apply moves_refl]|].
  rewrite AdmitDebt_eq.
  assert (G : forall spent bk', moved b bk (bool_decide (b ∈ spent)) bk' -> spent ⊆ [b] ->
    moves [b] spent w (set_buckets (<[b := bk']> (buckets w)) w)).
  { intros spent bk' Hm Hs. split; cbn [set_buckets buckets]; [by rewrite length_insert|done|].
    intros i b0 Hi. destruct (decide (b = i)) as [<-|Hne].
    - rewrite list_lookup_insert_eq by (by eapply lookup_lt_Some). rewrite Eb in Hi. injection Hi as <-.
      eexists. split; [done|]. split; [done|set_solver].
    - rewrite list_lookup_insert_ne by done. exists b0. split; [done|]. split; [|done].
      rewrite bool_decide_eq_false_2 by set_solver. apply moved_not. }
  destruct (Peek (span_count t) now bk) eqn:Ek; cbn [fst snd].
  - exists [b]. split; [cbn; by rewrite Z.lor_0_r|]. apply G; [|done]. rewrite bool_decide_eq_true_2 by set_solver. by apply moved_paid.
  - exists []. split; [done|]. apply G; [|set_solver]. rewrite bool_decide_eq_false_2 by set_solver. by apply moved_refused.
Qed.

Lemma disj_app {A} (a b c : list A) : a ## b ++ c -> b ## c -> a ## b /\ (a ++ b) ## c.
Proof. set_solver. Qed.

(** ** Policies *)

(** The evaluation [ev] of something pointing to [ids]. *)
Definition spends (ids : list nat) (r : world -> outcome * world) : Prop :=
  forall w, exists spent, (r w).1.2 = mask spent /\ moves ids spent w (r w).2.

Lemma and_loop_spends ev subs : Forall (fun p => ids_ok (bucket_ids p) -> spends (bucket_ids p).*1 (ev p)) subs ->
  ids_ok (concat (map bucket_ids subs)) -> forall w spent0 ids0 w0,
  ids0 ## (concat (map bucket_ids subs)).*1 -> moves ids0 spent0 w0 w ->
  exists spent, (and_loop ev subs (mask spent0) w).1.2 = mask spent /\
    moves (ids0 ++ (concat (map bucket_ids subs)).*1) spent w0 (and_loop ev subs (mask spent0) w).2.
Proof.
  induction 1 as [|p rest Hp _ IH]; cbn [map concat and_loop]; intros Hok w spent0 ids0 w0 Hd Hm.
  - exists spent0. split; [done|]. by rewrite app_nil_r.
  - apply ids_ok_app in Hok as (Hok1 & Hok2 & Hdd). rewrite fmap_app in *. destruct (Hp Hok1 w) as (s1 & E & Hm1).
    destruct (ev p w) as [[[v sub] s] w1]. cbn [fst snd] in E, Hm1. subst s. rewrite <- mask_app.
    destruct (disj_app _ _ _ Hd Hdd) as [Hd1 Hd2].
    assert (Hm2 : moves (ids0 ++ (bucket_ids p).*1) (spent0 ++ s1) w0 w1) by by apply moves_trans with w.
    destruct v; cbn [fst snd].
    + eexists. split; [done|]. eapply moves_weaken; [|done]. set_solver.
    + rewrite app_assoc. by apply IH.
    + eexists. split; [done|]. eapply moves_weaken; [|done]. set_solver.
Qed.

Notation sub_ids := (fun s : compositeSub policy => bucket_ids (cs_p s) ++ [(cs_b s, cs_bit s)]).

Lemma composite_loop_spends ev subs : Forall (fun s => ids_ok (bucket_ids (cs_p s)) -> spends (bucket_ids (cs_p s)).*1 (ev (cs_p s))) subs ->
  ids_ok (concat (map sub_ids subs)) -> forall w spent0 ids0 w0,
  ids0 ## (concat (map sub_ids subs)).*1 -> moves ids0 spent0 w0 w ->
  exists spent, (composite_loop ev t now subs (mask spent0) w).1.2 = mask spent /\
    moves (ids0 ++ (concat (map sub_ids subs)).*1) spent w0 (composite_loop ev t now subs (mask spent0) w).2.
Proof.
  induction 1 as [|[name p b bit] rest Hp _ IH]; cbn [map concat composite_loop]; intros Hok w spent0 ids0 w0 Hd Hm.
  - exists spent0. split; [done|]. by rewrite app_nil_r.
  - cbn [cs_p cs_b cs_bit] in *. apply ids_ok_app in Hok as (Hok1 & Hok2 & Hdd).
    apply ids_ok_app in Hok1 as (Hok1 & Hokb & Hdb). rewrite !fmap_app in *. cbn [fmap list_fmap fst] in *.
    destruct (Hp Hok1 w) as (s1 & E & Hm1).
    destruct (ev p w) as [[[v sub] s] w1]. cbn [fst snd] in E, Hm1. subst s. rewrite <- mask_app.
    destruct (disj_app _ _ _ Hd Hdd) as [Hd1 Hd2]. destruct (disj_app _ _ _ Hd1 Hdb) as [Hd3 Hd4]. rewrite app_assoc in Hd2.
    assert (Hm2 : moves (ids0 ++ (bucket_ids p).*1) (spent0 ++ s1) w0 w1) by by apply moves_trans with w.
    destruct v; cbn [fst snd].
    + assert (Hm3 : moves ((ids0 ++ (bucket_ids p).*1) ++ [b]) (spent0 ++ s1) w0 w1) by (eapply moves_weaken; [|done]; set_solver).
      rewrite !app_assoc. by apply IH.
    + destruct Hokb as [_ Hbit]. rewrite (Hbit b bit) by set_solver. destruct (charge_moves b w1) as (s2 & E & Hmc).
      destruct (charge b (bit_of b) (span_count t) now (t_charged t) w1) as [[ad s] w2]. cbn [fst snd] in E, Hmc. subst s. rewrite <- mask_app.
      assert (Hm3 : moves ((ids0 ++ (bucket_ids p).*1) ++ [b]) ((spent0 ++ s1) ++ s2) w0 w2) by by apply moves_trans with w1.
      destruct ad; cbn [fst snd].
      * eexists. split; [done|]. eapply moves_weaken; [|done]. set_solver.
      * rewrite !app_assoc. by apply IH.
    + eexists. split; [done|]. eapply moves_weaken; [|done]. set_solver.
Qed.

Lemma moves_same ids w w' : buckets w' = buckets w -> moves ids [] w w'.
Proof. intros E. split; [by rewrite E|set_solver|]. intros i b Hb. exists b. rewrite E. split; [done|]. split; [apply moved_not|done]. Qed.

Lemma any_from_buckets mv spans key noMatch w : (forall v w, buckets (mv v w).2 = buckets w) ->
  buckets (any_from Get mv spans key noMatch w).2 = buckets w.
Proof.
  intros Hmv. revert noMatch w. induction spans as [|sp rest IH]; intros noMatch w; cbn [any_from]; [done|].
  destruct (Get (sp_attrs (t_span sp)) key) as [v|].
  { pose proof (Hmv v w). destruct (mv v w) as [[] x]; cbn [snd] in *; [done|]. by rewrite IH. }
  case_decide; [done|].
  assert (E : buckets (resourceMatches Get mv (t_res sp) key w).2 = buckets w).
  { unfold resourceMatches. destruct (t_res sp) as [[h m]|]; [|done]. by destruct (Get m key). }
  destruct (resourceMatches Get mv (t_res sp) key w) as [[] x]; cbn [snd] in *; [done|]. by rewrite IH.
Qed.

Lemma string_value_buckets exact res c v w : buckets (string_value exact res c v w).2 = buckets w.
Proof. destruct v; cbn; try done. unfold string_match. destruct exact; [done|]. by destruct (_ ≫= _). Qed.

Lemma eval_spends p : ids_ok (bucket_ids p) -> spends (bucket_ids p).*1 (fun w => eval p t now w).
Proof.
  revert p. refine (policy_rect' _ _ _ _); [intros subs IH Hok w|intros subs IH Hok w|intros p].
  - cbn [bucket_ids TailSample.eval] in *. apply (and_loop_spends _ _ IH Hok w [] [] w); [set_solver|apply moves_refl].
  - cbn [bucket_ids TailSample.eval] in *. apply (composite_loop_spends (fun p w => eval p t now w) _ IH Hok w [] [] w); [set_solver|apply moves_refl].
  - destruct p as [| | |key exact res c inv|key mn mx mnF mxF|key want| |b bit|fn| |]; try done; intros Hok w; cbn [bucket_ids TailSample.eval].
    all: try (by exists []; split; [|apply moves_same]; cbn; repeat case_match).
    + pose proof (any_from_buckets (string_value exact res c) (t_spans t) key None w (string_value_buckets exact res c)) as E.
      unfold anySpanMatches. destruct (any_from Get (string_value exact res c) (t_spans t) key None w) as [m x].
      exists []. split; [by cbn; repeat case_match|by apply moves_same].
    + pose proof (any_from_buckets (numeric_value mn mx mnF mxF) (t_spans t) key None w ltac:(done)) as E.
      unfold anySpanMatches. destruct (any_from Get (numeric_value mn mx mnF mxF) (t_spans t) key None w) as [m x].
      exists []. split; [done|by apply moves_same].
    + pose proof (any_from_buckets (bool_value want) (t_spans t) key None w ltac:(done)) as E.
      unfold anySpanMatches. destruct (any_from Get (bool_value want) (t_spans t) key None w) as [m x].
      exists []. split; [done|by apply moves_same].
    + cbn [bucket_ids fmap list_fmap fst] in *. destruct Hok as [_ Hbit]. rewrite (Hbit b bit) by set_solver.
      destruct (charge_moves b w) as (spent & E & Hm).
      destruct (charge b (bit_of b) (span_count t) now (t_charged t) w) as [[ad s] x]. cbn [fst snd] in *. by exists spent.
Qed.

Definition ps_ids (ps : list namedPolicy) : list (nat * Z) := concat (map (fun p => bucket_ids (np_p p)) ps).

Lemma decide_from_spends ps : ids_ok (ps_ids ps) -> forall w spent0 ids0 w0,
  ids0 ## (ps_ids ps).*1 -> moves ids0 spent0 w0 w ->
  exists spent, d_charged (decide_from Get Sum64Uint128 ps t now (mask spent0) w).1 = mask spent /\
    moves (ids0 ++ (ps_ids ps).*1) spent w0 (decide_from Get Sum64Uint128 ps t now (mask spent0) w).2.
Proof.
  induction ps as [|p rest IH]; cbn [ps_ids map concat decide_from]; intros Hok w spent0 ids0 w0 Hd Hm.
  - exists spent0. split; [done|]. by rewrite app_nil_r.
  - apply ids_ok_app in Hok as (Hok1 & Hok2 & Hdd). rewrite fmap_app in *. destruct (eval_spends _ Hok1 w) as (s1 & E & Hm1).
    destruct (eval (np_p p) t now w) as [[[v sub] s] w1]. cbn [fst snd] in E, Hm1. subst s. rewrite <- mask_app.
    destruct (disj_app _ _ _ Hd Hdd) as [Hd1 Hd2].
    assert (Hm2 : moves (ids0 ++ (bucket_ids (np_p p)).*1) (spent0 ++ s1) w0 w1) by by apply moves_trans with w.
    destruct v; cbn [fst snd d_charged].
    + rewrite app_assoc. by apply IH.
    + eexists. split; [done|]. eapply moves_weaken; [|done]. set_solver.
    + eexists. split; [done|]. eapply moves_weaken; [|done]. set_solver.
Qed.
End Spend.

(** * What compilation hands out ([internal/agent/tailsample/policy.go])

    A compiled list points to buckets and caches of its own, every bucket has
    the bit of its position, the names are distinct, and a list that needs no
    clock has no bucket.  From that follows the invariant of an evaluator that
    [New] made and [Decide] used. *)


Section CompileInv.
Context `{GoText}.
Notation policy := (@policy _).
Notation namedPolicy := (@namedPolicy _).

Definition ps_caches (ps : list namedPolicy) : list (nat * list Regexp) := concat (map (fun p => cache_ids (np_p p)) ps).

Record alloc_ok (a : bucketAlloc) : Prop := {
  ao_bits : bits a = length (buckets (made a));
  ao_fresh : forall i c, caches (made a) !! i = Some c -> 1 <= rc_max c /\ rc_m c = ∅ }.

(** Compiling turned [a] into [a'] and pointed to [bs] and [cs], all new. *)
Record grown (a a' : bucketAlloc) (bs : list (nat * Z)) (cs : list (nat * list Regexp)) : Prop := {
  gr_ok : alloc_ok a';
  gr_script : script a' = script a;
  gr_bits : (bits a <= bits a')%nat;
  gr_caches : (length (caches (made a)) <= length (caches (made a')))%nat;
  gr_ids : ids_ok bs;
  gr_range : forall b, b ∈ bs.*1 -> (bits a <= b < bits a')%nat;
  gr_cids : NoDup cs.*1;
  gr_crange : forall c, c ∈ cs.*1 -> (length (caches (made a)) <= c < length (caches (made a')))%nat }.

Lemma grown_refl a : alloc_ok a -> grown a a [] [].
Proof.
  intros Hok. constructor; try done.
  - split; [apply NoDup_nil_2|]. by intros ?? ?%not_elem_of_nil.
  - by intros ? ?%not_elem_of_nil.
  - apply NoDup_nil_2.
  - by intros ? ?%not_elem_of_nil.
Qed.

Lemma NoDup_fst_app {A B} (l1 l2 : list (A * B)) : NoDup l1.*1 -> NoDup l2.*1 -> (forall x, x ∈ l1.*1 -> x ∈ l2.*1 -> False) ->
  NoDup (l1 ++ l2).*1.
Proof. intros H1 H2 H3. rewrite fmap_app. apply NoDup_app. split_and!; [done|exact H3|done]. Qed.

Lemma grown_trans a a1 a2 b1 b2 c1 c2 : grown a a1 b1 c1 -> grown a1 a2 b2 c2 -> grown a a2 (b1 ++ b2) (c1 ++ c2).
Proof.
  intros [O1 S1 B1 C1 [N1 I1] R1 D1 E1] [O2 S2 B2 C2 [N2 I2] R2 D2 E2]. split; try done; try lia; try congruence.
  - split.
    + apply NoDup_fst_app; [done|done|]. intros x Hx Hy. specialize (R1 _ Hx). specialize (R2 _ Hy). lia.
    + intros b bit [Hb|Hb]%elem_of_app; eauto.
  - intros b. rewrite fmap_app, elem_of_app. intros [Hb|Hb]; [specialize (R1 _ Hb)|specialize (R2 _ Hb)]; lia.
  - apply NoDup_fst_app; [done|done|]. intros x Hx Hy. specialize (E1 _ Hx). specialize (E2 _ Hy). lia.
  - intros b. rewrite fmap_app, elem_of_app. intros [Hb|Hb]; [specialize (E1 _ Hb)|specialize (E2 _ Hb)]; lia.
Qed.

Lemma grown_perm a a' b b' c c' : b ≡ₚ b' -> c ≡ₚ c' -> grown a a' b c -> grown a a' b' c'.
Proof.
  intros Hb Hc [O1 S1 B1 C1 [N1 I1] R1 D1 E1]. split; try done.
  - split; [by rewrite <- Hb|]. intros x bit Hx. apply I1. by rewrite Hb.
  - intros x Hx. apply R1. by rewrite Hb.
  - by rewrite <- Hc.
  - intros x Hx. apply E1. by rewrite Hc.
Qed.

(** One bucket and its bit. *)
Lemma new_bucket_grown k a : alloc_ok a ->
  let '(b, a1) := new_bucket k a in let '(bit, a2) := next a1 in grown a a2 [(b, bit)] [].
Proof.
  intros [Hb Hf]. unfold new_bucket, next. cbn.
  assert (E : Z.shiftl 1 (if decide (63 < bits a)%nat then 63 else Z.of_nat (bits a)) = bit_of (length (buckets (made a)))).
  { unfold bit_of, bit_index. rewrite Hb. f_equal. case_decide; lia. }
  split; cbn; try lia; try done.
  - split; cbn; [rewrite length_app; cbn; lia|done].
  - split; [apply NoDup_singleton|]. intros b bit Hin%list_elem_of_singleton. injection Hin as -> ->. exact E.
  - intros b Hin%list_elem_of_singleton. lia.
  - apply NoDup_nil_2.
  - intros c Hin%not_elem_of_nil. done.
Qed.

(** ** The order of a composite *)

Lemma index_of_lookup n names i : index_of n names = Some i -> names !! i = Some n.
Proof.
  unfold index_of. destruct (list_find _ names) as [[j x]|] eqn:E; cbn; [|done]. intros [= ->].
  by apply list_find_Some in E as (Hl & -> & _).
Qed.

Lemma order_from_spec order names used l : order_from order names used = inr l ->
  NoDup l /\ (forall i, i ∈ l -> (i < length names)%nat /\ forall n, names !! i = Some n -> n ∉ used).
Proof.
  revert used l. induction order as [|n rest IH]; cbn [order_from]; intros used l E.
  - injection E as <-. split; [apply NoDup_nil_2|]. intros i Hi%not_elem_of_nil. done.
  - destruct (index_of n names) as [i|] eqn:Ei; [|done]. apply index_of_lookup in Ei.
    apply bind_ok in E as ([] & Hu & E). apply refuse_ok, bool_decide_eq_false in Hu.
    apply bind_ok in E as (l' & El & [= <-]). destruct (IH _ _ El) as [Hn Hl]. split.
    + apply NoDup_cons. split; [|done]. intros Hi. apply Hl in Hi as [_ Hi]. specialize (Hi n Ei). set_solver.
    + intros j [->|Hj]%elem_of_cons.
      * split; [by eapply lookup_lt_Some|]. intros n' Hn'. congruence.
      * destruct (Hl j Hj) as [H1 H2]. split; [done|]. intros n' Hn'. specialize (H2 n' Hn'). set_solver.
Qed.

(** Whatever is configured, every sub-policy has exactly one place. *)
Lemma compositeOrder_perm order names l : compositeOrder order names = inr l -> l ≡ₚ seq 0 (length names).
Proof.
  unfold compositeOrder. intros E.
  assert (G : forall l, NoDup l -> (forall i, i ∈ l -> (i < length names)%nat) -> length l = length names -> l ≡ₚ seq 0 (length names)).
  { intros k Hk Hr Hlen. apply submseteq_length_Permutation; [|rewrite length_seq; lia].
    apply NoDup_submseteq; [done|]. intros i Hi. apply elem_of_seq. specialize (Hr i Hi). lia. }
  destruct order as [|n rest]; [by injection E as <-|].
  apply bind_ok in E as (k & Ek & E). apply bind_ok in E as ([] & Hu & [= <-]).
  apply refuse_ok, negb_false_iff, bool_decide_eq_true in Hu. apply order_from_spec in Ek as [Hn Hl].
  apply G; [done| |done]. intros i Hi. by apply Hl.
Qed.

(** ** Leaf policies *)

Definition simple (p : policy) : Prop := match p with compositePolicy _ => False | _ => True end.
Definition no_ids (p : policy) : Prop := bucket_ids p = [] /\ cache_ids p = [] /\ simple p.

Ltac compiled E :=
  repeat match type of E with
  | (_ ≫= _) = inr _ => apply bind_ok in E as (? & ? & E)
  end.

Lemma compileLatency_ids c p : compileLatency c = inr p -> no_ids p.
Proof. unfold compileLatency. intros E. compiled E. by injection E as <-. Qed.
Lemma compileStatusCode_ids c p : compileStatusCode c = inr p -> no_ids p.
Proof. unfold compileStatusCode. intros E. compiled E. by injection E as <-. Qed.
Lemma compileNumericAttribute_ids c p : compileNumericAttribute c = inr p -> no_ids p.
Proof. unfold compileNumericAttribute. intros E. compiled E. by injection E as <-. Qed.
Lemma compileBooleanAttribute_ids c p : compileBooleanAttribute c = inr p -> no_ids p.
Proof. unfold compileBooleanAttribute. intros E. compiled E. destruct (ba_value c); [|done]. by injection E as <-. Qed.
Lemma compileProbabilistic_ids c p : compileProbabilistic c = inr p -> no_ids p.
Proof. unfold compileProbabilistic. intros E. compiled E. by injection E as <-. Qed.

Lemma compileRateLimiting_grown r a p a' : alloc_ok a -> compileRateLimiting r a = inr (p, a') ->
  grown a a' (bucket_ids p) (cache_ids p) /\ simple p.
Proof.
  intros Hok E. unfold compileRateLimiting in E. compiled E. pose proof (new_bucket_grown (NewBucket r) a Hok) as G.
  destruct (new_bucket (NewBucket r) a) as [b a1]. destruct (next a1) as [bit a2]. by injection E as <- <-.
Qed.

Lemma compileStringAttribute_grown c a p a' : alloc_ok a -> compileStringAttribute c a = inr (p, a') ->
  bucket_ids p = [] /\ simple p /\ grown a a' (bucket_ids p) (cache_ids p).
Proof.
  intros Hok E. unfold compileStringAttribute in E. compiled E. destruct (sa_regex c) eqn:Er.
  2:{ injection E as <- <-. do 2 (split; [done|]). by apply grown_refl. }
  compiled E. unfold new_cache in E. injection E as <- <-. do 2 (split; [done|]). cbn [bucket_ids cache_ids].
  destruct Hok as [Hb Hf]. split; cbn; try done.
  - split; [done|]. cbn. intros i k Hi. apply lookup_app_Some in Hi as [Hi|[_ Hi]]; [by apply (Hf i)|].
    apply list_lookup_singleton_Some in Hi as [_ <-]. cbn. split; [|done].
    repeat match goal with Hr : refuse (_ <? 0) _ = inr _ |- _ => apply refuse_ok, Z.ltb_ge in Hr end.
    unfold defaultRegexCacheSize. case_match eqn:Ez; [lia|]. apply Z.eqb_neq in Ez. lia.
  - rewrite length_app. lia.
  - split; [apply NoDup_nil_2|]. intros ? ? Hin%not_elem_of_nil. done.
  - intros ? Hin%not_elem_of_nil. done.
  - apply NoDup_singleton.
  - intros k Hk%list_elem_of_singleton. rewrite length_app. cbn. lia.
Qed.

(** ** Lists *)

Definition name_ok (n : bytes) : Prop := n <> [] /\ n <> NoPolicyLabel /\ 47 ∉ n.

(** The labels of a composite are its name before those of its sub-policies. *)
Definition shape (p : namedPolicy) : Prop :=
  match np_p p with
  | compositePolicy subs => exists ns, cs_name <$> subs = (fun n => np_name p ++ [47] ++ n) <$> ns /\ NoDup ns /\ Forall name_ok ns
  | _ => True
  end.

Record good_policy (name : bytes) (a : bucketAlloc) (p : policy) (clock : bool) (a' : bucketAlloc) : Prop := {
  gp_grown : grown a a' (bucket_ids p) (cache_ids p);
  gp_clock : clock = false -> bucket_ids p = [];
  gp_shape : shape (mkNamed name p) }.

Record good_list (l : list PolicyConfig) (a : bucketAlloc) (ps : list namedPolicy) (clock : bool) (a' : bucketAlloc) : Prop := {
  gl_grown : grown a a' (ps_ids ps) (ps_caches ps);
  gl_names : np_name <$> ps = pc_name <$> l;
  gl_distinct : NoDup (np_name <$> ps);
  gl_ok : Forall name_ok (np_name <$> ps);
  gl_clock : clock = false -> ps_ids ps = [];
  gl_shape : Forall shape ps }.

Definition good_compiler (cs : list PolicyConfig -> bucketAlloc -> error + (list namedPolicy * bool * bucketAlloc)) : Prop :=
  forall l a ps clock a', alloc_ok a -> cs l a = inr (ps, clock, a') -> good_list l a ps clock a'.

Lemma composite_subs_spec name mx shares subs order a out a' :
  alloc_ok a -> (forall i, i ∈ order -> (i < length subs)%nat) -> composite_subs name mx shares subs order a = (out, a') ->
  grown a a' ((fun s => (cs_b s, cs_bit s)) <$> out) [] /\
  cs_p <$> out = np_p <$> omap (fun i => subs !! i) order /\
  cs_name <$> out = (fun n => name ++ [47] ++ n) <$> (np_name <$> omap (fun i => subs !! i) order).
Proof.
  revert a out a'. induction order as [|i rest IH]; cbn [composite_subs]; intros a out a' Hok Hr E.
  { injection E as <- <-. split; [by apply grown_refl|done]. }
  destruct (lookup_lt_is_Some_2 subs i) as [s Hs]; [apply Hr; by left|]. rewrite Hs in E.
  pose proof (new_bucket_grown (NewBucket (float_div (float_mul mx (default float_zero (shares !! np_name s))) (of_int 100))) a Hok) as G.
  destruct (new_bucket _ a) as [b a1]. destruct (next a1) as [bit a2].
  destruct (composite_subs name mx shares subs rest a2) as [out' a3] eqn:Ec. injection E as <- <-.
  destruct (IH a2 out' a3 (gr_ok _ _ _ _ G)) as (G2 & E1 & E2); [intros j Hj; apply Hr; by right|done|].
  split; [exact (grown_trans _ _ _ _ _ _ _ G G2)|]. cbn [omap list_omap]. rewrite Hs. cbn [fmap list_fmap].
  split; [by rewrite <- E1|by rewrite <- E2].
Qed.

Lemma omap_seq_shift {A} (x : A) l n k : omap (fun i => (x :: l) !! i) (seq (S n) k) = omap (fun i => l !! i) (seq n k).
Proof. revert n. induction k as [|k IH]; intros n; [done|]. cbn [seq omap list_omap]. change ((x :: l) !! S n) with (l !! n). rewrite IH. done. Qed.

Lemma omap_seq_lookup {A} (l : list A) : omap (fun i => l !! i) (seq 0 (length l)) = l.
Proof. induction l as [|x l IH]; [done|]. cbn [length seq omap list_omap]. rewrite omap_seq_shift, IH. done. Qed.

Lemma omap_perm {A B} (f : A -> option B) l k : l ≡ₚ k -> omap f l ≡ₚ omap f k.
Proof. intros Hp. by rewrite Hp. Qed.

Lemma concat_snoc_perm {A B} (f : A -> list B) (g : A -> B) l :
  concat (map (fun x => f x ++ [g x]) l) ≡ₚ concat (map f l) ++ (g <$> l).
Proof. induction l as [|x l IH]; cbn; [done|]. rewrite IH, <- !app_assoc. apply Permutation_app_head. exact (Permutation_middle (concat (map f l)) (g <$> l) (g x)). Qed.

Lemma concat_map_perm {A B} (f : A -> list B) l k : l ≡ₚ k -> concat (map f l) ≡ₚ concat (map f k).
Proof. intros Hp. induction Hp; cbn; [done|by rewrite IHHp|rewrite !app_assoc; apply Permutation_app_tail, Permutation_app_comm|by etrans]. Qed.

Section Policies.
Context (cs : list PolicyConfig -> bucketAlloc -> error + (list namedPolicy * bool * bucketAlloc)) (Hcs : good_compiler cs).

Lemma at_ok {A} w (r : cause + A) x : at_ w r = inr x <-> r = inr x.
Proof. destruct r; cbn; split; congruence. Qed.

Lemma compileAnd_good name w subs a p clock a' : alloc_ok a -> compileAnd cs w subs a = inr (p, clock, a') -> good_policy name a p clock a'.
Proof.
  intros Hok E. unfold compileAnd in E. apply bind_ok in E as (? & _ & E). apply bind_ok in E as ([[ps clk] a1] & Ec & E).
  injection E as <- <- <-. destruct (Hcs _ _ _ _ _ Hok Ec) as [G _ _ _ Gc _].
  unfold ps_ids, ps_caches in *. rewrite <- (map_map np_p bucket_ids) in G, Gc. rewrite <- (map_map np_p cache_ids) in G. by split.
Qed.

Lemma compileComposite_good name w cfg a p clock a' : alloc_ok a -> compileComposite cs name w cfg a = inr (p, clock, a') ->
  good_policy name a p clock a'.
Proof.
  intros Hok E. unfold compileComposite in E. apply bind_ok in E as (? & _ & E). apply bind_ok in E as (? & _ & E).
  apply bind_ok in E as ([[subs clk] a1] & Ec & E). apply bind_ok in E as (order & Eo & E). apply bind_ok in E as (shares & _ & E).
  apply at_ok, compositeOrder_perm in Eo. rewrite length_fmap in Eo.
  destruct (Hcs _ _ _ _ _ Hok Ec) as [G _ Gd Go _ _].
  destruct (composite_subs name (MaxTotalSpansPerSecond cfg) shares subs order a1) as [out a2] eqn:Es. injection E as <- <- <-.
  assert (Hr : forall i, i ∈ order -> (i < length subs)%nat) by (intros i Hi; rewrite Eo in Hi; apply elem_of_seq in Hi; lia).
  destruct (composite_subs_spec _ _ _ _ _ _ _ _ (gr_ok _ _ _ _ G) Hr Es) as (G2 & E1 & E2).
  assert (Hsel : omap (fun i => subs !! i) order ≡ₚ subs) by (rewrite (omap_perm _ _ _ Eo); by rewrite omap_seq_lookup).
  split; [|done|].
  - refine (grown_perm _ _ _ _ _ _ _ _ (grown_trans _ _ _ _ _ _ _ G G2)); cbn [bucket_ids cache_ids].
    + rewrite (concat_snoc_perm (fun s => bucket_ids (cs_p s)) (fun s => (cs_b s, cs_bit s)) out). apply Permutation_app; [|done].
      rewrite <- (map_map cs_p bucket_ids). change (map cs_p out) with (cs_p <$> out). rewrite E1.
      unfold ps_ids. rewrite <- (map_map np_p bucket_ids). apply concat_map_perm. by rewrite Hsel.
    + rewrite app_nil_r, <- (map_map cs_p cache_ids). change (map cs_p out) with (cs_p <$> out). rewrite E1.
      unfold ps_caches. rewrite <- (map_map np_p cache_ids). apply concat_map_perm. by rewrite Hsel.
  - exists (np_name <$> omap (fun i => subs !! i) order). split; [exact E2|]. split.
    + rewrite Hsel. exact Gd.
    + rewrite Hsel. exact Go.
Qed.

Lemma simple_good name a p clock a' : grown a a' (bucket_ids p) (cache_ids p) -> simple p -> (clock = false -> bucket_ids p = []) ->
  good_policy name a p clock a'.
Proof. intros G Hs Hc. split; [done|done|]. unfold shape. cbn [np_p]. by destruct p. Qed.

Lemma leaf_good name a w r p clock a' : alloc_ok a -> (forall q, r = inr q -> no_ids q) -> no_clock (at_ w r) a = inr (p, clock, a') ->
  good_policy name a p clock a'.
Proof.
  intros Hok Hr E. unfold no_clock in E. apply bind_ok in E as (q & Hq%at_ok & E). injection E as <- <- <-.
  destruct (Hr _ Hq) as (Eb & Ec & Hs). apply simple_good; [rewrite Eb, Ec; by apply grown_refl|done|done].
Qed.

Lemma compilePolicy_good pc w sub a p clock a' : alloc_ok a -> compilePolicy cs pc w sub a = inr (p, clock, a') ->
  good_policy (pc_name pc) a p clock a'.
Proof.
  intros Hok E. unfold compilePolicy in E. do 3 (apply bind_ok in E as (? & _ & E)).
  case_decide. { injection E as <- <- <-. by apply simple_good; [apply grown_refl|..]. }
  case_decide. { destruct (script a); [|done]. injection E as <- <- <-. by apply simple_good; [apply grown_refl|..]. }
  case_decide. { destruct (Latency pc); [|done]. eapply leaf_good; eauto using compileLatency_ids. }
  case_decide. { destruct (StatusCode pc); [|done]. eapply leaf_good; eauto using compileStatusCode_ids. }
  case_decide.
  { destruct (StringAttribute pc); [|done]. cbn [with_body] in E. apply bind_ok in E as ([q a1] & Eq%at_ok & E). injection E as <- <- <-.
    apply compileStringAttribute_grown in Eq as (? & ? & ?); [|done]. by apply simple_good. }
  case_decide. { destruct (NumericAttribute pc); [|done]. eapply leaf_good; eauto using compileNumericAttribute_ids. }
  case_decide. { destruct (BooleanAttribute pc); [|done]. eapply leaf_good; eauto using compileBooleanAttribute_ids. }
  case_decide. { destruct (Probabilistic pc); [|done]. eapply leaf_good; eauto using compileProbabilistic_ids. }
  case_decide.
  { destruct (RateLimiting pc); [|done]. cbn [with_body] in E. apply bind_ok in E as ([q a1] & Eq%at_ok & E). injection E as <- <- <-.
    apply compileRateLimiting_grown in Eq as (? & ?); [|done]. by apply simple_good. }
  case_decide; apply bind_ok in E as (? & _ & E).
  - destruct (And pc); [|done]. by eapply compileAnd_good.
  - destruct (Composite pc); [|done]. by eapply compileComposite_good.
Qed.

Lemma policies_from_good l i sub seen a ps clock a' : alloc_ok a -> policies_from cs i sub l seen a = inr (ps, clock, a') ->
  good_list l a ps clock a' /\ forall n, n ∈ np_name <$> ps -> n ∉ seen.
Proof.
  revert i seen a ps clock a'. induction l as [|pc rest IH]; cbn [policies_from]; intros i seen a ps clock a' Hok E.
  { injection E as <- <- <-. split; [|by intros n Hn%not_elem_of_nil].
    constructor; [by apply grown_refl|done|apply NoDup_nil_2|by apply Forall_nil_2|done|by apply Forall_nil_2]. }
  apply bind_ok in E as (? & N1%at_ok%refuse_ok%bool_decide_eq_false & E). apply bind_ok in E as (? & N2%at_ok%refuse_ok%bool_decide_eq_false & E).
  apply bind_ok in E as (? & N3%at_ok%refuse_ok%bool_decide_eq_false & E). apply bind_ok in E as (? & N4%at_ok%refuse_ok%bool_decide_eq_false & E).
  apply bind_ok in E as ([[p c1] a1] & Ep & E). apply bind_ok in E as ([[out c2] a2] & El & E). injection E as <- <- <-.
  apply compilePolicy_good in Ep as [Gp Gc Gs]; [|done]. apply IH in El as [[G En Ed Eo Ec Es] Hseen]; [|by destruct Gp].
  split.
  - split.
    + unfold ps_ids, ps_caches. cbn [map concat np_p]. by apply grown_trans with a1.
    + cbn. by f_equal.
    + cbn. apply NoDup_cons. split; [|done]. intros Hin. specialize (Hseen _ Hin). set_solver.
    + cbn. by apply Forall_cons_2.
    + intros [-> ->]%orb_false_iff. unfold ps_ids. cbn [map concat np_p]. rewrite (Gc eq_refl). apply (Ec eq_refl).
    + by apply Forall_cons_2.
  - intros n [->|Hn]%elem_of_cons; [done|]. specialize (Hseen n Hn). set_solver.
Qed.
End Policies.

Lemma compileSubs_good : good_compiler compileSubs.
Proof. intros l a ps clock a' Hok E. by eapply policies_from_good; [| |exact E]. Qed.

Lemma compilePolicies_good : good_compiler compilePolicies.
Proof. intros l a ps clock a' Hok E. by eapply policies_from_good; [apply compileSubs_good| |exact E]. Qed.
End CompileInv.
