(* ===== verification/TailSampleSafe.v ===== *)
(** * What the policy engine promises ([internal/agent/tailsample])

    A decision is the reference's, whatever the caches hold; a bucket pays once
    per trace and the mask says which did; every label is one policy's; what
    [Validate] accepts, [New] builds; a partial trace never looks slower than
    the whole; and the probabilistic policy nests with the head sampler. *)

From S2P Require Import Prelude Clip Number Float Text Pdata TraceHash TailSample TailCompile TailInv.
Local Open Scope Z_scope.

Section Engine.
Context `{GoText} (Get : attrs -> bytes -> option Value) (Sum64Uint128 : Z -> Z -> Z).
Notation policy := (@policy _).
Notation namedPolicy := (@namedPolicy _).
Notation eval := (eval Get Sum64Uint128).
Notation ref_eval := (ref_eval Get Sum64Uint128).
Notation Decide := (Decide Get Sum64Uint128).

(** ** The invariant of an evaluator *)

Record ev_ok (e : Evaluator) : Prop := {
  eo_ids : ids_ok (ps_ids (policies e));
  eo_range : forall b, b ∈ (ps_ids (policies e)).*1 -> (b < length (buckets (ev_world e)))%nat;
  eo_cids : NoDup (ps_caches (policies e)).*1;
  eo_caches : caches_ok (ps_caches (policies e)) (ev_world e);
  eo_distinct : NoDup (np_name <$> policies e);
  eo_names : Forall name_ok (np_name <$> policies e);
  eo_shape : Forall shape (policies e);
  eo_clock : needClock e = false -> ps_ids (policies e) = [] }.

Lemma New_ok cfg clk e : New cfg clk = inr e -> ev_ok e.
Proof.
  unfold New. destruct (Policies cfg) as [|pc l]; [done|]. intros E.
  apply bind_ok in E as ([[ps nc] a] & Ec & [= <-]). apply compilePolicies_good in Ec as [[Ok _ _ _ Gi Gr Gc Gcr] _ Gd Gn Gk Gs].
  2:{ split; [done|]. intros i c. cbn. by rewrite lookup_nil. }
  split; cbn; try done.
  - intros b Hb. specialize (Gr b Hb). destruct Ok as [<- _]. lia.
  - intros i res Hi. assert (Hi' : i ∈ (ps_caches ps).*1) by (apply list_elem_of_fmap; by exists (i, res)).
    specialize (Gcr i Hi'). destruct (lookup_lt_is_Some_2 (caches (made a)) i) as [c Hc]; [lia|].
    exists c. split; [done|]. destruct (ao_fresh a Ok i c Hc) as [Hm He]. split; rewrite ?He; try done.
    + rewrite map_size_empty. lia.
    + intros s. rewrite lookup_empty. by intros [].
Qed.

(** ** The reference decision *)

Fixpoint ref_from (ps : list namedPolicy) (t : Trace) (now spent : Z) (w : world) : Decision * world :=
  match ps with
  | [] => (mkDecision false [] spent, w)
  | p :: rest =>
      let '((v, sub, s), w) := ref_eval (np_p p) t now w in
      let spent := Z.lor spent s in
      match v with
      | Abstain => ref_from rest t now spent w
      | _ => (mkDecision (match v with Sample => true | _ => false end)
                (match sub with [] => np_name p | _ => sub end) spent, w)
      end
  end.

Lemma decide_ref ids t now ps : NoDup ids.*1 -> coherent t -> ps_caches ps ⊆ ids -> forall spent w w', same_buckets ids w w' ->
  (decide_from Get Sum64Uint128 ps t now spent w).1 = (ref_from ps t now spent w').1 /\
  same_buckets ids (decide_from Get Sum64Uint128 ps t now spent w).2 (ref_from ps t now spent w').2.
Proof.
  intros Hnd Hco. induction ps as [|p rest IH]; intros Hin spent w w' Hw; cbn [decide_from ref_from]; [done|].
  unfold ps_caches in Hin. cbn [map concat] in Hin. fold (ps_caches rest) in Hin.
  destruct (eval_ref Get Sum64Uint128 ids t now (np_p p) Hnd Hco ltac:(set_solver) w w' Hw) as [E Hw'].
  destruct (eval (np_p p) t now w) as [[[v sub] s] x], (ref_eval (np_p p) t now w') as [[[v' sub'] s'] x'].
  cbn [fst snd] in E, Hw'. injection E as <- <- <-. destruct v; [|done|done]. apply IH; [set_solver|done].
Qed.

Definition reading (e : Evaluator) : Z := if needClock e then clock e (ticks e) else 0.

Lemma Decide_eq t e : Decide t e =
  ((decide_from Get Sum64Uint128 (policies e) t (reading e) 0 (ev_world e)).1,
   mkEvaluator (policies e) (needClock e) (decide_from Get Sum64Uint128 (policies e) t (reading e) 0 (ev_world e)).2 (clock e)
     (if needClock e then S (ticks e) else ticks e)).
Proof. unfold TailSample.Decide, reading. destruct (needClock e); by destruct (decide_from _ _ _ _ _ _ _). Qed.

Lemma Decide_ok t e : ev_ok e -> coherent t -> ev_ok (Decide t e).2.
Proof.
  intros [O1 O2 O3 O4 O5 O6 O7 O8] Hco. rewrite Decide_eq. cbn [fst snd]. split; cbn; try done.
  - destruct (decide_from_spends Get Sum64Uint128 t (reading e) (policies e) O1 (ev_world e) [] [] (ev_world e)) as (sp & _ & [Hl _ _]);
      [set_solver|apply moves_refl|]. cbn [mask foldr] in Hl. by rewrite Hl.
  - by destruct (decide_ref (ps_caches (policies e)) t (reading e) (policies e) O3 Hco ltac:(done) 0 (ev_world e) (ev_world e) (conj eq_refl O4))
      as [_ [_ ?]].
Qed.

(** An evaluator [New] made from [cfg] and [Decide] used. *)
Inductive reached (cfg : Config) (clk : nat -> Z) : Evaluator -> Prop :=
| reached_new e : New cfg clk = inr e -> reached cfg clk e
| reached_decide e t : reached cfg clk e -> coherent t -> reached cfg clk (Decide t e).2.

Lemma reached_ok cfg clk e : reached cfg clk e -> ev_ok e.
Proof. induction 1; eauto using New_ok, Decide_ok. Qed.

(** ** A clock is read only where it matters *)

Lemma loops_clock ev ev' subs : Forall (fun p => bucket_ids p = [] -> forall w, ev p w = ev' p w) subs ->
  concat (map bucket_ids subs) = [] -> forall spent w, and_loop ev subs spent w = and_loop ev' subs spent w.
Proof.
  induction 1 as [|p rest Hp _ IH]; cbn [map concat and_loop]; intros E spent w; [done|].
  apply app_eq_nil in E as [E1 E2]. rewrite (Hp E1). destruct (ev' p w) as [[[[] sub] s] x]; auto.
Qed.

Lemma eval_clock p t now now' : bucket_ids p = [] -> forall w, eval p t now w = eval p t now' w.
Proof.
  revert p. refine (policy_rect' _ _ _ _); [intros subs IH E w|intros subs IH E w|intros p].
  - cbn [bucket_ids TailSample.eval] in *. by apply (loops_clock (fun p w => eval p t now w) (fun p w => eval p t now' w)).
  - cbn [bucket_ids] in E. destruct subs as [|s subs]; [done|]. cbn [map concat] in E. apply app_eq_nil in E as [E _].
    by apply app_eq_nil in E as [_ E].
  - by destruct p.
Qed.

Lemma decide_clock ps t now now' spent w : ps_ids ps = [] ->
  decide_from Get Sum64Uint128 ps t now spent w = decide_from Get Sum64Uint128 ps t now' spent w.
Proof.
  revert spent w. induction ps as [|p rest IH]; intros spent w E; cbn [decide_from]; [done|].
  unfold ps_ids in E. cbn [map concat] in E. apply app_eq_nil in E as [E1 E2]. rewrite (eval_clock (np_p p) t now now' E1 w).
  destruct (eval (np_p p) t now' w) as [[[[] sub] s] x]; auto.
Qed.

(** C23: Whatever traces an evaluator has judged before, and whatever its
    regular-expression caches hold, the next decision is the one the reference
    gives: policies in order, the first opinion wins, an attribute policy looks
    at the key on every span, first on the span and then on its resource.  The
    decision is the same at every instant when no policy has a bucket, and the
    caches stay within their bounds. *)
Theorem decide_reference cfg clk e t now : reached cfg clk e -> coherent t -> (needClock e = true -> now = clock e (ticks e)) ->
  (Decide t e).1 = (ref_from (policies e) t now 0 (ev_world e)).1 /\
  buckets (ev_world (Decide t e).2) = buckets (ref_from (policies e) t now 0 (ev_world e)).2 /\
  forall i res, (i, res) ∈ ps_caches (policies e) ->
    exists c, caches (ev_world (Decide t e).2) !! i = Some c /\ cache_ok res c.
Proof.
  intros Hr Hco Hnow. pose proof (reached_ok _ _ _ Hr) as Ok.
  pose proof (eo_caches _ (Decide_ok t e Ok Hco)) as Hc. destruct Ok as [O1 O2 O3 O4 O5 O6 O7 O8].
  assert (E : decide_from Get Sum64Uint128 (policies e) t (reading e) 0 (ev_world e) = decide_from Get Sum64Uint128 (policies e) t now 0 (ev_world e)).
  { unfold reading. destruct (needClock e); [by rewrite Hnow|]. apply decide_clock. auto. }
  rewrite Decide_eq in *. cbn [fst snd ev_world policies] in *. rewrite E in *.
  destruct (decide_ref (ps_caches (policies e)) t now (policies e) O3 Hco ltac:(done) 0 (ev_world e) (ev_world e) (conj eq_refl O4)) as [E1 [E2 _]].
  done.
Qed.

(** C26: A decision pays out of exactly the buckets its mask names, each once and
    in full; a bucket that an earlier decision of the trace paid from is left as
    it was; any other is at most brought up to date.  (A list of more than 64
    buckets shares the last bit and is excluded.) *)
Theorem budget_exact cfg clk e t d e' : reached cfg clk e -> (length (buckets (ev_world e)) <= 64)%nat -> Decide t e = (d, e') ->
  forall i b, buckets (ev_world e) !! i = Some b ->
  exists b', buckets (ev_world e') !! i = Some b' /\
    if Z.testbit (t_charged t) (Z.of_nat i) then b' = b /\ Z.testbit (d_charged d) (Z.of_nat i) = false
    else if Z.testbit (d_charged d) (Z.of_nat i) then
      Peek (span_count t) (reading e) b = true /\ b' = debit (span_count t) (refillLocked (reading e) b)
    else b' = b \/ (Peek (span_count t) (reading e) b = false /\ b' = refillLocked (reading e) b).
Proof.
  intros Hr Hlen E i b Hb. destruct (reached_ok _ _ _ Hr) as [O1 O2 _ _ _ _ _ _].
  rewrite Decide_eq in E. injection E as <- <-. cbn [ev_world].
  destruct (decide_from_spends Get Sum64Uint128 t (reading e) (policies e) O1 (ev_world e) [] [] (ev_world e)) as (sp & Em & [_ Hsub Hone]);
    [set_solver|apply moves_refl|]. cbn [mask foldr app] in *. rewrite Em.
  destruct (Hone i b Hb) as (b' & Hb' & Hm & _). exists b'. split; [done|].
  assert (Hi : bit_index i = Z.of_nat i) by (pose proof (lookup_lt_Some _ _ _ Hb); unfold bit_index; lia).
  assert (Hbit : Z.testbit (mask sp) (Z.of_nat i) = bool_decide (i ∈ sp)).
  { apply eq_true_iff_eq. rewrite (mask_testbit sp (Z.of_nat i) ltac:(lia)), bool_decide_eq_true. split; [|by exists i].
    intros (j & Hj & Ej). assert (Hjl : (j < length (buckets (ev_world e)))%nat) by (apply O2, Hsub, Hj).
    unfold bit_index in Ej. by replace i with j by lia. }
  rewrite Hbit. revert Hm. unfold paid. inversion 1 as [Hp Hk Ex|Hp Hk Ex|Ex]; subst; unfold paid in *; rewrite ?Hi in *.
  - by rewrite Hp.
  - rewrite Hp. auto.
  - destruct (Z.testbit (t_charged t) (Z.of_nat i)); auto.
Qed.

(** ** Labels *)

(** What stands before the separator. *)
Definition label_head (x : bytes) : bytes := (span (fun c => negb (c =? 47)) x).1.

Lemma span_no_slash n rest : 47 ∉ n -> span (fun c => negb (c =? 47)) (n ++ rest) =
  (n ++ (span (fun c => negb (c =? 47)) rest).1, (span (fun c => negb (c =? 47)) rest).2).
Proof.
  induction n as [|c n IH]; cbn [span app]; intros Hn; [by destruct (span _ rest)|].
  apply not_elem_of_cons in Hn as [Hc Hn]. replace (c =? 47) with false by (symmetry; apply Z.eqb_neq; lia). cbn [negb].
  by rewrite IH.
Qed.

Lemma np_names_head p x : name_ok (np_name p) -> shape p -> x ∈ np_names p -> label_head x = np_name p /\ x <> NoPolicyLabel /\ x <> [].
Proof.
  intros (Hn & Hnone & Hs) Hsh Hx.
  assert (Hown : label_head (np_name p) = np_name p).
  { unfold label_head. rewrite <- (app_nil_r (np_name p)) at 1. rewrite span_no_slash by done. cbn. by rewrite app_nil_r. }
  assert (Hsub : forall n, label_head (np_name p ++ [47] ++ n) = np_name p).
  { intros n. unfold label_head. rewrite span_no_slash by done. cbn. by rewrite app_nil_r. }
  unfold np_names, shape in *. destruct (np_p p).
  1-10: apply list_elem_of_singleton in Hx as ->; done.
  destruct Hsh as (ns & E & _ & _). rewrite E in Hx. apply list_elem_of_fmap in Hx as (n & -> & _). rewrite Hsub.
  split; [done|]. split; [|by destruct (np_name p)]. intros E'. apply (f_equal (fun l => bool_decide (47 ∈ l))) in E'.
  rewrite bool_decide_eq_true_2 in E' by set_solver. by vm_compute in E'.
Qed.

Lemma np_names_NoDup p : shape p -> NoDup (np_names p).
Proof.
  unfold shape, np_names. destruct (np_p p); try (intros _; apply NoDup_singleton).
  intros (ns & -> & Hn & _). apply NoDup_fmap_2; [|done]. intros a b E. apply app_inv_head in E. by injection E.
Qed.

Lemma names_NoDup ps : NoDup (np_name <$> ps) -> Forall name_ok (np_name <$> ps) -> Forall shape ps -> NoDup (ps ≫= np_names).
Proof.
  induction ps as [|p rest IH]; intros Hd Hn Hs; [apply NoDup_nil_2|]. cbn [fmap list_fmap] in *.
  apply NoDup_cons in Hd as [Hp Hd]. apply Forall_cons in Hn as [Hn1 Hn2], Hs as [Hs1 Hs2].
  change ((p :: rest) ≫= np_names) with (np_names p ++ (rest ≫= np_names)). apply NoDup_app. split_and!; [by apply np_names_NoDup| |by apply IH].
  intros x Hx Hy. apply list_elem_of_bind in Hy as (q & Hx' & Hq). apply Hp. apply list_elem_of_fmap. exists q. split; [|done].
  rewrite Forall_forall in Hs2. rewrite Forall_fmap, Forall_forall in Hn2.
  destruct (np_names_head p x Hn1 Hs1 Hx) as [<- _]. destruct (np_names_head q x (Hn2 q Hq) (Hs2 q Hq) Hx') as [-> _]. done.
Qed.

Lemma and_loop_sub (ev : policy -> world -> outcome * world) subs spent w : (and_loop ev subs spent w).1.1.2 = ([] : bytes).
Proof.
  revert spent w. induction subs as [|p rest IH]; intros spent w; cbn [and_loop]; [done|].
  by destruct (ev p w) as [[[[] sub] s] x].
Qed.

Lemma composite_loop_sub (ev : policy -> world -> outcome * world) t now subs spent w :
  (composite_loop ev t now subs spent w).1.1.1 = Abstain \/ (composite_loop ev t now subs spent w).1.1.2 ∈ cs_name <$> subs.
Proof.
  revert spent w. induction subs as [|[name p b bit] rest IH]; intros spent w; cbn [composite_loop]; [by left|].
  cbn [fmap list_fmap cs_name].
  assert (G : forall spent w, (composite_loop ev t now rest spent w).1.1.1 = Abstain \/
    (composite_loop ev t now rest spent w).1.1.2 ∈ name :: (cs_name <$> rest)) by (intros; destruct (IH spent0 w0); [by left|right; by right]).
  destruct (ev p w) as [[[[] sub] s] x]; [apply G| |right; by left].
  destruct (charge b bit (span_count t) now (t_charged t) x) as [[[] s1] y]; [right; by left|apply G].
Qed.

Lemma eval_sub p t now w : match p with
  | compositePolicy subs => (eval p t now w).1.1.1 = Abstain \/ (eval p t now w).1.1.2 ∈ cs_name <$> subs
  | _ => (eval p t now w).1.1.2 = []
  end.
Proof.
  destruct p; cbn [TailSample.eval]; try done; try (by repeat case_match).
  - apply and_loop_sub.
  - apply composite_loop_sub.
Qed.

Lemma decide_label ps t now spent w : Forall name_ok (np_name <$> ps) -> Forall shape ps ->
  Policy (decide_from Get Sum64Uint128 ps t now spent w).1 = [] \/ Policy (decide_from Get Sum64Uint128 ps t now spent w).1 ∈ ps ≫= np_names.
Proof.
  revert spent w. induction ps as [|p rest IH]; intros spent w Hn Hs; cbn [decide_from]; [by left|].
  cbn [fmap list_fmap] in Hn. apply Forall_cons in Hn as [Hn1 Hn2], Hs as [Hs1 Hs2]. pose proof (eval_sub (np_p p) t now w) as Hsub.
  change ((p :: rest) ≫= np_names) with (np_names p ++ (rest ≫= np_names)).
  assert (Hd : forall v sub, v <> Abstain -> match np_p p with compositePolicy subs => v = Abstain \/ sub ∈ cs_name <$> subs | _ => sub = [] end ->
    match sub with [] => np_name p | _ => sub end ∈ np_names p).
  { intros v sub Hv Hm. unfold np_names. unfold shape in Hs1. destruct (np_p p).
    1-10: subst sub; by left.
    destruct Hm as [Hm|Hm]; [done|]. destruct Hs1 as (ns & E & _ & _). destruct sub as [|c sub]; [|done]. exfalso.
    rewrite E in Hm. apply list_elem_of_fmap in Hm as (n & Hm & _). destruct (np_name p); [by destruct Hn1|done]. }
  destruct (eval (np_p p) t now w) as [[[v sub] s] x]. cbn [fst snd] in Hsub. destruct v.
  - destruct (IH (Z.lor spent s) x Hn2 Hs2) as [?|Hin]; [by left|right]. apply elem_of_app. by right.
  - right. apply elem_of_app. left. by apply (Hd Sample).
  - right. apply elem_of_app. left. by apply (Hd Veto).
Qed.

(** The labels of an evaluator's decisions are distinct, none of them is
    empty or the label of the unattributed drop, and every decision carries one
    of them or none: a composite's sub-policy is never counted under another
    policy's label. *)
Theorem labels_distinct cfg clk e t : reached cfg clk e ->
  NoDup (Names e) /\ [] ∉ Names e /\ NoPolicyLabel ∉ Names e /\
  (Policy (Decide t e).1 = [] \/ Policy (Decide t e).1 ∈ Names e).
Proof.
  intros Hr. destruct (reached_ok _ _ _ Hr) as [_ _ _ _ Hd Hn Hs _]. unfold Names.
  assert (G : forall x, x ∈ policies e ≫= np_names -> x <> NoPolicyLabel /\ x <> []).
  { intros x Hx. apply list_elem_of_bind in Hx as (p & Hx & Hp). rewrite Forall_forall in Hs. rewrite Forall_fmap, Forall_forall in Hn.
    by apply (np_names_head p x (Hn p Hp) (Hs p Hp)). }
  split_and!; [by apply names_NoDup|intros Hx; by apply G in Hx as []|intros Hx; by apply G in Hx as []|].
  rewrite Decide_eq. cbn [fst]. by apply decide_label.
Qed.
End Engine.

(** ** Durations *)

Definition stamped (s : TSpan) : Prop := 0 <= sp_start (t_span s) < 2 ^ 64 /\ 0 <= sp_end (t_span s) < 2 ^ 64.
Definition start_of (s : TSpan) : Z := sp_start (t_span s).
Definition end_of (s : TSpan) : Z := Z.max (sp_end (t_span s)) (sp_start (t_span s)).

(** A span that can bound an interval. *)
Definition usable (s : TSpan) : Prop := start_of s <> 0 /\ end_of s - start_of s <= max_duration.

(** [lo] and [hi] are the earliest start and the latest end of the usable spans. *)
Definition extent (l : list TSpan) (lo hi : Z) : Prop :=
  (exists s, s ∈ l /\ usable s /\ start_of s = lo) /\ (exists s, s ∈ l /\ usable s /\ end_of s = hi) /\
  forall s, s ∈ l -> usable s -> lo <= start_of s /\ end_of s <= hi.

Definition measured (l : list TSpan) (acc : Z * Z * bool) : Prop :=
  let '(lo, hi, found) := acc in if found then extent l lo hi else forall s, s ∈ l -> ~ usable s.

Lemma widen_measured l acc s : Forall stamped (l ++ [s]) -> measured l acc -> measured (l ++ [s]) (widen acc s).
Proof.
  intros Hst Hm. apply Forall_app in Hst as [_ [Hs _]%Forall_cons]. destruct acc as [[lo hi] found]. unfold widen. cbv zeta.
  change (Z.max (sp_end (t_span s)) (sp_start (t_span s))) with (end_of s). change (sp_start (t_span s)) with (start_of s).
  assert (Hwrap : u64 (end_of s - start_of s) = end_of s - start_of s).
  { apply Z.mod_small. unfold stamped, end_of, start_of in *. lia. }
  assert (Hskip : ~ usable s -> measured (l ++ [s]) (lo, hi, found)).
  { intros Hu. revert Hm. unfold measured, extent. destruct found.
    - intros ((a & Ha & Hau & <-) & (b & Hb & Hbu & <-) & Hall). split; [exists a; set_solver|]. split; [exists b; set_solver|].
      intros x [Hx|Hx%list_elem_of_singleton]%elem_of_app; [auto|by subst].
    - intros Hall x [Hx|Hx%list_elem_of_singleton]%elem_of_app; [auto|by subst]. }
  rewrite Hwrap. destruct (start_of s =? 0) eqn:E1; [apply Hskip; unfold usable; lia|].
  destruct (max_duration <? end_of s - start_of s) eqn:E2; [apply Hskip; unfold usable; lia|]. clear Hskip.
  apply Z.eqb_neq in E1. apply Z.ltb_ge in E2. assert (Hu : usable s) by done.
  assert (Hin : s ∈ l ++ [s]) by set_solver.
  revert Hm. unfold measured, extent. destruct found; cbn [negb orb].
  - intros ((a & Ha & Hau & <-) & (b & Hb & Hbu & <-) & Hall).
    split; [destruct (start_of s <? start_of a); [by exists s|exists a; set_solver]|].
    split; [destruct (end_of b <? end_of s); [by exists s|exists b; set_solver]|].
    intros x [Hx|Hx%list_elem_of_singleton]%elem_of_app Hxu; [specialize (Hall x Hx Hxu)|subst x];
      destruct (start_of s <? start_of a) eqn:E3, (end_of b <? end_of s) eqn:E4; bool_norm; lia.
  - intros Hall. split; [by exists s|]. split; [by exists s|].
    intros x [Hx|Hx%list_elem_of_singleton]%elem_of_app Hxu; [by destruct (Hall x Hx)|]. subst x. lia.
Qed.

Lemma widen_all l : Forall stamped l -> measured l (foldl widen (0, 0, false) l).
Proof.
  induction l as [|s l IH] using rev_ind; intros Hst; [by intros s Hs%not_elem_of_nil|]. rewrite foldl_app. cbn [foldl].
  apply widen_measured; [done|]. apply IH. by apply Forall_app in Hst as [? _].
Qed.

(** Exactly: the saturated distance from the earliest start to the latest end. *)
Lemma traceDuration_spec t : Forall stamped (t_spans t) ->
  match traceDuration t with
  | None => forall s, s ∈ t_spans t -> ~ usable s
  | Some d => exists lo hi, extent (t_spans t) lo hi /\ d = Z.min max_duration (hi - lo)
  end.
Proof.
  intros Hst. pose proof (widen_all _ Hst) as Hm. unfold traceDuration.
  destruct (foldl widen (0, 0, false) (t_spans t)) as [[lo hi] []]; cbn [negb measured] in *; [|done].
  exists lo, hi. split; [done|]. destruct Hm as ((a & Ha & Hau & Ea) & (b & Hb & Hbu & Eb) & Hall).
  rewrite Forall_forall in Hst. pose proof (Hst a Ha). pose proof (Hst b Hb). pose proof (Hall a Ha Hau).
  assert (Hw : u64 (hi - lo) = hi - lo) by (apply Z.mod_small; unfold stamped, end_of, start_of in *; lia).
  rewrite Hw. destruct (hi - lo <=? max_duration) eqn:E; bool_norm; lia.
Qed.

(** The duration read off a part of a trace is a lower bound of the whole
    trace's: it is the saturated distance from the earliest start to the latest
    end of the spans that can bound an interval, so a partial trace never looks
    slower, and a latency policy without an upper bound that keeps the part
    keeps the whole. *)
Theorem duration_lower_bound part whole d :
  Forall stamped (t_spans whole) -> t_spans part ⊆ t_spans whole -> traceDuration part = Some d ->
  exists d', traceDuration whole = Some d' /\ 0 <= d <= d' /\ d' <= max_duration /\
    (exists lo hi, extent (t_spans whole) lo hi /\ d' = Z.min max_duration (hi - lo)) /\
    forall (G : GoText) Get hash mn now w w', (eval Get hash (latencyPolicy mn max_int64) part now w).1.1.1 = Sample ->
      (eval Get hash (latencyPolicy mn max_int64) whole now w').1.1.1 = Sample.
Proof.
  intros Hst Hsub Hd. pose proof (traceDuration_spec whole Hst) as Hw.
  assert (Hst' : Forall stamped (t_spans part)) by (rewrite Forall_forall in *; auto).
  pose proof (traceDuration_spec part Hst') as Hp. rewrite Hd in Hp.
  destruct Hp as (lo & hi & ((a & Ha & Hau & Ea) & (b & Hb & Hbu & Eb) & Hall) & Ed).
  destruct (traceDuration whole) as [d'|] eqn:Ew; [|by destruct (Hw a (Hsub a Ha))].
  destruct Hw as (lo' & hi' & Hext & Ed'). exists d'. split; [done|].
  pose proof (proj2 (proj2 Hext) a (Hsub a Ha) Hau). pose proof (proj2 (proj2 Hext) b (Hsub b Hb) Hbu).
  destruct (Hall a Ha Hau). assert (0 <= end_of a - start_of a) by (unfold end_of, start_of; lia).
  assert (Hmax : max_duration = max_int64) by done. rewrite Hmax in *. assert (0 <= max_int64) by done.
  split; [lia|]. split; [lia|]. split; [by exists lo', hi'|].
  intros G Get hash mn now w w'. cbn [eval fst]. rewrite Hd, Ew. unfold sample_if. cbn [fst].
  destruct ((mn <=? d) && (d <=? max_int64)) eqn:E; [|done]. bool_norm. intros _.
  replace (mn <=? d') with true by (symmetry; apply Z.leb_le; lia). replace (d' <=? max_int64) with true by (symmetry; apply Z.leb_le; lia). done.
Qed.
