(* ===== verification/TailValidate.v ===== *)
(** * The dry run and the start agree ([Validate] and [New] of [internal/agent/tailsample/tailsample.go])

    Compilation never looks at the script it is given, only at whether there is
    one; so two compilations of one list that agree on that agree on whether
    they succeed. *)

From S2P Require Import Prelude Clip Number Float Text Pdata TraceHash TailSample TailCompile TailInv TailSampleSafe.
Local Open Scope Z_scope.

Section Validate.
Context `{GoText}.
Notation policy := (@policy _).
Notation namedPolicy := (@namedPolicy _).

(** Allocators that differ in the script only. *)
Definition sim (a b : bucketAlloc) : Prop := bits a = bits b /\ made a = made b.

(** Results of two compilations started from [a] and [b]: the same error, or
    allocators alike; [R] relates what else they return. *)
Definition sims {A} (R : A -> A -> Prop) (a b : bucketAlloc) (r s : error + (A * bool * bucketAlloc)) : Prop :=
  match r, s with
  | inl e, inl e' => e = e'
  | inr (x, c, a'), inr (y, d, b') => R x y /\ c = d /\ sim a' b' /\ script a' = script a /\ script b' = script b
  | _, _ => False
  end.

Definition any {A : Type} : A -> A -> Prop := fun _ _ => True.
Definition same_names (ps qs : list namedPolicy) : Prop := np_name <$> ps = np_name <$> qs.

(** The scripts matter alike where the configuration [u] uses one. *)
Definition scripts (u : bool) (a b : bucketAlloc) : Prop := u = true -> is_set (script a) = is_set (script b).

Definition simulates (cs : list PolicyConfig -> bucketAlloc -> error + (list namedPolicy * bool * bucketAlloc)) : Prop :=
  forall l a b, sim a b -> scripts (existsb uses_script l) a b -> sims same_names a b (cs l a) (cs l b).

Lemma sims_bind {B C} (R : B -> B -> Prop) a b (r : error + C) (f g : C -> error + (B * bool * bucketAlloc)) :
  (forall x, r = inr x -> sims R a b (f x) (g x)) -> sims R a b (r ≫= f) (r ≫= g).
Proof. destruct r; cbn; [done|]. intros G. by apply G. Qed.

Lemma sims_same {A} a b (x : A) c : sim a b -> sims any a b (inr (x, c, a)) (inr (x, c, b)).
Proof. by intros. Qed.

Lemma no_clock_sims a b r : sim a b -> sims (@any policy) a b (no_clock r a) (no_clock r b).
Proof. intros Hs. unfold no_clock. apply sims_bind. intros x _. by apply sims_same. Qed.

Lemma composite_subs_sim name mx shares subs subs' order a b : same_names subs subs' -> sim a b ->
  sim (composite_subs name mx shares subs order a).2 (composite_subs name mx shares subs' order b).2 /\
  script (composite_subs name mx shares subs order a).2 = script a /\ script (composite_subs name mx shares subs' order b).2 = script b.
Proof.
  intros Hn. revert a b. induction order as [|i rest IH]; intros a b Hs; cbn [composite_subs]; [done|].
  assert (Hi : np_name <$> subs !! i = np_name <$> subs' !! i) by (rewrite <- !list_lookup_fmap; by rewrite Hn).
  destruct (subs !! i) as [s|], (subs' !! i) as [s'|]; try done. cbn in Hi. injection Hi as Hi. rewrite Hi.
  unfold new_bucket, next. cbn. destruct Hs as [Hb Hm].
  match goal with |- context [composite_subs name mx shares subs rest ?x] => set (a1 := x) end.
  match goal with |- context [composite_subs name mx shares subs' rest ?x] => set (b1 := x) end.
  destruct (IH a1 b1) as (G1 & G2 & G3); [subst a1 b1; split; cbn; [by rewrite Hb|by rewrite Hm]|].
  destruct (composite_subs name mx shares subs rest a1) as [o1 a2], (composite_subs name mx shares subs' rest b1) as [o2 b2]. done.
Qed.

Section Policies.
Context (cs : list PolicyConfig -> bucketAlloc -> error + (list namedPolicy * bool * bucketAlloc)) (Hcs : simulates cs).

Lemma compileAnd_sims w l a b : sim a b -> scripts (existsb uses_script l) a b ->
  sims (@any policy) a b (compileAnd cs w l a) (compileAnd cs w l b).
Proof.
  intros Hs Hu. unfold compileAnd. apply sims_bind. intros _ _. pose proof (Hcs l a b Hs Hu) as G.
  destruct (cs l a) as [e|[[ps c] a']], (cs l b) as [e'|[[qs d] b']]; cbn in *; unfold any; tauto.
Qed.

Lemma compileComposite_sims name w cfg a b : sim a b -> scripts (existsb uses_script (SubPolicies cfg)) a b ->
  sims (@any policy) a b (compileComposite cs name w cfg a) (compileComposite cs name w cfg b).
Proof.
  intros Hs Hu. unfold compileComposite. do 2 (apply sims_bind; intros _ _). pose proof (Hcs _ a b Hs Hu) as G.
  destruct (cs (SubPolicies cfg) a) as [e|[[ps c] a']], (cs (SubPolicies cfg) b) as [e'|[[qs d] b']]; cbn in G; try done.
  destruct G as (Hn & -> & Hs' & Ea & Eb). cbn [mbind result_bind]. unfold same_names in Hn. rewrite Hn.
  apply sims_bind. intros order _. apply sims_bind. intros shares _.
  destruct (composite_subs_sim name (MaxTotalSpansPerSecond cfg) shares ps qs order a' b' Hn Hs') as (G1 & G2 & G3).
  destruct (composite_subs _ _ _ ps _ _) as [o1 a2], (composite_subs _ _ _ qs _ _) as [o2 b2]. cbn in *. split_and!; try done; congruence.
Qed.

Lemma compilePolicy_sims pc w sub a b : sim a b -> scripts (uses_script pc) a b ->
  sims (@any policy) a b (compilePolicy cs pc w sub a) (compilePolicy cs pc w sub b).
Proof.
  intros Hs Hu. unfold compilePolicy. do 3 (apply sims_bind; intros _ _).
  case_decide; [by apply sims_same|]. case_decide as Hscript.
  { specialize (Hu ltac:(destruct pc; cbn in *; by rewrite bool_decide_eq_true_2)).
    by destruct (script a), (script b); cbn in *. }
  case_decide. { destruct (Latency pc); [by apply no_clock_sims|done]. }
  case_decide. { destruct (StatusCode pc); [by apply no_clock_sims|done]. }
  case_decide.
  { destruct (StringAttribute pc) as [c|]; [|done]. cbn [with_body]. unfold compileStringAttribute. destruct Hs as [Hb Hm].
    destruct (refuse _ StringKeyRequired) as [e1|u1]; [done|]. destruct (refuse _ StringNoValues) as [e2|u2]; [done|].
    destruct (refuse _ CacheNegative) as [e3|u3]; [done|]. destruct (refuse _ CacheWithoutRegex) as [e4|u4]; [done|].
    cbn [mbind result_bind at_]. destruct (sa_regex c); [|by apply sims_same].
    destruct (compile_all _); [done|]. cbn [mbind result_bind at_]. unfold new_cache. cbn. unfold sim. cbn. rewrite Hb, Hm. by repeat split. }
  case_decide. { destruct (NumericAttribute pc); [by apply no_clock_sims|done]. }
  case_decide. { destruct (BooleanAttribute pc); [by apply no_clock_sims|done]. }
  case_decide. { destruct (Probabilistic pc); [by apply no_clock_sims|done]. }
  case_decide.
  { destruct (RateLimiting pc) as [r|]; [|done]. cbn [with_body]. unfold compileRateLimiting. destruct Hs as [Hb Hm].
    destruct (refuse _ RateNotPositive); [done|]. cbn [mbind result_bind at_]. unfold new_bucket, next. cbn. unfold sim. cbn. rewrite Hb, Hm. by repeat split. }
  case_decide; apply sims_bind; intros _ _.
  - destruct (And pc) as [l|] eqn:E; [|done]. apply compileAnd_sims; [done|]. intros Hl. apply Hu. destruct pc. cbn in *. subst.
    rewrite Hl. by rewrite orb_true_r.
  - destruct (Composite pc) as [l|] eqn:E; [|done]. apply compileComposite_sims; [done|]. intros Hl. apply Hu. destruct pc. cbn in *. subst.
    rewrite Hl. by rewrite !orb_true_r.
Qed.

Lemma policies_from_sims l i sub seen a b : sim a b -> scripts (existsb uses_script l) a b ->
  sims same_names a b (policies_from cs i sub l seen a) (policies_from cs i sub l seen b).
Proof.
  revert i seen a b. induction l as [|pc rest IH]; intros i seen a b Hs Hu; cbn [policies_from]; [done|].
  do 4 (apply sims_bind; intros _ _). cbn [existsb] in Hu.
  pose proof (compilePolicy_sims pc (mkWhere sub i (pc_name pc)) sub a b Hs ltac:(intros E; apply Hu; by rewrite E)) as G.
  destruct (compilePolicy cs pc _ sub a) as [e|[[p c] a']], (compilePolicy cs pc _ sub b) as [e'|[[q d] b']]; cbn in G; try done.
  destruct G as (_ & -> & Hs' & Ea & Eb). cbn [mbind result_bind].
  pose proof (IH (S i) ({[pc_name pc]} ∪ seen) a' b' Hs' ltac:(intros E; rewrite Ea, Eb; apply Hu; by rewrite E, orb_true_r)) as G.
  destruct (policies_from cs (S i) sub rest _ a') as [e|[[ps c] a2]], (policies_from cs (S i) sub rest _ b') as [e'|[[qs c'] b2]]; cbn in G; try done.
  destruct G as (Hn & -> & Hs2 & Ea2 & Eb2). cbn. unfold same_names in *. cbn. split_and!; try done; congruence.
Qed.
End Policies.

Lemma compilePolicies_sims : simulates compilePolicies.
Proof.
  intros l a b Hs Hu. apply policies_from_sims; [|done|done]. intros l' a' b' Hs' Hu'. by apply policies_from_sims.
Qed.

(** ** Without a script *)

Lemma check_bodies_own ty bs own o : check_bodies ty bs own = inr o -> forall typ, (typ, true) ∈ bs -> typ = ty.
Proof.
  revert own. induction bs as [|[typ present] rest IH]; cbn [check_bodies]; intros own E t Ht; [by apply not_elem_of_nil in Ht|].
  case_decide as Hd; [apply elem_of_cons in Ht as [[= -> <-]|Ht]; [done|by eapply IH]|].
  destruct present; [done|]. apply elem_of_cons in Ht as [[=]|Ht]. by eapply IH.
Qed.

(** A list that was compiled without a script uses none. *)
Definition scriptless (cs : list PolicyConfig -> bucketAlloc -> error + (list namedPolicy * bool * bucketAlloc)) : Prop :=
  forall l a r, alloc_ok a -> script a = None -> cs l a = inr r -> existsb uses_script l = false.

Lemma compilePolicy_scriptless cs pc w sub a r : scriptless cs -> alloc_ok a -> script a = None -> compilePolicy cs pc w sub a = inr r -> uses_script pc = false.
Proof.
  intros Hcs Hok Ha E. unfold compilePolicy in E. do 2 (apply bind_ok in E as (? & _ & E)).
  apply bind_ok in E as (u & Hc%at_ok & E). unfold checkBody in Hc. apply bind_ok in Hc as (own & Hb & _).
  pose proof (check_bodies_own _ _ _ _ Hb) as Hown. clear Hb.
  assert (Hand : forall l, And pc = Some l -> pc_type pc = TypeAnd).
  { intros l Hl. symmetry. apply Hown. unfold bodies. rewrite Hl. cbn. set_solver. }
  assert (Hcomp : forall l, Composite pc = Some l -> pc_type pc = TypeComposite).
  { intros l Hl. symmetry. apply Hown. unfold bodies. rewrite Hl. cbn. set_solver. }
  assert (Huses : uses_script pc = bool_decide (pc_type pc = TypeScript) ||
    match And pc with Some subs => existsb uses_script subs | None => false end ||
    match Composite pc with Some c => existsb uses_script (SubPolicies c) | None => false end) by by destruct pc.
  rewrite Huses. clear Huses Hown.
  assert (Hs : pc_type pc <> TypeScript).
  { intros Hs. rewrite Hs in E. rewrite Ha in E. by vm_compute in E. }
  rewrite bool_decide_eq_false_2 by done. cbn [orb]. apply orb_false_iff. split.
  - destruct (And pc) as [l|] eqn:Hl; [|done]. rewrite (Hand l eq_refl) in E. cbn in E.
    apply bind_ok in E as (? & _ & E). cbn [with_body] in E. unfold compileAnd in E. apply bind_ok in E as (? & _ & E).
    apply bind_ok in E as (r' & E & _). by eapply Hcs.
  - destruct (Composite pc) as [c|] eqn:Hl; [|done]. rewrite (Hcomp c eq_refl) in E. cbn in E.
    apply bind_ok in E as (? & _ & E). cbn [with_body] in E. unfold compileComposite in E. do 2 (apply bind_ok in E as (? & _ & E)).
    apply bind_ok in E as (r' & E & _). by eapply Hcs.
Qed.

Lemma policies_from_scriptless cs l i sub seen a r : scriptless cs -> good_compiler cs -> alloc_ok a -> script a = None ->
  policies_from cs i sub l seen a = inr r -> existsb uses_script l = false.
Proof.
  intros Hcs Hg. revert i seen a r. induction l as [|pc rest IH]; cbn [policies_from]; intros i seen a r Hok Ha E; [done|].
  do 4 (apply bind_ok in E as (? & _ & E)). apply bind_ok in E as ([[p c] a1] & Ep & E). apply bind_ok in E as (r' & El & _).
  cbn [existsb]. rewrite (compilePolicy_scriptless _ _ _ _ _ _ Hcs Hok Ha Ep). cbn [orb].
  destruct (compilePolicy_good cs Hg _ _ _ _ _ _ _ Hok Ep) as [[Ok1 S1 _ _ _ _ _ _] _ _]. eapply IH; [exact Ok1|congruence|exact El].
Qed.

Lemma compilePolicies_scriptless : scriptless compilePolicies.
Proof.
  intros l a r Hok Ha E. eapply policies_from_scriptless; [|exact compileSubs_good|exact Hok|exact Ha|exact E].
  intros l' a' r' Hok' Ha' E'. by eapply (policies_from_scriptless (fun _ _ => inl NoPolicies)); [..|exact E'].
Qed.

End Validate.

(** * A policy list and its decisions, evaluated

    A list with a status rule, an exclusion by regular expression and a rate
    limit, a trace it judges, and the properties of the policy engine at that
    point. *)


(** A pattern here matches itself only, and every duration is one second. *)
#[export] Instance ex_go : GoText := {|
  Regexp := bytes; Compile := Some; MatchString := fun re s => bool_decide (re = s);
  Text.ParseDuration := fun _ => Some 1000000000; ToUpper := id; TrimSpace := id |}.

Fixpoint ex_get (m : attrs) (k : bytes) : option Value :=
  match m with [] => None | (k', v) :: m => if decide (k' = k) then Some v else ex_get m k end.
Definition ex_hash (lo hi : Z) : Z := lo.

Definition ex_policy (name ty : bytes) : PolicyConfig := mkPolicy name ty None None None None None None None None None.

(** "errors": status ERROR; "health": an exclusion; "rest": two spans a second. *)
Definition ex_errors : PolicyConfig :=
  mkPolicy [101] TypeStatusCode None (Some [text "ERROR"]) None None None None None None None.
Definition ex_health : PolicyConfig :=
  mkPolicy [104] TypeStringAttribute None None (Some (mkStringAttr [112] [[104]] true 0 true)) None None None None None None.
Definition ex_rest : PolicyConfig := mkPolicy [114] TypeRateLimiting None None None None None None (Some (of_int 2)) None None.
Definition ex_cfg : Config := mkConfig [ex_errors; ex_health; ex_rest] None.
Definition ex_clock (i : nat) : Z := 1000000000 * (1 + Z.of_nat i).

Definition ex_world : world := mkWorld [NewBucket (of_int 2)] [newRegexCache 1000].
Definition ex_ev : Evaluator :=
  mkEvaluator [mkNamed [101] (statusPolicy 4); mkNamed [104] (stringAttrPolicy [112] None [[104]] 0 true); mkNamed [114] (ratePolicy 0 1)]
    true ex_world ex_clock 0.

Lemma ex_new : New ex_cfg ex_clock = inr ex_ev.
Proof. reflexivity. Qed.

Definition ex_span (start end_ status : Z) (m : attrs) : Span := mkSpan [115] 0 status m start end_ 7 1 [] [].
Definition ex_res : option (nat * attrs) := Some (0%nat, [([112], VStr [105])]).
Definition ex_trace : Trace := mkTrace 7 [mkTSpan (ex_span 10 20 0 []) ex_res; mkTSpan (ex_span 15 40 0 []) ex_res] 0.
Definition ex_part : Trace := mkTrace 7 [mkTSpan (ex_span 15 40 0 []) ex_res] 0.

Lemma ex_coherent : coherent ex_trace.
Proof.
  intros s1 s2 h m1 m2 H1 H2 E1 E2. cbn in H1, H2.
  repeat (apply elem_of_cons in H1 as [->|H1]; [|try by apply not_elem_of_nil in H1]);
  repeat (apply elem_of_cons in H2 as [->|H2]; [|try by apply not_elem_of_nil in H2]); cbn in E1, E2; congruence.
Qed.

Lemma ex_reached : reached ex_get ex_hash ex_cfg ex_clock (Decide ex_get ex_hash ex_trace ex_ev).2.
Proof. apply reached_decide; [apply reached_new, ex_new|exact ex_coherent]. Qed.

Lemma decide_reference_witness :
  let e := (Decide ex_get ex_hash ex_trace ex_ev).2 in
  (Decide ex_get ex_hash ex_trace e).1 = (ref_from ex_get ex_hash (policies e) ex_trace (ex_clock 1) 0 (ev_world e)).1.
Proof. intros e. refine (proj1 (decide_reference ex_get ex_hash ex_cfg ex_clock e ex_trace (ex_clock 1) ex_reached ex_coherent _)). intros _. reflexivity. Defined.

(** The first decision spends the two tokens of the bucket, a re-decision that
    remembers it finds it as it was. *)
Lemma budget_exact_witness :
  let d := (Decide ex_get ex_hash ex_trace ex_ev).1 in
  d_charged d = 1 /\ exists b', buckets (ev_world (Decide ex_get ex_hash ex_trace ex_ev).2) !! 0%nat = Some b' /\
    Peek (of_int 2) (ex_clock 0) (NewBucket (of_int 2)) = true /\ b' = debit (of_int 2) (refillLocked (ex_clock 0) (NewBucket (of_int 2))).
Proof.
  split; [reflexivity|].
  exact (budget_exact ex_get ex_hash ex_cfg ex_clock ex_ev ex_trace _ _ (reached_new _ _ _ _ _ ex_new) ltac:(apply Nat.leb_le; reflexivity) eq_refl
    0%nat (NewBucket (of_int 2)) eq_refl).
Defined.

Lemma labels_distinct_witness : NoDup (Names ex_ev) /\ Policy (Decide ex_get ex_hash ex_trace ex_ev).1 = [114].
Proof.
  split; [|reflexivity].
  exact (proj1 (labels_distinct ex_get ex_hash ex_cfg ex_clock ex_ev ex_trace (reached_new _ _ _ _ _ ex_new))).
Defined.

Lemma duration_lower_bound_witness : traceDuration ex_part = Some 25 /\ exists d', traceDuration ex_trace = Some d' /\ 0 <= 25 <= d'.
Proof.
  split; [reflexivity|]. destruct (duration_lower_bound ex_part ex_trace 25) as (d' & E & H & _).
  - repeat constructor; cbn; lia.
  - intros s Hs. cbn in *. by right.
  - reflexivity.
  - by exists d'.
Defined.

