(* ===== verification/TailCache.v ===== *)
(** * The decision cache ([internal/agent/tailbuffer/cache.go])

    Verdicts by trace id, in a map beside a queue of the puts that wrote them.
    A slot of the queue is live while the map still carries its number.  The
    numbers are 64-bit in the code and unbounded here; the clock is the
    caller's. *)

From S2P Require Import Prelude.
Local Open Scope Z_scope.

Record decision := mkDec { dc_charged : Z; dc_at : Z; dc_seq : Z; dc_keep : bool }.
Record cacheSlot := mkSlot { sl_id : Z; sl_seq : Z }.

(** [evicted] is the counter of live verdicts lost to the capacity. *)
Record decisionCache := mkCache {
  c_max : Z; c_ttl : Z; c_m : gmap Z decision; c_fifo : list cacheSlot; c_head : nat; c_seq : Z; c_base : Z; c_hasBase : bool;
  c_evicted : Z }.

Definition newDecisionCache (limit ttl : Z) : decisionCache := mkCache limit ttl ∅ [] 0 0 0 false 0.

Definition set_m v (c : decisionCache) := mkCache (c_max c) (c_ttl c) v (c_fifo c) (c_head c) (c_seq c) (c_base c) (c_hasBase c) (c_evicted c).
Definition set_queue fifo head (c : decisionCache) := mkCache (c_max c) (c_ttl c) (c_m c) fifo head (c_seq c) (c_base c) (c_hasBase c) (c_evicted c).
Definition set_seq v (c : decisionCache) := mkCache (c_max c) (c_ttl c) (c_m c) (c_fifo c) (c_head c) v (c_base c) (c_hasBase c) (c_evicted c).
Definition set_base v (c : decisionCache) := mkCache (c_max c) (c_ttl c) (c_m c) (c_fifo c) (c_head c) (c_seq c) v true (c_evicted c).
Definition set_evicted v (c : decisionCache) := mkCache (c_max c) (c_ttl c) (c_m c) (c_fifo c) (c_head c) (c_seq c) (c_base c) (c_hasBase c) v.

Definition age (c : decisionCache) (d : decision) (now : Z) : Z := time_sub now (c_base c) - dc_at d.

Definition live (m : gmap Z decision) (s : cacheSlot) : bool :=
  match m !! sl_id s with Some d => dc_seq d =? sl_seq s | None => false end.

Definition get (id now : Z) (c : decisionCache) : option bool :=
  match c_m c !! id with
  | Some d => if c_ttl c <=? age c d now then None else Some (dc_keep d)
  | None => None
  end.

(** A miss has spent nothing. *)
Definition charged (id : Z) (c : decisionCache) : Z := match c_m c !! id with Some d => dc_charged d | None => 0 end.

(** How many slots [evict] steps over, the live one it takes included, and that
    slot. *)
Fixpoint oldest (m : gmap Z decision) (l : list cacheSlot) : nat * option cacheSlot :=
  match l with
  | [] => (0%nat, None)
  | s :: rest => if live m s then (1%nat, Some s) else let '(n, o) := oldest m rest in (S n, o)
  end.

Definition evict (now : Z) (c : decisionCache) : decisionCache :=
  let '(n, o) := oldest (c_m c) (drop (c_head c) (c_fifo c)) in
  let c' := set_queue (c_fifo c) (c_head c + n) c in
  match o with
  | None => c'
  | Some s =>
      let c' := set_m (delete (sl_id s) (c_m c)) c' in
      match c_m c !! sl_id s with
      | Some d => if age c d now <? c_ttl c then set_evicted (c_evicted c + 1) c' else c'
      | None => c'
      end
  end.

Definition compactFloor : Z := 64.

Fixpoint leading_dead (m : gmap Z decision) (l : list cacheSlot) : nat :=
  match l with [] => 0%nat | s :: rest => if live m s then 0%nat else S (leading_dead m rest) end.

Definition compact (c : decisionCache) : decisionCache :=
  let head := (c_head c + leading_dead (c_m c) (drop (c_head c) (c_fifo c)))%nat in
  let n := Z.of_nat (length (c_fifo c)) - Z.of_nat head in
  if 2 * Z.of_nat (size (c_m c)) + compactFloor <? n then
    set_queue (filter (fun s => live (c_m c) s = true) (drop head (c_fifo c))) 0 c
  else if decide (head = 0 \/ head < length (c_fifo c) / 2)%nat then set_queue (c_fifo c) head c
  else set_queue (drop head (c_fifo c)) 0 c.

Definition put (id : Z) (keep : bool) (mask now : Z) (c : decisionCache) : decisionCache :=
  let c := if c_hasBase c then c else set_base now c in
  let '(mask, c) := match c_m c !! id with
                    | Some old => (Z.lor mask (dc_charged old), set_m (delete id (c_m c)) c)
                    | None => (mask, c)
                    end in
  let c := if c_max c <=? Z.of_nat (size (c_m c)) then evict now c else c in
  let c := set_seq (c_seq c + 1) c in
  let c := set_m (<[id := mkDec mask (time_sub now (c_base c)) (c_seq c) keep]> (c_m c)) c in
  let c := set_queue (c_fifo c ++ [mkSlot id (c_seq c)]) (c_head c) c in
  compact c.

Definition cache_len (c : decisionCache) : Z := Z.of_nat (size (c_m c)).

(** ** The specification: a bounded list, oldest put first *)

Notation entry := (Z * decision)%type.

Definition spec_drop (id : Z) (l : list entry) : list entry := filter (fun e => e.1 <> id) l.
Definition spec_map (l : list entry) : gmap Z decision := list_to_map l.

Definition spec_put (max id : Z) (keep : bool) (mask at_ seq : Z) (l : list entry) : list entry :=
  let mask := match spec_map l !! id with Some old => Z.lor mask (dc_charged old) | None => mask end in
  let l := spec_drop id l in
  (if max <=? Z.of_nat (length l) then tail l else l) ++ [(id, mkDec mask at_ seq keep)].

(** ** The invariant *)

Definition slot_of (e : entry) : cacheSlot := mkSlot e.1 (dc_seq e.2).

Record cache_rel (c : decisionCache) (l : list entry) : Prop := {
  cr_ids : NoDup l.*1;
  cr_map : c_m c = spec_map l;
  cr_live : filter (fun s => live (c_m c) s = true) (drop (c_head c) (c_fifo c)) = slot_of <$> l;
  cr_seq : forall s, s ∈ c_fifo c -> sl_seq s <= c_seq c;
  cr_head : (c_head c <= length (c_fifo c))%nat }.

Record cache_inv (c : decisionCache) (l : list entry) : Prop := {
  ci_rel : cache_rel c l;
  ci_max : 1 <= c_max c;
  ci_size : Z.of_nat (length l) <= c_max c;
  ci_queue : Z.of_nat (length (c_fifo c)) <= 4 * Z.of_nat (length l) + 2 * compactFloor }.

Notation alive m := (filter (fun s => live m s = true)).

Lemma in_drop {A} (x : A) n l : x ∈ drop n l -> x ∈ l.
Proof. intros Hx. rewrite <- (take_drop n l). apply elem_of_app. by right. Qed.

Lemma filter_true {A} (P : A -> Prop) `{forall x, Decision (P x)} l : Forall P l -> filter P l = l.
Proof. induction 1 as [|x l Hx _ IH]; [done|]. rewrite filter_cons, decide_True by done. by rewrite IH. Qed.

Lemma cache_new limit ttl : 1 <= limit -> cache_inv (newDecisionCache limit ttl) [].
Proof.
  intros H. constructor; cbn; try done; [|lia]. constructor; cbn; try done; [apply NoDup_nil_2|by intros s Hs%not_elem_of_nil].
Qed.

Lemma cache_size c l : cache_rel c l -> size (c_m c) = length l.
Proof. intros Hi. rewrite (cr_map c l Hi). unfold spec_map. rewrite map_size_list_to_map by apply Hi. done. Qed.

Lemma spec_map_drop id l : NoDup l.*1 -> spec_map (spec_drop id l) = delete id (spec_map l).
Proof.
  induction l as [|[i d] l IH]; intros Hn; [unfold spec_map; cbn; by rewrite delete_empty|]. cbn [fmap list_fmap fst] in Hn. apply NoDup_cons in Hn as [Hi Hn].
  unfold spec_drop, spec_map in *. rewrite filter_cons, list_to_map_cons. case_decide as Hd; cbn [fst] in Hd.
  - rewrite list_to_map_cons, IH by done. by rewrite delete_insert_ne by done.
  - assert (i = id) as -> by (destruct (decide (i = id)); tauto). rewrite IH by done. by rewrite delete_insert_eq.
Qed.

Lemma spec_drop_ids id l : NoDup l.*1 -> NoDup (spec_drop id l).*1 /\ id ∉ (spec_drop id l).*1.
Proof.
  intros Hn. split.
  - eapply sublist_NoDup; [exact Hn|]. apply fmap_sublist, sublist_filter.
  - intros Hin. apply list_elem_of_fmap in Hin as ([i d] & -> & Hin). apply list_elem_of_filter in Hin as [? _]. done.
Qed.

Lemma spec_drop_length id l : (length (spec_drop id l) <= length l)%nat.
Proof. apply sublist_length, sublist_filter. Qed.

(** ** Live slots *)

Lemma live_delete m id s : live (delete id m) s = true <-> sl_id s <> id /\ live m s = true.
Proof.
  unfold live. destruct (decide (sl_id s = id)) as [->|Hne]; [rewrite lookup_delete_eq; split; [done|tauto]|].
  rewrite lookup_delete_ne by done. tauto.
Qed.

Lemma alive_delete m id (q : list cacheSlot) l : NoDup l.*1 -> alive m q = slot_of <$> l -> alive (delete id m) q = slot_of <$> spec_drop id l.
Proof.
  intros Hn E. transitivity (filter (fun s => sl_id s <> id) (alive m q)).
  - rewrite list_filter_filter. apply list_filter_iff. intros s. apply live_delete.
  - rewrite E. unfold spec_drop. clear E Hn. induction l as [|e l IH]; cbn [fmap list_fmap]; [done|].
    rewrite !filter_cons. cbn [slot_of sl_id]. case_decide; cbn [fmap list_fmap]; by rewrite IH.
Qed.

Lemma alive_insert m id d (q : list cacheSlot) : (forall s, s ∈ q -> sl_seq s < dc_seq d) -> m !! id = None -> alive (<[id := d]> m) q = alive m q.
Proof.
  intros Hq Hm. induction q as [|s q IH]; [done|]. rewrite !filter_cons.
  assert (Hs : live (<[id := d]> m) s = live m s).
  { unfold live. destruct (decide (sl_id s = id)) as [->|Hne]; [|by rewrite lookup_insert_ne].
    rewrite lookup_insert_eq, Hm. apply Z.eqb_neq. specialize (Hq s (list_elem_of_here _ _)). lia. }
  rewrite Hs. rewrite IH; [done|]. intros s' Hs'. apply Hq. by right.
Qed.

Lemma oldest_spec m q : match (oldest m q).2 with
  | Some s => exists q1, q = q1 ++ s :: drop (oldest m q).1 q /\ alive m q = s :: alive m (drop (oldest m q).1 q)
  | None => alive m q = []
  end.
Proof.
  induction q as [|s q IH]; cbn [oldest]; [done|]. rewrite filter_cons. destruct (live m s) eqn:E.
  - cbn [snd fst drop]. rewrite decide_True by done. by exists [].
  - destruct (oldest m q) as [n [s'|]]; cbn [snd fst] in *; (rewrite decide_False by congruence); [|done].
    cbn [drop]. destruct IH as (q1 & E1 & E2). exists (s :: q1). split; [by rewrite E1 at 1|done].
Qed.

Lemma oldest_length m q : ((oldest m q).1 <= length q)%nat.
Proof. induction q as [|s q IH]; cbn [oldest]; [done|]. destruct (live m s); cbn; [lia|]. destruct (oldest m q); cbn in *. lia. Qed.

Lemma leading_dead_alive m (q : list cacheSlot) : alive m (drop (leading_dead m q) q) = alive m q.
Proof.
  induction q as [|s q IH]; cbn [leading_dead]; [done|]. destruct (live m s) eqn:E; [done|]. cbn [drop]. rewrite IH, filter_cons.
  by rewrite decide_False by congruence.
Qed.

Lemma leading_dead_length m q : (leading_dead m q <= length q)%nat.
Proof. induction q as [|s q IH]; cbn; [done|]. destruct (live m s); lia. Qed.

Lemma tail_map {A B} (f : A -> B) l : tail (f <$> l) = f <$> tail l.
Proof. by destruct l. Qed.

(** ** The operations keep it *)

Lemma evict_rel now c l : l <> [] -> cache_rel c l -> cache_rel (evict now c) (tail l) /\
  c_fifo (evict now c) = c_fifo c /\ c_seq (evict now c) = c_seq c /\ c_max (evict now c) = c_max c /\ c_base (evict now c) = c_base c.
Proof.
  intros Hne [Hn Hm Hl Hs Hh]. unfold evict. pose proof (oldest_spec (c_m c) (drop (c_head c) (c_fifo c))) as Ho.
  pose proof (oldest_length (c_m c) (drop (c_head c) (c_fifo c))) as Hk. rewrite length_drop in Hk.
  destruct (oldest (c_m c) (drop (c_head c) (c_fifo c))) as [n [s|]]; cbn [fst snd] in Ho, Hk.
  - destruct Ho as (q1 & Eq & Ea). rewrite drop_drop in *. rewrite Hl in Ea.
    destruct l as [|[id d] l]; [done|]. cbn [fmap list_fmap] in Ea. injection Ea as <- Ea. cbn [slot_of sl_id fst] in *.
    assert (Hid : c_m c !! id = Some d) by (rewrite Hm; unfold spec_map; rewrite list_to_map_cons; apply lookup_insert_eq). rewrite Hid.
    assert (G : cache_rel (set_m (delete id (c_m c)) (set_queue (c_fifo c) (c_head c + n) c)) l).
    { apply NoDup_cons in Hn as [Hi Hn]. constructor; cbn [set_m set_queue c_m c_fifo c_head c_seq].
      - done.
      - rewrite Hm. unfold spec_map. rewrite list_to_map_cons. rewrite delete_insert_id; [done|]. by apply not_elem_of_list_to_map_1.
      - rewrite (alive_delete _ _ _ l Hn) by done. unfold spec_drop. f_equal. apply filter_true, Forall_forall.
        intros [i d'] Hin E. cbn in E. subst. apply Hi. apply list_elem_of_fmap. by exists (id, d').
      - done.
      - lia. }
    destruct (age c d now <? c_ttl c); (split; [|repeat split]); [|exact G].
    destruct G. by constructor.
  - rewrite Hl in Ho. by destruct l.
Qed.

Lemma compact_inv c l : cache_rel c l -> cache_rel (compact c) l /\
  Z.of_nat (length (c_fifo (compact c))) <= 4 * Z.of_nat (length l) + 2 * compactFloor /\ c_max (compact c) = c_max c.
Proof.
  intros Hrel. pose proof (cache_size c l Hrel) as Hsize. destruct Hrel as [Hn Hm Hl Hs Hh]. unfold compact. rewrite Hsize.
  pose proof (leading_dead_alive (c_m c) (drop (c_head c) (c_fifo c))) as Hd.
  pose proof (leading_dead_length (c_m c) (drop (c_head c) (c_fifo c))) as Hk. rewrite length_drop in Hk.
  set (k := leading_dead (c_m c) (drop (c_head c) (c_fifo c))) in *. rewrite drop_drop in Hd. rewrite Hl in Hd.
  assert (Hlen : length (slot_of <$> l) = length l) by apply length_fmap. unfold compactFloor in *.
  case_match eqn:E1; [|case_decide as E2]; cbn [set_queue c_m c_fifo c_head c_seq c_max].
  - rewrite Hd. split; [|split; [lia|done]]. constructor; cbn [set_queue c_m c_fifo c_head c_seq]; try done; [|intros s Hin|lia].
    + rewrite drop_0, <- Hd. rewrite list_filter_filter_l; [done|tauto].
    + rewrite <- Hd in Hin. apply list_elem_of_filter in Hin as [_ Hin]. apply Hs. by eapply in_drop.
  - apply Z.ltb_ge in E1. split; [by constructor; cbn [set_queue c_m c_fifo c_head c_seq]; try done; lia|]. split; [|done].
    destruct E2 as [E2|E2]; [lia|].
    assert (2 * (length (c_fifo c) / 2) <= length (c_fifo c))%nat by apply Nat.Div0.mul_div_le. lia.
  - apply Z.ltb_ge in E1. split; [|split; [rewrite length_drop; lia|done]].
    constructor; cbn [set_queue c_m c_fifo c_head c_seq]; try done; [|lia].
    intros s Hin. apply Hs. by eapply in_drop.
Qed.

(** [put] is the specification's, and the queue stays within four times what is
    live, and a constant. *)
Lemma put_rel id keep mask now c l : cache_rel c l -> 1 <= c_max c ->
  let base := if c_hasBase c then c_base c else now in
  let l' := spec_put (c_max c) id keep mask (time_sub now base) (c_seq c + 1) l in
  cache_rel (put id keep mask now c) l' /\
  Z.of_nat (length (c_fifo (put id keep mask now c))) <= 4 * Z.of_nat (length l') + 2 * compactFloor /\
  c_max (put id keep mask now c) = c_max c.
Proof.
  intros Hrel0 Hmax0 base l'. subst base l'. unfold put, spec_put.
  destruct (if c_hasBase c then c else set_base now c) as [mx ttl m fifo head seq base hb ev] eqn:Ec.
  assert (Hc1 : cache_rel (mkCache mx ttl m fifo head seq base hb ev) l /\ 1 <= mx /\ mx = c_max c /\ seq = c_seq c /\ base = if c_hasBase c then c_base c else now).
  { rewrite <- Ec. destruct c, c_hasBase; injection Ec as <- <- <- <- <- <- <- <- <-; split_and!; try done.
    destruct Hrel0. by constructor. }
  destruct Hc1 as ([Hn Hm Hl Hs Hh] & Hmx & <- & <- & <-). cbn [c_m c_fifo c_head c_seq c_max] in *. subst m. cbn [c_m].
  set (mask' := match spec_map l !! id with Some old => Z.lor mask (dc_charged old) | None => mask end).
  assert (E2 : (match spec_map l !! id with
      | Some old => (Z.lor mask (dc_charged old), set_m (delete id (spec_map l)) (mkCache mx ttl (spec_map l) fifo head seq base hb ev))
      | None => (mask, mkCache mx ttl (spec_map l) fifo head seq base hb ev)
      end) = (mask', mkCache mx ttl (spec_map (spec_drop id l)) fifo head seq base hb ev)).
  { subst mask'. rewrite spec_map_drop by done. destruct (spec_map l !! id) eqn:E; [done|]. by rewrite delete_id. }
  rewrite E2. clear E2 Ec. clearbody mask'.
  assert (H2 : cache_rel (mkCache mx ttl (spec_map (spec_drop id l)) fifo head seq base hb ev) (spec_drop id l)).
  { constructor; cbn [c_m c_fifo c_head c_seq]; try done; [by apply spec_drop_ids|]. rewrite spec_map_drop by done. by apply alive_delete. }
  pose proof (proj2 (spec_drop_ids id l Hn)) as Hid. clear Hrel0 Hn Hl. revert H2 Hid. generalize (spec_drop id l). clear l. intros l H2 Hid.
  cbn [c_max]. pose proof (cache_size _ _ H2) as Hsize. cbn [c_m] in Hsize.
  set (c2 := mkCache mx ttl (spec_map l) fifo head seq base hb ev) in *.
  change (c_m c2) with (spec_map l). rewrite Hsize.
  set (c3 := if mx <=? Z.of_nat (length l) then evict now c2 else c2).
  set (l3 := if mx <=? Z.of_nat (length l) then tail l else l).
  assert (H3 : cache_rel c3 l3 /\ c_seq c3 = seq /\ c_max c3 = mx /\ c_base c3 = base /\ id ∉ l3.*1).
  { subst c3 l3. destruct (mx <=? Z.of_nat (length l)) eqn:E; [|done]. apply Z.leb_le in E.
    destruct (evict_rel now c2 l) as (G1 & G2 & G3 & G4 & G5); [destruct l; [exfalso; cbn in E; lia|done]|done|]. split_and!; try done. destruct l; [done|]. set_solver. }
  clearbody c3 l3. destruct H3 as ([Hn Hm Hl Hs' Hh'] & <- & <- & <- & Hid3).
  match goal with |- context [compact ?x] => set (c6 := x) end.
  match goal with |- cache_rel _ ?x /\ _ => set (l6 := x) end.
  assert (H6 : cache_rel c6 l6 /\ c_max c6 = c_max c3).
  { split; [|done]. subst c6 l6. constructor; cbn [set_queue set_m set_seq c_m c_fifo c_head c_seq c_base].
    - rewrite fmap_app. apply NoDup_app. split_and!; [done|set_solver|apply NoDup_singleton].
    - rewrite Hm. unfold spec_map. by rewrite list_to_map_snoc.
    - rewrite drop_app_le by done. rewrite filter_app, fmap_app. f_equal.
      + rewrite alive_insert; [done|cbn [dc_seq]; intros s Hin; apply in_drop, Hs' in Hin; lia|].
        rewrite Hm. by apply not_elem_of_list_to_map_1.
      + rewrite filter_cons, decide_True; [done|]. unfold live. cbn [sl_id sl_seq]. rewrite lookup_insert_eq. cbn [dc_seq]. apply Z.eqb_refl.
    - intros s [Hin|Hin%list_elem_of_singleton]%elem_of_app; [apply Hs' in Hin; lia|]. subst s. cbn. lia.
    - rewrite length_app. cbn. lia. }
  destruct H6 as [H6 <-]. exact (compact_inv c6 l6 H6).
Qed.

Lemma put_size id keep mask c l : Z.of_nat (length l) <= c_max c -> 1 <= c_max c ->
  forall at_ seq, Z.of_nat (length (spec_put (c_max c) id keep mask at_ seq l)) <= c_max c.
Proof.
  intros Hl Hm at_ seq. unfold spec_put. rewrite length_app. cbn [length]. pose proof (spec_drop_length id l).
  destruct (c_max c <=? Z.of_nat (length (spec_drop id l))) eqn:E; [apply Z.leb_le in E|apply Z.leb_gt in E; lia].
  destruct (spec_drop id l); cbn in *; lia.
Qed.

Lemma put_inv id keep mask now c l : cache_inv c l ->
  cache_inv (put id keep mask now c)
    (spec_put (c_max c) id keep mask (time_sub now (if c_hasBase c then c_base c else now)) (c_seq c + 1) l).
Proof.
  intros [Hr Hm Hs _]. destruct (put_rel id keep mask now c l Hr Hm) as (G1 & G2 & G3). split; [done|by rewrite G3| |done].
  rewrite G3. by apply put_size.
Qed.

(** ** What is remembered *)

(** The specification's fields do not affect which masks it holds. *)
Lemma spec_put_self max id keep mask at_ seq l : NoDup l.*1 ->
  spec_map (spec_put max id keep mask at_ seq l) !! id =
    Some (mkDec (match spec_map l !! id with Some old => Z.lor mask (dc_charged old) | None => mask end) at_ seq keep).
Proof.
  intros Hn. unfold spec_put, spec_map at 1. rewrite list_to_map_snoc; [apply lookup_insert_eq|].
  pose proof (proj2 (spec_drop_ids id l Hn)) as Hid. case_match; [|done]. destruct (spec_drop id l); [done|set_solver].
Qed.

(** Another trace's entry is kept or, being the oldest, lost. *)
Lemma spec_put_other max id id' keep mask at_ seq l : NoDup l.*1 -> id <> id' ->
  spec_map (spec_put max id keep mask at_ seq l) !! id' = spec_map l !! id' \/
  spec_map (spec_put max id keep mask at_ seq l) !! id' = None.
Proof.
  intros Hn Hne. unfold spec_put. destruct (spec_drop_ids id l Hn) as [Hn' Hid].
  assert (E : spec_map (spec_drop id l) !! id' = spec_map l !! id') by (rewrite spec_map_drop by done; by apply lookup_delete_ne).
  rewrite <- E. revert Hn' Hid. generalize (spec_drop id l). intros k Hn' Hid. case_match.
  - assert (Hid' : id ∉ (tail k).*1) by (destruct k; [done|set_solver]).
    unfold spec_map. rewrite list_to_map_snoc, lookup_insert_ne by done.
    destruct k as [|[i d] k]; [by left|]. cbn [tail]. rewrite list_to_map_cons.
    destruct (decide (i = id')) as [->|Hd]; [|left; by rewrite lookup_insert_ne]. right. apply not_elem_of_list_to_map_1.
    by apply NoDup_cons in Hn' as [? _].
  - left. unfold spec_map. by rewrite list_to_map_snoc, lookup_insert_ne.
Qed.

(** ** Refinement

    What the cache promises is a list, oldest put first, of the verdict, the
    buckets the trace has paid, and when it was judged. *)
Notation verdict_at := (Z * (bool * Z * Z))%type.

Definition paid_before (id : Z) (l : list verdict_at) : Z := match (list_to_map l : gmap Z _) !! id with Some (_, m, _) => m | None => 0 end.

Definition abs_put (max id : Z) (keep : bool) (mask now : Z) (l : list verdict_at) : list verdict_at :=
  let mask := Z.lor mask (paid_before id l) in
  let l := filter (fun e => e.1 <> id) l in
  (if max <=? Z.of_nat (length l) then tail l else l) ++ [(id, (keep, mask, now))].

Definition abs_get (ttl id now : Z) (l : list verdict_at) : option bool :=
  match (list_to_map l : gmap Z _) !! id with
  | Some (keep, _, t) => if ttl <=? now - t then None else Some keep
  | None => None
  end.

Record put_op := mkPut { po_id : Z; po_keep : bool; po_mask : Z; po_now : Z }.
Definition do_put (c : decisionCache) (p : put_op) : decisionCache := put (po_id p) (po_keep p) (po_mask p) (po_now p) c.
Definition do_abs (max : Z) (l : list verdict_at) (p : put_op) : list verdict_at := abs_put max (po_id p) (po_keep p) (po_mask p) (po_now p) l.

(** A clock reading before the year 2116. *)
Definition sane (now : Z) : Prop := 0 < now < 2 ^ 62.

(** An entry as the list has it: its offset counts from the base. *)
Definition entry_rel (base : Z) (e : entry) (v : verdict_at) : Prop :=
  e.1 = v.1 /\ dc_keep e.2 = v.2.1.1 /\ dc_charged e.2 = v.2.1.2 /\ dc_at e.2 = v.2.2 - base /\ sane v.2.2.

Definition abs_rel (c : decisionCache) (v : list verdict_at) : Prop :=
  exists l, cache_inv c l /\ Forall2 (entry_rel (c_base c)) l v /\ (c_hasBase c = false -> l = []) /\ (c_hasBase c = true -> sane (c_base c)).

Lemma entries_lookup base l v id : Forall2 (entry_rel base) l v ->
  match spec_map l !! id, (list_to_map v : gmap Z _) !! id with
  | Some d, Some (k, m, t) => dc_keep d = k /\ dc_charged d = m /\ dc_at d = t - base /\ sane t
  | None, None => True
  | _, _ => False
  end.
Proof.
  induction 1 as [|[i d] [j [[k m] t]] l v (E1 & E2 & E3 & E4 & E5) _ IH]; [done|]. cbn in E1, E2, E3, E4, E5. subst j.
  unfold spec_map. rewrite !list_to_map_cons. destruct (decide (i = id)) as [->|Hne]; [by rewrite !lookup_insert_eq|].
  rewrite !lookup_insert_ne by done. exact IH.
Qed.

Lemma entries_drop base l v id : Forall2 (entry_rel base) l v ->
  Forall2 (entry_rel base) (spec_drop id l) (filter (fun e => e.1 <> id) v).
Proof.
  unfold spec_drop. induction 1 as [|e w l v Hew _ IH]; [done|]. rewrite !filter_cons. destruct Hew as [E ?].
  rewrite E. case_decide; [constructor; [by split|done]|done].
Qed.

(** What no operation after the first put changes. *)
Definition same_clock (a b : decisionCache) : Prop :=
  c_hasBase a = c_hasBase b /\ c_base a = c_base b /\ c_ttl a = c_ttl b /\ c_max a = c_max b.

Lemma evict_clock now c : same_clock (evict now c) c.
Proof. unfold evict. destruct (oldest _ _) as [n [s|]]; [|done]. destruct (c_m c !! sl_id s); [|done]. by case_match. Qed.

Lemma compact_clock c : same_clock (compact c) c.
Proof. unfold compact. case_match; [done|]. by case_decide. Qed.

Lemma same_clock_trans a b c : same_clock a b -> same_clock b c -> same_clock a c.
Proof. unfold same_clock. intros (->&->&->&->) (->&->&->&->). done. Qed.

Lemma put_clock id keep mask now c : same_clock (put id keep mask now c) (if c_hasBase c then c else set_base now c).
Proof.
  unfold put. generalize (if c_hasBase c then c else set_base now c). intros x.
  destruct (match c_m x !! id with Some old => _ | None => _ end) as [mask' y] eqn:E.
  assert (Hy : same_clock y x) by (destruct (c_m x !! id); by injection E as <- <-).
  eapply same_clock_trans; [apply compact_clock|]. eapply same_clock_trans; [|exact Hy].
  destruct (c_max y <=? Z.of_nat (size (c_m y))); [|done]. apply (evict_clock now y).
Qed.

Lemma base_sub now base : sane now -> sane base -> time_sub now base = now - base.
Proof. unfold sane. intros. apply time_sub_exact. unfold is_duration, min_int64, max_int64. lia. Qed.

Lemma do_put_rel c v p : abs_rel c v -> sane (po_now p) -> abs_rel (do_put c p) (do_abs (c_max c) v p) /\
  c_max (do_put c p) = c_max c /\ c_ttl (do_put c p) = c_ttl c.
Proof.
  intros (l & Hi & Hf & Hnil & Hb) Hnow. unfold do_put, do_abs. destruct p as [id keep mask now]. cbn [po_id po_keep po_mask po_now] in *.
  destruct (put_clock id keep mask now c) as (E1 & E2 & E3 & E4).
  assert (Eh : c_hasBase (put id keep mask now c) = true) by (rewrite E1; by destruct (c_hasBase c) eqn:E).
  assert (Eb : c_base (put id keep mask now c) = if c_hasBase c then c_base c else now) by (rewrite E2; by destruct (c_hasBase c)).
  set (base := if c_hasBase c then c_base c else now) in *.
  assert (Hbase : sane base) by (subst base; destruct (c_hasBase c); auto).
  assert (Hf' : Forall2 (entry_rel base) l v).
  { subst base. destruct (c_hasBase c); [done|]. rewrite (Hnil eq_refl) in *. inversion Hf. constructor. }
  split; [|by rewrite E3, E4; destruct (c_hasBase c)].
  eexists. split; [exact (put_inv id keep mask now c l Hi)|]. split; [|rewrite Eh, Eb; by split].
  fold base. rewrite Eb. unfold spec_put, abs_put, paid_before.
  assert (Em : entry_rel base (id, mkDec (match spec_map l !! id with Some old => Z.lor mask (dc_charged old) | None => mask end)
      (time_sub now base) (c_seq c + 1) keep)
    (id, (keep, Z.lor mask (match (list_to_map v : gmap Z (bool * Z * Z)) !! id with Some (_, m, _) => m | None => 0 end), now))).
  { pose proof (entries_lookup base l v id Hf') as G. unfold entry_rel. cbn. rewrite base_sub by done.
    destruct (spec_map l !! id) as [d|], ((list_to_map v : gmap Z (bool * Z * Z)) !! id) as [[[k m] t]|]; try done.
    - destruct G as (G1 & -> & _). done.
    - by rewrite Z.lor_0_r. }
  pose proof (entries_drop base l v id Hf') as Hd. apply Forall2_app; [|by constructor].
  rewrite (Forall2_length _ _ _ Hd). destruct (c_max c <=? _); [|exact Hd]. destruct Hd; [constructor|done].
Qed.

(** C24: The cache is a bounded list of verdicts, oldest first: a put moves its
    trace to the end with what it has paid so far added up, and a full cache
    loses the trace put longest ago; a verdict answers while it is younger than
    its lifetime, what a trace has paid is known as long as the entry is there;
    and the queue behind it stays within four times the entries and a constant,
    whatever the order of the puts. *)
Theorem cache_refines limit ttl puts : 1 <= limit -> Forall (fun p => sane (po_now p)) puts ->
  let c := foldl do_put (newDecisionCache limit ttl) puts in
  let v := foldl (do_abs limit) [] puts in
  (forall id now, sane now -> get id now c = abs_get ttl id now v) /\
  (forall id, charged id c = paid_before id v) /\
  cache_len c = Z.of_nat (length v) /\ Z.of_nat (length v) <= limit /\
  Z.of_nat (length (c_fifo c)) <= 4 * Z.of_nat (length v) + 2 * compactFloor.
Proof.
  intros Hl Hp c v.
  assert (G : abs_rel c v /\ c_max c = limit /\ c_ttl c = ttl).
  { subst c v. assert (G0 : abs_rel (newDecisionCache limit ttl) [] /\ c_max (newDecisionCache limit ttl) = limit /\ c_ttl (newDecisionCache limit ttl) = ttl).
    { split; [|done]. exists []. split; [by apply cache_new|]. by split_and!. }
    revert G0. generalize (newDecisionCache limit ttl), ([] : list verdict_at). induction Hp as [|p puts Hnow _ IH]; intros c v G0; [done|].
    cbn [foldl]. apply IH. destruct G0 as (G1 & <- & <-). destruct (do_put_rel c v p G1 Hnow) as (G2 & G3 & G4). done. }
  destruct G as ((l & Hi & Hf & Hnil & Hb) & Em & Et). destruct Hi as [Hr Hmax Hsz Hq].
  pose proof (Forall2_length _ _ _ Hf) as Elen. pose proof (cache_size c l Hr) as Esz.
  split_and!; [intros id now Hnow|intros id|unfold cache_len; lia|lia|lia].
  - pose proof (entries_lookup _ l v id Hf) as G. unfold get, abs_get. rewrite (cr_map c l Hr), Et.
    destruct (spec_map l !! id) as [d|], ((list_to_map v : gmap Z (bool * Z * Z)) !! id) as [[[k m] t]|] eqn:Ev; try done.
    destruct G as (<- & _ & Ea & Hs). unfold age. rewrite base_sub; [|done|].
    + rewrite Ea. by replace (now - c_base c - (t - c_base c)) with (now - t) by lia.
    + destruct (c_hasBase c); [auto|]. specialize (Hnil eq_refl). subst l. destruct v; done.
  - pose proof (entries_lookup _ l v id Hf) as G. unfold charged, paid_before. rewrite (cr_map c l Hr).
    destruct (spec_map l !! id) as [d|], ((list_to_map v : gmap Z (bool * Z * Z)) !! id) as [[[k m] t]|]; try done. by destruct G as (_ & -> & _).
Qed.

Lemma cache_refines_witness :
  let puts := [mkPut 1 true 1 10; mkPut 2 false 0 20; mkPut 1 true 2 30; mkPut 3 false 0 40] in
  paid_before 1 (foldl (do_abs 2) [] puts) = 3 /\ charged 1 (foldl do_put (newDecisionCache 2 25) puts) = 3 /\
  get 2 45 (foldl do_put (newDecisionCache 2 25) puts) = None.
Proof.
  intros puts. assert (H : Forall (fun p => sane (po_now p)) puts) by (repeat constructor; unfold sane; cbn; lia).
  destruct (cache_refines 2 25 puts ltac:(lia) H) as (H1 & H2 & _). split; [reflexivity|]. split.
  - rewrite H2. reflexivity.
  - rewrite H1 by (unfold sane; lia). reflexivity.
Defined.
