(* ===== verification/Payload.v ===== *)
(** * Copying spans between payloads

    Both samplers and the tail buffer build a payload group by group: a resource
    is appended when the walk first needs it, a scope under it, a span under
    that, each the last of its parent unless something else appended to the
    payload meanwhile.  A handle the code keeps to a group is a position. *)

From S2P Require Import Prelude Clip Number Pdata.
Local Open Scope Z_scope.

(** ** Operations *)

Definition append_rs (rs : ResourceSpans) (td : Traces) : Traces := td ++ [mkRS (rs_resource rs) (rs_url rs) []].
Definition append_ss (i : nat) (ss : ScopeSpans) (td : Traces) : Traces :=
  alter (fun r => mkRS (rs_resource r) (rs_url r) (rs_scopes r ++ [mkSS (ss_scope ss) (ss_url ss) []])) i td.
Definition append_span (i j : nat) (sp : Span) (td : Traces) : Traces :=
  alter (fun r => mkRS (rs_resource r) (rs_url r)
    (alter (fun s => mkSS (ss_scope s) (ss_url s) (ss_spans s ++ [sp])) j (rs_scopes r))) i td.
Definition scopes_at (i : nat) (td : Traces) : nat := match td !! i with Some r => length (rs_scopes r) | None => 0%nat end.

(** ** What a payload holds *)

(** A span with what it arrived under: its resource and its scope. *)
Notation item := ((attrs * bytes) * (Scope * bytes) * Span)%type.
Definition rs_key (rs : ResourceSpans) : attrs * bytes := (rs_resource rs, rs_url rs).
Definition ss_key (ss : ScopeSpans) : Scope * bytes := (ss_scope ss, ss_url ss).
Definition ss_items (k : attrs * bytes) (ss : ScopeSpans) : list item := (fun sp => (k, ss_key ss, sp)) <$> ss_spans ss.
Definition rs_items (rs : ResourceSpans) : list item := rs_scopes rs ≫= ss_items (rs_key rs).
Definition items (td : Traces) : list item := td ≫= rs_items.

Lemma items_app a b : items (a ++ b) = items a ++ items b.
Proof. unfold items. by rewrite bind_app. Qed.

Lemma items_length td : length (items td) = length (td_spans td).
Proof.
  unfold items, td_spans, rs_items, rs_spans, ss_items.
  induction td as [|r td IH]; cbn; [done|]. rewrite !length_app, IH. f_equal.
  generalize (rs_key r) as k. induction (rs_scopes r) as [|s l IHl]; intros k; cbn; [done|].
  by rewrite !length_app, length_fmap, IHl.
Qed.

Lemma items_spans td it : it ∈ items td -> it.2 ∈ td_spans td.
Proof.
  unfold items, td_spans. intros Hit. apply list_elem_of_bind in Hit as (rs & Hi & Hr). apply list_elem_of_bind. exists rs. split; [|done].
  unfold rs_items, rs_spans in *. apply list_elem_of_bind in Hi as (ss & Hi & Hs). apply list_elem_of_bind. exists ss. split; [|done].
  by apply list_elem_of_fmap in Hi as (sp & -> & ?).
Qed.

(** The last group of a payload is the one keyed [K], and its last scope the one
    keyed [L]: what a handle points to while its push is walked. *)
Definition at_res (K : attrs * bytes) (td : Traces) (i : nat) : Prop :=
  exists td0 r, td = td0 ++ [r] /\ i = length td0 /\ rs_key r = K.
Definition at_cur (K : attrs * bytes) (L : Scope * bytes) (td : Traces) (i j : nat) : Prop :=
  exists td0 r s0 s, td = td0 ++ [r] /\ i = length td0 /\ rs_key r = K /\ rs_scopes r = s0 ++ [s] /\ j = length s0 /\ ss_key s = L.

Lemma append_rs_at rs td : at_res (rs_key rs) (append_rs rs td) (length td) /\ items (append_rs rs td) = items td.
Proof.
  unfold append_rs. split; [by eexists _, _|]. rewrite items_app. cbn. by rewrite !app_nil_r.
Qed.

Lemma append_ss_at K i ss td : at_res K td i ->
  at_cur K (ss_key ss) (append_ss i ss td) i (scopes_at i td) /\ items (append_ss i ss td) = items td.
Proof.
  intros (td0 & r & -> & -> & <-). unfold append_ss, scopes_at, Traces.
  rewrite alter_last, list_lookup_middle by done. split.
  - by eexists _, _, _, _.
  - rewrite !items_app. f_equal. cbn. rewrite !app_nil_r. unfold rs_items at 1. cbn. rewrite bind_app. cbn.
    by rewrite !app_nil_r.
Qed.

Lemma append_span_at K L i j sp td : at_cur K L td i j ->
  at_cur K L (append_span i j sp td) i j /\ items (append_span i j sp td) = items td ++ [(K, L, sp)].
Proof.
  intros (td0 & r & s0 & s & -> & -> & <- & Hr & -> & <-). unfold append_span, Traces. rewrite alter_last, Hr, alter_last. split.
  - by eexists _, _, _, _.
  - rewrite !items_app, <- app_assoc. f_equal. cbn. rewrite !app_nil_r. unfold rs_items. cbn.
    rewrite Hr, !bind_app, <- app_assoc. f_equal. cbn. rewrite !app_nil_r. unfold ss_items. cbn. by rewrite fmap_app.
Qed.

Lemma at_cur_res K L td i j : at_cur K L td i j -> at_res K td i.
Proof. intros (td0 & r & s0 & s & -> & -> & E & _). by exists td0, r. Qed.

(** ** Appending in the middle of a payload *)

Definition in_res (K : attrs * bytes) (td : Traces) (i : nat) : Prop := exists r, td !! i = Some r /\ rs_key r = K.
Definition in_cur (K : attrs * bytes) (L : Scope * bytes) (td : Traces) (i j : nat) : Prop :=
  exists r s, td !! i = Some r /\ rs_key r = K /\ rs_scopes r !! j = Some s /\ ss_key s = L.

Lemma alter_mid {A} (f : A -> A) l1 x l2 : alter f (length l1) (l1 ++ x :: l2) = l1 ++ f x :: l2.
Proof. induction l1 as [|y l IH]; cbn; [done|]. by rewrite IH. Qed.

Lemma lookup_mid {A} (l : list A) i x : l !! i = Some x -> exists l1 l2, l = l1 ++ x :: l2 /\ i = length l1.
Proof. intros E. exists (firstn i l), (drop (S i) l). split; [by rewrite take_drop_middle|]. apply lookup_lt_Some in E. rewrite length_take. lia. Qed.

Lemma append_ss_in K i ss td : in_res K td i -> in_cur K (ss_key ss) (append_ss i ss td) i (scopes_at i td) /\
  in_res K (append_ss i ss td) i /\ items (append_ss i ss td) = items td.
Proof.
  intros (r & E & Kr). destruct (lookup_mid _ _ _ E) as (l1 & l2 & -> & ->). unfold append_ss, scopes_at, in_res, in_cur, Traces in *.
  rewrite alter_mid, E. rewrite list_lookup_middle by done. split_and!.
  - eexists _, _. split_and!; [done|exact Kr|cbn; by rewrite list_lookup_middle|done].
  - by eexists.
  - rewrite !items_app. f_equal. cbn. f_equal. unfold rs_items at 1. cbn. rewrite bind_app. cbn. by rewrite !app_nil_r.
Qed.

Lemma append_span_in K L i j sp td : in_cur K L td i j ->
  in_cur K L (append_span i j sp td) i j /\ items (append_span i j sp td) ≡ₚ items td ++ [(K, L, sp)].
Proof.
  intros (r & s & E & <- & Es & <-). destruct (lookup_mid _ _ _ E) as (l1 & l2 & -> & ->), (lookup_mid _ _ _ Es) as (s1 & s2 & Er & ->).
  unfold append_span, in_cur, Traces in *. rewrite alter_mid, Er, alter_mid. rewrite list_lookup_middle by done. split.
  - eexists _, _. split_and!; [done|done|cbn; by rewrite list_lookup_middle|done].
  - rewrite !items_app. cbn [items mbind list_bind]. unfold rs_items. cbn [rs_scopes]. rewrite Er, !bind_app.
    cbn [mbind list_bind]. unfold ss_items at 2 5. cbn [ss_spans]. rewrite fmap_app. cbn [fmap list_fmap].
    change (rs_key (mkRS (rs_resource r) (rs_url r) (s1 ++ mkSS (ss_scope s) (ss_url s) (ss_spans s ++ [sp]) :: s2))) with (rs_key r).
    change (ss_key (mkSS (ss_scope s) (ss_url s) (ss_spans s ++ [sp]))) with (ss_key s). solve_Permutation.
Qed.

Lemma in_res_app K td more i : in_res K td i -> in_res K (td ++ more) i.
Proof. intros (r & E & ?). exists r. split; [|done]. by apply lookup_app_l_Some. Qed.

Lemma in_cur_app K L td more i j : in_cur K L td i j -> in_cur K L (td ++ more) i j.
Proof. intros (r & s & E & ?). exists r, s. split; [|done]. by apply lookup_app_l_Some. Qed.
