(* ===== verification/TailBuffer.v ===== *)
(** * The tail-sampling buffer ([internal/agent/tailbuffer]: [tailbuffer.go], [early.go])

    Spans are copied into the trace they belong to; a trace is judged once, when
    its window closes, when a bound forces it, when the process stops, or when a
    span arrives that has no trace id.  One mutex guards everything, so a hold of
    it is a function of the state; sends happen outside.

    The objects the code shares by pointer, the traces being assembled, are
    addresses in a heap: the map, the arrival queue and a push's walk point to
    the same one.  A handle into a trace's payload is a position in it.  The
    policy engine is whatever [Decider] says.  [ledger] is not in the code: it
    records what was discarded and what was billed, for the theorems. *)

From S2P Require Import Prelude Clip Number Float Text Pdata LogDedupe TailSample.
From S2P Require Import Payload TailCache.
Local Open Scope Z_scope.

(** What the buffer asks of the policy engine: one verdict. *)
Class Decider := { Ev : Type; Verdict : Trace -> Ev -> Decision * Ev }.

Record settings := mkSettings { wait : Z; maxTraces : Z; maxSpansPerTrace : Z; maxSpans : Z; cacheSize : Z; cacheTTL : Z }.

(** ** Reasons *)

Inductive earlyReason := reasonNone | reasonSpansPerTrace | reasonMaxTraces | reasonMaxSpans | reasonShutdown.
#[export] Instance earlyReason_eq_dec : EqDecision earlyReason.
Proof. solve_decision. Defined.

Definition reason_index (r : earlyReason) : nat :=
  match r with reasonNone => 0 | reasonSpansPerTrace => 1 | reasonMaxTraces => 2 | reasonMaxSpans => 3 | reasonShutdown => 4 end.
Definition numEarlyReasons : nat := 5.
Definition earlyReasonLabel (r : earlyReason) : bytes :=
  match r with
  | reasonNone => [] | reasonSpansPerTrace => text "spans_per_trace" | reasonMaxTraces => text "max_traces"
  | reasonMaxSpans => text "max_spans" | reasonShutdown => text "shutdown"
  end.

(** ** Retries ([otlpexport.Retry]) *)

(** How one send went, how every one of a call would go, and whether the wait
    before one was left to run. *)
Inductive answer := ASent | ATransient | APermanent.
Record net := mkNet { n_send : nat -> answer; n_wait : nat -> bool }.

Fixpoint retry_loop (n k : nat) (last : answer) (env : net) : answer :=
  match n with
  | 0%nat => last
  | S n =>
      if negb (bool_decide (k = 0%nat)) && negb (n_wait env k) then last
      else match n_send env k with
           | ATransient => retry_loop n (S k) ATransient env
           | a => a
           end
  end.

Definition Retry (attempts : Z) (env : net) : answer :=
  retry_loop (Z.to_nat (if attempts <? 1 then 1 else attempts)) 0 ASent env.

(** ** State *)

(** One assembling trace; [bt_first] is when its first span arrived. *)
Record bufTrace := mkBuf { bt_id : Z; bt_td : Traces; bt_spans : Z; bt_first : Z; bt_gone : bool }.
Definition set_td v e := mkBuf (bt_id e) v (bt_spans e) (bt_first e) (bt_gone e).
Definition set_spans v e := mkBuf (bt_id e) (bt_td e) v (bt_first e) (bt_gone e).
Definition set_gone e := mkBuf (bt_id e) (bt_td e) (bt_spans e) (bt_first e) true.

Record counters := mkCounters {
  byPolicy : gmap bytes (Z * Z); spansKept : Z; spansDrop : Z; spansLost : Z; lateKept : Z; lateDrop : Z;
  earlyCount : list Z; earlyPending : list Z }.
Definition bump_policy (name : bytes) (keep : bool) (c : counters) : counters :=
  let '(k, d) := default (0, 0) (byPolicy c !! name) in
  mkCounters (<[name := if keep then (k + 1, d) else (k, d + 1)]> (byPolicy c)) (spansKept c) (spansDrop c) (spansLost c) (lateKept c)
    (lateDrop c) (earlyCount c) (earlyPending c).
Definition bump_early (r : earlyReason) (c : counters) : counters :=
  mkCounters (byPolicy c) (spansKept c) (spansDrop c) (spansLost c) (lateKept c) (lateDrop c)
    (alter Z.succ (reason_index r) (earlyCount c)) (alter Z.succ (reason_index r) (earlyPending c)).
Definition set_pending v (c : counters) : counters :=
  mkCounters (byPolicy c) (spansKept c) (spansDrop c) (spansLost c) (lateKept c) (lateDrop c) (earlyCount c) v.
Definition tally (kept drop lost lkept ldrop : Z) (c : counters) : counters :=
  mkCounters (byPolicy c) (spansKept c + kept) (spansDrop c + drop) (spansLost c + lost) (lateKept c + lkept) (lateDrop c + ldrop)
    (earlyCount c) (earlyPending c).

(** What a verdict discarded, and per trace the masks billed since the cache
    last forgot it. *)
Record ledger := mkLedger { discarded : list item; billed : gmap Z (list Z) }.

(** What leaves in one payload, and how a push's spans divide. *)
Record outbound := mkOut { o_td : Traces; o_init : bool; o_spans : Z }.
Definition noOut : outbound := mkOut [] false 0.
Definition dest (o : outbound) : outbound := mkOut (o_td o) true (o_spans o).
Record received := mkRecv { r_out : outbound; late : Z; lateDropped : Z; mine : Z; heldKept : Z; heldDropped : Z }.
Definition noRecv : received := mkRecv noOut 0 0 0 0 0.

Section Buffer.
Context `{Decider}.

Record Buffer := mkBuffer {
  ev : Ev;
  set_ : settings;
  objs : gmap nat bufTrace;
  fresh : nat;
  trace : gmap Z nat;
  order : list nat;
  head : nat;
  spans : Z;
  cache : decisionCache;
  res : gmap Z nat;
  cur : gmap Z nat;
  flushed : bool;
  cnt : counters;
  earlyWarn : LogDedupe.Throttle.t;
  slowestExport : Z;
  ghost : ledger }.

Definition put_ev (v : Ev) (x : Buffer) : Buffer := mkBuffer v (set_ x) (objs x) (fresh x) (trace x)
  (order x) (head x) (spans x) (cache x) (res x) (cur x) (flushed x) (cnt x) (earlyWarn x)
  (slowestExport x) (ghost x).
Definition put_set_ (v : settings) (x : Buffer) : Buffer := mkBuffer (ev x) v (objs x) (fresh x)
  (trace x) (order x) (head x) (spans x) (cache x) (res x) (cur x) (flushed x) (cnt x) (earlyWarn x)
  (slowestExport x) (ghost x).
Definition put_objs (v : gmap nat bufTrace) (x : Buffer) : Buffer := mkBuffer (ev x) (set_ x) v
  (fresh x) (trace x) (order x) (head x) (spans x) (cache x) (res x) (cur x) (flushed x) (cnt x)
  (earlyWarn x) (slowestExport x) (ghost x).
Definition put_fresh (v : nat) (x : Buffer) : Buffer := mkBuffer (ev x) (set_ x) (objs x) v (trace
  x) (order x) (head x) (spans x) (cache x) (res x) (cur x) (flushed x) (cnt x) (earlyWarn x)
  (slowestExport x) (ghost x).
Definition put_trace (v : gmap Z nat) (x : Buffer) : Buffer := mkBuffer (ev x) (set_ x) (objs x)
  (fresh x) v (order x) (head x) (spans x) (cache x) (res x) (cur x) (flushed x) (cnt x) (earlyWarn
  x) (slowestExport x) (ghost x).
Definition put_order (v : list nat) (x : Buffer) : Buffer := mkBuffer (ev x) (set_ x) (objs x)
  (fresh x) (trace x) v (head x) (spans x) (cache x) (res x) (cur x) (flushed x) (cnt x) (earlyWarn
  x) (slowestExport x) (ghost x).
Definition put_head (v : nat) (x : Buffer) : Buffer := mkBuffer (ev x) (set_ x) (objs x) (fresh x)
  (trace x) (order x) v (spans x) (cache x) (res x) (cur x) (flushed x) (cnt x) (earlyWarn x)
  (slowestExport x) (ghost x).
Definition put_spans (v : Z) (x : Buffer) : Buffer := mkBuffer (ev x) (set_ x) (objs x) (fresh x)
  (trace x) (order x) (head x) v (cache x) (res x) (cur x) (flushed x) (cnt x) (earlyWarn x)
  (slowestExport x) (ghost x).
Definition put_cache (v : decisionCache) (x : Buffer) : Buffer := mkBuffer (ev x) (set_ x) (objs x)
  (fresh x) (trace x) (order x) (head x) (spans x) v (res x) (cur x) (flushed x) (cnt x) (earlyWarn
  x) (slowestExport x) (ghost x).
Definition put_res (v : gmap Z nat) (x : Buffer) : Buffer := mkBuffer (ev x) (set_ x) (objs x)
  (fresh x) (trace x) (order x) (head x) (spans x) (cache x) v (cur x) (flushed x) (cnt x)
  (earlyWarn x) (slowestExport x) (ghost x).
Definition put_cur (v : gmap Z nat) (x : Buffer) : Buffer := mkBuffer (ev x) (set_ x) (objs x)
  (fresh x) (trace x) (order x) (head x) (spans x) (cache x) (res x) v (flushed x) (cnt x)
  (earlyWarn x) (slowestExport x) (ghost x).
Definition put_flushed (v : bool) (x : Buffer) : Buffer := mkBuffer (ev x) (set_ x) (objs x) (fresh
  x) (trace x) (order x) (head x) (spans x) (cache x) (res x) (cur x) v (cnt x) (earlyWarn x)
  (slowestExport x) (ghost x).
Definition put_cnt (v : counters) (x : Buffer) : Buffer := mkBuffer (ev x) (set_ x) (objs x) (fresh
  x) (trace x) (order x) (head x) (spans x) (cache x) (res x) (cur x) (flushed x) v (earlyWarn x)
  (slowestExport x) (ghost x).
Definition put_earlyWarn (v : LogDedupe.Throttle.t) (x : Buffer) : Buffer := mkBuffer (ev x) (set_
  x) (objs x) (fresh x) (trace x) (order x) (head x) (spans x) (cache x) (res x) (cur x) (flushed x)
  (cnt x) v (slowestExport x) (ghost x).
Definition put_slowestExport (v : Z) (x : Buffer) : Buffer := mkBuffer (ev x) (set_ x) (objs x)
  (fresh x) (trace x) (order x) (head x) (spans x) (cache x) (res x) (cur x) (flushed x) (cnt x)
  (earlyWarn x) v (ghost x).
Definition put_ghost (v : ledger) (x : Buffer) : Buffer := mkBuffer (ev x) (set_ x) (objs x) (fresh
  x) (trace x) (order x) (head x) (spans x) (cache x) (res x) (cur x) (flushed x) (cnt x) (earlyWarn
  x) (slowestExport x) v.

Definition obj (a : nat) (b : Buffer) : option bufTrace := objs b !! a.
Definition upd (f : bufTrace -> bufTrace) (a : nat) (b : Buffer) : Buffer := put_objs (alter f a (objs b)) b.

(** ** New *)

Definition tickFor (wait : Z) : Z :=
  let d := Z.quot wait 4 in
  if d <? 100000000 then 100000000 else if 1000000000 <? d then 1000000000 else d.

Definition noCounters (names : list bytes) : counters :=
  mkCounters (list_to_map ((fun n => (n, (0, 0))) <$> (names ++ [[]]))) 0 0 0 0 0 (replicate numEarlyReasons 0) (replicate numEarlyReasons 0).

Definition newBuffer (e : Ev) (names : list bytes) (s : settings) : Buffer :=
  mkBuffer e s ∅ 0 ∅ [] 0 0 (newDecisionCache (cacheSize s) (cacheTTL s)) ∅ ∅ false (noCounters names) LogDedupe.Throttle.zero 0
    (mkLedger [] ∅).

Definition Stats (b : Buffer) : Z * Z := (Z.of_nat (size (trace b)), spans b).

(** ** Admitting a span *)

(** The trace of an id, made when there is none. *)
Definition find_or_new (id now : Z) (b : Buffer) : nat * Buffer :=
  match trace b !! id with
  | Some a => (a, b)
  | None =>
      let a := fresh b in
      (a, put_order (order b ++ [a]) (put_trace (<[id := a]> (trace b))
            (put_fresh (S a) (put_objs (<[a := mkBuf id [] 0 now false]> (objs b)) b))))
  end.

(** Where this payload's resource and scope are in the trace: positions, made
    when the walk has not met them. *)
Definition find_res (id : Z) (a : nat) (rs : ResourceSpans) (b : Buffer) : nat * Buffer :=
  match res b !! id with
  | Some i => (i, b)
  | None =>
      let i := match obj a b with Some e => length (bt_td e) | None => 0%nat end in
      (i, put_res (<[id := i]> (res b)) (upd (fun e => set_td (append_rs rs (bt_td e)) e) a b))
  end.

Definition find_cur (id : Z) (a : nat) (rs : ResourceSpans) (ss : ScopeSpans) (b : Buffer) : nat * nat * Buffer :=
  match cur b !! id with
  | Some j => (default 0%nat (res b !! id), j, b)
  | None =>
      let '(i, b) := find_res id a rs b in
      let j := match obj a b with Some e => scopes_at i (bt_td e) | None => 0%nat end in
      (i, j, put_cur (<[id := j]> (cur b)) (upd (fun e => set_td (append_ss i ss (bt_td e)) e) a b))
  end.

Definition add (id : Z) (sp : Span) (rs : ResourceSpans) (ss : ScopeSpans) (now : Z) (b : Buffer) : nat * Buffer :=
  let '(a, b) := find_or_new id now b in
  let '(i, j, b) := find_cur id a rs ss b in
  let b := upd (fun e => set_spans (bt_spans e + 1) (set_td (append_span i j sp (bt_td e)) e)) a b in
  (a, put_spans (spans b + 1) b).

(** ** Removing and judging *)

Definition compact_order (b : Buffer) : Buffer :=
  if decide (head b < length (order b) / 2 \/ head b = 0)%nat then b
  else put_head 0%nat (put_order (drop (head b) (order b)) b).

Definition remove (a : nat) (b : Buffer) : Buffer :=
  match obj a b with
  | None => b
  | Some e =>
      if bt_gone e then b
      else
        let b := upd set_gone a b in
        let b := put_trace (delete (bt_id e) (trace b)) b in
        let b := put_res (delete (bt_id e) (res b)) b in
        let b := put_cur (delete (bt_id e) (cur b)) b in
        compact_order (put_spans (spans b - bt_spans e) b)
  end.

(** The view handed to the policies: every span under the handle of its group. *)
Definition view (td : Traces) : list TSpan :=
  concat (imap (fun i rs => (fun sp => mkTSpan sp (Some (i, rs_resource rs))) <$> rs_spans rs) td).

Definition bill (id mask : Z) (known : bool) (g : ledger) : ledger :=
  mkLedger (discarded g) (<[id := mask :: (if known then default [] (billed g !! id) else [])]> (billed g)).
Definition discard (sps : list item) (g : ledger) : ledger := mkLedger (discarded g ++ sps) (billed g).

(** [judge]: the verdict on one trace.  The spans go to [out] or are dropped. *)
Definition judge (out : outbound) (a : nat) (now : Z) (reason : earlyReason) (b : Buffer) : outbound * Buffer * Z * Z :=
  match obj a b with
  | None => (out, b, 0, 0)
  | Some e =>
      let reason := if negb (bool_decide (reason = reasonNone)) && (wait (set_ b) <=? time_sub now (bt_first e)) then reasonNone else reason in
      let keyed := negb (bt_id e =? 0) in
      let already := if keyed then charged (bt_id e) (cache b) else 0 in
      let '(d, ev') := Verdict (mkTrace (bt_id e) (view (bt_td e)) already) (ev b) in
      let b := put_ev ev' b in
      let b := put_cnt (bump_policy (Policy d) (Sampled d) (cnt b)) b in
      let b := if decide (reason = reasonNone) then b else put_cnt (bump_early reason (cnt b)) b in
      let b := remove a b in
      let b := if keyed then
                 put_cache (TailCache.put (bt_id e) (Sampled d) (d_charged d) now (cache b))
                   (put_ghost (bill (bt_id e) (d_charged d) (bool_decide (is_Some (c_m (cache b) !! bt_id e))) (ghost b)) b)
               else b in
      if negb (Sampled d) then
        (out, upd (set_td []) a (put_ghost (discard (items (bt_td e)) (ghost b)) b), 0, bt_spans e)
      else
        let out := dest out in
        (mkOut (o_td out ++ bt_td e) (o_init out) (o_spans out + bt_spans e), upd (set_td []) a b, bt_spans e, 0)
  end.

(** [decide]: a drop is tallied at once. *)
Definition decide_ (out : outbound) (a : nat) (now : Z) (reason : earlyReason) (b : Buffer) : outbound * Buffer * Z :=
  let '(out, b, kept, dropped) := judge out a now reason b in
  (out, if 0 <? dropped then put_cnt (tally 0 dropped 0 0 0 (cnt b)) b else b, kept).

(** ** The arrival queue *)

Definition is_gone (b : Buffer) (a : nat) : bool := match obj a b with Some e => bt_gone e | None => true end.

Fixpoint leading_gone (b : Buffer) (l : list nat) : nat :=
  match l with [] => 0%nat | a :: rest => if is_gone b a then S (leading_gone b rest) else 0%nat end.

Definition frontLocked (b : Buffer) : option nat * Buffer :=
  let h := (head b + leading_gone b (drop (head b) (order b)))%nat in
  (order b !! h, put_head h b).

Definition decideOldest (out : outbound) (now : Z) (reason : earlyReason) (b : Buffer) : outbound * Buffer * option Z :=
  let '(e, b) := frontLocked b in
  match e with
  | None => (out, b, None)
  | Some a => let '(out, b, n) := decide_ out a now reason b in (out, b, Some n)
  end.

(** The two loops of [enforce]; each turn removes a trace, so a turn per trace
    is turns enough. *)
Fixpoint enforce_loop (fuel : nat) (over : Buffer -> bool) (reason : earlyReason) (out : outbound) (now moved : Z) (b : Buffer) : outbound * Buffer * Z :=
  match fuel with
  | 0%nat => (out, b, moved)
  | S fuel =>
      if over b then
        match decideOldest out now reason b with
        | (out, b, None) => (out, b, moved)
        | (out, b, Some n) => enforce_loop fuel over reason out now (moved + n) b
        end
      else (out, b, moved)
  end.

Definition over_traces (b : Buffer) : bool := maxTraces (set_ b) <? Z.of_nat (size (trace b)).
Definition over_spans (b : Buffer) : bool := (maxSpans (set_ b) <? spans b) && bool_decide (0 < size (trace b))%nat.

Definition enforce (out : outbound) (a : nat) (now : Z) (b : Buffer) : outbound * Buffer * Z :=
  let '(out, b, moved) :=
    match obj a b with
    | Some e =>
        if (maxSpansPerTrace (set_ b) <=? bt_spans e) && negb (bt_gone e) then decide_ out a now reasonSpansPerTrace b else (out, b, 0)
    | None => (out, b, 0)
    end in
  let '(out, b, moved) := enforce_loop (S (size (trace b))) over_traces reasonMaxTraces out now moved b in
  enforce_loop (S (size (trace b))) over_spans reasonMaxSpans out now moved b.

(** ** A push *)

Record walk := mkWalk { w_b : Buffer; w_r : received; lateRS : option nat; lateSS : option nat; unkeyed : option nat }.

Definition with_out (o : outbound) (r : received) : received :=
  mkRecv o (late r) (lateDropped r) (mine r) (heldKept r) (heldDropped r).

(** A span of a trace judged keep joins the push's own payload. *)
Definition forward_late (sp : Span) (rs : ResourceSpans) (ss : ScopeSpans) (w : walk) : walk :=
  let r := w_r w in
  let o := r_out r in
  let '(i, o) := match lateRS w with
                 | Some i => (i, o)
                 | None => (length (o_td o), mkOut (append_rs rs (o_td o)) true (o_spans o))
                 end in
  let '(j, o) := match lateSS w with
                 | Some j => (j, o)
                 | None => (scopes_at i (o_td o), mkOut (append_ss i ss (o_td o)) (o_init o) (o_spans o))
                 end in
  let o := mkOut (append_span i j sp (o_td o)) (o_init o) (o_spans o + 1) in
  mkWalk (w_b w) (mkRecv o (late r + 1) (lateDropped r) (mine r) (heldKept r) (heldDropped r)) (Some i) (Some j) (unkeyed w).

Definition take_span (now : Z) (rs : ResourceSpans) (ss : ScopeSpans) (w : walk) (sp : Span) : walk :=
  let b := w_b w in
  let r := w_r w in
  let id := sp_trace sp in
  if id =? 0 then
    let '(a, b) := add id sp rs ss now b in mkWalk b r (lateRS w) (lateSS w) (Some a)
  else
    match TailCache.get id now (cache b) with
    | Some false =>
        mkWalk (put_ghost (discard [(rs_key rs, ss_key ss, sp)] (ghost b)) b) (mkRecv (r_out r) (late r) (lateDropped r + 1) (mine r) (heldKept r) (heldDropped r))
          (lateRS w) (lateSS w) (unkeyed w)
    | Some true => forward_late sp rs ss w
    | None =>
        let '(a, b) := add id sp rs ss now b in
        if flushed b then mkWalk b r (lateRS w) (lateSS w) (unkeyed w)
        else
          let '(o, b, n) := enforce (r_out r) a now b in
          mkWalk b (mkRecv o (late r) (lateDropped r) (mine r + n) (heldKept r) (heldDropped r)) (lateRS w) (lateSS w) (unkeyed w)
    end.

Definition take_scope (now : Z) (rs : ResourceSpans) (w : walk) (ss : ScopeSpans) : walk :=
  foldl (take_span now rs ss) (mkWalk (put_cur ∅ (w_b w)) (w_r w) (lateRS w) None (unkeyed w)) (ss_spans ss).

Definition take_resource (now : Z) (w : walk) (rs : ResourceSpans) : walk :=
  foldl (take_scope now rs) (mkWalk (put_res ∅ (w_b w)) (w_r w) None None (unkeyed w)) (rs_scopes rs).

(** Decide a trace of this push on arrival. *)
Definition hold (a : nat) (now : Z) (reason : earlyReason) (b : Buffer) (r : received) : Buffer * received :=
  let '(o, b, kept, dropped) := judge (r_out r) a now reason b in
  (b, mkRecv o (late r) (lateDropped r) (mine r) (heldKept r + kept) (heldDropped r + dropped)).

(** The loop after a flush; each turn removes a trace. *)
Fixpoint hold_all (fuel : nat) (now : Z) (b : Buffer) (r : received) : Buffer * received :=
  match fuel with
  | 0%nat => (b, r)
  | S fuel =>
      match frontLocked b with
      | (None, b) => (b, r)
      | (Some a, b) => let '(b, r) := hold a now reasonShutdown b r in hold_all fuel now b r
      end
  end.

Definition take (td : Traces) (now : Z) (b : Buffer) : Buffer * received :=
  let w := foldl (take_resource now) (mkWalk b noRecv None None None) td in
  let b := w_b w in
  if flushed b then hold_all (S (size (trace b))) now b (w_r w)
  else match unkeyed w with
       | Some a => if is_gone b a then (b, w_r w) else hold a now reasonNone b (w_r w)
       | None => (b, w_r w)
       end.

(** The tallies a push takes once it is acked, and what is lost when the last
    attempt to send spans of the buffer fails. *)
Definition acked (r : received) (b : Buffer) : Buffer :=
  put_cnt (tally (mine r + heldKept r) (heldDropped r) 0 (late r) (lateDropped r) (cnt b)) b.

Definition lose (owned : Z) (b : Buffer) : Buffer := put_cnt (tally 0 0 owned 0 0 (cnt b)) b.

(** ** Draining *)

Definition decideChunk : nat := 128.

Fixpoint decide_chunk (n : nat) (out : outbound) (now : Z) (all : bool) (b : Buffer) : outbound * Buffer * bool :=
  match n with
  | 0%nat => (out, b, false)
  | S n =>
      match frontLocked b with
      | (None, b) => (out, b, true)
      | (Some a, b) =>
          let due := match obj a b with Some e => negb (time_sub now (bt_first e) <? wait (set_ b)) | None => true end in
          if negb due && negb all then (out, b, true)
          else
            let '(out, b, _) := decide_ out a now (if due then reasonNone else reasonShutdown) b in
            decide_chunk n out now all b
      end
  end.

Definition decideChunkLocked (out : outbound) (now : Z) (all : bool) (b : Buffer) : outbound * Buffer * bool :=
  decide_chunk decideChunk out now all b.

(** A flush holds the lock through all its chunks. *)
Fixpoint flush_chunks (fuel : nat) (out : outbound) (now : Z) (b : Buffer) : outbound * Buffer :=
  match fuel with
  | 0%nat => (out, b)
  | S fuel =>
      match decideChunkLocked out now true b with
      | (out, b, true) => (out, b)
      | (out, b, false) => flush_chunks fuel out now b
      end
  end.

Definition flush_hold (now : Z) (b : Buffer) : outbound * Buffer :=
  flush_chunks (S (size (trace b))) noOut now (put_flushed true b).

(** ** The early-decision report *)

Record earlyReport := mkReport { er_by : list Z; er_slowest : Z }.

Definition any_early (by_ : list Z) : bool :=
  existsb (fun r => 0 <? default 0 (by_ !! reason_index r)) [reasonSpansPerTrace; reasonMaxTraces; reasonMaxSpans].

(** [off] is the report throttle's clock. *)
Definition takeEarlyLocked (off every : Z) (b : Buffer) : option earlyReport * Buffer :=
  let by_ := earlyPending (cnt b) in
  if negb (any_early by_) then (None, put_slowestExport 0 b)
  else
    let '(th, allowed) := LogDedupe.Throttle.AllowAt (earlyWarn b) off every in
    let b := put_earlyWarn th b in
    if negb allowed then (None, b)
    else
      (Some (mkReport by_ (slowestExport b)),
       put_slowestExport 0 (put_cnt (set_pending (replicate numEarlyReasons 0) (cnt b)) b)).

(** ** Sending *)

Definition noteExport (d : Z) (b : Buffer) : Buffer := put_slowestExport (Z.max d (slowestExport b)) b.

Definition sendAttempts : Z := 3.

(** [sendOwned]: whether the payload went out, [owned] of its spans lost when it
    did not. *)
Definition sendOwned (env : net) (owned : Z) (b : Buffer) : bool * Buffer :=
  match Retry sendAttempts env with
  | ASent => (true, b)
  | _ => (false, lose owned b)
  end.

(** The rest of [ExportTraces], after the hold: [true] is an ack. *)
Definition settlePush (env : net) (r : received) (b : Buffer) : bool * Buffer :=
  if 0 <? o_spans (r_out r) then
    if 0 <? mine r then
      let '(ok, b) := sendOwned env (mine r) b in (ok, if ok then acked r b else b)
    else match n_send env 0%nat with ASent => (true, acked r b) | _ => (false, b) end
  else (true, acked r b).

(** One hold of a sweep; the last one takes the early report. *)
Definition sweep_hold (off every : Z) (out : outbound) (now : Z) (b : Buffer) : outbound * Buffer * bool * option earlyReport :=
  match decideChunkLocked out now false b with
  | (out, b, true) => let '(rep, b) := takeEarlyLocked off every b in (out, b, true, rep)
  | (out, b, false) => (out, b, false, None)
  end.

Definition flush_drain (off every now : Z) (b : Buffer) : outbound * Buffer * option earlyReport :=
  let '(out, b) := flush_hold now b in
  let '(rep, b) := takeEarlyLocked off every b in (out, b, rep).

(** The rest of [drain], after its holds; [took] is how long the send was. *)
Definition settleDrain (env : net) (took : Z) (out : outbound) (b : Buffer) : bool * Buffer :=
  if o_spans out =? 0 then (true, b)
  else
    let '(ok, b) := sendOwned env (o_spans out) b in
    let b := noteExport took b in
    (ok, if ok then put_cnt (tally (o_spans out) 0 0 0 0 (cnt b)) b else b).

End Buffer.
