(* ===== verification/TailBufferInv.v ===== *)
(** * The tail-sampling buffer: its queue, its invariant, what one operation does

    The queue of a state is the traces still assembling, oldest first, read off
    the arrival order past its tombstones.  [buf_inv] ties the queue to the map,
    the span count and the heap; [handles] says where a push's handles point.
    [add_spec] and [judge_spec] are the two operations that change the queue. *)

From S2P Require Import Prelude LogDedupe Clip Number Float Text Pdata TailSample TailCache Payload TailBuffer.
Local Open Scope Z_scope.

(** ** The live part of an address list *)

Definition cell (m : gmap nat bufTrace) (a : nat) : option (nat * bufTrace) :=
  e ← m !! a; if bt_gone e then None else Some (a, e).
Definition live_of (m : gmap nat bufTrace) (l : list nat) : list (nat * bufTrace) := omap (cell m) l.

Lemma cell_Some m a p : cell m a = Some p <-> p.1 = a /\ m !! a = Some p.2 /\ bt_gone p.2 = false.
Proof.
  unfold cell. destruct p as [a' e']. split.
  - intros E. apply bind_Some in E as (e & E & E'). destruct (bt_gone e) eqn:G; [done|]. injection E' as -> ->. done.
  - cbn. intros (-> & -> & G). cbn. by rewrite G.
Qed.

Lemma in_live m l a e : (a, e) ∈ live_of m l <-> a ∈ l /\ m !! a = Some e /\ bt_gone e = false.
Proof.
  unfold live_of. rewrite list_elem_of_omap. split.
  - intros (x & Hx & E%cell_Some). cbn in E. destruct E as (<- & ? & ?). done.
  - intros (? & ? & ?). exists a. split; [done|]. by apply cell_Some.
Qed.

Lemma live_app m l1 l2 : live_of m (l1 ++ l2) = live_of m l1 ++ live_of m l2.
Proof. unfold live_of. induction l1 as [|x l IH]; cbn; [done|]. rewrite IH. by destruct (cell m x). Qed.

Lemma live_ext m m' l : (forall a, a ∈ l -> cell m a = cell m' a) -> live_of m l = live_of m' l.
Proof.
  unfold live_of. induction l as [|x l IH]; intros E; cbn; [done|].
  rewrite (E x), IH; [done| |apply list_elem_of_here]. intros a Ha. apply E. by apply list_elem_of_further.
Qed.

Lemma live_insert_fresh m l a e : a ∉ l -> live_of (<[a := e]> m) l = live_of m l.
Proof. intros Ha. apply live_ext. intros x Hx. unfold cell. rewrite lookup_insert_ne; [done|]. by intros ->. Qed.

(** Where a live address sits in the queue, and what the queue becomes when its
    object changes. *)
Lemma live_at m l a e : NoDup l -> a ∈ l -> m !! a = Some e -> bt_gone e = false ->
  exists q1 q2, live_of m l = q1 ++ [(a, e)] ++ q2 /\
    forall e', live_of (<[a := e']> m) l = q1 ++ (if bt_gone e' then [] else [(a, e')]) ++ q2.
Proof.
  intros N Ha E G. apply list_elem_of_split in Ha as (l1 & l2 & ->).
  apply NoDup_app in N as (_ & N1 & (N2 & _)%NoDup_cons).
  assert (a ∉ l1) by (intros H; apply (N1 _ H), list_elem_of_here).
  exists (live_of m l1), (live_of m l2). split.
  - rewrite live_app, (live_app _ [a] l2). do 2 f_equal. unfold live_of. cbn. unfold cell. rewrite E. cbn. by rewrite G.
  - intros e'. rewrite live_app, live_insert_fresh by done. f_equal. rewrite (live_app _ [a] l2).
    rewrite (live_insert_fresh m l2) by done. f_equal. unfold live_of. cbn. unfold cell. rewrite lookup_insert_eq. cbn.
    by destruct (bt_gone e').
Qed.

Lemma live_gone m l : (forall a, a ∈ l -> match m !! a with Some e => bt_gone e = true | None => True end) -> live_of m l = [].
Proof.
  unfold live_of. induction l as [|x l IH]; intros Hg; cbn; [done|].
  pose proof (Hg x (list_elem_of_here _ _)) as Hx. unfold cell. destruct (m !! x) as [e|]; cbn; [rewrite Hx|];
    apply IH; intros; apply Hg; by apply list_elem_of_further.
Qed.

Lemma live_fst_NoDup m l : NoDup l -> NoDup (live_of m l).*1.
Proof.
  induction 1 as [|x l Hx N IH]; [constructor|]. unfold live_of. cbn. destruct (cell m x) as [p|] eqn:E; [|done].
  apply cell_Some in E as (E & _). cbn. constructor; [|done]. rewrite E. intros (q & Eq & Hq)%list_elem_of_fmap.
  destruct q as [a e]. apply in_live in Hq as (Hq & _). cbn in Eq. by subst.
Qed.

(** ** The invariant *)

(** A key occurs once, so it splits the list one way. *)
Lemma split_unique {A B} (l1 l2 m1 m2 : list (A * B)) (x y : A * B) :
  l1 ++ [x] ++ l2 = m1 ++ [y] ++ m2 -> x.1 = y.1 -> NoDup (l1 ++ [x] ++ l2).*1 -> l1 = m1 /\ x = y /\ l2 = m2.
Proof.
  revert m1. induction l1 as [|u l1 IH]; intros m1 E K N.
  - destruct m1 as [|v m1]; [by injection E as -> ->|]. injection E as -> ->. cbn in N. apply NoDup_cons in N as [N _].
    exfalso. apply N. rewrite K. apply list_elem_of_fmap. exists y. split; [done|]. set_solver.
  - destruct m1 as [|v m1].
    + injection E as -> E. cbn in N. apply NoDup_cons in N as [N _]. exfalso. apply N. rewrite <- K.
      apply list_elem_of_fmap. exists x. split; [done|]. set_solver.
    + injection E as -> E. cbn in N. apply NoDup_cons in N as [_ N]. by destruct (IH _ E K N) as (-> & -> & ->).
Qed.

Lemma alter_as_insert (f : bufTrace -> bufTrace) (m : gmap nat bufTrace) a e : m !! a = Some e -> alter f a m = <[a := f e]> m.
Proof.
  intros E. apply map_eq. intros x. destruct (decide (x = a)) as [->|Nx].
  - by rewrite lookup_alter_eq, lookup_insert_eq, E.
  - by rewrite lookup_alter_ne, lookup_insert_ne.
Qed.

Section Inv.
Context `{Decider}.

Definition queue (b : Buffer) : list (nat * bufTrace) := live_of (objs b) (order b).
Definition held (b : Buffer) : list item := queue b ≫= fun p => items (bt_td p.2).

(** The map, the heap and the arrival order agree. *)
Record linked (b : Buffer) : Prop := {
  lk_order : NoDup (order b);
  lk_alloc a : a ∈ order b -> is_Some (objs b !! a);
  lk_fresh a : is_Some (objs b !! a) -> (a < fresh b)%nat;
  lk_live a e : objs b !! a = Some e -> bt_gone e = false -> a ∈ order b;
  lk_bound : (head b <= length (order b))%nat;
  lk_head a : a ∈ firstn (head b) (order b) -> is_gone b a = true;
  lk_trace id a : trace b !! id = Some a <-> exists e, objs b !! a = Some e /\ bt_gone e = false /\ bt_id e = id }.

Definition trace_ok (e : bufTrace) : Prop :=
  bt_spans e = Z.of_nat (length (items (bt_td e))) /\ 1 <= bt_spans e /\ Forall (fun it : item => sp_trace it.2 = bt_id e) (items (bt_td e)).

(** The counts agree with the payloads. *)
Record counted (b : Buffer) : Prop := {
  ct_traces : Forall (fun p => trace_ok p.2) (queue b);
  ct_spans : spans b = Z.of_nat (length (held b)) }.

Definition buf_inv (b : Buffer) : Prop := linked b /\ counted b.

(** Where a push's handles point, while it walks the group keyed [K] and [L]. *)
Record handles (K : attrs * bytes) (L : Scope * bytes) (b : Buffer) : Prop := {
  hd_res id i : res b !! id = Some i -> exists a e, trace b !! id = Some a /\ objs b !! a = Some e /\ at_res K (bt_td e) i;
  hd_cur id j : cur b !! id = Some j -> exists i a e,
    res b !! id = Some i /\ trace b !! id = Some a /\ objs b !! a = Some e /\ at_cur K L (bt_td e) i j }.

(** What neither a span nor a removal touches. *)
Definition same_rest (b b' : Buffer) : Prop :=
  ev b' = ev b /\ set_ b' = set_ b /\ cache b' = cache b /\ flushed b' = flushed b /\ cnt b' = cnt b /\
  earlyWarn b' = earlyWarn b /\ slowestExport b' = slowestExport b /\ ghost b' = ghost b.

Lemma queue_in b a e : (a, e) ∈ queue b <-> a ∈ order b /\ objs b !! a = Some e /\ bt_gone e = false.
Proof. apply in_live. Qed.

Lemma linked_queue b a e : linked b -> (a, e) ∈ queue b <-> objs b !! a = Some e /\ bt_gone e = false.
Proof. intros I. rewrite queue_in. split; [tauto|]. intros (E & G). split; [by apply (lk_live b I a e)|done]. Qed.

Lemma linked_inj b id id' a : linked b -> trace b !! id = Some a -> trace b !! id' = Some a -> id = id'.
Proof.
  intros I (e & E & _ & <-)%(lk_trace b I) (e' & E' & _ & <-)%(lk_trace b I). rewrite E in E'. by injection E' as ->.
Qed.

Lemma queue_fst b : linked b -> NoDup (queue b).*1.
Proof. intros I. by apply live_fst_NoDup, lk_order. Qed.

(** The map has one entry per trace of the queue. *)
Lemma trace_size b : linked b -> size (trace b) = length (queue b).
Proof.
  intros I. rewrite <- size_dom. set (ids := (fun p : nat * bufTrace => bt_id p.2) <$> queue b).
  assert (N : NoDup ids).
  { unfold ids. apply NoDup_fmap_2_strong; [|by eapply NoDup_fmap_1, queue_fst].
    intros [a e] [a' e'] Hq%(linked_queue b a e I) Hq'%(linked_queue b a' e' I) Eid. cbn in Eid.
    destruct Hq as (E & G), Hq' as (E' & G').
    assert (trace b !! bt_id e = Some a) as T by (apply (lk_trace b I); by exists e).
    assert (trace b !! bt_id e = Some a') as T' by (apply (lk_trace b I); by exists e').
    rewrite T in T'. injection T' as ->. rewrite E in E'. by injection E' as ->. }
  replace (length (queue b)) with (length ids) by apply length_fmap.
  rewrite <- (size_list_to_set (C := gset Z) ids N). f_equal. apply set_eq. intros id.
  rewrite elem_of_dom, elem_of_list_to_set. unfold ids. rewrite list_elem_of_fmap. split.
  - intros (a & Ha%(lk_trace b I)). destruct Ha as (e & E & G & <-). exists (a, e). split; [done|]. by apply (linked_queue b a e I).
  - intros ([a e] & -> & Hq%(linked_queue b a e I)). destruct Hq. exists a. apply (lk_trace b I). by exists e.
Qed.

(** ** Admitting a span *)

Lemma find_or_new_spec id now b a b1 K L : linked b -> handles K L b -> find_or_new id now b = (a, b1) ->
  linked b1 /\ handles K L b1 /\ same_rest b b1 /\ spans b1 = spans b /\ trace b1 = <[id := a]> (trace b) /\
  exists e, objs b1 !! a = Some e /\ bt_gone e = false /\ bt_id e = id /\
    (b1 = b \/ (trace b !! id = None /\ e = mkBuf id [] 0 now false /\ queue b1 = queue b ++ [(a, e)])).
Proof.
  intros I Hh. unfold find_or_new. destruct (trace b !! id) as [a0|] eqn:T; intros [= <- <-].
  - pose proof (proj1 (lk_trace b I id a0) T) as (e & E & G & Eid). split_and!; try done.
    + by rewrite insert_id.
    + exists e. split_and!; try done. by left.
  - assert (Hf : objs b !! fresh b = None) by (apply eq_None_not_Some; intros Hs%(lk_fresh b I); lia).
    assert (Hn : fresh b ∉ order b) by (intros Hs%(lk_alloc b I); rewrite Hf in Hs; by destruct Hs).
    set (e := mkBuf id [] 0 now false). split_and!; try done.
    + split; cbn.
      * apply NoDup_app. split_and!; [by apply lk_order|set_solver|apply NoDup_singleton].
      * intros x [Hx|Hx%list_elem_of_singleton]%elem_of_app; [|subst; by rewrite lookup_insert_eq].
        rewrite lookup_insert_is_Some'. right. by apply (lk_alloc b I).
      * intros x [->|Hx]%lookup_insert_is_Some'; [lia|]. pose proof (lk_fresh b I x Hx). lia.
      * intros x e'. destruct (decide (x = fresh b)) as [->|Nx]; [set_solver|]. rewrite lookup_insert_ne by done.
        intros E G. apply elem_of_app. left. by eapply lk_live.
      * rewrite length_app. pose proof (lk_bound b I). lia.
      * intros x Hx. rewrite take_app_le in Hx by apply (lk_bound b I). unfold is_gone, obj. cbn.
        rewrite lookup_insert_ne; [by apply (lk_head b I)|]. intros <-. apply Hn. by apply elem_of_take in Hx as (k & Hk & _); eapply list_elem_of_lookup_2.
      * intros id' x. split.
        -- destruct (decide (id' = id)) as [->|Ni].
           ++ rewrite lookup_insert_eq. intros [= <-]. exists e. by rewrite lookup_insert_eq.
           ++ rewrite lookup_insert_ne by done. intros Ht. pose proof (proj1 (lk_trace b I _ _) Ht) as (e' & E & ?).
              exists e'. rewrite lookup_insert_ne; [done|]. intros <-. by rewrite Hf in E.
        -- intros (e' & E & G & <-). destruct (decide (x = fresh b)) as [->|Nx].
           ++ rewrite lookup_insert_eq in E. injection E as <-. cbn. by rewrite lookup_insert_eq.
           ++ rewrite lookup_insert_ne in E by done. assert (trace b !! bt_id e' = Some x) as T' by (apply (lk_trace b I); by exists e').
              rewrite lookup_insert_ne; [done|]. intros Eq. rewrite Eq in T. congruence.
    + assert (Hk : forall id' x e', trace b !! id' = Some x -> objs b !! x = Some e' ->
        <[id:=fresh b]> (trace b) !! id' = Some x /\ <[fresh b:=e]> (objs b) !! x = Some e').
      { intros id' x e' T' E'. rewrite !lookup_insert_ne; [done| |]; intros <-; congruence. }
      destruct Hh as [Hr Hc]. split; cbn.
      * intros id' i (x & e' & T' & E' & ?)%Hr. exists x, e'. by destruct (Hk _ _ _ T' E').
      * intros id' j (i & x & e' & ? & T' & E' & ?)%Hc. exists i, x, e'. by destruct (Hk _ _ _ T' E').
    + exists e. cbn. rewrite lookup_insert_eq. split_and!; try done. right. split_and!; try done.
      change (live_of (<[fresh b := e]> (objs b)) (order b ++ [fresh b]) = live_of (objs b) (order b) ++ [(fresh b, e)]).
      rewrite live_app, live_insert_fresh by done. f_equal. unfold live_of. cbn. unfold cell.
      by rewrite lookup_insert_eq.
Qed.

Lemma linked_ext b b' : linked b -> objs b' = objs b -> fresh b' = fresh b -> order b' = order b -> head b' = head b -> trace b' = trace b -> linked b'.
Proof.
  intros I Eo Ef Er Eh Et. destruct b, b'. cbn in *. subst. destruct I. by split.
Qed.

(** An object rewritten in place: the id and the tombstone stay. *)
Lemma linked_set b a e e' : linked b -> objs b !! a = Some e -> bt_id e' = bt_id e -> bt_gone e' = bt_gone e ->
  linked (put_objs (<[a := e']> (objs b)) b).
Proof.
  intros I E Ei Eg.
  assert (Hx : forall (P : bufTrace -> Prop) x, (P e <-> P e') -> (exists y, <[a:=e']> (objs b) !! x = Some y /\ P y) <-> exists y, objs b !! x = Some y /\ P y).
  { intros P x HP. destruct (decide (x = a)) as [->|Nx].
    - rewrite lookup_insert_eq, E. split; intros (y & [= <-] & Hy); eexists; (split; [done|]); tauto.
    - by rewrite lookup_insert_ne. }
  destruct I as [Io Ia If Il Ib Ih It]. split; cbn; try done.
  - intros x Hx'. rewrite lookup_insert_is_Some'. right. auto.
  - intros x [<-|?]%lookup_insert_is_Some'; auto.
  - intros x y Ey Gy. destruct (Hx (fun y => bt_gone y = false) x) as [Hd _]; [by rewrite Eg|].
    destruct Hd as (z & Ez & Gz); eauto.
  - intros x Hx'. specialize (Ih x Hx'). unfold is_gone, obj in *. cbn. destruct (decide (x = a)) as [->|Nx].
    + rewrite lookup_insert_eq, Eg. by rewrite E in Ih.
    + by rewrite lookup_insert_ne.
  - intros id x. rewrite It. symmetry. apply (Hx (fun y => bt_gone y = false /\ bt_id y = id)). by rewrite Eg, Ei.
Qed.

Lemma puts_same (b : Buffer) m r c : m = objs b -> r = res b -> c = cur b -> b = put_cur c (put_res r (put_objs m b)).
Proof. intros -> -> ->. by destruct b. Qed.

Lemma find_cur_spec id a e rs ss b i j b' : handles (rs_key rs) (ss_key ss) b -> trace b !! id = Some a -> objs b !! a = Some e ->
  find_cur id a rs ss b = (i, j, b') -> exists td, items td = items (bt_td e) /\ at_cur (rs_key rs) (ss_key ss) td i j /\
    b' = put_cur (<[id := j]> (cur b)) (put_res (<[id := i]> (res b)) (put_objs (<[a := set_td td e]> (objs b)) b)).
Proof.
  intros [Hr Hc] T E. unfold find_cur. destruct (cur b !! id) as [j0|] eqn:Ec.
  - intros [= <- <- <-]. destruct (Hc _ _ Ec) as (i & a' & e' & Ei & T' & E' & Hat).
    rewrite T in T'. injection T' as <-. rewrite E in E'. injection E' as <-. rewrite Ei. cbn.
    exists (bt_td e). split_and!; [done|done|]. apply puts_same; rewrite insert_id; try done. by destruct e.
  - unfold find_res. destruct (res b !! id) as [i0|] eqn:Ei.
    + destruct (Hr _ _ Ei) as (a' & e' & T' & E' & Hat).
      rewrite T in T'. injection T' as <-. rewrite E in E'. injection E' as <-.
      unfold obj. rewrite E. intros [= <- <- <-]. destruct (append_ss_at _ i0 ss _ Hat) as [Hat' Hit].
      eexists. split_and!; [exact Hit|exact Hat'|]. unfold upd. rewrite (alter_as_insert _ _ _ _ E).
      rewrite (insert_id (res b)) by done. by destruct b.
    + destruct (append_rs_at rs (bt_td e)) as [Hat Hit]. destruct (append_ss_at _ _ ss _ Hat) as [Hat' Hit'].
      unfold obj. rewrite E. unfold upd. rewrite (alter_as_insert _ _ _ _ E). cbn [objs put_res put_objs res].
      rewrite lookup_insert_eq. cbn [bt_td set_td]. intros [= <- <- <-].
      eexists. split_and!; [exact (eq_trans Hit' Hit)|exact Hat'|]. rewrite (alter_as_insert _ _ _ _ (lookup_insert_eq _ _ _)), insert_insert_eq.
      by destruct b.
Qed.

Notation items_of q := (q ≫= fun p : nat * bufTrace => items (bt_td p.2)).

(** Rewriting one live object rewrites one place of the queue. *)
Lemma queue_set b a e e' : linked b -> objs b !! a = Some e -> bt_gone e = false ->
  exists q1 q2, queue b = q1 ++ [(a, e)] ++ q2 /\
    forall b', objs b' = <[a := e']> (objs b) -> order b' = order b -> queue b' = q1 ++ (if bt_gone e' then [] else [(a, e')]) ++ q2.
Proof.
  intros I E G. destruct (live_at (objs b) (order b) a e) as (q1 & q2 & E1 & E2); [apply I|by eapply lk_live|done|done|].
  exists q1, q2. split; [done|]. intros b' Eo Er. unfold queue. by rewrite Eo, Er.
Qed.

Lemma counted_add b b' q1 old q2 a e' x : counted b -> queue b = q1 ++ old ++ q2 -> queue b' = q1 ++ [(a, e')] ++ q2 ->
  items (bt_td e') = items_of old ++ [x] -> spans b' = spans b + 1 -> trace_ok e' -> counted b'.
Proof.
  intros [Ct Cs] Eq Eq' Ei Es Ok. split.
  - rewrite Eq in Ct. rewrite Eq'. rewrite !Forall_app in *. cbn. rewrite Forall_singleton. tauto.
  - rewrite Es, Cs. unfold held. rewrite Eq, Eq', !bind_app. cbn. rewrite Ei, !length_app. cbn. lia.
Qed.

Lemma handles_add K L b b' id a i j e' : linked b -> handles K L b -> trace b !! id = Some a ->
  objs b' = <[a := e']> (objs b) -> trace b' = trace b -> res b' = <[id := i]> (res b) -> cur b' = <[id := j]> (cur b) ->
  at_cur K L (bt_td e') i j -> handles K L b'.
Proof.
  intros I [Hr Hc] T Eo Et Er Ec Hat.
  assert (Hk : forall id' x, id' <> id -> trace b !! id' = Some x -> objs b' !! x = objs b !! x).
  { intros id' x Ni T'. rewrite Eo, lookup_insert_ne; [done|]. intros <-. by apply Ni, (linked_inj b id' id a). }
  split; rewrite Et, Er, ?Ec.
  - intros id' i'. destruct (decide (id' = id)) as [->|Ni].
    + rewrite lookup_insert_eq. intros [= <-]. exists a, e'. rewrite Eo, lookup_insert_eq. split_and!; try done. by eapply at_cur_res.
    + rewrite lookup_insert_ne by done. intros (x & y & T' & E' & ?)%Hr. exists x, y. by rewrite (Hk id' x).
  - intros id' j'. destruct (decide (id' = id)) as [->|Ni].
    + rewrite !lookup_insert_eq. intros [= <-]. exists i, a, e'. by rewrite Eo, lookup_insert_eq.
    + rewrite !lookup_insert_ne by done. intros (i' & x & y & ? & T' & E' & ?)%Hc. exists i', x, y. by rewrite (Hk id' x).
Qed.

Lemma add_spec id sp rs ss now b a b' : buf_inv b -> handles (rs_key rs) (ss_key ss) b -> sp_trace sp = id ->
  add id sp rs ss now b = (a, b') ->
  buf_inv b' /\ handles (rs_key rs) (ss_key ss) b' /\ same_rest b b' /\ trace b' = <[id := a]> (trace b) /\
  exists q1 q2 old e', queue b = q1 ++ old ++ q2 /\ queue b' = q1 ++ [(a, e')] ++ q2 /\
    items (bt_td e') = items_of old ++ [(rs_key rs, ss_key ss, sp)] /\ bt_id e' = id /\
    ((exists e, old = [(a, e)] /\ bt_id e = id /\ bt_first e' = bt_first e) \/
     (old = [] /\ q2 = [] /\ bt_first e' = now /\ trace b !! id = None)).
Proof.
  intros [I Ct] Hh Hid. unfold add. destruct (find_or_new id now b) as [a1 b1] eqn:F.
  destruct (find_or_new_spec _ _ _ _ _ _ _ I Hh F) as (I1 & Hh1 & R1 & S1 & T1 & e & E1 & G1 & Ei1 & Hcase).
  assert (T1' : trace b1 !! id = Some a1) by (by rewrite T1, lookup_insert_eq).
  destruct (find_cur id a1 rs ss b1) as [[i j] b2] eqn:C.
  destruct (find_cur_spec _ _ _ _ _ _ _ _ _ Hh1 T1' E1 C) as (td & Itd & Hat & ->).
  intros [= <- <-]. destruct (append_span_at _ _ _ _ sp _ Hat) as [Hat' Itd'].
  set (e' := mkBuf id (append_span i j sp td) (bt_spans e + 1) (bt_first e) false).
  set (b' := put_spans _ _). 
  assert (Eo : objs b' = <[a1 := e']> (objs b1)).
  { unfold b', upd. cbn. rewrite (alter_as_insert _ _ _ _ (lookup_insert_eq _ _ _)), insert_insert_eq. unfold e', set_spans, set_td. cbn. by rewrite G1, Ei1. }
  destruct (queue_set b1 a1 e e' I1 E1 G1) as (q1 & q2 & Q & Q').
  specialize (Q' b' Eo eq_refl). cbn [bt_gone e'] in Q'.
  assert (I' : linked b').
  { apply (linked_ext (put_objs (<[a1:=e']> (objs b1)) b1)); try done. by apply (linked_set b1 a1 e). }
  assert (Hh' : handles (rs_key rs) (ss_key ss) b') by (eapply (handles_add _ _ b1 b' id a1 i j e'); eauto).
  assert (Items : items (bt_td e') = items (bt_td e) ++ [(rs_key rs, ss_key ss, sp)]) by (change (bt_td e') with (append_span i j sp td); by rewrite Itd', Itd).
  destruct Hcase as [->|(Tn & -> & Qn)].
  - assert (Hok : trace_ok e) by (pose proof (ct_traces b Ct) as Hf; rewrite Q in Hf; by apply Forall_app in Hf as [_ [Hf _]%Forall_cons]).
    destruct Hok as (Sp & Sp1 & Own). assert (Hok' : trace_ok e').
    { unfold trace_ok. rewrite Items. change (bt_spans e') with (bt_spans e + 1). change (bt_id e') with id.
      rewrite length_app, Forall_app, Forall_singleton. rewrite Ei1 in Own. cbn [length]. split_and!; [lia|lia|done|done]. }
    split_and!; try done.
    + split; [done|]. eapply (counted_add b b' q1 [(a1, e)] q2 a1 e'); try done. cbn. by rewrite app_nil_r.
    + exists q1, q2, [(a1, e)], e'. split_and!; try done; [cbn; by rewrite app_nil_r|]. left. by exists e.
  - assert (Qs : queue b ++ [(a1, mkBuf id [] 0 now false)] ++ [] = q1 ++ [(a1, mkBuf id [] 0 now false)] ++ q2) by (by rewrite app_nil_r, <- Qn).
    destruct (split_unique _ _ _ _ _ _ Qs eq_refl) as (<- & _ & <-); [rewrite app_nil_r, <- Qn; by apply queue_fst|].
    split_and!; try done.
    + split; [done|]. rewrite app_nil_r in Q'.
      eapply (counted_add b b' (queue b) [] [] a1 e'); rewrite ?app_nil_r; try done.
      * change (spans b1 + 1 = spans b + 1). by rewrite S1.
      * unfold trace_ok. rewrite Items. change (bt_id e') with id. change (bt_spans e') with 1.
        split_and!; [done|lia|]. by apply Forall_singleton.
    + exists (queue b), [], [], e'. split_and!; rewrite ?app_nil_r; try done. by right.
Qed.

(** ** Removing *)

Lemma compact_order_spec b : linked b -> linked (compact_order b) /\ queue (compact_order b) = queue b.
Proof.
  intros I. unfold compact_order. case_decide as D; [done|]. destruct (I) as [Io Ia If Il Ib Ih It].
  assert (Hg : live_of (objs b) (firstn (head b) (order b)) = []).
  { apply live_gone. intros x Hx%Ih. unfold is_gone, obj in Hx. by destruct (objs b !! x). }
  split.
  - rewrite <- (take_drop (head b) (order b)) in Io. apply NoDup_app in Io as (_ & _ & Io). split; cbn; try done.
    + intros x Hx. apply Ia. by apply (in_drop _ (head b)).
    + intros x e E G. pose proof (Il x e E G) as Hx. rewrite <- (take_drop (head b) (order b)), elem_of_app in Hx.
      destruct Hx as [Hx|Hx]; [|done]. apply Ih in Hx. unfold is_gone, obj in Hx. rewrite E in Hx. congruence.
    + lia.
    + intros x Hx%not_elem_of_nil. done.
  - unfold queue. cbn. rewrite <- (take_drop (head b) (order b)) at 2. by rewrite live_app, Hg.
Qed.

(** [b'] is [b] without the trace at [a]. *)
Record without (a : nat) (e : bufTrace) (b b' : Buffer) : Prop := {
  wo_linked : linked b';
  wo_queue : exists q1 q2, queue b = q1 ++ [(a, e)] ++ q2 /\ queue b' = q1 ++ q2;
  wo_spans : spans b' = spans b - bt_spans e;
  wo_trace : trace b' = delete (bt_id e) (trace b);
  wo_res : res b' = delete (bt_id e) (res b);
  wo_cur : cur b' = delete (bt_id e) (cur b);
  wo_objs x : x <> a -> objs b' !! x = objs b !! x;
  wo_gone : is_gone b' a = true }.

Lemma tombstone_linked b a e : linked b -> objs b !! a = Some e -> bt_gone e = false -> forall td,
  linked (put_trace (delete (bt_id e) (trace b)) (put_objs (<[a := set_td td (set_gone e)]> (objs b)) b)).
Proof.
  intros I E G td. assert (T : trace b !! bt_id e = Some a) by (apply (lk_trace b I); by exists e).
  destruct (I) as [Io Ia If Il Ib Ih It]. split; cbn; try done.
  - intros x Hx. rewrite lookup_insert_is_Some'. right. auto.
  - intros x [<-|?]%lookup_insert_is_Some'; eauto.
  - intros x y. destruct (decide (x = a)) as [->|Nx]; [rewrite lookup_insert_eq; by intros [= <-]|].
    rewrite lookup_insert_ne by done. apply Il.
  - intros x Hx%Ih. unfold is_gone, obj in *. cbn. destruct (decide (x = a)) as [->|Nx]; [by rewrite lookup_insert_eq|].
    by rewrite lookup_insert_ne.
  - intros id x. destruct (decide (x = a)) as [->|Nx].
    + rewrite lookup_insert_eq. split; [|intros (y & [= <-] & ? & _); done].
      intros Hd. apply lookup_delete_Some in Hd as [Ni T']. exfalso. apply Ni. by apply (linked_inj b _ _ a I).
    + rewrite lookup_insert_ne by done. rewrite lookup_delete_Some, It. split; [tauto|]. intros Hy. split; [|done].
      intros <-. apply It in Hy. congruence.
Qed.

Lemma remove_spec b a e : linked b -> objs b !! a = Some e -> bt_gone e = false ->
  without a e b (remove a b) /\ same_rest b (remove a b) /\ objs (remove a b) !! a = Some (set_gone e).
Proof.
  intros I E G.
  set (b1 := put_spans (spans b - bt_spans e) (put_cur (delete (bt_id e) (cur b)) (put_res (delete (bt_id e) (res b))
    (put_trace (delete (bt_id e) (trace b)) (put_objs (<[a := set_gone e]> (objs b)) b))))).
  assert (remove a b = compact_order b1) as ->.
  { unfold remove, obj. rewrite E, G. unfold upd. by rewrite (alter_as_insert _ _ _ _ E). }
  assert (I1 : linked b1) by (eapply linked_ext; [exact (tombstone_linked b a e I E G (bt_td e))|..]; done).
  destruct (queue_set b a e (set_gone e) I E G) as (q1 & q2 & Q & Q').
  specialize (Q' b1 eq_refl eq_refl). change (queue b1 = q1 ++ q2) in Q'. destruct (compact_order_spec b1 I1) as [I2 Q2].
  assert (K : objs (compact_order b1) = <[a := set_gone e]> (objs b)) by (unfold compact_order; by case_decide).
  split; [|split].
  - split; try done; try (unfold compact_order; by case_decide).
    + exists q1, q2. by rewrite Q2, Q'.
    + intros x Nx. by rewrite K, lookup_insert_ne.
    + unfold is_gone, obj. by rewrite K, lookup_insert_eq.
  - unfold same_rest, compact_order. by case_decide.
  - by rewrite K, lookup_insert_eq.
Qed.

(** The tombstone's payload is nobody's business. *)
Lemma without_td a e b b' : without a e b b' -> without a e b (upd (set_td []) a b').
Proof.
  intros [Wl (q1 & q2 & Q & Q') Ws Wt Wr Wc Wo Wg]. unfold is_gone, obj in Wg.
  assert (Ng : forall y, objs b' !! a = Some y -> bt_gone y = true) by (intros y Ey; by rewrite Ey in Wg).
  assert (Hl : forall x, is_gone (upd (set_td []) a b') x = is_gone b' x).
  { intros x. unfold is_gone, obj, upd. cbn. destruct (decide (x = a)) as [->|Nx].
    - rewrite lookup_alter_eq. by destruct (objs b' !! a).
    - by rewrite lookup_alter_ne. }
  assert (Hc : forall x y, bt_gone y = false -> objs (upd (set_td []) a b') !! x = Some y <-> objs b' !! x = Some y).
  { intros x y Gy. unfold upd. cbn. destruct (decide (x = a)) as [->|Nx]; [|by rewrite lookup_alter_ne].
    rewrite lookup_alter_eq. destruct (objs b' !! a) as [z|] eqn:Ez; cbn; [|done].
    pose proof (Ng z eq_refl). split; intros [= <-]; cbn in Gy; congruence. }
  split; try done.
  - destruct Wl as [Io Ia If Il Ib Ih It]. split; try done.
    + intros x Hx. unfold upd. cbn. rewrite lookup_alter_is_Some. by apply Ia.
    + intros x Hx. unfold upd in Hx. cbn in Hx. rewrite lookup_alter_is_Some in Hx. by apply If.
    + intros x y Ey Gy. apply (Il x y); [|done]. by apply Hc.
    + intros x Hx. rewrite Hl. by apply Ih.
    + intros id x. rewrite (It id x). split; intros (y & Ey & Gy & ?); exists y; (split; [|done]); by apply Hc.
  - exists q1, q2. split; [done|]. rewrite <- Q'. unfold queue. apply live_ext. intros x _.
    apply option_eq. intros [y z]. rewrite !cell_Some. cbn. split; intros (-> & Ez & Gz); (split_and!; [done| |done]); by apply Hc.
  - intros x Nx. unfold upd. cbn. rewrite lookup_alter_ne by done. by apply Wo.
  - rewrite Hl. unfold is_gone, obj. exact Wg.
Qed.

Definition core (b : Buffer) := (objs b, fresh b, trace b, order b, head b, spans b, res b, cur b).

Lemma without_core a e b b' b2 b2' : core b2 = core b -> core b2' = core b' -> without a e b b' -> without a e b2 b2'.
Proof.
  destruct b2 as [? ? o f t r h s ? rs c ? ? ? ? ?], b2' as [? ? o' f' t' r' h' s' ? rs' c' ? ? ? ? ?], b, b'.
  unfold core. cbn. intros [= -> -> -> -> -> -> -> ->] [= -> -> -> -> -> -> -> ->] [Wl Wq Ws Wt Wr Wc Wo Wg].
  split; try done. by eapply linked_ext; [exact Wl|..].
Qed.

Lemma without_queue a e b b1 b2 : linked b -> without a e b b1 -> without a e b b2 -> queue b1 = queue b2.
Proof.
  intros I W1 W2. destruct (wo_queue _ _ _ _ W1) as (q1 & q2 & Q & ->), (wo_queue _ _ _ _ W2) as (p1 & p2 & P & ->).
  pose proof (queue_fst b I) as N. rewrite Q in N, P. by destruct (split_unique _ _ _ _ _ _ P eq_refl N) as (-> & _ & ->).
Qed.

Lemma handles_without a e b b' K L : linked b -> objs b !! a = Some e -> bt_gone e = false -> without a e b b' ->
  handles K L b -> handles K L b'.
Proof.
  intros I E G W [Hr Hc]. assert (T : trace b !! bt_id e = Some a) by (apply (lk_trace b I); by exists e).
  assert (Hk : forall id x y, id <> bt_id e -> trace b !! id = Some x -> objs b !! x = Some y -> trace b' !! id = Some x /\ objs b' !! x = Some y).
  { intros id x y Ni T' E'. rewrite (wo_trace _ _ _ _ W), lookup_delete_ne by congruence. split; [done|].
    rewrite (wo_objs _ _ _ _ W); [done|]. intros ->. by apply Ni, (linked_inj b id (bt_id e) a). }
  split; rewrite (wo_res _ _ _ _ W), ?(wo_cur _ _ _ _ W).
  - intros id i [Ni Hi]%lookup_delete_Some. destruct (Hr _ _ Hi) as (x & y & T' & E' & ?).
    exists x, y. by destruct (Hk id x y).
  - intros id j [Ni Hj]%lookup_delete_Some. destruct (Hc _ _ Hj) as (i & x & y & Hi & T' & E' & ?).
    exists i, x, y. rewrite lookup_delete_ne by done. by destruct (Hk id x y).
Qed.

Lemma counted_without a e b b' : counted b -> without a e b b' ->
  counted b' /\ trace_ok e /\ held b ≡ₚ items (bt_td e) ++ held b'.
Proof.
  intros [Ct Cs] W. destruct (wo_queue _ _ _ _ W) as (q1 & q2 & Q & Q'). rewrite Q in Ct. rewrite !Forall_app, Forall_singleton in Ct.
  destruct Ct as (C1 & (Sp & Ok) & C2). cbn [snd] in Sp, Ok. assert (P : held b ≡ₚ items (bt_td e) ++ held b').
  { unfold held. rewrite Q, Q', !bind_app. cbn. rewrite app_nil_r. apply Permutation_app_swap_app. }
  split_and!; try done. split.
  - rewrite Q', Forall_app. done.
  - rewrite (wo_spans _ _ _ _ W), Cs, Sp. apply Permutation_length in P. rewrite length_app in P. lia.
Qed.

(** ** Judging *)

(** What a verdict reads and writes of the buffer: the policies' state, the
    verdict cache, the masks billed. *)
Definition engine (b : Buffer) := (ev b, cache b, billed (ghost b)).

Definition verdict_step (x x' : Ev * decisionCache * gmap Z (list Z)) : Prop :=
  exists id td now, let '(ev, c, _) := x in
    let '(d, ev') := Verdict (mkTrace id (view td) (if negb (id =? 0) then charged id c else 0)) ev in
    x' = if negb (id =? 0)
         then (ev', TailCache.put id (Sampled d) (d_charged d) now c, billed (bill id (d_charged d) (bool_decide (is_Some (c_m c !! id))) (mkLedger [] x.2)))
         else (ev', c, x.2).

(** Early decisions already reported. *)
Definition reported (c : counters) : list Z * nat * nat :=
  (zip_with Z.sub (earlyCount c) (earlyPending c), length (earlyCount c), length (earlyPending c)).

(** [new] came in, and spans left the queue for [out'] or for the dropped: none
    is lost, none is made up. *)
Record moved (new : list item) (b b' : Buffer) (out out' : outbound) (kept dropped : Z) : Prop := {
  mv_items : held b' ++ discarded (ghost b') ++ items (o_td out') ≡ₚ held b ++ discarded (ghost b) ++ items (o_td out) ++ new;
  mv_kept : Z.of_nat (length (items (o_td out'))) = Z.of_nat (length (items (o_td out))) + kept;
  mv_out : o_spans out' = o_spans out + kept;
  mv_dropped : Z.of_nat (length (discarded (ghost b'))) = Z.of_nat (length (discarded (ghost b))) + dropped;
  mv_pos : 0 <= kept /\ 0 <= dropped;
  mv_engine : star verdict_step (engine b) (engine b');
  mv_reported : reported (cnt b') = reported (cnt b);
  mv_set : set_ b' = set_ b;
  mv_flushed : flushed b' = flushed b }.

Definition tallies (c : counters) := (spansKept c, spansDrop c, spansLost c, lateKept c, lateDrop c).

Definition judged (b : Buffer) (e : bufTrace) : Decision * Ev :=
  Verdict (mkTrace (bt_id e) (view (bt_td e)) (if negb (bt_id e =? 0) then charged (bt_id e) (cache b) else 0)) (ev b).

Lemma reported_bump (l1 l2 : list Z) i : zip_with Z.sub (alter Z.succ i l1) (alter Z.succ i l2) = zip_with Z.sub l1 l2.
Proof.
  revert l2 i. induction l1 as [|x l1 IH]; intros [|y l2] [|i]; cbn; try done; f_equal; first [done|lia|apply IH].
Qed.

Lemma judge_spec out a e now reason b out' b' kept dropped : buf_inv b -> objs b !! a = Some e -> bt_gone e = false ->
  judge out a now reason b = (out', b', kept, dropped) ->
  let d := (judged b e).1 in
  without a e b b' /\ moved [] b b' out out' kept dropped /\
  kept = (if Sampled d then bt_spans e else 0) /\ dropped = (if Sampled d then 0 else bt_spans e) /\
  tallies (cnt b') = tallies (cnt b) /\ ev b' = (judged b e).2 /\
  cache b' = (if negb (bt_id e =? 0) then TailCache.put (bt_id e) (Sampled d) (d_charged d) now (cache b) else cache b) /\
  billed (ghost b') = (if negb (bt_id e =? 0)
    then billed (bill (bt_id e) (d_charged d) (bool_decide (is_Some (c_m (cache b) !! bt_id e))) (ghost b)) else billed (ghost b)).
Proof.
  intros [I Ct] E G. unfold judge, obj. rewrite E. cbv zeta.
  set (reason' := if negb (bool_decide (reason = reasonNone)) && _ then _ else reason).
  fold (judged b e). destruct (judged b e) as [d ev'] eqn:J. cbn [fst snd].
  set (b1 := if decide (reason' = reasonNone) then _ else _).
  assert (C1 : core b1 = core b) by (unfold b1; by case_decide).
  assert (L1 : linked b1) by (unfold core in C1; injection C1; intros; by apply (linked_ext b)).
  assert (E1 : objs b1 !! a = Some e) by (unfold core in C1; injection C1 as -> _; done).
  destruct (remove_spec b1 a e L1 E1 G) as (W & R & _). set (b2 := remove a b1) in *.
  assert (R2 : ev b2 = ev' /\ set_ b2 = set_ b /\ flushed b2 = flushed b /\ cache b2 = cache b /\ ghost b2 = ghost b /\
    tallies (cnt b2) = tallies (cnt b) /\ reported (cnt b2) = reported (cnt b)).
  { destruct R as (-> & -> & -> & -> & -> & _ & _ & ->). unfold b1. case_decide; cbn; split_and!; try done; unfold bump_policy, reported;
      destruct (default _ _); cbn; try done. by rewrite reported_bump, !length_alter. }
  destruct R2 as (Rev & Rset & Rfl & Rca & Rgh & Rta & Rre).
  set (b3 := if negb (bt_id e =? 0) then _ else b2).
  assert (C3 : core b3 = core b2) by (unfold b3; by destruct (negb (bt_id e =? 0))).
  assert (W3 : without a e b b3) by (eapply without_core; [symmetry; exact C1|exact C3|exact W]).
  pose proof (without_td _ _ _ _ W3) as W4. 
  destruct (counted_without _ _ _ _ Ct W3) as (Ct3 & (Sp & Sp1 & Own) & P).
  assert (P4 : held (upd (set_td []) a b3) = held b3) by (unfold held; by rewrite (without_queue a e b _ b3)).
  assert (R3 : ev b3 = ev' /\ set_ b3 = set_ b /\ flushed b3 = flushed b /\ discarded (ghost b3) = discarded (ghost b) /\ tallies (cnt b3) = tallies (cnt b) /\ reported (cnt b3) = reported (cnt b) /\
    cache b3 = (if negb (bt_id e =? 0) then TailCache.put (bt_id e) (Sampled d) (d_charged d) now (cache b) else cache b) /\
    billed (ghost b3) = (if negb (bt_id e =? 0)
    then billed (bill (bt_id e) (d_charged d) (bool_decide (is_Some (c_m (cache b) !! bt_id e))) (ghost b)) else billed (ghost b))).
  { unfold b3. destruct (negb (bt_id e =? 0)); cbn; rewrite ?Rca, ?Rgh; split_and!; done. }
  destruct R3 as (Sev & Sset & Sfl & Sdi & Sta & Sre & Sca & Sbi).
  assert (Eng : star verdict_step (engine b) (engine b3)).
  { eapply star_step; [constructor|]. exists (bt_id e), (bt_td e), now. unfold engine. fold (judged b e). rewrite J, Sev, Sca, Sbi. by destruct (negb (bt_id e =? 0)). } clearbody b3. clear b2 W R Rev Rset Rfl Rca Rgh Rta Rre C3.
  destruct (Sampled d) eqn:Sd; cbn [negb].
  - intros [= <- <- <- <-]. split; [done|]. split; [|split_and!; done].
    split; cbn; try done.
    + change (held (upd (set_td []) a b3) ++ discarded (ghost b3) ++ items (o_td out ++ bt_td e) ≡ₚ held b ++ discarded (ghost b) ++ items (o_td out) ++ []).
      rewrite app_nil_r, items_app, P4, Sdi, P. solve_Permutation.
    + rewrite items_app, length_app. lia.
    + rewrite Sdi. lia.
    + lia.
  - intros [= <- <- <- <-]. split; [by apply (without_core a e b (upd (set_td []) a b3))|]. split; [|split_and!; done].
    split; cbn; try done; try lia.
    + change (held (upd (set_td []) a b3) ++ (discarded (ghost b3) ++ items (bt_td e)) ++ items (o_td out) ≡ₚ held b ++ discarded (ghost b) ++ items (o_td out) ++ []).
      rewrite app_nil_r, P4, Sdi, P. solve_Permutation.
    + rewrite Sdi, length_app. lia.
Qed.

End Inv.

(** * The tail-sampling buffer: the queue through a hold of its lock

    What the front of the queue is, what one decision, a bound's decisions and a
    push do to the queue, to the payload being built and to the counts. *)


Lemma perm_step {A} (h1 d1 o1 h d o n m : list A) (g : list A) : h1 ++ d1 ++ o1 ≡ₚ h ++ d ++ o ++ n -> g ≡ₚ h1 ++ d1 ++ o1 ++ m ->
  g ≡ₚ h ++ d ++ o ++ n ++ m.
Proof.
  intros P ->. transitivity ((h1 ++ d1 ++ o1) ++ m); [by rewrite <- !app_assoc|]. rewrite P. by rewrite <- !app_assoc.
Qed.

Section Steps.
Context `{Decider}.

Lemma moved_trans n1 n2 b b1 b2 o o1 o2 k1 k2 d1 d2 : moved n1 b b1 o o1 k1 d1 -> moved n2 b1 b2 o1 o2 k2 d2 ->
  moved (n1 ++ n2) b b2 o o2 (k1 + k2) (d1 + d2).
Proof.
  intros [P1 K1 O1 D1 Z1 E1 R1 S1 F1] [P2 K2 O2 D2 Z2 E2 R2 S2 F2]. split; try lia; try congruence; [by eapply perm_step|by eapply star_trans].
Qed.

Lemma moved_refl b o : moved [] b b o o 0 0.
Proof. split; try lia; try done; [by rewrite app_nil_r|constructor]. Qed.

(** A change the accounts do not see. *)
Lemma moved_same b b' o : held b' = held b -> ghost b' = ghost b -> engine b' = engine b -> reported (cnt b') = reported (cnt b) ->
  set_ b' = set_ b -> flushed b' = flushed b -> moved [] b b' o o 0 0.
Proof. intros Eh Eg En ? ? ?. split; rewrite ?Eg, ?Eh, ?En, ?app_nil_r; try lia; try done. constructor. Qed.

(** ** The front of the queue *)

Lemma leading_gone_spec b l : live_of (objs b) (drop (leading_gone b l) l) = live_of (objs b) l /\ (leading_gone b l <= length l)%nat /\
  (forall x, x ∈ firstn (leading_gone b l) l -> is_gone b x = true) /\
  match l !! leading_gone b l with Some a => is_gone b a = false | None => live_of (objs b) l = [] end.
Proof.
  induction l as [|x l IH]; cbn [leading_gone]; [split_and!; [done|done|by intros x ?%not_elem_of_nil|done]|].
  destruct (is_gone b x) eqn:G; cbn [drop firstn lookup list_lookup].
  - destruct IH as (E & Le & Hg & Hl).
    assert (Hx : live_of (objs b) (x :: l) = live_of (objs b) l).
    { unfold live_of. cbn. unfold cell at 1. unfold is_gone, obj in G. destruct (objs b !! x) as [y|]; cbn; [by rewrite G|done]. }
    rewrite Hx. split_and!; [done|cbn; lia| |done].
    intros y [->|?]%elem_of_cons; [done|by apply Hg].
  - split_and!; [done|lia|by intros y ?%not_elem_of_nil|done].
Qed.

(** [b] with another head: what [frontLocked] leaves. *)
Definition same_core_head (b b' : Buffer) : Prop := exists h, b' = put_head h b.

Lemma front_spec b f b' : linked b -> frontLocked b = (f, b') -> linked b' /\ queue b' = queue b /\ same_core_head b b' /\
  match f with
  | None => queue b = []
  | Some a => exists e q, queue b = (a, e) :: q /\ objs b !! a = Some e /\ bt_gone e = false
  end.
Proof.
  intros I. unfold frontLocked. intros [= <- <-]. set (l := drop (head b) (order b)).
  destruct (leading_gone_spec b l) as (E & Le & Hg & Hl). set (n := leading_gone b l) in *.
  destruct (I) as [Io Ia If Il Ib Ih It].
  assert (Q : queue b = live_of (objs b) l).
  { unfold queue. rewrite <- (take_drop (head b) (order b)) at 1. rewrite live_app.
    rewrite (live_gone (objs b) (firstn _ _)); [done|]. intros x Hx%Ih. unfold is_gone, obj in Hx. by destruct (objs b !! x). }
  assert (Lk : order b !! (head b + n)%nat = l !! n) by (unfold l; by rewrite lookup_drop).
  split; [|split; [done|split; [by eexists|]]].
  - split; cbn; try done.
    + unfold l in Le. rewrite length_drop in Le. lia.
    + intros x Hx. apply elem_of_take in Hx as (k & Hk & Lt). destruct (decide (k < head b)%nat).
      * apply Ih, elem_of_take. by exists k.
      * apply Hg, elem_of_take. exists (k - head b)%nat. split; [|lia]. unfold l. rewrite lookup_drop. rewrite <- Hk. f_equal. lia.
  - rewrite Lk. destruct (l !! n) as [a|] eqn:En; [|by rewrite Q].
    unfold is_gone, obj in Hl. destruct (objs b !! a) as [e|] eqn:Ea; [|done].
    exists e, (live_of (objs b) (drop (S n) l)). split_and!; [|done|done].
    rewrite Q, <- E, (drop_S _ _ _ En). unfold live_of. cbn. unfold cell at 1. rewrite Ea. cbn. by rewrite Hl.
Qed.

(** ** One decision, and a bound's decisions *)

(** The counters a decision moves: [n] dropped spans. *)
Definition drops (c c' : counters) (n : Z) : Prop :=
  spansDrop c' = spansDrop c + n /\ spansKept c' = spansKept c /\ spansLost c' = spansLost c /\ lateKept c' = lateKept c /\ lateDrop c' = lateDrop c.

Lemma tallies_drops c c' : tallies c' = tallies c -> drops c c' 0.
Proof. unfold tallies, drops. intros [= -> -> -> -> ->]. split_and!; lia. Qed.

Lemma drops_trans c c1 c2 n m : drops c c1 n -> drops c1 c2 m -> drops c c2 (n + m).
Proof. unfold drops. intros. lia. Qed.

Lemma handles_head K L h b : handles K L b -> handles K L (put_head h b).
Proof. by intros [Hr Hc]. Qed.

Lemma handles_cnt K L c b : handles K L b -> handles K L (put_cnt c b).
Proof. by intros [Hr Hc]. Qed.

Lemma buf_inv_core b b' : core b' = core b -> buf_inv b -> buf_inv b'.
Proof.
  unfold core. intros [= Eo Ef Et Er Eh Es Eres Ecur] [I [Ct Cs]]. split; [by apply (linked_ext b)|].
  assert (Q : queue b' = queue b) by (unfold queue; by rewrite Eo, Er).
  split; [by rewrite Q|]. unfold held in *. by rewrite Q, Es.
Qed.

(** One live trace leaves the queue. *)
Record decided (b b' : Buffer) (out out' : outbound) (kept dropped : Z) : Prop := {
  de_inv : buf_inv b';
  de_moved : moved [] b b' out out' kept dropped;
  de_sub : sublist (queue b') (queue b);
  de_handles K L : handles K L b -> handles K L b';
  de_gone a : is_gone b a = true -> is_gone b' a = true;
  de_out : exists more, o_td out' = o_td out ++ more }.

Lemma decided_refl b o : buf_inv b -> decided b b o o 0 0.
Proof. intros I. split; try done; [apply moved_refl|]. exists []. by rewrite app_nil_r. Qed.

Lemma decided_trans b b1 b2 o o1 o2 k1 k2 d1 d2 : decided b b1 o o1 k1 d1 -> decided b1 b2 o1 o2 k2 d2 -> decided b b2 o o2 (k1 + k2) (d1 + d2).
Proof.
  intros [I1 M1 S1 H1 G1 (m1 & O1)] [I2 M2 S2 H2 G2 (m2 & O2)]. split; [done| |by etransitivity|eauto|eauto|].
  - by apply (moved_trans [] [] b b1 b2 o o1 o2).
  - exists (m1 ++ m2). by rewrite O2, O1, app_assoc.
Qed.

Lemma judge_decided out a e now reason b out' b' kept dropped : buf_inv b -> objs b !! a = Some e -> bt_gone e = false ->
  judge out a now reason b = (out', b', kept, dropped) ->
  decided b b' out out' kept dropped /\ without a e b b' /\ tallies (cnt b') = tallies (cnt b) /\ kept + dropped = bt_spans e.
Proof.
  intros Inv E G Jd. pose proof Inv as [I Ct]. destruct (judge_spec _ _ _ _ _ _ _ _ _ _ Inv E G Jd) as (W & M & Ek & Ed & T & _).
  split_and!; try done; [|rewrite Ek, Ed; destruct (Sampled _); lia].
  split; try done.
  - split; [apply W|by apply (counted_without a e b b' Ct W)].
  - destruct (wo_queue _ _ _ _ W) as (q1 & q2 & -> & ->). apply sublist_app; [done|]. by apply sublist_inserts_l.
  - intros K L. by eapply handles_without.
  - intros x Hx. destruct (decide (x = a)) as [->|Nx]; [exact (wo_gone _ _ _ _ W)|]. rewrite <- Hx. unfold is_gone, obj. by rewrite (wo_objs _ _ _ _ W x).
  - unfold judge, obj in Jd. rewrite E in Jd. cbv zeta in Jd. destruct (Verdict _ _) as [d ev'].
    destruct (Sampled d); cbn in Jd; injection Jd as <- _ _ _; [by eexists|]. exists []. by rewrite app_nil_r.
Qed.

Lemma decide_spec out a e now reason b out' b' kept : buf_inv b -> objs b !! a = Some e -> bt_gone e = false ->
  decide_ out a now reason b = (out', b', kept) ->
  exists dropped, decided b b' out out' kept dropped /\ without a e b b' /\ drops (cnt b) (cnt b') dropped.
Proof.
  intros Inv E G. unfold decide_. destruct (judge out a now reason b) as [[[o1 b1] k1] d1] eqn:J.
  destruct (judge_decided _ _ _ _ _ _ _ _ _ _ Inv E G J) as (D & W & T & _). intros [= <- <- <-]. exists d1.
  pose proof (mv_pos _ _ _ _ _ _ _ (de_moved _ _ _ _ _ _ D)) as Z1.
  case_match eqn:Ed; bool_norm; [|assert (d1 = 0) as -> by lia; split_and!; try done; by apply tallies_drops].
  set (b2 := put_cnt _ b1). destruct D as [D1 D2 D3 D4 D5 D6]. split; [split; try done|split].
  - by apply (buf_inv_core b1).
  - destruct D2. by split.
  - intros K L Hh. by apply handles_cnt, D4.
  - by apply (without_core a e b b1).
  - unfold b2, drops. cbn. unfold tallies in T. injection T as -> -> -> -> ->. lia.
Qed.

Lemma decideOldest_spec out now reason b out' b' n : buf_inv b -> decideOldest out now reason b = (out', b', n) ->
  match n with
  | None => queue b = [] /\ decided b b' out out' 0 0 /\ drops (cnt b) (cnt b') 0
  | Some k => exists a e q dropped, queue b = (a, e) :: q /\ queue b' = q /\ decided b b' out out' k dropped /\ drops (cnt b) (cnt b') dropped
  end.
Proof.
  intros Inv. pose proof Inv as [I Ct]. unfold decideOldest. destruct (frontLocked b) as [f b1] eqn:F.
  destruct (front_spec b f b1 I F) as (I1 & Q1 & (h & ->) & Hf).
  assert (D1 : decided b (put_head h b) out out 0 0).
  { split; try done; [split; [done|destruct Ct; by split]| |by intros K L Hh; apply handles_head|exists []; by rewrite app_nil_r].
    by apply moved_same. }
  destruct f as [a|].
  - destruct Hf as (e & q & Q & E & G). destruct (decide_ out a now reason (put_head h b)) as [[o2 b2] k] eqn:D.
    destruct (decide_spec _ _ _ _ _ _ _ _ _ (de_inv _ _ _ _ _ _ D1) E G D) as (dropped & D2 & W & Dr).
    intros [= <- <- <-]. exists a, e, q, dropped. split_and!; [done| | |done].
    + destruct (wo_queue _ _ _ _ W) as (q1 & q2 & Qa & ->).
      assert (Qs : [] ++ [(a, e)] ++ q = q1 ++ [(a, e)] ++ q2) by (rewrite <- Qa, Q1; done).
      destruct (split_unique _ _ _ _ _ _ Qs eq_refl) as (<- & _ & <-); [|done].
      change (NoDup ((a, e) :: q).*1). rewrite <- Q. by apply queue_fst.
    + exact (decided_trans _ _ _ _ _ _ _ _ _ _ D1 D2).
  - intros [= <- <- <-]. split_and!; try done. by apply tallies_drops.
Qed.

Lemma enforce_loop_spec fuel over reason out now moved b out' b' moved' : buf_inv b -> (size (trace b) < fuel)%nat ->
  enforce_loop fuel over reason out now moved b = (out', b', moved') ->
  exists dropped, decided b b' out out' (moved' - moved) dropped /\ drops (cnt b) (cnt b') dropped /\ (over b' = false \/ queue b' = []).
Proof.
  revert out moved b. induction fuel as [|fuel IH]; intros out moved b Inv Lt; [lia|]. cbn [enforce_loop].
  destruct (over b) eqn:O.
  - destruct (decideOldest out now reason b) as [[o1 b1] n] eqn:D. pose proof (decideOldest_spec _ _ _ _ _ _ _ Inv D) as Hs.
    destruct n as [k|].
    + destruct Hs as (a & e & q & d & Q & Q1 & D1 & Dr). intros E.
      destruct (IH o1 (moved + k) b1) as (d2 & D2 & Dr2 & Ov); [apply D1| |exact E|].
      * rewrite (trace_size b1 (proj1 (de_inv _ _ _ _ _ _ D1))), Q1. rewrite (trace_size b (proj1 Inv)), Q in Lt. cbn in Lt. lia.
      * exists (d + d2). split_and!; [|by eapply drops_trans|done].
        replace (moved' - moved) with (k + (moved' - (moved + k))) by lia. by eapply decided_trans.
    + intros [= <- <- <-]. destruct Hs as (Q & D1 & Dr). exists 0. split_and!; [by rewrite Z.sub_diag|done|right].
      pose proof (de_sub _ _ _ _ _ _ D1) as S. rewrite Q in S. by apply sublist_nil_r in S.
  - intros [= <- <- <-]. exists 0. split_and!; [by rewrite Z.sub_diag; apply decided_refl|by apply tallies_drops|by left].
Qed.

End Steps.
