(* ===== verification/TailBufferPush.v ===== *)
(** * The tail-sampling buffer: one push

    The bounds [enforce] restores, the walk of a payload, and [take_spec]: where
    the spans of a push are when the hold ends. *)

From S2P Require Import Prelude LogDedupe Clip Number Float Text Pdata TailSample TailCache Payload TailBuffer TailBufferInv.
Local Open Scope Z_scope.

Notation items_of q := (q ≫= fun p : nat * bufTrace => items (bt_td p.2)).

Section Push.
Context `{Decider}.

(** ** The bounds *)

Definition keyed (q : list (nat * bufTrace)) : list (nat * bufTrace) := filter (fun p => bt_id p.2 <> 0) q.
Definition fits (s : settings) (q : list (nat * bufTrace)) : Prop :=
  Z.of_nat (length q) <= maxTraces s /\ Z.of_nat (length (items_of q)) <= maxSpans s /\ Forall (fun p => bt_spans p.2 < maxSpansPerTrace s) q.
Definition within (b : Buffer) : Prop := fits (set_ b) (keyed (queue b)).
Definition set_pos (s : settings) : Prop := 0 <= maxTraces s /\ 0 <= maxSpans s.

Lemma items_sub q q' : sublist q' q -> (length (items_of q') <= length (items_of q))%nat.
Proof. intros S. induction S; cbn; rewrite ?length_app; lia. Qed.

Lemma fits_sub s q q' : sublist q' q -> fits s q -> fits s q'.
Proof.
  intros S (F1 & F2 & F3). split_and!.
  - apply sublist_length in S. lia.
  - apply items_sub in S. lia.
  - apply Forall_forall. intros p Hp. rewrite Forall_forall in F3. apply F3. eapply elem_of_submseteq; [exact Hp|]. by apply sublist_submseteq.
Qed.

Lemma keyed_sub q q' : sublist q' q -> sublist (keyed q') (keyed q).
Proof. intros S; induction S; unfold keyed in *; rewrite ?filter_cons; repeat case_decide; eauto using sublist. Qed.

(** Every keyed trace but the one at [a] is under the per-trace bound. *)
Definition others_small (a : nat) (b : Buffer) : Prop :=
  forall x y, (x, y) ∈ queue b -> x <> a -> bt_id y <> 0 -> bt_spans y < maxSpansPerTrace (set_ b).

Lemma decided_in b b' o o' k d p : decided b b' o o' k d -> p ∈ queue b' -> p ∈ queue b.
Proof. intros D Hp. eapply elem_of_submseteq; [exact Hp|]. apply sublist_submseteq, D. Qed.

Lemma decided_set b b' o o' k d : decided b b' o o' k d -> set_ b' = set_ b /\ flushed b' = flushed b.
Proof. intros D. destruct (de_moved _ _ _ _ _ _ D). done. Qed.

(** The per-trace bound, the first thing [enforce] restores. *)
Lemma own_bound_spec out a e now b out' b' moved : buf_inv b -> obj a b = Some e ->
  (if (maxSpansPerTrace (set_ b) <=? bt_spans e) && negb (bt_gone e) then decide_ out a now reasonSpansPerTrace b else (out, b, 0)) = (out', b', moved) ->
  exists dropped, decided b b' out out' moved dropped /\ drops (cnt b) (cnt b') dropped /\
    (forall y, (a, y) ∈ queue b' -> bt_spans y < maxSpansPerTrace (set_ b)).
Proof.
  intros Inv E. unfold obj in E. destruct ((maxSpansPerTrace (set_ b) <=? bt_spans e) && negb (bt_gone e)) eqn:C.
  - apply andb_true_iff in C as [_ G%negb_true_iff]. intros Hd. destruct (decide_spec _ _ _ _ _ _ _ _ _ Inv E G Hd) as (d & D & W & Dr).
    exists d. split_and!; try done. intros y Hy%(queue_in b' a y). pose proof (wo_gone _ _ _ _ W) as Hg.
    unfold is_gone, obj in Hg. destruct Hy as (_ & Ey & Gy). rewrite Ey in Hg. congruence.
  - intros [= <- <- <-]. exists 0. split_and!; [by apply decided_refl|by apply tallies_drops|].
    intros y (_ & Ey & Gy)%(queue_in b a y). rewrite E in Ey. injection Ey as <-.
    rewrite Gy, andb_true_r in C. lia.
Qed.

Lemma enforce_spec out a now b out' b' moved : buf_inv b -> is_Some (obj a b) -> enforce out a now b = (out', b', moved) ->
  exists dropped, decided b b' out out' moved dropped /\ drops (cnt b) (cnt b') dropped /\
    (set_pos (set_ b) -> others_small a b -> within b').
Proof.
  intros Inv [e E]. unfold enforce. rewrite E.
  destruct (if _ && _ then _ else (out, b, 0)) as [[o1 b1] m1] eqn:S1.
  destruct (own_bound_spec _ _ _ _ _ _ _ _ Inv E S1) as (d1 & D1 & R1 & Own). destruct (decided_set _ _ _ _ _ _ D1) as [Es1 _].
  destruct (enforce_loop _ over_traces _ _ _ _ b1) as [[o2 b2] m2] eqn:S2. intros S3.
  destruct (enforce_loop_spec _ _ _ _ _ _ _ _ _ _ (de_inv _ _ _ _ _ _ D1) (Nat.lt_succ_diag_r _) S2) as (d2 & D2 & R2 & V2).
  destruct (decided_set _ _ _ _ _ _ D2) as [Es2 _].
  destruct (enforce_loop_spec _ _ _ _ _ _ _ _ _ _ (de_inv _ _ _ _ _ _ D2) (Nat.lt_succ_diag_r _) S3) as (d3 & D3 & R3 & V3).
  destruct (decided_set _ _ _ _ _ _ D3) as [Es3 _].
  exists (d1 + d2 + d3). split_and!.
  - replace moved with (m1 + (m2 - m1) + (moved - m2)) by lia. eapply decided_trans; [eapply decided_trans|]; eassumption.
  - eapply drops_trans; [eapply drops_trans|]; eassumption.
  - intros [P1 P2] Oth.
    assert (L2 : Z.of_nat (length (queue b2)) <= maxTraces (set_ b)).
    { destruct V2 as [V2| ->]; [|cbn; lia]. unfold over_traces in V2. bool_norm.
      rewrite (trace_size b2 (proj1 (de_inv _ _ _ _ _ _ D2))), Es2, Es1 in V2. lia. }
    assert (L3 : Z.of_nat (length (items_of (queue b'))) <= maxSpans (set_ b)).
    { destruct V3 as [V3| ->]; [|cbn; lia]. pose proof (de_inv _ _ _ _ _ _ D3) as [I3 [_ C3]]. unfold held in C3. rewrite <- C3.
      unfold over_spans in V3. rewrite (trace_size b' I3), Es3, Es2, Es1 in V3. apply andb_false_iff in V3 as [V3|V3]; bool_norm; [lia|].
      assert (queue b' = []) as Q by (destruct (queue b'); [done|cbn in V3; lia]). rewrite Q in C3. cbn in C3. lia. }
    assert (K : sublist (keyed (queue b')) (queue b')) by (unfold keyed; apply sublist_filter).
    pose proof (sublist_length _ _ (de_sub _ _ _ _ _ _ D3)). pose proof (sublist_length _ _ K). pose proof (items_sub _ _ K).
    unfold within. rewrite Es3, Es2, Es1. split_and!; [lia|lia|]. apply Forall_forall. intros [x y] [Ny Hp]%list_elem_of_filter. cbn in *.
    apply (decided_in _ _ _ _ _ _ _ D3), (decided_in _ _ _ _ _ _ _ D2) in Hp. destruct (decide (x = a)) as [->|Nx]; [by apply Own|].
    apply (Oth x y); [by apply (decided_in _ _ _ _ _ _ _ D1)|done|done].
Qed.


(** ** The walk of a payload *)

Definition r_kept (r : received) : Z := late r + mine r + heldKept r.

(** Where the handles into the push's own payload point. *)
Record late_ok (K : attrs * bytes) (L : Scope * bytes) (w : walk) : Prop := {
  lt_rs i : lateRS w = Some i -> in_res K (o_td (r_out (w_r w))) i;
  lt_ss j : lateSS w = Some j -> exists i, lateRS w = Some i /\ in_cur K L (o_td (r_out (w_r w))) i j }.

(** A push that began at [b0] has met [seen]. *)
Record walk_ok (b0 : Buffer) (seen : list item) (w : walk) : Prop := {
  wk_inv : buf_inv (w_b w);
  wk_moved : exists n, moved seen b0 (w_b w) noOut (r_out (w_r w)) (late (w_r w) + mine (w_r w)) (n + lateDropped (w_r w)) /\ drops (cnt b0) (cnt (w_b w)) n;
  wk_pos : 0 <= late (w_r w) /\ 0 <= mine (w_r w) /\ 0 <= lateDropped (w_r w);
  wk_held : heldKept (w_r w) = 0 /\ heldDropped (w_r w) = 0;
  wk_unkeyed a : trace (w_b w) !! 0 = Some a -> unkeyed w = Some a;
  wk_within : set_pos (set_ b0) -> flushed b0 = false -> within b0 -> within (w_b w) }.

Lemma decided_trace b b' o o' k d id a : linked b -> decided b b' o o' k d -> trace b' !! id = Some a -> trace b !! id = Some a.
Proof.
  intros I D T. pose proof (de_inv _ _ _ _ _ _ D) as [I' _]. apply (lk_trace b' I') in T as (e & E & G & <-).
  apply (lk_trace b I). exists e. assert (Hq : (a, e) ∈ queue b) by (apply (decided_in _ _ _ _ _ _ _ D), linked_queue; done).
  apply (linked_queue b a e I) in Hq as [? ?]. done.
Qed.

(** A span copied into the buffer. *)
Lemma moved_add b b' o rs ss sp a id now : add id sp rs ss now b = (a, b') -> buf_inv b -> handles (rs_key rs) (ss_key ss) b -> sp_trace sp = id ->
  moved [(rs_key rs, ss_key ss, sp)] b b' o o 0 0.
Proof.
  intros A Inv Hh Hid. destruct (add_spec _ _ _ _ _ _ _ _ Inv Hh Hid A) as (_ & _ & R & _ & q1 & q2 & old & e & Q & Q' & It & _).
  destruct R as (Rev & Rset & Rca & Rfl & Rcn & _ & _ & Rgh). split; rewrite ?Rgh, ?Rcn; try lia; try done.
  - unfold held. rewrite Q, Q', !bind_app. cbn. rewrite It, app_nil_r. solve_Permutation.
  - unfold engine. rewrite Rev, Rca, Rgh. constructor.
Qed.

Lemma add_sizes b b' rs ss sp a id now : add id sp rs ss now b = (a, b') -> buf_inv b -> handles (rs_key rs) (ss_key ss) b -> sp_trace sp = id ->
  is_Some (obj a b') /\ trace b' = <[id := a]> (trace b) /\ (id = 0 -> keyed (queue b') = keyed (queue b)) /\
  (forall x y, (x, y) ∈ queue b' -> x <> a -> (x, y) ∈ queue b).
Proof.
  intros A Inv Hh Hid. destruct (add_spec _ _ _ _ _ _ _ _ Inv Hh Hid A) as ([I' _] & _ & _ & T & q1 & q2 & old & e & Q & Q' & _ & Ei & Hold).
  split_and!; [|done| |].
  - assert (Hq : (a, e) ∈ queue b') by (rewrite Q'; set_solver). apply (linked_queue b' a e I') in Hq as [Hq _]. by exists e.
  - intros ->. rewrite Q, Q'. unfold keyed. rewrite !filter_app. f_equal. f_equal. rewrite filter_cons_False by (cbn; lia).
    destruct Hold as [(y & -> & Ey & _)|(-> & _)]; [|done]. by rewrite filter_cons_False by (cbn; lia).
  - intros x y Hx Nx. rewrite Q' in Hx. rewrite Q. rewrite !elem_of_app, list_elem_of_singleton in *. destruct Hx as [?|[[= -> ->]|?]]; tauto.
Qed.

Definition walking (b0 : Buffer) (seen : list item) (K : attrs * bytes) (L : Scope * bytes) (w : walk) : Prop :=
  walk_ok b0 seen w /\ handles K L (w_b w) /\ late_ok K L w.

(** The accounts of a walk, one piece further. *)
Lemma moved_more new b0 seen b b' o o' k d k' d' n k2 d2 :
  moved seen b0 b noOut o k (n + d) -> moved new b b' o o' k' d' -> k2 = k + k' -> d2 = n + d + d' -> moved (seen ++ new) b0 b' noOut o' k2 d2.
Proof. intros M M' -> ->. by eapply moved_trans. Qed.

Lemma moved_late_drop b o x : moved [x] b (put_ghost (discard [x] (ghost b)) b) o o 0 1.
Proof.
  split; cbn; try lia; try done.
  - change (held b ++ (discarded (ghost b) ++ [x]) ++ items (o_td o) ≡ₚ held b ++ discarded (ghost b) ++ items (o_td o) ++ [x]). solve_Permutation.
  - rewrite length_app. cbn. lia.
  - constructor.
Qed.

(** A span of a trace judged keep joins the payload under its own groups. *)
Lemma forward_late_spec sp rs ss w : late_ok (rs_key rs) (ss_key ss) w ->
  let w' := forward_late sp rs ss w in
  late_ok (rs_key rs) (ss_key ss) w' /\ w_b w' = w_b w /\ unkeyed w' = unkeyed w /\
  moved [(rs_key rs, ss_key ss, sp)] (w_b w) (w_b w') (r_out (w_r w)) (r_out (w_r w')) 1 0 /\
  late (w_r w') = late (w_r w) + 1 /\ lateDropped (w_r w') = lateDropped (w_r w) /\ mine (w_r w') = mine (w_r w) /\
  heldKept (w_r w') = heldKept (w_r w) /\ heldDropped (w_r w') = heldDropped (w_r w).
Proof.
  intros [Hr Hs]. unfold forward_late. set (o := r_out (w_r w)) in *.
  assert (P1 : exists i o1, match lateRS w with Some i => (i, o) | None => (length (o_td o), mkOut (append_rs rs (o_td o)) true (o_spans o)) end = (i, o1) /\
    in_res (rs_key rs) (o_td o1) i /\ items (o_td o1) = items (o_td o) /\ o_spans o1 = o_spans o /\ (lateRS w = Some i -> o1 = o) /\ (is_Some (lateRS w) -> lateRS w = Some i)).
  { destruct (lateRS w) as [i|]; eexists _, _; (split; [done|]); [split_and!; auto|]. cbn. split_and!; try done.
    - exists (mkRS (rs_resource rs) (rs_url rs) []). split; [|done]. unfold append_rs. by apply list_lookup_middle.
    - by apply append_rs_at. }
  destruct P1 as (i & o1 & -> & Hi & I1 & S1 & U1 & V1).
  assert (P2 : exists j o2, match lateSS w with Some j => (j, o1) | None => (scopes_at i (o_td o1), mkOut (append_ss i ss (o_td o1)) (o_init o1) (o_spans o1)) end = (j, o2) /\
    in_cur (rs_key rs) (ss_key ss) (o_td o2) i j /\ items (o_td o2) = items (o_td o1) /\ o_spans o2 = o_spans o1).
  { destruct (lateSS w) as [j|].
    - exists j, o1. destruct (Hs j eq_refl) as (i' & Ei & Hc). assert (i' = i) as -> by (rewrite V1 in Ei by done; congruence).
      rewrite (U1 Ei). done.
    - eexists _, _. split; [done|]. destruct (append_ss_in _ _ ss _ Hi) as (Hc & _ & It). done. }
  destruct P2 as (j & o2 & -> & Hc & I2 & S2). cbn [w_b w_r r_out unkeyed].
  destruct (append_span_in _ _ _ _ sp _ Hc) as [Hc' P]. split_and!; try done.
  - split; cbn.
    + intros i' [= <-]. destruct Hc' as (r & s & E & Kr & _). by exists r.
    + intros j' [= <-]. by exists i.
  - split; cbn [w_b w_r r_out o_td o_spans]; try lia; try done.
    + rewrite P, I2, I1. solve_Permutation.
    + apply Permutation_length in P. rewrite P, length_app, I2, I1. cbn [length]. lia.
    + constructor.
Qed.

Lemma late_ok_more K L w w' : late_ok K L w -> lateRS w' = lateRS w -> lateSS w' = lateSS w ->
  (exists more, o_td (r_out (w_r w')) = o_td (r_out (w_r w)) ++ more) -> late_ok K L w'.
Proof.
  intros [Hr Hs] Er Es [more E]. split; rewrite Er, ?Es, E.
  - intros i Hi. by apply in_res_app, Hr.
  - intros j (i & ? & ?)%Hs. exists i. split; [done|]. by apply in_cur_app.
Qed.

Lemma within_same b b' : set_ b' = set_ b -> queue b' = queue b -> within b -> within b'.
Proof. unfold within. by intros -> ->. Qed.

Section TakeSpan.
Variables (now : Z) (rs : ResourceSpans) (ss : ScopeSpans) (b0 : Buffer).
Notation K := (rs_key rs).
Notation L := (ss_key ss).

(** A span without a trace id: its trace is judged when the walk ends. *)
Lemma take_unkeyed seen w sp a b' : walking b0 seen K L w -> sp_trace sp = 0 -> add 0 sp rs ss now (w_b w) = (a, b') ->
  walking b0 (seen ++ [(K, L, sp)]) K L (mkWalk b' (w_r w) (lateRS w) (lateSS w) (Some a)).
Proof.
  intros (W & Hh & Hl) Hid A. destruct W as [Wi (n & Wm & Wd) Wp Wh Wu Ww].
  destruct (add_spec _ _ _ _ _ _ _ _ Wi Hh Hid A) as (Inv' & Hh' & R & T & _).
  pose proof (moved_add _ _ (r_out (w_r w)) _ _ _ _ _ _ A Wi Hh Hid) as M. destruct (add_sizes _ _ _ _ _ _ _ _ A Wi Hh Hid) as (_ & _ & Kq & _).
  destruct R as (_ & Rs & _ & Rf & Rc & _). split_and!; [|done|by apply (late_ok_more _ _ w); [..|exists []; by rewrite app_nil_r]].
  split; cbn [w_b w_r unkeyed]; try done.
  - exists n. split; [eapply moved_more; [exact Wm|exact M|lia|lia]|by rewrite Rc].
  - intros x. by rewrite T, lookup_insert_eq.
  - intros H1 H2 H3. specialize (Ww H1 H2 H3). unfold within in *. by rewrite Rs, Kq.
Qed.

(** A span of a trace not decided yet: it may force decisions. *)
Lemma take_pending seen w sp id a b1 : walking b0 seen K L w -> sp_trace sp = id -> id <> 0 -> add id sp rs ss now (w_b w) = (a, b1) ->
  walking b0 (seen ++ [(K, L, sp)]) K L
    (if flushed b1 then mkWalk b1 (w_r w) (lateRS w) (lateSS w) (unkeyed w)
     else let '(o, b', n) := enforce (r_out (w_r w)) a now b1 in
          mkWalk b' (mkRecv o (late (w_r w)) (lateDropped (w_r w)) (mine (w_r w) + n) (heldKept (w_r w)) (heldDropped (w_r w))) (lateRS w) (lateSS w) (unkeyed w)).
Proof.
  intros (W & Hh & Hl) Hid Ni A. destruct W as [Wi (n & Wm & Wd) Wp Wh Wu Ww].
  destruct (add_spec _ _ _ _ _ _ _ _ Wi Hh Hid A) as (Inv1 & Hh1 & R & T & _).
  pose proof (moved_add _ _ (r_out (w_r w)) _ _ _ _ _ _ A Wi Hh Hid) as M.
  destruct (add_sizes _ _ _ _ _ _ _ _ A Wi Hh Hid) as (Ha & _ & _ & Oth). destruct R as (_ & Rs & _ & Rf & Rc & _).
  assert (Wu1 : forall x, trace b1 !! 0 = Some x -> unkeyed w = Some x) by (intros x; rewrite T, lookup_insert_ne by done; apply Wu).
  assert (M1 : moved (seen ++ [(K, L, sp)]) b0 b1 noOut (r_out (w_r w)) (late (w_r w) + mine (w_r w)) (n + lateDropped (w_r w)))
    by (eapply moved_more; [exact Wm|exact M|lia|lia]).
  assert (Fl : flushed (w_b w) = flushed b0) by apply Wm. assert (Se : set_ (w_b w) = set_ b0) by apply Wm.
  destruct (flushed b1) eqn:F.
  - split_and!; [|done|by apply (late_ok_more _ _ w); [..|exists []; by rewrite app_nil_r]].
    split; cbn [w_b w_r unkeyed]; try done; [exists n; by rewrite Rc|congruence].
  - destruct (enforce (r_out (w_r w)) a now b1) as [[o b'] k] eqn:En.
    destruct (enforce_spec _ _ _ _ _ _ _ Inv1 Ha En) as (d & D & Dr & Hw).
    pose proof (mv_pos _ _ _ _ _ _ _ (de_moved _ _ _ _ _ _ D)) as Zp.
    split_and!; [|by apply D|apply (late_ok_more _ _ w); [done..|apply D]].
    split; cbn [w_b w_r unkeyed late mine lateDropped heldKept heldDropped r_out]; try done.
    + apply D.
    + exists (n + d). split; [|rewrite <- Rc in Wd; by eapply drops_trans].
      rewrite <- (app_nil_r (seen ++ _)). replace (late (w_r w) + (mine (w_r w) + k)) with (late (w_r w) + mine (w_r w) + k) by lia.
      replace (n + d + lateDropped (w_r w)) with (n + lateDropped (w_r w) + d) by lia. eapply moved_trans; [exact M1|apply D].
    + lia.
    + intros x Hx. apply Wu1. eapply decided_trace; [apply Inv1|exact D|exact Hx].
    + intros H1 H2 H3. apply Hw; [congruence|]. intros x y Hq Nx Ny.
      destruct (Ww H1 H2 H3) as (_ & _ & Fa). rewrite Rs, Se. rewrite Se in Fa. rewrite Forall_forall in Fa. apply (Fa (x, y)).
      apply list_elem_of_filter. split; [done|]. by apply Oth.
Qed.

Lemma take_span_ok seen w sp : walking b0 seen K L w -> walking b0 (seen ++ [(K, L, sp)]) K L (take_span now rs ss w sp).
Proof.
  intros Wk. unfold take_span. destruct (sp_trace sp =? 0) eqn:Ez; bool_norm.
  - rewrite Ez. destruct (add 0 sp rs ss now (w_b w)) as [a b'] eqn:A. by apply take_unkeyed.
  - destruct (TailCache.get (sp_trace sp) now (cache (w_b w))) as [[]|].
    + destruct Wk as (W & Hh & Hl). destruct (forward_late_spec sp rs ss w Hl) as (Hl' & Eb & Eu & M & E1 & E2 & E3 & E4 & E5). rewrite Eb in M.
      destruct W as [Wi (n & Wm & Wd) Wp Wh Wu Ww]. split_and!; [|by rewrite Eb|done].
      split; rewrite ?Eb, ?Eu, ?E1, ?E2, ?E3, ?E4, ?E5; try done; [|lia].
      exists n. split; [|done]. eapply moved_more; [exact Wm|exact M|lia|lia].
    + destruct Wk as (W & Hh & Hl). pose proof (moved_late_drop (w_b w) (r_out (w_r w)) (K, L, sp)) as M.
      destruct W as [Wi (n & Wm & Wd) Wp Wh Wu Ww]. split_and!.
      * split; cbn [w_b w_r unkeyed late lateDropped mine heldKept heldDropped r_out]; [|exists n; split; [|exact Wd]|lia|exact Wh|exact Wu|exact Ww].
        -- by apply (buf_inv_core (w_b w)).
        -- eapply moved_more; [exact Wm|exact M|lia|lia].
      * by destruct Hh.
      * by destruct Hl.
    + destruct (add (sp_trace sp) sp rs ss now (w_b w)) as [a b1] eqn:A. by apply (take_pending seen w sp (sp_trace sp)).
Qed.

End TakeSpan.

Lemma buf_inv_handles b r c : buf_inv b -> buf_inv (put_cur c b) /\ buf_inv (put_res r b).
Proof. intros [I [Ct Cs]]. split; (split; [by apply (linked_ext b)|by split]). Qed.

(** Between two scopes only the handles to the resource are in use. *)
Definition between (b0 : Buffer) (seen : list item) (K : attrs * bytes) (w : walk) : Prop :=
  walk_ok b0 seen w /\
  (forall id i, res (w_b w) !! id = Some i -> exists a e, trace (w_b w) !! id = Some a /\ objs (w_b w) !! a = Some e /\ at_res K (bt_td e) i) /\
  (forall i, lateRS w = Some i -> in_res K (o_td (r_out (w_r w))) i).

Lemma walk_ok_handles b0 seen w b' lr ls : walk_ok b0 seen w -> buf_inv b' -> objs b' = objs (w_b w) -> order b' = order (w_b w) ->
  trace b' = trace (w_b w) -> same_rest (w_b w) b' -> walk_ok b0 seen (mkWalk b' (w_r w) lr ls (unkeyed w)).
Proof.
  intros [Wi (n & Wm & Wd) Wp Wh Wu Ww] Inv Eo Er Et (Rev & Rset & Rca & Rfl & Rcn & _ & _ & Rgh).
  assert (Q : queue b' = queue (w_b w)) by (unfold queue; by rewrite Eo, Er).
  split; cbn [w_b w_r unkeyed]; try done.
  - exists n. rewrite Rcn. split; [|done]. rewrite <- (app_nil_r seen). eapply moved_more; [exact Wm|apply moved_same|lia|lia]; try done.
    + unfold held. by rewrite Q.
    + unfold engine. by rewrite Rev, Rca, Rgh.
    + by rewrite Rcn.
  - by rewrite Et.
  - intros. apply (within_same (w_b w)); auto.
Qed.

Lemma walking_between b0 seen K L w : walking b0 seen K L w -> between b0 seen K w.
Proof. intros (W & [Hr _] & [Hl _]). done. Qed.

Lemma between_scope b0 seen K L w : between b0 seen K w ->
  walking b0 seen K L (mkWalk (put_cur ∅ (w_b w)) (w_r w) (lateRS w) None (unkeyed w)).
Proof.
  intros (W & Hr & Hl). split_and!.
  - apply walk_ok_handles; try done. exact (proj1 (buf_inv_handles _ ∅ ∅ (wk_inv _ _ _ W))).
  - split; cbn; [exact Hr|]. intros id j. by rewrite lookup_empty.
  - by split.
Qed.

Lemma walk_resource b0 seen K w : walk_ok b0 seen w -> between b0 seen K (mkWalk (put_res ∅ (w_b w)) (w_r w) None None (unkeyed w)).
Proof.
  intros W. split_and!.
  - apply walk_ok_handles; try done. exact (proj2 (buf_inv_handles _ ∅ ∅ (wk_inv _ _ _ W))).
  - cbn. intros id i. by rewrite lookup_empty.
  - done.
Qed.

Lemma take_spans_ok b0 now rs ss sps seen w : walking b0 seen (rs_key rs) (ss_key ss) w ->
  walking b0 (seen ++ ((fun sp => (rs_key rs, ss_key ss, sp)) <$> sps)) (rs_key rs) (ss_key ss) (foldl (take_span now rs ss) w sps).
Proof.
  revert seen w. induction sps as [|sp sps IH]; intros seen w W; cbn; [by rewrite app_nil_r|].
  rewrite cons_middle, app_assoc. by apply IH, take_span_ok.
Qed.

Lemma take_scopes_ok b0 now rs sss seen w : between b0 seen (rs_key rs) w ->
  between b0 (seen ++ (sss ≫= ss_items (rs_key rs))) (rs_key rs) (foldl (take_scope now rs) w sss).
Proof.
  revert seen w. induction sss as [|ss sss IH]; intros seen w W; cbn; [by rewrite app_nil_r|].
  rewrite app_assoc. apply IH. eapply walking_between, take_spans_ok. by apply between_scope.
Qed.

Lemma take_resources_ok b0 now td seen w : walk_ok b0 seen w -> walk_ok b0 (seen ++ items td) (foldl (take_resource now) w td).
Proof.
  revert seen w. induction td as [|rs td IH]; intros seen w W; cbn; [by rewrite app_nil_r|].
  rewrite app_assoc. apply IH. apply (take_scopes_ok b0 now rs). by apply walk_resource.
Qed.

(** ** The whole hold *)

(** Where a push leaves the buffer and its own answer. *)
Record took (new : list item) (b b' : Buffer) (r : received) : Prop := {
  tk_inv : buf_inv b';
  tk_keyed : trace b' !! 0 = None;
  tk_moved : exists n, moved new b b' noOut (r_out r) (r_kept r) (n + lateDropped r + heldDropped r) /\ drops (cnt b) (cnt b') n;
  tk_pos : 0 <= late r /\ 0 <= mine r /\ 0 <= heldKept r /\ 0 <= lateDropped r /\ 0 <= heldDropped r;
  tk_latch : flushed b = true -> queue b' = [];
  tk_within : set_pos (set_ b) -> flushed b = false -> within b -> within b' }.

Definition holding (new : list item) (b0 b : Buffer) (r : received) : Prop :=
  buf_inv b /\ (exists n, moved new b0 b noOut (r_out r) (r_kept r) (n + lateDropped r + heldDropped r) /\ drops (cnt b0) (cnt b) n) /\
  (0 <= late r /\ 0 <= mine r /\ 0 <= heldKept r /\ 0 <= lateDropped r /\ 0 <= heldDropped r).

Lemma walk_holding b0 seen w : walk_ok b0 seen w -> holding seen b0 (w_b w) (w_r w).
Proof.
  intros [Wi (n & Wm & Wd) Wp [Wh1 Wh2] _ _]. split_and!; try lia; [done|]. exists n. split; [|done].
  unfold r_kept. rewrite Wh1, Wh2, !Z.add_0_r. done.
Qed.

Lemma hold_spec new b0 b r a e now reason b' r' : holding new b0 b r -> objs b !! a = Some e -> bt_gone e = false ->
  hold a now reason b r = (b', r') -> holding new b0 b' r' /\ without a e b b' /\ (exists d k, decided b b' (r_out r) (r_out r') k d).
Proof.
  intros (Inv & (n & M & Dr) & Po) E G. unfold hold.
  destruct (judge (r_out r) a now reason b) as [[[o b1] kept] dropped] eqn:J. intros [= <- <-].
  destruct (judge_decided _ _ _ _ _ _ _ _ _ _ Inv E G J) as (D & W & T & _).
  pose proof (mv_pos _ _ _ _ _ _ _ (de_moved _ _ _ _ _ _ D)) as Zp.
  split; [|split; [done|by exists dropped, kept]]. split_and!; cbn [late mine heldKept lateDropped heldDropped]; try lia; [apply D|].
  exists n. unfold r_kept in *. cbn [r_out late mine heldKept lateDropped heldDropped]. split.
  - rewrite <- (app_nil_r new).
    replace (late r + mine r + (heldKept r + kept)) with (late r + mine r + heldKept r + kept) by lia.
    replace (n + lateDropped r + (heldDropped r + dropped)) with (n + lateDropped r + heldDropped r + dropped) by lia.
    eapply moved_trans; [exact M|apply D].
  - replace n with (n + 0) by lia. eapply drops_trans; [exact Dr|by apply tallies_drops].
Qed.

(** After a flush a push leaves nothing: a turn per trace is turns enough. *)
Lemma hold_all_spec fuel new b0 b r now b' r' : holding new b0 b r -> (size (trace b) < fuel)%nat ->
  hold_all fuel now b r = (b', r') -> holding new b0 b' r' /\ queue b' = [].
Proof.
  revert b r. induction fuel as [|fuel IH]; intros b r Ho Lt; [lia|]. cbn [hold_all].
  pose proof (proj1 Ho) as Inv. pose proof Inv as [I Ct].
  destruct (frontLocked b) as [f b1] eqn:F. destruct (front_spec b f b1 I F) as (I1 & Q1 & (h & ->) & Hf).
  assert (Ho1 : holding new b0 (put_head h b) r).
  { destruct Ho as (_ & (n & M & Dr) & Po). split_and!; try lia; [split; [done|destruct Ct; by split]|]. exists n. split; [|done]. by destruct M. }
  destruct f as [a|].
  - destruct Hf as (e & q & Q & E & G). destruct (hold a now reasonShutdown (put_head h b) r) as [b2 r2] eqn:Hd.
    destruct (hold_spec _ _ _ _ _ _ _ _ _ _ Ho1 E G Hd) as (Ho2 & W & _). apply IH; [done|].
    rewrite (trace_size b2 (wo_linked _ _ _ _ W)). rewrite (trace_size b I), <- Q1 in Lt.
    destruct (wo_queue _ _ _ _ W) as (q1 & q2 & Eq & ->). rewrite Eq in Lt. rewrite !length_app in *. cbn in Lt. lia.
  - intros [= <- <-]. done.
Qed.

Lemma no_trace b id : linked b -> queue b = [] -> trace b !! id = None.
Proof.
  intros I Q. destruct (trace b !! id) as [a|] eqn:T; [|done]. apply (lk_trace b I) in T as (e & E & G & _).
  assert (Hq : (a, e) ∈ queue b) by by apply linked_queue. rewrite Q in Hq. by apply not_elem_of_nil in Hq.
Qed.

Lemma take_spec td now b b' r : buf_inv b -> trace b !! 0 = None -> take td now b = (b', r) -> took (items td) b b' r.
Proof.
  intros Inv T0. unfold take. set (w := foldl _ _ _).
  assert (W : walk_ok b (items td) w).
  { apply (take_resources_ok b now td []). split; cbn; try done; try lia; [|congruence]. exists 0. split; [apply moved_refl|by apply tallies_drops]. }
  clearbody w. pose proof (walk_holding _ _ _ W) as Ho. destruct W as [Wi (n & Wm & Wd) Wp Wh Wu Ww].
  assert (Fl : flushed (w_b w) = flushed b) by apply Wm.
  assert (Done : forall b2 r2, holding (items td) b b2 r2 -> trace b2 !! 0 = None -> (flushed b = true -> queue b2 = []) ->
    (set_pos (set_ b) -> flushed b = false -> within b -> within b2) -> took (items td) b b2 r2).
  { intros b2 r2 (Inv2 & M2 & P2) ? ? ?. by split. }
  destruct (flushed (w_b w)) eqn:F.
  - intros E. destruct (hold_all_spec _ _ _ _ _ _ _ _ Ho (Nat.lt_succ_diag_r _) E) as [Ho' Q'].
    apply Done; [done|apply no_trace; [apply Ho'|done]|done|congruence].
  - destruct (unkeyed w) as [a|] eqn:U; [destruct (is_gone (w_b w) a) eqn:G|].
    + intros [= <- <-]. apply Done; [done| |congruence|done].
      destruct (trace (w_b w) !! 0) as [x|] eqn:T; [|done]. pose proof (Wu x eq_refl) as [= ->].
      apply (lk_trace (w_b w) (proj1 Wi)) in T as (e & E & Ge & _). unfold is_gone, obj in G. rewrite E in G. congruence.
    + intros Hd. unfold is_gone, obj in G. destruct (objs (w_b w) !! a) as [e|] eqn:E; [|done].
      destruct (hold_spec _ _ _ _ _ _ _ _ _ _ Ho E G Hd) as (Ho' & Wo & d & k & D). apply Done; [done| |congruence|].
      * rewrite (wo_trace _ _ _ _ Wo). destruct (decide (bt_id e = 0)) as [->|Ne]; [by rewrite lookup_delete_eq|].
        rewrite lookup_delete_ne by done. destruct (trace (w_b w) !! 0) as [x|] eqn:T; [|done].
        pose proof (Wu x eq_refl) as [= ->]. apply (lk_trace (w_b w) (proj1 Wi)) in T as (e' & E' & _ & ?). congruence.
      * intros H1 H2 H3. destruct (decided_set _ _ _ _ _ _ D) as [Es _]. unfold within. rewrite Es.
        eapply fits_sub; [apply keyed_sub, D|]. by apply Ww.
    + intros [= <- <-]. apply Done; [done| |congruence|done]. destruct (trace (w_b w) !! 0) as [x|] eqn:T; [|done].
      by specialize (Wu x eq_refl).
Qed.

End Push.

(** * The tail-sampling buffer: sweeps and the flush

    A chunk of a sweep decides the front of the queue while it is due; a flush
    decides all of it. *)


Section Drain.
Context `{Decider}.

Definition due (now : Z) (s : settings) (p : nat * bufTrace) : bool := negb (time_sub now (bt_first p.2) <? wait s).

(** The longest due prefix of a queue. *)
Fixpoint due_prefix (now : Z) (s : settings) (all : bool) (q : list (nat * bufTrace)) : nat :=
  match q with [] => 0%nat | p :: q => if due now s p || all then S (due_prefix now s all q) else 0%nat end.

Lemma decided_head h b o : buf_inv b -> linked (put_head h b) -> decided b (put_head h b) o o 0 0.
Proof.
  intros [I Ct] I'. split; try done; [split; [done|destruct Ct; by split]|by apply moved_same| |exists []; by rewrite app_nil_r].
  intros K L Hh. by apply handles_head.
Qed.

Lemma decide_chunk_spec n out now all b out' b' fin : buf_inv b -> decide_chunk n out now all b = (out', b', fin) ->
  let k := due_prefix now (set_ b) all (queue b) in
  queue b' = drop (n `min` k) (queue b) /\ (fin = true <-> (k < n)%nat) /\
  exists kept dropped, decided b b' out out' kept dropped /\ drops (cnt b) (cnt b') dropped.
Proof.
  revert out b. induction n as [|n IH]; intros out b Inv; cbn [decide_chunk].
  - intros [= <- <- <-]. split_and!; [done|split; [done|lia]|]. exists 0, 0. split; [by apply decided_refl|by apply tallies_drops].
  - pose proof Inv as [I Ct]. destruct (frontLocked b) as [f b1] eqn:F.
    destruct (front_spec b f b1 I F) as (I1 & Q1 & (h & ->) & Hf). pose proof (decided_head h b out Inv I1) as D1.
    destruct f as [a|].
    + destruct Hf as (e & q & Q & E & G). unfold obj. cbn [objs put_head set_]. rewrite E, Q. cbn [due_prefix].
      change (negb (time_sub now (bt_first e) <? wait (set_ b))) with (due now (set_ b) (a, e)). set (d := due now (set_ b) (a, e)).
      destruct (d || all) eqn:Da.
      * replace (negb d && negb all) with false by (by destruct d, all). 
        destruct (decide_ out a now _ (put_head h b)) as [[o2 b2] k2] eqn:D.
        destruct (decide_spec _ _ _ _ _ _ _ _ _ (de_inv _ _ _ _ _ _ D1) E G D) as (dr & D2 & W & Dr). intros Hc.
        assert (Q2 : queue b2 = q).
        { destruct (wo_queue _ _ _ _ W) as (q1 & q2 & Qa & ->).
          assert (Qs : [] ++ [(a, e)] ++ q = q1 ++ [(a, e)] ++ q2) by (rewrite <- Qa, Q1; done).
          destruct (split_unique _ _ _ _ _ _ Qs eq_refl) as (<- & _ & <-); [|done].
          change (NoDup ((a, e) :: q).*1). rewrite <- Q. by apply queue_fst. }
        assert (Es : set_ b2 = set_ b) by apply (de_moved _ _ _ _ _ _ D2).
        destruct (IH _ _ (de_inv _ _ _ _ _ _ D2) Hc) as (Q' & Hfin & kp & dp & D3 & Dr3). rewrite Q2, Es in *.
        split_and!; [done|rewrite Hfin; lia|]. exists (k2 + kp), (dr + dp). split; [|by eapply drops_trans].
        eapply decided_trans; [|exact D3]. exact (decided_trans _ _ _ _ _ _ _ _ _ _ D1 D2).
      * replace (negb d && negb all) with true by (by destruct d, all). intros [= <- <- <-]. rewrite Q1, Q.
        split_and!; [done|split; [lia|done]|]. exists 0, 0. split; [done|by apply tallies_drops].
    + intros [= <- <- <-]. rewrite Q1, Hf. cbn. split_and!; [done|split; [lia|done]|]. exists 0, 0. split; [done|by apply tallies_drops].
Qed.

Lemma due_all now s q : due_prefix now s true q = length q.
Proof. induction q as [|p q IH]; cbn; [done|]. by rewrite orb_true_r, IH. Qed.

Lemma flush_chunks_spec fuel out now b out' b' : buf_inv b -> (length (queue b) < fuel)%nat -> flush_chunks fuel out now b = (out', b') ->
  queue b' = [] /\ exists kept dropped, decided b b' out out' kept dropped /\ drops (cnt b) (cnt b') dropped.
Proof.
  revert out b. induction fuel as [|fuel IH]; intros out b Inv Lt; [lia|]. cbn [flush_chunks].
  unfold decideChunkLocked. destruct (decide_chunk decideChunk out now true b) as [[o1 b1] fin] eqn:C.
  destruct (decide_chunk_spec _ _ _ _ _ _ _ _ Inv C) as (Q & Hfin & k & d & D & Dr). rewrite due_all in *.
  destruct fin.
  - intros [= <- <-]. split; [|by exists k, d]. rewrite Q. apply drop_ge. destruct Hfin as [Hf _]. specialize (Hf eq_refl). lia.
  - intros E. assert (Ge : (decideChunk <= length (queue b))%nat) by (destruct (le_lt_dec decideChunk (length (queue b))) as [?|Hl]; [done|by apply Hfin in Hl]).
    assert (Lt1 : (length (queue b1) < fuel)%nat) by (rewrite Q, length_drop; unfold decideChunk in *; lia).
    destruct (IH _ _ (de_inv _ _ _ _ _ _ D) Lt1 E) as (Q' & k2 & d2 & D2 & Dr2).
    split; [done|]. exists (k + k2), (d + d2). split; [by eapply decided_trans|by eapply drops_trans].
Qed.

End Drain.
