(* ===== verification/TailBufferSafe.v ===== *)
(** * The tail-sampling buffer as a concurrent system

    Pushes, sweeps and a flush interleave at their holds of the lock; between two
    holds a payload is in flight.  [step] is one hold, or the end of one send.
    [sys_inv] accounts for every span presented. *)

From S2P Require Import Prelude LogDedupe Clip Number Float Text Pdata TailSample TailInv TailSampleSafe TailCache Payload TailBuffer TailBufferInv TailBufferPush.
Local Open Scope Z_scope.

(** What a caller holds between two holds of the lock: a push's answer, a sweep
    with more to decide, a drain's payload. *)
Inductive flight := FPush (r : received) | FSweep (out : outbound) (now : Z) | FDrain (out : outbound).

Definition f_out (f : flight) : outbound := match f with FPush r => r_out r | FSweep o _ | FDrain o => o end.
Definition f_items (f : flight) : list item := items (o_td (f_out f)).
Definition f_drops (f : flight) : Z := match f with FPush r => lateDropped r + heldDropped r | _ => 0 end.

Definition add_reports (l : list earlyReport) : list Z := foldl (fun acc r => zip_with Z.add acc (er_by r)) (replicate numEarlyReasons 0) l.

(** The accounts, rearranged once for each kind of hold. *)
Lemma acct_in {A} (h d o h0 d0 n fl de re : list A) : h ++ d ++ o ≡ₚ h0 ++ d0 ++ [] ++ n ->
  h ++ d ++ (fl ++ o) ++ de ++ re ≡ₚ (h0 ++ d0 ++ fl ++ de ++ re) ++ n.
Proof. intros P. transitivity ((h ++ d ++ o) ++ fl ++ de ++ re); [solve_Permutation|]. rewrite P. solve_Permutation. Qed.

Lemma acct_move {A} (h d o h0 d0 o0 l1 l2 de re : list A) : h ++ d ++ o ≡ₚ h0 ++ d0 ++ o0 ->
  h ++ d ++ (l1 ++ o ++ l2) ++ de ++ re ≡ₚ h0 ++ d0 ++ (l1 ++ o0 ++ l2) ++ de ++ re.
Proof. intros P. transitivity ((h ++ d ++ o) ++ l1 ++ l2 ++ de ++ re); [solve_Permutation|]. rewrite P. solve_Permutation. Qed.

Lemma report_all n (l1 l2 : list Z) : length l1 = n -> length l2 = n ->
  zip_with Z.sub l1 (replicate n 0) = zip_with Z.add (zip_with Z.sub l1 l2) l2.
Proof.
  intros <-. revert l2. induction l1 as [|x l1 IH]; intros [|y l2]; cbn; try done. intros [= E]. f_equal; [lia|by apply IH].
Qed.

Section System.
Context `{Decider}.

Record sys := mkSys {
  buf : Buffer;
  flights : list flight;
  reports : list earlyReport;
  presented : list item;
  delivered : list item;
  refused : list item;
  nackKept : Z;
  nackDropped : Z }.

Definition start (e : Ev) (names : list bytes) (s : settings) : sys := mkSys (newBuffer e names s) [] [] [] [] [] 0 0.

Definition settled (ok : bool) (f : flight) (b : Buffer) (l : list flight) (s : sys) : sys :=
  mkSys b l (reports s) (presented s) (if ok then delivered s ++ f_items f else delivered s) (if ok then refused s else refused s ++ f_items f)
    (match f with FPush r => if ok then nackKept s else nackKept s + late r + heldKept r | _ => nackKept s end)
    (if ok then nackDropped s else nackDropped s + f_drops f).

Inductive step (every : Z) (s : sys) : sys -> Prop :=
| step_push td now b r : 0 < SpanCount td -> take td now (buf s) = (b, r) ->
    step every s (mkSys b (flights s ++ [FPush r]) (reports s) (presented s ++ items td) (delivered s) (refused s) (nackKept s) (nackDropped s))
| step_settle l1 r l2 env ok b : flights s = l1 ++ [FPush r] ++ l2 -> settlePush env r (buf s) = (ok, b) ->
    step every s (settled ok (FPush r) b (l1 ++ l2) s)
| step_sweep now :
    step every s (mkSys (buf s) (flights s ++ [FSweep noOut now]) (reports s) (presented s) (delivered s) (refused s) (nackKept s) (nackDropped s))
| step_chunk l1 out now l2 off out' b fin rep : flights s = l1 ++ [FSweep out now] ++ l2 -> sweep_hold off every out now (buf s) = (out', b, fin, rep) ->
    step every s (mkSys b (l1 ++ [if fin : bool then FDrain out' else FSweep out' now] ++ l2) (reports s ++ option_list rep)
      (presented s) (delivered s) (refused s) (nackKept s) (nackDropped s))
| step_flush now off out b rep : flush_drain off every now (buf s) = (out, b, rep) ->
    step every s (mkSys b (flights s ++ [FDrain out]) (reports s ++ option_list rep) (presented s) (delivered s) (refused s) (nackKept s) (nackDropped s))
| step_drained l1 out l2 env took ok b : flights s = l1 ++ [FDrain out] ++ l2 -> settleDrain env took out (buf s) = (ok, b) ->
    step every s (settled ok (FDrain out) b (l1 ++ l2) s).

Definition reachable (every : Z) (e : Ev) (names : list bytes) (st : settings) : sys -> Prop := star (step every) (start e names st).

(** ** The invariant *)

Definition out_ok (o : outbound) : Prop := o_spans o = Z.of_nat (length (items (o_td o))).
Definition flight_ok (f : flight) : Prop := out_ok (f_out f) /\
  match f with FPush r => o_spans (r_out r) = r_kept r /\ 0 <= late r /\ 0 <= mine r /\ 0 <= heldKept r /\ 0 <= lateDropped r /\ 0 <= heldDropped r | _ => True end.

Record sys_inv (st : settings) (s : sys) : Prop := {
  si_buf : buf_inv (buf s);
  si_set : set_ (buf s) = st;
  si_keyed : trace (buf s) !! 0 = None;
  si_latch : flushed (buf s) = true -> queue (buf s) = [];
  si_within : set_pos st -> within (buf s);
  si_flights : Forall flight_ok (flights s);
  si_items : held (buf s) ++ discarded (ghost (buf s)) ++ (flights s ≫= f_items) ++ delivered s ++ refused s ≡ₚ presented s;
  si_kept : spansKept (cnt (buf s)) + lateKept (cnt (buf s)) = Z.of_nat (length (delivered s));
  si_lost : spansLost (cnt (buf s)) + nackKept s = Z.of_nat (length (refused s));
  si_drop : spansDrop (cnt (buf s)) + lateDrop (cnt (buf s)) + sumZ (f_drops <$> flights s) + nackDropped s = Z.of_nat (length (discarded (ghost (buf s))));
  si_reports : reported (cnt (buf s)) = (add_reports (reports s), numEarlyReasons, numEarlyReasons) }.

Lemma sys_inv_start e names st : sys_inv st (start e names st).
Proof.
  assert (I : linked (newBuffer e names st)).
  { split; cbn; [apply NoDup_nil_2|by intros a ?%not_elem_of_nil|intros a; rewrite lookup_empty; by intros []|
      intros a x; by rewrite lookup_empty|done|by intros a ?%not_elem_of_nil|].
    intros id a. rewrite lookup_empty. split; [done|]. intros (? & E & _). by rewrite lookup_empty in E. }
  split; try done. intros [P1 P2]. split_and!; [done|done|]. by apply Forall_nil.
Qed.

(** A hold that moved spans from the buffer to a payload. *)
Lemma drops_fields c c' n : drops c c' n ->
  spansDrop c' = spansDrop c + n /\ spansKept c' = spansKept c /\ spansLost c' = spansLost c /\ lateKept c' = lateKept c /\ lateDrop c' = lateDrop c.
Proof. done. Qed.

Lemma step_push_inv st s td now b r : sys_inv st s -> 0 < SpanCount td -> take td now (buf s) = (b, r) ->
  sys_inv st (mkSys b (flights s ++ [FPush r]) (reports s) (presented s ++ items td) (delivered s) (refused s) (nackKept s) (nackDropped s)).
Proof.
  intros [I1 I2 I3 I4 I5 I6 I7 I8 I9 I10 I11] _ T. destruct (take_spec _ _ _ _ _ I1 I3 T) as [K1 K2 (n & M & D) K4 K5 K6].
  destruct M as [M1 M2 M3 M4 M5 M6 M7 M8 M9]. destruct (drops_fields _ _ _ D) as (D1 & D2 & D3 & D4 & D5). cbn in M1, M2, M3.
  split; cbn [buf flights reports presented delivered refused nackKept nackDropped].
  - done.
  - congruence.
  - done.
  - rewrite M9. exact K5.
  - intros Hp. destruct (flushed (buf s)) eqn:F.
    + unfold within. rewrite (K5 eq_refl). destruct Hp. rewrite M8, I2. split_and!; [done|done|]. by apply Forall_nil.
    + apply K6; [by rewrite I2|done|auto].
  - apply Forall_app. split; [done|]. apply Forall_singleton. split; [unfold out_ok; cbn; lia|]. split; [lia|done].
  - rewrite <- I7. replace ((flights s ++ [FPush r]) ≫= f_items) with ((flights s ≫= f_items) ++ items (o_td (r_out r)))
      by (rewrite bind_app; cbn; by rewrite app_nil_r).
    by apply acct_in.
  - lia.
  - lia.
  - rewrite fmap_app, sumZ_app. cbn. lia.
  - by rewrite M7.
Qed.


(** ** Holds that only count *)

(** [b'] is [b] with [n] more of each tally; its queue and verdicts are [b]'s. *)
Record counted_more (b b' : Buffer) (kept drop lost lkept ldrop : Z) : Prop := {
  cm_core : core b' = core b;
  cm_ghost : ghost b' = ghost b;
  cm_engine : engine b' = engine b;
  cm_set : set_ b' = set_ b;
  cm_flushed : flushed b' = flushed b;
  cm_cnt : spansKept (cnt b') = spansKept (cnt b) + kept /\ spansDrop (cnt b') = spansDrop (cnt b) + drop /\
    spansLost (cnt b') = spansLost (cnt b) + lost /\ lateKept (cnt b') = lateKept (cnt b) + lkept /\ lateDrop (cnt b') = lateDrop (cnt b) + ldrop }.

Lemma core_queue b b' : core b' = core b -> queue b' = queue b /\ held b' = held b /\ trace b' = trace b.
Proof. unfold core, held, queue. intros [= -> _ -> -> _ _ _ _]. done. Qed.

Lemma sendOwned_spec env owned b ok b' : sendOwned env owned b = (ok, b') ->
  counted_more b b' 0 0 (if ok then 0 else owned) 0 0 /\ reported (cnt b') = reported (cnt b).
Proof.
  unfold sendOwned. destruct (Retry sendAttempts env); intros [= <- <-]; (split; [split; cbn; try done; lia|done]).
Qed.

Lemma settlePush_spec env r b ok b' : 0 <= mine r -> settlePush env r b = (ok, b') ->
  (if ok : bool then counted_more b b' (mine r + heldKept r) (heldDropped r) 0 (late r) (lateDropped r) else counted_more b b' 0 0 (mine r) 0 0) /\
  reported (cnt b') = reported (cnt b) /\ (ok = false -> 0 < o_spans (r_out r)).
Proof.
  intros Hm. unfold settlePush. destruct (0 <? o_spans (r_out r)) eqn:E1; bool_norm.
  - destruct (0 <? mine r) eqn:E2; bool_norm.
    + destruct (sendOwned env (mine r) b) as [o b1] eqn:S. destruct (sendOwned_spec _ _ _ _ _ S) as (C & Rp). intros [= <- <-].
      destruct o; [|by split]. destruct C as [C1 C2 C3 C4 C5 C6]. split; [|done]. split; cbn; try done; lia.
    + destruct (n_send env 0%nat); intros [= <- <-]; (split; [|done]); (split; cbn; try done; lia).
  - intros [= <- <-]. split; [|done]. split; cbn; try done; lia.
Qed.

Lemma settleDrain_spec env took o b ok b' : settleDrain env took o b = (ok, b') ->
  counted_more b b' (if ok then o_spans o else 0) 0 (if ok then 0 else o_spans o) 0 0 /\ reported (cnt b') = reported (cnt b).
Proof.
  unfold settleDrain. destruct (o_spans o =? 0) eqn:E; bool_norm.
  - intros [= <- <-]. split; [|done]. split; cbn; try done; lia.
  - destruct (sendOwned env (o_spans o) b) as [k b1] eqn:S. destruct (sendOwned_spec _ _ _ _ _ S) as ([C1 C2 C3 C4 C5 C6] & Rp).
    intros [= <- <-]. destruct k; (split; [split; cbn; try done; lia|done]).
Qed.

Lemma takeEarly_spec off every b rep b' : reported (cnt b) = (zip_with Z.sub (earlyCount (cnt b)) (earlyPending (cnt b)), numEarlyReasons, numEarlyReasons) ->
  takeEarlyLocked off every b = (rep, b') -> counted_more b b' 0 0 0 0 0 /\
  reported (cnt b') = (match rep with Some r => zip_with Z.add (reported (cnt b)).1.1 (er_by r) | None => (reported (cnt b)).1.1 end, numEarlyReasons, numEarlyReasons).
Proof.
  unfold reported. cbn [fst]. intros [= L1 L2]. unfold takeEarlyLocked.
  assert (Same : forall x, core x = core b -> ghost x = ghost b -> engine x = engine b -> set_ x = set_ b -> flushed x = flushed b ->
    tallies (cnt x) = tallies (cnt b) -> counted_more b x 0 0 0 0 0).
  { intros x ? ? ? ? ? E. unfold tallies in E. injection E as ? ? ? ? ?. split; try done. lia. }
  destruct (negb (any_early _)).
  - intros [= <- <-]. split; [by apply Same|]. cbn. by rewrite L1, L2.
  - destruct (LogDedupe.Throttle.AllowAt _ _ _) as [th al]. destruct al; cbn [negb]; intros [= <- <-]; (split; [by apply Same|]); cbn [cnt put_earlyWarn put_slowestExport put_cnt earlyCount earlyPending set_pending er_by].
    + rewrite L1. f_equal. f_equal. by apply (report_all numEarlyReasons).
    + by rewrite L1, L2.
Qed.


(** ** The steps *)

(** What a hold that only counts keeps. *)
Record sys_base (st : settings) (b : Buffer) : Prop := {
  sb_buf : buf_inv b;
  sb_set : set_ b = st;
  sb_keyed : trace b !! 0 = None;
  sb_latch : flushed b = true -> queue b = [];
  sb_within : set_pos st -> within b }.

Lemma sys_base_of st s : sys_inv st s -> sys_base st (buf s).
Proof. intros []. by split. Qed.

Lemma counted_base st b b' k d l lk ld : sys_base st b -> counted_more b b' k d l lk ld -> sys_base st b'.
Proof.
  intros [B1 B2 B3 B4 B5] [C1 C2 C3 C4 C5 _]. destruct (core_queue _ _ C1) as (Q & _ & T). split.
  - by apply (buf_inv_core b).
  - congruence.
  - by rewrite T.
  - rewrite C5, Q. done.
  - intros Hp. apply (within_same b); auto.
Qed.

(** One payload settled: delivered or refused. *)
Lemma settled_inv st s l1 f l2 ok b k d l lk ld : sys_inv st s -> flights s = l1 ++ [f] ++ l2 -> counted_more (buf s) b k d l lk ld ->
  reported (cnt b) = reported (cnt (buf s)) ->
  k + lk = (if ok : bool then Z.of_nat (length (f_items f)) else 0) ->
  l + (match f with FPush r => if ok then 0 else late r + heldKept r | _ => 0 end) = (if ok then 0 else Z.of_nat (length (f_items f))) ->
  d + ld = (if ok then f_drops f else 0) -> sys_inv st (settled ok f b (l1 ++ l2) s).
Proof.
  intros I E C R Ek El Ed. pose proof (counted_base _ _ _ _ _ _ _ _ (sys_base_of _ _ I) C) as [B1 B2 B3 B4 B5].
  destruct I as [I1 I2 I3 I4 I5 I6 I7 I8 I9 I10 I11]. destruct C as [C1 C2 C3 C4 C5 (Ck & Cd & Cl & Clk & Cld)].
  destruct (core_queue _ _ C1) as (Q & Hd & T). rewrite E in *.
  split; cbn [settled buf flights reports presented delivered refused nackKept nackDropped]; try done.
  - rewrite !Forall_app in *. tauto.
  - rewrite Hd, C2, <- I7, !bind_app. cbn. rewrite app_nil_r. destruct ok; solve_Permutation.
  - destruct ok; rewrite ?length_app; lia.
  - destruct f, ok; rewrite ?length_app; lia.
  - rewrite C2, <- I10, !fmap_app, !sumZ_app. cbn. destruct ok; lia.
  - by rewrite R.
Qed.

Lemma step_settle_inv st s l1 r l2 env ok b : sys_inv st s -> flights s = l1 ++ [FPush r] ++ l2 -> settlePush env r (buf s) = (ok, b) ->
  sys_inv st (settled ok (FPush r) b (l1 ++ l2) s).
Proof.
  intros I E S. assert (Hf : flight_ok (FPush r)) by (pose proof (si_flights _ _ I) as Hf; rewrite E, !Forall_app, Forall_singleton in Hf; tauto).
  destruct Hf as (Ho & Hk & Hp). unfold out_ok in Ho. cbn in Ho. unfold r_kept in Hk.
  destruct (settlePush_spec env r _ ok b ltac:(lia) S) as (C & R & _). destruct ok; eapply settled_inv; eauto; unfold f_items; cbn; lia.
Qed.

Lemma step_drained_inv st s l1 out l2 env took ok b : sys_inv st s -> flights s = l1 ++ [FDrain out] ++ l2 -> settleDrain env took out (buf s) = (ok, b) ->
  sys_inv st (settled ok (FDrain out) b (l1 ++ l2) s).
Proof.
  intros I E S. assert (Hf : flight_ok (FDrain out)) by (pose proof (si_flights _ _ I) as Hf; rewrite E, !Forall_app, Forall_singleton in Hf; tauto).
  destruct Hf as (Ho & _). unfold out_ok in Ho. cbn in Ho.
  destruct (settleDrain_spec env took out _ ok b S) as (C & R). destruct ok; eapply settled_inv; eauto; unfold f_items; cbn; lia.
Qed.

(** Spans moved from the buffer to a drain's payload [o'], which was [o]. *)
Lemma drained_inv st s b0 b b' o o' k d f' l1 fl l2 rep : sys_inv st s ->
  core b0 = core (buf s) -> ghost b0 = ghost (buf s) -> cnt b0 = cnt (buf s) -> set_ b0 = set_ (buf s) ->
  decided b0 b o o' k d -> drops (cnt b0) (cnt b) d -> counted_more b b' 0 0 0 0 0 ->
  (flushed b' = true -> queue b' = []) -> trace b' !! 0 = None ->
  flights s = l1 ++ fl ++ l2 -> (fl ≫= f_items) = items (o_td o) -> sumZ (f_drops <$> fl) = 0 -> f_out f' = o' -> out_ok o ->
  (match f' with FPush _ => False | _ => True end) ->
  reported (cnt b') = (add_reports (reports s ++ rep), numEarlyReasons, numEarlyReasons) ->
  sys_inv st (mkSys b' (l1 ++ [f'] ++ l2) (reports s ++ rep) (presented s) (delivered s) (refused s) (nackKept s) (nackDropped s)).
Proof.
  intros [I1 I2 I3 I4 I5 I6 I7 I8 I9 I10 I11] Ec Eg En Est D Dr C La Tr E Ef Es Eo Ok Nf Rp. subst o'.
  destruct C as [C1 C2 C3 C4 C5 (Ck & Cd & Cl & Clk & Cld)]. destruct (core_queue _ _ C1) as (Q & Hd & T).
  destruct (core_queue _ _ Ec) as (Q0 & Hd0 & _).
  destruct D as [D1 M D3 D4 D5 D6]. rewrite Q0 in D3. destruct M as [M1 M2 M3 M4 M5 M6 M7 M8 M9]. destruct Dr as (R1 & R2 & R3 & R4 & R5). rewrite En in *. rewrite Eg in *. rewrite Est in *.
  rewrite E in *. rewrite !Forall_app in I6. assert (Wi : set_pos st -> within b').
  { intros Hp. unfold within. rewrite C4, Q, M8. eapply fits_sub; [apply keyed_sub; exact D3|]. by apply I5. }
  split; cbn [buf flights reports presented delivered refused nackKept nackDropped]; try done.
  - by apply (buf_inv_core b).
  - congruence.
  - rewrite !Forall_app, Forall_singleton. split_and!; try tauto. destruct f'; cbn in *; [done| |]; (split; [unfold out_ok in *; cbn; lia|done]).
  - rewrite Hd, C2, <- I7, !bind_app, Ef. cbn. rewrite !app_nil_r. unfold f_items at 2. rewrite app_nil_r, Hd0 in M1. by apply acct_move.
  - lia.
  - lia.
  - rewrite C2, !fmap_app, !sumZ_app in *. cbn. assert (f_drops f' = 0) as -> by (by destruct f'). lia.
Qed.


Lemma decided_empty b b' o o' k d : buf_inv b -> decided b b' o o' k d -> (queue b = [] -> queue b' = []) /\ (trace b !! 0 = None -> trace b' !! 0 = None).
Proof.
  intros [I _] D. split.
  - intros Q. pose proof (de_sub _ _ _ _ _ _ D) as S. rewrite Q in S. by apply sublist_nil_r in S.
  - intros T. destruct (trace b' !! 0) as [a|] eqn:T'; [|done]. by rewrite (decided_trace _ _ _ _ _ _ _ _ I D T') in T.
Qed.

Lemma counted_refl b : counted_more b b 0 0 0 0 0.
Proof. split; try done. lia. Qed.

(** The early report of a drain's last hold. *)
Lemma early_hold off every b rep b' rs rp : reported (cnt b) = (rp, numEarlyReasons, numEarlyReasons) -> rp = add_reports rs ->
  takeEarlyLocked off every b = (rep, b') -> counted_more b b' 0 0 0 0 0 /\
  reported (cnt b') = (add_reports (rs ++ option_list rep), numEarlyReasons, numEarlyReasons).
Proof.
  intros R -> T. assert (R' := R). unfold reported in R'. injection R' as R1 R2 R3.
  assert (R'' : reported (cnt b) = (zip_with Z.sub (earlyCount (cnt b)) (earlyPending (cnt b)), numEarlyReasons, numEarlyReasons))
    by (unfold reported; by rewrite R2, R3).
  destruct (takeEarly_spec _ _ _ _ _ R'' T) as [C E]. split; [done|]. rewrite E, R. cbn [fst].
  destruct rep; cbn [option_list]; [|by rewrite app_nil_r]. unfold add_reports. by rewrite foldl_app.
Qed.

Lemma step_chunk_inv st s l1 out now l2 off every out' b fin rep : sys_inv st s -> flights s = l1 ++ [FSweep out now] ++ l2 ->
  sweep_hold off every out now (buf s) = (out', b, fin, rep) ->
  sys_inv st (mkSys b (l1 ++ [if fin : bool then FDrain out' else FSweep out' now] ++ l2) (reports s ++ option_list rep)
    (presented s) (delivered s) (refused s) (nackKept s) (nackDropped s)).
Proof.
  intros I E Sw. assert (Hf : flight_ok (FSweep out now)) by (pose proof (si_flights _ _ I) as Hf; rewrite E, !Forall_app, Forall_singleton in Hf; tauto).
  unfold sweep_hold, decideChunkLocked in Sw. destruct (decide_chunk decideChunk out now false (buf s)) as [[o1 b1] f1] eqn:C.
  destruct (decide_chunk_spec _ _ _ _ _ _ _ _ (si_buf _ _ I) C) as (_ & _ & k & d & D & Dr).
  destruct (decided_empty _ _ _ _ _ _ (si_buf _ _ I) D) as [Em Ez].
  assert (R1 : reported (cnt b1) = (add_reports (reports s), numEarlyReasons, numEarlyReasons))
    by (rewrite (mv_reported _ _ _ _ _ _ _ (de_moved _ _ _ _ _ _ D)); apply I).
  assert (Fl : flushed b1 = flushed (buf s)) by apply D.
  assert (G : exists rep', rep = rep' /\ o1 = out' /\ f1 = fin /\ counted_more b1 b 0 0 0 0 0 /\
    reported (cnt b) = (add_reports (reports s ++ option_list rep'), numEarlyReasons, numEarlyReasons)).
  { destruct f1.
    - destruct (takeEarlyLocked off every b1) as [rep1 b2] eqn:T. injection Sw as <- <- <- <-.
      exists rep1. split_and!; try done; by eapply early_hold.
    - injection Sw as <- <- <- <-. exists None. split_and!; try done; [apply counted_refl|]. cbn. by rewrite app_nil_r. }
  destruct G as (rep' & -> & -> & -> & Cm & R). pose proof (cm_flushed _ _ _ _ _ _ _ Cm) as Fl'. destruct (core_queue _ _ (cm_core _ _ _ _ _ _ _ Cm)) as (Q & _ & Tr).
  eapply (drained_inv st s (buf s) b1 b out out' k d _ l1 [FSweep out now] l2); eauto.
  - rewrite Fl', Fl, Q. intros F. by apply Em, I.
  - rewrite Tr. by apply Ez, I.
  - cbn. by rewrite app_nil_r.
  - by destruct fin.
  - apply Hf.
  - by destruct fin.
Qed.

Lemma step_flush_inv st s now off every out b rep : sys_inv st s -> flush_drain off every now (buf s) = (out, b, rep) ->
  sys_inv st (mkSys b (flights s ++ [FDrain out]) (reports s ++ option_list rep) (presented s) (delivered s) (refused s) (nackKept s) (nackDropped s)) /\
  flushed b = true.
Proof.
  intros I. unfold flush_drain, flush_hold. set (b0 := put_flushed true (buf s)).
  destruct (flush_chunks _ noOut now b0) as [o1 b1] eqn:C.
  assert (I0 : buf_inv b0) by (apply (buf_inv_core (buf s)); [done|apply I]).
  assert (Lt : (length (queue b0) < S (size (trace (buf s))))%nat) by (rewrite (trace_size (buf s)) by apply I; apply Nat.lt_succ_diag_r).
  destruct (flush_chunks_spec _ _ _ _ _ _ I0 Lt C) as (Q1 & k & d & D & Dr).
  destruct (decided_empty _ _ _ _ _ _ I0 D) as [_ Ez].
  assert (R1 : reported (cnt b1) = (add_reports (reports s), numEarlyReasons, numEarlyReasons))
    by (rewrite (mv_reported _ _ _ _ _ _ _ (de_moved _ _ _ _ _ _ D)); apply I).
  destruct (takeEarlyLocked off every b1) as [rep1 b2] eqn:T. intros [= <- <- <-].
  destruct (early_hold _ _ _ _ _ _ _ R1 eq_refl T) as [Cm R]. destruct (core_queue _ _ (cm_core _ _ _ _ _ _ _ Cm)) as (Q & _ & Tr).
  assert (Fl : flushed b1 = true) by apply D. split; [|by rewrite (cm_flushed _ _ _ _ _ _ _ Cm)].
  rewrite <- (app_nil_r [FDrain o1]).
  eapply (drained_inv st s b0 b1 b2 noOut o1 k d (FDrain o1) (flights s) [] []); eauto.
  - by rewrite Q.
  - rewrite Tr. apply Ez, I.
  - by rewrite !app_nil_r.
  - done.
Qed.

Lemma tail_inv_step every st s s' : sys_inv st s -> step every s s' -> sys_inv st s'.
Proof.
  intros I. destruct 1.
  - by eapply step_push_inv.
  - by eapply step_settle_inv.
  - destruct I as [I1 I2 I3 I4 I5 I6 I7 I8 I9 I10 I11]. split; cbn [buf flights reports presented delivered refused nackKept nackDropped]; try done.
    + apply Forall_app. split; [done|]. by apply Forall_singleton.
    + rewrite bind_app. cbn. by rewrite app_nil_r.
    + rewrite fmap_app, sumZ_app. cbn. lia.
  - by eapply step_chunk_inv.
  - by eapply step_flush_inv.
  - by eapply step_drained_inv.
Qed.

Lemma tail_reachable_inv every e names st s : reachable every e names st s -> sys_inv st s.
Proof. intros R. apply (star_inv _ (sys_inv st) (tail_inv_step every st) _ _ R), sys_inv_start. Qed.

End System.

(** * What the tail-sampling buffer promises ([internal/agent/tailbuffer])

    Of every reachable state of the concurrent system: no span is lost or made
    up, and the counters say where each is; the bounds hold; a flush latches; a
    sweep decides the due front of the queue and nothing else; and a retried
    send reports what happened. *)


(** ** Retries *)

(** Attempt [i] is made, of those from [k] on, and it goes out: every one before
    it failed and may be retried, and no wait was cut short. *)
Definition sent_at (env : net) (k i : nat) : Prop :=
  n_send env i = ASent /\ (forall j, (k <= j < i)%nat -> n_send env j = ATransient) /\ (forall j, (k <= j <= i)%nat -> (0 < j)%nat -> n_wait env j = true).

Lemma retry_loop_spec env n : forall k last, (last = ASent -> k = 0%nat /\ (0 < n)%nat) ->
  retry_loop n k last env = ASent <-> exists i, (k <= i < k + n)%nat /\ sent_at env k i.
Proof.
  induction n as [|n IH]; intros k last Hl; cbn [retry_loop].
  - split; [intros E; apply Hl in E; lia|intros (i & ? & _); lia].
  - destruct (negb (bool_decide (k = 0%nat)) && negb (n_wait env k)) eqn:Cut.
    + apply andb_true_iff in Cut as [Hk%negb_true_iff%bool_decide_eq_false Hw%negb_true_iff]. split.
      * intros E. apply Hl in E. lia.
      * intros (i & Hi & _ & _ & Wt). rewrite (Wt k) in Hw by lia. done.
    + assert (Wk : (0 < k)%nat -> n_wait env k = true).
      { intros Hk. destruct (n_wait env k); [done|]. rewrite bool_decide_eq_false_2 in Cut by lia. done. }
      destruct (n_send env k) eqn:Sk.
      * split; [|done]. intros _. exists k. split; [lia|]. split_and!; [done|lia|]. intros j Hj. by replace j with k by lia.
      * rewrite IH by done. split; intros (i & Hi & Si & Pr & Wt).
        -- exists i. split; [lia|]. split_and!; [done| |].
           ++ intros j Hj. destruct (decide (j = k)) as [->|]; [done|]. apply Pr. lia.
           ++ intros j Hj. destruct (decide (j = k)) as [->|]; [done|]. apply Wt. lia.
        -- assert (i <> k) by (intros ->; congruence). exists i. split; [lia|]. split_and!; [done| |]; intros j Hj; [apply Pr|apply Wt]; lia.
      * split; [done|]. intros (i & Hi & Si & Pr & _). destruct (decide (i = k)) as [->|]; [congruence|].
        rewrite (Pr k) in Sk by lia. done.
Qed.

(** A retried send succeeds exactly when one of its attempts does, every
    attempt before it having failed with an error worth retrying and no wait
    having been cut short; it makes at least one attempt and at most [attempts]. *)
Theorem retry_outcome attempts env :
  Retry attempts env = ASent <-> exists i, Z.of_nat i < Z.max 1 attempts /\ sent_at env 0 i.
Proof.
  unfold Retry. set (n := Z.to_nat _). assert (En : Z.of_nat n = Z.max 1 attempts) by (unfold n; destruct (attempts <? 1) eqn:E; bool_norm; lia).
  rewrite retry_loop_spec by (intros _; lia). split; intros (i & Hi & Si); exists i; (split; [lia|done]).
Qed.

Section Safe.
Context `{Decider}.

(** C3: Every span ever presented, with the resource and scope it arrived under,
    is in exactly one place: buffered, discarded by a verdict, in a payload being
    sent, delivered, or in a payload whose send failed.  The counters agree: kept
    counts the delivered, dropped the discarded, lost what the buffer gave to a
    send that failed; what a NACKed push carried of its own is not counted, since
    the sender has it still. *)
Theorem spans_conserved every e names st s : reachable every e names st s ->
  held (buf s) ++ discarded (ghost (buf s)) ++ (flights s ≫= f_items) ++ delivered s ++ refused s ≡ₚ presented s /\
  (Stats (buf s)).2 = Z.of_nat (length (held (buf s))) /\
  spansKept (cnt (buf s)) + lateKept (cnt (buf s)) = Z.of_nat (length (delivered s)) /\
  spansDrop (cnt (buf s)) + lateDrop (cnt (buf s)) + sumZ (f_drops <$> flights s) + nackDropped s = Z.of_nat (length (discarded (ghost (buf s)))) /\
  spansLost (cnt (buf s)) + nackKept s = Z.of_nat (length (refused s)).
Proof.
  intros R. destruct (tail_reachable_inv _ _ _ _ _ R) as [[_ [_ C]] _ _ _ _ _ I7 I8 I9 I10 _]. done.
Qed.

Lemma keyed_all b : linked b -> trace b !! 0 = None -> keyed (queue b) = queue b.
Proof.
  intros I T. unfold keyed. apply filter_true. apply Forall_forall. intros [a x] Hq Ez. cbn in Ez.
  apply (linked_queue b a x I) in Hq as [E G]. assert (trace b !! 0 = Some a) as T' by (apply (lk_trace b I); by exists x). congruence.
Qed.

(** C22: Between any two holds of the lock the buffer is inside its bounds: at most
    [maxTraces] traces, [maxSpans] spans, and every trace below
    [maxSpansPerTrace]; and none of them is without an id. *)
Theorem buffer_bounded every e names st s : reachable every e names st s -> set_pos st ->
  (Stats (buf s)).1 <= maxTraces st /\ (Stats (buf s)).2 <= maxSpans st /\
  forall id a x, trace (buf s) !! id = Some a -> objs (buf s) !! a = Some x -> id <> 0 /\ 1 <= bt_spans x < maxSpansPerTrace st.
Proof.
  intros R Hp. destruct (tail_reachable_inv _ _ _ _ _ R) as [[I [Ct Cs]] <- T0 _ W _ _ _ _ _ _].
  destruct (W Hp) as (W1 & W2 & W3). rewrite (keyed_all _ I T0) in *. unfold Stats. cbn [fst snd]. rewrite (trace_size _ I), Cs.
  split_and!; [done|done|]. intros id a x T E. pose proof (proj1 (lk_trace _ I id a) T) as (y & Ey & Gy & Ei).
  rewrite E in Ey. injection Ey as <-. assert (Hq : (a, x) ∈ queue (buf s)) by by apply linked_queue.
  rewrite Forall_forall in Ct, W3. destruct (Ct _ Hq) as (_ & ? & _). specialize (W3 _ Hq). cbn in *. split; [congruence|done].
Qed.

Lemma counted_flushed b b' k d l lk ld : counted_more b b' k d l lk ld -> flushed b' = flushed b.
Proof. by intros []. Qed.

Lemma step_flushed every st s s' : sys_inv st s -> step every s s' -> flushed (buf s) = true -> flushed (buf s') = true.
Proof.
  intros I St F. destruct St as [td now b r _ T|l1 r l2 env ok b E S|now|l1 out now l2 off out' b fin rep E S|now off out b rep S|l1 out l2 env took ok b E S]; cbn [buf settled].
  - destruct (take_spec _ _ _ _ _ (si_buf _ _ I) (si_keyed _ _ I) T) as [_ _ (n & M & _) _ _ _]. rewrite (mv_flushed _ _ _ _ _ _ _ M). done.
  - assert (Hm : 0 <= mine r).
    { pose proof (si_flights _ _ I) as Hf. rewrite E, !Forall_app, Forall_singleton in Hf. destruct Hf as (_ & (_ & _ & _ & ? & _) & _). done. }
    destruct (settlePush_spec _ _ _ _ _ Hm S) as [C _]. destruct ok; by rewrite (counted_flushed _ _ _ _ _ _ _ C).
  - done.
  - unfold sweep_hold, decideChunkLocked in S. destruct (decide_chunk _ _ _ _ _) as [[o1 b1] f1] eqn:C.
    destruct (decide_chunk_spec _ _ _ _ _ _ _ _ (si_buf _ _ I) C) as (_ & _ & k & d & D & _). destruct (decided_set _ _ _ _ _ _ D) as [_ Fl].
    rewrite <- F, <- Fl. destruct f1; [|by injection S as _ <- _ _]. destruct (takeEarlyLocked _ _ b1) as [rp b2] eqn:T. injection S as _ <- _ _.
    unfold takeEarlyLocked in T. destruct (negb _); [by injection T as _ <-|]. destruct (LogDedupe.Throttle.AllowAt _ _ _) as [th []]; by injection T as _ <-.
  - by eapply step_flush_inv.
  - destruct (settleDrain_spec _ _ _ _ _ _ S) as [C _]. by rewrite (counted_flushed _ _ _ _ _ _ _ C).
Qed.

(** C25: A flush empties the buffer in one hold, and nothing is buffered after it:
    whatever interleaves, every span a later push presents has left the buffer by
    the end of that push's hold. *)
Theorem flush_latches every e names st s : reachable every e names st s ->
  (forall off now out b rep, flush_drain off every now (buf s) = (out, b, rep) -> flushed b = true /\ Stats b = (0, 0)) /\
  (flushed (buf s) = true -> forall s', star (step every) s s' -> flushed (buf s') = true /\ Stats (buf s') = (0, 0)).
Proof.
  intros R. pose proof (tail_reachable_inv _ _ _ _ _ R) as I.
  assert (Empty : forall x, sys_inv st x -> flushed (buf x) = true -> Stats (buf x) = (0, 0)).
  { intros x [[Ix [_ Cx]] _ _ La _ _ _ _ _ _ _] F. unfold Stats. unfold held in Cx. rewrite (trace_size _ Ix), Cx, (La F). done. }
  split.
  - intros off now out b rep Fd. destruct (step_flush_inv _ _ _ _ _ _ _ _ I Fd) as [I' F]. split; [done|]. by apply (Empty _ I').
  - intros F s' St. assert (I' : sys_inv st s' /\ flushed (buf s') = true).
    { apply (star_inv _ (fun x => sys_inv st x /\ flushed (buf x) = true)) with (a := s) (2 := St); [|done].
      intros x y [Ix Fx] Sxy. split; [by eapply tail_inv_step|by eapply step_flushed]. }
    destruct I' as [I' F']. split; [done|]. by apply Empty.
Qed.

(** One hold of a sweep decides, oldest first, the traces at the front of the
    queue whose window has closed, 128 at most, and no other; the sweep is over
    exactly when the front is not due. *)
Theorem sweep_decides_due every e names st s off out now out' b fin rep : reachable every e names st s ->
  sweep_hold off every out now (buf s) = (out', b, fin, rep) ->
  let k := due_prefix now st false (queue (buf s)) in
  queue b = drop (128 `min` k) (queue (buf s)) /\ (fin = true <-> (k < 128)%nat).
Proof.
  intros R Sw. destruct (tail_reachable_inv _ _ _ _ _ R) as [I <- _ _ _ _ _ _ _ _ Rp]. unfold sweep_hold, decideChunkLocked in Sw.
  destruct (decide_chunk _ _ _ _ _) as [[o1 b1] f1] eqn:C. destruct (decide_chunk_spec _ _ _ _ _ _ _ _ I C) as (Q & Hf & k & d & D & _).
  assert (G : queue b = queue b1 /\ fin = f1); [|destruct G as [-> ->]; done].
  destruct f1; [|by injection Sw as _ <- <- _]. destruct (takeEarlyLocked _ _ b1) as [rp b2] eqn:T. injection Sw as _ <- <- _.
  split; [|done]. rewrite <- (mv_reported _ _ _ _ _ _ _ (de_moved _ _ _ _ _ _ D)) in Rp.
  destruct (early_hold _ _ _ _ _ _ _ Rp eq_refl T) as [Cm _]. by apply core_queue, Cm.
Qed.

(** Every early decision is in one report, or pending for the next. *)
Theorem early_reported_once every e names st s : reachable every e names st s ->
  zip_with Z.sub (earlyCount (cnt (buf s))) (earlyPending (cnt (buf s))) = add_reports (reports s).
Proof. intros R. pose proof (si_reports _ _ (tail_reachable_inv _ _ _ _ _ R)) as E. unfold reported in E. by injection E as ->. Qed.

End Safe.
