(* ===== verification/TailBilling.v ===== *)
(** * A trace pays each budget once

    A trace can be judged more than once: its verdict may be forgotten to the
    TTL, or it may be judged early, while its mask is still in the cache.  What
    the policy engine promises the buffer is [SpendsOnce]; the evaluator of
    [tailsample] keeps that promise, and the cache carries the mask. *)

From S2P Require Import Prelude Clip Number Float Text Pdata LogDedupe TailSample TailCompile TailInv TailSampleSafe.
From S2P Require Import Payload TailCache TailBuffer TailBufferInv TailBufferPush TailBufferSafe.
Local Open Scope Z_scope.

(** The promise: a verdict's mask avoids the mask it was given. *)
Class SpendsOnce `{Decider} (ok : Ev -> Prop) := {
  so_keep id td m e : ok e -> ok (Verdict (mkTrace id (view td) m) e).2;
  so_once id td m e : ok e -> Z.land (d_charged (Verdict (mkTrace id (view td) m) e).1) m = 0 }.

(** ** Masks *)

Definition lor_all (ms : list Z) : Z := foldr Z.lor 0 ms.

Fixpoint disjoint_masks (ms : list Z) : Prop :=
  match ms with [] => True | m :: ms => Z.land m (lor_all ms) = 0 /\ disjoint_masks ms end.

Lemma land_lor a b c : Z.land a (Z.lor b c) = 0 <-> Z.land a b = 0 /\ Z.land a c = 0.
Proof. rewrite Z.land_lor_distr_r, Z.lor_eq_0_iff. done. Qed.

Lemma land_lor_all m ms x : Z.land m (lor_all ms) = 0 -> x ∈ ms -> Z.land m x = 0.
Proof.
  induction ms as [|y ms IH]; cbn; [by intros _ ?%not_elem_of_nil|]. fold (lor_all ms). rewrite land_lor.
  intros [? ?] [->|?]%elem_of_cons; auto.
Qed.

Lemma disjoint_lookup ms i j m m' : disjoint_masks ms -> ms !! i = Some m -> ms !! j = Some m' -> i <> j -> Z.land m m' = 0.
Proof.
  revert i j. induction ms as [|y ms IH]; intros i j; [by rewrite lookup_nil|]. intros [D1 D2] Ei Ej Ne.
  destruct i as [|i], j as [|j]; cbn in Ei, Ej; [done| | |].
  - injection Ei as <-. eapply land_lor_all; [done|by eapply list_elem_of_lookup_2].
  - injection Ej as <-. rewrite Z.land_comm. eapply land_lor_all; [done|by eapply list_elem_of_lookup_2].
  - eapply IH; eauto.
Qed.

Section Billing.
Context `{Decider} (ok : Ev -> Prop) {Once : SpendsOnce ok}.

(** The cache remembers the sum of what was billed. *)
Definition bill_ok (x : Ev * decisionCache * gmap Z (list Z)) : Prop :=
  let '(e, c, g) := x in ok e /\ (exists l, cache_inv c l) /\ (forall id ms, g !! id = Some ms -> disjoint_masks ms) /\
  forall id d, c_m c !! id = Some d -> exists ms, g !! id = Some ms /\ dc_charged d = lor_all ms.

Lemma put_lookup id keep m now c l id' d : cache_inv c l -> c_m (TailCache.put id keep m now c) !! id' = Some d ->
  if decide (id' = id) then dc_charged d = (match c_m c !! id with Some old => Z.lor m (dc_charged old) | None => m end)
  else c_m c !! id' = Some d.
Proof.
  intros I E. pose proof (put_inv id keep m now c l I) as I'. rewrite (cr_map _ _ (ci_rel _ _ I')) in E.
  pose proof (cr_ids _ _ (ci_rel _ _ I)) as N. rewrite (cr_map _ _ (ci_rel _ _ I)). case_decide as D.
  - subst id'. rewrite spec_put_self in E by done. by injection E as <-.
  - match type of E with spec_map (spec_put ?mx _ ?k ?mk ?a ?s _) !! _ = _ =>
      destruct (spec_put_other mx id id' k mk a s l N ltac:(done)) as [Eo|Eo]; rewrite Eo in E; [done|done] end.
Qed.

Lemma bill_step x x' : bill_ok x -> verdict_step x x' -> bill_ok x'.
Proof.
  destruct x as [[e c] g]. intros (Ok & [l I] & Dj & Ch) (id & td & now & St). cbn [snd] in St.
  set (m := if negb (id =? 0) then charged id c else 0) in *.
  pose proof (so_keep id td m e Ok) as Ok'. pose proof (so_once id td m e Ok) as On.
  destruct (Verdict (mkTrace id (view td) m) e) as [d e'] eqn:V. cbn [fst snd] in Ok', On. subst x'.
  destruct (negb (id =? 0)) eqn:K; [|split_and!; eauto]. unfold m, charged in *. cbn [billed bill].
  set (old := if bool_decide _ then _ else _).
  assert (Ho : disjoint_masks old /\ lor_all old = match c_m c !! id with Some x => dc_charged x | None => 0 end).
  { unfold old. destruct (c_m c !! id) as [x|] eqn:Ec; [|rewrite bool_decide_eq_false_2 by (by intros []); done].
    rewrite bool_decide_eq_true_2 by done. destruct (Ch _ _ Ec) as (ms & Em & ->). rewrite Em. cbn. split; [by eapply Dj|done]. }
  destruct Ho as [Ho1 Ho2]. split_and!; [done|by eexists; apply put_inv| |].
  - intros id' ms. destruct (decide (id' = id)) as [->|Ne].
    + rewrite lookup_insert_eq. intros [= <-]. split; [|done]. by rewrite Ho2.
    + rewrite lookup_insert_ne by done. apply Dj.
  - intros id' d' E. pose proof (put_lookup _ _ _ _ _ _ _ _ I E) as P. case_decide as D.
    + subst id'. rewrite lookup_insert_eq. eexists. split; [done|]. rewrite P. cbn. fold (lor_all old). rewrite Ho2.
      destruct (c_m c !! id); [done|]. by rewrite Z.lor_0_r.
    + rewrite lookup_insert_ne by done. by eapply Ch.
Qed.

(** A step of the system is verdicts, as the engine sees it. *)
Lemma step_engine every st s s' : sys_inv st s -> step every s s' -> star verdict_step (engine (buf s)) (engine (buf s')).
Proof.
  intros I St. destruct St as [td now b r _ T|l1 r l2 env o b E Sp|now|l1 out now l2 off out' b fin rep E Sp|now off out b rep Sp|l1 out l2 env took o b E Sp]; cbn [buf settled].
  - destruct (take_spec _ _ _ _ _ (si_buf _ _ I) (si_keyed _ _ I) T) as [_ _ (n & M & _) _ _ _]. apply M.
  - assert (Hm : 0 <= mine r).
    { pose proof (si_flights _ _ I) as Hf. rewrite E, !Forall_app, Forall_singleton in Hf. destruct Hf as (_ & (_ & _ & _ & ? & _) & _). done. }
    destruct (settlePush_spec _ _ _ _ _ Hm Sp) as [C _]. destruct o; rewrite (cm_engine _ _ _ _ _ _ _ C); constructor.
  - constructor.
  - unfold sweep_hold, decideChunkLocked in Sp. destruct (decide_chunk _ _ _ _ _) as [[o1 b1] f1] eqn:C.
    destruct (decide_chunk_spec _ _ _ _ _ _ _ _ (si_buf _ _ I) C) as (_ & _ & k & d & D & _).
    assert (Eb : engine b = engine b1); [|rewrite Eb; apply D].
    destruct f1; [|by injection Sp as _ <- _ _]. destruct (takeEarlyLocked _ _ b1) as [rp b2] eqn:T. injection Sp as _ <- _ _.
    unfold takeEarlyLocked in T. destruct (negb _); [by injection T as _ <-|]. destruct (LogDedupe.Throttle.AllowAt _ _ _) as [th []]; by injection T as _ <-.
  - unfold flush_drain, flush_hold in Sp. set (b0 := put_flushed true (buf s)) in *.
    destruct (flush_chunks _ noOut now b0) as [o1 b1] eqn:C.
    assert (I0 : buf_inv b0) by (apply (buf_inv_core (buf s)); [done|apply I]).
    assert (Lt : (length (queue b0) < S (size (trace (buf s))))%nat) by (rewrite (trace_size (buf s)) by apply I; apply Nat.lt_succ_diag_r).
    destruct (flush_chunks_spec _ _ _ _ _ _ I0 Lt C) as (_ & k & d & D & _).
    assert (Eb : engine b = engine b1); [|rewrite Eb; change (engine (buf s)) with (engine b0); apply D].
    destruct (takeEarlyLocked _ _ b1) as [rp b2] eqn:T. injection Sp as _ <- _.
    unfold takeEarlyLocked in T. destruct (negb _); [by injection T as _ <-|]. destruct (LogDedupe.Throttle.AllowAt _ _ _) as [th []]; by injection T as _ <-.
  - destruct (settleDrain_spec _ _ _ _ _ _ Sp) as [C _]. rewrite (cm_engine _ _ _ _ _ _ _ C). constructor.
Qed.

Lemma reachable_bills every e names st s : ok e -> 1 <= cacheSize st -> reachable every e names st s -> sys_inv st s /\ bill_ok (engine (buf s)).
Proof.
  intros Ok Hc R. apply (star_inv _ (fun s => sys_inv st s /\ bill_ok (engine (buf s)))) with (2 := R).
  - intros x y [Ix Bx] Sx. split; [by eapply tail_inv_step|]. eapply star_inv; [|exact (step_engine _ _ _ _ Ix Sx)|done]. apply bill_step.
  - split; [apply sys_inv_start|]. split_and!; [done| | |].
    + exists []. by apply cache_new.
    + intros id ms. cbn. by rewrite lookup_empty.
    + intros id d. cbn. by rewrite lookup_empty.
Qed.

Lemma paid_masks_disjoint every e names st s : ok e -> 1 <= cacheSize st -> reachable every e names st s ->
  (forall id ms i j m m', billed (ghost (buf s)) !! id = Some ms -> ms !! i = Some m -> ms !! j = Some m' -> i <> j -> Z.land m m' = 0) /\
  (forall id, is_Some (c_m (cache (buf s)) !! id) -> exists ms, billed (ghost (buf s)) !! id = Some ms /\ charged id (cache (buf s)) = lor_all ms).
Proof.
  intros Ok Hc R. destruct (reachable_bills _ _ _ _ _ Ok Hc R) as [_ (_ & _ & Dj & Ch)]. split.
  - intros id ms i j m m' E Ei Ej Ne. eapply disjoint_lookup; eauto.
  - intros id [d E]. destruct (Ch _ _ E) as (ms & Em & Ed). exists ms. split; [done|]. unfold charged. by rewrite E.
Qed.

End Billing.

(** ** The evaluator keeps the promise *)

Lemma view_in td sp h m : sp ∈ view td -> t_res sp = Some (h, m) -> exists rs, td !! h = Some rs /\ m = rs_resource rs.
Proof.
  unfold view. intros Hs E. apply list_elem_of_In, in_concat in Hs as (l & Hl%list_elem_of_In & Hs%list_elem_of_In).
  apply list_elem_of_lookup in Hl as [i Hi].
  rewrite list_lookup_imap in Hi. apply fmap_Some in Hi as (rs & Er & ->).
  apply list_elem_of_fmap in Hs as (x & -> & _). cbn in E. injection E as <- <-. by exists rs.
Qed.

Lemma view_coherent id td m : coherent (mkTrace id (view td) m).
Proof.
  intros s1 s2 h m1 m2 H1 H2 E1 E2. cbn in H1, H2. destruct (view_in _ _ _ _ H1 E1) as (r1 & L1 & ->), (view_in _ _ _ _ H2 E2) as (r2 & L2 & ->).
  rewrite L1 in L2. by injection L2 as ->.
Qed.

Section Evaluator.
Context `{GoText} (Get : attrs -> bytes -> option Value) (Sum64Uint128 : Z -> Z -> Z).

Definition evaluator_decider : Decider := {| Ev := Evaluator; Verdict t e := Decide Get Sum64Uint128 t e |}.
#[local] Existing Instance evaluator_decider.

Lemma paid_once t e : ev_ok e -> Z.land (d_charged (Decide Get Sum64Uint128 t e).1) (t_charged t) = 0.
Proof.
  intros [O1 O2 _ _ _ _ _ _]. rewrite Decide_eq. cbn [fst].
  destruct (decide_from_spends Get Sum64Uint128 t (reading e) (policies e) O1 (ev_world e) [] [] (ev_world e)) as (sp & Em & [_ Hsub Hone]);
    [set_solver|apply moves_refl|]. cbn [mask foldr app] in *. rewrite Em.
  apply Z.bits_inj'. intros k Hk. rewrite Z.land_spec, Z.bits_0. destruct (Z.testbit (mask sp) k) eqn:Ek; [|done]. cbn.
  apply (mask_testbit sp k Hk) in Ek as (i & Hi & <-).
  destruct (lookup_lt_is_Some_2 (buckets (ev_world e)) i) as [b Hb]; [by apply O2, Hsub|].
  destruct (Hone i b Hb) as (b' & _ & Hm & _). rewrite bool_decide_eq_true_2 in Hm by done. inversion Hm as [Hp| |]. done.
Qed.

#[export] Instance evaluator_spends_once : SpendsOnce (ev_ok (H := H)).
Proof.
  split; cbn [Verdict evaluator_decider Ev].
  - intros id td m e Ok. by apply Decide_ok, view_coherent.
  - intros id td m e Ok. apply (paid_once (mkTrace id (view td) m) e Ok).
Qed.

(** C7: However often a trace is judged, in any interleaving of pushes, sweeps and
    a flush over policies [New] compiled, no budget is billed for it twice: the
    masks of its verdicts since the cache last forgot it are pairwise disjoint,
    and the cache holds all of them. *)
Theorem no_double_billing cfg clk every e names st s : New cfg clk = inr e -> 1 <= cacheSize st -> reachable every e names st s ->
  (forall id ms i j m m', billed (ghost (buf s)) !! id = Some ms -> ms !! i = Some m -> ms !! j = Some m' -> i <> j -> Z.land m m' = 0) /\
  (forall id, is_Some (c_m (cache (buf s)) !! id) -> exists ms, billed (ghost (buf s)) !! id = Some ms /\ charged id (cache (buf s)) = lor_all ms).
Proof. intros N. apply (@paid_masks_disjoint evaluator_decider ev_ok evaluator_spends_once). by eapply New_ok. Qed.

End Evaluator.
