(* ===== verification/TailConfig.v ===== *)
(** * The tail buffer's configuration and memory budget ([internal/agent/tailbuffer]: [config.go], [memory.go], [New])

    The section's defaults and bounds, its dry run, and the sizing of the span
    ceiling against the memory limit, which the file system supplies.  Of the
    budget's log lines only which one is written is kept. *)

From S2P Require Import Prelude Clip Number Float Text Pdata TraceHash TailSample TailCompile TailInv TailSampleSafe.
From S2P Require Import TailCache TailBuffer.
Local Open Scope Z_scope.

Module Tail.

(** ** The section *)

Record Config `{GoText} := mkConfig {
  Base : TailSample.Config; DecisionWait : bytes; MaxTraces : Z; MaxSpansPerTrace : Z; MaxSpans : Z;
  DecisionCacheSize : Z; DecisionCacheTTL : bytes }.

Arguments mkConfig {_}.

Definition defaultDecisionWait : Z := 5000000000.
Definition defaultMaxTraces : Z := 100000.
Definition defaultMaxSpansPerTrace : Z := 1000.
Definition defaultMaxSpans : Z := 200000.
Definition defaultCacheSize : Z := 100000.
Definition defaultCacheTTL : Z := 60000000000.

Inductive field := FWait | FTTL | FTraces | FSpansPerTrace | FSpans | FCache.
Inductive config_error :=
| Disabled | NoPoliciesButBounds | BadDuration (f : field) (e : duration_error) | NegativeBound (f : field) (v : Z)
| TraceAboveCeiling (per_trace spans : Z) | PolicyListError (e : TailCompile.error) | OverLimit (binding : field) (spans est limit : Z).

Section Config.
Context `{GoText}.

Definition Enabled (c : option Config) : bool := match c with Some c => TailSample.Enabled (Some (Base c)) | None => false end.

Definition duration (f : field) (value : bytes) (def : Z) : config_error + Z :=
  match Duration value def [Positive] with inl e => inl (BadDuration f e) | inr d => inr d end.

(** One turn of the loop over the integer bounds. *)
Definition bound (f : field) (v def : Z) : config_error + Z :=
  if v <? 0 then inl (NegativeBound f v) else inr (if 0 <? v then v else def).

Definition resolve (c : Config) : config_error + settings :=
  wait ← duration FWait (DecisionWait c) defaultDecisionWait;
  ttl ← duration FTTL (DecisionCacheTTL c) defaultCacheTTL;
  traces ← bound FTraces (MaxTraces c) defaultMaxTraces;
  per_trace ← bound FSpansPerTrace (MaxSpansPerTrace c) defaultMaxSpansPerTrace;
  spans ← bound FSpans (MaxSpans c) defaultMaxSpans;
  cache ← bound FCache (DecisionCacheSize c) defaultCacheSize;
  refuse (spans <? per_trace) (TraceAboveCeiling per_trace spans);;
  mret (mkSettings wait traces per_trace spans cache ttl).

Definition lift {A} (r : TailCompile.error + A) : config_error + A := match r with inl e => inl (PolicyListError e) | inr a => inr a end.

Definition Validate (c : option Config) : config_error + unit :=
  match c with
  | None => mret tt
  | Some cfg =>
      if negb (Enabled c) then
        refuse (bool_decide (DecisionWait cfg <> []) || negb (MaxTraces cfg =? 0) || negb (MaxSpans cfg =? 0) ||
                negb (MaxSpansPerTrace cfg =? 0) || negb (DecisionCacheSize cfg =? 0) || bool_decide (DecisionCacheTTL cfg <> []))
          NoPoliciesButBounds
      else lift (TailCompile.Validate (Some (Base cfg)));; _ ← resolve cfg; mret tt
  end.

(** ** The memory budget *)

Definition spanCostBytes : Z := 1024.
Definition bufferBudgetShare : float64 := float_div (of_int 1) (of_int 4).

Definition int64 (z : Z) : Z := int_of_u64 (u64 z).

Inductive budget_note := UnknownLimit | LoweredToFit | LoweredToFloor | AboveBudget | Sized.

Definition affordable_spans (limit : Z) : Z := Z.quot (to_int (float_mul (of_int limit) bufferBudgetShare)) spanCostBytes.

Definition with_maxSpans (n : Z) (s : settings) : settings :=
  mkSettings (wait s) (maxTraces s) (maxSpansPerTrace s) n (cacheSize s) (cacheTTL s).

Definition applyMemoryBudget (s : settings) (explicit : bool) (limit : Z) : list budget_note * (config_error + settings) :=
  let est := int64 (maxSpans s * spanCostBytes) in
  if limit <=? 0 then ([UnknownLimit], inr s)
  else
    let affordable := affordable_spans limit in
    let '(notes, binding, s, est) :=
      if negb explicit && (affordable <? maxSpans s) then
        if affordable <? maxSpansPerTrace s
        then ([LoweredToFloor], FSpansPerTrace, with_maxSpans (maxSpansPerTrace s) s, int64 (maxSpansPerTrace s * spanCostBytes))
        else ([LoweredToFit], FSpans, with_maxSpans affordable s, int64 (affordable * spanCostBytes))
      else ([], FSpans, s, est) in
    if limit <=? est then (notes, inl (OverLimit binding (maxSpans s) est limit))
    else if affordable <? maxSpans s then (notes ++ [AboveBudget], inr s)
    else (notes ++ [Sized], inr s).

(** ** New *)

Definition New (Get : attrs -> bytes -> option Value) (hash : Z -> Z -> Z) (cfg : Config) (clk : nat -> Z) (limit : Z) :
    config_error + @Buffer {| Ev := Evaluator; Verdict t e := Decide Get hash t e |} :=
  if negb (Enabled (Some cfg)) then inl Disabled
  else
    set ← resolve cfg;
    ev ← lift (TailCompile.New (Base cfg) clk);
    set ← (applyMemoryBudget set (0 <? MaxSpans cfg) limit).2;
    mret (@newBuffer {| Ev := Evaluator; Verdict t e := Decide Get hash t e |} ev (Names ev) set).

(** ** What it promises *)

(** Settings a buffer can work with. *)
Definition usable (s : settings) : Prop :=
  0 < wait s /\ 0 < cacheTTL s /\ 1 <= maxTraces s /\ 1 <= maxSpansPerTrace s <= maxSpans s /\ 1 <= cacheSize s.

Lemma duration_pos f v def d : duration f v def = inr d -> 0 < d.
Proof.
  unfold duration. destruct (Duration v def [Positive]) as [|x] eqn:E; [done|]. intros [= <-].
  apply Duration_nonneg in E as [_ P]. by apply P.
Qed.

Lemma bound_pos f v def d : 1 <= def -> bound f v def = inr d -> 1 <= d /\ (v <> 0 -> d = v).
Proof. unfold bound. intros Hd. destruct (v <? 0) eqn:E1; [done|]. destruct (0 <? v) eqn:E2; intros [= <-]; bool_norm; lia. Qed.

Lemma resolve_usable c s : resolve c = inr s -> usable s /\
  (MaxTraces c <> 0 -> maxTraces s = MaxTraces c) /\ (MaxSpans c <> 0 -> maxSpans s = MaxSpans c) /\
  (MaxSpansPerTrace c <> 0 -> maxSpansPerTrace s = MaxSpansPerTrace c) /\ (DecisionCacheSize c <> 0 -> cacheSize s = DecisionCacheSize c).
Proof.
  unfold resolve. intros E.
  apply bind_ok in E as (w & Ew%duration_pos & E). apply bind_ok in E as (t & Et%duration_pos & E).
  apply bind_ok in E as (x1 & E1 & E). apply bind_ok in E as (x2 & E2 & E). apply bind_ok in E as (x3 & E3 & E). apply bind_ok in E as (x4 & E4 & E).
  apply bind_ok in E as (u & Eu%refuse_ok & [= <-]).
  apply bound_pos in E1 as [? ?]; [|done]. apply bound_pos in E2 as [? ?]; [|done].
  apply bound_pos in E3 as [? ?]; [|done]. apply bound_pos in E4 as [? ?]; [|done]. unfold usable. cbn. bool_norm. split_and!; auto; lia.
Qed.

Lemma int64_small z : - 2 ^ 63 <= z < 2 ^ 63 -> int64 z = z.
Proof.
  intros Hz. unfold int64, int_of_u64, u64. destruct (decide (0 <= z)).
  - rewrite Z.mod_small by lia. rewrite decide_True by lia. done.
  - replace (z mod 2 ^ 64) with (z + 2 ^ 64) by (apply Z.mod_unique with (-1); lia). rewrite decide_False by lia. lia.
Qed.

(** A configuration the buffer accepts is usable, and it is what was written:
    windows positive, every bound at least one, a trace able to fit under the
    ceiling; an explicit ceiling is taken as it is; a derived one is only
    lowered, never under one trace's bound; and where the arithmetic is exact
    the spans alone fit in the memory limit. *)
Theorem settings_sound c s limit notes s' : resolve c = inr s -> applyMemoryBudget s (0 <? MaxSpans c) limit = (notes, inr s') ->
  usable s' /\ maxSpans s' <= maxSpans s /\ s' = with_maxSpans (maxSpans s') s /\
  (MaxSpans c <> 0 -> maxSpans s' = MaxSpans c) /\
  (0 < limit -> maxSpans s * spanCostBytes < 2 ^ 63 -> maxSpans s' * spanCostBytes < limit).
Proof.
  intros R. destruct (resolve_usable _ _ R) as ((U1 & U2 & U3 & [U4 U4'] & U5) & _ & Ex & _).
  assert (Self : s = with_maxSpans (maxSpans s) s) by by destruct s.
  unfold applyMemoryBudget, spanCostBytes. destruct (limit <=? 0) eqn:L; bool_norm.
  { intros [= <- <-]. unfold usable. split_and!; first [done|lia]. }
  set (a := affordable_spans limit). clearbody a.
  destruct (negb (0 <? MaxSpans c) && (a <? maxSpans s)) eqn:D.
  - apply andb_true_iff in D as [D1%negb_true_iff D2]. bool_norm.
    assert (Hn : MaxSpans c <> 0 -> False).
    { intros Hn. unfold resolve in R. apply bind_ok in R as (? & _ & R). apply bind_ok in R as (? & _ & R).
      apply bind_ok in R as (? & _ & R). apply bind_ok in R as (? & _ & R). apply bind_ok in R as (? & R & _).
      unfold bound in R. destruct (MaxSpans c <? 0) eqn:E; [done|]. bool_norm. lia. }
    destruct (a <? maxSpansPerTrace s) eqn:F; bool_norm; cbn [maxSpans with_maxSpans].
    + destruct (limit <=? int64 (maxSpansPerTrace s * 1024)) eqn:G; [done|]. bool_norm.
      assert (G' : maxSpans s * 1024 < 2 ^ 63 -> maxSpansPerTrace s * 1024 < limit) by (intros; rewrite int64_small in G by lia; done).
      destruct (a <? maxSpansPerTrace s); intros [= <- <-]; cbn; unfold usable; cbn; split_and!; first [done|lia].
    + destruct (limit <=? int64 (a * 1024)) eqn:G; [done|]. bool_norm.
      assert (G' : maxSpans s * 1024 < 2 ^ 63 -> a * 1024 < limit) by (intros; rewrite int64_small in G by lia; done).
      rewrite Z.ltb_irrefl. intros [= <- <-]. cbn. unfold usable. cbn. split_and!; first [done|lia].
  - destruct (limit <=? int64 (maxSpans s * 1024)) eqn:G; [done|]. bool_norm.
    assert (G' : maxSpans s * 1024 < 2 ^ 63 -> maxSpans s * 1024 < limit) by (intros; rewrite int64_small in G by lia; done).
    destruct (a <? maxSpans s); intros [= <- <-]; unfold usable; split_and!; first [done|lia|auto].
Qed.

End Config.

(** The estimate is an [int64] product: an explicit ceiling of 2^53 spans needs
    2^63 bytes, which wraps to a negative number, and is accepted under a limit
    of one gibibyte with a warning, where a smaller one is refused. *)
Lemma budget_wraps :
  let s := mkSettings 5000000000 100000 1000 (2 ^ 53) 100000 60000000000 in
  applyMemoryBudget s true (2 ^ 30) = ([AboveBudget], inr s) /\
  applyMemoryBudget (with_maxSpans (2 ^ 21) s) true (2 ^ 30) = ([], inl (OverLimit FSpans (2 ^ 21) (2 ^ 31) (2 ^ 30))).
Proof. split; reflexivity. Qed.

End Tail.
