(* ===== verification/TailBufferExamples.v ===== *)
(** * A run of the tail-sampling buffer, evaluated

    Two spans of one trace are pushed, judged by two policies
    when the process stops, and sent. *)

From S2P Require Import Prelude Clip Number Float Text Pdata LogDedupe TraceHash TailSample TailCompile TailInv TailSampleSafe TailValidate.
From S2P Require Import Payload TailCache TailBuffer TailBufferInv TailBufferPush TailBufferSafe TailBilling TailConfig.
Local Open Scope Z_scope.

#[export] Instance ex_decider : Decider := evaluator_decider ex_get ex_hash.

Definition ex_cfg2 : Config := mkConfig [ex_errors; ex_health] None.
Definition ex_ev2 : Evaluator :=
  mkEvaluator [mkNamed [101] (statusPolicy 4); mkNamed [104] (stringAttrPolicy [112] None [[104]] 0 true)]
    false (mkWorld [] [newRegexCache 1000]) ex_clock 0.
Lemma ex_new2 : New ex_cfg2 ex_clock = inr ex_ev2.
Proof. reflexivity. Qed.

Definition ex_set : settings := mkSettings 5000000000 10 4 20 100 60000000000.
Definition ex_td : Traces :=
  [mkRS [([112], VStr [105])] [] [mkSS (mkScope [] [] []) [] [ex_span 10 20 0 []; ex_span 15 40 0 []]]].

Definition ex_start : sys := start (ex_ev2 : Ev) (Names ex_ev2) ex_set.
Notation ex_took := (take ex_td 100 (buf ex_start)).
Definition ex_pushed : sys := mkSys ex_took.1 (flights ex_start ++ [FPush ex_took.2]) (reports ex_start)
  (presented ex_start ++ items ex_td) (delivered ex_start) (refused ex_start) (nackKept ex_start) (nackDropped ex_start).
Notation ex_drain := (flush_drain 0 1 200 (buf ex_pushed)).
Definition ex_flushed : sys := mkSys ex_drain.1.2 (flights ex_pushed ++ [FDrain ex_drain.1.1]) (reports ex_pushed ++ option_list ex_drain.2)
  (presented ex_pushed) (delivered ex_pushed) (refused ex_pushed) (nackKept ex_pushed) (nackDropped ex_pushed).

Lemma pair3 {A B C} (x : A * B * C) : x = (x.1.1, x.1.2, x.2).
Proof. by destruct x as [[? ?] ?]. Qed.
Lemma pair4 {A B C D} (x : A * B * C * D) : x = (x.1.1.1, x.1.1.2, x.1.2, x.2).
Proof. by destruct x as [[[? ?] ?] ?]. Qed.

Lemma ex_push : reachable 1 (ex_ev2 : Ev) (Names ex_ev2) ex_set ex_pushed.
Proof. apply (star_step _ _ ex_start); [constructor|]. refine (step_push 1 ex_start ex_td 100 ex_took.1 ex_took.2 _ _); [reflexivity|exact (surjective_pairing ex_took)]. Qed.

Lemma ex_flush : reachable 1 (ex_ev2 : Ev) (Names ex_ev2) ex_set ex_flushed.
Proof.
  apply (star_step _ _ ex_pushed); [exact ex_push|]. refine (step_flush 1 ex_pushed 200 0 ex_drain.1.1 ex_drain.1.2 ex_drain.2 (pair3 ex_drain)).
Qed.

Lemma spans_conserved_witness : (Stats (buf ex_pushed)).2 = 2 /\ length (held (buf ex_pushed)) = 2%nat.
Proof.
  destruct (spans_conserved 1 _ _ _ _ ex_push) as (_ & E & _). split; [reflexivity|].
  apply Nat2Z.inj. rewrite <- E. reflexivity.
Defined.

Lemma buffer_bounded_witness : (Stats (buf ex_pushed)).1 = 1 /\ (Stats (buf ex_pushed)).1 <= 10.
Proof. split; [reflexivity|]. apply (buffer_bounded 1 _ _ _ _ ex_push). split; cbn; lia. Defined.

Lemma flush_latches_witness : flushed (buf ex_flushed) = true /\ Stats (buf ex_flushed) = (0, 0).
Proof. apply (proj2 (flush_latches 1 _ _ _ _ ex_flush)) with (s' := ex_flushed); [reflexivity|constructor]. Defined.

Lemma sweep_decides_due_witness :
  let r := sweep_hold 0 1 noOut 5000000100 (buf ex_pushed) in
  queue (buf ex_pushed) <> [] /\ queue r.1.1.2 = drop 1 (queue (buf ex_pushed)).
Proof.
  intros r. split; [discriminate|].
  exact (proj1 (sweep_decides_due 1 _ _ _ _ 0 noOut 5000000100 r.1.1.1 r.1.1.2 r.1.2 r.2 ex_push (pair4 r))).
Defined.

Lemma early_reported_once_witness : earlyCount (cnt (buf ex_flushed)) = [0; 0; 0; 0; 1] /\
  zip_with Z.sub (earlyCount (cnt (buf ex_flushed))) (earlyPending (cnt (buf ex_flushed))) = add_reports (reports ex_flushed).
Proof. split; [reflexivity|]. exact (early_reported_once 1 _ _ _ _ ex_flush). Defined.

Lemma no_double_billing_witness :
  exists ms, billed (ghost (buf ex_flushed)) !! 7 = Some ms /\ charged 7 (cache (buf ex_flushed)) = lor_all ms.
Proof.
  apply (proj2 (no_double_billing ex_get ex_hash ex_cfg2 ex_clock 1 ex_ev2 (Names ex_ev2) ex_set ex_flushed ex_new2 ltac:(cbn; lia) ex_flush) 7).
  apply (bool_decide_eq_true_1 (is_Some _)). vm_compute. reflexivity.
Defined.

(** ** A section without a ceiling, under 128 MiB *)

Definition ex_section : Tail.Config := Tail.mkConfig ex_cfg2 [] 0 0 0 0 [].

Lemma settings_sound_witness :
  Tail.applyMemoryBudget (mkSettings 5000000000 100000 1000 200000 100000 60000000000) false (2 ^ 27) =
    ([Tail.LoweredToFit; Tail.Sized], inr (mkSettings 5000000000 100000 1000 32768 100000 60000000000)) /\
  32768 <= 200000.
Proof.
  split; [reflexivity|].
  apply (Tail.settings_sound ex_section (mkSettings 5000000000 100000 1000 200000 100000 60000000000) (2 ^ 27) [Tail.LoweredToFit; Tail.Sized]
    (mkSettings 5000000000 100000 1000 32768 100000 60000000000)); reflexivity.
Defined.
