(* ===== verification/TraceSample.v ===== *)
(** * The head sampler ([internal/agent/tracesample]: [tracesample.go], [kept.go])

    It forwards a payload, or the part of it that is kept: a span of a kept
    trace, an error, a slow span, as far as the cap on spans a second admits.
    A call reads the clock once per token it asks for; [clk] is those readings.
    Calls of several goroutines meet only at the bucket, one mutexed method each;
    here they follow one another. *)

From S2P Require Import Prelude Clip Number Float Text Pdata TraceHash Payload.
Local Open Scope Z_scope.

Module Head.

(** ** Configuration *)

Record Config := mkConfig { Probability : float64; KeepErrors : option bool; KeepSlowerThan : bytes; MaxSpansPerSecond : float64 }.

Definition Enabled (c : Config) : bool :=
  (float_lt float_zero (Probability c) && float_lt (Probability c) (of_int 1)) || float_lt float_zero (MaxSpansPerSecond c).

Inductive config_error := ProbabilityRange | NegativeRate | BadSlowerThan (e : duration_error).

Definition KeepsErrors (c : Config) : bool := match KeepErrors c with Some b => b | None => true end.

Section Sampler.
Context `{GoText} (Sum64Uint128 : Z -> Z -> Z) (clk : nat -> Z).

Definition SlowerThan (c : Config) : duration_error + Z := Duration (KeepSlowerThan c) 0 [ZeroDisables].

Definition Validate (c : Config) : config_error + unit :=
  refuse (float_lt (Probability c) float_zero || float_lt (of_int 1) (Probability c)) ProbabilityRange;;
  refuse (float_lt (MaxSpansPerSecond c) float_zero) NegativeRate;;
  match SlowerThan c with inl e => inl (BadSlowerThan e) | inr _ => inr tt end.

(** ** The sampler *)

(** [ticks] is how often the clock was read, [byProbability] and [byRate] the
    drop counters. *)
Record Sampler := mkSampler {
  threshold : Z; keepErr : bool; slow : Z; rate : float64; bucket : Bucket; ticks : nat; byProbability : Z; byRate : Z }.

Definition put_bucket (b : Bucket) (s : Sampler) : Sampler :=
  mkSampler (threshold s) (keepErr s) (slow s) (rate s) b (S (ticks s)) (byProbability s) (byRate s).

Definition New (cfg : Config) : Sampler :=
  let slow := match SlowerThan cfg with inr d => d | inl _ => 0 end in
  let p := Probability cfg in
  let p := if float_le p float_zero || float_lt (of_int 1) p then of_int 1 else p in
  mkSampler (Threshold p) (KeepsErrors cfg) slow (MaxSpansPerSecond cfg) (NewBucket (MaxSpansPerSecond cfg)) 0 0 0.

Definition StatusCodeError : Z := 2.

Definition keep (s : Sampler) (sp : Span) : bool :=
  (keepErr s && (sp_status sp =? StatusCodeError)) ||
  ((0 <? slow s) && negb (sp_start sp =? 0) && (sp_start sp <? sp_end sp) && (slow s <=? int_of_u64 (u64 (sp_end sp - sp_start sp)))) ||
  Keep Sum64Uint128 (sp_trace sp) (threshold s).

Definition SpanKept (s : Sampler) (sp : Span) : bool := keep s sp.
Definition TraceKept (s : Sampler) (id : Z) : bool := Keep Sum64Uint128 id (threshold s).

Definition consume (n : float64) (s : Sampler) : bool * Sampler :=
  let '(b, ok) := TakeExact n (clk (ticks s)) (bucket s) in (ok, put_bucket b s).

Definition allow (s : Sampler) : bool * Sampler := consume (of_int 1) s.

(** The cap, where there is one. *)
Definition admitted (s : Sampler) : bool * Sampler := if float_lt float_zero (rate s) then allow s else (true, s).

Definition wouldDrop (td : Traces) (s : Sampler) : bool * Sampler :=
  if existsb (fun sp => negb (keep s sp)) (td_spans td) then (true, s)
  else if float_lt float_zero (rate s) then
    let '(ok, s) := consume (of_int (SpanCount td)) s in (negb ok, s)
  else (false, s).

(** ** The sampled payload *)

(** The walk of [sampled]: where this resource and scope are in the payload,
    once a span of theirs was kept. *)
Record pick := mkPick { p_s : Sampler; p_out : Traces; p_prob : Z; p_rate : Z; dstRS : option nat; dstSS : option nat }.

Definition copy_span (rs : ResourceSpans) (ss : ScopeSpans) (sp : Span) (s : Sampler) (p : pick) : pick :=
  let '(i, out) := match dstRS p with Some i => (i, p_out p) | None => (length (p_out p), append_rs rs (p_out p)) end in
  let '(j, out) := match dstSS p with Some j => (j, out) | None => (scopes_at i out, append_ss i ss out) end in
  mkPick s (append_span i j sp out) (p_prob p) (p_rate p) (Some i) (Some j).

Definition pick_span (rs : ResourceSpans) (ss : ScopeSpans) (p : pick) (sp : Span) : pick :=
  if negb (keep (p_s p) sp) then mkPick (p_s p) (p_out p) (p_prob p + 1) (p_rate p) (dstRS p) (dstSS p)
  else
    let '(ok, s) := admitted (p_s p) in
    if negb ok then mkPick s (p_out p) (p_prob p) (p_rate p + 1) (dstRS p) (dstSS p)
    else copy_span rs ss sp s p.

Definition pick_scope (rs : ResourceSpans) (p : pick) (ss : ScopeSpans) : pick :=
  foldl (pick_span rs ss) (mkPick (p_s p) (p_out p) (p_prob p) (p_rate p) (dstRS p) None) (ss_spans ss).

Definition pick_resource (p : pick) (rs : ResourceSpans) : pick :=
  foldl (pick_scope rs) (mkPick (p_s p) (p_out p) (p_prob p) (p_rate p) None None) (rs_scopes rs).

Definition sampled (td : Traces) (s : Sampler) : Traces * Z * Z * Sampler :=
  let p := foldl pick_resource (mkPick s [] 0 0 None None) td in (p_out p, p_prob p, p_rate p, p_s p).

Definition countDropped (byProb byRt : Z) (s : Sampler) : Sampler :=
  mkSampler (threshold s) (keepErr s) (slow s) (rate s) (bucket s) (ticks s) (byProbability s + byProb) (byRate s + byRt).

(** [send] is the next exporter's answer to a payload; the payload sent, if any,
    comes back beside the ack. *)
Definition ExportTraces (send : Traces -> bool) (td : Traces) (s : Sampler) : bool * option Traces * Sampler :=
  let '(drop, s) := wouldDrop td s in
  if negb drop then (send td, Some td, s)
  else
    let '(out, prob, rt, s) := sampled td s in
    match out with
    | [] => (true, None, countDropped prob rt s)
    | _ => if send out then (true, Some out, countDropped prob rt s) else (false, Some out, s)
    end.

End Sampler.
End Head.
