(* ===== verification/TraceSampleSafe.v ===== *)
(** * What the head sampler promises ([internal/agent/tracesample])

    The walk that builds the sampled payload is a filter of the spans in order;
    a call's drop counters and what it forwarded account for the payload, once
    acked; and what one fraction keeps a larger one keeps, so the tail policy and
    the head sampler nest. *)

From S2P Require Import Prelude Clip Number Float Text Pdata TraceHash TailSample TailCompile TailValidate Payload TraceSample.
Import Head.
Local Open Scope Z_scope.

Section Safe.
Context `{GoText} (Sum64Uint128 : Z -> Z -> Z) (clk : nat -> Z).
Notation keep := (keep Sum64Uint128).
Notation admitted := (admitted clk).
Notation pick_span := (pick_span Sum64Uint128 clk).
Notation pick_scope := (pick_scope Sum64Uint128 clk).
Notation pick_resource := (pick_resource Sum64Uint128 clk).
Notation sampled := (sampled Sum64Uint128 clk).
Notation ExportTraces := (ExportTraces Sum64Uint128 clk).

(** ** The reference: one pass over the spans *)

(** The spans forwarded, those the probability and the cap dropped. *)
Definition choice : Type := list item * Z * Z * Sampler.

Definition choose_step (c : choice) (it : item) : choice :=
  let '(kept, prob, rt, s) := c in
  if negb (keep s it.2) then (kept, prob + 1, rt, s)
  else let '(ok, s) := admitted s in if negb ok then (kept, prob, rt + 1, s) else (kept ++ [it], prob, rt, s).

Definition choose (l : list item) (s : Sampler) : choice := foldl choose_step ([], 0, 0, s) l.

(** ** The walk follows it *)

Definition seen (p : pick) : choice := (items (p_out p), p_prob p, p_rate p, p_s p).

Record pick_ok (K : attrs * bytes) (L : Scope * bytes) (p : pick) : Prop := {
  po_rs i : dstRS p = Some i -> at_res K (p_out p) i;
  po_ss j : dstSS p = Some j -> exists i, dstRS p = Some i /\ at_cur K L (p_out p) i j }.

Lemma copy_span_spec rs ss sp s p : pick_ok (rs_key rs) (ss_key ss) p ->
  pick_ok (rs_key rs) (ss_key ss) (copy_span rs ss sp s p) /\
  seen (copy_span rs ss sp s p) = (items (p_out p) ++ [(rs_key rs, ss_key ss, sp)], p_prob p, p_rate p, s).
Proof.
  intros [Hr Hs]. unfold copy_span.
  assert (P1 : exists i o, match dstRS p with Some i => (i, p_out p) | None => (length (p_out p), append_rs rs (p_out p)) end = (i, o) /\
    at_res (rs_key rs) o i /\ items o = items (p_out p) /\ (is_Some (dstRS p) -> dstRS p = Some i /\ o = p_out p)).
  { destruct (dstRS p) as [i|]; eexists _, _; (split; [done|]); [split_and!; auto|].
    destruct (append_rs_at rs (p_out p)) as [Ha Hi]. split_and!; [done|done|by intros []]. }
  destruct P1 as (i & o & -> & Hi & I1 & U).
  assert (P2 : exists j o2, match dstSS p with Some j => (j, o) | None => (scopes_at i o, append_ss i ss o) end = (j, o2) /\
    at_cur (rs_key rs) (ss_key ss) o2 i j /\ items o2 = items o).
  { destruct (dstSS p) as [j|].
    - destruct (Hs j eq_refl) as (i' & Ei & Hc). destruct (U ltac:(by exists i')) as [Ei' ->]. exists j, (p_out p).
      assert (i' = i) as -> by congruence. done.
    - destruct (append_ss_at _ _ ss _ Hi) as [Hc Hit]. eauto. }
  destruct P2 as (j & o2 & -> & Hc & I2). destruct (append_span_at _ _ _ _ sp _ Hc) as [Hc' It]. split.
  - split; cbn; [intros i' [= <-]; by eapply at_cur_res|intros j' [= <-]; by exists i].
  - unfold seen. cbn [p_out p_prob p_rate p_s]. by rewrite It, I2, I1.
Qed.

Lemma pick_span_spec rs ss p sp : pick_ok (rs_key rs) (ss_key ss) p ->
  pick_ok (rs_key rs) (ss_key ss) (pick_span rs ss p sp) /\ seen (pick_span rs ss p sp) = choose_step (seen p) (rs_key rs, ss_key ss, sp).
Proof.
  intros Hp. unfold Head.pick_span, choose_step, seen at 2. cbn [snd]. destruct (negb (keep (p_s p) sp)); [by destruct Hp|].
  destruct (admitted (p_s p)) as [ok s]. destruct (negb ok); [by destruct Hp|]. by apply copy_span_spec.
Qed.

Lemma pick_spans_spec rs ss sps p : pick_ok (rs_key rs) (ss_key ss) p ->
  pick_ok (rs_key rs) (ss_key ss) (foldl (pick_span rs ss) p sps) /\
  seen (foldl (pick_span rs ss) p sps) = foldl choose_step (seen p) ((fun sp => (rs_key rs, ss_key ss, sp)) <$> sps).
Proof.
  revert p. induction sps as [|sp sps IH]; intros p Hp; cbn; [done|].
  destruct (pick_span_spec rs ss p sp Hp) as [Hp' E]. destruct (IH _ Hp') as [Hp'' E']. split; [done|]. by rewrite E', E.
Qed.

(** Between two scopes the handle to the resource is in use, no other. *)
Definition rs_ok (K : attrs * bytes) (p : pick) : Prop := forall i, dstRS p = Some i -> at_res K (p_out p) i.

Lemma pick_scopes_spec rs sss p : rs_ok (rs_key rs) p ->
  rs_ok (rs_key rs) (foldl (pick_scope rs) p sss) /\ seen (foldl (pick_scope rs) p sss) = foldl choose_step (seen p) (sss ≫= ss_items (rs_key rs)).
Proof.
  revert p. induction sss as [|ss sss IH]; intros p Hp; cbn; [done|]. rewrite foldl_app.
  destruct (pick_spans_spec rs ss (ss_spans ss) (mkPick (p_s p) (p_out p) (p_prob p) (p_rate p) (dstRS p) None)) as [[Hr _] E]; [by split|].
  destruct (IH (pick_scope rs p ss) Hr) as [Hp' E']. split; [done|]. rewrite E'. f_equal. exact E.
Qed.

Lemma pick_resources_spec td p : seen (foldl pick_resource p td) = foldl choose_step (seen p) (items td).
Proof.
  revert p. induction td as [|rs td IH]; intros p; cbn; [done|]. rewrite foldl_app, IH. f_equal.
  by destruct (pick_scopes_spec rs (rs_scopes rs) (mkPick (p_s p) (p_out p) (p_prob p) (p_rate p) None None)) as [_ E].
Qed.

Lemma sampled_choose td s out prob rt s' : sampled td s = (out, prob, rt, s') -> choose (items td) s = (items out, prob, rt, s').
Proof.
  unfold Head.sampled, choose. pose proof (pick_resources_spec td (mkPick s [] 0 0 None None)) as E. intros [= <- <- <- <-]. symmetry. exact E.
Qed.

(** ** What the pass keeps *)

(** A sampler as made, whatever its bucket holds. *)
Definition same_rule (s s' : Sampler) : Prop :=
  threshold s' = threshold s /\ keepErr s' = keepErr s /\ slow s' = slow s /\ rate s' = rate s /\
  byProbability s' = byProbability s /\ byRate s' = byRate s.

Lemma keep_rule s s' sp : same_rule s s' -> keep s' sp = keep s sp.
Proof. unfold Head.keep. by intros (-> & -> & -> & _). Qed.

Lemma consume_rule n s : same_rule s (consume clk n s).2.
Proof. unfold consume. by destruct (TakeExact _ _ _). Qed.

Lemma admit_rule s : same_rule s (admitted s).2.
Proof. unfold Head.admitted, allow. destruct (float_lt _ _); [apply consume_rule|done]. Qed.

Lemma same_rule_trans a b c : same_rule a b -> same_rule b c -> same_rule a c.
Proof. unfold same_rule. intros (? & ? & ? & ? & ? & ?) (? & ? & ? & ? & ? & ?). split_and!; congruence. Qed.

Record chosen (s : Sampler) (l : list item) (c : choice) : Prop := {
  cz_sub : sublist c.1.1.1 (filter (fun it : item => keep s it.2 = true) l);
  cz_prob : c.1.1.2 = Z.of_nat (length (filter (fun it : item => keep s it.2 = false) l));
  cz_rate : Z.of_nat (length c.1.1.1) + c.1.1.2 + c.1.2 = Z.of_nat (length l);
  cz_cap : float_lt float_zero (rate s) = false -> c.1.2 = 0;
  cz_pos : 0 <= c.1.2;
  cz_rule : same_rule s c.2 }.

Lemma keep_in s l (it : item) : keep s it.2 = true -> filter (fun it : item => keep s it.2 = true) (l ++ [it]) = filter (fun it : item => keep s it.2 = true) l ++ [it].
Proof. intros E. by rewrite filter_app, filter_cons_True. Qed.
Lemma keep_out s l (it : item) : keep s it.2 = true -> filter (fun it : item => keep s it.2 = false) (l ++ [it]) = filter (fun it : item => keep s it.2 = false) l.
Proof. intros E. rewrite filter_app, filter_cons_False by congruence. apply app_nil_r. Qed.
Lemma drop_in s l (it : item) : keep s it.2 = false -> filter (fun it : item => keep s it.2 = true) (l ++ [it]) = filter (fun it : item => keep s it.2 = true) l.
Proof. intros E. rewrite filter_app, filter_cons_False by congruence. apply app_nil_r. Qed.
Lemma drop_out s l (it : item) : keep s it.2 = false -> filter (fun it : item => keep s it.2 = false) (l ++ [it]) = filter (fun it : item => keep s it.2 = false) l ++ [it].
Proof. intros E. by rewrite filter_app, filter_cons_True. Qed.

Lemma choose_chosen l s : chosen s l (choose l s).
Proof.
  unfold choose. induction l as [|it l IH] using rev_ind; [by split|]. rewrite foldl_app. cbn [foldl].
  destruct (foldl choose_step ([], 0, 0, s) l) as [[[kept prob] rt] s1]. destruct IH as [I1 I2 I3 I4 I5 I6]. cbn [fst snd] in *.
  unfold choose_step. rewrite (keep_rule s s1 it.2 I6). destruct (keep s it.2) eqn:Ek; cbn [negb].
  - pose proof (admit_rule s1) as Ra. destruct (admitted s1) as [ok s2] eqn:Ea. cbn [snd] in Ra.
    assert (Hno : float_lt float_zero (rate s) = false -> ok = true).
    { intros Hr. unfold Head.admitted in Ea. destruct I6 as (_ & _ & _ & Er & _). rewrite Er, Hr in Ea. by injection Ea as <- _. }
    assert (Rs : same_rule s s2) by by eapply same_rule_trans.
    destruct ok; cbn [negb]; split; cbn [fst snd]; rewrite ?keep_in, ?keep_out, ?length_app by done; cbn [length]; try lia; try done.
    + by apply sublist_app.
    + by apply sublist_inserts_r.
    + intros Hr. by apply Hno in Hr.
  - split; cbn [fst snd]; rewrite ?drop_in, ?drop_out, ?length_app by done; cbn [length]; try lia; done.
Qed.

Lemma sublist_all {A} (l k : list A) : sublist l k -> (length k <= length l)%nat -> l = k.
Proof.
  induction 1 as [|x l k S IH|x l k S IH]; cbn; intros L; [done|f_equal; apply IH; lia|]. apply sublist_length in S. lia.
Qed.

Lemma filter_split s (l : list item) :
  (length (filter (fun it : item => keep s it.2 = true) l) + length (filter (fun it : item => keep s it.2 = false) l) = length l)%nat.
Proof.
  induction l as [|it l IH]; [done|]. destruct (keep s it.2) eqn:E.
  - rewrite filter_cons_True, filter_cons_False by congruence. cbn. lia.
  - rewrite filter_cons_False, filter_cons_True by congruence. cbn. lia.
Qed.

(** C37: The payload the walk builds, with its groups made lazily, is one pass over
    the spans in order: those whose trace is kept, or which are errors or slow,
    as far as the cap admits; each under the resource and scope it came with.
    Without a cap it is exactly the kept spans, and the two drop counts and the
    payload always add up to what came in. *)
Theorem sampled_filters td s out prob rt s' : sampled td s = (out, prob, rt, s') ->
  choose (items td) s = (items out, prob, rt, s') /\
  sublist (items out) (filter (fun it : item => keep s it.2 = true) (items td)) /\
  prob = Z.of_nat (length (filter (fun it : item => keep s it.2 = false) (items td))) /\
  SpanCount out + prob + rt = SpanCount td /\ 0 <= rt /\
  (float_lt float_zero (rate s) = false -> items out = filter (fun it : item => keep s it.2 = true) (items td)).
Proof.
  intros E. pose proof (sampled_choose _ _ _ _ _ _ E) as C. pose proof (choose_chosen (items td) s) as [S1 S2 S3 S4 S5 _].
  rewrite C in *. cbn [fst snd] in *. unfold SpanCount. rewrite <- !items_length. split_and!; try done.
  intros Hc. specialize (S4 Hc). pose proof (filter_split s (items td)). apply sublist_all; [done|]. lia.
Qed.

Lemma wouldDrop_rule td s drop s' : wouldDrop Sum64Uint128 clk td s = (drop, s') ->
  same_rule s s' /\ (drop = false -> Forall (fun it : item => keep s it.2 = true) (items td)).
Proof.
  unfold wouldDrop. destruct (existsb _ (td_spans td)) eqn:Ex; [by intros [= <- <-]|].
  assert (Hk : Forall (fun it : item => keep s it.2 = true) (items td)).
  { apply Forall_forall. intros it Hit. apply not_true_iff_false in Ex. destruct (keep s it.2) eqn:E; [done|]. exfalso. apply Ex.
    apply existsb_exists. exists it.2. split; [|by rewrite E]. apply list_elem_of_In. by apply items_spans. }
  destruct (float_lt float_zero (rate s)); [|by intros [= <- <-]]. pose proof (consume_rule (of_int (SpanCount td)) s) as R.
  destruct (consume clk _ s) as [ok s1]. intros [= <- <-]. done.
Qed.

Lemma sampled_counts td s out prob rt s' : sampled td s = (out, prob, rt, s') ->
  SpanCount out + prob + rt = SpanCount td /\ Forall (fun it : item => keep s it.2 = true) (items out) /\ same_rule s s'.
Proof.
  intros E. pose proof (sampled_choose _ _ _ _ _ _ E) as C. pose proof (choose_chosen (items td) s) as [S1 S2 S3 S4 S5 S6].
  rewrite C in *. cbn [fst snd] in *. unfold SpanCount. rewrite <- !items_length. split; [lia|split; [|exact S6]].
  apply Forall_forall. intros it Hit. eapply elem_of_submseteq in Hit; [|by apply sublist_submseteq]. by apply list_elem_of_filter in Hit as [? _].
Qed.

(** Forward first: a push that is acked has every span forwarded or counted
    dropped, and one that is not has none counted; nothing empty is sent for a
    payload that holds spans, and what is sent was kept. *)
Theorem export_accounts send td s ack sent s' : ExportTraces send td s = (ack, sent, s') ->
  (ack = true -> SpanCount (default [] sent) + (byProbability s' - byProbability s) + (byRate s' - byRate s) = SpanCount td) /\
  (ack = false -> byProbability s' = byProbability s /\ byRate s' = byRate s /\ is_Some sent) /\
  (forall out, sent = Some out -> Forall (fun it : item => keep s it.2 = true) (items out) /\ (send out = ack)).
Proof.
  unfold Head.ExportTraces. destruct (wouldDrop Sum64Uint128 clk td s) as [drop s1] eqn:W.
  destruct (wouldDrop_rule _ _ _ _ W) as [R Hk]. destruct drop; cbn [negb].
  - destruct (sampled td s1) as [[[out prob] rt] s2] eqn:E. destruct (sampled_counts _ _ _ _ _ _ E) as (C & Hall & R2).
    assert (R' : same_rule s s2) by by eapply same_rule_trans.
    assert (Hall' : Forall (fun it : item => keep s it.2 = true) (items out)).
    { eapply Forall_impl; [exact Hall|]. intros it Hit. cbn in *. rewrite <- (keep_rule s s1) by done. exact Hit. }
    destruct R' as (_ & _ & _ & _ & Rp & Rr). unfold countDropped.
    destruct out as [|rs out].
    + intros [= <- <- <-]. cbn in *. split_and!; [intros _; lia|done|done].
    + set (o := rs :: out) in *. destruct (send o) eqn:So; intros [= <- <- <-]; cbn [default id byProbability byRate].
      * split_and!; [intros _; lia|done|]. by intros x [= <-].
      * split_and!; [done|done|]. by intros x [= <-].
  - intros [= <- <- <-]. split_and!.
    + intros _. destruct R as (_ & _ & _ & _ & -> & ->). cbn. lia.
    + intros _. destruct R as (_ & _ & _ & _ & -> & ->). by split.
    + intros out [= <-]. split; [by apply Hk|done].
Qed.

(** ** Nesting *)

(** The fraction [New] samples at: out of range means every trace. *)
Definition effective (c : Config) : float64 :=
  if float_le (Probability c) float_zero || float_lt (of_int 1) (Probability c) then of_int 1 else Probability c.

Lemma New_threshold c : threshold (New c) = Threshold (effective c).
Proof. done. Qed.

Lemma TraceKept_SpanKept s sp : TraceKept Sum64Uint128 s (sp_trace sp) = true -> SpanKept Sum64Uint128 s sp = true.
Proof. unfold TraceKept, SpanKept, Head.keep. intros ->. by rewrite !orb_true_r. Qed.

(** A trace the head sampler keeps at one fraction it keeps at any larger one,
    and a trace a probabilistic tail policy samples is one a head sampler of at
    least that fraction let through, with all its spans: the two decide on the
    same hash, so sampling twice loses nothing. *)
Theorem sampling_nests c c' pct pol :
  is_fraction (effective c) -> is_fraction (effective c') -> float_le (effective c) (effective c') = true ->
  compileProbabilistic pct = inr pol -> is_fraction (float_div pct (of_int 100)) -> float_le (float_div pct (of_int 100)) (effective c') = true ->
  (forall id, TraceKept Sum64Uint128 (New c) id = true -> TraceKept Sum64Uint128 (New c') id = true) /\
  (forall Get t now w, (eval Get Sum64Uint128 pol t now w).1.1.1 = Sample ->
     TraceKept Sum64Uint128 (New c') (t_id t) = true /\ forall sp, sp_trace sp = t_id t -> SpanKept Sum64Uint128 (New c') sp = true).
Proof.
  intros F F' L Cp Fp Lp.
  assert (T1 := Threshold_mono _ _ F F' L). assert (T2 := Threshold_mono _ _ Fp F' Lp).
  pose proof (Threshold_range (effective c')) as Tr. split.
  - intros id. unfold TraceKept. rewrite !New_threshold. apply Keep_mono. exact (conj T1 (proj2 Tr)).
  - intros Get t now w Ev. unfold compileProbabilistic in Cp. apply bind_ok in Cp as (_ & _ & [= <-]).
    cbn [eval fst] in Ev. unfold sample_if in Ev. destruct (Keep _ _ _) eqn:K; [|done].
    assert (Kt : TraceKept Sum64Uint128 (New c') (t_id t) = true).
    { unfold TraceKept. rewrite New_threshold. eapply Keep_mono; [|exact K]. exact (conj T2 (proj2 Tr)). }
    split; [done|]. intros sp Es. apply TraceKept_SpanKept. by rewrite Es.
Qed.

End Safe.

(** * The head sampler, evaluated

    Half the hash range, with the error rail, on a payload of four spans. *)

Import Head.

Definition ex_half : Config := mkConfig (float_div (of_int 1) (of_int 2)) None [] float_zero.
Definition ex_three_quarters : Config := mkConfig (float_div (of_int 3) (of_int 4)) None [] float_zero.
Definition ex_head : Sampler := Head.New ex_half.

(** Trace ids whose hash is low, high, and high with an error. *)
Definition ex_low : Span := mkSpan [115] 0 0 [] 10 20 7 1 [] [].
Definition ex_high : Span := mkSpan [115] 0 0 [] 10 20 (2 ^ 64 - 5) 2 [] [].
Definition ex_failed : Span := mkSpan [115] 0 2 [] 10 20 (2 ^ 64 - 5) 3 [] [].
Definition ex_payload : Traces := [mkRS [] [] [mkSS (mkScope [] [] []) [] [ex_high; ex_low]; mkSS (mkScope [97] [] []) [] [ex_failed]]].

Notation ex_out := [mkRS [] [] [mkSS (mkScope [] [] []) [] [ex_low]; mkSS (mkScope [97] [] []) [] [ex_failed]]].

Lemma sampled_filters_witness :
  sampled ex_hash ex_clock ex_payload ex_head = (ex_out, 1, 0, ex_head) /\ SpanCount ex_out + 1 + 0 = SpanCount ex_payload.
Proof.
  assert (E : sampled ex_hash ex_clock ex_payload ex_head = (ex_out, 1, 0, ex_head)) by reflexivity. split; [exact E|].
  exact (proj1 (proj2 (proj2 (proj2 (sampled_filters ex_hash ex_clock _ _ _ _ _ _ E))))).
Defined.

Lemma export_accounts_witness :
  let r := ExportTraces ex_hash ex_clock (fun _ => true) ex_payload ex_head in
  r.1 = (true, Some ex_out) /\ SpanCount ex_out + (byProbability r.2 - 0) + (byRate r.2 - 0) = 3.
Proof.
  intros r. split; [reflexivity|].
  exact (proj1 (export_accounts ex_hash ex_clock (fun _ => true) ex_payload ex_head true (Some ex_out) r.2 eq_refl) eq_refl).
Defined.

Lemma sampling_nests_witness :
  TraceKept ex_hash (Head.New ex_half) 7 = true /\ TraceKept ex_hash (Head.New ex_three_quarters) 7 = true.
Proof.
  split; [reflexivity|]. refine (proj1 (sampling_nests ex_hash ex_half ex_three_quarters (of_int 25) _ _ _ _ eq_refl _ _) 7 _).
  - vm_compute. intuition discriminate.
  - vm_compute. intuition discriminate.
  - reflexivity.
  - vm_compute. intuition discriminate.
  - reflexivity.
  - reflexivity.
Defined.
