(* ===== verification/OtlpSplit.v ===== *)
(** * Splitting payloads by encoded size ([pkg/otlpsplit/otlpsplit.go])

    A payload is cut into parts whose encoded size stays within a cap, every
    part carrying a copy of the resource and scopes its records came under.
    Logs and traces are split by one algorithm, written once for each in the
    source and once here over the type of the leaf; metrics can also cut inside
    a metric, between data points.

    The messages are a third-party package's: a resource and its schema URL are
    one value here, a scope and its schema URL another, and records, spans and
    data points are types of their own, since the source only copies them.  Their
    encoded sizes are the class [Marshaler].  A budget's [rep] is a pointer to
    one report, threaded here from budget to budget; the handle to the scope
    being filled ([recs], [spans], [ms]) is its position in the chunk. *)

From S2P Require Import Prelude Clip.
Local Open Scope Z_scope.

Definition elemOverhead : Z := 8.
Definition minChunkRoomDiv : Z := 4.

Definition splitPaysOff (base maxBytes : Z) : bool := maxBytes `quot` minChunkRoomDiv <=? maxBytes - base.

Record Report := mkReport { Oversize : Z; Abandoned : Z }.
Definition noReport : Report := mkReport 0 0.

Definition countOver (rep : Report) (abandoned : bool) : Report :=
  if abandoned then mkReport (Oversize rep) (Abandoned rep + 1) else mkReport (Oversize rep + 1) (Abandoned rep).

(** ** The budget of the chunk being filled *)

Record chunkBudget := mkBudget { max : Z; cur : Z; held : Z; open : bool; giveUp : bool; rep : Report }.
Definition newBudget (maxBytes : Z) (r : Report) : chunkBudget := mkBudget maxBytes 0 0 false false r.

Definition abandonUnless (framing : Z) (b : chunkBudget) : chunkBudget :=
  if negb (splitPaysOff framing (max b)) then mkBudget (max b) (cur b) (held b) (open b) true (rep b) else b.

Definition reopen (base : Z) (b : chunkBudget) : chunkBudget := mkBudget (max b) base 0 true (giveUp b) (rep b).

Definition add (leaf : Z) (b : chunkBudget) : chunkBudget := mkBudget (max b) (cur b + leaf) (held b + 1) (open b) (giveUp b) (rep b).

(** [b.cur += scopeBytes], in [addScope]. *)
Definition grow (n : Z) (b : chunkBudget) : chunkBudget := mkBudget (max b) (cur b + n) (held b) (open b) (giveUp b) (rep b).

Definition cutBeforeScope (scopeBytes : Z) (b : chunkBudget) : bool := open b && negb (giveUp b) && (max b <? cur b + scopeBytes).

Definition cutBeforeItem (base item : Z) (b : chunkBudget) : bool :=
  negb (giveUp b) && ((0 <? held b) || (base <? cur b)) && (max b <? cur b + item).

(** [size] is the chunk's real encoded size, which the code asks only when the
    estimate is over. *)
Definition close (size : Z) (b : chunkBudget) : bool * chunkBudget :=
  if negb (open b) then (false, b)
  else let r := if (max b <? cur b) && (max b <? size) then countOver (rep b) (giveUp b) else rep b in
       (true, mkBudget (max b) (cur b) (held b) false (giveUp b) r).

Definition discard (b : chunkBudget) : chunkBudget := mkBudget (max b) (cur b) (held b) false (giveUp b) (rep b).

(** The report is shared by pointer. *)
Definition with_rep (r : Report) (b : chunkBudget) : chunkBudget := mkBudget (max b) (cur b) (held b) (open b) (giveUp b) r.

(** ** Payloads *)

Record ScopeGroup (S L : Type) := mkScope { sg_scope : S; sg_leaves : list L }.
Arguments mkScope {S L}. Arguments sg_scope {S L}. Arguments sg_leaves {S L}.
Record ResourceGroup (R S L : Type) := mkResource { rg_resource : R; rg_scopes : list (ScopeGroup S L) }.
Arguments mkResource {R S L}. Arguments rg_resource {R S L}. Arguments rg_scopes {R S L}.
Notation payload R S L := (list (ResourceGroup R S L)).

(** Encoded sizes, as the marshaler of a signal computes them. *)
Class Marshaler (R S L : Type) := {
  PayloadSize : payload R S L -> Z;
  ResourceSize : ResourceGroup R S L -> Z;
  ScopeSize : ScopeGroup S L -> Z;
  LeafSize : L -> Z }.

Section Splitter.
Context {R S L : Type} `{Marshaler R S L}.

Definition emptyScopes (rl : ResourceGroup R S L) : ResourceGroup R S L := mkResource (rg_resource rl) [].
Definition emptyLeaves (sl : ScopeGroup S L) : ScopeGroup S L := mkScope (sg_scope sl) [].

(** ** One over-large resource

    The variables of [splitBigResourceLogs]: its budget, the chunk being filled
    with the position of its last scope, and the parts so far. *)
Record split := mkSplit { sb : chunkBudget; chunk : payload R S L; recs : nat; out : list (payload R S L) }.

Definition budget (f : chunkBudget -> chunkBudget) (st : split) : split := mkSplit (f (sb st)) (chunk st) (recs st) (out st).

Definition emit (st : split) : split :=
  let '(ok, b) := close (PayloadSize (chunk st)) (sb st) in
  mkSplit b (chunk st) (recs st) (if ok then out st ++ [chunk st] else out st).

Definition openChunk (rl : ResourceGroup R S L) (resBase : Z) (st : split) : split :=
  mkSplit (reopen resBase (sb st)) [emptyScopes rl] (recs st) (out st).

(** [nrl] is the only resource of the chunk. *)
Definition addScope (sl : ScopeGroup S L) (scopeBytes : Z) (st : split) : split :=
  mkSplit (grow scopeBytes (sb st))
    (alter (fun r => mkResource (rg_resource r) (rg_scopes r ++ [emptyLeaves sl])) 0%nat (chunk st))
    (default 0%nat ((fun r => length (rg_scopes r)) <$> chunk st !! 0%nat)) (out st).

Definition appendLeaf (lr : L) (st : split) : split :=
  mkSplit (sb st)
    (alter (fun r => mkResource (rg_resource r) (alter (fun s => mkScope (sg_scope s) (sg_leaves s ++ [lr])) (recs st) (rg_scopes r)))
      0%nat (chunk st)) (recs st) (out st).

Definition pack_leaf (rl : ResourceGroup R S L) (resBase : Z) (sl : ScopeGroup S L) (scopeBytes : Z) (st : split) (lr : L) : split :=
  let n := LeafSize lr + elemOverhead in
  let st := if cutBeforeItem (resBase + scopeBytes) n (sb st) then addScope sl scopeBytes (openChunk rl resBase (emit st)) else st in
  budget (add n) (appendLeaf lr st).

(** What every scope of the three splitters begins with. *)
Definition begin_scope (rl : ResourceGroup R S L) (resBase : Z) (sl : ScopeGroup S L) (scopeBytes : Z) (st : split) : split :=
  let st := budget (abandonUnless (resBase + scopeBytes)) st in
  let st := if cutBeforeScope scopeBytes (sb st) then emit st else st in
  let st := if open (sb st) then st else openChunk rl resBase st in
  addScope sl scopeBytes st.

Definition pack_scope (rl : ResourceGroup R S L) (resBase : Z) (st : split) (sl : ScopeGroup S L) : split :=
  let scopeBytes := ScopeSize (emptyLeaves sl) + elemOverhead in
  foldl (pack_leaf rl resBase sl scopeBytes) (begin_scope rl resBase sl scopeBytes st) (sg_leaves sl).

Definition splitBigResource (rl : ResourceGroup R S L) (maxBytes : Z) (o : list (payload R S L)) (r : Report) : list (payload R S L) * Report :=
  let resBase := ResourceSize (emptyScopes rl) + elemOverhead in
  let st := mkSplit (abandonUnless resBase (newBudget maxBytes r)) [] 0%nat o in
  let st := emit (foldl (pack_scope rl resBase) st (rg_scopes rl)) in
  (out st, rep (sb st)).

(** ** A payload

    The variables of [LogsWithReport]: the parts, the part being packed from
    whole resources and its estimate, the report.  [big] is the splitter of an
    over-large resource. *)
Record packing := mkPacking { parts : list (payload R S L); part : payload R S L; curBytes : Z; report : Report }.

Definition flush (p : packing) : packing :=
  match part p with [] => p | _ => mkPacking (parts p ++ [part p]) [] 0 (report p) end.

Definition pack_resource (big : ResourceGroup R S L -> Z -> list (payload R S L) -> Report -> list (payload R S L) * Report)
    (maxBytes : Z) (p : packing) (rl : ResourceGroup R S L) : packing :=
  let n := ResourceSize rl + elemOverhead in
  if n <=? maxBytes then
    let p := if (0 <? curBytes p) && (maxBytes <? curBytes p + n) then flush p else p in
    mkPacking (parts p) (part p ++ [rl]) (curBytes p + n) (report p)
  else
    let p := flush p in
    match rg_scopes rl with
    | [] => mkPacking (parts p ++ [[rl]]) (part p) (curBytes p)
              (if maxBytes <? PayloadSize [rl] then mkReport (Oversize (report p) + 1) (Abandoned (report p)) else report p)
    | _ => let '(o, r) := big rl maxBytes (parts p) (report p) in mkPacking o (part p) (curBytes p) r
    end.

Definition WithReport (big : ResourceGroup R S L -> Z -> list (payload R S L) -> Report -> list (payload R S L) * Report)
    (ld : payload R S L) (maxBytes : Z) : list (payload R S L) * Report :=
  if (maxBytes <=? 0) || (PayloadSize ld <=? maxBytes) then ([ld], noReport)
  else
    let p := flush (foldl (pack_resource big maxBytes) (mkPacking [] [] 0 noReport) ld) in
    match parts p, ld with
    | [], _ :: _ => ([ld], mkReport (Oversize (report p) + 1) (Abandoned (report p)))
    | o, _ => (o, report p)
    end.

(** Logs and traces: the same text at two message types in the source. *)
Definition splitBigResourceLogs : ResourceGroup R S L -> Z -> list (payload R S L) -> Report -> list (payload R S L) * Report := splitBigResource.
Definition splitBigResourceSpans : ResourceGroup R S L -> Z -> list (payload R S L) -> Report -> list (payload R S L) * Report := splitBigResource.
Definition LogsWithReport : payload R S L -> Z -> list (payload R S L) * Report := WithReport splitBigResourceLogs.
Definition Logs (ld : payload R S L) (maxBytes : Z) : list (payload R S L) := (LogsWithReport ld maxBytes).1.
Definition TracesWithReport : payload R S L -> Z -> list (payload R S L) * Report := WithReport splitBigResourceSpans.
Definition Traces (td : payload R S L) (maxBytes : Z) : list (payload R S L) := (TracesWithReport td maxBytes).1.

End Splitter.
Arguments split : clear implicits.
Arguments packing : clear implicits.

(** ** Metrics *)

Inductive MetricData (N H E Q : Type) :=
| Empty
| Gauge (dps : list N)
| Sum (monotonic : bool) (temporality : Z) (dps : list N)
| Histogram (temporality : Z) (dps : list H)
| ExponentialHistogram (temporality : Z) (dps : list E)
| Summary (dps : list Q).
Arguments Empty {N H E Q}. Arguments Gauge {N H E Q}. Arguments Sum {N H E Q}. Arguments Histogram {N H E Q}.
Arguments ExponentialHistogram {N H E Q}. Arguments Summary {N H E Q}.

(** A metric's metadata is a value of its own type [M]. *)
Record Metric (M N H E Q : Type) := mkMetric { m_name : bytes; m_description : bytes; m_unit : bytes; m_metadata : M; m_data : MetricData N H E Q }.
Arguments mkMetric {M N H E Q}. Arguments m_name {M N H E Q}. Arguments m_description {M N H E Q}. Arguments m_unit {M N H E Q}.
Arguments m_metadata {M N H E Q}. Arguments m_data {M N H E Q}.

(** A data point of any of the five types. *)
Inductive point (N H E Q : Type) := PNumber (p : N) | PHistogram (p : H) | PExponential (p : E) | PSummary (p : Q).
Arguments PNumber {N H E Q}. Arguments PHistogram {N H E Q}. Arguments PExponential {N H E Q}. Arguments PSummary {N H E Q}.

(** The sizes of data points: four more methods of the metric marshaler. *)
Class PointMarshaler (N H E Q : Type) := {
  NumberDataPointSize : N -> Z; HistogramDataPointSize : H -> Z; ExponentialHistogramDataPointSize : E -> Z; SummaryDataPointSize : Q -> Z }.

Section Metrics.
Context {R S M N H E Q : Type}.
Notation Metric := (Metric M N H E Q).
Notation point := (point N H E Q).
Context `{Marshaler R S Metric, PointMarshaler N H E Q}.

Definition with_data (d : MetricData N H E Q) (m : Metric) : Metric := mkMetric (m_name m) (m_description m) (m_unit m) (m_metadata m) d.

Definition DataPointCount (m : Metric) : Z :=
  match m_data m with
  | Gauge d | Sum _ _ d => Z.of_nat (length d)
  | Histogram _ d => Z.of_nat (length d)
  | ExponentialHistogram _ d => Z.of_nat (length d)
  | Summary d => Z.of_nat (length d)
  | Empty => 0
  end.

Definition copyMetricShell (m : Metric) : Metric :=
  with_data match m_data m with
    | Empty => Empty
    | Gauge _ => Gauge []
    | Sum mono t _ => Sum mono t []
    | Histogram t _ => Histogram t []
    | ExponentialHistogram t _ => ExponentialHistogram t []
    | Summary _ => Summary []
    end m.

(** [pointAccessors]: the points in order, the size of one, and the copy of one
    onto a metric of its type, which the shell always is. *)
Definition points (m : Metric) : list point :=
  match m_data m with
  | Gauge d | Sum _ _ d => PNumber <$> d
  | Histogram _ d => PHistogram <$> d
  | ExponentialHistogram _ d => PExponential <$> d
  | Summary d => PSummary <$> d
  | Empty => []
  end.

Definition sizeOf (p : point) : Z :=
  match p with
  | PNumber p => NumberDataPointSize p
  | PHistogram p => HistogramDataPointSize p
  | PExponential p => ExponentialHistogramDataPointSize p
  | PSummary p => SummaryDataPointSize p
  end.

Definition appendTo (p : point) (dst : Metric) : Metric :=
  with_data match m_data dst, p with
    | Gauge d, PNumber p => Gauge (d ++ [p])
    | Sum mono t d, PNumber p => Sum mono t (d ++ [p])
    | Histogram t d, PHistogram p => Histogram t (d ++ [p])
    | ExponentialHistogram t d, PExponential p => ExponentialHistogram t (d ++ [p])
    | Summary d, PSummary p => Summary (d ++ [p])
    | d, _ => d
    end dst.

(** ** One over-large metric

    The variables of [splitBigMetric]: its budget, the metric of the chunk being
    filled, and the parts; the chunk around the metric is [newChunk]'s. *)
Record points_split := mkPoints { pb : chunkBudget; nm : Metric; pout : list (payload R S Metric) }.

(** [newChunk] with the shell or what it has become. *)
Definition metric_chunk (rm : ResourceGroup R S Metric) (sm : ScopeGroup S Metric) (nm : Metric) : payload R S Metric :=
  [mkResource (rg_resource rm) [mkScope (sg_scope sm) [nm]]].

Definition emit_points (rm : ResourceGroup R S Metric) (sm : ScopeGroup S Metric) (st : points_split) : points_split :=
  let md := metric_chunk rm sm (nm st) in
  let '(ok, b) := close (PayloadSize md) (pb st) in
  mkPoints b (nm st) (if ok then pout st ++ [md] else pout st).

Definition open_points (shell : Metric) (metricBase : Z) (st : points_split) : points_split :=
  mkPoints (reopen metricBase (pb st)) shell (pout st).

Definition pack_point (rm : ResourceGroup R S Metric) (sm : ScopeGroup S Metric) (shell : Metric) (metricBase : Z)
    (st : points_split) (p : point) : points_split :=
  let n := sizeOf p + elemOverhead in
  let st := if cutBeforeItem metricBase n (pb st) then open_points shell metricBase (emit_points rm sm st) else st in
  mkPoints (add n (pb st)) (appendTo p (nm st)) (pout st).

Definition splitBigMetric (rm : ResourceGroup R S Metric) (sm : ScopeGroup S Metric) (m : Metric) (base maxBytes : Z) (r : Report)
    (o : list (payload R S Metric)) : list (payload R S Metric) * Report :=
  let shell := copyMetricShell m in
  let metricBase := base + LeafSize shell + elemOverhead in
  let b := abandonUnless metricBase (newBudget maxBytes r) in
  let st := open_points shell metricBase (mkPoints b shell o) in
  let st := foldl (pack_point rm sm shell metricBase) st (points m) in
  let st := if 0 <? held (pb st) then emit_points rm sm st else st in
  (pout st, rep (pb st)).

(** ** One over-large resource of metrics

    As for logs, with the number of scopes of the open chunk. *)
Notation msplit := (split R S Metric * Z)%type.

Definition m_open (rm : ResourceGroup R S Metric) (resBase : Z) (st : msplit) : msplit := (openChunk rm resBase st.1, 0).
Definition m_addScope (sm : ScopeGroup S Metric) (scopeBytes : Z) (st : msplit) : msplit := (addScope sm scopeBytes st.1, st.2 + 1).
Definition m_emit (st : msplit) : msplit := (emit st.1, st.2).

Definition pack_metric (rm : ResourceGroup R S Metric) (resBase : Z) (sm : ScopeGroup S Metric) (scopeBytes : Z) (st : msplit) (m : Metric) : msplit :=
  let base := resBase + scopeBytes in
  let st := if open (sb st.1) then st else m_addScope sm scopeBytes (m_open rm resBase st) in
  let n := LeafSize m + elemOverhead in
  let b := sb st.1 in
  if negb (giveUp b) && (max b <? base + n) && (1 <? DataPointCount m) then
    let st := if (0 <? held b) || (1 <? st.2) then m_emit st else (budget discard st.1, st.2) in
    let '(o, r) := splitBigMetric rm sm m base (max b) (rep (sb st.1)) (out st.1) in
    (mkSplit (with_rep r (sb st.1)) (chunk st.1) (recs st.1) o, st.2)
  else
    let st := if cutBeforeItem base n b then m_addScope sm scopeBytes (m_open rm resBase (m_emit st)) else st in
    (budget (add n) (appendLeaf m st.1), st.2).

Definition begin_metrics (rm : ResourceGroup R S Metric) (resBase : Z) (sm : ScopeGroup S Metric) (scopeBytes : Z) (st : msplit) : msplit :=
  let st := (budget (abandonUnless (resBase + scopeBytes)) st.1, st.2) in
  let st := if cutBeforeScope scopeBytes (sb st.1) then m_emit st else st in
  let st := if open (sb st.1) then st else m_open rm resBase st in
  m_addScope sm scopeBytes st.

Definition pack_metric_scope (rm : ResourceGroup R S Metric) (resBase : Z) (st : msplit) (sm : ScopeGroup S Metric) : msplit :=
  let scopeBytes := ScopeSize (emptyLeaves sm) + elemOverhead in
  foldl (pack_metric rm resBase sm scopeBytes) (begin_metrics rm resBase sm scopeBytes st) (sg_leaves sm).

Definition splitBigResourceMetrics (rm : ResourceGroup R S Metric) (maxBytes : Z) (o : list (payload R S Metric)) (r : Report) :
    list (payload R S Metric) * Report :=
  let resBase := ResourceSize (emptyScopes rm) + elemOverhead in
  let st := (mkSplit (abandonUnless resBase (newBudget maxBytes r)) [] 0%nat o, 0) in
  let st := m_emit (foldl (pack_metric_scope rm resBase) st (rg_scopes rm)) in
  (out st.1, rep (sb st.1)).

Definition MetricsWithReport : payload R S Metric -> Z -> list (payload R S Metric) * Report := WithReport splitBigResourceMetrics.
Definition Metrics (md : payload R S Metric) (maxBytes : Z) : list (payload R S Metric) := (MetricsWithReport md maxBytes).1.

End Metrics.
