(* ===== verification/OtlpSplitInv.v ===== *)
(** * Splitting payloads: what a chunk holds, and what every step keeps

    The estimate of a payload bounds its encoded size; the items of a payload are
    its leaves, each under its resource and scope, and its marks the resources
    and scopes themselves.  [inv] is the invariant of a splitter between two of
    its steps; the last of its clauses is the account behind the bound on what a
    split costs. *)

From S2P Require Import Prelude Clip OtlpSplit.
Local Open Scope Z_scope.

(** What is relied on of the marshaler: an element adds to the message it is in
    its own size and at most [elemOverhead] bytes of framing. *)
Class MarshalerLaws (R S L : Type) `{Marshaler R S L} : Prop := {
  payload_size td : PayloadSize td <= sumZ ((fun r => ResourceSize r + elemOverhead) <$> td);
  resource_size r : ResourceSize r <= ResourceSize (emptyScopes r) + sumZ ((fun s => ScopeSize s + elemOverhead) <$> rg_scopes r);
  scope_size s : ScopeSize s <= ScopeSize (emptyLeaves s) + sumZ ((fun l => LeafSize l + elemOverhead) <$> sg_leaves s);
  resource_size_nonneg r : 0 <= ResourceSize r;
  scope_size_nonneg s : 0 <= ScopeSize s;
  leaf_size_nonneg l : 0 <= LeafSize l }.

Section Sizes.
Context {R S L : Type} `{MarshalerLaws R S L}.

Definition leaf_cost (l : L) : Z := LeafSize l + elemOverhead.
Definition scope_cost (s : ScopeGroup S L) : Z := ScopeSize (emptyLeaves s) + elemOverhead.
Definition resource_cost (r : ResourceGroup R S L) : Z := ResourceSize (emptyScopes r) + elemOverhead.
Definition scope_est (s : ScopeGroup S L) : Z := scope_cost s + sumZ (leaf_cost <$> sg_leaves s).
Definition resource_est (r : ResourceGroup R S L) : Z := resource_cost r + sumZ (scope_est <$> rg_scopes r).
Definition est (td : payload R S L) : Z := sumZ (resource_est <$> td).

Lemma leaf_cost_pos l : 0 < leaf_cost l.
Proof. unfold leaf_cost, elemOverhead. pose proof (leaf_size_nonneg l). lia. Qed.

Lemma scope_cost_pos s : 0 < scope_cost s.
Proof. unfold scope_cost, elemOverhead. pose proof (scope_size_nonneg (emptyLeaves s)). lia. Qed.

Lemma resource_cost_pos r : 0 < resource_cost r.
Proof. unfold resource_cost, elemOverhead. pose proof (resource_size_nonneg (emptyScopes r)). lia. Qed.

Lemma leaves_cost_nonneg (l : list L) : 0 <= sumZ (leaf_cost <$> l).
Proof. apply sumZ_nonneg. intros x. pose proof (leaf_cost_pos x). lia. Qed.

Lemma scope_est_pos s : 0 < scope_est s.
Proof. unfold scope_est. pose proof (scope_cost_pos s). pose proof (leaves_cost_nonneg (sg_leaves s)). lia. Qed.

Lemma scopes_est_nonneg (l : list (ScopeGroup S L)) : 0 <= sumZ (scope_est <$> l).
Proof. apply sumZ_nonneg. intros x. pose proof (scope_est_pos x). lia. Qed.

Lemma resource_size_est r : ResourceSize r + elemOverhead <= resource_est r.
Proof.
  pose proof (resource_size r). unfold resource_est, resource_cost.
  enough (sumZ ((fun s => ScopeSize s + elemOverhead) <$> rg_scopes r) <= sumZ (scope_est <$> rg_scopes r)) by lia.
  apply sumZ_le. intros s. pose proof (scope_size s). unfold scope_est, scope_cost.
  change (sumZ (leaf_cost <$> sg_leaves s)) with (sumZ ((fun l => LeafSize l + elemOverhead) <$> sg_leaves s)). lia.
Qed.

Lemma size_est td : PayloadSize td <= est td.
Proof. etrans; [apply payload_size|]. apply sumZ_le, resource_size_est. Qed.

Lemma resource_est_pos r : 0 < resource_est r.
Proof. pose proof (resource_size_est r). pose proof (resource_size_nonneg r). unfold elemOverhead in *. lia. Qed.

(** ** What a payload holds *)

Context {X : Type} (contents : L -> list X).

Definition scope_items (r : R) (s : ScopeGroup S L) : list (R * S * X) := (fun x => (r, sg_scope s, x)) <$> (sg_leaves s ≫= contents).
Definition resource_items (r : ResourceGroup R S L) : list (R * S * X) := rg_scopes r ≫= scope_items (rg_resource r).
Definition items (td : payload R S L) : list (R * S * X) := td ≫= resource_items.

Definition resource_marks (r : ResourceGroup R S L) : list (R * option S) :=
  (rg_resource r, None) :: ((fun s => (rg_resource r, Some (sg_scope s))) <$> rg_scopes r).
Definition marks (td : payload R S L) : list (R * option S) := td ≫= resource_marks.

(** The chunk being filled: one resource, the scopes before the last, the last. *)
Definition chunk_of (r : R) (scs : list (ScopeGroup S L)) (s : S) (ls : list L) : payload R S L :=
  [mkResource r (scs ++ [mkScope s ls])].

Definition leaf_count (scs : list (ScopeGroup S L)) (ls : list L) : Z := Z.of_nat (length (scs ≫= sg_leaves)) + Z.of_nat (length ls).

Lemma items_single r scs : items [mkResource r scs] = scs ≫= scope_items r.
Proof. unfold items. cbn. by rewrite app_nil_r. Qed.

Lemma items_chunk_leaf r scs s ls l :
  items (chunk_of r scs s (ls ++ [l])) = items (chunk_of r scs s ls) ++ ((fun x => (r, s, x)) <$> contents l).
Proof.
  unfold chunk_of. rewrite !items_single, !bind_app, <- app_assoc. f_equal. cbn. rewrite !app_nil_r. unfold scope_items. cbn.
  by rewrite bind_app, fmap_app, bind_singleton.
Qed.

Lemma items_chunk_scope r scs s : items (chunk_of r scs s []) = scs ≫= scope_items r.
Proof. unfold chunk_of. rewrite items_single, bind_app. cbn. by rewrite !app_nil_r. Qed.

Lemma est_chunk r scs s ls :
  est (chunk_of r scs s ls) = resource_cost (mkResource r []) + sumZ (scope_est <$> scs) + scope_est (mkScope s ls).
Proof.
  unfold est, chunk_of, resource_est. cbn [fmap list_fmap rg_scopes]. rewrite fmap_app, sumZ_app. cbn [fmap list_fmap].
  change (resource_cost (mkResource r (scs ++ [mkScope s ls]))) with (resource_cost (mkResource (S := S) (L := L) r [])). unfold sumZ at 1 3. cbn [foldr]. lia.
Qed.

Lemma scope_est_snoc s ls l : scope_est (mkScope s (ls ++ [l])) = scope_est (mkScope s ls) + leaf_cost l.
Proof.
  unfold scope_est. cbn [sg_leaves]. rewrite fmap_app, sumZ_app. change (sumZ (leaf_cost <$> [l])) with (leaf_cost l + 0).
  change (scope_cost (mkScope s (ls ++ [l]))) with (scope_cost (mkScope s ls)). lia.
Qed.

Lemma scope_est_nil s : scope_est (mkScope s []) = scope_cost (mkScope s []).
Proof. unfold scope_est, sumZ. cbn. lia. Qed.

Lemma marks_chunk r scs s ls ls' : marks (chunk_of r scs s ls) = marks (chunk_of r scs s ls').
Proof. unfold marks, chunk_of, resource_marks. cbn. by rewrite !fmap_app. Qed.

Lemma marks_chunk_scope r scs s ls g :
  g ∈ marks (chunk_of r scs s ls) <-> g = (r, None) \/ (exists t, t ∈ scs /\ g = (r, Some (sg_scope t))) \/ g = (r, Some s).
Proof.
  unfold marks, chunk_of, resource_marks. cbn. rewrite app_nil_r, fmap_app, elem_of_cons, elem_of_app, list_elem_of_fmap. cbn.
  rewrite list_elem_of_singleton. naive_solver.
Qed.

End Sizes.

(** ** The invariant of one over-large resource *)
Section Steps.
Context {R S L : Type} `{MarshalerLaws R S L} {X : Type} (contents : L -> list X).
Notation items := (items contents).

(** The cap, what a part over it may be, the leaves nothing can cut, and whether
    some framing of the resource leaves too little room. *)
Context (rl : ResourceGroup R S L) (M : Z) (okp : payload R S L -> Prop) (hopeless : Prop) (small : L -> Prop).
Notation me := (rg_resource rl).
Notation resBase := (resource_cost rl).

Definition single (p : payload R S L) : Prop := exists s l, p = [mkResource me [mkScope s [l]]] /\ small l.

Context (ok_fits : forall p, PayloadSize p <= M -> okp p) (ok_single : forall p, single p -> okp p)
  (ok_lost : hopeless -> forall scs, okp [mkResource me scs]).

(** The report counts the parts over the cap. *)
Definition counted (o : list (payload R S L)) (r : Report) : Prop :=
  Z.of_nat (length (filter (fun p => M < PayloadSize p) o)) = Oversize r + Abandoned r.

Definition in_progress {Y} (f : payload R S L -> list Y) (st : split R S L) : list Y :=
  (out st ≫= f) ++ (if open (sb st) then f (chunk st) else []).

Record shape (D : list (R * S * X)) (G : R * option S -> Prop) (st : split R S L) : Prop := mkShape {
  s_max : max (sb st) = M;
  s_chunk : open (sb st) = true -> exists scs s ls, chunk st = chunk_of me scs s ls /\ recs st = length scs /\
    held (sb st) = leaf_count scs ls /\ cur (sb st) = est (chunk st);
  s_items : in_progress items st = D;
  s_marks : forall g, g ∈ in_progress marks st <-> G g;
  s_rep : counted (out st) (rep (sb st));
  s_fit : open (sb st) = true -> giveUp (sb st) = true \/ cur (sb st) <= M \/ single (chunk st);
  s_parts : Forall okp (out st);
  s_give : giveUp (sb st) = true -> hopeless }.

(** The open chunk ends with the scope [s]. *)
Definition at_scope (s : S) (st : split R S L) : Prop := open (sb st) = true /\ exists scs ls, chunk st = chunk_of me scs s ls.

Lemma counted_snoc o p r abandoned : counted o r ->
  counted (o ++ [p]) (if M <? PayloadSize p then countOver r abandoned else r).
Proof.
  unfold counted, countOver. intros E. rewrite filter_app, length_app, filter_cons, filter_nil.
  destruct (Z.ltb_spec M (PayloadSize p)); [rewrite decide_True by done|rewrite decide_False by lia]; cbn; [destruct abandoned; cbn|]; lia.
Qed.

Lemma shape_abandon D G framing st : shape D G st -> (splitPaysOff framing M = false -> hopeless) ->
  shape D G (budget (abandonUnless framing) st).
Proof.
  intros [A1 A2 A3 A4 A5 A6 A7 A8] Hl. unfold budget, abandonUnless. rewrite A1.
  destruct (splitPaysOff framing M); cbn [negb]; [by split|].
  split; cbn; auto.
Qed.

Lemma shape_emit D G st : shape D G st -> shape D G (emit st) /\ open (sb (emit st)) = false /\ giveUp (sb (emit st)) = giveUp (sb st).
Proof.
  intros [A1 A2 A3 A4 A5 A6 A7 A8]. unfold emit, close. destruct (open (sb st)) eqn:Op; cbn [negb].
  2: { split; [|done]. split; cbn; try done; unfold in_progress in *; rewrite Op in *; done. }
  split; [|done]. destruct (A2 eq_refl) as (scs & s & ls & Ec & _ & _ & Cur). unfold in_progress in *. rewrite Op in A3, A4.
  assert (Sz : PayloadSize (chunk st) <= cur (sb st)) by (rewrite Cur; apply size_est). split; cbn; try done.
  - rewrite bind_app. cbn. by rewrite !app_nil_r.
  - intros g. rewrite bind_app. cbn. rewrite !app_nil_r. apply A4.
  - rewrite A1. pose proof (counted_snoc _ (chunk st) _ (giveUp (sb st)) A5) as Cs.
    destruct (Z.ltb_spec M (cur (sb st))); cbn [andb]; [done|]. destruct (Z.ltb_spec M (PayloadSize (chunk st))); [lia|done].
  - apply Forall_app_2; [done|]. apply Forall_singleton. destruct (A6 eq_refl) as [Gu|[?|Hs]].
    + rewrite Ec. apply ok_lost, A8, Gu.
    + apply ok_fits. lia.
    + by apply ok_single.
Qed.

Lemma est_scope_snoc scs s ls t : est (chunk_of me (scs ++ [mkScope s ls]) t []) = est (chunk_of me scs s ls) + scope_cost (mkScope t []).
Proof. rewrite !est_chunk, fmap_app, sumZ_app, scope_est_nil. cbn [fmap list_fmap]. change (sumZ [?x]) with (x + 0). lia. Qed.

Lemma leaf_count_scope (scs : list (ScopeGroup S L)) s ls : leaf_count (scs ++ [mkScope s ls]) [] = leaf_count scs ls.
Proof. unfold leaf_count. rewrite bind_app, length_app. cbn. rewrite app_nil_r. lia. Qed.

(** A scope is begun, in the open chunk or in a new one. *)
Lemma shape_scope D G sl st : shape D G st ->
  let st' := addScope sl (scope_cost sl) (if open (sb st) then st else openChunk rl resBase st) in
  giveUp (sb st) = true \/ (if open (sb st) then cur (sb st) else resBase) + scope_cost sl <= M ->
  shape D (fun g => G g \/ g = (me, None) \/ g = (me, Some (sg_scope sl))) st' /\ at_scope (sg_scope sl) st' /\
  (open (sb st) = false -> chunk st' = chunk_of me [] (sg_scope sl) []).
Proof.
  clear ok_fits ok_single ok_lost.
  intros [A1 A2 A3 A4 A5 A6 A7 A8] st' Fit. subst st'. unfold in_progress in *. destruct (open (sb st)) eqn:Op.
  - destruct (A2 eq_refl) as (scs & s & ls & Ec & Er & Eh & Cur).
    assert (Ch : chunk (addScope sl (scope_cost sl) st) = chunk_of me (scs ++ [mkScope s ls]) (sg_scope sl) []).
    { cbn. rewrite Ec. unfold chunk_of. cbn. done. }
    split; [|split; [split; [done|]; by eexists _, _|done]]. split; unfold in_progress.
    + done.
    + intros _. eexists (scs ++ [mkScope s ls]), (sg_scope sl), []. split_and!; [done| | |].
      * cbn. by rewrite Ec.
      * cbn. by rewrite leaf_count_scope.
      * rewrite Ch, est_scope_snoc. cbn. rewrite Cur, Ec. done.
    + cbn [out addScope]. replace (open (sb (addScope sl (scope_cost sl) st))) with true by done. rewrite Ch, items_chunk_scope, <- A3, Ec.
      unfold chunk_of. rewrite items_single. done.
    + intros g. cbn [out addScope]. replace (open (sb (addScope sl (scope_cost sl) st))) with true by done.
      rewrite Ch, <- A4, Ec, !elem_of_app, !marks_chunk_scope. setoid_rewrite elem_of_app. setoid_rewrite list_elem_of_singleton.
      split.
      * intros [?|[?|[(t & [?| ->] & ?)|?]]]; eauto 8.
      * intros [[?|[?|[(t & ? & ?)|?]]]|[?|?]]; eauto 8.
    + done.
    + cbn. intros _. destruct Fit; [by left|right; left; lia].
    + done.
    + done.
  - split; [|split; [split; [done|]; by eexists [], []|done]]. split; unfold in_progress; cbn.
    + done.
    + intros _. eexists [], (sg_scope sl), []. split_and!; try done.
      change (resBase + scope_cost sl = est (chunk_of me [] (sg_scope sl) [])). rewrite est_chunk, scope_est_nil.
      change (resource_cost (mkResource me [])) with resBase. change (scope_cost (mkScope (sg_scope sl) [])) with (scope_cost sl).
      change (sumZ (scope_est <$> [])) with 0. lia.
    + by rewrite app_nil_r in *.
    + intros g. rewrite <- A4, app_nil_r. unfold marks at 2. cbn. rewrite elem_of_app, !elem_of_cons, elem_of_nil. naive_solver.
    + done.
    + intros _. destruct Fit; [by left|right; left; lia].
    + done.
    + done.
Qed.

(** A leaf is put into the open chunk. *)
Lemma shape_leaf D G s l st : shape D G st -> at_scope s st ->
  giveUp (sb st) = true \/ cur (sb st) + leaf_cost l <= M \/ (chunk st = chunk_of me [] s [] /\ small l) ->
  let st' := budget (add (leaf_cost l)) (appendLeaf l st) in
  shape (D ++ ((fun x => (me, s, x)) <$> contents l)) G st' /\ at_scope s st' /\ (0 < held (sb st')).
Proof.
  intros [A1 A2 A3 A4 A5 A6 A7 A8] (Op & scs0 & ls0 & Ec0) Fit st'. unfold in_progress in *. rewrite Op in *.
  destruct (A2 eq_refl) as (scs & s' & ls & Ec & Er & Eh & Cur).
  assert (E : scs = scs0 /\ s' = s /\ ls = ls0).
  { rewrite Ec in Ec0. unfold chunk_of in Ec0. injection Ec0 as E. by apply app_inj_tail in E as [-> [= -> ->]]. }
  destruct E as (-> & -> & ->). rename scs0 into scs, ls0 into ls.
  assert (Ch : chunk st' = chunk_of me scs s (ls ++ [l])).
  { cbn. rewrite Ec, Er. unfold chunk_of. cbn. by rewrite alter_last. }
  split; [|split; [split; [done|]; by eexists _, _|cbn; rewrite Eh; unfold leaf_count; lia]]. split; unfold in_progress.
  - done.
  - intros _. exists scs, s, (ls ++ [l]). split_and!; [done|done| |].
    + cbn. rewrite Eh. unfold leaf_count. rewrite length_app. cbn. lia.
    + rewrite Ch, est_chunk, scope_est_snoc. cbn. rewrite Cur, Ec, est_chunk. lia.
  - replace (open (sb st')) with true by done. rewrite Ch, items_chunk_leaf, app_assoc, <- A3, Ec. done.
  - intros g. replace (open (sb st')) with true by done. rewrite Ch, (marks_chunk _ _ _ _ ls), <- Ec. apply A4.
  - done.
  - intros _. destruct Fit as [?|[?|[E Sm]]]; [by left|right; left; cbn; lia|right; right].
    exists s, l. split; [|done]. rewrite Ch. rewrite Ec in E. injection E as E.
    apply (app_inj_tail _ []) in E as [-> [= ->]]. done.
  - done.
  - done.
Qed.

Lemma shape_ext D G G' st : (forall g, G g <-> G' g) -> shape D G st -> shape D G' st.
Proof. intros E [A1 A2 A3 A4 A5 A6 A7 A8]. split; auto. intros g. by rewrite A4, E. Qed.

(** The scope at the end of the open chunk is among the marks already. *)
Lemma shape_again D G s st : shape D G st -> at_scope s st -> forall g, (G g \/ g = (me, None) \/ g = (me, Some s)) <-> G g.
Proof.
  intros I (Op & scs & ls & Ec) g. rewrite <- !(s_marks _ _ _ I). unfold in_progress. rewrite Op, Ec, !elem_of_app, !marks_chunk_scope.
  split; [|tauto]. intros [?|[->| ->]]; auto.
Qed.

(** A chunk with nothing beyond its scope's identity. *)
Lemma fresh_chunk D G s st : shape D G st -> at_scope s st -> held (sb st) <= 0 -> cur (sb st) <= resBase + scope_cost (mkScope (L := L) s []) ->
  chunk st = chunk_of me [] s [] /\ cur (sb st) = resBase + scope_cost (mkScope (L := L) s []).
Proof.
  intros I (Op & scs0 & ls0 & Ec0) Hh Hc. destruct (s_chunk _ _ _ I Op) as (scs & s' & ls & Ec & _ & Eh & Cur).
  rewrite Ec in Ec0. unfold chunk_of in Ec0. injection Ec0 as E. apply app_inj_tail in E as [-> [= -> ->]].
  rewrite Eh in Hh. unfold leaf_count in Hh. assert (ls0 = []) as -> by (destruct ls0; [done|cbn in *; lia]).
  rewrite Cur, Ec, est_chunk, scope_est_nil in *. change (resource_cost (mkResource me [])) with resBase in *.
  destruct scs0 as [|t scs0]; [split; [done|]; change (sumZ (scope_est <$> [])) with 0; lia|exfalso].
  change (sumZ (scope_est <$> t :: scs0)) with (scope_est t + sumZ (scope_est <$> scs0)) in Hc.
  pose proof (scope_est_pos t). pose proof (scopes_est_nonneg scs0). lia.
Qed.

(** ** What a split costs

    [room] is what a chunk's copied framing leaves free at least.  [C] is the
    estimate of what has been packed, [W] the part of it in metrics cut between
    points.  Of the [n] chunks opened again the framing is charged to what was
    packed: a cut leaves [room] more behind it and ahead of it together than is
    free, and [F] adds up what was ahead. *)
Notation room := (M `quot` minChunkRoomDiv).
Definition spent (o : list (payload R S L)) : Z := sumZ (PayloadSize <$> o).

Definition account (T C W : Z) (st : split R S L) : Prop := exists n F x slack,
  0 <= n /\ 0 <= F <= C - W /\ 0 <= x <= C - W /\ 0 <= W /\
  n * (room + 1) <= (C - W - x) + F + 4 * W /\
  spent (out st) + (if open (sb st) then cur (sb st) else slack) <= T + C + resBase + n * (3 * room + 3) /\
  (open (sb st) = true -> giveUp (sb st) = false -> room <= M - (cur (sb st) - x)) /\
  (open (sb st) = false -> x = 0 /\ resBase <= slack /\ (0 < C -> 3 * room + 3 <= slack)).

Lemma spent_snoc o p : spent (o ++ [p]) = spent o + PayloadSize p.
Proof. unfold spent. rewrite fmap_app, sumZ_app. change (sumZ (PayloadSize <$> [p])) with (PayloadSize p + 0). lia. Qed.

Lemma emit_spent D G st : shape D G st -> open (sb st) = true -> spent (out (emit st)) <= spent (out st) + cur (sb st).
Proof.
  intros I Op. destruct (s_chunk _ _ _ I Op) as (scs & s & ls & _ & _ & _ & Cur). 
  assert (out (emit st) = out st ++ [chunk st]) as -> by (unfold emit, close; by rewrite Op).
  rewrite spent_snoc, Cur. pose proof (size_est (chunk st)). lia.
Qed.

Lemma pays framing : splitPaysOff framing M = true <-> framing <= M - room.
Proof. unfold splitPaysOff. rewrite Z.leb_le. lia. Qed.

Context (M_pos : 0 < M).

Lemma room_M : 4 * room <= M <= 4 * room + 3.
Proof. unfold minChunkRoomDiv. rewrite Z.quot_div_nonneg by lia. pose proof (Z.div_mod M 4). pose proof (Z.mod_pos_bound M 4). lia. Qed.

(** ** The steps of the splitters *)

(** [b] costs no more framing than a chunk may have. *)
Definition affordable (sl : ScopeGroup S L) (st : split R S L) : Prop := giveUp (sb st) = false -> resBase + scope_cost sl <= M - room.

Lemma affordable_room sl st : affordable sl st -> giveUp (sb st) = false ->
  0 < resBase /\ 0 < scope_cost sl /\ resBase + scope_cost sl <= M - room /\ resBase + scope_cost sl <= 3 * room + 3 /\ 0 <= room.
Proof. intros Af Gu. specialize (Af Gu). pose proof (resource_cost_pos rl). pose proof (scope_cost_pos sl). pose proof room_M. lia. Qed.

(** A chunk is opened again after a cut, with the scope being packed. *)
Lemma reopen_spec D G T C W st sl : shape D G st -> account T C W st -> at_scope (sg_scope sl) st -> affordable sl st ->
  giveUp (sb st) = false -> forall n, M < cur (sb st) + n -> 0 <= n ->
  let st' := addScope sl (scope_cost sl) (openChunk rl resBase (emit st)) in
  shape D G st' /\ at_scope (sg_scope sl) st' /\ chunk st' = chunk_of me [] (sg_scope sl) [] /\ giveUp (sb st') = false /\
  cur (sb st') = resBase + scope_cost sl /\
  exists k F, 0 <= k /\ 0 <= F /\ F + n <= C - W + n /\ 0 <= W /\ k * (room + 1) <= (C - W) + F + n + 4 * W /\
    spent (out st') + cur (sb st') <= T + C + resBase + k * (3 * room + 3).
Proof.
  intros I (k & F & x & sk & K0 & F0 & X0 & W0 & A1 & A2 & A3 & A4) At Af Gu n Cut Hn st'.
  destruct (affordable_room _ _ Af Gu) as (B0 & B1 & B2 & B3 & B4).
  destruct (shape_emit _ _ _ I) as (I' & Op' & Gu'). destruct At as (Op & At).
  pose proof (emit_spent _ _ _ I Op) as Sp. rewrite Op in A2. specialize (A3 Op Gu).
  pose proof (shape_scope D G sl (emit st) I') as Sc. cbv zeta in Sc. rewrite Op' in Sc.
  destruct Sc as (I2 & At2 & Ch2); [right; lia|]. split; [|split; [done|split; [by apply Ch2|split; [by cbn; rewrite Gu'|split; [done|]]]]].
  - eapply shape_ext; [|exact I2]. apply (shape_again D G (sg_scope sl) st I). by split.
  - exists (k + 1), F. split_and!; try lia. change (out st') with (out (emit st)). change (cur (sb st')) with (resBase + scope_cost sl). lia.
Qed.

Lemma begin_scope_spec D G T C W st sl : shape D G st -> account T C W st -> 0 <= C ->
  (splitPaysOff (resBase + scope_cost sl) M = false -> hopeless) ->
  let st' := begin_scope rl resBase sl (scope_cost sl) st in
  shape D (fun g => G g \/ g = (me, None) \/ g = (me, Some (sg_scope sl))) st' /\ account T (C + scope_cost sl) W st' /\
  at_scope (sg_scope sl) st' /\ affordable sl st'.
Proof.
  intros I A C0 Hl. unfold begin_scope. cbv zeta. set (st1 := budget _ st).
  assert (I1 : shape D G st1) by (by apply shape_abandon).
  assert (Mono : giveUp (sb st1) = false -> giveUp (sb st) = false /\ resBase + scope_cost sl <= M - room).
  { unfold st1, budget, abandonUnless. rewrite (s_max _ _ _ I). destruct (splitPaysOff _ M) eqn:Pay; [|done]. by apply pays in Pay. }
  assert (Same : open (sb st1) = open (sb st) /\ cur (sb st1) = cur (sb st) /\ out st1 = out st).
  { unfold st1, budget, abandonUnless. by destruct (negb _). }
  destruct Same as (So & Scu & Sout).
  assert (A1 : account T C W st1).
  { destruct A as (k & F & x & sk & ? & ? & ? & ? & ? & ? & ? & ?). exists k, F, x, sk. rewrite So, Scu, Sout. do 6 (split; [done|]). split; [|done].
    intros Op Gu. apply Mono in Gu as [Gu _]. auto. }
  clearbody st1. clear A I Scu Sout So. pose proof (scope_cost_pos sl) as Pc. pose proof (resource_cost_pos rl) as Pr. pose proof room_M as RM.
  unfold cutBeforeScope. rewrite (s_max _ _ _ I1).
  destruct A1 as (k & F & x & sk & K0 & F0 & X0 & W0 & A1 & A2 & A3 & A4).
  destruct (open (sb st1)) eqn:Op; cbn [andb].
  - destruct (negb (giveUp (sb st1)) && (M <? cur (sb st1) + scope_cost sl)) eqn:Cut.
    + apply andb_true_iff in Cut as [Gu Cut]. apply negb_true_iff in Gu. apply Z.ltb_lt in Cut. specialize (A3 eq_refl Gu). destruct (Mono Gu) as [_ B2].
      destruct (shape_emit _ _ _ I1) as (I' & Op' & Gu'). pose proof (emit_spent _ _ _ I1 Op) as Sp. rewrite Op'.
      pose proof (shape_scope D G sl (emit st1) I') as Sc. cbv zeta in Sc. rewrite Op' in Sc. destruct Sc as (I2 & At2 & _); [right; lia|].
      split; [done|]. split; [|split; [done|]; intros _; lia].
      exists (k + 1), (F + scope_cost sl), (scope_cost sl), 0.
      change (out (addScope sl (scope_cost sl) (openChunk rl resBase (emit st1)))) with (out (emit st1)). cbn [sb addScope openChunk grow reopen open cur giveUp].
      split_and!; try lia; done.
    + rewrite Op. pose proof (shape_scope D G sl st1 I1) as Sc. cbv zeta in Sc. rewrite Op in Sc. destruct Sc as (I2 & At2 & _).
      { destruct (giveUp (sb st1)); [by left|]. right. cbn in Cut. apply Z.ltb_ge in Cut. lia. }
      split; [done|]. split; [|split; [done|]; intros Gu; by apply Mono].
      exists k, F, (x + scope_cost sl), 0. cbn [sb addScope grow open cur giveUp out]. rewrite Op. split_and!; try lia. intros _ Gu. specialize (A3 eq_refl Gu). lia.
  - destruct (A4 eq_refl) as (-> & A5 & _). rewrite Op.
    pose proof (shape_scope D G sl st1 I1) as Sc. cbv zeta in Sc. rewrite Op in Sc. destruct Sc as (I2 & At2 & _).
    { destruct (giveUp (sb st1)) eqn:Gu; [by left|right]. destruct (Mono eq_refl). lia. }
    split; [done|]. split; [|split; [done|]; intros Gu; by apply Mono].
    exists k, F, (scope_cost sl), 0. cbn [sb addScope openChunk grow reopen open cur giveUp out]. split_and!; try lia.
    intros _ Gu. destruct (Mono Gu). lia.
Qed.

Lemma pack_leaf_spec D G T C W st sl l : shape D G st -> account T C W st -> at_scope (sg_scope sl) st -> affordable sl st ->
  giveUp (sb st) = true \/ resBase + scope_cost sl + leaf_cost l <= M \/ small l ->
  let st' := pack_leaf rl resBase sl (scope_cost sl) st l in
  shape (D ++ ((fun x => (me, sg_scope sl, x)) <$> contents l)) G st' /\ account T (C + leaf_cost l) W st' /\ at_scope (sg_scope sl) st' /\ affordable sl st'.
Proof.
  intros I A At Af Sm. unfold pack_leaf. cbv zeta. change (LeafSize l + elemOverhead) with (leaf_cost l). pose proof (leaf_cost_pos l) as Pl.
  unfold cutBeforeItem. rewrite (s_max _ _ _ I).
  destruct (negb (giveUp (sb st)) && _ && _) eqn:Cut.
  - apply andb_true_iff in Cut as [Cut Ov]. apply andb_true_iff in Cut as [Gu _]. apply negb_true_iff in Gu. apply Z.ltb_lt in Ov.
    destruct (reopen_spec _ _ _ _ _ _ _ I A At Af Gu _ Ov ltac:(lia)) as (I1 & At1 & Ch1 & Gu1 & Cu1 & k & F & K0 & F0 & F1 & W0 & A1 & A2).
    set (st1 := addScope _ _ _) in *. clearbody st1.
    destruct (affordable_room _ _ Af Gu) as (B0 & B1 & B2 & B3 & B4).
    destruct (shape_leaf D G (sg_scope sl) l st1 I1 At1) as (I2 & At2 & _).
    { right. destruct Sm as [E|[?|?]]; [congruence|left; lia|by right]. }
    split; [done|]. split; [|split; [done|intros _; lia]]. exists k, (F + leaf_cost l), (leaf_cost l), 0.
    destruct At1 as [Op1 _]. cbn [sb budget add appendLeaf open cur giveUp out]. rewrite Op1. split_and!; try lia; done.
  - destruct (shape_leaf D G (sg_scope sl) l st I At) as (I2 & At2 & _).
    { destruct (giveUp (sb st)) eqn:Gu; [by left|right]. cbn [negb andb] in Cut. destruct (Z.ltb_spec M (cur (sb st) + leaf_cost l)) as [Ov|]; [|left; lia].
      rewrite andb_true_r in Cut. apply orb_false_iff in Cut as [C1 C2]. apply Z.ltb_ge in C1, C2.
      destruct (fresh_chunk D G (sg_scope sl) st I At C1) as [Ch Cu]; [done|].
      change (scope_cost (mkScope (sg_scope sl) [])) with (scope_cost sl) in Cu. destruct Sm as [?|[?|?]]; [done|left; lia|by right]. }
    split; [done|]. split; [|split; [done|exact Af]]. destruct A as (k & F & x & sk & K0 & F0 & X0 & W0 & A1 & A2 & A3 & A4).
    destruct At as [Op _]. rewrite Op in A2. exists k, F, (x + leaf_cost l), 0. cbn [sb budget add appendLeaf open cur giveUp out]. rewrite Op.
    split_and!; try lia. intros _ Gu. specialize (A3 Op Gu). lia.
Qed.

(** Before the first scope, and after the last. *)
Lemma start_spec o r G : counted o r -> Forall okp o -> (forall g, g ∈ (o ≫= marks) <-> G g) ->
  (splitPaysOff resBase M = false -> hopeless) ->
  let st := mkSplit (abandonUnless resBase (newBudget M r)) [] 0%nat o in
  shape (o ≫= items) G st /\ account (spent o) 0 0 st /\ open (sb st) = false.
Proof.
  intros Co Ok Gm Hl st. assert (Op : open (sb st) = false) by (unfold st, abandonUnless; by destruct (negb _)).
  split; [|split; [|done]].
  - assert (Im : shape (o ≫= items) G (mkSplit (newBudget M r) [] 0%nat o)).
    { split; unfold in_progress; cbn; rewrite ?app_nil_r; try done. }
    exact (shape_abandon _ _ _ _ Im Hl).
  - exists 0, 0, 0, resBase. rewrite Op. cbn [out st]. split_and!; try lia; done.
Qed.

Lemma account_emit D G T C W st : shape D G st -> account T C W st -> spent (out (emit st)) <= T + resBase + C + 6 * (C + W) /\ W <= C.
Proof.
  intros I (k & F & x & sk & K0 & F0 & X0 & W0 & A1 & A2 & _ & A4). pose proof room_M. pose proof (resource_cost_pos rl).
  assert (k * (3 * room + 3) <= 6 * (C + W)) by lia.
  destruct (open (sb st)) eqn:Op.
  - pose proof (emit_spent _ _ _ I Op). lia.
  - assert (out (emit st) = out st) as -> by (unfold emit, close; by rewrite Op). destruct (A4 eq_refl) as (_ & ? & _). lia.
Qed.

End Steps.

(** * Splitting payloads: a whole payload

    The two splitters that cut a resource keep the contract [big_ok], and a
    payload split with a splitter that keeps it is what [split_ok] says: the same
    items in the same order, the same resources and scopes, a report that counts
    the parts over the cap, and a bounded cost. *)


Section Contract.
Context {R S L : Type} `{MarshalerLaws R S L} {X : Type} (contents : L -> list X).
Notation items := (items contents).

(** A part over the cap: what it can be, in a resource [rl] of the payload. *)
Definition unshrinkable (hopeless : Z -> ResourceGroup R S L -> Prop) (small : L -> Prop) (M : Z) (rl : ResourceGroup R S L) (p : payload R S L) : Prop :=
  (rg_scopes rl = [] /\ p = [rl]) \/ single rl small p \/ (hopeless M rl /\ exists scs, p = [mkResource (rg_resource rl) scs]).

(** Whether some scope's framing leaves a chunk too little room. *)
Definition framing_over (M : Z) (rl : ResourceGroup R S L) : Prop :=
  exists s, s ∈ rg_scopes rl /\ splitPaysOff (resource_cost rl + scope_cost s) M = false.

(** The contract of a splitter of over-large resources: [cost] is the estimate of
    a resource it answers for, [K] the factor it may exceed it by. *)
Definition big_ok (big : ResourceGroup R S L -> Z -> list (payload R S L) -> Report -> list (payload R S L) * Report)
    (hopeless : Z -> ResourceGroup R S L -> Prop) (small : L -> Prop) (cost : ResourceGroup R S L -> Z) (K : Z) : Prop :=
  forall rl M o r (okp : payload R S L -> Prop), 0 < M -> rg_scopes rl <> [] ->
    (forall p, PayloadSize p <= M -> okp p) -> (forall p, unshrinkable hopeless small M rl p -> okp p) ->
    counted M o r -> Forall okp o ->
    let '(o', r') := big rl M o r in
    (o' ≫= items) = (o ≫= items) ++ resource_items contents rl /\
    (forall g, g ∈ (o' ≫= marks) <-> g ∈ (o ≫= marks) \/ g ∈ resource_marks rl) /\
    counted M o' r' /\ Forall okp o' /\ spent o' <= spent o + K * cost rl.

End Contract.

Lemma bind_singletons {A} (l : list A) : l ≫= (fun x => [x]) = l.
Proof. induction l as [|x l IH]; cbn; [done|]. by rewrite IH. Qed.

(** ** Logs and traces: [splitBigResource] keeps the contract *)
Section Resource.
Context {R S L : Type} `{MarshalerLaws R S L}.
Notation contents := (fun l : L => [l]).
Notation items := (items contents).

Context (rl : ResourceGroup R S L) (M : Z) (okp : payload R S L -> Prop) (M_pos : 0 < M)
  (ok_fits : forall p, PayloadSize p <= M -> okp p) (ok_un : forall p, unshrinkable framing_over (fun _ => True) M rl p -> okp p).
Notation me := (rg_resource rl).
Notation resBase := (resource_cost rl).
Notation small := (fun _ : L => True).
Notation shape := (shape contents rl M okp (framing_over M rl) small).
Notation account := (account rl M).

Lemma ok_single p : single rl small p -> okp p.
Proof. intros Hp. apply ok_un. by right; left. Qed.

Lemma ok_lost : framing_over M rl -> forall scs, okp [mkResource me scs].
Proof. intros Hf scs. apply ok_un. right; right. eauto. Qed.

Lemma logs_leaves T sl ls : forall D G C st, shape D G st -> account T C 0 st -> at_scope rl (sg_scope sl) st -> affordable rl M sl st ->
  let st' := foldl (pack_leaf rl resBase sl (scope_cost sl)) st ls in
  shape (D ++ ((fun x => (me, sg_scope sl, x)) <$> ls)) G st' /\ account T (C + sumZ (leaf_cost <$> ls)) 0 st'.
Proof.
  induction ls as [|l ls IH]; intros D G C st I A At Af; cbn [foldl fmap list_fmap].
  - rewrite app_nil_r. change (sumZ []) with 0. by rewrite Z.add_0_r.
  - destruct (pack_leaf_spec contents rl M okp (framing_over M rl) small ok_fits ok_single ok_lost M_pos D G T C 0 st sl l I A At Af) as (I1 & A1 & At1 & Af1); [by auto|].
    destruct (IH _ _ _ _ I1 A1 At1 Af1) as [I2 A2]. rewrite <- app_assoc in I2. split; [exact I2|].
    by rewrite sumZ_cons, Z.add_assoc.
Qed.

Lemma logs_scopes T scs : forall D G C st, scs ⊆ rg_scopes rl -> shape D G st -> account T C 0 st -> 0 <= C ->
  let st' := foldl (pack_scope rl resBase) st scs in
  shape (D ++ (scs ≫= scope_items contents me)) (fun g => G g \/ (scs <> [] /\ g = (me, None)) \/ exists s, s ∈ scs /\ g = (me, Some (sg_scope s))) st' /\
  account T (C + sumZ (scope_est <$> scs)) 0 st'.
Proof.
  induction scs as [|s scs IH]; intros D G C st Sub I A C0; cbn [foldl fmap list_fmap mbind list_bind].
  - rewrite app_nil_r. change (sumZ []) with 0. rewrite Z.add_0_r. split; [|done]. eapply shape_ext; [|exact I]. intros g. set_solver.
  - destruct (begin_scope_spec contents rl M okp (framing_over M rl) small ok_fits ok_single ok_lost M_pos D G T C 0 st s I A C0) as (I1 & A1 & At1 & Af1).
    { intros Pay. exists s. split; [set_solver|done]. }
    destruct (logs_leaves T s (sg_leaves s) _ _ _ _ I1 A1 At1 Af1) as [I2 A2].
    pose proof (scope_cost_pos s). pose proof (leaves_cost_nonneg (sg_leaves s)).
    destruct (IH _ _ _ _ ltac:(set_solver) I2 A2) as [I3 A3]; [lia|]. split.
    + eapply shape_ext; [|unfold scope_items at 1; rewrite bind_singletons; rewrite app_assoc; exact I3]. intros g. cbn. set_solver.
    + rewrite sumZ_cons. unfold scope_est at 1. by rewrite !Z.add_assoc.
Qed.

End Resource.

Lemma pays_mono M a b : a <= b -> splitPaysOff a M = false -> splitPaysOff b M = false.
Proof. unfold splitPaysOff. rewrite !Z.leb_gt. lia. Qed.

Section Big.
Context {R S L : Type} `{MarshalerLaws R S L}.

Lemma splitBigResource_ok : big_ok (fun l : L => [l]) splitBigResource framing_over (fun _ => True) resource_est 7.
Proof.
  intros rl M o r okp Mp Ne Fits Un Co Ok. unfold splitBigResource. change (ResourceSize (emptyScopes rl) + elemOverhead) with (resource_cost rl).
  destruct (start_spec (fun l : L => [l]) rl M okp (framing_over M rl) (fun _ => True) o r (fun g => g ∈ (o ≫= marks)) Co Ok) as (I0 & A0 & _).
  { done. }
  { intros Pay. destruct (rg_scopes rl) as [|s l] eqn:E; [done|]. exists s. rewrite E. split; [set_solver|].
    eapply pays_mono; [|exact Pay]. pose proof (scope_cost_pos s). lia. }
  destruct (logs_scopes rl M okp Mp Fits Un (spent o) (rg_scopes rl) _ _ _ _ ltac:(done) I0 A0 ltac:(done)) as [I1 A1].
  set (st := foldl _ _ _) in *. clearbody st.
  destruct (account_emit _ _ _ _ _ _ Mp _ _ _ _ _ _ I1 A1) as [Sp _].
  destruct (shape_emit _ _ _ _ _ _ Fits (ok_single rl M okp Un) (ok_lost rl M okp Un) _ _ _ I1) as ([_ _ It Ma Co' _ Ok' _] & Op & _).
  unfold in_progress in It, Ma. rewrite Op, app_nil_r in It. split_and!; [exact It| |exact Co'|exact Ok'|].
  - intros g. rewrite Op, app_nil_r in Ma. rewrite (Ma g). unfold resource_marks. rewrite elem_of_cons, list_elem_of_fmap.
    split; [intros [?|[[_ ?]|(s & ? & ?)]]; eauto|]. intros [?|[?|(s & ? & ?)]]; eauto 6.
  - unfold resource_est. pose proof (resource_cost_pos rl). lia.
Qed.

End Big.

(** ** A whole payload *)
Section Payload.
Context {R S L : Type} `{MarshalerLaws R S L} {X : Type} (contents : L -> list X).
Notation items := (items contents).
Context (big : ResourceGroup R S L -> Z -> list (payload R S L) -> Report -> list (payload R S L) * Report)
  (hopeless : Z -> ResourceGroup R S L -> Prop) (small : L -> Prop) (cost : ResourceGroup R S L -> Z) (K : Z)
  (Big : big_ok contents big hopeless small cost K) (K_pos : 1 <= K) (cost_est : forall r, resource_est r <= cost r).

Definition part_ok (M : Z) (ld p : payload R S L) : Prop := PayloadSize p <= M \/ exists rl, rl ∈ ld /\ unshrinkable hopeless small M rl p.

Definition resources_cost (ld : payload R S L) : Z := sumZ (cost <$> ld).

(** The parts [ps] and report [r] of a payload. *)
Definition split_ok (M : Z) (ld : payload R S L) (ps : list (payload R S L)) (r : Report) : Prop :=
  (ps ≫= items) = items ld /\ (forall g, g ∈ (ps ≫= marks) <-> g ∈ marks ld) /\
  counted M ps r /\ Forall (part_ok M ld) ps /\ spent ps <= K * resources_cost ld.

(** What has been packed of [ld] when [d] has been seen. *)
Record packed (M : Z) (ld d : payload R S L) (p : packing R S L) : Prop := mkPacked {
  p_items : (parts p ≫= items) ++ items (part p) = items d;
  p_marks : forall g, g ∈ (parts p ≫= marks) ++ marks (part p) <-> g ∈ marks d;
  p_counted : counted M (parts p) (report p);
  p_ok : Forall (part_ok M ld) (parts p);
  p_bytes : curBytes p = sumZ ((fun r => ResourceSize r + elemOverhead) <$> part p);
  p_fit : curBytes p <= M;
  p_spent : spent (parts p) + curBytes p <= K * resources_cost d }.

Lemma part_items_app (a b : payload R S L) : items (a ++ b) = items a ++ items b.
Proof. unfold OtlpSplitInv.items. by rewrite bind_app. Qed.

Lemma marks_app (a b : payload R S L) : marks (a ++ b) = marks a ++ marks b.
Proof. unfold marks. by rewrite bind_app. Qed.

Lemma items_one (r : ResourceGroup R S L) : items [r] = resource_items contents r.
Proof. unfold OtlpSplitInv.items. cbn. by rewrite app_nil_r. Qed.

Lemma marks_one (r : ResourceGroup R S L) : marks [r] = resource_marks r.
Proof. unfold marks. cbn. by rewrite app_nil_r. Qed.

Lemma resources_cost_snoc d r : resources_cost (d ++ [r]) = resources_cost d + cost r.
Proof. unfold resources_cost. rewrite fmap_app, sumZ_app. change (sumZ (cost <$> [r])) with (cost r + 0). lia. Qed.

Lemma bytes_nonneg (p : payload R S L) : 0 <= sumZ ((fun r => ResourceSize r + elemOverhead) <$> p).
Proof. apply sumZ_nonneg. intros r. pose proof (resource_size_nonneg r). unfold elemOverhead. lia. Qed.

Lemma packed_flush M ld d p : packed M ld d p -> packed M ld d (flush p) /\ part (flush p) = [] /\ curBytes (flush p) = 0.
Proof.
  intros [A1 A2 A3 A4 A5 A6 A7]. unfold flush. destruct (part p) as [|r l] eqn:E.
  { split; [split; rewrite ?E; done|]. by rewrite E. }
  pose proof (payload_size (r :: l)) as Sz. rewrite <- A5 in Sz.
  split; [|done]. split; cbn [parts part curBytes report].
  - rewrite bind_app. cbn [mbind list_bind]. rewrite <- A1, app_nil_r. unfold OtlpSplitInv.items at 3. cbn. by rewrite app_nil_r.
  - intros g. rewrite <- A2, bind_app. cbn [mbind list_bind]. rewrite app_nil_r. unfold marks at 3. cbn. by rewrite app_nil_r.
  - unfold counted in *. rewrite filter_app, filter_cons_False, app_nil_r by lia. done.
  - apply Forall_app_2; [done|]. apply Forall_singleton. left. lia.
  - done.
  - pose proof (bytes_nonneg (r :: l)). lia.
  - rewrite spent_snoc. lia.
Qed.

Lemma pack_resource_ok M ld d p rl : 0 < M -> rl ∈ ld -> packed M ld d p -> packed M ld (d ++ [rl]) (pack_resource big M p rl).
Proof.
  intros Mp Hin I. unfold pack_resource. destruct (packed_flush _ _ _ _ I) as (I' & Pe & Pb).
  pose proof (resource_size_est rl) as Re. pose proof (cost_est rl) as Ce. pose proof (resource_est_pos rl) as Rp.
  destruct (Z.leb_spec (ResourceSize rl + elemOverhead) M) as [Fit|Ov].
  - assert (J : exists q, (if (0 <? curBytes p) && (M <? curBytes p + (ResourceSize rl + elemOverhead)) then flush p else p) = q /\ packed M ld d q /\
      curBytes q + (ResourceSize rl + elemOverhead) <= M).
    { eexists. split; [done|]. destruct (Z.ltb_spec 0 (curBytes p)); cbn [andb].
      - destruct (Z.ltb_spec M (curBytes p + (ResourceSize rl + elemOverhead))); [split; [done|lia]|done].
      - split; [done|]. lia. }
    destruct J as (q & -> & [A1 A2 A3 A4 A5 A6 A7] & Fq). split; cbn [parts part curBytes report].
    + rewrite !part_items_app, app_assoc, A1. done.
    + intros g. rewrite !marks_app, app_assoc, elem_of_app, A2, elem_of_app. done.
    + done.
    + done.
    + rewrite A5, fmap_app, sumZ_app. change (sumZ ((fun r => ResourceSize r + elemOverhead) <$> [rl])) with (ResourceSize rl + elemOverhead + 0). lia.
    + lia.
    + rewrite resources_cost_snoc. nia.
  - set (q := flush p) in *. clearbody q. destruct I' as [A1 A2 A3 A4 A5 A6 A7]. rewrite Pe in A1, A2. cbn in A1, A2. rewrite app_nil_r in A1.
    assert (Un : forall o, unshrinkable hopeless small M rl o -> part_ok M ld o) by (intros o Ho; right; eauto).
    destruct (rg_scopes rl) as [|s ss] eqn:Es.
    + pose proof (payload_size [rl]) as Sz. change (sumZ ((fun r => ResourceSize r + elemOverhead) <$> [rl])) with (ResourceSize rl + elemOverhead + 0) in Sz.
      split; cbn [parts part curBytes report].
      * rewrite bind_app, A1, Pe. change ([[rl]] ≫= items) with (items [rl] ++ []). change (items []) with (@nil (R * S * X)). by rewrite !app_nil_r, part_items_app.
      * intros g. rewrite bind_app, Pe, marks_app, !elem_of_app, <- A2, app_nil_r. change ([[rl]] ≫= marks) with (marks [rl] ++ []).
        change (marks []) with (@nil (R * option S)). rewrite app_nil_r, elem_of_nil. tauto.
      * apply (counted_snoc M (parts q) [rl] (report q) false A3).
      * apply Forall_app_2; [done|]. apply Forall_singleton, Un. left. done.
      * by rewrite Pe, Pb.
      * lia.
      * rewrite spent_snoc, resources_cost_snoc. nia.
    + pose proof (Big rl M (parts q) (report q) (part_ok M ld) Mp ltac:(by rewrite Es) (fun o Ho => or_introl Ho) Un A3 A4) as B.
      destruct (big rl M (parts q) (report q)) as [o' r']. destruct B as (B1 & B2 & B3 & B4 & B5). split; cbn [parts part curBytes report].
      * rewrite Pe, B1, A1, part_items_app, items_one. apply app_nil_r.
      * intros g. rewrite Pe, marks_app, marks_one. cbn. rewrite app_nil_r, B2, elem_of_app, <- A2, app_nil_r. done.
      * done.
      * done.
      * by rewrite Pe, Pb.
      * lia.
      * rewrite resources_cost_snoc. lia.
Qed.

Lemma pack_resources_ok M ld : 0 < M -> forall todo d p, todo ⊆ ld -> packed M ld d p -> packed M ld (d ++ todo) (foldl (pack_resource big M) p todo).
Proof.
  intros Mp todo. induction todo as [|r todo IH]; intros d p Sub I; cbn [foldl]; [by rewrite app_nil_r|].
  rewrite (cons_middle r d todo), app_assoc. apply IH; [set_solver|]. apply pack_resource_ok; [done|set_solver|done].
Qed.

Lemma WithReport_ok M ld : 0 < M -> let '(ps, r) := WithReport big ld M in split_ok M ld ps r /\ (ld <> [] -> ps <> []).
Proof.
  intros Mp. unfold WithReport. destruct (Z.leb_spec M 0) as [|_]; [lia|]. cbn [orb].
  destruct (Z.leb_spec (PayloadSize ld) M) as [Fit|Ov].
  - split; [|done]. unfold split_ok, counted. cbn [mbind list_bind]. rewrite !app_nil_r, filter_cons_False by lia. split_and!; try done.
    + constructor; [by left|done].
    + change (spent [ld]) with (PayloadSize ld + 0). pose proof (size_est ld). enough (0 <= est ld <= resources_cost ld) by nia.
      unfold est, resources_cost. split; [apply sumZ_nonneg; intros r; pose proof (resource_est_pos r); lia|by apply sumZ_le].
  - assert (I0 : packed M ld [] (mkPacking [] [] 0 noReport)) by (split; cbn; try done; lia).
    pose proof (pack_resources_ok M ld Mp ld [] _ ltac:(done) I0) as I1. set (p0 := foldl _ _ _) in *. clearbody p0.
    destruct (packed_flush _ _ _ _ I1) as ([A1 A2 A3 A4 A5 A6 A7] & Pe & Pb). set (p := flush p0) in *. clearbody p.
    rewrite Pe in A1, A2. cbn in A1, A2. rewrite app_nil_r in A1. rewrite Pb, Z.add_0_r in A7.
    assert (Ne : ld <> [] -> parts p <> []).
    { intros Hl Hp. destruct ld as [|r l]; [done|]. specialize (A2 (rg_resource r, None)). rewrite Hp in A2. cbn in A2.
      rewrite elem_of_nil in A2. apply A2. unfold marks, resource_marks. cbn. set_solver. }
    assert (Ok : split_ok M ld (parts p) (report p)).
    { split; [done|]. split; [|done]. intros g. by rewrite <- A2, app_nil_r. }
    destruct (parts p) as [|o os], ld as [|r l]; try done. by destruct Ne.
Qed.

End Payload.
