(* ===== verification/OtlpSplitMetrics.v ===== *)
(** * Splitting payloads: metrics

    A metric that cannot fit in a chunk of its own is cut between its data
    points.  The items of a metric are its points, each with the metric's shell,
    or the shell alone when it has none. *)

From S2P Require Import Prelude Clip OtlpSplit OtlpSplitInv.
Local Open Scope Z_scope.

(** The same law one level down: a point adds its size and its framing. *)
Class PointLaws (R S M N H E Q : Type) `{Marshaler R S (Metric M N H E Q), PointMarshaler N H E Q} : Prop := {
  metric_size (m : Metric M N H E Q) : LeafSize m <= LeafSize (copyMetricShell m) + sumZ ((fun p => sizeOf p + elemOverhead) <$> points m);
  point_size_nonneg (p : point N H E Q) : 0 <= sizeOf p }.

Section Metrics.
Context {R S M N H E Q : Type}.
Notation Metric := (Metric M N H E Q).
Notation point := (point N H E Q).
Context `{MR : Marshaler R S Metric, !MarshalerLaws R S Metric, PM : PointMarshaler N H E Q, !PointLaws R S M N H E Q}.

Definition metric_items (m : Metric) : list (Metric * option point) :=
  match points m with [] => [(copyMetricShell m, None)] | ps => (fun p => (copyMetricShell m, Some p)) <$> ps end.

Definition point_cost (p : point) : Z := sizeOf p + elemOverhead.
Definition shell_cost (m : Metric) : Z := LeafSize (copyMetricShell m) + elemOverhead.
Definition metric_cost (m : Metric) : Z := shell_cost m + sumZ (point_cost <$> points m).

Lemma point_cost_pos p : 0 < point_cost p.
Proof. unfold point_cost, elemOverhead. pose proof (point_size_nonneg (R := R) (S := S) (M := M) p). lia. Qed.

Lemma points_cost_nonneg (l : list point) : 0 <= sumZ (point_cost <$> l).
Proof. apply sumZ_nonneg. intros p. pose proof (point_cost_pos p). lia. Qed.

Lemma shell_cost_pos m : 0 < shell_cost m.
Proof. unfold shell_cost, elemOverhead. pose proof (leaf_size_nonneg (copyMetricShell m)). lia. Qed.

Lemma leaf_metric_cost m : leaf_cost m <= metric_cost m.
Proof. pose proof (metric_size (R := R) (S := S) m). unfold leaf_cost, metric_cost, shell_cost, point_cost. lia. Qed.

Lemma count_points (m : Metric) : DataPointCount m = Z.of_nat (length (points m)).
Proof. unfold DataPointCount, points. destruct (m_data m); rewrite ?length_fmap; done. Qed.

(** Points copied one by one onto the shell build the metric up. *)
Definition of_type (m : Metric) (p : point) : Prop :=
  match m_data m, p with
  | Gauge _, PNumber _ | Sum _ _ _, PNumber _ | Histogram _ _, PHistogram _ | ExponentialHistogram _ _, PExponential _ | Summary _, PSummary _ => True
  | _, _ => False
  end.

Lemma points_of_type (m : Metric) : Forall (of_type m) (points m).
Proof. unfold points, of_type. destruct (m_data m); try apply Forall_fmap, Forall_true; done. Qed.

Lemma appendTo_spec (m : Metric) p : of_type m p ->
  points (appendTo p m) = points m ++ [p] /\ copyMetricShell (appendTo p m) = copyMetricShell m /\ (forall q, of_type (appendTo p m) q <-> of_type m q).
Proof.
  destruct m as [n d u md dt]. unfold of_type, appendTo, points, copyMetricShell, with_data. cbn.
  destruct dt, p; cbn; try done; rewrite fmap_app; done.
Qed.

Lemma shell_spec (m : Metric) : points (copyMetricShell m) = [] /\ copyMetricShell (copyMetricShell m) = copyMetricShell m /\
  (forall q, of_type (copyMetricShell m) q <-> of_type m q).
Proof. destruct m as [n d u md dt]. unfold of_type, points, copyMetricShell, with_data. cbn. by destruct dt. Qed.

(** ** One over-large metric *)
Section Points.
Context (rm : ResourceGroup R S Metric) (sm : ScopeGroup S Metric) (m : Metric) (M0 : Z) (okp : payload R S Metric -> Prop) (M_pos : 0 < M0).
Notation me := (rg_resource rm).
Notation base := (resource_cost rm + scope_cost sm).
Notation metricBase := (base + shell_cost m).
Notation room := (M0 `quot` minChunkRoomDiv).
Notation shell := (copyMetricShell m).

Context (ok_fits : forall p, PayloadSize p <= M0 -> okp p)
  (ok_one : forall nm, DataPointCount nm <= 1 -> okp (metric_chunk rm sm nm))
  (ok_lost : splitPaysOff metricBase M0 = false -> forall nm, okp (metric_chunk rm sm nm)).

Definition point_items (ps : list point) : list (R * S * (Metric * option point)) := (fun p => (me, sg_scope sm, (shell, Some p))) <$> ps.
Notation items := (items metric_items).

(** The chunk holds the points [here]; [gone] are in the parts already. *)
Record pshape (o : list (payload R S Metric)) (gone here : list point) (st : points_split) : Prop := mkPshape {
  ps_max : max (pb st) = M0;
  ps_open : open (pb st) = true;
  ps_metric : points (nm st) = here /\ copyMetricShell (nm st) = shell /\ (forall q, of_type (nm st) q <-> of_type m q);
  ps_cur : cur (pb st) = metricBase + sumZ (point_cost <$> here);
  ps_held : held (pb st) = Z.of_nat (length here);
  ps_items : (pout st ≫= items) = (o ≫= items) ++ point_items gone;
  ps_marks : forall g, g ∈ (pout st ≫= marks) <-> g ∈ (o ≫= marks) \/ (gone <> [] /\ (g = (me, None) \/ g = (me, Some (sg_scope sm))));
  ps_rep : counted M0 (pout st) (rep (pb st));
  ps_ok : Forall okp (pout st);
  ps_fit : giveUp (pb st) = true \/ cur (pb st) <= M0 \/ (length here <= 1)%nat;
  ps_give : if giveUp (pb st) then splitPaysOff metricBase M0 = false else metricBase <= M0 - room }.

Definition paccount (T : Z) (gone here : list point) (st : points_split) : Prop := exists n F, 0 <= n /\
  0 <= F <= sumZ (point_cost <$> (gone ++ here)) /\ n * (room + 1) <= sumZ (point_cost <$> gone) + F /\
  spent (pout st) + cur (pb st) <= T + metricBase + sumZ (point_cost <$> (gone ++ here)) + n * (3 * room + 3).

Lemma items_metric_chunk nm ps : points nm = ps -> ps <> [] -> copyMetricShell nm = shell -> items (metric_chunk rm sm nm) = point_items ps.
Proof.
  intros Hp Hne Hs. unfold metric_chunk. rewrite items_single. cbn. rewrite app_nil_r. unfold scope_items. cbn. rewrite app_nil_r.
  unfold metric_items, point_items. rewrite Hp, Hs. destruct ps; [done|]. by rewrite <- list_fmap_compose.
Qed.

Lemma marks_metric_chunk nm g : g ∈ marks (metric_chunk rm sm nm) <-> g = (me, None) \/ g = (me, Some (sg_scope sm)).
Proof.
  unfold marks, metric_chunk, resource_marks. cbn. rewrite !elem_of_cons, elem_of_nil. tauto.
Qed.

Lemma metric_chunk_size nm : copyMetricShell nm = shell -> PayloadSize (metric_chunk rm sm nm) <= metricBase + sumZ (point_cost <$> points nm).
Proof.
  intros Hs. etrans; [apply size_est|]. change (metric_chunk rm sm nm) with (chunk_of me [] (sg_scope sm) ([] ++ [nm])).
  rewrite est_chunk, scope_est_snoc, scope_est_nil. change (resource_cost (mkResource me [])) with (resource_cost rm).
  change (scope_cost (mkScope (sg_scope sm) [])) with (scope_cost sm). change (sumZ (scope_est <$> [])) with 0.
  pose proof (leaf_metric_cost nm). unfold metric_cost, shell_cost in *. rewrite Hs in *. lia.
Qed.

(** The chunk is emitted, with at least one point in it. *)
Lemma emit_points_spec o gone here st T : pshape o gone here st -> here <> [] -> spent (pout st) + cur (pb st) <= T ->
  let st' := emit_points rm sm st in
  (pout st' ≫= items) = (o ≫= items) ++ point_items (gone ++ here) /\
  (forall g, g ∈ (pout st' ≫= marks) <-> g ∈ (o ≫= marks) \/ g = (me, None) \/ g = (me, Some (sg_scope sm))) /\
  counted M0 (pout st') (rep (pb st')) /\ Forall okp (pout st') /\ spent (pout st') <= T /\ max (pb st') = M0 /\ giveUp (pb st') = giveUp (pb st).
Proof.
  intros [A1 A2 (A3 & A3' & A3'') A4 A5 A6 A7 A8 A9 A10 A11] Ne Sp st'.
  pose proof (metric_chunk_size (nm st) A3') as Sz. rewrite A3, <- A4 in Sz.
  assert (Po : pout st' = pout st ++ [metric_chunk rm sm (nm st)]) by (unfold st', emit_points, close; by rewrite A2).
  rewrite Po. split_and!.
  - rewrite bind_app, A6, <- app_assoc. f_equal. cbn [mbind list_bind]. rewrite app_nil_r, (items_metric_chunk _ here) by done.
    unfold point_items. by rewrite fmap_app.
  - intros g. rewrite bind_app, elem_of_app, A7. cbn [mbind list_bind]. rewrite app_nil_r, marks_metric_chunk. tauto.
  - assert (rep (pb st') = if M0 <? PayloadSize (metric_chunk rm sm (nm st)) then countOver (rep (pb st)) (giveUp (pb st)) else rep (pb st)) as ->.
    { unfold st', emit_points, close. rewrite A2. cbn. rewrite A1.
      destruct (Z.ltb_spec M0 (cur (pb st))); cbn [andb]; [done|]. destruct (Z.ltb_spec M0 (PayloadSize (metric_chunk rm sm (nm st)))); [lia|done]. }
    by apply counted_snoc.
  - apply Forall_app_2; [done|]. apply Forall_singleton. destruct A10 as [Gu|[?|?]].
    + rewrite Gu in A11. by apply ok_lost.
    + apply ok_fits. lia.
    + apply ok_one. rewrite count_points, A3. lia.
  - rewrite spent_snoc. lia.
  - unfold st', emit_points, close. by rewrite A2.
  - unfold st', emit_points, close. by rewrite A2.
Qed.

Lemma room_points : 4 * room <= M0 <= 4 * room + 3.
Proof. by apply room_M. Qed.

Lemma pack_point_spec o gone here p st T : pshape o gone here st -> paccount T gone here st -> of_type m p ->
  exists gone' here', pshape o gone' here' (pack_point rm sm shell metricBase st p) /\ paccount T gone' here' (pack_point rm sm shell metricBase st p) /\
    gone' ++ here' = gone ++ here ++ [p] /\ here' <> [].
Proof.
  intros I (n & F & N0 & F0 & A1 & A2) Ty. unfold pack_point. change (sizeOf p + elemOverhead) with (point_cost p). pose proof (point_cost_pos p) as Pp.
  pose proof room_points as RM. pose proof (points_cost_nonneg here) as Hn.
  destruct (cutBeforeItem metricBase (point_cost p) (pb st)) eqn:Cut.
  - unfold cutBeforeItem in Cut. rewrite (ps_max _ _ _ _ I) in Cut. apply andb_true_iff in Cut as [Cut Ov]. apply andb_true_iff in Cut as [Gu Hb].
    apply negb_true_iff in Gu. apply Z.ltb_lt in Ov.
    assert (Ne : here <> []).
    { intros ->. pose proof (ps_held _ _ _ _ I) as E1. pose proof (ps_cur _ _ _ _ I) as E2. cbn in E1. change (sumZ (point_cost <$> [])) with 0 in E2.
      rewrite E1, E2 in Hb. apply orb_true_iff in Hb as [Hb|Hb]; apply Z.ltb_lt in Hb; lia. }
    destruct (emit_points_spec _ _ _ _ _ I Ne A2) as (E1 & E2 & E3 & E4 & E5 & E6 & E7).
    pose proof (ps_give _ _ _ _ I) as Pays. rewrite Gu in Pays. pose proof (ps_cur _ _ _ _ I) as Cu.
    destruct (shell_spec m) as (S1 & S2 & S3). destruct (appendTo_spec shell p) as (P1 & P2 & P3); [by apply S3|].
    exists (gone ++ here), [p]. set (st1 := emit_points rm sm st) in *. clearbody st1. split; [|split; [|split; [by rewrite app_assoc|done]]].
    + split; cbn; try done.
      * split; [by rewrite P1, S1|]. split; [by rewrite P2, S2|]. intros q. by rewrite P3, S3.
      * change (sumZ (point_cost <$> [p])) with (point_cost p + 0). lia.
      * intros g. rewrite E2. split; [intros [?|?]; [by left|right; split; [by destruct gone, here|done]]|tauto].
      * by right; right.
      * by rewrite E7, Gu.
    + rewrite fmap_app, sumZ_app in *. exists (n + 1), (F + point_cost p). cbn [pb pout add reopen cur].
      rewrite !fmap_app, !sumZ_app in *. change (sumZ (point_cost <$> [p])) with (point_cost p + 0). split_and!; try lia; [].
      change (cur (pb (open_points shell metricBase st1))) with metricBase.
      change (pout (open_points shell metricBase st1)) with (pout st1). lia.
  - exists gone, (here ++ [p]). split; [|split; [|split; [done|by destruct here]]].
    + destruct I as [B1 B2 (B3 & B3' & B3'') B4 B5 B6 B7 B8 B9 B10 B11]. destruct (appendTo_spec (nm st) p) as (P1 & P2 & P3); [by apply B3''|].
      split; cbn; try done.
      * split; [by rewrite P1, B3|]. split; [by rewrite P2|]. intros q. by rewrite P3.
      * rewrite fmap_app, sumZ_app, B4. change (sumZ (point_cost <$> [p])) with (point_cost p + 0). lia.
      * rewrite B5, length_app. cbn. lia.
      * destruct (giveUp (pb st)) eqn:Gu; [by left|right]. unfold cutBeforeItem in Cut. rewrite Gu, B1, B5 in Cut. cbn [negb andb] in Cut.
        destruct (Z.ltb_spec M0 (cur (pb st) + point_cost p)); [|left; lia]. rewrite andb_true_r in Cut. apply orb_false_iff in Cut as [C1 _].
        apply Z.ltb_ge in C1. right. rewrite length_app. cbn. lia.
    + exists n, F. rewrite app_assoc, fmap_app, sumZ_app. change (sumZ (point_cost <$> [p])) with (point_cost p + 0). cbn [pb pout add cur]. split_and!; try lia.
Qed.

Lemma pack_points_spec o T ps : forall gone here st, pshape o gone here st -> paccount T gone here st -> Forall (of_type m) ps ->
  exists gone' here', pshape o gone' here' (foldl (pack_point rm sm shell metricBase) st ps) /\
    paccount T gone' here' (foldl (pack_point rm sm shell metricBase) st ps) /\ gone' ++ here' = gone ++ here ++ ps /\ (ps <> [] -> here' <> []).
Proof.
  induction ps as [|p ps IH]; intros gone here st I A Ty; cbn [foldl].
  - exists gone, here. rewrite app_nil_r. by split_and!.
  - apply Forall_cons in Ty as [Tp Ty]. destruct (pack_point_spec _ _ _ _ _ _ I A Tp) as (g1 & h1 & I1 & A1 & E1 & N1).
    destruct (IH _ _ _ I1 A1 Ty) as (g2 & h2 & I2 & A2 & E2 & N2). exists g2, h2. split; [done|]. split; [done|]. split.
    + rewrite E2, app_assoc, E1, <- !app_assoc. done.
    + intros _. destruct ps; [|by apply N2]. cbn in *. rewrite app_nil_r in E2. cbn [foldl] in *.
      destruct (decide (h2 = [])) as [->|]; [|done]. exfalso. apply N1.
      pose proof (ps_held _ _ _ _ I1) as L1. pose proof (ps_held _ _ _ _ I2) as L2. rewrite L1 in L2. cbn in L2. by apply length_zero_iff_nil; lia.
Qed.

(** [k] more framings, of which all but one are charged to the points. *)
Lemma splitBigMetric_spec o r : counted M0 o r -> Forall okp o -> base <= M0 - room -> M0 < base + leaf_cost m -> 1 < DataPointCount m ->
  let '(o', r') := splitBigMetric rm sm m base M0 r o in
  (o' ≫= items) = (o ≫= items) ++ point_items (points m) /\
  (forall g, g ∈ (o' ≫= marks) <-> g ∈ (o ≫= marks) \/ g = (me, None) \/ g = (me, Some (sg_scope sm))) /\
  counted M0 o' r' /\ Forall okp o' /\
  exists k, 0 <= k /\ (k + 1) * (room + 1) <= 4 * metric_cost m /\ spent o' <= spent o + metric_cost m + k * (3 * room + 3).
Proof.
  intros Co Ok Bb Ov Cnt. unfold splitBigMetric.
  replace (base + LeafSize shell + elemOverhead) with metricBase by (unfold shell_cost; lia).
  set (st0 := open_points _ _ _). destruct (shell_spec m) as (S1 & S2 & S3).
  assert (I0 : pshape o [] [] st0).
  { unfold st0, open_points, abandonUnless. change (max (newBudget M0 r)) with M0.
    destruct (splitPaysOff metricBase M0) eqn:Pay; split; cbn; rewrite ?app_nil_r; try done; try tauto; try (change (sumZ []) with 0; lia);
      try (right; right; lia). by apply pays. }
  assert (A0 : paccount (spent o) [] [] st0).
  { exists 0, 0. change (sumZ (point_cost <$> [] ++ [])) with 0. change (sumZ (point_cost <$> [])) with 0. cbn [st0 open_points pout pb reopen cur].
    split_and!; try lia. }
  destruct (pack_points_spec o (spent o) (points m) _ _ _ I0 A0 (points_of_type m)) as (gone & here & I1 & (n & F & N0 & F0 & A1 & A2) & Eg & Ne).
  rewrite count_points in Cnt. specialize (Ne ltac:(intros Hp; rewrite Hp in Cnt; cbn in Cnt; lia)). cbn in Eg.
  set (st := foldl _ _ _) in *. clearbody st.
  assert (0 < held (pb st)) as Hh by (rewrite (ps_held _ _ _ _ I1); destruct here; [done|cbn; lia]).
  rewrite (proj2 (Z.ltb_lt _ _) Hh). destruct (emit_points_spec _ _ _ _ _ I1 Ne A2) as (E1 & E2 & E3 & E4 & E5 & _). rewrite Eg in *.
  split_and!; try done. pose proof (leaf_metric_cost m) as Lm. pose proof room_points as RM. pose proof (shell_cost_pos m) as Sp.
  pose proof (points_cost_nonneg here) as Hn. rewrite <- Eg, fmap_app, sumZ_app in *. unfold metric_cost in *. rewrite <- Eg, fmap_app, sumZ_app in *.
  exists (n + 1). split_and!; lia.
Qed.

End Points.

(** ** One over-large resource *)
Section Resource.
Context (rm : ResourceGroup R S Metric) (M0 : Z) (okp : payload R S Metric -> Prop) (M_pos : 0 < M0).
Notation me := (rg_resource rm).
Notation resBase := (resource_cost rm).
Notation room := (M0 `quot` minChunkRoomDiv).

(** A metric with one point at most cannot be cut. *)
Definition uncut (m : Metric) : Prop := DataPointCount m <= 1.

(** Whether the framing of some scope, or of some metric under it, leaves a
    chunk too little room. *)
Definition metrics_over (M0 : Z) (rm : ResourceGroup R S Metric) : Prop :=
  framing_over M0 rm \/ exists s m, s ∈ rg_scopes rm /\ m ∈ sg_leaves s /\
    splitPaysOff (resource_cost rm + scope_cost s + shell_cost m) M0 = false.

Context (ok_fits : forall p, PayloadSize p <= M0 -> okp p) (ok_un : forall p, unshrinkable metrics_over uncut M0 rm p -> okp p).
Notation shape := (shape metric_items rm M0 okp (metrics_over M0 rm) uncut).
Notation account := (account rm M0).

Lemma ok_single' p : single rm uncut p -> okp p.
Proof. intros Hp. apply ok_un. by right; left. Qed.

Lemma ok_lost' : metrics_over M0 rm -> forall scs, okp [mkResource me scs].
Proof. intros Hf scs. apply ok_un. right; right. eauto. Qed.

Lemma account_mono T C C' W st : account T C W st -> open (sb st) = true -> C <= C' -> account T C' W st.
Proof.
  intros (n & F & x & sk & K0 & F0 & X0 & W0 & A1 & A2 & A3 & A4) Op Le. rewrite Op in A2. exists n, F, x, sk. rewrite Op.
  do 6 (split; [lia|]). split; [by intros _; apply A3|]. intros; congruence.
Qed.

(** The open chunk has as many scopes as the code has counted. *)
Definition scopes_ok (st : split R S Metric * Z) : Prop := open (sb st.1) = true -> forall r, chunk st.1 = [r] -> st.2 = Z.of_nat (length (rg_scopes r)).

(** Between two metrics of the scope [sl]. *)
Record mready (D : list (R * S * (Metric * option point))) (G : R * option S -> Prop) (T C W : Z) (sl : ScopeGroup S Metric) (st : split R S Metric * Z) : Prop := mkReady {
  r_shape : shape D G st.1;
  r_account : account T C W st.1;
  r_at : open (sb st.1) = true -> at_scope rm (sg_scope sl) st.1;
  r_pays : affordable rm M0 sl st.1;
  r_closed : open (sb st.1) = false -> giveUp (sb st.1) = false;
  r_marks : G (me, None) /\ G (me, Some (sg_scope sl));
  r_scopes : scopes_ok st;
  r_pos : 0 < C }.

Lemma known_marks (G : R * option S -> Prop) s : G (me, None) /\ G (me, Some s) -> forall g, (G g \/ g = (me, None) \/ g = (me, Some s)) <-> G g.
Proof. intros [G1 G2] g. split; [|tauto]. by intros [?|[->| ->]]. Qed.

(** The first lines of the loop: a chunk the data-point split closed is opened again. *)
Lemma ready_open D G T C W sl st : mready D G T C W sl st ->
  let st' := if open (sb st.1) then st else m_addScope sl (scope_cost sl) (m_open rm resBase st) in
  mready D G T C W sl st' /\ open (sb st'.1) = true.
Proof.
  intros [I A At Af Cl Gm Sc Cp]. cbv zeta. destruct (open (sb st.1)) eqn:Op; [split; [split; try done; by rewrite Op|done]|].
  specialize (Cl eq_refl). destruct (affordable_room rm M0 M_pos _ _ Af Cl) as (B0 & B1 & B2 & B3 & B4).
  pose proof (shape_scope metric_items rm M0 okp (metrics_over M0 rm) uncut D G sl st.1 I) as Sh. cbv zeta in Sh. rewrite Op in Sh.
  destruct Sh as (I2 & At2 & Ch2); [right; lia|]. split; [|done]. split; try done.
  - eapply shape_ext; [|exact I2]. by apply known_marks.
  - destruct A as (n & F & x & sk & K0 & F0 & X0 & W0 & A1 & A2 & _ & A4). rewrite Op in A2. destruct (A4 Op) as (-> & A5 & A6). specialize (A6 Cp).
    exists n, F, 0, 0. cbn [m_addScope m_open fst sb addScope openChunk grow reopen open cur giveUp out]. split_and!; try lia.
  - intros _ r. cbn [m_addScope m_open fst snd]. rewrite (Ch2 eq_refl). by intros [= <-].
Qed.

(** A metric cut between its points. *)
Lemma big_metric_spec D G T C W sl st m : mready D G T C W sl st -> open (sb st.1) = true -> giveUp (sb st.1) = false ->
  sl ∈ rg_scopes rm -> m ∈ sg_leaves sl -> M0 < resBase + scope_cost sl + leaf_cost m -> 1 < DataPointCount m ->
  let st1 := if (0 <? held (sb st.1)) || (1 <? st.2) then m_emit st else (budget discard st.1, st.2) in
  let '(o, r) := splitBigMetric rm sl m (resBase + scope_cost sl) (max (sb st.1)) (rep (sb st1.1)) (out st1.1) in
  mready (D ++ ((fun x => (me, sg_scope sl, x)) <$> metric_items m)) G T (C + metric_cost m) (W + metric_cost m) sl
    (mkSplit (with_rep r (sb st1.1)) (chunk st1.1) (recs st1.1) o, st1.2).
Proof.
  intros [I A At Af Cl Gm Sc Cp] Op Gu Hs Hm Ov Cnt st1. specialize (At Op).
  destruct (affordable_room rm M0 M_pos _ _ Af Gu) as (B0 & B1 & B2 & B3 & B4). rewrite (s_max _ _ _ _ _ _ _ _ _ I).
  assert (P : open (sb st1.1) = false /\ giveUp (sb st1.1) = false /\ max (sb st1.1) = M0 /\ (out st1.1 ≫= items metric_items) = D /\
    (forall g, g ∈ (out st1.1 ≫= marks) \/ g = (me, None) \/ g = (me, Some (sg_scope sl)) <-> G g) /\
    counted M0 (out st1.1) (rep (sb st1.1)) /\ Forall okp (out st1.1) /\ spent (out st1.1) <= spent (out st.1) + cur (sb st.1)).
  { unfold st1. destruct ((0 <? held (sb st.1)) || (1 <? st.2)) eqn:Full.
    - destruct (shape_emit metric_items rm M0 okp (metrics_over M0 rm) uncut ok_fits ok_single' ok_lost' _ _ _ I) as ([J1 _ J3 J4 J5 _ J7 _] & O1 & G1).
      unfold in_progress in J3, J4. rewrite O1, app_nil_r in J3. rewrite O1, app_nil_r in J4. cbn [m_emit fst].
      split_and!; try done; [by rewrite G1| |by eapply emit_spent].
      intros g. rewrite J4. by apply known_marks.
    - apply orb_false_iff in Full as [F1 F2]. apply Z.ltb_ge in F1, F2. pose proof (resource_est_pos (R := R) (S := S) (L := Metric)) as _.
      destruct (s_chunk _ _ _ _ _ _ _ _ _ I Op) as (scs & s & ls & Ec & _ & Eh & Cur). specialize (Sc Op _ Ec). cbn in Sc. rewrite length_app in Sc. cbn in Sc.
      assert (scs = []) as -> by (destruct scs; [done|cbn in *; lia]).
      rewrite Eh in F1. unfold leaf_count in F1. assert (ls = []) as -> by (destruct ls; [done|cbn in *; lia]).
      destruct At as (_ & scs0 & ls0 & Ec0). assert (s = sg_scope sl) as ->.
      { rewrite Ec in Ec0. unfold chunk_of in Ec0. injection Ec0 as Ex. apply (app_inj_tail [] scs0) in Ex as [_ [= -> _]]. done. }
      pose proof (s_items _ _ _ _ _ _ _ _ _ I) as It. pose proof (s_marks _ _ _ _ _ _ _ _ _ I) as Ma. unfold in_progress in It, Ma. rewrite Op in It, Ma.
      rewrite Ec, items_chunk_scope in It. cbn in It. rewrite app_nil_r in It. cbn [fst budget discard sb open giveUp max out rep]. split_and!; try done.
      + apply (s_max _ _ _ _ _ _ _ _ _ I).
      + intros g. rewrite <- Ma, Ec, elem_of_app, marks_chunk_scope. set_solver.
      + apply (s_rep _ _ _ _ _ _ _ _ _ I).
      + apply (s_parts _ _ _ _ _ _ _ _ _ I).
      + rewrite Cur, Ec, est_chunk, scope_est_nil. change (resource_cost (mkResource me [])) with resBase.
        change (scope_cost (mkScope (sg_scope sl) [])) with (scope_cost sl). change (sumZ (scope_est <$> [])) with 0. lia. }
  clearbody st1. destruct P as (O1 & G1 & M1 & It & Ma & Co & Ok & Sp).
  pose proof (splitBigMetric_spec rm sl m M0 okp M_pos ok_fits) as Big. specialize (Big ltac:(intros nm ?; apply ok_single'; by exists (sg_scope sl), nm)).
  specialize (Big ltac:(intros Hn nm; apply ok_lost'; right; eauto)). specialize (Big _ _ Co Ok B2 Ov Cnt).
  destruct (splitBigMetric _ _ _ _ _ _ _) as [o r]. destruct Big as (E1 & E2 & E3 & E4 & k & K0 & K1 & K2).
  assert (Pm : 0 < metric_cost m) by (unfold metric_cost; pose proof (shell_cost_pos m); pose proof (points_cost_nonneg (points m)); lia).
  split; cbn [fst snd sb with_rep open giveUp out]; try done.
  - split; cbn [fst snd sb with_rep open giveUp out max rep]; unfold in_progress; cbn [fst snd sb with_rep open giveUp out max rep]; rewrite ?O1, ?app_nil_r; try done.
    + rewrite E1, It. f_equal. unfold point_items, metric_items. rewrite count_points in Cnt.
      destruct (points m) eqn:Pts; [cbn in Cnt; lia|]. by rewrite <- list_fmap_compose.
    + intros g. rewrite ?app_nil_r, E2. apply Ma.
    + by rewrite G1.
  - destruct A as (n & F & x & sk & N0 & F0 & X0 & W0 & A1 & A2 & _ & _). rewrite Op in A2. exists (n + k + 1), F, 0, (3 * room + 3).
    cbn [fst snd sb with_rep open giveUp out]. rewrite O1. split_and!; try lia; done.
  - by rewrite O1.
  - intros ?. cbn in *. congruence.
  - unfold scopes_ok. cbn. by rewrite O1.
  - lia.
Qed.

(** A metric packed whole. *)
Lemma whole_metric_spec D G T C W sl st m : mready D G T C W sl st -> open (sb st.1) = true ->
  giveUp (sb st.1) = true \/ resBase + scope_cost sl + leaf_cost m <= M0 \/ uncut m ->
  let st1 := if cutBeforeItem (resBase + scope_cost sl) (leaf_cost m) (sb st.1) then m_addScope sl (scope_cost sl) (m_open rm resBase (m_emit st)) else st in
  mready (D ++ ((fun x => (me, sg_scope sl, x)) <$> metric_items m)) G T (C + metric_cost m) W sl (budget (add (leaf_cost m)) (appendLeaf m st1.1), st1.2).
Proof.
  intros [I A At Af Cl Gm Sc Cp] Op Sm st1. specialize (At Op).
  destruct (pack_leaf_spec metric_items rm M0 okp (metrics_over M0 rm) uncut ok_fits ok_single' ok_lost' M_pos D G T C W st.1 sl m I A At Af Sm)
    as (I1 & A1 & At1 & Af1).
  assert (E1 : budget (add (leaf_cost m)) (appendLeaf m st1.1) = pack_leaf rm resBase sl (scope_cost sl) st.1 m).
  { unfold st1, pack_leaf. cbv zeta. change (LeafSize m + elemOverhead) with (leaf_cost m). by destruct (cutBeforeItem _ _ _). }
  rewrite E1. destruct At1 as [Op1 Ch1]. pose proof (leaf_metric_cost m) as Lm. pose proof (leaf_cost_pos m).
  split; cbn [fst]; try done; [by apply (account_mono _ _ _ _ _ A1 Op1); lia|by intros; congruence| |lia].
  intros _ r. cbn [fst snd]. rewrite <- E1. cbn [budget appendLeaf chunk].
  unfold st1. destruct (cutBeforeItem _ _ _); cbn [m_addScope m_open m_emit fst snd].
  - cbn. by intros [= <-].
  - destruct (s_chunk _ _ _ _ _ _ _ _ _ I Op) as (scs & s & ls & Ec & _). specialize (Sc Op _ Ec). rewrite Ec. cbn. intros [= <-]. cbn.
    by rewrite length_alter.
Qed.

Lemma pack_metric_spec D G T C W sl st m : mready D G T C W sl st -> sl ∈ rg_scopes rm -> m ∈ sg_leaves sl ->
  exists W', mready (D ++ ((fun x => (me, sg_scope sl, x)) <$> metric_items m)) G T (C + metric_cost m) W' sl (pack_metric rm resBase sl (scope_cost sl) st m).
Proof.
  intros I Hs Hm. destruct (ready_open _ _ _ _ _ _ _ I) as [I1 Op1]. unfold pack_metric. cbv zeta.
  set (st1 := if open (sb st.1) then st else m_addScope sl (scope_cost sl) (m_open rm resBase st)) in *. clearbody st1. change (LeafSize m + elemOverhead) with (leaf_cost m).
  destruct (negb (giveUp (sb st1.1)) && (max (sb st1.1) <? resBase + scope_cost sl + leaf_cost m) && (1 <? DataPointCount m)) eqn:Big.
  - apply andb_true_iff in Big as [Big Cnt]. apply andb_true_iff in Big as [Gu Ov]. apply negb_true_iff in Gu. apply Z.ltb_lt in Cnt, Ov.
    rewrite (s_max _ _ _ _ _ _ _ _ _ (r_shape _ _ _ _ _ _ _ I1)) in Ov.
    pose proof (big_metric_spec _ _ _ _ _ _ _ m I1 Op1 Gu Hs Hm Ov Cnt) as B. cbv zeta in B. destruct (splitBigMetric _ _ _ _ _ _ _) as [o r].
    eexists. exact B.
  - exists W. apply (whole_metric_spec _ _ _ _ _ _ _ m I1 Op1). rewrite (s_max _ _ _ _ _ _ _ _ _ (r_shape _ _ _ _ _ _ _ I1)) in Big.
    destruct (giveUp (sb st1.1)); [by left|right]. cbn [negb andb] in Big. unfold uncut. apply andb_false_iff in Big as [Big|Big]; apply Z.ltb_ge in Big; auto.
Qed.

Lemma metrics_leaves T sl ms : sl ∈ rg_scopes rm -> forall D G C W st, ms ⊆ sg_leaves sl -> mready D G T C W sl st ->
  exists W', mready (D ++ ((fun x => (me, sg_scope sl, x)) <$> (ms ≫= metric_items))) G T (C + sumZ (metric_cost <$> ms)) W' sl
    (foldl (pack_metric rm resBase sl (scope_cost sl)) st ms).
Proof.
  intros Hs. induction ms as [|m ms IH]; intros D G C W st Sub I; cbn [foldl fmap list_fmap mbind list_bind].
  - exists W. rewrite app_nil_r. change (sumZ []) with 0. by rewrite Z.add_0_r.
  - destruct (pack_metric_spec _ _ _ _ _ _ _ m I Hs ltac:(set_solver)) as (W1 & I1). destruct (IH _ _ _ _ _ ltac:(set_solver) I1) as (W2 & I2).
    exists W2. by rewrite fmap_app, app_assoc, sumZ_cons, Z.add_assoc.
Qed.

(** A scope begins as for logs, and the scopes of the chunk are counted. *)
Lemma begin_metrics_ready D G T C W sl st : shape D G st.1 -> account T C W st.1 -> 0 <= C -> scopes_ok st -> sl ∈ rg_scopes rm ->
  mready D (fun g => G g \/ g = (me, None) \/ g = (me, Some (sg_scope sl))) T (C + scope_cost sl) W sl (begin_metrics rm resBase sl (scope_cost sl) st).
Proof.
  intros I A C0 Sc Hs.
  destruct (begin_scope_spec metric_items rm M0 okp (metrics_over M0 rm) uncut ok_fits ok_single' ok_lost' M_pos D G T C W st.1 sl I A C0) as (I1 & A1 & At1 & Af1).
  { intros Pay. left. by exists sl. }
  assert (E1 : (begin_metrics rm resBase sl (scope_cost sl) st).1 = begin_scope rm resBase sl (scope_cost sl) st.1).
  { unfold begin_metrics, begin_scope. cbv zeta. cbn [fst]. destruct (cutBeforeScope _ _); cbn [m_emit m_addScope fst]; f_equal; by case_match. }
  pose proof (scope_cost_pos sl). split; rewrite ?E1; try done; [by destruct At1; congruence|by auto| |lia].
  intros _ r. rewrite E1. unfold begin_metrics, begin_scope. cbv zeta. cbn [fst snd].
  assert (Same : forall f, open (sb (budget (abandonUnless f) st.1)) = open (sb st.1) /\ chunk (budget (abandonUnless f) st.1) = chunk st.1).
  { intros f. unfold budget, abandonUnless. by destruct (negb _). }
  destruct (Same (resBase + scope_cost sl)) as [So Sk]. set (st1 := budget _ st.1) in *. clearbody st1.
  destruct (cutBeforeScope (scope_cost sl) (sb st1)) eqn:Cut.
  - assert (open (sb (emit st1)) = false) as Oe by (unfold emit, close; by destruct (open (sb st1)) eqn:?; cbn).
    cbn [m_emit fst snd]. rewrite Oe. cbn. by intros [= <-].
  - cbn [fst snd]. destruct (open (sb st1)) eqn:Op.
    + destruct (s_chunk _ _ _ _ _ _ _ _ _ I) as (scs & s & ls & Ec & _); [congruence|].
      assert (Sn : st.2 = Z.of_nat (length (rg_scopes (mkResource me (scs ++ [mkScope s ls]))))) by (apply Sc; [congruence|done]).
      cbn [m_addScope fst snd addScope chunk]. rewrite Sk, Ec. cbn. intros [= <-]. cbn in *. rewrite length_app. cbn. lia.
    + cbn. by intros [= <-].
Qed.

Definition metrics_scope_cost (s : ScopeGroup S Metric) : Z := scope_cost s + sumZ (metric_cost <$> sg_leaves s).

Lemma metrics_scopes T scs : forall D G C W st, scs ⊆ rg_scopes rm -> shape D G st.1 -> account T C W st.1 -> 0 <= C -> scopes_ok st ->
  let st' := foldl (pack_metric_scope rm resBase) st scs in
  shape (D ++ (scs ≫= scope_items metric_items me)) (fun g => G g \/ (scs <> [] /\ g = (me, None)) \/ exists s, s ∈ scs /\ g = (me, Some (sg_scope s))) st'.1 /\
  exists W', account T (C + sumZ (metrics_scope_cost <$> scs)) W' st'.1.
Proof.
  induction scs as [|s scs IH]; intros D G C W st Sub I A C0 Sc; cbn [foldl fmap list_fmap mbind list_bind].
  - rewrite app_nil_r. change (sumZ []) with 0. rewrite Z.add_0_r. split; [|by exists W]. eapply shape_ext; [|exact I]. intros g. set_solver.
  - pose proof (begin_metrics_ready _ _ _ _ _ s st I A C0 Sc ltac:(set_solver)) as R1.
    destruct (metrics_leaves T s (sg_leaves s) ltac:(set_solver) _ _ _ _ _ ltac:(done) R1) as (W2 & R2).
    destruct R2 as [I2 A2 _ _ _ _ Sc2 Cp2].
    destruct (IH _ _ _ _ (pack_metric_scope rm resBase st s) ltac:(set_solver) I2 A2 ltac:(lia) Sc2) as [I3 [W3 A3]]. split.
    + eapply shape_ext; [|rewrite app_assoc; exact I3]. intros g. cbn. set_solver.
    + exists W3. rewrite sumZ_cons. unfold metrics_scope_cost at 1. by rewrite !Z.add_assoc.
Qed.

End Resource.

(** What a metrics resource may cost: every scope, metric and point in it. *)
Definition metrics_resource_cost (rm : ResourceGroup R S Metric) : Z := resource_cost rm + sumZ (metrics_scope_cost <$> rg_scopes rm).

Lemma metrics_cost_est rm : resource_est rm <= metrics_resource_cost rm.
Proof.
  unfold resource_est, metrics_resource_cost. apply Z.add_le_mono_l, sumZ_le. intros s. unfold scope_est, metrics_scope_cost.
  apply Z.add_le_mono_l, sumZ_le. apply leaf_metric_cost.
Qed.

Lemma splitBigResourceMetrics_ok : big_ok metric_items splitBigResourceMetrics metrics_over uncut metrics_resource_cost 13.
Proof.
  intros rm M0 o r okp Mp Ne Fits Un Co Ok. unfold splitBigResourceMetrics. change (ResourceSize (emptyScopes rm) + elemOverhead) with (resource_cost rm).
  destruct (start_spec metric_items rm M0 okp (metrics_over M0 rm) uncut o r (fun g => g ∈ (o ≫= marks)) Co Ok) as (I0 & A0 & Op0).
  { done. }
  { intros Pay. left. destruct (rg_scopes rm) as [|s l] eqn:Es; [done|]. exists s. rewrite Es. split; [set_solver|].
    eapply pays_mono; [|exact Pay]. pose proof (scope_cost_pos s). lia. }
  destruct (metrics_scopes rm M0 okp Mp Fits Un (spent o) (rg_scopes rm) _ _ _ _ (_, 0) ltac:(done) I0 A0 ltac:(done)) as [I1 [W1 A1]].
  { intros Op. cbn [fst] in Op. congruence. }
  set (st := foldl _ _ _) in *. clearbody st. cbn [m_emit fst].
  destruct (account_emit _ _ _ _ _ _ Mp _ _ _ _ _ _ I1 A1) as [Sp Wc].
  destruct (shape_emit _ _ _ _ _ _ Fits (ok_single' rm M0 okp Un) (ok_lost' rm M0 okp Un) _ _ _ I1) as ([_ _ It Ma Co' _ Ok' _] & Op & _).
  unfold in_progress in It, Ma. rewrite Op, app_nil_r in It. split_and!; [exact It| |exact Co'|exact Ok'|].
  - intros g. rewrite Op, app_nil_r in Ma. rewrite (Ma g). unfold resource_marks. rewrite elem_of_cons, list_elem_of_fmap.
    split; [intros [?|[[_ ?]|(s & ? & ?)]]; eauto|]. intros [?|[?|(s & ? & ?)]]; eauto 6.
  - unfold metrics_resource_cost. pose proof (resource_cost_pos rm). lia.
Qed.

End Metrics.
