(* ===== verification/OtlpSplitSafe.v ===== *)
(** * What splitting a payload promises ([pkg/otlpsplit/otlpsplit.go])

    No record, span or data point is lost, repeated or moved to another resource
    or scope; a part is over the cap only where nothing could be cut, and the
    report says how often; and the parts together cost a bounded multiple of
    what the payload is estimated at, whatever its shape. *)

From S2P Require Import Prelude Clip OtlpSplit OtlpSplitInv OtlpSplitMetrics.
Local Open Scope Z_scope.

(** ** Statements *)
Section Statements.
Context {R S L : Type} `{Marshaler R S L} {X : Type} (contents : L -> list X).

Definition lossless (ld : payload R S L) (ps : list (payload R S L)) : Prop :=
  (ps ≫= items contents) = items contents ld /\ (forall g, g ∈ (ps ≫= marks) <-> g ∈ marks ld) /\ (ld <> [] -> ps <> []).

(** Nothing in [ld] is too large by itself: no resource without scopes, no
    framing, and no [piece], what a payload can be cut down to. *)
Definition divisible (piece : X -> L) (hopeless : Z -> ResourceGroup R S L -> Prop) (M : Z) (ld : payload R S L) : Prop :=
  (forall rl, rl ∈ ld -> rg_scopes rl = [] -> PayloadSize [rl] <= M) /\ (forall rl, rl ∈ ld -> ~ hopeless M rl) /\
  (forall r s x, (r, s, x) ∈ items contents ld -> PayloadSize [mkResource r [mkScope s [piece x]]] <= M).

Definition report_exact (piece : X -> L) (hopeless : Z -> ResourceGroup R S L -> Prop) (small : L -> Prop) (M : Z) (ld : payload R S L)
    (res : list (payload R S L) * Report) : Prop :=
  counted M res.1 res.2 /\ Forall (part_ok hopeless small M ld) res.1 /\
  (divisible piece hopeless M ld -> Forall (fun p => PayloadSize p <= M) res.1 /\ Oversize res.2 + Abandoned res.2 = 0).

End Statements.

Section Generic.
Context {R S L : Type} `{MarshalerLaws R S L} {X : Type} (contents : L -> list X) (piece : X -> L).
Context (big : ResourceGroup R S L -> Z -> list (payload R S L) -> Report -> list (payload R S L) * Report)
  (hopeless : Z -> ResourceGroup R S L -> Prop) (small : L -> Prop) (cost : ResourceGroup R S L -> Z) (K : Z)
  (Big : big_ok contents big hopeless small cost K) (K_pos : 1 <= K) (cost_est : forall r, resource_est r <= cost r)
  (small_piece : forall l, small l -> exists x, x ∈ contents l /\ piece x = l).

Lemma items_in (ps : list (payload R S L)) p it : p ∈ ps -> it ∈ items contents p -> it ∈ (ps ≫= items contents).
Proof. intros Hp Hi. apply list_elem_of_bind. eauto. Qed.

Lemma divisible_fits M ld ps r : split_ok contents hopeless small cost K M ld ps r -> divisible contents piece hopeless M ld ->
  Forall (fun p => PayloadSize p <= M) ps /\ Oversize r + Abandoned r = 0.
Proof.
  intros (Hi & _ & Hc & Ho & _) (D1 & D2 & D3).
  assert (F : Forall (fun p => PayloadSize p <= M) ps).
  { rewrite Forall_forall in *. intros p Hp. destruct (Ho p Hp) as [?|(rl & Hl & [[Es ->]|[(s & l & -> & Sm)|[Hh _]]])]; [done|by apply D1| |by destruct (D2 rl Hl)].
    destruct (small_piece l Sm) as (x & Hx & <-). apply D3. rewrite <- Hi. apply (items_in ps _ _ Hp).
    rewrite items_single. cbn [mbind list_bind]. rewrite app_nil_r. unfold scope_items. cbn [sg_leaves sg_scope mbind list_bind].
    rewrite app_nil_r. apply list_elem_of_fmap. by exists x. }
  split; [done|]. unfold counted in Hc. rewrite <- Hc.
  assert (E : filter (fun p => M < PayloadSize p) ps = []); [|by rewrite E].
  clear Hi Hc Ho. induction F as [|p ps Fp F IH]; [done|]. by rewrite filter_cons_False by lia.
Qed.

Lemma WithReport_lossless M ld : lossless contents ld (WithReport big ld M).1.
Proof.
  destruct (Z.le_gt_cases M 0) as [Np|Mp].
  - unfold WithReport. rewrite (proj2 (Z.leb_le M 0) Np). cbn. unfold lossless. cbn. by rewrite !app_nil_r.
  - pose proof (WithReport_ok contents big hopeless small cost K Big K_pos cost_est M ld Mp) as W. destruct (WithReport big ld M) as [ps r].
    destruct W as [(W1 & W2 & _) W3]. done.
Qed.

Lemma WithReport_exact M ld : 0 < M -> report_exact contents piece hopeless small M ld (WithReport big ld M).
Proof.
  intros Mp. pose proof (WithReport_ok contents big hopeless small cost K Big K_pos cost_est M ld Mp) as W. destruct (WithReport big ld M) as [ps r].
  destruct W as [W _]. pose proof (divisible_fits M ld ps r W) as D. destruct W as (_ & _ & W3 & W4 & _). done.
Qed.

Lemma WithReport_cost M ld : spent (WithReport big ld M).1 <= K * resources_cost cost ld.
Proof.
  destruct (Z.le_gt_cases M 0) as [Np|Mp].
  - unfold WithReport. rewrite (proj2 (Z.leb_le M 0) Np). cbn [orb fst]. change (spent [ld]) with (PayloadSize ld + 0). pose proof (size_est ld).
    enough (0 <= est ld <= resources_cost cost ld) by nia.
    unfold est, resources_cost. split; [apply sumZ_nonneg; intros r; pose proof (resource_est_pos r); lia|by apply sumZ_le].
  - pose proof (WithReport_ok contents big hopeless small cost K Big K_pos cost_est M ld Mp) as W. destruct (WithReport big ld M) as [ps r].
    destruct W as [(_ & _ & _ & _ & W) _]. done.
Qed.

End Generic.

(** ** The three signals *)
Section Signals.
Context {R S L : Type} `{MarshalerLaws R S L}.
Context {M N H0' E Q : Type}.
Notation Metric := (Metric M N H0' E Q).
Context `{MM : Marshaler R S Metric, !MarshalerLaws R S Metric, PM : PointMarshaler N H0' E Q, !PointLaws R S M N H0' E Q}.

Notation leaf := (fun l : L => [l]).

(** One point under its metric's shell, or the shell of a metric without points. *)
Definition metric_piece (x : Metric * option (point N H0' E Q)) : Metric :=
  match x.2 with Some p => appendTo p x.1 | None => x.1 end.

Lemma uncut_piece (m : Metric) : uncut m -> exists x, x ∈ metric_items m /\ metric_piece x = m.
Proof.
  unfold uncut. rewrite count_points. intros Hc. destruct (points m) as [|p [|q l]] eqn:Ps; [| |cbn in Hc; lia].
  - exists (copyMetricShell m, None). unfold metric_items. rewrite Ps. split; [set_solver|]. unfold metric_piece, points, copyMetricShell, with_data in *. cbn.
    destruct m as [n d u md dt]. cbn in *. destruct dt as [|dps|mono t dps|t dps|t dps|dps]; try destruct dps; done.
  - exists (copyMetricShell m, Some p). unfold metric_items. rewrite Ps. split; [cbn; set_solver|].
    unfold metric_piece, points, copyMetricShell, appendTo, with_data in *. cbn.
    destruct m as [n d u md dt]. cbn in *. destruct dt as [|dps|mono t dps|t dps|t dps|dps]; try done;
      (destruct dps as [|x [|y l]]; try done; injection Ps as <-; done).
Qed.

Notation logs_est := (resources_cost (R := R) (S := S) (L := L) resource_est).
Notation metrics_est := (resources_cost (R := R) (S := S) (L := Metric) metrics_resource_cost).

(** C6: A split loses nothing and invents nothing: read one after the other, the
    parts hold the records, spans or data points of the payload in its order,
    each under its resource, scope and, for a point, the shell of its metric;
    the resources and scopes of the parts are those of the payload, empty ones
    too; and a payload that is not empty yields a part. *)
Theorem split_lossless (maxBytes : Z) :
  (forall ld : payload R S L, lossless leaf ld (Logs ld maxBytes) /\ lossless leaf ld (Traces ld maxBytes)) /\
  (forall md : payload R S Metric, lossless metric_items md (Metrics md maxBytes)).
Proof.
  split; [intros ld; split|intros md].
  - apply (WithReport_lossless leaf _ _ _ _ _ splitBigResource_ok); [lia|done].
  - apply (WithReport_lossless leaf _ _ _ _ _ splitBigResource_ok); [lia|done].
  - apply (WithReport_lossless metric_items _ _ _ _ _ splitBigResourceMetrics_ok); [lia|apply metrics_cost_est].
Qed.

(** C20: The report counts exactly the parts whose encoded size is over the cap.
    Such a part is a resource without scopes, one leaf (a metric with one point
    at most) that is too large, or the rest of a resource whose framing leaves
    less than a quarter of the cap; and where the payload has none of these,
    every part is within the cap and the report is zero. *)
Theorem split_report_exact (maxBytes : Z) : 0 < maxBytes ->
  (forall ld : payload R S L, report_exact leaf id framing_over (fun _ => True) maxBytes ld (LogsWithReport ld maxBytes) /\
    report_exact leaf id framing_over (fun _ => True) maxBytes ld (TracesWithReport ld maxBytes)) /\
  (forall md : payload R S Metric, report_exact metric_items metric_piece metrics_over uncut maxBytes md (MetricsWithReport md maxBytes)).
Proof.
  intros Mp. split; [intros ld; split|intros md].
  - apply (WithReport_exact leaf id _ _ _ _ _ splitBigResource_ok); try done. intros l _. exists l. set_solver.
  - apply (WithReport_exact leaf id _ _ _ _ _ splitBigResource_ok); try done. intros l _. exists l. set_solver.
  - apply (WithReport_exact metric_items metric_piece _ _ _ _ _ splitBigResourceMetrics_ok); try done; [apply metrics_cost_est|apply uncut_piece].
Qed.

(** Whatever its shape, a payload costs a bounded multiple to send in parts:
    the encoded sizes of the parts add up to at most seven times what a payload
    of logs or spans is estimated at (each element at its size and eight bytes
    of framing), thirteen times for metrics. *)
Theorem split_cost_bounded (maxBytes : Z) :
  (forall ld : payload R S L, spent (Logs ld maxBytes) <= 7 * logs_est ld /\ spent (Traces ld maxBytes) <= 7 * logs_est ld) /\
  (forall md : payload R S Metric, spent (Metrics md maxBytes) <= 13 * metrics_est md).
Proof.
  split; [intros ld; split|intros md].
  - apply (WithReport_cost leaf _ _ _ _ _ splitBigResource_ok); [lia|done].
  - apply (WithReport_cost leaf _ _ _ _ _ splitBigResource_ok); [lia|done].
  - apply (WithReport_cost metric_items _ _ _ _ _ splitBigResourceMetrics_ok); [lia|apply metrics_cost_est].
Qed.

End Signals.

(** * Splitting payloads, evaluated

    A marshaler over messages known by their size alone, with the framing of
    protocol buffers: a tag byte and a length of one to five bytes.  A scope
    always has a field of its own, of two bytes at least. *)


(** A message of [n] bytes as a field. *)
Definition framed (n : Z) : Z := 1 + (if n <? 128 then 1 else if n <? 16384 then 2 else if n <? 2097152 then 3 else if n <? 268435456 then 4 else 5) + n.

Lemma framed_bounds n : n + 2 <= framed n <= n + 6.
Proof. unfold framed. repeat case_match; lia. Qed.

Section Framed.
Context {L : Type} (size : L -> N).

Definition scope_bytes (s : ScopeGroup N L) : Z := framed (Z.of_N (sg_scope s)) + sumZ ((fun l => framed (Z.of_N (size l))) <$> sg_leaves s).
Definition resource_bytes (r : ResourceGroup N N L) : Z := framed (Z.of_N (rg_resource r)) + sumZ ((fun s => framed (scope_bytes s)) <$> rg_scopes r).

Definition framed_marshaler : Marshaler N N L := {|
  PayloadSize td := sumZ ((fun r => framed (resource_bytes r)) <$> td);
  ResourceSize := resource_bytes; ScopeSize := scope_bytes; LeafSize l := Z.of_N (size l) |}.

Lemma framed_laws : MarshalerLaws (H := framed_marshaler) N N L.
Proof.
  assert (S0 : forall s, 0 <= scope_bytes s).
  { intros s. unfold scope_bytes. pose proof (framed_bounds (Z.of_N (sg_scope s))).
    enough (0 <= sumZ ((fun l => framed (Z.of_N (size l))) <$> sg_leaves s)) by lia. apply sumZ_nonneg. intros l. pose proof (framed_bounds (Z.of_N (size l))). lia. }
  split; unfold elemOverhead; cbn [PayloadSize ResourceSize ScopeSize LeafSize framed_marshaler].
  - intros td. apply sumZ_le. intros r. pose proof (framed_bounds (resource_bytes r)). lia.
  - intros r. unfold resource_bytes at 1 2. cbn [emptyScopes rg_resource rg_scopes fmap list_fmap]. change (sumZ []) with 0.
    enough (sumZ ((fun s => framed (scope_bytes s)) <$> rg_scopes r) <= sumZ ((fun s => scope_bytes s + 8) <$> rg_scopes r)) by lia.
    apply sumZ_le. intros s. pose proof (framed_bounds (scope_bytes s)). lia.
  - intros s. unfold scope_bytes at 1 2. cbn [emptyLeaves sg_scope sg_leaves fmap list_fmap]. change (sumZ []) with 0.
    enough (sumZ ((fun l => framed (Z.of_N (size l))) <$> sg_leaves s) <= sumZ ((fun l => Z.of_N (size l) + 8) <$> sg_leaves s)) by lia.
    apply sumZ_le. intros l. pose proof (framed_bounds (Z.of_N (size l))). lia.
  - intros r. unfold resource_bytes. pose proof (framed_bounds (Z.of_N (rg_resource r))).
    enough (0 <= sumZ ((fun s => framed (scope_bytes s)) <$> rg_scopes r)) by lia. apply sumZ_nonneg.
    intros s. pose proof (framed_bounds (scope_bytes s)). specialize (S0 s). lia.
  - done.
  - lia.
Qed.

End Framed.

#[local] Instance ex_logs : Marshaler N N N := framed_marshaler id.
#[local] Instance ex_logs_laws : MarshalerLaws N N N := framed_laws id.

#[local] Instance ex_points : PointMarshaler N N N N :=
  {| NumberDataPointSize := Z.of_N; HistogramDataPointSize := Z.of_N; ExponentialHistogramDataPointSize := Z.of_N; SummaryDataPointSize := Z.of_N |}.

(** A metric's strings and metadata, and its points. *)
Definition ex_metric_size (m : Metric N N N N N) : N :=
  Z.to_N (Z.of_nat (length (m_name m) + length (m_description m) + length (m_unit m)) + Z.of_N (m_metadata m) +
    sumZ ((fun p => framed (sizeOf p)) <$> points m)).

#[local] Instance ex_metrics : Marshaler N N (Metric N N N N N) := framed_marshaler ex_metric_size.
#[local] Instance ex_metrics_laws : MarshalerLaws N N (Metric N N N N N) := framed_laws ex_metric_size.

Lemma ex_point_nonneg (p : point N N N N) : 0 <= sizeOf p.
Proof. destruct p; cbn; lia. Qed.

#[local] Instance ex_point_laws : PointLaws N N N N N N N.
Proof.
  split; [|apply ex_point_nonneg]. intros m. cbn [LeafSize ex_metrics framed_marshaler]. unfold ex_metric_size.
  assert (P : 0 <= sumZ ((fun p => framed (sizeOf p)) <$> points m) <= sumZ ((fun p => sizeOf p + elemOverhead) <$> points m)).
  { split; [apply sumZ_nonneg; intros p; pose proof (framed_bounds (sizeOf p)); pose proof (ex_point_nonneg p); lia|].
    apply sumZ_le. intros p. pose proof (framed_bounds (sizeOf p)). unfold elemOverhead. lia. }
  destruct (shell_spec m) as [-> _]. change (sumZ ((fun p => framed (sizeOf p)) <$> [])) with 0. cbn [copyMetricShell with_data m_name m_description m_unit m_metadata]. lia.
Qed.

(** A resource of three records in two scopes against a cap that takes two; and
    a gauge of five points against one that takes two. *)
Definition ex_ld : payload N N N := [mkResource 4%N [mkScope 2%N [20; 21]%N; mkScope 1%N [22]%N]].
Definition ex_md : payload N N (Metric N N N N N) := [mkResource 4%N [mkScope 2%N [mkMetric [103] [] [] 0%N (Gauge [9; 10; 11; 12; 13]%N)]]].

Lemma split_lossless_witness :
  (lossless (fun l : N => [l]) ex_ld (Logs ex_ld 70) /\ length (Logs ex_ld 70) = 3%nat) /\
  (lossless metric_items ex_md (Metrics ex_md 78) /\ length (Metrics ex_md 78) = 3%nat).
Proof.
  split; (split; [|reflexivity]).
  - exact (proj1 (proj1 (split_lossless (R := N) (S := N) (L := N) (M := N) (N := N) (H0' := N) (E := N) (Q := N) 70) ex_ld)).
  - exact (proj2 (split_lossless (R := N) (S := N) (L := N) (M := N) (N := N) (H0' := N) (E := N) (Q := N) 78) ex_md).
Defined.

(** Nothing in it is too large by itself. *)
Lemma ex_ld_divisible : divisible (fun l : N => [l]) id framing_over 70 ex_ld.
Proof.
  split; [|split].
  - intros rl Hl. apply list_elem_of_singleton in Hl as ->. done.
  - intros rl Hl. apply list_elem_of_singleton in Hl as ->. intros (s & Hs & Pay). cbn in Hs.
    apply elem_of_cons in Hs as [->|Hs]; [by vm_compute in Pay|]. apply list_elem_of_singleton in Hs as ->. by vm_compute in Pay.
  - intros r s x Hx. cbn in Hx. repeat (apply elem_of_cons in Hx as [Hx|Hx]; [injection Hx as -> -> ->; by vm_compute|]). by apply elem_of_nil in Hx.
Qed.

(** With one record of a hundred bytes added, one part is over. *)
Definition ex_big : payload N N N := [mkResource 4%N [mkScope 2%N [20; 100]%N]].

Lemma split_report_exact_witness :
  (Forall (fun p => PayloadSize p <= 70) (Logs ex_ld 70) /\ (LogsWithReport ex_ld 70).2 = noReport) /\
  (report_exact (fun l : N => [l]) id framing_over (fun _ => True) 70 ex_big (LogsWithReport ex_big 70) /\ (LogsWithReport ex_big 70).2 = mkReport 1 0) /\
  (report_exact metric_items metric_piece metrics_over uncut 78 ex_md (MetricsWithReport ex_md 78) /\ (MetricsWithReport ex_md 78).2 = noReport).
Proof.
  split; [|split]; (split; [|reflexivity]).
  - destruct (proj1 (split_report_exact (R := N) (S := N) (L := N) (M := N) (N := N) (H0' := N) (E := N) (Q := N) 70 ltac:(lia)) ex_ld) as [(_ & _ & D) _].
    apply D, ex_ld_divisible.
  - exact (proj1 (proj1 (split_report_exact (R := N) (S := N) (L := N) (M := N) (N := N) (H0' := N) (E := N) (Q := N) 70 ltac:(lia)) ex_big)).
  - exact (proj2 (split_report_exact (R := N) (S := N) (L := N) (M := N) (N := N) (H0' := N) (E := N) (Q := N) 78 ltac:(lia)) ex_md).
Defined.

Lemma split_cost_bounded_witness : spent (Logs ex_ld 70) = 115 /\ spent (Logs ex_ld 70) <= 7 * resources_cost resource_est ex_ld.
Proof.
  split; [reflexivity|].
  exact (proj1 (proj1 (split_cost_bounded (R := N) (S := N) (L := N) (M := N) (N := N) (H0' := N) (E := N) (Q := N) 70) ex_ld)).
Defined.

(** Seven times is of the estimate: of the encoded size a sender pays for, a
    payload can cost more.  A scope without records takes four bytes and is
    estimated at ten, so where the framing leaves just over a quarter of the cap
    eleven hundred of them cost more than seven times their encoded size. *)
Definition ex_scopes : payload N N N := [mkResource 279%N (replicate 1100 (mkScope 0%N []))].

Example empty_scopes_over_seven : splitPaysOff (resource_cost (mkResource 279%N []) + scope_cost (mkScope (S := N) (L := N) 0%N [])) 400 = true /\
  7 * PayloadSize ex_scopes < spent (Logs ex_scopes 400).
Proof. split; [reflexivity|]. apply Z.ltb_lt. vm_compute. reflexivity. Qed.
