(* ===== verification/KubeMeta.v ===== *)
(** * Annotations and labels served with metadata ([pkg/kubemeta/annotations.go])

    Every labels-and-annotations pair the metadata API serves passes through
    here: the keys it refuses, the two ceilings on annotations, the one on an
    owner's labels, and the note that names what was refused.

    A map is a [gmap] and a nil map an empty one, which is how each is read and
    served.  A [range] over a map is an order of its entries, an argument. *)

From S2P Require Import Prelude Clip Number Text.
From S2P Require Export Order.
Local Open Scope Z_scope.

Notation strmap := (gmap bytes bytes).
Notation entries := (list (bytes * bytes)).

Definition len (s : bytes) : Z := Z.of_nat (length s).

Definition OmittedAnnotation : bytes := text "kubescrape.io/annotations-omitted".
Definition LabelsOmittedAnnotation : bytes := text "kubescrape.io/labels-omitted".

Definition refusedAnnotations : list bytes :=
  [text "kubectl.kubernetes.io/last-applied-configuration"; text "kapp.k14s.io/original"; OmittedAnnotation; LabelsOmittedAnnotation].
Definition refused (k : bytes) : bool := bool_decide (k ∈ refusedAnnotations).

Definition StripDroppedAnnotations (m : strmap) : strmap * bool :=
  foldl (fun '(m, dropped) k => match m !! k with Some _ => (delete k m, true) | None => (m, dropped) end) (m, false) refusedAnnotations.

Definition MaxAnnotationValueBytes : Z := 8192.
Definition MaxAnnotationBytes : Z := 16384.
Definition MaxOwnerLabelBytes : Z := 16384.
Definition maxOmittedNamedBytes : Z := 512.

Definition preservedAnnotationPrefixes : list bytes := [text "prometheus.io/"; text "kubescrape.io/"].

(** [strings.HasPrefix] *)
Fixpoint HasPrefix (s p : bytes) : bool :=
  match p, s with [], _ => true | _, [] => false | c :: p, d :: s => bool_decide (c = d) && HasPrefix s p end.

Definition preservedAnnotation (k : bytes) : bool := existsb (HasPrefix k) preservedAnnotationPrefixes.

(** ** The notes *)

Definition omittedListPrefix : bytes := text "; omitted: ".
Definition omittedListSep : bytes := text ", ".

(** The loop of [appendNamedKeys]: what it writes and how many keys it named. *)
Fixpoint named_loop (keys : list bytes) (named : nat) (spent : Z) (b : bytes) : bytes * nat :=
  match keys with
  | [] => (b, named)
  | k :: keys =>
      if maxOmittedNamedBytes <? spent + len k then (b, named)
      else named_loop keys (S named) (spent + (len k + len omittedListSep))
             (b ++ (if bool_decide (named = 0%nat) then omittedListPrefix else omittedListSep) ++ k)
  end.

Definition appendNamedKeys (b : bytes) (keys : list bytes) : bytes :=
  let '(b, named) := named_loop keys 0 0 b in
  let rest := Z.of_nat (length keys) - Z.of_nat named in
  if 0 <? rest then
    b ++ (if bool_decide (named = 0%nat) then omittedListPrefix else omittedListSep) ++ text "+" ++ FormatInt rest ++ text " more"
  else b.

Definition omittedNote (keys : list bytes) : bytes :=
  appendNamedKeys (FormatInt (Z.of_nat (length keys)) ++ text " annotation(s) omitted by kubescrape: a value over " ++
    FormatInt MaxAnnotationValueBytes ++ text " bytes, or this object's " ++ FormatInt MaxAnnotationBytes ++ text "-byte annotation budget was spent") keys.

Definition omittedLabelsNote (keys : list bytes) : bytes :=
  appendNamedKeys (FormatInt (Z.of_nat (length keys)) ++ text " label(s) omitted by kubescrape: this owner's " ++
    FormatInt MaxOwnerLabelBytes ++ text "-byte label budget was spent") keys.

(** ** Annotations *)

(** Keys are admitted in order while they fit; one that does not is skipped. *)
Fixpoint admitAnnotations (m : strmap) (keys : list bytes) (out : strmap) (spent : Z) : list bytes * Z * strmap :=
  match keys with
  | [] => ([], spent, out)
  | k :: keys =>
      let v := default [] (m !! k) in
      let cost := len k + len v in
      if spent + cost <=? MaxAnnotationBytes then admitAnnotations m keys (<[k := v]> out) (spent + cost)
      else let '(refused, spent, out) := admitAnnotations m keys out spent in (k :: refused, spent, out)
  end.

Fixpoint appendMerged (a : list bytes) : list bytes -> list bytes :=
  fix merge_b (b : list bytes) : list bytes :=
    match a, b with
    | x :: a', y :: b' => if negb (name_leb y x) then x :: appendMerged a' b else y :: merge_b b'
    | _, [] => a
    | [], _ => b
    end.

(** The four lists of the partition; [rest] is filled from the end of the slice. *)
Record partition := mkPartition { preserved : list bytes; rest : list bytes; bigPreserved : list bytes; bigRest : list bytes }.

Definition partition_one (p : partition) (kv : bytes * bytes) : partition :=
  let '(k, v) := kv in
  if refused k then p
  else if MaxAnnotationValueBytes <? len v then
    if preservedAnnotation k then mkPartition (preserved p) (rest p) (bigPreserved p ++ [k]) (bigRest p)
    else mkPartition (preserved p) (rest p) (bigPreserved p) (bigRest p ++ [k])
  else if preservedAnnotation k then mkPartition (preserved p ++ [k]) (rest p) (bigPreserved p) (bigRest p)
  else mkPartition (preserved p) (k :: rest p) (bigPreserved p) (bigRest p).

Definition budgetAnnotations (ord : entries) (m : strmap) : strmap :=
  let p := foldl partition_one (mkPartition [] [] [] []) ord in
  let '(pres, spent, out) := admitAnnotations m (sort_names (preserved p)) ∅ 0 in
  let '(rst, _, out) := admitAnnotations m (sort_names (rest p)) out spent in
  let named := appendMerged (sort_names (bigPreserved p)) pres ++ appendMerged (sort_names (bigRest p)) rst in
  <[OmittedAnnotation := omittedNote named]> out.

(** The common path; [slow] is the answer of the other. *)
Fixpoint filter_loop (slow : strmap) (ord : entries) (out : strmap) (total : Z) : strmap :=
  match ord with
  | [] => out
  | (k, v) :: ord =>
      if refused k then filter_loop slow ord out total
      else if MaxAnnotationValueBytes <? len v then slow
      else let total := total + (len k + len v) in
           if MaxAnnotationBytes <? total then slow else filter_loop slow ord (<[k := v]> out) total
  end.

(** [ord] and [ord'] are the orders of the two ranges over [m]. *)
Definition FilterAnnotations (ord ord' : entries) (m : strmap) : strmap :=
  if decide (m = ∅) then ∅ else filter_loop (budgetAnnotations ord' m) ord ∅ 0.

Definition AnnotationsOmitted (m : strmap) : bool := bool_decide (is_Some (m !! OmittedAnnotation)).

(** ** An owner's labels *)

Fixpoint admit_labels (labels : strmap) (keys : list bytes) (out : strmap) (spent : Z) : strmap * list bytes :=
  match keys with
  | [] => (out, [])
  | k :: keys =>
      let v := default [] (labels !! k) in
      let cost := len k + len v in
      if spent + cost <=? MaxOwnerLabelBytes then admit_labels labels keys (<[k := v]> out) (spent + cost)
      else let '(out, omitted) := admit_labels labels keys out spent in (out, k :: omitted)
  end.

Definition budgetOwnerLabelsSorted (ord : entries) (labels : strmap) : strmap * list bytes :=
  admit_labels labels (sort_names (ord.*1)) ∅ 0.

Fixpoint labels_loop (slow : strmap * list bytes) (ord : entries) (fast : strmap) (total : Z) : strmap * list bytes :=
  match ord with
  | [] => (fast, [])
  | (k, v) :: ord =>
      let total := total + (len k + len v) in
      if MaxOwnerLabelBytes <? total then slow else labels_loop slow ord (<[k := v]> fast) total
  end.

Definition budgetOwnerLabels (ord ord' : entries) (labels : strmap) : strmap * list bytes :=
  if decide (labels = ∅) then (∅, []) else labels_loop (budgetOwnerLabelsSorted ord' labels) ord ∅ 0.

Definition LabelsOmitted (annotations : strmap) : bool := bool_decide (is_Some (annotations !! LabelsOmittedAnnotation)).

(** [CopyMeta] and [CopyOwnerMeta]; a copy of a map is the map. *)
Definition CopyMeta (ord ord' : entries) (labels annotations : strmap) : strmap * strmap := (labels, FilterAnnotations ord ord' annotations).

Definition CopyOwnerMeta (lord lord' aord aord' : entries) (labels annotations : strmap) : strmap * strmap :=
  let '(outLabels, omitted) := budgetOwnerLabels lord lord' labels in
  let outAnnotations := FilterAnnotations aord aord' annotations in
  (outLabels, match omitted with [] => outAnnotations | _ => <[LabelsOmittedAnnotation := omittedLabelsNote omitted]> outAnnotations end).

(** ** Reading the note *)

(** [strings.Cut] and [strings.Split] with a separator that is not empty; what
    [Split] cuts is shorter each time, so the length is fuel enough. *)
Fixpoint Cut (s sep : bytes) : option (bytes * bytes) :=
  if HasPrefix s sep then Some ([], drop (length sep) s)
  else match s with [] => None | c :: s => match Cut s sep with Some (a, b) => Some (c :: a, b) | None => None end end.

Fixpoint split_loop (fuel : nat) (s sep : bytes) : list bytes :=
  match fuel with
  | 0%nat => [s]
  | S fuel => match Cut s sep with Some (a, b) => a :: split_loop fuel b sep | None => [s] end
  end.
Definition Split (s sep : bytes) : list bytes := split_loop (length s) s sep.

Definition AnnotationWasOmitted (m : strmap) (key : bytes) : bool :=
  match m !! OmittedAnnotation with
  | None => false
  | Some note =>
      match Cut note omittedListPrefix with
      | None => false
      | Some (_, names) => existsb (fun name => bool_decide (name = key)) (Split names omittedListSep)
      end
  end.
