(* ===== verification/KubeMetaSafe.v ===== *)
(** * What is served of annotations and labels ([pkg/kubemeta/annotations.go])

    The map that is served is a function of the object's map, not of the order
    Go walks it in; it is bounded whatever the object carries; and the note says
    which keys were refused, and can be read back. *)

From S2P Require Import Prelude Clip Number Text Order KubeMeta.
Local Open Scope Z_scope.

(** ** What is served, stated without an order *)

Definition ann_cost (kv : bytes * bytes) : Z := len kv.1 + len kv.2.
Definition kept (l : entries) : entries := filter (fun kv => refused kv.1 = false) l.
Definition small (kv : bytes * bytes) : Prop := len kv.2 <= MaxAnnotationValueBytes.

(** Every key that may be served, those of this project's derivations first. *)
Definition of_class (P : bool) (l : entries) : list bytes := filter (fun k => preservedAnnotation k = P) l.*1.
Definition served_order (l : entries) : list bytes := sort_names (of_class true l) ++ sort_names (of_class false l).

Definition fits (m : strmap) : Prop :=
  Forall small (kept (map_to_list m)) /\ sumZ (ann_cost <$> kept (map_to_list m)) <= MaxAnnotationBytes.

(** The keys admitted when they do not all fit, greedily in that order, and the
    rest, in that order too. *)
Definition admitted (m : strmap) : strmap := (admitAnnotations m (served_order (filter small (kept (map_to_list m)))) ∅ 0).2.
Definition omitted (m : strmap) : list bytes := served_order (filter (fun kv => admitted m !! kv.1 = None) (kept (map_to_list m))).

Definition served (m : strmap) : strmap :=
  if decide (fits m) then filter (fun kv => refused kv.1 = false) m
  else <[OmittedAnnotation := omittedNote (omitted m)]> (admitted m).

(** ** Sorting and merging *)

Lemma sort_names_sorted l : StronglySorted name_le (sort_names l).
Proof. apply StronglySorted_merge_sort; apply _. Qed.

Lemma sorted_is_sort l : StronglySorted name_le l -> sort_names l = l.
Proof. intros Hs. apply (StronglySorted_unique name_le); [apply sort_names_sorted|done|apply sort_names_perm]. Qed.

Lemma appendMerged_cons a x b y : appendMerged (x :: a) (y :: b) =
  if negb (name_leb y x) then x :: appendMerged a (y :: b) else y :: appendMerged (x :: a) b.
Proof. done. Qed.

Lemma appendMerged_nil_l b : appendMerged [] b = b.
Proof. by destruct b. Qed.

Lemma appendMerged_nil_r a : appendMerged a [] = a.
Proof. by destruct a. Qed.

Lemma appendMerged_perm a : forall b, appendMerged a b ≡ₚ a ++ b.
Proof.
  induction a as [|x a IH]; intros b; [by rewrite appendMerged_nil_l|].
  induction b as [|y b IHb]; [by rewrite appendMerged_nil_r, app_nil_r|]. rewrite appendMerged_cons. destruct (negb _).
  - cbn. by rewrite IH.
  - rewrite IHb. by rewrite (Permutation_middle (x :: a) b y).
Qed.

Lemma name_lt_le x y : negb (name_leb y x) = true -> name_le x y.
Proof. intros Hn. destruct (name_le_total x y) as [|Hl]; [done|]. unfold name_le in Hl. by rewrite Hl in Hn. Qed.

Lemma appendMerged_sorted a : forall b, StronglySorted name_le a -> StronglySorted name_le b -> StronglySorted name_le (appendMerged a b).
Proof.
  induction a as [|x a IH]; intros b Sa Sb; [by rewrite appendMerged_nil_l|].
  induction b as [|y b IHb]; [by rewrite appendMerged_nil_r|]. rewrite appendMerged_cons.
  apply StronglySorted_inv in Sa as Sa'. apply StronglySorted_inv in Sb as Sb'. destruct Sa' as [Sa' Fa], Sb' as [Sb' Fb].
  destruct (negb (name_leb y x)) eqn:E.
  - apply name_lt_le in E. constructor; [by apply IH|]. rewrite appendMerged_perm. apply Forall_app_2; [done|]. constructor; [done|].
    eapply Forall_impl; [exact Fb|]. intros z Hz. by eapply name_le_trans.
  - constructor; [by apply IHb|]. apply negb_false_iff in E. rewrite appendMerged_perm. apply Forall_app_2; [|done]. constructor; [done|].
    eapply Forall_impl; [exact Fa|]. intros z Hz. by eapply name_le_trans.
Qed.

Lemma appendMerged_sort a b : StronglySorted name_le a -> StronglySorted name_le b -> appendMerged a b = sort_names (a ++ b).
Proof.
  intros Sa Sb. rewrite <- (sorted_is_sort (appendMerged a b)) by (by apply appendMerged_sorted). apply sort_names_unique, appendMerged_perm.
Qed.

(** ** Admission *)

Lemma admit_app m l1 : forall l2 out spent, admitAnnotations m (l1 ++ l2) out spent =
  let '(r1, s1, o1) := admitAnnotations m l1 out spent in let '(r2, s2, o2) := admitAnnotations m l2 o1 s1 in (r1 ++ r2, s2, o2).
Proof.
  induction l1 as [|k l1 IH]; intros l2 out spent; cbn [admitAnnotations app].
  - by destruct (admitAnnotations m l2 out spent) as [[? ?] ?].
  - destruct (_ <=? _); [apply IH|]. rewrite IH. destruct (admitAnnotations m l1 out spent) as [[r1 s1] o1].
    by destruct (admitAnnotations m l2 o1 s1) as [[? ?] ?].
Qed.

Lemma admit_spec m l : forall out spent, let '(r, s, o) := admitAnnotations m l out spent in NoDup l -> (forall k, k ∈ l -> out !! k = None) ->
  r = filter (fun k => o !! k = None) l /\ (forall k v, o !! k = Some v <-> out !! k = Some v \/ (k ∈ l /\ k ∉ r /\ v = default [] (m !! k))).
Proof.
  induction l as [|k l IH]; intros out spent; cbn [admitAnnotations].
  { intros _ _. split; [done|]. intros k v. rewrite elem_of_nil. tauto. }
  destruct (_ <=? _).
  - specialize (IH (<[k := default [] (m !! k)]> out) (spent + (len k + len (default [] (m !! k))))).
    destruct (admitAnnotations m l _ _) as [[r s] o]. intros Nd Hd. apply NoDup_cons in Nd as [Nk Nd].
    destruct IH as [IH1 IH2]; [done|intros j Hj; rewrite lookup_insert_ne by set_solver; apply Hd; set_solver|].
    assert (Ok : o !! k = Some (default [] (m !! k))) by (apply IH2; left; apply lookup_insert_eq).
    split; [rewrite filter_cons_False by (by rewrite Ok); done|].
    assert (Nr : k ∉ r) by (rewrite IH1, list_elem_of_filter; intros [? _]; congruence).
    intros j v. rewrite IH2. destruct (decide (j = k)) as [->|Hj].
    + rewrite lookup_insert_eq. split.
      * intros [[= <-]|(? & _)]; [right; set_solver|done].
      * intros [Ho|(_ & _ & ->)]; [rewrite Hd in Ho by set_solver; done|by left].
    + rewrite lookup_insert_ne by done. set_solver.
  - specialize (IH out spent). destruct (admitAnnotations m l out spent) as [[r s] o]. intros Nd Hd. apply NoDup_cons in Nd as [Nk Nd].
    destruct IH as [IH1 IH2]; [done|intros j Hj; apply Hd; set_solver|].
    assert (Ok : o !! k = None).
    { destruct (o !! k) as [v|] eqn:E; [|done]. apply IH2 in E as [E|(? & _)]; [rewrite Hd in E by set_solver; done|done]. }
    split; [by rewrite filter_cons_True, IH1|]. intros j v. rewrite IH2. set_solver.
Qed.

(** What is admitted is bounded, and what is bounded is what was there. *)
Lemma admit_spent m l : forall out spent, spent <= MaxAnnotationBytes -> let '(r, s, o) := admitAnnotations m l out spent in s <= MaxAnnotationBytes.
Proof.
  induction l as [|k l IH]; intros out spent Hs; cbn [admitAnnotations]; [done|].
  destruct (Z.leb_spec (spent + (len k + len (default [] (m !! k)))) MaxAnnotationBytes); [by apply IH|].
  specialize (IH out spent Hs). by destruct (admitAnnotations m l out spent) as [[? ?] ?].
Qed.

(** ** The two paths *)

Section Filter.
Context (m : strmap).

(** An order of the entries of [m], as [range] walks them. *)
Definition ranges (ord : entries) : Prop := ord ≡ₚ map_to_list m.

Lemma of_class_perm P l l' : l ≡ₚ l' -> of_class P l ≡ₚ of_class P l'.
Proof. intros E. unfold of_class. by rewrite E. Qed.

#[local] Instance of_class_proper P : Proper ((≡ₚ) ==> (≡ₚ)) (of_class P).
Proof. intros l l'. apply of_class_perm. Qed.

Lemma kept_perm l l' : l ≡ₚ l' -> kept l ≡ₚ kept l'.
Proof. intros E. unfold kept. by rewrite E. Qed.

Lemma of_class_cons P k v l : of_class P ((k, v) :: l) = if decide (preservedAnnotation k = P) then k :: of_class P l else of_class P l.
Proof. unfold of_class. by rewrite fmap_cons, filter_cons. Qed.

Lemma partition_spec ord : forall p, let q := foldl partition_one p ord in
  let fit := filter small (kept ord) in let big := filter (fun kv => ~ small kv) (kept ord) in
  preserved q ≡ₚ preserved p ++ of_class true fit /\ rest q ≡ₚ rest p ++ of_class false fit /\
  bigPreserved q ≡ₚ bigPreserved p ++ of_class true big /\ bigRest q ≡ₚ bigRest p ++ of_class false big.
Proof.
  induction ord as [|[k v] ord IH]; intros p; [cbn; by rewrite !app_nil_r|].
  cbn [foldl]. destruct (IH (partition_one p (k, v))) as (I1 & I2 & I3 & I4). clear IH. cbv zeta in *.
  unfold kept. rewrite (filter_cons _ (k, v) ord). fold (kept ord). cbn [fst].
  assert (E : partition_one p (k, v) = if refused k then p
    else if MaxAnnotationValueBytes <? len v then
      if preservedAnnotation k then mkPartition (preserved p) (rest p) (bigPreserved p ++ [k]) (bigRest p)
      else mkPartition (preserved p) (rest p) (bigPreserved p) (bigRest p ++ [k])
    else if preservedAnnotation k then mkPartition (preserved p ++ [k]) (rest p) (bigPreserved p) (bigRest p)
    else mkPartition (preserved p) (k :: rest p) (bigPreserved p) (bigRest p)) by done.
  destruct (refused k) eqn:R; rewrite E in *; [by rewrite decide_False by done|]. rewrite decide_True by done.
  rewrite !(filter_cons _ (k, v) (kept ord)). destruct (Z.ltb_spec MaxAnnotationValueBytes (len v)) as [Big|Fit].
  - rewrite (decide_False (P := small (k, v))) by (unfold small; cbn; lia).
    rewrite (decide_True (P := ~ small (k, v))) by (unfold small; cbn; lia). rewrite !of_class_cons.
    destruct (preservedAnnotation k); cbn [decide preserved rest bigPreserved bigRest] in *; rewrite I1, I2, I3, I4; split_and!; try done; by rewrite <- app_assoc.
  - rewrite (decide_True (P := small (k, v))) by (unfold small; cbn; lia).
    rewrite (decide_False (P := ~ small (k, v))) by (unfold small; cbn; tauto). rewrite !of_class_cons.
    destruct (preservedAnnotation k); cbn [decide preserved rest bigPreserved bigRest] in *; rewrite I1, I2, I3, I4; split_and!; try done;
      [by rewrite <- app_assoc|apply Permutation_middle].
Qed.

Lemma of_class_in P l k : k ∈ of_class P l <-> preservedAnnotation k = P /\ exists v, (k, v) ∈ l.
Proof.
  unfold of_class. rewrite list_elem_of_filter, list_elem_of_fmap. split.
  - intros [? ([k' v] & -> & ?)]. split; [done|]. by exists v.
  - intros [? [v ?]]. split; [done|]. by exists (k, v).
Qed.

Lemma of_class_NoDup P l : NoDup l.*1 -> NoDup (of_class P l).
Proof. apply NoDup_filter. Qed.

Lemma keys_NoDup (Q : bytes * bytes -> Prop) `{!forall kv, Decision (Q kv)} l : NoDup l.*1 -> NoDup (filter Q l).*1.
Proof. intros Nd. eapply sublist_NoDup; [exact Nd|]. apply fmap_sublist, sublist_filter. Qed.

Lemma kept_NoDup : NoDup (kept (map_to_list m)).*1.
Proof. apply keys_NoDup, NoDup_fst_map_to_list. Qed.

Lemma kept_in k v : (k, v) ∈ kept (map_to_list m) <-> refused k = false /\ m !! k = Some v.
Proof. unfold kept. by rewrite list_elem_of_filter, elem_of_map_to_list. Qed.

Lemma filter_sorted (Q : bytes -> Prop) `{!forall k, Decision (Q k)} l : StronglySorted name_le l -> StronglySorted name_le (filter Q l).
Proof.
  induction 1 as [|k l Hs IH Hf]; [constructor|]. rewrite filter_cons. case_decide; [|done]. constructor; [done|].
  rewrite Forall_forall in *. intros x Hx. apply list_elem_of_filter in Hx as [_ Hx]. by apply Hf.
Qed.

Notation fit := (filter small (kept (map_to_list m))).
Notation big := (filter (fun kv => ~ small kv) (kept (map_to_list m))).

Lemma fit_in k v : (k, v) ∈ fit <-> len v <= MaxAnnotationValueBytes /\ refused k = false /\ m !! k = Some v.
Proof. by rewrite list_elem_of_filter, kept_in. Qed.

Lemma admitted_in k v : admitted m !! k = Some v -> (k, v) ∈ fit.
Proof.
  unfold admitted. pose proof (admit_spec m (served_order fit) ∅ 0) as A. destruct (admitAnnotations m (served_order fit) ∅ 0) as [[r s] o].
  cbn [snd]. intros Ho. destruct A as [_ A].
  - unfold served_order. apply NoDup_app. split_and!.
    + rewrite sort_names_perm. apply of_class_NoDup, keys_NoDup, kept_NoDup.
    + intros j. rewrite !sort_names_perm, !of_class_in. intros [? _] [? _]. congruence.
    + rewrite sort_names_perm. apply of_class_NoDup, keys_NoDup, kept_NoDup.
  - intros. apply lookup_empty.
  - apply A in Ho as [Ho|(Hk & _ & ->)]; [by rewrite lookup_empty in Ho|].
    unfold served_order in Hk. rewrite elem_of_app, !sort_names_perm, !of_class_in in Hk.
    assert (exists v, (k, v) ∈ fit) as [v Hv] by (destruct Hk as [[_ ?]|[_ ?]]; done). apply fit_in in Hv as Hm. destruct Hm as (_ & _ & ->). done.
Qed.

(** What is not admitted, by class: the values over the ceiling, and those the
    budget refused. *)
Lemma omitted_class P : of_class P (filter (fun kv => admitted m !! kv.1 = None) (kept (map_to_list m))) ≡ₚ
  of_class P big ++ filter (fun k => admitted m !! k = None) (sort_names (of_class P fit)).
Proof.
  apply NoDup_Permutation.
  - apply of_class_NoDup, keys_NoDup, kept_NoDup.
  - apply NoDup_app. split_and!.
    + apply of_class_NoDup, keys_NoDup, kept_NoDup.
    + intros k. rewrite of_class_in, list_elem_of_filter, sort_names_perm, of_class_in. intros [_ [v Hv]] [_ [_ [w Hw]]].
      apply list_elem_of_filter in Hv as [Nv Hv]. apply list_elem_of_filter in Hw as [Sw Hw]. apply kept_in in Hv, Hw.
      assert (v = w) as -> by naive_solver. done.
    + apply NoDup_filter. rewrite sort_names_perm. apply of_class_NoDup, keys_NoDup, kept_NoDup.
  - intros k. rewrite elem_of_app, list_elem_of_filter, sort_names_perm, !of_class_in. split.
    + intros [HP [v Hv]]. apply list_elem_of_filter in Hv as [Na Hv]. destruct (decide (small (k, v))) as [Hs|Hb].
      * right. split; [done|]. split; [done|]. exists v. by apply list_elem_of_filter.
      * left. split; [done|]. exists v. by apply list_elem_of_filter.
    + intros [[HP [v Hv]]|[Na [HP [v Hv]]]]; apply list_elem_of_filter in Hv as [Hb Hv]; (split; [done|]); exists v; apply list_elem_of_filter; split; try done.
      cbn. destruct (admitted m !! k) as [w|] eqn:E; [|done]. apply admitted_in, list_elem_of_filter in E as [Sw Hw].
      apply kept_in in Hv, Hw. assert (v = w) as -> by naive_solver. done.
Qed.

Lemma annotation_budget_exact ord : ranges ord -> budgetAnnotations ord m = <[OmittedAnnotation := omittedNote (omitted m)]> (admitted m).
Proof.
  intros Ho. unfold budgetAnnotations. destruct (partition_spec ord (mkPartition [] [] [] [])) as (P1 & P2 & P3 & P4). cbv zeta in *. cbn [preserved rest bigPreserved bigRest app] in *.
  set (q := foldl _ _ _) in *. clearbody q. rewrite (kept_perm _ _ Ho) in P1, P2, P3, P4.
  rewrite (sort_names_unique _ _ P1), (sort_names_unique _ _ P2), (sort_names_unique _ _ P3), (sort_names_unique _ _ P4). clear P1 P2 P3 P4 q.
  pose proof (omitted_class true) as O1. pose proof (omitted_class false) as O0. unfold omitted.
  set (S1 := sort_names (of_class true fit)) in *. set (S0 := sort_names (of_class false fit)) in *.
  assert (N1 : NoDup S1) by (unfold S1; rewrite sort_names_perm; apply of_class_NoDup, keys_NoDup, kept_NoDup).
  assert (N0 : NoDup S0) by (unfold S0; rewrite sort_names_perm; apply of_class_NoDup, keys_NoDup, kept_NoDup).
  assert (Dj : forall k, k ∈ S1 -> k ∈ S0 -> False).
  { intros k. unfold S1, S0. rewrite !sort_names_perm, !of_class_in. intros [? _] [? _]. congruence. }
  assert (Ea : admitted m = (admitAnnotations m (S1 ++ S0) ∅ 0).2) by done. set (ad := admitted m) in *. clearbody ad. revert Ea.
  pose proof (admit_spec m S1 ∅ 0) as A1. rewrite (admit_app m S1 S0 ∅ 0).
  destruct (admitAnnotations m S1 ∅ 0) as [[r1 s1] o1]. pose proof (admit_spec m S0 o1 s1) as A2.
  destruct (admitAnnotations m S0 o1 s1) as [[r2 s2] o2]. cbn [snd]. intros ->.
  destruct A1 as [R1 A1]; [done|intros; apply lookup_empty|]. destruct A2 as [R2 A2]; [done| |].
  { intros k Hk. destruct (o1 !! k) as [v|] eqn:E; [|done]. apply A1 in E as [E|[E _]]; [by rewrite lookup_empty in E|by destruct (Dj k E Hk)]. }
  assert (R1' : r1 = filter (fun k => o2 !! k = None) S1).
  { rewrite R1. apply filter_same. intros k Hk. split; intros Hn.
    - destruct (o2 !! k) as [v|] eqn:E; [|done]. apply A2 in E as [E|[E _]]; [congruence|by destruct (Dj k Hk E)].
    - destruct (o1 !! k) as [v|] eqn:E; [|done]. assert (o2 !! k = Some v) by (apply A2; by left). congruence. }
  f_equal. f_equal. unfold served_order. f_equal.
  - rewrite appendMerged_sort; [|apply sort_names_sorted|rewrite R1'; apply filter_sorted, sort_names_sorted]. apply sort_names_unique.
    rewrite R1'. etrans; [|symmetry; exact O1]. by rewrite sort_names_perm.
  - rewrite appendMerged_sort; [|apply sort_names_sorted|rewrite R2; apply filter_sorted, sort_names_sorted]. apply sort_names_unique.
    rewrite R2. etrans; [|symmetry; exact O0]. by rewrite sort_names_perm.
Qed.

End Filter.

Definition insert_all (out : strmap) (l : entries) : strmap := foldl (fun m kv => <[kv.1 := kv.2]> m) out l.

Lemma insert_all_lookup l : forall out k v, NoDup l.*1 -> insert_all out l !! k = Some v <-> (k, v) ∈ l \/ (k ∉ l.*1 /\ out !! k = Some v).
Proof.
  induction l as [|[j w] l IH]; intros out k v Nd; cbn.
  - rewrite !elem_of_nil. tauto.
  - cbn in Nd. apply NoDup_cons in Nd as [Nj Nd]. unfold insert_all in IH. rewrite (IH _ _ _ Nd). rewrite !elem_of_cons. destruct (decide (k = j)) as [->|Hn].
    + rewrite lookup_insert_eq. split.
      * intros [Hin|[_ [= <-]]]; [|by left; left]. destruct Nj. apply list_elem_of_fmap. by exists (j, v).
      * intros [[[= <-]|Hin]|[Hc _]]; [by right|by left|]. destruct Hc. by left.
    + rewrite lookup_insert_ne by done. naive_solver.
Qed.

Lemma len_nonneg s : 0 <= len s.
Proof. unfold len. lia. Qed.

Lemma ann_cost_nonneg l : 0 <= sumZ (ann_cost <$> l).
Proof. apply sumZ_nonneg. intros [k v]. unfold ann_cost. pose proof (len_nonneg k). pose proof (len_nonneg v). cbn. lia. Qed.

Lemma kept_cons k v l : kept ((k, v) :: l) = if refused k then kept l else (k, v) :: kept l.
Proof. unfold kept. rewrite filter_cons. cbn [fst]. by destruct (refused k). Qed.

Lemma filter_loop_spec slow ord : forall out total, total <= MaxAnnotationBytes -> filter_loop slow ord out total =
  if decide (Forall small (kept ord) /\ total + sumZ (ann_cost <$> kept ord) <= MaxAnnotationBytes) then insert_all out (kept ord) else slow.
Proof.
  induction ord as [|[k v] ord IH]; intros out total Ht; cbn [filter_loop].
  { rewrite decide_True; [done|]. split; [constructor|]. change (sumZ (ann_cost <$> kept [])) with 0. lia. }
  rewrite kept_cons. destruct (refused k); [by apply IH|]. rewrite fmap_cons, sumZ_cons.
  change (ann_cost (k, v)) with (len k + len v). change (small (k, v)) with (len v <= MaxAnnotationValueBytes) in *.
  pose proof (Forall_cons small (k, v) (kept ord)) as Ef. unfold small at 2 in Ef. cbn [snd] in Ef.
  pose proof (ann_cost_nonneg (kept ord)). destruct (Z.ltb_spec MaxAnnotationValueBytes (len v)); [case_decide; [exfalso; intuition lia|done]|].
  destruct (Z.ltb_spec MaxAnnotationBytes (total + (len k + len v))); [case_decide; [exfalso; intuition lia|done]|]. rewrite IH by done.
  repeat case_decide; try done; exfalso; intuition lia.
Qed.

Lemma FilterAnnotations_served m ord ord' : ranges m ord -> ranges m ord' -> FilterAnnotations ord ord' m = served m.
Proof.
  intros Ho Ho'. unfold FilterAnnotations, served. destruct (decide (m = ∅)) as [->|Hne].
  { rewrite decide_True; [by rewrite map_filter_empty|]. unfold fits. rewrite map_to_list_empty. split; [constructor|done]. }
  rewrite filter_loop_spec by done. rewrite (annotation_budget_exact m ord' Ho'). pose proof (kept_perm _ _ Ho) as Pk.
  assert (E : (Forall small (kept ord) /\ 0 + sumZ (ann_cost <$> kept ord) <= MaxAnnotationBytes) <-> fits m).
  { unfold fits. rewrite Z.add_0_l. rewrite (sumZ_perm (ann_cost <$> kept ord) (ann_cost <$> kept (map_to_list m))) by (by rewrite Pk).
    assert (Forall small (kept ord) <-> Forall small (kept (map_to_list m))) as -> by (by rewrite Pk). done. }
  destruct (decide (fits m)) as [F|F].
  - rewrite decide_True by tauto. apply map_eq. intros k. apply option_eq. intros v.
    rewrite insert_all_lookup, map_lookup_filter_Some, lookup_empty by (rewrite Pk; apply kept_NoDup).
    rewrite Pk, kept_in. cbn. naive_solver.
  - by rewrite decide_False by tauto.
Qed.

(** ** The two notes' length *)

Lemma decimal_digits_len fuel n : len (decimal_digits fuel n) <= Z.of_nat fuel.
Proof.
  unfold len. revert n. induction fuel as [|fuel IH]; intros n; [done|]. cbn [decimal_digits]. destruct (n <? 10); [cbn; lia|].
  rewrite length_app. cbn. specialize (IH (n / 10)). lia.
Qed.

Lemma FormatInt_len n : len (FormatInt n) <= 21.
Proof.
  unfold FormatInt. destruct (n <? 0).
  - pose proof (decimal_digits_len 20 (- n)). unfold len in *. cbn [length]. lia.
  - pose proof (decimal_digits_len 20 n). lia.
Qed.

Lemma len_app a b : len (a ++ b) = len a + len b.
Proof. unfold len. rewrite length_app. lia. Qed.

(** What has been written of the names is what has been counted: the first comes
    after an eleven-byte prefix and without a separator. *)
Lemma named_loop_len keys : forall named spent b, 0 <= spent <= maxOmittedNamedBytes + 2 ->
  let '(b', n) := named_loop keys named spent b in len b' <= len b + (if bool_decide (named = 0%nat) then 9 else 0) + (maxOmittedNamedBytes + 2 - spent).
Proof.
  induction keys as [|k keys IH]; intros named spent b Hs; cbn [named_loop]; [destruct (bool_decide _); lia|].
  destruct (Z.ltb_spec maxOmittedNamedBytes (spent + len k)); [destruct (bool_decide _); lia|]. pose proof (len_nonneg k).
  change (len omittedListSep) with 2. specialize (IH (S named) (spent + (len k + 2)) (b ++ (if bool_decide (named = 0%nat) then omittedListPrefix else omittedListSep) ++ k) ltac:(lia)).
  destruct (named_loop _ _ _ _) as [b' n]. change (bool_decide (S named = 0%nat)) with false in IH. rewrite !len_app in IH.
  destruct (bool_decide _); [change (len omittedListPrefix) with 11 in IH|change (len omittedListSep) with 2 in IH]; lia.
Qed.

Lemma appendNamedKeys_len b keys : len (appendNamedKeys b keys) <= len b + 570.
Proof.
  unfold appendNamedKeys. pose proof (named_loop_len keys 0 0 b ltac:(done)) as L. destruct (named_loop keys 0 0 b) as [b' n].
  change (bool_decide (0%nat = 0%nat)) with true in L. unfold maxOmittedNamedBytes in L. destruct (0 <? _); [|lia]. rewrite !len_app.
  pose proof (FormatInt_len (Z.of_nat (length keys) - Z.of_nat n)). change (len (text "+")) with 1. change (len (text " more")) with 5.
  destruct (bool_decide _); [change (len omittedListPrefix) with 11|change (len omittedListSep) with 2]; lia.
Qed.

Lemma omittedNote_len keys : len OmittedAnnotation + len (omittedNote keys) <= 1024.
Proof.
  unfold omittedNote. etrans; [apply Z.add_le_mono_l, appendNamedKeys_len|]. rewrite !len_app. pose proof (FormatInt_len (Z.of_nat (length keys))).
  pose proof (FormatInt_len MaxAnnotationValueBytes). pose proof (FormatInt_len MaxAnnotationBytes).
  set (a := len (FormatInt _)) in *. set (b := len (FormatInt MaxAnnotationValueBytes)) in *. set (c := len (FormatInt MaxAnnotationBytes)) in *.
  change (len OmittedAnnotation) with 33. repeat match goal with |- context [len (text ?s)] => let n := eval vm_compute in (len (text s)) in change (len (text s)) with n end. lia.
Qed.

Lemma omittedLabelsNote_len keys : len LabelsOmittedAnnotation + len (omittedLabelsNote keys) <= 1024.
Proof.
  unfold omittedLabelsNote. etrans; [apply Z.add_le_mono_l, appendNamedKeys_len|]. rewrite !len_app. pose proof (FormatInt_len (Z.of_nat (length keys))).
  pose proof (FormatInt_len MaxOwnerLabelBytes).
  set (a := len (FormatInt _)) in *. set (b := len (FormatInt MaxOwnerLabelBytes)) in *.
  change (len LabelsOmittedAnnotation) with 28. repeat match goal with |- context [len (text ?s)] => let n := eval vm_compute in (len (text s)) in change (len (text s)) with n end. lia.
Qed.

(** ** What admission spends *)

Notation cost_of o := (sumZ (ann_cost <$> map_to_list o)).

Lemma cost_insert (o : strmap) k v : o !! k = None -> cost_of (<[k := v]> o) = len k + len v + cost_of o.
Proof.
  intros Hk. rewrite (sumZ_perm _ (ann_cost <$> (k, v) :: map_to_list o)) by (by rewrite map_to_list_insert).
  by rewrite fmap_cons, sumZ_cons.
Qed.

Lemma cost_delete (o : strmap) k v : o !! k = Some v -> cost_of o = len k + len v + cost_of (delete k o).
Proof. intros Hk. rewrite <- (insert_delete_id o k v Hk) at 1. by rewrite cost_insert by apply lookup_delete_eq. Qed.

Lemma cost_overwrite (o : strmap) k v : cost_of (<[k := v]> o) <= len k + len v + cost_of o.
Proof.
  rewrite <- insert_delete_eq, cost_insert by apply lookup_delete_eq. destruct (o !! k) as [w|] eqn:E.
  - rewrite (cost_delete o k w E). pose proof (len_nonneg k). pose proof (len_nonneg w). lia.
  - by rewrite delete_id.
Qed.

Lemma admit_cost m l : forall out spent, NoDup l -> (forall k, k ∈ l -> out !! k = None) ->
  let '(r, s, o) := admitAnnotations m l out spent in cost_of o - cost_of out = s - spent.
Proof.
  induction l as [|k l IH]; intros out spent Nd Hd; cbn [admitAnnotations]; [lia|]. apply NoDup_cons in Nd as [Nk Nd].
  destruct (_ <=? _).
  - specialize (IH (<[k := default [] (m !! k)]> out) (spent + (len k + len (default [] (m !! k)))) Nd).
    destruct (admitAnnotations m l _ _) as [[r s] o]. rewrite cost_insert in IH by (apply Hd; set_solver).
    specialize (IH ltac:(intros j Hj; rewrite lookup_insert_ne by set_solver; apply Hd; set_solver)). lia.
  - specialize (IH out spent Nd ltac:(intros; apply Hd; set_solver)). by destruct (admitAnnotations m l out spent) as [[r s] o].
Qed.

(** When all of it fits, nothing is refused. *)
Lemma admit_all m l : forall out spent, spent + sumZ ((fun k => len k + len (default [] (m !! k))) <$> l) <= MaxAnnotationBytes ->
  (admitAnnotations m l out spent).1.1 = [].
Proof.
  induction l as [|k l IH]; intros out spent; cbn [admitAnnotations]; [done|]. rewrite fmap_cons, sumZ_cons. intros Hs.
  assert (0 <= sumZ ((fun k => len k + len (default [] (m !! k))) <$> l)).
  { apply sumZ_nonneg. intros j. pose proof (len_nonneg j). pose proof (len_nonneg (default [] (m !! j))). lia. }
  destruct (Z.leb_spec (spent + (len k + len (default [] (m !! k)))) MaxAnnotationBytes); [|lia]. apply IH. lia.
Qed.

Lemma served_order_perm l : served_order l ≡ₚ l.*1.
Proof.
  unfold served_order. rewrite !sort_names_perm. unfold of_class. rewrite <- (filter_app_complement (fun k => preservedAnnotation k = true) l.*1) at 3.
  apply Permutation_app_head. 
  rewrite (filter_same (fun k => preservedAnnotation k = false) (fun k => ~ preservedAnnotation k = true)); [done|].
  intros k _. split; destruct (preservedAnnotation k); congruence.
Qed.

Lemma admitted_fits m : fits m -> omitted m = [].
Proof.
  intros [Hs Hc]. assert (Ef : filter small (kept (map_to_list m)) = kept (map_to_list m)).
  { by apply filter_all. }
  assert (Nd : NoDup (served_order (kept (map_to_list m)))) by (rewrite served_order_perm; apply kept_NoDup).
  unfold omitted, admitted. rewrite Ef. pose proof (admit_spec m (served_order (kept (map_to_list m))) ∅ 0) as A.
  pose proof (admit_all m (served_order (kept (map_to_list m))) ∅ 0) as B. destruct (admitAnnotations _ _ _ _) as [[r s] o].
  cbn [fst snd] in *. destruct A as [A _]; [done|intros; apply lookup_empty|]. rewrite B in A.
  - apply Permutation_nil_r. rewrite served_order_perm. assert (Permutation (filter (fun k => o !! k = None) (kept (map_to_list m)).*1) []) as E.
    { rewrite <- (served_order_perm (kept (map_to_list m))). by rewrite <- A. }
    apply Permutation_nil_r in E. erewrite (filter_fst (fun k => o !! k = None)) by done. by rewrite E.
  - rewrite (sumZ_perm _ ((fun k => len k + len (default [] (m !! k))) <$> (kept (map_to_list m)).*1)) by (by rewrite served_order_perm).
    rewrite <- list_fmap_compose. rewrite Z.add_0_l. etrans; [|exact Hc]. apply Z.eq_le_incl. f_equal. apply list_fmap_ext. intros i [k v] Hi.
    apply list_elem_of_lookup_2, kept_in in Hi as [_ Hi]. cbn. by rewrite Hi.
Qed.

Lemma admitted_cost m : cost_of (admitted m) <= MaxAnnotationBytes.
Proof.
  unfold admitted. set (l := served_order _). assert (Nd : NoDup l) by (unfold l; rewrite served_order_perm; apply keys_NoDup, kept_NoDup).
  pose proof (admit_cost m l ∅ 0 Nd) as C. pose proof (admit_spent m l ∅ 0) as S. destruct (admitAnnotations m l ∅ 0) as [[r s] o]. cbn [snd] in *.
  rewrite map_to_list_empty in C. change (sumZ (ann_cost <$> [])) with 0 in C. specialize (C ltac:(intros; apply lookup_empty)). specialize (S ltac:(done)). lia.
Qed.

Lemma admitted_complete m : omitted m = [] -> forall k v, (k, v) ∈ kept (map_to_list m) <-> admitted m !! k = Some v.
Proof.
  intros Eo k v. split.
  - intros Hk. destruct (admitted m !! k) as [w|] eqn:E.
    + apply admitted_in, list_elem_of_filter in E as [_ E]. apply kept_in in E, Hk. naive_solver.
    + exfalso. assert (Hin : k ∈ omitted m); [|rewrite Eo in Hin; by apply elem_of_nil in Hin]. unfold omitted. rewrite served_order_perm.
      apply list_elem_of_fmap. exists (k, v). split; [done|]. by apply list_elem_of_filter.
  - intros Ha. by apply admitted_in, list_elem_of_filter in Ha as [_ Ha].
Qed.

Lemma omitted_nil m : omitted m = [] <-> fits m.
Proof.
  split; [|apply admitted_fits]. intros Eo. pose proof (admitted_complete m Eo) as Ac. split.
  - apply Forall_forall. intros [k v] Hk. by apply Ac, admitted_in, list_elem_of_filter in Hk as [Hs _].
  - rewrite (sumZ_perm _ (ann_cost <$> map_to_list (admitted m))); [apply admitted_cost|]. apply Permutation_map.
    apply NoDup_Permutation; [eapply NoDup_fmap_1; apply kept_NoDup|apply NoDup_map_to_list|]. intros [k v]. by rewrite Ac, elem_of_map_to_list.
Qed.

(** The note is never one of the object's own. *)
Lemma admitted_note m : admitted m !! OmittedAnnotation = None.
Proof.
  destruct (admitted m !! OmittedAnnotation) as [v|] eqn:E; [|done]. apply admitted_in, list_elem_of_filter in E as [_ E]. by apply kept_in in E as [R _].
Qed.

Lemma served_lookup m k v : served m !! k = Some v -> k <> OmittedAnnotation -> m !! k = Some v /\ refused k = false /\ len v <= MaxAnnotationValueBytes.
Proof.
  unfold served. intros Hs Hk. assert (Hin : (k, v) ∈ filter small (kept (map_to_list m))).
  { destruct (decide (fits m)) as [F|F].
    - apply map_lookup_filter_Some in Hs as [Hm Hr]. assert (Hq : (k, v) ∈ kept (map_to_list m)) by (by apply kept_in). destruct F as [F _].
      rewrite Forall_forall in F. apply list_elem_of_filter. split; [by apply F|done].
    - rewrite lookup_insert_ne in Hs by done. by apply admitted_in. }
  apply list_elem_of_filter in Hin as [Hl Hin]. apply kept_in in Hin as [Hr Hm]. by split_and!.
Qed.

Lemma served_cost m : cost_of (served m) <= MaxAnnotationBytes + 1024.
Proof.
  unfold served. destruct (decide (fits m)) as [[_ F]|F].
  - rewrite (sumZ_perm _ (ann_cost <$> kept (map_to_list m))); [lia|]. apply Permutation_map.
    apply NoDup_Permutation; [apply NoDup_map_to_list|eapply NoDup_fmap_1; apply kept_NoDup|]. intros [k v].
    rewrite elem_of_map_to_list, map_lookup_filter_Some, kept_in. cbn. tauto.
  - etrans; [apply cost_overwrite|]. pose proof (omittedNote_len (omitted m)). pose proof (admitted_cost m). lia.
Qed.

Lemma served_honest m : served m !! OmittedAnnotation = None <-> forall k v, m !! k = Some v -> refused k = false -> served m !! k = Some v.
Proof.
  unfold served. destruct (decide (fits m)) as [F|F].
  - split; [intros _ k v Hm Hr; by apply map_lookup_filter_Some|]. intros _. apply map_lookup_filter_None. right. intros v _. done.
  - rewrite lookup_insert_eq. split; [done|]. intros Hall. exfalso. destruct (omitted m) as [|k ks] eqn:Eo; [by apply omitted_nil in Eo|].
    assert (Hin : k ∈ omitted m) by (rewrite Eo; by left). unfold omitted in Hin. rewrite served_order_perm in Hin.
    apply list_elem_of_fmap in Hin as ([k' v] & -> & Hin). apply list_elem_of_filter in Hin as [Hn Hin]. apply kept_in in Hin as [Hr Hm]. cbn in *.
    specialize (Hall k' v Hm Hr). rewrite lookup_insert_ne in Hall by (intros <-; done). congruence.
Qed.

(** ** An owner's labels: the same admission, by name, of all of them *)

Definition label_order (labels : strmap) : list bytes := sort_names (map_to_list labels).*1.

Lemma admit_labels_admit labels l : forall out spent, admit_labels labels l out spent =
  let '(r, _, o) := admitAnnotations labels l out spent in (o, r).
Proof.
  induction l as [|k l IH]; intros out spent; cbn [admit_labels admitAnnotations]; [done|].
  change MaxOwnerLabelBytes with MaxAnnotationBytes. destruct (_ <=? _); [apply IH|]. rewrite IH. by destruct (admitAnnotations labels l out spent) as [[r s] o].
Qed.

Lemma labels_loop_spec slow ord : forall fast total, total <= MaxOwnerLabelBytes -> labels_loop slow ord fast total =
  if decide (total + sumZ (ann_cost <$> ord) <= MaxOwnerLabelBytes) then (insert_all fast ord, []) else slow.
Proof.
  induction ord as [|[k v] ord IH]; intros fast total Ht; cbn [labels_loop].
  { change (sumZ (ann_cost <$> [])) with 0. by rewrite decide_True by lia. }
  rewrite fmap_cons, sumZ_cons. change (ann_cost (k, v)) with (len k + len v). pose proof (ann_cost_nonneg ord).
  destruct (Z.ltb_spec MaxOwnerLabelBytes (total + (len k + len v))); [by rewrite decide_False by lia|]. rewrite IH by done.
  repeat case_decide; try done; exfalso; lia.
Qed.

Lemma label_order_NoDup labels : NoDup (label_order labels).
Proof. unfold label_order. rewrite sort_names_perm. apply NoDup_fst_map_to_list. Qed.

(** What the labels served are, and what is refused of them. *)
Lemma labels_admitted labels : let '(o, r) := admit_labels labels (label_order labels) ∅ 0 in
  (forall k v, o !! k = Some v -> labels !! k = Some v) /\ cost_of o <= MaxOwnerLabelBytes /\
  r = filter (fun k => o !! k = None) (label_order labels).
Proof.
  rewrite admit_labels_admit. pose proof (admit_spec labels (label_order labels) ∅ 0) as A. pose proof (admit_spent labels (label_order labels) ∅ 0) as S.
  pose proof (admit_cost labels (label_order labels) ∅ 0 (label_order_NoDup labels)) as C. destruct (admitAnnotations _ _ _ _) as [[r s] o].
  destruct A as [A1 A2]; [apply label_order_NoDup|intros; apply lookup_empty|]. split_and!; [|rewrite map_to_list_empty in C|done].
  - intros k v Ho. apply A2 in Ho as [Ho|(Hk & _ & ->)]; [by rewrite lookup_empty in Ho|]. unfold label_order in Hk. rewrite sort_names_perm in Hk.
    apply list_elem_of_fmap in Hk as ([j w] & -> & Hk). apply elem_of_map_to_list in Hk. cbn. by rewrite Hk.
  - change (sumZ (ann_cost <$> [])) with 0 in C. specialize (C ltac:(intros; apply lookup_empty)). specialize (S ltac:(done)).
    change MaxOwnerLabelBytes with MaxAnnotationBytes. lia.
Qed.

Lemma labels_all labels : cost_of labels <= MaxOwnerLabelBytes -> admit_labels labels (label_order labels) ∅ 0 = (labels, []).
Proof.
  intros Hc. assert (Hs : 0 + sumZ ((fun k => len k + len (default [] (labels !! k))) <$> label_order labels) <= MaxAnnotationBytes).
  { rewrite Z.add_0_l. unfold label_order. rewrite (sumZ_perm _ ((fun k => len k + len (default [] (labels !! k))) <$> (map_to_list labels).*1)) by (by rewrite sort_names_perm).
    rewrite <- list_fmap_compose. etrans; [|exact Hc]. apply Z.eq_le_incl. f_equal. apply list_fmap_ext. intros i [k v] Hi.
    apply list_elem_of_lookup_2, elem_of_map_to_list in Hi. cbn. by rewrite Hi. }
  pose proof (labels_admitted labels) as L. pose proof (admit_all labels (label_order labels) ∅ 0 Hs) as B. rewrite admit_labels_admit in *.
  destruct (admitAnnotations _ _ _ _) as [[r s] o]. destruct L as (L1 & _ & L3). cbn [fst] in B. rewrite B in *. f_equal.
  apply map_eq. intros k. destruct (labels !! k) as [v|] eqn:E.
  - destruct (o !! k) as [w|] eqn:Eo; [apply L1 in Eo; congruence|]. exfalso. eapply (not_elem_of_nil k). rewrite L3. apply list_elem_of_filter.
    split; [done|]. unfold label_order. rewrite sort_names_perm. apply list_elem_of_fmap. exists (k, v). split; [done|by apply elem_of_map_to_list].
  - destruct (o !! k) as [w|] eqn:Eo; [apply L1 in Eo; congruence|done].
Qed.

Lemma ranges_cost m ord : ranges m ord -> sumZ (ann_cost <$> ord) = cost_of m.
Proof. intros Ho. apply sumZ_perm. by rewrite Ho. Qed.

Lemma budgetOwnerLabels_sorted labels ord ord' : ranges labels ord -> ranges labels ord' ->
  budgetOwnerLabels ord ord' labels = admit_labels labels (label_order labels) ∅ 0.
Proof.
  intros Ho Ho'. unfold budgetOwnerLabels. destruct (decide (labels = ∅)) as [->|Hne].
  { rewrite labels_all; [done|]. by rewrite map_to_list_empty. }
  rewrite labels_loop_spec, Z.add_0_l, (ranges_cost _ _ Ho) by done. destruct (decide _) as [Hc|Hc].
  - rewrite labels_all by done. f_equal. apply map_eq. intros k. apply option_eq. intros v. rewrite insert_all_lookup, lookup_empty by (rewrite Ho; apply NoDup_fst_map_to_list).
    rewrite Ho, elem_of_map_to_list. naive_solver.
  - unfold budgetOwnerLabelsSorted, label_order. f_equal. apply sort_names_unique. by rewrite Ho'.
Qed.

(** ** The whole of what one object contributes to a document *)

Definition meta_bytes (lm : strmap * strmap) : Z := cost_of lm.1 + cost_of lm.2.

Lemma owner_meta_bounded labels annotations lord lord' aord aord' : ranges labels lord -> ranges labels lord' -> ranges annotations aord -> ranges annotations aord' ->
  meta_bytes (CopyOwnerMeta lord lord' aord aord' labels annotations) <= MaxOwnerLabelBytes + MaxAnnotationBytes + 2048.
Proof.
  intros L L' A A'. unfold CopyOwnerMeta, meta_bytes. rewrite (budgetOwnerLabels_sorted _ _ _ L L'), (FilterAnnotations_served _ _ _ A A').
  pose proof (labels_admitted labels) as B. destruct (admit_labels _ _ _ _) as [o r]. destruct B as (_ & B & _). pose proof (served_cost annotations).
  cbn [fst snd]. destruct r as [|k r]; [lia|]. pose proof (cost_overwrite (served annotations) LabelsOmittedAnnotation (omittedLabelsNote (k :: r))).
  pose proof (omittedLabelsNote_len (k :: r)). lia.
Qed.

(** C16: The annotations served do not depend on the order Go walks the object's
    map in, on either pass or either path: everything that may be served when it
    all fits; otherwise what one admission in name order admits, this project's
    own prefixes first, and a note that names every key left out in that same
    order. *)
Theorem annotations_order_free m ord ord' : ranges m ord -> ranges m ord' -> FilterAnnotations ord ord' m = served m.
Proof. apply FilterAnnotations_served. Qed.

(** Whatever an object carries, what is served of its annotations is at most
    [MaxAnnotationBytes] and a note of under a kilobyte; each entry but the note
    is the object's own, of a key that is not refused and a value under its
    ceiling; and the note is absent exactly when nothing that could be served
    was left out, so a short document never reads as a whole one. *)
Theorem annotations_bounded m ord ord' : ranges m ord -> ranges m ord' -> let a := FilterAnnotations ord ord' m in
  sumZ (ann_cost <$> map_to_list a) <= MaxAnnotationBytes + 1024 /\
  (forall k v, a !! k = Some v -> k <> OmittedAnnotation -> m !! k = Some v /\ refused k = false /\ len v <= MaxAnnotationValueBytes) /\
  (AnnotationsOmitted a = false <-> forall k v, m !! k = Some v -> refused k = false -> a !! k = Some v).
Proof.
  intros Ho Ho' a. unfold a. rewrite (FilterAnnotations_served m ord ord' Ho Ho'). split; [apply served_cost|]. split; [intros k v; apply served_lookup|].
  rewrite <- served_honest. unfold AnnotationsOmitted. by rewrite bool_decide_eq_false, eq_None_not_Some.
Qed.
