(* ===== verification/KubeMetaNote.v ===== *)
(** * The note read back ([pkg/kubemeta/annotations.go])

    [AnnotationWasOmitted] finds in a served document's note exactly the keys
    the note's budget named, for keys of the characters a Kubernetes annotation
    key has. *)

From S2P Require Import Prelude Clip Order Number Text KubeMeta KubeMetaSafe.
Local Open Scope Z_scope.

(** Neither ',' nor ';' nor a space: what separates the names and opens the list. *)
Definition clean (k : bytes) : Prop := 44 ∉ k /\ 59 ∉ k /\ 32 ∉ k.

Fixpoint join (ks : list bytes) : bytes :=
  match ks with [] => [] | [k] => k | k :: ks => k ++ omittedListSep ++ join ks end.

Lemma HasPrefix_app p s : HasPrefix (p ++ s) p = true.
Proof. induction p as [|c p IH]; cbn; [by destruct s|]. by rewrite bool_decide_eq_true_2. Qed.

Lemma Cut_here sep s : Cut (sep ++ s) sep = Some ([], s).
Proof.
  destruct sep as [|c sep]; [by destruct s|]. cbn [app Cut]. change (c :: sep ++ s) with ((c :: sep) ++ s). by rewrite HasPrefix_app, drop_app_length.
Qed.

Lemma Cut_first c sep a s : c ∉ a -> Cut (a ++ (c :: sep) ++ s) (c :: sep) = Some (a, s).
Proof.
  induction a as [|d a IH]; intros Hc; [apply (Cut_here (c :: sep) s)|]. apply not_elem_of_cons in Hc as [Hd Hc].
  cbn [app Cut HasPrefix]. rewrite bool_decide_eq_false_2 by done. cbn [andb]. cbn [app] in IH. by rewrite IH.
Qed.

Lemma Cut_none c sep a : c ∉ a -> Cut a (c :: sep) = None.
Proof.
  induction a as [|d a IH]; intros Hc; [done|]. apply not_elem_of_cons in Hc as [Hd Hc].
  cbn [Cut HasPrefix]. rewrite bool_decide_eq_false_2 by done. cbn [andb]. by rewrite IH.
Qed.

Lemma split_loop_join ks : forall fuel, ks <> [] -> Forall (fun k => 44 ∉ k) ks -> (length (join ks) <= fuel)%nat -> split_loop fuel (join ks) omittedListSep = ks.
Proof.
  induction ks as [|k ks IH]; intros fuel Hne Hc Hf; [done|]. apply Forall_cons in Hc as [Hk Hc]. destruct ks as [|k' ks].
  - cbn [join]. destruct fuel; cbn [split_loop]; [done|]. by rewrite (Cut_none 44 [32]).
  - change (join (k :: k' :: ks)) with (k ++ omittedListSep ++ join (k' :: ks)) in *. rewrite !length_app in Hf. change (length omittedListSep) with 2%nat in Hf.
    destruct fuel as [|fuel]; [lia|]. cbn [split_loop]. change omittedListSep with [44; 32] in *. rewrite (Cut_first 44 [32]) by done. f_equal. apply IH; [done|done|lia].
Qed.

Lemma Split_join ks : ks <> [] -> Forall (fun k => 44 ∉ k) ks -> Split (join ks) omittedListSep = ks.
Proof. intros Hne Hc. by apply split_loop_join. Qed.

(** ** What the loop names *)

(** How many keys the budget names after [spent]. *)
Fixpoint named_count (keys : list bytes) (spent : Z) : nat :=
  match keys with
  | [] => 0
  | k :: keys => if maxOmittedNamedBytes <? spent + len k then 0 else S (named_count keys (spent + (len k + 2)))
  end.

Definition listed (ks : list bytes) : bytes := concat ((fun k => omittedListSep ++ k) <$> ks).

Lemma join_cons k ks : join (k :: ks) = k ++ listed ks.
Proof.
  revert k. induction ks as [|k' ks IH]; intros k; [by rewrite app_nil_r|].
  change (join (k :: k' :: ks)) with (k ++ omittedListSep ++ join (k' :: ks)). rewrite IH. unfold listed. rewrite fmap_cons. cbn [concat]. by rewrite <- (app_assoc _ k').
Qed.

Lemma named_loop_more keys : forall named spent b, named_loop keys (S named) spent b =
  (b ++ listed (take (named_count keys spent) keys), (S named + named_count keys spent)%nat).
Proof.
  induction keys as [|k keys IH]; intros named spent b; cbn [named_loop named_count]; [unfold listed; cbn; by rewrite app_nil_r, Nat.add_0_r|].
  destruct (_ <? _); [unfold listed; cbn; by rewrite app_nil_r, Nat.add_0_r|]. rewrite IH. cbn [take]. change (len omittedListSep) with 2. unfold listed at 2. rewrite fmap_cons.
  cbn [concat]. fold (listed (take (named_count keys (spent + (len k + 2))) keys)). rewrite <- !app_assoc. f_equal. lia.
Qed.

(** The list as [appendNamedKeys] writes it. *)
Definition names (keys : list bytes) : list bytes :=
  let n := named_count keys 0 in
  let rest := Z.of_nat (length keys) - Z.of_nat n in
  take n keys ++ (if 0 <? rest then [text "+" ++ FormatInt rest ++ text " more"] else []).

Lemma named_count_le keys : forall spent, (named_count keys spent <= length keys)%nat.
Proof. induction keys as [|k keys IH]; intros spent; cbn; [done|]. destruct (_ <? _); [lia|]. specialize (IH (spent + (len k + 2))). lia. Qed.

Lemma appendNamedKeys_names b keys : keys <> [] -> appendNamedKeys b keys = b ++ omittedListPrefix ++ join (names keys) /\ names keys <> [].
Proof.
  intros Hne. unfold appendNamedKeys, names. destruct keys as [|k keys]; [done|]. cbn [named_loop named_count].
  destruct (maxOmittedNamedBytes <? 0 + len k).
  - rewrite Z.sub_0_r. assert (0 <? Z.of_nat (length (k :: keys)) = true) as -> by (apply Z.ltb_lt; cbn; lia). done.
  - change (bool_decide (0%nat = 0%nat)) with true. cbv iota. rewrite named_loop_more. set (n := named_count keys _). cbn [take app length].
    change (bool_decide ((1 + n)%nat = 0%nat)) with false. change (1 + n)%nat with (S n). split; [|done].
    assert (Hj : forall l, (b ++ omittedListPrefix ++ k) ++ listed l = b ++ omittedListPrefix ++ join (k :: l)) by (intros l; by rewrite join_cons, <- !app_assoc).
    rewrite Hj. destruct (0 <? _); [|by rewrite app_nil_r]. rewrite !join_cons. unfold listed. rewrite fmap_app, concat_app. cbn [fmap list_fmap concat]. by rewrite app_nil_r, <- !app_assoc.
Qed.

(** The [i]th key is named when it and all before it fit. *)
Lemma named_count_spec keys : forall spent i k, keys !! i = Some k ->
  (i < named_count keys spent)%nat <-> spent + sumZ ((fun k => len k + 2) <$> take i keys) + len k <= maxOmittedNamedBytes.
Proof.
  induction keys as [|k' keys IH]; intros spent i k Hi; [done|]. cbn [named_count]. destruct i as [|i]; cbn in Hi.
  - injection Hi as ->. cbn [take]. change (sumZ ((fun k => len k + 2) <$> [])) with 0. destruct (Z.ltb_spec maxOmittedNamedBytes (spent + len k)); lia.
  - cbn [take]. rewrite fmap_cons, sumZ_cons. assert (0 <= sumZ ((fun k => len k + 2) <$> take i keys)) by (apply sumZ_nonneg; intros j; pose proof (len_nonneg j); lia).
    pose proof (len_nonneg k). pose proof (len_nonneg k'). destruct (Z.ltb_spec maxOmittedNamedBytes (spent + len k')); [lia|].
    rewrite <- Nat.succ_lt_mono, (IH _ _ _ Hi). lia.
Qed.

(** ** Reading it back *)

Lemma decimal_digits_chars fuel : forall n, 0 <= n -> Forall (fun c => 48 <= c <= 57) (decimal_digits fuel n).
Proof.
  induction fuel as [|fuel IH]; intros n Hn; [constructor|]. cbn [decimal_digits]. destruct (Z.ltb_spec n 10).
  - constructor; [lia|constructor].
  - apply Forall_app. split; [apply IH; apply Z.div_pos; lia|]. pose proof (Z.mod_pos_bound n 10). constructor; [lia|constructor].
Qed.

Lemma FormatInt_digits n c : 0 <= n -> c ∈ FormatInt n -> 48 <= c <= 57.
Proof.
  intros Hn. unfold FormatInt. destruct (Z.ltb_spec n 0); [lia|]. pose proof (decimal_digits_chars 20 n Hn) as F.
  rewrite Forall_forall in F. apply F.
Qed.

Ltac no_char := repeat rewrite not_elem_of_app; split_and!;
  (by (intros Hd; apply FormatInt_digits in Hd; lia)) || (by apply (bool_decide_unpack (_ ∉ _)); vm_compute).

Definition note_head (n : Z) : bytes :=
  FormatInt n ++ text " annotation(s) omitted by kubescrape: a value over " ++ FormatInt MaxAnnotationValueBytes ++ text " bytes, or this object's " ++
  FormatInt MaxAnnotationBytes ++ text "-byte annotation budget was spent".

Lemma note_head_clean n : 0 <= n -> 59 ∉ note_head n.
Proof. intros Hn. unfold note_head. set (a := text " annotation(s) omitted by kubescrape: a value over "). no_char. Qed.

Lemma more_clean n : 0 <= n -> 44 ∉ text "+" ++ FormatInt n ++ text " more" /\ 32 ∈ text "+" ++ FormatInt n ++ text " more".
Proof. intros Hn. split; [no_char|]. rewrite !elem_of_app. right. right. by left. Qed.

Lemma names_clean keys : Forall clean keys -> Forall (fun k => 44 ∉ k) (names keys).
Proof.
  intros Hc. unfold names. apply Forall_app. split; [apply Forall_take; eapply Forall_impl; [exact Hc|]; intros k [? _]; done|].
  destruct (0 <? _) eqn:E; [|constructor]. apply Z.ltb_lt in E. constructor; [apply more_clean; lia|constructor].
Qed.

Lemma names_in keys (key : bytes) : clean key -> key ∈ names keys <-> key ∈ take (named_count keys 0) keys.
Proof.
  intros (_ & _ & Hs). unfold names. rewrite elem_of_app. split; [intros [|Hin]; [done|]|by left]. destruct (0 <? _) eqn:E; [|by apply elem_of_nil in Hin].
  apply Z.ltb_lt in E. apply list_elem_of_singleton in Hin as ->. destruct Hs. apply more_clean. lia.
Qed.

Lemma note_read (keys : list bytes) (key : bytes) (m : strmap) : keys <> [] -> Forall clean keys -> clean key -> m !! OmittedAnnotation = Some (omittedNote keys) ->
  AnnotationWasOmitted m key = true <-> key ∈ take (named_count keys 0) keys.
Proof.
  intros Hne Hc Hk Hm. unfold AnnotationWasOmitted. rewrite Hm. unfold omittedNote. fold (note_head (Z.of_nat (length keys))).
  destruct (appendNamedKeys_names (note_head (Z.of_nat (length keys))) keys Hne) as [-> Hnn].
  change omittedListPrefix with (59 :: tail omittedListPrefix). rewrite Cut_first by (apply note_head_clean; lia).
  rewrite Split_join by (done || by apply names_clean). rewrite <- (names_in keys key Hk), existsb_exists. split.
  - intros (k & Hin & Hd). apply bool_decide_eq_true in Hd as ->. by apply list_elem_of_In.
  - intros Hin. exists key. split; [by apply list_elem_of_In|by apply bool_decide_eq_true].
Qed.

Lemma omitted_in m k : k ∈ omitted m -> is_Some (m !! k).
Proof.
  unfold omitted. rewrite served_order_perm. intros Hin. apply list_elem_of_fmap in Hin as ([j v] & -> & Hin).
  apply list_elem_of_filter in Hin as [_ Hin]. apply kept_in in Hin as [_ Hm]. by exists v.
Qed.

(** C32: The note reads back: of a served document, [AnnotationWasOmitted] holds
    of a key exactly when it is one of the keys left out and it and those before
    it come within the note's 512 bytes of names; when nothing was left out it
    holds of none.  This is for keys without a comma, a semicolon or a space,
    which the characters of an annotation key exclude. *)
Theorem omission_reads_back m ord ord' (key : bytes) : ranges m ord -> ranges m ord' -> (forall k, is_Some (m !! k) -> clean k) -> clean key ->
  AnnotationWasOmitted (FilterAnnotations ord ord' m) key = true <->
  exists i, omitted m !! i = Some key /\ sumZ ((fun k => len k + 2) <$> take i (omitted m)) + len key <= maxOmittedNamedBytes.
Proof.
  intros Ho Ho' Hc Hk. rewrite (FilterAnnotations_served m ord ord' Ho Ho'). unfold served. destruct (decide (fits m)) as [F|F].
  - apply omitted_nil in F. rewrite F. unfold AnnotationWasOmitted. rewrite map_lookup_filter_None_2 by (right; intros v _; done).
    split; [done|]. by intros (i & Hi & _).
  - assert (Hne : omitted m <> []) by (by rewrite omitted_nil). assert (Ha : Forall clean (omitted m)).
    { apply Forall_forall. intros k Hin. by apply Hc, omitted_in. }
    rewrite (note_read (omitted m) key) by (done || apply lookup_insert_eq). split.
    + intros Hin. apply list_elem_of_lookup in Hin as [i Hi]. rewrite lookup_take_Some in Hi. destruct Hi as [Hi Hn]. exists i.
      split; [done|]. by apply (named_count_spec _ 0 i key Hi) in Hn.
    + intros (i & Hi & Hs). apply (named_count_spec _ 0 i key Hi) in Hs. apply list_elem_of_lookup. exists i. by apply lookup_take_Some.
Qed.

(** * Annotations at a concrete object ([pkg/kubemeta/annotations.go]) *)


(** An applied-object copy, a value over the ceiling and a key of this project. *)
Definition fat : strmap := list_to_map
  [(text "kapp.k14s.io/original", text "spec"); (text "blob", replicate 8193 65); (text "prometheus.io/scrape", text "true")].

Lemma fat_served : map_to_list (FilterAnnotations (map_to_list fat) (reverse (map_to_list fat)) fat) ≡ₚ
  [(text "prometheus.io/scrape", text "true"); (OmittedAnnotation, omittedNote [text "blob"])].
Proof. apply (bool_decide_unpack _). vm_compute. exact I. Qed.

Lemma annotations_order_free_witness : FilterAnnotations (map_to_list fat) (reverse (map_to_list fat)) fat = served fat.
Proof. apply annotations_order_free; [apply Permutation_refl|apply reverse_Permutation]. Defined.

Lemma annotations_bounded_witness : let a := FilterAnnotations (map_to_list fat) (reverse (map_to_list fat)) fat in
  sumZ (ann_cost <$> map_to_list a) <= MaxAnnotationBytes + 1024 /\ AnnotationsOmitted a = true.
Proof.
  split; [|vm_compute; reflexivity].
  exact (proj1 (annotations_bounded fat (map_to_list fat) (reverse (map_to_list fat)) (Permutation_refl _) (reverse_Permutation _))).
Defined.

Lemma omission_reads_back_witness : AnnotationWasOmitted (FilterAnnotations (map_to_list fat) (map_to_list fat) fat) (text "blob") = true <->
  exists i, omitted fat !! i = Some (text "blob") /\ sumZ ((fun k => len k + 2) <$> take i (omitted fat)) + len (text "blob") <= maxOmittedNamedBytes.
Proof.
  apply omission_reads_back; [apply Permutation_refl..| |apply (bool_decide_unpack (_ /\ _)); vm_compute; exact I].
  assert (Forall clean (map_to_list fat).*1) as Hc by (apply (bool_decide_unpack _); vm_compute; exact I).
  rewrite Forall_forall in Hc. intros k [v Hv]. apply Hc, list_elem_of_fmap. exists (k, v). split; [done|]. by apply elem_of_map_to_list.
Defined.
