(* ===== verification/Owners.v ===== *)
(** * Owner chains ([internal/owners/owners.go])

    [Resolve] turns a pod's owner references into the chain a document carries,
    reading the metadata caches as it goes.  One resolution is a run over the
    [world]: what it counts, the lines it logs, the throttles it asks, and how
    many times it has read a cache, a clock or the order of a map.  What those
    readings return is a parameter of their number, so a cache may change
    between two of them. *)

From S2P Require Import Prelude Clip Number Text Order KubeMeta LogDedupe.
From Stdlib Require Import Ascii.
Local Open Scope Z_scope.

(** The resources of [AllGVRs]: distinct group-version-resources. *)
Inductive GVR := ReplicaSetGVR | DeploymentGVR | StatefulSetGVR | DaemonSetGVR | JobGVR | CronJobGVR | NamespaceGVR | NodeGVR.
#[export] Instance GVR_eq_dec : EqDecision GVR.
Proof. solve_decision. Defined.

(** [metav1.OwnerReference] and [metav1.PartialObjectMetadata], as far as they
    are read. *)
Record OwnerReference := mkRef { ref_APIVersion : bytes; ref_Kind : bytes; ref_Name : bytes; ref_UID : bytes; ref_Controller : option bool }.
Record PartialObjectMetadata := mkMeta { m_UID : bytes; m_Labels : strmap; m_Annotations : strmap; m_OwnerReferences : list OwnerReference }.

(** [kubemeta.Owner] and [kubemeta.ObjectMeta]. *)
Record Owner := mkOwner { APIVersion : bytes; Kind : bytes; Name : bytes; UID : bytes; Controller : bool; Labels : strmap; Annotations : strmap }.
Record ObjectMeta := mkObject { o_UID : bytes; o_Labels : strmap; o_Annotations : strmap }.

(** What a lister returns: no informer for the resource, a miss, another error, an
    object of another type, or the object. *)
Inductive lister_result := NoInformer | IsNotFound | ListerError | WrongType | Cached (m : PartialObjectMetadata).

Inductive reason := reasonNotFound | reasonListerError | reasonNoInformer | reasonWrongType | reasonBadAPIVersion | reasonUIDMismatch | reasonOwnersCapped.
#[export] Instance reason_eq_dec : EqDecision reason.
Proof. solve_decision. Defined.

Definition reason_text (r : reason) : bytes :=
  match r with
  | reasonNotFound => text "not_found" | reasonListerError => text "lister_error" | reasonNoInformer => text "no_informer"
  | reasonWrongType => text "wrong_type" | reasonBadAPIVersion => text "bad_api_version" | reasonUIDMismatch => text "uid_mismatch"
  | reasonOwnersCapped => text "owners_capped"
  end.

(** The API groups' names and [schema.ParseGroupVersion]'s group; the caches, the
    clocks and the orders of maps by the number of the reading; whether the
    logger is at Debug. *)
Class Cluster := {
  apps : bytes;
  batch : bytes;
  ParseGroup : bytes -> option bytes;
  lister : nat -> GVR -> bytes -> bytes -> lister_result;
  Now : nat -> Z;
  SinceEpoch : nat -> Z;
  range_order : nat -> strmap -> entries;
  DebugEnabled : bool }.

Record ownerKindRow := mkRow { group : bytes; kind : bytes; gvr : GVR; follow : bool }.

Definition ownerKinds `{Cluster} : list ownerKindRow :=
  [mkRow apps (text "ReplicaSet") ReplicaSetGVR true; mkRow apps (text "Deployment") DeploymentGVR false;
   mkRow apps (text "StatefulSet") StatefulSetGVR false; mkRow apps (text "DaemonSet") DaemonSetGVR false;
   mkRow batch (text "Job") JobGVR true; mkRow batch (text "CronJob") CronJobGVR false].

Definition AllGVRs `{Cluster} : list GVR := (gvr <$> ownerKinds) ++ [NamespaceGVR; NodeGVR].

Definition resolveWarnEvery : Z := 300000000000.
Definition ownersCapWarnEvery : Z := 300000000000.
Definition maxResolveWarnKeys : Z := 512.
Definition MaxOwners : Z := 8.

(** *** The change token: a nil receiver takes [Bump] and reports zero. *)

Definition Changes : Type := Z.
Definition Bump (c : option Changes) : option Changes := (fun n => (n + 1) mod 2 ^ 64) <$> c.
Definition Generation (c : option Changes) : Z := default 0 c.

(** ** The world of one resolution *)

Inductive line :=
| TableFull (warn : bool)
| ReadFailed (warn : bool) (kind : bytes) (why : reason) (namespace name : bytes)
| ChainTruncated (namespace : bytes) (refs : Z) (firstKind firstName : bytes) (served omitted : Z).

Record world := mkWorld {
  warnDedupe : option Table.t;
  debugDedupe : option Table.t;
  capThrottle : Throttle.t;
  OwnerResolveFailures : list (bytes * reason * Z);
  MetadataAnnotationsOmitted : list bytes;
  MetadataLabelsOmitted : list bytes;
  logged : list line;
  reads : nat;
  clock : nat;
  ranged : nat }.

Definition with_counts (w : world) l := mkWorld (warnDedupe w) (debugDedupe w) (capThrottle w) l (MetadataAnnotationsOmitted w) (MetadataLabelsOmitted w) (logged w) (reads w) (clock w) (ranged w).
Definition with_annotations (w : world) l := mkWorld (warnDedupe w) (debugDedupe w) (capThrottle w) (OwnerResolveFailures w) l (MetadataLabelsOmitted w) (logged w) (reads w) (clock w) (ranged w).
Definition with_labels (w : world) l := mkWorld (warnDedupe w) (debugDedupe w) (capThrottle w) (OwnerResolveFailures w) (MetadataAnnotationsOmitted w) l (logged w) (reads w) (clock w) (ranged w).
Definition with_log (w : world) l := mkWorld (warnDedupe w) (debugDedupe w) (capThrottle w) (OwnerResolveFailures w) (MetadataAnnotationsOmitted w) (MetadataLabelsOmitted w) (logged w ++ l) (reads w) (clock w) (ranged w).
Definition with_read (w : world) := mkWorld (warnDedupe w) (debugDedupe w) (capThrottle w) (OwnerResolveFailures w) (MetadataAnnotationsOmitted w) (MetadataLabelsOmitted w) (logged w) (S (reads w)) (clock w) (ranged w).
Definition with_range (w : world) n := mkWorld (warnDedupe w) (debugDedupe w) (capThrottle w) (OwnerResolveFailures w) (MetadataAnnotationsOmitted w) (MetadataLabelsOmitted w) (logged w) (reads w) (clock w) (n + ranged w)%nat.
(** One table replaced, and one clock reading spent on it. *)
Definition with_table (w : world) (warn : bool) t := if warn
  then mkWorld (Some t) (debugDedupe w) (capThrottle w) (OwnerResolveFailures w) (MetadataAnnotationsOmitted w) (MetadataLabelsOmitted w) (logged w) (reads w) (S (clock w)) (ranged w)
  else mkWorld (warnDedupe w) (Some t) (capThrottle w) (OwnerResolveFailures w) (MetadataAnnotationsOmitted w) (MetadataLabelsOmitted w) (logged w) (reads w) (S (clock w)) (ranged w).
Definition with_throttle (w : world) t := mkWorld (warnDedupe w) (debugDedupe w) t (OwnerResolveFailures w) (MetadataAnnotationsOmitted w) (MetadataLabelsOmitted w) (logged w) (reads w) (S (clock w)) (ranged w).

Definition count_failure (w : world) (k : bytes) (r : reason) (n : Z) : world := with_counts w (OwnerResolveFailures w ++ [(k, r, n)]).

(** ** Reporting *)

(** A table's keys are strings of bytes. *)
Definition string_of (b : bytes) : string := foldr (fun c s => String (ascii_of_nat (Z.to_nat c)) s) EmptyString b.

Definition report_key (k : bytes) (r : reason) (namespace name : bytes) : string :=
  string_of (k ++ [0] ++ reason_text r ++ [0] ++ namespace ++ text "/" ++ name).

Definition warns (r : reason) : bool := match r with reasonListerError | reasonNoInformer | reasonWrongType => true | _ => false end.

Section Resolver.
Context `{Cluster}.

Definition knownKind (k : bytes) : bytes := if existsb (fun row => bool_decide (kind row = k)) ownerKinds then k else text "unknown".

Definition gvrKind (g : GVR) : bytes :=
  match find (fun row => bool_decide (gvr row = g)) ownerKinds with
  | Some row => kind row
  | None => match g with NamespaceGVR => text "Namespace" | NodeGVR => text "Node" | _ => text "unknown" end
  end.

Definition reportObj (w : world) (k namespace name : bytes) (r : reason) : world :=
  let w := count_failure w k r 1 in
  let warn := warns r in
  if negb warn && negb DebugEnabled then w
  else match (if warn then warnDedupe w else debugDedupe w) with
       | None => w
       | Some t =>
           let '(t, (allow, saturated)) := Table.Allow t (report_key k r namespace name) (Now (clock w)) in
           let w := with_table w warn t in
           if negb allow && negb saturated then w
           else let w := if saturated then with_log w [TableFull warn] else w in
                if negb allow then w else with_log w [ReadFailed warn k r namespace name]
       end.

Definition report (w : world) (g : GVR) (namespace name : bytes) (r : reason) : world := reportObj w (gvrKind g) namespace name r.

(** The [get] of [NewFromListers]. *)
Definition get (w : world) (g : GVR) (namespace name : bytes) : world * option PartialObjectMetadata :=
  let r := lister (reads w) g namespace name in
  let w := with_read w in
  match r with
  | NoInformer => (report w g namespace name reasonNoInformer, None)
  | IsNotFound => (report w g namespace name reasonNotFound, None)
  | ListerError => (report w g namespace name reasonListerError, None)
  | WrongType => (report w g namespace name reasonWrongType, None)
  | Cached m => (w, Some m)
  end.

Definition NewFromListers : world :=
  mkWorld (Some (Table.New maxResolveWarnKeys resolveWarnEvery)) (Some (Table.New maxResolveWarnKeys resolveWarnEvery)) Throttle.zero [] [] [] [] 0 0 0.

(** ** References *)

(** [inl tt] is an apiVersion that does not parse. *)
Definition ownerKind (ref : OwnerReference) : unit + option ownerKindRow :=
  match ParseGroup (ref_APIVersion ref) with
  | None => inl tt
  | Some g => inr (find (fun row => bool_decide (g = group row) && bool_decide (ref_Kind ref = kind row)) ownerKinds)
  end.

Definition ownerRow (w : world) (ref : OwnerReference) : world * option ownerKindRow :=
  match ownerKind ref with
  | inl _ => (reportObj w (knownKind (ref_Kind ref)) [] (ref_Name ref) reasonBadAPIVersion, None)
  | inr row => (w, row)
  end.

Record servedRef := mkServed { apiVersion : bytes; s_kind : bytes; s_name : bytes; uid : bytes; controller : bool }.
#[export] Instance servedRef_eq_dec : EqDecision servedRef.
Proof. solve_decision. Defined.

Definition servedRefOf (ref : OwnerReference) : servedRef :=
  mkServed (ref_APIVersion ref) (ref_Kind ref) (ref_Name ref) (ref_UID ref) (match ref_Controller ref with Some b => b | None => false end).

Definition owner (s : servedRef) : Owner := mkOwner (apiVersion s) (s_kind s) (s_name s) (uid s) (controller s) ∅ ∅.

Fixpoint SameServedRefs (a b : list OwnerReference) : bool :=
  match a, b with
  | [], [] => true
  | x :: a, y :: b => bool_decide (servedRefOf x = servedRefOf y) && SameServedRefs a b
  | _, _ => false
  end.

(** ** The walk *)

Definition kindCount : Type := bytes * Z.

Fixpoint tally (counts : list kindCount) (k : bytes) : list kindCount :=
  match counts with
  | [] => [(k, 1)]
  | (k', n) :: counts => if bool_decide (k' = k) then (k', n + 1) :: counts else (k', n) :: tally counts k
  end.

Record walk := mkWalk { out : list Owner; seen : gset bytes; omitted : Z; capped : list kindCount; wld : world }.

Definition countAnnotationsOmitted (w : world) (k : bytes) (annotations : strmap) : world :=
  if AnnotationsOmitted annotations then with_annotations w (MetadataAnnotationsOmitted w ++ [k]) else w.

(** [CopyOwnerMeta] onto the owner; it ranges over the two maps twice each. *)
Definition attach (w : world) (o : Owner) (m : PartialObjectMetadata) : world * Owner :=
  let at_ i x := range_order (i + ranged w)%nat x in
  let '(l, a) := CopyOwnerMeta (at_ 0%nat (m_Labels m)) (at_ 1%nat (m_Labels m)) (at_ 2%nat (m_Annotations m)) (at_ 3%nat (m_Annotations m)) (m_Labels m) (m_Annotations m) in
  (with_range w 4, mkOwner (APIVersion o) (Kind o) (Name o) (UID o) (Controller o) l a).

Definition count_meta (w : world) (g : GVR) (o : Owner) : world :=
  let w := countAnnotationsOmitted w (gvrKind g) (Annotations o) in
  if LabelsOmitted (Annotations o) then with_labels w (MetadataLabelsOmitted w ++ [gvrKind g]) else w.

(** The body of [add]; [rec] is [add] on a parent, [limit] is [MaxOwners]. *)
Definition add_body (limit : Z) (namespace : bytes) (rec : walk -> OwnerReference -> walk) (top : bool) (s : walk) (ref : OwnerReference) : walk :=
  if bool_decide (ref_UID ref ∈ seen s) then s
  else if limit <=? Z.of_nat (length (out s)) then mkWalk (out s) (seen s) (omitted s + 1) (tally (capped s) (knownKind (ref_Kind ref))) (wld s)
  else
    let seen' := {[ref_UID ref]} ∪ seen s in
    let o := owner (servedRefOf ref) in
    let '(w, row) := ownerRow (wld s) ref in
    match row with
    | None => mkWalk (out s ++ [o]) seen' (omitted s) (capped s) w
    | Some row =>
        let '(w, m) := get w (gvr row) namespace (ref_Name ref) in
        match m with
        | None => mkWalk (out s ++ [o]) seen' (omitted s) (capped s) w
        | Some m =>
            if negb (bool_decide (ref_UID ref = [])) && negb (bool_decide (ref_UID ref = m_UID m))
            then mkWalk (out s ++ [o]) seen' (omitted s) (capped s) (report w (gvr row) namespace (ref_Name ref) reasonUIDMismatch)
            else
              let '(w, o) := attach w o m in
              let s := mkWalk (out s ++ [o]) seen' (omitted s) (capped s) (count_meta w (gvr row) o) in
              if top && follow row then foldl rec s (m_OwnerReferences m) else s
        end
    end.

(** A parent's own owners are not followed. *)
Definition add_parent (limit : Z) (namespace : bytes) : walk -> OwnerReference -> walk := add_body limit namespace (fun s _ => s) false.
Definition add (limit : Z) (namespace : bytes) : walk -> OwnerReference -> walk := add_body limit namespace (add_parent limit namespace) true.

Definition reportOwnersCapped (w : world) (namespace : bytes) (refs : list OwnerReference) (served omitted : Z) : world :=
  let '(t, ok) := Throttle.AllowAt (capThrottle w) (SinceEpoch (clock w)) ownersCapWarnEvery in
  let w := with_throttle w t in
  match refs with
  | ref :: _ => if ok then with_log w [ChainTruncated namespace (Z.of_nat (length refs)) (knownKind (ref_Kind ref)) (ref_Name ref) served omitted] else w
  | [] => w
  end.

Definition resolve_with (limit : Z) (w : world) (namespace : bytes) (refs : list OwnerReference) : walk :=
  foldl (add limit namespace) (mkWalk [] ∅ 0 [] w) refs.

Definition Resolve (w : world) (namespace : bytes) (refs : list OwnerReference) : world * (list Owner * Z) :=
  match refs with
  | [] => (w, ([], 0))
  | _ =>
      let s := resolve_with MaxOwners w namespace refs in
      let w := foldl (fun w '(k, n) => count_failure w k reasonOwnersCapped n) (wld s) (capped s) in
      let w := if 0 <? omitted s then reportOwnersCapped w namespace refs (Z.of_nat (length (out s))) (omitted s) else w in
      (w, (out s, omitted s))
  end.

(** ** Namespaces and nodes *)

Definition clusterScoped (w : world) (g : GVR) (name : bytes) : world * option ObjectMeta :=
  let '(w, m) := get w g [] name in
  match m with
  | None => (w, None)
  | Some m =>
      let '(l, a) := CopyMeta (range_order (ranged w) (m_Annotations m)) (range_order (1 + ranged w)%nat (m_Annotations m)) (m_Labels m) (m_Annotations m) in
      let w := countAnnotationsOmitted (with_range w 2) (gvrKind g) a in
      (w, Some (mkObject (m_UID m) l a))
  end.

Definition Namespace (w : world) (name : bytes) : world * option ObjectMeta := clusterScoped w NamespaceGVR name.
Definition Node (w : world) (name : bytes) : world * option ObjectMeta := clusterScoped w NodeGVR name.

End Resolver.
