(* ===== verification/OwnersSafe.v ===== *)
(** * What a resolved owner chain is ([internal/owners/owners.go])

    The chain is bounded and duplicate free, its metadata belongs to the objects
    it names, it is a prefix of what no cap would give, and what a resolution
    counts is bounded by the kinds the service watches. *)

From S2P Require Import Prelude LogDedupe Clip Order Number Text KubeMeta KubeMetaSafe Owners.
Local Open Scope Z_scope.

Section Chain.
Context `{Cluster}.

(** ** What is counted *)

Definition watched : list bytes := (kind <$> ownerKinds) ++ [text "unknown"].
Definition known : list bytes := watched ++ [text "Namespace"; text "Node"].

Lemma knownKind_watched k : knownKind k ∈ watched.
Proof.
  unfold knownKind, watched. destruct (existsb _ _) eqn:E; [|apply elem_of_app; right; by left].
  apply existsb_exists in E as (row & Hin & Hk). apply bool_decide_eq_true in Hk as <-. apply elem_of_app. left.
  apply list_elem_of_fmap. exists row. split; [done|by apply list_elem_of_In].
Qed.

Lemma watched_known k : k ∈ watched -> k ∈ known.
Proof. unfold known. rewrite elem_of_app. by left. Qed.

Lemma gvrKind_known g : gvrKind g ∈ known.
Proof.
  unfold gvrKind. destruct (find _ _) as [row|] eqn:E.
  - apply find_some in E as [E _]. apply watched_known. unfold watched. apply elem_of_app. left. apply list_elem_of_fmap. exists row. split; [done|by apply list_elem_of_In].
  - unfold known, watched. rewrite !elem_of_app. destruct g; set_solver.
Qed.

(** A failure that is not the cap's: one, of a known kind. *)
Definition plain_failure (e : bytes * reason * Z) : Prop := e.1.1 ∈ known /\ e.1.2 <> reasonOwnersCapped /\ e.2 = 1.

(** From [w] to [w'] only such failures are counted, and the warnings' table is
    asked only for failures that warn. *)
Definition counted (w w' : world) : Prop := exists l, OwnerResolveFailures w' = OwnerResolveFailures w ++ l /\ Forall plain_failure l /\
  (Forall (fun e => warns e.1.2 = false) l -> warnDedupe w' = warnDedupe w).

#[local] Instance counted_preorder : PreOrder counted.
Proof.
  split.
  - intros w. exists []. by rewrite app_nil_r.
  - intros w1 w2 w3 (l & E1 & F1 & W1) (l' & E2 & F2 & W2). exists (l ++ l'). rewrite E2, E1, app_assoc. split; [done|]. split; [by apply Forall_app|].
    intros [Q1 Q2]%Forall_app. by rewrite W2, W1.
Qed.

Lemma counted_same w w' : OwnerResolveFailures w' = OwnerResolveFailures w -> warnDedupe w' = warnDedupe w -> counted w w'.
Proof. intros E1 E2. exists []. by rewrite app_nil_r. Qed.

Lemma reportObj_counted w k ns n r : k ∈ known -> r <> reasonOwnersCapped -> counted w (reportObj w k ns n r).
Proof.
  intros Hk Hr. exists [(k, r, 1)]. assert (Forall plain_failure [(k, r, 1)]) as P by (by apply Forall_singleton).
  rewrite !Forall_singleton in *; cbn [fst snd]. unfold reportObj. destruct (warns r) eqn:W; cbn [negb andb].
  - destruct (warnDedupe (count_failure w k r 1)) as [t|]; [|split_and!; [done..|intros F; cbn in F; congruence]]. destruct (Table.Allow _ _ _) as [t' [[] []]]; (split; [done|split; [done|]]); intros F; cbn in F; congruence.
  - destruct (negb DebugEnabled); [done|]. destruct (debugDedupe (count_failure w k r 1)) as [t|]; [|done].
    destruct (Table.Allow _ _ _) as [t' [[] []]]; (split; [done|split; [done|]]); intros ?; (done || congruence).
Qed.

Lemma report_counted w g ns n r : r <> reasonOwnersCapped -> counted w (report w g ns n r).
Proof. intros Hr. by apply reportObj_counted; [apply gvrKind_known|]. Qed.

Lemma get_counted w g ns n : counted w (get w g ns n).1.
Proof.
  unfold get. assert (counted w (with_read w)) as C by (by apply counted_same).
  destruct (lister _ _ _ _); cbn [fst]; try done; (etrans; [exact C|by apply report_counted]).
Qed.

Lemma get_cached w g ns n m : (get w g ns n).2 = Some m -> exists i, lister i g ns n = Cached m.
Proof. unfold get. destruct (lister (reads w) g ns n) eqn:E; cbn; try done. intros [= <-]. by exists (reads w). Qed.

Lemma ownerRow_counted w ref : counted w (ownerRow w ref).1.
Proof. unfold ownerRow. destruct (ownerKind ref); [|done]. apply reportObj_counted; [apply watched_known, knownKind_watched|done]. Qed.

Lemma count_meta_counted w g o : counted w (count_meta w g o).
Proof. unfold count_meta, countAnnotationsOmitted. destruct (AnnotationsOmitted _), (LabelsOmitted _); by apply counted_same. Qed.

Lemma attach_counted w o m : counted w (attach w o m).1.
Proof. unfold attach. destruct (CopyOwnerMeta _ _ _ _ _ _) as [l a]. by apply counted_same. Qed.

(** ** The tally *)

Definition tallied (l : list kindCount) : Prop := NoDup l.*1 /\ Forall (fun k => k ∈ watched) l.*1.

Lemma tally_keys l k : forall j, j ∈ (tally l k).*1 <-> j ∈ l.*1 \/ j = k.
Proof.
  induction l as [|[k' n] l IH]; intros j; cbn [tally]; [cbn; set_solver|]. case_bool_decide as E.
  - subst. rewrite !fmap_cons. cbn [fst]. set_solver.
  - rewrite !fmap_cons, !elem_of_cons, IH. tauto.
Qed.

Lemma tally_ok l k : k ∈ watched -> tallied l -> tallied (tally l k) /\ sumZ (tally l k).*2 = sumZ l.*2 + 1.
Proof.
  unfold tallied. intros Hk. induction l as [|[k' n] l IH]; cbn [tally].
  - intros _. split; [|done]. split; [apply NoDup_singleton|by apply Forall_singleton].
  - rewrite !fmap_cons. intros [Nd F]. apply NoDup_cons in Nd as [Nk Nd]. apply Forall_cons in F as [Fk F]. case_bool_decide as E.
    + rewrite !fmap_cons, !sumZ_cons. cbn [fst snd]. split; [|lia]. split; [by apply NoDup_cons|by apply Forall_cons].
    + destruct (IH (conj Nd F)) as [[Nd' F'] S']. rewrite !fmap_cons, !sumZ_cons. cbn [fst snd] in *. split; [|lia]. split; [|by apply Forall_cons].
      apply NoDup_cons. split; [|done]. rewrite tally_keys. intros [?|?]; [done|congruence].
Qed.

Lemma tallied_few l : tallied l -> (length l <= 7)%nat.
Proof.
  intros [Nd F]. assert (length l.*1 <= 7)%nat as Hl; [|by rewrite length_fmap in Hl]. change 7%nat with (length watched).
  apply submseteq_length, NoDup_submseteq; [done|]. intros k Hk. rewrite Forall_forall in F. by apply F.
Qed.

(** ** The walk *)

(** Where an owner's labels and annotations may come from. *)
Definition lent (ns : bytes) (o : Owner) : Prop := (Labels o = ∅ /\ Annotations o = ∅) \/
  exists i g m lo lo' ao ao', lister i g ns (Name o) = Cached m /\ (UID o = [] \/ UID o = m_UID m) /\
    (Labels o, Annotations o) = CopyOwnerMeta lo lo' ao ao' (m_Labels m) (m_Annotations m) /\
    ranges (m_Labels m) lo /\ ranges (m_Labels m) lo' /\ ranges (m_Annotations m) ao /\ ranges (m_Annotations m) ao'.

Record walk_inv (limit : Z) (ns : bytes) (w0 : world) (s : walk) : Prop := {
  wi_len : Z.of_nat (length (out s)) <= limit;
  wi_nodup : NoDup (UID <$> out s);
  wi_seen : forall u, u ∈ seen s <-> u ∈ UID <$> out s;
  wi_omitted : omitted s = sumZ (capped s).*2;
  wi_omitted_pos : 0 <= omitted s;
  wi_full : 0 < omitted s -> Z.of_nat (length (out s)) = limit;
  wi_tally : tallied (capped s);
  wi_lent : Forall (lent ns) (out s);
  wi_world : counted w0 (wld s) }.

Context (Hr : forall i m, range_order i m ≡ₚ map_to_list m).

Lemma attach_lent w (o : Owner) i g ns m : lister i g ns (Name o) = Cached m -> (UID o = [] \/ UID o = m_UID m) -> lent ns (attach w o m).2.
Proof.
  intros Hl Hu. right. unfold attach. destruct (CopyOwnerMeta _ _ _ _ _ _) as [l a] eqn:E. exists i, g, m. do 4 eexists. cbn.
  split; [done|]. split; [done|]. split; [exact (eq_sym E)|]. split_and!; apply Hr.
Qed.

Lemma attach_ref w (o : Owner) m : let o' := (attach w o m).2 in
  (APIVersion o', Kind o', Name o', UID o', Controller o') = (APIVersion o, Kind o, Name o, UID o, Controller o).
Proof. unfold attach. by destruct (CopyOwnerMeta _ _ _ _ _ _) as [l a]. Qed.

(** An owner appended. *)
Lemma walk_inv_snoc limit ns w0 s u o w : walk_inv limit ns w0 s -> u ∉ seen s -> Z.of_nat (length (out s)) < limit ->
  UID o = u -> lent ns o -> counted (wld s) w -> walk_inv limit ns w0 (mkWalk (out s ++ [o]) ({[u]} ∪ seen s) (omitted s) (capped s) w).
Proof.
  intros I Hu Hl <- Ho Hw. destruct I. split; cbn.
  - rewrite length_app. cbn. lia.
  - rewrite fmap_app. apply NoDup_app. split_and!; [done| |apply NoDup_singleton]. intros x Hx Hin. apply list_elem_of_singleton in Hin as ->. by apply Hu, wi_seen0.
  - intros u. rewrite fmap_app, elem_of_app, elem_of_union, elem_of_singleton, wi_seen0. cbn. rewrite list_elem_of_singleton. tauto.
  - done.
  - done.
  - intros Hp. specialize (wi_full0 Hp). lia.
  - done.
  - apply Forall_app. split; [done|by apply Forall_singleton].
  - by etrans.
Qed.

Lemma add_body_inv limit ns w0 rec top s ref : 0 <= limit -> (forall s ref, walk_inv limit ns w0 s -> walk_inv limit ns w0 (rec s ref)) ->
  walk_inv limit ns w0 s -> walk_inv limit ns w0 (add_body limit ns rec top s ref).
Proof.
  intros Hlim Hrec I. unfold add_body. case_bool_decide as Hseen; [done|]. destruct (Z.leb_spec limit (Z.of_nat (length (out s)))) as [Hfull|Hroom].
  { destruct I. destruct (tally_ok (capped s) (knownKind (ref_Kind ref)) (knownKind_watched _) wi_tally0) as [T S].
    split; cbn [out seen omitted capped wld]; try done; lia. }
  pose proof (ownerRow_counted (wld s) ref) as C1. destruct (ownerRow (wld s) ref) as [w1 [row|]]; cbn [fst] in C1.
  2: { apply walk_inv_snoc; try done. by left. }
  pose proof (get_counted w1 (gvr row) ns (ref_Name ref)) as C2. pose proof (get_cached w1 (gvr row) ns (ref_Name ref)) as G.
  destruct (get w1 (gvr row) ns (ref_Name ref)) as [w2 [m|]]; cbn [fst snd] in *.
  2: { apply walk_inv_snoc; try done; [by left|by etrans]. }
  destruct (negb (bool_decide (ref_UID ref = [])) && negb (bool_decide (ref_UID ref = m_UID m))) eqn:Eu.
  { apply walk_inv_snoc; try done; [by left|]. etrans; [by etrans|]. by apply report_counted. }
  destruct (G m eq_refl) as [i Hi]. pose proof (attach_lent w2 (owner (servedRefOf ref)) i (gvr row) ns m Hi) as L.
  pose proof (attach_counted w2 (owner (servedRefOf ref)) m) as C3. pose proof (attach_ref w2 (owner (servedRefOf ref)) m) as R.
  destruct (attach w2 (owner (servedRefOf ref)) m) as [w3 o]. cbn [fst snd] in *. injection R as _ _ _ Ru _.
  assert (I' : walk_inv limit ns w0 (mkWalk (out s ++ [o]) ({[ref_UID ref]} ∪ seen s) (omitted s) (capped s) (count_meta w3 (gvr row) o))).
  { apply walk_inv_snoc; try done.
    - apply L. cbn. destruct (decide (ref_UID ref = [])) as [|Hn1]; [by left|]. destruct (decide (ref_UID ref = m_UID m)) as [|Hn2]; [by right|].
      by rewrite !bool_decide_eq_false_2 in Eu.
    - etrans; [by etrans|]. etrans; [done|]. apply count_meta_counted. }
  destruct (top && follow row); [|done]. by apply foldl_inv.
Qed.

Lemma resolve_inv limit ns w refs : 0 <= limit -> walk_inv limit ns w (resolve_with limit w ns refs).
Proof.
  intros Hlim. unfold resolve_with. apply foldl_inv.
  - intros s ref I. apply add_body_inv; [done| |done]. clear s ref I. intros s ref I. apply add_body_inv; [done| |done]. done.
  - split; cbn; (done || apply NoDup_nil_2 || (by split; [apply NoDup_nil_2|apply Forall_nil_2]) || apply Forall_nil_2 || set_solver).
Qed.

(** ** The cap against a higher one *)

Lemma foldl_extends {B} (f : walk -> B -> walk) : (forall s b, out s `prefix_of` out (f s b)) -> forall l s, out s `prefix_of` out (foldl f s l).
Proof. intros Hf l. induction l as [|b l IH]; intros s; [done|]. cbn. etrans; [apply Hf|apply IH]. Qed.

Lemma add_body_extends limit ns rec top s ref : (forall s ref, out s `prefix_of` out (rec s ref)) -> out s `prefix_of` out (add_body limit ns rec top s ref) /\
  (ref_UID ref ∉ seen s -> Z.of_nat (length (out s)) < limit -> exists o, out s ++ [o] `prefix_of` out (add_body limit ns rec top s ref)).
Proof.
  intros Hrec. assert (Hp : ref_UID ref ∉ seen s -> Z.of_nat (length (out s)) < limit -> exists o, out s ++ [o] `prefix_of` out (add_body limit ns rec top s ref)).
  { intros Hs Hl. unfold add_body. rewrite bool_decide_eq_false_2 by done. destruct (Z.leb_spec limit (Z.of_nat (length (out s)))); [lia|].
    destruct (ownerRow (wld s) ref) as [w1 [row|]]; [|by exists (owner (servedRefOf ref))]. destruct (get w1 (gvr row) ns (ref_Name ref)) as [w2 [m|]]; [|by exists (owner (servedRefOf ref))].
    destruct (_ && _); [by exists (owner (servedRefOf ref))|]. destruct (attach w2 (owner (servedRefOf ref)) m) as [w3 o]. exists o.
    destruct (top && follow row); [|done]. etrans; [|by apply foldl_extends]. done. }
  split; [|done]. unfold add_body in *. case_bool_decide as Hs; [done|]. destruct (Z.leb_spec limit (Z.of_nat (length (out s)))); [done|].
  destruct (Hp Hs) as [o Ho]; [lia|]. by etrans; [apply prefix_app_r|exact Ho].
Qed.

Lemma add_extends limit ns s ref : out s `prefix_of` out (add limit ns s ref).
Proof. apply add_body_extends. intros s' ref'. by apply add_body_extends. Qed.

(** [s] under the cap [c], [u] under a higher one. *)
Definition cut (c : Z) (s u : walk) : Prop := Z.of_nat (length (out s)) <= c /\ ((omitted s = 0 /\ s = u) \/
  (0 < omitted s /\ Z.of_nat (length (out s)) = c /\ out s `prefix_of` out u /\ c < Z.of_nat (length (out u)))).

Lemma foldl_cut {B} c (f g : walk -> B -> walk) : (forall s u b, cut c s u -> cut c (f s b) (g u b)) -> forall l s u, cut c s u -> cut c (foldl f s l) (foldl g u l).
Proof. intros Hf l. induction l as [|b l IH]; intros s u C; [done|]. cbn. apply IH, Hf, C. Qed.

Lemma add_body_cut c L ns rec rec' top s u ref : c < L -> (forall s ref, out s `prefix_of` out (rec' s ref)) ->
  (forall s u ref, cut c s u -> cut c (rec s ref) (rec' u ref)) -> cut c s u -> cut c (add_body c ns rec top s ref) (add_body L ns rec' top u ref).
Proof.
  intros HL Hext Hrec [Hlen C]. destruct (add_body_extends L ns rec' top u ref Hext) as [E1 E2]. destruct C as [[H0 <-]|(Hp & Hc & Hpre & Hlong)].
  - destruct (decide (ref_UID ref ∈ seen s)) as [Hs|Hs].
    { unfold add_body. rewrite bool_decide_eq_true_2 by done. split; [done|]. by left. }
    destruct (Z.leb_spec c (Z.of_nat (length (out s)))) as [Hfull|Hroom].
    { destruct (E2 Hs) as [o Ho]; [lia|]. unfold add_body at 1. rewrite bool_decide_eq_false_2 by done.
      destruct (Z.leb_spec c (Z.of_nat (length (out s)))); [|lia]. split; [done|]. right. cbn. split_and!; [lia|lia|by etrans; [apply prefix_app_r|exact Ho]|].
      apply prefix_length in Ho. rewrite length_app in Ho. cbn in Ho. lia. }
    clear E1 E2. unfold add_body. rewrite bool_decide_eq_false_2 by done. destruct (Z.leb_spec c (Z.of_nat (length (out s)))); [lia|].
    destruct (Z.leb_spec L (Z.of_nat (length (out s)))); [lia|].
    assert (Same : forall o se w, cut c (mkWalk (out s ++ [o]) se (omitted s) (capped s) w) (mkWalk (out s ++ [o]) se (omitted s) (capped s) w)).
    { intros o se w. split; [|by left]. cbn. rewrite length_app. cbn. lia. }
    destruct (ownerRow (wld s) ref) as [w1 [row|]]; [|apply Same]. destruct (get w1 (gvr row) ns (ref_Name ref)) as [w2 [m|]]; [|apply Same].
    destruct (negb _ && _); [apply Same|]. destruct (attach w2 (owner (servedRefOf ref)) m) as [w3 o].
    destruct (top && follow row); [|apply Same]. apply foldl_cut; [exact Hrec|apply Same].
  - unfold add_body at 1. case_bool_decide.
    + split; [done|]. right. split_and!; try done; [by etrans|]. apply prefix_length in E1. lia.
    + destruct (Z.leb_spec c (Z.of_nat (length (out s)))); [|lia]. split; [done|]. right. cbn. split_and!; [lia|done|by etrans|]. apply prefix_length in E1. lia.
Qed.

Lemma resolve_cut c L ns w refs : 0 <= c < L -> cut c (resolve_with c w ns refs) (resolve_with L w ns refs).
Proof.
  intros Hc. unfold resolve_with. apply foldl_cut; [|split; [cbn; lia|by left]]. intros s u ref C. apply add_body_cut; [lia| | |done].
  - intros s' ref'. by apply add_body_extends.
  - intros s' u' ref' C'. apply add_body_cut; [lia|done| |done]. done.
Qed.

(** ** Resolutions *)

Lemma Resolve_chain w ns refs : (Resolve w ns refs).2 = (out (resolve_with MaxOwners w ns refs), omitted (resolve_with MaxOwners w ns refs)).
Proof. unfold Resolve. by destruct refs. Qed.

Lemma lent_bounded ns o : lent ns o -> meta_bytes (Labels o, Annotations o) <= MaxOwnerLabelBytes + MaxAnnotationBytes + 2048.
Proof.
  intros [[-> ->]|(i & g & m & lo & lo' & ao & ao' & _ & _ & -> & ? & ? & ? & ?)]; [|by apply owner_meta_bounded].
  unfold meta_bytes. cbn [fst snd]. rewrite map_to_list_empty. done.
Qed.

(** What [add] reads of a reference is what is served of it. *)
Lemma add_body_served limit ns rec top s ref ref' : servedRefOf ref = servedRefOf ref' -> add_body limit ns rec top s ref = add_body limit ns rec top s ref'.
Proof.
  destruct ref as [a k n u c], ref' as [a' k' n' u' c']. unfold servedRefOf at 1 2. cbn. intros [= -> -> -> -> Hc].
  unfold add_body, owner, servedRefOf, ownerRow, ownerKind. cbn. by rewrite Hc.
Qed.

Lemma SameServedRefs_spec a : forall b, SameServedRefs a b = true <-> servedRefOf <$> a = servedRefOf <$> b.
Proof.
  induction a as [|x a IH]; intros [|y b]; cbn; try done. rewrite andb_true_iff, bool_decide_eq_true, IH. split; [by intros [-> ->]|intros E; by apply (inj2 cons) in E].
Qed.

Lemma foldl_served limit ns a : forall b s, servedRefOf <$> a = servedRefOf <$> b -> foldl (add limit ns) s a = foldl (add limit ns) s b.
Proof.
  induction a as [|x a IH]; intros [|y b] s; try done. rewrite !fmap_cons. intros E. apply (inj2 cons) in E as [Exy Eab]. cbn [foldl].
  unfold add at 2 4. rewrite (add_body_served _ _ _ _ s x y Exy). by apply IH.
Qed.

(** C33: A resolved chain is bounded whatever the pod names and whatever its
    owners carry: at most eight entries of distinct UIDs, whose labels and
    annotations come to at most eight times thirty-four kibibytes; and an entry
    has metadata only of an object read under its name whose UID is the
    reference's, so a recreated owner lends nothing to its predecessor. *)
Theorem owner_chain_bounded w ns refs : let '(_, (chain, _)) := Resolve w ns refs in
  (length chain <= 8)%nat /\ NoDup (UID <$> chain) /\
  sumZ ((fun o => meta_bytes (Labels o, Annotations o)) <$> chain) <= MaxOwners * (MaxOwnerLabelBytes + MaxAnnotationBytes + 2048) /\
  Forall (lent ns) chain.
Proof.
  pose proof (Resolve_chain w ns refs) as E. destruct (Resolve w ns refs) as [w' [chain om]]. cbn [snd] in E. injection E as -> _.
  destruct (resolve_inv MaxOwners ns w refs ltac:(done)) as [Hlen Hnd _ _ _ _ _ Hlent _]. assert (MaxOwners = 8) by done. split_and!; [lia|done| |done].
  etrans; [apply (sumZ_bound _ (MaxOwnerLabelBytes + MaxAnnotationBytes + 2048))|].
  - eapply Forall_impl; [exact Hlent|]. intros o. apply lent_bounded.
  - apply Z.mul_le_mono_nonneg_r; [done|exact Hlen].
Qed.

(** C15: The cap only cuts: the chain is the first eight entries of what any
    higher cap gives, and nothing is reported omitted exactly when a higher cap
    would have given no more, so a short chain never reads as a whole one. *)
Theorem owner_chain_prefix w ns refs L : MaxOwners < L -> let '(_, (chain, om)) := Resolve w ns refs in
  let full := out (resolve_with L w ns refs) in chain = take 8 full /\ (om = 0 <-> (length full <= 8)%nat).
Proof.
  intros HL. pose proof (Resolve_chain w ns refs) as E. destruct (Resolve w ns refs) as [w' [chain om]]. cbn [snd] in E. injection E as -> ->. cbv zeta.
  destruct (resolve_cut MaxOwners L ns w refs) as [Hlen [[H0 <-]|(Hp & Hc & [l Hl] & Hlong)]]; [done| |].
  - assert (MaxOwners = 8) by done. rewrite take_ge by lia. split; [done|]. rewrite H0. split; [lia|done].
  - assert (MaxOwners = 8) by done. rewrite Hl. rewrite Hl in Hlong. split; [|lia].
    rewrite take_app_length'; [done|lia].
Qed.

(** What one resolution counts does not grow with what it is given: the
    references refused by the cap are tallied exactly, in at most seven kinds;
    every other failure is one, of a kind the service watches; and when none of
    them is a wiring or access failure the table that throttles those warnings
    is left as it was, so ordinary misses cannot exhaust it. *)
Theorem owner_failures_counted w ns refs : let '(w', (_, om)) := Resolve w ns refs in
  exists l c, OwnerResolveFailures w' = OwnerResolveFailures w ++ l ++ ((fun kn : kindCount => (kn.1, reasonOwnersCapped, kn.2)) <$> c) /\
  Forall plain_failure l /\ (length c <= 7)%nat /\ Forall (fun k => k ∈ watched) c.*1 /\ sumZ c.*2 = om /\
  (Forall (fun e => warns e.1.2 = false) l -> warnDedupe w' = warnDedupe w).
Proof.
  destruct refs as [|r refs]; [exists [], []; cbn; rewrite app_nil_r; split_and!; (done || apply Forall_nil_2 || (cbn; lia))|]. cbn [Resolve]. set (s := resolve_with _ _ _ _).
  destruct (resolve_inv MaxOwners ns w (r :: refs) ltac:(done)) as [_ _ _ Hom _ _ Ht _ Hw]. fold s in Hom, Ht, Hw.
  destruct Hw as (l & El & Fl & Wl). set (w1 := foldl (fun w '(k, n) => count_failure w k reasonOwnersCapped n) (wld s) (capped s)).
  assert (E1 : OwnerResolveFailures w1 = OwnerResolveFailures (wld s) ++ ((fun kn : kindCount => (kn.1, reasonOwnersCapped, kn.2)) <$> capped s) /\ warnDedupe w1 = warnDedupe (wld s)).
  { unfold w1. clear. generalize (wld s). induction (capped s) as [|[k n] c IH]; intros w'; cbn [foldl]; [by rewrite app_nil_r|].
    destruct (IH (count_failure w' k reasonOwnersCapped n)) as [-> ->]. rewrite fmap_cons. cbn. by rewrite <- app_assoc. }
  destruct E1 as [E1 W1]. exists l, (capped s).
  assert (E2 : forall w2, OwnerResolveFailures w2 = OwnerResolveFailures w1 -> warnDedupe w2 = warnDedupe w1 ->
    OwnerResolveFailures w2 = OwnerResolveFailures w ++ l ++ ((fun kn : kindCount => (kn.1, reasonOwnersCapped, kn.2)) <$> capped s) /\
    Forall plain_failure l /\ (length (capped s) <= 7)%nat /\ Forall (fun k => k ∈ watched) (capped s).*1 /\ sumZ (capped s).*2 = omitted s /\
    (Forall (fun e => warns e.1.2 = false) l -> warnDedupe w2 = warnDedupe w)).
  { intros w2 F2 W2. rewrite F2, W2, E1, W1, El, app_assoc. split_and!; try done; [by apply tallied_few|apply Ht]. }
  destruct (0 <? omitted s); [|by apply E2]. apply E2; unfold reportOwnersCapped; destruct (Throttle.AllowAt _ _ _) as [t []]; done.
Qed.

(** Two reference lists that [SameServedRefs] takes for the same resolve
    alike, chain, count and everything reported, whatever the caches hold; so a
    change that the test misses changes no answer. *)
Theorem same_refs_resolve_alike w ns a b : SameServedRefs a b = true -> Resolve w ns a = Resolve w ns b.
Proof.
  rewrite SameServedRefs_spec. intros E. assert (El : length a = length b) by (by rewrite <- (length_fmap servedRefOf a), E, length_fmap).
  unfold Resolve, resolve_with. destruct a as [|x a], b as [|y b]; try done. rewrite (foldl_served _ _ _ _ _ E). f_equal.
  destruct (0 <? _); [|done]. unfold reportOwnersCapped. destruct (Throttle.AllowAt _ _ _) as [t [|]]; [|done]. rewrite El.
  rewrite !fmap_cons in E. injection E as _ Ek En _ _ _. by rewrite Ek, En.
Qed.

End Chain.

(** * Owner chains at a concrete cluster ([internal/owners/owners.go]) *)


Definition ref_of (k n u : string) : OwnerReference := mkRef (text "apps/v1") (text k) (text n) (text u) None.

(** A ReplicaSet of a Deployment, and nothing else cached. *)
Definition web_rs : PartialObjectMetadata := mkMeta (text "rs") (list_to_map [(text "app", text "web")]) ∅ [ref_of "Deployment" "web" "dep"].
Definition web : PartialObjectMetadata := mkMeta (text "dep") (list_to_map [(text "team", text "core")]) (list_to_map [(text "note", replicate 8193 65)]) [].

#[export] Instance one_cluster : Cluster := {|
  apps := text "apps";
  batch := text "batch";
  ParseGroup v := if decide (v = text "apps/v1") then Some (text "apps") else None;
  lister _ g _ n := match g with
    | ReplicaSetGVR => if decide (n = text "web-1") then Cached web_rs else IsNotFound
    | DeploymentGVR => if decide (n = text "web") then Cached web else IsNotFound
    | _ => IsNotFound end;
  Now n := Z.of_nat n;
  SinceEpoch n := Z.of_nat n;
  range_order _ m := map_to_list m;
  DebugEnabled := true |}.

Definition many : list OwnerReference := ref_of "ReplicaSet" "web-1" "rs" ::
  ((fun u => ref_of "Widget" "w" u) <$> ["0"; "1"; "2"; "3"; "4"; "5"; "6"; "7"]%string).

Example many_served : (fun o => (UID o, size (Labels o), AnnotationsOmitted (Annotations o))) <$> (Resolve NewFromListers (text "ns") many).2.1 =
  (text "rs", 1%nat, false) :: (text "dep", 1%nat, true) :: ((fun u => (text u, 0%nat, false)) <$> ["0"; "1"; "2"; "3"; "4"; "5"]%string).
Proof. vm_compute. reflexivity. Qed.

Example many_omitted : (Resolve NewFromListers (text "ns") many).2.2 = 2 /\
  OwnerResolveFailures (Resolve NewFromListers (text "ns") many).1 = [(text "unknown", reasonOwnersCapped, 2)].
Proof. vm_compute. split; reflexivity. Qed.

Lemma owner_chain_bounded_witness : (length (Resolve NewFromListers (text "ns") many).2.1 <= 8)%nat.
Proof.
  pose proof (owner_chain_bounded (fun _ _ => Permutation_refl _) NewFromListers (text "ns") many) as T.
  destruct (Resolve NewFromListers (text "ns") many) as [w [c o]]. exact (proj1 T).
Defined.

Lemma owner_chain_prefix_witness : (Resolve NewFromListers (text "ns") many).2.1 = take 8 (out (resolve_with 20 NewFromListers (text "ns") many)).
Proof.
  pose proof (owner_chain_prefix NewFromListers (text "ns") many 20 eq_refl) as T.
  destruct (Resolve NewFromListers (text "ns") many) as [w [c o]]. exact (proj1 T).
Defined.

Lemma owner_failures_counted_witness : exists l c, OwnerResolveFailures (Resolve NewFromListers (text "ns") many).1 =
  l ++ ((fun kn : kindCount => (kn.1, reasonOwnersCapped, kn.2)) <$> c) /\ sumZ c.*2 = 2.
Proof.
  assert ((Resolve NewFromListers (text "ns") many).2.2 = 2) as E by (vm_compute; reflexivity).
  pose proof (owner_failures_counted (fun _ _ => Permutation_refl _) NewFromListers (text "ns") many) as T.
  destruct (Resolve NewFromListers (text "ns") many) as [w [c o]]. destruct T as (l & k & T1 & _ & _ & _ & T5 & _). exists l, k.
  split; [exact T1|]. cbn in E. by rewrite T5.
Defined.

(** A controller flag that is absent, and one that is false. *)
Lemma same_refs_resolve_alike_witness : Resolve NewFromListers (text "ns") [ref_of "ReplicaSet" "web-1" "rs"] =
  Resolve NewFromListers (text "ns") [mkRef (text "apps/v1") (text "ReplicaSet") (text "web-1") (text "rs") (Some false)].
Proof. apply same_refs_resolve_alike. vm_compute. reflexivity. Defined.
