(* ===== verification/Services.v ===== *)
(** * The index of Services ([internal/services/services.go])

    The informer's deliveries change it, the readers match pods against it, and
    a memo keeps each namespace's sorted list while the change token stands.  The
    operations under one lock are functions; [InNamespaces], which takes two
    locks in turn, is cut where it releases one.

    The token is a [uint64] that moves once per change: its wrap is out of reach
    and it is a [Z] here. *)

From S2P Require Import Prelude Clip Number Text Order KubeMeta.
Local Open Scope Z_scope.

Record Port := mkPort { p_Name : bytes; p_Port : Z; TargetPortName : bytes; TargetPortNum : Z }.

Record Service := mkService {
  Name : bytes;
  Namespace : bytes;
  UID : bytes;
  Labels : strmap;
  Annotations : strmap;
  Selector : strmap;
  Ports : list Port;
  resourceVersion : bytes }.

#[export] Instance Port_eq_dec : EqDecision Port.
Proof. solve_decision. Defined.
#[export] Instance Service_eq_dec : EqDecision Service.
Proof. solve_decision. Defined.

(** [corev1.Service], as far as it is read. *)
Inductive TargetPort := String (StrVal : bytes) | Int (IntVal : Z).
Record ServicePort := mkServicePort { sp_Name : bytes; sp_Port : Z; sp_TargetPort : TargetPort }.
Record kService := mkK {
  k_Name : bytes;
  k_Namespace : bytes;
  k_UID : bytes;
  k_ResourceVersion : bytes;
  k_Labels : strmap;
  k_Annotations : strmap;
  k_Selector : strmap;
  k_Ports : list ServicePort }.

(** What [mu] guards. *)
Record data := mkData { byNamespace : gmap bytes (gmap bytes Service); byName : gmap bytes bytes; nameReused : Z }.

(** What [sortMu] guards: a nil list is [[]]. *)
Record memo := mkMemo { sorted : gmap bytes (list Service); sortedGen : Z }.

Record Index := mkIndex { held : data; gen : Z; reads : Z; cache : memo; AnnotationsOmittedCount : Z }.

Definition NewIndex : Index := mkIndex (mkData ∅ ∅ 0) 0 0 (mkMemo ∅ 0) 0.

Definition Generation (ix : Index) : Z := gen ix.
Definition NameReuses (ix : Index) : Z := nameReused (held ix).
Definition Reads (ix : Index) : Z := reads ix.

Definition services_of (d : data) (ns : bytes) : gmap bytes Service := default ∅ (byNamespace d !! ns).

(** ** Changing it *)

Definition unchangedLocked (cur : option Service) (svc : kService) : bool :=
  match cur with
  | Some cur => negb (bool_decide (k_ResourceVersion svc = [])) && bool_decide (resourceVersion cur = k_ResourceVersion svc)
  | None => false
  end.

Definition resyncNoOp (d : data) (svc : kService) : bool := unchangedLocked (services_of d (k_Namespace svc) !! k_UID svc) svc.

Definition port_of (p : ServicePort) : Port :=
  match sp_TargetPort p with
  | String s => mkPort (sp_Name p) (sp_Port p) s 0
  | Int n => mkPort (sp_Name p) (sp_Port p) [] n
  end.

(** The conversion; [ord] and [ord'] are the orders the annotations are walked in. *)
Definition convert (ord ord' : entries) (svc : kService) : Service :=
  let '(labels, annotations) := CopyMeta ord ord' (k_Labels svc) (k_Annotations svc) in
  mkService (k_Name svc) (k_Namespace svc) (k_UID svc) labels annotations (k_Selector svc) (port_of <$> k_Ports svc) (k_ResourceVersion svc).

Definition nameKey (ns name : bytes) : bytes := ns ++ text "/" ++ name.

(** The half under the write lock: [None] when the delivery changes nothing. *)
Definition upsert_locked (d : data) (svc : kService) (rec : Service) : option data :=
  if resyncNoOp d svc then None
  else
    let ns := k_Namespace svc in
    let m := services_of d ns in
    let key := nameKey ns (k_Name svc) in
    let '(m, reused) := match byName d !! key with
      | Some prev => if bool_decide (prev = k_UID svc) then (m, nameReused d) else (delete prev m, nameReused d + 1)
      | None => (m, nameReused d)
      end in
    Some (mkData (<[ns := <[k_UID svc := rec]> m]> (byNamespace d)) (<[key := k_UID svc]> (byName d)) reused).

Definition delete_locked (d : data) (ns uid : bytes) : option data :=
  match byNamespace d !! ns with
  | None => None
  | Some m =>
      match m !! uid with
      | None => None
      | Some svc =>
          let key := nameKey ns (Name svc) in
          let names := match byName d !! key with Some cur => if bool_decide (cur = uid) then delete key (byName d) else byName d | None => byName d end in
          let m := delete uid m in
          Some (mkData (if bool_decide (m = ∅) then delete ns (byNamespace d) else <[ns := m]> (byNamespace d)) names (nameReused d))
      end
  end.

(** A change moves the token; the memo is left, to be found stale. *)
Definition commit (ix : Index) (d : option data) : Index :=
  match d with None => ix | Some d => mkIndex d (gen ix + 1) (reads ix) (cache ix) (AnnotationsOmittedCount ix) end.

Definition Upsert (ord ord' : entries) (ix : Index) (svc : kService) : Index :=
  if resyncNoOp (held ix) svc then ix
  else
    let rec := convert ord ord' svc in
    let ix := mkIndex (held ix) (gen ix) (reads ix) (cache ix) (AnnotationsOmittedCount ix + (if AnnotationsOmitted (Annotations rec) then 1 else 0)) in
    commit ix (upsert_locked (held ix) svc rec).

Definition Delete (ix : Index) (ns uid : bytes) : Index := commit ix (delete_locked (held ix) ns uid).

(** ** Reading it *)

Definition count_read (ix : Index) : Index := mkIndex (held ix) (gen ix) (reads ix + 1) (cache ix) (AnnotationsOmittedCount ix).

(** The loop of [All] over a list that may repeat itself. *)
Fixpoint append_once (at_ : bytes -> list Service) (seen : gset bytes) (namespaces : list bytes) (out : list Service) : list Service :=
  match namespaces with
  | [] => out
  | ns :: namespaces =>
      if bool_decide (ns ∈ seen) then append_once at_ seen namespaces out
      else append_once at_ ({[ns]} ∪ seen) namespaces (out ++ at_ ns)
  end.

(** [at_] walks one namespace's map, [keys] the map of namespaces; [None] is nil. *)
Definition All (at_ : bytes -> list Service) (keys : list bytes) (ix : Index) (namespaces : option (list bytes)) : Index * list Service :=
  (count_read ix, match namespaces with
                  | None => keys ≫= at_
                  | Some [ns] => at_ ns
                  | Some namespaces => append_once at_ ∅ namespaces []
                  end).

Fixpoint selects (selector : entries) (labels : strmap) : bool :=
  match selector with
  | [] => true
  | (k, v) :: selector => match labels !! k with Some got => if bool_decide (got = v) then selects selector labels else false | None => false end
  end.

(** [ord] is the order the selector is walked in. *)
Definition Selects (ord : entries) (s : Service) (podLabels : strmap) : bool :=
  if bool_decide (Selector s = ∅) then false else selects ord podLabels.

(** *** [InNamespaces], between its locks *)

Notation lists := (gmap bytes (list Service)).

(** The first section under [sortMu]: what the memo has, what is missing, and
    whether the memo may be used at all. *)
Fixpoint lookup_memo (sorted : lists) (namespaces : list bytes) (out : lists) (missing : list bytes) : lists * list bytes :=
  match namespaces with
  | [] => (out, missing)
  | ns :: namespaces =>
      match sorted !! ns with
      | None => lookup_memo sorted namespaces out (missing ++ [ns])
      | Some [] => lookup_memo sorted namespaces out missing
      | Some l => lookup_memo sorted namespaces (<[ns := l]> out) missing
      end
  end.

Definition consult (namespaces : list bytes) (g : Z) (c : memo) : memo * (lists * list bytes * bool) :=
  let c := if sortedGen c <? g then mkMemo ∅ g else c in
  if g <? sortedGen c then (c, (∅, namespaces, false))
  else (c, (lookup_memo (sorted c) namespaces ∅ [], true)).

(** The section under [mu.RLock]; [at_] is a namespace's sorted list.  A list
    already in [out] is recorded again. *)
Fixpoint build (at_ : bytes -> list Service) (missing : list bytes) (out : lists) : list (list Service) * lists :=
  match missing with
  | [] => ([], out)
  | ns :: missing =>
      match out !! ns with
      | Some l => let '(built, out) := build at_ missing out in (l :: built, out)
      | None =>
          match at_ ns with
          | [] => let '(built, out) := build at_ missing out in ([] :: built, out)
          | l => let '(built, out) := build at_ missing (<[ns := l]> out) in (l :: built, out)
          end
      end
  end.

(** The second section under [sortMu]. *)
Fixpoint store_all (missing : list bytes) (built : list (list Service)) (sorted : lists) : lists :=
  match missing, built with
  | ns :: missing, l :: built => store_all missing built (<[ns := l]> sorted)
  | _, _ => sorted
  end.

Definition store (g : Z) (missing : list bytes) (built : list (list Service)) (c : memo) : memo :=
  if bool_decide (sortedGen c = g) then mkMemo (store_all missing built (sorted c)) (sortedGen c) else c.

(** A whole call that nothing else interleaves. *)
Definition InNamespaces (at_ : bytes -> list Service) (ix : Index) (namespaces : list bytes) : Index * lists :=
  let g := gen ix in
  let '(c, (out, missing, usable)) := consult namespaces g (cache ix) in
  let ix := mkIndex (held ix) (gen ix) (reads ix) c (AnnotationsOmittedCount ix) in
  match missing with
  | [] => (ix, out)
  | _ =>
      let ix := count_read ix in
      let '(built, out) := build at_ missing out in
      (if usable then mkIndex (held ix) (gen ix) (reads ix) (store g missing built (cache ix)) (AnnotationsOmittedCount ix) else ix, out)
  end.

(** What one namespace's list may be: its Services in some order of the map,
    sorted by name. *)
Definition by_name (a b : Service) : Prop := name_le (Name a) (Name b).
Definition sorted_list (d : data) (ns : bytes) (l : list Service) : Prop :=
  l ≡ₚ (map_to_list (services_of d ns)).*2 /\ StronglySorted by_name l.
