(* ===== verification/ServicesSafe.v ===== *)
(** * What the Service index holds ([internal/services/services.go])

    The index is the last delivery under each name, less the deletes; names are
    unique in a namespace, so its sorted list is one list; and the change token
    stands exactly while the contents do. *)

From S2P Require Import Prelude Clip Number Text Order KubeMeta KubeMetaSafe.
From stdpp Require Import sorting.
From S2P Require Import Services.
Local Open Scope Z_scope.

(** ** Keys *)

(** No slash: what a namespace's name excludes. *)
Definition plain_ns (ns : bytes) : Prop := 47 ∉ ns.

Lemma nameKey_inj ns n ns' n' : plain_ns ns -> plain_ns ns' -> nameKey ns n = nameKey ns' n' -> ns = ns' /\ n = n'.
Proof.
  intros Hp Hp' E. by apply (app_sep_inj 47 ns ns') in E.
Qed.

(** ** The invariant *)

Record data_inv (d : data) : Prop := {
  di_nonempty : forall ns, byNamespace d !! ns <> Some ∅;
  di_ns : forall ns, is_Some (byNamespace d !! ns) -> plain_ns ns;
  di_rec : forall ns u s, services_of d ns !! u = Some s -> UID s = u /\ Namespace s = ns;
  di_name : forall ns u s, services_of d ns !! u = Some s -> byName d !! nameKey ns (Name s) = Some u;
  di_back : forall ns n u, plain_ns ns -> byName d !! nameKey ns n = Some u -> exists s, services_of d ns !! u = Some s /\ Name s = n }.

Lemma services_of_insert d ns m names n ns' : services_of (mkData (<[ns := m]> (byNamespace d)) names n) ns' = if decide (ns' = ns) then m else services_of d ns'.
Proof. unfold services_of. cbn. case_decide as E; [subst; by rewrite lookup_insert_eq|by rewrite lookup_insert_ne]. Qed.

Lemma services_of_some d ns u s : services_of d ns !! u = Some s -> is_Some (byNamespace d !! ns).
Proof. unfold services_of. destruct (byNamespace d !! ns); [done|]. cbn. by rewrite lookup_empty. Qed.

(** Names are unique, so the sorted list is one list. *)
Lemma names_unique d ns : data_inv d -> NoDup (Name <$> (map_to_list (services_of d ns)).*2).
Proof.
  intros I. rewrite <- list_fmap_compose. apply NoDup_fmap_2_strong; [|apply NoDup_map_to_list].
  intros [u s] [u' s'] Hs Hs' E. cbn in E. apply elem_of_map_to_list in Hs, Hs'.
  pose proof (di_name d I _ _ _ Hs) as N. pose proof (di_name d I _ _ _ Hs') as N'. rewrite E, N' in N. injection N as ->. congruence.
Qed.

Lemma sorted_list_unique d ns l l' : data_inv d -> sorted_list d ns l -> sorted_list d ns l' -> l = l'.
Proof.
  intros I [P S] [P' S']. apply (StronglySorted_unique_strong by_name); [|done|done|by rewrite P, P'].
  intros x y Hx Hy Hxy Hyx. pose proof (names_unique d ns I) as Nd. rewrite P in Hx. rewrite P' in Hy.
  assert (En : Name x = Name y) by (by apply name_le_antisym). apply list_elem_of_lookup in Hx as [i Hi], Hy as [j Hj].
  assert (i = j) as ->; [|congruence]. eapply (NoDup_lookup _ i j (Name x) Nd); rewrite list_lookup_fmap; [by rewrite Hi|by rewrite Hj, En].
Qed.

(** ** The index as the last delivery of each name *)

(** A key of the specification is a namespace and a name. *)
Notation spec := (gmap (bytes * bytes) Service).

Definition spec_unchanged (sp : spec) (rec : Service) : bool :=
  match sp !! (Namespace rec, Name rec) with
  | Some cur => bool_decide (UID cur = UID rec) && negb (bool_decide (resourceVersion rec = [])) && bool_decide (resourceVersion cur = resourceVersion rec)
  | None => false
  end.

Definition spec_upsert (sp : spec) (rec : Service) : spec := if spec_unchanged sp rec then sp else <[(Namespace rec, Name rec) := rec]> sp.
Definition spec_delete (sp : spec) (ns uid : bytes) : spec := filter (fun kv => ~ (kv.1.1 = ns /\ UID kv.2 = uid)) sp.

(** The index implements a specification: each record it holds is found under
    its name there, and nothing else is. *)
Definition implements (d : data) (sp : spec) : Prop := forall ns u s,
  services_of d ns !! u = Some s <-> sp !! (ns, Name s) = Some s /\ UID s = u.

(** A UID keeps its name. *)
Definition keeps_name (sp : spec) (ns uid name : bytes) : Prop := forall n s, sp !! (ns, n) = Some s -> UID s = uid -> n = name.
Definition keyed (sp : spec) : Prop := forall ns n s, sp !! (ns, n) = Some s -> Namespace s = ns /\ Name s = n.

Lemma convert_keys ord ord' k : let r := convert ord ord' k in
  Name r = k_Name k /\ Namespace r = k_Namespace k /\ UID r = k_UID k /\ resourceVersion r = k_ResourceVersion k.
Proof. done. Qed.

(** The two tests for a delivery that changes nothing are one. *)
Lemma service_unchanged d sp k r : implements d sp -> keyed sp -> keeps_name sp (k_Namespace k) (k_UID k) (k_Name k) ->
  Name r = k_Name k -> Namespace r = k_Namespace k -> UID r = k_UID k -> resourceVersion r = k_ResourceVersion k ->
  resyncNoOp d k = spec_unchanged sp r.
Proof.
  intros Im Ky Kn En Ens Eu Er. unfold resyncNoOp, unchangedLocked, spec_unchanged. rewrite Ens, En, Eu, Er.
  destruct (services_of d (k_Namespace k) !! k_UID k) as [s|] eqn:E.
  - apply Im in E as [E Hu]. pose proof (Kn _ _ E Hu) as Hn. rewrite <- Hn, E. by rewrite (bool_decide_eq_true_2 (UID s = k_UID k)).
  - destruct (sp !! (k_Namespace k, k_Name k)) as [s|] eqn:E'; [|done]. case_bool_decide as Hu; [|done]. exfalso.
    destruct (Ky _ _ _ E') as [_ Hn]. rewrite <- Hn in E'. assert (services_of d (k_Namespace k) !! k_UID k = Some s) as C by (by apply Im). congruence.
Qed.

(** What a committed change keeps. *)
Record good (d : data) (sp : spec) : Prop := { gd_inv : data_inv d; gd_impl : implements d sp; gd_keyed : keyed sp }.

Lemma services_of_empty n m : services_of (mkData ∅ n m) = fun _ => ∅.
Proof. done. Qed.

Lemma good_init : good (mkData ∅ ∅ 0) ∅.
Proof.
  split; [split|..]; rewrite ?services_of_empty; unfold implements, keyed; cbn; intros *; rewrite ?lookup_empty; try done; try (by intros [? ?]); naive_solver.
Qed.

(** The map the delivery is put in: without the record of another UID under its name. *)
Definition freed (d : data) (k : kService) : gmap bytes Service :=
  match byName d !! nameKey (k_Namespace k) (k_Name k) with
  | Some prev => if bool_decide (prev = k_UID k) then services_of d (k_Namespace k) else delete prev (services_of d (k_Namespace k))
  | None => services_of d (k_Namespace k)
  end.

Lemma upsert_locked_eq d k r : resyncNoOp d k = false -> exists n, upsert_locked d k r =
  Some (mkData (<[k_Namespace k := <[k_UID k := r]> (freed d k)]> (byNamespace d)) (<[nameKey (k_Namespace k) (k_Name k) := k_UID k]> (byName d)) n).
Proof.
  intros E. unfold upsert_locked, freed. rewrite E. destruct (byName d !! _) as [prev|]; [|by eexists]. case_bool_decide; by eexists.
Qed.

(** What is left of the others: those of another name. *)
Lemma freed_lookup d k u s : data_inv d -> plain_ns (k_Namespace k) -> u <> k_UID k -> freed d k !! u = Some s <-> services_of d (k_Namespace k) !! u = Some s /\ Name s <> k_Name k.
Proof.
  intros I Hp Hu. assert (F : services_of d (k_Namespace k) !! u = Some s -> Name s = k_Name k -> byName d !! nameKey (k_Namespace k) (k_Name k) = Some u).
  { intros Hs <-. by apply I. }
  unfold freed. destruct (byName d !! _) as [prev|] eqn:E.
  - case_bool_decide as He.
    + split; [|by intros [? _]]. intros Hs. split; [done|]. intros Hn. specialize (F Hs Hn). congruence.
    + destruct (decide (u = prev)) as [->|Hne].
      * rewrite lookup_delete_eq. split; [done|]. intros [Hs Hn]. destruct (di_back d I _ _ _ Hp E) as (s' & Hs' & Hn'). congruence.
      * rewrite lookup_delete_ne by done. split; [|by intros [? _]]. intros Hs. split; [done|]. intros Hn. specialize (F Hs Hn). congruence.
  - split; [|by intros [? _]]. intros Hs. split; [done|]. intros Hn. by specialize (F Hs Hn).
Qed.

Section Upsert.
Context (d : data) (sp : spec) (k : kService) (r : Service) (n : Z) (G : good d sp) (Hp : plain_ns (k_Namespace k))
  (Kn : keeps_name sp (k_Namespace k) (k_UID k) (k_Name k))
  (En : Name r = k_Name k) (Ens : Namespace r = k_Namespace k) (Eu : UID r = k_UID k).

Notation d' := (mkData (<[k_Namespace k := <[k_UID k := r]> (freed d k)]> (byNamespace d)) (<[nameKey (k_Namespace k) (k_Name k) := k_UID k]> (byName d)) n).
Notation sp' := (<[(Namespace r, Name r) := r]> sp).

(** Of the delivery's namespace: the delivery, and the records of other names. *)
Lemma after_lookup ns u s : services_of d' ns !! u = Some s <->
  (ns = k_Namespace k /\ u = k_UID k /\ s = r) \/ (services_of d ns !! u = Some s /\ (ns, Name s) <> (k_Namespace k, k_Name k)).
Proof using G Hp Kn.
  destruct G as [I Im Ky]. rewrite services_of_insert. case_decide as E.
  - subst ns. destruct (decide (u = k_UID k)) as [->|Hu].
    + rewrite lookup_insert_eq. split; [intros [= <-]; by left|]. intros [(_ & _ & ->)|[Hs Hn]]; [done|]. exfalso. apply Hn. f_equal.
      apply Im in Hs as [Hs Hu]. by apply (Kn _ _ Hs).
    + rewrite lookup_insert_ne, (freed_lookup d k u s I Hp Hu) by done. split; [|intros [(_ & ? & _)|[? Hn]]; [done|]].
      * intros [Hs Hn]. right. split; [done|]. by intros [= ?].
      * split; [done|]. intros Hn'. apply Hn. by rewrite Hn'.
  - split; [intros Hs; right; split; [done|]; by intros [= ? _]|]. intros [(? & _)|[? _]]; done.
Qed.

Lemma after_good : good d' sp'.
Proof using All.
  pose proof after_lookup as A. destruct G as [I Im Ky]. split; [split|..].
  - intros ns Hns. cbn in Hns. destruct (decide (ns = k_Namespace k)) as [->|Hn].
    + rewrite lookup_insert_eq in Hns. injection Hns as Hns. by apply insert_non_empty in Hns.
    + rewrite lookup_insert_ne in Hns by done. by apply (di_nonempty d I ns).
  - intros ns Hns. cbn in Hns. destruct (decide (ns = k_Namespace k)) as [->|Hn]; [done|]. rewrite lookup_insert_ne in Hns by done. by apply (di_ns d I).
  - intros ns u s Hs. apply A in Hs as [(-> & -> & ->)|[Hs _]]; [done|]. by apply (di_rec d I).
  - intros ns u s Hs. cbn. apply A in Hs as [(-> & -> & ->)|[Hs Hn]]; [by rewrite En, lookup_insert_eq|]. rewrite lookup_insert_ne; [by apply (di_name d I)|].
    intros E. apply nameKey_inj in E as [E E']; [apply Hn; by rewrite E, E'|done|by eapply (di_ns d I), services_of_some].
  - intros ns nm u Hns Hu. cbn in Hu. destruct (decide ((ns, nm) = (k_Namespace k, k_Name k))) as [[= -> ->]|Hn].
    + rewrite lookup_insert_eq in Hu. injection Hu as <-. exists r. split; [|done]. apply A. by left.
    + rewrite lookup_insert_ne in Hu by (intros E; apply nameKey_inj in E as [E E']; [apply Hn; by rewrite E, E'|done..]). destruct (di_back d I _ _ _ Hns Hu) as (s & Hs & <-).
      exists s. split; [|done]. apply A. by right.
  - intros ns u s. rewrite A, Ens, En. split.
    + intros [(-> & -> & ->)|[Hs Hn]]; [split; [by rewrite En, lookup_insert_eq|done]|]. rewrite lookup_insert_ne by done. by apply Im.
    + intros [Hs Hu]. destruct (decide ((ns, Name s) = (k_Namespace k, k_Name k))) as [E|Hn].
      * rewrite E, lookup_insert_eq in Hs. injection Hs as <-. injection E as -> _. left. split; [done|]. by rewrite <- Hu, Eu.
      * rewrite lookup_insert_ne in Hs by done. right. split; [by apply Im|done].
  - intros ns nm s Hs. destruct (decide ((ns, nm) = (Namespace r, Name r))) as [[= -> ->]|Hn].
    + rewrite lookup_insert_eq in Hs. by injection Hs as <-.
    + rewrite lookup_insert_ne in Hs by done. by apply Ky.
Qed.
End Upsert.

Lemma delete_locked_none d sp ns u : good d sp -> delete_locked d ns u = None -> spec_delete sp ns u = sp.
Proof.
  intros [I Im Ky] Hd. apply map_filter_id. intros [ns' n] s Hs [E1 E2]. cbn in *. subst ns' u.
  destruct (Ky _ _ _ Hs) as [_ <-]. assert (services_of d ns !! UID s = Some s) as C by (by apply Im). unfold delete_locked in Hd. unfold services_of in C.
  destruct (byNamespace d !! ns) as [m|]; cbn in C; [|by rewrite lookup_empty in C]. by rewrite C in Hd.
Qed.

Section Delete.
Context (d : data) (sp : spec) (ns u : bytes) (svc : Service) (G : good d sp) (Hs : services_of d ns !! u = Some svc).

Definition removed (d : data) (ns u : bytes) : data :=
  mkData (let m := delete u (services_of d ns) in if bool_decide (m = ∅) then delete ns (byNamespace d) else <[ns := m]> (byNamespace d))
    (delete (nameKey ns (Name svc)) (byName d)) (nameReused d).

Lemma delete_locked_eq : delete_locked d ns u = Some (removed d ns u).
Proof using G Hs.
  pose proof (di_name d (gd_inv _ _ G) _ _ _ Hs) as Hn. revert Hs. unfold delete_locked, removed, services_of.
  destruct (byNamespace d !! ns) as [m|]; cbn; [|by rewrite lookup_empty]. intros ->. by rewrite Hn, (bool_decide_eq_true_2 (u = u)).
Qed.

Lemma removed_of ns' : services_of (removed d ns u) ns' = if decide (ns' = ns) then delete u (services_of d ns) else services_of d ns'.
Proof.
  unfold removed, services_of. cbn. case_bool_decide as E; case_decide as En; try subst ns'.
  - by rewrite lookup_delete_eq, E.
  - by rewrite lookup_delete_ne.
  - by rewrite lookup_insert_eq.
  - by rewrite lookup_insert_ne.
Qed.

Lemma removed_lookup ns' u' s : services_of (removed d ns u) ns' !! u' = Some s <-> services_of d ns' !! u' = Some s /\ (ns', u') <> (ns, u).
Proof.
  rewrite removed_of. case_decide as E; [subst ns'|].
  - destruct (decide (u' = u)) as [->|Hu]; [rewrite lookup_delete_eq; split; [done|by intros [_ []]]|]. rewrite lookup_delete_ne by done.
    split; [intros ?; split; [done|]; by intros [= ?]|by intros [? _]].
  - split; [intros ?; split; [done|]; by intros [= ? ?]|by intros [? _]].
Qed.

Lemma removed_good : good (removed d ns u) (spec_delete sp ns u).
Proof using G Hs.
  pose proof removed_lookup as A. destruct G as [I Im Ky]. assert (Hd : is_Some (byNamespace d !! ns)) by (by eapply services_of_some).
  pose proof (di_ns d I _ Hd) as Hp. split; [split|..].
  - intros ns' E. unfold removed in E. cbn in E. case_bool_decide as Em; (destruct (decide (ns' = ns)) as [->|Hn];
      [rewrite ?lookup_delete_eq, ?lookup_insert_eq in E; congruence|rewrite ?lookup_delete_ne, ?lookup_insert_ne in E by done; by apply (di_nonempty d I ns')]).
  - intros ns' E. destruct (decide (ns' = ns)) as [->|Hn]; [done|]. apply (di_ns d I). unfold removed in E. cbn in E.
    case_bool_decide; by rewrite ?lookup_delete_ne, ?lookup_insert_ne in E by done.
  - intros ns' u' s Hs'. apply A in Hs' as [Hs' _]. by apply (di_rec d I).
  - intros ns' u' s Hs'. apply A in Hs' as [Hs' Hn]. cbn. pose proof (di_name d I _ _ _ Hs') as N. rewrite lookup_delete_ne; [done|].
    intros E. apply nameKey_inj in E as [E E']; [|done|by eapply (di_ns d I), services_of_some]. apply Hn. subst ns'.
    rewrite <- E', (di_name d I _ _ _ Hs) in N. injection N as ->. done.
  - intros ns' n u' Hp' Hu. cbn in Hu. destruct (decide (nameKey ns (Name svc) = nameKey ns' n)) as [E|E]; [by rewrite E, lookup_delete_eq in Hu|].
    rewrite lookup_delete_ne in Hu by done. destruct (di_back d I _ _ _ Hp' Hu) as (s & Hs' & <-). exists s. split; [|done]. apply A. split; [done|].
    intros [= -> ->]. congruence.
  - intros ns' u' s. rewrite A. unfold spec_delete. rewrite map_lookup_filter_Some. cbn. rewrite (Im ns' u' s). split.
    + intros [[? <-] Hn]. split; [|done]. split; [done|]. intros [-> E]. apply Hn. by rewrite E.
    + intros [[? Hn] <-]. split; [done|]. intros [= -> E]. by apply Hn.
  - intros ns' n s Hs'. apply map_lookup_filter_Some in Hs' as [Hs' _]. by apply Ky.
Qed.
End Delete.

(** ** Runs *)

Inductive op := OpUpsert (ord ord' : entries) (k : kService) | OpDelete (ns uid : bytes).

Definition step (ix : Index) (o : op) : Index :=
  match o with OpUpsert ord ord' k => Upsert ord ord' ix k | OpDelete ns uid => Delete ix ns uid end.

(** The record of a delivery, whatever order its annotations were walked in. *)
Definition record_of (k : kService) : Service :=
  mkService (k_Name k) (k_Namespace k) (k_UID k) (k_Labels k) (served (k_Annotations k)) (k_Selector k) (port_of <$> k_Ports k) (k_ResourceVersion k).

Definition spec_step (sp : spec) (o : op) : spec :=
  match o with OpUpsert _ _ k => spec_upsert sp (record_of k) | OpDelete ns uid => spec_delete sp ns uid end.

(** What the API server promises: a namespace has no slash, a UID one name. *)
Definition op_ok (name_of : bytes -> bytes -> bytes) (o : op) : Prop :=
  match o with
  | OpUpsert ord ord' k => ranges (k_Annotations k) ord /\ ranges (k_Annotations k) ord' /\ plain_ns (k_Namespace k) /\ k_Name k = name_of (k_Namespace k) (k_UID k)
  | OpDelete _ _ => True
  end.

Definition named (name_of : bytes -> bytes -> bytes) (sp : spec) : Prop := forall ns n s, sp !! (ns, n) = Some s -> n = name_of ns (UID s).

Lemma convert_record ord ord' k : ranges (k_Annotations k) ord -> ranges (k_Annotations k) ord' -> convert ord ord' k = record_of k.
Proof. intros Ho Ho'. unfold convert, record_of, CopyMeta. by rewrite (FilterAnnotations_served _ _ _ Ho Ho'). Qed.

Lemma step_good name_of ix sp o : op_ok name_of o -> good (held ix) sp -> named name_of sp ->
  good (held (step ix o)) (spec_step sp o) /\ named name_of (spec_step sp o).
Proof.
  intros Ok G Nm. destruct o as [ord ord' k|ns u]; cbn [step spec_step].
  - destruct Ok as (Ho & Ho' & Hp & Hn). assert (Kn : keeps_name sp (k_Namespace k) (k_UID k) (k_Name k)).
    { intros n s Hs Hu. rewrite Hn, <- Hu. by apply (Nm _ _ _ Hs). }
    pose proof (service_unchanged (held ix) sp k (record_of k) (gd_impl _ _ G) (gd_keyed _ _ G) Kn eq_refl eq_refl eq_refl eq_refl) as E.
    unfold Upsert, spec_upsert. rewrite <- E. destruct (resyncNoOp (held ix) k) eqn:R; [done|]. rewrite (convert_record _ _ _ Ho Ho').
    destruct (upsert_locked_eq (held ix) k (record_of k) R) as [n U]. cbn [held]. rewrite U. cbn [commit held]. split.
    + by apply after_good.
    + intros ns nm s Hs. destruct (decide ((k_Namespace k, k_Name k) = (ns, nm))) as [[= <- <-]|Hne].
      * cbn in Hs. rewrite lookup_insert_eq in Hs. by injection Hs as <-.
      * cbn in Hs. rewrite lookup_insert_ne in Hs by done. by apply Nm.
  - split; [|intros ns' n s Hs; apply map_lookup_filter_Some in Hs as [Hs _]; by apply Nm]. unfold Delete.
    destruct (services_of (held ix) ns !! u) as [svc|] eqn:Es.
    + rewrite (delete_locked_eq _ _ _ _ _ G Es). by apply removed_good.
    + assert (delete_locked (held ix) ns u = None) as Hd.
      { unfold delete_locked. unfold services_of in Es. destruct (byNamespace (held ix) !! ns) as [m|]; [|done]. cbn in Es. by rewrite Es. }
      rewrite Hd. by rewrite (delete_locked_none _ _ _ _ G Hd).
Qed.

Lemma run_good name_of ops : forall ix sp, Forall (op_ok name_of) ops -> good (held ix) sp -> named name_of sp ->
  good (held (foldl step ix ops)) (foldl spec_step sp ops).
Proof.
  induction ops as [|o ops IH]; intros ix sp F G Nm; [done|]. apply Forall_cons in F as [Ok F].
  destruct (step_good name_of ix sp o Ok G Nm) as [G' Nm']. by apply IH.
Qed.

(** ** The change token *)

Lemma commit_gen ix d : gen (commit ix d) = gen ix -> held (commit ix d) = held ix.
Proof. destruct d; cbn; [lia|done]. Qed.

Lemma step_gen ix o : gen (step ix o) = gen ix -> held (step ix o) = held ix.
Proof.
  destruct o as [ord ord' k|ns u]; cbn [step]; [|apply commit_gen]. unfold Upsert. destruct (resyncNoOp _ _); [done|].
  cbn zeta. set (ix' := mkIndex _ _ _ _ _). intros E. by rewrite (commit_gen ix' _ E).
Qed.

Lemma redelivered ord ord' lord lord' ix k : k_ResourceVersion k <> [] -> Upsert lord lord' (Upsert ord ord' ix k) k = Upsert ord ord' ix k.
Proof.
  intros Hv. assert (R : resyncNoOp (held (Upsert ord ord' ix k)) k = true).
  { unfold Upsert. destruct (resyncNoOp (held ix) k) eqn:R; [done|]. destruct (upsert_locked_eq (held ix) k (convert ord ord' k) R) as [n U].
    cbn [held]. rewrite U. cbn [commit held]. unfold resyncNoOp. rewrite services_of_insert, decide_True, lookup_insert_eq by done.
    change (negb (bool_decide (k_ResourceVersion k = [])) && bool_decide (k_ResourceVersion k = k_ResourceVersion k) = true).
    by rewrite bool_decide_eq_false_2, bool_decide_eq_true_2. }
  unfold Upsert at 1. by rewrite R.
Qed.

(** C14: After any deliveries and deletes the index holds, of each namespace,
    exactly the last record delivered under each name and not since deleted by
    its UID: a Service recreated under its name replaces the record whose delete
    was never delivered, and a late delete of that one removes nothing.  Names
    are unique in a namespace.  A change that leaves the token leaves the
    contents, and a delivery repeated with its version changes nothing at all. *)
Theorem index_last_delivery name_of ops : Forall (op_ok name_of) ops ->
  let ix := foldl step NewIndex ops in let sp := foldl spec_step ∅ ops in
  (forall ns u s, services_of (held ix) ns !! u = Some s <-> sp !! (ns, Name s) = Some s /\ UID s = u) /\
  (forall ns, NoDup (Name <$> (map_to_list (services_of (held ix) ns)).*2)) /\
  (forall o, gen (step ix o) = gen ix -> held (step ix o) = held ix) /\
  (forall ord ord' k, k_ResourceVersion k <> [] -> step (step ix (OpUpsert ord ord' k)) (OpUpsert ord ord' k) = step ix (OpUpsert ord ord' k)).
Proof.
  intros F. cbv zeta. pose proof (run_good name_of ops NewIndex ∅ F good_init ltac:(intros ns n s E; by rewrite lookup_empty in E)) as G.
  split; [apply G|]. split; [intros ns; apply names_unique, G|]. split; [apply step_gen|]. intros ord ord' k. apply redelivered.
Qed.
