(* ===== verification/ServicesConc.v ===== *)
(** * Readers of the Service index among its writers ([internal/services/services.go])

    [InNamespaces] loads the change token, consults the memo under one lock,
    builds what is missing under another, and stores it under the first again;
    a writer moves the token before it changes the contents.  Calls and changes
    interleave between those points in any order. *)

From stdpp Require Import sorting.
From S2P Require Import Prelude Clip Order Number Text KubeMeta KubeMetaSafe Services ServicesSafe.
Local Open Scope Z_scope.

(** ** The system

    [token] is moved inside the write lock, before the contents: [writing] is
    the change that has moved it and has yet to be made.  [history] is every
    contents there has been, the last the current one; it, and a reader's
    [start] and the bound in [Done], are for the statement only. *)

Notation lists := (gmap bytes (list Service)).

Inductive phase :=
| Loaded
| Consulted (out : lists) (missing : list bytes) (usable : bool)
| Built (out : lists) (missing : list bytes) (built : list (list Service))
| Done (out : lists) (finish : nat).

Record reader := mkReader { req : list bytes; tok : Z; start : nat; at_phase : phase }.
Definition enter (r : reader) (p : phase) : reader := mkReader (req r) (tok r) (start r) p.

Record sys := mkSys { now : data; token : Z; writing : option data; mem : memo; history : list data; readers : gmap nat reader }.

Definition change (d d' : data) : Prop := (exists k r, upsert_locked d k r = Some d') \/ (exists ns u, delete_locked d ns u = Some d').

(** A call is over when nothing is missing, when it may not store, or when it has. *)
Definition after_consult (fin : nat) (out : lists) (missing : list bytes) (usable : bool) : phase :=
  match missing with [] => Done out fin | _ => Consulted out missing usable end.
Definition after_build (fin : nat) (usable : bool) (out : lists) (missing : list bytes) (built : list (list Service)) : phase :=
  if usable then Built out missing built else Done out fin.

Inductive step : sys -> sys -> Prop :=
| step_bump s d' : writing s = None -> change (now s) d' ->
    step s (mkSys (now s) (token s + 1) (Some d') (mem s) (history s) (readers s))
| step_apply s d' : writing s = Some d' ->
    step s (mkSys d' (token s) None (mem s) (history s ++ [d']) (readers s))
| step_load s i namespaces : readers s !! i = None ->
    step s (mkSys (now s) (token s) (writing s) (mem s) (history s)
      (<[i := mkReader namespaces (token s) (pred (length (history s))) Loaded]> (readers s)))
| step_consult s i r c out missing usable : readers s !! i = Some r -> at_phase r = Loaded ->
    consult (req r) (tok r) (mem s) = (c, (out, missing, usable)) ->
    step s (mkSys (now s) (token s) (writing s) c (history s)
      (<[i := enter r (after_consult (length (history s)) out missing usable)]> (readers s)))
| step_build s i r out missing usable lists_of built out' : readers s !! i = Some r -> at_phase r = Consulted out missing usable ->
    writing s = None -> (forall ns, sorted_list (now s) ns (lists_of ns)) -> build lists_of missing out = (built, out') ->
    step s (mkSys (now s) (token s) (writing s) (mem s) (history s)
      (<[i := enter r (after_build (length (history s)) usable out' missing built)]> (readers s)))
| step_store s i r out missing built : readers s !! i = Some r -> at_phase r = Built out missing built ->
    step s (mkSys (now s) (token s) (writing s) (store (tok r) missing built (mem s)) (history s)
      (<[i := enter r (Done out (length (history s)))]> (readers s))).

Definition init (d : data) : sys := mkSys d 0 None (mkMemo ∅ 0) [d] ∅.
Definition reachable (d : data) (s : sys) : Prop := rtc step (init d) s.

(** ** Lists of a version no older than a token *)

Section Fresh.
Context (h : list data).

Definition fresh (g : Z) (fin : nat) (ns : bytes) (l : list Service) : Prop :=
  exists v d, g <= Z.of_nat v /\ (v < fin)%nat /\ h !! v = Some d /\ sorted_list d ns l.

(** An answer for one namespace: a list, or none for an empty one. *)
Definition answered (g : Z) (fin : nat) (out : lists) (ns : bytes) : Prop := out !! ns <> Some [] /\ fresh g fin ns (default [] (out !! ns)).

Definition sound_out (g : Z) (fin : nat) (out : lists) : Prop := forall ns l, out !! ns = Some l -> l <> [] /\ fresh g fin ns l.

Lemma sound_answered g fin out ns : sound_out g fin out -> is_Some (out !! ns) -> answered g fin out ns.
Proof. intros S [l Hl]. unfold answered. rewrite Hl. destruct (S _ _ Hl). split; [by intros [= ?]|done]. Qed.

Lemma sound_insert g fin out ns l : sound_out g fin out -> l <> [] -> fresh g fin ns l -> sound_out g fin (<[ns := l]> out).
Proof. intros S Hl F ns' l'. destruct (decide (ns' = ns)) as [->|Hn]; [rewrite lookup_insert_eq; by intros [= <-]|]. rewrite lookup_insert_ne by done. apply S. Qed.

Lemma lookup_memo_spec (g : Z) (fin : nat) (sorted : lists) nss : (forall ns l, sorted !! ns = Some l -> fresh g fin ns l) -> forall out missing, sound_out g fin out ->
  let '(out', missing') := lookup_memo sorted nss out missing in
  sound_out g fin out' /\ (forall ns, ns ∈ missing' <-> ns ∈ missing \/ (ns ∈ nss /\ sorted !! ns = None)) /\
  (forall ns, is_Some (out' !! ns) -> is_Some (out !! ns) \/ ns ∈ nss) /\
  (forall ns, is_Some (out !! ns) -> is_Some (out' !! ns)) /\
  (forall ns l, ns ∈ nss -> sorted !! ns = Some l -> l <> [] -> is_Some (out' !! ns)).
Proof.
  intros Hs. induction nss as [|n nss IH]; intros out missing So; cbn [lookup_memo].
  { split_and!; [done| |by left|done|]; [intros ns|intros ns l H]; set_solver. }
  destruct (sorted !! n) as [[|s l]|] eqn:E.
  - specialize (IH out missing So). destruct (lookup_memo _ _ _ _) as [out' missing']. destruct IH as (I1 & I2 & I3 & I4 & I5). split_and!; try done.
    + intros ns. rewrite I2, elem_of_cons. naive_solver.
    + intros ns Hn. rewrite elem_of_cons. destruct (I3 ns Hn); tauto.
    + intros ns l [->|Hn]%elem_of_cons Hl Hne; [congruence|by eapply I5].
  - specialize (IH (<[n := s :: l]> out) missing ltac:(apply sound_insert; [done|done|by apply Hs])). destruct (lookup_memo _ _ _ _) as [out' missing'].
    destruct IH as (I1 & I2 & I3 & I4 & I5). split_and!; try done.
    + intros ns. rewrite I2, elem_of_cons. naive_solver.
    + intros ns Hn. rewrite elem_of_cons. destruct (I3 ns Hn) as [[x Hx]|]; [|tauto]. destruct (decide (ns = n)); [tauto|]. rewrite lookup_insert_ne in Hx by done. eauto.
    + intros ns Hn. apply I4. destruct (decide (ns = n)) as [->|]; [rewrite lookup_insert_eq; eauto|by rewrite lookup_insert_ne].
    + intros ns l' [->|Hn]%elem_of_cons Hl Hne; [apply I4; rewrite lookup_insert_eq; eauto|by eapply I5].
  - specialize (IH out (missing ++ [n]) So). destruct (lookup_memo _ _ _ _) as [out' missing']. destruct IH as (I1 & I2 & I3 & I4 & I5). split_and!; try done.
    + intros ns. rewrite I2, elem_of_app, !elem_of_cons, elem_of_nil. naive_solver.
    + intros ns Hn. rewrite elem_of_cons. destruct (I3 ns Hn); tauto.
    + intros ns l [->|Hn]%elem_of_cons Hl Hne; [congruence|by eapply I5].
Qed.

Lemma build_spec (g : Z) (fin : nat) (lists_of : bytes -> list Service) missing : (forall ns, fresh g fin ns (lists_of ns)) -> forall out, sound_out g fin out ->
  let '(built, out') := build lists_of missing out in
  sound_out g fin out' /\ Forall2 (fresh g fin) missing built /\ (forall ns, ns ∈ missing -> answered g fin out' ns) /\
  (forall ns, is_Some (out' !! ns) -> is_Some (out !! ns) \/ ns ∈ missing) /\ (forall ns l, out !! ns = Some l -> out' !! ns = Some l) /\
  (forall ns, ns ∉ missing -> out' !! ns = out !! ns).
Proof.
  intros Hl. induction missing as [|n missing IH]; intros out So; cbn [build].
  { split_and!; [done|constructor|set_solver|by left|done|done]. }
  assert (Two : forall l o, sound_out g fin o -> fresh g fin n l -> (forall ns x, out !! ns = Some x -> o !! ns = Some x) -> o !! n <> Some [] ->
    fresh g fin n (default [] (o !! n)) -> (forall ns, ns <> n -> o !! ns = out !! ns) -> (o !! n = None -> lists_of n = []) ->
    let '(built, out') := build lists_of missing o in sound_out g fin out' /\ Forall2 (fresh g fin) (n :: missing) (l :: built) /\
    (forall ns, ns ∈ n :: missing -> answered g fin out' ns) /\ (forall ns, is_Some (out' !! ns) -> is_Some (out !! ns) \/ ns ∈ n :: missing) /\
    (forall ns l, out !! ns = Some l -> out' !! ns = Some l) /\ (forall ns, ns ∉ n :: missing -> out' !! ns = out !! ns)).
  { intros l o Po Fl Ext Nn Fo Other Nil. specialize (IH o Po). destruct (build lists_of missing o) as [built out']. destruct IH as (I1 & I2 & I3 & I4 & I5 & I6). split_and!.
    - done.
    - by constructor.
    - intros ns [->|Hn]%elem_of_cons; [|by apply I3]. destruct (decide (n ∈ missing)) as [|Hm]; [by apply I3|]. unfold answered. by rewrite I6.
    - intros ns Hn. rewrite elem_of_cons. destruct (decide (ns = n)); [tauto|]. destruct (I4 ns Hn) as [Hx|]; [|tauto]. left. by rewrite <- Other.
    - intros ns x Hx. by apply I5, Ext.
    - intros ns Hn. apply not_elem_of_cons in Hn as [Hn Hm]. by rewrite I6, Other. }
  destruct (out !! n) as [l|] eqn:E.
  - specialize (Two l out So). destruct (So _ _ E) as [Hne Hf]. destruct (build lists_of missing out) as [built out']. apply Two; rewrite ?E; try done. by intros [= ?].
  - pose proof (Hl n) as Hn. destruct (lists_of n) as [|s l] eqn:En.
    + specialize (Two [] out So). destruct (build lists_of missing out) as [built out']. apply Two; by rewrite ?E.
    + specialize (Two (s :: l) (<[n := s :: l]> out)). destruct (build lists_of missing (<[n := s :: l]> out)) as [built out'].
      apply Two; rewrite ?lookup_insert_eq; try done; [by apply sound_insert| |intros ns Hne; by rewrite lookup_insert_ne].
      intros ns x Hx. rewrite lookup_insert_ne; [done|]. intros <-. congruence.
Qed.

Lemma store_all_spec (g : Z) (fin : nat) missing : forall built (sorted : lists), Forall2 (fresh g fin) missing built -> (forall ns l, sorted !! ns = Some l -> fresh g fin ns l) ->
  forall ns l, store_all missing built sorted !! ns = Some l -> fresh g fin ns l.
Proof.
  induction missing as [|n missing IH]; intros built sorted F S ns l; [by apply S|]. inversion F as [|? b ? built' Hb F']; subst. cbn [store_all]. apply IH; [done|].
  intros ns' l'. destruct (decide (ns' = n)) as [->|Hn]; [rewrite lookup_insert_eq; by intros [= <-]|]. rewrite lookup_insert_ne by done. apply S.
Qed.
End Fresh.

(** ** The invariant *)

Definition phase_ok (h : list data) (r : reader) : Prop :=
  match at_phase r with
  | Loaded => True
  | Consulted out missing _ => sound_out h (tok r) (length h) out /\
      (forall ns, ns ∈ req r -> ns ∈ missing \/ answered h (tok r) (length h) out ns) /\
      (forall ns, ns ∈ missing \/ is_Some (out !! ns) -> ns ∈ req r)
  | Built out missing built => Forall2 (fresh h (tok r) (length h)) missing built /\
      (forall ns, ns ∈ req r -> answered h (tok r) (length h) out ns) /\ (forall ns, is_Some (out !! ns) -> ns ∈ req r)
  | Done out fin => (fin <= length h)%nat /\ (forall ns, ns ∈ req r -> answered h (tok r) fin out ns) /\ (forall ns, is_Some (out !! ns) -> ns ∈ req r)
  end.

Record inv (s : sys) : Prop := {
  iv_len : Z.of_nat (length (history s)) = match writing s with None => token s + 1 | Some _ => token s end;
  iv_now : history s !! pred (length (history s)) = Some (now s);
  iv_gen : sortedGen (mem s) <= token s;
  iv_mem : forall ns l, sorted (mem s) !! ns = Some l -> fresh (history s) (sortedGen (mem s)) (length (history s)) ns l;
  iv_tok : forall i r, readers s !! i = Some r -> Z.of_nat (start r) <= tok r <= token s;
  iv_phase : forall i r, readers s !! i = Some r -> phase_ok (history s) r }.

Lemma fresh_grows h x g (fin fin' : nat) ns l : (fin <= fin')%nat -> fresh h g fin ns l -> fresh (h ++ [x]) g fin' ns l.
Proof. intros Hf (v & d & Hg & Hv & Hl & Hs). exists v, d. split_and!; [done|lia|by apply lookup_app_l_Some|done]. Qed.

Lemma answered_grows h x g (fin fin' : nat) out ns : (fin <= fin')%nat -> answered h g fin out ns -> answered (h ++ [x]) g fin' out ns.
Proof. intros Hf [Hn Ha]. split; [done|]. by eapply fresh_grows. Qed.

Lemma phase_grows h x r : phase_ok h r -> phase_ok (h ++ [x]) r.
Proof.
  unfold phase_ok. assert (length h <= length (h ++ [x]))%nat as Hl by (rewrite length_app; lia). destruct (at_phase r) as [|out missing u|out missing b|out fin]; [done| | |].
  - intros (S & A & D). split_and!; [|intros ns Hn; destruct (A ns Hn); [by left|right; by eapply answered_grows; [exact Hl|]]|done].
    intros ns l Ho. destruct (S _ _ Ho). split; [done|]. by eapply fresh_grows.
  - intros (F & A & D). split_and!; [|intros ns Hn; eapply answered_grows; [exact Hl|by apply A]|done]. eapply Forall2_impl; [exact F|]. intros ns l. by apply fresh_grows.
  - intros (L & A & D). split_and!; [lia|intros ns Hn; eapply answered_grows; [apply le_n|by apply A]|done].
Qed.

(** A reader entering its next phase, over the memo it leaves. *)
Lemma inv_enter s i r p c : inv s -> readers s !! i = Some r -> phase_ok (history s) (enter r p) -> sortedGen c <= token s ->
  (forall ns l, sorted c !! ns = Some l -> fresh (history s) (sortedGen c) (length (history s)) ns l) ->
  inv (mkSys (now s) (token s) (writing s) c (history s) (<[i := enter r p]> (readers s))).
Proof.
  intros I Hr Hp Hg Hm. destruct I. split; cbn [now token writing mem history readers]; try done.
  - intros j r' Hj. destruct (decide (j = i)) as [->|Hn]; [rewrite lookup_insert_eq in Hj; injection Hj as <-; exact (iv_tok0 i r Hr)|].
    rewrite lookup_insert_ne in Hj by done. by apply (iv_tok0 j).
  - intros j r' Hj. destruct (decide (j = i)) as [->|Hn]; [rewrite lookup_insert_eq in Hj; by injection Hj as <-|].
    rewrite lookup_insert_ne in Hj by done. by apply (iv_phase0 j).
Qed.

Lemma consult_ok s r c out missing usable : inv s -> tok r <= token s -> consult (req r) (tok r) (mem s) = (c, (out, missing, usable)) ->
  sortedGen c <= token s /\ (forall ns l, sorted c !! ns = Some l -> fresh (history s) (sortedGen c) (length (history s)) ns l) /\
  phase_ok (history s) (enter r (after_consult (length (history s)) out missing usable)).
Proof.
  intros I Ht. unfold consult. set (c1 := if sortedGen (mem s) <? tok r then mkMemo ∅ (tok r) else mem s).
  assert (C1 : tok r <= sortedGen c1 <= token s /\ (forall ns l, sorted c1 !! ns = Some l -> fresh (history s) (sortedGen c1) (length (history s)) ns l)).
  { unfold c1. destruct (Z.ltb_spec (sortedGen (mem s)) (tok r)).
    - cbn. split; [lia|]. intros ns l E. by rewrite lookup_empty in E.
    - split; [split; [done|apply I]|apply I]. }
  clearbody c1. destruct C1 as [Hg Hm]. destruct (Z.ltb_spec (tok r) (sortedGen c1)) as [Hlt|Hge].
  - intros [= <- <- <- <-]. split_and!; [lia|done|]. unfold phase_ok, after_consult. destruct (req r) as [|n nss] eqn:Er; cbn [at_phase enter req tok]; rewrite ?Er.
    + split_and!; [done|set_solver|]. intros ns [? E]. by rewrite lookup_empty in E.
    + split_and!; [intros ns l E; by rewrite lookup_empty in E|by left|]. intros ns [|[? E]]; [done|by rewrite lookup_empty in E].
  - assert (Eg : sortedGen c1 = tok r) by lia. rewrite Eg in Hm.
    pose proof (lookup_memo_spec (history s) (tok r) (length (history s)) (sorted c1) (req r) Hm ∅ [] ltac:(intros ns l E; by rewrite lookup_empty in E)) as L.
    destruct (lookup_memo (sorted c1) (req r) ∅ []) as [o ms]. intros [= <- <- <- <-]. rewrite Eg. destruct L as (S & M & D & _ & N). split_and!; [lia|done|].
    assert (A : forall ns, ns ∈ req r -> ns ∈ ms \/ answered (history s) (tok r) (length (history s)) o ns).
    { intros ns Hn. rewrite M. destruct (sorted c1 !! ns) as [l|] eqn:El; [right|left; by right]. destruct (o !! ns) as [x|] eqn:Eo; [by apply sound_answered|].
      destruct l as [|x l]; [|destruct (N ns _ Hn El) as [y Hy]; [done|congruence]]. split; [by rewrite Eo|]. rewrite Eo. by apply Hm. }
    assert (D' : forall ns, ns ∈ ms \/ is_Some (o !! ns) -> ns ∈ req r).
    { intros ns [Hn|Hn]; [apply M in Hn as [Hn|[Hn _]]; [by apply elem_of_nil in Hn|done]|]. destruct (D _ Hn) as [[? E]|]; [by rewrite lookup_empty in E|done]. }
    unfold phase_ok, after_consult. destruct ms as [|n ms]; cbn [at_phase enter req tok].
    + split_and!; [done| |intros ns Hn; apply D'; by right]. intros ns Hn. destruct (A ns Hn) as [E|]; [by apply elem_of_nil in E|done].
    + done.
Qed.

Lemma now_fresh s g lists_of : inv s -> writing s = None -> g <= token s -> (forall ns, sorted_list (now s) ns (lists_of ns)) ->
  forall ns, fresh (history s) g (length (history s)) ns (lists_of ns).
Proof.
  intros I Hw Hg Hl ns. pose proof (iv_len s I) as L. rewrite Hw in L. exists (pred (length (history s))), (now s).
  split_and!; [lia| |apply I|apply Hl]. pose proof (lookup_lt_Some _ _ _ (iv_now s I)). lia.
Qed.

Lemma build_ok s r out missing usable lists_of built out' : inv s -> tok r <= token s -> phase_ok (history s) r -> at_phase r = Consulted out missing usable ->
  writing s = None -> (forall ns, sorted_list (now s) ns (lists_of ns)) -> build lists_of missing out = (built, out') ->
  phase_ok (history s) (enter r (after_build (length (history s)) usable out' missing built)).
Proof.
  intros I Ht P E Hw Hl Hb. unfold phase_ok in P. rewrite E in P. destruct P as (S & A & D).
  pose proof (build_spec (history s) (tok r) (length (history s)) lists_of missing (now_fresh s (tok r) lists_of I Hw Ht Hl) out S) as B. rewrite Hb in B.
  destruct B as (B1 & B2 & B3 & B4 & B5 & B6).
  assert (A' : forall ns, ns ∈ req r -> answered (history s) (tok r) (length (history s)) out' ns).
  { intros ns Hn. destruct (decide (ns ∈ missing)) as [Hm|Hm]; [by apply B3|]. destruct (A ns Hn) as [|Ha]; [done|]. unfold answered. by rewrite B6. }
  assert (D' : forall ns, is_Some (out' !! ns) -> ns ∈ req r).
  { intros ns Hn. apply D. destruct (B4 ns Hn); [by right|by left]. }
  unfold phase_ok, after_build. by destruct usable.
Qed.

Lemma serving_step s s' : inv s -> step s s' -> inv s'.
Proof.
  intros I Hs. destruct Hs as [s d' Hw _|s d' Hw|s i nss Hi|s i r c out missing usable Hi Hp Hc|s i r out missing usable lo built out' Hi Hp Hw Hl Hb|s i r out missing built Hi Hp].
  - destruct I. rewrite Hw in iv_len0. split; cbn [now token writing mem history readers]; try done; [lia|]. intros j r Hj. specialize (iv_tok0 j r Hj). lia.
  - destruct I. rewrite Hw in iv_len0. split; cbn [now token writing mem history readers]; try done.
    + rewrite length_app. cbn [length]. lia.
    + rewrite length_app. cbn [length]. replace (pred (length (history s) + 1))%nat with (length (history s)) by lia. by rewrite lookup_app_r, Nat.sub_diag.
    + intros ns l Hn. eapply fresh_grows; [|by apply iv_mem0]. rewrite length_app. lia.
    + intros j r Hj. by eapply phase_grows, iv_phase0.
  - destruct I. split; cbn [now token writing mem history readers]; try done.
    + intros j r Hj. destruct (decide (j = i)) as [->|Hn]; [|rewrite lookup_insert_ne in Hj by done; by apply (iv_tok0 j)].
      rewrite lookup_insert_eq in Hj. injection Hj as <-. cbn [start tok]. pose proof (lookup_lt_Some _ _ _ iv_now0). destruct (writing s); lia.
    + intros j r Hj. destruct (decide (j = i)) as [->|Hn]; [|rewrite lookup_insert_ne in Hj by done; by apply (iv_phase0 j)].
      rewrite lookup_insert_eq in Hj. by injection Hj as <-.
  - destruct (consult_ok s r c out missing usable I) as (Hg & Hm & Hph); [by apply (iv_tok s I i)|done|]. by apply inv_enter.
  - apply inv_enter; [done|done| |apply I|apply I]. eapply build_ok; try done; [by apply (iv_tok s I i)|by apply (iv_phase s I i)].
  - pose proof (iv_phase s I i r Hi) as P. unfold phase_ok in P. rewrite Hp in P. destruct P as (F & A & D). apply inv_enter; try done.
    + unfold store. case_bool_decide; apply I.
    + unfold store. case_bool_decide as Hg; [|apply I]. cbn [sorted sortedGen]. rewrite Hg. eapply store_all_spec; [exact F|]. rewrite <- Hg. apply I.
Qed.

Lemma serving_inv d s : reachable d s -> inv s.
Proof.
  apply (rtc_ind_r (fun s => inv s)).
  - split; cbn; try done; intros *; rewrite lookup_empty; done.
  - intros y z _ Hs I. by eapply serving_step.
Qed.

(** C5: Whatever calls and changes interleave, a call to [InNamespaces] answers
    of each namespace it names, and of no other, the sorted list of what that
    namespace held at some moment between the call's first step and its last;
    an empty namespace is absent.  The memo never serves what was already gone
    when the call began. *)
Theorem inNamespaces_linear d s i r out fin : reachable d s -> readers s !! i = Some r -> at_phase r = Done out fin ->
  (forall ns, ns ∈ req r -> out !! ns <> Some [] /\ exists v dv, (start r <= v < fin)%nat /\ history s !! v = Some dv /\ sorted_list dv ns (default [] (out !! ns))) /\
  (forall ns, is_Some (out !! ns) -> ns ∈ req r).
Proof.
  intros R Hi Hp. pose proof (serving_inv d s R) as I. pose proof (iv_phase s I i r Hi) as P. unfold phase_ok in P. rewrite Hp in P.
  destruct P as (L & A & D). split; [|done]. intros ns Hn. destruct (A ns Hn) as [Hne (v & dv & Hg & Hv & Hh & Hs)]. split; [done|]. exists v, dv.
  pose proof (iv_tok s I i r Hi). split_and!; try done; lia.
Qed.

(** * The Service index at concrete deliveries ([internal/services/services.go]) *)


Definition delivery (name uid version : string) : kService :=
  mkK (text name) (text "shop") (text uid) (text version) ∅ ∅ (list_to_map [(text "app", text name)]) [mkServicePort (text "http") 80 (Services.Int 8080)].

(** A Service recreated under its name before its delete arrives, and one more. *)
Definition deliveries : list op :=
  [OpUpsert [] [] (delivery "web" "u1" "1"); OpUpsert [] [] (delivery "web" "u2" "2"); OpDelete (text "shop") (text "u1");
   OpUpsert [] [] (delivery "api" "u3" "3")].

Definition name_of (ns uid : bytes) : bytes := if decide (uid = text "u3") then text "api" else text "web".

Lemma deliveries_ok : Forall (op_ok name_of) deliveries.
Proof. repeat constructor; try (by rewrite map_to_list_empty); apply (bool_decide_unpack _); vm_compute; exact I. Qed.

Example deliveries_held : let ix := foldl ServicesSafe.step NewIndex deliveries in
  (UID <$> (map_to_list (services_of (held ix) (text "shop"))).*2) ≡ₚ [text "u2"; text "u3"] /\ gen ix = 3 /\ NameReuses ix = 1.
Proof. cbv zeta. split; [apply (bool_decide_unpack _); vm_compute; exact I|]. split; vm_compute; reflexivity. Qed.

Lemma index_last_delivery_witness : NoDup (Name <$> (map_to_list (services_of (held (foldl ServicesSafe.step NewIndex deliveries)) (text "shop"))).*2).
Proof. exact (proj1 (proj2 (index_last_delivery name_of deliveries deliveries_ok)) (text "shop")). Defined.

(** One reader of one namespace, start to end. *)
Definition one : Service := convert [] [] (delivery "web" "u1" "1").
Definition small : data := mkData {[text "shop" := {[text "u1" := one]}]} {[nameKey (text "shop") (text "web") := text "u1"]} 0.
Definition list_of (ns : bytes) : list Service := if decide (ns = text "shop") then [one] else [].
Definition ended : sys := mkSys small 0 None (mkMemo {[text "shop" := [one]]} 0) [small]
  {[0%nat := mkReader [text "shop"] 0 0 (Done {[text "shop" := [one]]} 1)]}.

Lemma list_of_sorted ns : sorted_list small ns (list_of ns).
Proof.
  unfold sorted_list, list_of, services_of, small. cbn [byNamespace]. case_decide as E.
  - subst ns. rewrite lookup_singleton_eq. cbn [default]. unfold id. rewrite map_to_list_singleton. split; [done|]. by repeat constructor.
  - rewrite lookup_singleton_ne by done. cbn [default]. rewrite map_to_list_empty. split; [done|constructor].
Qed.

Lemma rtc_eq {A} (R : relation A) x y : x = y -> rtc R x y.
Proof. by intros ->. Qed.

Lemma ended_reachable : reachable small ended.
Proof.
  eapply rtc_l; [apply (step_load (init small) 0 [text "shop"]); done|].
  eapply rtc_l; [eapply (step_consult _ 0%nat); [apply lookup_insert_eq|done|vm_compute; reflexivity]|].
  eapply rtc_l; [eapply (step_build _ 0%nat _ _ _ _ list_of); [apply lookup_insert_eq|reflexivity|done|exact list_of_sorted|vm_compute; reflexivity]|].
  eapply rtc_l; [eapply (step_store _ 0%nat); [apply lookup_insert_eq|reflexivity]|]. apply rtc_eq. vm_compute. reflexivity.
Qed.

Lemma inNamespaces_linear_witness : exists out : gmap bytes (list Service), out !! text "shop" = Some [one] /\ forall ns, is_Some (out !! ns) -> ns ∈ [text "shop"].
Proof.
  exists {[text "shop" := [one]]}. split; [vm_compute; reflexivity|].
  exact (proj2 (inNamespaces_linear small ended 0%nat (mkReader [text "shop"] 0 0 (Done {[text "shop" := [one]]} 1)) {[text "shop" := [one]]} 1%nat
    ended_reachable eq_refl eq_refl)).
Defined.
