(* ===== verification/Targets.v ===== *)
(** * Scrape targets ([internal/scrape/targets.go])

    What a pod, a Service in front of it, and a monitor's endpoint derive: which
    port, which URL, which target.  Everything here is a function of its
    arguments.  A [*kubemeta.Service] is compared by pointer downstream, so a
    view has an address, and what allocates one takes it. *)

From S2P Require Import Prelude Clip Order Number Text KubeMeta.
From S2P Require Export Owners Services.
Local Open Scope Z_scope.

(** ** The documents of [pkg/kubemeta/types.go] *)

Record ContainerPort := mkCPort { cp_Name : bytes; cp_Port : Z; cp_Protocol : bytes }.

Record Container := mkContainer {
  c_Name : bytes; c_Type : bytes; c_ID : bytes; c_RuntimeID : bytes; c_Image : bytes; c_ImageID : bytes;
  c_Ports : list ContainerPort; c_State : bytes; c_WaitingReason : bytes }.

(** [Pod], less the fields that no derivation reads and no size depends on. *)
Record Pod := mkPod {
  pod_Name : bytes; pod_Namespace : bytes; pod_UID : bytes; NodeName : bytes; PodIP : bytes; PodIPs : list bytes;
  HostIP : bytes; Phase : bytes; pod_Labels : strmap; pod_Annotations : strmap;
  DeletionTimestamp : option Z; DeletedAt : option Z;
  NamespaceMetadata : option ObjectMeta; pod_Owners : list Owner; OwnersOmitted : Z; Containers : list Container }.

Definition FinishedPhase (phase : bytes) : bool := bool_decide (phase = text "Succeeded") || bool_decide (phase = text "Failed").

(** [kubemeta.Service], at its address. *)
Record View := mkView { v_addr : Z; v_Name : bytes; v_Namespace : bytes; v_UID : bytes; v_Labels : strmap; v_Annotations : strmap }.

Record ScrapeAuth := mkAuth {
  InsecureSkipVerify : bool; AuthSecret : bytes; BasicAuthUser : bytes; BasicAuthPass : bytes; AuthType : bytes;
  AuthCredentials : bytes; TLSCA : bytes; TLSCert : bytes; TLSKey : bytes; TLSServerName : bytes }.
#[export] Instance ScrapeAuth_eq_dec : EqDecision ScrapeAuth.
Proof. solve_decision. Defined.
Definition noAuth : ScrapeAuth := mkAuth false [] [] [] [] [] [] [] [] [].

Record RelabelRule := mkRule { Action : bytes; SourceLabels : list bytes; Regex : bytes }.
#[export] Instance RelabelRule_eq_dec : EqDecision RelabelRule.
Proof. solve_decision. Defined.

Record ScrapeTarget := mkTarget {
  URL : bytes; Scheme : bytes; Address : bytes; t_Port : Z; t_Path : bytes; Source : bytes;
  t_Service : option View; Monitor : bytes; Monitors : list bytes; Auth : ScrapeAuth; Interval : bytes; ScrapeTimeout : bytes;
  MetricRelabelings : list RelabelRule; t_Pod : Pod }.

(** [servicemonitors.Endpoint], without its reports.  An endpoint is compared by
    its address in the index too. *)
Record Endpoint := mkEndpoint {
  ep_addr : Z; ep_Port : bytes; ep_TargetPort : option TargetPort; ep_Path : bytes; ep_Scheme : bytes; ep_Auth : ScrapeAuth;
  ep_MetricRelabelings : list RelabelRule; ep_Interval : bytes; ep_ScrapeTimeout : bytes; Refused : bytes }.

(** ** Ports *)

Definition AnnotationScrape : bytes := text "prometheus.io/scrape".
Definition AnnotationPath : bytes := text "prometheus.io/path".
Definition AnnotationPort : bytes := text "prometheus.io/port".
Definition AnnotationScheme : bytes := text "prometheus.io/scheme".
Definition MaxPortsPerPod : Z := 16.
Definition MaxTargetPathBytes : Z := 2048.

Definition OptedIn (annotations : strmap) : bool := bool_decide (default [] (annotations !! AnnotationScrape) = text "true").

Definition portAnnotation `{GoText} (annotations : strmap) : bytes * bool :=
  match annotations !! AnnotationPort with Some raw => (raw, negb (bool_decide (TrimSpace raw = []))) | None => ([], false) end.

(** [strings.SplitSeq] on a comma. *)
Fixpoint split_commas (s acc : bytes) : list bytes :=
  match s with [] => [acc] | c :: s => if c =? 44 then acc :: split_commas s [] else split_commas s (acc ++ [c]) end.

Definition listEntries `{GoText} (s : bytes) : list bytes := filter (fun part => part <> []) (TrimSpace <$> split_commas s []).

Definition targetPort_number (s : bytes) (n : Z) : option Z :=
  (fix digits (s : bytes) (n : Z) : option Z :=
    match s with
    | [] => if n <? 1 then None else Some n
    | c :: s => if (c <? 48) || (57 <? c) then None else let n := n * 10 + (c - 48) in if 65535 <? n then None else digits s n
    end) s n.

Definition parsePort (entry : bytes) : option Z :=
  match entry with
  | 45 :: _ => None
  | 43 :: s => match s with [] => None | _ => targetPort_number s 0 end
  | [] => None
  | _ => targetPort_number entry 0
  end.

Definition regularContainer (c : Container) : bool := negb (bool_decide (c_Type c = text "init")) && negb (bool_decide (c_Type c = text "ephemeral")).

Definition portByName (pod : Pod) (name : bytes) (regular : bool) : option Z :=
  cp_Port <$> find (fun p => bool_decide (cp_Name p = name))
    (flat_map c_Ports (List.filter (fun c => Bool.eqb (regularContainer c) regular) (Containers pod))).

Definition containerPortByName (pod : Pod) (name : bytes) : option Z :=
  if bool_decide (name = []) then None
  else match portByName pod name true with Some p => Some p | None => portByName pod name false end.

Definition containerPortDeclarations (pod : Pod) (name : bytes) : Z :=
  if bool_decide (name = []) then 0 else Z.of_nat (length (List.filter (fun p => bool_decide (cp_Name p = name)) (flat_map c_Ports (Containers pod)))).

Definition monitorPortNumber (tp : TargetPort) : option Z :=
  match tp with Services.String s => parsePort s | Int n => if (1 <=? n) && (n <=? 65535) then Some n else None end.

Definition targetPortOnPod (pod : Pod) (tp : TargetPort) : option Z :=
  match monitorPortNumber tp with
  | Some n => Some n
  | None => match tp with Services.String s => containerPortByName pod s | Int _ => None end
  end.

Definition targetPodPort (pod : Pod) (sp : Port) : option Z :=
  if negb (bool_decide (TargetPortName sp = [])) then containerPortByName pod (TargetPortName sp)
  else if negb (TargetPortNum sp =? 0) then Some (TargetPortNum sp) else Some (p_Port sp).

Definition monitorPodPort (pod : Pod) (svc : Service) (ep : Endpoint) : option Z :=
  if bool_decide (ep_Port ep = []) then match ep_TargetPort ep with None => None | Some tp => targetPortOnPod pod tp end
  else match find (fun sp => bool_decide (p_Name sp = ep_Port ep)) (Ports svc) with Some sp => targetPodPort pod sp | None => None end.

Definition podMonitorPodPort (pod : Pod) (ep : Endpoint) : option Z :=
  if bool_decide (ep_Port ep = []) then match ep_TargetPort ep with None => None | Some tp => targetPortOnPod pod tp end
  else containerPortByName pod (ep_Port ep).

(** *** A pod's own ports *)

(** [add] of [podPorts]: the ports so far are their own set. *)
Definition add_port (ports : list Z) (p : Z) : list Z :=
  if bool_decide (p ∈ ports) || (p <? 1) || (65535 <? p) || (MaxPortsPerPod <=? Z.of_nat (length ports)) then ports else ports ++ [p].

Fixpoint entry_ports (pod : Pod) (entries : list bytes) (ports : list Z) : list Z :=
  match entries with
  | [] => ports
  | entry :: entries =>
      if MaxPortsPerPod <=? Z.of_nat (length ports) then ports
      else entry_ports pod entries
        match parsePort entry with
        | Some n => add_port ports n
        | None => match containerPortByName pod entry with Some p => add_port ports p | None => ports end
        end
  end.

Definition podPorts `{GoText} (pod : Pod) : list Z :=
  let '(ann, explicit) := portAnnotation (pod_Annotations pod) in
  if negb explicit then foldl add_port [] (cp_Port <$> flat_map c_Ports (Containers pod))
  else entry_ports pod (listEntries ann) [].

(** *** A Service's ports

    The index holds the first position of each name and number, and from each
    position the next of the same; [-1] is [None]. *)
Record servicePortIndex := mkIndexOf { ix_ports : list Port; ix_maps : option (gmap bytes nat * gmap Z nat); nextName : gmap nat nat; nextNum : gmap nat nat }.

Definition indexServicePortsOver : Z := 16.

(** The loop that builds it, from the last port to the first. *)
Definition index_one (m : (gmap bytes nat * gmap Z nat) * (gmap nat nat * gmap nat nat)) (ip : nat * Port) : (gmap bytes nat * gmap Z nat) * (gmap nat nat * gmap nat nat) :=
  let '((byName, byNum), (nn, nm)) := m in
  let '(i, sp) := ip in
  let nn := match byName !! p_Name sp with Some j => <[i := j]> nn | None => nn end in
  let nm := match byNum !! p_Port sp with Some j => <[i := j]> nm | None => nm end in
  ((<[p_Name sp := i]> byName, <[p_Port sp := i]> byNum), (nn, nm)).

Definition newServicePortIndex (ports : list Port) : servicePortIndex :=
  if Z.of_nat (length ports) <=? indexServicePortsOver then mkIndexOf ports None ∅ ∅
  else let '(maps, (nn, nm)) := foldl index_one ((∅, ∅), (∅, ∅)) (reverse (imap pair ports)) in mkIndexOf ports (Some maps) nn nm.

Definition scan_matches (ports : list Port) (entry : bytes) : list nat :=
  let n := parsePort entry in
  (imap pair ports) ≫= (fun ip => if bool_decide (p_Name ip.2 = entry) || bool_decide (n = Some (p_Port ip.2)) then [ip.1] else []).

(** The merge of the two chains; a turn passes a position, so the number of
    ports is fuel enough. *)
Fixpoint merge_chains (fuel : nat) (nn nm : gmap nat nat) (a b : option nat) : list nat :=
  match fuel with
  | 0%nat => []
  | S fuel =>
      match a, b with
      | None, None => []
      | Some a, None => a :: merge_chains fuel nn nm (nn !! a) None
      | None, Some b => b :: merge_chains fuel nn nm None (nm !! b)
      | Some a, Some b =>
          if (a <? b)%nat then a :: merge_chains fuel nn nm (nn !! a) (Some b)
          else if (b <? a)%nat then b :: merge_chains fuel nn nm (Some a) (nm !! b)
          else a :: merge_chains fuel nn nm (nn !! a) (nm !! b)
      end
  end.

Definition appendMatches (ix : servicePortIndex) (entry : bytes) : list nat :=
  match ix_maps ix with
  | None => scan_matches (ix_ports ix) entry
  | Some (byName, byNum) =>
      let n := parsePort entry in
      merge_chains (S (length (ix_ports ix))) (nextName ix) (nextNum ix) (byName !! entry) (match n with Some n => byNum !! n | None => None end)
  end.

(** The positions picked, in order; [picked] is that list as a set. *)
Definition pick (picked : list nat) (i : nat) : list nat := if bool_decide (i ∈ picked) then picked else picked ++ [i].

Fixpoint pick_entries (ix : servicePortIndex) (entries : list bytes) (picked : list nat) : list nat :=
  match entries with
  | [] => picked
  | entry :: entries =>
      let picked := foldl pick picked (appendMatches ix entry) in
      if bool_decide (length picked = length (ix_ports ix)) then picked else pick_entries ix entries picked
  end.

Definition selectServicePorts `{GoText} (svc : Service) : list Port :=
  let '(ann, explicit) := portAnnotation (Services.Annotations svc) in
  if negb explicit then Ports svc
  else omap (fun i => Ports svc !! i) (pick_entries (newServicePortIndex (Ports svc)) (listEntries ann) []).

(** ** Targets *)

(** A set of conditions, as its bits. *)
Definition unscrapeableReasons (pod : Pod) : Z :=
  let u := 0 in
  let u := if bool_decide (PodIP pod = []) then Z.lor u 1 else u in
  let u := match DeletedAt pod with Some _ => Z.lor u 2 | None => u end in
  let u := match DeletionTimestamp pod with Some _ => Z.lor u 4 | None => u end in
  if FinishedPhase (Phase pod) then Z.lor u 8 else u.

Definition Scrapeable (pod : Pod) : bool := unscrapeableReasons pod =? 0.

Definition defaultSchemePath (scheme path : bytes) : option (bytes * bytes) :=
  if MaxTargetPathBytes <? len path then None
  else
    let scheme := if negb (bool_decide (scheme = text "https")) then text "http" else scheme in
    let path := if bool_decide (path = []) then text "/metrics" else path in
    let path := if HasPrefix path (text "/") then path else text "/" ++ path in
    Some (scheme, path).

Definition schemeAndPath (annotations : strmap) : option (bytes * bytes) :=
  defaultSchemePath (default [] (annotations !! AnnotationScheme)) (default [] (annotations !! AnnotationPath)).

(** [strings.EqualFold] against five ASCII letters: of five bytes, only their
    cases fold to them. *)
Definition lower (c : Z) : Z := if (65 <=? c) && (c <=? 90) then c + 32 else c.
Definition monitorScheme (scheme : bytes) : bytes := if (len scheme =? 5) && bool_decide (lower <$> scheme = text "https") then text "https" else scheme.

(** [appendTargetURL] to an empty slice: before, the host and port, and after. *)
Definition appendTargetURL (scheme ip : bytes) (port : Z) (path : bytes) : bytes * bytes * bytes :=
  (scheme ++ text "://", (if bool_decide (58 ∈ ip) then [91] ++ ip ++ [93] else ip) ++ [58] ++ FormatInt port, path).

Definition targetURL (pod : Pod) (scheme path : bytes) (port : Z) : bytes :=
  let '(a, b, c) := appendTargetURL scheme (PodIP pod) port path in a ++ b ++ c.

Definition makeTarget (pod : Pod) (scheme path : bytes) (port : Z) : ScrapeTarget :=
  let '(a, b, c) := appendTargetURL scheme (PodIP pod) port path in
  mkTarget (a ++ b ++ c) scheme b port path [] None [] [] noAuth [] [] [] pod.

Definition from_source (source : bytes) (v : option View) (t : ScrapeTarget) : ScrapeTarget :=
  mkTarget (URL t) (Scheme t) (Address t) (t_Port t) (t_Path t) source v (Monitor t) (Monitors t) (Auth t) (Interval t) (ScrapeTimeout t) (MetricRelabelings t) (t_Pod t).

Definition serviceInfo (addr : Z) (svc : Service) : View :=
  mkView addr (Services.Name svc) (Services.Namespace svc) (Services.UID svc) (Services.Labels svc) (Services.Annotations svc).

(** [t.Monitor = monitor; stampEndpoint(&t, ep)] *)
Definition stampEndpoint (monitor : bytes) (ep : Endpoint) (t : ScrapeTarget) : ScrapeTarget :=
  mkTarget (URL t) (Scheme t) (Address t) (t_Port t) (t_Path t) (Source t) (t_Service t) monitor (Monitors t) (ep_Auth ep) (ep_Interval ep) (ep_ScrapeTimeout ep)
    (MetricRelabelings t ++ ep_MetricRelabelings ep) (t_Pod t).

Definition PodTargets `{GoText} (pod : Pod) : list ScrapeTarget :=
  if negb (OptedIn (pod_Annotations pod)) || negb (Scrapeable pod) then []
  else match schemeAndPath (pod_Annotations pod) with
       | None => []
       | Some (scheme, path) => (fun port => from_source (text "pod") None (makeTarget pod scheme path port)) <$> podPorts pod
       end.

Record ServiceDoor := mkDoor { opened : bool; d_scheme : bytes; d_path : bytes; d_ports : list Port; d_info : option View }.

Definition NewServiceDoor `{GoText} (addr : Z) (svc : Service) : ServiceDoor :=
  if negb (OptedIn (Services.Annotations svc)) then mkDoor false [] [] [] None
  else match schemeAndPath (Services.Annotations svc) with
       | None => mkDoor false [] [] [] None
       | Some (scheme, path) => mkDoor true scheme path (selectServicePorts svc) (Some (serviceInfo addr svc))
       end.

(** The loop of [Targets]; the ports served are its set. *)
Fixpoint door_ports (pod : Pod) (sps : list Port) (served : list Z) : list Z :=
  match sps with
  | [] => served
  | sp :: sps =>
      if MaxPortsPerPod <=? Z.of_nat (length served) then served
      else match targetPodPort pod sp with
           | None => door_ports pod sps served
           | Some port => door_ports pod sps (if bool_decide (port ∈ served) then served else served ++ [port])
           end
  end.

Definition door_targets (d : ServiceDoor) (pod : Pod) : list ScrapeTarget :=
  if negb (opened d) || negb (Scrapeable pod) then []
  else (fun port => from_source (text "service") (d_info d) (makeTarget pod (d_scheme d) (d_path d) port)) <$> door_ports pod (d_ports d) [].

Definition ServiceTargets `{GoText} (addr : Z) (pod : Pod) (svc : Service) : list ScrapeTarget :=
  if negb (Scrapeable pod) then [] else door_targets (NewServiceDoor addr svc) pod.

Definition monitorEndpoint (pod : Pod) (svc : Service) (ep : Endpoint) : option (bytes * bytes * Z) :=
  if negb (bool_decide (Refused ep = [])) || negb (Scrapeable pod) then None
  else match monitorPodPort pod svc ep with
       | None => None
       | Some port => match defaultSchemePath (monitorScheme (ep_Scheme ep)) (ep_Path ep) with Some (scheme, path) => Some (scheme, path, port) | None => None end
       end.

Definition MonitorTargets (addr : Z) (pod : Pod) (svc : Service) (monitor : bytes) (ep : Endpoint) : list ScrapeTarget :=
  match monitorEndpoint pod svc ep with
  | None => []
  | Some (scheme, path, port) => [stampEndpoint monitor ep (from_source (text "servicemonitor") (Some (serviceInfo addr svc)) (makeTarget pod scheme path port))]
  end.

Definition MonitorTargetURL (pod : Pod) (svc : Service) (ep : Endpoint) : option bytes :=
  match monitorEndpoint pod svc ep with None => None | Some (scheme, path, port) => Some (targetURL pod scheme path port) end.

Definition podMonitorEndpoint (pod : Pod) (ep : Endpoint) : option (bytes * bytes * Z) :=
  if negb (bool_decide (Refused ep = [])) || negb (Scrapeable pod) then None
  else match podMonitorPodPort pod ep with
       | None => None
       | Some port => match defaultSchemePath (monitorScheme (ep_Scheme ep)) (ep_Path ep) with Some (scheme, path) => Some (scheme, path, port) | None => None end
       end.

Definition PodMonitorTargets (pod : Pod) (monitor : bytes) (ep : Endpoint) : list ScrapeTarget :=
  match podMonitorEndpoint pod ep with
  | None => []
  | Some (scheme, path, port) => [stampEndpoint monitor ep (from_source (text "podmonitor") None (makeTarget pod scheme path port))]
  end.

Definition PodMonitorTargetURL (pod : Pod) (ep : Endpoint) : option bytes :=
  match podMonitorEndpoint pod ep with None => None | Some (scheme, path, port) => Some (targetURL pod scheme path port) end.

(** * What a target's derivation promises ([internal/scrape/targets.go])

    The port index selects what a scan selects; a port annotation selects each
    port once, in the order it is first named; a port entry is what [strconv]
    reads in the range of ports; and the URL, which is a target's identity, is
    the same exactly when scheme, port and path are. *)


(** ** The port index *)

Fixpoint positions (P : Port -> bool) (k : nat) (ps : list Port) : list nat :=
  match ps with [] => [] | p :: ps => if P p then k :: positions P (S k) ps else positions P (S k) ps end.

Definition named (entry : bytes) (p : Port) : bool := bool_decide (p_Name p = entry).
Definition numbered (n : option Z) (p : Port) : bool := bool_decide (n = Some (p_Port p)).

Lemma imap_from {A B} (f : nat -> A -> B) l : forall k, imap (fun i x => f (k + i)%nat x) l =
  match l with [] => [] | x :: l => f k x :: imap (fun i x => f (S k + i)%nat x) l end.
Proof.
  intros k. destruct l as [|x l]; [done|]. rewrite imap_cons, Nat.add_0_r. f_equal. apply imap_ext. intros i y _. cbn. f_equal. lia.
Qed.

Lemma scan_from ps entry : forall k, imap (fun i p => ((k + i)%nat, p)) ps ≫= (fun ip => if bool_decide (p_Name ip.2 = entry) || bool_decide (parsePort entry = Some (p_Port ip.2)) then [ip.1] else []) =
  positions (fun p => named entry p || numbered (parsePort entry) p) k ps.
Proof.
  induction ps as [|p ps IH]; intros k; [done|]. rewrite (imap_from (fun i p => (i, p))). cbn [mbind list_bind positions fst snd]. rewrite IH.
  unfold named, numbered. by destruct (_ || _).
Qed.

Lemma scan_positions ps entry : scan_matches ps entry = positions (fun p => named entry p || numbered (parsePort entry) p) 0 ps.
Proof. apply (scan_from ps entry 0). Qed.

(** From [start], [next] visits exactly [l]. *)
Fixpoint chain (next : gmap nat nat) (start : option nat) (l : list nat) : Prop :=
  match l with [] => start = None | i :: l => start = Some i /\ chain next (next !! i) l end.

Lemma chain_insert next i j : forall l start, i ∉ l -> chain next start l -> chain (<[i := j]> next) start l.
Proof.
  induction l as [|x l IH]; intros start Hi; [done|]. apply not_elem_of_cons in Hi as [Hx Hi]. cbn. rewrite lookup_insert_ne by done. intros [? Hc]. split; [done|]. by apply IH.
Qed.

Lemma positions_ge P ps : forall k i, i ∈ positions P k ps -> (k <= i)%nat.
Proof.
  induction ps as [|p ps IH]; intros k i; cbn; [by rewrite elem_of_nil|]. destruct (P p); [rewrite elem_of_cons; intros [->|Hi]; [done|]|intros Hi]; apply IH in Hi; lia.
Qed.

Definition index_from (k : nat) (ps : list Port) := foldr (fun ip m => index_one m ip) ((∅, ∅), (∅, ∅)) (imap (fun i p => ((k + i)%nat, p)) ps).

Lemma index_from_cons k p ps : index_from k (p :: ps) = index_one (index_from (S k) ps) (k, p).
Proof. unfold index_from. by rewrite (imap_from (fun i p => (i, p))). Qed.

Lemma index_chains ps : forall k, let '((bn, bm), (nn, nm)) := index_from k ps in
  (forall e, chain nn (bn !! e) (positions (named e) k ps)) /\ (forall n, chain nm (bm !! n) (positions (numbered (Some n)) k ps)) /\
  (forall i, (i < k)%nat -> nn !! i = None /\ nm !! i = None).
Proof.
  induction ps as [|p ps IH]; intros k; [done|]. rewrite index_from_cons. specialize (IH (S k)). destruct (index_from (S k) ps) as [[bn bm] [nn nm]].
  destruct IH as (I1 & I2 & I3). cbn [index_one positions]. assert (Fresh : forall P, k ∉ positions P (S k) ps) by (intros P Hk; apply positions_ge in Hk; lia). split_and!.
  - intros e. unfold named at 1. case_bool_decide as E.
    + subst e. rewrite lookup_insert_eq. cbn. split; [done|]. specialize (I1 (p_Name p)). destruct (bn !! p_Name p) as [j|].
      * rewrite lookup_insert_eq. by apply chain_insert.
      * by rewrite (proj1 (I3 k ltac:(lia))).
    + rewrite lookup_insert_ne by done. destruct (bn !! p_Name p); [apply chain_insert|]; auto.
  - intros n. unfold numbered at 1. case_bool_decide as E.
    + injection E as ->. rewrite lookup_insert_eq. cbn. split; [done|]. specialize (I2 (p_Port p)). destruct (bm !! p_Port p) as [j|].
      * rewrite lookup_insert_eq. by apply chain_insert.
      * by rewrite (proj2 (I3 k ltac:(lia))).
    + rewrite lookup_insert_ne by congruence. destruct (bm !! p_Port p); [apply chain_insert|]; auto.
  - intros i Hi. destruct (I3 i ltac:(lia)) as [N1 N2]. destruct (bn !! p_Name p), (bm !! p_Port p); rewrite ?lookup_insert_ne by lia; done.
Qed.

Lemma chain_head next start P k ps : chain next start (positions P (S k) ps) -> match start with None => True | Some i => (k < i)%nat end.
Proof.
  destruct (positions P (S k) ps) as [|i l] eqn:E; cbn; [by intros ->|]. intros [-> _]. assert (Hi : i ∈ positions P (S k) ps) by (rewrite E; by left).
  apply positions_ge in Hi. lia.
Qed.

Lemma merge_positions nn nm P Q ps : forall fuel k a b, (length ps <= fuel)%nat -> chain nn a (positions P k ps) -> chain nm b (positions Q k ps) ->
  merge_chains fuel nn nm a b = positions (fun p => P p || Q p) k ps.
Proof.
  induction ps as [|p ps IH]; intros fuel k a b Hf Ha Hb; cbn [positions] in *.
  { cbn in Ha, Hb. subst. by destruct fuel. }
  destruct fuel as [|fuel]; [cbn in Hf; lia|]. cbn [length] in Hf. destruct (P p), (Q p); cbn [orb].
  - destruct Ha as [-> Ha], Hb as [-> Hb]. cbn [merge_chains]. rewrite Nat.ltb_irrefl. f_equal. apply IH; [lia|done|done].
  - destruct Ha as [-> Ha]. pose proof (chain_head _ _ _ _ _ Hb) as Hh. cbn [merge_chains]. destruct b as [b|].
    + destruct (Nat.ltb_spec k b); [|lia]. f_equal. apply IH; [lia|done|done].
    + f_equal. apply IH; [lia|done|done].
  - destruct Hb as [-> Hb]. pose proof (chain_head _ _ _ _ _ Ha) as Hh. cbn [merge_chains]. destruct a as [a|].
    + destruct (Nat.ltb_spec a k); [lia|]. destruct (Nat.ltb_spec k a); [|lia]. f_equal. apply IH; [lia|done|done].
    + f_equal. apply IH; [lia|done|done].
  - apply IH; [lia|done|done].
Qed.

Lemma index_exact ps entry : appendMatches (newServicePortIndex ps) entry = scan_matches ps entry.
Proof.
  unfold newServicePortIndex. destruct (_ <=? _); [done|]. rewrite scan_positions. pose proof (index_chains ps 0) as I.
  assert (E : foldl index_one ((∅, ∅), (∅, ∅)) (reverse (imap pair ps)) = index_from 0 ps) by (rewrite foldl_reverse; done).
  rewrite E. destruct (index_from 0 ps) as [[bn bm] [nn nm]]. destruct I as (I1 & I2 & _). unfold appendMatches. cbn [ix_maps ix_ports nextName nextNum].
  apply merge_positions; [lia|apply I1|]. destruct (parsePort entry) as [n|]; [apply I2|]. clear. generalize 0%nat. induction ps as [|p ps IH]; intros k; [done|].
  cbn [positions]. unfold numbered at 1. rewrite bool_decide_eq_false_2 by done. apply IH.
Qed.

(** ** What an annotation selects *)

(** Each element once, where it first occurs. *)
Definition firsts (l : list nat) : list nat := foldl pick [] l.

Lemma pick_keeps n picked i : NoDup picked -> (forall j, j ∈ picked -> (j < n)%nat) -> (i < n)%nat ->
  NoDup (pick picked i) /\ (forall j, j ∈ pick picked i -> (j < n)%nat).
Proof.
  unfold pick. intros Nd Lt Hi. case_bool_decide as E; [done|]. split.
  - apply NoDup_app. split_and!; [done| |apply NoDup_singleton]. intros j Hj Hx. apply list_elem_of_singleton in Hx as ->. done.
  - intros j. rewrite elem_of_app, list_elem_of_singleton. intros [Hj| ->]; auto.
Qed.

Lemma picks_keep n l : forall picked, NoDup picked -> (forall j, j ∈ picked -> (j < n)%nat) -> (forall j, j ∈ l -> (j < n)%nat) ->
  NoDup (foldl pick picked l) /\ (forall j, j ∈ foldl pick picked l -> (j < n)%nat).
Proof.
  induction l as [|i l IH]; intros picked Nd Lt Hl; [done|]. cbn. destruct (pick_keeps n picked i Nd Lt (Hl i ltac:(by left))). apply IH; [done..|].
  intros j Hj. apply Hl. by right.
Qed.

(** Once every position is picked, nothing more is. *)
Lemma picks_full n l : forall picked, NoDup picked -> (forall j, j ∈ picked -> (j < n)%nat) -> length picked = n -> (forall j, j ∈ l -> (j < n)%nat) ->
  foldl pick picked l = picked.
Proof.
  intros picked Nd Lt Hn Hl. assert (Full : forall j, (j < n)%nat -> j ∈ picked).
  { intros j Hj. assert (picked ≡ₚ seq 0 n) as ->; [|apply elem_of_seq; lia]. apply submseteq_length_Permutation; [|rewrite length_seq; lia].
    apply NoDup_submseteq; [done|]. intros x Hx. apply elem_of_seq. specialize (Lt x Hx). lia. }
  induction l as [|i l IH]; [done|]. cbn. unfold pick at 2. rewrite bool_decide_eq_true_2 by (apply Full, Hl; by left). apply IH. intros j Hj. apply Hl. by right.
Qed.

Lemma positions_lt P ps : forall k i, i ∈ positions P k ps -> (i < k + length ps)%nat.
Proof.
  induction ps as [|p ps IH]; intros k i; cbn; [by rewrite elem_of_nil|]. destruct (P p); [rewrite elem_of_cons; intros [->|Hi]; [lia|]|intros Hi]; apply IH in Hi; lia.
Qed.

Lemma pick_entries_all ps entries : forall picked, NoDup picked -> (forall j, j ∈ picked -> (j < length ps)%nat) ->
  pick_entries (newServicePortIndex ps) entries picked = foldl pick picked (entries ≫= scan_matches ps).
Proof.
  assert (Ep : ix_ports (newServicePortIndex ps) = ps).
  { unfold newServicePortIndex. destruct (_ <=? _); [done|]. by destruct (foldl index_one _ _) as [? [? ?]]. }
  assert (Lt : forall e j, j ∈ scan_matches ps e -> (j < length ps)%nat) by (intros e j; rewrite scan_positions; intros Hj; by apply positions_lt in Hj).
  induction entries as [|e entries IH]; intros picked Nd Hp; [done|]. cbn [pick_entries mbind list_bind]. rewrite foldl_app, index_exact, Ep.
  destruct (picks_keep (length ps) (scan_matches ps e) picked Nd Hp (Lt e)) as [Nd' Hp']. case_bool_decide as Hf; [|by apply IH].
  symmetry. apply (picks_full (length ps)); [done..|]. intros j Hj. apply list_elem_of_bind in Hj as (e' & Hj & _). by apply (Lt e').
Qed.

(** ** Port entries *)

Lemma digits_value_grows s : forall n, 0 <= n -> forallb isDigit s = true -> n <= digits_value n s.
Proof.
  induction s as [|c s IH]; intros n Hn Hs; [done|]. cbn in Hs. apply andb_true_iff in Hs as [Hc Hs]. unfold isDigit in Hc. bool_norm.
  change (digits_value n (c :: s)) with (digits_value (n * 10 + (c - 48)) s). specialize (IH (n * 10 + (c - 48)) ltac:(lia) Hs). lia.
Qed.

(** The loop stops past the largest port; so nothing wraps, and it reads what a
    reader without a bound does. *)
Lemma targetPort_number_spec s : forall n, 0 <= n <= 65535 -> targetPort_number s n =
  if forallb isDigit s && (1 <=? digits_value n s) && (digits_value n s <=? 65535) then Some (digits_value n s) else None.
Proof.
  induction s as [|c s IH]; intros n Hn.
  - cbn. destruct (Z.ltb_spec n 1), (Z.leb_spec 1 n); try lia; [done|]. destruct (Z.leb_spec n 65535); [done|lia].
  - change (targetPort_number (c :: s) n) with (if (c <? 48) || (57 <? c) then None else if 65535 <? n * 10 + (c - 48) then None else targetPort_number s (n * 10 + (c - 48))).
    change (digits_value n (c :: s)) with (digits_value (n * 10 + (c - 48)) s). cbn [forallb]. unfold isDigit at 1.
    destruct (Z.ltb_spec c 48), (Z.ltb_spec 57 c), (Z.leb_spec 48 c), (Z.leb_spec c 57); try lia; cbn [orb andb]; try done.
    destruct (Z.ltb_spec 65535 (n * 10 + (c - 48))) as [Hbig|Hfit]; [|apply IH; lia].
    destruct (forallb isDigit s) eqn:Es; [|done]. cbn [andb]. pose proof (digits_value_grows s (n * 10 + (c - 48)) ltac:(lia) Es).
    destruct (Z.leb_spec (digits_value (n * 10 + (c - 48)) s) 65535); [lia|]. by rewrite andb_false_r.
Qed.

(** The hand-written reader is [strconv.ParseInt] and the range of ports. *)
Lemma parsePort_exact entry : parsePort entry = match ParseInt entry with Some n => if (1 <=? n) && (n <=? 65535) then Some n else None | None => None end.
Proof.
  assert (Digits : forall s, targetPort_number s 0 =
    match (if forallb isDigit s then let n := digits_value 0 s in if decide (min_int64 <= n <= max_int64) then Some n else None else None) with
    | Some n => if (1 <=? n) && (n <=? 65535) then Some n else None | None => None end).
  { intros s. rewrite targetPort_number_spec by lia. destruct (forallb isDigit s) eqn:Es; [|done]. cbn [andb]. cbv zeta.
    pose proof (digits_value_grows s 0 ltac:(lia) Es). case_decide as D; [done|]. unfold min_int64, max_int64 in D.
    destruct (Z.leb_spec (digits_value 0 s) 65535); [lia|]. by rewrite andb_false_r. }
  unfold parsePort, ParseInt, sign_of. destruct entry as [|c s]; [done|].
  destruct (decide (c = 45)) as [->|N1].
  { destruct s as [|d s]; [done|]. destruct (forallb isDigit (d :: s)) eqn:Es; [|done]. pose proof (digits_value_grows (d :: s) 0 ltac:(lia) Es).
    cbv zeta. case_decide; [|done]. destruct (Z.leb_spec 1 (- digits_value 0 (d :: s))); [lia|done]. }
  destruct (decide (c = 43)) as [->|N2]; [destruct s as [|d s]; [done|exact (Digits (d :: s))]|].
  assert (E : forall A (a b x : A), (match c with 45 => a | 43 => b | _ => x end) = x).
  { intros A a b x. destruct c as [|q|q]; try done. do 6 (destruct q as [q|q|]; try done). }
  rewrite E. rewrite (E (bool * bytes)%type). exact (Digits (c :: s)).
Qed.

(** The number [strconv] reads, in the range of ports; and what an entry names. *)
Definition port_number (entry : bytes) : option Z :=
  match ParseInt entry with Some n => if (1 <=? n) && (n <=? 65535) then Some n else None | None => None end.
Definition names_port (entry : bytes) (p : Port) : bool := named entry p || numbered (port_number entry) p.

Lemma scan_names ps entry : scan_matches ps entry = positions (names_port entry) 0 ps.
Proof. rewrite scan_positions. unfold names_port, port_number. by rewrite <- parsePort_exact. Qed.

(** C19: Which of a Service's ports its annotation selects: each port that an
    entry names or, read as [strconv] reads a number in the range of ports, whose
    number it is; each once, in the order of the entries and within an entry of
    the ports.  Neither the hand-written number reader, nor the index that long
    port lists are looked up in, nor stopping once every port is selected,
    changes that. *)
Theorem service_ports_exact `{GoText} svc : selectServicePorts svc =
  let '(ann, explicit) := portAnnotation (Services.Annotations svc) in
  if explicit then omap (fun i => Ports svc !! i) (firsts (listEntries ann ≫= (fun entry => positions (names_port entry) 0 (Ports svc)))) else Ports svc.
Proof.
  unfold selectServicePorts. destruct (portAnnotation _) as [ann []]; [|done]. cbn [negb].
  rewrite pick_entries_all by (constructor || set_solver). unfold firsts. do 2 f_equal. induction (listEntries ann) as [|e es IH]; [done|]. cbn [mbind list_bind]. by rewrite scan_names, IH.
Qed.

(** ** The URL *)

Definition digits_only (s : bytes) : Prop := Forall (fun c => 48 <= c <= 57) s.

Lemma FormatInt_digits_only p : 0 <= p <= 65535 -> digits_only (FormatInt p).
Proof.
  intros Hp. unfold FormatInt. destruct (Z.ltb_spec p 0); [lia|]. destruct (decimal_digits_spec 20 p) as (_ & D & _); [lia|lia|].
  eapply Forall_impl; [exact D|]. intros c Hc. unfold isDigit in Hc. bool_norm. lia.
Qed.

Lemma FormatInt_inj p q : 0 <= p <= 65535 -> 0 <= q <= 65535 -> FormatInt p = FormatInt q -> p = q.
Proof.
  intros Hp Hq E. assert (ParseInt (FormatInt p) = ParseInt (FormatInt q)) as Es by (by rewrite E).
  rewrite !ParseInt_FormatInt in Es by (unfold min_int64, max_int64; lia). by injection Es.
Qed.

Lemma no_slash s : digits_only s -> 47 ∉ s.
Proof. intros Hs Hin. unfold digits_only in Hs. rewrite Forall_forall in Hs. specialize (Hs _ Hin). lia. Qed.

(** What [defaultSchemePath] answers: one of two schemes, and a path from the root. *)
Lemma scheme_path_shape s p scheme path : defaultSchemePath s p = Some (scheme, path) ->
  (scheme = text "http" \/ scheme = text "https") /\ exists rest, path = 47 :: rest.
Proof.
  unfold defaultSchemePath. destruct (_ <? _); [done|]. intros [= <- <-]. split.
  - case_bool_decide as E; cbn [negb]; [by right; rewrite E|by left].
  - set (p' := if bool_decide (p = []) then _ else p). clearbody p'.
    change (Z.of_nat (Ascii.nat_of_ascii (Ascii.Ascii true true true true false true false false))) with 47. destruct (HasPrefix p' [47]) eqn:E; [|by exists p'].
    destruct p' as [|c p'']; [done|]. cbn in E. rewrite andb_true_iff, bool_decide_eq_true in E. destruct E as [-> _]. by exists p''.
Qed.

Lemma url_inj pod s s' path path' p p' : (s = text "http" \/ s = text "https") -> (s' = text "http" \/ s' = text "https") ->
  (exists r, path = 47 :: r) -> (exists r, path' = 47 :: r) -> 0 <= p <= 65535 -> 0 <= p' <= 65535 ->
  targetURL pod s path p = targetURL pod s' path' p' -> s = s' /\ path = path' /\ p = p'.
Proof.
  intros Hs Hs' [r ->] [r' ->] Hp Hp' E. unfold targetURL, appendTargetURL in E.
  assert (Es : s = s') by (destruct Hs as [-> | ->], Hs' as [-> | ->]; done). subst s'. apply app_inv_head in E. rewrite <- !app_assoc in E.
  apply app_inv_head in E. apply (app_inv_head [58]) in E. apply app_sep_inj in E as [E ->]; [|apply no_slash, FormatInt_digits_only; lia..].
  apply FormatInt_inj in E; [|done|done]. by rewrite E.
Qed.

Definition monitor_port_ok (o : option (bytes * bytes * Z)) : Prop := forall s p n, o = Some (s, p, n) -> 0 <= n <= 65535.

(** A target's URL is its identity: of one pod, two endpoints of monitors
    resolve to one URL exactly when they resolve to one scheme, port and path;
    and the URL that is asked for before a target is built is the built
    target's, or neither is there.  Ports are those of the port range. *)
Theorem url_identity addr addr' pod svc svc' monitor ep ep' :
  monitor_port_ok (monitorEndpoint pod svc ep) -> monitor_port_ok (monitorEndpoint pod svc' ep') ->
  (MonitorTargetURL pod svc ep = head (URL <$> MonitorTargets addr pod svc monitor ep) /\ PodMonitorTargetURL pod ep = head (URL <$> PodMonitorTargets pod monitor ep)) /\
  (is_Some (MonitorTargetURL pod svc ep) -> MonitorTargetURL pod svc ep = MonitorTargetURL pod svc' ep' <-> monitorEndpoint pod svc ep = monitorEndpoint pod svc' ep') /\
  (forall t, t ∈ MonitorTargets addr' pod svc' monitor ep' -> Monitor t = monitor /\ Auth t = ep_Auth ep' /\ MetricRelabelings t = ep_MetricRelabelings ep').
Proof.
  intros P P'. split_and!.
  - unfold MonitorTargetURL, MonitorTargets. by destruct (monitorEndpoint pod svc ep) as [[[s p] n]|].
  - unfold PodMonitorTargetURL, PodMonitorTargets. by destruct (podMonitorEndpoint pod ep) as [[[s p] n]|].
  - assert (Shape : forall v e s p n, monitorEndpoint pod v e = Some (s, p, n) -> (s = text "http" \/ s = text "https") /\ exists r, p = 47 :: r).
    { intros v e s p n. unfold monitorEndpoint. destruct (_ || _); [done|]. destruct (monitorPodPort pod v e); [|done].
      destruct (defaultSchemePath _ _) as [[s' p']|] eqn:E; [|done]. intros [= <- <- <-]. by eapply scheme_path_shape. }
    unfold MonitorTargetURL. destruct (monitorEndpoint pod svc ep) as [[[s p] n]|] eqn:E; [intros _|by intros [? ?]].
    destruct (monitorEndpoint pod svc' ep') as [[[s' p'] n']|] eqn:E'; [|done]. destruct (Shape _ _ _ _ _ E), (Shape _ _ _ _ _ E').
    split; [|by intros [= -> -> ->]]. intros [= U]. apply url_inj in U as (-> & -> & ->); eauto.
  - intros t Ht. unfold MonitorTargets in Ht. destruct (monitorEndpoint pod svc' ep') as [[[s p] n]|]; [|by apply elem_of_nil in Ht].
    by apply list_elem_of_singleton in Ht as ->.
Qed.
