(* ===== verification/Collide.v ===== *)
(** * Targets of one exported identity ([internal/scrape/instance.go], and [ServiceName] of [internal/agent/attrs])

    A target is exported under its pod's workload and its address; the scan
    finds the served targets that share one. *)

From S2P Require Import Prelude Clip Number Text Order KubeMeta Targets.
Local Open Scope Z_scope.

(** The kinds of [kindTable], and whether one names a workload. *)
Definition kindTable : list (bytes * (bytes * bool)) :=
  [(text "ReplicaSet", (text "k8s.replicaset.name", false)); (text "Deployment", (text "k8s.deployment.name", true)); (text "StatefulSet", (text "k8s.statefulset.name", true));
   (text "DaemonSet", (text "k8s.daemonset.name", true)); (text "Job", (text "k8s.job.name", true)); (text "CronJob", (text "k8s.cronjob.name", true)); (text "Node", (text "k8s.node.name", false))].

Definition kind_row (kind : bytes) : option (bytes * bool) := snd <$> find (fun row => bool_decide (fst row = kind)) kindTable.

Definition KindAttribute (kind : bytes) : option bytes := fst <$> kind_row kind.

(** The last workload of the chain, or the pod's name. *)
Definition ServiceName (pod : Pod) : bytes :=
  foldl (fun name o => match kind_row (Owners.Kind o) with Some (_, true) => Owners.Name o | _ => name end) (pod_Name pod) (pod_Owners pod).

Record CollidingTarget := mkColliding { ct_URL : bytes; ct_Source : bytes; ct_Monitor : bytes; ct_Pod : bytes }.
Record InstanceCollision := mkCollision { Job : bytes; ic_Address : bytes; ic_Targets : list CollidingTarget }.

(** Namespace, service and address. *)
Definition instanceKey : Type := bytes * bytes * bytes.
Definition identityOf (t : ScrapeTarget) : instanceKey := (pod_Namespace (t_Pod t), ServiceName (t_Pod t), Address t).
Definition describeColliding (t : ScrapeTarget) : CollidingTarget := mkColliding (URL t) (Source t) (Monitor t) (pod_Namespace (t_Pod t) ++ text "/" ++ pod_Name (t_Pod t)).

(** A slot's group is [None] for [-1]. *)
Record instanceSlot := mkSlot { is_first : nat; group : option nat }.

(** The seen identities and the collisions so far; [None] is an index out of range. *)
Definition scan_one (targets : list ScrapeTarget) (st : option (gmap instanceKey instanceSlot * list InstanceCollision)) (it : nat * ScrapeTarget)
    : option (gmap instanceKey instanceSlot * list InstanceCollision) :=
  '(seen, o) ← st;
  let '(i, t) := it in
  let k := identityOf t in
  match seen !! k with
  | None => Some (<[k := mkSlot i None]> seen, o)
  | Some slot =>
      '(g, seen, o) ← match group slot with
        | Some g => Some (g, seen, o)
        | None => f ← targets !! is_first slot; Some (length o, <[k := mkSlot (is_first slot) (Some (length o))]> seen, o ++ [mkCollision (k.1.1 ++ text "/" ++ k.1.2) k.2 [describeColliding f]])
        end;
      c ← o !! g;
      Some (seen, <[g := mkCollision (Job c) (ic_Address c) (ic_Targets c ++ [describeColliding t])]> o)
  end.

Definition Collisions (targets : list ScrapeTarget) : option (list InstanceCollision) :=
  if Z.of_nat (length targets) <? 2 then Some [] else snd <$> foldl (scan_one targets) (Some (∅, [])) (imap pair targets).

(** ** What it finds *)

Definition members (k : instanceKey) (ts : list ScrapeTarget) : list ScrapeTarget := filter (fun t => identityOf t = k) ts.
Definition group_of (k : instanceKey) (ts : list ScrapeTarget) : InstanceCollision := mkCollision (k.1.1 ++ text "/" ++ k.1.2) k.2 (describeColliding <$> members k ts).

(** The identities in the order in which each is met a second time. *)
Fixpoint seconds (before ts : list ScrapeTarget) : list instanceKey :=
  match ts with
  | [] => []
  | t :: ts => (if decide (length (members (identityOf t) before) = 1%nat) then [identityOf t] else []) ++ seconds (before ++ [t]) ts
  end.

Lemma members_snoc k l t : members k (l ++ [t]) = members k l ++ (if decide (identityOf t = k) then [t] else []).
Proof. unfold members. by rewrite filter_app, filter_cons, filter_nil. Qed.

Lemma seconds_snoc ts t : forall before, seconds before (ts ++ [t]) = seconds before ts ++ (if decide (length (members (identityOf t) (before ++ ts)) = 1%nat) then [identityOf t] else []).
Proof.
  induction ts as [|x ts IH]; intros before; [cbn; by rewrite !app_nil_r|]. change ((x :: ts) ++ [t]) with (x :: (ts ++ [t])). cbn [seconds]. rewrite IH, <- !app_assoc. done.
Qed.

Lemma members_len k p t : length (members k (p ++ [t])) = (length (members k p) + if decide (identityOf t = k) then 1 else 0)%nat.
Proof. rewrite members_snoc, length_app. by case_decide. Qed.

Lemma seconds_in p : forall k, k ∈ seconds [] p <-> (2 <= length (members k p))%nat.
Proof.
  induction p as [|t p IH] using rev_ind; intros k; [cbn; rewrite elem_of_nil; lia|]. rewrite seconds_snoc, elem_of_app, IH, members_len. cbn [app].
  destruct (decide (identityOf t = k)) as [<-|Hne].
  - case_decide; [rewrite list_elem_of_singleton|rewrite elem_of_nil]; [split; [lia|by right]|split; [lia|left; lia]].
  - assert (k ∈ (if decide (length (members (identityOf t) p) = 1%nat) then [identityOf t] else []) <-> False) as -> by (case_decide; set_solver). split; [lia|left; lia].
Qed.

Lemma seconds_once p : NoDup (seconds [] p).
Proof.
  induction p as [|t p IH] using rev_ind; [constructor|]. rewrite seconds_snoc. cbn [app]. case_decide as D; [|by rewrite app_nil_r]. apply NoDup_app. split; [done|]. split; [|apply NoDup_singleton].
  intros k Hk Hx. apply list_elem_of_singleton in Hx as ->. apply seconds_in in Hk. lia.
Qed.

(** The state after a prefix. *)
Record scanned (p : list ScrapeTarget) (seen : gmap instanceKey instanceSlot) (o : list InstanceCollision) : Prop := {
  sc_out : o = (fun k => group_of k p) <$> seconds [] p;
  sc_slot : forall k, match seen !! k with
    | None => members k p = []
    | Some (mkSlot i None) => exists t, p !! i = Some t /\ members k p = [t]
    | Some (mkSlot i (Some g)) => seconds [] p !! g = Some k end }.

Lemma groups_other (l : list instanceKey) p t : identityOf t ∉ l -> (fun k => group_of k (p ++ [t])) <$> l = (fun k => group_of k p) <$> l.
Proof.
  intros Hk. apply Forall_fmap_ext_1, Forall_forall. intros k Hk'. unfold group_of. rewrite members_snoc, decide_False by (intros E; by rewrite E in Hk). by rewrite app_nil_r.
Qed.

Lemma groups_insert (l : list instanceKey) p t g : NoDup l -> l !! g = Some (identityOf t) ->
  <[g := group_of (identityOf t) (p ++ [t])]> ((fun k => group_of k p) <$> l) = (fun k => group_of k (p ++ [t])) <$> l.
Proof.
  intros Nd Hg. apply list_eq. intros j. destruct (decide (g = j)) as [<-|Hne].
  - rewrite list_lookup_insert_eq by (rewrite length_fmap; by eapply lookup_lt_Some). by rewrite list_lookup_fmap, Hg.
  - rewrite list_lookup_insert_ne by done. rewrite !list_lookup_fmap. destruct (l !! j) as [k|] eqn:Hj; [|done]. cbn. f_equal. unfold group_of. rewrite members_snoc, decide_False, app_nil_r; [done|].
    intros E; subst k. by destruct (Hne (NoDup_lookup l g j _ Nd Hg Hj)).
Qed.

(** Another target's identity keeps its slot. *)
Lemma slot_other p t k (s : option instanceSlot) : identityOf t <> k ->
  match s with None => members k p = [] | Some (mkSlot i None) => exists x, p !! i = Some x /\ members k p = [x] | Some (mkSlot i (Some g)) => seconds [] p !! g = Some k end ->
  match s with None => members k (p ++ [t]) = [] | Some (mkSlot i None) => exists x, (p ++ [t]) !! i = Some x /\ members k (p ++ [t]) = [x]
             | Some (mkSlot i (Some g)) => seconds [] (p ++ [t]) !! g = Some k end.
Proof.
  intros Hne. destruct s as [[i [g|]]|].
  - intros Hg. rewrite seconds_snoc. by apply lookup_app_l_Some.
  - intros (x & Hi & Hm). exists x. rewrite members_snoc, decide_False, app_nil_r by done. split; [|done]. by apply lookup_app_l_Some.
  - intros Hm. by rewrite members_snoc, decide_False, app_nil_r.
Qed.

Lemma scan_step targets p t seen o : scanned p seen o -> (exists rest, targets = p ++ t :: rest) ->
  exists seen' o', scan_one targets (Some (seen, o)) (length p, t) = Some (seen', o') /\ scanned (p ++ [t]) seen' o'.
Proof.
  intros [Io Is] [rest Et]. pose proof (Is (identityOf t)) as Ik. cbn [scan_one mbind option_bind].
  assert (Sec : seconds [] (p ++ [t]) = seconds [] p ++ (if decide (length (members (identityOf t) p) = 1%nat) then [identityOf t] else [])) by apply seconds_snoc.
  assert (Snoc : members (identityOf t) (p ++ [t]) = members (identityOf t) p ++ [t]) by (rewrite members_snoc; by rewrite decide_True).
  assert (Fresh : (length (members (identityOf t) p) < 2)%nat -> identityOf t ∉ seconds [] p) by (intros Hl Hin; apply seconds_in in Hin; lia).
  destruct (seen !! identityOf t) as [[i [g|]]|] eqn:Ek.
  - assert (Hin : identityOf t ∈ seconds [] p) by (by eapply list_elem_of_lookup_2). apply seconds_in in Hin. rewrite decide_False, app_nil_r in Sec by lia.
    cbn [group mbind option_bind]. assert (Hg : o !! g = Some (group_of (identityOf t) p)) by (by rewrite Io, list_lookup_fmap, Ik). rewrite Hg. cbn [mbind option_bind]. eexists _, _. split; [done|]. split.
    + rewrite Sec, <- (groups_insert _ p t g (seconds_once p) Ik), <- Io. f_equal. unfold group_of. cbn [Job ic_Address ic_Targets]. by rewrite Snoc, fmap_app.
    + intros k. destruct (decide (identityOf t = k)) as [<-|Hne]; [rewrite Ek; cbv beta iota; rewrite Sec; exact Ik|]. apply slot_other; [done|apply Is].
  - destruct Ik as (x & Hi & Hm). rewrite decide_True in Sec by (by rewrite Hm). specialize (Fresh ltac:(rewrite Hm; cbn; lia)).
    cbn [group is_first]. assert (Hx : targets !! i = Some x) by (rewrite Et; by apply lookup_app_l_Some). rewrite Hx. cbn [mbind option_bind]. rewrite lookup_app_r, Nat.sub_diag by done. cbn [lookup list_lookup mbind option_bind].
    eexists _, _. split; [done|]. split.
    + rewrite Sec, fmap_app, groups_other, <- Io by done. rewrite insert_app_r_alt, Nat.sub_diag by done. cbn. f_equal. unfold group_of. rewrite Snoc, Hm. done.
    + intros k. destruct (decide (identityOf t = k)) as [<-|Hne]; [|rewrite lookup_insert_ne by done; apply slot_other; [done|apply Is]].
      rewrite lookup_insert_eq, Sec. rewrite Io, length_fmap. by rewrite lookup_app_r, Nat.sub_diag.
  - rewrite Ik in Sec. cbn in Sec. rewrite app_nil_r in Sec. specialize (Fresh ltac:(rewrite Ik; cbn; lia)). eexists _, _. split; [done|]. split.
    + by rewrite Sec, groups_other, <- Io.
    + intros k. destruct (decide (identityOf t = k)) as [<-|Hne]; [|rewrite lookup_insert_ne by done; apply slot_other; [done|apply Is]].
      rewrite lookup_insert_eq. exists t. rewrite Snoc, Ik. split; [|done]. by rewrite lookup_app_r, Nat.sub_diag.
Qed.

Lemma scan_all targets ts : forall p seen o, targets = p ++ ts -> scanned p seen o ->
  exists seen' o', foldl (scan_one targets) (Some (seen, o)) (imap (fun i t => ((length p + i)%nat, t)) ts) = Some (seen', o') /\ scanned targets seen' o'.
Proof.
  induction ts as [|t ts IH]; intros p seen o E I; [exists seen, o; rewrite app_nil_r in E; by subst|]. rewrite imap_cons. cbn [foldl]. rewrite Nat.add_0_r.
  destruct (scan_step targets p t seen o I) as (seen1 & o1 & E1 & I1); [by exists ts|]. rewrite E1. destruct (IH (p ++ [t]) seen1 o1) as (seen' & o' & E' & I'); [by rewrite <- app_assoc|done|].
  exists seen', o'. split; [|done]. rewrite <- E'. f_equal. apply imap_ext. intros i x _. cbn. rewrite length_app. cbn. f_equal. lia.
Qed.

Lemma seconds_short ts : (length ts < 2)%nat -> seconds [] ts = [].
Proof. destruct ts as [|x [|y ts]]; [done| |cbn; lia]. intros _. cbn. done. Qed.

Lemma collisions_are ts : Collisions ts = Some ((fun k => group_of k ts) <$> seconds [] ts).
Proof.
  unfold Collisions. destruct (Z.ltb_spec (Z.of_nat (length ts)) 2); [by rewrite seconds_short by lia|].
  destruct (scan_all ts ts [] ∅ [] eq_refl) as (seen & o & E & I); [split; [done|]; intros k; by rewrite lookup_empty|]. cbn [length Nat.add] in E.
  assert (Ei : imap (fun i t => (i, t)) ts = imap pair ts) by done. rewrite Ei in E. rewrite E. cbn. by rewrite (sc_out _ _ _ I).
Qed.

(** C31: The scan is total, and finds exactly the identities that two or more of
    the served targets are exported under: one group for each, with all its
    members in served order, in the order in which the groups got their second
    member. *)
Theorem collisions_exact ts : Collisions ts = Some ((fun k => group_of k ts) <$> seconds [] ts) /\ NoDup (seconds [] ts) /\ (forall k, k ∈ seconds [] ts <-> (2 <= length (members k ts))%nat).
Proof. split; [apply collisions_are|]. split; [apply seconds_once|apply seconds_in]. Qed.
