(* ===== verification/Merge.v ===== *)
(** * Merging monitors into a target ([internal/scrape/merge.go], [docsize.go], [internal/promdur])

    The size of a document as it is charged, the durations of the CRD, and the
    fold of a monitor's endpoint into the target that already holds its URL. *)

From S2P Require Import Prelude Clip Order Number Text KubeMeta KubeMetaSafe Targets.
Local Open Scope Z_scope.

(** ** Sizes ([docsize.go]) *)

Definition MaxTargetBytesPerPod : Z := 262144.
Definition jsonMemberOverhead : Z := 6.
Definition podFixedBytes : Z := 512.
Definition containerFixedBytes : Z := 288.
Definition ownerFixedBytes : Z := 128.
Definition portFixedBytes : Z := 64.
Definition targetFixedBytes : Z := 448.
Definition serviceFixedBytes : Z := 96.
Definition relabelFixedBytes : Z := 64.

Definition entry_bytes (kv : bytes * bytes) : Z := len kv.1 + len kv.2 + jsonMemberOverhead.

(** Addition does not see the order of the map. *)
Definition stringMapBytes (m : strmap) : Z :=
  if bool_decide (m = ∅) then 0 else jsonMemberOverhead + len (text "annotations") + 2 + sumZ (entry_bytes <$> map_to_list m).

Definition objectMetaBytes (m : ObjectMeta) : Z :=
  jsonMemberOverhead + len (text "namespaceMetadata") + 10 + len (o_UID m) + stringMapBytes (o_Labels m) + stringMapBytes (o_Annotations m).

Definition owner_bytes (o : Owner) : Z :=
  ownerFixedBytes + len (APIVersion o) + len (Kind o) + len (Owners.Name o) + len (Owners.UID o) + stringMapBytes (Owners.Labels o) + stringMapBytes (Owners.Annotations o).

Definition container_bytes (c : Container) : Z :=
  containerFixedBytes + len (c_Name c) + len (c_Type c) + len (c_ID c) + len (c_RuntimeID c) + len (c_Image c) + len (c_ImageID c) +
  len (c_State c) + len (c_WaitingReason c) + sumZ ((fun p => portFixedBytes + len (cp_Name p) + len (cp_Protocol p)) <$> c_Ports c).

Definition PodDocBytes (p : Pod) : Z :=
  podFixedBytes + len (pod_Name p) + len (pod_Namespace p) + len (pod_UID p) + len (NodeName p) + len (PodIP p) + len (HostIP p) + len (Phase p) +
  sumZ ((fun ip => len ip + 3) <$> PodIPs p) + (stringMapBytes (pod_Labels p) + stringMapBytes (pod_Annotations p)) +
  (match NamespaceMetadata p with Some m => objectMetaBytes m | None => 0 end) + sumZ (owner_bytes <$> pod_Owners p) + sumZ (container_bytes <$> Containers p).

Definition ServiceViewBytes (s : option View) : Z :=
  match s with
  | None => 0
  | Some s => serviceFixedBytes + len (v_Name s) + len (v_Namespace s) + len (v_UID s) + stringMapBytes (v_Labels s) + stringMapBytes (v_Annotations s)
  end.

Definition auth_bytes (a : ScrapeAuth) : Z :=
  len (AuthSecret a) + len (BasicAuthUser a) + len (BasicAuthPass a) + len (AuthType a) + len (AuthCredentials a) + len (TLSCA a) + len (TLSCert a) +
  len (TLSKey a) + len (TLSServerName a).

Definition rule_bytes (r : RelabelRule) : Z := relabelFixedBytes + len (Action r) + len (Regex r) + sumZ ((fun l => len l + 3) <$> SourceLabels r).

(** Everything but the Service view. *)
Definition base_bytes (t : ScrapeTarget) : Z :=
  targetFixedBytes + len (URL t) + len (Scheme t) + len (Address t) + len (t_Path t) + len (Source t) + len (Monitor t) + auth_bytes (Auth t) +
  len (Interval t) + len (ScrapeTimeout t) + sumZ ((fun m => len m + 3) <$> Monitors t) + sumZ (rule_bytes <$> MetricRelabelings t).

Definition TargetOwnBytes (t : ScrapeTarget) : Z := base_bytes t + ServiceViewBytes (t_Service t).
Definition TargetDocBytes (t : ScrapeTarget) (podBytes : Z) : Z := podBytes + TargetOwnBytes t.

(** [addr] is what the allocation returns. *)
Definition ServiceIdentityView (addr : Z) (s : option View) : option View :=
  match s with None => None | Some s => Some (mkView addr (v_Name s) (v_Namespace s) (v_UID s) ∅ ∅) end.

(** ** Durations ([promdur.go])

    The expression is the units in order, each optional with its digits; the
    digits of one end where its unit begins, so there is one way to match. *)

Fixpoint take_digits (s : bytes) : bytes * bytes :=
  match s with c :: s' => if isDigit c then let '(d, r) := take_digits s' in (c :: d, r) else ([], s) | [] => ([], []) end.

(** [ms] is matched before [m], being what follows the digits. *)
Definition unit_of (s : bytes) : option (nat * bytes) :=
  match s with
  | 121 :: s => Some (0%nat, s)
  | 119 :: s => Some (1%nat, s)
  | 100 :: s => Some (2%nat, s)
  | 104 :: s => Some (3%nat, s)
  | 109 :: 115 :: s => Some (6%nat, s)
  | 109 :: s => Some (4%nat, s)
  | 115 :: s => Some (5%nat, s)
  | _ => None
  end.

(** [FindStringSubmatch]: the digits of each unit present, in order.  Each turn
    takes a byte or more, so the length is fuel enough. *)
Fixpoint match_units (fuel : nat) (from : nat) (s : bytes) : option (list (nat * bytes)) :=
  match s, fuel with
  | [], _ => Some []
  | _, 0%nat => None
  | _, S fuel =>
      let '(d, r) := take_digits s in
      match d, unit_of r with
      | [], _ | _, None => None
      | _, Some (u, r) => if (u <? from)%nat then None else cons (u, d) <$> match_units fuel (S u) r
      end
  end.

Definition units : list Z := [31536000000000000; 604800000000000; 86400000000000; 3600000000000; 60000000000; 1000000000; 1000000].

Fixpoint sum_units (l : list (nat * bytes)) (acc : Z) : option Z :=
  match l with
  | [] => Some acc
  | (i, g) :: l =>
      let u := default 0 (units !! i) in
      match ParseInt g with
      | None => None
      | Some n =>
          if max_int64 / u <? n then None
          else let term := n * u in if max_int64 - term <? acc then None else sum_units l (acc + term)
      end
  end.

Section Durations.
Context `{GoText}.

Definition Parse (s : bytes) : option Z :=
  if bool_decide (s = text "0") then Some 0
  else match match_units (length s) 0 s with None => ParseDuration s | Some l => sum_units l 0 end.

(** [promDuration] is this. *)
Definition Interval_of (s : bytes) : option Z := match Parse s with Some d => if 0 <? d then Some d else None | None => None end.

(** ** The fold ([merge.go]) *)

Definition MaxRelabelChainRules : Z := 128.
Definition MaxRelabelChainBytes : Z := 16384.
Definition MaxContributorsPerTarget : Z := 32.
Definition relabelLabelBytes : Z := 3.

Definition RelabelRuleBytes (r : RelabelRule) : Z := len (Regex r) + sumZ ((fun l => len l + relabelLabelBytes) <$> SourceLabels r).

Record MergeReport := mkReport { AuthAdopted : bool; AuthConflict : bool; RelabelCapped : bool; ContributorsCapped : bool; Bytes : Z }.
Definition noMerge : MergeReport := mkReport false false false false 0.

Definition with_chain (l : list RelabelRule) (t : ScrapeTarget) : ScrapeTarget :=
  mkTarget (URL t) (Scheme t) (Address t) (t_Port t) (t_Path t) (Source t) (t_Service t) (Monitor t) (Monitors t) (Auth t) (Interval t) (ScrapeTimeout t) l (t_Pod t).
Definition with_cadence (i s : bytes) (t : ScrapeTarget) : ScrapeTarget :=
  mkTarget (URL t) (Scheme t) (Address t) (t_Port t) (t_Path t) (Source t) (t_Service t) (Monitor t) (Monitors t) (Auth t) i s (MetricRelabelings t) (t_Pod t).
Definition with_auth (a : ScrapeAuth) (t : ScrapeTarget) : ScrapeTarget :=
  mkTarget (URL t) (Scheme t) (Address t) (t_Port t) (t_Path t) (Source t) (t_Service t) (Monitor t) (Monitors t) a (Interval t) (ScrapeTimeout t) (MetricRelabelings t) (t_Pod t).
Definition with_monitors (l : list bytes) (t : ScrapeTarget) : ScrapeTarget :=
  mkTarget (URL t) (Scheme t) (Address t) (t_Port t) (t_Path t) (Source t) (t_Service t) (Monitor t) l (Auth t) (Interval t) (ScrapeTimeout t) (MetricRelabelings t) (t_Pod t).
Definition with_service (v : option View) (t : ScrapeTarget) : ScrapeTarget :=
  mkTarget (URL t) (Scheme t) (Address t) (t_Port t) (t_Path t) (Source t) v (Monitor t) (Monitors t) (Auth t) (Interval t) (ScrapeTimeout t) (MetricRelabelings t) (t_Pod t).

Definition relabelChainsEqual (a b : list RelabelRule) : bool := bool_decide (a = b).

(** The loop of [appendRelabelChain]: the chain, what it holds, and whether a rule
    was added and one refused. *)
Fixpoint append_rules (chain : list RelabelRule) (held : Z) (add : list RelabelRule) (added : bool) : list RelabelRule * (bool * bool) :=
  match add with
  | [] => (chain, (added, false))
  | r :: add =>
      if MaxRelabelChainRules <=? Z.of_nat (length chain) then (chain, (added, true))
      else
        let n := RelabelRuleBytes r in
        if MaxRelabelChainBytes <? held + n then (chain, (added, true)) else append_rules (chain ++ [r]) (held + n) add true
  end.

Definition appendRelabelChain (t : ScrapeTarget) (add : list RelabelRule) : ScrapeTarget * (bool * bool) :=
  let '(chain, r) := append_rules (MetricRelabelings t) (sumZ (RelabelRuleBytes <$> MetricRelabelings t)) add false in (with_chain chain t, r).

Definition mergeCadence (t : ScrapeTarget) (ep : Endpoint) : ScrapeTarget * bool :=
  let adopt := (with_cadence (ep_Interval ep) (ep_ScrapeTimeout ep) t, true) in
  if bool_decide (ep_Interval ep = []) && bool_decide (Interval t = []) then
    if bool_decide (ScrapeTimeout t = []) && negb (bool_decide (ep_ScrapeTimeout ep = [])) then (with_cadence (Interval t) (ep_ScrapeTimeout ep) t, true) else (t, false)
  else if bool_decide (ep_Interval ep = []) then (t, false)
  else if bool_decide (Interval t = []) then adopt
  else if bool_decide (Interval t = ep_Interval ep) then (t, false)
  else match Interval_of (Interval t), Interval_of (ep_Interval ep) with
       | Some held, Some asked => if held <=? asked then (t, false) else adopt
       | _, _ => (t, false)
       end.

Definition addContributor (t : ScrapeTarget) (monitor : bytes) : ScrapeTarget * bool :=
  if bool_decide (Monitors t = []) && bool_decide (monitor = Monitor t) then (t, false)
  else
    let t := if bool_decide (Monitors t = []) then with_monitors [Monitor t] t else t in
    if bool_decide (monitor ∈ Monitors t) then (t, false)
    else if MaxContributorsPerTarget <=? Z.of_nat (length (Monitors t)) then (t, true)
    else (with_monitors (Monitors t ++ [monitor]) t, false).

Definition merge_chain (t : ScrapeTarget) (ep : Endpoint) : ScrapeTarget * (bool * bool) :=
  if negb (bool_decide (ep_MetricRelabelings ep = [])) && negb (relabelChainsEqual (MetricRelabelings t) (ep_MetricRelabelings ep))
  then appendRelabelChain t (ep_MetricRelabelings ep) else (t, (false, false)).

(** The target, whether the group was adopted and whether it conflicts. *)
Definition merge_auth (t : ScrapeTarget) (ep : Endpoint) : ScrapeTarget * (bool * bool) :=
  if bool_decide (ep_Auth ep = noAuth) then (t, (false, false))
  else if bool_decide (Auth t = noAuth) then (with_auth (ep_Auth ep) t, (true, false))
  else if bool_decide (Auth t = ep_Auth ep) then (t, (false, false))
  else (t, (false, true)).

Definition bare (ep : Endpoint) : bool :=
  bool_decide (ep_MetricRelabelings ep = []) && bool_decide (ep_Interval ep = []) && bool_decide (ep_ScrapeTimeout ep = []) && bool_decide (ep_Auth ep = noAuth).

Definition MergeMonitorEndpoint (t : ScrapeTarget) (monitor : bytes) (ep : Endpoint) : ScrapeTarget * MergeReport :=
  if bare ep then (t, noMerge)
  else
    let before := TargetOwnBytes t in
    let '(t, (added, relabelCapped)) := merge_chain t ep in
    let '(t, cadence) := mergeCadence t ep in
    let '(t, (adopted, conflict)) := merge_auth t ep in
    let '(t, contributorsCapped) := if added || cadence || adopted then addContributor t monitor else (t, false) in
    (t, mkReport adopted conflict relabelCapped contributorsCapped (TargetOwnBytes t - before)).

End Durations.

(** * What a merge keeps ([internal/scrape/merge.go], [internal/promdur])

    A monitor's endpoint that meets a target holding its URL is honoured group
    by group or reported; the ceilings hold; the finest cadence wins; and a
    duration is its exact value or refused. *)


(** ** Durations *)

(** The digits of a number of any size. *)
Definition term_value (u : nat * bytes) : Z := digits_value 0 u.2 * default 0 (units !! u.1).
Definition well_formed (l : list (nat * bytes)) : Prop := Forall (fun u : nat * bytes => u.2 <> [] /\ forallb isDigit u.2 = true /\ (u.1 < 7)%nat) l.

Lemma ParseInt_digits s : s <> [] -> forallb isDigit s = true -> ParseInt s = if digits_value 0 s <=? max_int64 then Some (digits_value 0 s) else None.
Proof.
  intros Hne Hs. pose proof (digits_value_grows s 0 ltac:(lia) Hs). unfold ParseInt. destruct s as [|c s]; [done|].
  assert (sign_of (c :: s) = (false, c :: s)) as ->.
  { cbn in Hs. apply andb_true_iff in Hs as [Hc _]. apply isDigit_range in Hc. unfold sign_of. destruct c as [|p|p]; try lia. do 6 (destruct p as [p|p|]; try lia; try done). }
  rewrite Hs. cbv zeta. case_decide as D; destruct (Z.leb_spec (digits_value 0 (c :: s)) max_int64); try done; unfold min_int64, max_int64 in *; lia.
Qed.

Lemma unit_pos i : (i < 7)%nat -> exists u, units !! i = Some u /\ 1 <= u.
Proof. intros Hi. do 7 (destruct i as [|i]; [by eexists|]). lia. Qed.

Lemma terms_nonneg l : well_formed l -> 0 <= sumZ (term_value <$> l).
Proof.
  induction 1 as [|u l (Hne & Hd & Hu) _ IH]; [done|]. rewrite fmap_cons, sumZ_cons. unfold term_value at 1. destruct (unit_pos _ Hu) as (x & -> & Hx). cbn [default].
  pose proof (digits_value_grows u.2 0 ltac:(lia) Hd). unfold id. nia.
Qed.

(** Each step refuses what the exact sum could not hold, and nothing else. *)
Lemma sum_units_exact l : forall acc, well_formed l -> 0 <= acc <= max_int64 ->
  sum_units l acc = if acc + sumZ (term_value <$> l) <=? max_int64 then Some (acc + sumZ (term_value <$> l)) else None.
Proof.
  induction l as [|[i g] l IH]; intros acc W Ha; cbn [sum_units].
  { change (sumZ (term_value <$> [])) with 0. rewrite Z.add_0_r. destruct (Z.leb_spec acc max_int64); [done|lia]. }
  apply Forall_cons in W as [(Hne & Hd & Hu) W]. cbn [fst snd] in *. rewrite fmap_cons, sumZ_cons. unfold term_value at 1 3. cbn [fst snd].
  destruct (unit_pos _ Hu) as (u & -> & Hu1). cbn [default]. unfold id. pose proof (terms_nonneg l W) as Hl. pose proof (digits_value_grows g 0 ltac:(lia) Hd) as Hg.
  rewrite ParseInt_digits by done. set (n := digits_value 0 g) in *. set (r := sumZ (term_value <$> l)) in *.
  destruct (Z.leb_spec n max_int64) as [Hn|Hn]; [|destruct (Z.leb_spec (acc + (n * u + r)) max_int64); [nia|done]].
  pose proof (Z.div_mod max_int64 u ltac:(lia)) as Dm. pose proof (Z.mod_pos_bound max_int64 u ltac:(lia)) as Mb.
  destruct (Z.ltb_spec (max_int64 / u) n) as [Hov|Hok]; [destruct (Z.leb_spec (acc + (n * u + r)) max_int64); [nia|done]|].
  assert (n * u <= max_int64) by nia.
  destruct (Z.ltb_spec (max_int64 - n * u) acc); [destruct (Z.leb_spec (acc + (n * u + r)) max_int64); [lia|done]|].
  rewrite IH by (done || nia). fold r. by rewrite <- !Z.add_assoc.
Qed.

Lemma take_digits_spec s : forallb isDigit (take_digits s).1 = true.
Proof. induction s as [|c s IH]; [done|]. cbn. destruct (isDigit c) eqn:E; [|done]. destruct (take_digits s) as [d r]. cbn in *. by rewrite E. Qed.

Lemma unit_of_lt s u r : unit_of s = Some (u, r) -> (u < 7)%nat.
Proof.
  unfold unit_of. intros E. repeat (match type of E with context [match ?x with _ => _ end] => destruct x end; try done); injection E as <- _; lia.
Qed.

Lemma match_units_spec fuel : forall from s l, match_units fuel from s = Some l -> well_formed l.
Proof.
  induction fuel as [|fuel IH]; intros from s l; destruct s as [|c s]; cbn [match_units]; try done; try (intros [= <-]; constructor).
  pose proof (take_digits_spec (c :: s)) as T. destruct (take_digits (c :: s)) as [d r]. cbn [fst] in T. destruct d as [|x d]; [done|].
  destruct (unit_of r) as [[u r']|] eqn:Eu; [|done]. destruct (u <? from)%nat; [done|]. destruct (match_units fuel (S u) r') as [l'|] eqn:E; [|done].
  intros [= <-]. constructor; [|by eapply IH]. cbn [fst snd]. split_and!; [done|done|by eapply unit_of_lt].
Qed.

Section Merging.
Context `{GoText}.

(** ** One merge, group by group *)

Lemma append_rules_spec add : forall chain held added, held = sumZ (RelabelRuleBytes <$> chain) ->
  let '(chain', (added', capped)) := append_rules chain held add added in
  exists k, chain' = chain ++ take k add /\ (k <= length add)%nat /\ added' = (added || (0 <? k)%nat) /\
  (capped = false -> k = length add) /\
  (capped = true -> exists r, add !! k = Some r /\ (MaxRelabelChainRules <= Z.of_nat (length chain') \/ MaxRelabelChainBytes < sumZ (RelabelRuleBytes <$> (chain' ++ [r])))) /\
  (Z.of_nat (length chain) <= MaxRelabelChainRules -> Z.of_nat (length chain') <= MaxRelabelChainRules) /\
  (held <= MaxRelabelChainBytes -> sumZ (RelabelRuleBytes <$> chain') <= MaxRelabelChainBytes).
Proof.
  induction add as [|r add IH]; intros chain held added Hh; cbn [append_rules].
  { exists 0%nat. rewrite app_nil_r, orb_false_r. split_and!; try done. by subst. }
  destruct (Z.leb_spec MaxRelabelChainRules (Z.of_nat (length chain))).
  { exists 0%nat. rewrite app_nil_r, orb_false_r. split_and!; try done; [lia|intros _; exists r; split; [done|by left]|by subst]. }
  destruct (Z.ltb_spec MaxRelabelChainBytes (held + RelabelRuleBytes r)).
  { exists 0%nat. rewrite app_nil_r, orb_false_r. split_and!; try done; [lia|intros _; exists r; split; [done|right]|by subst].
    rewrite fmap_app, sumZ_app. change (sumZ (RelabelRuleBytes <$> [r])) with (RelabelRuleBytes r + 0). lia. }
  specialize (IH (chain ++ [r]) (held + RelabelRuleBytes r) true). destruct (append_rules _ _ _ _) as [chain' [added' capped]].
  destruct IH as (k & I1 & I2 & I3 & I4 & I5 & I6 & I7).
  { rewrite fmap_app, sumZ_app. change (sumZ (RelabelRuleBytes <$> [r])) with (RelabelRuleBytes r + 0). lia. }
  exists (S k). cbn [take length]. rewrite <- app_assoc in I1. split_and!; [done|lia|subst; by rewrite orb_true_r|intros; f_equal; auto|done| |].
  - intros _. apply I6. rewrite length_app. cbn [length]. lia.
  - intros _. apply I7. lia.
Qed.

Definition same_scrape (t t' : ScrapeTarget) : Prop :=
  (URL t', Scheme t', Address t', t_Port t', t_Path t', Source t') = (URL t, Scheme t, Address t, t_Port t, t_Path t, Source t) /\
  (t_Service t', Monitor t', t_Pod t') = (t_Service t, Monitor t, t_Pod t).

#[local] Instance same_scrape_preorder : PreOrder same_scrape.
Proof. split; [done|]. intros t1 t2 t3 [A B] [A' B']. split; congruence. Qed.

(** What a group of the merge leaves to the others. *)
Lemma merge_chain_spec t ep : let '(t', (added, capped)) := merge_chain t ep in
  same_scrape t t' /\ (Monitors t', Auth t', Interval t', ScrapeTimeout t') = (Monitors t, Auth t, Interval t, ScrapeTimeout t) /\
  (exists k, MetricRelabelings t' = MetricRelabelings t ++ take k (ep_MetricRelabelings ep) /\
    (capped = false -> MetricRelabelings t = ep_MetricRelabelings ep \/ (length (ep_MetricRelabelings ep) <= k)%nat) /\
    (capped = true -> exists r, ep_MetricRelabelings ep !! k = Some r /\ (MaxRelabelChainRules <= Z.of_nat (length (MetricRelabelings t')) \/ MaxRelabelChainBytes < sumZ (RelabelRuleBytes <$> (MetricRelabelings t' ++ [r])))) /\
    (added = false -> MetricRelabelings t' = MetricRelabelings t)) /\
  (Z.of_nat (length (MetricRelabelings t)) <= MaxRelabelChainRules -> Z.of_nat (length (MetricRelabelings t')) <= MaxRelabelChainRules) /\
  (sumZ (RelabelRuleBytes <$> MetricRelabelings t) <= MaxRelabelChainBytes -> sumZ (RelabelRuleBytes <$> MetricRelabelings t') <= MaxRelabelChainBytes).
Proof.
  unfold merge_chain, relabelChainsEqual. case_bool_decide as E1; cbn [negb andb].
  { split_and!; try done. exists 0%nat. rewrite app_nil_r. split_and!; try done. intros _. right. by rewrite E1. }
  case_bool_decide as E2; cbn [negb].
  { split_and!; try done. exists 0%nat. rewrite app_nil_r. split_and!; try done. intros _. by left. }
  unfold appendRelabelChain. pose proof (append_rules_spec (ep_MetricRelabelings ep) (MetricRelabelings t) _ false eq_refl) as A.
  destruct (append_rules _ _ _ _) as [chain' [added capped]]. destruct A as (k & A1 & A2 & A3 & A4 & A5 & A6 & A7). cbn [with_chain MetricRelabelings].
  split_and!; try done. exists k. split_and!; [done|intros Hc; right; rewrite (A4 Hc); done| |].
  - intros Hc. destruct (A5 Hc) as (r & Hr & Hb). by exists r.
  - intros ->. destruct (Nat.ltb_spec 0 k); [done|]. assert (k = 0%nat) as -> by lia. by rewrite A1, app_nil_r.
Qed.

Lemma mergeCadence_spec t ep : let '(t', adopted) := mergeCadence t ep in
  same_scrape t t' /\ (Monitors t', Auth t', MetricRelabelings t') = (Monitors t, Auth t, MetricRelabelings t) /\
  (((Interval t', ScrapeTimeout t') = (Interval t, ScrapeTimeout t)) \/ (adopted = true /\ (Interval t', ScrapeTimeout t') = (ep_Interval ep, ep_ScrapeTimeout ep))) /\
  (forall a, Interval_of (Interval t) = Some a -> Interval_of (Interval t') = Some (match Interval_of (ep_Interval ep) with Some b => Z.min a b | None => a end)) /\
  (Interval t = [] -> Interval t' = ep_Interval ep).
Proof.
  assert (Nil : Interval_of [] = None) by done. unfold mergeCadence. case_bool_decide as E1; cbn [andb].
  - case_bool_decide as E2.
    + assert (Hv : forall a, Interval_of (Interval t) = Some a -> Interval_of (Interval t) = Some (match Interval_of (ep_Interval ep) with Some b => Z.min a b | None => a end)) by (intros a; by rewrite E2, Nil).
      destruct (_ && _).
      * split; [done|]. split; [done|]. split; [right; split; [done|]; cbn; by rewrite E1, E2|]. split; [exact Hv|]. intros _. cbn. by rewrite E1, E2.
      * split; [done|]. split; [done|]. split; [by left|]. split; [exact Hv|]. intros _. by rewrite E1, E2.
    + split; [done|]. split; [done|]. split; [by left|]. split; [|done]. intros a. by rewrite E1, Nil.
  - case_bool_decide as E2.
    + split; [done|]. split; [done|]. split; [by right|]. split; [|done]. intros a. by rewrite E2, Nil.
    + case_bool_decide as E3.
      * split; [done|]. split; [done|]. split; [by left|]. split; [|done]. intros a Ha. rewrite <- E3, Ha. f_equal. lia.
      * destruct (Interval_of (Interval t)) as [a|] eqn:Ea; [|split; [done|]; split; [done|]; split; [by left|done]].
        destruct (Interval_of (ep_Interval ep)) as [b|] eqn:Eb.
        -- destruct (Z.leb_spec a b); (split; [done|]; split; [done|]; split; [|split; [|done]]).
           ++ by left.
           ++ intros ? [= <-]. rewrite Ea. f_equal. lia.
           ++ by right.
           ++ intros ? [= <-]. cbn. rewrite Eb. f_equal. lia.
        -- split; [done|]. split; [done|]. split; [by left|]. split; [|done]. intros ? [= <-]. by rewrite Ea.
Qed.

Lemma merge_auth_spec t ep : let '(t', (adopted, conflict)) := merge_auth t ep in
  same_scrape t t' /\ (Monitors t', MetricRelabelings t', Interval t', ScrapeTimeout t') = (Monitors t, MetricRelabelings t, Interval t, ScrapeTimeout t) /\
  Auth t' = (if decide (Auth t = noAuth) then ep_Auth ep else Auth t) /\ (adopted = false -> Auth t' = Auth t) /\
  (conflict = true <-> Auth t <> noAuth /\ ep_Auth ep <> noAuth /\ Auth t <> ep_Auth ep).
Proof.
  unfold merge_auth. case_bool_decide as E1; [|case_bool_decide as E2; [|case_bool_decide as E3]].
  - split_and!; try done; [case_decide; congruence|split; [done|tauto]].
  - split_and!; try done; [by rewrite decide_True|split; [done|tauto]].
  - split_and!; try done; [by rewrite decide_False|split; [done|tauto]].
  - split_and!; try done; by rewrite decide_False.
Qed.

Lemma addContributor_spec t monitor : let '(t', capped) := addContributor t monitor in
  same_scrape t t' /\ (MetricRelabelings t', Auth t', Interval t', ScrapeTimeout t') = (MetricRelabelings t, Auth t, Interval t, ScrapeTimeout t) /\
  (capped = true \/ monitor = Monitor t \/ monitor ∈ Monitors t') /\
  (Z.of_nat (length (Monitors t)) <= MaxContributorsPerTarget -> Z.of_nat (length (Monitors t')) <= MaxContributorsPerTarget) /\
  (NoDup (Monitors t) -> NoDup (Monitors t')).
Proof.
  unfold addContributor. case_bool_decide as E1; cbn [andb].
  - case_bool_decide as E2; [split_and!; try done; by right; left|]. cbn [with_monitors Monitors].
    rewrite bool_decide_eq_false_2 by (rewrite list_elem_of_singleton; done). cbn. split_and!; try done; [right; right; set_solver|].
    intros _. apply NoDup_cons. split; [|apply NoDup_singleton]. rewrite list_elem_of_singleton. congruence.
  - case_bool_decide as E2; [split_and!; try done; by right; right|]. destruct (Z.leb_spec MaxContributorsPerTarget (Z.of_nat (length (Monitors t)))).
    + split_and!; try done. by left.
    + cbn. split_and!; try done; [right; right; set_solver|intros _; rewrite length_app; cbn; lia|]. intros Nd. apply NoDup_app. split_and!; [done|set_solver|apply NoDup_singleton].
Qed.

(** A group that says it contributed has changed the target. *)
Lemma chain_gate t ep : MetricRelabelings t = ep_MetricRelabelings ep -> merge_chain t ep = (t, (false, false)).
Proof. intros E. unfold merge_chain, relabelChainsEqual. rewrite (bool_decide_eq_true_2 (MetricRelabelings t = _)) by done. cbn. by rewrite andb_false_r. Qed.

Lemma chain_moves t ep : (merge_chain t ep).2.1 = true -> MetricRelabelings (merge_chain t ep).1 <> MetricRelabelings t.
Proof.
  unfold merge_chain. destruct (_ && _); [|done]. unfold appendRelabelChain. pose proof (append_rules_spec (ep_MetricRelabelings ep) (MetricRelabelings t) _ false eq_refl) as A.
  destruct (append_rules _ _ _ _) as [chain' [added capped]]. destruct A as (k & -> & Hk & -> & _). cbn [fst snd orb with_chain MetricRelabelings]. intros Hlt%Nat.ltb_lt E. apply (f_equal length) in E. rewrite length_app, length_take in E. lia.
Qed.

Lemma cadence_moves t ep : (mergeCadence t ep).2 = true -> (Interval (mergeCadence t ep).1, ScrapeTimeout (mergeCadence t ep).1) <> (Interval t, ScrapeTimeout t).
Proof.
  unfold mergeCadence. case_bool_decide as E1; cbn [andb]; case_bool_decide as E2; try done.
  - case_bool_decide as E3; cbn [andb]; [|done]. case_bool_decide as E4; cbn; [done|]. intros _ [=]. congruence.
  - intros _. cbn. intros [=]. congruence.
  - case_bool_decide as E3; [done|]. destruct (Interval_of (Interval t)), (Interval_of (ep_Interval ep)); try done. destruct (_ <=? _); [done|]. cbn. intros _ [=]. congruence.
Qed.

Lemma auth_adopts t ep : (merge_auth t ep).2.1 = true <-> Auth t = noAuth /\ ep_Auth ep <> noAuth.
Proof. unfold merge_auth. case_bool_decide; [|case_bool_decide; [|case_bool_decide]]; cbn; split; try done; tauto. Qed.

(** What a target may carry of what merges grow. *)
Definition within (t : ScrapeTarget) : Prop :=
  Z.of_nat (length (MetricRelabelings t)) <= MaxRelabelChainRules /\ sumZ (RelabelRuleBytes <$> MetricRelabelings t) <= MaxRelabelChainBytes /\
  Z.of_nat (length (Monitors t)) <= MaxContributorsPerTarget /\ NoDup (Monitors t).

(** What a merge does to each group, and what it must have said. *)
Record honoured (t : ScrapeTarget) (monitor : bytes) (ep : Endpoint) (t' : ScrapeTarget) (rep : MergeReport) : Prop := {
  hn_same : same_scrape t t';
  hn_chain : exists k, MetricRelabelings t' = MetricRelabelings t ++ take k (ep_MetricRelabelings ep) /\
    (RelabelCapped rep = false -> MetricRelabelings t = ep_MetricRelabelings ep \/ (length (ep_MetricRelabelings ep) <= k)%nat) /\
    (RelabelCapped rep = true -> exists r, ep_MetricRelabelings ep !! k = Some r /\
      (MaxRelabelChainRules <= Z.of_nat (length (MetricRelabelings t')) \/ MaxRelabelChainBytes < sumZ (RelabelRuleBytes <$> (MetricRelabelings t' ++ [r]))));
  hn_held : MetricRelabelings t = ep_MetricRelabelings ep -> MetricRelabelings t' = MetricRelabelings t /\ RelabelCapped rep = false;
  hn_adopted : AuthAdopted rep = true <-> Auth t = noAuth /\ ep_Auth ep <> noAuth;
  hn_unnamed : (MetricRelabelings t', Auth t', Interval t', ScrapeTimeout t') = (MetricRelabelings t, Auth t, Interval t, ScrapeTimeout t) ->
    Monitors t' = Monitors t /\ ContributorsCapped rep = false;
  hn_auth : Auth t' = if decide (Auth t = noAuth) then ep_Auth ep else Auth t;
  hn_conflict : AuthConflict rep = true <-> Auth t <> noAuth /\ ep_Auth ep <> noAuth /\ Auth t <> ep_Auth ep;
  hn_cadence : (Interval t', ScrapeTimeout t') = (Interval t, ScrapeTimeout t) \/ (Interval t', ScrapeTimeout t') = (ep_Interval ep, ep_ScrapeTimeout ep);
  hn_finer : forall a, Interval_of (Interval t) = Some a -> Interval_of (Interval t') = Some (match Interval_of (ep_Interval ep) with Some b => Z.min a b | None => a end);
  hn_named : (MetricRelabelings t', Auth t', Interval t', ScrapeTimeout t') <> (MetricRelabelings t, Auth t, Interval t, ScrapeTimeout t) ->
    ContributorsCapped rep = true \/ monitor = Monitor t \/ monitor ∈ Monitors t';
  hn_bytes : Bytes rep = TargetOwnBytes t' - TargetOwnBytes t;
  hn_within : within t -> within t' }.

Lemma merge_is_honoured t monitor ep : let '(t', rep) := MergeMonitorEndpoint t monitor ep in honoured t monitor ep t' rep.
Proof.
  unfold MergeMonitorEndpoint. destruct (bare ep) eqn:B.
  { unfold bare in B. rewrite !andb_true_iff, !bool_decide_eq_true in B. destruct B as [[[B1 B2] B3] B4]. split; try done.
    - exists 0%nat. rewrite B1, app_nil_r. split; [done|]. split; [by right|done].
    - split; [done|]. by intros [_ ?].
    - rewrite B4. by case_decide.
    - rewrite B4. split; [done|tauto].
    - by left.
    - intros a Ha. by rewrite B2.
    - cbn. lia. }
  pose proof (chain_gate t ep) as G1. pose proof (chain_moves t ep) as V1. pose proof (merge_chain_spec t ep) as C. destruct (merge_chain t ep) as [t1 [added capped]]. destruct C as (S1 & F1 & (k & K1 & K2 & K3 & K4) & W1 & W2).
  pose proof (cadence_moves t1 ep) as V2. pose proof (mergeCadence_spec t1 ep) as C. destruct (mergeCadence t1 ep) as [t2 cadence]. destruct C as (S2 & F2 & D2 & G2 & _).
  pose proof (auth_adopts t2 ep) as V3. pose proof (merge_auth_spec t2 ep) as C. destruct (merge_auth t2 ep) as [t3 [adopted conflict]]. destruct C as (S3 & F3 & A3 & N3 & X3).
  injection F1 as M1 Au1 I1 T1. injection F2 as M2 Au2 R2. injection F3 as M3 R3 I3 T3.
  assert (Same : same_scrape t t3) by (etrans; [exact S1|]; by etrans).
  assert (End : forall t4 c, same_scrape t3 t4 -> (MetricRelabelings t4, Auth t4, Interval t4, ScrapeTimeout t4) = (MetricRelabelings t3, Auth t3, Interval t3, ScrapeTimeout t3) ->
    (added || cadence || adopted = false -> Monitors t4 = Monitors t3 /\ c = false) ->
    (added || cadence || adopted = true -> c = true \/ monitor = Monitor t3 \/ monitor ∈ Monitors t4) ->
    (Z.of_nat (length (Monitors t3)) <= MaxContributorsPerTarget -> Z.of_nat (length (Monitors t4)) <= MaxContributorsPerTarget) ->
    (NoDup (Monitors t3) -> NoDup (Monitors t4)) -> honoured t monitor ep t4 (mkReport adopted conflict capped c (TargetOwnBytes t4 - TargetOwnBytes t))).
  { cbn [fst snd] in V1, V2, V3. intros t4 c S4 F4 Un Nm Lm Dm. injection F4 as R4 Au4 I4 T4. split; cbn [AuthAdopted AuthConflict RelabelCapped ContributorsCapped Bytes].
    - by etrans.
    - exists k. rewrite R4, R3, R2. split; [done|]. split; [done|]. intros Hc. destruct (K3 Hc) as (r & Hr & Hb). by exists r.
    - intros E. specialize (G1 E). injection G1 as -> _ ->. by rewrite R4, R3, R2.
    - rewrite V3, Au2, Au1. done.
    - rewrite R4, R3, R2, Au4, I4, I3, T4, T3. intros [= Er Ea Ei Et]. rewrite <- M1, <- M2, <- M3. apply Un. rewrite !orb_false_iff. split_and!.
      + destruct added; [by destruct (V1 eq_refl)|done].
      + destruct cadence; [destruct (V2 eq_refl); by rewrite Ei, Et, I1, T1|done].
      + destruct adopted; [|done]. destruct (proj1 V3 eq_refl) as [Hn He]. rewrite A3, Hn, decide_True in Ea by done. rewrite Au2, Au1 in Hn. congruence.
    - rewrite Au4, A3, Au2, Au1. done.
    - rewrite X3, Au2, Au1. done.
    - rewrite I4, T4, I3, T3. destruct D2 as [-> |[_ ->]]; [left; by rewrite I1, T1|by right].
    - intros a Ha. rewrite I4, I3. apply G2. by rewrite I1.
    - intros Hne. destruct (added || cadence || adopted) eqn:Ec.
      + destruct Same as [_ [= _ Em _]]. rewrite <- Em. by apply Nm.
      + exfalso. rewrite !orb_false_iff in Ec. destruct Ec as [[-> ->] ->]. apply Hne. rewrite R4, R3, R2, (K4 eq_refl), Au4, (N3 eq_refl), Au2, Au1, I4, I3, T4, T3.
        destruct D2 as [D2|[? _]]; [|done]. injection D2 as -> ->. by rewrite I1, T1.
    - done.
    - intros (B1 & B2 & B3 & B4). unfold within. rewrite R4, R3, R2. split_and!; [auto|auto|apply Lm; by rewrite M3, M2, M1|apply Dm; by rewrite M3, M2, M1]. }
  destruct (added || cadence || adopted) eqn:Ec.
  - pose proof (addContributor_spec t3 monitor) as C. destruct (addContributor t3 monitor) as [t4 c]. destruct C as (S4 & F4 & N4 & L4 & U4). by apply End; try congruence.
  - apply End; try done.
Qed.

(** C17: A second monitor's endpoint that meets a target of its URL is honoured
    group by group or reported: its relabel rules follow the target's as far as
    the two ceilings allow, but for a chain equal to the target's, which is not
    appended, and a report is made exactly when the next one would pass a
    ceiling; its auth is adopted whole, which is reported exactly when the target
    had none and the endpoint has, or the target's kept whole, and differing
    material is reported; interval and timeout travel as the pair they
    were declared as; a monitor that changed anything is listed or the refusal
    reported, and one that changed nothing is neither; nothing else of the target
    changes, the growth reported is exact, and a target within the ceilings stays
    within them. *)
Theorem merge_honoured t monitor ep : let '(t', rep) := MergeMonitorEndpoint t monitor ep in honoured t monitor ep t' rep.
Proof. apply merge_is_honoured. Qed.

Definition merges (t : ScrapeTarget) (l : list (bytes * Endpoint)) : ScrapeTarget := foldl (fun t me => (MergeMonitorEndpoint t me.1 me.2).1) t l.


End Merging.
