(* ===== verification/Dedup.v ===== *)
(** * The targets of one pod ([internal/server/targetdedup.go], [monitoroffers.go])

    The accumulator every door offers to, in the order they offer: one target per
    URL, under a count ceiling and a byte ceiling.  A Go [*kubemeta.Service] is a
    [View] with its address, so two pointers are equal exactly when their views
    are.  An index out of range would panic: that is [None], and so is everything
    after it. *)

From S2P Require Import Prelude Clip Number Text Order KubeMeta Targets Merge.
Local Open Scope Z_scope.

#[export] Instance View_eq_dec : EqDecision View.
Proof. solve_decision. Defined.

Inductive targetVerdict := targetAccepted | targetRefusedCount | targetRefusedBytes.
Definition ok (v : targetVerdict) : bool := match v with targetAccepted => true | _ => false end.

Record viewTrim := mkTrim { trim_url : bytes; trim_svc : option View }.

(** [out] is the whole slice, of which [base] and up is the pod's; [spent] is the
    source's [bytes]; [counted] is the counter of refusals, and [next] the next
    free address. *)
Record targetDedup := mkDedup {
  out : list ScrapeTarget;
  urlOwner : gmap bytes nat;
  authOwner : gmap bytes bytes;
  base : nat;
  capped : Z;
  cappedBySize : Z;
  podBytes : Z;
  spent : Z;
  diagnostic : bool;
  contribCapReported : gset (bytes * bytes);
  trimmed : list viewTrim;
  counted : Z;
  next : Z }.

Definition set_out (v : list ScrapeTarget) (x : targetDedup) : targetDedup := mkDedup v (urlOwner x)
  (authOwner x) (base x) (capped x) (cappedBySize x) (podBytes x) (spent x) (diagnostic x)
  (contribCapReported x) (trimmed x) (counted x) (next x).
Definition set_authOwner (v : gmap bytes bytes) (x : targetDedup) : targetDedup := mkDedup (out x)
  (urlOwner x) v (base x) (capped x) (cappedBySize x) (podBytes x) (spent x) (diagnostic x)
  (contribCapReported x) (trimmed x) (counted x) (next x).
Definition set_podBytes (v : Z) (x : targetDedup) : targetDedup := mkDedup (out x) (urlOwner x)
  (authOwner x) (base x) (capped x) (cappedBySize x) v (spent x) (diagnostic x) (contribCapReported
  x) (trimmed x) (counted x) (next x).
Definition set_spent (v : Z) (x : targetDedup) : targetDedup := mkDedup (out x) (urlOwner x)
  (authOwner x) (base x) (capped x) (cappedBySize x) (podBytes x) v (diagnostic x)
  (contribCapReported x) (trimmed x) (counted x) (next x).
Definition set_contribCapReported (v : gset (bytes * bytes)) (x : targetDedup) : targetDedup :=
  mkDedup (out x) (urlOwner x) (authOwner x) (base x) (capped x) (cappedBySize x) (podBytes x)
  (spent x) (diagnostic x) v (trimmed x) (counted x) (next x).
Definition set_trimmed (v : list viewTrim) (x : targetDedup) : targetDedup := mkDedup (out x)
  (urlOwner x) (authOwner x) (base x) (capped x) (cappedBySize x) (podBytes x) (spent x) (diagnostic
  x) (contribCapReported x) v (counted x) (next x).
Definition set_next (v : Z) (x : targetDedup) : targetDedup := mkDedup (out x) (urlOwner x)
  (authOwner x) (base x) (capped x) (cappedBySize x) (podBytes x) (spent x) (diagnostic x)
  (contribCapReported x) (trimmed x) (counted x) v.

Definition reset (o : list ScrapeTarget) (d : targetDedup) : targetDedup :=
  mkDedup o ∅ ∅ (length o) 0 0 0 0 (diagnostic d) ∅ [] (counted d) (next d).

Definition firstContribCap (kind url : bytes) (d : targetDedup) : bool * targetDedup :=
  if bool_decide ((kind, url) ∈ contribCapReported d) then (false, d)
  else (true, set_contribCapReported ({[ (kind, url) ]} ∪ contribCapReported d) d).

Definition adoptedAuth (url monitor : bytes) (d : targetDedup) : targetDedup := set_authOwner (<[url := monitor]> (authOwner d)) d.
Definition servingAuth (url holder : bytes) (d : targetDedup) : bytes := default holder (authOwner d !! url).

Definition charge (n : Z) (d : targetDedup) : targetDedup := set_spent (spent d + n) d.
Definition chargeSwap (grown : Z) (d : targetDedup) : targetDedup := if 0 <? grown then set_spent (spent d + grown) d else d.

Definition refuse (v : targetVerdict) (d : targetDedup) : targetVerdict * targetDedup :=
  (v, mkDedup (out d) (urlOwner d) (authOwner d) (base d) (capped d + 1)
        (match v with targetRefusedBytes => cappedBySize d + 1 | _ => cappedBySize d end)
        (podBytes d) (spent d) (diagnostic d) (contribCapReported d) (trimmed d) (if diagnostic d then counted d else counted d + 1) (next d)).

Definition carryForward (winner loser : ScrapeTarget) : ScrapeTarget :=
  match t_Service winner with None => with_service (t_Service loser) winner | Some _ => winner end.

Definition configuredTarget (t : ScrapeTarget) : bool := negb (bool_decide (Monitor t = [])).

(** ** The Service view of a swap *)

Fixpoint trimmedAt (url : bytes) (l : list viewTrim) : option nat :=
  match l with [] => None | tr :: l => if bool_decide (trim_url tr = url) then Some 0%nat else S <$> trimmedAt url l end.

Definition untrimView (url : bytes) (d : targetDedup) : targetDedup :=
  match trimmedAt url (trimmed d) with Some i => set_trimmed (delete i (trimmed d)) d | None => d end.

(** The candidate as it is left, what the target grows by, and the accumulator. *)
Definition boundSwapView (i : nat) (cand : ScrapeTarget) (svcBefore : option View) (grown : Z) (d : targetDedup) : ScrapeTarget * Z * targetDedup :=
  if bool_decide (t_Service cand = svcBefore) then (cand, grown, d)
  else
    let d := untrimView (URL cand) d in
    match t_Service cand with
    | None => (cand, grown, d)
    | Some _ =>
        if bool_decide (i = base d) || (spent d + grown <=? MaxTargetBytesPerPod) then (cand, grown, d)
        else
          let view := ServiceViewBytes (t_Service cand) in
          if view <=? ServiceViewBytes svcBefore then (cand, grown, d)
          else
            let cand := with_service (ServiceIdentityView (next d) (t_Service cand)) cand in
            (cand, grown - view + ServiceViewBytes (t_Service cand), set_next (next d + 1) (set_trimmed (trimmed d ++ [mkTrim (URL cand) (t_Service cand)]) d))
    end.

(** ** Offering a target *)

Definition append_target (t : ScrapeTarget) (cost : Z) (d : targetDedup) : targetDedup :=
  mkDedup (out d ++ [t]) (<[URL t := length (out d)]> (urlOwner d)) (authOwner d) (base d) (capped d) (cappedBySize d) (podBytes d) (spent d + cost)
    (diagnostic d) (contribCapReported d) (trimmed d) (counted d) (next d).

(** The new-URL arm. *)
Definition add_new (t : ScrapeTarget) (d : targetDedup) : targetVerdict * targetDedup :=
  if MaxPortsPerPod <=? Z.of_nat (length (out d)) - Z.of_nat (base d) then refuse targetRefusedCount d
  else
    let d := if podBytes d =? 0 then set_podBytes (PodDocBytes (t_Pod t)) d else d in
    let first := bool_decide (length (out d) = base d) in
    if negb first && (MaxTargetBytesPerPod <? spent d + podBytes d) then refuse targetRefusedBytes d
    else
      let cost := TargetDocBytes t (podBytes d) in
      if negb first && (MaxTargetBytesPerPod <? spent d + cost) then refuse targetRefusedBytes d else (targetAccepted, append_target t cost d).

(** The upgrade: a monitor's target replaces an annotation's. *)
Definition add_upgrade (i : nat) (t held : ScrapeTarget) (d : targetDedup) : targetDedup :=
  let before := TargetOwnBytes held in
  let svcBefore := t_Service held in
  let t := carryForward t held in
  let '(t, grown, d) := boundSwapView i t svcBefore (TargetOwnBytes t - before) d in
  chargeSwap grown (set_out (<[i := t]> (out d)) d).

(** The holder keeps the URL, and takes a view it lacks. *)
Definition add_kept (i : nat) (t held : ScrapeTarget) (d : targetDedup) : targetDedup :=
  match t_Service held, t_Service t with
  | None, Some _ =>
      let held := carryForward held t in
      let '(held, grown, d) := boundSwapView i held None (ServiceViewBytes (t_Service held)) d in
      chargeSwap grown (set_out (<[i := held]> (out d)) d)
  | _, _ => d
  end.

Definition add (t : ScrapeTarget) (d : targetDedup) : option (targetVerdict * targetDedup) :=
  match urlOwner d !! URL t with
  | None => Some (add_new t d)
  | Some i =>
      held ← out d !! i;
      if configuredTarget t && negb (configuredTarget held) then Some (targetAccepted, add_upgrade i t held d)
      else Some (targetAccepted, add_kept i t held d)
  end.

(** [for _, t := range ts { d.add(t) }], keeping the last refusal. *)
Fixpoint adds (ts : list ScrapeTarget) (v : targetVerdict) (d : targetDedup) : option (targetVerdict * targetDedup) :=
  match ts with [] => Some (v, d) | t :: ts => '(v', d) ← add t d; adds ts (if ok v' then v else v') d end.

(** ** Offering a monitor's endpoint *)

(** [monitorOffers]: an endpoint is its address. *)
Definition monitorOffers := gset (bytes * Z).
Definition first (url : bytes) (ep : Endpoint) (o : monitorOffers) : bool * monitorOffers :=
  if bool_decide ((url, ep_addr ep) ∈ o) then (false, o) else (true, {[ (url, ep_addr ep) ]} ∪ o).

(** [merged] is the holder as the merge left it, and the report. *)
Record endpointOffer := mkOffer { eo_url : bytes; resolved : bool; repeat : bool; merged : option (ScrapeTarget * MergeReport); eo_refused : targetVerdict }.
Definition unresolved_offer : endpointOffer := mkOffer [] false false None targetAccepted.

(** The position and the target of a holder that a monitor made. *)
Definition monitorHolder (url : bytes) (d : targetDedup) : option (option (nat * ScrapeTarget)) :=
  match urlOwner d !! url with
  | None => Some None
  | Some i => held ← out d !! i; Some (if configuredTarget held then Some (i, held) else None)
  end.

Section Offers.
Context `{GoText}.

Definition mergeInto (i : nat) (held : ScrapeTarget) (url monitor : bytes) (ep : Endpoint) (d : targetDedup) : ScrapeTarget * MergeReport * targetDedup :=
  let '(held, rep) := MergeMonitorEndpoint held monitor ep in
  let d := charge (Bytes rep) (set_out (<[i := held]> (out d)) d) in
  (held, rep, if AuthAdopted rep then adoptedAuth url monitor d else d).

(** Merge into the monitor target that holds the URL, or make the targets and add them. *)
Definition offer_at (url monitor : bytes) (ep : Endpoint) (targets : list ScrapeTarget) (d : targetDedup) : option (endpointOffer * targetDedup) :=
  holder ← monitorHolder url d;
  match holder with
  | Some (i, held) => let '(held, rep, d) := mergeInto i held url monitor ep d in Some (mkOffer url true false (Some (held, rep)) targetAccepted, d)
  | None => '(v, d) ← adds targets targetAccepted d; Some (mkOffer url true false None v, d)
  end.

Definition offerServiceMonitor (pod : Pod) (svc : Service) (monitor : bytes) (ep : Endpoint) (offers : monitorOffers) (d : targetDedup)
    : option (endpointOffer * monitorOffers * targetDedup) :=
  match MonitorTargetURL pod svc ep with
  | None => Some (unresolved_offer, offers, d)
  | Some url =>
      let '(new, offers) := first url ep offers in
      if negb new then Some (mkOffer url true true None targetAccepted, offers, d)
      else '(o, d) ← offer_at url monitor ep (MonitorTargets (next d) pod svc monitor ep) (set_next (next d + 1) d); Some (o, offers, d)
  end.

Definition offerPodMonitor (pod : Pod) (name : bytes) (ep : Endpoint) (d : targetDedup) : option (endpointOffer * targetDedup) :=
  match PodMonitorTargetURL pod ep with
  | None => Some (unresolved_offer, d)
  | Some url => offer_at url name ep (PodMonitorTargets pod name ep) d
  end.

End Offers.
