(* ===== verification/DedupSafe.v ===== *)
(** * What a pod's accumulator promises ([internal/server/targetdedup.go])

    Whatever is offered, in whatever order: no index is out of range, a URL is
    held once, the count ceiling holds, the budget never understates what is
    served, and a target is refused exactly when its URL is new and a ceiling
    says so.  What is served for a URL is one closed form of its accepted
    offers. *)

From S2P Require Import Prelude Clip Order Number Text KubeMeta KubeMetaSafe Targets Merge Dedup.
Local Open Scope Z_scope.

(** ** Sizes *)

Definition docs (pod : Pod) (l : list ScrapeTarget) : Z := sumZ ((fun t => TargetDocBytes t (PodDocBytes pod)) <$> l).

Lemma docs_insert pod l i held t : l !! i = Some held -> docs pod (<[i := t]> l) = docs pod l + (TargetOwnBytes t - TargetOwnBytes held).
Proof.
  unfold docs. revert i. induction l as [|x l IH]; intros [|i]; [done..| |]; rewrite !fmap_cons.
  - intros [= ->]. change (<[0%nat:=t]> (held :: l)) with (t :: l). rewrite fmap_cons, !sumZ_cons. unfold TargetDocBytes. lia.
  - intros Hi. change (<[S i:=t]> (x :: l)) with (x :: <[i:=t]> l). rewrite fmap_cons, !sumZ_cons. rewrite (IH i Hi). lia.
Qed.

Lemma docs_snoc pod l t : docs pod (l ++ [t]) = docs pod l + TargetDocBytes t (PodDocBytes pod).
Proof. unfold docs. rewrite fmap_app, sumZ_app. rewrite fmap_cons, fmap_nil, sumZ_cons. change (sumZ []) with 0. lia. Qed.

Lemma own_with_service v t : TargetOwnBytes (with_service v t) = TargetOwnBytes t + ServiceViewBytes v - ServiceViewBytes (t_Service t).
Proof. unfold TargetOwnBytes. change (base_bytes (with_service v t)) with (base_bytes t). cbn [with_service t_Service]. lia. Qed.

Lemma view_none : ServiceViewBytes None = 0.
Proof. done. Qed.

Lemma stringMapBytes_nonneg m : 0 <= stringMapBytes m.
Proof.
  unfold stringMapBytes. case_bool_decide; [done|]. pose proof (len_nonneg (text "annotations")).
  pose proof (sumZ_nonneg entry_bytes (map_to_list m)) as E. unfold jsonMemberOverhead.
  assert (0 <= sumZ (entry_bytes <$> map_to_list m)); [|lia]. apply E. intros kv. unfold entry_bytes, jsonMemberOverhead.
  pose proof (len_nonneg kv.1). pose proof (len_nonneg kv.2). lia.
Qed.

(** A pod is never measured at the value that says it was not. *)
Lemma PodDocBytes_pos p : 0 < PodDocBytes p.
Proof.
  unfold PodDocBytes, podFixedBytes. repeat match goal with |- context [len ?s] => lazymatch goal with _ : 0 <= len s |- _ => fail | _ => pose proof (len_nonneg s) end end.
  pose proof (stringMapBytes_nonneg (pod_Labels p)). pose proof (stringMapBytes_nonneg (pod_Annotations p)).
  assert (0 <= sumZ ((fun ip => len ip + 3) <$> PodIPs p)) by (apply sumZ_nonneg; intros x; pose proof (len_nonneg x); lia).
  assert (0 <= match NamespaceMetadata p with Some m => objectMetaBytes m | None => 0 end).
  { destruct (NamespaceMetadata p) as [m|]; [|done]. unfold objectMetaBytes, jsonMemberOverhead. pose proof (len_nonneg (text "namespaceMetadata")). pose proof (len_nonneg (o_UID m)).
    pose proof (stringMapBytes_nonneg (o_Labels m)). pose proof (stringMapBytes_nonneg (o_Annotations m)). lia. }
  assert (0 <= sumZ (owner_bytes <$> pod_Owners p)).
  { apply sumZ_nonneg. intros o. unfold owner_bytes, ownerFixedBytes.
    repeat match goal with |- context [len ?s] => lazymatch goal with _ : 0 <= len s |- _ => fail | _ => pose proof (len_nonneg s) end end.
    pose proof (stringMapBytes_nonneg (Owners.Labels o)). pose proof (stringMapBytes_nonneg (Owners.Annotations o)). lia. }
  assert (0 <= sumZ (container_bytes <$> Containers p)).
  { apply sumZ_nonneg. intros c. unfold container_bytes, containerFixedBytes.
    assert (0 <= sumZ ((fun p => portFixedBytes + len (cp_Name p) + len (cp_Protocol p)) <$> c_Ports c)).
    { apply sumZ_nonneg. intros q. unfold portFixedBytes. pose proof (len_nonneg (cp_Name q)). pose proof (len_nonneg (cp_Protocol q)). lia. }
    repeat match goal with |- context [len ?s] => lazymatch goal with _ : 0 <= len s |- _ => fail | _ => pose proof (len_nonneg s) end end. lia. }
  lia.
Qed.

(** ** The invariant

    Stated of a window that starts the slice; a later one is the same, shifted
    ([NodeTargetsSafe]). *)

(** A view that was trimmed for a target that is not the first, and that the target serves. *)
Definition serves_trimmed (o : list ScrapeTarget) (tr : viewTrim) : Prop :=
  exists i t v, (0 < i)%nat /\ o !! i = Some t /\ URL t = trim_url tr /\ t_Service t = trim_svc tr /\ trim_svc tr = Some v /\ v_Labels v = ∅ /\ v_Annotations v = ∅.

Record accounts (pod : Pod) (d : targetDedup) : Prop := {
  ac_base : base d = 0%nat;
  ac_owner : forall u i, urlOwner d !! u = Some i <-> URL <$> out d !! i = Some u;
  ac_count : Z.of_nat (length (out d)) <= MaxPortsPerPod;
  ac_pod : Forall (fun t => t_Pod t = pod) (out d);
  ac_measured : podBytes d = PodDocBytes pod \/ (podBytes d = 0 /\ out d = []);
  ac_spent : docs pod (out d) <= spent d;
  ac_capped : 0 <= cappedBySize d <= capped d;
  ac_once : NoDup (trim_url <$> trimmed d);
  ac_views : Forall (serves_trimmed (out d)) (trimmed d) }.

Lemma accounts_reset pod d : accounts pod (reset [] d).
Proof. split; cbn; try first [done | by right | apply NoDup_nil_2 | by apply Forall_nil]. Qed.

(** One position per URL. *)
Lemma owner_inj pod d i j t t' : accounts pod d -> out d !! i = Some t -> out d !! j = Some t' -> URL t = URL t' -> i = j.
Proof.
  intros A Hi Hj E. assert (Ei : urlOwner d !! URL t = Some i) by (apply (ac_owner _ _ A); by rewrite Hi).
  assert (Ej : urlOwner d !! URL t = Some j) by (apply (ac_owner _ _ A); by rewrite Hj, E). congruence.
Qed.

(** A position's target is replaced by one of its URL and pod: what is charged and
    what is trimmed are all that has to be said. *)
Lemma accounts_replace pod d d' i held t : accounts pod d -> out d !! i = Some held -> URL t = URL held -> t_Pod t = t_Pod held ->
  out d' = <[i := t]> (out d) -> urlOwner d' = urlOwner d -> base d' = base d -> podBytes d' = podBytes d -> capped d' = capped d -> cappedBySize d' = cappedBySize d ->
  spent d + (TargetOwnBytes t - TargetOwnBytes held) <= spent d' -> NoDup (trim_url <$> trimmed d') ->
  (forall tr, tr ∈ trimmed d' -> (tr ∈ trimmed d /\ (trim_url tr <> URL held \/ t_Service t = t_Service held)) \/ serves_trimmed (<[i := t]> (out d)) tr) ->
  accounts pod d'.
Proof.
  intros A Hi Hu Hp Eo Ew Eb Em Ec Es Hs Hn Ht. pose proof (lookup_lt_Some _ _ _ Hi) as Hlt. split.
  - rewrite Eb. apply (ac_base _ _ A).
  - intros u j. rewrite Ew, Eo, (ac_owner _ _ A). destruct (decide (i = j)) as [<-|Hne].
    + rewrite list_lookup_insert_eq by done. by rewrite Hi; cbn; rewrite Hu.
    + by rewrite list_lookup_insert_ne.
  - rewrite Eo, length_insert. apply (ac_count _ _ A).
  - rewrite Eo. apply Forall_insert; [apply (ac_pod _ _ A)|]. rewrite Hp. pose proof (ac_pod _ _ A) as P. rewrite Forall_lookup in P. by apply (P i).
  - rewrite Em, Eo. destruct (ac_measured _ _ A) as [M|[M E]]; [by left|]. by rewrite E in Hi.
  - rewrite Eo, (docs_insert _ _ _ _ _ Hi). pose proof (ac_spent _ _ A). lia.
  - rewrite Ec, Es. apply (ac_capped _ _ A).
  - done.
  - rewrite Forall_forall. intros tr Htr. rewrite Eo. destruct (Ht tr Htr) as [[Hold Hk]|]; [|done].
    pose proof (ac_views _ _ A) as V. rewrite Forall_forall in V. destruct (V tr Hold) as (j & tj & v & H0 & Hj & Hju & Hjs & Hv & Hl & Ha).
    destruct (decide (i = j)) as [<-|Hne].
    + exists i, t, v. rewrite list_lookup_insert_eq by done. rewrite Hi in Hj. injection Hj as <-. split_and!; try done; [by rewrite Hu|].
      destruct Hk as [Hk|Hk]; [by rewrite Hju in Hk|]. by rewrite Hk.
    + exists j, tj, v. by rewrite list_lookup_insert_ne.
Qed.

(** ** The operations *)

Lemma trimmedAt_spec u l : match trimmedAt u l with Some i => exists tr, l !! i = Some tr /\ trim_url tr = u | None => forall tr, tr ∈ l -> trim_url tr <> u end.
Proof.
  induction l as [|x l IH]; [intros tr Htr; by apply elem_of_nil in Htr|]. cbn. case_bool_decide as E; [by exists x|]. destruct (trimmedAt u l) as [i|]; [exact IH|].
  intros tr Htr. apply elem_of_cons in Htr as [->|Htr]; [done|by apply IH].
Qed.

Lemma untrimView_spec u d : NoDup (trim_url <$> trimmed d) -> exists l, untrimView u d = set_trimmed l d /\ NoDup (trim_url <$> l) /\ (forall tr, tr ∈ l -> tr ∈ trimmed d /\ trim_url tr <> u).
Proof.
  intros Nd. unfold untrimView. pose proof (trimmedAt_spec u (trimmed d)) as S. destruct (trimmedAt u (trimmed d)) as [i|].
  - destruct S as (tr & Hi & <-). exists (delete i (trimmed d)). split; [done|]. pose proof (list_elem_of_split_length _ _ _ Hi) as (l1 & l2 & E & El).
    subst i. rewrite E in Nd |- *. rewrite delete_middle. rewrite fmap_app, fmap_cons in Nd. rewrite fmap_app. apply NoDup_app in Nd as (N1 & N2 & N3). apply NoDup_cons in N3 as [N3 N4]. split.
    + apply NoDup_app. split_and!; [done| |done]. intros x Hx Hx'. apply (N2 x Hx). by right.
    + intros tr' Htr'. split; [set_solver|]. intros Eu. apply elem_of_app in Htr' as [Ht|Ht]; apply (list_elem_of_fmap_2 trim_url) in Ht; rewrite Eu in Ht; [|done].
      apply (N2 _ Ht). by left.
  - exists (trimmed d). split; [by destruct d|]. split; [done|]. intros tr Htr. split; [done|by apply S].
Qed.

(** A view without what a trim takes from it. *)
Definition identity (s : option View) : option View := ServiceIdentityView 0 s.

Lemma boundSwapView_spec i cand before grown d : NoDup (trim_url <$> trimmed d) ->
  let '(c, g, d') := boundSwapView i cand before grown d in
  exists n l, d' = set_next n (set_trimmed l d) /\ c = with_service (t_Service c) cand /\ identity (t_Service c) = identity (t_Service cand) /\
    g = grown + ServiceViewBytes (t_Service c) - ServiceViewBytes (t_Service cand) /\ NoDup (trim_url <$> l) /\
    (forall tr, tr ∈ l -> (tr ∈ trimmed d /\ (trim_url tr <> URL cand \/ t_Service c = before)) \/
      (i <> base d /\ trim_url tr = URL cand /\ trim_svc tr = t_Service c /\ exists v, trim_svc tr = Some v /\ v_Labels v = ∅ /\ v_Annotations v = ∅)).
Proof.
  intros Nd. unfold boundSwapView. assert (Eta : with_service (t_Service cand) cand = cand) by (by destruct cand). assert (Etd : forall l, set_trimmed l d = set_next (next d) (set_trimmed l d)) by done.
  case_bool_decide as E1.
  { exists (next d), (trimmed d). rewrite Eta, <- Etd. split_and!; try done; [by destruct d|lia|]. intros tr Htr. left. split; [done|by right]. }
  destruct (untrimView_spec (URL cand) d Nd) as (l & -> & Nl & Hl).
  assert (Plain : exists n l', set_trimmed l d = set_next n (set_trimmed l' d) /\ cand = with_service (t_Service cand) cand /\ identity (t_Service cand) = identity (t_Service cand) /\
    grown = grown + ServiceViewBytes (t_Service cand) - ServiceViewBytes (t_Service cand) /\ NoDup (trim_url <$> l') /\
    (forall tr, tr ∈ l' -> (tr ∈ trimmed d /\ (trim_url tr <> URL cand \/ t_Service cand = before)) \/
      (i <> base d /\ trim_url tr = URL cand /\ trim_svc tr = t_Service cand /\ exists v, trim_svc tr = Some v /\ v_Labels v = ∅ /\ v_Annotations v = ∅))).
  { exists (next d), l. rewrite Eta. split_and!; try done; [lia|]. intros tr Htr. left. destruct (Hl tr Htr). split; [done|by left]. }
  destruct (t_Service cand) as [v|] eqn:Ev; [|cbv beta iota zeta; rewrite ?Ev; exact Plain]. destruct (bool_decide _ || _) eqn:E2; [cbv beta iota zeta; rewrite ?Ev; exact Plain|].
  destruct (ServiceViewBytes _ <=? _); [cbv beta iota zeta; rewrite ?Ev; exact Plain|].
  apply orb_false_iff in E2 as [E2 _]. apply bool_decide_eq_false in E2. cbn -[ServiceViewBytes]. eexists _, _. split; [done|]. split_and!; try done; [lia| |].
  - rewrite fmap_app. apply NoDup_app. split_and!; [done| |apply NoDup_singleton]. intros x Hx Hx'. apply list_elem_of_singleton in Hx' as ->.
    apply list_elem_of_fmap in Hx as (tr & Et & Htr). by apply (Hl tr Htr).
  - intros tr Htr. apply elem_of_app in Htr as [Htr|Htr]; [left; destruct (Hl tr Htr); split; [done|by left]|]. apply list_elem_of_singleton in Htr as ->.
    right. split_and!; try done. by eexists.
Qed.

(** What an added target is told: of a URL that is held, nothing is refused. *)
Definition fits (d : targetDedup) (pod : Pod) (t : ScrapeTarget) : targetVerdict :=
  if MaxPortsPerPod <=? Z.of_nat (length (out d)) then targetRefusedCount
  else if bool_decide (out d = []) || (spent d + TargetDocBytes t (PodDocBytes pod) <=? MaxTargetBytesPerPod) then targetAccepted else targetRefusedBytes.

Lemma own_nonneg t : 0 <= TargetOwnBytes t.
Proof.
  unfold TargetOwnBytes, base_bytes, targetFixedBytes, auth_bytes, ServiceViewBytes.
  assert (0 <= sumZ ((fun m => len m + 3) <$> Monitors t)) by (apply sumZ_nonneg; intros x; pose proof (len_nonneg x); lia).
  assert (0 <= sumZ (rule_bytes <$> MetricRelabelings t)).
  { apply sumZ_nonneg. intros r. unfold rule_bytes, relabelFixedBytes. pose proof (len_nonneg (Action r)). pose proof (len_nonneg (Regex r)).
    assert (0 <= sumZ ((fun l => len l + 3) <$> SourceLabels r)) by (apply sumZ_nonneg; intros x; pose proof (len_nonneg x); lia). lia. }
  assert (0 <= match t_Service t with Some s => serviceFixedBytes + len (v_Name s) + len (v_Namespace s) + len (v_UID s) + stringMapBytes (v_Labels s) + stringMapBytes (v_Annotations s) | None => 0 end).
  { destruct (t_Service t) as [v|]; [|done]. unfold serviceFixedBytes. pose proof (len_nonneg (v_Name v)). pose proof (len_nonneg (v_Namespace v)). pose proof (len_nonneg (v_UID v)).
    pose proof (stringMapBytes_nonneg (v_Labels v)). pose proof (stringMapBytes_nonneg (v_Annotations v)). lia. }
  repeat match goal with |- context [len (?f t)] => lazymatch goal with _ : 0 <= len (f t) |- _ => fail | _ => pose proof (len_nonneg (f t)) end
                       | |- context [len (?f (Auth t))] => lazymatch goal with _ : 0 <= len (f (Auth t)) |- _ => fail | _ => pose proof (len_nonneg (f (Auth t))) end end.
  destruct (t_Service t); lia.
Qed.

Lemma add_new_spec pod t d : accounts pod d -> urlOwner d !! URL t = None -> t_Pod t = pod ->
  let '(v, d') := add_new t d in v = fits d pod t /\ accounts pod d' /\ out d' = (if ok v then out d ++ [t] else out d).
Proof.
  intros A Hu Hp. pose proof (ac_base _ _ A) as B0. unfold add_new, fits. rewrite B0. replace (Z.of_nat (length (out d)) - Z.of_nat 0) with (Z.of_nat (length (out d))) by lia.
  destruct (Z.leb_spec MaxPortsPerPod (Z.of_nat (length (out d)))) as [|Hc].
  { split; [done|]. split; [|done]. destruct A; split; cbn [refuse out urlOwner base capped cappedBySize podBytes spent trimmed]; try done; lia. }
  assert (Hm : podBytes (if podBytes d =? 0 then set_podBytes (PodDocBytes (t_Pod t)) d else d) = PodDocBytes pod).
  { destruct (ac_measured _ _ A) as [M|[M _]]; rewrite M, ?Hp; [|done]. pose proof (PodDocBytes_pos pod). by destruct (Z.eqb_spec (PodDocBytes pod) 0). }
  set (d1 := if podBytes d =? 0 then _ else d) in *. assert (A1 : accounts pod d1 /\ out d1 = out d /\ urlOwner d1 = urlOwner d /\ spent d1 = spent d /\ base d1 = 0%nat).
  { unfold d1 in *. destruct (_ =? _); [|done]. split; [|done]. cbn in Hm. destruct A. split; cbn [set_podBytes out urlOwner base capped cappedBySize podBytes spent trimmed]; try done. by left. }
  clearbody d1. destruct A1 as (A1 & O1 & U1 & S1 & B1). rewrite O1, S1, Hm, B1. pose proof (own_nonneg t) as Own.
  assert (Hf : bool_decide (length (out d) = 0%nat) = bool_decide (out d = [])) by (apply bool_decide_ext; split; [by apply nil_length_inv|by intros ->]). rewrite Hf. clear Hf.
  assert (Ref : forall v, v <> targetRefusedCount -> accounts pod (refuse v d1).2) by (intros v Hv; destruct A1; split; cbn [refuse snd out urlOwner base capped cappedBySize podBytes spent trimmed]; try done; destruct v; lia).
  assert (Acc : let d' := append_target t (TargetDocBytes t (PodDocBytes pod)) d1 in accounts pod d' /\ out d' = out d ++ [t]).
  { cbv zeta. rewrite <- O1. split; [|done]. unfold append_target. destruct A1 as [A1 A2 A3 A4 A5 A6 A7 A8 A9]. split; cbn [out urlOwner base capped cappedBySize podBytes spent trimmed]; try done.
    - intros u i. destruct (decide (URL t = u)) as [<-|Hne].
      + rewrite lookup_insert_eq. split; [intros [= <-]; by rewrite lookup_app_r, Nat.sub_diag by done|]. intros Hi. destruct (decide (i < length (out d1))%nat).
        * rewrite lookup_app_l in Hi by done. apply A2 in Hi. by rewrite U1, Hu in Hi.
        * destruct ((out d1 ++ [t]) !! i) eqn:Ei; [|done]. apply lookup_lt_Some in Ei. rewrite length_app in Ei. cbn in Ei. f_equal. lia.
      + rewrite lookup_insert_ne by done. rewrite A2. destruct (decide (i < length (out d1))%nat); [by rewrite lookup_app_l|].
        rewrite (lookup_ge_None_2 (out d1)) by lia. rewrite lookup_app_r by lia. destruct (i - length (out d1))%nat; [split; [done|by intros [= ?]]|done].
    - rewrite length_app, O1. cbn. unfold MaxPortsPerPod in *. lia.
    - apply Forall_app. split; [done|]. by constructor.
    - by left.
    - rewrite docs_snoc. lia.
    - eapply Forall_impl; [exact A9|]. intros tr (i & ti & v & ? & Hi & ?). exists i, ti, v. split; [done|]. split; [|done]. rewrite lookup_app_l; [done|]. by apply lookup_lt_Some in Hi. }
  assert (Ec : TargetDocBytes t (PodDocBytes pod) = PodDocBytes pod + TargetOwnBytes t) by done.
  case_bool_decide; cbn [negb andb orb]; [split; [done|exact Acc]|].
  destruct (Z.ltb_spec MaxTargetBytesPerPod (spent d + PodDocBytes pod)).
  { destruct (Z.leb_spec (spent d + TargetDocBytes t (PodDocBytes pod)) MaxTargetBytesPerPod); [lia|]. split; [done|]. split; [by apply (Ref targetRefusedBytes)|done]. }
  destruct (Z.ltb_spec MaxTargetBytesPerPod (spent d + TargetDocBytes t (PodDocBytes pod))), (Z.leb_spec (spent d + TargetDocBytes t (PodDocBytes pod)) MaxTargetBytesPerPod); try lia.
  - split; [done|]. split; [by apply (Ref targetRefusedBytes)|done].
  - split; [done|exact Acc].
Qed.

(** The two arms of a URL that is held. *)
Definition swapped (d d' : targetDedup) (i : nat) (t' : ScrapeTarget) : Prop := out d' = <[i := t']> (out d) /\ urlOwner d' = urlOwner d /\ authOwner d' = authOwner d.

Lemma swap_spec pod d i held t before grown : accounts pod d -> out d !! i = Some held -> URL t = URL held -> t_Pod t = t_Pod held -> before = t_Service held ->
  grown = TargetOwnBytes t - TargetOwnBytes held ->
  let '(c, g, d1) := boundSwapView i t before grown d in
  let d' := chargeSwap g (set_out (<[i := c]> (out d1)) d1) in
  accounts pod d' /\ swapped d d' i c /\ c = with_service (t_Service c) t /\ identity (t_Service c) = identity (t_Service t).
Proof.
  intros A Hi Hu Hp -> Hg. pose proof (boundSwapView_spec i t (t_Service held) grown d (ac_once _ _ A)) as S. destruct (boundSwapView _ _ _ _ _) as [[c g] d1].
  destruct S as (n & l & -> & Ec & Eid & Eg & Nl & Hl). cbv zeta. pose proof (lookup_lt_Some _ _ _ Hi) as Hlt.
  assert (Uc : URL c = URL held /\ t_Pod c = t_Pod held) by (rewrite Ec; done). destruct Uc as [Uc Pc]. split; [|split; [|done]].
  - apply (accounts_replace pod d _ i held c); try done; try (unfold chargeSwap; destruct (0 <? g); done).
    + assert (Eo : TargetOwnBytes c = TargetOwnBytes t + ServiceViewBytes (t_Service c) - ServiceViewBytes (t_Service t)) by (rewrite Ec at 1; apply own_with_service).
      unfold chargeSwap. destruct (Z.ltb_spec 0 g); cbn -[TargetOwnBytes]; lia.
    + intros tr Htr. assert (Htr' : tr ∈ l) by (unfold chargeSwap in Htr; destruct (0 <? g); done). destruct (Hl tr Htr') as [[Ht Hk]|(Hb & Et & Es & v & Ev & Hv)].
      * left. split; [done|]. destruct Hk as [Hk|Hk]; [left; by rewrite <- Hu|by right].
      * right. exists i, c, v. rewrite list_lookup_insert_eq by done. rewrite (ac_base _ _ A) in Hb. split; [lia|]. split; [done|]. split; [congruence|done].
  - unfold swapped, chargeSwap. by destruct (0 <? g).
Qed.

Lemma carryForward_fields w l : let t := carryForward w l in
  t = with_service (t_Service t) w /\ t_Service t = match t_Service w with Some v => Some v | None => t_Service l end.
Proof. cbv zeta. unfold carryForward. destruct (t_Service w) eqn:E; [|done]. rewrite E. split; [|done]. rewrite <- E. by destruct w. Qed.

(** * What is served for a URL ([internal/server/targetdedup.go], [monitoroffers.go])

    The targets a pod's accumulator holds, as one function of the offers of each
    URL; whose credential is served; and the runs of offers the claims are
    about. *)


Definition lookup_url (u : bytes) (d : targetDedup) : option ScrapeTarget := urlOwner d !! u ≫= fun i => out d !! i.

Lemma lookup_url_Some pod d u t : accounts pod d -> lookup_url u d = Some t <-> exists i, urlOwner d !! u = Some i /\ out d !! i = Some t /\ URL t = u.
Proof.
  intros A. unfold lookup_url. split.
  - destruct (urlOwner d !! u) as [i|] eqn:E; [|done]. intros Hi. exists i. apply (ac_owner _ _ A) in E. cbn in Hi. rewrite Hi in E. cbn in E. split; [done|]. split; [done|congruence].
  - intros (i & -> & Hi & _). done.
Qed.

Lemma held_at pod d u i : accounts pod d -> urlOwner d !! u = Some i -> exists held, out d !! i = Some held /\ URL held = u /\ t_Pod held = pod /\ lookup_url u d = Some held.
Proof.
  intros A E. pose proof E as E'. apply (ac_owner _ _ A) in E'. destruct (out d !! i) as [held|] eqn:Hi; [|done]. exists held. cbn in E'. split; [done|]. split; [congruence|]. split.
  - pose proof (ac_pod _ _ A) as P. rewrite Forall_lookup in P. by apply (P i).
  - unfold lookup_url. by rewrite E.
Qed.

Lemma swapped_lookup d d' i held t' u : urlOwner d !! URL held = Some i -> out d !! i = Some held -> (forall v, urlOwner d !! v = Some i -> v = URL held) -> swapped d d' i t' ->
  lookup_url u d' = if decide (u = URL held) then Some t' else lookup_url u d.
Proof.
  intros Ei Hi Inj (Eo & Eu & _). unfold lookup_url. rewrite Eo, Eu. case_decide as D.
  - subst u. rewrite Ei. cbn. by rewrite list_lookup_insert_eq by (by eapply lookup_lt_Some).
  - destruct (urlOwner d !! u) as [j|] eqn:Ej; [|done]. cbn. rewrite list_lookup_insert_ne; [done|]. intros ->. by apply D, Inj.
Qed.

Lemma owner_one pod d i held : accounts pod d -> out d !! i = Some held -> forall v, urlOwner d !! v = Some i -> v = URL held.
Proof. intros A Hi v Ev. apply (ac_owner _ _ A) in Ev. rewrite Hi in Ev. cbn in Ev. congruence. Qed.

(** *** The targets as they are offered *)

(** What reached a URL, in order: a target of an annotation's door, or a
    monitor's endpoint with the target it makes there. *)
Inductive event := ByDoor (t : ScrapeTarget) | ByMonitor (monitor : bytes) (ep : Endpoint) (t : ScrapeTarget).
Definition event_url (e : event) : bytes := match e with ByDoor t => URL t | ByMonitor _ _ t => URL t end.

Definition well_formed_event (pod : Pod) (e : event) : Prop :=
  match e with
  | ByDoor t => t_Pod t = pod /\ Monitor t = []
  | ByMonitor m ep t => t_Pod t = pod /\ Monitor t = m /\ m <> [] /\ Auth t = ep_Auth ep
  end.

(** *** The abstract answer, of the offers of one URL alone *)

Definition doors_of (l : list event) : list ScrapeTarget := omap (fun e => match e with ByDoor t => Some t | _ => None end) l.
Definition monitors_of (l : list event) : list (bytes * Endpoint * ScrapeTarget) := omap (fun e => match e with ByMonitor m ep t => Some (m, ep, t) | _ => None end) l.
Definition first_view (l : list ScrapeTarget) : option View := head (omap t_Service l).

Definition view_or (a b : option View) : option View := match a with Some _ => a | None => b end.

(** A target up to what a trim takes from its view. *)
Definition strip (t : ScrapeTarget) : ScrapeTarget := with_service (identity (t_Service t)) t.

Lemma identity_or a b : identity (view_or a b) = view_or (identity a) (identity b).
Proof. by destruct a. Qed.

Lemma identity_idem a : identity (identity a) = identity a.
Proof. by destruct a. Qed.

Lemma strip_with_service v t : strip (with_service v t) = with_service (identity v) t.
Proof. done. Qed.

Lemma strip_fields t t' : strip t = strip t' -> URL t = URL t' /\ Monitor t = Monitor t' /\ Auth t = Auth t' /\ identity (t_Service t) = identity (t_Service t') /\
  forall v, with_service v t = with_service v t'.
Proof.
  intros E. unfold strip, with_service in E. injection E as E1 E2 E3 E4 E5 E6 E7 E8 E9 E10 E11 E12 E13 E14. split_and!; try done.
  intros v. unfold with_service. by rewrite E1, E2, E3, E4, E5, E6, E8, E9, E10, E11, E12, E13, E14.
Qed.

Lemma first_view_app l t : first_view (l ++ [t]) = view_or (first_view l) (t_Service t).
Proof. unfold first_view. rewrite omap_app. cbn. destruct (omap t_Service l), (t_Service t); done. Qed.

Lemma first_view_cons t l : first_view (t :: l) = view_or (t_Service t) (first_view l).
Proof. unfold first_view. cbn. destruct (t_Service t); done. Qed.

#[local] Existing Instance same_scrape_preorder.

Section Served.
Context `{GoText}.

Definition served (l : list event) : option ScrapeTarget :=
  match monitors_of l with
  | (_, _, t) :: rest => Some (merges (with_service (first_view (t :: doors_of l)) t) (fst <$> rest))
  | [] => match doors_of l with [] => None | t :: _ => Some (with_service (first_view (doors_of l)) t) end
  end.

Definition at_url (u : bytes) (log : list event) : list event := filter (fun e => event_url e = u) log.

(** A merge neither reads nor writes the view. *)
Lemma merge_service v t m ep : (MergeMonitorEndpoint (with_service v t) m ep).1 = with_service v (MergeMonitorEndpoint t m ep).1.
Proof.
  unfold MergeMonitorEndpoint. destruct (bare ep); [done|].
  assert (E1 : merge_chain (with_service v t) ep = (with_service v (merge_chain t ep).1, (merge_chain t ep).2)).
  { unfold merge_chain, appendRelabelChain. cbn [with_service MetricRelabelings]. destruct (_ && _); [|done]. by destruct (append_rules _ _ _ _). }
  rewrite E1. destruct (merge_chain t ep) as [t1 [added rc]]. cbn [fst snd].
  assert (E2 : mergeCadence (with_service v t1) ep = (with_service v (mergeCadence t1 ep).1, (mergeCadence t1 ep).2)).
  { unfold mergeCadence. cbn [with_service Interval ScrapeTimeout]. repeat case_match; done. }
  rewrite E2. destruct (mergeCadence t1 ep) as [t2 cad]. cbn [fst snd].
  assert (E3 : merge_auth (with_service v t2) ep = (with_service v (merge_auth t2 ep).1, (merge_auth t2 ep).2)).
  { unfold merge_auth. cbn [with_service Auth]. repeat case_match; done. }
  rewrite E3. destruct (merge_auth t2 ep) as [t3 [ad co]]. cbn [fst snd]. destruct (_ || _); [|done].
  assert (E4 : addContributor (with_service v t3) m = (with_service v (addContributor t3 m).1, (addContributor t3 m).2)).
  { unfold addContributor. cbn [with_service Monitors Monitor]. destruct (bool_decide (Monitors t3 = [])); cbn [andb with_monitors with_service Monitors Monitor]; repeat (case_match; cbn [with_monitors with_service Monitors Monitor] in * ); done. }
  rewrite E4. by destruct (addContributor t3 m).
Qed.

Lemma merges_service v l : forall t, merges (with_service v t) l = with_service v (merges t l).
Proof.
  induction l as [|[m ep] l IH]; intros t; [done|]. unfold merges in *. cbn [foldl fst snd]. by rewrite merge_service, IH.
Qed.

Lemma merge_same t m ep : same_scrape t (MergeMonitorEndpoint t m ep).1.
Proof. pose proof (merge_is_honoured t m ep) as M. destruct (MergeMonitorEndpoint t m ep). apply (hn_same _ _ _ _ _ M). Qed.

Lemma merges_same l : forall t, same_scrape t (merges t l).
Proof. induction l as [|[m ep] l IH]; intros t; [done|]. unfold merges. cbn [foldl fst snd]. etrans; [apply merge_same|apply IH]. Qed.

Lemma same_view t t' : same_scrape t t' -> t_Service t' = t_Service t /\ Monitor t' = Monitor t /\ URL t' = URL t /\ t_Pod t' = t_Pod t.
Proof. intros [E1 E2]. by injection E1; injection E2; intros; subst. Qed.

Lemma served_view l h : served l = Some h -> t_Service h = match monitors_of l with (_, _, t) :: _ => first_view (t :: doors_of l) | [] => first_view (doors_of l) end.
Proof.
  unfold served. destruct (monitors_of l) as [|[[m ep] t] rest]; [by destruct (doors_of l); [|intros [= <-]]|]. intros [= <-].
  by destruct (same_view _ _ (merges_same (fst <$> rest) (with_service (first_view (t :: doors_of l)) t))) as (-> & _).
Qed.

Lemma served_door l t : served (l ++ [ByDoor t]) = match served l with None => Some t | Some h => Some (with_service (view_or (t_Service h) (t_Service t)) h) end.
Proof.
  destruct (served l) as [h|] eqn:S; [pose proof (served_view l h S) as V; rewrite V|]; unfold served in *; unfold doors_of, monitors_of in *; rewrite !omap_app; cbn -[merges]; rewrite ?app_nil_r.
  - destruct (omap _ l) as [|[[m ep] t0] rest] eqn:M.
    + destruct (omap _ l) as [|x xs] eqn:D in S, V |- *; [done|]. injection S as <-. cbn -[first_view]. rewrite app_comm_cons, first_view_app. done.
    + injection S as <-. rewrite app_comm_cons, first_view_app. f_equal. by rewrite !merges_service.
  - destruct (omap _ l) as [|[[m ep] t0] rest] eqn:M; [|done]. destruct (omap _ l) as [|x xs] eqn:D in S |- *; [|done]. cbn. f_equal. unfold first_view. cbn. destruct (t_Service t) eqn:Et; cbn; rewrite <- Et; by destruct t.
Qed.

Lemma served_monitor l m ep t : served (l ++ [ByMonitor m ep t]) = match served l with
  | None => Some t
  | Some h => if bool_decide (monitors_of l = []) then Some (with_service (view_or (t_Service t) (t_Service h)) t) else Some (MergeMonitorEndpoint h m ep).1 end.
Proof.
  destruct (served l) as [h|] eqn:S; [pose proof (served_view l h S) as V|]; unfold served, doors_of, monitors_of in *; rewrite !omap_app; cbn -[merges]; rewrite ?app_nil_r.
  - destruct (omap _ l) as [|[[m' ep'] t0] rest] eqn:M.
    + cbn -[merges first_view]. rewrite first_view_cons, V. done.
    + cbn -[merges first_view]. injection S as <-. rewrite fmap_app. unfold merges. by rewrite foldl_app.
  - destruct (omap _ l) as [|[[m' ep'] t0] rest] eqn:M; [|done]. destruct (omap _ l) as [|x xs] eqn:D in S |- *; [|done]. cbn. f_equal. unfold first_view. cbn. destruct (t_Service t) eqn:Et; cbn; rewrite <- Et; by destruct t.
Qed.

Lemma served_monitored l h pod : Forall (well_formed_event pod) l -> served l = Some h -> configuredTarget h = negb (bool_decide (monitors_of l = [])).
Proof.
  intros W. unfold served. destruct (monitors_of l) as [|[[m ep] t] rest] eqn:M.
  - destruct (doors_of l) as [|t ts] eqn:D; [done|]. intros [= <-]. unfold configuredTarget. cbn [with_service Monitor]. assert (In : ByDoor t ∈ l).
    { assert (E : t ∈ doors_of l) by (rewrite D; by left). unfold doors_of in E. apply list_elem_of_omap in E as ([t'|] & Hin & [= ->]). done. }
    rewrite Forall_forall in W. destruct (W _ In) as [_ ->]. done.
  - intros [= <-]. unfold configuredTarget. destruct (same_view _ _ (merges_same (fst <$> rest) (with_service (first_view (t :: doors_of l)) t))) as (_ & -> & _). cbn [with_service Monitor].
    assert (E : (m, ep, t) ∈ monitors_of l) by (rewrite M; by left). unfold monitors_of in E. apply list_elem_of_omap in E as ([?|m' ep' t'] & Hin & [= -> -> ->]).
    rewrite Forall_forall in W. destruct (W _ Hin) as (_ & E & Hne & _). rewrite bool_decide_eq_false_2 by congruence. done.
Qed.

(** *** Whose credential is served *)

(** The first of the monitors, in order, that declares one. *)
Definition auth_source (l : list (bytes * Endpoint)) : option (bytes * ScrapeAuth) :=
  head (omap (fun me : bytes * Endpoint => if bool_decide (ep_Auth me.2 = noAuth) then None else Some (me.1, ep_Auth me.2)) l).

Lemma merges_auth l : forall t, Auth (merges t l) = if bool_decide (Auth t = noAuth) then default noAuth (snd <$> auth_source l) else Auth t.
Proof.
  induction l as [|[m ep] l IH]; intros t; [cbn; by case_bool_decide|]. unfold merges. cbn [foldl fst snd]. fold (merges (MergeMonitorEndpoint t m ep).1 l). rewrite IH.
  pose proof (merge_is_honoured t m ep) as M. destruct (MergeMonitorEndpoint t m ep) as [t' rep]. pose proof (hn_auth _ _ _ _ _ M) as A. cbn [fst]. rewrite A.
  unfold auth_source. cbn [omap list_omap fst snd]. destruct (decide (Auth t = noAuth)) as [E|E].
  - rewrite (bool_decide_eq_true_2 _ E). destruct (decide (ep_Auth ep = noAuth)) as [E'|E']; [by rewrite bool_decide_eq_true_2|by rewrite bool_decide_eq_false_2].
  - by rewrite (bool_decide_eq_false_2 _ E).
Qed.

(** The monitor whose credential was adopted after the holder came without. *)
Definition adopter (l : list (bytes * Endpoint)) : option bytes :=
  match l with [] => None | (_, ep) :: rest => if bool_decide (ep_Auth ep = noAuth) then fst <$> auth_source rest else None end.

(** ** The accumulator tracks the offers it accepted *)

Record tracks (pod : Pod) (d : targetDedup) (log : list event) : Prop := {
  tr_wf : Forall (well_formed_event pod) log;
  tr_served : forall u, strip <$> lookup_url u d = strip <$> served (at_url u log);
  tr_auth : forall u, authOwner d !! u = adopter (fst <$> monitors_of (at_url u log)) }.

Lemma at_url_app u log e : at_url u (log ++ [e]) = at_url u log ++ (if decide (event_url e = u) then [e] else []).
Proof. unfold at_url. rewrite filter_app. by rewrite filter_cons, filter_nil. Qed.

Lemma at_url_wf pod u log : Forall (well_formed_event pod) log -> Forall (well_formed_event pod) (at_url u log).
Proof. intros W. apply Forall_forall. intros e He. apply list_elem_of_filter in He as [_ He]. rewrite Forall_forall in W. by apply W. Qed.

Lemma lookup_grown pod d d' t u : accounts pod d -> accounts pod d' -> out d' = out d ++ [t] -> lookup_url u d' = if decide (u = URL t) then Some t else lookup_url u d.
Proof.
  intros A A' E. assert (Hn : out d' !! length (out d) = Some t) by (rewrite E; by rewrite lookup_app_r, Nat.sub_diag by done). case_decide as D.
  - apply (lookup_url_Some pod); [done|]. exists (length (out d)). split; [|done]. apply (ac_owner _ _ A'). rewrite Hn. by subst u.
  - apply option_eq. intros x. rewrite !(lookup_url_Some pod) by done. split; intros (i & Hi & Hx & Hu).
    + destruct (decide (i < length (out d))%nat) as [Hl|Hl].
      * exists i. rewrite E, lookup_app_l in Hx by done. split; [|done]. apply (ac_owner _ _ A). by rewrite Hx, <- Hu.
      * exfalso. apply D. rewrite E, lookup_app_r in Hx by lia. destruct (i - length (out d))%nat; cbn in Hx; [|done]. injection Hx as ->. done.
    + exists i. assert (out d' !! i = Some x) as Hx' by (rewrite E, lookup_app_l; [done|by eapply lookup_lt_Some]). split; [|done]. apply (ac_owner _ _ A'). by rewrite Hx', <- Hu.
Qed.

Lemma lookup_same pod d d' u : accounts pod d -> accounts pod d' -> out d' = out d -> lookup_url u d' = lookup_url u d.
Proof.
  intros A A' E. apply option_eq. intros x. rewrite !(lookup_url_Some pod) by done. setoid_rewrite (ac_owner _ _ A). setoid_rewrite (ac_owner _ _ A'). by rewrite E.
Qed.

Lemma add_new_auth t d : authOwner (add_new t d).2 = authOwner d.
Proof. unfold add_new. repeat case_match; done. Qed.

(** How an accepted event extends the abstract answer, at its own URL and at others. *)
Lemma tracks_step pod d d' log e : tracks pod d log -> well_formed_event pod e ->
  (forall u, u <> event_url e -> lookup_url u d' = lookup_url u d /\ authOwner d' !! u = authOwner d !! u) ->
  strip <$> lookup_url (event_url e) d' = strip <$> served (at_url (event_url e) log ++ [e]) ->
  authOwner d' !! event_url e = adopter (fst <$> monitors_of (at_url (event_url e) log ++ [e])) ->
  tracks pod d' (log ++ [e]).
Proof.
  intros T W Ho Hs Ha. split.
  - apply Forall_app. split; [apply (tr_wf _ _ _ T)|by constructor].
  - intros u. rewrite at_url_app. case_decide as D; [by subst u|]. rewrite app_nil_r. destruct (Ho u ltac:(congruence)) as [-> _]. apply (tr_served _ _ _ T).
  - intros u. rewrite at_url_app. case_decide as D; [by subst u|]. rewrite app_nil_r. destruct (Ho u ltac:(congruence)) as [_ ->]. apply (tr_auth _ _ _ T).
Qed.

Lemma tracks_same pod d d' log : tracks pod d log -> (forall u, lookup_url u d' = lookup_url u d) -> authOwner d' = authOwner d -> tracks pod d' log.
Proof. intros [T1 T2 T3] El Ea. split; [done| |]; intros u; [by rewrite El|by rewrite Ea]. Qed.

(** Whether the abstract holder of a URL is a monitor's. *)
Lemma tracked_held pod d log u held : tracks pod d log -> lookup_url u d = Some held ->
  exists h, served (at_url u log) = Some h /\ strip held = strip h /\ configuredTarget held = negb (bool_decide (monitors_of (at_url u log) = [])).
Proof.
  intros T E. pose proof (tr_served _ _ _ T u) as S. rewrite E in S. destruct (served (at_url u log)) as [h|] eqn:Eh; [|done]. cbn in S. apply (inj Some) in S. exists h. split; [done|]. split; [done|].
  destruct (strip_fields held h S) as (_ & Em & _). unfold configuredTarget. rewrite Em. apply (served_monitored _ h pod); [|done]. apply at_url_wf, (tr_wf _ _ _ T).
Qed.

Lemma tracked_free pod d log u : tracks pod d log -> lookup_url u d = None -> served (at_url u log) = None /\ monitors_of (at_url u log) = [].
Proof.
  intros T E. pose proof (tr_served _ _ _ T u) as S. rewrite E in S. destruct (served (at_url u log)) as [h|] eqn:Eh; [by cbn in S|]. split; [done|].
  unfold served in Eh. by destruct (monitors_of (at_url u log)) as [|[[m ep] t] rest].
Qed.

Lemma monitors_snoc l e : monitors_of (l ++ [e]) = monitors_of l ++ match e with ByDoor _ => [] | ByMonitor m ep t => [(m, ep, t)] end.
Proof. unfold monitors_of. rewrite omap_app. f_equal. by destruct e. Qed.

(** A swap at a held URL, once its target is known to be what the answer extends to. *)
Lemma swap_tracks pod d d' log e i held c v : accounts pod d -> tracks pod d log -> well_formed_event pod e -> out d !! i = Some held -> URL held = event_url e ->
  swapped d d' i c -> served (at_url (event_url e) log ++ [e]) = Some v -> strip c = strip v ->
  adopter (fst <$> monitors_of (at_url (event_url e) log ++ [e])) = adopter (fst <$> monitors_of (at_url (event_url e) log)) -> tracks pod d' (log ++ [e]).
Proof.
  intros A T W Hi Hu Sw Sv Ev Ea. assert (Ei : urlOwner d !! URL held = Some i) by (apply (ac_owner _ _ A); by rewrite Hi).
  assert (L : forall u, lookup_url u d' = if decide (u = URL held) then Some c else lookup_url u d) by (intros u; apply (swapped_lookup d d' i held c u); [done|done|by apply (owner_one pod)|done]).
  destruct Sw as (_ & _ & Au). apply (tracks_step pod d); try done.
  - intros u Hne. by rewrite L, Au, decide_False by congruence.
  - rewrite L, decide_True by done. rewrite Sv. cbn. by rewrite Ev.
  - rewrite Au, Ea. apply (tr_auth _ _ _ T).
Qed.

(** A door's target at a held URL. *)
Lemma kept_tracks pod d log i held t : accounts pod d -> tracks pod d log -> well_formed_event pod (ByDoor t) -> urlOwner d !! URL t = Some i -> out d !! i = Some held -> URL held = URL t ->
  t_Pod held = pod -> let d' := add_kept i t held d in accounts pod d' /\ tracks pod d' (log ++ [ByDoor t]).
Proof.
  intros A T W Ei Hi Hu Hp. assert (Hl : lookup_url (URL t) d = Some held) by (unfold lookup_url; by rewrite Ei).
  destruct (tracked_held pod d log (URL t) held T Hl) as (h & Sh & Est & _). pose proof (strip_fields held h Est) as (_ & _ & _ & Eid & Ews).
  assert (Sd : served (at_url (URL t) log ++ [ByDoor t]) = Some (with_service (view_or (t_Service h) (t_Service t)) h)) by (rewrite served_door, Sh; done).
  assert (Step : forall d' c, swapped d d' i c -> strip c = with_service (identity (view_or (t_Service held) (t_Service t))) held -> tracks pod d' (log ++ [ByDoor t])).
  { intros d' c Sw Ec. eapply (swap_tracks pod d d' log (ByDoor t)); try done; cbn [event_url]; [|by rewrite monitors_snoc, app_nil_r].
    rewrite Ec, strip_with_service, !identity_or, <- Eid. apply Ews. }
  assert (Same : view_or (t_Service held) (t_Service t) = t_Service held -> accounts pod d /\ tracks pod d (log ++ [ByDoor t])).
  { intros Ek. split; [done|]. apply (Step d held); [|by rewrite Ek]. unfold swapped. by rewrite list_insert_id. }
  unfold add_kept. destruct (t_Service held) as [vh|] eqn:Eh; [by apply Same|]. destruct (t_Service t) as [vt|] eqn:Et; [|by apply Same].
  destruct (carryForward_fields held t) as [C1 C2]. rewrite Eh, Et in C2. set (c0 := carryForward held t) in *. clearbody c0.
  assert (G : ServiceViewBytes (t_Service c0) = TargetOwnBytes c0 - TargetOwnBytes held).
  { pose proof (own_with_service (t_Service c0) held) as G. rewrite <- C1, Eh, view_none in G. lia. }
  assert (Same0 : URL c0 = URL held /\ t_Pod c0 = t_Pod held) by (rewrite C1; done). destruct Same0 as [S1 S2].
  pose proof (swap_spec pod d i held c0 None (ServiceViewBytes (t_Service c0)) A Hi S1 S2 (eq_sym Eh) G) as Sw.
  destruct (boundSwapView i c0 None (ServiceViewBytes (t_Service c0)) d) as [[c g] d1]. destruct Sw as (A' & Sw & Cc & Cid). split; [done|]. apply (Step _ c Sw).
  rewrite Cc, strip_with_service, Cid, C2, C1. done.
Qed.

(** A monitor's target at a URL that a door's target holds. *)
Lemma upgrade_tracks pod d log i held m ep t : accounts pod d -> tracks pod d log -> well_formed_event pod (ByMonitor m ep t) -> urlOwner d !! URL t = Some i -> out d !! i = Some held ->
  URL held = URL t -> t_Pod held = pod -> monitors_of (at_url (URL t) log) = [] -> let d' := add_upgrade i t held d in accounts pod d' /\ tracks pod d' (log ++ [ByMonitor m ep t]).
Proof.
  intros A T W Ei Hi Hu Hp Mn. assert (Hl : lookup_url (URL t) d = Some held) by (unfold lookup_url; by rewrite Ei).
  destruct (tracked_held pod d log (URL t) held T Hl) as (h & Sh & Est & _). pose proof (strip_fields held h Est) as (_ & _ & _ & Eid & Ews).
  unfold add_upgrade. destruct (carryForward_fields t held) as [C1 C2]. set (c0 := carryForward t held) in *. clearbody c0. pose proof W as (Wp & _).
  assert (Same0 : URL c0 = URL held /\ t_Pod c0 = t_Pod held) by (rewrite C1; cbn; by rewrite Hu, Wp, Hp). destruct Same0 as [S1 S2].
  pose proof (swap_spec pod d i held c0 (t_Service held) (TargetOwnBytes c0 - TargetOwnBytes held) A Hi S1 S2 eq_refl eq_refl) as Sw. destruct (boundSwapView i c0 (t_Service held) _ d) as [[c g] d1].
  destruct Sw as (A' & Sw & Cc & Cid). split; [done|].
  apply (swap_tracks pod d _ log (ByMonitor m ep t) i held c (with_service (view_or (t_Service t) (t_Service h)) t)); try done; cbn [event_url].
  - rewrite served_monitor, Sh. by rewrite bool_decide_eq_true_2.
  - rewrite Cc, strip_with_service, Cid, strip_with_service, identity_or, <- Eid, <- identity_or.
    assert (Ew : forall v, with_service v c0 = with_service v t) by (intros v; rewrite C1; done). rewrite Ew, C2. by destruct (t_Service t).
  - rewrite monitors_snoc, Mn. cbn. by case_bool_decide.
Qed.

Lemma new_tracks pod d log e t : accounts pod d -> tracks pod d log -> well_formed_event pod e -> e = ByDoor t \/ (exists m ep, e = ByMonitor m ep t) -> urlOwner d !! URL t = None ->
  exists d', add_new t d = (fits d pod t, d') /\ accounts pod d' /\ tracks pod d' (if ok (fits d pod t) then log ++ [e] else log).
Proof.
  intros A T W He Ei. assert (Wt : t_Pod t = pod /\ event_url e = URL t) by (destruct He as [->|(m & ep & ->)]; destruct W; done). destruct Wt as [Wp Wu].
  pose proof (add_new_spec pod t d A Ei Wp) as N. pose proof (add_new_auth t d) as Na. destruct (add_new t d) as [v d']. cbn [snd] in Na. destruct N as (-> & A' & Eo). exists d'. split; [done|]. split; [done|].
  assert (Fr : lookup_url (URL t) d = None) by (unfold lookup_url; by rewrite Ei). destruct (tracked_free pod d log (URL t) T Fr) as [Sn Mn].
  destruct (ok _); [|apply (tracks_same pod d); try done; intros u; by apply (lookup_same pod)].
  apply (tracks_step pod d); try done; rewrite ?Wu.
  - intros u Hne. split; [|by rewrite Na]. rewrite (lookup_grown pod d d' t) by done. by rewrite decide_False.
  - rewrite (lookup_grown pod d d' t) by done. rewrite decide_True by done. destruct He as [->|(m & ep & ->)]; [rewrite served_door|rewrite served_monitor]; by rewrite Sn.
  - rewrite Na, (tr_auth _ _ _ T), monitors_snoc, Mn. destruct He as [->|(m & ep & ->)]; [done|]. cbn. by case_bool_decide.
Qed.

(** What an offer at a URL is told. *)
Definition verdict (d : targetDedup) (pod : Pod) (t : ScrapeTarget) : targetVerdict := match urlOwner d !! URL t with Some _ => targetAccepted | None => fits d pod t end.

(** Where no monitor's target holds the URL, any target may be added. *)
Lemma add_tracks pod d log e t : accounts pod d -> tracks pod d log -> well_formed_event pod e -> e = ByDoor t \/ (exists m ep, e = ByMonitor m ep t /\ monitors_of (at_url (URL t) log) = []) ->
  exists d', add t d = Some (verdict d pod t, d') /\ accounts pod d' /\ tracks pod d' (if ok (verdict d pod t) then log ++ [e] else log).
Proof.
  intros A T W He. unfold add, verdict. destruct (urlOwner d !! URL t) as [i|] eqn:Ei.
  - destruct (held_at pod d (URL t) i A Ei) as (held & Hi & Hu & Hp & Hl). rewrite Hi. cbn [mbind option_bind].
    destruct (tracked_held pod d log (URL t) held T Hl) as (h & _ & _ & Ec). destruct He as [-> |(m & ep & -> & Mn)].
    + assert (configuredTarget t = false) as -> by (unfold configuredTarget; destruct W as [_ ->]; done). cbn [andb ok]. eexists. split; [done|]. by apply kept_tracks.
    + assert (configuredTarget t = true) as -> by (unfold configuredTarget; destruct W as (_ & -> & Hne & _); by rewrite bool_decide_eq_false_2).
      rewrite Ec, Mn. cbn [andb ok]. rewrite bool_decide_eq_true_2 by done. eexists. split; [done|]. by apply upgrade_tracks.
  - destruct (new_tracks pod d log e t A T W) as (d' & -> & A' & T'); [destruct He as [->|(m & ep & -> & _)]; eauto|done|]. exists d'. done.
Qed.

(** *** A monitor's endpoint *)

Lemma merge_adopts t m ep : AuthAdopted (MergeMonitorEndpoint t m ep).2 = bool_decide (Auth t = noAuth) && negb (bool_decide (ep_Auth ep = noAuth)).
Proof.
  unfold MergeMonitorEndpoint. destruct (bare ep) eqn:B; [unfold bare in B; rewrite !andb_true_iff in B; destruct B as [_ ->]; by rewrite andb_false_r|].
  pose proof (merge_chain_spec t ep) as C1. destruct (merge_chain t ep) as [t1 [x y]]. destruct C1 as (_ & [= _ A1 _ _] & _).
  pose proof (mergeCadence_spec t1 ep) as C2. destruct (mergeCadence t1 ep) as [t2 z]. destruct C2 as (_ & [= _ A2 _] & _).
  unfold merge_auth. rewrite A2, A1. destruct (bool_decide (ep_Auth ep = noAuth)), (bool_decide (Auth t = noAuth)); cbn [andb negb]; repeat case_match; simplify_eq; done.
Qed.

Lemma auth_source_app l me : auth_source (l ++ [me]) = match auth_source l with Some s => Some s | None => if bool_decide (ep_Auth me.2 = noAuth) then None else Some (me.1, ep_Auth me.2) end.
Proof. unfold auth_source. rewrite omap_app. cbn. destruct (omap _ l); [by case_bool_decide|done]. Qed.

Lemma auth_source_auth l m a : auth_source l = Some (m, a) -> a <> noAuth.
Proof.
  unfold auth_source. intros E. apply head_Some_elem_of, list_elem_of_omap in E as (me & _ & E). case_bool_decide; [done|]. by injection E as <- <-.
Qed.

(** A further monitor is the adopter exactly when it is the first with a credential. *)
Lemma adopter_merge pod l held m ep o : Forall (well_formed_event pod) l -> served l = Some held -> monitors_of l <> [] ->
  o = adopter (fst <$> monitors_of l) ->
  (if bool_decide (Auth held = noAuth) && negb (bool_decide (ep_Auth ep = noAuth)) then Some m else o) = adopter ((fst <$> monitors_of l) ++ [(m, ep)]).
Proof.
  intros W S Hne ->. unfold served in S. destruct (monitors_of l) as [|[[m0 e0] t0] rest] eqn:Mo; [done|]. injection S as <-. rewrite merges_auth. cbn [with_service Auth].
  assert (A0 : Auth t0 = ep_Auth e0).
  { assert (E : (m0, e0, t0) ∈ monitors_of l) by (rewrite Mo; by left). unfold monitors_of in E. apply list_elem_of_omap in E as ([?|m' ep' t'] & Hin & [= -> -> ->]).
    rewrite Forall_forall in W. by destruct (W _ Hin) as (_ & _ & _ & ?). }
  rewrite A0. cbn [app adopter fmap list_fmap fst]. rewrite auth_source_app. cbn [fst snd]. destruct (bool_decide (ep_Auth e0 = noAuth)) eqn:D; [|by rewrite D].
  destruct (auth_source (fst <$> rest)) as [[m1 a1]|] eqn:R; cbn [default fmap option_fmap snd fst].
  - rewrite bool_decide_eq_false_2; [done|]. by apply (auth_source_auth _ _ _ R).
  - rewrite bool_decide_eq_true_2 by done. by destruct (bool_decide (ep_Auth ep = noAuth)).
Qed.

Lemma merge_tracks pod d log i held m ep t : accounts pod d -> tracks pod d log -> well_formed_event pod (ByMonitor m ep t) -> urlOwner d !! URL t = Some i -> out d !! i = Some held ->
  URL held = URL t -> configuredTarget held = true -> let '(_, _, d') := mergeInto i held (URL t) m ep d in accounts pod d' /\ tracks pod d' (log ++ [ByMonitor m ep t]).
Proof.
  intros A T W Ei Hi Hu Hc. assert (Hl : lookup_url (URL t) d = Some held) by (unfold lookup_url; by rewrite Ei).
  destruct (tracked_held pod d log (URL t) held T Hl) as (h & Sh & Est & Ec). rewrite Hc in Ec. apply eq_sym, negb_true_iff, bool_decide_eq_false in Ec.
  pose proof (strip_fields held h Est) as (_ & _ & Eau & Eid & Ews). unfold mergeInto. pose proof (merge_is_honoured held m ep) as M. pose proof (merge_same held m ep) as S.
  assert (Em : strip (MergeMonitorEndpoint held m ep).1 = strip (MergeMonitorEndpoint h m ep).1).
  { destruct (same_view _ _ S) as (V & _), (same_view _ _ (merge_same h m ep)) as (V' & _). unfold strip. by rewrite V, V', Eid, <- !merge_service, Ews. }
  pose proof (merge_adopts held m ep) as Ad.
  destruct (MergeMonitorEndpoint held m ep) as [held' rep]. cbn [fst snd] in *. destruct (same_view _ _ S) as (V & Vm & Vu & Vp).
  set (d1 := charge (Bytes rep) (set_out (<[i:=held']> (out d)) d)).
  assert (A1 : accounts pod d1).
  { apply (accounts_replace pod d d1 i held held'); try done; [cbn -[TargetOwnBytes]; rewrite (hn_bytes _ _ _ _ _ M); lia|apply (ac_once _ _ A)|]. intros tr Htr. left. split; [exact Htr|by right]. }
  assert (L : forall u, lookup_url u d1 = if decide (u = URL t) then Some held' else lookup_url u d).
  { intros u. rewrite <- Hu. apply (swapped_lookup d d1 i held held'); [by rewrite Hu|done|by apply (owner_one pod)|done]. }
  split; [destruct (AuthAdopted rep); destruct A1; split; done|]. set (d2 := if AuthAdopted rep then _ else d1).
  assert (E2 : (forall u, lookup_url u d2 = lookup_url u d1) /\ authOwner d2 = if AuthAdopted rep then <[URL t := m]> (authOwner d) else authOwner d) by (unfold d2; by destruct (AuthAdopted rep)).
  destruct E2 as [L2 O2]. apply (tracks_step pod d); try done; cbn [event_url].
  - intros u Hne. rewrite L2, L, decide_False by done. split; [done|]. rewrite O2. destruct (AuthAdopted rep); [by rewrite lookup_insert_ne|done].
  - rewrite L2, L, decide_True by done. rewrite served_monitor, Sh. rewrite bool_decide_eq_false_2 by done. cbn. by rewrite Em.
  - rewrite monitors_snoc, fmap_app. cbn [fmap list_fmap fst]. rewrite <- (adopter_merge pod _ h m ep (authOwner d !! URL t) (at_url_wf pod (URL t) log (tr_wf _ _ _ T)) Sh Ec (tr_auth _ _ _ T (URL t))).
    rewrite O2, Ad, Eau. destruct (bool_decide (Auth h = noAuth) && negb (bool_decide (ep_Auth ep = noAuth))); [by rewrite lookup_insert_eq|done].
Qed.

(** ** A pod's offers *)

Inductive offer := ADoor (t : ScrapeTarget) | AServiceMonitor (svc : Service) (monitor : bytes) (ep : Endpoint) | APodMonitor (name : bytes) (ep : Endpoint).

(** A door's target is the pod's and no monitor's; a monitor has a name. *)
Definition proper (pod : Pod) (o : offer) : Prop :=
  match o with ADoor t => t_Pod t = pod /\ Monitor t = [] | AServiceMonitor _ m _ => m <> [] | APodMonitor m _ => m <> [] end.

(** The verdict, or [None] when the endpoint does not resolve or was offered already. *)
Definition exec (pod : Pod) (o : offer) (st : monitorOffers * targetDedup) : option (option targetVerdict * (monitorOffers * targetDedup)) :=
  match o with
  | ADoor t => '(v, d) ← add t st.2; Some (Some v, (st.1, d))
  | AServiceMonitor svc m ep =>
      '(r, offers, d) ← offerServiceMonitor pod svc m ep st.1 st.2; Some (if resolved r && negb (repeat r) then Some (eo_refused r) else None, (offers, d))
  | APodMonitor m ep => '(r, d) ← offerPodMonitor pod m ep st.2; Some (if resolved r then Some (eo_refused r) else None, (st.1, d))
  end.

(** What the offer is an offer of. *)
Definition event_of (pod : Pod) (o : offer) (d : targetDedup) : option event :=
  match o with
  | ADoor t => Some (ByDoor t)
  | AServiceMonitor svc m ep => ByMonitor m ep <$> head (MonitorTargets (next d) pod svc m ep)
  | APodMonitor m ep => ByMonitor m ep <$> head (PodMonitorTargets pod m ep)
  end.
Definition event_target (e : event) : ScrapeTarget := match e with ByDoor t => t | ByMonitor _ _ t => t end.

Definition repeated (pod : Pod) (o : offer) (offers : monitorOffers) : bool :=
  match o with AServiceMonitor svc _ ep => match MonitorTargetURL pod svc ep with Some u => bool_decide ((u, ep_addr ep) ∈ offers) | None => false end | _ => false end.

(** A pod's offers in turn, and the events they were accepted as. *)
Fixpoint exec_all (pod : Pod) (os : list offer) (st : monitorOffers * targetDedup) (log : list event) : option (list event * (monitorOffers * targetDedup)) :=
  match os with
  | [] => Some (log, st)
  | o :: os => '(v, st') ← exec pod o st; exec_all pod os st' (match v, event_of pod o st.2 with Some targetAccepted, Some e => log ++ [e] | _, _ => log end)
  end.

Lemma offer_at_tracks pod d log m ep t : accounts pod d -> tracks pod d log -> well_formed_event pod (ByMonitor m ep t) ->
  exists r d', offer_at (URL t) m ep [t] d = Some (r, d') /\ resolved r = true /\ repeat r = false /\ eo_refused r = verdict d pod t /\
    accounts pod d' /\ tracks pod d' (if ok (verdict d pod t) then log ++ [ByMonitor m ep t] else log).
Proof.
  intros A T W. unfold offer_at, monitorHolder. assert (Free : forall i held, urlOwner d !! URL t = Some i -> out d !! i = Some held -> lookup_url (URL t) d = Some held) by (intros i held E Hi; unfold lookup_url; by rewrite E).
  assert (Add : monitors_of (at_url (URL t) log) = [] -> exists r d', ('(v, d') ← adds [t] targetAccepted d; Some (mkOffer (URL t) true false None v, d')) = Some (r, d') /\ resolved r = true /\ repeat r = false /\ eo_refused r = verdict d pod t /\
    accounts pod d' /\ tracks pod d' (if ok (verdict d pod t) then log ++ [ByMonitor m ep t] else log)).
  { intros Mn. destruct (add_tracks pod d log (ByMonitor m ep t) t A T W) as (d' & Ea & A' & T'); [right; by exists m, ep|]. cbn [adds]. rewrite Ea. cbn [mbind option_bind].
    eexists _, d'. split; [done|]. cbn [resolved repeat eo_refused]. split_and!; try done. by destruct (verdict d pod t). }
  destruct (urlOwner d !! URL t) as [i|] eqn:Ei.
  - destruct (held_at pod d (URL t) i A Ei) as (held & Hi & Hu & Hp & Hl). rewrite Hi. cbn [mbind option_bind]. destruct (tracked_held pod d log (URL t) held T Hl) as (h & _ & _ & Ec). destruct (configuredTarget held) eqn:Hc.
    + pose proof (merge_tracks pod d log i held m ep t A T W Ei Hi Hu Hc) as M. destruct (mergeInto i held (URL t) m ep d) as [[held' rep] d']. eexists _, d'. split; [done|]. unfold verdict. rewrite Ei. cbn. split_and!; try done; by destruct M.
    + apply Add. symmetry in Ec. by apply negb_false_iff, bool_decide_eq_true in Ec.
  - cbn [mbind option_bind]. apply Add. apply (tracked_free pod d log (URL t) T). unfold lookup_url. by rewrite Ei.
Qed.

Lemma monitor_target addr pod svc m ep : match MonitorTargetURL pod svc ep with
  | Some u => exists t, MonitorTargets addr pod svc m ep = [t] /\ URL t = u /\ (m <> [] -> well_formed_event pod (ByMonitor m ep t))
  | None => MonitorTargets addr pod svc m ep = [] end.
Proof. unfold MonitorTargetURL, MonitorTargets. destruct (monitorEndpoint pod svc ep) as [[[s p] n]|]; [|done]. eexists. split; [done|]. done. Qed.

Lemma podmonitor_target pod m ep : match PodMonitorTargetURL pod ep with
  | Some u => exists t, PodMonitorTargets pod m ep = [t] /\ URL t = u /\ (m <> [] -> well_formed_event pod (ByMonitor m ep t))
  | None => PodMonitorTargets pod m ep = [] end.
Proof. unfold PodMonitorTargetURL, PodMonitorTargets. destruct (podMonitorEndpoint pod ep) as [[[s p] n]|]; [|done]. eexists. split; [done|]. done. Qed.

Lemma accounts_next pod d n : accounts pod d -> accounts pod (set_next n d).
Proof. intros []. by split. Qed.
Lemma tracks_next pod d log n : tracks pod d log -> tracks pod (set_next n d) log.
Proof. intros []. by split. Qed.

(** What an offer is answered. *)
Definition answer (pod : Pod) (o : offer) (st : monitorOffers * targetDedup) : option targetVerdict :=
  if repeated pod o st.1 then None else (fun e => verdict st.2 pod (event_target e)) <$> event_of pod o st.2.

Lemma exec_tracks pod o st log : accounts pod st.2 -> tracks pod st.2 log -> proper pod o ->
  exists st', exec pod o st = Some (answer pod o st, st') /\ accounts pod st'.2 /\ st.1 ⊆ st'.1 /\
    tracks pod st'.2 (match answer pod o st, event_of pod o st.2 with Some targetAccepted, Some e => log ++ [e] | _, _ => log end).
Proof.
  destruct st as [offers d]. cbn [fst snd]. intros A T P. unfold answer. destruct o as [t|svc m ep|m ep]; cbn [exec repeated event_of fst snd fmap option_fmap option_map] in *.
  - destruct (add_tracks pod d log (ByDoor t) t A T P) as (d' & Ea & A' & T'); [by left|]. rewrite Ea. cbn [mbind option_bind event_target option_map]. eexists. split; [done|]. cbn [fst snd]. split; [done|]. split; [set_solver|]. by destruct (verdict d pod t).
  - unfold offerServiceMonitor. pose proof (monitor_target (next d) pod svc m ep) as M. destruct (MonitorTargetURL pod svc ep) as [u|].
    + destruct M as (t & -> & <- & W). specialize (W P). unfold first. case_bool_decide as E.
      * cbn. eexists. split; [done|]. cbn [fst snd]. split; [done|]. split; [set_solver|done].
      * cbn [negb]. destruct (offer_at_tracks pod (set_next (next d + 1) d) log m ep t (accounts_next _ _ _ A) (tracks_next _ _ _ _ T) W) as (r & d' & -> & R1 & R2 & R3 & A' & T').
        cbn [mbind option_bind head fmap option_fmap option_map event_target]. rewrite R1, R2, R3. cbn [andb negb]. eexists. split; [done|]. cbn [fst snd]. split; [done|]. split; [set_solver|].
        change (verdict (set_next (next d + 1) d) pod t) with (verdict d pod t) in *. by destruct (verdict d pod t).
    + rewrite M. cbn. eexists. split; [done|]. cbn [fst snd]. split; [done|]. split; [set_solver|done].
  - unfold offerPodMonitor. pose proof (podmonitor_target pod m ep) as M. destruct (PodMonitorTargetURL pod ep) as [u|].
    + destruct M as (t & -> & <- & W). specialize (W P). destruct (offer_at_tracks pod d log m ep t A T W) as (r & d' & -> & R1 & R2 & R3 & A' & T').
      cbn [mbind option_bind head fmap option_fmap option_map event_target]. rewrite R1, R3. eexists. split; [done|]. cbn [fst snd]. split; [done|]. split; [set_solver|]. by destruct (verdict d pod t).
    + rewrite M. cbn. eexists. split; [done|]. cbn [fst snd]. split; [done|]. split; [set_solver|done].
Qed.

Lemma tracks_reset pod d : tracks pod (reset [] d) [].
Proof. split; [constructor|done|done]. Qed.

Lemma exec_all_tracks pod os : forall st log, accounts pod st.2 -> tracks pod st.2 log -> Forall (proper pod) os ->
  exists log' st', exec_all pod os st log = Some (log', st') /\ accounts pod st'.2 /\ tracks pod st'.2 log' /\ st.1 ⊆ st'.1.
Proof.
  induction os as [|o os IH]; intros st log A T P; [by exists log, st|]. apply Forall_cons in P as [P Ps]. destruct (exec_tracks pod o st log A T P) as (st1 & E & A1 & S1 & T1).
  cbn [exec_all]. rewrite E. cbn [mbind option_bind]. destruct (IH st1 _ A1 T1 Ps) as (log' & st' & E' & A' & T' & S'). exists log', st'. split_and!; try done. set_solver.
Qed.

(** ** The claims *)

(** C10: Whatever a pod's doors and monitors offer, in whatever order: no position
    is out of range; a URL has one target, at the position the index names; there
    are at most sixteen; and the documents served, as they are charged, never
    exceed what was charged.  A trimmed view is served, has no labels or
    annotations, and is not the first target's.  A further offer is refused
    exactly when its URL is new and either sixteen are held, or one is and its
    document would pass the ceiling; an endpoint already offered to its URL, or
    without one, is not an offer. *)
Theorem pod_targets_bounded pod os d0 : Forall (proper pod) os ->
  exists log offers d, exec_all pod os (∅, reset [] d0) [] = Some (log, (offers, d)) /\ accounts pod d /\
  (forall o, proper pod o -> exists st', exec pod o (offers, d) = Some (answer pod o (offers, d), st') /\ accounts pod st'.2).
Proof.
  intros P. destruct (exec_all_tracks pod os (∅, reset [] d0) [] (accounts_reset pod d0) (tracks_reset pod d0) P) as (log & [offers d] & E & A & T & _).
  exists log, offers, d. split; [done|]. split; [done|]. intros o Po. destruct (exec_tracks pod o (offers, d) log A T Po) as (st' & Eo & A' & _). by exists st'.
Qed.

Lemma first_offered url ep o : (url, ep_addr ep) ∈ (first url ep o).2.
Proof. unfold first. case_bool_decide; [done|set_solver]. Qed.

Lemma exec_offers pod svc m ep u st v st' : MonitorTargetURL pod svc ep = Some u -> exec pod (AServiceMonitor svc m ep) st = Some (v, st') -> (u, ep_addr ep) ∈ st'.1.
Proof.
  intros Eu. cbn [exec]. unfold offerServiceMonitor. rewrite Eu. pose proof (first_offered u ep st.1) as F. destruct (first u ep st.1) as [new offers]. destruct new; cbn [negb].
  - destruct (offer_at _ _ _ _ _) as [[r d]|]; [|done]. by intros [= _ <-].
  - by intros [= _ <-].
Qed.

Lemma exec_grows pod o st v st' : exec pod o st = Some (v, st') -> st.1 ⊆ st'.1.
Proof.
  destruct o; cbn [exec].
  - destruct (add _ _) as [[? ?]|]; [|done]. by intros [= _ <-].
  - unfold offerServiceMonitor. destruct (MonitorTargetURL _ _ _); [|by intros [= _ <-]]. unfold first. case_bool_decide; cbn [negb]; [by intros [= _ <-]|].
    destruct (offer_at _ _ _ _ _) as [[? ?]|]; [|done]. intros [= _ <-]. cbn. set_solver.
  - destruct (offerPodMonitor _ _ _ _) as [[? ?]|]; [|done]. by intros [= _ <-].
Qed.

Lemma exec_all_offers pod svc m ep u os : forall st log log' st', MonitorTargetURL pod svc ep = Some u -> exec_all pod os st log = Some (log', st') ->
  AServiceMonitor svc m ep ∈ os \/ (u, ep_addr ep) ∈ st.1 -> (u, ep_addr ep) ∈ st'.1.
Proof.
  induction os as [|o os IH]; intros st log log' st' Eu E Hin; cbn [exec_all] in E.
  { injection E as <- <-. destruct Hin as [Hin|]; [by apply elem_of_nil in Hin|done]. }
  destruct (exec pod o st) as [[v st1]|] eqn:Eo; [|done]. cbn [mbind option_bind] in E. apply (IH _ _ _ _ Eu E). destruct Hin as [Hin|Hin]; [|right; by apply (exec_grows _ _ _ _ _ Eo)].
  apply elem_of_cons in Hin as [<-|Hin]; [right; by apply (exec_offers pod svc m ep u st v)|by left].
Qed.

(** C9: What is served for a URL is one function of the offers of that URL that
    were accepted, up to the labels of the Service view: the first monitor's
    target with every later monitor merged into it in order, or without a monitor
    the first annotation's, carrying the first Service view among them; how doors
    and monitors interleave does not matter, nor do other URLs.  The credential
    served is the first that was declared, and it is attributed to the monitor
    that declared it.  Offering an endpoint again through another Service of the
    same URL changes nothing. *)
Theorem served_per_url pod os d0 log offers d : Forall (proper pod) os -> exec_all pod os (∅, reset [] d0) [] = Some (log, (offers, d)) ->
  (forall u, strip <$> lookup_url u d = strip <$> served (at_url u log)) /\
  (forall u h, lookup_url u d = Some h -> monitors_of (at_url u log) <> [] ->
    match auth_source (fst <$> monitors_of (at_url u log)) with Some (m, a) => Auth h = a /\ servingAuth u (Monitor h) d = m | None => Auth h = noAuth end) /\
  (forall svc svc' m m' ep ep', AServiceMonitor svc m ep ∈ os -> MonitorTargetURL pod svc' ep' = MonitorTargetURL pod svc ep -> ep_addr ep' = ep_addr ep ->
    exec pod (AServiceMonitor svc' m' ep') (offers, d) = Some (None, (offers, d))).
Proof.
  intros P E. destruct (exec_all_tracks pod os (∅, reset [] d0) [] (accounts_reset pod d0) (tracks_reset pod d0) P) as (log' & [offers' d'] & E' & A & T & _).
  rewrite E in E'. injection E' as <- <- <-. split; [apply (tr_served _ _ _ T)|]. split.
  - intros u h Hl Hne. destruct (tracked_held pod d log u h T Hl) as (h' & Sh & Est & _). destruct (strip_fields h h' Est) as (_ & Em & Ea & _). pose proof (tr_auth _ _ _ T u) as To. cbn [snd] in To.
    pose proof (at_url_wf pod u log (tr_wf _ _ _ T)) as W. unfold served in Sh. destruct (monitors_of (at_url u log)) as [|[[m0 e0] t0] rest] eqn:Mo; [done|].
    assert (Hin : (m0, e0, t0) ∈ monitors_of (at_url u log)) by (rewrite Mo; by left). unfold monitors_of in Hin. apply list_elem_of_omap in Hin as ([?|m' ep' t'] & Hin & [= -> -> ->]).
    rewrite Forall_forall in W. destruct (W _ Hin) as (_ & Wm & _ & Wa). injection Sh as <-. rewrite Ea, merges_auth, Em. unfold servingAuth. rewrite To.
    destruct (same_view _ _ (merges_same (fst <$> rest) (with_service (first_view (t0 :: doors_of (at_url u log))) t0))) as (_ & Sm & _). rewrite Sm. cbn [with_service Auth Monitor fmap list_fmap fst adopter].
    rewrite Wa, Wm. unfold auth_source. cbn [omap list_omap fst snd]. destruct (bool_decide (ep_Auth e0 = noAuth)); [|done]. fold (auth_source (fst <$> rest)). by destruct (auth_source (fst <$> rest)) as [[m1 a1]|].
  - intros svc svc' m m' ep ep' Hin Eu Ep. cbn [exec fst snd]. unfold offerServiceMonitor. rewrite Eu. destruct (MonitorTargetURL pod svc ep) as [u|] eqn:Es; [|done].
    pose proof (exec_all_offers pod svc m ep u os _ _ _ _ Es E (or_introl Hin)) as Ho. unfold first. rewrite Ep. by rewrite bool_decide_eq_true_2.
Qed.

End Served.
