(* ===== verification/NodeTargets.v ===== *)
(** * A node's targets ([internal/server/nodetargets.go], with the reports of [targetwarn.go])

    For every pod of the node the doors and monitors that select it offer to one
    accumulator, and the list is sorted.  What is reported is a list of reports,
    in order, as they reach the throttles.  What the resolver answers in the
    request, where allocations are made, and what a label selector of a monitor matches are
    parameters. *)

From stdpp Require Import sorting.
From S2P Require Import Prelude Clip Number Text Order KubeMeta Targets Collide Merge Dedup.
Local Open Scope Z_scope.

(** [for _, x := range l] over what may panic. *)
Definition for_each {A B : Type} (f : B -> A -> option B) (l : list A) (b : B) : option B := foldl (fun ob x => b ← ob; f b x) (Some b) l.

(** ** The monitors of the Services *)

(** A monitor's identity, the namespaces it selects in ([None] is nil: all of
    them), what its selector matches, and its endpoints. *)
Record monitorBase := mkMonitor { mo_Namespace : bytes; mo_Name : bytes; namespaces : option (list bytes); Matches : strmap -> bool; Endpoints : list Endpoint }.
Notation monitorMap := (gmap bytes (list (bytes * Endpoint))).

Definition full_name (m : monitorBase) : bytes := mo_Namespace m ++ text "/" ++ mo_Name m.

Definition appendNamespaceSetKey (ns : option (list bytes)) : bytes :=
  match ns with None => [1] | Some l => [2] ++ (l ≫= fun n => n ++ [0]) end.

(** [out[svc.UID] = append(out[svc.UID], ...)], for each endpoint. *)
Definition append_endpoints (m : monitorBase) (svc : Service) (o : monitorMap) : monitorMap :=
  foldl (fun o ep => <[Services.UID svc := default [] (o !! Services.UID svc) ++ [(full_name m, ep)]]> o) o (Endpoints m).

Definition match_services (m : monitorBase) (svcs : list Service) (o : monitorMap) : monitorMap :=
  foldl (fun o svc => if negb (Matches m (Services.Labels svc)) then o else append_endpoints m svc o) o svcs.

(** The run's key and snapshot, if there is one, and what is built. *)
Definition build_one (all : option (list bytes) -> list Service) (st : option (bytes * list Service) * monitorMap) (m : monitorBase)
    : option (bytes * list Service) * monitorMap :=
  let '(run, o) := st in
  let key := appendNamespaceSetKey (namespaces m) in
  let run := match run with Some (k, svcs) => if bool_decide (key = k) then (k, svcs) else (key, all (namespaces m)) | None => (key, all (namespaces m)) end in
  (Some run, match_services m run.2 o).

(** [all] is what [Index.All] answers, of an index that stands still meanwhile. *)
Definition buildMonitoredServices (all : option (list bytes) -> list Service) (monitors : list monitorBase) : monitorMap := (foldl (build_one all) (None, ∅) monitors).2.

(** The memo, with the tokens it is stamped with. *)
Record monMemo := mkMemoOf { monValid : bool; monGen : Z; svcGen : Z; monCache : monitorMap }.

Definition mon_stale (mg sg : Z) (c : monMemo) : bool := negb (monValid c) || (monGen c <? mg) || (svcGen c <? sg).
Definition mon_store (build : monitorMap) (mg sg : Z) (c : monMemo) : monMemo := mkMemoOf true (Z.max (monGen c) mg) (Z.max (svcGen c) sg) build.
(** When nothing moves meanwhile. *)
Definition monitoredServicesAt (build : monitorMap) (mg sg : Z) (c : monMemo) : monMemo := if mon_stale mg sg c then mon_store build mg sg c else c.

Record podMonitorRef := mkPmRef { pm_monitor : monitorBase; pm_name : bytes; pm_namespaces : option (list bytes) }.
Definition allPodMonitors (all : list monitorBase) : list podMonitorRef := (fun m => mkPmRef m (full_name m) (namespaces m)) <$> all.

Record pmMemo := mkPmMemo { pmValid : bool; pmGen : Z; pmCache : list podMonitorRef }.

Definition pm_fresh (gen : Z) (c : pmMemo) : bool := pmValid c && (gen <=? pmGen c).
Definition pm_store (refs : list podMonitorRef) (gen : Z) (c : pmMemo) : pmMemo := mkPmMemo true (Z.max (pmGen c) gen) refs.
Definition allPodMonitorsAt (all : list monitorBase) (gen : Z) (c : pmMemo) : pmMemo := if pm_fresh gen c then c else pm_store (allPodMonitors all) gen c.

Definition podMonitorsFor (pod : Pod) (all : list podMonitorRef) : list podMonitorRef :=
  List.filter (fun ref => match pm_namespaces ref with Some l => bool_decide (pod_Namespace pod ∈ l) | None => true end && Matches (pm_monitor ref) (pod_Labels pod)) all.

(** ** The Services of a pod *)

Definition serviceOptsIn (svc : Service) (monitored : monitorMap) : bool :=
  OptedIn (Services.Annotations svc) || negb (bool_decide (default [] (monitored !! Services.UID svc) = [])).

(** Of each namespace; a namespace of none is absent, and a missing key reads as
    nil. *)
Definition optInServices (byNamespace : lists) (monitored : monitorMap) : lists :=
  omap (fun l => match List.filter (fun svc => serviceOptsIn svc monitored) l with [] => None | kept => Some kept end) byNamespace.

Definition podNamespaces (pods : list Pod) : list bytes :=
  foldl (fun out p => if bool_decide (pod_Namespace p ∈ out) then out else out ++ [pod_Namespace p]) [] pods.

Definition matchingServices (inNamespace : list Service) (podLabels : strmap) : list Service :=
  List.filter (fun svc => Selects (map_to_list (Selector svc)) svc podLabels) inNamespace.

(** ** Reports *)

Inductive report :=
  | AuthConflicted (kind serving conflicting url : bytes)
  | RelabelChainCapped (kind monitor url : bytes)
  | ContributorListCapped (kind monitor url : bytes) (firstForPod : bool)
  | EndpointUnresolved (kind monitor : bytes) (ep : Endpoint) (pod : Pod)
  | PodTargetsCapped (pod : Pod) (dropped droppedBySize : Z)
  | ServiceViewTrimmed (pod : Pod) (svc : option View) (targets : Z)
  | IdentityCollided (c : InstanceCollision).

(** What a request resolves once: the doors of Services, by pointer; owner
    chains, by the key of a namespace and references; and namespaces. *)
Record memos := mkMemos { m_doors : list (Service * ServiceDoor); m_owners : gmap bytes (list Owner * Z); m_namespaces : gmap bytes (option ObjectMeta) }.

(** One request: the accumulator, the pod's offers and unresolved endpoints, and
    across the pods the monitors already asked for, the reports and the memos. *)
Record request := mkReq { rq_d : targetDedup; rq_offers : monitorOffers; pending : list (bytes * Endpoint); asked : gset (bytes * bytes); reports : list report; rq_memo : memos }.

Definition reportMerge (kind monitor url : bytes) (held : ScrapeTarget) (rep : MergeReport) (d : targetDedup) : list report * targetDedup :=
  let conflict := if AuthConflict rep then [AuthConflicted kind (servingAuth url (Monitor held) d) monitor url] else [] in
  let relabel := if RelabelCapped rep then [RelabelChainCapped kind monitor url] else [] in
  if ContributorsCapped rep then let '(new, d) := firstContribCap kind url d in (conflict ++ relabel ++ [ContributorListCapped kind monitor url new], d)
  else (conflict ++ relabel, d).

Definition reportableUnresolved (ep : Endpoint) : bool := negb (bool_decide (ep_Port ep = [])) || match ep_TargetPort ep with Some _ => true | None => false end.

(** [unresolvedReports.resolved]: whether the endpoint was offered to any URL. *)
Definition offered_somewhere (o : monitorOffers) (ep : Endpoint) : bool := bool_decide (ep_addr ep ∈ (set_map snd o : gset Z)).

Definition noteUnresolved (kind monitor : bytes) (ep : Endpoint) (pod : Pod) (rq : request) : request :=
  if negb (reportableUnresolved ep) || bool_decide ((kind, monitor) ∈ asked rq) then rq
  else mkReq (rq_d rq) (rq_offers rq) (pending rq) ({[ (kind, monitor) ]} ∪ asked rq) (reports rq ++ [EndpointUnresolved kind monitor ep pod]) (rq_memo rq).

Definition same_service (a b : option View) : bool :=
  match a, b with Some a, Some b => bool_decide (v_Namespace a = v_Namespace b) && bool_decide (v_Name a = v_Name b) | _, _ => false end.
Definition trimmedFor (l : list viewTrim) (svc : option View) : Z := Z.of_nat (length (List.filter (fun tr => same_service (trim_svc tr) svc) l)).

(** The loop of [reportViewsTrimmed], with what came before. *)
Fixpoint views_trimmed (pod : Pod) (before l : list viewTrim) : list report :=
  match l with
  | [] => []
  | tr :: l' => (if 0 <? trimmedFor before (trim_svc tr) then [] else [ServiceViewTrimmed pod (trim_svc tr) (trimmedFor l (trim_svc tr))]) ++ views_trimmed pod (before ++ [tr]) l'
  end.
Definition reportViewsTrimmed (pod : Pod) (d : targetDedup) : list report := views_trimmed pod [] (trimmed d).

(** ** One pod *)

Section Derivation.
Context `{GoText}.
(** Where a Service's view is allocated for the request, when its door is made. *)
Context (door_addr : Service -> Z).

Definition with_d (d : targetDedup) (rq : request) : request := mkReq d (rq_offers rq) (pending rq) (asked rq) (reports rq) (rq_memo rq).

Definition add_all (ts : list ScrapeTarget) (rq : request) : option request := for_each (fun rq t => '(_, d) ← add t (rq_d rq); Some (with_d d rq)) ts rq.

(** A merge is reported, and the report's gate is in the accumulator. *)
Definition after_offer (kind monitor : bytes) (o : endpointOffer) (rq : request) : request :=
  match merged o with
  | Some (held, rep) => let '(rs, d) := reportMerge kind monitor (eo_url o) held rep (rq_d rq) in mkReq d (rq_offers rq) (pending rq) (asked rq) (reports rq ++ rs) (rq_memo rq)
  | None => rq
  end.

Definition offer_sme (pod : Pod) (svc : Service) (rq : request) (sme : bytes * Endpoint) : option request :=
  '(o, offers, d) ← offerServiceMonitor pod svc sme.1 sme.2 (rq_offers rq) (rq_d rq);
  let rq := mkReq d offers (pending rq) (asked rq) (reports rq) (rq_memo rq) in
  if negb (resolved o) then Some (mkReq d offers (pending rq ++ [sme]) (asked rq) (reports rq) (rq_memo rq)) else Some (after_offer (text "servicemonitor") sme.1 o rq).

(** [serviceDoors.targets], up to the door. *)
Definition door_of (svc : Service) (m : memos) : ServiceDoor * memos :=
  match find (fun sd => bool_decide (fst sd = svc)) (m_doors m) with
  | Some (_, door) => (door, m)
  | None => let door := NewServiceDoor (door_addr svc) svc in (door, mkMemos ((svc, door) :: m_doors m) (m_owners m) (m_namespaces m))
  end.

Definition with_memo (m : memos) (rq : request) : request := mkReq (rq_d rq) (rq_offers rq) (pending rq) (asked rq) (reports rq) m.

Definition offer_service (monitored : monitorMap) (pod : Pod) (rq : request) (svc : Service) : option request :=
  let '(door, m) := door_of svc (rq_memo rq) in
  rq ← add_all (door_targets door pod) (with_memo m rq);
  for_each (offer_sme pod svc) (default [] (monitored !! Services.UID svc)) rq.

Definition note_pending (pod : Pod) (rq : request) (sme : bytes * Endpoint) : request :=
  if bool_decide ((text "servicemonitor", sme.1) ∈ asked rq) || offered_somewhere (rq_offers rq) sme.2 then rq
  else noteUnresolved (text "servicemonitor") sme.1 sme.2 pod rq.

Definition offer_pm (pod : Pod) (name : bytes) (rq : request) (ep : Endpoint) : option request :=
  '(o, d) ← offerPodMonitor pod name ep (rq_d rq);
  let rq := with_d d rq in
  if negb (resolved o) then Some (noteUnresolved (text "podmonitor") name ep pod rq) else Some (after_offer (text "podmonitor") name o rq).

(** [addr] is where the pod's allocations begin. *)
Definition reset_pod (addr : Z) (rq : request) : request := mkReq (set_next addr (reset (out (rq_d rq)) (rq_d rq))) ∅ [] (asked rq) (reports rq) (rq_memo rq).

Definition derive_pod (monitored : monitorMap) (pod : Pod) (addr : Z) (matched : list Service) (pms : list podMonitorRef) (rq : request) : option request :=
  rq ← add_all (PodTargets pod) (reset_pod addr rq);
  rq ← for_each (offer_service monitored pod) matched rq;
  let rq := foldl (note_pending pod) rq (pending rq) in
  rq ← for_each (fun rq pm => for_each (offer_pm pod (pm_name pm)) (Endpoints (pm_monitor pm)) rq) pms rq;
  let capped_report := if 0 <? capped (rq_d rq) then [PodTargetsCapped pod (capped (rq_d rq)) (cappedBySize (rq_d rq))] else [] in
  Some (mkReq (rq_d rq) (rq_offers rq) (pending rq) (asked rq) (reports rq ++ capped_report ++ reportViewsTrimmed pod (rq_d rq)) (rq_memo rq)).

(** ** The node *)

(** What [Resolve] and [Namespace] of the resolver answer in the request. *)
Context (resolve : bytes -> list OwnerReference -> list Owner * Z) (ns_meta : bytes -> option ObjectMeta) (alloc : Pod -> Z).

Definition controls (ref : OwnerReference) : bool := match ref_Controller ref with Some b => b | None => false end.

Definition appendOwnerKey (namespace : bytes) (refs : list OwnerReference) : bytes :=
  foldl (fun dst ref => dst ++ [0] ++ ref_APIVersion ref ++ [0] ++ ref_Kind ref ++ [0] ++ ref_Name ref ++ [0] ++ ref_UID ref ++ (if controls ref then [1] else [2])) namespace refs.

Definition enrichCached (m : memos) (pod : Pod) (refs : list OwnerReference) : Pod * memos :=
  let key := appendOwnerKey (pod_Namespace pod) refs in
  let '(r, owners) := match m_owners m !! key with Some r => (r, m_owners m) | None => let r := resolve (pod_Namespace pod) refs in (r, <[key := r]> (m_owners m)) end in
  let '(meta, nss) := match m_namespaces m !! pod_Namespace pod with
    | Some meta => (meta, m_namespaces m)
    | None => let meta := ns_meta (pod_Namespace pod) in (meta, <[pod_Namespace pod := meta]> (m_namespaces m)) end in
  (mkPod (pod_Name pod) (pod_Namespace pod) (pod_UID pod) (NodeName pod) (PodIP pod) (PodIPs pod) (HostIP pod) (Phase pod) (pod_Labels pod) (pod_Annotations pod)
    (DeletionTimestamp pod) (DeletedAt pod) meta r.1 r.2 (Containers pod), mkMemos (m_doors m) owners nss).

Definition node_pod (optIn : lists) (monitored : monitorMap) (all : list podMonitorRef) (rq : request) (np : Pod * list OwnerReference) : option request :=
  let '(pod, refs) := np in
  if negb (Scrapeable pod) then Some rq
  else
    let matched := matchingServices (default [] (optIn !! pod_Namespace pod)) (pod_Labels pod) in
    let pms := podMonitorsFor pod all in
    if negb (OptedIn (pod_Annotations pod)) && bool_decide (matched = []) && (match pms with [] => true | _ => false end) then Some rq
    else let '(enriched, m) := enrichCached (rq_memo rq) pod refs in derive_pod monitored enriched (alloc pod) matched pms (with_memo m rq).

End Derivation.

(** *** The sorted list *)

(** [strings.Compare] on each field in turn. *)
Definition target_key (t : ScrapeTarget) : list bytes := [URL t; Monitor t; Source t; pod_UID (t_Pod t)].
Fixpoint keys_leb (a b : list bytes) : bool :=
  match a, b with x :: a, y :: b => if bool_decide (x = y) then keys_leb a b else name_leb x y | _, _ => true end.
Definition target_le (a b : ScrapeTarget) : Prop := keys_leb (target_key a) (target_key b) = true.

Section Permute.
Context {A : Type}.

(** One cycle; [-1] marks a visited slot.  It visits a slot each turn, so their
    number is fuel enough. *)
Fixpoint cycle (fuel : nat) (i j : nat) (tmp : A) (s : list A) (idx : list Z) : option (list A * list Z) :=
  match fuel with
  | 0%nat => None
  | S fuel =>
      k ← idx !! j;
      let idx := <[j := -1]> idx in
      if k =? Z.of_nat i then Some (<[j := tmp]> s, idx)
      else x ← s !! Z.to_nat k; if k <? 0 then None else cycle fuel i (Z.to_nat k) tmp (<[j := x]> s) idx
  end.

Definition permute_at (st : list A * list Z) (i : nat) : option (list A * list Z) :=
  let '(s, idx) := st in
  k ← idx !! i;
  if k <? 0 then Some (s, idx) else tmp ← s !! i; cycle (length idx) i i tmp s idx.

Definition permuteTargets (s : list A) (idx : list Z) : option (list A) := fst <$> for_each permute_at (seq 0 (length idx)) (s, idx).

End Permute.

(** [sort] is [slices.SortFunc] on the indices, with the comparison of the
    targets they name. *)
Definition sortTargets (sort : list ScrapeTarget -> list Z -> list Z) (targets : list ScrapeTarget) : option (list ScrapeTarget) :=
  if Z.of_nat (length targets) <? 2 then Some targets else permuteTargets targets (sort targets (Z.of_nat <$> seq 0 (length targets))).

(** [nodeTargets], given the memoised inputs; the diagnostic flag is off. *)
Definition new_request : request := mkReq (mkDedup [] ∅ ∅ 0 0 0 0 0 false ∅ [] 0 0) ∅ [] ∅ [] (mkMemos [] ∅ ∅).

Definition nodeTargets `{GoText} (door_addr : Service -> Z) (resolve : bytes -> list OwnerReference -> list Owner * Z) (ns_meta : bytes -> option ObjectMeta) (alloc : Pod -> Z) (sort : list ScrapeTarget -> list Z -> list Z)
    (inNamespaces : list bytes -> lists) (monitored : monitorMap) (podMonitors : list monitorBase) (pods : list (Pod * list OwnerReference)) : option (list ScrapeTarget * list report) :=
  if bool_decide (length pods = 0%nat) then Some ([], [])
  else
    let optIn := optInServices (inNamespaces (podNamespaces (fst <$> pods))) monitored in
    rq ← for_each (node_pod door_addr resolve ns_meta alloc optIn monitored (allPodMonitors podMonitors)) pods new_request;
    targets ← sortTargets sort (out (rq_d rq));
    collisions ← Collisions targets;
    Some (targets, reports rq ++ (IdentityCollided <$> collisions)).
