(* ===== verification/NodeTargetsPod.v ===== *)
(** * Sorting a node's targets ([internal/server/nodetargets.go])

    Following the cycles of a permutation in place applies it; and the order of
    the targets is total on what the accumulators of distinct pods hold. *)

From stdpp Require Import sorting.
From S2P Require Import Prelude Clip Order Number Text KubeMeta Targets Merge Dedup DedupSafe NodeTargets.
Local Open Scope Z_scope.

(** ** The permutation in place *)

Section Permute.
Context {A : Type} (s0 : list A) (p : list nat).
Context (Hp : p ≡ₚ seq 0 (length s0)).

Lemma perm_length : length p = length s0.
Proof. by rewrite Hp, length_seq. Qed.

Lemma perm_inj i j k : p !! i = Some k -> p !! j = Some k -> i = j.
Proof. intros Hi Hj. eapply (NoDup_lookup p); [|done..]. rewrite Hp. apply NoDup_seq. Qed.

Lemma perm_lt i k : p !! i = Some k -> (k < length s0)%nat.
Proof. intros Hi. apply list_elem_of_lookup_2 in Hi. rewrite Hp in Hi. apply elem_of_seq in Hi. lia. Qed.

(** Slots that are marked have their element; the others are as they were, and
    lead to slots that are not marked, or close the cycle at [i]. *)
Record cycling (i : nat) (s : list A) (idx : list Z) : Prop := {
  cy_len : length s = length s0;
  cy_idx : length idx = length s0;
  cy_old : forall x k, p !! x = Some k -> idx !! x = Some (Z.of_nat k) \/ idx !! x = Some (-1);
  cy_new : forall x k, p !! x = Some k -> idx !! x = Some (-1) -> s !! x = s0 !! k;
  cy_same : forall x k, p !! x = Some k -> idx !! x = Some (Z.of_nat k) -> s !! x = s0 !! x;
  cy_next : forall x k, p !! x = Some k -> idx !! x = Some (Z.of_nat k) -> k = i \/ idx !! k <> Some (-1) }.

Definition free (idx : list Z) : nat := length (List.filter (fun k => 0 <=? k) idx).

Lemma free_mark idx j k : idx !! j = Some k -> 0 <= k -> free idx = S (free (<[j := -1]> idx)).
Proof.
  intros Hj Hk. unfold free. revert j Hj. induction idx as [|x idx IH]; intros [|j] Hj; [done..| |].
  - injection Hj as ->. cbn. destruct (Z.leb_spec 0 k); [done|lia].
  - change (<[S j:=-1]> (x :: idx)) with (x :: <[j:=-1]> idx). cbn [List.filter]. specialize (IH j Hj). destruct (0 <=? x); cbn [length]; lia.
Qed.

Lemma not_marked i s idx x k : cycling i s idx -> p !! x = Some k -> idx !! x <> Some (-1) -> idx !! x = Some (Z.of_nat k).
Proof. intros C Hx Hn. by destruct (cy_old _ _ _ C x k Hx). Qed.

Lemma mark_cycling i s idx j k x : cycling i s idx -> p !! j = Some k -> idx !! j = Some (Z.of_nat k) -> s0 !! k = Some x ->
  (j = i \/ exists q, p !! q = Some j /\ idx !! q = Some (-1)) -> cycling i (<[j := x]> s) (<[j := -1]> idx).
Proof.
  intros C Hj Hi Hx Hq. pose proof (lookup_lt_Some _ _ _ Hi) as Lj. split.
  - rewrite length_insert. apply (cy_len _ _ _ C).
  - rewrite length_insert. apply (cy_idx _ _ _ C).
  - intros y l Hy. destruct (decide (j = y)) as [<-|Hne]; [right; by rewrite list_lookup_insert_eq|]. rewrite list_lookup_insert_ne by done. by apply (cy_old _ _ _ C).
  - intros y l Hy. destruct (decide (j = y)) as [<-|Hne].
    + intros _. rewrite Hj in Hy. injection Hy as <-. rewrite list_lookup_insert_eq; [done|]. rewrite (cy_len _ _ _ C). by rewrite <- (cy_idx _ _ _ C).
    + rewrite !list_lookup_insert_ne by done. by apply (cy_new _ _ _ C).
  - intros y l Hy. destruct (decide (j = y)) as [<-|Hne]; [rewrite list_lookup_insert_eq by done; intros [= ?]; lia|]. rewrite !list_lookup_insert_ne by done. by apply (cy_same _ _ _ C y l).
  - intros y l Hy. destruct (decide (j = y)) as [<-|Hne]; [rewrite list_lookup_insert_eq by done; intros [= ?]; lia|]. rewrite list_lookup_insert_ne by done. intros Hiy.
    destruct (decide (j = l)) as [<-|Hnl].
    + destruct Hq as [->|(q & Hq1 & Hq2)]; [by left|]. assert (q = y) as -> by (by eapply perm_inj). rewrite Hiy in Hq2. injection Hq2 as ?. lia.
    + rewrite list_lookup_insert_ne by done. by apply (cy_next _ _ _ C y l).
Qed.

(** Where a cycle that began at [i] may be. *)
Definition on_cycle (i j : nat) (idx : list Z) : Prop := j = i \/ (idx !! i = Some (-1) /\ exists q, p !! q = Some j /\ idx !! q = Some (-1)).

Lemma mark_keeps (idx : list Z) j x : idx !! x = Some (-1) -> <[j := -1]> idx !! x = Some (-1).
Proof. intros Hx. destruct (decide (j = x)) as [<-|Hne]; [|by rewrite list_lookup_insert_ne]. rewrite list_lookup_insert_eq; [done|]. by eapply lookup_lt_Some. Qed.

Lemma cycle_ok i tmp : s0 !! i = Some tmp -> forall fuel j s idx, (free idx <= fuel)%nat -> cycling i s idx -> idx !! j <> Some (-1) -> (j < length s0)%nat -> on_cycle i j idx ->
  exists s' idx', cycle fuel i j tmp s idx = Some (s', idx') /\ cycling i s' idx' /\ (forall x k, p !! x = Some k -> idx' !! x = Some (Z.of_nat k) -> k <> i) /\
    (forall x, idx !! x = Some (-1) -> idx' !! x = Some (-1)) /\ idx' !! i = Some (-1).
Proof.
  intros Ht fuel. induction fuel as [|fuel IH]; intros j s idx Hf C Hj Lj Hq; destruct (lookup_lt_is_Some_2 p j) as [k Hk]; try (by rewrite perm_length);
    pose proof (not_marked _ _ _ _ _ C Hk Hj) as Hi; pose proof (free_mark idx j _ Hi ltac:(lia)) as Hm; [lia|]. pose proof (lookup_lt_Some _ _ _ Hi) as Lji.
  assert (Hq' : j = i \/ exists q, p !! q = Some j /\ idx !! q = Some (-1)) by (destruct Hq as [|[_ ?]]; auto).
  cbn [cycle]. rewrite Hi. cbn [mbind option_bind]. destruct (Z.eqb_spec (Z.of_nat k) (Z.of_nat i)) as [E|E].
  - assert (k = i) as -> by lia. eexists _, _. split; [done|]. split; [by apply (mark_cycling i s idx j i tmp)|]. split; [|split].
    + intros x l Hx Hix ->. assert (x = j) as -> by (by eapply perm_inj). rewrite list_lookup_insert_eq in Hix by done. injection Hix as ?. lia.
    + intros x. apply mark_keeps.
    + destruct Hq as [->|[Hii _]]; [by rewrite list_lookup_insert_eq|by apply mark_keeps].
  - assert (Hki : k <> i) by lia. assert (Hkn : idx !! k <> Some (-1)) by (by destruct (cy_next _ _ _ C j k Hk Hi)). pose proof (perm_lt j k Hk) as Lk.
    destruct (lookup_lt_is_Some_2 p k) as [k' Hk']; [by rewrite perm_length|]. pose proof (cy_same _ _ _ C k k' Hk' (not_marked _ _ _ _ _ C Hk' Hkn)) as Hs.
    destruct (lookup_lt_is_Some_2 s0 k Lk) as [x Hx]. rewrite Nat2Z.id, Hs, Hx. cbn [mbind option_bind]. destruct (Z.ltb_spec (Z.of_nat k) 0); [lia|].
    assert (Hjk : j <> k) by (intros <-; destruct Hq' as [|(q & Hq1 & Hq2)]; [done|]; assert (q = j) as -> by (by eapply perm_inj); done).
    destruct (IH k (<[j := x]> s) (<[j := -1]> idx)) as (s' & idx' & Ec & C' & Hn & Hmark & Hfin).
    + lia.
    + by apply mark_cycling with k.
    + by rewrite list_lookup_insert_ne.
    + done.
    + right. split; [|exists j; split; [done|by rewrite list_lookup_insert_eq]]. destruct Hq as [->|[Hii _]]; [by rewrite list_lookup_insert_eq|by apply mark_keeps].
    + exists s', idx'. split; [done|]. split; [done|]. split; [done|]. split; [|done]. intros y Hy. by apply Hmark, mark_keeps.
Qed.

(** Between cycles no slot leads to a marked one. *)
Definition settled (s : list A) (idx : list Z) : Prop := forall i, cycling i s idx /\ (forall x k, p !! x = Some k -> idx !! x = Some (Z.of_nat k) -> idx !! k <> Some (-1)).

Lemma cycling_at i i' s idx : cycling i s idx -> (forall x k, p !! x = Some k -> idx !! x = Some (Z.of_nat k) -> k <> i) -> cycling i' s idx.
Proof.
  intros C Hn. split; [apply (cy_len _ _ _ C)|apply (cy_idx _ _ _ C)|apply (cy_old _ _ _ C)|apply (cy_new _ _ _ C)|apply (cy_same _ _ _ C)|].
  intros x k Hx Hi. right. destruct (cy_next _ _ _ C x k Hx Hi) as [->|]; [|done]. by destruct (Hn x i Hx Hi).
Qed.

Lemma permute_at_ok s idx i : settled s idx -> (i < length s0)%nat ->
  exists s' idx', permute_at (s, idx) i = Some (s', idx') /\ settled s' idx' /\ idx' !! i = Some (-1) /\ (forall x, idx !! x = Some (-1) -> idx' !! x = Some (-1)).
Proof.
  intros S Li. destruct (S i) as [C Hc]. destruct (lookup_lt_is_Some_2 p i) as [k Hk]; [by rewrite perm_length|]. unfold permute_at.
  destruct (cy_old _ _ _ C i k Hk) as [Hi|Hi]; rewrite Hi; cbn [mbind option_bind].
  - destruct (Z.ltb_spec (Z.of_nat k) 0); [lia|]. destruct (lookup_lt_is_Some_2 s0 i Li) as [tmp Ht]. rewrite (cy_same _ _ _ C i k Hk Hi), Ht. cbn [mbind option_bind].
    assert (free idx <= length idx)%nat by (unfold free; apply filter_length_le).
    destruct (cycle_ok i tmp Ht (length idx) i s idx) as (s' & idx' & Ec & C' & Hn & Hm & Hf); [done|done|by rewrite Hi; intros [= ?]; lia|done|by left|].
    exists s', idx'. split; [done|]. split; [|done]. intros i'. split; [by apply (cycling_at i)|]. intros x l Hx Hix. destruct (cy_next _ _ _ C' x l Hx Hix) as [->|]; [|done]. by destruct (Hn x i Hx Hix).
  - exists s, idx. split; [done|]. split; [done|]. split; [done|]. done.
Qed.

Lemma permute_loop l : forall s idx, settled s idx -> (forall i, i ∈ l -> (i < length s0)%nat) ->
  exists s' idx', for_each permute_at l (s, idx) = Some (s', idx') /\ settled s' idx' /\ (forall i, i ∈ l \/ idx !! i = Some (-1) -> idx' !! i = Some (-1)).
Proof.
  induction l as [|i l IH]; intros s idx S Hl.
  { exists s, idx. split; [done|]. split; [done|]. intros i [Hi|]; [by apply elem_of_nil in Hi|done]. }
  destruct (permute_at_ok s idx i S (Hl i ltac:(by left))) as (s1 & idx1 & E & S1 & Hi & Hm). destruct (IH s1 idx1 S1) as (s' & idx' & E' & S' & Hd); [intros j Hj; apply Hl; by right|].
  exists s', idx'. unfold for_each in *. cbn [foldl mbind option_bind]. rewrite E. split; [done|]. split; [done|]. intros j [Hj|Hj]; [|apply Hd; right; by apply Hm].
  apply elem_of_cons in Hj as [->|Hj]; apply Hd; [by right|by left].
Qed.

(** Every element where the permutation says. *)
Lemma permute_exact : exists s, permuteTargets s0 (Z.of_nat <$> p) = Some s /\ length s = length s0 /\ forall i, s !! i = p !! i ≫= fun k => s0 !! k.
Proof.
  assert (S : settled s0 (Z.of_nat <$> p)).
  { assert (N : forall x, (Z.of_nat <$> p) !! x <> Some (-1)) by (intros x; rewrite list_lookup_fmap; destruct (p !! x); cbn; [intros [= ?]; lia|done]).
    intros i. split; [|by intros x k _ _]. split; [done|by rewrite length_fmap, perm_length| | |done|by right].
    - intros x k Hx. left. by rewrite list_lookup_fmap, Hx.
    - intros x k _ Hx. by apply N in Hx. }
  unfold permuteTargets. rewrite length_fmap, perm_length. destruct (permute_loop (seq 0 (length s0)) s0 _ S) as (s & idx & E & S' & Hd); [intros i Hi; apply elem_of_seq in Hi; lia|].
  exists s. rewrite E. split; [done|]. destruct (S' 0%nat) as [C _]. split; [apply (cy_len _ _ _ C)|]. intros i. destruct (p !! i) as [k|] eqn:Hi; cbn.
  - apply (cy_new _ _ _ C i k Hi). apply Hd. left. apply elem_of_seq. apply lookup_lt_Some in Hi. rewrite perm_length in Hi. lia.
  - apply lookup_ge_None in Hi. rewrite perm_length in Hi. apply lookup_ge_None. by rewrite (cy_len _ _ _ C).
Qed.

End Permute.

(** ** The order *)

Lemma keys_total a : forall b, keys_leb a b = true \/ keys_leb b a = true.
Proof.
  induction a as [|x a IH]; intros [|y b]; cbn; auto. case_bool_decide as E; [subst; rewrite bool_decide_eq_true_2 by done; apply IH|].
  rewrite bool_decide_eq_false_2 by congruence. apply name_le_total.
Qed.

Lemma keys_trans a : forall b c, length a = length b -> length b = length c -> keys_leb a b = true -> keys_leb b c = true -> keys_leb a c = true.
Proof.
  induction a as [|x a IH]; intros [|y b] [|z c]; try done. cbn. intros [= L1] [= L2]. repeat case_bool_decide; subst; try done; [by eapply IH| |].
  - intros A1 A2. assert (z = y) as -> by (by apply name_le_antisym). done.
  - intros A1 A2. by eapply name_le_trans.
Qed.

Lemma keys_antisym a : forall b, length a = length b -> keys_leb a b = true -> keys_leb b a = true -> a = b.
Proof.
  induction a as [|x a IH]; intros [|y b]; try done. cbn. intros [= L]. case_bool_decide as E.
  - subst. rewrite bool_decide_eq_true_2 by done. intros. f_equal. by apply IH.
  - rewrite bool_decide_eq_false_2 by congruence. intros A1 A2. destruct E. by apply name_le_antisym.
Qed.

(** What [slices.SortFunc] promises of a comparison that is a weak order. *)
Definition sorts (sort : list ScrapeTarget -> list Z -> list Z) : Prop := forall ts idx, sort ts idx ≡ₚ idx /\
  StronglySorted (fun a b => forall x y, ts !! Z.to_nat a = Some x -> ts !! Z.to_nat b = Some y -> target_le x y) (sort ts idx).

Lemma lookup_omap_all {A B} (f : A -> option B) l : Forall (fun x => is_Some (f x)) l -> forall i, omap f l !! i = l !! i ≫= f.
Proof. induction 1 as [|x l [y Hy] _ IH]; intros i; [done|]. cbn. rewrite Hy. destruct i as [|i]; [done|]. apply IH. Qed.

Lemma omap_seq {A} (l : list A) : omap (fun k => l !! k) (seq 0 (length l)) = l.
Proof.
  apply list_eq. intros i. rewrite lookup_omap_all by (apply Forall_forall; intros k Hk; apply elem_of_seq in Hk; apply lookup_lt_is_Some_2; lia).
  destruct (decide (i < length l)%nat); [by rewrite lookup_seq_lt by lia|]. rewrite (lookup_ge_None_2 (seq _ _)) by (rewrite length_seq; lia). symmetry. apply lookup_ge_None_2. lia.
Qed.

Lemma sorted_omap (ts : list ScrapeTarget) (p : list nat) :
  StronglySorted (fun a b => forall x y, ts !! Z.to_nat a = Some x -> ts !! Z.to_nat b = Some y -> target_le x y) (Z.of_nat <$> p) -> StronglySorted target_le (omap (fun k => ts !! k) p).
Proof.
  induction p as [|k p IH]; [constructor|]. cbn. intros S. apply StronglySorted_inv in S as [S F]. specialize (IH S). destruct (ts !! k) as [x|] eqn:Ex; [|done]. constructor; [done|].
  apply Forall_forall. intros y Hy. apply list_elem_of_omap in Hy as (j & Hj & Ey). rewrite Forall_forall in F. apply (F (Z.of_nat j)); [by apply list_elem_of_fmap_2|by rewrite Nat2Z.id|by rewrite Nat2Z.id].
Qed.

Lemma sortTargets_ok sort ts : sorts sort -> exists l, sortTargets sort ts = Some l /\ l ≡ₚ ts /\ StronglySorted target_le l.
Proof.
  intros Hs. unfold sortTargets. destruct (Z.ltb_spec (Z.of_nat (length ts)) 2).
  { exists ts. split; [done|]. split; [done|]. destruct ts as [|x [|y ts]]; [constructor|repeat constructor|cbn in *; lia]. }
  destruct (Hs ts (Z.of_nat <$> seq 0 (length ts))) as [P S]. set (idx := sort ts _) in *. clearbody idx. set (p := Z.to_nat <$> idx).
  assert (Ei : idx = Z.of_nat <$> p).
  { unfold p. rewrite <- list_fmap_compose. rewrite <- (list_fmap_id idx) at 1. apply Forall_fmap_ext_1. rewrite P. apply Forall_fmap, Forall_true. intros k. cbn. by rewrite Nat2Z.id. }
  assert (Hp : p ≡ₚ seq 0 (length ts)).
  { unfold p. rewrite P, <- list_fmap_compose. erewrite Forall_fmap_ext_1; [by rewrite list_fmap_id|]. apply Forall_true. intros k. cbn. apply Nat2Z.id. }
  rewrite Ei in S |- *. destruct (permute_exact ts p Hp) as (s & E & L & Hl). assert (Es : s = omap (fun k => ts !! k) p).
  { apply list_eq. intros i. rewrite Hl, lookup_omap_all; [done|]. rewrite Hp. apply Forall_forall. intros k Hk. apply elem_of_seq in Hk. apply lookup_lt_is_Some_2. lia. }
  exists s. split; [done|]. rewrite Es. split; [by rewrite Hp, omap_seq|]. by apply sorted_omap.
Qed.

(** Sorted lists of the same targets are one list, when no two of them compare equal. *)
Lemma sorted_unique (l l' : list ScrapeTarget) : l ≡ₚ l' -> NoDup (target_key <$> l) -> StronglySorted target_le l -> StronglySorted target_le l' -> l = l'.
Proof.
  intros P Nd S S'. apply (StronglySorted_unique_strong target_le); [|done|done|done]. intros x y Hx Hy Hxy Hyx. rewrite <- P in Hy.
  pose proof (keys_antisym (target_key x) (target_key y) eq_refl Hxy Hyx) as Ek. apply list_elem_of_lookup in Hx as (i & Hi), Hy as (j & Hj).
  assert (i = j) as ->; [|congruence]. apply (NoDup_lookup (target_key <$> l) i j (target_key x)); [done|by rewrite list_lookup_fmap, Hi|by rewrite list_lookup_fmap, Hj, Ek].
Qed.

(** * One pod of a node ([internal/server/nodetargets.go])

    What a pod adds to the node's list is what its offers make of an accumulator
    of its own: where its window starts, and what was derived or reported before,
    do not matter. *)


(** ** An accumulator placed after other pods' targets *)

Definition place (pre : list ScrapeTarget) (c : gset (bytes * bytes)) (k : Z) (g : bool) (d : targetDedup) : targetDedup :=
  mkDedup (pre ++ out d) (Nat.add (length pre) <$> urlOwner d) (authOwner d) (length pre) (capped d) (cappedBySize d) (podBytes d) (spent d) g c (trimmed d) k (next d).

Definition aligned (pre : list ScrapeTarget) (d d' : targetDedup) : Prop := base d = 0%nat /\ exists c k g, d' = place pre c k g d.

Section Aligned.
Context (pre : list ScrapeTarget).

Lemma place_lookup c k g d u : urlOwner (place pre c k g d) !! u = Nat.add (length pre) <$> urlOwner d !! u.
Proof. cbn [place urlOwner]. by rewrite lookup_fmap. Qed.

Lemma place_out c k g d i : out (place pre c k g d) !! (length pre + i)%nat = out d !! i.
Proof. cbn [place out]. rewrite lookup_app_r by lia. f_equal. lia. Qed.

Lemma place_set_out c k g d i t : set_out (<[(length pre + i)%nat := t]> (out (place pre c k g d))) (place pre c k g d) = place pre c k g (set_out (<[i := t]> (out d)) d).
Proof. cbn [place out]. rewrite insert_app_r. done. Qed.

Lemma untrim_place c k g d u : untrimView u (place pre c k g d) = place pre c k g (untrimView u d).
Proof. unfold untrimView. cbn [place trimmed]. by destruct (trimmedAt u (trimmed d)). Qed.

Lemma untrim_base u d : base (untrimView u d) = base d /\ out (untrimView u d) = out d.
Proof. unfold untrimView. by destruct (trimmedAt u (trimmed d)). Qed.

Lemma bound_place c k g d i cand before grown : base d = 0%nat ->
  boundSwapView (length pre + i) cand before grown (place pre c k g d) = (let '(t, n, e) := boundSwapView i cand before grown d in (t, n, place pre c k g e)) /\
  base (boundSwapView i cand before grown d).2 = 0%nat /\ out (boundSwapView i cand before grown d).2 = out d.
Proof.
  intros B. unfold boundSwapView. case_bool_decide; [done|]. rewrite untrim_place. destruct (untrim_base (URL cand) d) as [B' O']. rewrite B in B'. set (e := untrimView (URL cand) d) in *. clearbody e.
  destruct (t_Service cand); [|done]. cbn [place base spent]. rewrite B'. assert (Eb : bool_decide ((length pre + i)%nat = length pre) = bool_decide (i = 0%nat)) by (apply bool_decide_ext; lia). rewrite Eb.
  destruct (_ || _); [done|]. destruct (_ <=? _); [done|]. done.
Qed.

Lemma chargeSwap_place c k g d n : chargeSwap n (place pre c k g d) = place pre c k g (chargeSwap n d) /\ base (chargeSwap n d) = base d.
Proof. unfold chargeSwap. by destruct (0 <? n). Qed.

(** A swap at a position, there and here. *)
Lemma swap_place c k g d i cand before grown : base d = 0%nat ->
  (let '(t, n, e) := boundSwapView (length pre + i) cand before grown (place pre c k g d) in chargeSwap n (set_out (<[(length pre + i)%nat := t]> (out e)) e)) =
  place pre c k g (let '(t, n, e) := boundSwapView i cand before grown d in chargeSwap n (set_out (<[i := t]> (out e)) e)) /\
  base (let '(t, n, e) := boundSwapView i cand before grown d in chargeSwap n (set_out (<[i := t]> (out e)) e)) = 0%nat.
Proof.
  intros B. destruct (bound_place c k g d i cand before grown B) as (E & B' & _). rewrite E. destruct (boundSwapView i cand before grown d) as [[t n] e]. cbn [snd] in B'.
  rewrite place_set_out. destruct (chargeSwap_place c k g (set_out (<[i:=t]> (out e)) e) n) as [-> ->]. done.
Qed.

Lemma add_new_place c k g d t : base d = 0%nat -> exists k', add_new t (place pre c k g d) = (let '(v, e) := add_new t d in (v, place pre c k' g e)) /\ base (add_new t d).2 = 0%nat.
Proof.
  intros B. unfold add_new.
  assert (El : Z.of_nat (length (out (place pre c k g d))) - Z.of_nat (base (place pre c k g d)) = Z.of_nat (length (out d)) - Z.of_nat (base d)) by (cbn [place out base]; rewrite B, length_app; lia).
  rewrite El.
  destruct (_ <=? _); [by eexists|]. set (d1 := if podBytes d =? 0 then set_podBytes (PodDocBytes (t_Pod t)) d else d).
  assert (Ed : (if podBytes (place pre c k g d) =? 0 then set_podBytes (PodDocBytes (t_Pod t)) (place pre c k g d) else place pre c k g d) = place pre c k g d1 /\ base d1 = 0%nat) by (unfold d1; by destruct (_ =? _)).
  destruct Ed as [-> B1]. clearbody d1. cbv zeta. cbn [place out base podBytes spent]. rewrite B1.
  assert (Eb : bool_decide (length (pre ++ out d1) = length pre) = bool_decide (length (out d1) = 0%nat)) by (apply bool_decide_ext; rewrite length_app; lia). rewrite Eb.
  destruct (_ && _); [by eexists|]. destruct (_ && _); [by eexists|]. exists k. split; [|done]. f_equal.
  unfold append_target, place. cbn [out urlOwner authOwner base capped cappedBySize podBytes spent diagnostic contribCapReported trimmed counted next]. f_equal; [by rewrite app_assoc|]. by rewrite fmap_insert, length_app.
Qed.

Lemma add_aligned d d' t v e : aligned pre d d' -> add t d = Some (v, e) -> exists e', add t d' = Some (v, e') /\ aligned pre e e'.
Proof.
  intros (B & c & k & g & ->). unfold add. rewrite place_lookup. destruct (urlOwner d !! URL t) as [i|]; cbn [fmap option_fmap option_map].
  - rewrite place_out. destruct (out d !! i) as [held|]; [|done]. cbn [mbind option_bind]. destruct (_ && _); intros [= <- <-].
    + unfold add_upgrade. pose proof (swap_place c k g d i (carryForward t held) (t_Service held) (TargetOwnBytes (carryForward t held) - TargetOwnBytes held) B) as [E B'].
      eexists. split; [done|]. split; [exact B'|]. by exists c, k, g.
    + unfold add_kept. destruct (t_Service held); [eexists; split; [done|]; split; [done|by exists c, k, g]|]. destruct (t_Service t); [|eexists; split; [done|]; split; [done|by exists c, k, g]].
      pose proof (swap_place c k g d i (carryForward held t) None (ServiceViewBytes (t_Service (carryForward held t))) B) as [E B']. eexists. split; [done|]. split; [exact B'|]. by exists c, k, g.
  - intros [= E]. destruct (add_new_place c k g d t B) as (k' & -> & B'). rewrite E in B' |- *. eexists. split; [done|]. split; [done|]. by exists c, k', g.
Qed.

Lemma adds_aligned ts : forall v0 d d' v e, aligned pre d d' -> adds ts v0 d = Some (v, e) -> exists e', adds ts v0 d' = Some (v, e') /\ aligned pre e e'.
Proof.
  induction ts as [|t ts IH]; intros v0 d d' v e A; cbn [adds]; [intros [= <- <-]; by exists d'|]. destruct (add t d) as [[v1 e1]|] eqn:E; [|done]. cbn [mbind option_bind]. intros E2.
  destruct (add_aligned d d' t v1 e1 A E) as (e1' & -> & A1). cbn [mbind option_bind]. by apply (IH _ e1).
Qed.

End Aligned.

Section Offers.
Context `{GoText} (pre : list ScrapeTarget).

Lemma offer_at_aligned url m ep ts d d' r e : aligned pre d d' -> offer_at url m ep ts d = Some (r, e) -> exists e', offer_at url m ep ts d' = Some (r, e') /\ aligned pre e e'.
Proof.
  intros A. pose proof A as (B & c & k & g & Ed'). unfold offer_at, monitorHolder. assert (Adds : ('(v, d) ← adds ts targetAccepted d; Some (mkOffer url true false None v, d)) = Some (r, e) ->
    exists e', ('(v, d) ← adds ts targetAccepted d'; Some (mkOffer url true false None v, d)) = Some (r, e') /\ aligned pre e e').
  { destruct (adds ts targetAccepted d) as [[v1 e1]|] eqn:E; [|done]. intros [= <- <-]. destruct (adds_aligned pre ts _ d d' v1 e1 A E) as (e' & -> & A'). by exists e'. }
  assert (Lk : urlOwner d' !! url = Nat.add (length pre) <$> urlOwner d !! url) by (rewrite Ed'; apply place_lookup).
  assert (Oi : forall i, out d' !! (length pre + i)%nat = out d !! i) by (intros i; rewrite Ed'; apply place_out). rewrite Lk. destruct (urlOwner d !! url) as [i|]; cbn [fmap option_fmap option_map]; [|cbn [mbind option_bind]; apply Adds].
  rewrite Oi. destruct (out d !! i) as [held|]; [|done]. cbn [mbind option_bind]. destruct (configuredTarget held); cbn [mbind option_bind]; [|apply Adds].
  unfold mergeInto. destruct (MergeMonitorEndpoint held m ep) as [held' rep]. intros [= <- <-]. eexists. split; [done|]. clear Adds Lk Oi. subst d'. rewrite place_set_out. split; [by destruct (AuthAdopted rep)|].
  exists c, k, g. by destruct (AuthAdopted rep).
Qed.

Lemma aligned_next d d' : aligned pre d d' -> next d' = next d /\ forall n, aligned pre (set_next n d) (set_next n d').
Proof. intros (B & c & k & g & ->). split; [done|]. intros n. split; [done|]. by exists c, k, g. Qed.

Lemma offerServiceMonitor_aligned pod svc m ep offers d d' r offers' e : aligned pre d d' -> offerServiceMonitor pod svc m ep offers d = Some (r, offers', e) ->
  exists e', offerServiceMonitor pod svc m ep offers d' = Some (r, offers', e') /\ aligned pre e e'.
Proof.
  intros A. unfold offerServiceMonitor. destruct (MonitorTargetURL pod svc ep) as [u|]; [|intros [= <- <- <-]; by exists d']. destruct (first u ep offers) as [new o1]. destruct (negb new); [intros [= <- <- <-]; by exists d'|].
  destruct (aligned_next d d' A) as [En An]. rewrite En. destruct (offer_at _ _ _ _ (set_next _ d)) as [[r1 e1]|] eqn:E; [|done]. intros [= <- <- <-].
  destruct (offer_at_aligned _ _ _ _ _ _ _ _ (An (next d + 1)) E) as (e' & -> & A'). by exists e'.
Qed.

Lemma offerPodMonitor_aligned pod m ep d d' r e : aligned pre d d' -> offerPodMonitor pod m ep d = Some (r, e) -> exists e', offerPodMonitor pod m ep d' = Some (r, e') /\ aligned pre e e'.
Proof. intros A. unfold offerPodMonitor. destruct (PodMonitorTargetURL pod ep) as [u|]; [|intros [= <- <-]; by exists d']. by apply offer_at_aligned. Qed.

Lemma reportMerge_aligned kind m url held rep d d' : aligned pre d d' -> aligned pre d (reportMerge kind m url held rep d').2.
Proof. intros (B & c & k & g & ->). split; [done|]. unfold reportMerge, firstContribCap. destruct (ContributorsCapped rep); [|by exists c, k, g]. case_bool_decide; by eexists _, k, g. Qed.

(** ** A request follows the pod's offers *)

(** [Q] is what the memos satisfy meanwhile. *)
Context (Q : memos -> Prop).

Definition follows (st : monitorOffers * targetDedup) (rq : request) : Prop := rq_offers rq = st.1 /\ aligned pre st.2 (rq_d rq) /\ Q (rq_memo rq).

Lemma exec_all_app pod a : forall b st log, exec_all pod (a ++ b) st log = '(log', st') ← exec_all pod a st log; exec_all pod b st' log'.
Proof. induction a as [|o a IH]; intros b st log; [done|]. cbn [app exec_all]. destruct (exec pod o st) as [[v st1]|]; [|done]. cbn [mbind option_bind]. apply IH. Qed.

(** A loop that follows step by step follows as a whole. *)
Lemma for_each_follows {A} pod (f : request -> A -> option request) (os : A -> list offer) l :
  (forall x st rq log log' st', x ∈ l -> follows st rq -> exec_all pod (os x) st log = Some (log', st') -> exists rq', f rq x = Some rq' /\ follows st' rq') ->
  forall st rq log log' st', follows st rq -> exec_all pod (l ≫= os) st log = Some (log', st') -> exists rq', for_each f l rq = Some rq' /\ follows st' rq'.
Proof.
  induction l as [|x l IH]; intros Hf st rq log log' st' F E; [injection E as _ <-; by exists rq|]. cbn [mbind list_bind] in E. rewrite exec_all_app in E.
  destruct (exec_all pod (os x) st log) as [[log1 st1]|] eqn:E1; [|done]. cbn [mbind option_bind] in E. destruct (Hf x st rq log log1 st1 ltac:(by left) F E1) as (rq1 & Ef & F1).
  unfold for_each. cbn [foldl mbind option_bind]. rewrite Ef. apply (IH ltac:(intros; eapply Hf; [by right|done|done]) st1 rq1 log1 log' st' F1 E).
Qed.

Lemma add_all_follows pod ts : forall st rq log log' st', follows st rq -> exec_all pod (ADoor <$> ts) st log = Some (log', st') -> exists rq', add_all ts rq = Some rq' /\ follows st' rq'.
Proof.
  intros st rq log log' st' F E. replace (ADoor <$> ts) with (ts ≫= fun t => [ADoor t]) in E by (clear; induction ts; [done|]; cbn; by f_equal).
  revert st rq log log' st' F E. apply for_each_follows. intros t st rq log log' st' _ (F1 & F2 & F3). cbn [exec_all exec]. destruct (add t st.2) as [[v e]|] eqn:E; [|done]. cbn [mbind option_bind]. intros [= _ <-].
  destruct (add_aligned pre _ _ t v e F2 E) as (e' & -> & A). eexists. split; [done|]. split; [exact F1|]. split; [exact A|exact F3].
Qed.

Lemma after_offer_follows kind m o st rq : follows st rq -> follows st (after_offer kind m o rq).
Proof.
  intros (F1 & F2 & F3). unfold after_offer. destruct (merged o) as [[held rep]|]; [|done]. pose proof (reportMerge_aligned kind m (eo_url o) held rep st.2 (rq_d rq) F2) as A.
  destruct (reportMerge _ _ _ _ _ _) as [rs d]. split; [exact F1|]. split; [exact A|exact F3].
Qed.

Lemma offer_sme_follows pod svc sme st rq log log' st' : follows st rq -> exec_all pod [AServiceMonitor svc sme.1 sme.2] st log = Some (log', st') -> exists rq', offer_sme pod svc rq sme = Some rq' /\ follows st' rq'.
Proof.
  intros (F1 & F2 & F3). cbn [exec_all exec]. destruct (offerServiceMonitor pod svc sme.1 sme.2 st.1 st.2) as [[[r o] e]|] eqn:E; [|done]. cbn [mbind option_bind]. intros [= _ <-].
  unfold offer_sme. rewrite F1. destruct (offerServiceMonitor_aligned _ _ _ _ _ _ _ _ _ _ F2 E) as (e' & -> & A). cbn [mbind option_bind].
  destruct (negb (resolved r)); (eexists; split; [done|]); [|apply after_offer_follows]; (split; [done|]; split; [exact A|exact F3]).
Qed.

Lemma noteUnresolved_follows kind m ep pod st rq : follows st rq -> follows st (noteUnresolved kind m ep pod rq).
Proof. unfold noteUnresolved. by destruct (_ || _). Qed.

Lemma offer_pm_follows pod name ep st rq log log' st' : follows st rq -> exec_all pod [APodMonitor name ep] st log = Some (log', st') -> exists rq', offer_pm pod name rq ep = Some rq' /\ follows st' rq'.
Proof.
  intros (F1 & F2 & F3). cbn [exec_all exec]. destruct (offerPodMonitor pod name ep st.2) as [[r e]|] eqn:E; [|done]. cbn [mbind option_bind]. intros [= _ <-].
  unfold offer_pm. destruct (offerPodMonitor_aligned _ _ _ _ _ _ _ F2 E) as (e' & -> & A). cbn [mbind option_bind]. 
  assert (F : follows (st.1, e) (with_d e' rq)) by (split; [exact F1|]; split; [exact A|exact F3]). destruct (negb (resolved r)); (eexists; split; [done|]); [by apply noteUnresolved_follows|by apply after_offer_follows].
Qed.

Lemma pending_follows pod l st : forall rq, follows st rq -> follows st (foldl (note_pending pod) rq l).
Proof. induction l as [|sme l IH]; intros rq F; [done|]. cbn [foldl]. apply IH. unfold note_pending. destruct (_ || _); [done|]. by apply noteUnresolved_follows. Qed.

End Offers.
