(* ===== verification/NodeTargetsSafe.v ===== *)
(** * A node's targets ([internal/server/nodetargets.go])

    The list is the sorted union of what each pod's offers make on their own,
    whatever order the store lists the pods in; narrowing the Services to those
    that opt in, and skipping pods nothing opts in, leave it as it is.  The match
    of monitors and Services does not see the snapshot it reuses. *)

From stdpp Require Import sorting.
From S2P Require Import Prelude Clip Order Number Text KubeMeta OwnersSafe Targets Collide Merge Dedup DedupSafe NodeTargets NodeTargetsPod.
Local Open Scope Z_scope.

(** ** The memos of a request *)

(** The key of an owner chain tells its inputs apart, up to what the chain is
    served from, when no field has a NUL. *)
Lemma terminated_inj (a : list bytes) : forall b, Forall (fun f => 0 ∉ f) a -> Forall (fun f => 0 ∉ f) b -> a ≫= (fun f => f ++ [0]) = b ≫= (fun f => f ++ [0]) -> a = b.
Proof.
  induction a as [|x a IH]; intros [|y b] Fa Fb E; [done| | |].
  - cbn in E. by destruct y.
  - cbn in E. by destruct x.
  - apply Forall_cons in Fa as [Hx Fa], Fb as [Hy Fb]. cbn [mbind list_bind] in E. rewrite <- !app_assoc in E. cbn [app] in E. apply app_sep_inj in E as [-> E]; [|done|done]. f_equal. by apply IH.
Qed.

Definition key_fields (ref : OwnerReference) : list bytes := [ref_APIVersion ref; ref_Kind ref; ref_Name ref; ref_UID ref ++ (if controls ref then [1] else [2])].
Definition nul_free_refs (ns : bytes) (refs : list OwnerReference) : Prop :=
  0 ∉ ns /\ Forall (fun ref => 0 ∉ ref_APIVersion ref /\ 0 ∉ ref_Kind ref /\ 0 ∉ ref_Name ref /\ 0 ∉ ref_UID ref) refs.

Lemma key_terminated ns refs : appendOwnerKey ns refs ++ [0] = (ns :: (refs ≫= key_fields)) ≫= (fun f => f ++ [0]).
Proof.
  unfold appendOwnerKey. revert ns. induction refs as [|ref refs IH]; intros ns; [cbn; by rewrite app_nil_r|]. cbn [foldl]. rewrite IH. cbn [mbind list_bind key_fields app]. repeat (rewrite <- app_assoc; cbn [app]). done.
Qed.

Lemma fields_nul_free ns refs : nul_free_refs ns refs -> Forall (fun f => 0 ∉ f) (ns :: (refs ≫= key_fields)).
Proof.
  intros [Hn F]. constructor; [exact Hn|]. apply Forall_bind. eapply Forall_impl; [exact F|]. intros ref (A & K & N & U). unfold key_fields. repeat constructor; try done.
  destruct (controls ref); set_solver.
Qed.

Lemma key_fields_served ref ref' : key_fields ref = key_fields ref' -> servedRefOf ref = servedRefOf ref'.
Proof.
  unfold key_fields, servedRefOf. intros [= -> -> -> E]. assert (ref_UID ref = ref_UID ref' /\ controls ref = controls ref') as [-> C]; [|by unfold controls in C; rewrite C].
  destruct (controls ref), (controls ref'); apply app_inj_tail in E as [-> E]; try done; by injection E.
Qed.

Lemma owner_key_inj ns refs ns' refs' : nul_free_refs ns refs -> nul_free_refs ns' refs' -> appendOwnerKey ns refs = appendOwnerKey ns' refs' ->
  ns = ns' /\ servedRefOf <$> refs = servedRefOf <$> refs'.
Proof.
  intros F F' E. apply (f_equal (fun k => k ++ [0])) in E. rewrite !key_terminated in E. apply terminated_inj in E; [|by apply fields_nul_free..]. injection E as -> E. split; [done|]. clear F F'.
  revert refs' E. induction refs as [|ref refs IH]; intros [|ref' refs'] E; [done|done|done|]. cbn [mbind list_bind] in E. unfold key_fields at 1 3 in E. cbn [app] in E.
  injection E as E1 E2 E3 E4 E. rewrite !fmap_cons, (IH _ E). f_equal. apply key_fields_served. unfold key_fields. by rewrite E1, E2, E3, E4.
Qed.

Section Memos.
Context `{GoText} (door_addr : Service -> Z) (resolve : bytes -> list OwnerReference -> list Owner * Z) (ns_meta : bytes -> option ObjectMeta).

(** [Resolve] reads of its references what it serves of them. *)
Definition reads_served : Prop := forall ns refs refs', servedRefOf <$> refs = servedRefOf <$> refs' -> resolve ns refs = resolve ns refs'.

(** [Enrich], which asks the resolver for every pod. *)
Definition Enrich (pod : Pod) (refs : list OwnerReference) : Pod :=
  mkPod (pod_Name pod) (pod_Namespace pod) (pod_UID pod) (NodeName pod) (PodIP pod) (PodIPs pod) (HostIP pod) (Phase pod) (pod_Labels pod) (pod_Annotations pod)
    (DeletionTimestamp pod) (DeletedAt pod) (ns_meta (pod_Namespace pod)) (resolve (pod_Namespace pod) refs).1 (resolve (pod_Namespace pod) refs).2 (Containers pod).

(** Every memo holds what would be answered now. *)
Definition memo_ok (m : memos) : Prop :=
  Forall (fun sd : Service * ServiceDoor => sd.2 = NewServiceDoor (door_addr sd.1) sd.1) (m_doors m) /\
  map_Forall (fun k r => exists ns refs, nul_free_refs ns refs /\ k = appendOwnerKey ns refs /\ r = resolve ns refs) (m_owners m) /\
  map_Forall (fun ns meta => meta = ns_meta ns) (m_namespaces m).

Lemma memo_ok_new : memo_ok (mkMemos [] ∅ ∅).
Proof. split; [constructor|]. split; apply map_Forall_empty. Qed.

Lemma door_of_ok svc m : memo_ok m -> (door_of door_addr svc m).1 = NewServiceDoor (door_addr svc) svc /\ memo_ok (door_of door_addr svc m).2.
Proof.
  intros (D & M). unfold door_of. destruct (find _ (m_doors m)) as [[svc' door]|] eqn:E; cbn [fst snd].
  - apply find_some in E as [Hin Heq]. cbn [fst] in Heq. apply bool_decide_eq_true in Heq. subst svc'. apply list_elem_of_In in Hin. rewrite Forall_forall in D. split; [exact (D _ Hin)|by rewrite <- Forall_forall in D].
  - split; [done|]. split; [by constructor|exact M].
Qed.

Lemma enrichCached_ok m pod refs : reads_served -> nul_free_refs (pod_Namespace pod) refs -> memo_ok m ->
  (enrichCached resolve ns_meta m pod refs).1 = Enrich pod refs /\ memo_ok (enrichCached resolve ns_meta m pod refs).2.
Proof.
  intros R F (D & O & M). unfold enrichCached, Enrich.
  assert (Om : map_Forall (fun k r => exists ns refs, nul_free_refs ns refs /\ k = appendOwnerKey ns refs /\ r = resolve ns refs) (<[appendOwnerKey (pod_Namespace pod) refs := resolve (pod_Namespace pod) refs]> (m_owners m))).
  { apply map_Forall_insert_2; [by exists (pod_Namespace pod), refs|exact O]. }
  assert (Mm : map_Forall (fun ns meta => meta = ns_meta ns) (<[pod_Namespace pod := ns_meta (pod_Namespace pod)]> (m_namespaces m))) by (by apply map_Forall_insert_2).
  assert (Hit : forall r, m_owners m !! appendOwnerKey (pod_Namespace pod) refs = Some r -> r = resolve (pod_Namespace pod) refs).
  { intros r E. destruct (O _ _ E) as (ns & refs' & F' & Ek & ->). destruct (owner_key_inj _ _ _ _ F F' Ek) as [<- Es]. by rewrite (R _ _ _ Es). }
  destruct (m_owners m !! _) as [r|] eqn:Eo; [rewrite (Hit r eq_refl)|]; destruct (m_namespaces m !! pod_Namespace pod) as [meta|] eqn:En; try rewrite (M _ _ En); by split.
Qed.

End Memos.

(** The resolver of [internal/owner] does. *)
Section Resolver.
Context `{Cluster}.

Lemma resolve_served w : reads_served (fun ns refs => (Resolve w ns refs).2).
Proof.
  intros ns refs refs' E. destruct refs as [|ref refs], refs' as [|ref' refs']; [done|done|done|]. unfold Resolve, resolve_with. by rewrite (foldl_served _ _ _ _ _ E).
Qed.

End Resolver.

(** ** A pod's offers *)

Section Pod.
Context `{GoText} (door_addr : Service -> Z) (resolve : bytes -> list OwnerReference -> list Owner * Z) (ns_meta : bytes -> option ObjectMeta) (monitored : monitorMap).
Let Q : memos -> Prop := memo_ok door_addr resolve ns_meta.

Definition service_offers (pod : Pod) (svc : Service) : list offer :=
  (ADoor <$> door_targets (NewServiceDoor (door_addr svc) svc) pod) ++
  (default [] (monitored !! Services.UID svc) ≫= fun sme => [AServiceMonitor svc sme.1 sme.2]).

Definition pod_offers (pod : Pod) (matched : list Service) (pms : list podMonitorRef) : list offer :=
  (ADoor <$> PodTargets pod) ++ (matched ≫= service_offers pod) ++ (pms ≫= fun pm => Endpoints (pm_monitor pm) ≫= fun ep => [APodMonitor (pm_name pm) ep]).

(** What they make of an accumulator of their own. *)
Definition alone (pod : Pod) (addr : Z) (os : list offer) : option (list event * (monitorOffers * targetDedup)) :=
  exec_all pod os (∅, set_next addr (reset [] (rq_d new_request))) [].

Lemma offer_service_follows pre pod svc st rq log log' st' : follows pre Q st rq -> exec_all pod (service_offers pod svc) st log = Some (log', st') ->
  exists rq', offer_service door_addr monitored pod rq svc = Some rq' /\ follows pre Q st' rq'.
Proof.
  intros (F1 & F2 & F3). unfold service_offers. rewrite exec_all_app. destruct (exec_all pod (ADoor <$> _) st log) as [[log1 st1]|] eqn:E1; [|done]. cbn [mbind option_bind]. intros E2.
  unfold offer_service. destruct (door_of_ok door_addr resolve ns_meta svc (rq_memo rq) F3) as [Ed Em]. destruct (door_of door_addr svc (rq_memo rq)) as [door m]. cbn [fst snd] in Ed, Em. subst door.
  assert (F : follows pre Q st (with_memo m rq)) by (split; [exact F1|]; split; [exact F2|exact Em]).
  destruct (add_all_follows pre Q pod _ _ _ _ _ _ F E1) as (rq1 & Ea & F'). rewrite Ea. cbn [mbind option_bind]. revert F' E2. apply for_each_follows.
  intros sme st2 rq2 log2 log3 st3 _ F4 E. by eapply offer_sme_follows.
Qed.

Lemma derive_pod_follows pod addr matched pms rq log offers d : Q (rq_memo rq) -> alone pod addr (pod_offers pod matched pms) = Some (log, (offers, d)) ->
  exists rq', derive_pod door_addr monitored pod addr matched pms rq = Some rq' /\ aligned (out (rq_d rq)) d (rq_d rq') /\ Q (rq_memo rq').
Proof.
  intros HQ. unfold alone, pod_offers. rewrite exec_all_app. intros E. assert (F0 : follows (out (rq_d rq)) Q (∅, set_next addr (reset [] (rq_d new_request))) (reset_pod addr rq)).
  { split; [done|]. split; [|exact HQ]. split; [done|]. exists ∅, (counted (rq_d rq)), (diagnostic (rq_d rq)). unfold reset_pod, place. cbn. by rewrite app_nil_r, Nat.add_0_r || rewrite app_nil_r, fmap_empty. }
  destruct (exec_all pod (ADoor <$> _) _ []) as [[log1 st1]|] eqn:E1; [|done]. cbn [mbind option_bind] in E. destruct (add_all_follows _ Q pod _ _ _ _ _ _ F0 E1) as (rq1 & Ea & F1).
  rewrite exec_all_app in E. destruct (exec_all pod (matched ≫= _) st1 log1) as [[log2 st2]|] eqn:E2; [|done]. cbn [mbind option_bind] in E.
  destruct (for_each_follows (out (rq_d rq)) Q pod (offer_service door_addr monitored pod) (service_offers pod) matched) with (st := st1) (rq := rq1) (log := log1) (log' := log2) (st' := st2) as (rq2 & Es & F2); [|done..|].
  { intros svc st rq' l l' st' _ F Ex. by eapply offer_service_follows. }
  pose proof (pending_follows _ Q pod (pending rq2) st2 rq2 F2) as F2'.
  destruct (for_each_follows (out (rq_d rq)) Q pod (fun rq pm => for_each (offer_pm pod (pm_name pm)) (Endpoints (pm_monitor pm)) rq) (fun pm => Endpoints (pm_monitor pm) ≫= fun ep => [APodMonitor (pm_name pm) ep]) pms)
    with (st := st2) (rq := foldl (note_pending pod) rq2 (pending rq2)) (log := log2) (log' := log) (st' := (offers, d)) as (rq3 & Ep & F3); [|done..|].
  { intros pm st rq' l l' st' _. apply for_each_follows. intros ep st4 rq4 l4 l5 st5 _ F Ex. by eapply offer_pm_follows. }
  unfold derive_pod. rewrite Ea. cbn [mbind option_bind]. rewrite Es. cbn [mbind option_bind]. rewrite Ep. cbn [mbind option_bind]. eexists. split; [done|]. apply F3.
Qed.

(** ** They are proper offers *)

Definition named_monitors : Prop := forall uid l, monitored !! uid = Some l -> Forall (fun sme : bytes * Endpoint => sme.1 <> []) l.

Lemma PodTargets_proper pod : Forall (proper pod) (ADoor <$> PodTargets pod).
Proof.
  apply Forall_fmap. unfold PodTargets. destruct (_ || _); [constructor|]. destruct (schemeAndPath _) as [[s p]|]; [|constructor]. apply Forall_fmap, Forall_true. done.
Qed.

Lemma door_proper pod svc : Forall (proper pod) (ADoor <$> door_targets (NewServiceDoor (door_addr svc) svc) pod).
Proof. apply Forall_fmap. unfold door_targets. destruct (_ || _); [constructor|]. apply Forall_fmap, Forall_true. done. Qed.

Lemma pod_offers_proper pod matched pms : named_monitors -> Forall (fun pm => pm_name pm <> []) pms -> Forall (proper pod) (pod_offers pod matched pms).
Proof.
  intros N Np. unfold pod_offers. rewrite !Forall_app. split; [apply PodTargets_proper|]. split; apply Forall_bind.
  - apply Forall_true. intros svc. unfold service_offers. apply Forall_app. split; [apply door_proper|]. apply Forall_bind. destruct (monitored !! Services.UID svc) as [l|] eqn:E; [|constructor].
    eapply Forall_impl; [by apply (N _ _ E)|]. intros sme Hs. constructor; [done|constructor].
  - eapply Forall_impl; [exact Np|]. intros pm Hn. apply Forall_bind, Forall_true. intros ep. constructor; [done|constructor].
Qed.

(** ** Narrowing *)

Lemma bind_filter {A B} (g : A -> list B) (f : A -> bool) l : (forall x, f x = false -> g x = []) -> List.filter f l ≫= g = l ≫= g.
Proof. intros Hf. induction l as [|x l IH]; [done|]. cbn. destruct (f x) eqn:E; cbn; rewrite IH; [done|]. by rewrite (Hf x E). Qed.

Lemma idle_service pod svc : serviceOptsIn svc monitored = false -> service_offers pod svc = [].
Proof.
  unfold serviceOptsIn. intros [E1 E2]%orb_false_iff. unfold service_offers, NewServiceDoor. rewrite E1. cbn. apply negb_false_iff, bool_decide_eq_true in E2. by rewrite E2.
Qed.

Lemma narrowed (byNs : lists) ns : default [] (optInServices byNs monitored !! ns) = List.filter (fun svc => serviceOptsIn svc monitored) (default [] (byNs !! ns)).
Proof. unfold optInServices. rewrite lookup_omap. destruct (byNs !! ns) as [l|]; [|done]. cbn. by destruct (List.filter _ l). Qed.

Lemma filter_comm {A} (f g : A -> bool) l : List.filter f (List.filter g l) = List.filter g (List.filter f l).
Proof. induction l as [|x l IH]; [done|]. cbn. destruct (f x) eqn:Ef, (g x) eqn:Eg; cbn; rewrite ?Ef, ?Eg; by rewrite IH. Qed.

Lemma narrowed_offers pod labels svcs pms : pod_offers pod (matchingServices (List.filter (fun svc => serviceOptsIn svc monitored) svcs) labels) pms = pod_offers pod (matchingServices svcs labels) pms.
Proof. unfold pod_offers, matchingServices. rewrite filter_comm. f_equal. f_equal. apply bind_filter. apply idle_service. Qed.

End Pod.

(** ** The node *)

Section Node.
Context `{GoText} (door_addr : Service -> Z) (resolve : bytes -> list OwnerReference -> list Owner * Z) (ns_meta : bytes -> option ObjectMeta) (alloc : Pod -> Z).
Context (monitored : monitorMap) (podMonitors : list monitorBase).

(** A pod's targets on their own, from the Services [svcs] of its namespace:
    every Service that selects it, whether or not it opts in. *)
Definition window (svcs : bytes -> list Service) (np : Pod * list OwnerReference) : list ScrapeTarget :=
  let '(raw, refs) := np in
  let pod := Enrich resolve ns_meta raw refs in
  if negb (Scrapeable raw) then []
  else match alone pod (alloc raw) (pod_offers door_addr monitored pod (matchingServices (svcs (pod_Namespace raw)) (pod_Labels raw)) (podMonitorsFor raw (allPodMonitors podMonitors))) with
       | Some (_, (_, d)) => out d
       | None => []
       end.

Lemma pm_names raw : Forall (fun pm => pm_name pm <> []) (podMonitorsFor raw (allPodMonitors podMonitors)).
Proof.
  apply Forall_forall. intros pm Hpm. unfold podMonitorsFor in Hpm. apply list_elem_of_In, filter_In in Hpm as [Hpm _]. apply list_elem_of_In in Hpm.
  unfold allPodMonitors in Hpm. apply list_elem_of_fmap in Hpm as (m & -> & _). cbn. unfold full_name. intros E. by apply app_eq_nil in E as [_ E].
Qed.

Lemma alone_accounts pod addr os : Forall (proper pod) os -> exists log offers d, alone pod addr os = Some (log, (offers, d)) /\ accounts pod d.
Proof.
  intros P. unfold alone. destruct (exec_all_tracks pod os (∅, set_next addr (reset [] (rq_d new_request))) [] (accounts_next _ _ _ (accounts_reset pod _)) (tracks_next _ _ _ _ (tracks_reset pod _)) P) as (log & [offers d] & E & A & _).
  by exists log, offers, d.
Qed.

Context (N : named_monitors monitored).

Lemma window_accounts svcs np : exists d, window svcs np = out d /\ accounts (Enrich resolve ns_meta np.1 np.2) d.
Proof.
  destruct np as [raw refs]. unfold window. cbn [fst snd]. destruct (negb (Scrapeable raw)); [by exists (reset [] (rq_d new_request)); split; [done|apply accounts_reset]|].
  destruct (alone_accounts (Enrich resolve ns_meta raw refs) (alloc raw) (pod_offers door_addr monitored (Enrich resolve ns_meta raw refs) (matchingServices (svcs (pod_Namespace raw)) (pod_Labels raw))
    (podMonitorsFor raw (allPodMonitors podMonitors)))) as (log & offers & d & -> & A); [apply pod_offers_proper; [done|apply pm_names]|]. by exists d.
Qed.

Context (R : reads_served resolve).
Let Q : memos -> Prop := memo_ok door_addr resolve ns_meta.

Lemma node_pod_window byNs rq np : nul_free_refs (pod_Namespace np.1) np.2 -> Q (rq_memo rq) ->
  exists rq', node_pod door_addr resolve ns_meta alloc (optInServices byNs monitored) monitored (allPodMonitors podMonitors) rq np = Some rq' /\
    out (rq_d rq') = out (rq_d rq) ++ window (fun ns => default [] (byNs !! ns)) np /\ Q (rq_memo rq').
Proof.
  destruct np as [raw refs]. cbn [fst snd]. intros F HQ. unfold node_pod, window. destruct (negb (Scrapeable raw)); [exists rq; by rewrite app_nil_r|]. rewrite narrowed.
  set (pod := Enrich resolve ns_meta raw refs). set (svcs := default [] (byNs !! pod_Namespace raw)). set (pms := podMonitorsFor raw (allPodMonitors podMonitors)).
  rewrite <- (narrowed_offers door_addr monitored pod (pod_Labels raw) svcs pms). set (matched := matchingServices _ (pod_Labels raw)).
  destruct (alone_accounts pod (alloc raw) (pod_offers door_addr monitored pod matched pms)) as (log & offers & d & E & A); [apply pod_offers_proper; [done|apply pm_names]|]. rewrite E.
  destruct (_ && _) eqn:Skip.
  - exists rq. split; [done|]. split; [|exact HQ]. rewrite !andb_true_iff, negb_true_iff, bool_decide_eq_true in Skip. destruct Skip as [[S1 S2] S3]. assert (pms = []) as Epm by (by destruct pms). clearbody pms matched. subst pms matched.
    unfold alone, pod_offers, PodTargets in E. change (pod_Annotations pod) with (pod_Annotations raw) in E. rewrite S1 in E. cbn in E. injection E as _ _ <-. cbn. by rewrite app_nil_r.
  - destruct (enrichCached_ok door_addr resolve ns_meta (rq_memo rq) raw refs R F HQ) as [Ee Em]. destruct (enrichCached resolve ns_meta (rq_memo rq) raw refs) as [enriched m]. cbn [fst snd] in Ee, Em. subst enriched. fold pod.
    destruct (derive_pod_follows door_addr resolve ns_meta monitored pod (alloc raw) matched pms (with_memo m rq) log offers d Em E) as (rq' & Ed & (_ & c & k & g & Ep) & Q'). exists rq'. split; [done|]. split; [by rewrite Ep|exact Q'].
Qed.

Definition nul_free_pods (pods : list (Pod * list OwnerReference)) : Prop := Forall (fun np => nul_free_refs (pod_Namespace np.1) np.2) pods.

Lemma node_pods_windows byNs pods : nul_free_pods pods -> forall rq, Q (rq_memo rq) ->
  exists rq', for_each (node_pod door_addr resolve ns_meta alloc (optInServices byNs monitored) monitored (allPodMonitors podMonitors)) pods rq = Some rq' /\
    out (rq_d rq') = out (rq_d rq) ++ (pods ≫= window (fun ns => default [] (byNs !! ns))).
Proof.
  induction 1 as [|np pods F _ IH]; intros rq HQ; [exists rq; by rewrite app_nil_r|]. destruct (node_pod_window byNs rq np F HQ) as (rq1 & E & O & Q1). destruct (IH rq1 Q1) as (rq' & E' & O').
  exists rq'. unfold for_each in *. cbn [foldl mbind option_bind]. rewrite E. split; [done|]. rewrite O', O. cbn [list_bind]. by rewrite app_assoc.
Qed.

(** *** No two targets of a node compare equal *)

Lemma window_keys svcs np : NoDup (target_key <$> window svcs np).
Proof.
  destruct (window_accounts svcs np) as (d & -> & A). apply NoDup_alt. intros i j k. rewrite !list_lookup_fmap. destruct (out d !! i) as [t|] eqn:Hi; [|done]. destruct (out d !! j) as [t'|] eqn:Hj; [|done].
  cbn. intros [= <-] [= E _ _ _]. by eapply (owner_inj _ d).
Qed.

Lemma window_uid svcs np t : t ∈ window svcs np -> pod_UID (t_Pod t) = pod_UID np.1.
Proof.
  destruct (window_accounts svcs np) as (d & -> & A). intros Ht. pose proof (ac_pod _ _ A) as P. rewrite Forall_forall in P. by rewrite (P t Ht).
Qed.

Lemma windows_keys svcs pods : NoDup ((fun np => pod_UID np.1) <$> pods) -> NoDup (target_key <$> (pods ≫= window svcs)).
Proof.
  induction pods as [|np pods IH]; [constructor|]. rewrite fmap_cons. intros [Hn Nd]%NoDup_cons. cbn [mbind list_bind]. rewrite fmap_app. apply NoDup_app. split; [apply window_keys|]. split; [|by apply IH].
  intros k Hk Hk'. apply list_elem_of_fmap in Hk as (t & -> & Ht), Hk' as (t' & E & Ht'). apply list_elem_of_bind in Ht' as (np' & Ht' & Hp). apply Hn. apply list_elem_of_fmap. exists np'. split; [|done].
  injection E as _ _ _ E. by rewrite <- (window_uid _ _ _ Ht), <- (window_uid _ _ _ Ht').
Qed.

(** *** What the index answers *)

(** [InNamespaces] answers each namespace that was asked for, absent when empty. *)
Definition answers (inNamespaces : list bytes -> lists) (svcs : bytes -> list Service) : Prop := forall nss ns, ns ∈ nss -> default [] (inNamespaces nss !! ns) = svcs ns.

Lemma in_namespaces (pods : list (Pod * list OwnerReference)) raw refs : (raw, refs) ∈ pods -> pod_Namespace raw ∈ podNamespaces (fst <$> pods).
Proof.
  assert (G : forall (l : list Pod) acc, (forall ns, ns ∈ acc -> ns ∈ foldl (fun out p => if bool_decide (pod_Namespace p ∈ out) then out else out ++ [pod_Namespace p]) acc l) /\
    forall p, p ∈ l -> pod_Namespace p ∈ foldl (fun out p => if bool_decide (pod_Namespace p ∈ out) then out else out ++ [pod_Namespace p]) acc l).
  { induction l as [|p l IH]; intros acc; [split; [done|]; intros p Hp; by apply elem_of_nil in Hp|]. cbn [foldl]. destruct (IH (if bool_decide (pod_Namespace p ∈ acc) then acc else acc ++ [pod_Namespace p])) as [I1 I2]. split.
    - intros ns Hns. apply I1. case_bool_decide; [done|]. apply elem_of_app. by left.
    - intros q Hq. apply elem_of_cons in Hq as [->|Hq]; [|by apply I2]. apply I1. case_bool_decide; [done|]. apply elem_of_app. right. by apply list_elem_of_singleton. }
  intros Hin. apply (G (fst <$> pods) []). apply list_elem_of_fmap. by exists (raw, refs).
Qed.

Lemma windows_answered inNamespaces svcs pods : answers inNamespaces svcs -> pods ≫= window (fun ns => default [] (inNamespaces (podNamespaces (fst <$> pods)) !! ns)) = pods ≫= window svcs.
Proof.
  intros A. set (nss := podNamespaces (fst <$> pods)). assert (Hin : forall np, np ∈ pods -> pod_Namespace np.1 ∈ nss) by (intros [raw refs] Hp; by eapply in_namespaces).
  clearbody nss. revert Hin. induction pods as [|[raw refs] pods IH]; intros Hin; [done|]. cbn [mbind list_bind]. rewrite IH by (intros np Hnp; apply Hin; by right). f_equal.
  unfold window. by rewrite (A nss (pod_Namespace raw)) by (apply (Hin (raw, refs)); by left).
Qed.

End Node.

(** C8: A node's list is the sorted union of what each of its pods' offers make
    on their own, from every Service that selects the pod: narrowing the
    Services to those that opt in, skipping pods, the position of a pod's window
    and what the request remembers of doors, owner chains and namespaces leave it
    as it is.  Nothing is out of range; of a pod there are at
    most sixteen targets, no two of a URL; and in whatever order the store lists
    the same pods, the list is the same. *)
Theorem node_targets_exact `{GoText} door_addr resolve ns_meta alloc sort inNamespaces svcs monitored podMonitors pods :
  sorts sort -> named_monitors monitored -> answers inNamespaces svcs -> reads_served resolve -> nul_free_pods pods -> NoDup ((fun np : Pod * list OwnerReference => pod_UID np.1) <$> pods) ->
  exists targets, (forall pods', pods' ≡ₚ pods -> exists reports, nodeTargets door_addr resolve ns_meta alloc sort inNamespaces monitored podMonitors pods' = Some (targets, reports)) /\
    targets ≡ₚ pods ≫= window door_addr resolve ns_meta alloc monitored podMonitors svcs /\ StronglySorted target_le targets /\
    (forall np, np ∈ pods -> let w := window door_addr resolve ns_meta alloc monitored podMonitors svcs np in Z.of_nat (length w) <= MaxPortsPerPod /\ NoDup (URL <$> w)).
Proof.
  intros Hs N A R F Nd. set (W := window door_addr resolve ns_meta alloc monitored podMonitors svcs). destruct (sortTargets_ok sort (pods ≫= W) Hs) as (targets & _ & P & S).
  exists targets. split; [|split; [done|split; [done|]]].
  - intros pods' P'. unfold nodeTargets. case_bool_decide as E0.
    { apply nil_length_inv in E0. subst pods'. apply Permutation_nil_l in P'. subst pods. apply Permutation_nil_r in P. subst targets. by eexists. }
    destruct (node_pods_windows door_addr resolve ns_meta alloc monitored podMonitors N R (inNamespaces (podNamespaces (fst <$> pods'))) pods') with (rq := new_request) as (rq & E & O); [by unfold nul_free_pods; rewrite P'|apply memo_ok_new|]. rewrite E. cbn [mbind option_bind].
    cbn [new_request rq_d out app] in O. rewrite (windows_answered door_addr resolve ns_meta alloc monitored podMonitors inNamespaces svcs pods' A) in O. fold W in O.
    destruct (sortTargets_ok sort (out (rq_d rq)) Hs) as (targets' & -> & P1 & S1). cbn [mbind option_bind]. rewrite collisions_are. cbn [mbind option_bind]. eexists. do 2 f_equal. apply sorted_unique; [| |done|done].
    + rewrite P1, O, P. by rewrite P'.
    + rewrite P1, O. apply windows_keys; [done|]. by rewrite P'.
  - intros np _. unfold W. destruct (window_accounts door_addr resolve ns_meta alloc monitored podMonitors N svcs np) as (d & -> & Ad). split; [apply (ac_count _ _ Ad)|].
    apply NoDup_alt. intros i j u. rewrite !list_lookup_fmap. destruct (out d !! i) as [t|] eqn:Hi; [|done]. destruct (out d !! j) as [t'|] eqn:Hj; [|done]. intros [= <-] [= Eu]. by eapply (owner_inj _ d).
Qed.

(** * The monitors of a node's Services ([internal/server/nodetargets.go])

    The match of monitors and Services does not see the snapshot it reuses from
    one monitor to the next, of an index that stands still. *)


(** ** The reused snapshot *)

(** Namespaces have no NUL in their names. *)
Definition nul_free (ns : option (list bytes)) : Prop := match ns with Some l => Forall (fun n => 0 ∉ n) l | None => True end.

Lemma key_inj a b : nul_free a -> nul_free b -> appendNamespaceSetKey a = appendNamespaceSetKey b -> a = b.
Proof.
  destruct a as [a|], b as [b|]; cbn; try done. intros Fa Fb [= E]. by rewrite (terminated_inj a b Fa Fb E).
Qed.

(** The match, monitor by monitor, each with a snapshot of its own. *)
Definition plain_match (all : option (list bytes) -> list Service) (monitors : list monitorBase) : monitorMap := foldl (fun o m => match_services m (all (namespaces m)) o) ∅ monitors.

Lemma build_plain all monitors : Forall (fun m => nul_free (namespaces m)) monitors -> buildMonitoredServices all monitors = plain_match all monitors.
Proof.
  intros F. unfold buildMonitoredServices, plain_match. assert (G : forall run o, (forall k svcs, run = Some (k, svcs) -> exists ns, nul_free ns /\ k = appendNamespaceSetKey ns /\ svcs = all ns) ->
    (foldl (build_one all) (run, o) monitors).2 = foldl (fun o m => match_services m (all (namespaces m)) o) o monitors); [|by apply G].
  induction F as [|m monitors Fm _ IH]; intros run o Hr; [done|]. cbn [foldl build_one].
  assert (Run : match run with Some (k, svcs) => if bool_decide (appendNamespaceSetKey (namespaces m) = k) then (k, svcs) else (appendNamespaceSetKey (namespaces m), all (namespaces m))
    | None => (appendNamespaceSetKey (namespaces m), all (namespaces m)) end = (appendNamespaceSetKey (namespaces m), all (namespaces m))).
  { destruct run as [[k svcs]|]; [|done]. destruct (Hr k svcs eq_refl) as (ns & Fn & -> & ->). case_bool_decide as E; [|done]. by rewrite (key_inj _ _ Fm Fn E). }
  rewrite Run. apply IH. intros k svcs [= <- <-]. by exists (namespaces m).
Qed.

(** Every name it holds is a monitor's, and so not empty. *)
Lemma build_named all monitors : Forall (fun m => nul_free (namespaces m)) monitors -> named_monitors (buildMonitoredServices all monitors).
Proof.
  intros F. rewrite build_plain by done. unfold plain_match. assert (Hf : forall m, full_name m <> []) by (intros m E; unfold full_name in E; by apply app_eq_nil in E as [_ E]).
  apply (foldl_inv named_monitors); [|by intros uid l; rewrite lookup_empty]. intros o m No. unfold match_services. apply (foldl_inv named_monitors); [|done]. intros o1 svc N1. destruct (negb _); [done|].
  unfold append_endpoints. apply (foldl_inv named_monitors); [|done]. intros o2 ep N2 uid l. destruct (decide (Services.UID svc = uid)) as [<-|Hne]; [|rewrite lookup_insert_ne by done; apply N2].
  rewrite lookup_insert_eq. intros [= <-]. apply Forall_app. split; [|constructor; [apply Hf|constructor]]. destruct (o2 !! Services.UID svc) as [l|] eqn:E; [|constructor]. by apply (N2 _ _ E).
Qed.
