(* ===== verification/NodeMonitors.v ===== *)
(** * The memos of monitors among their writers ([internal/servicemonitors/index.go], [internal/server/nodetargets.go])

    Calls to [monitoredServices] and [allPodMonitors] interleave with changes of
    the monitors and of the Services.  A call samples the change tokens one by
    one, waits for the lock of its memo, and reads the indexes one read at a
    time while it builds: the monitors once, and the Services once for each run
    of monitors that name the same namespaces, with changes landing between. *)

From stdpp Require Import sorting.
From S2P Require Import Prelude Clip Order Number Text KubeMeta Services ServicesConc Targets Merge Dedup NodeTargets NodeTargetsPod NodeTargetsSafe.
Local Open Scope Z_scope.

(** ** The index of monitors *)

(** One kind: the monitor indexed under each ["namespace/name"], with the
    version of its object, and the version last rejected under a key. *)
Record kind := mkKind { monitors : gmap bytes (monitorBase * bytes); rejected : gmap bytes bytes }.

(** [None] is an object that does not parse.  Whether the delivery is news, and
    whether it moves the token. *)
Definition upsertMonitor (key resourceVersion : bytes) (m : option monitorBase) (k : kind) : kind * bool * bool :=
  match m with
  | None =>
      let had := bool_decide (is_Some (monitors k !! key)) in
      let news := had || match rejected k !! key with
                         | Some previous => bool_decide (resourceVersion = []) || negb (bool_decide (previous = resourceVersion))
                         | None => true
                         end in
      (mkKind (delete key (monitors k)) (<[key := resourceVersion]> (rejected k)), news, had)
  | Some m =>
      let rejected := delete key (rejected k) in
      let same := match monitors k !! key with Some (_, version) => negb (bool_decide (resourceVersion = [])) && bool_decide (version = resourceVersion) | None => false end in
      if same then (mkKind (monitors k) rejected, false, false) else (mkKind (<[key := (m, resourceVersion)]> (monitors k)) rejected, true, true)
  end.

Definition deleteMonitor (key : bytes) (k : kind) : kind * bool := (mkKind (delete key (monitors k)) (delete key (rejected k)), bool_decide (is_Some (monitors k !! key))).

Definition monitor_key (m : monitorBase) : list bytes := [mo_Namespace m; mo_Name m].
Definition monitor_le (a b : monitorBase) : Prop := keys_leb (monitor_key a) (monitor_key b) = true.
#[export] Instance monitor_le_dec : RelDecision monitor_le.
Proof. intros a b. unfold monitor_le. apply _. Defined.

Definition sortedMonitors (k : kind) : list monitorBase := merge_sort monitor_le (fst <$> (map_to_list (monitors k)).*2).

Record mons := mkMons { service_monitors : kind; pod_monitors : kind }.

Inductive delivery := Upserted (key resourceVersion : bytes) (m : option monitorBase) | Deleted (key : bytes).
Definition deliver_kind (d : delivery) (k : kind) : kind * bool :=
  match d with
  | Upserted key resourceVersion m => let '(k, _, moved) := upsertMonitor key resourceVersion m k in (k, moved)
  | Deleted key => deleteMonitor key k
  end.
Definition deliver (pods : bool) (d : delivery) (x : mons) : mons * bool :=
  if pods then let '(k, moved) := deliver_kind d (pod_monitors x) in (mkMons (service_monitors x) k, moved)
  else let '(k, moved) := deliver_kind d (service_monitors x) in (mkMons k (pod_monitors x), moved).

(** A monitor is stored under its own name, and names of namespaces have no NUL. *)
Definition delivery_ok (d : delivery) : Prop :=
  match d with Upserted key _ (Some m) => key = full_name m /\ nul_free (namespaces m) | _ => True end.

Definition mon_change (x x' : mons) : Prop := exists pods d, delivery_ok d /\ deliver pods d x = (x', true).

(** ** An index among its readers

    [token] moves while the write lock is held, and what is read under the read
    lock changes when the lock is given up: [writing] is the contents to come.
    [history] is every contents there has been, for the statement only. *)

Record index (C : Type) := mkIx { contents : C; token : Z; writing : option C; history : list C }.
Arguments mkIx {C}.
Arguments contents {C}.
Arguments token {C}.
Arguments writing {C}.
Arguments history {C}.

Inductive moves {C : Type} (change : C -> C -> Prop) : index C -> index C -> Prop :=
  | moves_token c t h c' : change c c' -> moves change (mkIx c t None h) (mkIx c (t + 1) (Some c') h)
  | moves_contents c t h c' : moves change (mkIx c t (Some c') h) (mkIx c' t None (h ++ [c'])).

(** What [Index.All] of the Services may answer: each map in some order. *)
Definition all_answer (d : data) (ns : option (list bytes)) (l : list Service) : Prop :=
  exists at_ keys, (forall n, at_ n ≡ₚ (map_to_list (services_of d n)).*2) /\ keys ≡ₚ (map_to_list (byNamespace d)).*1 /\ l = (All at_ keys NewIndex ns).2.

(** One read of it, under the read lock. *)
Definition readable (ix : index data) (all : option (list bytes) -> list Service) : Prop := writing ix = None /\ forall ns, all_answer (contents ix) ns (all ns).

(** ** [monitoredServices] *)

(** Where a call is: between its samples; waiting for the lock; holding it,
    before the monitors are read; matching, with the monitors left, the run and
    what is built; and answered, with how many contents of each index there had
    been. *)
Inductive phase :=
  | MonSampled (mg : Z)
  | Sampled (mg sg : Z)
  | Locked (mg sg : Z)
  | Matching (mg sg : Z) (rest : list monitorBase) (run : option (bytes * list Service)) (o : monitorMap)
  | Answered (mg sg : Z) (o : monitorMap) (fm fs : nat).

Definition holds_lock (p : phase) : bool := match p with Locked _ _ | Matching _ _ _ _ _ => true | _ => false end.

Record mon_side := mkMS { memo_ : monMemo; monBuilds : Z; monMu : option nat; callers : gmap nat phase }.
Definition enter (i : nat) (p : phase) (s : mon_side) : mon_side := mkMS (memo_ s) (monBuilds s) (monMu s) (<[i := p]> (callers s)).

Definition reuses (run : option (bytes * list Service)) (m : monitorBase) : bool :=
  match run with Some (k, _) => bool_decide (appendNamespaceSetKey (namespaces m) = k) | None => false end.

Inductive mon_step (mx : index mons) (sx : index data) : mon_side -> mon_side -> Prop :=
  | step_sample_monitors s i : callers s !! i = None -> mon_step mx sx s (enter i (MonSampled (token mx)) s)
  | step_sample_services s i mg : callers s !! i = Some (MonSampled mg) -> mon_step mx sx s (enter i (Sampled mg (token sx)) s)
  | step_hit s i mg sg : callers s !! i = Some (Sampled mg sg) -> monMu s = None -> mon_stale mg sg (memo_ s) = false ->
      mon_step mx sx s (enter i (Answered mg sg (monCache (memo_ s)) (length (history mx)) (length (history sx))) s)
  | step_miss s i mg sg : callers s !! i = Some (Sampled mg sg) -> monMu s = None -> mon_stale mg sg (memo_ s) = true ->
      mon_step mx sx s (mkMS (memo_ s) (monBuilds s + 1) (Some i) (<[i := Locked mg sg]> (callers s)))
  | step_all s i mg sg : callers s !! i = Some (Locked mg sg) -> writing mx = None ->
      mon_step mx sx s (enter i (Matching mg sg (sortedMonitors (service_monitors (contents mx))) None ∅) s)
  | step_match s i mg sg m rest run o all : callers s !! i = Some (Matching mg sg (m :: rest) run o) -> reuses run m = true \/ readable sx all ->
      mon_step mx sx s (enter i (Matching mg sg rest (build_one all (run, o) m).1 (build_one all (run, o) m).2) s)
  | step_store s i mg sg run o : callers s !! i = Some (Matching mg sg [] run o) ->
      mon_step mx sx s (mkMS (mon_store o mg sg (memo_ s)) (monBuilds s) None (<[i := Answered mg sg o (length (history mx)) (length (history sx))]> (callers s))).

(** ** [allPodMonitors] *)

Inductive pod_phase :=
  | PodSampled (mg : Z)
  | PodLocked (mg : Z)
  | PodRead (mg : Z) (all : list monitorBase)
  | PodAnswered (mg : Z) (refs : list podMonitorRef) (fm : nat).

Definition holds_pod_lock (p : pod_phase) : bool := match p with PodLocked _ | PodRead _ _ => true | _ => false end.

Record pod_side := mkPS { pod_memo : pmMemo; pmBuilds : Z; pmMu : option nat; pod_callers : gmap nat pod_phase }.
Definition pod_enter (i : nat) (p : pod_phase) (s : pod_side) : pod_side := mkPS (pod_memo s) (pmBuilds s) (pmMu s) (<[i := p]> (pod_callers s)).

Inductive pod_step (mx : index mons) : pod_side -> pod_side -> Prop :=
  | step_pod_sample s i : pod_callers s !! i = None -> pod_step mx s (pod_enter i (PodSampled (token mx)) s)
  | step_pod_hit s i mg : pod_callers s !! i = Some (PodSampled mg) -> pmMu s = None -> pm_fresh mg (pod_memo s) = true ->
      pod_step mx s (pod_enter i (PodAnswered mg (pmCache (pod_memo s)) (length (history mx))) s)
  | step_pod_miss s i mg : pod_callers s !! i = Some (PodSampled mg) -> pmMu s = None -> pm_fresh mg (pod_memo s) = false ->
      pod_step mx s (mkPS (pod_memo s) (pmBuilds s + 1) (Some i) (<[i := PodLocked mg]> (pod_callers s)))
  | step_pod_read s i mg : pod_callers s !! i = Some (PodLocked mg) -> writing mx = None ->
      pod_step mx s (pod_enter i (PodRead mg (sortedMonitors (pod_monitors (contents mx)))) s)
  | step_pod_store s i mg all : pod_callers s !! i = Some (PodRead mg all) ->
      pod_step mx s (mkPS (pm_store (allPodMonitors all) mg (pod_memo s)) (pmBuilds s) None (<[i := PodAnswered mg (allPodMonitors all) (length (history mx))]> (pod_callers s))).

(** ** The whole *)

Record sys := mkSys { mons_ix : index mons; svcs_ix : index data; mon : mon_side; pod : pod_side }.

Inductive step : sys -> sys -> Prop :=
  | step_monitors mx sx s p mx' : moves mon_change mx mx' -> step (mkSys mx sx s p) (mkSys mx' sx s p)
  | step_services mx sx s p sx' : moves change sx sx' -> step (mkSys mx sx s p) (mkSys mx sx' s p)
  | step_mon mx sx s p s' : mon_step mx sx s s' -> step (mkSys mx sx s p) (mkSys mx sx s' p)
  | step_pod mx sx s p p' : pod_step mx p p' -> step (mkSys mx sx s p) (mkSys mx sx s p').

Definition no_mons : mons := mkMons (mkKind ∅ ∅) (mkKind ∅ ∅).
Definition no_memo : monMemo := mkMemoOf false 0 0 ∅.
Definition no_pm : pmMemo := mkPmMemo false 0 [].
Definition init : sys := mkSys (mkIx no_mons 0 None [no_mons]) (mkIx (held NewIndex) 0 None [held NewIndex]) (mkMS no_memo 0 None ∅) (mkPS no_pm 0 None ∅).
Definition reachable (s : sys) : Prop := rtc step init s.

(** ** The index *)

(** A delivery that does not move the token serves what was served. *)
Lemma unmoved_same pods d x x' : deliver pods d x = (x', false) ->
  monitors (service_monitors x') = monitors (service_monitors x) /\ monitors (pod_monitors x') = monitors (pod_monitors x).
Proof.
  assert (K : forall k k', deliver_kind d k = (k', false) -> monitors k' = monitors k).
  { intros k k'. destruct d as [key rv [m|]|key]; cbn [deliver_kind upsertMonitor deleteMonitor].
    - destruct (match monitors k !! key with Some (_, version) => _ | None => false end); by intros [= <-].
    - intros [= <- E]. apply bool_decide_eq_false, eq_None_not_Some in E. by apply delete_id.
    - unfold deleteMonitor. intros [= <- E]. apply bool_decide_eq_false, eq_None_not_Some in E. by apply delete_id. }
  unfold deliver. destruct pods; destruct (deliver_kind d _) as [k moved] eqn:E; intros [= <- ->]; cbn; by rewrite (K _ _ E).
Qed.

(** Monitors are stored under their own names, with namespaces free of NUL. *)
Definition kind_ok (k : kind) : Prop := map_Forall (fun key mv => key = full_name mv.1 /\ nul_free (namespaces mv.1)) (monitors k).
Definition mons_ok (x : mons) : Prop := kind_ok (service_monitors x) /\ kind_ok (pod_monitors x).

Lemma deliver_kind_ok d k : delivery_ok d -> kind_ok k -> kind_ok (deliver_kind d k).1.
Proof.
  intros D K. destruct d as [key rv [m|]|key]; cbn [deliver_kind upsertMonitor deleteMonitor].
  - destruct (match monitors k !! key with Some (_, version) => _ | None => false end); [exact K|]. by apply map_Forall_insert_2.
  - by apply map_Forall_delete.
  - by apply map_Forall_delete.
Qed.

Lemma change_ok x x' : mon_change x x' -> mons_ok x -> mons_ok x'.
Proof.
  intros (pods & d & D & E) [S P]. unfold deliver in E. pose proof (deliver_kind_ok d (service_monitors x) D S). pose proof (deliver_kind_ok d (pod_monitors x) D P).
  destruct pods; [destruct (deliver_kind d (pod_monitors x))|destruct (deliver_kind d (service_monitors x))]; injection E as <- _; by split.
Qed.

Lemma sorted_perm k : sortedMonitors k ≡ₚ fst <$> (map_to_list (monitors k)).*2.
Proof. apply merge_sort_Permutation. Qed.

Lemma sorted_nul_free k : kind_ok k -> Forall (fun m => nul_free (namespaces m)) (sortedMonitors k).
Proof.
  intros K. rewrite sorted_perm. rewrite Forall_fmap, Forall_fmap. apply Forall_forall. intros [key mv] Hin. apply elem_of_map_to_list in Hin. exact (proj2 (K _ _ Hin)).
Qed.

(** One sorted arrangement is all there is, however the sort treats equal keys. *)
Lemma sorted_only k l : kind_ok k -> l ≡ₚ fst <$> (map_to_list (monitors k)).*2 -> StronglySorted monitor_le l -> l = sortedMonitors k.
Proof.
  intros K P S. assert (Nd : NoDup (monitor_key <$> l)).
  { rewrite P, <- !list_fmap_compose. apply NoDup_fmap_2_strong; [|apply NoDup_map_to_list]. intros [a [m v]] [b [m' v']] Ha Hb E. apply elem_of_map_to_list in Ha, Hb.
    destruct (K _ _ Ha) as [-> _], (K _ _ Hb) as [Eb _]. cbn in E, Eb. assert (full_name m = b) as <- by (subst b; unfold full_name; injection E as -> ->; done). cbn in Ha, Hb. rewrite Ha in Hb. by injection Hb as -> ->. }
  assert (S' : StronglySorted monitor_le (sortedMonitors k)).
  { apply StronglySorted_merge_sort.
    - intros a b c. exact (keys_trans (monitor_key a) (monitor_key b) (monitor_key c) eq_refl eq_refl).
    - intros a b. exact (keys_total _ _). }
  assert (P' : l ≡ₚ sortedMonitors k) by (by rewrite sorted_perm). clear P K. generalize dependent (sortedMonitors k). revert Nd S. induction l as [|x l IH]; intros Nd S l' S' P'; [by apply Permutation_nil_l|].
  destruct l' as [|y l']; [by apply Permutation_nil_r in P'|]. inversion S as [|? ? Sl Fx]; subst. inversion S' as [|? ? Sl' Fy]; subst.
  assert (x = y) as ->.
  { assert (y ∈ x :: l) as [->|Hy]%elem_of_cons by (rewrite P'; by left); [done|]. assert (x ∈ y :: l') as [->|Hx]%elem_of_cons by (rewrite <- P'; by left); [done|].
    rewrite Forall_forall in Fx, Fy. pose proof (keys_antisym (monitor_key x) (monitor_key y) eq_refl (Fx _ Hy) (Fy _ Hx)) as E. exfalso. rewrite fmap_cons in Nd. apply NoDup_cons in Nd as [Hn _]. apply Hn. rewrite E. by apply list_elem_of_fmap_2. }
  f_equal. apply IH; [by inversion Nd|done|done|]. by apply Permutation_cons_inv in P'.
Qed.

(** ** Versions *)

Record ix_ok {C : Type} (good : C -> Prop) (x : index C) : Prop := {
  ix_len : Z.of_nat (length (history x)) = match writing x with None => token x + 1 | Some _ => token x end;
  ix_now : history x !! pred (length (history x)) = Some (contents x);
  ix_good : Forall good (history x);
  ix_next : match writing x with Some c => good c | None => True end }.

Definition grown {C : Type} (x x' : index C) : Prop := history x `prefix_of` history x' /\ token x <= token x'.

Lemma moves_ok {C : Type} (ch : C -> C -> Prop) (good : C -> Prop) x x' : (forall c c', ch c c' -> good c -> good c') -> moves ch x x' -> ix_ok good x -> ix_ok good x' /\ grown x x'.
Proof.
  intros Hg M I. destruct M as [c t h c' Hc|c t h c']; destruct I as [L N G X]; cbn in L, N, X; split; try (split; cbn [history token]; [by eexists|lia]).
  - split; cbn; [lia|done|done|]. eapply Hg; [done|]. rewrite Forall_lookup in G. by eapply G.
  - split; [by exists []; rewrite app_nil_r|cbn; lia].
  - split; cbn [history writing token contents]; [rewrite length_app; cbn; lia| |by apply Forall_app; split; [|constructor]|done].
    rewrite length_app. cbn [length]. replace (pred (length h + 1)) with (length h) by lia. by rewrite lookup_app_r, Nat.sub_diag.
Qed.

Lemma seen_refl {C : Type} (x : index C) : grown x x.
Proof. split; [done|lia]. Qed.

Lemma ix_last {C : Type} (good : C -> Prop) (x : index C) : ix_ok good x -> 0 <= token x /\ (writing x = None -> exists v, token x = Z.of_nat v /\ (v < length (history x))%nat /\ history x !! v = Some (contents x)).
Proof.
  intros I. pose proof (ix_len _ _ I) as L. pose proof (lookup_lt_Some _ _ _ (ix_now _ _ I)) as Hp. split; [destruct (writing x); lia|].
  intros W. rewrite W in L. exists (pred (length (history x))). split; [lia|]. split; [done|apply (ix_now _ _ I)].
Qed.

(** An answer of the Services' index at a version of [lo] or later, before [fin]. *)
Definition snap (h : list data) (lo : Z) (fin : nat) (ns : option (list bytes)) (l : list Service) : Prop :=
  exists v d, lo <= Z.of_nat v /\ (v < fin)%nat /\ h !! v = Some d /\ all_answer d ns l.

(** The match of some monitors, each with a snapshot of its own. *)
Definition match_all (ms : list monitorBase) (snaps : list (list Service)) : monitorMap := foldl (fun o ml => match_services ml.1 ml.2 o) ∅ (zip ms snaps).

Definition matched (hm : list mons) (hs : list data) (lm ls : Z) (fm fs : nat) (rest : list monitorBase) (o : monitorMap) : Prop :=
  exists v x ms snaps, lm <= Z.of_nat v /\ (v < fm)%nat /\ hm !! v = Some x /\ sortedMonitors (service_monitors x) = ms ++ rest /\
    Forall2 (fun m => snap hs ls fs (namespaces m)) ms snaps /\ o = match_all ms snaps.

Definition run_ok (hs : list data) (ls : Z) (fs : nat) (run : option (bytes * list Service)) : Prop :=
  match run with None => True | Some (k, l) => exists ns, nul_free ns /\ k = appendNamespaceSetKey ns /\ snap hs ls fs ns l end.

Lemma snap_weaken h h' lo lo' fin fin' ns l : h `prefix_of` h' -> lo' <= lo -> (fin <= fin')%nat -> snap h lo fin ns l -> snap h' lo' fin' ns l.
Proof. intros P L F (v & d & Hv & Hf & E & A). exists v, d. split_and!; [lia|lia|by eapply prefix_lookup_Some|done]. Qed.

Lemma matched_weaken hm hm' hs hs' lm lm' ls ls' fm fm' fs fs' rest o : hm `prefix_of` hm' -> hs `prefix_of` hs' -> lm' <= lm -> ls' <= ls -> (fm <= fm')%nat -> (fs <= fs')%nat ->
  matched hm hs lm ls fm fs rest o -> matched hm' hs' lm' ls' fm' fs' rest o.
Proof.
  intros Pm Ps Lm Ls Fm Fs (v & x & ms & snaps & Hv & Hf & E & Em & S & Eo). exists v, x, ms, snaps. split_and!; [lia|lia|by eapply prefix_lookup_Some|done| |done].
  eapply Forall2_impl; [exact S|]. intros m l. by apply snap_weaken.
Qed.

Lemma run_weaken hs hs' ls ls' fs fs' run : hs `prefix_of` hs' -> ls' <= ls -> (fs <= fs')%nat -> run_ok hs ls fs run -> run_ok hs' ls' fs' run.
Proof. intros P L F. destruct run as [[k l]|]; [|done]. intros (ns & N & E & S). exists ns. split_and!; [done|done|by eapply snap_weaken]. Qed.

Lemma match_snoc ms snaps m l : length ms = length snaps -> match_all (ms ++ [m]) (snaps ++ [l]) = match_services m l (match_all ms snaps).
Proof. intros E. unfold match_all. by rewrite zip_with_app, foldl_app by done. Qed.

(** A monitor is matched with the snapshot of the run, or one read now. *)
Lemma build_one_ok hm hs sx lm ls fm m rest run o all : Forall mons_ok hm -> ix_ok (fun _ => True) sx -> hs = history sx -> ls <= token sx ->
  reuses run m = true \/ readable sx all ->
  matched hm hs lm ls fm (length hs) (m :: rest) o -> run_ok hs ls (length hs) run ->
  matched hm hs lm ls fm (length hs) rest (build_one all (run, o) m).2 /\ run_ok hs ls (length hs) (build_one all (run, o) m).1.
Proof.
  intros G I -> Ls Hr (v & x & ms & snaps & Hv & Hf & E & Em & S & Eo) R. set (hs := history sx) in *.
  assert (N : nul_free (namespaces m)).
  { rewrite Forall_lookup in G. destruct (G _ _ E) as [K _]. pose proof (sorted_nul_free _ K) as F. rewrite Em in F. apply Forall_app in F as [_ F]. by inversion F. }
  assert (Run : exists l, (build_one all (run, o) m).1 = Some (appendNamespaceSetKey (namespaces m), l) /\ (build_one all (run, o) m).2 = match_services m l o /\ snap hs ls (length hs) (namespaces m) l).
  { cbn [build_one fst snd]. assert (Read : readable sx all -> snap hs ls (length hs) (namespaces m) (all (namespaces m))).
    { intros [W A]. destruct (proj2 (ix_last _ _ I) W) as (u & Eu & Hu & Ec). exists u, (contents sx). split_and!; [lia|done|done|apply A]. }
    destruct run as [[k l]|]; [|destruct Hr as [|Hr]; [done|]; by eexists; split_and!; [done|done|apply Read]]. cbn [reuses] in Hr. case_bool_decide as Ek.
    - destruct R as (ns & Fn & Ekn & Hs). exists l. split; [by rewrite Ek|]. split; [done|]. rewrite (key_inj (namespaces m) ns); [done|done|done|congruence].
    - destruct Hr as [|Hr]; [done|]. by eexists; split_and!; [done|done|apply Read]. }
  destruct Run as (l & -> & -> & Hl). split; [|by exists (namespaces m)]. exists v, x, (ms ++ [m]), (snaps ++ [l]). split_and!; [done|done|done|by rewrite <- app_assoc|by apply Forall2_app; [|constructor]|].
  rewrite match_snoc by (by eapply Forall2_length). by rewrite Eo.
Qed.

(** ** The invariant of [monitoredServices] *)

Definition sampled (mx : index mons) (sx : index data) (mg sg : Z) : Prop := 0 <= mg <= token mx /\ 0 <= sg <= token sx.

Definition phase_ok (mx : index mons) (sx : index data) (c : monMemo) (p : phase) : Prop :=
  let hm := history mx in let hs := history sx in
  match p with
  | MonSampled mg => 0 <= mg <= token mx
  | Sampled mg sg => sampled mx sx mg sg
  | Locked mg sg => sampled mx sx mg sg /\ mon_stale mg sg c = true
  | Matching mg sg rest run o => sampled mx sx mg sg /\ mon_stale mg sg c = true /\
      matched hm hs (Z.max (monGen c) mg) (Z.max (svcGen c) sg) (length hm) (length hs) rest o /\ run_ok hs (Z.max (svcGen c) sg) (length hs) run
  | Answered mg sg o fm fs => (fm <= length hm)%nat /\ (fs <= length hs)%nat /\ matched hm hs mg sg fm fs [] o
  end.

Record mon_inv (mx : index mons) (sx : index data) (s : mon_side) : Prop := {
  mi_stamps : sampled mx sx (monGen (memo_ s)) (svcGen (memo_ s));
  mi_memo : monValid (memo_ s) = true -> matched (history mx) (history sx) (monGen (memo_ s)) (svcGen (memo_ s)) (length (history mx)) (length (history sx)) [] (monCache (memo_ s));
  mi_builds : monBuilds s <= (if monValid (memo_ s) then 1 + monGen (memo_ s) + svcGen (memo_ s) else 0) + (match monMu s with Some _ => 1 | None => 0 end);
  mi_phase : forall i p, callers s !! i = Some p -> phase_ok mx sx (memo_ s) p;
  mi_lock : forall i, monMu s = Some i <-> exists p, callers s !! i = Some p /\ holds_lock p = true }.

Lemma grown_len {C : Type} (x x' : index C) : grown x x' -> (length (history x) <= length (history x'))%nat.
Proof. intros [P _]. by apply prefix_length. Qed.

Lemma phase_grown mx mx' sx sx' c p : grown mx mx' -> grown sx sx' -> phase_ok mx sx c p -> phase_ok mx' sx' c p.
Proof.
  intros Gm Gs. pose proof (grown_len _ _ Gm) as Lm. pose proof (grown_len _ _ Gs) as Ls. destruct Gm as [Pm Tm], Gs as [Ps Ts]. unfold phase_ok, sampled. destruct p as [mg|mg sg|mg sg|mg sg rest run o|mg sg o fm fs].
  - lia.
  - lia.
  - intros [? ?]. split; [lia|done].
  - intros (? & ? & M & R). split_and!; try done; try lia; [by eapply matched_weaken; try done; lia|by eapply run_weaken; try done; lia].
  - intros (? & ? & M). split_and!; try lia. by eapply matched_weaken; try done; lia.
Qed.

Lemma mon_grown mx mx' sx sx' s : grown mx mx' -> grown sx sx' -> mon_inv mx sx s -> mon_inv mx' sx' s.
Proof.
  intros Gm Gs I. pose proof (grown_len _ _ Gm) as Lm. pose proof (grown_len _ _ Gs) as Ls. destruct I as [S M B P L]. split; [| |done| |done].
  - destruct Gm, Gs. unfold sampled in *. lia.
  - intros V. eapply matched_weaken; [apply Gm|apply Gs| | |done|done|by apply M]; lia.
  - intros i p Hp. by eapply phase_grown, P.
Qed.

(** A phase that does not hold the lock does not see the memo. *)
Lemma phase_memo mx sx c c' p : holds_lock p = false -> phase_ok mx sx c p -> phase_ok mx sx c' p.
Proof. by destruct p. Qed.

Lemma lookup_entered (l : gmap nat phase) i p (Q : nat -> phase -> Prop) : Q i p -> (forall j q, j <> i -> l !! j = Some q -> Q j q) -> forall j q, <[i := p]> l !! j = Some q -> Q j q.
Proof. intros Hi Hr j q. destruct (decide (j = i)) as [->|Hn]; [rewrite lookup_insert_eq; by intros [= <-]|]. rewrite lookup_insert_ne by done. by apply Hr. Qed.

(** A caller that keeps, or still lacks, the lock. *)
Lemma mon_enter mx sx s i p : mon_inv mx sx s -> phase_ok mx sx (memo_ s) p -> holds_lock p = match callers s !! i with Some q => holds_lock q | None => false end -> mon_inv mx sx (enter i p s).
Proof.
  intros I Hp Hl. destruct I as [S M B P L]. split; cbn [enter memo_ monBuilds monMu callers]; try done.
  - by apply (lookup_entered _ _ _ (fun _ q => phase_ok mx sx (memo_ s) q)); [|intros j q _; apply P].
  - intros j. rewrite L. destruct (decide (j = i)) as [->|Hn]; [rewrite lookup_insert_eq|by rewrite lookup_insert_ne by done]. split.
    + intros (q & E & Hq). exists p. rewrite E in Hl. split; congruence.
    + intros (q & [= <-] & Hq). rewrite Hl in Hq. destruct (callers s !! i) as [q|]; [by exists q|done].
Qed.

Lemma stale_gens mg sg c : mon_stale mg sg c = true -> monValid c = true -> monGen c < mg \/ svcGen c < sg.
Proof. unfold mon_stale. intros E V. rewrite V in E. cbn in E. apply orb_true_iff in E as [E|E]; lia. Qed.

Lemma hit_gens mg sg c : mon_stale mg sg c = false -> monValid c = true /\ mg <= monGen c /\ sg <= svcGen c.
Proof. unfold mon_stale. intros [[E1 E2]%orb_false_iff E3]%orb_false_iff. apply negb_false_iff in E1. split; [done|lia]. Qed.

(** The holder of the lock stores and gives it up. *)
Lemma mon_stored mx sx s i mg sg run o : mon_inv mx sx s -> callers s !! i = Some (Matching mg sg [] run o) ->
  mon_inv mx sx (mkMS (mon_store o mg sg (memo_ s)) (monBuilds s) None (<[i := Answered mg sg o (length (history mx)) (length (history sx))]> (callers s))).
Proof.
  intros I Hi. destruct (mi_phase _ _ _ I _ _ Hi) as ((Tm & Ts) & St & M & _). destruct I as [S _ B P L]. assert (Hmu : monMu s = Some i) by (apply L; by eexists). split; cbn [memo_ monBuilds monMu callers mon_store monValid monGen svcGen monCache].
  - unfold sampled in *. lia.
  - done.
  - rewrite Hmu in B. destruct (monValid (memo_ s)) eqn:V; [destruct (stale_gens _ _ _ St V)|]; unfold sampled in S; lia.
  - apply (lookup_entered _ _ _ (fun _ q => phase_ok mx sx (mon_store o mg sg (memo_ s)) q)).
    + split; [done|]. split; [done|]. eapply matched_weaken; [done|done| | |done|done|exact M]; lia.
    + intros j q Hn Hj. eapply phase_memo; [|by apply (P j)]. destruct (holds_lock q) eqn:Hq; [|done]. assert (monMu s = Some j) by (apply L; by eexists). congruence.
  - intros j. split; [done|]. intros (q & Hj & Hq). destruct (decide (j = i)) as [->|Hn]; [rewrite lookup_insert_eq in Hj; by injection Hj as <-|].
    rewrite lookup_insert_ne in Hj by done. assert (monMu s = Some j) by (apply L; by eexists). congruence.
Qed.

Lemma mon_step_ok mx sx s s' : ix_ok mons_ok mx -> ix_ok (fun _ => True) sx -> mon_step mx sx s s' -> mon_inv mx sx s -> mon_inv mx sx s'.
Proof.
  intros Im Is T I. destruct (ix_last _ _ Im) as [Pm Lm], (ix_last _ _ Is) as [Ps _].
  destruct T as [s i Hi|s i mg Hi|s i mg sg Hi Hu Hs|s i mg sg Hi Hu Hs|s i mg sg Hi Hw|s i mg sg m rest run o all Hi Hr|s i mg sg run o Hi]; [| | | | | |by eapply mon_stored].
  all: pose proof (mi_stamps _ _ _ I) as S; try pose proof (mi_phase _ _ _ I _ _ Hi) as P.
  - apply mon_enter; [done|cbn; lia|by rewrite Hi].
  - apply mon_enter; [done|cbn in P |- *; unfold sampled; lia|by rewrite Hi].
  - apply mon_enter; [done| |by rewrite Hi]. destruct (hit_gens _ _ _ Hs) as (V & ? & ?). split; [done|]. split; [done|]. by eapply matched_weaken; [done|done| | |done|done|apply (mi_memo _ _ _ I V)].
  - destruct I as [_ M B Ph L]. split; cbn [memo_ monBuilds monMu callers]; [done|done|rewrite Hu in B; lia| |].
    + apply (lookup_entered _ _ _ (fun _ q => phase_ok mx sx (memo_ s) q)); [by split|intros j q _; apply Ph].
    + intros j. destruct (decide (j = i)) as [->|Hn]; [rewrite lookup_insert_eq; split; [by eexists|done]|]. rewrite lookup_insert_ne by done. split; [congruence|]. intros Hj. apply L in Hj. congruence.
  - apply mon_enter; [done| |by rewrite Hi]. destruct P as [[Tm Ts] St]. split_and!; [by split|done| |done]. destruct (Lm Hw) as (v & Ev & Hv & E).
    exists v, (contents mx), [], []. split_and!; [unfold sampled in S; lia|done|done|done|constructor|done].
  - apply mon_enter; [done| |by rewrite Hi]. destruct P as ([Tm Ts] & St & M & R). destruct (build_one_ok (history mx) (history sx) sx (Z.max (monGen (memo_ s)) mg) (Z.max (svcGen (memo_ s)) sg) (length (history mx)) m rest run o all) as [M' R']; try done.
    + apply Im.
    + unfold sampled in S. lia.
Qed.

(** ** The invariant of [allPodMonitors] *)

Definition listed (hm : list mons) (lo : Z) (fin : nat) (all : list monitorBase) : Prop :=
  exists v x, lo <= Z.of_nat v /\ (v < fin)%nat /\ hm !! v = Some x /\ all = sortedMonitors (pod_monitors x).

Definition pod_phase_ok (mx : index mons) (c : pmMemo) (p : pod_phase) : Prop :=
  match p with
  | PodSampled mg => 0 <= mg <= token mx
  | PodLocked mg => 0 <= mg <= token mx /\ pm_fresh mg c = false
  | PodRead mg all => 0 <= mg <= token mx /\ pm_fresh mg c = false /\ listed (history mx) (Z.max (pmGen c) mg) (length (history mx)) all
  | PodAnswered mg refs fm => (fm <= length (history mx))%nat /\ exists all, listed (history mx) mg fm all /\ refs = allPodMonitors all
  end.

Record pod_inv (mx : index mons) (s : pod_side) : Prop := {
  pi_stamp : 0 <= pmGen (pod_memo s) <= token mx;
  pi_memo : pmValid (pod_memo s) = true -> exists all, listed (history mx) (pmGen (pod_memo s)) (length (history mx)) all /\ pmCache (pod_memo s) = allPodMonitors all;
  pi_builds : pmBuilds s <= (if pmValid (pod_memo s) then 1 + pmGen (pod_memo s) else 0) + (match pmMu s with Some _ => 1 | None => 0 end);
  pi_phase : forall i p, pod_callers s !! i = Some p -> pod_phase_ok mx (pod_memo s) p;
  pi_lock : forall i, pmMu s = Some i <-> exists p, pod_callers s !! i = Some p /\ holds_pod_lock p = true }.

Lemma listed_weaken hm hm' lo lo' fin fin' all : hm `prefix_of` hm' -> lo' <= lo -> (fin <= fin')%nat -> listed hm lo fin all -> listed hm' lo' fin' all.
Proof. intros P L F (v & x & Hv & Hf & E & A). exists v, x. split_and!; [lia|lia|by eapply prefix_lookup_Some|done]. Qed.

Lemma pod_grown mx mx' s : grown mx mx' -> pod_inv mx s -> pod_inv mx' s.
Proof.
  intros G I. pose proof (grown_len _ _ G) as Lm. destruct G as [Pm Tm]. destruct I as [S M B P L]. split; [lia| |done| |done].
  - intros V. destruct (M V) as (all & A & E). exists all. split; [by eapply listed_weaken; [done| |exact Lm|exact A]|done].
  - intros i p Hp. specialize (P _ _ Hp). destruct p as [mg|mg|mg all|mg refs fm]; cbn in P |- *; [lia|split; [lia|apply P]| |].
    + destruct P as (? & ? & A). split_and!; [lia|lia|done|]. by eapply listed_weaken; [done| |exact Lm|exact A].
    + destruct P as (? & all & A & E). split; [lia|]. exists all. split; [by eapply listed_weaken; [done| |done|exact A]|done].
Qed.

Lemma lookup_pod_entered (l : gmap nat pod_phase) i p (Q : nat -> pod_phase -> Prop) : Q i p -> (forall j q, j <> i -> l !! j = Some q -> Q j q) -> forall j q, <[i := p]> l !! j = Some q -> Q j q.
Proof. intros Hi Hr j q. destruct (decide (j = i)) as [->|Hn]; [rewrite lookup_insert_eq; by intros [= <-]|]. rewrite lookup_insert_ne by done. by apply Hr. Qed.

Lemma pod_enter_ok mx s i p : pod_inv mx s -> pod_phase_ok mx (pod_memo s) p -> holds_pod_lock p = match pod_callers s !! i with Some q => holds_pod_lock q | None => false end -> pod_inv mx (pod_enter i p s).
Proof.
  intros I Hp Hl. destruct I as [S M B P L]. split; cbn [pod_enter pod_memo pmBuilds pmMu pod_callers]; try done.
  - by apply (lookup_pod_entered _ _ _ (fun _ q => pod_phase_ok mx (pod_memo s) q)); [|intros j q _; apply P].
  - intros j. rewrite L. destruct (decide (j = i)) as [->|Hn]; [rewrite lookup_insert_eq|by rewrite lookup_insert_ne by done]. split.
    + intros (q & E & Hq). exists p. rewrite E in Hl. split; congruence.
    + intros (q & [= <-] & Hq). rewrite Hl in Hq. destruct (pod_callers s !! i) as [q|]; [by exists q|done].
Qed.

Lemma pod_stored mx s i mg all : pod_inv mx s -> pod_callers s !! i = Some (PodRead mg all) ->
  pod_inv mx (mkPS (pm_store (allPodMonitors all) mg (pod_memo s)) (pmBuilds s) None (<[i := PodAnswered mg (allPodMonitors all) (length (history mx))]> (pod_callers s))).
Proof.
  intros I Hi. destruct (pi_phase _ _ I _ _ Hi) as (Tm & St & A). destruct I as [S _ B P L]. assert (Hmu : pmMu s = Some i) by (apply L; by eexists). split; cbn [pod_memo pmBuilds pmMu pod_callers pm_store pmValid pmGen pmCache].
  - lia.
  - intros _. by exists all.
  - rewrite Hmu in B. unfold pm_fresh in St. destruct (pmValid (pod_memo s)); cbn in St; lia.
  - apply (lookup_pod_entered _ _ _ (fun _ q => pod_phase_ok mx (pm_store (allPodMonitors all) mg (pod_memo s)) q)).
    + split; [done|]. exists all. split; [|done]. eapply listed_weaken; [done| |done|exact A]. lia.
    + intros j q Hn Hj. specialize (P j q Hj). assert (holds_pod_lock q = false) as Hq; [|by destruct q].
      destruct (holds_pod_lock q) eqn:Hq; [|done]. assert (pmMu s = Some j) by (apply L; by eexists). congruence.
  - intros j. split; [done|]. intros (q & Hj & Hq). destruct (decide (j = i)) as [->|Hn]; [rewrite lookup_insert_eq in Hj; by injection Hj as <-|].
    rewrite lookup_insert_ne in Hj by done. assert (pmMu s = Some j) by (apply L; by eexists). congruence.
Qed.

Lemma pod_step_ok mx s s' : ix_ok mons_ok mx -> pod_step mx s s' -> pod_inv mx s -> pod_inv mx s'.
Proof.
  intros Im T I. destruct (ix_last _ _ Im) as [Pm Lm].
  destruct T as [s i Hi|s i mg Hi Hu Hs|s i mg Hi Hu Hs|s i mg Hi Hw|s i mg all Hi]; [| | | |by apply pod_stored].
  all: pose proof (pi_stamp _ _ I) as S; try pose proof (pi_phase _ _ I _ _ Hi) as P.
  - apply pod_enter_ok; [done|cbn; lia|by rewrite Hi].
  - apply pod_enter_ok; [done| |by rewrite Hi]. unfold pm_fresh in Hs. apply andb_true_iff in Hs as [V Hg]. destruct (pi_memo _ _ I V) as (all & A & E). split; [done|]. exists all.
    split; [|done]. eapply listed_weaken; [done| |done|exact A]. lia.
  - destruct I as [_ M B Ph L]. split; cbn [pod_memo pmBuilds pmMu pod_callers]; [done|done|rewrite Hu in B; lia| |].
    + apply (lookup_pod_entered _ _ _ (fun _ q => pod_phase_ok mx (pod_memo s) q)); [by split|intros j q _; apply Ph].
    + intros j. destruct (decide (j = i)) as [->|Hn]; [rewrite lookup_insert_eq; split; [by eexists|done]|]. rewrite lookup_insert_ne by done. split; [congruence|]. intros Hj. apply L in Hj. congruence.
  - apply pod_enter_ok; [done| |by rewrite Hi]. destruct P as [Tm St]. split; [done|]. split; [done|]. destruct (Lm Hw) as (v & Ev & Hv & E). exists v, (contents mx). split_and!; [lia|done|done|done].
Qed.

(** ** The whole system *)

Record sys_inv (s : sys) : Prop := {
  sv_mons : ix_ok mons_ok (mons_ix s); sv_svcs : ix_ok (fun _ => True) (svcs_ix s);
  sv_mon : mon_inv (mons_ix s) (svcs_ix s) (mon s); sv_pod : pod_inv (mons_ix s) (pod s) }.

Lemma mon_inv_init : sys_inv init.
Proof.
  split; cbn.
  - split; cbn; [done|done| |done]. apply Forall_singleton. split; apply map_Forall_empty.
  - split; cbn; [done|done|by repeat constructor|done].
  - split; cbn; [unfold sampled; cbn; lia|done|lia|intros i p E; by rewrite lookup_empty in E|]. intros i. split; [done|]. intros (p & E & _). by rewrite lookup_empty in E.
  - split; cbn; [lia|done|lia|intros i p E; by rewrite lookup_empty in E|]. intros i. split; [done|]. intros (p & E & _). by rewrite lookup_empty in E.
Qed.

Lemma mon_inv_reachable s : reachable s -> sys_inv s.
Proof.
  apply (rtc_ind_r sys_inv); [exact mon_inv_init|]. intros x y _ S I. destruct S as [mx sx s0 p mx' M|mx sx s0 p sx' M|mx sx s0 p s' M|mx sx s0 p p' M]; destruct I as [Im Is Jm Jp]; cbn in *.
  - destruct (moves_ok _ _ _ _ change_ok M Im) as [Im' G]. split; cbn; [done|done|by eapply mon_grown; [exact G|apply seen_refl|]|by eapply pod_grown].
  - destruct (moves_ok change (fun _ => True) _ _ (fun _ _ _ t => t) M Is) as [Is' G]. split; cbn; [done|done|by eapply mon_grown; [apply seen_refl|exact G|]|done].
  - split; cbn; [done|done|by eapply mon_step_ok|done].
  - split; cbn; [done|done|done|by eapply pod_step_ok].
Qed.

Lemma builds_bounded mx sx s : mon_inv mx sx s -> monBuilds s <= 1 + token mx + token sx.
Proof.
  intros [[Tm Ts] _ B P L]. destruct (monMu s) as [i|] eqn:E; [|destruct (monValid (memo_ s)); lia]. destruct (proj1 (L i) eq_refl) as (p & Hp & Hl). specialize (P _ _ Hp).
  assert (exists mg sg, sampled mx sx mg sg /\ mon_stale mg sg (memo_ s) = true) as (mg & sg & [Sm Ss] & St) by (destruct p; try done; cbn in P; do 2 eexists; by split; apply P).
  destruct (monValid (memo_ s)) eqn:V; [destruct (stale_gens _ _ _ St V)|]; lia.
Qed.

Lemma pod_builds_bounded mx s : pod_inv mx s -> pmBuilds s <= 1 + token mx.
Proof.
  intros [T _ B P L]. destruct (pmMu s) as [i|] eqn:E; [|destruct (pmValid (pod_memo s)); lia]. destruct (proj1 (L i) eq_refl) as (p & Hp & Hl). specialize (P _ _ Hp).
  assert (exists mg, 0 <= mg <= token mx /\ pm_fresh mg (pod_memo s) = false) as (mg & Tm & St) by (destruct p; try done; cbn in P; eexists; by split; apply P).
  unfold pm_fresh in St. destruct (pmValid (pod_memo s)); cbn in St; lia.
Qed.

(** The last version of an index that nobody is writing. *)
Lemma version_now {C : Type} (good : C -> Prop) (x : index C) v c (fin : nat) : ix_ok good x -> writing x = None -> token x <= Z.of_nat v -> (v < fin)%nat -> (fin <= length (history x))%nat -> history x !! v = Some c -> c = contents x.
Proof. intros I W Hv Hf Hl E. destruct (proj2 (ix_last _ _ I) W) as (u & Eu & Hu & Ec). pose proof (ix_len _ _ I) as L. rewrite W in L. assert (v = u) as -> by lia. congruence. Qed.

(** C18: Whatever monitors and Services change, between any two reads of a build
    and however long a caller waits for the lock after its samples,
    [monitoredServices] answers a match of the monitors of one moment no older
    than the sample of their token, each in order with an answer of the
    Services' index of a moment no older than the sample of that token, both
    before the call ended; when nothing changed since the samples that is the
    match of what the indexes hold.  [allPodMonitors] answers the list of a
    moment no older than its sample.  However many callers there are, and
    whatever they sampled, no more is built than one match for each change and
    one more. *)
Theorem monitored_current s : reachable s ->
  (forall i mg sg o fm fs, callers (mon s) !! i = Some (Answered mg sg o fm fs) ->
     (exists v x snaps, mg <= Z.of_nat v /\ (v < fm)%nat /\ history (mons_ix s) !! v = Some x /\ o = match_all (sortedMonitors (service_monitors x)) snaps /\
        Forall2 (fun m l => exists u d, sg <= Z.of_nat u /\ (u < fs)%nat /\ history (svcs_ix s) !! u = Some d /\ all_answer d (namespaces m) l) (sortedMonitors (service_monitors x)) snaps) /\
     (writing (mons_ix s) = None -> writing (svcs_ix s) = None -> mg = token (mons_ix s) -> sg = token (svcs_ix s) ->
        exists snaps, o = match_all (sortedMonitors (service_monitors (contents (mons_ix s)))) snaps /\
          Forall2 (fun m l => all_answer (contents (svcs_ix s)) (namespaces m) l) (sortedMonitors (service_monitors (contents (mons_ix s)))) snaps)) /\
  (forall i mg refs fm, pod_callers (pod s) !! i = Some (PodAnswered mg refs fm) ->
     exists v x, mg <= Z.of_nat v /\ (v < fm)%nat /\ history (mons_ix s) !! v = Some x /\ refs = allPodMonitors (sortedMonitors (pod_monitors x))) /\
  monBuilds (mon s) <= 1 + token (mons_ix s) + token (svcs_ix s) /\ pmBuilds (pod s) <= 1 + token (mons_ix s).
Proof.
  intros R. destruct (mon_inv_reachable s R) as [Im Is Jm Jp]. split; [|split; [|split; [by apply builds_bounded|by apply pod_builds_bounded]]].
  - intros i mg sg o fm fs Hi. destruct (mi_phase _ _ _ Jm _ _ Hi) as (Fm & Fs & v & x & ms & snaps & Hv & Hf & E & Em & S & Eo). rewrite app_nil_r in Em. subst ms. split; [by exists v, x, snaps|].
    intros Wm Ws -> ->. assert (x = contents (mons_ix s)) as -> by (by eapply version_now). exists snaps. split; [done|].
    eapply Forall2_impl; [exact S|]. intros m l (u & d & Hu & Hu' & Eu & A). assert (d = contents (svcs_ix s)) as <- by (by eapply version_now). done.
  - intros i mg refs fm Hi. destruct (pi_phase _ _ Jp _ _ Hi) as (Fm & all & (v & x & Hv & Hf & E & ->) & Er). by exists v, x.
Qed.
