(* ===== verification/TargetsExamples.v ===== *)
(** * Scrape targets, evaluated

    A pod behind a Service, scraped by annotation and by two monitors that
    disagree on a credential; and the properties of the derivation, the merge,
    the accumulator and the node's list at that point. *)

From stdpp Require Import sorting.
From S2P Require Import Prelude Clip Number Text Order KubeMeta Services Targets Collide Merge Dedup DedupSafe NodeTargets NodeTargetsPod NodeTargetsSafe NodeMonitors.
Local Open Scope Z_scope.

(** White space and durations as the standard library reads none of them here. *)
Definition ex_text : GoText := {|
  Regexp := bytes; Compile := Some; MatchString := fun re s => bool_decide (re = s);
  Text.ParseDuration := fun _ => None; ToUpper := id; TrimSpace := id |}.
#[local] Existing Instance ex_text.

Definition ex_labels : strmap := {[ text "app" := text "web" ]}.
Definition ex_pod (uid ip : bytes) : Pod :=
  mkPod (text "web") (text "shop") uid (text "node1") ip [ip] (text "10.1.0.1") (text "Running") ex_labels
    (<[AnnotationScrape := text "true"]> {[ AnnotationPort := text "8080,9090" ]}) None None None [] 0 [].
Definition ex_service : Service :=
  mkService (text "web") (text "shop") (text "svc-uid") ex_labels {[ AnnotationScrape := text "true" ]} ex_labels [mkPort (text "http") 8080 [] 0] [].
Definition ex_auth (secret : bytes) : ScrapeAuth := mkAuth false secret [] [] [] [] [] [] [] [].
Definition ex_ep (addr : Z) (secret interval : bytes) : Endpoint := mkEndpoint addr [] (Some (Int 8080)) [] [] (ex_auth secret) [mkRule (text "drop") [] interval] interval [] [].

Definition ex_one : Pod := ex_pod (text "uid1") (text "10.0.0.1").
Definition ex_ep1 : Endpoint := ex_ep 1 [] (text "30s").
Definition ex_ep2 : Endpoint := ex_ep 2 (text "token") (text "15s").
Definition ex_ep3 : Endpoint := ex_ep 3 (text "other") (text "1m").

Lemma ex_port_ok : monitor_port_ok (monitorEndpoint ex_one ex_service ex_ep1).
Proof. intros s p n E. vm_compute in E. injection E as _ _ <-. lia. Qed.

Lemma url_identity_witness : MonitorTargetURL ex_one ex_service ex_ep1 = Some (text "http://10.0.0.1:8080/metrics") /\
  MonitorTargetURL ex_one ex_service ex_ep1 = head (URL <$> MonitorTargets 7 ex_one ex_service (text "a/m") ex_ep1).
Proof. split; [reflexivity|]. exact (proj1 (proj1 (url_identity 7 8 ex_one ex_service ex_service (text "a/m") ex_ep1 ex_ep1 ex_port_ok ex_port_ok))). Defined.

Definition ex_target : ScrapeTarget := stampEndpoint (text "a/m") ex_ep1 (makeTarget ex_one (text "http") (text "/metrics") 8080).


(** ** The accumulator *)

Definition ex_offers : list offer :=
  (ADoor <$> PodTargets ex_one) ++ [AServiceMonitor ex_service (text "a/m") ex_ep1; AServiceMonitor ex_service (text "a/n") ex_ep2; APodMonitor (text "a/o") ex_ep3].

Lemma ex_proper : Forall (proper ex_one) ex_offers.
Proof. repeat constructor; discriminate. Qed.

Definition ex_state : targetDedup := rq_d new_request.
Definition ex_run : option (list DedupSafe.event * (monitorOffers * targetDedup)) := exec_all ex_one ex_offers (∅, reset [] ex_state) [].

Example ex_urls : (fun r : list DedupSafe.event * (monitorOffers * targetDedup) => (URL <$> out r.2.2, Monitors <$> out r.2.2)) <$> ex_run =
  Some ([text "http://10.0.0.1:8080/metrics"; text "http://10.0.0.1:9090/metrics"], [[text "a/m"; text "a/n"; text "a/o"]; []]).
Proof. vm_compute. reflexivity. Qed.

Lemma pod_targets_bounded_witness : exists log offers d, ex_run = Some (log, (offers, d)) /\ accounts ex_one d.
Proof. destruct (pod_targets_bounded ex_one ex_offers ex_state ex_proper) as (log & offers & d & E & A & _). exists log, offers, d. exact (conj E A). Defined.

(** The run's parts, without computing them. *)
Definition ex_log : list DedupSafe.event := default [] (fst <$> ex_run).
Definition ex_end : monitorOffers * targetDedup := default (∅, ex_state) (snd <$> ex_run).

Lemma ex_run_is : exec_all ex_one ex_offers (∅, reset [] ex_state) [] = Some (ex_log, (ex_end.1, ex_end.2)).
Proof.
  destruct (exec_all_tracks ex_one ex_offers (∅, reset [] ex_state) [] (accounts_reset _ _) (tracks_reset _ _) ex_proper) as (log & [o d] & E & _).
  unfold ex_log, ex_end, ex_run. by rewrite E.
Qed.

Lemma served_per_url_witness : servingAuth (text "http://10.0.0.1:8080/metrics") (text "a/m") ex_end.2 = text "a/n" /\
  forall u, strip <$> lookup_url u ex_end.2 = strip <$> served (at_url u ex_log).
Proof. split; [vm_compute; reflexivity|]. exact (proj1 (served_per_url ex_one ex_offers ex_state ex_log ex_end.1 ex_end.2 ex_proper ex_run_is)). Defined.

(** ** The node *)

(** Sorting with a merge sort; out of range there is a key like any other. *)
Definition ex_key (ts : list ScrapeTarget) (i : Z) : list bytes := default [[]; []; []; []] (target_key <$> ts !! Z.to_nat i).
Definition ex_le (ts : list ScrapeTarget) (a b : Z) : Prop := keys_leb (ex_key ts a) (ex_key ts b) = true.
#[local] Instance ex_le_dec ts : RelDecision (ex_le ts).
Proof. intros a b. unfold ex_le. apply _. Defined.
#[local] Instance ex_le_total ts : Total (ex_le ts).
Proof. intros a b. apply keys_total. Qed.
#[local] Instance ex_le_trans ts : Transitive (ex_le ts).
Proof.
  assert (L : forall i, length (ex_key ts i) = 4%nat) by (intros i; unfold ex_key; by destruct (ts !! Z.to_nat i)).
  intros a b c. apply keys_trans; by rewrite !L.
Qed.
Definition ex_sort (ts : list ScrapeTarget) (idx : list Z) : list Z := merge_sort (ex_le ts) idx.

Lemma ex_sorts : sorts ex_sort.
Proof.
  intros ts idx. split; [apply merge_sort_Permutation|]. assert (S : StronglySorted (ex_le ts) (ex_sort ts idx)) by (apply StronglySorted_merge_sort; apply _).
  induction S as [|a l _ IH F]; constructor; [exact IH|]. eapply Forall_impl; [exact F|]. intros b Hab x y Hx Hy. unfold ex_le, ex_key in Hab. rewrite Hx, Hy in Hab. exact Hab.
Qed.

Definition ex_all (ns : option (list bytes)) : list Service := [ex_service].
Definition ex_monitor : monitorBase := mkMonitor (text "a") (text "m") (Some [text "shop"]) (fun _ => true) [ex_ep1].
Definition ex_monitored : monitorMap := buildMonitoredServices ex_all [ex_monitor].
Definition ex_namespaces (nss : list bytes) : lists := {[ text "shop" := [ex_service] ]}.
Definition ex_svcs (ns : bytes) : list Service := default [] (ex_namespaces [] !! ns).
(** Both pods are of one ReplicaSet, and the second finds its owner in the memo. *)
Definition ex_ref : OwnerReference := mkRef (text "apps/v1") (text "ReplicaSet") (text "web-7d4b") (text "rs1") (Some true).
Definition ex_resolve (ns : bytes) (refs : list OwnerReference) : list Owner * Z := ((fun ref => owner (servedRefOf ref)) <$> refs, 0).
Definition ex_pods : list (Pod * list OwnerReference) := [(ex_pod (text "uid2") (text "10.0.0.2"), [ex_ref]); (ex_one, [ex_ref])].
Definition ex_node (pods : list (Pod * list OwnerReference)) : option (list ScrapeTarget * list report) :=
  nodeTargets (fun _ => 5) ex_resolve (fun _ => None) (fun _ => 100) ex_sort ex_namespaces ex_monitored [] pods.

Lemma ex_nul : Forall (fun m => nul_free (namespaces m)) [ex_monitor].
Proof. apply Forall_singleton, Forall_singleton. apply (bool_decide_unpack _). vm_compute. exact I. Qed.

Lemma ex_resolves : reads_served ex_resolve.
Proof.
  intros ns refs refs' E. unfold ex_resolve. f_equal. revert refs' E. induction refs as [|ref refs IH]; intros [|ref' refs'] E; [done|done|done|].
  rewrite !fmap_cons in E. apply (inj2 cons) in E as [E1 E]. by rewrite !fmap_cons, E1, (IH _ E).
Qed.

Lemma ex_pods_nul : nul_free_pods ex_pods.
Proof.
  unfold nul_free_pods, ex_pods. apply Forall_cons; split; [|apply Forall_singleton].
  all: split; [apply (bool_decide_unpack _); vm_compute; exact I|apply Forall_singleton].
  all: repeat split; apply (bool_decide_unpack _); vm_compute; exact I.
Qed.

Lemma ex_uids : NoDup ((fun np : Pod * list OwnerReference => pod_UID np.1) <$> ex_pods).
Proof. apply (bool_decide_unpack _). vm_compute. exact I. Qed.

Example ex_node_urls : (fun r : list ScrapeTarget * list report => URL <$> r.1) <$> ex_node ex_pods =
  Some [text "http://10.0.0.1:8080/metrics"; text "http://10.0.0.1:9090/metrics"; text "http://10.0.0.2:8080/metrics"; text "http://10.0.0.2:9090/metrics"].
Proof. vm_compute. reflexivity. Qed.

Lemma node_targets_exact_witness : exists targets, (exists reports, ex_node (reverse ex_pods) = Some (targets, reports)) /\ StronglySorted target_le targets.
Proof.
  destruct (node_targets_exact (fun _ => 5) ex_resolve (fun _ => None) (fun _ => 100) ex_sort ex_namespaces ex_svcs ex_monitored [] ex_pods ex_sorts (build_named ex_all [ex_monitor] ex_nul) (fun _ _ _ => eq_refl) ex_resolves ex_pods_nul ex_uids)
    as (targets & D & _ & S & _). exists targets. exact (conj (D (reverse ex_pods) (reverse_Permutation ex_pods)) S).
Defined.

(** A Service is indexed while a call matches the monitors: the call answers with
    it, and the stamp says it may not have. *)
Definition ex_index (d : Services.data) (ns : option (list bytes)) : list Service :=
  (All (fun n => (map_to_list (services_of d n)).*2) (map_to_list (Services.byNamespace d)).*1 NewIndex ns).2.

Lemma ex_readable (sx : index Services.data) : writing sx = None -> readable sx (ex_index (contents sx)).
Proof. intros W. split; [done|]. intros ns. by exists (fun n => (map_to_list (services_of (contents sx) n)).*2), (map_to_list (Services.byNamespace (contents sx))).*1. Qed.

Definition ex_k : kService := mkK (text "web") (text "shop") (text "svc-uid") (text "1") ∅ ∅ (list_to_map [(text "app", text "web")]) [].
Definition ex_mons : mons := (deliver false (Upserted (full_name ex_monitor) (text "7") (Some ex_monitor)) no_mons).1.
Definition ex_data : Services.data := default (held NewIndex) (upsert_locked (held NewIndex) ex_k (convert [] [] ex_k)).

Lemma ex_sorted : sortedMonitors (service_monitors ex_mons) = [ex_monitor].
Proof. vm_compute. reflexivity. Qed.

Lemma ex_answered : exists s o, reachable s /\ callers (mon s) !! 0%nat = Some (Answered 1 0 o 2 2) /\ is_Some (o !! text "svc-uid") /\ token (svcs_ix s) = 1.
Proof.
  do 2 eexists. split; [|].
  { eapply rtc_l; [apply step_monitors; eapply (moves_token _ _ _ _ ex_mons); exists false, (Upserted (full_name ex_monitor) (text "7") (Some ex_monitor)); split; [split; [done|exact (Forall_inv ex_nul)]|reflexivity]|].
    eapply rtc_l; [apply step_monitors, moves_contents|].
    eapply rtc_l; [apply step_mon, (step_sample_monitors _ _ _ 0%nat); reflexivity|].
    eapply rtc_l; [eapply step_mon, (step_sample_services _ _ _ 0%nat); reflexivity|].
    eapply rtc_l; [eapply step_mon, (step_miss _ _ _ 0%nat); reflexivity|].
    eapply rtc_l; [eapply step_mon, (step_all _ _ _ 0%nat); reflexivity|]. cbn [enter contents]. rewrite ex_sorted.
    eapply rtc_l; [apply step_services; eapply (moves_token _ _ _ _ ex_data); left; exists ex_k, (convert [] [] ex_k); vm_compute; reflexivity|].
    eapply rtc_l; [apply step_services, moves_contents|].
    eapply rtc_l; [eapply step_mon, (step_match _ _ _ 0%nat); [reflexivity|right; apply ex_readable; reflexivity]|].
    eapply rtc_l; [eapply step_mon, (step_store _ _ _ 0%nat); reflexivity|]. apply rtc_refl. }
  split; [reflexivity|]. split; [|reflexivity]. vm_compute. by eexists.
Qed.

Lemma monitored_current_witness : exists s o, reachable s /\ callers (mon s) !! 0%nat = Some (Answered 1 0 o 2 2) /\ monBuilds (mon s) <= 1 + token (mons_ix s) + token (svcs_ix s).
Proof. destruct ex_answered as (s & o & R & C & _). exists s, o. exact (conj R (conj C (proj1 (proj2 (proj2 (monitored_current s R)))))). Defined.

(** The group that is met first is not the first in the list: the order is that
    of the second members. *)
Definition ex_served : list ScrapeTarget :=
  [makeTarget ex_one (text "http") (text "/m") 8080; makeTarget ex_one (text "http") (text "/m") 9090;
   makeTarget ex_one (text "http") (text "/n") 9090; makeTarget ex_one (text "https") (text "/m") 8080].

Example collisions_order : (map ic_Address <$> Collisions ex_served) = Some [text "10.0.0.1:9090"; text "10.0.0.1:8080"].
Proof. vm_compute. reflexivity. Qed.
